(* ===== verification/_CoqProject ===== *)
-Q . S2P
Prelude.v
Collections.v
F64.v
Eth.v
Solvable.v
ConstantProduct.v
LimitOrder.v
FixedPoint.v
LogExp.v
WeightedMath.v
StableMath.v
BalancerSwap.v
BaselineSolver.v
Liquidity.v
Baseline.v
Mandate.v
Dto.v
MandateApi.v
Metrics.v
Config.v
Solution.v
Engine.v
AuctionApi.v
Score.v
Arbitrator.v
DriverOrder.v
OrderModel.v
DriverTrade.v
DriverScore.v
DriverSolution.v
AutopilotBids.v
DriverCompetition.v
DriverSettle.v
EventHandling.v
RateLimit.v
DriverEncoding.v
AutopilotSettlement.v
AutopilotTrade.v
CompetitionStore.v
AutopilotAccounting.v
AppData.v
OrderCreation.v
OrderQuoting.v
OrderValidation.v
BannedUsers.v
OrdersDb.v
SolvableOrders.v
RemainingAmounts.v
AutopilotFee.v
AuctionBuilding.v
OrderStoring.v
Orderbook.v
QuoteHandler.v
OnchainOrders.v
PriceEstimation.v
NativePriceCache.v
DriverLiquidity.v
DriverSolverApi.v
SettlementEncoder.v
SolverLiquidity.v
RecentBlockCache.v
GasPrices.v
Refunder.v
RunLoop.v
CowAmm.v
DriverSimulation.v
DriverMempools.v
DriverPreProcessing.v
TokenDetection.v
RiskDetector.v
UniswapV3Pools.v
