(* ===== verification/Prelude.v ===== *)
(** * A verification library for the Mandate solver

    The repository is a Rust workspace.  Its [solvers] binary routes trades over
    on-chain liquidity: it serves the Mandate endpoints, which route one signed
    intent at a time over the venues its signer allowed, and the auction endpoint,
    which solves a batch of orders.  The [driver] stands between an auction and a
    solver: it funds and sorts the orders, takes protocol fees, merges, scores and
    encodes solutions and submits the settlement it is told to.  The [autopilot]
    collects the drivers' bids, picks winners with the [winner-selection] crate,
    indexes events of the chain and accounts for the settlements it observes there;
    before that it builds the auction from the orders in the database.  The
    [orderbook] validates, stores, quotes and cancels these orders, and the [refunder]
    pays back expired orders that sold ether.  This library models that code as
    executable definitions and proves what makes it correct.

    ** The parts and how they interact

<<
    POST /mandate/solve, /mandate/quote          POST /solve
        MandateApi   (validation, responses)         AuctionApi
        Metrics      (admission, accounting)         Engine   (orders, attempts, price)
        Mandate      (venue filter, floor)           Solution (fees, limits, buffers)
              \                                        /
               Baseline        (register liquidity, choose a route)
               BaselineSolver  (candidate paths, estimates)
               Solvable        (the interface of a pool)
        ConstantProduct  LimitOrder  BalancerSwap  (and a Uniswap V3 quoter)
                                 WeightedMath, StableMath, LogExp, FixedPoint

    Dto (wire liquidity)   Config (limits)

    Driver                                       Autopilot
        DriverPreProcessing (balances, app data)  RunLoop (cut, solve, settle, leader)
        DriverCompetition (fund, sort, merge), RiskDetector
        DriverSolverApi, DriverLiquidity  <---> AuctionApi (the solver)
        DriverTrade, DriverScore, DriverSolution
              |  bid ------------------------->  AutopilotBids -> Arbitrator, Score
        DriverSettle (cache and queue)           CompetitionStore (tables)
        DriverEncoding (settlement call)               |
        DriverSimulation (checks, gas)                 |
        DriverMempools, GasPrices (submission)         |
              |  transaction -- chain ---------> AutopilotSettlement (decode)
                                                 AutopilotTrade (surplus, fees)
        RateLimit, OrderModel                    AutopilotAccounting, EventHandling

    Orderbook                                    Autopilot
        Orderbook (add, replace, cancel)         OnchainOrders (events -> orders)
        OrderValidation, BannedUsers             SolvableOrders (incremental reads)
        QuoteHandler, OrderQuoting               AuctionBuilding (filters, prices)
        OrderStoring -- OrdersDb (tables) ------>   RemainingAmounts, AutopilotFee
        OrderCreation, AppData
        PriceEstimation, NativePriceCache        RecentBlockCache, CowAmm
        TokenDetection                           UniswapV3Pools (over EventHandling)

    Solver crate                                 Refunder
        SettlementEncoder, SolverLiquidity           Refunder (over OrdersDb, GasPrices)
>>

    A pool is an instance of the class [BaselineSolvable]; [SolvableSafe] states
    what routing needs from it (a well-formed pool answers without panicking and
    within [U256]).  The routing theorems are proved against these classes and the
    pool files discharge them; [Dto] shows that decoding a request establishes the
    well-formedness they assume, so that the endpoint theorems only assume facts
    about the decoded wire values.  In the same way the class [OrderQuoting] is what
    order validation and the indexing of on-chain orders know of the quoter (the
    instance [OrderQuoter] discharges its laws from [OrderQuoting.v]), and
    [OrderValidating] what the order book knows of the validator.  [OrdersDb] holds
    the tables that the order book, the indexer and the auction builder share.

    ** Files and the code they model (paths under [crates/])

    - [Prelude]: panics, results, machine-width integers and the shared tactics;
      [Collections]: Rust's orderings, [max_by]/[min_by], sorting, [BTreeMap];
      [F64]: the IEEE double operations the code uses, from the Standard Library.
    - [Eth]: [solvers/src/domain/eth], [model/src/lib.rs] ([TokenPair]),
      [domain/auction.rs] ([Price]).
    - [Solvable]: the trait [BaselineSolvable] of [shared/src/baseline_solver.rs].
    - [ConstantProduct]: [shared/src/sources/uniswap_v2/pool_fetching.rs] and the
      domain and boundary modules of [solvers] for it.
    - [LimitOrder]: [solvers/src/boundary/liquidity/limit_order.rs].
    - [FixedPoint], [LogExp], [WeightedMath], [StableMath], [BalancerSwap]:
      [shared/src/sources/balancer_v2/swap] and the conversions of domain pools.
    - [BaselineSolver]: the rest of [shared/src/baseline_solver.rs].
    - [Liquidity]: [solvers/src/domain/liquidity], [order.rs], the request and route
      types of [solver.rs].
    - [Baseline]: [solvers/src/boundary/baseline.rs] and [concentrated.rs].
    - [Mandate]: [solvers/src/domain/mandate.rs]; [MandateApi]:
      [solvers/src/api/routes/mandate]; [Metrics]: [solvers/src/infra/metrics.rs]
      and the middleware of [solvers/src/api/mod.rs].
    - [Dto]: [solvers/src/api/routes/solve/dto/auction.rs] (liquidity),
      [solvers/src/util/conv.rs], [solvers-dto/src/auction.rs].
    - [Config]: [chain/src/lib.rs], [solvers/src/infra/config.rs].
    - [Solution]: [solvers/src/domain/solution.rs]; [Engine]:
      [solvers/src/domain/solver.rs]; [AuctionApi]: [solvers/src/api/routes/solve]
      and [solvers-dto/src/solution.rs].
    - [Score], [Arbitrator]: [winner-selection/src] and [number/src/u256_ext.rs].
    - [DriverOrder], [DriverTrade], [DriverScore], [DriverSolution]:
      [driver/src/domain/competition/order], [solution/trade.rs], [fee.rs],
      [scoring.rs], [mod.rs] and [settlement.rs]; [DriverCompetition],
      [DriverSettle]: [competition/mod.rs], [auction.rs] and [sorting.rs];
      [DriverEncoding]: [solution/encoding.rs] and [slippage.rs].
    - [OrderModel]: [model/src/order.rs] and [signature.rs] (signed order data, uids,
      signatures).
    - [AutopilotBids]: [autopilot/src/domain/competition] and the solve response on
      both sides; [AutopilotSettlement], [AutopilotTrade], [AutopilotAccounting]:
      [autopilot/src/domain/settlement] and [get_auction] of
      [infra/persistence/mod.rs]; [CompetitionStore]:
      [database/src/solver_competition_v2.rs], [fee_policies.rs] and what writes
      them.
    - [EventHandling]: [shared/src/event_handling.rs]; [RateLimit]:
      [rate-limit/src/lib.rs].
    - [AppData]: [app-data/src] and the documents' table; [OrderCreation]: order
      creation, cancellation and quote requests of [model/src]; [OrderQuoting]:
      [shared/src/order_quoting.rs], [fee.rs] and [database/src/quotes.rs];
      [OrderValidation]: [shared/src/order_validation.rs]; [BannedUsers]:
      [order-validation/src/banned.rs].
    - [OrdersDb]: [database/src/orders.rs], [order_events.rs], [ethflow_orders.rs],
      [onchain_broadcasted_orders.rs], [onchain_invalidations.rs] and
      [shared/src/db_order_conversions.rs].
    - [OrderStoring]: [orderbook/src/database/orders.rs]; [Orderbook]:
      [orderbook/src/orderbook.rs]; [QuoteHandler]: [orderbook/src/quoter.rs].
    - [SolvableOrders]: [solvable_orders_after] of [autopilot/src/infra/persistence]
      and [autopilot/src/database/auction.rs]; [RemainingAmounts]:
      [shared/src/remaining_amounts.rs]; [AutopilotFee]:
      [autopilot/src/domain/fee]; [AuctionBuilding]:
      [autopilot/src/solvable_orders.rs]; [OnchainOrders]:
      [autopilot/src/database/onchain_order_events].
    - [PriceEstimation]: [shared/src/price_estimation/competition], [sanitized.rs] and
      [native/mod.rs]; [NativePriceCache]: [price_estimation/native_price_cache.rs];
      [RecentBlockCache]: [shared/src/recent_block_cache.rs].
    - [DriverLiquidity]: [driver/src/domain/liquidity] and the encoding of its
      interactions; [DriverSolverApi]: [driver/src/infra/solver/dto]; [GasPrices]:
      [shared/src/gas_price_estimation] and [driver/src/infra/blockchain/gas.rs];
      [DriverPreProcessing]: [driver/src/domain/competition/pre_processing.rs] and
      [order/app_data.rs]; [DriverSimulation]: [solution/settlement.rs],
      [driver/src/infra/simulator] and [infra/blockchain/mod.rs]; [DriverMempools]:
      [driver/src/domain/mempools.rs] and [infra/mempool].
    - [TokenDetection]: [shared/src/bad_token]; [RiskDetector]:
      [driver/src/domain/competition/risk_detector]; [UniswapV3Pools]:
      [shared/src/sources/uniswap_v3].
    - [CowAmm]: [cow-amm/src], [database/src/cow_amms.rs] and
      [driver/src/domain/cow_amm.rs].
    - [SettlementEncoder]: [solver/src/settlement]; [SolverLiquidity]:
      [solver/src/liquidity], [interactions], [liquidity_collector.rs] and
      [shared/src/zeroex_api.rs].
    - [RunLoop]: [autopilot/src/run_loop.rs], [leader_lock_tracker.rs] and the tables
      [auctions], [settlements], [settlement_executions] with the locks of
      [database/src/leader_pg_lock.rs].
    - [Refunder]: [refunder/src] and the query of [database/src/ethflow_orders.rs].

    ** How code becomes definitions

    A [U256] is a [Z]; [checked_*], [saturating_*] and wrapping operators are
    written out ([checked_add] and the like), and [u256] says that a value is in
    range.  Code that can panic returns [comp]; an [Option] is an [option]; a
    [Result] is a [result].  [let!], [let?], [let!?], [letr] and [let!r] are the
    binds of these, in [rust_scope].  A [HashMap] is a [gmap] and a [HashSet] a
    [gset] where the order cannot be seen; where it can (choosing among equally
    good candidates) it is a list, read through a parameter [iter] of which only
    [iter l ≡ₚ l] is assumed.  Futures that are joined become lists of results, as
    the quotes do not interact.  The middleware is a step relation whose steps are
    the events of a request (admitted, shed, body rejected, handler started,
    returned, panicked, timed out), and its theorem holds of every reachable state;
    the driver's settlement cache and queue, the native price cache, the cache of recent
    blocks, the fetcher of pools and the autopilot's loop are such relations too.  An
    operation that asks a node or a service takes its answers as a record (a [SubmitEnv]
    for one submission), so that a theorem over all such records covers every behaviour of
    the outside.  A database table is a map from its primary key, and a query returns its
    rows in any order.

    Where a theorem speaks of what a client, a contract or a chain would call right, it does
    so in words of its own, not with the predicates of the code: [contract_event] of
    [UniswapV3Pools] is what the pool contract does with an event, [worth] of
    [PriceEstimation] what an estimate is worth once gas is paid, [transfers_through] of
    [TokenDetection] what two good transfers are, [authorised] of [OrderValidation] who may
    place an order, and the logs of [DriverSettle], [NativePriceCache] and
    [RecentBlockCache] record what happened, so that the theorems can say that an answer or a
    submission goes back to it.

    ** What the theorems show

    - Endpoints: [solve_endpoint_sound], [endpoints_consistent],
      [auction_endpoint_sound], [mandate_accounting].
    - Intents: [solve_honours_intent], [solve_optimal], [quote_solve_consistent].
    - Routing: [route_sell_best], [route_buy_best], [route_beats_every_pool_choice]
      (greedy choice per hop is optimal over all choices of pools when pools are
      monotone), [route_order_independent], [path_candidates_exact],
      [relevant_pairs_cover], and [load_bounds_candidates] for the configured
      limits.
    - Pools: quoting an input and selling it back yields at least the requested
      output ([cp_quote_round_trip], [balancer_quote_round_trip],
      [swap_fee_round_trip]), invariants and rates hold ([cp_swap_keeps_invariant],
      [lo_rate_respected]), and no arithmetic overflows or panics on any [U256]
      input ([pow_total], [weighted_formulas_safe], [stable_swaps_safe]).
    - Decoding: [decoding_establishes_wf] (with a quoter routing also needs a concentrated
      pool's fee to fit in 24 bits, which decoding does not check),
      [ether_decimal_round_trip], [chain_id_round_trip].
    - Auctions: [single_solution_fair], [internalizations_within_buffers],
      [engine_sound].
    - Winner selection: [scored_order_respects_limit],
      [better_execution_scores_higher], [arbitrate_winners], [arbitrate_fair],
      [reference_scores_cover_winners].
    - The life of a solution: the driver's score is the auctioneer's
      ([driver_score_agrees]), bids are neither lost nor invented
      ([arbitrate_bids_complete]), the transaction the driver encodes is decoded to
      the same trades ([settlement_round_trip]), the settlement is attributed to the
      winning solution ([settlement_attributed], [competition_round_trip]) and pays
      the surplus and fees the score was computed from ([settled_fees_agree],
      [get_auction_policies]); [uid_identifies_order] for the orders' names.
    - Driver: [protocol_fees_keep_limit] (for fees on the surplus or the improvement over a
      quote), [protocol_fees_conserve], [merge_keeps_prices], [merge_terminates] (without a
      panic when common prices are positive), [balances_not_overallocated],
      [settled_at_most_once] (a submission answers a request, of a settlement that was
      cached and neither voided nor submitted before), [settle_submits_the_request]; the
      driver and the solver
      understand each other ([driver_accepts_solver]); a settlement is simulated and paid
      for before it is bid with ([settlement_executable]), and submitting it returns what
      happened on chain and sends a cancellation at a bumped price for a transaction that
      expired or started to fail ([settlement_submission], [gas_price_estimate_bounds]).
    - Prices and pools: [competition_picks_best], [cached_prices_fresh],
      [block_cache_answers] (a key is only left out after its own fetch failed); pools
      brought to a block by their events are the contract's ([fetched_pools_are_current],
      [apply_event_consistent], [burn_undoes_mint]).
    - Tokens and orders to leave out: [token_detection] (fees on the way out of the
      settlement contract are not detected), [cached_quality],
      [refreshed_before_expiry], [filter_leaves_out], [frozen_orders_failed].
    - The loop: an order in flight is not auctioned again
      ([in_flight_orders_left_out]).  Settlements built by the solver crate hold what was
      added to them ([settlement_encoder_faithful]); refunds go only to owners of expired
      orders ([refunds_only_eligible]); AMMs are cached as they are stored
      ([append_synced], [replace_synced]).
    - Orders: what is accepted passed the checks that apply to its kind of signature and app
      data ([accepted_order_sound]), is stored and read back ([stored_order_round_trip],
      where the numbers of a quote pass through columns of floats; [placements_indexed],
      where a new row has the signed validity instead of the user's), and is cancelled
      only by its owner ([cancellation_authorised]); quotes are found again
      and fit the order they price ([quote_round_trip], [found_quote_fits]);
      [banned_cache_transparent].
    - Building an auction: whatever happens to the database, the cache holds of each order
      what a full query returns of the database in which the order was last looked at
      ([incremental_reads_refine_full]), no order is lost or reported twice on the way into
      the auction ([update_accounts_for_orders]), and what remains of an order is covered
      by its owner's balance ([remaining_affordable]).  The first is about orders whose own
      rows are consistent ([row_ok]: the validity in force is the user's), which the
      indexing of on-chain orders does not establish, see [ethflow_validity_lost]; changes
      that the incremental query does not look at are missed ([late_event_missed],
      [reorganization_missed]).
    - Chain and clients: [update_events_refines_chain] (for chains that do not get shorter),
      [rate_limiter_recovers], [retry_first_success].
    - Deviations: [route_tie_depends_on_iteration_order] (the tie-breaker of routes
      is not total), [concentrated_fee_panics] (a 32-bit fee decodes but panics when
      registered), [excess_attempts_drop_orders] (more than 256 partial attempts
      divide by zero and lose the rest of the auction), [duplicate_bids_panic] (two
      solutions of a driver with the same id stop the auction),
      [ethflow_validity_lost] (a new on-chain order is returned as open after it
      expired), [reindexed_hooks_repeated], [refund_indexing_skips_blocks],
      [find_not_least_fee], [find_by_id_ignores_quote_kind], [gas_limit_wraps],
      [partner_fees_compound_above_cap], [price_improvement_spelling],
      [replaced_order_keeps_event], [same_auction_runs_twice], [early_outcome_lost],
      [lost_leader_gauge], [effective_eth_out_panics], [background_update_requests],
      [short_jit_signature_panics], [zero_taker_amount_panics], [late_expiry_panics],
      [failed_fetch_cached], [update_drops_previous_blocks], [surcharge_of_tip],
      [blocks_129_partial] and [shorter_chain_keeps_events] (events that an update leaves out
      or keeps), [volume_fee_breaks_limit], [merge_examples] (a price of 0 makes merging
      panic),
      [replacement_exceeds_cap], [replacement_lowers_tip], [low_price_not_bumped],
      [transport_error_is_revert], [separated_orders_not_pessimistic],
      [empty_request_hangs], [no_tokens_panics], [fee_on_transfer_out_accepted] (a fee on
      the way out is not found), [fresh_quality_unused] (the cache of tokens answers only
      with expired entries), [sample_buy_amount], [maintenance_within_fetch] (pools without
      some of their events) and [empty_position_panics].

    ** Parameters

    [iter] above; a [Quoter] for the Uniswap V3 quoter contract (its answers are
    [uint256] values); [to_u32], the conversion
    of a decimal of the [bigdecimal] crate (results below [2^32]); the conversions
    between [f64] and integers of the number crates ([f64_from_u256],
    [u256_from_f64], [biguint_from_f64]); the clock [timestamp]; [aborted_after],
    how far the background task got when the deadline struck;
    [deployment_address], the WETH deployments of the generated bindings;
    [keccak256] and [ecrecover] of the cryptographic libraries; the class
    [SettlementAbi] for the generated contract encoders (decoding undoes encoding)
    and [swap] for the pools' own encoders; [is_valid_solver], the on-chain list of
    solvers; the node of [EventHandling]; [arrange], the order of a query's rows;
    [from_slice], [from_value] and [to_value] of the JSON crate and [utf8]; the price
    estimators, the balance fetcher, the token and signature checks and the registry of
    sanctioned users, as functions from a query to its answer; [DecimalOps] with
    [DecimalLaws] for the decimal crate; [trampoline] and [execute_calldata] for the
    contract that runs hooks; [completed], the order in which concurrent
    requests complete; [scaled_by_pct] (which rounds down) and [calc_effective_gas_price] of
    the Ethereum library; [bd_to_f64] and [bd_from_f64], the conversions of the decimal
    crate, of which no round trip is assumed; the class [Node] for what the driver asks a node while it simulates and
    [ChainRead] for what the refunder asks; the helper contracts of AMMs; the subgraph of
    [UniswapV3Pools] and the order its unstable sort leaves equal pools in.  Each
    theorem that assumes something of a parameter is applied at a concrete one.

    ** Bounds and fuel

    [exp] and [_ln] call themselves at most once (for a negative exponent and for
    an argument below one), so fuel 2 is enough; [pow_total] shows that it never
    runs out.  The loops of [calculate_invariant] and
    [get_token_balance_given_invariant_and_all_other_balances] run
    [NEWTON_ROUNDS] = 255 times and [converge_in_amount] 6 times, as in the code,
    which returns an error afterwards.  [merge] recurses at most once
    ([merge_terminates]); the search for a settlement call has one unit of fuel for
    each frame of the trace, which [find_settlement_spec] shows to be enough; batches
    of fee policies take one unit each ([concat_batches]).  Everything else is
    structural.

    ** Not modelled

    JSON and TOML syntax, HTTP transport, tracing and the metrics registry: they are
    libraries the code calls, and the models start from the decoded values.  Fetching
    pool state over RPC (the other pool fetchers of [shared/src/sources] and the liquidity
    collectors of the driver) and the verification of quotes by simulation are sequences of contract calls whose meaning is in contracts and
    generated bindings that are not part of the repository; the models take their answers
    as parameters.  The SQL of user orders, trades and statistics only serves display.  The
    estimators that ask solvers or price services are HTTP clients.  Command lines, process
    start-up, the end-to-end tests and the contract bindings are left out.
*)

From stdpp Require Import base gmap sets list strings sorting.
From Stdlib Require Import ZArith Lia.

Open Scope Z_scope.

(** ** Panics

    Rust code that calls [unwrap], [expect], [assert!] or divides by zero can
    abort the task.  A definition that models such code returns a [comp]; the
    theorems show where [Panic] is unreachable. *)
Inductive comp (A : Type) : Type :=
| Ret (a : A)
| Panic.
Arguments Ret {A} a.
Arguments Panic {A}.

Definition comp_bind {A B} (c : comp A) (k : A -> comp B) : comp B :=
  match c with Ret a => k a | Panic => Panic end.

(** Binding through [comp (option A)]: a Rust [?] in panicking code. *)
Definition comp_obind {A B} (c : comp (option A)) (k : A -> comp (option B))
  : comp (option B) :=
  match c with
  | Ret (Some a) => k a
  | Ret None => Ret None
  | Panic => Panic
  end.

(** [Result<T, E>]. *)
Inductive result (E A : Type) : Type :=
| Ok (a : A)
| Err (e : E).
Arguments Ok {E A} a.
Arguments Err {E A} e.

(** Binding through [comp (result E A)]: a Rust [?] on a [Result] in panicking
    code. *)
Definition comp_rbind {E A B} (c : comp (result E A)) (k : A -> comp (result E B))
  : comp (result E B) :=
  match c with
  | Ret (Ok a) => k a
  | Ret (Err e) => Ret (Err e)
  | Panic => Panic
  end.

(** [Option::expect] / [Option::unwrap]. *)
Definition expect {A} (o : option A) : comp A :=
  match o with Some a => Ret a | None => Panic end.

Definition result_bind {E A B} (c : result E A) (k : A -> result E B) : result E B :=
  match c with Ok a => k a | Err e => Err e end.

(** [Option::ok_or] and [Result::ok]. *)
Definition ok_or {E A} (o : option A) (e : E) : result E A :=
  match o with Some a => Ok a | None => Err e end.
Definition ok {E A} (r : result E A) : option A :=
  match r with Ok a => Some a | Err _ => None end.

Declare Scope rust_scope.
Delimit Scope rust_scope with rust.
Notation "'let!' x := c 'in' k" := (comp_bind c (fun x => k))
  (at level 10, x pattern, c at level 200, k at level 200) : rust_scope.
Notation "'let?' x := c 'in' k" := (match c with Some x => k | None => None end)
  (at level 10, x pattern, c at level 200, k at level 200) : rust_scope.
Notation "'let!?' x := c 'in' k" := (comp_obind c (fun x => k))
  (at level 10, x pattern, c at level 200, k at level 200) : rust_scope.
Notation "'letr' x := c 'in' k" := (result_bind c (fun x => k))
  (at level 10, x pattern, c at level 200, k at level 200) : rust_scope.
Notation "'let!r' x := c 'in' k" := (comp_rbind c (fun x => k))
  (at level 10, x pattern, c at level 200, k at level 200) : rust_scope.
Open Scope rust_scope.

Lemma comp_bind_Ret {A B} (c : comp A) (k : A -> comp B) (b : B) :
  comp_bind c k = Ret b <-> exists a, c = Ret a /\ k a = Ret b.
Proof. destruct c; simpl; naive_solver. Qed.

Lemma comp_obind_Some {A B} (c : comp (option A)) (k : A -> comp (option B)) (b : B) :
  comp_obind c k = Ret (Some b) <-> exists a, c = Ret (Some a) /\ k a = Ret (Some b).
Proof. destruct c as [[a|]|]; simpl; naive_solver. Qed.

Lemma comp_rbind_Ok {E A B} (c : comp (result E A)) (k : A -> comp (result E B)) (b : B) :
  comp_rbind c k = Ret (Ok b) <-> exists a, c = Ret (Ok a) /\ k a = Ret (Ok b).
Proof. destruct c as [[a|]|]; simpl; naive_solver. Qed.

Lemma expect_Ret {A} (o : option A) (a : A) : expect o = Ret a <-> o = Some a.
Proof. destruct o; simpl; naive_solver. Qed.

Lemma result_bind_Ok {E A B} (c : result E A) (k : A -> result E B) (b : B) :
  result_bind c k = Ok b <-> exists a, c = Ok a /\ k a = Ok b.
Proof. destruct c; simpl; naive_solver. Qed.

(** Continuations that agree on every value can be exchanged, so that rewriting
    works under the binds. *)
#[export] Instance result_bind_proper {E A B} :
  Proper (eq ==> pointwise_relation A eq ==> eq) (@result_bind E A B).
Proof. intros c ? <- k k' Hk. destruct c; simpl; auto. Qed.

#[export] Instance comp_bind_proper {A B} :
  Proper (eq ==> pointwise_relation A eq ==> eq) (@comp_bind A B).
Proof. intros c ? <- k k' Hk. destruct c; simpl; auto. Qed.

Lemma ok_or_Ok {E A} (o : option A) (e : E) (a : A) : ok_or o e = Ok a <-> o = Some a.
Proof. destruct o; simpl; naive_solver. Qed.

Lemma ok_Some {E A} (r : result E A) (a : A) : ok r = Some a <-> r = Ok a.
Proof. destruct r; simpl; naive_solver. Qed.

(** A computation is safe when it does not panic. *)
Definition safe {A} (c : comp A) : Prop := c <> Panic.

Lemma safe_Ret {A} (a : A) : safe (Ret a).
Proof. discriminate. Qed.

Lemma safe_bind {A B} (c : comp A) (k : A -> comp B) :
  safe c -> (forall a, c = Ret a -> safe (k a)) -> safe (comp_bind c k).
Proof. destruct c; simpl; [auto|done]. Qed.

Lemma safe_obind {A B} (c : comp (option A)) (k : A -> comp (option B)) :
  safe c -> (forall a, c = Ret (Some a) -> safe (k a)) -> safe (comp_obind c k).
Proof. destruct c as [[a|]|]; simpl; unfold safe; auto. Qed.

Lemma safe_rbind {E A B} (c : comp (result E A)) (k : A -> comp (result E B)) :
  safe c -> (forall a, c = Ret (Ok a) -> safe (k a)) -> safe (comp_rbind c k).
Proof. destruct c as [[a|]|]; simpl; unfold safe; auto. Qed.

Lemma safe_inv {A} (c : comp A) : safe c -> exists a, c = Ret a.
Proof. destruct c; [eauto|done]. Qed.

(** [returns c Q]: the computation terminates without panicking, with a result
    that satisfies [Q]. *)
Definition returns {A} (c : comp A) (Q : A -> Prop) : Prop :=
  match c with Ret a => Q a | Panic => False end.

Lemma returns_Ret {A} (a : A) (Q : A -> Prop) : Q a -> returns (Ret a) Q.
Proof. done. Qed.

Lemma returns_bind {A B} (c : comp A) (k : A -> comp B) (P : A -> Prop) (Q : B -> Prop) :
  returns c P -> (forall a, P a -> returns (k a) Q) -> returns (comp_bind c k) Q.
Proof. destruct c; simpl; auto; done. Qed.

Lemma returns_mono {A} (c : comp A) (P Q : A -> Prop) :
  returns c P -> (forall a, P a -> Q a) -> returns c Q.
Proof. destruct c; simpl; auto. Qed.

Lemma returns_safe {A} (c : comp A) (Q : A -> Prop) : returns c Q -> safe c.
Proof. by destruct c. Qed.

Lemma returns_inv {A} (c : comp A) (Q : A -> Prop) :
  returns c Q -> exists a, c = Ret a /\ Q a.
Proof. destruct c; simpl; [eauto|done]. Qed.

(** [Iterator::map] with a closure that may panic. *)
Fixpoint comp_map {A B} (f : A -> comp B) (l : list A) : comp (list B) :=
  match l with
  | [] => Ret []
  | x :: l => let! y := f x in let! k := comp_map f l in Ret (y :: k)
  end.

Lemma comp_map_returns {A B} (f : A -> comp B) (R : A -> B -> Prop) l :
  (forall x, x ∈ l -> returns (f x) (R x)) -> returns (comp_map f l) (Forall2 R l).
Proof.
  induction l as [|x l IH]; intros Hf; simpl; [constructor|].
  eapply returns_bind; [apply Hf; set_solver|]. intros y Hy.
  eapply returns_bind; [apply IH; set_solver|]. intros k Hk. simpl. by constructor.
Qed.

Lemma comp_map_Ret {A B} (f : A -> comp B) l k :
  comp_map f l = Ret k <-> Forall2 (fun x y => f x = Ret y) l k.
Proof.
  revert k; induction l as [|x l IH]; intros k; simpl.
  { split; [by intros [= <-]|by intros ->%Forall2_nil_inv_l]. }
  rewrite comp_bind_Ret. setoid_rewrite comp_bind_Ret. setoid_rewrite IH. split.
  - intros (y & Hy & k' & Hk & [= <-]). by constructor.
  - intros (y & k' & Hy & Hk & ->)%Forall2_cons_inv_l. eauto 10.
Qed.

(** [collect::<Option<Vec<_>>>()] of a mapped iterator that may panic. *)
Fixpoint comp_omap {A B} (f : A -> comp (option B)) (l : list A) : comp (option (list B)) :=
  match l with
  | [] => Ret (Some [])
  | x :: l => let!? y := f x in let!? k := comp_omap f l in Ret (Some (y :: k))
  end.

Lemma comp_omap_safe {A B} (f : A -> comp (option B)) l :
  (forall x, x ∈ l -> safe (f x)) -> safe (comp_omap f l).
Proof.
  induction l as [|x l IH]; intros Hf; simpl; [apply safe_Ret|].
  apply safe_obind; [apply Hf; set_solver|]. intros y _.
  apply safe_obind; [apply IH; set_solver|]. intros k _. apply safe_Ret.
Qed.

Lemma comp_omap_Some {A B} (f : A -> comp (option B)) l k :
  comp_omap f l = Ret (Some k) <-> Forall2 (fun x y => f x = Ret (Some y)) l k.
Proof.
  revert k; induction l as [|x l IH]; intros k; simpl.
  { split; [by intros [= <-]|by intros ->%Forall2_nil_inv_l]. }
  rewrite comp_obind_Some. setoid_rewrite comp_obind_Some. setoid_rewrite IH. split.
  - intros (y & Hy & k' & Hk & [= <-]). by constructor.
  - intros (y & k' & Hy & Hk & ->)%Forall2_cons_inv_l. eauto 10.
Qed.

(** ** Machine integers

    An unsigned [w]-bit integer is a [Z] in [[0, 2^w)].  The operations below
    are the ones the source uses of Rust's and alloy's integers, written out
    at their width. *)
Definition fits (w a : Z) : bool := (0 <=? a) && (a <? 2 ^ w).

Definition u256 (a : Z) : Prop := 0 <= a < 2 ^ 256.
Definition U256_MAX : Z := 2 ^ 256 - 1.

Definition checked_add (a b : Z) : option Z :=
  if a + b <=? U256_MAX then Some (a + b) else None.
Definition checked_sub (a b : Z) : option Z :=
  if b <=? a then Some (a - b) else None.
Definition checked_mul (a b : Z) : option Z :=
  if a * b <=? U256_MAX then Some (a * b) else None.
Definition checked_div (a b : Z) : option Z :=
  if b =? 0 then None else Some (a / b).
Definition saturating_add (a b : Z) : Z := Z.min (a + b) U256_MAX.
Definition saturating_sub (a b : Z) : Z := Z.max 0 (a - b).
Definition saturating_mul (a b : Z) : Z := Z.min (a * b) U256_MAX.
(** The plain operators of [U256] wrap around. *)
Definition wrapping_add (a b : Z) : Z := (a + b) mod 2 ^ 256.
Definition wrapping_sub (a b : Z) : Z := (a - b) mod 2 ^ 256.
Definition wrapping_mul (a b : Z) : Z := (a * b) mod 2 ^ 256.
(** The plain division panics on a zero divisor. *)
Definition div_u256 (a b : Z) : comp Z := if b =? 0 then Panic else Ret (a / b).
(** [U256::div_ceil]. *)
Definition div_ceil (a b : Z) : Z := (a + b - 1) / b.

Lemma checked_add_Some a b c :
  checked_add a b = Some c <-> c = a + b /\ a + b <= U256_MAX.
Proof. unfold checked_add. destruct (Z.leb_spec (a + b) U256_MAX); naive_solver lia. Qed.

Lemma checked_sub_Some a b c : checked_sub a b = Some c <-> c = a - b /\ b <= a.
Proof. unfold checked_sub. destruct (Z.leb_spec b a); naive_solver lia. Qed.

Lemma checked_mul_Some a b c :
  checked_mul a b = Some c <-> c = a * b /\ a * b <= U256_MAX.
Proof. unfold checked_mul. destruct (Z.leb_spec (a * b) U256_MAX); naive_solver lia. Qed.

Lemma checked_div_Some a b c : checked_div a b = Some c <-> c = a / b /\ b <> 0.
Proof. unfold checked_div. destruct (Z.eqb_spec b 0); naive_solver. Qed.

Lemma div_u256_Ret a b c : div_u256 a b = Ret c <-> c = a / b /\ b <> 0.
Proof. unfold div_u256. destruct (Z.eqb_spec b 0); naive_solver. Qed.

Lemma checked_add_None a b : checked_add a b = None <-> U256_MAX < a + b.
Proof. unfold checked_add. destruct (Z.leb_spec (a + b) U256_MAX); naive_solver lia. Qed.

Lemma checked_sub_None a b : checked_sub a b = None <-> a < b.
Proof. unfold checked_sub. destruct (Z.leb_spec b a); naive_solver lia. Qed.

Lemma checked_mul_None a b : checked_mul a b = None <-> U256_MAX < a * b.
Proof. unfold checked_mul. destruct (Z.leb_spec (a * b) U256_MAX); naive_solver lia. Qed.

Lemma checked_div_None a b : checked_div a b = None <-> b = 0.
Proof. unfold checked_div. destruct (Z.eqb_spec b 0); naive_solver. Qed.

Lemma fits_spec w a : fits w a = true <-> 0 <= a < 2 ^ w.
Proof. unfold fits. lia. Qed.

(** ** Automation

    [rust_inv] takes a successful run apart: every bind, early return and
    checked operation that must have succeeded for the hypothesis to hold. *)
Ltac rust_inv1 :=
  match goal with
  | H : Ret _ = Ret _ |- _ => injection H as H; try subst
  | H : Some _ = Some _ |- _ => injection H as H; try subst
  | H : Ok _ = Ok _ |- _ => injection H as H; try subst
  | H : Err _ = Err _ |- _ => injection H as H; try subst
  | H : (_, _) = (_, _) |- _ => injection H as H; try subst
  | H : Panic = Ret _ |- _ => discriminate H
  | H : Ret _ = Panic |- _ => discriminate H
  | H : None = Some _ |- _ => discriminate H
  | H : Some _ = None |- _ => discriminate H
  | H : Ok _ = Err _ |- _ => discriminate H
  | H : Err _ = Ok _ |- _ => discriminate H
  | H : Ret None = Ret (Some _) |- _ => discriminate H
  | H : comp_bind _ _ = Ret _ |- _ => apply comp_bind_Ret in H as (? & ? & H)
  | H : comp_obind _ _ = Ret (Some _) |- _ => apply comp_obind_Some in H as (? & ? & H)
  | H : comp_rbind _ _ = Ret (Ok _) |- _ => apply comp_rbind_Ok in H as (? & ? & H)
  | H : Ret (Err _) = Ret (Ok _) |- _ => discriminate H
  | H : expect _ = Ret _ |- _ => apply expect_Ret in H
  | H : result_bind _ _ = Ok _ |- _ => apply result_bind_Ok in H as (? & ? & H)
  | H : ok_or _ _ = Ok _ |- _ => apply ok_or_Ok in H
  | H : ok _ = Some _ |- _ => apply ok_Some in H
  | H : (match ?c with Some _ => _ | None => None end) = Some _ |- _ =>
      let E := fresh "E" in destruct c eqn:E; [|discriminate H]
  | H : (if ?b then None else _) = Some _ |- _ =>
      let E := fresh "E" in destruct b eqn:E; [discriminate H|]
  | H : (if ?b then _ else None) = Some _ |- _ =>
      let E := fresh "E" in destruct b eqn:E; [|discriminate H]
  | H : (if ?b then Err _ else _) = Ok _ |- _ =>
      let E := fresh "E" in destruct b eqn:E; [discriminate H|]
  | H : (if ?b then _ else Err _) = Ok _ |- _ =>
      let E := fresh "E" in destruct b eqn:E; [|discriminate H]
  | H : (if ?b then Ret None else _) = Ret (Some _) |- _ =>
      let E := fresh "E" in destruct b eqn:E; [discriminate H|]
  | H : (if ?b then _ else Ret None) = Ret (Some _) |- _ =>
      let E := fresh "E" in destruct b eqn:E; [|discriminate H]
  | H : (if ?b then Panic else _) = Ret _ |- _ =>
      let E := fresh "E" in destruct b eqn:E; [discriminate H|]
  | H : (if ?b then _ else Panic) = Ret _ |- _ =>
      let E := fresh "E" in destruct b eqn:E; [|discriminate H]
  | H : checked_add _ _ = Some _ |- _ => apply checked_add_Some in H as [? ?]
  | H : checked_sub _ _ = Some _ |- _ => apply checked_sub_Some in H as [? ?]
  | H : checked_mul _ _ = Some _ |- _ => apply checked_mul_Some in H as [? ?]
  | H : checked_div _ _ = Some _ |- _ => apply checked_div_Some in H as [? ?]
  | H : div_u256 _ _ = Ret _ |- _ => apply div_u256_Ret in H as [? ?]
  | H : (_ && _)%bool = true |- _ => apply andb_true_iff in H as [? ?]
  | H : (_ || _)%bool = false |- _ => apply orb_false_iff in H as [? ?]
  | H : negb _ = true |- _ => apply negb_true_iff in H
  | H : negb _ = false |- _ => apply negb_false_iff in H
  end.
Ltac rust_inv := repeat (rust_inv1; simpl in * ); simplify_eq.

(** Boolean tests on integers as propositions. *)
Ltac zify_bool :=
  repeat match goal with
  | H : (_ =? _) = true |- _ => apply Z.eqb_eq in H
  | H : (_ =? _) = false |- _ => apply Z.eqb_neq in H
  | H : (_ <? _) = true |- _ => apply Z.ltb_lt in H
  | H : (_ <? _) = false |- _ => apply Z.ltb_ge in H
  | H : (_ <=? _) = true |- _ => apply Z.leb_le in H
  | H : (_ <=? _) = false |- _ => apply Z.leb_gt in H
  end.

Create HintDb rust discriminated.
#[export] Hint Resolve safe_Ret : rust.
#[export] Hint Rewrite Z.eqb_eq Z.eqb_neq Z.ltb_lt Z.ltb_ge Z.leb_le Z.leb_gt : rust.

(** ** Division *)
Lemma div_ceil_spec a b : 0 < b -> a <= div_ceil a b * b < a + b.
Proof.
  intros Hb. unfold div_ceil.
  pose proof (Z.div_mod (a + b - 1) b) as E.
  pose proof (Z.mod_pos_bound (a + b - 1) b Hb). lia.
Qed.

Lemma div_ceil_le a b c : 0 < b -> div_ceil a b <= c <-> a <= c * b.
Proof.
  intros Hb. pose proof (div_ceil_spec a b Hb). split; intros; nia.
Qed.

Lemma div_le_iff a b c : 0 < b -> c <= a / b <-> c * b <= a.
Proof.
  intros Hb. split; intros H.
  - pose proof (Z.mul_div_le a b Hb). nia.
  - apply Z.div_le_lower_bound; lia.
Qed.

Lemma div_lt_iff a b c : 0 < b -> a / b < c <-> a < c * b.
Proof.
  intros Hb. split; intros H.
  - pose proof (Z.mul_succ_div_gt a b Hb). nia.
  - apply Z.div_lt_upper_bound; lia.
Qed.

Lemma u256_div a b : u256 a -> 0 < b -> u256 (a / b).
Proof.
  unfold u256. intros [? ?] ?. split; [apply Z.div_pos; lia|].
  apply Z.div_lt_upper_bound; nia.
Qed.

Lemma u256_le a b : u256 b -> 0 <= a <= b -> u256 a.
Proof. unfold u256. lia. Qed.
#[export] Hint Resolve u256_div : rust.
