(* ===== verification/Collections.v ===== *)
(** * Collections: the standard-library collections the source uses

    Comparators and [Iterator::max_by]/[min_by] with Rust's tie breaking,
    stable sorting, [BTreeMap] as an association list sorted by key, and
    [Vec::dedup]. *)

From stdpp Require Import base gmap sets list strings sorting.
From Stdlib Require Import ZArith Lia Permutation.
From S2P Require Import Prelude.

Open Scope Z_scope.

(** ** Comparators *)

(** [Ordering::then_with]. *)
Definition then_with (c d : comparison) : comparison :=
  match c with Eq => d | _ => c end.

(** What a comparison function handed to [max_by], [min_by] or [sort_by]
    promises: a total preorder. *)
Class CmpPreorder {A} (cmp : A -> A -> comparison) : Prop := {
  cmp_antisym : forall x y, cmp y x = CompOpp (cmp x y);
  cmp_trans : forall x y z, cmp x y <> Gt -> cmp y z <> Gt -> cmp x z <> Gt;
}.

Arguments cmp_antisym {A} cmp {_} x y.
Arguments cmp_trans {A} cmp {_} x y z _ _.

Section cmp.
Context {A : Type} (cmp : A -> A -> comparison) `{!CmpPreorder cmp}.

Lemma cmp_refl x : cmp x x = Eq.
Proof. pose proof (cmp_antisym cmp x x) as E. destruct (cmp x x); naive_solver. Qed.

Lemma cmp_le_total x y : cmp x y <> Gt \/ cmp y x <> Gt.
Proof. rewrite (cmp_antisym cmp x y). destruct (cmp x y); naive_solver. Qed.

Lemma cmp_Gt_le x y : cmp x y = Gt -> cmp y x <> Gt.
Proof. rewrite (cmp_antisym cmp x y). intros ->. done. Qed.

Lemma cmp_Eq_iff x y : cmp x y = Eq <-> cmp x y <> Gt /\ cmp y x <> Gt.
Proof. rewrite (cmp_antisym cmp x y). destruct (cmp x y); naive_solver. Qed.

Lemma cmp_Eq_trans x y z : cmp x y = Eq -> cmp y z = Eq -> cmp x z = Eq.
Proof. rewrite !cmp_Eq_iff. intros [??] [??]. split; eapply (cmp_trans cmp); eauto. Qed.

Lemma cmp_Eq_sym x y : cmp x y = Eq -> cmp y x = Eq.
Proof. rewrite !cmp_Eq_iff. naive_solver. Qed.

Lemma cmp_lt_le_trans x y z : cmp x y = Lt -> cmp y z <> Gt -> cmp x z = Lt.
Proof.
  intros Hxy Hyz. destruct (cmp x z) eqn:Hxz; [|done|].
  - exfalso. apply (cmp_trans cmp y z x) in Hyz.
    + rewrite (cmp_antisym cmp x y), Hxy in Hyz. done.
    + by rewrite (cmp_antisym cmp x z), Hxz.
  - exfalso. eapply (cmp_trans cmp x y z); [by rewrite Hxy|done|done].
Qed.

Lemma cmp_le_lt_trans x y z : cmp x y <> Gt -> cmp y z = Lt -> cmp x z = Lt.
Proof.
  intros Hxy Hyz. destruct (cmp x z) eqn:Hxz; [|done|].
  - exfalso. assert (cmp z y <> Gt) as Hzy.
    { eapply (cmp_trans cmp z x y); [|done]. by rewrite (cmp_antisym cmp x z), Hxz. }
    rewrite (cmp_antisym cmp y z), Hyz in Hzy. done.
  - exfalso. eapply (cmp_trans cmp x y z); [done|by rewrite Hyz|done].
Qed.
End cmp.

Definition cmp_on {A B} (f : A -> B) (cmp : B -> B -> comparison) (x y : A) : comparison :=
  cmp (f x) (f y).

Definition cmp_then {A} (c d : A -> A -> comparison) (x y : A) : comparison :=
  then_with (c x y) (d x y).

(** [Reverse]. *)
Definition cmp_rev {A} (c : A -> A -> comparison) (x y : A) : comparison := c y x.

#[global] Typeclasses Opaque cmp_on cmp_then cmp_rev.

#[export] Instance Zcompare_preorder : CmpPreorder Z.compare.
Proof.
  split; [intros; apply Z.compare_antisym|].
  intros x y z; rewrite !Z.compare_le_iff; lia.
Qed.

#[export] Instance cmp_on_preorder {A B} (f : A -> B) cmp `{!CmpPreorder cmp} :
  CmpPreorder (cmp_on f cmp).
Proof.
  unfold cmp_on. split; [intros; apply (cmp_antisym cmp)|].
  intros x y z; apply (cmp_trans cmp).
Qed.

#[export] Instance cmp_rev_preorder {A} (c : A -> A -> comparison) `{!CmpPreorder c} :
  CmpPreorder (cmp_rev c).
Proof.
  unfold cmp_rev. split; [intros x y; apply (cmp_antisym c y x)|].
  intros x y z ??. by apply (cmp_trans c z y x).
Qed.

#[export] Instance cmp_then_preorder {A} (c d : A -> A -> comparison)
  `{!CmpPreorder c, !CmpPreorder d} : CmpPreorder (cmp_then c d).
Proof.
  unfold cmp_then. split.
  - intros x y. rewrite (cmp_antisym c x y), (cmp_antisym d x y).
    by destruct (c x y), (d x y).
  - intros x y z. destruct (c x y) eqn:Hxy, (c y z) eqn:Hyz; simpl; intros H1 H2; try done.
    + rewrite (cmp_Eq_trans c x y z) by done. simpl. by apply (cmp_trans d x y z).
    + rewrite (cmp_le_lt_trans c x y z) by (done || by rewrite Hxy). done.
    + rewrite (cmp_lt_le_trans c x y z) by (done || by rewrite Hyz). done.
    + rewrite (cmp_lt_le_trans c x y z) by (done || by rewrite Hyz). done.
Qed.

(** Lexicographic comparison, the derived [Ord] of [Vec] and [&str]. *)
Fixpoint list_cmp {A} (cmp : A -> A -> comparison) (l k : list A) : comparison :=
  match l, k with
  | [], [] => Eq
  | [], _ :: _ => Lt
  | _ :: _, [] => Gt
  | x :: l, y :: k => then_with (cmp x y) (list_cmp cmp l k)
  end.

#[export] Instance list_cmp_preorder {A} (cmp : A -> A -> comparison) `{!CmpPreorder cmp} :
  CmpPreorder (list_cmp cmp).
Proof.
  split.
  - induction x as [|a x IH]; intros [|b y]; simpl; try done.
    rewrite (cmp_antisym cmp a b), IH. by destruct (cmp a b).
  - induction x as [|a x IH]; intros [|b y] [|c z]; simpl; try done.
    destruct (cmp a b) eqn:Hab, (cmp b c) eqn:Hbc; simpl; intros H1 H2; try done.
    + rewrite (cmp_Eq_trans cmp a b c) by done. simpl. by apply (IH y).
    + rewrite (cmp_le_lt_trans cmp a b c) by (done || by rewrite Hab). done.
    + rewrite (cmp_lt_le_trans cmp a b c) by (done || by rewrite Hbc). done.
    + rewrite (cmp_lt_le_trans cmp a b c) by (done || by rewrite Hbc). done.
Qed.

(** [str] comparison is bytewise. *)
Fixpoint string_bytes (s : string) : list Z :=
  match s with
  | EmptyString => []
  | String c s => Z.of_N (Ascii.N_of_ascii c) :: string_bytes s
  end.
Definition str_cmp (s t : string) : comparison :=
  list_cmp Z.compare (string_bytes s) (string_bytes t).

#[export] Instance str_cmp_preorder : CmpPreorder str_cmp.
Proof. apply (cmp_on_preorder string_bytes (list_cmp Z.compare)). Qed.

#[global] Typeclasses Opaque str_cmp.

Lemma list_cmp_Eq {A} (cmp : A -> A -> comparison) l k :
  (forall x y, cmp x y = Eq -> x = y) -> list_cmp cmp l k = Eq -> l = k.
Proof.
  intros Hc. revert k; induction l as [|x l IH]; intros [|y k]; simpl; try done.
  destruct (cmp x y) eqn:E; simpl; try done. intros H.
  by rewrite (Hc _ _ E), (IH _ H).
Qed.

Lemma string_bytes_inj s t : string_bytes s = string_bytes t -> s = t.
Proof.
  revert t; induction s as [|c s IH]; intros [|d t]; simpl; try done.
  intros [= Hc Hs]. f_equal; [|by apply IH].
  rewrite <- (Ascii.ascii_N_embedding c), <- (Ascii.ascii_N_embedding d). f_equal. lia.
Qed.

Lemma str_cmp_Eq s t : str_cmp s t = Eq -> s = t.
Proof.
  intros H. apply string_bytes_inj.
  eapply list_cmp_Eq; [|exact H]. apply Z.compare_eq.
Qed.

(** ** [Iterator::max_by] and [Iterator::min_by]

    Rust returns the last maximal and the first minimal element. *)
Fixpoint max_by_from {A} (cmp : A -> A -> comparison) (best : A) (l : list A) : A :=
  match l with
  | [] => best
  | x :: l => max_by_from cmp (match cmp best x with Gt => best | _ => x end) l
  end.
Definition max_by {A} (cmp : A -> A -> comparison) (l : list A) : option A :=
  match l with [] => None | x :: l => Some (max_by_from cmp x l) end.

Fixpoint min_by_from {A} (cmp : A -> A -> comparison) (best : A) (l : list A) : A :=
  match l with
  | [] => best
  | x :: l => min_by_from cmp (match cmp best x with Gt => x | _ => best end) l
  end.
Definition min_by {A} (cmp : A -> A -> comparison) (l : list A) : option A :=
  match l with [] => None | x :: l => Some (min_by_from cmp x l) end.

Definition max_by_key {A} (key : A -> Z) : list A -> option A := max_by (cmp_on key Z.compare).
Definition min_by_key {A} (key : A -> Z) : list A -> option A := min_by (cmp_on key Z.compare).

Section max_by.
Context {A : Type} (cmp : A -> A -> comparison) `{!CmpPreorder cmp}.

Lemma max_by_from_elem b l : max_by_from cmp b l ∈ b :: l.
Proof.
  revert b; induction l as [|x l IH]; intros b; simpl; [set_solver|].
  specialize (IH (match cmp b x with Gt => b | _ => x end)).
  destruct (cmp b x); set_solver.
Qed.

Lemma max_by_from_ge b l y : y ∈ b :: l -> cmp y (max_by_from cmp b l) <> Gt.
Proof.
  revert b y; induction l as [|x l IH]; intros b y; simpl.
  { intros ->%list_elem_of_singleton. by rewrite (cmp_refl cmp). }
  intros Hy. set (b' := match cmp b x with Gt => b | _ => x end).
  assert (cmp b b' <> Gt /\ cmp x b' <> Gt) as [Hb Hx].
  { subst b'. destruct (cmp b x) eqn:E; rewrite ?(cmp_refl cmp), ?E.
    - done.
    - done.
    - split; [done|]. by apply (cmp_Gt_le cmp). }
  assert (cmp b' (max_by_from cmp b' l) <> Gt) as Hm by (apply IH; set_solver).
  apply elem_of_cons in Hy as [->|[->|Hy]%elem_of_cons].
  - by apply (cmp_trans cmp b b').
  - by apply (cmp_trans cmp x b').
  - apply IH; set_solver.
Qed.

Lemma max_by_Some l m :
  max_by cmp l = Some m -> m ∈ l /\ forall y, y ∈ l -> cmp y m <> Gt.
Proof.
  destruct l as [|x l]; simpl; [done|]. intros [= <-].
  split; [apply max_by_from_elem|apply max_by_from_ge].
Qed.

Lemma max_by_None l : max_by cmp l = None <-> l = [].
Proof. by destruct l. Qed.

Lemma max_by_is_Some l x : x ∈ l -> is_Some (max_by cmp l).
Proof. destruct l; [set_solver|]. simpl. eauto. Qed.

(** The order in which the candidates are visited does not change the
    maximum beyond ties of the comparator. *)
Lemma max_by_perm l k m n :
  l ≡ₚ k -> max_by cmp l = Some m -> max_by cmp k = Some n -> cmp m n = Eq.
Proof.
  intros Hp [Hm Hml]%max_by_Some [Hn Hnk]%max_by_Some.
  apply (cmp_Eq_iff cmp). split; [apply Hnk; by rewrite <- Hp|apply Hml; by rewrite Hp].
Qed.

Lemma max_by_perm_eq l k :
  (forall x y, x ∈ l -> y ∈ l -> cmp x y = Eq -> x = y) ->
  l ≡ₚ k -> max_by cmp l = max_by cmp k.
Proof.
  intros Hinj Hp. destruct (max_by cmp l) as [m|] eqn:Hl, (max_by cmp k) as [n|] eqn:Hk.
  - f_equal. apply Hinj.
    + by apply max_by_Some in Hl as [? _].
    + apply max_by_Some in Hk as [? _]. by rewrite Hp.
    + by eapply max_by_perm.
  - apply max_by_None in Hk as ->. apply Permutation_length in Hp. by destruct l.
  - apply max_by_None in Hl as ->. apply Permutation_length in Hp. by destruct k.
  - done.
Qed.

Lemma max_by_from_snoc b l x :
  max_by_from cmp b (l ++ [x]) =
  match cmp (max_by_from cmp b l) x with Gt => max_by_from cmp b l | _ => x end.
Proof. revert b; induction l as [|y l IH]; intros b; simpl; [done|apply IH]. Qed.

Lemma max_by_snoc l x :
  max_by cmp (l ++ [x]) =
  Some (match max_by cmp l with
        | Some m => match cmp m x with Gt => m | _ => x end
        | None => x
        end).
Proof. destruct l as [|b l]; simpl; [done|]. by rewrite max_by_from_snoc. Qed.

(** Restricting the candidates to an upward closed set keeps the maximum, or
    leaves nothing. *)
Lemma max_by_filter (P : A -> Prop) `{!forall x, Decision (P x)} l :
  (forall a b, P a -> cmp a b <> Gt -> P b) ->
  max_by cmp (filter P l) =
  match max_by cmp l with Some m => if decide (P m) then Some m else None | None => None end.
Proof.
  intros Hup. induction l as [|x l IH] using rev_ind; [done|].
  rewrite filter_app, max_by_snoc, filter_cons, filter_nil.
  destruct (decide (P x)) as [Hx|Hx].
  - rewrite max_by_snoc, IH. destruct (max_by cmp l) as [m|]; [|by rewrite decide_True].
    destruct (decide (P m)) as [Hm|Hm].
    + destruct (cmp m x); by rewrite decide_True.
    + destruct (cmp m x) eqn:E; [by rewrite decide_True..|].
      destruct Hm. apply (Hup x m Hx). by apply (cmp_Gt_le cmp).
  - rewrite app_nil_r, IH. destruct (max_by cmp l) as [m|]; [|by rewrite decide_False].
    destruct (cmp m x) eqn:E; [| |done].
    + rewrite (decide_False (P := P x)) by done.
      apply decide_False. intros Hm. apply Hx, (Hup m x Hm). by rewrite E.
    + rewrite (decide_False (P := P x)) by done.
      apply decide_False. intros Hm. apply Hx, (Hup m x Hm). by rewrite E.
Qed.

Lemma min_by_from_elem b l : min_by_from cmp b l ∈ b :: l.
Proof.
  revert b; induction l as [|x l IH]; intros b; simpl; [set_solver|].
  specialize (IH (match cmp b x with Gt => x | _ => b end)).
  destruct (cmp b x); set_solver.
Qed.

Lemma min_by_from_le b l y : y ∈ b :: l -> cmp (min_by_from cmp b l) y <> Gt.
Proof.
  revert b y; induction l as [|x l IH]; intros b y; simpl.
  { intros ->%list_elem_of_singleton. by rewrite (cmp_refl cmp). }
  intros Hy. set (b' := match cmp b x with Gt => x | _ => b end).
  assert (cmp b' b <> Gt /\ cmp b' x <> Gt) as [Hb Hx].
  { subst b'. destruct (cmp b x) eqn:E; rewrite ?(cmp_refl cmp), ?E; try done.
    split; [|done]. by apply (cmp_Gt_le cmp). }
  assert (cmp (min_by_from cmp b' l) b' <> Gt) as Hm by (apply IH; set_solver).
  apply elem_of_cons in Hy as [->|[->|Hy]%elem_of_cons].
  - by apply (cmp_trans cmp _ b').
  - by apply (cmp_trans cmp _ b').
  - apply IH; set_solver.
Qed.

Lemma min_by_Some l m :
  min_by cmp l = Some m -> m ∈ l /\ forall y, y ∈ l -> cmp m y <> Gt.
Proof.
  destruct l as [|x l]; simpl; [done|]. intros [= <-].
  split; [apply min_by_from_elem|apply min_by_from_le].
Qed.

Lemma min_by_None l : min_by cmp l = None <-> l = [].
Proof. by destruct l. Qed.
End max_by.

Lemma max_by_key_Some {A} (key : A -> Z) l m :
  max_by_key key l = Some m -> m ∈ l /\ forall y, y ∈ l -> key y <= key m.
Proof.
  intros [Hm Hle]%(max_by_Some (cmp_on key Z.compare)). split; [done|].
  intros y Hy. specialize (Hle y Hy). unfold cmp_on in Hle.
  by rewrite Z.compare_le_iff in Hle.
Qed.

Lemma min_by_key_Some {A} (key : A -> Z) l m :
  min_by_key key l = Some m -> m ∈ l /\ forall y, y ∈ l -> key m <= key y.
Proof.
  intros [Hm Hle]%(min_by_Some (cmp_on key Z.compare)). split; [done|].
  intros y Hy. specialize (Hle y Hy). unfold cmp_on in Hle.
  by rewrite Z.compare_le_iff in Hle.
Qed.

(** ** Filters that keep nothing or everything *)
Lemma filter_none {A} (P : A -> Prop) `{!forall x, Decision (P x)} (l : list A) :
  (forall x, x ∈ l -> ~ P x) -> filter P l = [].
Proof.
  induction l as [|x l IH]; intros Hl; [done|]. rewrite filter_cons_False by (apply Hl, elem_of_cons; by left).
  apply IH. intros y Hy. apply Hl, elem_of_cons. by right.
Qed.

Lemma filter_all {A} (P : A -> Prop) `{!forall x, Decision (P x)} (l : list A) :
  (forall x, x ∈ l -> P x) -> filter P l = l.
Proof.
  induction l as [|x l IH]; intros Hl; [done|]. rewrite filter_cons_True by (apply Hl, elem_of_cons; by left).
  f_equal. apply IH. intros y Hy. apply Hl, elem_of_cons. by right.
Qed.

(** ** Stable sorting: [slice::sort_by] *)
Fixpoint sort_insert {A} (cmp : A -> A -> comparison) (x : A) (l : list A) : list A :=
  match l with
  | [] => [x]
  | y :: l => match cmp x y with Gt => y :: sort_insert cmp x l | _ => x :: y :: l end
  end.
Fixpoint sort_by {A} (cmp : A -> A -> comparison) (l : list A) : list A :=
  match l with [] => [] | x :: l => sort_insert cmp x (sort_by cmp l) end.

Section sort_by.
Context {A : Type} (cmp : A -> A -> comparison) `{!CmpPreorder cmp}.
Local Abbreviation R := (fun x y => cmp x y <> Gt).

Lemma sort_insert_perm x l : sort_insert cmp x l ≡ₚ x :: l.
Proof.
  induction l as [|y l IH]; simpl; [done|].
  destruct (cmp x y); [done|done|]. rewrite IH. apply Permutation_swap.
Qed.

Lemma sort_by_perm l : sort_by cmp l ≡ₚ l.
Proof. induction l as [|x l IH]; simpl; [done|]. by rewrite sort_insert_perm, IH. Qed.

Lemma sort_insert_sorted x l : StronglySorted R l -> StronglySorted R (sort_insert cmp x l).
Proof.
  induction 1 as [|y l Hl IH Hy]; simpl; [repeat constructor|].
  rewrite Forall_forall in Hy.
  destruct (cmp x y) eqn:E.
  1,2: constructor; [by constructor; [|apply Forall_forall]|];
       constructor; [by rewrite E|]; apply Forall_forall; intros z Hz;
       apply (cmp_trans cmp x y z); [by rewrite E|by apply Hy].
  constructor; [done|]. apply Forall_forall. intros z Hz.
  rewrite sort_insert_perm in Hz. apply elem_of_cons in Hz as [->|Hz]; [|by apply Hy].
  by apply (cmp_Gt_le cmp).
Qed.

Lemma sort_by_sorted l : StronglySorted R (sort_by cmp l).
Proof. induction l; simpl; [constructor|by apply sort_insert_sorted]. Qed.

Lemma sort_by_elem x l : x ∈ sort_by cmp l <-> x ∈ l.
Proof. by rewrite sort_by_perm. Qed.

(** A sorted list is a fixed point. *)
Lemma sort_by_id l : StronglySorted R l -> sort_by cmp l = l.
Proof.
  induction 1 as [|x l Hl IH Hx]; simpl; [done|]. rewrite IH.
  destruct l as [|y l]; simpl; [done|].
  apply Forall_cons in Hx as [Hx _]. by destruct (cmp x y).
Qed.
End sort_by.

(** [Vec::dedup] removes consecutive repetitions. *)
Fixpoint dedup (l : list Z) : list Z :=
  match l with
  | [] => []
  | x :: l => match dedup l with
              | [] => [x]
              | y :: k => if x =? y then y :: k else x :: y :: k
              end
  end.

Lemma dedup_elem x l : x ∈ dedup l <-> x ∈ l.
Proof.
  induction l as [|y l IH]; simpl; [done|]. rewrite elem_of_cons, <- IH.
  destruct (dedup l) as [|z k]; [set_solver|].
  destruct (Z.eqb_spec y z) as [->|]; set_solver.
Qed.

Lemma dedup_sorted_NoDup l :
  StronglySorted (fun x y => Z.compare x y <> Gt) l ->
  StronglySorted Z.lt (dedup l).
Proof.
  induction 1 as [|x l Hl IH Hx]; simpl; [constructor|].
  rewrite Forall_forall in Hx.
  assert (forall z, z ∈ dedup l -> x <= z) as Hle.
  { intros z Hz. apply dedup_elem, Hx in Hz. by apply Z.compare_le_iff. }
  destruct (dedup l) as [|y k] eqn:E; [repeat constructor|].
  destruct (Z.eqb_spec x y) as [->|Hne]; [done|].
  constructor; [done|]. apply Forall_forall. intros z Hz.
  apply StronglySorted_inv in IH as [_ Hk]. rewrite Forall_forall in Hk.
  pose proof (Hle y ltac:(set_solver)).
  apply elem_of_cons in Hz as [->|Hz]; [lia|]. specialize (Hk z Hz). lia.
Qed.

Lemma StronglySorted_lt_NoDup l : StronglySorted Z.lt l -> NoDup l.
Proof.
  induction 1 as [|x l Hl IH Hx]; constructor; [|done].
  intros Hin. rewrite Forall_forall in Hx. specialize (Hx x Hin). lia.
Qed.

Lemma StronglySorted_filter {A} (R : A -> A -> Prop) (P : A -> Prop) `{!forall x, Decision (P x)} l :
  StronglySorted R l -> StronglySorted R (filter P l).
Proof.
  induction 1 as [|x l Hl IH Hx]; [constructor|]. rewrite filter_cons. case_decide; [|done].
  constructor; [done|]. rewrite Forall_forall in *. intros y [_ Hy]%list_elem_of_filter. by apply Hx.
Qed.

Lemma StronglySorted_lookup_lt {A} (R : A -> A -> Prop) l i j x y :
  StronglySorted R l -> l !! i = Some x -> l !! j = Some y -> (i < j)%nat -> R x y.
Proof.
  intros Hs. revert i j. induction Hs as [|z l Hl IH Hz]; intros i j Hi Hj Hij; [done|].
  destruct j as [|j]; [lia|]. simpl in Hj. destruct i as [|i]; simpl in Hi.
  - injection Hi as <-. rewrite Forall_forall in Hz. by apply Hz, list_elem_of_lookup_2 with j.
  - eapply IH; [done|done|lia].
Qed.

Lemma StronglySorted_rev {A} (R : A -> A -> Prop) l : StronglySorted R l -> StronglySorted (fun x y => R y x) (rev l).
Proof.
  induction 1 as [|x l Hl IH Hx]; cbn [rev]; [constructor|].
  assert (Forall (fun y => R x y) (rev l)) as Hr by (by rewrite <- Permutation_rev). clear Hl Hx.
  induction IH as [|y k Hk IHk Hy]; cbn [app]; [repeat constructor|]. apply Forall_cons in Hr as [Hxy Hr].
  constructor; [by apply IHk|]. apply Forall_app. split; [done|]. by constructor.
Qed.

Lemma StronglySorted_impl {A} (R S : A -> A -> Prop) l :
  (forall x y, R x y -> S x y) -> StronglySorted R l -> StronglySorted S l.
Proof. intros HRS. induction 1 as [|x l _ IH Hx]; constructor; [done|]. by eapply Forall_impl; [exact Hx|apply HRS]. Qed.

(** ** [BTreeMap<Address, V>]: an association list sorted by key *)
Fixpoint bt_insert {V} (k : Z) (v : V) (m : list (Z * V)) : list (Z * V) :=
  match m with
  | [] => [(k, v)]
  | (k', v') :: m =>
      match Z.compare k k' with
      | Lt => (k, v) :: (k', v') :: m
      | Eq => (k, v) :: m
      | Gt => (k', v') :: bt_insert k v m
      end
  end.
Fixpoint bt_get {V} (m : list (Z * V)) (k : Z) : option V :=
  match m with
  | [] => None
  | (k', v) :: m => if k =? k' then Some v else bt_get m k
  end.
(** [collect::<BTreeMap<_, _>>()]: later entries overwrite earlier ones. *)
Definition bt_collect {V} (l : list (Z * V)) : list (Z * V) :=
  foldl (fun m kv => bt_insert kv.1 kv.2 m) [] l.

Lemma bt_get_insert {V} (m : list (Z * V)) k v j :
  bt_get (bt_insert k v m) j = if j =? k then Some v else bt_get m j.
Proof.
  induction m as [|[k' v'] m IH]; simpl; [done|].
  destruct (Z.compare_spec k k') as [->|Hlt|Hgt]; simpl.
  - by destruct (j =? k').
  - done.
  - rewrite IH. destruct (Z.eqb_spec j k'), (Z.eqb_spec j k); try done. lia.
Qed.
