(* ===== verification/F64.v ===== *)
(** * F64: binary64 arithmetic

    The [f64] operations the source uses, on Rocq's specification of IEEE 754
    binary64 (53 bits of precision, exponents below 1024), rounding to nearest
    even. *)

From stdpp Require Import tactics.
From Stdlib Require Import ZArith SpecFloat FloatClass.

Open Scope Z_scope.

Definition f64 := spec_float.
Definition f64_add : f64 -> f64 -> f64 := SFadd 53 1024.
Definition f64_sub : f64 -> f64 -> f64 := SFsub 53 1024.
Definition f64_mul : f64 -> f64 -> f64 := SFmul 53 1024.
Definition f64_div : f64 -> f64 -> f64 := SFdiv 53 1024.

(** The float nearest to an integer: literals and [as f64]. *)
Definition f64_lit (n : Z) : f64 := binary_normalize 53 1024 n 0 false.

Definition is_normal (x : f64) : bool :=
  match SFclassify 53 x with PNormal | NNormal => true | _ => false end.

Definition is_finite (x : f64) : bool :=
  match x with S754_zero _ | S754_finite _ _ _ => true | _ => false end.

(** The sign of a NaN is not modelled. *)
Definition is_sign_negative (x : f64) : bool :=
  match x with
  | S754_zero s | S754_infinity s | S754_finite s _ _ => s
  | S754_nan => false
  end.

(** The integer part of a float, an instance for the conversions that are
    parameters elsewhere. *)
Definition f64_trunc (x : f64) : Z :=
  match x with
  | S754_finite false m e => Z.shiftl (Z.pos m) e
  | _ => 0
  end.

Lemma f64_trunc_nonneg x : 0 <= f64_trunc x.
Proof. destruct x as [| | |[] m e]; simpl; try done. by apply Z.shiftl_nonneg. Qed.
