(* ===== verification/Eth.v ===== *)
(** * Eth: addresses, assets, token pairs, gas and prices

    [crates/model/src/lib.rs] ([TokenPair]), [crates/solvers/src/domain/eth/mod.rs]
    and the price type of [crates/solvers/src/domain/auction.rs].  An address is
    its 160-bit big-endian value, whose order is the byte order of the source. *)

From stdpp Require Import base gmap sets list strings.
From Stdlib Require Import ZArith Lia.
From S2P Require Import Prelude Collections.

Open Scope Z_scope.

Abbreviation address := Z (only parsing).

(** [eth::Asset]. *)
Record Asset := mkAsset { asset_token : address; asset_amount : Z }.

#[export] Instance Asset_eq_dec : EqDecision Asset.
Proof. solve_decision. Defined.

(** ** [model::TokenPair]: two distinct tokens, the lower one first *)
Definition TokenPair_new (token_a token_b : address) : option (Z * Z) :=
  match Z.compare token_a token_b with
  | Lt => Some (token_a, token_b)
  | Eq => None
  | Gt => Some (token_b, token_a)
  end.

Definition TokenPair_contains (p : Z * Z) (token : address) : bool :=
  (p.1 =? token) || (p.2 =? token).

Definition TokenPair_other (p : Z * Z) (token : address) : option address :=
  if p.1 =? token then Some p.2
  else if p.2 =? token then Some p.1
  else None.

Lemma TokenPair_new_sym a b : TokenPair_new a b = TokenPair_new b a.
Proof.
  unfold TokenPair_new. destruct (Z.compare_spec a b), (Z.compare_spec b a);
    subst; try done; lia.
Qed.

Lemma TokenPair_new_Some a b p :
  TokenPair_new a b = Some p ->
  a <> b /\ p.1 < p.2 /\ ((p = (a, b)) \/ (p = (b, a))).
Proof.
  unfold TokenPair_new. destruct (Z.compare_spec a b); intros; simplify_eq/=; auto with lia.
Qed.

Lemma TokenPair_new_None a b : TokenPair_new a b = None <-> a = b.
Proof. unfold TokenPair_new. destruct (Z.compare_spec a b); naive_solver lia. Qed.

Lemma TokenPair_new_is_Some a b : a <> b -> is_Some (TokenPair_new a b).
Proof.
  intros Hne. destruct (TokenPair_new a b) eqn:E; [eauto|].
  by apply TokenPair_new_None in E.
Qed.

Lemma TokenPair_other_new a b p : TokenPair_new a b = Some p -> TokenPair_other p a = Some b.
Proof.
  intros (Hne & Hlt & [->| ->])%TokenPair_new_Some; unfold TokenPair_other; simpl in *.
  - by rewrite Z.eqb_refl.
  - rewrite Z.eqb_refl. by destruct (Z.eqb_spec b a).
Qed.

Lemma TokenPair_new_ordered p : p.1 < p.2 -> TokenPair_new p.1 p.2 = Some p.
Proof.
  intros Hlt. unfold TokenPair_new. destruct p as [a b]; simpl in *.
  by destruct (Z.compare_spec a b); try lia.
Qed.

(** ** [eth::Gas + eth::SignedGas]: the offset is an [i64] other than its minimum,
    whose [abs] is not representable *)
Definition Gas_add (gas : Z) (rhs : Z) : Z :=
  if 0 <? rhs then saturating_add gas rhs else saturating_sub gas (Z.abs rhs).

Lemma Gas_add_u256 gas rhs : u256 gas -> u256 (Gas_add gas rhs).
Proof.
  unfold u256, Gas_add, saturating_add, saturating_sub, U256_MAX.
  intros. destruct (Z.ltb_spec 0 rhs); lia.
Qed.

(** ** [auction::Price::ether_value]: an Ether amount at a price of wei per
    10^18 token atoms *)
Definition PRICE_BASE : Z := 10 ^ 18.
Definition ether_value (price ether : Z) : option Z :=
  let? scaled := checked_mul ether PRICE_BASE in checked_div scaled price.

(** ** Rationals: [num::rational::Ratio]

    [Ratio::new] panics on a zero denominator and reduces to lowest terms. *)
Definition Ratio_new (n d : Z) : comp (Z * Z) :=
  if d =? 0 then Panic else Ret (n / Z.gcd n d, d / Z.gcd n d).

Lemma Ratio_new_Ret n d r :
  0 <= n -> 0 < d -> Ratio_new n d = Ret r ->
  0 <= r.1 <= n /\ 0 < r.2 <= d /\ r.1 * d = n * r.2.
Proof.
  intros Hn Hd. unfold Ratio_new. destruct (Z.eqb_spec d 0); [lia|]. intros [= <-]. simpl.
  assert (0 < Z.gcd n d) as Hg.
  { pose proof (Z.gcd_nonneg n d). destruct (Z.eq_dec (Z.gcd n d) 0) as [E|]; [|lia].
    apply Z.gcd_eq_0_r in E. lia. }
  destruct (Z.gcd_divide_l n d) as [q Hq]. destruct (Z.gcd_divide_r n d) as [s Hs].
  assert (n / Z.gcd n d = q) as -> by (rewrite Hq at 1; apply Z.div_mul; lia).
  assert (d / Z.gcd n d = s) as -> by (rewrite Hs at 1; apply Z.div_mul; lia).
  repeat split; nia.
Qed.
