(* ===== verification/Solvable.v ===== *)
(** * Solvable: the interface between liquidity and path finding

    [shared::baseline_solver::BaselineSolvable]
    ([crates/shared/src/baseline_solver.rs]) is the trait every liquidity source
    implements; the class below is that trait.  The two law classes state what
    a source promises to the path finder, and the path finder's theorems are
    proved against them. *)

From stdpp Require Import base gmap sets list strings.
From Stdlib Require Import ZArith Lia.
From S2P Require Import Prelude Collections Eth.

Open Scope Z_scope.

(** The trait.  [get_amount_out l out_token (amount, in_token)] and
    [get_amount_in l in_token (amount, out_token)]; panicking implementations
    return [Panic]. *)
Class BaselineSolvable (L : Type) := {
  get_amount_out : L -> address -> Z * address -> comp (option Z);
  get_amount_in : L -> address -> Z * address -> comp (option Z);
  gas_cost : L -> Z;
}.

(** On a token pair it is registered for, a source neither panics nor produces
    an amount outside of [U256]. *)
Class SolvableSafe (L : Type) `{!BaselineSolvable L} (trades : L -> Z * Z -> Prop) : Prop := {
  get_amount_out_safe : forall l p a b amount,
    trades l p -> TokenPair_new a b = Some p -> u256 amount ->
    safe (get_amount_out l b (amount, a));
  get_amount_out_u256 : forall l p a b amount v,
    trades l p -> TokenPair_new a b = Some p -> u256 amount ->
    get_amount_out l b (amount, a) = Ret (Some v) -> u256 v;
  get_amount_in_safe : forall l p a b amount,
    trades l p -> TokenPair_new a b = Some p -> u256 amount ->
    safe (get_amount_in l a (amount, b));
  get_amount_in_u256 : forall l p a b amount v,
    trades l p -> TokenPair_new a b = Some p -> u256 amount ->
    get_amount_in l a (amount, b) = Ret (Some v) -> u256 v;
}.

(** Selling more never buys less. *)
Definition monotone_out {L} `{!BaselineSolvable L} (l : L) : Prop :=
  forall a b x y u v, 0 <= x <= y ->
    get_amount_out l b (x, a) = Ret (Some u) ->
    get_amount_out l b (y, a) = Ret (Some v) -> u <= v.

(** A pool is [deep] up to [M] when it quotes every input up to [M] once it
    quotes a smaller one, never paying less for more, and pays at most [M]. *)
Definition deep {L} `{!BaselineSolvable L} (M : Z) (l : L) : Prop :=
  (forall a b x y u, 0 <= x <= y -> y <= M -> get_amount_out l b (x, a) = Ret (Some u) ->
     exists v, get_amount_out l b (y, a) = Ret (Some v) /\ u <= v) /\
  (forall a b x u, 0 <= x -> get_amount_out l b (x, a) = Ret (Some u) -> 0 <= u <= M).
