(* ===== verification/ConstantProduct.v ===== *)
(** * ConstantProduct: Uniswap-V2-like pools

    The pool type and swap arithmetic of
    [crates/shared/src/sources/uniswap_v2/pool_fetching.rs], the solver's domain
    pool ([crates/solvers/src/domain/liquidity/constant_product.rs]) and the
    conversion between the two
    ([crates/solvers/src/boundary/liquidity/constant_product.rs]). *)

From stdpp Require Import base gmap sets list strings.
From Stdlib Require Import ZArith Lia.
From S2P Require Import Prelude Collections Eth Solvable.

Open Scope Z_scope.

Definition POOL_SWAP_GAS_COST : Z := 60000.
Definition POOL_MAX_RESERVES : Z := 2 ^ 112 - 1.

(** [pool_fetching::Pool]: reserves are [u128], the fee is a [Ratio<u32>] as
    (numerator, denominator). *)
Record Pool := mkPool {
  pool_address : address;
  pool_tokens : Z * Z;
  pool_reserves : Z * Z;
  pool_fee : Z * Z;
}.

Definition Pool_uniswap (addr : address) (tokens reserves : Z * Z) : Pool :=
  mkPool addr tokens reserves (3, 1000).

(** The [assert_eq!] of the source is the [Panic] branch. *)
Definition get_relative_reserves (p : Pool) (token : address) : comp (Z * Z * address) :=
  if token =? (pool_tokens p).1
  then Ret ((pool_reserves p).1, (pool_reserves p).2, (pool_tokens p).2)
  else if token =? (pool_tokens p).2
  then Ret ((pool_reserves p).2, (pool_reserves p).1, (pool_tokens p).1)
  else Panic.

Definition check_final_reserves (amount_in amount_out reserve_in reserve_out : Z)
  : option (Z * Z) :=
  let? final_reserve_in := checked_add reserve_in amount_in in
  let? final_reserve_out := checked_sub reserve_out amount_out in
  if POOL_MAX_RESERVES <? final_reserve_in then None
  else Some (final_reserve_in, final_reserve_out).

Definition amount_out (p : Pool) (amount_in reserve_in reserve_out : Z) : option Z :=
  if (amount_in =? 0) || (reserve_in =? 0) || (reserve_out =? 0) then None
  else
    let? keep := checked_sub (pool_fee p).2 (pool_fee p).1 in
    let? amount_in_with_fee := checked_mul amount_in keep in
    let? numerator := checked_mul amount_in_with_fee reserve_out in
    let? scaled_reserve := checked_mul reserve_in (pool_fee p).2 in
    let? denominator := checked_add scaled_reserve amount_in_with_fee in
    let? out := checked_div numerator denominator in
    let? _ := check_final_reserves amount_in out reserve_in reserve_out in
    Some out.

Definition amount_in (p : Pool) (amount_out reserve_in reserve_out : Z) : option Z :=
  if (amount_out =? 0) || (reserve_in =? 0) || (reserve_out =? 0) then None
  else
    let? product := checked_mul reserve_in amount_out in
    let? numerator := checked_mul product (pool_fee p).2 in
    let? rest := checked_sub reserve_out amount_out in
    let? keep := checked_sub (pool_fee p).2 (pool_fee p).1 in
    let? denominator := checked_mul rest keep in
    let? quotient := checked_div numerator denominator in
    let? inp := checked_add quotient 1 in
    let? _ := check_final_reserves inp amount_out reserve_in reserve_out in
    Some inp.

(** The inherent methods [Pool::get_amount_out] and [Pool::get_amount_in]. *)
Definition Pool_get_amount_out (p : Pool) (token_in : address) (inp : Z)
  : comp (option (Z * address)) :=
  let! (reserve_in, reserve_out, token_out) := get_relative_reserves p token_in in
  Ret (let? out := amount_out p inp reserve_in reserve_out in Some (out, token_out)).

Definition Pool_get_amount_in (p : Pool) (token_out : address) (out : Z)
  : comp (option (Z * address)) :=
  let! (reserve_out, reserve_in, token_in) := get_relative_reserves p token_out in
  Ret (let? inp := amount_in p out reserve_in reserve_out in Some (inp, token_in)).

(** [impl BaselineSolvable for Pool]. *)
Definition cp_get_amount_out (p : Pool) (out_token : address) (input : Z * address)
  : comp (option Z) :=
  let!? (out_amount, token) := Pool_get_amount_out p input.2 input.1 in
  if token =? out_token then Ret (Some out_amount) else Panic.

Definition cp_get_amount_in (p : Pool) (in_token : address) (out : Z * address)
  : comp (option Z) :=
  let!? (in_amount, token) := Pool_get_amount_in p out.2 out.1 in
  if token =? in_token then Ret (Some in_amount) else Panic.

#[export] Instance cp_solvable : BaselineSolvable Pool := {|
  get_amount_out := cp_get_amount_out;
  get_amount_in := cp_get_amount_in;
  gas_cost := fun _ => POOL_SWAP_GAS_COST;
|}.

(** ** The solver's domain pool *)

(** [constant_product::Reserves]; the constructor is private to its module, so
    values come from [Reserves_new]. *)
Record Reserves := mkReserves { reserves_0 : Asset; reserves_1 : Asset }.

Definition Reserves_new (a b : Asset) : option Reserves :=
  let max := 2 ^ 112 - 1 in
  if (max <? asset_amount a) || (max <? asset_amount b) then None
  else match Z.compare (asset_token a) (asset_token b) with
       | Lt => Some (mkReserves a b)
       | Eq => None
       | Gt => Some (mkReserves b a)
       end.

(** [constant_product::Pool]; the fee is an [eth::Rational] as
    (numerator, denominator). *)
Record DomainPool := mkDomainPool { dp_reserves : Reserves; dp_fee : Z * Z }.

(** [constant_product::Pool::tokens] and [k]. *)
Definition DomainPool_tokens (p : DomainPool) : comp (Z * Z) :=
  expect (TokenPair_new (asset_token (reserves_0 (dp_reserves p)))
                        (asset_token (reserves_1 (dp_reserves p)))).
Definition DomainPool_k (p : DomainPool) : comp Z :=
  expect (checked_mul (asset_amount (reserves_0 (dp_reserves p)))
                      (asset_amount (reserves_1 (dp_reserves p)))).

(** [boundary::liquidity::constant_product::to_boundary_pool]. *)
Definition to_boundary_pool (addr : address) (pool : DomainPool) : comp (option Pool) :=
  let r0 := reserves_0 (dp_reserves pool) in
  let r1 := reserves_1 (dp_reserves pool) in
  let! tokens := expect (TokenPair_new (asset_token r0) (asset_token r1)) in
  if negb (fits 128 (asset_amount r0)) then Ret None
  else if negb (fits 128 (asset_amount r1)) then Ret None
  else if negb (fits 32 (dp_fee pool).1) then Ret None
  else if negb (fits 32 (dp_fee pool).2) then Ret None
  else
    let! fee := Ratio_new (dp_fee pool).1 (dp_fee pool).2 in
    Ret (Some (mkPool addr tokens (asset_amount r0, asset_amount r1) fee)).

(** ** Arithmetic of the swap formulas *)

(** What [to_boundary_pool] establishes for a pool whose domain reserves came
    from [Reserves_new]: 112-bit reserves and a [u32] fee. *)
Definition pool_wf (p : Pool) : Prop :=
  (pool_tokens p).1 < (pool_tokens p).2 /\
  0 <= (pool_reserves p).1 <= POOL_MAX_RESERVES /\
  0 <= (pool_reserves p).2 <= POOL_MAX_RESERVES /\
  0 <= (pool_fee p).1 < 2 ^ 32 /\ 0 < (pool_fee p).2 < 2 ^ 32.

Definition fee_wf (p : Pool) : Prop :=
  0 <= (pool_fee p).1 < 2 ^ 32 /\ 0 < (pool_fee p).2 < 2 ^ 32.

Lemma pool_wf_fee p : pool_wf p -> fee_wf p.
Proof. unfold pool_wf, fee_wf. tauto. Qed.
#[export] Hint Resolve pool_wf_fee : rust.

Section formulas.
Context (p : Pool) (Hfee : fee_wf p).
Local Abbreviation n := (pool_fee p).1.
Local Abbreviation d := (pool_fee p).2.

(** [amount_out] is the constant-product formula, bounded by the 112-bit
    reserve limit. *)
Lemma amount_out_Some a ri ro o :
  0 <= a -> 0 <= ri -> 0 <= ro ->
  amount_out p a ri ro = Some o ->
  0 < a /\ 0 < ri /\ 0 < ro /\ n <= d /\
  o = (a * (d - n) * ro) / (ri * d + a * (d - n)) /\
  a * (d - n) * ro <= U256_MAX /\
  ri + a <= POOL_MAX_RESERVES.
Proof.
  intros Ha Hri Hro H. unfold amount_out, check_final_reserves in H. rust_inv. zify_bool.
  repeat split; try lia. 
Qed.

Lemma amount_out_lower a ri ro o :
  0 <= a -> 0 <= ri -> 0 <= ro -> amount_out p a ri ro = Some o ->
  o * (ri * d + a * (d - n)) <= a * (d - n) * ro < (o + 1) * (ri * d + a * (d - n)).
Proof.
  intros Ha Hri Hro (?&?&?&?&->&?)%amount_out_Some; [|done..].
  destruct Hfee as [? ?].
  assert (0 < ri * d + a * (d - n)) as HD by nia.
  pose proof (Z.mul_div_le (a * (d - n) * ro) _ HD).
  pose proof (Z.mul_succ_div_gt (a * (d - n) * ro) _ HD). lia.
Qed.

(** A swap never decreases the product of the reserves, and never empties the
    pool. *)
Lemma amount_out_product a ri ro o :
  0 <= a -> 0 <= ri -> 0 <= ro -> amount_out p a ri ro = Some o ->
  ri * ro <= (ri + a) * (ro - o) /\ 0 <= o < ro.
Proof.
  intros Ha Hri Hro H. pose proof (amount_out_lower _ _ _ _ Ha Hri Hro H) as [Hl _].
  apply amount_out_Some in H as (?&?&?&Hn&Ho&_); [|done..].
  destruct Hfee as [[Hn0 Hn1] [Hd0 Hd1]].
  assert (0 <= o) as Ho0.
  { subst o. apply Z.div_pos; [|nia]. repeat apply Z.mul_nonneg_nonneg; lia. }
  assert (o * (ri * d) <= a * (d - n) * (ro - o)) as K1 by lia.
  assert (o < ro) as Hlt.
  { destruct (Z.lt_ge_cases o ro) as [|Hge]; [done|exfalso].
    assert (a * (d - n) * (ro - o) <= 0) by (apply Z.mul_nonneg_nonpos; [apply Z.mul_nonneg_nonneg|]; lia).
    assert (0 < o * (ri * d)) by (repeat apply Z.mul_pos_pos; lia). lia. }
  assert (a * (d - n) * (ro - o) <= a * d * (ro - o)) as K2.
  { apply Z.mul_le_mono_nonneg_r; [lia|]. apply Z.mul_le_mono_nonneg_l; lia. }
  assert (o * ri * d <= a * (ro - o) * d) as K3 by lia.
  apply Z.mul_le_mono_pos_r in K3; [|done]. split; lia.
Qed.

(** Selling more never buys less. *)
Lemma amount_out_mono a b ri ro o q :
  0 <= a <= b -> 0 <= ri -> 0 <= ro ->
  amount_out p a ri ro = Some o -> amount_out p b ri ro = Some q -> o <= q.
Proof.
  intros [Ha Hab] Hri Hro H1 H2.
  apply amount_out_Some in H1 as (?&?&?&Hn&->&_); [|lia..].
  apply amount_out_Some in H2 as (?&?&?&_&->&_); [|lia..].
  destruct Hfee as [[Hn0 Hn1] [Hd0 Hd1]].
  set (k := d - n) in *.
  assert (0 <= k) by lia. assert (0 < ri * d) as HR by nia. 
  assert (0 < ri * d + a * k) by nia. assert (0 < ri * d + b * k) by nia.
  apply div_le_iff; [done|].
  set (o := a * k * ro / (ri * d + a * k)).
  assert (o * (ri * d + a * k) <= a * k * ro) as Ho.
  { pose proof (Z.mul_div_le (a * k * ro) (ri * d + a * k)). unfold o. lia. }
  assert (0 <= o) as Ho0.
  { apply Z.div_pos; [|lia]. repeat apply Z.mul_nonneg_nonneg; lia. }
  assert (o < ro \/ a * k = 0 \/ ro <= o) as [Hlt|[Hz|Hge]] by lia.
  - assert (0 <= (b - a) * k * (ro - o)) by (repeat apply Z.mul_nonneg_nonneg; lia). lia.
  - assert (o = 0) as ->.
    { unfold o. rewrite Hz. simpl. apply Z.div_0_l. lia. }
    assert (0 <= b * k * ro) by (repeat apply Z.mul_nonneg_nonneg; lia). lia.
  - exfalso. assert (0 <= a * k) by nia. nia.
Qed.

(** [amount_out] reaches [o] exactly from the input where the product of the
    reserves, net of fees, is preserved. *)
Lemma amount_out_ge_iff a ri ro o v :
  0 <= a -> 0 <= ri -> 0 <= ro -> amount_out p a ri ro = Some v ->
  o <= v <-> ri * o * d <= a * ((ro - o) * (d - n)).
Proof.
  intros Ha Hri Hro H.
  apply amount_out_Some in H as (?&?&?&Hn&->&_); [|done..].
  destruct Hfee as [[Hn0 Hn1] [Hd0 Hd1]].
  rewrite div_le_iff by nia. split; lia.
Qed.

Lemma amount_in_Some o ri ro i :
  0 <= o -> 0 <= ri -> 0 <= ro ->
  amount_in p o ri ro = Some i ->
  0 < o < ro /\ 0 < ri /\ n < d /\
  i = (ri * o * d) / ((ro - o) * (d - n)) + 1 /\ ri + i <= POOL_MAX_RESERVES.
Proof.
  intros Ho Hri Hro H. unfold amount_in, check_final_reserves in H. rust_inv. zify_bool.
  assert (ro - o <> 0 /\ d - n <> 0) as [? ?].
  { split; intros E; rewrite E in *; lia. }
  repeat split; lia.
Qed.
End formulas.

(** ** Pool invariant *)
Lemma Reserves_new_Some a b r :
  0 <= asset_amount a -> 0 <= asset_amount b -> Reserves_new a b = Some r ->
  asset_token (reserves_0 r) < asset_token (reserves_1 r) /\
  0 <= asset_amount (reserves_0 r) <= POOL_MAX_RESERVES /\
  0 <= asset_amount (reserves_1 r) <= POOL_MAX_RESERVES.
Proof.
  intros Ha Hb. unfold Reserves_new.
  destruct (_ || _) eqn:E; [done|]. apply orb_false_iff in E as [E1 E2].
  apply Z.ltb_ge in E1, E2. unfold POOL_MAX_RESERVES.
  destruct (Z.compare_spec (asset_token a) (asset_token b)); intros; simplify_eq/=; lia.
Qed.

(** The order in which the two assets are given does not matter: the source
    collects them from a [HashMap]. *)
Lemma Reserves_new_sym a b : Reserves_new a b = Reserves_new b a.
Proof.
  unfold Reserves_new. rewrite (orb_comm (_ <? asset_amount a)).
  destruct (_ || _); [done|].
  destruct (Z.compare_spec (asset_token a) (asset_token b)),
    (Z.compare_spec (asset_token b) (asset_token a)); try done; lia.
Qed.

(** The invariant of a domain pool built by [Reserves_new] and
    [decimal_to_rational]. *)
Definition domain_pool_wf (p : DomainPool) : Prop :=
  asset_token (reserves_0 (dp_reserves p)) < asset_token (reserves_1 (dp_reserves p)) /\
  0 <= asset_amount (reserves_0 (dp_reserves p)) <= POOL_MAX_RESERVES /\
  0 <= asset_amount (reserves_1 (dp_reserves p)) <= POOL_MAX_RESERVES /\
  0 <= (dp_fee p).1 /\ 0 < (dp_fee p).2.

Lemma to_boundary_pool_safe addr p : domain_pool_wf p -> safe (to_boundary_pool addr p).
Proof.
  intros (Ht & Hr0 & Hr1 & Hf0 & Hf1). unfold to_boundary_pool.
  destruct (TokenPair_new_is_Some (asset_token (reserves_0 (dp_reserves p)))
    (asset_token (reserves_1 (dp_reserves p)))) as [t ->]; [lia|]. simpl.
  repeat (case_match; [apply safe_Ret|]).
  unfold Ratio_new. destruct (Z.eqb_spec (dp_fee p).2 0); [lia|]. apply safe_Ret.
Qed.

Lemma to_boundary_pool_wf addr p q :
  domain_pool_wf p -> to_boundary_pool addr p = Ret (Some q) ->
  pool_wf q /\ TokenPair_new (asset_token (reserves_0 (dp_reserves p)))
                 (asset_token (reserves_1 (dp_reserves p))) = Some (pool_tokens q).
Proof.
  intros (Ht & Hr0 & Hr1 & Hf0 & Hf1) H. unfold to_boundary_pool in H. rust_inv.
  match goal with H : TokenPair_new _ _ = Some _ |- _ =>
    pose proof H as (_ & Hlt & _)%TokenPair_new_Some end.
  repeat match goal with H : fits _ _ = true |- _ => apply fits_spec in H end.
  match goal with H : Ratio_new _ _ = Ret _ |- _ => apply Ratio_new_Ret in H; [|lia..] end.
  split; [|done]. unfold pool_wf; simpl. lia.
Qed.

(** ** Correctness of the swap functions *)

(** A pool is registered under its own token pair. *)
Definition cp_trades (p : Pool) (pair : Z * Z) : Prop := pool_wf p /\ pool_tokens p = pair.

Lemma relative_reserves_pair p a b :
  pool_wf p -> TokenPair_new a b = Some (pool_tokens p) ->
  exists ri ro, get_relative_reserves p a = Ret (ri, ro, b) /\
    get_relative_reserves p b = Ret (ro, ri, a) /\
    0 <= ri <= POOL_MAX_RESERVES /\ 0 <= ro <= POOL_MAX_RESERVES.
Proof.
  intros (Hlt & Hr1 & Hr2 & _) (Hne & _ & [E|E])%TokenPair_new_Some;
    unfold get_relative_reserves; rewrite E in *; simpl in *.
  - exists (pool_reserves p).1, (pool_reserves p).2. rewrite !Z.eqb_refl.
    destruct (Z.eqb_spec b a); [lia|]. auto.
  - exists (pool_reserves p).2, (pool_reserves p).1. rewrite !Z.eqb_refl.
    destruct (Z.eqb_spec a b); [lia|]. auto.
Qed.

Lemma cp_get_amount_out_eq p a b x :
  pool_wf p -> TokenPair_new a b = Some (pool_tokens p) ->
  exists ri ro, 0 <= ri <= POOL_MAX_RESERVES /\ 0 <= ro <= POOL_MAX_RESERVES /\
    get_relative_reserves p a = Ret (ri, ro, b) /\
    cp_get_amount_out p b (x, a) = Ret (amount_out p x ri ro) /\
    cp_get_amount_in p a (x, b) = Ret (amount_in p x ri ro).
Proof.
  intros Hwf Hp. destruct (relative_reserves_pair p a b Hwf Hp) as (ri & ro & Ha & Hb & Hri & Hro).
  exists ri, ro. split_and!; [lia..|done| |].
  - unfold cp_get_amount_out, Pool_get_amount_out. simpl. rewrite Ha. simpl.
    destruct (amount_out p x ri ro); simpl; [by rewrite Z.eqb_refl|done].
  - unfold cp_get_amount_in, Pool_get_amount_in. simpl. rewrite Hb. simpl.
    destruct (amount_in p x ri ro); simpl; [by rewrite Z.eqb_refl|done].
Qed.

Lemma POOL_MAX_RESERVES_u256 x : 0 <= x <= POOL_MAX_RESERVES -> u256 x.
Proof. unfold POOL_MAX_RESERVES, u256. lia. Qed.

(** A boundary pool satisfies the interface of the path finder. *)
#[export] Instance cp_solvable_safe : SolvableSafe Pool cp_trades.
Proof.
  split; intros l pr a b x; [|intros v| |intros v]; intros [Hwf <-] Hp Hx;
    destruct (cp_get_amount_out_eq l a b x Hwf Hp) as (ri & ro & Hri & Hro & _ & Ho & Hi);
    simpl.
  - rewrite Ho. apply safe_Ret.
  - rewrite Ho. intros [= H]. unfold u256 in Hx.
    apply amount_out_product in H as [_ ?]; [|auto with rust|lia..].
    apply POOL_MAX_RESERVES_u256. lia.
  - rewrite Hi. apply safe_Ret.
  - rewrite Hi. intros [= H]. unfold u256 in Hx.
    apply amount_in_Some in H as (? & ? & ? & -> & ?); [|lia..].
    apply POOL_MAX_RESERVES_u256. split; [|lia].
    assert (0 <= (ri * x * (pool_fee l).2) / ((ro - x) * ((pool_fee l).2 - (pool_fee l).1))); [|lia].
    destruct Hwf as (_ & _ & _ & ? & ?).
    apply Z.div_pos; [repeat apply Z.mul_nonneg_nonneg|apply Z.mul_pos_pos]; lia.
Qed.

(** Within the 112-bit reserve limit the formula is defined: no intermediate
    product overflows. *)
Lemma amount_out_defined p i ri ro :
  fee_wf p -> (pool_fee p).1 <= (pool_fee p).2 -> 0 < i -> 0 < ri -> 0 < ro <= POOL_MAX_RESERVES ->
  ri + i <= POOL_MAX_RESERVES ->
  let k := (pool_fee p).2 - (pool_fee p).1 in
  amount_out p i ri ro = Some (i * k * ro / (ri * (pool_fee p).2 + i * k)).
Proof.
  intros [[Hn0 Hn1] [Hd0 Hd1]] Hn Hi Hri [Hro Hro'] Hmax k. subst k.
  set (d := (pool_fee p).2) in *. set (k := d - (pool_fee p).1).
  assert (0 <= k < 2 ^ 32) by lia. unfold POOL_MAX_RESERVES in *.
  assert (i * k <= (2 ^ 112 - 1) * (2 ^ 32 - 1)) as Hik by (apply Z.mul_le_mono_nonneg; lia).
  assert (i * k * ro <= (2 ^ 112 - 1) * (2 ^ 32 - 1) * (2 ^ 112 - 1)) as Hikr
    by (apply Z.mul_le_mono_nonneg; [nia|lia..]).
  assert (ri * d <= (2 ^ 112 - 1) * (2 ^ 32 - 1)) as Hrd by (apply Z.mul_le_mono_nonneg; lia).
  assert (0 <= i * k) as Hik0 by nia. assert (0 < ri * d) by nia.
  set (v := i * k * ro / (ri * d + i * k)).
  assert (v <= ro) as Hv.
  { apply Z.lt_succ_r, Z.div_lt_upper_bound; [lia|]. nia. }
  unfold amount_out, check_final_reserves, POOL_MAX_RESERVES. fold d.
  rewrite (proj2 (Z.eqb_neq i 0)), (proj2 (Z.eqb_neq ri 0)), (proj2 (Z.eqb_neq ro 0)) by lia. simpl.
  rewrite (proj2 (checked_sub_Some d (pool_fee p).1 k)) by lia.
  rewrite (proj2 (checked_mul_Some i k (i * k))) by (unfold U256_MAX; lia).
  rewrite (proj2 (checked_mul_Some (i * k) ro (i * k * ro))) by (unfold U256_MAX; lia).
  rewrite (proj2 (checked_mul_Some ri d (ri * d))) by (unfold U256_MAX; lia).
  rewrite (proj2 (checked_add_Some (ri * d) (i * k) (ri * d + i * k))) by (unfold U256_MAX; lia).
  rewrite (proj2 (checked_div_Some (i * k * ro) (ri * d + i * k) v)) by (split; [done|lia]).
  rewrite (proj2 (checked_add_Some ri i (ri + i))) by (unfold U256_MAX; lia).
  rewrite (proj2 (checked_sub_Some ro v (ro - v))) by lia.
  by rewrite (proj2 (Z.ltb_ge _ _)) by lia.
Qed.

(** Selling the quoted input buys at least the requested output: the pool's two
    quote functions are consistent. *)
Lemma amount_in_sufficient p o ri ro i :
  fee_wf p -> 0 <= o -> 0 <= ri <= POOL_MAX_RESERVES -> 0 <= ro <= POOL_MAX_RESERVES ->
  amount_in p o ri ro = Some i ->
  exists v, amount_out p i ri ro = Some v /\ o <= v.
Proof.
  intros Hf Ho [Hri Hri'] [Hro Hro'] H.
  pose proof Hf as [[Hn0 Hn1] [Hd0 Hd1]].
  apply amount_in_Some in H as ([Ho1 Ho2] & Hri0 & Hn & Hi & Hmax); [|done..].
  set (k := (pool_fee p).2 - (pool_fee p).1) in *.
  set (d := (pool_fee p).2) in *.
  set (D := (ro - o) * k) in *.
  assert (0 < k < 2 ^ 32) by lia. assert (0 < D) as HD by (unfold D; nia).
  assert (0 <= ri * o * d) by (repeat apply Z.mul_nonneg_nonneg; lia).
  assert (0 < i) as Hi0.
  { subst i. assert (0 <= ri * o * d / D) by (apply Z.div_pos; lia). lia. }
  assert (ri * o * d <= i * D) as Hreach.
  { subst i. pose proof (Z.mul_succ_div_gt (ri * o * d) D HD). lia. }
  pose proof (amount_out_defined p i ri ro Hf ltac:(lia) Hi0 Hri0 ltac:(lia) Hmax) as Hout.
  eexists. split; [exact Hout|].
  rewrite (amount_out_ge_iff p Hf i ri ro o); [exact Hreach|lia..|exact Hout].
Qed.

(** When the pool quotes an input [i] for a requested output [o],
    selling [i] to the same pool state succeeds and yields at least [o], and every
    input more than one atom below [i] yields less than [o]; the quote is
    sufficient and minimal up to the one-atom rounding bump. *)
Theorem cp_quote_round_trip p a b o i :
  pool_wf p -> TokenPair_new a b = Some (pool_tokens p) -> u256 o ->
  cp_get_amount_in p a (o, b) = Ret (Some i) ->
  (exists v, cp_get_amount_out p b (i, a) = Ret (Some v) /\ o <= v) /\
  (forall j w, 0 <= j < i - 1 -> cp_get_amount_out p b (j, a) = Ret (Some w) -> w < o).
Proof.
  intros Hwf Hp [Ho _] Hin.
  destruct (relative_reserves_pair p a b Hwf Hp) as (ri & ro & Hra & _ & Hri & Hro).
  destruct (cp_get_amount_out_eq p a b o Hwf Hp) as (ri' & ro' & _ & _ & Hr & _ & Hi).
  rewrite Hra in Hr. simplify_eq. rewrite Hi in Hin. simplify_eq. split.
  - destruct (cp_get_amount_out_eq p a b i Hwf Hp) as (? & ? & _ & _ & Hr & Hout & _).
    rewrite Hra in Hr. simplify_eq. rewrite Hout.
    edestruct (amount_in_sufficient p o) as (v & Hv & ?); [eauto with rust|done|..|exact Hin|]; [lia..|].
    exists v. by rewrite Hv.
  - intros j w Hj Hw.
    destruct (cp_get_amount_out_eq p a b j Hwf Hp) as (? & ? & _ & _ & Hr & Hout & _).
    rewrite Hra in Hr. simplify_eq. rewrite Hout in Hw. simplify_eq.
    apply Z.nle_gt. rewrite (fun Hf H1 H2 H3 => amount_out_ge_iff p Hf _ _ _ o w H1 H2 H3 Hw); [|eauto with rust|lia..].
    apply amount_in_Some in Hin as ([? ?] & ? & ? & Hi' & _); [|lia..].
    match type of Hi' with _ = ?N / ?D + 1 =>
      assert (0 < D) as HD by nia; pose proof (Z.mul_div_le N D HD); set (q := D) in * end.
    nia.
Qed.

Definition example_pool : Pool := mkPool 100 (1, 2) (1000000, 2000000) (3, 1000).

Lemma cp_quote_round_trip_witness :
  cp_get_amount_in example_pool 1 (5000, 2) = Ret (Some 2514) /\
  (exists v, cp_get_amount_out example_pool 2 (2514, 1) = Ret (Some v) /\ 5000 <= v).
Proof.
  split; [vm_compute; reflexivity|].
  apply (cp_quote_round_trip example_pool 1 2 5000 2514); [|reflexivity|unfold u256; lia|vm_compute; reflexivity].
  unfold pool_wf, POOL_MAX_RESERVES; simpl; lia.
Defined.

(** A swap that the pool quotes keeps the constant-product
    invariant: the product of the reserves after the trade is at least the product
    before, the pool is never drained, and the reserve that grows stays within the
    112-bit limit of the on-chain pair. *)
Theorem cp_swap_keeps_invariant p a b x v ri ro :
  pool_wf p -> TokenPair_new a b = Some (pool_tokens p) -> u256 x ->
  get_relative_reserves p a = Ret (ri, ro, b) ->
  cp_get_amount_out p b (x, a) = Ret (Some v) ->
  ri * ro <= (ri + x) * (ro - v) /\ 0 <= v < ro /\ ri + x <= POOL_MAX_RESERVES.
Proof.
  intros Hwf Hp [Hx _] Hr H.
  destruct (cp_get_amount_out_eq p a b x Hwf Hp) as (ri' & ro' & Hri & Hro & Hr' & Ho & _).
  rewrite Hr in Hr'. simplify_eq. rewrite Ho in H. simplify_eq.
  edestruct (amount_out_product p (pool_wf_fee p Hwf) x) as [? ?]; [..|exact H|]; [lia..|].
  apply amount_out_Some in H as (_ & _ & _ & _ & _ & _ & ?); lia.
Qed.

Lemma cp_swap_keeps_invariant_witness :
  cp_get_amount_out example_pool 2 (1000, 1) = Ret (Some 1992) /\
  1000000 * 2000000 <= (1000000 + 1000) * (2000000 - 1992).
Proof.
  split; [vm_compute; reflexivity|].
  apply (cp_swap_keeps_invariant example_pool 1 2 1000 1992 1000000 2000000);
    [|reflexivity|unfold u256; lia|reflexivity|vm_compute; reflexivity].
  unfold pool_wf, POOL_MAX_RESERVES; simpl; lia.
Defined.

(** A well-formed pool is monotone, as the path finder's optimality needs. *)
Lemma cp_monotone p : pool_wf p -> monotone_out p.
Proof.
  intros Hwf a b x y u v [Hx Hxy]. simpl.
  unfold cp_get_amount_out, Pool_get_amount_out. simpl.
  destruct (get_relative_reserves p a) as [[[ri ro] t]|] eqn:Hr; simpl; [|done].
  assert (0 <= ri /\ 0 <= ro) as [? ?].
  { destruct Hwf as (_ & ? & ? & _). unfold get_relative_reserves in Hr.
    repeat case_match; simplify_eq; lia. }
  destruct (amount_out p x ri ro) as [o|] eqn:Hox; simpl; [|done].
  destruct (amount_out p y ri ro) as [q|] eqn:Hoy; simpl; [|done].
  destruct (t =? b); [|done]. intros [= <-] [= <-].
  eapply (amount_out_mono p (pool_wf_fee p Hwf)); [..|exact Hox|exact Hoy]; lia.
Qed.

(** A pool whose reserves stay below half of the 112-bit limit is deep: it quotes
    every amount up to that half. *)
Lemma cp_deep p :
  pool_wf p -> (pool_reserves p).1 < 2 ^ 111 -> (pool_reserves p).2 < 2 ^ 111 ->
  deep (2 ^ 111 - 1) p.
Proof.
  intros Hwf Hr1 Hr2.
  assert (forall a ri ro t, get_relative_reserves p a = Ret (ri, ro, t) ->
    0 <= ri < 2 ^ 111 /\ 0 <= ro < 2 ^ 111) as Hbound.
  { intros a ri ro t Hr. destruct Hwf as (_ & ? & ? & _). unfold get_relative_reserves in Hr.
    repeat case_match; simplify_eq; lia. }
  pose proof (pool_wf_fee p Hwf) as Hfee. split.
  - intros a b x y u Hxy HyM. cbn [get_amount_out cp_solvable].
    unfold cp_get_amount_out, Pool_get_amount_out. cbn [fst snd].
    destruct (get_relative_reserves p a) as [[[ri ro] t]|] eqn:Hr; [|done].
    destruct (Hbound _ _ _ _ Hr) as [Hri Hro]. cbn [comp_bind].
    destruct (amount_out p x ri ro) as [o|] eqn:Hx; [|done]. cbn [comp_obind].
    destruct (t =? b) eqn:Ht; [|done]. intros [= <-].
    pose proof Hx as (Hx0 & Hri0 & Hro0 & Hn & _)%amount_out_Some; [|lia..].
    pose proof (amount_out_defined p y ri ro Hfee Hn ltac:(lia) ltac:(lia)
      ltac:(unfold POOL_MAX_RESERVES; lia) ltac:(unfold POOL_MAX_RESERVES; lia)) as Hy.
    rewrite Hy. cbn [comp_obind]. eexists. rewrite Ht. split; [done|].
    eapply (amount_out_mono p Hfee x y ri ro); [lia..|exact Hx|exact Hy].
  - intros a b x u Hx. cbn [get_amount_out cp_solvable].
    unfold cp_get_amount_out, Pool_get_amount_out. cbn [fst snd].
    destruct (get_relative_reserves p a) as [[[ri ro] t]|] eqn:Hr; [|done].
    destruct (Hbound _ _ _ _ Hr) as [Hri Hro]. cbn [comp_bind].
    destruct (amount_out p x ri ro) as [o|] eqn:Ho; [|done]. cbn [comp_obind].
    destruct (t =? b); [|done]. intros [= <-].
    apply (amount_out_product p Hfee) in Ho as [_ ?]; lia.
Qed.
