(* ===== verification/LimitOrder.v ===== *)
(** * LimitOrder: 0x-like foreign limit orders

    [crates/solvers/src/domain/liquidity/limit_order.rs] and its
    [BaselineSolvable] implementation
    ([crates/solvers/src/boundary/liquidity/limit_order.rs]). *)

From stdpp Require Import base gmap sets list strings.
From Stdlib Require Import ZArith Lia.
From S2P Require Import Prelude Collections Eth Solvable.

Open Scope Z_scope.

Definition GAS_PER_ZEROEX_ORDER : Z := 66358.

(** [fee] is a [TakerAmount]. *)
Record LimitOrder := mkLimitOrder { lo_maker : Asset; lo_taker : Asset; lo_fee : Z }.

Definition lo_get_amount_out (o : LimitOrder) (out_token : address) (input : Z * address)
  : comp (option Z) :=
  Ret (if negb (input.2 =? asset_token (lo_taker o))
          || negb (out_token =? asset_token (lo_maker o))
          || (asset_amount (lo_taker o) <? input.1)
       then None
       else let? product := checked_mul input.1 (asset_amount (lo_maker o)) in
            checked_div product (asset_amount (lo_taker o))).

Definition lo_get_amount_in (o : LimitOrder) (in_token : address) (out : Z * address)
  : comp (option Z) :=
  Ret (if negb (out.2 =? asset_token (lo_maker o))
          || negb (in_token =? asset_token (lo_taker o))
          || (asset_amount (lo_maker o) <? out.1)
       then None
       else let? product := checked_mul out.1 (asset_amount (lo_taker o)) in
            checked_div product (asset_amount (lo_maker o))).

#[export] Instance lo_solvable : BaselineSolvable LimitOrder := {|
  get_amount_out := lo_get_amount_out;
  get_amount_in := lo_get_amount_in;
  gas_cost := fun _ => GAS_PER_ZEROEX_ORDER;
|}.

(** Amounts of an order are [U256] values. *)
Definition lo_wf (o : LimitOrder) : Prop :=
  u256 (asset_amount (lo_maker o)) /\ u256 (asset_amount (lo_taker o)).

Definition lo_trades (o : LimitOrder) (pr : Z * Z) : Prop :=
  lo_wf o /\ TokenPair_new (asset_token (lo_maker o)) (asset_token (lo_taker o)) = Some pr.

Lemma lo_out_Some o a b x v :
  lo_get_amount_out o b (x, a) = Ret (Some v) <->
  a = asset_token (lo_taker o) /\ b = asset_token (lo_maker o) /\
  x <= asset_amount (lo_taker o) /\ asset_amount (lo_taker o) <> 0 /\
  x * asset_amount (lo_maker o) <= U256_MAX /\
  v = x * asset_amount (lo_maker o) / asset_amount (lo_taker o).
Proof.
  unfold lo_get_amount_out. simpl. split.
  - intros H. rust_inv. zify_bool. auto 10.
  - intros (-> & -> & ? & ? & ? & ->). rewrite !Z.eqb_refl, (proj2 (Z.ltb_ge _ _)) by done. simpl.
    rewrite (proj2 (checked_mul_Some _ _ _)) by done.
    by rewrite (proj2 (checked_div_Some _ _ _)) by done.
Qed.

Lemma lo_in_Some o a b y v :
  lo_get_amount_in o a (y, b) = Ret (Some v) <->
  a = asset_token (lo_taker o) /\ b = asset_token (lo_maker o) /\
  y <= asset_amount (lo_maker o) /\ asset_amount (lo_maker o) <> 0 /\
  y * asset_amount (lo_taker o) <= U256_MAX /\
  v = y * asset_amount (lo_taker o) / asset_amount (lo_maker o).
Proof.
  unfold lo_get_amount_in. simpl. split.
  - intros H. rust_inv. zify_bool. auto 10.
  - intros (-> & -> & ? & ? & ? & ->). rewrite !Z.eqb_refl, (proj2 (Z.ltb_ge _ _)) by done. simpl.
    rewrite (proj2 (checked_mul_Some _ _ _)) by done.
    by rewrite (proj2 (checked_div_Some _ _ _)) by done.
Qed.

(** [x * m / n] with [x <= n] never exceeds [m]. *)
Lemma scaled_le x m n : 0 <= x <= n -> 0 < n -> 0 <= m -> 0 <= x * m / n <= m.
Proof.
  intros ???. split; [apply Z.div_pos; nia|].
  apply Z.lt_succ_r, Z.div_lt_upper_bound; nia.
Qed.

#[export] Instance lo_solvable_safe : SolvableSafe LimitOrder lo_trades.
Proof.
  split; intros o pr a b x; [|intros v| |intros v]; intros [[Hm Ht] Hp] Hnew Hx; unfold u256 in *.
  1,3: apply safe_Ret.
  - intros (-> & -> & ? & ? & ? & ->)%lo_out_Some.
    assert (0 <= x * asset_amount (lo_maker o) / asset_amount (lo_taker o)
              <= asset_amount (lo_maker o)) by (apply scaled_le; lia). lia.
  - intros (-> & -> & ? & ? & ? & ->)%lo_in_Some.
    assert (0 <= x * asset_amount (lo_taker o) / asset_amount (lo_maker o)
              <= asset_amount (lo_taker o)) by (apply scaled_le; lia). lia.
Qed.

Lemma lo_monotone o : lo_wf o -> monotone_out o.
Proof.
  intros [Hm Ht] a b x y u v Hxy (-> & -> & ? & ? & ? & ->)%lo_out_Some (_ & _ & _ & _ & _ & ->)%lo_out_Some.
  unfold u256 in *. apply Z.div_le_mono; nia.
Qed.

(** A limit order never pays more than it holds nor better than its
    own rate, in either quoting direction: the output for an input stays within
    the maker amount and [out * taker <= in * maker]; and quoting the input for a
    requested output and selling it back never yields more than the request. *)
Theorem lo_rate_respected o a b x v :
  lo_wf o -> 0 <= x ->
  (lo_get_amount_out o b (x, a) = Ret (Some v) ->
     0 <= v <= asset_amount (lo_maker o) /\
     v * asset_amount (lo_taker o) <= x * asset_amount (lo_maker o)) /\
  (lo_get_amount_in o a (x, b) = Ret (Some v) ->
     0 <= v <= asset_amount (lo_taker o) /\
     forall w, lo_get_amount_out o b (v, a) = Ret (Some w) -> w <= x).
Proof.
  intros [Hm Ht] Hx. unfold u256 in *. split.
  - intros (-> & -> & ? & ? & ? & ->)%lo_out_Some. split; [apply scaled_le; lia|].
    rewrite Z.mul_comm. apply Z.mul_div_le. lia.
  - intros (-> & -> & ? & ? & ? & ->)%lo_in_Some. split; [apply scaled_le; lia|].
    intros w (_ & _ & _ & ? & _ & ->)%lo_out_Some.
    set (m := asset_amount (lo_maker o)) in *. set (t := asset_amount (lo_taker o)) in *.
    pose proof (Z.mul_div_le (x * t) m ltac:(lia)).
    apply Z.lt_succ_r, Z.div_lt_upper_bound; nia.
Qed.

Definition example_order : LimitOrder := mkLimitOrder (mkAsset 1 300) (mkAsset 2 100) 10.

Lemma lo_rate_respected_witness :
  lo_get_amount_out example_order 1 (50, 2) = Ret (Some 150) /\ 0 <= 150 <= 300 /\ 150 * 100 <= 50 * 300.
Proof.
  split; [reflexivity|].
  apply (proj1 (lo_rate_respected example_order 2 1 50 150 ltac:(unfold lo_wf, u256; simpl; lia) ltac:(lia))).
  reflexivity.
Defined.
