(* ===== verification/FixedPoint.v ===== *)
(** * FixedPoint: Balancer's 18-decimal fixed point numbers

    The error codes ([swap/error.rs]), the checked integer helpers
    ([swap/math.rs]) and the [Bfp] operations that do not exponentiate
    ([swap/fixed_point.rs]) of [crates/shared/src/sources/balancer_v2].  A [Bfp]
    is the [U256] it wraps. *)

From stdpp Require Import base gmap sets list strings.
From Stdlib Require Import ZArith Lia.
From S2P Require Import Prelude Collections Eth.

Open Scope Z_scope.

(** [errors_from_codes!]. *)
Inductive Error :=
| AddOverflow | SubOverflow | MulOverflow | ZeroDivision | DivInternal
| XOutOfBounds | YOutOfBounds | ProductOutOfBounds | InvalidExponent
| MaxInRatio | MaxOutRatio | InvalidToken
| StableInvariantDidntConverge | StableGetBalanceDidntConverge.

#[export] Instance Error_eq_dec : EqDecision Error.
Proof. solve_decision. Defined.

(** ** [BalU256]: integer operations with Balancer's error codes *)
Definition bmul (a b : Z) : result Error Z := ok_or (checked_mul a b) MulOverflow.
Definition badd (a b : Z) : result Error Z := ok_or (checked_add a b) AddOverflow.
Definition bsub (a b : Z) : result Error Z := ok_or (checked_sub a b) SubOverflow.
Definition bdiv_down (a b : Z) : result Error Z :=
  if b =? 0 then Err ZeroDivision else Ok (a / b).
Definition bdiv_up (a b : Z) : result Error Z :=
  if b =? 0 then Err ZeroDivision
  else if a =? 0 then Ok 0
  else Ok (wrapping_add 1 (wrapping_sub a 1 / b)).

(** ** [Bfp] *)
Definition ONE_18 : Z := 10 ^ 18.
Definition Bfp_one : Z := ONE_18.
Definition Bfp_TWO : Z := ONE_18 * 2.
Definition Bfp_FOUR : Z := ONE_18 * 4.
Definition MAX_POW_RELATIVE_ERROR : Z := 10000.

(** [Bfp::exp10]: the exponent is an [i32], the power wraps. *)
Definition Bfp_exp10 (exp : Z) : Z :=
  let exp := Z.min (exp + 18) (2 ^ 31 - 1) in
  if exp <? 0 then 0 else 10 ^ exp mod 2 ^ 256.

Definition Bfp_add (a b : Z) : result Error Z := ok_or (checked_add a b) AddOverflow.
Definition Bfp_sub (a b : Z) : result Error Z := ok_or (checked_sub a b) SubOverflow.

Definition Bfp_mul_down (a b : Z) : result Error Z :=
  letr product := ok_or (checked_mul a b) MulOverflow in
  Ok (product / ONE_18).

Definition Bfp_mul_up (a b : Z) : result Error Z :=
  letr product := ok_or (checked_mul a b) MulOverflow in
  Ok (if product =? 0 then 0
      else wrapping_add (wrapping_sub product 1 / ONE_18) 1).

Definition Bfp_div_down (a b : Z) : result Error Z :=
  if b =? 0 then Err ZeroDivision
  else letr inflated := ok_or (checked_mul a ONE_18) DivInternal in
       Ok (inflated / b).

Definition Bfp_div_up (a b : Z) : result Error Z :=
  if b =? 0 then Err ZeroDivision
  else if a =? 0 then Ok 0
  else letr a_inflated := ok_or (checked_mul a ONE_18) DivInternal in
       Ok (wrapping_add (wrapping_sub a_inflated 1 / b) 1).

Definition Bfp_complement (a : Z) : Z :=
  if a <? ONE_18 then wrapping_sub ONE_18 a else 0.

(** [impl From<Bfp> for BigRational] and [impl TryFrom<&BigRational> for Bfp];
    [None] is the [anyhow] error. *)
Definition BigRational_from_Bfp (num : Z) : comp (Z * Z) := Ratio_new num ONE_18.
Definition Bfp_try_from (value : Z * Z) : option Z :=
  let scaled := value.1 * ONE_18 in
  if negb (scaled mod value.2 =? 0) then None
  else let integer := scaled / value.2 in
       if fits 256 integer then Some integer else None.

(** ** What the operations compute *)
Lemma wrapping_small a : u256 a -> a mod 2 ^ 256 = a.
Proof. intros. by apply Z.mod_small. Qed.

(** The rounding-up idiom of Solidity, [(a - 1) / b + 1], is ceiling division. *)
Lemma div_up_idiom a b :
  0 < a <= U256_MAX -> 0 < b ->
  wrapping_add (wrapping_sub a 1 / b) 1 = div_ceil a b /\ 0 < div_ceil a b <= a.
Proof.
  unfold U256_MAX. intros Ha Hb. unfold wrapping_add, wrapping_sub, div_ceil.
  rewrite (wrapping_small (a - 1)) by (unfold u256; lia).
  assert (0 <= (a - 1) / b <= a - 1).
  { split; [apply Z.div_pos; lia|]. apply Z.div_le_upper_bound; nia. }
  rewrite wrapping_small by (unfold u256; lia).
  replace (a + b - 1) with (a - 1 + 1 * b) by lia. rewrite Z.div_add by lia. lia.
Qed.

Lemma div_ceil_0 b : 0 < b -> div_ceil 0 b = 0.
Proof. intros. unfold div_ceil. apply Z.div_small. lia. Qed.

Lemma bdiv_up_Ok a b c :
  u256 a -> u256 b -> bdiv_up a b = Ok c <-> b <> 0 /\ c = div_ceil a b.
Proof.
  unfold u256, bdiv_up. intros Ha Hb. destruct (Z.eqb_spec b 0); [naive_solver|].
  destruct (Z.eqb_spec a 0) as [->|].
  { rewrite div_ceil_0 by lia. naive_solver. }
  destruct (div_up_idiom a b) as [E _]; [unfold U256_MAX; lia..|].
  rewrite <- E. unfold wrapping_add. rewrite (Z.add_comm 1). naive_solver.
Qed.

Lemma bmul_Ok a b c : bmul a b = Ok c <-> c = a * b /\ a * b <= U256_MAX.
Proof. unfold bmul. rewrite ok_or_Ok. apply checked_mul_Some. Qed.
Lemma badd_Ok a b c : badd a b = Ok c <-> c = a + b /\ a + b <= U256_MAX.
Proof. unfold badd. rewrite ok_or_Ok. apply checked_add_Some. Qed.
Lemma bsub_Ok a b c : bsub a b = Ok c <-> c = a - b /\ b <= a.
Proof. unfold bsub. rewrite ok_or_Ok. apply checked_sub_Some. Qed.
Lemma bdiv_down_Ok a b c : bdiv_down a b = Ok c <-> c = a / b /\ b <> 0.
Proof. unfold bdiv_down. destruct (Z.eqb_spec b 0); naive_solver. Qed.

Lemma Bfp_add_Ok a b c : Bfp_add a b = Ok c <-> c = a + b /\ a + b <= U256_MAX.
Proof. apply badd_Ok. Qed.
Lemma Bfp_sub_Ok a b c : Bfp_sub a b = Ok c <-> c = a - b /\ b <= a.
Proof. apply bsub_Ok. Qed.

Lemma Bfp_mul_down_Ok a b c :
  Bfp_mul_down a b = Ok c <-> c = a * b / ONE_18 /\ a * b <= U256_MAX.
Proof.
  unfold Bfp_mul_down. rewrite result_bind_Ok. setoid_rewrite ok_or_Ok.
  setoid_rewrite checked_mul_Some. naive_solver.
Qed.

Lemma ONE_18_pos : 0 < ONE_18.
Proof. reflexivity. Qed.
#[export] Hint Resolve ONE_18_pos : rust.

Lemma Bfp_mul_up_Ok a b c :
  u256 a -> u256 b ->
  Bfp_mul_up a b = Ok c <-> c = div_ceil (a * b) ONE_18 /\ a * b <= U256_MAX.
Proof.
  unfold u256. intros Ha Hb. unfold Bfp_mul_up. rewrite result_bind_Ok. setoid_rewrite ok_or_Ok.
  setoid_rewrite checked_mul_Some.
  assert (a * b <= U256_MAX -> (if a * b =? 0 then 0
      else wrapping_add (wrapping_sub (a * b) 1 / ONE_18) 1) = div_ceil (a * b) ONE_18) as Heq.
  { intros Hmax. destruct (Z.eqb_spec (a * b) 0) as [->|].
    - by rewrite div_ceil_0 by apply ONE_18_pos.
    - apply div_up_idiom; [nia|apply ONE_18_pos]. }
  split.
  - intros (x & [-> Hx] & [= <-]). auto.
  - intros [-> Hx]. eexists. split; [done|]. by rewrite Heq.
Qed.

Lemma Bfp_div_down_Ok a b c :
  Bfp_div_down a b = Ok c <-> b <> 0 /\ c = a * ONE_18 / b /\ a * ONE_18 <= U256_MAX.
Proof.
  unfold Bfp_div_down. destruct (Z.eqb_spec b 0); [naive_solver|].
  rewrite result_bind_Ok. setoid_rewrite ok_or_Ok. setoid_rewrite checked_mul_Some. naive_solver.
Qed.

Lemma Bfp_div_up_Ok a b c :
  u256 a -> u256 b ->
  Bfp_div_up a b = Ok c <-> b <> 0 /\ c = div_ceil (a * ONE_18) b /\ a * ONE_18 <= U256_MAX.
Proof.
  unfold u256. intros Ha Hb. pose proof ONE_18_pos. unfold Bfp_div_up.
  destruct (Z.eqb_spec b 0); [naive_solver|].
  destruct (Z.eqb_spec a 0) as [->|].
  { rewrite Z.mul_0_l, div_ceil_0 by lia.
    split; [|naive_solver]. intros [= <-]. split_and!; [done..|unfold U256_MAX; lia]. }
  rewrite result_bind_Ok. setoid_rewrite ok_or_Ok. setoid_rewrite checked_mul_Some.
  split.
  - intros (x & [-> Hx] & [= <-]). destruct (div_up_idiom (a * ONE_18) b) as [-> _]; [nia|lia|done].
  - intros (_ & -> & Hx). eexists. split; [done|].
    destruct (div_up_idiom (a * ONE_18) b) as [-> _]; [nia|lia|done].
Qed.

Lemma Bfp_complement_spec a : u256 a -> Bfp_complement a = Z.max 0 (ONE_18 - a).
Proof.
  unfold u256, Bfp_complement, wrapping_sub. intros Ha.
  destruct (Z.ltb_spec a ONE_18); [|lia].
  assert (ONE_18 < 2 ^ 256) by reflexivity.
  rewrite wrapping_small by (unfold u256; lia). lia.
Qed.

Lemma div_ceil_nonneg a b : 0 <= a -> 0 < b -> 0 <= div_ceil a b.
Proof. intros. pose proof (div_ceil_spec a b ltac:(lia)). nia. Qed.

Lemma div_ceil_le_self a b : 0 <= a -> 0 < b -> div_ceil a b <= a.
Proof. intros. apply div_ceil_le; nia. Qed.

(** Every successful operation stays within [U256]. *)
Lemma Bfp_ops_u256 a b c :
  u256 a -> u256 b ->
  Bfp_add a b = Ok c \/ Bfp_sub a b = Ok c \/ Bfp_mul_down a b = Ok c \/
  Bfp_mul_up a b = Ok c \/ Bfp_div_down a b = Ok c \/ Bfp_div_up a b = Ok c ->
  u256 c.
Proof.
  intros Ha Hb. pose proof ONE_18_pos. rewrite Bfp_add_Ok, Bfp_sub_Ok, Bfp_mul_down_Ok, Bfp_mul_up_Ok,
    Bfp_div_down_Ok, Bfp_div_up_Ok by done.
  unfold u256, U256_MAX in *.
  intros [[-> ?]|[[-> ?]|[[-> ?]|[[-> ?]|[(? & -> & ?)|(? & -> & ?)]]]]]; [lia|lia|..].
  - split; [apply Z.div_pos; nia|]. apply Z.div_lt_upper_bound; nia.
  - pose proof (div_ceil_nonneg (a * b) ONE_18). pose proof (div_ceil_le_self (a * b) ONE_18). nia.
  - split; [apply Z.div_pos; nia|]. apply Z.div_lt_upper_bound; nia.
  - pose proof (div_ceil_nonneg (a * ONE_18) b). pose proof (div_ceil_le_self (a * ONE_18) b). nia.
Qed.

(** Conversion to a rational and back is the identity. *)
Lemma Bfp_rational_round_trip v :
  u256 v -> exists r, BigRational_from_Bfp v = Ret r /\ Bfp_try_from r = Some v.
Proof.
  intros Hv. unfold BigRational_from_Bfp. destruct (Ratio_new v ONE_18) as [r|] eqn:E.
  - exists r. split; [done|]. unfold u256 in Hv.
    apply Ratio_new_Ret in E as (Hr1 & Hr2 & Hr); [|lia|apply ONE_18_pos].
    unfold Bfp_try_from. rewrite Hr, Z.mod_mul, Z.div_mul by lia. simpl.
    by rewrite (proj2 (fits_spec 256 v)) by done.
  - exfalso. revert E. unfold Ratio_new, ONE_18. done.
Qed.
