(* ===== verification/LogExp.v ===== *)
(** * LogExp: Balancer's fixed point power function

    [crates/shared/src/sources/balancer_v2/swap/fixed_point/logexpmath.rs].
    [I256] arithmetic asserts that it does not overflow; an overflow is a
    [Panic] here, and the theorems show that no operation overflows, so that
    the result does not depend on the build profile.  The recursive calls of
    [exp] and [_ln] are fuelled; running out of fuel is a [Panic] as well. *)

From stdpp Require Import base gmap sets list strings.
From Stdlib Require Import ZArith Lia.
From S2P Require Import Prelude Collections Eth FixedPoint.

Open Scope Z_scope.

(** ** [I256] *)
Definition I256_MAX : Z := 2 ^ 255 - 1.
Definition i256 (a : Z) : comp Z :=
  if (- 2 ^ 255 <=? a) && (a <=? I256_MAX) then Ret a else Panic.
Definition i256_add (a b : Z) : comp Z := i256 (a + b).
Definition i256_sub (a b : Z) : comp Z := i256 (a - b).
Definition i256_mul (a b : Z) : comp Z := i256 (a * b).
Definition i256_neg (a : Z) : comp Z := i256 (- a).
(** Division truncates toward zero and panics on a zero divisor. *)
Definition i256_div (a b : Z) : comp Z := if b =? 0 then Panic else i256 (Z.quot a b).
Definition i256_rem (a b : Z) : comp Z := if b =? 0 then Panic else i256 (Z.rem a b).

(** ** Constants *)
Definition ONE_20 : Z := 10 ^ 20.
Definition ONE_36 : Z := 10 ^ 36.
Definition MAX_NATURAL_EXPONENT : Z := ONE_18 * 130.
Definition MIN_NATURAL_EXPONENT : Z := ONE_18 * -41.
Definition LN_36_LOWER_BOUND : Z := ONE_18 - 10 ^ 17.
Definition LN_36_UPPER_BOUND : Z := ONE_18 + 10 ^ 17.
Definition MILD_EXPONENT_BOUND : Z := Z.shiftl 1 254 / ONE_20.

Definition constant_x_20 (i : Z) : comp Z :=
  match i with
  | 2 => Ret 3200000000000000000000
  | 3 => Ret 1600000000000000000000
  | 4 => Ret 800000000000000000000
  | 5 => Ret 400000000000000000000
  | 6 => Ret 200000000000000000000
  | 7 => Ret 100000000000000000000
  | 8 => Ret 50000000000000000000
  | 9 => Ret 25000000000000000000
  | 10 => Ret 12500000000000000000
  | 11 => Ret 6250000000000000000
  | _ => Panic
  end.
Definition constant_x_18 (i : Z) : comp Z :=
  match i with
  | 0 => Ret 128000000000000000000
  | 1 => Ret 64000000000000000000
  | _ => Panic
  end.
Definition constant_a_20 (i : Z) : comp Z :=
  match i with
  | 2 => Ret 7896296018268069516100000000000000
  | 3 => Ret 888611052050787263676000000
  | 4 => Ret 298095798704172827474000
  | 5 => Ret 5459815003314423907810
  | 6 => Ret 738905609893065022723
  | 7 => Ret 271828182845904523536
  | 8 => Ret 164872127070012814685
  | 9 => Ret 128402541668774148407
  | 10 => Ret 113314845306682631683
  | 11 => Ret 106449445891785942956
  | _ => Panic
  end.
Definition constant_a_18 (i : Z) : comp Z :=
  match i with
  | 0 => Ret 38877084059945950922200000000000000000000000000000000000
  | 1 => Ret 6235149080811616882910000000
  | _ => Panic
  end.

(** ** [exp] *)

(** [for i in 2..=9]: the decomposition into powers of e. *)
Fixpoint exp_product (idx : list Z) (x product : Z) : comp (Z * Z) :=
  match idx with
  | [] => Ret (x, product)
  | i :: idx =>
      let! xi := constant_x_20 i in
      if xi <=? x then
        let! x := i256_sub x xi in
        let! ai := constant_a_20 i in
        let! scaled := i256_mul product ai in
        let! product := i256_div scaled ONE_20 in
        exp_product idx x product
      else exp_product idx x product
  end.

(** [for i in 2..=12]: the Taylor series. *)
Fixpoint exp_series (idx : list Z) (x term series_sum : Z) : comp Z :=
  match idx with
  | [] => Ret series_sum
  | i :: idx =>
      let! tx := i256_mul term x in
      let! tx := i256_div tx ONE_20 in
      let! term := i256_div tx i in
      let! series_sum := i256_add series_sum term in
      exp_series idx x term series_sum
  end.

Fixpoint exp_fuel (fuel : nat) (x : Z) : comp (result Error Z) :=
  match fuel with
  | O => Panic
  | S fuel =>
      if negb ((MIN_NATURAL_EXPONENT <=? x) && (x <=? MAX_NATURAL_EXPONENT))
      then Ret (Err InvalidExponent)
      else if x <? 0 then
        let! numerator := i256_mul ONE_18 ONE_18 in
        let! x := i256_neg x in
        let!r e := exp_fuel fuel x in
        let! q := i256_div numerator e in
        Ret (Ok q)
      else
        let! x0 := constant_x_18 0 in
        let! x1 := constant_x_18 1 in
        let! (x, first_an) :=
          (if x0 <=? x then
             let! x := i256_sub x x0 in let! a := constant_a_18 0 in Ret (x, a)
           else if x1 <=? x then
             let! x := i256_sub x x1 in let! a := constant_a_18 1 in Ret (x, a)
           else Ret (x, 1)) in
        let! x := i256_mul x 100 in
        let! (x, product) := exp_product [2; 3; 4; 5; 6; 7; 8; 9] x ONE_20 in
        let! series_sum := i256_add ONE_20 x in
        let! series_sum := exp_series [2; 3; 4; 5; 6; 7; 8; 9; 10; 11; 12] x x series_sum in
        let! r := i256_mul product series_sum in
        let! r := i256_div r ONE_20 in
        let! r := i256_mul r first_an in
        let! r := i256_div r 100 in
        Ret (Ok r)
  end.
Definition exp (x : Z) : comp (result Error Z) := exp_fuel 2 x.

(** ** [_ln] *)

(** [for i in 0..=1]. *)
Fixpoint ln_large (idx : list Z) (a sum : Z) : comp (Z * Z) :=
  match idx with
  | [] => Ret (a, sum)
  | i :: idx =>
      let! ai := constant_a_18 i in
      let! threshold := i256_mul ai ONE_18 in
      if threshold <=? a then
        let! a := i256_div a ai in
        let! xi := constant_x_18 i in
        let! sum := i256_add sum xi in
        ln_large idx a sum
      else ln_large idx a sum
  end.

(** [for i in 2..=11]. *)
Fixpoint ln_small (idx : list Z) (a sum : Z) : comp (Z * Z) :=
  match idx with
  | [] => Ret (a, sum)
  | i :: idx =>
      let! ai := constant_a_20 i in
      if ai <=? a then
        let! scaled := i256_mul a ONE_20 in
        let! a := i256_div scaled ai in
        let! xi := constant_x_20 i in
        let! sum := i256_add sum xi in
        ln_small idx a sum
      else ln_small idx a sum
  end.

(** The arctanh series shared by [_ln] and [_ln_36], at the given precision. *)
Fixpoint ln_series (one : Z) (idx : list Z) (z_squared num series_sum : Z) : comp Z :=
  match idx with
  | [] => Ret series_sum
  | i :: idx =>
      let! n := i256_mul num z_squared in
      let! num := i256_div n one in
      let! t := i256_div num i in
      let! series_sum := i256_add series_sum t in
      ln_series one idx z_squared num series_sum
  end.

Fixpoint ln_fuel (fuel : nat) (a : Z) : comp Z :=
  match fuel with
  | O => Panic
  | S fuel =>
      if a <? ONE_18 then
        let! numerator := i256_mul ONE_18 ONE_18 in
        let! inverse := i256_div numerator a in
        let! r := ln_fuel fuel inverse in
        i256_neg r
      else
        let! (a, sum) := ln_large [0; 1] a 0 in
        let! sum := i256_mul sum 100 in
        let! a := i256_mul a 100 in
        let! (a, sum) := ln_small [2; 3; 4; 5; 6; 7; 8; 9; 10; 11] a sum in
        let! d := i256_sub a ONE_20 in
        let! n := i256_mul d ONE_20 in
        let! s := i256_add a ONE_20 in
        let! z := i256_div n s in
        let! zz := i256_mul z z in
        let! z_squared := i256_div zz ONE_20 in
        let! series_sum := ln_series ONE_20 [3; 5; 7; 9; 11] z_squared z z in
        let! series_sum := i256_mul series_sum 2 in
        let! t := i256_add sum series_sum in
        i256_div t 100
  end.
Definition _ln (a : Z) : comp Z := ln_fuel 2 a.

Definition _ln_36 (x : Z) : comp Z :=
  let! x := i256_mul x ONE_18 in
  let! d := i256_sub x ONE_36 in
  let! n := i256_mul d ONE_36 in
  let! s := i256_add x ONE_36 in
  let! z := i256_div n s in
  let! zz := i256_mul z z in
  let! z_squared := i256_div zz ONE_36 in
  let! series_sum := ln_series ONE_36 [3; 5; 7; 9; 11; 13; 15] z_squared z z in
  i256_mul series_sum 2.

(** ** [pow] *)
Definition pow (x y : Z) : comp (result Error Z) :=
  if y =? 0 then Ret (Ok ONE_18)
  else if x =? 0 then Ret (Ok 0)
  else if I256_MAX <? x then Ret (Err XOutOfBounds)
  else if negb (y <? MILD_EXPONENT_BOUND) then Ret (Err YOutOfBounds)
  else
    let! logx_times_y :=
      (if (LN_36_LOWER_BOUND <? x) && (x <? LN_36_UPPER_BOUND) then
         let! ln_36_x := _ln_36 x in
         let! q := i256_div ln_36_x ONE_18 in
         let! qy := i256_mul q y in
         let! r := i256_rem ln_36_x ONE_18 in
         let! ry := i256_mul r y in
         let! t := i256_div ry ONE_18 in
         i256_add qy t
       else
         let! l := _ln x in i256_mul l y) in
    let! logx_times_y := i256_div logx_times_y ONE_18 in
    if negb ((MIN_NATURAL_EXPONENT <=? logx_times_y) && (logx_times_y <=? MAX_NATURAL_EXPONENT))
    then Ret (Err ProductOutOfBounds)
    else exp logx_times_y.

(** [Bfp::pow_up] and [Bfp::pow_up_v3] ([swap/fixed_point.rs]). *)
Definition Bfp_pow_up (a exp : Z) : comp (result Error Z) :=
  let!r raw := pow a exp in
  Ret (letr scaled := Bfp_mul_up raw MAX_POW_RELATIVE_ERROR in
       letr max_error := Bfp_add scaled 1 in
       Bfp_add raw max_error).

Definition Bfp_pow_up_v3 (a exp : Z) : comp (result Error Z) :=
  if exp =? Bfp_one then Ret (Ok a)
  else if exp =? Bfp_TWO then Ret (Bfp_mul_up a a)
  else if exp =? Bfp_FOUR then
    Ret (letr square := Bfp_mul_up a a in Bfp_mul_up square square)
  else
    let!r raw := pow a exp in
    Ret (letr scaled := Bfp_mul_up raw MAX_POW_RELATIVE_ERROR in
         letr max_error := Bfp_add scaled 1 in
         Bfp_add raw max_error).


(** ** The test vectors of the source *)
Example ln_vectors :
  [_ln 1; _ln 100; _ln (10 ^ 11); _ln (10 ^ 18); _ln (10 ^ 23); _ln (10 ^ 76)] =
  [Ret (-41446531673892822312); Ret (-36841361487904730944); Ret (-16118095650958319788);
   Ret 0; Ret 11512925464970228420; Ret 133549935393654649672].
Proof. vm_compute. reflexivity. Qed.

Example ln_36_vectors :
  [_ln_36 (9 * 10 ^ 17); _ln_36 (10 ^ 18 - 1); _ln_36 (105 * 10 ^ 16)] =
  [Ret (-105360515657826301227479460574005190); Ret (-1000000000000000000);
   Ret 48790164169432003065374404178136230].
Proof. vm_compute. reflexivity. Qed.

Example pow_vectors :
  [pow I256_MAX 1; pow (10 ^ 18) (MILD_EXPONENT_BOUND - 1); pow 1250152867 (2 * 10 ^ 18);
   pow (2 * 10 ^ 18) (2 * 10 ^ 18); pow (2 ^ 255) 1; pow (10 ^ 18) MILD_EXPONENT_BOUND;
   pow 1250152866 (2 * 10 ^ 18)] =
  [Ret (Ok 1000000000000000135); Ret (Ok (10 ^ 18)); Ret (Ok 1);
   Ret (Ok 3999999999999999996); Ret (Err XOutOfBounds); Ret (Err YOutOfBounds);
   Ret (Err ProductOutOfBounds)].
Proof. vm_compute. reflexivity. Qed.

(** ** No operation overflows *)
Lemma i256_Ret a : - 2 ^ 255 <= a <= I256_MAX -> i256 a = Ret a.
Proof.
  intros Ha. unfold i256.
  by rewrite (proj2 (Z.leb_le (- 2 ^ 255) a)), (proj2 (Z.leb_le a I256_MAX)) by lia.
Qed.

Section steps.
Context {B : Type} (k : Z -> comp B) (Q : B -> Prop).

Lemma step_i256 a :
  - 2 ^ 255 <= a <= I256_MAX -> returns (k a) Q -> returns (let! v := i256 a in k v) Q.
Proof.
  intros Ha H. by rewrite i256_Ret.
Qed.

Lemma step_div a b :
  0 <= a <= I256_MAX -> 0 < b -> returns (k (a / b)) Q -> returns (let! v := i256_div a b in k v) Q.
Proof.
  intros Ha Hb H. unfold i256_div. rewrite (proj2 (Z.eqb_neq b 0)) by lia.
  rewrite Z.quot_div_nonneg by lia. apply step_i256; [|done].
  pose proof (Z.div_pos a b). assert (a / b <= a) by (apply Z.div_le_upper_bound; nia).
  unfold I256_MAX in *. lia.
Qed.

(** Division of a possibly negative number: only its magnitude matters. *)
Lemma step_quot a b M :
  Z.abs a <= M * b -> 0 < b -> M <= I256_MAX ->
  (forall q, q = Z.quot a b -> Z.abs q <= M -> returns (k q) Q) ->
  returns (let! v := i256_div a b in k v) Q.
Proof.
  intros Ha Hb HM H. unfold i256_div. rewrite (proj2 (Z.eqb_neq b 0)) by lia.
  assert (Z.abs (Z.quot a b) <= M).
  { rewrite <- Z.quot_abs by lia. rewrite (Z.abs_eq b), Z.quot_div_nonneg by lia.
    apply Z.div_le_upper_bound; lia. }
  apply step_i256; [unfold I256_MAX in *; lia|]. by apply H.
Qed.
End steps.

Lemma mul_bounds a b A B : 0 <= a <= A -> 0 <= b <= B -> 0 <= a * b <= A * B.
Proof. intros. split; [nia|]. apply Z.mul_le_mono_nonneg; lia. Qed.

Lemma abs_mul_bounds a b A B : Z.abs a <= A -> Z.abs b <= B -> Z.abs (a * b) <= A * B.
Proof. intros. rewrite Z.abs_mul. apply mul_bounds; lia. Qed.

Lemma quot_nonneg a b : 0 <= a -> 0 < b -> 0 <= Z.quot a b.
Proof. intros. apply Z.quot_pos; lia. Qed.

(** Interval analysis of the decomposition loops: [exp_bounds idx X P] bounds
    the state of [exp_product] from upper bounds of its inputs, and fails when
    an intermediate product could overflow. *)
Fixpoint exp_bounds (idx : list Z) (X P : Z) : option (Z * Z) :=
  match idx with
  | [] => Some (X, P)
  | i :: idx =>
      match constant_x_20 i, constant_a_20 i with
      | Ret xi, Ret ai =>
          if X <? xi then exp_bounds idx X P
          else if (0 <? xi) && (ONE_20 <=? ai) && (P * ai <=? I256_MAX)
          then exp_bounds idx (Z.max (xi - 1) (X - xi)) (P * ai / ONE_20)
          else None
      | _, _ => None
      end
  end.

Lemma ONE_20_pos : 0 < ONE_20.
Proof. reflexivity. Qed.

Lemma exp_product_bounds idx X P X' P' x p :
  exp_bounds idx X P = Some (X', P') -> X <= I256_MAX ->
  0 <= x <= X -> ONE_20 <= p <= P ->
  returns (exp_product idx x p) (fun r => 0 <= r.1 <= X' /\ ONE_20 <= r.2 <= P').
Proof.
  pose proof ONE_20_pos as H20.
  revert X P x p; induction idx as [|i idx IH]; intros X P x p; simpl.
  { intros [= <- <-]. auto. }
  destruct (constant_x_20 i) as [xi|]; [|done].
  destruct (constant_a_20 i) as [ai|]; [|done]. simpl.
  destruct (Z.ltb_spec X xi); intros Hb HX Hx Hp.
  { rewrite (proj2 (Z.leb_gt xi x)) by lia. by eapply IH. }
  rust_inv. zify_bool.
  assert (P <= P * ai / ONE_20) by (apply div_le_iff; nia).
  destruct (Z.leb_spec xi x).
  - apply step_i256; [unfold I256_MAX in *; lia|].
    pose proof (mul_bounds p ai P ai ltac:(lia) ltac:(lia)).
    apply step_i256; [lia|]. apply step_div; [lia..|].
    eapply IH; [exact Hb|lia|lia|]. split; [apply div_le_iff; nia|apply Z.div_le_mono; lia].
  - eapply IH; [exact Hb|lia|lia|lia].
Qed.

(** The same for the Taylor series. *)
Fixpoint series_bounds (idx : list Z) (X T M : Z) : option Z :=
  match idx with
  | [] => Some M
  | i :: idx =>
      if (0 <? i) && (T * X <=? I256_MAX) && (M + T * X / ONE_20 / i <=? I256_MAX)
      then series_bounds idx X (T * X / ONE_20 / i) (M + T * X / ONE_20 / i)
      else None
  end.

Lemma exp_series_bounds idx X T M M' x t s :
  series_bounds idx X T M = Some M' ->
  0 <= x <= X -> 0 <= t <= T -> ONE_20 <= s <= M ->
  returns (exp_series idx x t s) (fun r => ONE_20 <= r <= M').
Proof.
  pose proof ONE_20_pos as H20.
  revert T M t s; induction idx as [|i idx IH]; intros T M t s Hb Hx Ht Hs; simpl in *; [naive_solver|].
  rust_inv. zify_bool. pose proof (mul_bounds t x T X Ht Hx).
  apply step_i256; [unfold I256_MAX in *; lia|]. apply step_div; [lia|done|].
  assert (0 <= t * x / ONE_20 <= T * X / ONE_20) as Hd
    by (split; [apply Z.div_pos; lia|apply Z.div_le_mono; lia]).
  assert (T * X / ONE_20 <= T * X) by (apply Z.div_le_upper_bound; nia).
  apply step_div; [lia|done|].
  assert (0 <= t * x / ONE_20 / i <= T * X / ONE_20 / i)
    by (split; [apply Z.div_pos; lia|apply Z.div_le_mono; lia]).
  apply step_i256; [unfold I256_MAX in *; lia|].
  eapply IH; [exact Hb|lia..].
Qed.

(** The scaled body of [exp] on a non-negative exponent: decomposition, series
    and final product, for a decomposition start [X] and leading factor [F]
    whose bounds do not overflow. *)
Definition exp_tail (x first_an : Z) : comp (result Error Z) :=
  let! x := i256_mul x 100 in
  let! (x, product) := exp_product [2; 3; 4; 5; 6; 7; 8; 9] x ONE_20 in
  let! series_sum := i256_add ONE_20 x in
  let! series_sum := exp_series [2; 3; 4; 5; 6; 7; 8; 9; 10; 11; 12] x x series_sum in
  let! r := i256_mul product series_sum in
  let! r := i256_div r ONE_20 in
  let! r := i256_mul r first_an in
  let! r := i256_div r 100 in
  Ret (Ok r).

Definition exp_tail_ok (X F : Z) : bool :=
  match exp_bounds [2; 3; 4; 5; 6; 7; 8; 9] (X * 100) ONE_20 with
  | Some (X', P') =>
      match series_bounds [2; 3; 4; 5; 6; 7; 8; 9; 10; 11; 12] X' X' (ONE_20 + X') with
      | Some M => (X * 100 <=? I256_MAX) && (ONE_20 + X' <=? I256_MAX) &&
                  (P' * M <=? I256_MAX) && (P' * M / ONE_20 * F <=? I256_MAX)
      | None => false
      end
  | None => false
  end.

Lemma exp_tail_bounds X F x :
  exp_tail_ok X F = true -> 0 <= x <= X -> 1 <= F ->
  returns (exp_tail x F) (fun r => exists v, r = Ok v /\ ONE_18 <= v <= I256_MAX).
Proof.
  intros Hok Hx HF. unfold exp_tail_ok in Hok. pose proof ONE_20_pos as H20.
  destruct (exp_bounds _ _ _) as [[X' P']|] eqn:Hb; [|done].
  destruct (series_bounds _ _ _ _) as [M|] eqn:Hm; [|done].
  rewrite !andb_true_iff in Hok. destruct Hok as [[[? ?] ?] ?]. zify_bool.
  unfold exp_tail. apply step_i256; [lia|].
  eapply returns_bind; [eapply exp_product_bounds; [exact Hb|lia..]|].
  intros [y p]; cbn [fst snd]; intros [Hy Hp].
  apply step_i256; [unfold I256_MAX in *; lia|].
  eapply returns_bind; [eapply exp_series_bounds; [exact Hm|lia..]|].
  intros s Hs. cbn beta in Hs. pose proof (mul_bounds p s P' M ltac:(lia) ltac:(lia)).
  apply step_i256; [lia|]. apply step_div; [lia|done|].
  assert (ONE_20 <= p * s / ONE_20 <= P' * M / ONE_20) as Hps.
  { split; [apply div_le_iff; nia|apply Z.div_le_mono; lia]. }
  pose proof (mul_bounds _ F _ F ltac:(split; [|exact (proj2 Hps)]; lia) ltac:(lia)).
  apply step_i256; [lia|]. apply step_div; [lia|done|]. simpl. eexists. split; [done|].
  assert (ONE_20 = ONE_18 * 100) by reflexivity.
  split; [apply div_le_iff; nia|]. apply Z.div_le_upper_bound; lia.
Qed.

(** At the largest exponent. *)
Lemma exp_tail_max :
  exp_tail 2000000000000000000 38877084059945950922200000000000000000000000000000000000
  = Ret (Ok 287264955081783193326519143742863858051506000000000000000000000000000000000).
Proof. vm_compute. reflexivity. Qed.

(** [exp] of a non-negative exponent in range is at least one, and fits. *)
Lemma exp_fuel_nonneg fuel x :
  0 <= x <= MAX_NATURAL_EXPONENT ->
  returns (exp_fuel (S fuel) x) (fun r => exists v, r = Ok v /\ ONE_18 <= v <= I256_MAX).
Proof.
  intros Hx. assert (MIN_NATURAL_EXPONENT <= 0) by (vm_compute; discriminate).
  cbn [exp_fuel].
  rewrite (proj2 (Z.leb_le _ _)), (proj2 (Z.leb_le _ _)), (proj2 (Z.ltb_ge _ _)) by lia.
  cbn [negb andb constant_x_18 constant_a_18 comp_bind].
  change (MAX_NATURAL_EXPONENT) with 130000000000000000000 in Hx.
  destruct (Z.leb_spec 128000000000000000000 x); [|destruct (Z.leb_spec 64000000000000000000 x)].
  - unfold i256_sub. rewrite i256_Ret by (unfold I256_MAX; lia). cbn [comp_bind].
    destruct (Z.eq_dec x 130000000000000000000) as [->|].
    { match goal with |- returns _ ?Q =>
        change (returns (exp_tail 2000000000000000000
          38877084059945950922200000000000000000000000000000000000) Q) end.
      rewrite exp_tail_max. eexists. split; [done|]. split; vm_compute; discriminate. }
    apply (exp_tail_bounds 1999999999999999999); [vm_compute; reflexivity|lia..].
  - unfold i256_sub. rewrite i256_Ret by (unfold I256_MAX; lia). cbn [comp_bind].
    apply (exp_tail_bounds 63999999999999999999); [vm_compute; reflexivity|lia..].
  - apply (exp_tail_bounds 63999999999999999999); [vm_compute; reflexivity|lia..].
Qed.

Lemma exp_bounds_ok x :
  MIN_NATURAL_EXPONENT <= x <= MAX_NATURAL_EXPONENT ->
  returns (exp x) (fun r => exists v, r = Ok v /\ 0 <= v <= I256_MAX /\ (0 <= x -> ONE_18 <= v)).
Proof.
  intros Hx. pose proof ONE_18_pos. destruct (Z.lt_ge_cases x 0) as [Hneg|Hpos].
  - unfold exp. change 2%nat with (S 1). remember 1%nat as n eqn:En. cbn [exp_fuel].
    rewrite (proj2 (Z.leb_le _ _)), (proj2 (Z.leb_le _ _)), (proj2 (Z.ltb_lt x 0)) by lia.
    cbn [negb andb].
    apply step_i256; [vm_compute; split; discriminate|].
    assert (- MIN_NATURAL_EXPONENT <= MAX_NATURAL_EXPONENT <= I256_MAX)
      by (vm_compute; split; discriminate).
    apply step_i256; [unfold I256_MAX in *; lia|].
    destruct (returns_inv _ _ (exp_fuel_nonneg 0 (- x) ltac:(lia))) as (r & Hr & v & -> & Hv).
    subst n. rewrite Hr. simpl.
    apply step_div; [vm_compute; split; discriminate|lia|]. simpl.
    eexists. split_and!; [done|apply Z.div_pos; lia| |lia].
    apply Z.div_le_upper_bound; [lia|].
    assert (ONE_18 * ONE_18 <= I256_MAX) by (vm_compute; discriminate). nia.
  - eapply returns_mono; [apply (exp_fuel_nonneg 1); lia|].
    intros r (v & -> & ?). exists v. split_and!; [done|lia..].
Qed.

(** Interval analysis of the logarithm's decomposition loop. *)
Fixpoint ln_bounds (idx : list Z) (A M : Z) : option (Z * Z) :=
  match idx with
  | [] => Some (A, M)
  | i :: idx =>
      match constant_x_20 i, constant_a_20 i with
      | Ret xi, Ret ai =>
          if A <? ai then ln_bounds idx A M
          else if (0 <? ai) && (0 <=? xi) && (A * ONE_20 <=? I256_MAX) && (M + xi <=? I256_MAX)
          then ln_bounds idx (Z.max (ai - 1) (A * ONE_20 / ai)) (M + xi)
          else None
      | _, _ => None
      end
  end.

Lemma ln_small_bounds idx A M A' M' a s :
  ln_bounds idx A M = Some (A', M') -> ONE_20 <= a <= A -> 0 <= s <= M ->
  returns (ln_small idx a s) (fun r => ONE_20 <= r.1 <= A' /\ 0 <= r.2 <= M').
Proof.
  pose proof ONE_20_pos as H20.
  revert A M a s; induction idx as [|i idx IH]; intros A M a s; simpl.
  { intros [= <- <-]. auto. }
  destruct (constant_x_20 i) as [xi|]; [|done].
  destruct (constant_a_20 i) as [ai|]; [|done]. simpl.
  destruct (Z.ltb_spec A ai); intros Hb Ha Hs.
  { rewrite (proj2 (Z.leb_gt ai a)) by lia. by eapply IH. }
  rust_inv. zify_bool. destruct (Z.leb_spec ai a).
  - apply step_i256; [unfold I256_MAX in *; nia|]. apply step_div; [nia|lia|].
    apply step_i256; [unfold I256_MAX in *; lia|].
    assert (a * ONE_20 / ai <= A * ONE_20 / ai) by (apply Z.div_le_mono; nia).
    eapply IH; [exact Hb| |lia]. split; [apply div_le_iff; nia|lia].
  - eapply IH; [exact Hb|lia|lia].
Qed.

(** The arctanh series, for magnitudes: every term shrinks. *)
Lemma ln_series_bounds one idx zz num s N M :
  0 < one -> Forall (fun i => 1 < i) idx -> Z.abs zz <= one -> Z.abs num <= N -> Z.abs s <= M ->
  N * one <= I256_MAX -> M + Z.of_nat (length idx) * N <= I256_MAX ->
  returns (ln_series one idx zz num s)
    (fun r => Z.abs r <= M + Z.of_nat (length idx) * N /\
              (0 <= zz -> 0 <= num -> 0 <= s -> 0 <= r)).
Proof.
  intros Hone. revert num s M; induction idx as [|i idx IH]; intros num s M Hi Hzz Hnum Hs HN HM;
    cbn [length] in *; [simpl; lia|].
  rewrite Nat2Z.inj_succ, Z.mul_succ_l in *. apply Forall_cons in Hi as [Hi Hidx].
  assert (0 <= N <= I256_MAX) by nia.
  pose proof (abs_mul_bounds num zz N one Hnum Hzz) as Hm. cbn [ln_series].
  apply step_i256; [unfold I256_MAX in *; lia|].
  apply (step_quot _ _ _ _ N); [done..|lia|]. intros n Hn HnN.
  apply (step_quot _ _ _ _ N); [nia|lia|lia|]. intros t Ht HtN.
  apply step_i256; [unfold I256_MAX in *; nia|].
  eapply returns_mono; [apply (IH n (s + t) (M + N)); [done..|lia|lia|lia]|].
  cbn beta. intros r [Hr Hpos]. split; [lia|]. intros ???.
  assert (0 <= n) by (subst n; apply quot_nonneg; nia).
  assert (0 <= t) by (subst t; apply quot_nonneg; lia).
  apply Hpos; lia.
Qed.

(** What remains of [_ln] after the two large factors are taken out. *)
Definition ln_tail (a sum : Z) : comp Z :=
  let! sum := i256_mul sum 100 in
  let! a := i256_mul a 100 in
  let! (a, sum) := ln_small [2; 3; 4; 5; 6; 7; 8; 9; 10; 11] a sum in
  let! d := i256_sub a ONE_20 in
  let! n := i256_mul d ONE_20 in
  let! s := i256_add a ONE_20 in
  let! z := i256_div n s in
  let! zz := i256_mul z z in
  let! z_squared := i256_div zz ONE_20 in
  let! series_sum := ln_series ONE_20 [3; 5; 7; 9; 11] z_squared z z in
  let! series_sum := i256_mul series_sum 2 in
  let! t := i256_add sum series_sum in
  i256_div t 100.

(** The largest magnitude of a logarithm: any exponent below
    [MILD_EXPONENT_BOUND] can be multiplied with it. *)
Definition LN_MAX : Z := 150 * ONE_18.

Definition ln_tail_ok (A M : Z) : bool :=
  match ln_bounds [2; 3; 4; 5; 6; 7; 8; 9; 10; 11] (A * 100) (M * 100) with
  | Some (A', M') =>
      (A * 100 <=? I256_MAX) && (M * 100 <=? I256_MAX) && (A' <=? 2 * ONE_20) &&
      (M' + 12 * ONE_20 <=? LN_MAX * 100)
  | None => false
  end.

Lemma ln_tail_bounds A M a s :
  ln_tail_ok A M = true -> ONE_18 <= a <= A -> 0 <= s <= M ->
  returns (ln_tail a s) (fun r => 0 <= r <= LN_MAX).
Proof.
  intros Hok Ha Hs. pose proof ONE_20_pos as H20. pose proof ONE_18_pos as H18.
  assert (ONE_20 = ONE_18 * 100) as H100 by reflexivity.
  assert (10 * ONE_20 * ONE_20 <= I256_MAX /\ LN_MAX * 100 <= I256_MAX) as [HMAX HLN]
    by (split; vm_compute; discriminate).
  unfold ln_tail_ok in Hok. case_eq (ln_bounds [2; 3; 4; 5; 6; 7; 8; 9; 10; 11] (A * 100) (M * 100));
    [intros [A1 M1] Hb|intros Hb]; rewrite Hb in Hok; [|discriminate Hok].
  rewrite !andb_true_iff in Hok. destruct Hok as [[[? ?] ?] ?]. zify_bool.
  unfold ln_tail. apply step_i256; [unfold I256_MAX in *; lia|].
  apply step_i256; [unfold I256_MAX in *; lia|].
  eapply returns_bind; [eapply ln_small_bounds; [exact Hb|lia..]|].
  intros [b u]; cbn [fst snd]; intros [Hb' Hu].
  assert (0 <= (b - ONE_20) * ONE_20 <= ONE_20 * ONE_20) by nia.
  apply step_i256; [unfold I256_MAX in *; nia|]. apply step_i256; [unfold I256_MAX in *; nia|].
  apply step_i256; [unfold I256_MAX in *; nia|]. apply step_div; [unfold I256_MAX in *; nia|lia|].
  set (z := (b - ONE_20) * ONE_20 / (b + ONE_20)).
  assert (0 <= z <= ONE_20) as Hz
    by (split; [apply Z.div_pos; lia|apply Z.div_le_upper_bound; nia]).
  apply step_i256; [unfold I256_MAX in *; nia|]. apply step_div; [nia|done|].
  assert (0 <= z * z / ONE_20 <= ONE_20)
    by (split; [apply Z.div_pos; nia|apply Z.div_le_upper_bound; nia]).
  clearbody z.
  pose proof (ln_series_bounds ONE_20 [3; 5; 7; 9; 11] (z * z / ONE_20) z z ONE_20 ONE_20 H20
    ltac:(by repeat constructor) ltac:(lia) ltac:(lia) ltac:(lia) ltac:(lia)
    ltac:(cbn [length]; lia)) as Hser.
  eapply returns_bind; [exact Hser|].
  cbn [length]. intros r [Hr1 Hr2]. specialize (Hr2 ltac:(lia) ltac:(lia) ltac:(lia)).
  apply step_i256; [unfold I256_MAX in *; nia|]. apply step_i256; [unfold I256_MAX in *; nia|].
  unfold i256_div. cbn [Z.eqb]. rewrite Z.quot_div_nonneg by lia.
  assert (0 <= (u + r * 2) / 100 <= LN_MAX)
    by (split; [apply Z.div_pos; lia|apply Z.div_le_upper_bound; lia]).
  rewrite i256_Ret by (unfold I256_MAX in *; lia). done.
Qed.

Lemma ln_large_bounds a :
  ONE_18 <= a <= I256_MAX ->
  returns (ln_large [0; 1] a 0) (fun r => exists A M,
    ln_tail_ok A M = true /\ ONE_18 <= r.1 <= A /\ 0 <= r.2 <= M).
Proof.
  intros Ha. cbn [ln_large constant_a_18 constant_x_18 comp_bind].
  set (a0 := 38877084059945950922200000000000000000000000000000000000).
  set (a1 := 6235149080811616882910000000).
  assert (a0 * ONE_18 <= I256_MAX /\ a1 * ONE_18 <= I256_MAX) as [? ?]
    by (split; vm_compute; discriminate).
  assert (I256_MAX / a0 < a1 * ONE_18) by (vm_compute; reflexivity).
  assert (0 < a0 /\ 0 < a1) as [? ?] by (split; reflexivity). pose proof ONE_18_pos.
  assert (a0 * ONE_18 / a1 <= 6235149080811616882909 * 10 ^ 24) by (vm_compute; discriminate).
  apply step_i256; [unfold I256_MAX in *; lia|].
  destruct (Z.leb_spec (a0 * ONE_18) a).
  - apply step_div; [lia|done|].
    assert (ONE_18 <= a / a0 <= I256_MAX / a0)
      by (split; [apply div_le_iff; lia|apply Z.div_le_mono; lia]).
    apply step_i256; [vm_compute; split; discriminate|]. apply step_i256; [unfold I256_MAX in *; lia|].
    rewrite (proj2 (Z.leb_gt _ _)) by lia. simpl.
    exists (I256_MAX / a0), 128000000000000000000. split; [vm_compute; reflexivity|lia].
  - apply step_i256; [unfold I256_MAX in *; lia|].
    destruct (Z.leb_spec (a1 * ONE_18) a).
    + apply step_div; [lia|done|]. apply step_i256; [vm_compute; split; discriminate|]. simpl.
      exists (a0 * ONE_18 / a1), 64000000000000000000. split; [vm_compute; reflexivity|].
      split; [|lia]. split; [apply div_le_iff; lia|apply Z.div_le_mono; lia].
    + simpl. exists (a1 * ONE_18 - 1), 0. split; [vm_compute; reflexivity|lia].
Qed.

Lemma ln_fuel_ge_one fuel a :
  ONE_18 <= a <= I256_MAX -> returns (ln_fuel (S fuel) a) (fun r => 0 <= r <= LN_MAX).
Proof.
  intros Ha. cbn [ln_fuel]. rewrite (proj2 (Z.ltb_ge _ _)) by lia.
  eapply returns_bind; [by apply ln_large_bounds|].
  intros [b s] (A & M & Hok & Hb & Hs). by eapply ln_tail_bounds.
Qed.

Lemma ln_bounds_ok a :
  0 < a <= I256_MAX ->
  returns (_ln a) (fun r => Z.abs r <= LN_MAX /\ (ONE_18 <= a -> 0 <= r)).
Proof.
  intros Ha. pose proof ONE_18_pos. destruct (Z.lt_ge_cases a ONE_18) as [Hlt|Hge].
  - unfold _ln. change 2%nat with (S 1). remember 1%nat as n eqn:En. cbn [ln_fuel].
    rewrite (proj2 (Z.ltb_lt _ _)) by lia.
    assert (ONE_18 * ONE_18 <= I256_MAX) by (vm_compute; discriminate).
    apply step_i256; [unfold I256_MAX in *; lia|]. apply step_div; [lia..|].
    assert (ONE_18 <= ONE_18 * ONE_18 / a <= I256_MAX)
      by (split; [apply div_le_iff; nia|apply Z.div_le_upper_bound; nia]).
    subst n. eapply returns_bind; [by apply (ln_fuel_ge_one 0)|].
    cbn beta. intros r Hr. unfold i256_neg.
    assert (LN_MAX <= I256_MAX) by (vm_compute; discriminate).
    rewrite i256_Ret by (unfold I256_MAX in *; lia). simpl. lia.
  - eapply returns_mono; [apply (ln_fuel_ge_one 1); lia|]. cbn beta. lia.
Qed.

Lemma ln_36_bounds_ok x :
  LN_36_LOWER_BOUND < x < LN_36_UPPER_BOUND ->
  returns (_ln_36 x) (fun r => Z.abs r <= 16 * ONE_36 /\ (ONE_18 <= x -> 0 <= r)).
Proof.
  intros Hx. assert (0 < ONE_36 /\ ONE_36 = ONE_18 * ONE_18) as (H36 & Hsq) by (split; reflexivity).
  assert (0 < LN_36_LOWER_BOUND /\ LN_36_UPPER_BOUND <= 2 * ONE_18) as [Hlo Hhi]
    by (split; vm_compute; [reflexivity|discriminate]).
  assert (16 * ONE_36 * ONE_36 <= I256_MAX /\ 16 * ONE_36 <= I256_MAX) as [HMAX HMAX']
    by (split; vm_compute; discriminate).
  pose proof (mul_bounds x ONE_18 (2 * ONE_18) ONE_18 ltac:(lia) ltac:(lia)) as Hy.
  unfold _ln_36. unfold i256_sub, i256_add, i256_mul at 1.
  set (y := x * ONE_18) in *.
  assert (ONE_18 <= x -> 0 <= y - ONE_36) as Hpos by (unfold y; pose proof ONE_18_pos as H18; clear -Hsq H18; nia).
  assert (0 <= y <= 2 * ONE_36) as Hy' by lia. clearbody y. clear Hy Hsq.
  apply step_i256; [unfold I256_MAX in *; lia|]. apply step_i256; [unfold I256_MAX in *; lia|].
  pose proof (abs_mul_bounds (y - ONE_36) ONE_36 ONE_36 ONE_36 ltac:(lia) ltac:(lia)).
  apply step_i256; [unfold I256_MAX in *; lia|]. apply step_i256; [unfold I256_MAX in *; lia|].
  apply (step_quot _ _ _ _ ONE_36); [clear -H Hy' H36; nia|lia|lia|]. intros z Hz HzM.
  assert (ONE_18 <= x -> 0 <= z) as Hzpos.
  { intros H18. subst z. apply quot_nonneg; [|lia]. apply Z.mul_nonneg_nonneg; [auto|lia]. }
  clear Hz H. pose proof (abs_mul_bounds z z _ _ HzM HzM). pose proof (Z.square_nonneg z).
  apply step_i256; [unfold I256_MAX in *; lia|]. apply step_div; [lia|done|].
  assert (0 <= z * z / ONE_36 <= ONE_36)
    by (split; [apply Z.div_pos; lia|apply Z.div_le_upper_bound; lia]).
  pose proof (ln_series_bounds ONE_36 [3; 5; 7; 9; 11; 13; 15] (z * z / ONE_36) z z ONE_36 ONE_36 H36
    ltac:(by repeat constructor) ltac:(lia) ltac:(lia) ltac:(lia) ltac:(lia)
    ltac:(cbn [length]; lia)) as Hser.
  eapply returns_bind; [exact Hser|].
  cbn [length]. intros r [Hr1 Hr2]. unfold i256_mul.
  rewrite i256_Ret by (unfold I256_MAX in *; lia). simpl. lia.
Qed.

(** ** The power function *)

(** The product of a 36-decimal logarithm and a mild exponent. *)
Lemma ln_36_times l y :
  Z.abs l <= 16 * ONE_36 -> 0 <= y <= MILD_EXPONENT_BOUND ->
  returns (let! q := i256_div l ONE_18 in
           let! qy := i256_mul q y in
           let! r := i256_rem l ONE_18 in
           let! ry := i256_mul r y in
           let! t := i256_div ry ONE_18 in
           i256_add qy t)
    (fun r => Z.abs r <= I256_MAX /\ (0 <= l -> 0 <= r)).
Proof.
  intros Hl Hy. pose proof ONE_18_pos as H18.
  assert (ONE_36 = ONE_18 * ONE_18) as H36 by reflexivity.
  assert (16 * ONE_18 * MILD_EXPONENT_BOUND + MILD_EXPONENT_BOUND <= I256_MAX) as HB
    by (vm_compute; discriminate).
  assert (ONE_18 * MILD_EXPONENT_BOUND <= I256_MAX) as HB2 by (vm_compute; discriminate).
  assert (16 * ONE_18 <= I256_MAX) by (vm_compute; discriminate).
  apply (step_quot _ _ _ _ (16 * ONE_18)); [lia..|]. intros q Hq HqM.
  pose proof (abs_mul_bounds q y _ MILD_EXPONENT_BOUND HqM ltac:(lia)).
  apply step_i256; [unfold I256_MAX in *; lia|].
  assert (Z.abs (Z.rem l ONE_18) <= ONE_18) as Hrem.
  { pose proof (Z.rem_bound_abs l ONE_18 ltac:(lia)). lia. }
  assert (0 <= l -> 0 <= Z.rem l ONE_18) as Hrpos by (intros; apply Z.rem_nonneg; lia).
  unfold i256_rem. rewrite (proj2 (Z.eqb_neq ONE_18 0)) by lia.
  apply step_i256; [unfold I256_MAX in *; lia|].
  pose proof (abs_mul_bounds _ y _ MILD_EXPONENT_BOUND Hrem ltac:(lia)).
  apply step_i256; [unfold I256_MAX in *; lia|].
  apply (step_quot _ _ _ _ MILD_EXPONENT_BOUND); [lia|lia|unfold I256_MAX in *; lia|]. intros t Ht HtM.
  unfold i256_add. rewrite i256_Ret by (unfold I256_MAX in *; lia). cbn [returns].
  split; [lia|]. intros Hl0.
  assert (0 <= q) by (subst q; apply quot_nonneg; lia).
  assert (0 <= t) by (subst t; apply quot_nonneg; [apply Z.mul_nonneg_nonneg; auto; lia|lia]).
  assert (0 <= q * y) by (apply Z.mul_nonneg_nonneg; lia). lia.
Qed.

Lemma ln_times x y :
  0 < x <= I256_MAX -> 0 <= y <= MILD_EXPONENT_BOUND ->
  returns (let! l := _ln x in i256_mul l y)
    (fun r => Z.abs r <= I256_MAX /\ (ONE_18 <= x -> 0 <= r)).
Proof.
  intros Hx Hy. eapply returns_bind; [by apply ln_bounds_ok|]. cbn beta. intros l [Hl Hlpos].
  assert (LN_MAX * MILD_EXPONENT_BOUND <= I256_MAX) as HL by (vm_compute; discriminate).
  pose proof (abs_mul_bounds l y _ MILD_EXPONENT_BOUND Hl ltac:(lia)). unfold i256_mul.
  rewrite i256_Ret by (unfold I256_MAX in *; lia). cbn [returns]. split; [lia|].
  intros H1. apply Z.mul_nonneg_nonneg; [auto|lia].
Qed.

(** [pow] on any pair of [U256] inputs neither panics nor overflows: it returns
    a representable value, or one of three range errors. *)
Lemma pow_returns x y :
  u256 x -> u256 y ->
  returns (pow x y) (fun r =>
    match r with
    | Ok v => 0 <= v <= I256_MAX /\ (ONE_18 <= x -> ONE_18 <= v)
    | Err e => e = XOutOfBounds \/ e = YOutOfBounds \/ e = ProductOutOfBounds
    end).
Proof.
  unfold u256. intros Hx Hy. pose proof ONE_18_pos as H18.
  assert (ONE_18 <= I256_MAX) as HI by (vm_compute; discriminate). unfold pow.
  destruct (Z.eqb_spec y 0); [simpl; lia|]. destruct (Z.eqb_spec x 0); [simpl; lia|].
  destruct (Z.ltb_spec I256_MAX x); [simpl; auto|].
  destruct (Z.ltb_spec y MILD_EXPONENT_BOUND) as [Hmild|]; [|simpl; auto]. cbn [negb].
  apply (returns_bind _ _ (fun l => Z.abs l <= I256_MAX /\ (ONE_18 <= x -> 0 <= l))).
  - destruct (LN_36_LOWER_BOUND <? x) eqn:E1; [destruct (x <? LN_36_UPPER_BOUND) eqn:E2|];
      cbn [andb]; zify_bool.
    + eapply returns_bind; [apply ln_36_bounds_ok; lia|]. cbn beta. intros l [Hl Hlpos].
      eapply returns_mono; [apply ln_36_times; lia|]. cbn beta. intros r [? ?]. auto.
    + apply ln_times; lia.
    + apply ln_times; lia.
  - intros l [Hl Hlpos]. apply (step_quot _ _ _ _ I256_MAX); [clear -Hl H18; nia|lia|lia|]. intros q Hq HqM.
    destruct (MIN_NATURAL_EXPONENT <=? q) eqn:E1; [destruct (q <=? MAX_NATURAL_EXPONENT) eqn:E2|];
      cbn [negb andb]; [|simpl; auto..]. zify_bool.
    eapply returns_mono; [apply exp_bounds_ok; lia|].
    intros r (v & -> & Hv & Hv1). split; [lia|]. intros Hx1. apply Hv1. subst q.
    apply quot_nonneg; [auto|lia].
Qed.

Lemma pow_up_tail_Ok raw v :
  0 <= raw <= I256_MAX ->
  (letr scaled := Bfp_mul_up raw MAX_POW_RELATIVE_ERROR in
   letr max_error := Bfp_add scaled 1 in
   Bfp_add raw max_error) = Ok v ->
  raw < v /\ u256 v.
Proof.
  intros Hraw H. assert (I256_MAX < 2 ^ 256) by (vm_compute; reflexivity).
  rust_inv. rename x into s, x0 into e.
  match goal with K : Bfp_mul_up raw _ = Ok s |- _ =>
    apply Bfp_mul_up_Ok in K as [-> ?]; [|unfold u256, MAX_POW_RELATIVE_ERROR; lia..] end.
  repeat match goal with K : Bfp_add _ _ = Ok _ |- _ => apply Bfp_add_Ok in K as [-> ?] end.
  pose proof (div_ceil_nonneg (raw * MAX_POW_RELATIVE_ERROR) ONE_18
    ltac:(unfold MAX_POW_RELATIVE_ERROR; lia) ONE_18_pos).
  unfold u256, U256_MAX in *. lia.
Qed.

(** Rounding up the power never panics, and a base of at least one gives a
    power of at least one. *)
Lemma Bfp_pow_up_returns a e :
  u256 a -> u256 e ->
  returns (Bfp_pow_up a e) (fun r =>
    forall v, r = Ok v -> u256 v /\ (ONE_18 <= a -> ONE_18 <= v)).
Proof.
  intros Ha He. unfold Bfp_pow_up.
  destruct (returns_inv _ _ (pow_returns a e Ha He)) as ([raw|err] & -> & H); simpl; [|done].
  intros v (? & ?)%pow_up_tail_Ok; [|lia]. split; [done|]. lia.
Qed.

Lemma Bfp_mul_up_ge_one a b v :
  u256 a -> u256 b -> ONE_18 <= a -> ONE_18 <= b -> Bfp_mul_up a b = Ok v -> ONE_18 <= v.
Proof.
  intros Ha Hb Ha1 Hb1 (-> & _)%Bfp_mul_up_Ok; [|done..].
  pose proof (div_ceil_spec (a * b) ONE_18 ONE_18_pos). pose proof ONE_18_pos. nia.
Qed.

Lemma Bfp_mul_up_u256 a b v : u256 a -> u256 b -> Bfp_mul_up a b = Ok v -> u256 v.
Proof. intros ?? H. apply (Bfp_ops_u256 a b); auto. Qed.

Lemma Bfp_pow_up_v3_returns a e :
  u256 a -> u256 e ->
  returns (Bfp_pow_up_v3 a e) (fun r =>
    forall v, r = Ok v -> u256 v /\ (ONE_18 <= a -> ONE_18 <= v)).
Proof.
  intros Ha He. unfold Bfp_pow_up_v3.
  destruct (e =? Bfp_one); [cbn; naive_solver|].
  destruct (e =? Bfp_TWO).
  { intros v Hv. split; [exact (Bfp_mul_up_u256 a a v Ha Ha Hv)|]. intros. by apply (Bfp_mul_up_ge_one a a v). }
  destruct (e =? Bfp_FOUR); [|exact (Bfp_pow_up_returns a e Ha He)].
  intros v Hv. rust_inv. rename x into s.
  assert (u256 s) by (by eapply (Bfp_mul_up_u256 a a)).
  split; [by eapply (Bfp_mul_up_u256 s s)|]. intros.
  eapply (Bfp_mul_up_ge_one s s); [done..| | |done]; by eapply (Bfp_mul_up_ge_one a a).
Qed.

(** C37 (bounds): Balancer's [pow] on arbitrary [U256] inputs terminates without
    panicking: no [I256] operation overflows and no recursion runs away.  The
    result is a representable value, at least one when the base is at least one,
    or a range error; and for a base within [I256] and a mild exponent the only
    error is that the product leaves the exponential's domain. *)
Theorem pow_total x y :
  u256 x -> u256 y ->
  exists r, pow x y = Ret r /\
    match r with
    | Ok v => 0 <= v <= I256_MAX /\ (ONE_18 <= x -> ONE_18 <= v)
    | Err e => (e = XOutOfBounds /\ I256_MAX < x) \/
               (e = YOutOfBounds /\ MILD_EXPONENT_BOUND <= y) \/
               (e = ProductOutOfBounds /\ x <= I256_MAX /\ y < MILD_EXPONENT_BOUND)
    end.
Proof.
  intros Hx Hy. destruct (returns_inv _ _ (pow_returns x y Hx Hy)) as (r & Hr & H).
  exists r. split; [done|]. destruct r as [v|e]; [done|].
  destruct (Z.ltb_spec I256_MAX x) as [Hbig|Hsmall].
  { left. split; [|done]. revert Hr. unfold pow.
    destruct (y =? 0); [done|]. destruct (x =? 0); [done|].
    rewrite (proj2 (Z.ltb_lt _ _)) by done. naive_solver. }
  destruct (Z.lt_ge_cases y MILD_EXPONENT_BOUND) as [Hmild|Hwild].
  - right; right. split_and!; [|done..]. revert Hr. unfold pow.
    rewrite (proj2 (Z.ltb_ge _ _)), (proj2 (Z.ltb_lt y _)) by done. cbn [negb].
    destruct (y =? 0); [done|]. destruct (x =? 0); [done|].
    destruct H as [->|[->|?]]; [| |done]; intros Hr; exfalso.
    all: apply comp_bind_Ret in Hr as (l & _ & Hr); apply comp_bind_Ret in Hr as (q & _ & Hr);
      destruct (MIN_NATURAL_EXPONENT <=? q) eqn:E1; [destruct (q <=? MAX_NATURAL_EXPONENT) eqn:E2|];
      cbn [negb andb] in Hr; [|discriminate Hr..]; zify_bool;
      pose proof (exp_bounds_ok q ltac:(lia)) as He; rewrite Hr in He; destruct He as (? & He & _);
      discriminate He.
  - right; left. split; [|done]. revert Hr. unfold pow.
    rewrite (proj2 (Z.ltb_ge I256_MAX x)), (proj2 (Z.ltb_ge y _)) by done.
    destruct (y =? 0); [done|]. destruct (x =? 0); [done|]. naive_solver.
Qed.

Lemma pow_total_witness :
  exists r, pow (2 * 10 ^ 18) (2 * 10 ^ 18) = Ret r /\ r = Ok 3999999999999999996 /\
    0 <= 3999999999999999996 <= I256_MAX.
Proof.
  destruct (pow_total (2 * 10 ^ 18) (2 * 10 ^ 18)) as (r & Hr & H); [unfold u256; lia..|].
  exists r. split; [exact Hr|].
  assert (r = Ok 3999999999999999996) as ->.
  { assert (pow (2 * 10 ^ 18) (2 * 10 ^ 18) = Ret (Ok 3999999999999999996)) as E by (vm_compute; reflexivity).
    rewrite E in Hr. injection Hr as <-. reflexivity. }
  split; [reflexivity|]. apply H.
Defined.
