(* ===== verification/WeightedMath.v ===== *)
(** * WeightedMath: Balancer's weighted pool formulas

    [crates/shared/src/sources/balancer_v2/swap/weighted_math.rs].  The four
    functions share their structure; the two [expect]s of each are [Panic]
    branches, which the lemmas show to be unreachable, as the comments of the
    source argue. *)

From stdpp Require Import base gmap sets list strings.
From Stdlib Require Import ZArith Lia.
From S2P Require Import Prelude Collections Eth FixedPoint LogExp.

Open Scope Z_scope.

Definition MAX_IN_RATIO : Z := 10 ^ 17 * 3.
Definition MAX_OUT_RATIO : Z := 10 ^ 17 * 3.

Definition calc_out_given_in (balance_in weight_in balance_out weight_out amount_in : Z)
  : comp (result Error Z) :=
  let!r max_in := Ret (Bfp_mul_down balance_in MAX_IN_RATIO) in
  if max_in <? amount_in then Ret (Err MaxInRatio)
  else
    let! denominator := expect (ok (Bfp_add balance_in amount_in)) in
    let!r base := Ret (Bfp_div_up balance_in denominator) in
    let!r exponent := Ret (Bfp_div_down weight_in weight_out) in
    let!r power := Bfp_pow_up base exponent in
    Ret (Bfp_mul_down balance_out (Bfp_complement power)).

Definition calc_in_given_out (balance_in weight_in balance_out weight_out amount_out : Z)
  : comp (result Error Z) :=
  let!r max_out := Ret (Bfp_mul_down balance_out MAX_OUT_RATIO) in
  if max_out <? amount_out then Ret (Err MaxOutRatio)
  else
    let! denominator := expect (ok (Bfp_sub balance_out amount_out)) in
    let!r base := Ret (Bfp_div_up balance_out denominator) in
    let!r exponent := Ret (Bfp_div_up weight_out weight_in) in
    let!r power := Bfp_pow_up base exponent in
    let! ratio := expect (ok (Bfp_sub power Bfp_one)) in
    Ret (Bfp_mul_up balance_in ratio).

Definition calc_out_given_in_v3 (balance_in weight_in balance_out weight_out amount_in : Z)
  : comp (result Error Z) :=
  let!r max_in := Ret (Bfp_mul_down balance_in MAX_IN_RATIO) in
  if max_in <? amount_in then Ret (Err MaxInRatio)
  else
    let! denominator := expect (ok (Bfp_add balance_in amount_in)) in
    let!r base := Ret (Bfp_div_up balance_in denominator) in
    let!r exponent := Ret (Bfp_div_down weight_in weight_out) in
    let!r power := Bfp_pow_up_v3 base exponent in
    Ret (Bfp_mul_down balance_out (Bfp_complement power)).

Definition calc_in_given_out_v3 (balance_in weight_in balance_out weight_out amount_out : Z)
  : comp (result Error Z) :=
  let!r max_out := Ret (Bfp_mul_down balance_out MAX_OUT_RATIO) in
  if max_out <? amount_out then Ret (Err MaxOutRatio)
  else
    let! denominator := expect (ok (Bfp_sub balance_out amount_out)) in
    let!r base := Ret (Bfp_div_up balance_out denominator) in
    let!r exponent := Ret (Bfp_div_up weight_out weight_in) in
    let!r power := Bfp_pow_up_v3 base exponent in
    let! ratio := expect (ok (Bfp_sub power Bfp_one)) in
    Ret (Bfp_mul_up balance_in ratio).

(** The first test vector of each function in the source. *)
Example weighted_out_vector :
  calc_out_given_in (100000 * 10 ^ 18) (3 * 10 ^ 14) (10 * 10 ^ 18) (7 * 10 ^ 14) (10 ^ 16)
  = Ret (Ok 428571297950).
Proof. vm_compute. reflexivity. Qed.

(** ** The formulas are safe

    Both versions differ only in the power function, so that the lemmas are
    stated for any power function that rounds like the two of the source. *)
Definition pow_like (power : Z -> Z -> comp (result Error Z)) : Prop :=
  forall a e, u256 a -> u256 e ->
    returns (power a e) (fun r =>
      forall v, r = Ok v -> u256 v /\ (ONE_18 <= a -> ONE_18 <= v)).

Section formulas.
Context (power : Z -> Z -> comp (result Error Z)) (Hpow : pow_like power).

Definition out_formula (balance_in weight_in balance_out weight_out amount_in : Z) :=
  let!r max_in := Ret (Bfp_mul_down balance_in MAX_IN_RATIO) in
  if max_in <? amount_in then Ret (Err MaxInRatio)
  else
    let! denominator := expect (ok (Bfp_add balance_in amount_in)) in
    let!r base := Ret (Bfp_div_up balance_in denominator) in
    let!r exponent := Ret (Bfp_div_down weight_in weight_out) in
    let!r power := power base exponent in
    Ret (Bfp_mul_down balance_out (Bfp_complement power)).

Definition in_formula (balance_in weight_in balance_out weight_out amount_out : Z) :=
  let!r max_out := Ret (Bfp_mul_down balance_out MAX_OUT_RATIO) in
  if max_out <? amount_out then Ret (Err MaxOutRatio)
  else
    let! denominator := expect (ok (Bfp_sub balance_out amount_out)) in
    let!r base := Ret (Bfp_div_up balance_out denominator) in
    let!r exponent := Ret (Bfp_div_up weight_out weight_in) in
    let!r power := power base exponent in
    let! ratio := expect (ok (Bfp_sub power Bfp_one)) in
    Ret (Bfp_mul_up balance_in ratio).

Lemma div_up_u256 a b v : u256 a -> u256 b -> Bfp_div_up a b = Ok v -> u256 v.
Proof. intros Ha Hb H. by apply (Bfp_ops_u256 a b v Ha Hb); auto 10. Qed.
Lemma div_down_u256 a b v : u256 a -> u256 b -> Bfp_div_down a b = Ok v -> u256 v.
Proof. intros Ha Hb H. by apply (Bfp_ops_u256 a b v Ha Hb); auto 10. Qed.

(** Out of the bounded input the pool pays at most its balance. *)
Lemma out_formula_returns bi wi bo wo amt :
  u256 bi -> u256 wi -> u256 bo -> u256 wo -> u256 amt ->
  returns (out_formula bi wi bo wo amt) (fun r => forall v, r = Ok v -> 0 <= v <= bo).
Proof.
  intros Hbi Hwi Hbo Hwo Hamt. unfold out_formula.
  destruct (Bfp_mul_down bi MAX_IN_RATIO) as [m|] eqn:Em; simpl; [|done].
  apply Bfp_mul_down_Ok in Em as [Em Emax].
  destruct (Z.ltb_spec m amt); [done|].
  assert (bi + amt <= U256_MAX) as Hsum.
  { unfold u256, U256_MAX, MAX_IN_RATIO, ONE_18 in *.
    assert (m <= bi) by (subst m; apply Z.div_le_upper_bound; lia). lia. }
  rewrite (proj2 (Bfp_add_Ok bi amt (bi + amt))) by done. simpl.
  assert (u256 (bi + amt)) by (unfold u256, U256_MAX in *; lia).
  destruct (Bfp_div_up bi (bi + amt)) as [base|] eqn:Eb; simpl; [|done].
  destruct (Bfp_div_down wi wo) as [e|] eqn:Ee; simpl; [|done].
  pose proof (Hpow base e (div_up_u256 _ _ _ Hbi H0 Eb) (div_down_u256 _ _ _ Hwi Hwo Ee)) as Hp.
  destruct (power base e) as [[p|]|]; simpl in *; [|done|done].
  destruct (Hp p eq_refl) as [Hp1 _]. intros v (-> & _)%Bfp_mul_down_Ok.
  rewrite Bfp_complement_spec by done. pose proof ONE_18_pos. unfold u256 in *.
  split; [apply Z.div_pos; nia|]. apply Z.div_le_upper_bound; nia.
Qed.

Lemma in_formula_returns bi wi bo wo amt :
  u256 bi -> u256 wi -> u256 bo -> u256 wo -> u256 amt ->
  returns (in_formula bi wi bo wo amt) (fun r => forall v, r = Ok v -> u256 v).
Proof.
  intros Hbi Hwi Hbo Hwo Hamt. unfold in_formula.
  destruct (Bfp_mul_down bo MAX_OUT_RATIO) as [m|] eqn:Em; simpl; [|done].
  apply Bfp_mul_down_Ok in Em as [Em Emax].
  destruct (Z.ltb_spec m amt); [done|].
  assert (amt <= bo) as Hle.
  { unfold u256, U256_MAX, MAX_OUT_RATIO, ONE_18 in *.
    assert (m <= bo) by (subst m; apply Z.div_le_upper_bound; lia). lia. }
  rewrite (proj2 (Bfp_sub_Ok bo amt (bo - amt))) by done. simpl.
  assert (u256 (bo - amt)) as Hd by (unfold u256 in *; lia).
  destruct (Bfp_div_up bo (bo - amt)) as [base|] eqn:Eb; simpl; [|done].
  destruct (Bfp_div_up wo wi) as [e|] eqn:Ee; simpl; [|done].
  assert (ONE_18 <= base) as Hone.
  { apply Bfp_div_up_Ok in Eb as (Hnz & -> & _); [|done..].
    pose proof (div_ceil_spec (bo * ONE_18) (bo - amt)). pose proof ONE_18_pos.
    unfold u256 in *. nia. }
  pose proof (Hpow base e (div_up_u256 _ _ _ Hbo Hd Eb) (div_up_u256 _ _ _ Hwo Hwi Ee)) as Hp.
  destruct (power base e) as [[p|]|]; simpl in *; [|done|done].
  destruct (Hp p eq_refl) as [Hp1 Hp2]. specialize (Hp2 Hone).
  rewrite (proj2 (Bfp_sub_Ok p Bfp_one (p - ONE_18))) by (split; [reflexivity|exact Hp2]). simpl.
  intros v Hv. apply (Bfp_mul_up_u256 bi (p - ONE_18)); [done| |done].
  pose proof ONE_18_pos. unfold u256 in *. lia.
Qed.
End formulas.

(** None of the [expect]s of the weighted formulas can fire, in
    either version: for all [U256] balances, weights and amounts the four
    functions return, the output amount never exceeds the pool's balance, and the
    input amount fits in [U256]. *)
Theorem weighted_formulas_safe bi wi bo wo amt :
  u256 bi -> u256 wi -> u256 bo -> u256 wo -> u256 amt ->
  (exists r, calc_out_given_in bi wi bo wo amt = Ret r /\ forall v, r = Ok v -> 0 <= v <= bo) /\
  (exists r, calc_out_given_in_v3 bi wi bo wo amt = Ret r /\ forall v, r = Ok v -> 0 <= v <= bo) /\
  (exists r, calc_in_given_out bi wi bo wo amt = Ret r /\ forall v, r = Ok v -> u256 v) /\
  (exists r, calc_in_given_out_v3 bi wi bo wo amt = Ret r /\ forall v, r = Ok v -> u256 v).
Proof.
  intros. split_and!; apply returns_inv.
  - by apply (out_formula_returns Bfp_pow_up Bfp_pow_up_returns).
  - by apply (out_formula_returns Bfp_pow_up_v3 Bfp_pow_up_v3_returns).
  - by apply (in_formula_returns Bfp_pow_up Bfp_pow_up_returns).
  - by apply (in_formula_returns Bfp_pow_up_v3 Bfp_pow_up_v3_returns).
Qed.

Lemma weighted_formulas_safe_witness :
  (exists r, calc_out_given_in (100000 * 10 ^ 18) (3 * 10 ^ 14) (10 * 10 ^ 18) (7 * 10 ^ 14) (10 ^ 16)
     = Ret r /\ forall v, r = Ok v -> 0 <= v <= 10 * 10 ^ 18) /\
  (exists r, calc_in_given_out_v3 (100000 * 10 ^ 18) (3 * 10 ^ 14) (10 * 10 ^ 18) (7 * 10 ^ 14) (10 ^ 16)
     = Ret r /\ forall v, r = Ok v -> u256 v).
Proof.
  destruct (weighted_formulas_safe (100000 * 10 ^ 18) (3 * 10 ^ 14) (10 * 10 ^ 18) (7 * 10 ^ 14) (10 ^ 16))
    as (Ha & _ & _ & Hd); [unfold u256; lia..|].
  split; [exact Ha|exact Hd].
Defined.
