(* ===== verification/StableMath.v ===== *)
(** * StableMath: Balancer's stable pool formulas

    [crates/shared/src/sources/balancer_v2/swap/stable_math.rs].  The Newton
    iterations run at most 255 rounds, which is the fuel of the loops here.  The
    swap functions mutate the slice of balances they are given; they return the
    final slice beside their result. *)

From stdpp Require Import base gmap sets list strings.
From Stdlib Require Import ZArith Lia.
From S2P Require Import Prelude Collections Eth FixedPoint.

Open Scope Z_scope.

Definition AMP_PRECISION : Z := 1000.
Definition NEWTON_ROUNDS : nat := 255.
Arguments NEWTON_ROUNDS : simpl never.

Definition convergence_criteria (curr_value prev_value : Z) : comp (option Z) :=
  if prev_value <? curr_value then
    let! d := expect (ok (bsub curr_value prev_value)) in
    Ret (if d <=? 1 then Some curr_value else None)
  else
    let! d := expect (ok (bsub prev_value curr_value)) in
    Ret (if d <=? 1 then Some curr_value else None).

Fixpoint sum_balances (balances : list Z) (sum : Z) : result Error Z :=
  match balances with
  | [] => Ok sum
  | b :: balances => letr sum := badd sum b in sum_balances balances sum
  end.

(** The inner loop of [calculate_invariant]. *)
Fixpoint invariant_d_p (balances : list Z) (num_tokens invariant d_p : Z) : result Error Z :=
  match balances with
  | [] => Ok d_p
  | b :: balances =>
      letr n := bmul d_p invariant in
      letr d := bmul b num_tokens in
      letr d_p := bdiv_down n d in
      invariant_d_p balances num_tokens invariant d_p
  end.

(** One round of the outer loop of [calculate_invariant]. *)
Definition invariant_step (amp_times_total sum num_tokens : Z) (balances : list Z) (invariant : Z)
  : result Error Z :=
  letr d_p := invariant_d_p balances num_tokens invariant invariant in
  letr a := bmul amp_times_total sum in
  letr a := bdiv_down a AMP_PRECISION in
  letr dn := bmul d_p num_tokens in
  letr a := badd a dn in
  letr numerator := bmul a invariant in
  letr b := bsub amp_times_total AMP_PRECISION in
  letr b := bmul b invariant in
  letr b := bdiv_down b AMP_PRECISION in
  letr n1 := badd num_tokens 1 in
  letr nd := bmul n1 d_p in
  letr denominator := badd b nd in
  bdiv_down numerator denominator.

(** [for _ in 0..255] around a step and its convergence check. *)
Fixpoint newton (rounds : nat) (step : Z -> result Error Z) (didnt_converge : Error) (value : Z)
  : comp (result Error Z) :=
  match rounds with
  | O => Ret (Err didnt_converge)
  | S rounds =>
      match step value with
      | Err e => Ret (Err e)
      | Ok next =>
          let! c := convergence_criteria next value in
          match c with
          | Some v => Ret (Ok v)
          | None => newton rounds step didnt_converge next
          end
      end
  end.

Definition calculate_invariant (amplification_parameter : Z) (balances : list Z)
  : comp (result Error Z) :=
  let!r sum := Ret (sum_balances balances 0) in
  if sum =? 0 then Ret (Ok sum)
  else
    let num_tokens := Z.of_nat (length balances) in
    let!r amp_times_total := Ret (bmul amplification_parameter num_tokens) in
    newton NEWTON_ROUNDS (invariant_step amp_times_total sum num_tokens balances)
      StableInvariantDidntConverge sum.

(** The loop over [balances[1..]]. *)
Fixpoint p_d_and_sum (balances : list Z) (num_tokens invariant p_d sum : Z)
  : result Error (Z * Z) :=
  match balances with
  | [] => Ok (p_d, sum)
  | b :: balances =>
      letr t := bmul p_d b in
      letr t := bmul t num_tokens in
      letr p_d := bdiv_down t invariant in
      letr sum := badd sum b in
      p_d_and_sum balances num_tokens invariant p_d sum
  end.

Definition balance_step (invariant b c : Z) (token_balance : Z) : result Error Z :=
  letr sq := bmul token_balance token_balance in
  letr n := badd sq c in
  letr d := bmul token_balance 2 in
  letr d := badd d b in
  letr d := bsub d invariant in
  bdiv_up n d.

Definition get_token_balance_given_invariant_and_all_other_balances
  (amplification_parameter : Z) (balances : list Z) (invariant : Z) (token_index : nat)
  : comp (result Error Z) :=
  let num_tokens := Z.of_nat (length balances) in
  let!r amp_times_total := Ret (bmul amplification_parameter num_tokens) in
  let! first := expect (balances !! 0%nat) in
  let!r p_d := Ret (bmul first num_tokens) in
  let!r (p_d, sum) := Ret (p_d_and_sum (tail balances) num_tokens invariant p_d first) in
  let! token := expect (balances !! token_index) in
  let sum := wrapping_sub sum token in
  let!r inv2 := Ret (bmul invariant invariant) in
  let!r ap := Ret (bmul amp_times_total p_d) in
  let!r c := Ret (bdiv_up inv2 ap) in
  let!r c := Ret (bmul c AMP_PRECISION) in
  let!r c := Ret (bmul c token) in
  let!r b := Ret (bdiv_down invariant amp_times_total) in
  let!r b := Ret (bmul b AMP_PRECISION) in
  let!r b := Ret (badd sum b) in
  let!r n := Ret (badd inv2 c) in
  let!r d := Ret (badd invariant b) in
  let!r token_balance := Ret (bdiv_up n d) in
  newton NEWTON_ROUNDS (balance_step invariant b c) StableGetBalanceDidntConverge token_balance.

Definition calc_out_given_in (amplification_parameter : Z) (balances : list Z)
  (token_index_in token_index_out : nat) (token_amount_in : Z) : comp (result Error Z * list Z) :=
  if (length balances <=? token_index_out)%nat || (length balances <=? token_index_in)%nat
  then Ret (Err InvalidToken, balances)
  else
    let! inv := calculate_invariant amplification_parameter balances in
    match inv with
    | Err e => Ret (Err e, balances)
    | Ok invariant =>
        let! balance_in := expect (balances !! token_index_in) in
        match Bfp_add balance_in token_amount_in with
        | Err e => Ret (Err e, balances)
        | Ok increased =>
            let balances := <[token_index_in := increased]> balances in
            let! final := get_token_balance_given_invariant_and_all_other_balances
                            amplification_parameter balances invariant token_index_out in
            match final with
            | Err e => Ret (Err e, balances)
            | Ok final_balance_out =>
                let! balance_in := expect (balances !! token_index_in) in
                let! restored := expect (ok (Bfp_sub balance_in token_amount_in)) in
                let balances := <[token_index_in := restored]> balances in
                let! balance_out := expect (balances !! token_index_out) in
                Ret (letr d := Bfp_sub balance_out final_balance_out in Bfp_sub d 1, balances)
            end
        end
    end.

Definition calc_in_given_out (amplification_parameter : Z) (balances : list Z)
  (token_index_in token_index_out : nat) (token_amount_out : Z) : comp (result Error Z * list Z) :=
  if (length balances <=? token_index_out)%nat || (length balances <=? token_index_in)%nat
  then Ret (Err InvalidToken, balances)
  else
    let! inv := calculate_invariant amplification_parameter balances in
    match inv with
    | Err e => Ret (Err e, balances)
    | Ok invariant =>
        let! balance_out := expect (balances !! token_index_out) in
        match Bfp_sub balance_out token_amount_out with
        | Err e => Ret (Err e, balances)
        | Ok decreased =>
            let balances := <[token_index_out := decreased]> balances in
            let! final := get_token_balance_given_invariant_and_all_other_balances
                            amplification_parameter balances invariant token_index_in in
            match final with
            | Err e => Ret (Err e, balances)
            | Ok final_balance_in =>
                let! balance_out := expect (balances !! token_index_out) in
                let! restored := expect (ok (Bfp_add balance_out token_amount_out)) in
                let balances := <[token_index_out := restored]> balances in
                let! balance_in := expect (balances !! token_index_in) in
                Ret (letr d := Bfp_sub final_balance_in balance_in in Bfp_add d 1, balances)
            end
        end
    end.

(** A swap against a balanced pool pays almost one to one. *)
Example stable_swap_example :
  calc_out_given_in 100000 [10 ^ 21; 10 ^ 21] 0 1 (10 ^ 18)
  = Ret (Ok 999990099098223019, [10 ^ 21; 10 ^ 21]).
Proof. vm_compute. reflexivity. Qed.

(** ** Convergence *)
Lemma convergence_criteria_spec curr prev :
  convergence_criteria curr prev = Ret (if Z.abs (curr - prev) <=? 1 then Some curr else None).
Proof.
  unfold convergence_criteria. destruct (Z.ltb_spec prev curr).
  - rewrite (proj2 (bsub_Ok curr prev (curr - prev))) by lia. simpl.
    by rewrite Z.abs_eq by lia.
  - rewrite (proj2 (bsub_Ok prev curr (prev - curr))) by lia. simpl.
    rewrite Z.abs_neq by lia. by replace (- (curr - prev)) with (prev - curr) by lia.
Qed.

(** A Newton loop returns an iterate that the last step moved by at most one;
    it never panics, and its other results are the step's error or the
    non-convergence error. *)
Lemma newton_spec rounds step err v :
  exists r, newton rounds step err v = Ret r /\
    (forall w, r = Ok w -> exists u, step u = Ok w /\ Z.abs (w - u) <= 1).
Proof.
  revert v; induction rounds as [|n IH]; intros v; simpl; [by eexists|].
  destruct (step v) as [w|e] eqn:Hs; simpl; [|by eexists].
  rewrite convergence_criteria_spec. simpl.
  destruct (Z.leb_spec (Z.abs (w - v)) 1); [|apply IH].
  eexists. split; [done|]. intros ? [= <-]. eauto.
Qed.

(** ** Ranges *)
Lemma bmul_u256 a b c : 0 <= a -> 0 <= b -> bmul a b = Ok c -> u256 c.
Proof. intros Ha Hb [-> ?]%bmul_Ok. unfold u256, U256_MAX in *. nia. Qed.
Lemma badd_u256 a b c : 0 <= a -> 0 <= b -> badd a b = Ok c -> u256 c.
Proof. intros Ha Hb [-> ?]%badd_Ok. unfold u256, U256_MAX in *. nia. Qed.
Lemma bsub_u256 a b c : u256 a -> 0 <= b -> bsub a b = Ok c -> u256 c.
Proof. intros Ha Hb [-> ?]%bsub_Ok. unfold u256 in *. lia. Qed.
Lemma bdiv_down_u256 a b c : u256 a -> 0 <= b -> bdiv_down a b = Ok c -> u256 c.
Proof. intros Ha Hb [-> ?]%bdiv_down_Ok. apply u256_div; [done|unfold u256 in *; lia]. Qed.
Lemma bdiv_up_u256 a b c : u256 a -> u256 b -> bdiv_up a b = Ok c -> u256 c.
Proof.
  intros Ha Hb [? ->]%bdiv_up_Ok; [|done..]. unfold u256 in *.
  pose proof (div_ceil_nonneg a b). pose proof (div_ceil_le_self a b). lia.
Qed.

(** Derives the range of every intermediate result in the context. *)
Lemma u256_nonneg a : u256 a -> 0 <= a.
Proof. by intros [? _]. Qed.

Ltac bal_side :=
  first [assumption | apply u256_nonneg; assumption
        | apply u256_div; [assumption|reflexivity]
        | apply u256_nonneg, u256_div; [assumption|reflexivity]].
Ltac bal_step lem :=
  match goal with
  | H : _ ?a ?b = Ok ?c |- _ =>
      lazymatch goal with
      | _ : u256 c |- _ => fail
      | _ => pose proof (lem a b c ltac:(bal_side) ltac:(bal_side) H)
      end
  end.
Ltac bal_ranges :=
  repeat first [bal_step bmul_u256 | bal_step badd_u256 | bal_step bsub_u256
               | bal_step bdiv_down_u256 | bal_step bdiv_up_u256].

Lemma u256_small z : 0 <= z <= 1000 -> u256 z.
Proof. unfold u256. lia. Qed.

Lemma balance_step_u256 inv b c t v :
  u256 inv -> u256 b -> u256 c -> u256 t -> balance_step inv b c t = Ok v -> u256 v.
Proof.
  unfold balance_step. intros Hi Hb Hc Ht H. rust_inv.
  assert (u256 2) by (apply u256_small; lia). by bal_ranges.
Qed.

Lemma newton_u256 rounds step err v :
  (forall a b, u256 a -> step a = Ok b -> u256 b) -> u256 v ->
  forall w, newton rounds step err v = Ret (Ok w) -> u256 w.
Proof.
  intros Hstep. revert v; induction rounds as [|n IH]; intros v Hv w; simpl; [done|].
  destruct (step v) as [x|e] eqn:Hs; simpl; [|done].
  rewrite convergence_criteria_spec. simpl. destruct (_ <=? 1); [|by eauto].
  intros [= <-]. eauto.
Qed.

Lemma sum_balances_u256 bs s v :
  Forall u256 bs -> u256 s -> sum_balances bs s = Ok v -> u256 v.
Proof.
  intros Hbs. revert s; induction Hbs as [|b bs Hb Hbs IH]; intros s Hs H; simpl in H; rust_inv; [done|].
  bal_ranges. eauto.
Qed.

Lemma invariant_d_p_u256 bs n inv d v :
  Forall u256 bs -> 0 <= n -> u256 inv -> u256 d -> invariant_d_p bs n inv d = Ok v -> u256 v.
Proof.
  intros Hbs Hn Hi. revert d; induction Hbs as [|b bs Hb Hbs IH]; intros d Hd H; simpl in H; rust_inv; [done|].
  bal_ranges. eauto.
Qed.

Lemma invariant_step_u256 at_ s n bs inv v :
  Forall u256 bs -> u256 at_ -> u256 s -> 0 <= n -> u256 inv ->
  invariant_step at_ s n bs inv = Ok v -> u256 v.
Proof.
  unfold invariant_step. intros Hbs Ha Hs Hn Hi H. rust_inv.
  assert (u256 1) by (apply u256_small; lia).
  assert (u256 AMP_PRECISION) by (apply u256_small; unfold AMP_PRECISION; lia).
  match goal with K : invariant_d_p _ _ _ _ = Ok _ |- _ =>
    pose proof (invariant_d_p_u256 _ _ _ _ _ Hbs Hn Hi Hi K) end.
  by bal_ranges.
Qed.

Lemma p_d_and_sum_u256 bs n inv p s r :
  Forall u256 bs -> 0 <= n -> u256 inv -> u256 p -> u256 s ->
  p_d_and_sum bs n inv p s = Ok r -> u256 r.1 /\ u256 r.2.
Proof.
  intros Hbs Hn Hi. revert p s; induction Hbs as [|b bs Hb Hbs IH]; intros p s Hp Hs H;
    simpl in H; rust_inv; [done|].
  bal_ranges. eauto.
Qed.


Lemma calculate_invariant_returns amp bs :
  u256 amp -> Forall u256 bs ->
  returns (calculate_invariant amp bs) (fun r => forall v, r = Ok v -> u256 v).
Proof.
  intros Ha Hbs. unfold calculate_invariant. pose proof (Nat2Z.is_nonneg (length bs)).
  destruct (sum_balances bs 0) as [s|] eqn:Hs; cbn [comp_rbind]; [|done].
  apply sum_balances_u256 in Hs; [|done|apply u256_small; lia].
  destruct (s =? 0); [naive_solver|].
  destruct (bmul amp _) as [at_|] eqn:Hat; cbn [comp_rbind]; [|done]. bal_ranges.
  match goal with |- returns (newton ?n ?st ?e ?v) _ =>
    destruct (newton_spec n st e v) as (r & Hr & _); rewrite Hr end.
  intros v ->. eapply newton_u256; [| |exact Hr]; [|done]. intros a b Hab. by apply invariant_step_u256.
Qed.

Lemma get_token_balance_returns amp bs inv i :
  u256 amp -> Forall u256 bs -> u256 inv -> (i < length bs)%nat ->
  returns (get_token_balance_given_invariant_and_all_other_balances amp bs inv i)
    (fun r => forall v, r = Ok v -> u256 v).
Proof.
  intros Ha Hbs Hinv Hi. unfold get_token_balance_given_invariant_and_all_other_balances.
  pose proof (Nat2Z.is_nonneg (length bs)). set (n := Z.of_nat (length bs)) in *.
  destruct bs as [|b0 bs]; [simpl in Hi; lia|].
  assert (u256 b0 /\ Forall u256 bs) as [Hb0 Htl] by (by apply Forall_cons).
  destruct (lookup_lt_is_Some_2 (b0 :: bs) i Hi) as [t Ht].
  assert (u256 t) by (eapply Forall_lookup_1 in Ht; [|exact Hbs]; done).
  assert (u256 AMP_PRECISION) by (apply u256_small; unfold AMP_PRECISION; lia).
  destruct (bmul amp n) as [at_|] eqn:?; cbn [comp_rbind]; [|done].
  cbn [lookup list_lookup expect comp_bind tail].
  destruct (bmul b0 n) as [p|] eqn:?; cbn [comp_rbind]; [|done]. bal_ranges.
  destruct (p_d_and_sum bs n inv p b0) as [[pd s]|] eqn:Hps; cbn [comp_rbind]; [|done].
  apply p_d_and_sum_u256 in Hps as [Hpd Hs]; [|done..]. simpl in Hpd, Hs.
  rewrite Ht. cbn [expect comp_bind].
  assert (u256 (wrapping_sub s t)).
  { unfold u256, wrapping_sub. apply Z.mod_pos_bound. lia. }
  set (s' := wrapping_sub s t) in *. clearbody s'.
  destruct (bmul inv inv) as [inv2|] eqn:?; cbn [comp_rbind]; [|done].
  destruct (bmul at_ pd) as [ap|] eqn:?; cbn [comp_rbind]; [|done].
  destruct (bdiv_up inv2 ap) as [c0|] eqn:?; cbn [comp_rbind]; [|done].
  destruct (bmul c0 AMP_PRECISION) as [c1|] eqn:?; cbn [comp_rbind]; [|done].
  destruct (bmul c1 t) as [c|] eqn:?; cbn [comp_rbind]; [|done].
  destruct (bdiv_down inv at_) as [e0|] eqn:?; cbn [comp_rbind]; [|done].
  destruct (bmul e0 AMP_PRECISION) as [e1|] eqn:?; cbn [comp_rbind]; [|done].
  destruct (badd s' e1) as [e|] eqn:?; cbn [comp_rbind]; [|done].
  destruct (badd inv2 c) as [num|] eqn:?; cbn [comp_rbind]; [|done].
  destruct (badd inv e) as [den|] eqn:?; cbn [comp_rbind]; [|done].
  destruct (bdiv_up num den) as [tb|] eqn:?; cbn [comp_rbind]; [|done]. bal_ranges.
  match goal with |- returns (newton ?n ?st ?e ?v) _ =>
    destruct (newton_spec n st e v) as (r & Hr & _); rewrite Hr end.
  intros v ->. eapply newton_u256; [| |exact Hr]; [|done]. intros x y Hx. by apply balance_step_u256.
Qed.

(** ** The swap functions *)
Lemma calc_out_returns amp bs i o amt :
  u256 amp -> Forall u256 bs -> u256 amt ->
  returns (calc_out_given_in amp bs i o amt) (fun r =>
    forall v, r.1 = Ok v -> r.2 = bs /\ exists b, bs !! o = Some b /\ 0 <= v < b).
Proof.
  intros Ha Hbs Hamt. unfold calc_out_given_in.
  destruct (Nat.leb_spec (length bs) o); [done|]. destruct (Nat.leb_spec (length bs) i); [done|].
  cbn [orb]. eapply returns_bind; [by apply calculate_invariant_returns|].
  intros [inv|e] Hinv; [|done]. specialize (Hinv inv eq_refl).
  destruct (lookup_lt_is_Some_2 bs i) as [bi Hbi]; [lia|].
  destruct (lookup_lt_is_Some_2 bs o) as [bo Hbo]; [lia|].
  pose proof (Forall_lookup_1 _ _ _ _ Hbs Hbi). rewrite Hbi. cbn [expect comp_bind].
  destruct (Bfp_add bi amt) as [bi'|] eqn:Hadd; [|done].
  assert (u256 bi') by (eapply (badd_u256 bi amt); [bal_side..|done]).
  apply Bfp_add_Ok in Hadd as [-> Hmax].
  eapply returns_bind; [apply get_token_balance_returns; [done|by apply Forall_insert|done|]|].
  { by rewrite length_insert. }
  intros [fin|e] Hfin; [|done]. specialize (Hfin fin eq_refl).
  rewrite list_lookup_insert_eq by lia. cbn [expect comp_bind].
  rewrite (proj2 (Bfp_sub_Ok (bi + amt) amt bi)) by (unfold u256 in *; lia). cbn [ok expect comp_bind].
  rewrite list_insert_insert_eq, (list_insert_id bs i bi) by done.
  rewrite Hbo. cbn [expect comp_bind]. intros v Hv. simpl in Hv. split; [done|].
  exists bo. split; [done|]. rust_inv.
  repeat match goal with K : Bfp_sub _ _ = Ok _ |- _ => apply Bfp_sub_Ok in K as [-> ?] end.
  unfold u256 in *. lia.
Qed.

Lemma calc_in_returns amp bs i o amt :
  u256 amp -> Forall u256 bs -> u256 amt ->
  returns (calc_in_given_out amp bs i o amt) (fun r =>
    forall v, r.1 = Ok v -> r.2 = bs /\ 1 <= v <= U256_MAX).
Proof.
  intros Ha Hbs Hamt. unfold calc_in_given_out.
  destruct (Nat.leb_spec (length bs) o); [done|]. destruct (Nat.leb_spec (length bs) i); [done|].
  cbn [orb]. eapply returns_bind; [by apply calculate_invariant_returns|].
  intros [inv|e] Hinv; [|done]. specialize (Hinv inv eq_refl).
  destruct (lookup_lt_is_Some_2 bs o) as [bo Hbo]; [lia|].
  pose proof (Forall_lookup_1 _ _ _ _ Hbs Hbo). rewrite Hbo. cbn [expect comp_bind].
  destruct (Bfp_sub bo amt) as [bo'|] eqn:Hsub; [|done].
  assert (u256 bo') by (eapply (bsub_u256 bo amt); [bal_side..|done]).
  apply Bfp_sub_Ok in Hsub as [-> Hmax].
  eapply returns_bind; [apply get_token_balance_returns; [done|by apply Forall_insert|done|]|].
  { by rewrite length_insert. }
  intros [fin|e] Hfin; [|done]. specialize (Hfin fin eq_refl).
  rewrite list_lookup_insert_eq by lia. cbn [expect comp_bind].
  rewrite (proj2 (Bfp_add_Ok (bo - amt) amt bo)) by (unfold u256, U256_MAX in *; lia).
  cbn [ok expect comp_bind].
  rewrite list_insert_insert_eq, (list_insert_id bs o bo) by done.
  destruct (lookup_lt_is_Some_2 bs i) as [bi Hbi]; [lia|].
  rewrite Hbi. cbn [expect comp_bind]. intros v Hv. simpl in Hv. split; [done|]. rust_inv.
  repeat match goal with
  | K : Bfp_sub _ _ = Ok _ |- _ => apply Bfp_sub_Ok in K as [-> ?]
  | K : Bfp_add _ _ = Ok _ |- _ => apply Bfp_add_Ok in K as [-> ?] end.
  lia.
Qed.

(** The stable swap functions never panic (no index, [expect] or
    loop can fail) on [U256] inputs; they leave the balances they were lent as
    they found them whenever they succeed; what they pay out is less than the
    balance they hold and what they ask for is at least one atom. *)
Theorem stable_swaps_safe amp bs i o amt :
  u256 amp -> Forall u256 bs -> u256 amt ->
  (exists r bs', calc_out_given_in amp bs i o amt = Ret (r, bs') /\
     forall v, r = Ok v -> bs' = bs /\ exists b, bs !! o = Some b /\ 0 <= v < b) /\
  (exists r bs', calc_in_given_out amp bs i o amt = Ret (r, bs') /\
     forall v, r = Ok v -> bs' = bs /\ 1 <= v <= U256_MAX).
Proof.
  intros Ha Hbs Hamt. split.
  - destruct (returns_inv _ _ (calc_out_returns amp bs i o amt Ha Hbs Hamt)) as ([r bs'] & ? & ?). eauto.
  - destruct (returns_inv _ _ (calc_in_returns amp bs i o amt Ha Hbs Hamt)) as ([r bs'] & ? & ?). eauto.
Qed.

Lemma stable_swaps_safe_witness :
  exists r bs', calc_out_given_in 100000 [10 ^ 21; 10 ^ 21] 0 1 (10 ^ 18) = Ret (r, bs') /\
    (forall v, r = Ok v -> bs' = [10 ^ 21; 10 ^ 21] /\
       exists b, [10 ^ 21; 10 ^ 21] !! 1%nat = Some b /\ 0 <= v < b).
Proof.
  destruct (proj1 (stable_swaps_safe 100000 [10 ^ 21; 10 ^ 21] 0 1 (10 ^ 18)
    ltac:(unfold u256; lia)
    ltac:(repeat constructor; lia)
    ltac:(unfold u256; lia))) as (r & bs' & Hr & H).
  exists r, bs'. split; [exact Hr|exact H].
Defined.
