(* ===== verification/BalancerSwap.v ===== *)
(** * BalancerSwap: Balancer V2 weighted and stable pools as liquidity

    The swap entry points of [crates/shared/src/sources/balancer_v2/swap/mod.rs],
    the amplification parameter of [.../pools/stable.rs], the solver's domain
    pools ([crates/solvers/src/domain/liquidity/weighted_product.rs], [stable.rs])
    and their conversion to boundary pools
    ([crates/solvers/src/boundary/liquidity/weighted_product.rs], [stable.rs]). *)

From stdpp Require Import base gmap sets list strings sorting.
From Stdlib Require Import ZArith Lia.
From S2P Require Import Prelude Collections Eth Solvable FixedPoint LogExp.
From S2P Require WeightedMath StableMath.

Open Scope Z_scope.

Definition WEIGHTED_SWAP_GAS_COST : Z := 100000.
Definition STABLE_SWAP_GAS_COST : Z := 183520.

Definition add_swap_fee_amount (amount swap_fee : Z) : result Error Z :=
  Bfp_div_up amount (Bfp_complement swap_fee).

Definition subtract_swap_fee_amount (amount swap_fee : Z) : result Error Z :=
  letr fee_amount := Bfp_mul_up amount swap_fee in
  Bfp_sub amount fee_amount.

(** [common::TokenState]. *)
Record TokenState := mkTokenState { ts_balance : Z; ts_scaling_factor : Z }.

Definition upscale (s : TokenState) (amount : Z) : result Error Z :=
  Bfp_mul_down amount (ts_scaling_factor s).
Definition upscaled_balance (s : TokenState) : result Error Z := upscale s (ts_balance s).
Definition downscale_up (s : TokenState) (amount : Z) : result Error Z :=
  Bfp_div_up amount (ts_scaling_factor s).
Definition downscale_down (s : TokenState) (amount : Z) : result Error Z :=
  Bfp_div_down amount (ts_scaling_factor s).

Example downscale_vector :
  downscale_up (mkTokenState 0 (Bfp_exp10 12)) 900546079866630330575 = Ok 900546080 /\
  downscale_down (mkTokenState 0 (Bfp_exp10 12)) 900546079866630330575 = Ok 900546079.
Proof. by vm_compute. Qed.

(** ** [converge_in_amount] *)

(** [for _ in 0..6]; [bump *= 10] wraps. *)
Fixpoint converge_loop (rounds : nat) (in_amount exact_out_amount bump : Z)
  (get_amount_out : Z -> comp (option Z)) : comp (option Z) :=
  match rounds with
  | O => Ret None
  | S rounds =>
      let!? bumped_in_amount := Ret (checked_add in_amount bump) in
      let!? out_amount := get_amount_out bumped_in_amount in
      if exact_out_amount <=? out_amount then Ret (Some bumped_in_amount)
      else converge_loop rounds in_amount exact_out_amount (wrapping_mul bump 10) get_amount_out
  end.

Definition converge_in_amount (in_amount exact_out_amount : Z)
  (get_amount_out : Z -> comp (option Z)) : comp (option Z) :=
  let!? out_amount := get_amount_out in_amount in
  if exact_out_amount <=? out_amount then Ret (Some in_amount)
  else
    let!? scaled := Ret (checked_mul (wrapping_sub exact_out_amount out_amount) in_amount) in
    let bump := Z.max (div_ceil scaled (Z.max out_amount 1)) 1 in
    converge_loop 6 in_amount exact_out_amount bump get_amount_out.

(** What the loop promises: the returned input was tried, and it buys enough. *)
Lemma converge_loop_Some n i o bump g r :
  converge_loop n i o bump g = Ret (Some r) ->
  0 <= i -> 0 <= bump -> exists v, g r = Ret (Some v) /\ o <= v /\ i <= r <= U256_MAX.
Proof.
  revert bump; induction n as [|n IH]; intros bump H Hi Hb; cbn [converge_loop] in H; [done|].
  apply comp_obind_Some in H as (x & Hx & H). injection Hx as Hx.
  apply checked_add_Some in Hx as [-> Hmax].
  apply comp_obind_Some in H as (v & Hv & H).
  destruct (Z.leb_spec o v).
  - injection H as <-. exists v. split_and!; [done..|lia|lia].
  - apply IH in H; [done..|]. unfold wrapping_mul. apply Z.mod_pos_bound. lia.
Qed.

Lemma converge_in_amount_Some i o g r :
  converge_in_amount i o g = Ret (Some r) -> u256 i ->
  exists v, g r = Ret (Some v) /\ o <= v /\ i <= r <= U256_MAX.
Proof.
  unfold converge_in_amount, u256, U256_MAX. intros H Hi.
  apply comp_obind_Some in H as (v & Hv & H). destruct (Z.leb_spec o v).
  - injection H as <-. exists v. split_and!; [done..|lia|lia].
  - apply comp_obind_Some in H as (s & _ & H).
    eapply converge_loop_Some in H; [exact H|lia|lia].
Qed.

Lemma converge_loop_safe n i o bump g :
  (forall x, u256 x -> safe (g x)) -> u256 i -> 0 <= bump -> safe (converge_loop n i o bump g).
Proof.
  intros Hg Hi. revert bump; induction n as [|n IH]; intros bump Hb; cbn [converge_loop]; [apply safe_Ret|].
  apply safe_obind; [apply safe_Ret|]. intros x [= Hx]. apply checked_add_Some in Hx as [-> ?].
  apply safe_obind; [apply Hg; unfold u256, U256_MAX in *; lia|].
  intros v _. destruct (o <=? v); [apply safe_Ret|]. apply IH.
  unfold wrapping_mul. apply Z.mod_pos_bound. lia.
Qed.

Lemma converge_in_amount_safe i o g :
  (forall x, u256 x -> safe (g x)) -> u256 i -> safe (converge_in_amount i o g).
Proof.
  intros Hg Hi. unfold converge_in_amount. apply safe_obind; [by apply Hg|].
  intros v _. destruct (o <=? v); [apply safe_Ret|].
  apply safe_obind; [apply safe_Ret|]. intros s _. apply converge_loop_safe; [done..|lia].
Qed.

(** ** Weighted pools *)
Inductive WeightedPoolVersion := V0 | V3Plus.

Record WeightedTokenState := mkWeightedTokenState { wts_common : TokenState; wts_weight : Z }.

(** [WeightedPool] / [WeightedPoolRef]; the reserves are a [BTreeMap]. *)
Record WeightedPool := mkWeightedPool {
  wp_address : address;
  wp_swap_fee : Z;
  wp_reserves : list (address * WeightedTokenState);
  wp_version : WeightedPoolVersion;
}.

(** [Result::ok] followed by [?]. *)
Definition okq {A} (r : result Error A) : comp (option A) := Ret (ok r).
(** The same for a computation. *)
Definition comp_ok {E A} (c : comp (result E A)) : comp (option A) :=
  let! r := c in Ret (ok r).

Definition weighted_get_amount_out_inner (p : WeightedPool) (out_token : address) (in_amount : Z)
  (in_token : address) : comp (option Z) :=
  let!? in_reserves := Ret (bt_get (wp_reserves p) in_token) in
  let!? out_reserves := Ret (bt_get (wp_reserves p) out_token) in
  let!? in_amount_minus_fees := okq (subtract_swap_fee_amount in_amount (wp_swap_fee p)) in
  let calc_out_given_in := match wp_version p with
                           | V0 => WeightedMath.calc_out_given_in
                           | V3Plus => WeightedMath.calc_out_given_in_v3
                           end in
  let!? balance_in := okq (upscaled_balance (wts_common in_reserves)) in
  let!? balance_out := okq (upscaled_balance (wts_common out_reserves)) in
  let!? amount := okq (upscale (wts_common in_reserves) in_amount_minus_fees) in
  let!? out_amount := comp_ok (calc_out_given_in balance_in (wts_weight in_reserves)
                                 balance_out (wts_weight out_reserves) amount) in
  okq (downscale_down (wts_common out_reserves) out_amount).

Definition weighted_get_amount_out (p : WeightedPool) (out_token : address) (input : Z * address)
  : comp (option Z) :=
  weighted_get_amount_out_inner p out_token input.1 input.2.

Definition weighted_get_amount_in (p : WeightedPool) (in_token : address) (out : Z * address)
  : comp (option Z) :=
  let!? in_reserves := Ret (bt_get (wp_reserves p) in_token) in
  let!? out_reserves := Ret (bt_get (wp_reserves p) out.2) in
  let calc_in_given_out := match wp_version p with
                           | V0 => WeightedMath.calc_in_given_out
                           | V3Plus => WeightedMath.calc_in_given_out_v3
                           end in
  let!? balance_in := okq (upscaled_balance (wts_common in_reserves)) in
  let!? balance_out := okq (upscaled_balance (wts_common out_reserves)) in
  let!? amount := okq (upscale (wts_common out_reserves) out.1) in
  let!? in_amount := comp_ok (calc_in_given_out balance_in (wts_weight in_reserves)
                                balance_out (wts_weight out_reserves) amount) in
  let!? amount_in_before_fee := okq (downscale_up (wts_common in_reserves) in_amount) in
  let!? in_amount := okq (add_swap_fee_amount amount_in_before_fee (wp_swap_fee p)) in
  converge_in_amount in_amount out.1
    (fun x => weighted_get_amount_out_inner p out.2 x in_token).

#[export] Instance weighted_solvable : BaselineSolvable WeightedPool := {|
  get_amount_out := weighted_get_amount_out;
  get_amount_in := weighted_get_amount_in;
  gas_cost := fun _ => WEIGHTED_SWAP_GAS_COST;
|}.

(** ** Stable pools *)
Record AmplificationParameter := mkAmp { amp_factor : Z; amp_precision : Z }.

Definition AmplificationParameter_try_new (factor precision : Z) : option AmplificationParameter :=
  if precision =? 0 then None else Some (mkAmp factor precision).

Definition with_base (a : AmplificationParameter) (base : Z) : comp (option Z) :=
  let!? scaled := Ret (checked_mul (amp_factor a) base) in
  let! q := div_u256 scaled (amp_precision a) in
  Ret (Some q).

Record StablePool := mkStablePool {
  sp_address : address;
  sp_swap_fee : Z;
  sp_reserves : list (address * TokenState);
  sp_amplification_parameter : AmplificationParameter;
}.

Definition reserves_without_bpt (p : StablePool) : list (address * TokenState) :=
  filter (fun r => negb (r.1 =? sp_address p)) (sp_reserves p).

Record BalancesWithIndices := mkBalancesWithIndices {
  token_index_in : nat;
  token_index_out : nat;
  bwi_balances : list Z;
}.

(** The loop of [upscale_balances_with_token_indices] over the enumerated
    reserves. *)
Fixpoint upscale_loop (in_token out_token : address) (index : nat)
  (reserves : list (address * TokenState)) (acc : BalancesWithIndices)
  : result Error BalancesWithIndices :=
  match reserves with
  | [] => Ok acc
  | (token, state) :: reserves =>
      let i := if token =? in_token then index else token_index_in acc in
      let o := if token =? out_token then index else token_index_out acc in
      letr balance := upscaled_balance state in
      upscale_loop in_token out_token (S index) reserves
        (mkBalancesWithIndices i o (bwi_balances acc ++ [balance]))
  end.

Definition upscale_balances_with_token_indices (p : StablePool) (in_token out_token : address)
  : result Error BalancesWithIndices :=
  upscale_loop in_token out_token 0 (reserves_without_bpt p) (mkBalancesWithIndices 0 0 []).

Definition amplification_parameter_u256 (p : StablePool) : comp (option Z) :=
  with_base (sp_amplification_parameter p) StableMath.AMP_PRECISION.

Definition regular_swap_given_in (p : StablePool) (out_token : address) (input : Z * address)
  : comp (option Z) :=
  let!? in_reserves := Ret (bt_get (sp_reserves p) input.2) in
  let!? out_reserves := Ret (bt_get (sp_reserves p) out_token) in
  let!? b := okq (upscale_balances_with_token_indices p input.2 out_token) in
  let!? in_amount_minus_fees := okq (subtract_swap_fee_amount input.1 (sp_swap_fee p)) in
  let!? amp := amplification_parameter_u256 p in
  let!? amount := okq (upscale in_reserves in_amount_minus_fees) in
  let! (out_amount, _) := StableMath.calc_out_given_in amp (bwi_balances b)
                            (token_index_in b) (token_index_out b) amount in
  let!? out_amount := okq out_amount in
  okq (downscale_down out_reserves out_amount).

Definition regular_swap_given_out (p : StablePool) (in_token : address) (out : Z * address)
  : comp (option Z) :=
  let!? in_reserves := Ret (bt_get (sp_reserves p) in_token) in
  let!? out_reserves := Ret (bt_get (sp_reserves p) out.2) in
  let!? b := okq (upscale_balances_with_token_indices p in_token out.2) in
  let!? amp := amplification_parameter_u256 p in
  let!? amount := okq (upscale out_reserves out.1) in
  let! (in_amount, _) := StableMath.calc_in_given_out amp (bwi_balances b)
                           (token_index_in b) (token_index_out b) amount in
  let!? in_amount := okq in_amount in
  let!? amount_in_before_fee := okq (downscale_up in_reserves in_amount) in
  okq (add_swap_fee_amount amount_in_before_fee (sp_swap_fee p)).

(** Swapping with the pool's own token is not implemented by the source. *)
Definition swap_with_bpt (p : StablePool) : comp (option Z) := Ret None.

Definition stable_get_amount_out_inner (p : StablePool) (out_token : address) (in_amount : Z)
  (in_token : address) : comp (option Z) :=
  if (in_token =? sp_address p) || (out_token =? sp_address p) then swap_with_bpt p
  else regular_swap_given_in p out_token (in_amount, in_token).

Definition stable_get_amount_out (p : StablePool) (out_token : address) (input : Z * address)
  : comp (option Z) :=
  stable_get_amount_out_inner p out_token input.1 input.2.

Definition stable_get_amount_in (p : StablePool) (in_token : address) (out : Z * address)
  : comp (option Z) :=
  if (in_token =? sp_address p) || (out.2 =? sp_address p) then swap_with_bpt p
  else
    let!? in_amount := regular_swap_given_out p in_token out in
    converge_in_amount in_amount out.1
      (fun x => stable_get_amount_out_inner p out.2 x in_token).

#[export] Instance stable_solvable : BaselineSolvable StablePool := {|
  get_amount_out := stable_get_amount_out;
  get_amount_in := stable_get_amount_in;
  gas_cost := fun _ => STABLE_SWAP_GAS_COST;
|}.

(** The swaps the tests of the source replay from mainnet transactions. *)
Example weighted_vectors :
  let pool := mkWeightedPool 0 2000000000000000
    [(21, mkWeightedTokenState (mkTokenState 1850304144768426873445489 (Bfp_exp10 0)) (9 * 10 ^ 17));
     (42, mkWeightedTokenState (mkTokenState 95671347892391047965654 (Bfp_exp10 0)) (10 ^ 17))] V0 in
  let pool' := mkWeightedPool 0 1000000000000000
    [(21, mkWeightedTokenState (mkTokenState 60000000000000000 (Bfp_exp10 0)) (5 * 10 ^ 17));
     (42, mkWeightedTokenState (mkTokenState 250000000 (Bfp_exp10 12)) (5 * 10 ^ 17))] V0 in
  weighted_get_amount_out pool 21 (227937106828652254870, 42) = Ret (Some 488192591864344551330) /\
  weighted_get_amount_in pool' 21 (5000000, 42) = Ret (Some 1225715511430411).
Proof. by vm_compute. Qed.

Example stable_vectors :
  let pool b1 b2 b3 := mkStablePool 0 300000000000000
    [(1, mkTokenState b1 (Bfp_exp10 0)); (2, mkTokenState b2 (Bfp_exp10 12));
     (3, mkTokenState b3 (Bfp_exp10 12))] (mkAmp 570000 1000) in
  stable_get_amount_out (pool 40927687702846622465144342 59448574675062 55199308926456)
    2 (1886982823746269817650, 1) = Ret (Some 1887770905) /\
  stable_get_amount_in (pool 34869494603218073631628580 48176005970419 44564350355030)
    2 (900000000000000000000, 1) = Ret (Some 900816325).
Proof. by vm_compute. Qed.

(** ** The solver's domain pools *)

(** [liquidity::ScalingFactor::new]. *)
Definition ScalingFactor_new (value : Z * Z) : option (Z * Z) :=
  if (value.1 =? 0) || (value.2 =? 0) then None else Some value.

(** [tuple_windows().any(|(a, b)| a == b)]. *)
Fixpoint has_duplicates (l : list Z) : bool :=
  match l with
  | a :: (b :: _) as l' => (a =? b) || has_duplicates l'
  | _ => false
  end.

(** [tuple_combinations]. *)
Fixpoint tuple_combinations {A} (l : list A) : list (A * A) :=
  match l with
  | [] => []
  | x :: l => map (pair x) l ++ tuple_combinations l
  end.

Definition token_pairs_of (tokens : list address) : comp (list (Z * Z)) :=
  comp_map (fun ab => expect (TokenPair_new ab.1 ab.2)) (tuple_combinations tokens).

(** [weighted_product::Reserve], [Reserves::new] and [token_pairs]. *)
Record WeightedReserve := mkWeightedReserve {
  wr_asset : Asset;
  wr_weight : Z * Z;
  wr_scale : Z * Z;
}.

Definition WeightedReserves_new (reserves : list WeightedReserve) : option (list WeightedReserve) :=
  let reserves := sort_by (cmp_on (fun r => asset_token (wr_asset r)) Z.compare) reserves in
  if has_duplicates (map (fun r => asset_token (wr_asset r)) reserves) then None
  else Some reserves.

Definition WeightedReserves_token_pairs (reserves : list WeightedReserve) : comp (list (Z * Z)) :=
  token_pairs_of (map (fun r => asset_token (wr_asset r)) reserves).

(** [weighted_product::Pool]. *)
Record WeightedDomainPool := mkWeightedDomainPool {
  wdp_reserves : list WeightedReserve;
  wdp_fee : Z * Z;
  wdp_version : WeightedPoolVersion;
}.

(** [stable::Reserve], [Reserves::new], [token_pairs] and [stable::Pool]. *)
Record StableReserve := mkStableReserve { sr_asset : Asset; sr_scale : Z * Z }.

Definition StableReserves_new (reserves : list StableReserve) : option (list StableReserve) :=
  let reserves := sort_by (cmp_on (fun r => asset_token (sr_asset r)) Z.compare) reserves in
  if has_duplicates (map (fun r => asset_token (sr_asset r)) reserves) then None
  else Some reserves.

Definition StableReserves_token_pairs (reserves : list StableReserve) : comp (list (Z * Z)) :=
  token_pairs_of (map (fun r => asset_token (sr_asset r)) reserves).

Record StableDomainPool := mkStableDomainPool {
  sdp_reserves : list StableReserve;
  sdp_amplification_parameter : Z * Z;
  sdp_fee : Z * Z;
}.

(** [to_fixed_point] of both boundary modules. *)
Definition to_fixed_point (ratio : Z * Z) : comp (option Z) :=
  let base := 10 ^ 18 in
  let!? scaled := Ret (checked_mul ratio.1 base) in
  let! wei := div_u256 scaled ratio.2 in
  Ret (Some wei).

(** [boundary::liquidity::weighted_product::to_boundary_pool]; the pool id is
    only used for encoding and left out. *)
Definition weighted_to_boundary_pool (addr : address) (pool : WeightedDomainPool)
  : comp (option WeightedPool) :=
  let!? swap_fee := to_fixed_point (wdp_fee pool) in
  let!? reserves :=
    comp_omap (fun reserve =>
      let!? scaling_factor := to_fixed_point (wr_scale reserve) in
      let!? weight := to_fixed_point (wr_weight reserve) in
      Ret (Some (asset_token (wr_asset reserve),
        mkWeightedTokenState (mkTokenState (asset_amount (wr_asset reserve)) scaling_factor) weight)))
      (wdp_reserves pool) in
  Ret (Some (mkWeightedPool addr swap_fee (bt_collect reserves) (wdp_version pool))).

(** [boundary::liquidity::stable::to_boundary_pool]. *)
Definition stable_to_boundary_pool (addr : address) (pool : StableDomainPool)
  : comp (option StablePool) :=
  let!? swap_fee := to_fixed_point (sdp_fee pool) in
  let!? reserves :=
    comp_omap (fun reserve =>
      let!? scaling_factor := to_fixed_point (sr_scale reserve) in
      Ret (Some (asset_token (sr_asset reserve),
        mkTokenState (asset_amount (sr_asset reserve)) scaling_factor)))
      (sdp_reserves pool) in
  let!? amplification_parameter :=
    Ret (AmplificationParameter_try_new (sdp_amplification_parameter pool).1
           (sdp_amplification_parameter pool).2) in
  Ret (Some (mkStablePool addr swap_fee (bt_collect reserves) amplification_parameter)).

(** ** Well-formed pools *)
Definition ts_wf (s : TokenState) : Prop := u256 (ts_balance s) /\ u256 (ts_scaling_factor s).
Definition wts_wf (s : WeightedTokenState) : Prop := ts_wf (wts_common s) /\ u256 (wts_weight s).

Definition weighted_wf (p : WeightedPool) : Prop :=
  u256 (wp_swap_fee p) /\ Forall (fun r => wts_wf r.2) (wp_reserves p).

Definition stable_wf (p : StablePool) : Prop :=
  u256 (sp_swap_fee p) /\ Forall (fun r => ts_wf r.2) (sp_reserves p) /\
  u256 (amp_factor (sp_amplification_parameter p)) /\
  0 < amp_precision (sp_amplification_parameter p).

Lemma bt_get_elem {V} (m : list (Z * V)) k v : bt_get m k = Some v -> (k, v) ∈ m.
Proof.
  induction m as [|[j w] m IH]; simpl; [done|].
  destruct (Z.eqb_spec k j) as [->|]; [intros [= ->]; set_solver|]. intros. set_solver.
Qed.

Lemma bt_get_Forall {V} (P : Z * V -> Prop) m k v :
  Forall P m -> bt_get m k = Some v -> P (k, v).
Proof. rewrite Forall_forall. intros HP H%bt_get_elem. auto. Qed.

(** ** Fees and scaling stay in range *)
Lemma Bfp_sub_u256 a b c : u256 a -> u256 b -> Bfp_sub a b = Ok c -> u256 c.
Proof. intros Ha Hb H. apply (Bfp_ops_u256 a b c Ha Hb). auto. Qed.
Lemma Bfp_mul_down_u256 a b c : u256 a -> u256 b -> Bfp_mul_down a b = Ok c -> u256 c.
Proof. intros Ha Hb H. apply (Bfp_ops_u256 a b c Ha Hb). auto. Qed.

Lemma subtract_swap_fee_u256 a f c :
  u256 a -> u256 f -> subtract_swap_fee_amount a f = Ok c -> u256 c.
Proof.
  intros Ha Hf H. unfold subtract_swap_fee_amount in H. rust_inv.
  eapply (Bfp_sub_u256 a); [done| |done]. by eapply (Bfp_mul_up_u256 a f).
Qed.

Lemma complement_u256 f : u256 f -> u256 (Bfp_complement f).
Proof.
  intros Hf. rewrite Bfp_complement_spec by done. pose proof ONE_18_pos.
  assert (ONE_18 < 2 ^ 256) by reflexivity. unfold u256 in *. lia.
Qed.

Lemma add_swap_fee_u256 a f c : u256 a -> u256 f -> add_swap_fee_amount a f = Ok c -> u256 c.
Proof.
  intros Ha Hf. apply WeightedMath.div_up_u256; [done|by apply complement_u256].
Qed.

Lemma upscale_u256 s a c : ts_wf s -> u256 a -> upscale s a = Ok c -> u256 c.
Proof. intros [_ Hs] Ha. by apply Bfp_mul_down_u256. Qed.
Lemma upscaled_balance_u256 s c : ts_wf s -> upscaled_balance s = Ok c -> u256 c.
Proof. intros Hs. apply upscale_u256; [done|apply Hs]. Qed.
Lemma downscale_up_u256 s a c : ts_wf s -> u256 a -> downscale_up s a = Ok c -> u256 c.
Proof. intros [_ Hs] Ha. by apply WeightedMath.div_up_u256. Qed.
Lemma downscale_down_u256 s a c : ts_wf s -> u256 a -> downscale_down s a = Ok c -> u256 c.
Proof. intros [_ Hs] Ha. by apply WeightedMath.div_down_u256. Qed.

(** Charging the swap fee on top of an amount and subtracting it
    again leaves at least the amount: an input quoted with
    [add_swap_fee_amount] covers what the pool needs after it took its fee. *)
Theorem swap_fee_round_trip a f x r :
  u256 a -> u256 f -> f <= ONE_18 ->
  add_swap_fee_amount a f = Ok x -> subtract_swap_fee_amount x f = Ok r -> a <= r <= x.
Proof.
  intros Ha Hf Hle Hadd Hsub. pose proof ONE_18_pos as H18.
  pose proof (add_swap_fee_u256 _ _ _ Ha Hf Hadd) as Hx.
  unfold add_swap_fee_amount in Hadd. unfold subtract_swap_fee_amount in Hsub. rust_inv.
  match goal with K : Bfp_mul_up _ _ = Ok ?y |- _ =>
    rename y into fee; apply Bfp_mul_up_Ok in K as [-> _]; [|done..] end.
  apply Bfp_sub_Ok in Hsub as [-> Hsub].
  apply Bfp_div_up_Ok in Hadd as (Hc & -> & _); [|done|by apply complement_u256].
  rewrite Bfp_complement_spec in * by done. rewrite Z.max_r in * by lia.
  unfold u256 in *.
  pose proof (div_ceil_spec (a * ONE_18) (ONE_18 - f) ltac:(lia)).
  set (x := div_ceil (a * ONE_18) (ONE_18 - f)) in *.
  assert (div_ceil (x * f) ONE_18 <= x - a) by (apply div_ceil_le; nia).
  pose proof (div_ceil_nonneg (x * f) ONE_18). nia.
Qed.

Lemma swap_fee_round_trip_witness :
  add_swap_fee_amount 1000 (3 * 10 ^ 15) = Ok 1004 /\
  subtract_swap_fee_amount 1004 (3 * 10 ^ 15) = Ok 1000 /\ 1000 <= 1000 <= 1004.
Proof.
  split; [vm_compute; reflexivity|]. split; [vm_compute; reflexivity|].
  apply (swap_fee_round_trip 1000 (3 * 10 ^ 15) 1004 1000);
    [unfold u256; lia|unfold u256; lia|unfold ONE_18; lia|vm_compute; reflexivity..].
Defined.

(** ** The pools satisfy the interface of the path finder *)
Lemma returns_obind {A B} (c : comp (option A)) (k : A -> comp (option B))
  (P : A -> Prop) (Q : B -> Prop) :
  returns c (fun o => forall a, o = Some a -> P a) ->
  (forall a, P a -> returns (k a) (fun o => forall b, o = Some b -> Q b)) ->
  returns (let!? x := c in k x) (fun o => forall b, o = Some b -> Q b).
Proof. destruct c as [[a|]|]; simpl; intros Hc Hk; [|done|done]. apply Hk. by apply Hc. Qed.

Lemma okq_returns {A} (r : result Error A) (P : A -> Prop) :
  (forall a, r = Ok a -> P a) -> returns (okq r) (fun o => forall a, o = Some a -> P a).
Proof. destruct r; simpl; naive_solver. Qed.

Lemma comp_ok_returns {A} (c : comp (result Error A)) (P : A -> Prop) :
  returns c (fun r => forall a, r = Ok a -> P a) ->
  returns (comp_ok c) (fun o => forall a, o = Some a -> P a).
Proof. destruct c as [[a|]|]; simpl; naive_solver. Qed.

Lemma weighted_out_returns p b x a :
  weighted_wf p -> u256 x ->
  returns (weighted_get_amount_out_inner p b x a) (fun o => forall v, o = Some v -> u256 v).
Proof.
  intros [Hfee Hres] Hx. unfold weighted_get_amount_out_inner.
  apply (returns_obind _ _ wts_wf); [intros s Hs; exact (bt_get_Forall _ _ _ _ Hres Hs)|].
  intros s [Hs Hw]. apply (returns_obind _ _ wts_wf); [intros t Ht; exact (bt_get_Forall _ _ _ _ Hres Ht)|].
  intros t [Ht Hw'].
  apply (returns_obind _ _ u256); [apply okq_returns; intros v; by apply subtract_swap_fee_u256|].
  intros y Hy.
  apply (returns_obind _ _ u256); [apply okq_returns; intros v; by apply upscaled_balance_u256|].
  intros bi Hbi.
  apply (returns_obind _ _ u256); [apply okq_returns; intros v; by apply upscaled_balance_u256|].
  intros bo Hbo.
  apply (returns_obind _ _ u256); [apply okq_returns; intros v; by apply upscale_u256|].
  intros am Ham. apply (returns_obind _ _ u256).
  - apply comp_ok_returns. eapply returns_mono; [|intros r H v Hv; eapply u256_le; [exact Hbo|exact (H v Hv)]].
    destruct (wp_version p).
    + by apply (WeightedMath.out_formula_returns Bfp_pow_up Bfp_pow_up_returns).
    + by apply (WeightedMath.out_formula_returns Bfp_pow_up_v3 Bfp_pow_up_v3_returns).
  - intros v Hv. apply okq_returns. intros w. by apply downscale_down_u256.
Qed.

Lemma weighted_in_returns p a y b :
  weighted_wf p -> u256 y ->
  returns (weighted_get_amount_in p a (y, b)) (fun o => forall v, o = Some v ->
    u256 v /\ exists w, weighted_get_amount_out p b (v, a) = Ret (Some w) /\ y <= w).
Proof.
  intros Hwf Hy. pose proof Hwf as [Hfee Hres]. unfold weighted_get_amount_in. cbn [fst snd].
  apply (returns_obind _ _ wts_wf); [intros s Hs; exact (bt_get_Forall _ _ _ _ Hres Hs)|].
  intros s [Hs Hw]. apply (returns_obind _ _ wts_wf); [intros t Ht; exact (bt_get_Forall _ _ _ _ Hres Ht)|].
  intros t [Ht Hw'].
  apply (returns_obind _ _ u256); [apply okq_returns; intros v; by apply upscaled_balance_u256|].
  intros bi Hbi.
  apply (returns_obind _ _ u256); [apply okq_returns; intros v; by apply upscaled_balance_u256|].
  intros bo Hbo.
  apply (returns_obind _ _ u256); [apply okq_returns; intros v; by apply upscale_u256|].
  intros am Ham. apply (returns_obind _ _ u256).
  { apply comp_ok_returns. destruct (wp_version p).
    - by apply (WeightedMath.in_formula_returns Bfp_pow_up Bfp_pow_up_returns).
    - by apply (WeightedMath.in_formula_returns Bfp_pow_up_v3 Bfp_pow_up_v3_returns). }
  intros v Hv.
  apply (returns_obind _ _ u256); [apply okq_returns; intros ?; by apply downscale_up_u256|].
  intros w Hw2.
  apply (returns_obind _ _ u256); [apply okq_returns; intros ?; by apply add_swap_fee_u256|].
  intros i Hi.
  destruct (converge_in_amount i y _) as [o|] eqn:E.
  - intros r ->. apply converge_in_amount_Some in E as (q & Hq & ? & ?); [|done].
    unfold u256, U256_MAX in *. split; [lia|]. by exists q.
  - exfalso. revert E. apply converge_in_amount_safe; [|done].
    intros z Hz. eapply returns_safe, weighted_out_returns; done.
Qed.

Definition weighted_trades (p : WeightedPool) (pr : Z * Z) : Prop := weighted_wf p.

#[export] Instance weighted_solvable_safe : SolvableSafe WeightedPool weighted_trades.
Proof.
  split; intros p pr a b x; [|intros v| |intros v]; intros Hwf _ Hx; simpl.
  - eapply returns_safe, weighted_out_returns; done.
  - intros H. pose proof (weighted_out_returns p b x a Hwf Hx) as Hr.
    unfold weighted_get_amount_out in H. simpl in H. rewrite H in Hr. by apply Hr.
  - eapply returns_safe, weighted_in_returns; done.
  - intros H. pose proof (weighted_in_returns p a x b Hwf Hx) as Hr.
    rewrite H in Hr. by apply Hr.
Qed.

Lemma upscale_loop_u256 a b i rs acc r :
  Forall (fun r => ts_wf r.2) rs -> Forall u256 (bwi_balances acc) ->
  upscale_loop a b i rs acc = Ok r -> Forall u256 (bwi_balances r).
Proof.
  intros Hrs. revert i acc; induction Hrs as [|[t s] rs Hs Hrs IH]; intros i acc Hacc H;
    cbn [upscale_loop] in H; [by simplify_eq|].
  apply result_bind_Ok in H as (v & Hv & H). eapply IH; [|exact H].
  apply Forall_app; split; [done|]. constructor; [|constructor]. by eapply upscaled_balance_u256.
Qed.

Lemma with_base_returns amp :
  u256 (amp_factor amp) -> 0 < amp_precision amp ->
  returns (with_base amp StableMath.AMP_PRECISION) (fun o => forall v, o = Some v -> u256 v).
Proof.
  intros Hf Hp. unfold with_base. destruct (checked_mul _ _) as [m|] eqn:E; simpl; [|done].
  apply checked_mul_Some in E as [-> ?]. unfold div_u256.
  rewrite (proj2 (Z.eqb_neq _ 0)) by lia. simpl. intros v [= <-].
  apply u256_div; [|done]. unfold u256, U256_MAX, StableMath.AMP_PRECISION in *. lia.
Qed.

Lemma stable_balances_returns p a b :
  stable_wf p ->
  returns (okq (upscale_balances_with_token_indices p a b))
    (fun o => forall r, o = Some r -> Forall u256 (bwi_balances r)).
Proof.
  intros (_ & Hres & _). apply okq_returns. intros r Hr.
  eapply upscale_loop_u256; [| |exact Hr]; [|constructor].
  apply Forall_forall. intros x Hx. rewrite Forall_forall in Hres. apply Hres.
  by apply list_elem_of_filter in Hx as [_ Hx].
Qed.

Lemma stable_out_returns p b x a :
  stable_wf p -> u256 x ->
  returns (stable_get_amount_out_inner p b x a) (fun o => forall v, o = Some v -> u256 v).
Proof.
  intros Hwf Hx. pose proof Hwf as (Hfee & Hres & Hamp & Hprec).
  unfold stable_get_amount_out_inner. destruct (_ || _); [done|].
  unfold regular_swap_given_in. cbn [fst snd].
  apply (returns_obind _ _ ts_wf); [intros s Hs; exact (bt_get_Forall _ _ _ _ Hres Hs)|].
  intros s Hs. apply (returns_obind _ _ ts_wf); [intros t Ht; exact (bt_get_Forall _ _ _ _ Hres Ht)|].
  intros t Ht.
  apply (returns_obind _ _ (fun r => Forall u256 (bwi_balances r))); [by apply stable_balances_returns|].
  intros bs Hbs.
  apply (returns_obind _ _ u256); [apply okq_returns; intros v; by apply subtract_swap_fee_u256|].
  intros y Hy. apply (returns_obind _ _ u256); [by apply with_base_returns|]. intros amp Hamp2.
  apply (returns_obind _ _ u256); [apply okq_returns; intros v; by apply upscale_u256|].
  intros am Ham.
  eapply returns_bind; [by apply StableMath.calc_out_returns|].
  intros [r bs'] Hr. cbn [fst snd] in Hr. apply (returns_obind _ _ u256).
  - apply okq_returns. intros v Hv. destruct (Hr v Hv) as (_ & bal & Hl & ?).
    eapply (u256_le v bal); [|lia]. by eapply (Forall_lookup_1 u256).
  - intros v Hv. apply okq_returns. intros w. by apply downscale_down_u256.
Qed.

Lemma stable_in_returns p a y b :
  stable_wf p -> u256 y ->
  returns (stable_get_amount_in p a (y, b)) (fun o => forall v, o = Some v ->
    u256 v /\ exists w, stable_get_amount_out p b (v, a) = Ret (Some w) /\ y <= w).
Proof.
  intros Hwf Hy. pose proof Hwf as (Hfee & Hres & Hamp & Hprec).
  unfold stable_get_amount_in. cbn [fst snd]. destruct (_ || _); [done|].
  apply (returns_obind _ _ u256).
  - unfold regular_swap_given_out. cbn [fst snd].
    apply (returns_obind _ _ ts_wf); [intros s Hs; exact (bt_get_Forall _ _ _ _ Hres Hs)|].
    intros s Hs. apply (returns_obind _ _ ts_wf); [intros t Ht; exact (bt_get_Forall _ _ _ _ Hres Ht)|].
    intros t Ht.
    apply (returns_obind _ _ (fun r => Forall u256 (bwi_balances r))); [by apply stable_balances_returns|].
    intros bs Hbs. apply (returns_obind _ _ u256); [by apply with_base_returns|]. intros amp Hamp2.
    apply (returns_obind _ _ u256); [apply okq_returns; intros v; by apply upscale_u256|].
    intros am Ham. eapply returns_bind; [by apply StableMath.calc_in_returns|].
    intros [r bs'] Hr. cbn [fst snd] in Hr. apply (returns_obind _ _ u256).
    + apply okq_returns. intros v Hv. destruct (Hr v Hv) as [_ ?]. unfold u256, U256_MAX in *. lia.
    + intros v Hv.
      apply (returns_obind _ _ u256); [apply okq_returns; intros ?; by apply downscale_up_u256|].
      intros w Hw. apply okq_returns. intros ?. by apply add_swap_fee_u256.
  - intros i Hi. destruct (converge_in_amount i y _) as [o|] eqn:E.
    + intros r ->. apply converge_in_amount_Some in E as (q & Hq & ? & ?); [|done].
      unfold u256, U256_MAX in *. split; [lia|]. by exists q.
    + exfalso. revert E. apply converge_in_amount_safe; [|done].
      intros z Hz. eapply returns_safe, stable_out_returns; done.
Qed.

Definition stable_trades (p : StablePool) (pr : Z * Z) : Prop := stable_wf p.

#[export] Instance stable_solvable_safe : SolvableSafe StablePool stable_trades.
Proof.
  split; intros p pr a b x; [|intros v| |intros v]; intros Hwf _ Hx; simpl.
  - eapply returns_safe, stable_out_returns; done.
  - intros H. pose proof (stable_out_returns p b x a Hwf Hx) as Hr.
    unfold stable_get_amount_out in H. simpl in H. rewrite H in Hr. by apply Hr.
  - eapply returns_safe, stable_in_returns; done.
  - intros H. pose proof (stable_in_returns p a x b Hwf Hx) as Hr.
    rewrite H in Hr. by apply Hr.
Qed.

(** Balancer pools are "unstable" when quoted backwards, and the
    source compensates for it.  Whenever a weighted or a stable pool returns an
    input for a requested output, selling that input to the pool in the same state
    succeeds and yields at least the requested output; and neither quote panics. *)
Theorem balancer_quote_round_trip wp sp a b y :
  weighted_wf wp -> stable_wf sp -> u256 y ->
  (exists r, weighted_get_amount_in wp a (y, b) = Ret r /\
     forall i, r = Some i -> exists v, weighted_get_amount_out wp b (i, a) = Ret (Some v) /\ y <= v) /\
  (exists r, stable_get_amount_in sp a (y, b) = Ret r /\
     forall i, r = Some i -> exists v, stable_get_amount_out sp b (i, a) = Ret (Some v) /\ y <= v).
Proof.
  intros Hw Hs Hy. split.
  - destruct (returns_inv _ _ (weighted_in_returns wp a y b Hw Hy)) as (r & Hr & H).
    exists r. split; [done|]. intros i Hi. by apply H.
  - destruct (returns_inv _ _ (stable_in_returns sp a y b Hs Hy)) as (r & Hr & H).
    exists r. split; [done|]. intros i Hi. by apply H.
Qed.

Definition example_weighted : WeightedPool := mkWeightedPool 0 (10 ^ 15)
  [(21, mkWeightedTokenState (mkTokenState 60000000000000000 (10 ^ 18)) (5 * 10 ^ 17));
   (42, mkWeightedTokenState (mkTokenState 250000000 (10 ^ 30)) (5 * 10 ^ 17))] V0.
Definition example_stable : StablePool := mkStablePool 0 (3 * 10 ^ 14)
  [(21, mkTokenState (10 ^ 24) (10 ^ 18)); (42, mkTokenState (10 ^ 12) (10 ^ 30))] (mkAmp 570000 1000).

Lemma balancer_quote_round_trip_witness :
  (exists v, weighted_get_amount_out example_weighted 42 (1225715511430411, 21) = Ret (Some v) /\ 5000000 <= v) /\
  (exists i v, stable_get_amount_in example_stable 21 (5000000, 42) = Ret (Some i) /\
     stable_get_amount_out example_stable 42 (i, 21) = Ret (Some v) /\ 5000000 <= v).
Proof.
  destruct (balancer_quote_round_trip example_weighted example_stable 21 42 5000000)
    as [(r & Hr & H) (r' & Hr' & H')].
  - unfold weighted_wf, example_weighted, wts_wf, ts_wf, u256; simpl.
    split; [lia|]. repeat constructor; simpl; lia.
  - unfold stable_wf, example_stable, ts_wf, u256; simpl.
    split_and!; [lia..| |lia|lia|lia]; repeat constructor; simpl; lia.
  - unfold u256; lia.
  - split.
    + apply H. rewrite <- (f_equal (fun c => match c with Ret x => x | Panic => None end) Hr).
      vm_compute. reflexivity.
    + assert (exists i, r' = Some i) as [i Hi].
      { rewrite <- (f_equal (fun c => match c with Ret x => x | Panic => None end) Hr').
        eexists. vm_compute. reflexivity. }
      subst r'. destruct (H' i eq_refl) as (v & ? & ?). exists i, v. auto.
Defined.

(** ** Domain pools convert to well-formed boundary pools *)
Definition rat_wf (r : Z * Z) : Prop := u256 r.1 /\ 0 < r.2.

Definition weighted_domain_wf (p : WeightedDomainPool) : Prop :=
  rat_wf (wdp_fee p) /\
  StronglySorted Z.lt (map (fun r => asset_token (wr_asset r)) (wdp_reserves p)) /\
  Forall (fun r => u256 (asset_amount (wr_asset r)) /\ rat_wf (wr_weight r) /\ rat_wf (wr_scale r))
    (wdp_reserves p).

Definition stable_domain_wf (p : StableDomainPool) : Prop :=
  rat_wf (sdp_fee p) /\ rat_wf (sdp_amplification_parameter p) /\
  StronglySorted Z.lt (map (fun r => asset_token (sr_asset r)) (sdp_reserves p)) /\
  Forall (fun r => u256 (asset_amount (sr_asset r)) /\ rat_wf (sr_scale r)) (sdp_reserves p).

Lemma has_duplicates_false l :
  StronglySorted (fun x y => Z.compare x y <> Gt) l -> has_duplicates l = false ->
  StronglySorted Z.lt l.
Proof.
  induction 1 as [|x l Hl IH Hx]; intros Hd; [constructor|].
  destruct l as [|y l]; [repeat constructor|].
  apply orb_false_iff in Hd as [Hne Hd]. zify_bool. specialize (IH Hd).
  constructor; [done|]. rewrite Forall_cons in Hx. destruct Hx as [Hxy Hx].
  rewrite Z.compare_le_iff in Hxy. constructor; [lia|].
  apply StronglySorted_inv in IH as [_ IH].
  eapply Forall_impl; [exact IH|]. intros z. cbn beta. lia.
Qed.

Lemma sort_on_key_sorted {A} (key : A -> Z) l :
  StronglySorted (fun x y => Z.compare x y <> Gt) (map key (sort_by (cmp_on key Z.compare) l)).
Proof.
  pose proof (sort_by_sorted (cmp_on key Z.compare) l) as H.
  induction H as [|x k Hk IH Hx]; simpl; constructor; [done|].
  by apply Forall_fmap.
Qed.

(** [Reserves::new] accepts exactly the reserves without a repeated token, and
    orders them by token. *)
Lemma WeightedReserves_new_Some rs rs' :
  WeightedReserves_new rs = Some rs' ->
  rs' ≡ₚ rs /\ StronglySorted Z.lt (map (fun r => asset_token (wr_asset r)) rs').
Proof.
  unfold WeightedReserves_new. destruct (has_duplicates _) eqn:Hd; [done|]. intros [= <-].
  split; [apply sort_by_perm|]. apply has_duplicates_false; [apply sort_on_key_sorted|done].
Qed.

Lemma StableReserves_new_Some rs rs' :
  StableReserves_new rs = Some rs' ->
  rs' ≡ₚ rs /\ StronglySorted Z.lt (map (fun r => asset_token (sr_asset r)) rs').
Proof.
  unfold StableReserves_new. destruct (has_duplicates _) eqn:Hd; [done|]. intros [= <-].
  split; [apply sort_by_perm|]. apply has_duplicates_false; [apply sort_on_key_sorted|done].
Qed.

Lemma tuple_combinations_sorted l a b :
  StronglySorted Z.lt l -> (a, b) ∈ tuple_combinations l <-> a ∈ l /\ b ∈ l /\ a < b.
Proof.
  induction 1 as [|x l Hl IH Hx]; simpl; [set_solver|].
  rewrite Forall_forall in Hx. rewrite elem_of_app, IH, !elem_of_cons. rewrite list_elem_of_fmap. split.
  - intros [(y & [= -> ->] & Hy)|(?&?&?)]; [|auto]. specialize (Hx y Hy). auto.
  - intros ([->|Ha] & [->|Hb] & Hlt); [lia| | |auto].
    + left. eauto.
    + specialize (Hx a Ha). lia.
Qed.

(** The pairs of a pool are all ordered pairs of its tokens. *)
Lemma token_pairs_of_returns tokens :
  StronglySorted Z.lt tokens ->
  returns (token_pairs_of tokens) (fun ps =>
    forall a b, (a, b) ∈ ps <-> a ∈ tokens /\ b ∈ tokens /\ a < b).
Proof.
  intros Hs. unfold token_pairs_of.
  eapply returns_mono; [apply (comp_map_returns _ (fun ab p => p = ab))|].
  - intros [a b] Hab. apply tuple_combinations_sorted in Hab as (_ & _ & ?); [|done].
    pose proof (TokenPair_new_ordered (a, b)) as E. simpl in *. by rewrite E.
  - intros ps Hps a b. rewrite <- tuple_combinations_sorted by done.
    assert (ps = tuple_combinations tokens) as ->; [|done].
    by induction Hps; simplify_eq.
Qed.

Lemma to_fixed_point_returns r :
  rat_wf r -> returns (to_fixed_point r) (fun o => forall v, o = Some v -> u256 v).
Proof.
  intros [H1 H2]. unfold to_fixed_point. destruct (checked_mul _ _) as [m|] eqn:E; simpl; [|done].
  apply checked_mul_Some in E as [-> ?]. unfold div_u256.
  rewrite (proj2 (Z.eqb_neq _ 0)) by lia. simpl. intros v [= <-].
  apply u256_div; [|done]. unfold u256, U256_MAX in *. lia.
Qed.

Lemma bt_insert_Forall {V} (P : Z * V -> Prop) k v m :
  P (k, v) -> Forall P m -> Forall P (bt_insert k v m).
Proof.
  intros Hp. induction 1 as [|[j w] m Hj Hm IH]; simpl; [by repeat constructor|].
  destruct (Z.compare k j); repeat constructor; done.
Qed.

Lemma bt_collect_Forall {V} (P : Z * V -> Prop) l : Forall P l -> Forall P (bt_collect l).
Proof.
  unfold bt_collect. assert (Forall P []) as H0 by constructor. revert H0.
  generalize (@nil (Z * V)). intros acc Hacc Hl.
  revert acc Hacc; induction Hl as [|[k v] l Hk Hl IH]; intros acc Hacc; simpl; [done|].
  apply IH. by apply bt_insert_Forall.
Qed.

Lemma comp_omap_returns {A B} (f : A -> comp (option B)) (P : A -> Prop) (Q : B -> Prop) l :
  (forall x, P x -> returns (f x) (fun o => forall y, o = Some y -> Q y)) -> Forall P l ->
  returns (comp_omap f l) (fun o => forall k, o = Some k -> Forall Q k).
Proof.
  intros Hf. induction 1 as [|x l Hx Hl IH]; simpl; [by intros k [= <-]|].
  apply (returns_obind _ _ Q); [by apply Hf|]. intros y Hy.
  apply (returns_obind _ _ (Forall Q)); [done|]. intros k Hk b [= <-]. by constructor.
Qed.

Lemma weighted_to_boundary_returns addr p :
  weighted_domain_wf p ->
  returns (weighted_to_boundary_pool addr p) (fun o => forall q, o = Some q ->
    weighted_wf q /\ wp_address q = addr).
Proof.
  intros (Hf & _ & Hr). unfold weighted_to_boundary_pool.
  apply (returns_obind _ _ u256); [by apply to_fixed_point_returns|]. intros fee Hfee.
  eapply (returns_obind _ _ (Forall (fun r => wts_wf r.2))).
  - eapply comp_omap_returns; [|exact Hr]. cbn beta. intros r (Ha & Hw & Hs).
    apply (returns_obind _ _ u256); [by apply to_fixed_point_returns|]. intros s Hs'.
    apply (returns_obind _ _ u256); [by apply to_fixed_point_returns|]. intros w Hw'.
    by intros y [= <-].
  - intros rs Hrs q [= <-]. split; [|done]. split; [done|]. by apply bt_collect_Forall.
Qed.

Lemma stable_to_boundary_returns addr p :
  stable_domain_wf p ->
  returns (stable_to_boundary_pool addr p) (fun o => forall q, o = Some q ->
    stable_wf q /\ sp_address q = addr).
Proof.
  intros (Hf & Hamp & _ & Hr). unfold stable_to_boundary_pool.
  apply (returns_obind _ _ u256); [by apply to_fixed_point_returns|]. intros fee Hfee.
  eapply (returns_obind _ _ (Forall (fun r => ts_wf r.2))).
  - eapply comp_omap_returns; [|exact Hr]. cbn beta. intros r (Ha & Hs).
    apply (returns_obind _ _ u256); [by apply to_fixed_point_returns|]. intros s Hs'.
    by intros y [= <-].
  - intros rs Hrs. destruct Hamp as [Ha1 Ha2]. unfold AmplificationParameter_try_new.
    rewrite (proj2 (Z.eqb_neq _ 0)) by lia. simpl. intros q [= <-].
    split; [|done]. split_and!; [done|by apply bt_collect_Forall|done|done].
Qed.
