(* ===== verification/BaselineSolver.v ===== *)
(** * BaselineSolver: path finding over liquidity

    [crates/shared/src/baseline_solver.rs]: the enumeration of candidate paths
    through base tokens, and the greedy estimation of a path's output and input
    amounts over any liquidity that implements the [BaselineSolvable] trait.

    The source collects candidates in a [HashSet]; here they are the list of
    insertions, which is shown to be free of repetitions, and clients iterate
    over an arbitrary permutation of it. *)

From stdpp Require Import base gmap sets list strings sorting.
From Stdlib Require Import ZArith Lia Permutation.
From S2P Require Import Prelude Collections Eth Solvable.

Open Scope Z_scope.

Definition DEFAULT_MAX_HOPS : nat := 2.

(** ** Estimates *)
Record Estimate (L : Type) := mkEstimate { est_value : Z; est_path : list L }.
Arguments mkEstimate {L}.
Arguments est_value {L}.
Arguments est_path {L}.

Section estimate.
Context {L : Type} `{!BaselineSolvable L}.

(** [Estimate::gas_cost]. *)
Definition Estimate_gas_cost (e : Estimate L) : Z :=
  50000 + foldr Z.add 0 (map gas_cost (est_path e)).

(** The quotes of all pools of a hop, in order, without the failed ones. *)
Definition hop_outputs (pools : list L) (quote : L -> comp (option Z)) : comp (list (L * Z)) :=
  let! outputs := comp_map (fun l => let! o := quote l in Ret (option_map (pair l) o)) pools in
  Ret (omap id outputs).

Fixpoint estimate_buy_loop (path : list address) (liquidity : gmap (Z * Z) (list L))
  (amount : Z) (previous_token : address) (acc : list L) : comp (option (Estimate L)) :=
  match path with
  | [] => Ret (Some (mkEstimate amount acc))
  | current :: path =>
      let!? token_pair := Ret (TokenPair_new current previous_token) in
      let!? pools := Ret (liquidity !! token_pair) in
      let! outputs := hop_outputs pools (fun l => get_amount_out l current (amount, previous_token)) in
      let!? (best_liquidity, amount) := Ret (max_by_key snd outputs) in
      estimate_buy_loop path liquidity amount current (acc ++ [best_liquidity])
  end.

Definition estimate_buy_amount (sell_amount : Z) (path : list address)
  (liquidity : gmap (Z * Z) (list L)) : comp (option (Estimate L)) :=
  match path with
  | [] => Ret None
  | sell_token :: rest => estimate_buy_loop rest liquidity sell_amount sell_token []
  end.

Fixpoint estimate_sell_loop (path : list address) (liquidity : gmap (Z * Z) (list L))
  (amount : Z) (previous_token : address) (acc : list L) : comp (option (Z * list L)) :=
  match path with
  | [] => Ret (Some (amount, acc))
  | current :: path =>
      let!? token_pair := Ret (TokenPair_new current previous_token) in
      let!? pools := Ret (liquidity !! token_pair) in
      let! outputs := hop_outputs pools (fun l => get_amount_in l current (amount, previous_token)) in
      let!? (best_liquidity, amount) := Ret (min_by_key snd outputs) in
      estimate_sell_loop path liquidity amount current (acc ++ [best_liquidity])
  end.

Definition estimate_sell_amount (buy_amount : Z) (path : list address)
  (liquidity : gmap (Z * Z) (list L)) : comp (option (Estimate L)) :=
  match reverse path with
  | [] => Ret None
  | buy_token :: rest =>
      let!? (sell_amount, path) := estimate_sell_loop rest liquidity buy_amount buy_token [] in
      Ret (Some (mkEstimate sell_amount (reverse path)))
  end.
End estimate.

(** ** Base tokens and path candidates *)

(** The rounds of [path_candidates]: every prefix contributes the candidate that
    ends in the buy token, and is extended by each base token not on it. *)
Definition extend_prefix (base_tokens : list address) (buy_token : address)
  (path_prefix : list address) : list (list address) :=
  map (fun base_token => path_prefix ++ [base_token])
    (filter (fun base_token => base_token <> buy_token /\ base_token ∉ path_prefix) base_tokens).

Fixpoint candidate_rounds (rounds : nat) (base_tokens : list address) (buy_token : address)
  (path_prefixes : list (list address)) : list (list address) :=
  match rounds with
  | O => []
  | S rounds =>
      map (fun path_prefix => path_prefix ++ [buy_token]) path_prefixes ++
      candidate_rounds rounds base_tokens buy_token
        (flat_map (extend_prefix base_tokens buy_token) path_prefixes)
  end.

Definition path_candidates (sell_token buy_token : address) (base_tokens : list address)
  (max_hops : nat) : list (list address) :=
  if sell_token =? buy_token then []
  else candidate_rounds (S max_hops) base_tokens buy_token [[sell_token]].

(** [base_token_pairs]: for each index, the pairs with the tokens from that
    index on. *)
Fixpoint base_token_pairs (base_tokens : list address) : list (Z * Z) :=
  match base_tokens with
  | [] => []
  | token :: rest =>
      omap (fun token_ => TokenPair_new token token_) (token :: rest) ++ base_token_pairs rest
  end.

(** [BaseTokens]; both fields are hash sets. *)
Record BaseTokens := mkBaseTokens { bt_tokens : list address; bt_pairs : gset (Z * Z) }.

Definition BaseTokens_new (native_token : address) (base_tokens : list address) : BaseTokens :=
  let tokens := dedup (sort_by Z.compare (base_tokens ++ [native_token])) in
  mkBaseTokens tokens (list_to_set (base_token_pairs tokens)).

Definition relevant_pairs (b : BaseTokens) (pairs : list (Z * Z)) : gset (Z * Z) :=
  let result : gset (Z * Z) :=
    foldl (fun result pair =>
      let with_token (r : gset (Z * Z)) (token : address) :=
        r ∪ list_to_set (omap (fun base_token => TokenPair_new base_token token) (bt_tokens b)) in
      with_token (with_token (result ∪ {[pair]}) pair.1) pair.2) ∅ pairs in
  if decide (result = ∅) then result else result ∪ bt_pairs b.

Definition path_candidates_with_hops (b : BaseTokens) (sell_token buy_token : address)
  (max_hops : nat) : list (list address) :=
  path_candidates sell_token buy_token (bt_tokens b) max_hops.

(** [BaseTokens::path_candidates]. *)
Definition BaseTokens_path_candidates (b : BaseTokens) (sell_token buy_token : address)
  : list (list address) :=
  path_candidates_with_hops b sell_token buy_token DEFAULT_MAX_HOPS.

(** ** Candidates: soundness, completeness, number *)
Section candidates.
Context (base : list address) (buy : address).

Lemma extend_prefix_elem q q' :
  q' ∈ extend_prefix base buy q <-> exists t, q' = q ++ [t] /\ t ∈ base /\ t <> buy /\ t ∉ q.
Proof.
  unfold extend_prefix. rewrite list_elem_of_fmap. setoid_rewrite list_elem_of_filter. naive_solver.
Qed.

Lemma candidate_rounds_elem n qs p :
  p ∈ candidate_rounds n base buy qs <->
  exists q mid, q ∈ qs /\ p = q ++ mid ++ [buy] /\ (length mid < n)%nat /\ NoDup mid /\
    (forall t, t ∈ mid -> t ∈ base /\ t <> buy /\ t ∉ q).
Proof.
  revert qs; induction n as [|n IH]; intros qs; simpl.
  { split; [set_solver|]. intros (q & mid & _ & _ & ? & _). lia. }
  rewrite elem_of_app, IH, list_elem_of_fmap. split.
  - intros [(q & -> & Hq)|(q' & mid & Hq' & -> & Hlen & Hnd & Hmid)].
    + exists q, []. simpl. split_and!; [done|done|lia|constructor|set_solver].
    + apply list_elem_of_In, in_flat_map in Hq' as (q & Hq & Hq').
      apply list_elem_of_In in Hq, Hq'. apply extend_prefix_elem in Hq' as (t & -> & Ht & Htb & Htq).
      exists q, (t :: mid). rewrite <- app_assoc. simpl. split_and!; [done|done|lia| |].
      * constructor; [|done]. intros Hin. destruct (Hmid t Hin) as (_ & _ & Hn). set_solver.
      * intros u [->|Hu]%elem_of_cons; [done|]. destruct (Hmid u Hu) as (? & ? & ?). set_solver.
  - intros (q & mid & Hq & -> & Hlen & Hnd & Hmid). destruct mid as [|t mid]; [left; eauto|right].
    apply NoDup_cons in Hnd as [Ht Hnd].
    destruct (Hmid t ltac:(set_solver)) as (Hbase & Hbuy & Htq).
    exists (q ++ [t]), mid. rewrite <- app_assoc. simpl in *. split_and!; [|done|lia|done|].
    + apply list_elem_of_In, in_flat_map. exists q. rewrite <- !list_elem_of_In.
      split; [done|]. apply extend_prefix_elem. eauto.
    + intros u Hu. destruct (Hmid u ltac:(set_solver)) as (? & ? & ?).
      split_and!; [done..|]. rewrite elem_of_app, list_elem_of_singleton. intros [?| ->]; done.
Qed.

Lemma extend_prefix_length q : (length (extend_prefix base buy q) <= length base)%nat.
Proof. unfold extend_prefix. rewrite length_fmap. apply length_filter. Qed.

Lemma flat_map_extend_length qs :
  (length (flat_map (extend_prefix base buy) qs) <= length qs * length base)%nat.
Proof.
  induction qs as [|q qs IH]; simpl; [lia|]. rewrite length_app.
  pose proof (extend_prefix_length q). lia.
Qed.

(** The geometric sum the configuration check computes. *)
Fixpoint geometric (n : nat) (b : Z) : Z :=
  match n with O => 0 | S n => b ^ Z.of_nat n + geometric n b end.

Lemma geometric_succ n b : 0 <= b -> geometric (S n) b = 1 + b * geometric n b.
Proof.
  intros Hb. induction n as [|n IH]; [simpl; lia|].
  change (geometric (S (S n)) b) with (b ^ Z.of_nat (S n) + geometric (S n) b).
  rewrite IH at 1. change (geometric (S n) b) with (b ^ Z.of_nat n + geometric n b).
  rewrite Nat2Z.inj_succ, Z.pow_succ_r by lia. lia.
Qed.

Lemma geometric_nonneg n b : 0 <= b -> 0 <= geometric n b.
Proof.
  intros Hb. induction n as [|n IH]; simpl; [lia|].
  pose proof (Z.pow_nonneg b (Z.of_nat n) Hb). lia.
Qed.

Lemma candidate_rounds_length n qs :
  Z.of_nat (length (candidate_rounds n base buy qs))
    <= Z.of_nat (length qs) * geometric n (Z.of_nat (length base)).
Proof.
  revert qs; induction n as [|n IH]; intros qs; [simpl; lia|].
  cbn [candidate_rounds]. rewrite length_app, length_fmap, geometric_succ by lia.
  specialize (IH (flat_map (extend_prefix base buy) qs)).
  pose proof (flat_map_extend_length qs).
  pose proof (geometric_nonneg n (Z.of_nat (length base)) ltac:(lia)). nia.
Qed.
End candidates.

Lemma path_candidates_elem sell buy base hops p :
  p ∈ path_candidates sell buy base hops <->
  sell <> buy /\ exists mid, p = sell :: mid ++ [buy] /\ (length mid <= hops)%nat /\
    NoDup (sell :: mid ++ [buy]) /\ (forall t, t ∈ mid -> t ∈ base).
Proof.
  unfold path_candidates. destruct (Z.eqb_spec sell buy) as [->|Hne].
  { split; [set_solver|]. intros [? _]. done. }
  rewrite candidate_rounds_elem. split.
  - intros (q & mid & ->%list_elem_of_singleton & -> & Hlen & Hnd & Hmid).
    split; [done|]. exists mid. simpl. split_and!; [done|lia| |naive_solver].
    constructor.
    + rewrite elem_of_app, list_elem_of_singleton. intros [Hin|?]; [|done].
      destruct (Hmid _ Hin) as (_ & _ & []). set_solver.
    + apply NoDup_app. split_and!; [done| |apply NoDup_singleton].
      intros t Ht ->%list_elem_of_singleton. by destruct (Hmid _ Ht) as (_ & [] & _).
  - intros (_ & mid & -> & Hlen & Hnd & Hmid).
    apply NoDup_cons in Hnd as [Hs Hnd]. apply NoDup_app in Hnd as (Hnd & Hd & _).
    exists [sell], mid. split_and!; [set_solver|done|lia|done|].
    intros t Ht. split_and!; [auto| |].
    + intros ->. apply (Hd buy Ht). set_solver.
    + intros ->%list_elem_of_singleton. set_solver.
Qed.

(** Insertion into the candidate set never meets an element already present. *)
Lemma extend_prefix_NoDup base buy q : NoDup base -> NoDup (extend_prefix base buy q).
Proof.
  intros Hb. apply NoDup_fmap_2; [|by apply NoDup_filter].
  intros t u Htu. by simplify_list_eq.
Qed.

Lemma flat_map_extend_NoDup base buy qs :
  NoDup base -> NoDup qs -> NoDup (flat_map (extend_prefix base buy) qs).
Proof.
  intros Hb. induction 1 as [|q qs Hq Hqs IH]; simpl; [constructor|].
  apply NoDup_app. split_and!; [by apply extend_prefix_NoDup| |done].
  intros p (t & -> & _)%extend_prefix_elem Hp.
  apply list_elem_of_In, in_flat_map in Hp as (q' & Hq' & Hp).
  apply list_elem_of_In in Hq', Hp. apply extend_prefix_elem in Hp as (t' & Heq & _).
  apply app_inj_2 in Heq as [-> _]; [done|done].
Qed.

Lemma candidate_rounds_NoDup base buy n k qs :
  NoDup base -> NoDup qs -> (forall q, q ∈ qs -> length q = k) ->
  NoDup (candidate_rounds n base buy qs).
Proof.
  intros Hb. revert k qs; induction n as [|n IH]; intros k qs Hqs Hk; simpl; [constructor|].
  apply NoDup_app. split_and!.
  - apply NoDup_fmap_2; [|done]. intros p q Hpq. by simplify_list_eq.
  - intros p (q & -> & Hq)%list_elem_of_fmap Hp.
    apply candidate_rounds_elem in Hp as (q' & mid & Hq' & Heq & _).
    apply list_elem_of_In, in_flat_map in Hq' as (q0 & Hq0 & Hq').
    apply list_elem_of_In in Hq0, Hq'. apply extend_prefix_elem in Hq' as (t & -> & _).
    apply (f_equal length) in Heq. rewrite !length_app in Heq. simpl in Heq.
    rewrite (Hk q Hq), (Hk q0 Hq0) in Heq. lia.
  - eapply (IH (S k)); [by apply flat_map_extend_NoDup|].
    intros q' Hq'. apply list_elem_of_In, in_flat_map in Hq' as (q & Hq & Hq').
    apply list_elem_of_In in Hq, Hq'. apply extend_prefix_elem in Hq' as (t & -> & _).
    rewrite length_app, (Hk q Hq). simpl. lia.
Qed.

Lemma path_candidates_NoDup sell buy base hops :
  NoDup base -> NoDup (path_candidates sell buy base hops).
Proof.
  intros Hb. unfold path_candidates. destruct (sell =? buy); [constructor|].
  apply (candidate_rounds_NoDup _ _ _ 1); [done|apply NoDup_singleton|].
  by intros q ->%list_elem_of_singleton.
Qed.

Lemma path_candidates_length sell buy base hops :
  Z.of_nat (length (path_candidates sell buy base hops))
    <= geometric (S hops) (Z.of_nat (length base)).
Proof.
  unfold path_candidates. destruct (sell =? buy).
  - apply geometric_nonneg. lia.
  - pose proof (candidate_rounds_length base buy (S hops) [[sell]]) as H.
    change (length [[sell]]) with 1%nat in H. lia.
Qed.

(** The base tokens of a solver are sorted, distinct, and contain the native
    token. *)
Lemma BaseTokens_new_tokens native base t :
  t ∈ bt_tokens (BaseTokens_new native base) <-> t = native \/ t ∈ base.
Proof.
  unfold BaseTokens_new. simpl. rewrite dedup_elem, sort_by_perm, elem_of_app, list_elem_of_singleton.
  tauto.
Qed.

Lemma BaseTokens_new_NoDup native base : NoDup (bt_tokens (BaseTokens_new native base)).
Proof.
  apply StronglySorted_lt_NoDup, dedup_sorted_NoDup. apply (sort_by_sorted Z.compare).
Qed.

Lemma dedup_length l : (length (dedup l) <= length l)%nat.
Proof.
  induction l as [|x l IH]; simpl; [lia|].
  destruct (dedup l) as [|y k]; simpl in *; [lia|]. destruct (x =? y); simpl; lia.
Qed.

Lemma BaseTokens_new_length native base :
  (length (bt_tokens (BaseTokens_new native base)) <= S (length base))%nat.
Proof.
  unfold BaseTokens_new. simpl. etrans; [apply dedup_length|].
  rewrite sort_by_perm, length_app. simpl. lia.
Qed.

(** The candidate paths are exactly the simple paths from the
    sell to the buy token through at most [max_hops] distinct base tokens, each
    enumerated once; equal sell and buy tokens have none. *)
Theorem path_candidates_exact native base sell buy hops :
  NoDup (path_candidates_with_hops (BaseTokens_new native base) sell buy hops) /\
  forall p, p ∈ path_candidates_with_hops (BaseTokens_new native base) sell buy hops <->
    sell <> buy /\ exists mid, p = sell :: mid ++ [buy] /\ (length mid <= hops)%nat /\
      NoDup (sell :: mid ++ [buy]) /\ (forall t, t ∈ mid -> t = native \/ t ∈ base).
Proof.
  split; [apply path_candidates_NoDup, BaseTokens_new_NoDup|].
  intros p. unfold path_candidates_with_hops. rewrite path_candidates_elem.
  setoid_rewrite BaseTokens_new_tokens. done.
Qed.

(** ** Estimates: what they compute *)
Section estimate_facts.
Context {L : Type} `{!BaselineSolvable L}.
Implicit Types (liq : gmap (Z * Z) (list L)) (path : list address).

(** Selling [x] along [path], through the given pools, one per hop. *)
Inductive run liq : list address -> Z -> list L -> Z -> Prop :=
| run_end t x : run liq [t] x [] x
| run_hop t t' path x l y ls v tp pools :
    TokenPair_new t' t = Some tp -> liq !! tp = Some pools -> l ∈ pools ->
    get_amount_out l t' (x, t) = Ret (Some y) ->
    run liq (t' :: path) y ls v -> run liq (t :: t' :: path) x (l :: ls) v.

(** Buying [y] at the end of [path]: the amounts are computed backwards. *)
Inductive run_in liq : list address -> Z -> list L -> Z -> Prop :=
| run_in_end t y : run_in liq [t] y [] y
| run_in_hop t t' path y l a ls b tp pools :
    TokenPair_new t t' = Some tp -> liq !! tp = Some pools -> l ∈ pools ->
    run_in liq (t' :: path) y ls a ->
    get_amount_in l t (a, t') = Ret (Some b) -> run_in liq (t :: t' :: path) y (l :: ls) b.

Lemma hop_outputs_elem (pools : list L) q outs (l : L) (y : Z) :
  hop_outputs pools q = Ret outs -> (l, y) ∈ outs <-> l ∈ pools /\ q l = Ret (Some y).
Proof.
  unfold hop_outputs. intros H. apply comp_bind_Ret in H as (os & Hos & [= <-]).
  apply comp_map_Ret in Hos.
  induction Hos as [|x o pools os Ho Hos IH]; simpl; [set_solver|].
  apply comp_bind_Ret in Ho as (r & Hr & [= <-]).
  destruct r as [z|]; simpl; rewrite ?elem_of_cons, IH; split.
  - intros [[= -> ->]|[? ?]]; auto.
  - intros [[->|?] ?]; [left; congruence|auto].
  - intros [? ?]; auto.
  - intros [[->|?] ?]; [congruence|auto].
Qed.

Lemma estimate_buy_loop_run liq path amount prev acc e :
  estimate_buy_loop path liq amount prev acc = Ret (Some e) ->
  exists ls, est_path e = acc ++ ls /\ run liq (prev :: path) amount ls (est_value e).
Proof.
  revert amount prev acc; induction path as [|t path IH]; intros amount prev acc H;
    cbn [estimate_buy_loop] in H.
  { simplify_eq. exists []. rewrite app_nil_r. split; [done|constructor]. }
  apply comp_obind_Some in H as (tp & Htp & H). injection Htp as Htp.
  apply comp_obind_Some in H as (pools & Hpools & H). injection Hpools as Hpools.
  apply comp_bind_Ret in H as (outs & Houts & H).
  apply comp_obind_Some in H as ([l y] & Hmax & H). injection Hmax as Hmax.
  apply IH in H as (ls & Hls & Hrun). exists (l :: ls). split; [by rewrite Hls, <- app_assoc|].
  apply max_by_key_Some in Hmax as [Hin _].
  apply (hop_outputs_elem _ _ _ _ _ Houts) in Hin as [? ?].
  by eapply run_hop.
Qed.

Lemma estimate_buy_run liq path x e :
  estimate_buy_amount x path liq = Ret (Some e) -> run liq path x (est_path e) (est_value e).
Proof.
  destruct path as [|t path]; [done|]. simpl.
  intros (ls & -> & H)%estimate_buy_loop_run. done.
Qed.

Lemma estimate_sell_loop_run liq rest amount prev acc r suffix y :
  estimate_sell_loop rest liq amount prev acc = Ret (Some r) ->
  run_in liq (prev :: suffix) y (reverse acc) amount ->
  run_in liq (reverse rest ++ prev :: suffix) y (reverse r.2) r.1.
Proof.
  revert amount prev acc suffix; induction rest as [|t rest IH]; intros amount prev acc suffix H Hrun;
    cbn [estimate_sell_loop] in H.
  { by simplify_eq. }
  apply comp_obind_Some in H as (tp & Htp & H). injection Htp as Htp.
  apply comp_obind_Some in H as (pools & Hpools & H). injection Hpools as Hpools.
  apply comp_bind_Ret in H as (outs & Houts & H).
  apply comp_obind_Some in H as ([l b] & Hmin & H). injection Hmin as Hmin.
  apply min_by_key_Some in Hmin as [Hin _].
  apply (hop_outputs_elem _ _ _ _ _ Houts) in Hin as [? ?].
  apply (IH _ _ _ (prev :: suffix)) in H; [|rewrite reverse_snoc; by eapply run_in_hop].
  by rewrite reverse_cons, <- app_assoc.
Qed.

Lemma estimate_sell_run liq path y e :
  estimate_sell_amount y path liq = Ret (Some e) -> run_in liq path y (est_path e) (est_value e).
Proof.
  unfold estimate_sell_amount. destruct (reverse path) as [|t rest] eqn:Hr; [done|].
  intros H. apply comp_obind_Some in H as ([x ls] & H & [= <-]). simpl.
  apply (estimate_sell_loop_run _ _ _ _ _ _ [] y) in H; [|constructor]. simpl in H.
  rewrite <- reverse_cons, <- Hr, reverse_involutive in H. done.
Qed.
End estimate_facts.

(** ** Estimates never panic on liquidity that keeps the interface's promises *)
Section estimate_safe.
Context {L : Type} `{!BaselineSolvable L} (trades : L -> Z * Z -> Prop) `{!SolvableSafe L trades}.

(** Every pool is registered under a pair it trades. *)
Definition liquidity_ok (liq : gmap (Z * Z) (list L)) : Prop :=
  forall tp pools l, liq !! tp = Some pools -> l ∈ pools -> trades l tp.

Lemma hop_outputs_safe pools (q : L -> comp (option Z)) :
  (forall l, l ∈ pools -> safe (q l)) -> safe (hop_outputs pools q).
Proof.
  intros Hq. unfold hop_outputs. apply safe_bind; [|intros; apply safe_Ret].
  eapply (returns_safe _ _), (comp_map_returns _ (fun _ _ => True)).
  intros l Hl. specialize (Hq l Hl). destruct (q l); [done|done].
Qed.

Lemma estimate_buy_loop_safe liq path amount prev acc :
  liquidity_ok liq -> u256 amount -> safe (estimate_buy_loop path liq amount prev acc).
Proof.
  intros Hliq. revert amount prev acc; induction path as [|t path IH]; intros amount prev acc Ha;
    cbn [estimate_buy_loop]; [apply safe_Ret|].
  apply safe_obind; [apply safe_Ret|]. intros tp [= Htp]. rewrite TokenPair_new_sym in Htp.
  apply safe_obind; [apply safe_Ret|]. intros pools [= Hpools].
  apply safe_bind.
  { apply hop_outputs_safe. intros l Hl. eapply (get_amount_out_safe (trades := trades)); eauto. }
  intros outs Houts. apply safe_obind; [apply safe_Ret|]. intros [l y] [= Hmax].
  apply max_by_key_Some in Hmax as [Hin _].
  apply (hop_outputs_elem _ _ _ _ _ Houts) in Hin as [Hl Hy].
  apply IH. eapply (get_amount_out_u256 (trades := trades)); eauto.
Qed.

Lemma estimate_buy_safe liq path x :
  liquidity_ok liq -> u256 x -> safe (estimate_buy_amount x path liq).
Proof. destruct path; [intros; apply safe_Ret|]. by apply estimate_buy_loop_safe. Qed.

Lemma run_u256 liq path x ls v : liquidity_ok liq -> u256 x -> run liq path x ls v -> u256 v.
Proof.
  intros Hliq Hx Hrun. induction Hrun as [|t t' path x l y ls v tp pools Htp Hps Hl Hy Hrun IH]; [done|].
  rewrite TokenPair_new_sym in Htp. apply IH.
  exact (get_amount_out_u256 (trades := trades) l tp t t' x y (Hliq _ _ _ Hps Hl) Htp Hx Hy).
Qed.

Lemma estimate_sell_loop_safe liq path amount prev acc :
  liquidity_ok liq -> u256 amount ->
  returns (estimate_sell_loop path liq amount prev acc)
    (fun o => forall r, o = Some r -> u256 r.1).
Proof.
  intros Hliq. revert amount prev acc; induction path as [|t path IH]; intros amount prev acc Ha;
    cbn [estimate_sell_loop]; [by intros r [= <-]|].
  destruct (TokenPair_new t prev) as [tp|] eqn:Htp; [|done]. cbn [comp_obind].
  destruct (liq !! tp) as [pools|] eqn:Hpools; [|done]. cbn [comp_obind].
  assert (safe (hop_outputs pools (fun l => get_amount_in l t (amount, prev)))) as Hsafe.
  { apply hop_outputs_safe. intros l Hl. eapply (get_amount_in_safe (trades := trades)); eauto. }
  destruct (hop_outputs pools _) as [outs|] eqn:Houts; [|done]. cbn [comp_bind].
  destruct (min_by_key snd outs) as [[l y]|] eqn:Hmin; [|done]. cbn [comp_obind].
  apply min_by_key_Some in Hmin as [Hin _].
  apply (hop_outputs_elem _ _ _ _ _ Houts) in Hin as [Hl Hy].
  apply IH. eapply (get_amount_in_u256 (trades := trades)); eauto.
Qed.

Lemma estimate_sell_returns liq path y :
  liquidity_ok liq -> u256 y ->
  returns (estimate_sell_amount y path liq) (fun o => forall e, o = Some e -> u256 (est_value e)).
Proof.
  intros Hliq Hy. unfold estimate_sell_amount. destruct (reverse path) as [|t rest]; [done|].
  pose proof (estimate_sell_loop_safe liq rest y t [] Hliq Hy) as H.
  destruct (estimate_sell_loop rest liq y t []) as [[[x ls]|]|]; simpl in *; [|done|done].
  intros e [= <-]. by apply (H (x, ls)).
Qed.
End estimate_safe.

(** ** The greedy estimate is optimal over deep liquidity *)
Section optimal.
Context {L : Type} `{!BaselineSolvable L} (trades : L -> Z * Z -> Prop) `{!SolvableSafe L trades}.

Lemma estimate_buy_loop_optimal liq M path prev acc x y ls w :
  liquidity_ok trades liq ->
  (forall tp pools l, liq !! tp = Some pools -> l ∈ pools -> deep M l) ->
  0 <= x <= y -> y <= M -> M < 2 ^ 256 -> run liq (prev :: path) x ls w ->
  exists e, estimate_buy_loop path liq y prev acc = Ret (Some e) /\ w <= est_value e.
Proof.
  intros Hliq Hdeep. revert prev acc x y ls.
  induction path as [|t path IH]; intros prev acc x y ls Hxy HyM HM Hrun;
    inversion Hrun as [|? ? ? ? l z ls' ? tp pools Htp Hpools Hl Hz Hrest]; subst; cbn [estimate_buy_loop].
  { eexists. split; [done|]. simpl. lia. }
  rewrite Htp. cbn [comp_obind]. rewrite Hpools. cbn [comp_obind].
  destruct (Hdeep tp pools l Hpools Hl) as [Hmono Hmax].
  destruct (Hmono prev t x y z ltac:(lia) HyM Hz) as (v & Hv & Hzv).
  assert (safe (hop_outputs pools (fun l => get_amount_out l t (y, prev)))) as Hsafe.
  { apply hop_outputs_safe. intros l' Hl'.
    eapply (get_amount_out_safe (trades := trades)); [by eapply Hliq|by rewrite TokenPair_new_sym|].
    unfold u256. lia. }
  destruct (hop_outputs pools _) as [outs|] eqn:Houts; [|done]. cbn [comp_bind].
  assert ((l, v) ∈ outs) as Hin by (by apply (hop_outputs_elem _ _ _ _ _ Houts)).
  destruct (max_by_key snd outs) as [[l' v']|] eqn:Hbest.
  - cbn [comp_obind]. apply max_by_key_Some in Hbest as [Hin' Hge].
    specialize (Hge _ Hin). simpl in Hge.
    apply (hop_outputs_elem _ _ _ _ _ Houts) in Hin' as [Hl' Hv'].
    destruct (Hdeep tp pools l' Hpools Hl') as [_ Hmax'].
    pose proof (Hmax' prev t y v' ltac:(lia) Hv'). pose proof (Hmax prev t x z ltac:(lia) Hz).
    eapply (IH t _ z v'); [lia|lia|lia|exact Hrest].
  - exfalso. unfold max_by_key in Hbest. apply max_by_None in Hbest as ->. set_solver.
Qed.

Lemma estimate_buy_optimal liq M path x ls w :
  liquidity_ok trades liq ->
  (forall tp pools l, liq !! tp = Some pools -> l ∈ pools -> deep M l) ->
  0 <= x <= M -> M < 2 ^ 256 -> run liq path x ls w ->
  exists e, estimate_buy_amount x path liq = Ret (Some e) /\ w <= est_value e.
Proof.
  intros Hliq Hdeep Hx HM Hrun. destruct path as [|t path]; [inversion Hrun|].
  eapply estimate_buy_loop_optimal; [done|done| | | |exact Hrun]; lia.
Qed.
End optimal.

(** ** Relevant pairs *)
Lemma relevant_pairs_fold_elem (b : BaseTokens) (pairs : list (Z * Z)) (acc : gset (Z * Z)) (p : Z * Z) :
  p ∈ foldl (fun result pair =>
      let with_token (r : gset (Z * Z)) (token : address) :=
        r ∪ list_to_set (omap (fun base_token => TokenPair_new base_token token) (bt_tokens b)) in
      with_token (with_token (result ∪ {[pair]}) pair.1) pair.2) acc pairs <->
  p ∈ acc \/ exists q, q ∈ pairs /\
    (p = q \/ exists t u, t ∈ bt_tokens b /\ (u = q.1 \/ u = q.2) /\ TokenPair_new t u = Some p).
Proof.
  revert acc; induction pairs as [|q pairs IH]; intros acc; cbn [foldl]; [set_solver|].
  rewrite IH. rewrite !elem_of_union, !elem_of_list_to_set, elem_of_singleton, !list_elem_of_omap.
  split.
  - intros [[[[?| ->]|(t & ? & ?)]|(t & ? & ?)]|(q' & ? & ?)].
    + auto.
    + right. exists q. set_solver.
    + right. exists q. split; [set_solver|]. eauto 10.
    + right. exists q. split; [set_solver|]. eauto 10.
    + right. exists q'. set_solver.
  - intros [?|(q' & [->|?]%elem_of_cons & HR)]; [auto| |eauto].
    destruct HR as [->|(t & u & ? & [->| ->] & ?)]; eauto 10.
Qed.

Lemma relevant_pairs_elem b (pairs : list (Z * Z)) p :
  p ∈ relevant_pairs b pairs <->
  (exists q, q ∈ pairs /\
    (p = q \/ exists t u, t ∈ bt_tokens b /\ (u = q.1 \/ u = q.2) /\ TokenPair_new t u = Some p)) \/
  (pairs <> [] /\ p ∈ bt_pairs b).
Proof.
  unfold relevant_pairs. cbn zeta.
  match goal with |- context [decide (?r = ∅)] => set (R := r) end.
  assert (p ∈ R <-> exists q, q ∈ pairs /\
    (p = q \/ exists t u, t ∈ bt_tokens b /\ (u = q.1 \/ u = q.2) /\ TokenPair_new t u = Some p)) as HR.
  { unfold R. rewrite relevant_pairs_fold_elem. set_solver. }
  assert (R = ∅ <-> pairs = []) as HE.
  { destruct pairs as [|q pairs]; [unfold R; simpl; naive_solver|].
    split; [|done]. intros He. exfalso.
    assert (q ∈ R) as Hq by (unfold R; rewrite relevant_pairs_fold_elem; set_solver).
    rewrite He in Hq. set_solver. }
  destruct (decide (R = ∅)) as [E|E]; rewrite ?elem_of_union, HR.
  - apply HE in E as ->. naive_solver.
  - naive_solver.
Qed.

Lemma base_token_pairs_elem ts t u p :
  t ∈ ts -> u ∈ ts -> TokenPair_new t u = Some p -> p ∈ base_token_pairs ts.
Proof.
  induction ts as [|x ts IH]; intros Ht Hu Hp; [set_solver|].
  cbn [base_token_pairs]. rewrite elem_of_app, list_elem_of_omap.
  apply elem_of_cons in Ht as [->|Ht]; [left; eauto|].
  apply elem_of_cons in Hu as [->|Hu].
  - left. exists t. split; [set_solver|]. by rewrite TokenPair_new_sym.
  - right. eauto.
Qed.

(** Consecutive pairs of a path. *)
Fixpoint hops (path : list address) : list (address * address) :=
  match path with
  | a :: (b :: _) as rest => (a, b) :: hops rest
  | _ => []
  end.

Lemma hops_elem path a b :
  (a, b) ∈ hops path -> a ∈ path /\ b ∈ path.
Proof.
  induction path as [|x [|y path] IH]; cbn [hops]; [set_solver|set_solver|].
  rewrite elem_of_cons. intros [[= -> ->]|H%IH]; set_solver.
Qed.

Lemma hops_NoDup path a b : NoDup path -> (a, b) ∈ hops path -> a <> b.
Proof.
  induction path as [|x [|y path] IH]; cbn [hops]; [set_solver|set_solver|].
  intros [Hx Hnd]%NoDup_cons. rewrite elem_of_cons. intros [[= -> ->]|H]; [set_solver|auto].
Qed.

(** The pairs a liquidity source is asked for suffice for path
    finding: every hop of every candidate path between the tokens of a requested
    pair is among the relevant pairs, for the default number of hops and any
    other. *)
Theorem relevant_pairs_cover native base pairs a b q path hop_count x y tp :
  let bt := BaseTokens_new native base in
  TokenPair_new a b = Some q -> q ∈ pairs ->
  path ∈ path_candidates_with_hops bt a b hop_count ->
  (x, y) ∈ hops path -> TokenPair_new x y = Some tp -> tp ∈ relevant_pairs bt pairs.
Proof.
  intros bt Hq Hin Hpath Hxy Htp.
  apply path_candidates_elem in Hpath as (_ & mid & -> & _ & Hnd & Hmid).
  destruct (hops_elem _ _ _ Hxy) as [Hx Hy]. fold bt in Hmid.
  assert (forall t, t ∈ a :: mid ++ [b] -> t ∈ bt_tokens bt \/ t = a \/ t = b) as Hcase by set_solver.
  apply relevant_pairs_elem. clear Hmid.
  assert (forall t, t = a \/ t = b -> t = q.1 \/ t = q.2) as Hends.
  { apply TokenPair_new_Some in Hq as (_ & _ & [->| ->]); simpl; naive_solver. }
  destruct (Hcase _ Hx) as [Hbx|Hex], (Hcase _ Hy) as [Hby|Hey].
  - right. split; [by destruct pairs; set_solver|].
    unfold bt, BaseTokens_new. simpl. apply elem_of_list_to_set.
    exact (base_token_pairs_elem _ x y tp Hbx Hby Htp).
  - left. exists q. split; [done|]. right. exists x, y. auto.
  - left. exists q. split; [done|]. right. exists y, x. rewrite TokenPair_new_sym. auto.
  - left. exists q. split; [done|]. left.
    pose proof (hops_NoDup _ _ _ Hnd Hxy) as Hne.
    destruct Hex as [->| ->], Hey as [->| ->]; try done; [congruence|].
    rewrite TokenPair_new_sym in Htp. congruence.
Qed.

Lemma relevant_pairs_cover_witness :
  let bt := BaseTokens_new 3 [4] in
  [1; 4; 3; 2] ∈ path_candidates_with_hops bt 1 2 2 /\ (3, 4) ∈ relevant_pairs bt [(1, 2)].
Proof.
  split; [apply list_elem_of_In; vm_compute; tauto|].
  apply (relevant_pairs_cover 3 [4] [(1, 2)] 1 2 (1, 2) [1; 4; 3; 2] 2 4 3 (3, 4));
    [reflexivity|set_solver| |set_solver|reflexivity].
  apply list_elem_of_In; vm_compute; tauto.
Defined.
