(* ===== verification/Liquidity.v ===== *)
(** * Liquidity: the solver's domain model of liquidity, orders and routes

    [crates/solvers/src/domain/liquidity/mod.rs], [.../concentrated.rs], the order
    types of [crates/solvers/src/domain/order.rs] that routing uses, and
    [Request], [Segment] and [Route] of [crates/solvers/src/domain/solver.rs]. *)

From stdpp Require Import base gmap sets list strings.
From Stdlib Require Import ZArith Lia.
From S2P Require Import Prelude Collections Eth Solvable ConstantProduct LimitOrder BalancerSwap.

Open Scope Z_scope.

(** [concentrated::Pool] with its fee in millionths. *)
Record ConcentratedPool := mkConcentratedPool { cp_tokens : Z * Z; cp_fee : Z }.

(** [liquidity::State]. *)
Inductive State :=
| ConstantProduct (pool : DomainPool)
| WeightedProduct (pool : WeightedDomainPool)
| Stable (pool : StableDomainPool)
| Concentrated (pool : ConcentratedPool)
| LimitOrderState (order : LimitOrder).

(** [liquidity::Liquidity]. *)
Record Liquidity := mkLiquidity {
  liq_id : string;
  liq_address : address;
  liq_router : option address;
  liq_gas : Z;
  liq_state : State;
}.

(** [Liquidity::is_venue]. *)
Definition is_venue (l : Liquidity) (venues : gset address) : bool :=
  bool_decide (liq_address l ∈ venues) ||
  match liq_router l with
  | Some router => bool_decide (router ∈ venues)
  | None => false
  end.

Lemma is_venue_spec l venues :
  is_venue l venues = true <->
  liq_address l ∈ venues \/ exists router, liq_router l = Some router /\ router ∈ venues.
Proof.
  unfold is_venue. rewrite orb_true_iff, bool_decide_eq_true.
  destruct (liq_router l) as [r|]; [rewrite bool_decide_eq_true|]; naive_solver.
Qed.

(** ** Orders *)
Inductive Side := Buy | Sell.
Inductive Class_ := Market | Limit.

#[export] Instance Side_eq_dec : EqDecision Side.
Proof. solve_decision. Defined.
#[export] Instance Class_eq_dec : EqDecision Class_.
Proof. solve_decision. Defined.

(** [order::WrapperCall] and [order::FlashloanHint]. *)
Record WrapperCall := mkWrapperCall { wrapper_address : address; wrapper_data : list Z }.
Record FlashloanHint := mkFlashloanHint {
  fh_liquidity_provider : address;
  fh_protocol_adapter : address;
  fh_receiver : address;
  fh_token : address;
  fh_amount : Z;
}.

(** [order::Order]; the uid is its 56 bytes as an integer. *)
Record Order := mkOrder {
  order_uid : Z;
  order_sell : Asset;
  order_buy : Asset;
  order_side : Side;
  order_class : Class_;
  order_partially_fillable : bool;
  order_flashloan_hint : option FlashloanHint;
  order_wrappers : list WrapperCall;
}.

Definition solver_determines_fee (o : Order) : bool :=
  match order_class o with Limit => true | Market => false end.

(** ** Routes *)
Record Request := mkRequest {
  req_sell : Asset;
  req_buy : Asset;
  req_side : Side;
  req_wrappers : list WrapperCall;
}.

Record Segment := mkSegment {
  seg_liquidity : Liquidity;
  seg_input : Asset;
  seg_output : Asset;
  seg_gas : Z;
}.

(** A [Route] is its segments; [Route_new] refuses an empty one. *)
Definition Route := list Segment.

Definition Route_new (segments : list Segment) : option Route :=
  match segments with [] => None | _ => Some segments end.

Definition Route_input (r : Route) : comp Asset :=
  let! s := expect (head r) in Ret (seg_input s).
Definition Route_output (r : Route) : comp Asset :=
  let! s := expect (last r) in Ret (seg_output s).
Definition Route_gas (r : Route) : Z :=
  foldl (fun acc segment => saturating_add acc (seg_gas segment)) 0 r.

Lemma Route_new_Some segs r : Route_new segs = Some r <-> r = segs /\ segs <> [].
Proof. destruct segs; simpl; naive_solver. Qed.

(** A route's gas is the sum of its segments' gas, capped at the largest
    [U256]. *)
Lemma Route_gas_spec r :
  Forall (fun s => 0 <= seg_gas s) r ->
  Route_gas r = Z.min (foldr (fun s acc => seg_gas s + acc) 0 r) U256_MAX.
Proof.
  intros Hr. unfold Route_gas.
  assert (forall acc, 0 <= acc <= U256_MAX ->
    foldl (fun acc segment => saturating_add acc (seg_gas segment)) acc r
      = Z.min (acc + foldr (fun s acc => seg_gas s + acc) 0 r) U256_MAX) as H.
  { induction Hr as [|s r Hs Hr IH]; intros acc Hacc; simpl; [lia|].
    assert (0 <= foldr (fun s acc => seg_gas s + acc) 0 r).
    { clear -Hr. induction Hr; simpl; lia. }
    rewrite IH; unfold saturating_add; lia. }
  rewrite H by (unfold U256_MAX; lia). f_equal.
Qed.

Lemma Route_gas_u256 r : Forall (fun s => 0 <= seg_gas s) r -> u256 (Route_gas r).
Proof.
  intros Hr. rewrite Route_gas_spec by done. unfold u256, U256_MAX.
  assert (0 <= foldr (fun s acc => seg_gas s + acc) 0 r) by (induction Hr; simpl; lia). lia.
Qed.

(** ** Connected routes

    The segments of a route from [a] to [b]: each one's input is the previous
    one's output. *)
Inductive connected : Asset -> list Segment -> Asset -> Prop :=
| connected_one s : connected (seg_input s) [s] (seg_output s)
| connected_cons s segs out :
    connected (seg_output s) segs out -> connected (seg_input s) (s :: segs) out.

Lemma connected_first a segs b : connected a segs b -> exists s, head segs = Some s /\ seg_input s = a.
Proof. destruct 1; simpl; eauto. Qed.

Lemma connected_last a segs b : connected a segs b -> exists s, last segs = Some s /\ seg_output s = b.
Proof.
  induction 1 as [s|s segs out H (s' & Hl & Ho)]; simpl; [eauto|].
  exists s'. split; [|done]. by destruct segs.
Qed.

Lemma connected_input_output a segs b :
  connected a segs b -> Route_input segs = Ret a /\ Route_output segs = Ret b.
Proof.
  intros H. destruct (connected_first _ _ _ H) as (s & Hs & <-).
  destruct (connected_last _ _ _ H) as (s' & Hs' & <-).
  unfold Route_input, Route_output. by rewrite Hs, Hs'.
Qed.
