(* ===== verification/Baseline.v ===== *)
(** * Baseline: routing over on-chain liquidity

    [crates/solvers/src/boundary/baseline.rs]: the conversion of a snapshot of
    liquidity into pools indexed by token pair, and the choice of the best route
    among the candidate paths; and the concentrated liquidity source of
    [crates/solvers/src/boundary/liquidity/concentrated.rs], whose quotes come
    from a contract on chain and are a parameter.

    Candidate paths are iterated in the order of a [HashSet], which is a
    parameter [iter]; the theorems hold for every permutation. *)

From stdpp Require Import base gmap sets list strings sorting.
From Stdlib Require Import ZArith Lia Permutation.
From S2P Require Import Prelude Collections Eth Solvable ConstantProduct LimitOrder.
From S2P Require Import BalancerSwap BaselineSolver Liquidity.

Open Scope Z_scope.

(** ** Concentrated liquidity *)

(** The [UniswapV3QuoterV2] contract: token in, token out, amount and fee to the
    quoted amount, or [None] when the call fails. *)
Record Quoter := mkQuoter {
  quoteExactInputSingle : address -> address -> Z -> Z -> option Z;
  quoteExactOutputSingle : address -> address -> Z -> Z -> option Z;
}.

(** The contract returns [uint256] values. *)
Definition quoter_ok (q : Quoter) : Prop :=
  (forall i o a f v, quoteExactInputSingle q i o a f = Some v -> u256 v) /\
  (forall i o a f v, quoteExactOutputSingle q i o a f = Some v -> u256 v).

Definition CONCENTRATED_POOL_SWAP_GAS_COST : Z := 106000.

Record ConcentratedBoundaryPool := mkConcentratedBoundaryPool {
  cb_quoter : Quoter;
  cb_address : address;
  cb_tokens : Z * Z;
  cb_fee : Z;
}.

Definition concentrated_get_amount_out (p : ConcentratedBoundaryPool) (out_token : address)
  (input : Z * address) : comp (option Z) :=
  Ret (if decide (TokenPair_new out_token input.2 = Some (cb_tokens p))
       then quoteExactInputSingle (cb_quoter p) input.2 out_token input.1 (cb_fee p)
       else None).

Definition concentrated_get_amount_in (p : ConcentratedBoundaryPool) (in_token : address)
  (out : Z * address) : comp (option Z) :=
  Ret (if decide (TokenPair_new out.2 in_token = Some (cb_tokens p))
       then quoteExactOutputSingle (cb_quoter p) in_token out.2 out.1 (cb_fee p)
       else None).

(** ** On-chain liquidity *)
Inductive LiquiditySource :=
| SourceConstantProduct (pool : Pool)
| SourceWeightedProduct (pool : WeightedPool)
| SourceStable (pool : StablePool)
| SourceLimitOrder (order : LimitOrder)
| SourceConcentrated (pool : ConcentratedBoundaryPool).

Record OnchainLiquidity := mkOnchainLiquidity {
  oc_id : string;
  oc_token_pair : Z * Z;
  oc_source : LiquiditySource;
}.

Definition onchain_get_amount_out (l : OnchainLiquidity) (out_token : address)
  (input : Z * address) : comp (option Z) :=
  match oc_source l with
  | SourceConstantProduct pool => cp_get_amount_out pool out_token input
  | SourceWeightedProduct pool => weighted_get_amount_out pool out_token input
  | SourceStable pool => stable_get_amount_out pool out_token input
  | SourceLimitOrder order => lo_get_amount_out order out_token input
  | SourceConcentrated pool => concentrated_get_amount_out pool out_token input
  end.

Definition onchain_get_amount_in (l : OnchainLiquidity) (in_token : address)
  (out : Z * address) : comp (option Z) :=
  match oc_source l with
  | SourceConstantProduct pool => cp_get_amount_in pool in_token out
  | SourceWeightedProduct pool => weighted_get_amount_in pool in_token out
  | SourceStable pool => stable_get_amount_in pool in_token out
  | SourceLimitOrder order => lo_get_amount_in order in_token out
  | SourceConcentrated pool => concentrated_get_amount_in pool in_token out
  end.

Definition onchain_gas_cost (l : OnchainLiquidity) : Z :=
  match oc_source l with
  | SourceConstantProduct _ => POOL_SWAP_GAS_COST
  | SourceWeightedProduct _ => WEIGHTED_SWAP_GAS_COST
  | SourceStable _ => STABLE_SWAP_GAS_COST
  | SourceLimitOrder _ => GAS_PER_ZEROEX_ORDER
  | SourceConcentrated _ => CONCENTRATED_POOL_SWAP_GAS_COST
  end.

#[export] Instance onchain_solvable : BaselineSolvable OnchainLiquidity := {|
  get_amount_out := onchain_get_amount_out;
  get_amount_in := onchain_get_amount_in;
  gas_cost := onchain_gas_cost;
|}.

(** ** Building the solver *)
Abbreviation onchain_map := (gmap (Z * Z) (list OnchainLiquidity)).

(** [entry(token_pair).or_default().push(...)]. *)
Definition push_liquidity (m : onchain_map) (l : OnchainLiquidity) : onchain_map :=
  <[oc_token_pair l := default [] (m !! oc_token_pair l) ++ [l]]> m.

Definition to_boundary_token_pair (p : Z * Z) : comp (Z * Z) := expect (TokenPair_new p.1 p.2).

(** The closure of the fold in [to_boundary_liquidity]; [U24::try_from] accepts
    fees below [2^24]. *)
Definition add_liquidity (quoter : option Quoter) (m : onchain_map) (l : Liquidity)
  : comp onchain_map :=
  match liq_state l with
  | ConstantProduct pool =>
      let! boundary_pool := to_boundary_pool (liq_address l) pool in
      Ret (match boundary_pool with
           | Some p => push_liquidity m
               (mkOnchainLiquidity (liq_id l) (pool_tokens p) (SourceConstantProduct p))
           | None => m
           end)
  | WeightedProduct pool =>
      let! boundary_pool := weighted_to_boundary_pool (liq_address l) pool in
      match boundary_pool with
      | Some p =>
          let! pairs := WeightedReserves_token_pairs (wdp_reserves pool) in
          let! pairs := comp_map to_boundary_token_pair pairs in
          Ret (foldl (fun m tp => push_liquidity m
                 (mkOnchainLiquidity (liq_id l) tp (SourceWeightedProduct p))) m pairs)
      | None => Ret m
      end
  | Stable pool =>
      let! boundary_pool := stable_to_boundary_pool (liq_address l) pool in
      match boundary_pool with
      | Some p =>
          let! pairs := StableReserves_token_pairs (sdp_reserves pool) in
          let! pairs := comp_map to_boundary_token_pair pairs in
          Ret (foldl (fun m tp => push_liquidity m
                 (mkOnchainLiquidity (liq_id l) tp (SourceStable p))) m pairs)
      | None => Ret m
      end
  | LimitOrderState order =>
      Ret (match TokenPair_new (asset_token (lo_maker order)) (asset_token (lo_taker order)) with
           | Some tp => push_liquidity m (mkOnchainLiquidity (liq_id l) tp (SourceLimitOrder order))
           | None => m
           end)
  | Concentrated pool =>
      match quoter with
      | None => Ret m
      | Some q =>
          let! fee := expect (if fits 24 (cp_fee pool) then Some (cp_fee pool) else None) in
          let! tp := to_boundary_token_pair (cp_tokens pool) in
          Ret (push_liquidity m (mkOnchainLiquidity (liq_id l) tp
                 (SourceConcentrated (mkConcentratedBoundaryPool q (liq_address l) tp fee))))
      end
  end.

Fixpoint to_boundary_liquidity_from (quoter : option Quoter) (m : onchain_map)
  (liquidity : list Liquidity) : comp onchain_map :=
  match liquidity with
  | [] => Ret m
  | l :: liquidity => let! m := add_liquidity quoter m l in to_boundary_liquidity_from quoter m liquidity
  end.

Definition to_boundary_liquidity (liquidity : list Liquidity) (quoter : option Quoter)
  : comp onchain_map :=
  to_boundary_liquidity_from quoter ∅ liquidity.

(** [boundary::baseline::Solver]. *)
Record Solver := mkSolver {
  solver_base_tokens : BaseTokens;
  solver_onchain_liquidity : onchain_map;
  solver_liquidity : gmap string Liquidity;
}.

(** [collect::<HashMap<_, _>>()]: a later liquidity replaces an earlier one with
    the same id. *)
Definition liquidity_by_id (liquidity : list Liquidity) : gmap string Liquidity :=
  foldl (fun m l => <[liq_id l := l]> m) ∅ liquidity.

Definition Solver_new (weth : address) (base_tokens : list address) (liquidity : list Liquidity)
  (quoter : option Quoter) : comp Solver :=
  let! onchain := to_boundary_liquidity liquidity quoter in
  Ret (mkSolver (BaseTokens_new weth base_tokens) onchain (liquidity_by_id liquidity)).

(** ** Routing *)
Fixpoint traverse_path (s : Solver) (path : list OnchainLiquidity) (sell_token : address)
  (sell_amount : Z) : comp (option (list Segment)) :=
  match path with
  | [] => Ret (Some [])
  | l :: path =>
      let! reference_liquidity := expect (solver_liquidity s !! oc_id l) in
      let! buy_token := expect (TokenPair_other (oc_token_pair l) sell_token) in
      let!? buy_amount := onchain_get_amount_out l buy_token (sell_amount, sell_token) in
      let segment := mkSegment reference_liquidity (mkAsset sell_token sell_amount)
                       (mkAsset buy_token buy_amount) (onchain_gas_cost l) in
      let!? segments := traverse_path s path buy_token buy_amount in
      Ret (Some (segment :: segments))
  end.

Definition path_key (segments : list Segment) : list string :=
  map (fun segment => liq_id (seg_liquidity segment)) segments.

(** The comparator of [min_by] and [max_by] in [route]. *)
Definition route_cmp : list Segment * Estimate OnchainLiquidity ->
  list Segment * Estimate OnchainLiquidity -> comparison :=
  cmp_then (cmp_on (fun c => est_value c.2) Z.compare)
           (cmp_on (fun c => path_key c.1) (list_cmp str_cmp)).

Definition candidate_buy (s : Solver) (request : Request) (path : list address)
  : comp (option (list Segment * Estimate OnchainLiquidity)) :=
  let!? sell := estimate_sell_amount (asset_amount (req_buy request)) path
                  (solver_onchain_liquidity s) in
  let!? segments := traverse_path s (est_path sell) (asset_token (req_sell request)) (est_value sell) in
  match last segments with
  | Some segment =>
      if negb (asset_amount (req_buy request) <=? asset_amount (seg_output segment)) then Ret None
      else if est_value sell <=? asset_amount (req_sell request)
           then Ret (Some (segments, sell)) else Ret None
  | None => Ret None
  end.

Definition candidate_sell (s : Solver) (request : Request) (path : list address)
  : comp (option (list Segment * Estimate OnchainLiquidity)) :=
  let!? buy := estimate_buy_amount (asset_amount (req_sell request)) path
                 (solver_onchain_liquidity s) in
  let!? segments := traverse_path s (est_path buy) (asset_token (req_sell request))
                      (asset_amount (req_sell request)) in
  match head segments with
  | Some segment =>
      if negb (asset_amount (req_sell request) <=? asset_amount (seg_input segment)) then Ret None
      else if asset_amount (req_buy request) <=? est_value buy
           then Ret (Some (segments, buy)) else Ret None
  | None => Ret None
  end.

(** The iteration order of the candidate set. *)
Definition hash_order := list (list address) -> list (list address).

Definition route (iter : hash_order) (s : Solver) (request : Request) (max_hops : nat)
  : comp (option Route) :=
  let candidates := iter (path_candidates_with_hops (solver_base_tokens s)
                            (asset_token (req_sell request)) (asset_token (req_buy request)) max_hops) in
  let!? best :=
    match req_side request with
    | Buy => let! results := comp_map (candidate_buy s request) candidates in
             Ret (min_by route_cmp (omap id results))
    | Sell => let! results := comp_map (candidate_sell s request) candidates in
              Ret (max_by route_cmp (omap id results))
    end in
  Ret (Route_new best.1).

(** ** On-chain liquidity satisfies the interface of the path finder *)
Definition source_ok (src : LiquiditySource) (tp : Z * Z) : Prop :=
  match src with
  | SourceConstantProduct p => cp_trades p tp
  | SourceWeightedProduct p => weighted_trades p tp
  | SourceStable p => stable_trades p tp
  | SourceLimitOrder o => lo_trades o tp
  | SourceConcentrated p => quoter_ok (cb_quoter p) /\ cb_tokens p = tp
  end.

Definition onchain_trades (l : OnchainLiquidity) (tp : Z * Z) : Prop :=
  oc_token_pair l = tp /\ source_ok (oc_source l) tp.

#[export] Instance onchain_solvable_safe : SolvableSafe OnchainLiquidity onchain_trades.
Proof.
  split; intros [id tp src] pr a b x; [|intros v| |intros v]; intros [_ Hok] Hp Hx;
    cbn [get_amount_out get_amount_in onchain_solvable];
    unfold onchain_get_amount_out, onchain_get_amount_in; cbn [oc_source] in *;
    destruct src as [p|p|p|o|p]; cbn [source_ok] in Hok.
  - exact (get_amount_out_safe (L := Pool) (trades := cp_trades) p pr a b x Hok Hp Hx).
  - exact (get_amount_out_safe (L := WeightedPool) (trades := weighted_trades) p pr a b x Hok Hp Hx).
  - exact (get_amount_out_safe (L := StablePool) (trades := stable_trades) p pr a b x Hok Hp Hx).
  - apply safe_Ret.
  - apply safe_Ret.
  - exact (get_amount_out_u256 (L := Pool) (trades := cp_trades) p pr a b x v Hok Hp Hx).
  - exact (get_amount_out_u256 (L := WeightedPool) (trades := weighted_trades) p pr a b x v Hok Hp Hx).
  - exact (get_amount_out_u256 (L := StablePool) (trades := stable_trades) p pr a b x v Hok Hp Hx).
  - exact (get_amount_out_u256 (L := LimitOrder) (trades := lo_trades) o pr a b x v Hok Hp Hx).
  - unfold concentrated_get_amount_out. case_decide; [|done]. intros [= Hquote].
    destruct Hok as [[Hq _] _]. by eapply Hq.
  - exact (get_amount_in_safe (L := Pool) (trades := cp_trades) p pr a b x Hok Hp Hx).
  - exact (get_amount_in_safe (L := WeightedPool) (trades := weighted_trades) p pr a b x Hok Hp Hx).
  - exact (get_amount_in_safe (L := StablePool) (trades := stable_trades) p pr a b x Hok Hp Hx).
  - apply safe_Ret.
  - apply safe_Ret.
  - exact (get_amount_in_u256 (L := Pool) (trades := cp_trades) p pr a b x v Hok Hp Hx).
  - exact (get_amount_in_u256 (L := WeightedPool) (trades := weighted_trades) p pr a b x v Hok Hp Hx).
  - exact (get_amount_in_u256 (L := StablePool) (trades := stable_trades) p pr a b x v Hok Hp Hx).
  - exact (get_amount_in_u256 (L := LimitOrder) (trades := lo_trades) o pr a b x v Hok Hp Hx).
  - unfold concentrated_get_amount_in. case_decide; [|done]. intros [= Hquote].
    destruct Hok as [[_ Hq] _]. by eapply Hq.
Qed.

(** ** Well-formed liquidity

    What the request decoder establishes for each kind of liquidity.  When a
    quoter is configured a concentrated pool's fee must also fit in 24 bits, which
    the decoder does not establish. *)
Definition state_wf (q : option Quoter) (st : State) : Prop :=
  match st with
  | ConstantProduct p => domain_pool_wf p
  | WeightedProduct p => weighted_domain_wf p
  | Stable p => stable_domain_wf p
  | Concentrated p => (cp_tokens p).1 < (cp_tokens p).2 /\ 0 <= cp_fee p /\
      (q <> None -> cp_fee p < 2 ^ 24)
  | LimitOrderState o => lo_wf o
  end.

Definition liquidity_wf (q : option Quoter) (l : Liquidity) : Prop := state_wf q (liq_state l).

Definition quoter_opt_ok (q : option Quoter) : Prop := forall q', q = Some q' -> quoter_ok q'.

(** Every registered pool trades its pair and came from a liquidity of the
    snapshot. *)
Definition onchain_from (ls : list Liquidity) (m : onchain_map) : Prop :=
  forall tp pools l, m !! tp = Some pools -> l ∈ pools ->
    onchain_trades l tp /\ exists d, d ∈ ls /\ liq_id d = oc_id l.

Lemma onchain_from_mono ls ls' m : (forall l, l ∈ ls -> l ∈ ls') -> onchain_from ls m -> onchain_from ls' m.
Proof.
  intros Hsub Hm tp pools l Htp Hl. destruct (Hm tp pools l Htp Hl) as (? & d & ? & ?). eauto.
Qed.

Lemma push_liquidity_from ls m l :
  onchain_from ls m -> source_ok (oc_source l) (oc_token_pair l) ->
  (exists d, d ∈ ls /\ liq_id d = oc_id l) -> onchain_from ls (push_liquidity m l).
Proof.
  intros Hm Hok Hd tp pools l' Htp Hl'. unfold push_liquidity in Htp.
  destruct (decide (oc_token_pair l = tp)) as [<-|Hne].
  - rewrite lookup_insert_eq in Htp. simplify_eq.
    apply elem_of_app in Hl' as [Hl'| ->%list_elem_of_singleton]; [|done].
    destruct (m !! oc_token_pair l) as [pools|] eqn:E; simpl in Hl'; [eauto|set_solver].
  - rewrite lookup_insert_ne in Htp by done. eauto.
Qed.

Lemma push_all_from ls m id src pairs :
  onchain_from ls m -> (forall tp, source_ok src tp) -> (exists d, d ∈ ls /\ liq_id d = id) ->
  onchain_from ls (foldl (fun m tp => push_liquidity m (mkOnchainLiquidity id tp src)) m pairs).
Proof.
  intros Hm Hok Hd. revert m Hm; induction pairs as [|tp pairs IH]; intros m Hm; simpl; [done|].
  apply IH. by apply push_liquidity_from.
Qed.

Lemma ordered_pairs_returns tokens :
  StronglySorted Z.lt tokens ->
  returns (let! pairs := token_pairs_of tokens in comp_map to_boundary_token_pair pairs) (fun _ => True).
Proof.
  intros Hs. eapply returns_bind; [by apply token_pairs_of_returns|]. cbn beta. intros ps Hps.
  eapply returns_mono; [apply (comp_map_returns _ (fun _ _ => True))|done].
  intros [a b] Hab. apply Hps in Hab as (_ & _ & Hlt). unfold to_boundary_token_pair. simpl.
  pose proof (TokenPair_new_ordered (a, b)) as E. simpl in E. by rewrite E.
Qed.

Lemma comp_bind_assoc {A B C} (c : comp A) (k : A -> comp B) (h : B -> comp C) :
  (let! y := (let! x := c in k x) in h y) = (let! x := c in let! y := k x in h y).
Proof. by destruct c. Qed.

Lemma add_liquidity_returns q m ls l :
  quoter_opt_ok q -> liquidity_wf q l -> l ∈ ls -> onchain_from ls m ->
  returns (add_liquidity q m l) (onchain_from ls).
Proof.
  intros Hq Hwf Hl Hm. unfold liquidity_wf in Hwf. unfold add_liquidity.
  assert (exists d, d ∈ ls /\ liq_id d = liq_id l) as Hd by eauto.
  destruct (liq_state l) as [p|p|p|p|o]; cbn [state_wf] in Hwf.
  - pose proof (to_boundary_pool_safe (liq_address l) p Hwf) as Hsafe.
    destruct (to_boundary_pool (liq_address l) p) as [[b|]|] eqn:E; [|done|done]. simpl.
    apply to_boundary_pool_wf in E as [? ?]; [|done]. by apply push_liquidity_from.
  - eapply returns_bind; [by apply weighted_to_boundary_returns|]. intros [b|] Hb; [|done].
    destruct (Hb b eq_refl) as [Hbwf _]. rewrite <- comp_bind_assoc.
    eapply returns_bind; [apply ordered_pairs_returns, Hwf|]. intros pairs _. simpl.
    by apply push_all_from.
  - eapply returns_bind; [by apply stable_to_boundary_returns|]. intros [b|] Hb; [|done].
    destruct (Hb b eq_refl) as [Hbwf _]. rewrite <- comp_bind_assoc.
    eapply returns_bind; [apply ordered_pairs_returns, Hwf|]. intros pairs _. simpl.
    by apply push_all_from.
  - destruct q as [q|]; [|done]. destruct Hwf as (Hlt & Hfee0 & Hfee).
    specialize (Hfee ltac:(done)).
    rewrite (proj2 (fits_spec 24 _)) by lia. cbn [expect comp_bind].
    unfold to_boundary_token_pair. rewrite TokenPair_new_ordered by done. cbn [expect comp_bind returns].
    apply push_liquidity_from; [done| |done]. split; [by apply Hq|done].
  - simpl. destruct (TokenPair_new _ _) as [tp|] eqn:E; [|done]. by apply push_liquidity_from.
Qed.

Lemma to_boundary_liquidity_returns ls q :
  quoter_opt_ok q -> Forall (liquidity_wf q) ls ->
  returns (to_boundary_liquidity ls q) (onchain_from ls).
Proof.
  intros Hq Hls. unfold to_boundary_liquidity.
  assert (onchain_from ls ∅) as H0 by (intros tp pools l; by rewrite lookup_empty).
  rewrite Forall_forall in Hls.
  assert (forall k m, (forall l, l ∈ k -> l ∈ ls) -> onchain_from ls m ->
    returns (to_boundary_liquidity_from q m k) (onchain_from ls)) as H; [|by apply H].
  intros k. induction k as [|l k IH]; intros m Hk Hm; simpl; [done|].
  eapply returns_bind; [apply add_liquidity_returns; [done|apply Hls, Hk; set_solver|apply Hk; set_solver|done]|].
  intros m' Hm'. apply IH; [set_solver|done].
Qed.

Lemma liquidity_by_id_lookup ls id :
  (forall d, liquidity_by_id ls !! id = Some d -> d ∈ ls /\ liq_id d = id) /\
  ((exists d, d ∈ ls /\ liq_id d = id) -> is_Some (liquidity_by_id ls !! id)).
Proof.
  unfold liquidity_by_id. induction ls as [|l ls [IH1 IH2]] using rev_ind.
  { simpl. split; [intros d; by rewrite lookup_empty|]. intros (d & ? & _). set_solver. }
  rewrite foldl_snoc. split.
  - intros d. rewrite lookup_insert_Some. intros [[<- <-]|[_ Hd]]; [set_solver|].
    destruct (IH1 d Hd). set_solver.
  - intros (d & [Hd| ->%list_elem_of_singleton]%elem_of_app & <-).
    + destruct (decide (liq_id l = liq_id d)) as [E|E].
      * rewrite E, lookup_insert_eq. eauto.
      * rewrite lookup_insert_ne by done. eauto.
    + rewrite lookup_insert_eq. eauto.
Qed.

(** With distinct ids the reference of a registered pool is the liquidity it was
    made from. *)
Lemma liquidity_by_id_NoDup ls d :
  NoDup (map liq_id ls) -> d ∈ ls -> liquidity_by_id ls !! liq_id d = Some d.
Proof.
  intros Hnd Hd. destruct (proj2 (liquidity_by_id_lookup ls (liq_id d))) as [d' Hd']; [eauto|].
  destruct (proj1 (liquidity_by_id_lookup ls (liq_id d)) d' Hd') as [Hin Hid].
  rewrite Hd'. f_equal.
  apply list_elem_of_lookup in Hd as [i Hi]. apply list_elem_of_lookup in Hin as [j Hj].
  assert (i = j) as ->; [|congruence].
  apply (NoDup_lookup (map liq_id ls) i j (liq_id d) Hnd); rewrite list_lookup_fmap;
    [by rewrite Hi|rewrite Hj]; simpl; congruence.
Qed.

(** ** Traversal *)

(** A solver built over the liquidity [ls]. *)
Definition solver_ok (ls : list Liquidity) (s : Solver) : Prop :=
  onchain_from ls (solver_onchain_liquidity s) /\ solver_liquidity s = liquidity_by_id ls.

Lemma Solver_new_returns weth base ls q :
  quoter_opt_ok q -> Forall (liquidity_wf q) ls ->
  returns (Solver_new weth base ls q) (fun s =>
    solver_ok ls s /\ solver_base_tokens s = BaseTokens_new weth base).
Proof.
  intros Hq Hls. unfold Solver_new.
  eapply returns_bind; [by apply to_boundary_liquidity_returns|]. intros m Hm. by split.
Qed.

(** [follows ls path x pools segs v]: the segments are the trades of [x] along
    [path] through [pools], in order, each quoted by its pool and attributed to
    the liquidity with the pool's id. *)
Inductive follows (ls : list Liquidity) :
  list address -> Z -> list OnchainLiquidity -> list Segment -> Z -> Prop :=
| follows_end t x : follows ls [t] x [] [] x
| follows_hop t t' path x y v l d pools segs :
    liquidity_by_id ls !! oc_id l = Some d ->
    onchain_get_amount_out l t' (x, t) = Ret (Some y) ->
    follows ls (t' :: path) y pools segs v ->
    follows ls (t :: t' :: path) x (l :: pools)
      (mkSegment d (mkAsset t x) (mkAsset t' y) (onchain_gas_cost l) :: segs) v.

(** The pools of a path, without amounts. *)
Inductive chain (m : onchain_map) : list address -> list OnchainLiquidity -> Prop :=
| chain_end t : chain m [t] []
| chain_hop t t' path l pools tp ps :
    TokenPair_new t t' = Some tp -> m !! tp = Some ps -> l ∈ ps ->
    chain m (t' :: path) pools -> chain m (t :: t' :: path) (l :: pools).

Lemma run_in_chain m path y pools x : run_in m path y pools x -> chain m path pools.
Proof. induction 1; [constructor|]. by eapply chain_hop. Qed.

Section traverse.
Context (ls : list Liquidity) (s : Solver) (Hs : solver_ok ls s).

Lemma registered_facts tp ps l t t' :
  TokenPair_new t t' = Some tp -> solver_onchain_liquidity s !! tp = Some ps -> l ∈ ps ->
  onchain_trades l tp /\ TokenPair_other (oc_token_pair l) t = Some t' /\
  exists d, solver_liquidity s !! oc_id l = Some d /\ liquidity_by_id ls !! oc_id l = Some d.
Proof.
  destruct Hs as [Hfrom Hby]. intros Htp Hps Hl.
  destruct (Hfrom tp ps l Hps Hl) as (Htr & d & Hd & Hid).
  split; [done|]. split; [destruct Htr as [-> _]; by apply TokenPair_other_new|].
  rewrite Hby. destruct (proj2 (liquidity_by_id_lookup ls (oc_id l))) as [d' ?]; eauto.
Qed.

(** Re-quoting along a path never panics. *)
Lemma traverse_chain path pools t x :
  chain (solver_onchain_liquidity s) (t :: path) pools -> u256 x ->
  returns (traverse_path s pools t x) (fun o => forall segs, o = Some segs ->
    exists v, follows ls (t :: path) x pools segs v).
Proof.
  revert t x pools; induction path as [|t' path IH]; intros t x pools Hc Hx;
    inversion Hc as [|? ? ? l pools' tp ps Htp Hps Hl Hrest]; subst; cbn [traverse_path].
  { intros segs [= <-]. eexists. constructor. }
  destruct (registered_facts _ _ _ _ _ Htp Hps Hl) as (Htr & Ho & d & Hd & Hd').
  rewrite Hd, Ho. cbn [expect comp_bind].
  pose proof (get_amount_out_safe (trades := onchain_trades) l tp t t' x Htr Htp Hx) as Hsafe.
  cbn [get_amount_out onchain_solvable] in Hsafe.
  destruct (onchain_get_amount_out l t' (x, t)) as [[y|]|] eqn:Hy; cbn [comp_obind]; [|done|done].
  assert (u256 y) by (by eapply (get_amount_out_u256 (trades := onchain_trades) l tp t t' x)).
  specialize (IH t' y pools' Hrest ltac:(done)).
  destruct (traverse_path s pools' t' y) as [[segs|]|]; simpl in *; [|done|done].
  destruct (IH segs eq_refl) as [v Hv]. intros ? [= <-]. exists v. by constructor.
Qed.

(** Re-quoting an estimate reproduces its amounts. *)
Lemma traverse_run path pools t x v :
  run (solver_onchain_liquidity s) (t :: path) x pools v ->
  exists segs, traverse_path s pools t x = Ret (Some segs) /\ follows ls (t :: path) x pools segs v.
Proof.
  revert t x pools; induction path as [|t' path IH]; intros t x pools Hr;
    inversion Hr as [|? ? ? ? l y pools' ? tp ps Htp Hps Hl Hy Hrest]; subst; cbn [traverse_path].
  { eexists. split; [done|constructor]. }
  rewrite TokenPair_new_sym in Htp.
  destruct (registered_facts _ _ _ _ _ Htp Hps Hl) as (Htr & Ho & d & Hd & Hd').
  rewrite Hd, Ho. cbn [expect comp_bind]. cbn [get_amount_out onchain_solvable] in Hy.
  rewrite Hy. cbn [comp_obind]. destruct (IH _ _ _ Hrest) as (segs & -> & Hf). simpl.
  eexists. split; [done|]. by constructor.
Qed.
End traverse.

Lemma follows_length ls path x pools segs v :
  follows ls path x pools segs v -> length path = S (length segs) /\ length pools = length segs.
Proof. induction 1; simpl in *; lia. Qed.

Lemma follows_connected ls path t x pools segs v b :
  follows ls path x pools segs v -> head path = Some t -> last path = Some b -> segs <> [] ->
  connected (mkAsset t x) segs (mkAsset b v).
Proof.
  intros Hf. revert t; induction Hf as [t0 x|t0 t' path x y v l d pools segs Hd Hy Hf IH];
    intros t Ht Hb Hne; [done|]. simpl in Ht. simplify_eq.
  destruct segs as [|sg segs].
  - inversion Hf; subst. simpl in Hb. simplify_eq. apply (connected_one (mkSegment _ _ _ _)).
  - apply (connected_cons (mkSegment _ _ _ _)). apply IH; done.
Qed.

Lemma follows_from ls path x pools segs v :
  follows ls path x pools segs v -> Forall (fun sg => seg_liquidity sg ∈ ls) segs.
Proof.
  induction 1; constructor; [|done]. simpl. by eapply liquidity_by_id_lookup.
Qed.

Lemma follows_gas ls path x pools segs v :
  follows ls path x pools segs v -> Forall (fun sg => 0 <= seg_gas sg) segs.
Proof.
  induction 1; constructor; [|done]. cbn [seg_gas]. unfold onchain_gas_cost. by case_match.
Qed.

Lemma follows_tokens ls path x pools segs v :
  follows ls path x pools segs v ->
  map (fun sg => asset_token (seg_output sg)) segs = tail path.
Proof. induction 1; simpl; [done|]. f_equal. done. Qed.

(** The candidates that produce a route, in iteration order. *)
Lemma candidates_elem {B} (f : list address -> comp (option B)) ps rs b :
  comp_map f ps = Ret rs -> b ∈ omap id rs <-> exists p, p ∈ ps /\ f p = Ret (Some b).
Proof.
  intros H%comp_map_Ret. induction H as [|p r ps rs Hp Hps IH]; simpl; [set_solver|].
  destruct r as [r|]; simpl; rewrite ?elem_of_cons, IH.
  - split; [intros [->|(q & ? & ?)]; [exists p; set_solver|exists q; set_solver]|].
    intros (q & [->|?]%elem_of_cons & Hq); [left; congruence|eauto].
  - split; [intros (q & ? & ?); exists q; set_solver|].
    intros (q & [->|?]%elem_of_cons & Hq); [congruence|eauto].
Qed.

(** ** The best route *)
Section best_route.
Context (ls : list Liquidity) (s : Solver) (Hs : solver_ok ls s).
Context (request : Request).
Local Abbreviation sell_token := (asset_token (req_sell request)).
Local Abbreviation buy_token := (asset_token (req_buy request)).
Local Abbreviation sell_amount := (asset_amount (req_sell request)).
Local Abbreviation buy_amount := (asset_amount (req_buy request)).
Local Abbreviation onchain := (solver_onchain_liquidity s).

Lemma solver_ok_liquidity : liquidity_ok onchain_trades onchain.
Proof. intros tp pools l Htp Hl. by apply (proj1 Hs tp pools l). Qed.

Lemma follows_nonempty path x pools segs v :
  follows ls path x pools segs v -> (2 <= length path)%nat -> segs <> [].
Proof. intros [Hl _]%follows_length H ->. simpl in Hl. lia. Qed.

Lemma candidate_sell_returns path t t' rest :
  path = t :: t' :: rest -> t = sell_token -> u256 sell_amount ->
  returns (candidate_sell s request path) (fun o =>
    (forall segs e, o = Some (segs, e) ->
       estimate_buy_amount sell_amount path onchain = Ret (Some e) /\
       follows ls path sell_amount (est_path e) segs (est_value e) /\ buy_amount <= est_value e) /\
    (forall e, estimate_buy_amount sell_amount path onchain = Ret (Some e) ->
       buy_amount <= est_value e -> exists segs, o = Some (segs, e))).
Proof.
  intros Hpath Ht Hx. unfold candidate_sell.
  pose proof (estimate_buy_safe onchain_trades onchain path sell_amount solver_ok_liquidity Hx) as Hsafe.
  destruct (estimate_buy_amount sell_amount path onchain) as [[e|]|] eqn:He; [|split; naive_solver|done].
  cbn [comp_obind]. apply estimate_buy_run in He. subst path.
  destruct (traverse_run ls s Hs _ _ _ _ _ He) as (segs & Htr & Hf).
  rewrite <- Ht, Htr. cbn [comp_obind].
  inversion Hf as [|? ? ? ? y ? l d pools segs' Hd Hy Hf']; subst. cbn [head seg_input asset_amount].
  rewrite (proj2 (Z.leb_le sell_amount sell_amount)) by lia. cbn [negb].
  destruct (Z.leb_spec buy_amount (est_value e)).
  - split; [intros ? ? [= <- <-]; split_and!; [done| |done]|intros ? [= <-] _; eauto].
    congruence.
  - split; [done|]. intros ? [= <-]. lia.
Qed.

Lemma candidate_shape native base p hops :
  p ∈ path_candidates_with_hops (BaseTokens_new native base) sell_token buy_token hops ->
  exists t' rest, p = sell_token :: t' :: rest /\ last p = Some buy_token /\
    (length p <= hops + 2)%nat.
Proof.
  intros (_ & mid & -> & Hlen & _)%path_candidates_elem.
  assert (last (sell_token :: mid ++ [buy_token]) = Some buy_token) as Hlast
    by (rewrite app_comm_cons; apply last_snoc).
  destruct mid as [|t mid]; [exists buy_token, []|exists t, (mid ++ [buy_token])];
    (split_and!; [done|done|simpl in *; rewrite ?length_app; simpl; lia]).
Qed.

#[local] Instance route_cmp_preorder : CmpPreorder route_cmp.
Proof. unfold route_cmp. apply _. Qed.

Lemma route_cmp_value a b : route_cmp a b <> Gt -> est_value a.2 <= est_value b.2.
Proof.
  unfold route_cmp, cmp_then, cmp_on.
  destruct (Z.compare_spec (est_value a.2) (est_value b.2)); simpl; [lia..|done].
Qed.

Context (weth : address) (base : list address).
Hypothesis Hbase : solver_base_tokens s = BaseTokens_new weth base.
Context (iter : hash_order).
Hypothesis Hiter : forall l, iter l ≡ₚ l.
Context (max_hops : nat).
Local Abbreviation candidates :=
  (path_candidates_with_hops (BaseTokens_new weth base) sell_token buy_token max_hops).

(** A sell request gets the candidate with the largest output, if one reaches
    the floor. *)
Lemma route_sell_spec :
  req_side request = Sell -> u256 sell_amount ->
  returns (route iter s request max_hops) (fun o =>
    match o with
    | Some r => exists path e, path ∈ candidates /\
        estimate_buy_amount sell_amount path onchain = Ret (Some e) /\
        follows ls path sell_amount (est_path e) r (est_value e) /\ buy_amount <= est_value e /\
        forall p' e', p' ∈ candidates -> estimate_buy_amount sell_amount p' onchain = Ret (Some e') ->
          est_value e' <= est_value e
    | None => forall p' e', p' ∈ candidates ->
        estimate_buy_amount sell_amount p' onchain = Ret (Some e') -> est_value e' < buy_amount
    end).
Proof.
  intros Hside Hx. unfold route. rewrite Hbase, Hside.
  assert (forall p, p ∈ candidates -> exists t' rest, p = sell_token :: t' :: rest) as Hshape.
  { intros p (t' & rest & ? & _)%candidate_shape. eauto. }
  set (ps := iter candidates). assert (forall p, p ∈ ps <-> p ∈ candidates) as Hps.
  { intros p. unfold ps. by rewrite Hiter. }
  assert (safe (comp_map (candidate_sell s request) ps)) as Hsafe.
  { eapply (returns_safe _ _), (comp_map_returns _ (fun _ _ => True)). intros p Hp.
    destruct (Hshape p (proj1 (Hps p) Hp)) as (t' & rest & ->).
    eapply returns_mono; [by eapply candidate_sell_returns|done]. }
  destruct (comp_map (candidate_sell s request) ps) as [rs|] eqn:Hrs; [|done]. cbn [comp_bind].
  assert (forall p' e', p' ∈ candidates -> estimate_buy_amount sell_amount p' onchain = Ret (Some e') ->
    buy_amount <= est_value e' -> exists segs, (segs, e') ∈ omap id rs) as Hcomplete.
  { intros p' e' Hp' He' Hle. destruct (Hshape p' Hp') as (t' & rest & Hpe).
    destruct (returns_inv _ _ (candidate_sell_returns p' _ t' rest Hpe eq_refl Hx)) as (o & Ho & _ & Hc).
    destruct (Hc e' He' Hle) as [segs ->]. exists segs.
    apply (candidates_elem _ _ _ _ Hrs). exists p'. by rewrite Hps. }
  destruct (max_by route_cmp (omap id rs)) as [[segs e]|] eqn:Hmax; cbn [comp_obind returns].
  - apply max_by_Some in Hmax as [Hin Hge]; [|apply _].
    apply (candidates_elem _ _ _ _ Hrs) in Hin as (path & Hpath & Hcand). apply Hps in Hpath.
    destruct (Hshape path Hpath) as (t' & rest & Hpe).
    destruct (returns_inv _ _ (candidate_sell_returns path _ t' rest Hpe eq_refl Hx)) as (o & Ho & Hsound & _).
    rewrite Hcand in Ho. injection Ho as <-. destruct (Hsound segs e eq_refl) as (He & Hf & Hfloor).
    cbn [fst]. assert (segs <> []) as Hne.
    { eapply follows_nonempty; [exact Hf|]. subst path. simpl. lia. }
    destruct segs as [|sg segs]; [done|]. cbn [Route_new]. exists path, e. split_and!; [done..|].
    intros p' e' Hp' He'. destruct (Z.le_gt_cases buy_amount (est_value e')) as [Hle|]; [|lia].
    destruct (Hcomplete p' e' Hp' He' Hle) as [segs' Hin'].
    specialize (Hge _ Hin'). by apply route_cmp_value in Hge.
  - apply max_by_None in Hmax. intros p' e' Hp' He'.
    destruct (Z.le_gt_cases buy_amount (est_value e')) as [Hle|]; [|lia].
    destruct (Hcomplete p' e' Hp' He' Hle) as [segs' Hin']. rewrite Hmax in Hin'. set_solver.
Qed.

Lemma candidate_buy_returns path t t' rest :
  path = t :: t' :: rest -> t = sell_token -> u256 buy_amount ->
  returns (candidate_buy s request path) (fun o => forall segs e, o = Some (segs, e) ->
    estimate_sell_amount buy_amount path onchain = Ret (Some e) /\
    0 <= est_value e <= sell_amount /\
    exists v, follows ls path (est_value e) (est_path e) segs v /\ buy_amount <= v).
Proof.
  intros Hpath Ht Hy. unfold candidate_buy.
  pose proof (estimate_sell_returns onchain_trades onchain path buy_amount solver_ok_liquidity Hy) as Hest.
  destruct (estimate_sell_amount buy_amount path onchain) as [[e|]|] eqn:He; [|done|done].
  cbn [comp_obind returns] in *. specialize (Hest e eq_refl).
  apply estimate_sell_run, run_in_chain in He. subst path.
  pose proof (traverse_chain ls s Hs _ _ _ _ He Hest) as Htr. rewrite <- Ht.
  destruct (traverse_path s (est_path e) t (est_value e)) as [[segs|]|]; cbn [comp_obind returns] in *; [|done|done].
  destruct (Htr segs eq_refl) as [v Hf].
  assert (segs <> []) as Hne by (eapply follows_nonempty; [exact Hf|simpl; lia]).
  destruct (last (t :: t' :: rest)) as [b|] eqn:Hb; [|by apply last_None in Hb].
  pose proof (follows_connected _ _ t _ _ _ _ b Hf eq_refl Hb Hne) as Hc.
  destruct (connected_last _ _ _ Hc) as (sg & Hl & Hout). rewrite Hl, Hout. cbn [asset_amount].
  destruct (Z.leb_spec buy_amount v); cbn [negb]; [|done].
  destruct (Z.leb_spec (est_value e) sell_amount); [|done].
  intros ? ? [= <- <-]. unfold u256 in Hest. eauto with lia.
Qed.

(** A buy request gets the candidate with the smallest input among those that
    cover the bought amount within the sell limit. *)
Lemma route_buy_spec :
  req_side request = Buy -> u256 buy_amount ->
  returns (route iter s request max_hops) (fun o =>
    match o with
    | Some r => exists path e v, path ∈ candidates /\
        follows ls path (est_value e) (est_path e) r v /\
        buy_amount <= v /\ 0 <= est_value e <= sell_amount /\
        forall p' segs' e', p' ∈ candidates -> candidate_buy s request p' = Ret (Some (segs', e')) ->
          est_value e <= est_value e'
    | None => forall p', p' ∈ candidates -> candidate_buy s request p' = Ret None
    end).
Proof.
  intros Hside Hy. unfold route. rewrite Hbase, Hside.
  assert (forall p, p ∈ candidates -> exists t' rest, p = sell_token :: t' :: rest) as Hshape.
  { intros p (t' & rest & ? & _)%candidate_shape. eauto. }
  set (ps := iter candidates). assert (forall p, p ∈ ps <-> p ∈ candidates) as Hps.
  { intros p. unfold ps. by rewrite Hiter. }
  assert (forall p, p ∈ candidates -> safe (candidate_buy s request p)) as Hcsafe.
  { intros p Hp. destruct (Hshape p Hp) as (t' & rest & ->).
    eapply returns_safe, candidate_buy_returns; done. }
  assert (safe (comp_map (candidate_buy s request) ps)) as Hsafe.
  { eapply (returns_safe _ _), (comp_map_returns _ (fun _ _ => True)). intros p Hp.
    apply Hps, Hcsafe in Hp. by destruct (candidate_buy s request p). }
  destruct (comp_map (candidate_buy s request) ps) as [rs|] eqn:Hrs; [|done]. cbn [comp_bind].
  destruct (min_by route_cmp (omap id rs)) as [[segs e]|] eqn:Hmin; cbn [comp_obind returns].
  - apply min_by_Some in Hmin as [Hin Hle]; [|apply _].
    apply (candidates_elem _ _ _ _ Hrs) in Hin as (path & Hpath & Hcand). apply Hps in Hpath.
    destruct (Hshape path Hpath) as (t' & rest & Hpe).
    pose proof (candidate_buy_returns path _ t' rest Hpe eq_refl Hy) as Hr.
    rewrite Hcand in Hr. destruct (Hr segs e eq_refl) as (He & Hlim & v & Hf & Hv). cbn [fst].
    assert (segs <> []) as Hne.
    { eapply follows_nonempty; [exact Hf|]. subst path. simpl. lia. }
    destruct segs as [|sg segs]; [done|]. cbn [Route_new]. exists path, e, v. split; [done|]. split; [done|].
    split; [done|]. split; [done|].
    intros p' segs' e' Hp' Hc'. assert ((segs', e') ∈ omap id rs) as Hin'.
    { apply (candidates_elem _ _ _ _ Hrs). exists p'. by rewrite Hps. }
    specialize (Hle _ Hin'). by apply route_cmp_value in Hle.
  - apply min_by_None in Hmin. intros p' Hp'. specialize (Hcsafe p' Hp').
    destruct (candidate_buy s request p') as [[[segs' e']|]|] eqn:Hc'; [|done|done].
    assert ((segs', e') ∈ omap id rs) as Hin'.
    { apply (candidates_elem _ _ _ _ Hrs). exists p'. by rewrite Hps. }
    rewrite Hmin in Hin'. set_solver.
Qed.
End best_route.

(** What every route of a solver over [ls] looks like. *)
Definition route_ok (ls : list Liquidity) (request : Request) (max_hops : nat) (r : Route)
  (amount_in amount_out : Z) : Prop :=
  connected (mkAsset (asset_token (req_sell request)) amount_in) r
            (mkAsset (asset_token (req_buy request)) amount_out) /\
  (1 <= length r <= max_hops + 1)%nat /\
  Forall (fun sg => seg_liquidity sg ∈ ls) r.

Lemma follows_route_ok ls request native base hops path x pools r v :
  path ∈ path_candidates_with_hops (BaseTokens_new native base)
    (asset_token (req_sell request)) (asset_token (req_buy request)) hops ->
  follows ls path x pools r v -> route_ok ls request hops r x v.
Proof.
  intros (t' & rest & -> & Hlast & Hlen)%candidate_shape Hf.
  pose proof (follows_length _ _ _ _ _ _ Hf) as [Hl _].
  assert (r <> []) as Hne by (eapply follows_nonempty; [exact Hf|simpl; lia]).
  split_and!.
  - by eapply follows_connected.
  - simpl in *. lia.
  - simpl in *. lia.
  - by eapply follows_from.
Qed.

(** For a sell request over any well-formed snapshot, routing
    never panics; a returned route is connected from the exact sell amount to the
    buy token, has at most [max_hops + 1] segments, only uses liquidity of the
    snapshot, reaches the requested floor, and no candidate path estimates to more;
    no route means that no candidate path reaches the floor. *)
Theorem route_sell_best weth base ls q iter request max_hops :
  quoter_opt_ok q -> Forall (liquidity_wf q) ls -> (forall l, iter l ≡ₚ l) ->
  req_side request = Sell -> u256 (asset_amount (req_sell request)) ->
  exists s, Solver_new weth base ls q = Ret s /\
    let estimate p := estimate_buy_amount (asset_amount (req_sell request)) p (solver_onchain_liquidity s) in
    let cands := path_candidates_with_hops (BaseTokens_new weth base)
      (asset_token (req_sell request)) (asset_token (req_buy request)) max_hops in
    exists o, route iter s request max_hops = Ret o /\
    match o with
    | Some r => exists v, route_ok ls request max_hops r (asset_amount (req_sell request)) v /\
        asset_amount (req_buy request) <= v /\
        forall p e, p ∈ cands -> estimate p = Ret (Some e) -> est_value e <= v
    | None => forall p e, p ∈ cands -> estimate p = Ret (Some e) ->
        est_value e < asset_amount (req_buy request)
    end.
Proof.
  intros Hq Hls Hiter Hside Hx.
  destruct (returns_inv _ _ (Solver_new_returns weth base ls q Hq Hls)) as (s & Hs & Hok & Hbase).
  exists s. split; [done|]. intros estimate cands.
  destruct (returns_inv _ _ (route_sell_spec ls s Hok request weth base Hbase iter Hiter max_hops Hside Hx))
    as ([r|] & Ho & H); (eexists; split; [exact Ho|]); [|exact H].
  destruct H as (path & e & Hp & He & Hf & Hfloor & Hbest).
  exists (est_value e). split; [by eapply follows_route_ok|]. split; [done|exact Hbest].
Qed.

(** For a buy request over any well-formed snapshot, routing
    never panics; a returned route spends at most the sell limit, buys at least the
    requested amount, is connected and bounded like a sell route, and has the
    smallest input among the candidate paths that qualify; no route means that no
    candidate qualifies. *)
Theorem route_buy_best weth base ls q iter request max_hops :
  quoter_opt_ok q -> Forall (liquidity_wf q) ls -> (forall l, iter l ≡ₚ l) ->
  req_side request = Buy -> u256 (asset_amount (req_buy request)) ->
  exists s, Solver_new weth base ls q = Ret s /\
    let cands := path_candidates_with_hops (BaseTokens_new weth base)
      (asset_token (req_sell request)) (asset_token (req_buy request)) max_hops in
    exists o, route iter s request max_hops = Ret o /\
    match o with
    | Some r => exists u v, route_ok ls request max_hops r u v /\
        u <= asset_amount (req_sell request) /\ asset_amount (req_buy request) <= v /\
        forall p segs e, p ∈ cands -> candidate_buy s request p = Ret (Some (segs, e)) -> u <= est_value e
    | None => forall p, p ∈ cands -> candidate_buy s request p = Ret None
    end.
Proof.
  intros Hq Hls Hiter Hside Hy.
  destruct (returns_inv _ _ (Solver_new_returns weth base ls q Hq Hls)) as (s & Hs & Hok & Hbase).
  exists s. split; [done|]. intros cands.
  destruct (returns_inv _ _ (route_buy_spec ls s Hok request weth base Hbase iter Hiter max_hops Hside Hy))
    as ([r|] & Ho & H); (eexists; split; [exact Ho|]); [|exact H].
  destruct H as (path & e & v & Hp & Hf & Hv & Hlim & Hbest).
  exists (est_value e), v. split; [by eapply follows_route_ok|]. split_and!; [lia|done|exact Hbest].
Qed.

(** ** Examples *)
Definition example_cp (id : string) (addr t0 r0 t1 r1 : Z) : Liquidity :=
  mkLiquidity id addr None 0 (ConstantProduct
    (mkDomainPool (mkReserves (mkAsset t0 r0) (mkAsset t1 r1)) (3, 1000))).

Definition example_snapshot : list Liquidity :=
  [example_cp "direct" 101 1 1000000 2 900000;
   example_cp "leg-a" 102 1 5000000 3 5000000;
   example_cp "leg-b" 103 2 5000000 3 5000000].

Lemma example_snapshot_wf : Forall (liquidity_wf None) example_snapshot.
Proof.
  repeat constructor; unfold liquidity_wf, domain_pool_wf, POOL_MAX_RESERVES; simpl; lia.
Qed.

Lemma no_quoter_ok : quoter_opt_ok None.
Proof. intros q. discriminate. Qed.

Definition example_request (side : Side) (sell buy : Z) : Request :=
  mkRequest (mkAsset 1 sell) (mkAsset 2 buy) side [].

(** The two-hop route through token 3 beats the direct pool. *)
Example route_example :
  (let! s := Solver_new 3 [] example_snapshot None in
   let!? r := route id s (example_request Sell 100000 90000) 1 in
   Ret (Some (path_key r, map seg_output r)))
  = Ret (Some (["leg-a"; "leg-b"], [mkAsset 3 97750; mkAsset 2 95593])).
Proof. vm_compute. reflexivity. Qed.

Lemma route_sell_best_witness :
  exists s r v, Solver_new 3 [] example_snapshot None = Ret s /\
    route id s (example_request Sell 100000 90000) 1 = Ret (Some r) /\
    route_ok example_snapshot (example_request Sell 100000 90000) 1 r 100000 v /\ 90000 <= v.
Proof.
  destruct (route_sell_best 3 [] example_snapshot None id (example_request Sell 100000 90000) 1)
    as (s & Hs & o & Ho & H);
    [exact no_quoter_ok|exact example_snapshot_wf|reflexivity|reflexivity|unfold u256; simpl; lia|].
  pose proof route_example as E. rewrite Hs in E. cbn [comp_bind] in E. rewrite Ho in E.
  destruct o as [r|]; [|discriminate E]. destruct H as (v & Hok & Hfloor & _).
  exists s, r, v. split; [exact Hs|]. split; [exact Ho|]. split; [exact Hok|exact Hfloor].
Defined.

Example route_buy_example :
  (let! s := Solver_new 3 [] example_snapshot None in
   let!? r := route id s (example_request Buy 100000 90000) 1 in
   Ret (Some (path_key r, map seg_input r)))
  = Ret (Some (["leg-a"; "leg-b"], [mkAsset 1 93930; mkAsset 3 91926])).
Proof. vm_compute. reflexivity. Qed.

Lemma route_buy_best_witness :
  exists s r u v, Solver_new 3 [] example_snapshot None = Ret s /\
    route id s (example_request Buy 100000 90000) 1 = Ret (Some r) /\
    route_ok example_snapshot (example_request Buy 100000 90000) 1 r u v /\ u <= 100000 /\ 90000 <= v.
Proof.
  destruct (route_buy_best 3 [] example_snapshot None id (example_request Buy 100000 90000) 1)
    as (s & Hs & o & Ho & H);
    [exact no_quoter_ok|exact example_snapshot_wf|reflexivity|reflexivity|unfold u256; simpl; lia|].
  pose proof route_buy_example as E. rewrite Hs in E. cbn [comp_bind] in E. rewrite Ho in E.
  destruct o as [r|]; [|discriminate E]. destruct H as (u & v & Hok & Hlim & Hv & _).
  exists s, r, u, v. split; [exact Hs|]. split; [exact Ho|]. split; [exact Hok|]. split; [exact Hlim|exact Hv].
Defined.

(** ** Order of iteration *)

(** A weighted pool over three tokens with equal balances and weights. *)
Definition symmetric_pool (id : string) (addr : Z) (tokens : list address) : Liquidity :=
  mkLiquidity id addr None 0 (WeightedProduct (mkWeightedDomainPool
    (map (fun t => mkWeightedReserve (mkAsset t (10 ^ 24)) (1, 3) (1, 1)) tokens) (3, 1000) V0)).

Definition tie_snapshot : list Liquidity :=
  [symmetric_pool "P" 101 [1; 2; 3]; symmetric_pool "Q" 102 [2; 3; 4]].
Definition tie_request : Request := mkRequest (mkAsset 1 (10 ^ 20)) (mkAsset 4 0) Sell [].

(** Two paths through the same
    pools have the same key, so that equally priced routes are not ordered by it:
    the same request over the same snapshot gets a different route when the
    candidate set is iterated in another order. *)
Theorem route_tie_depends_on_iteration_order :
  exists s r r',
    Solver_new 2 [3] tie_snapshot None = Ret s /\
    route id s tie_request 1 = Ret (Some r) /\ route reverse s tie_request 1 = Ret (Some r') /\
    path_key r = path_key r' /\
    map seg_output r <> map seg_output r'.
Proof.
  eexists. eexists. eexists. split; [vm_compute; reflexivity|].
  split; [vm_compute; reflexivity|]. split; [vm_compute; reflexivity|].
  split; [reflexivity|]. intros H. discriminate H.
Qed.

Lemma comp_map_perm {A B} (f : A -> comp B) l l' k :
  l ≡ₚ l' -> comp_map f l = Ret k -> exists k', comp_map f l' = Ret k' /\ k ≡ₚ k'.
Proof.
  intros Hp. revert k; induction Hp as [|x l l' Hp IH|x y l|l l' l'' _ IH1 _ IH2]; intros k Hk.
  - simpl in *. simplify_eq. eauto.
  - cbn [comp_map] in *. apply comp_bind_Ret in Hk as (b & Hb & Hk).
    apply comp_bind_Ret in Hk as (k0 & Hk0 & [= <-]). destruct (IH k0 Hk0) as (k' & -> & ?).
    rewrite Hb. simpl. eexists. split; [done|]. by constructor.
  - cbn [comp_map] in *. apply comp_bind_Ret in Hk as (b & Hb & Hk).
    apply comp_bind_Ret in Hk as (k0 & Hk0 & [= <-]).
    apply comp_bind_Ret in Hk0 as (c & Hc & Hk0). apply comp_bind_Ret in Hk0 as (k1 & Hk1 & [= <-]).
    rewrite Hc, Hb, Hk1. simpl. eexists. split; [done|]. apply Permutation_swap.
  - destruct (IH1 k Hk) as (k' & Hk' & ?). destruct (IH2 k' Hk') as (k'' & Hk'' & ?).
    exists k''. split; [done|]. by etrans.
Qed.

Lemma list_str_cmp_Eq (l k : list string) : list_cmp str_cmp l k = Eq -> l = k.
Proof. apply list_cmp_Eq, str_cmp_Eq. Qed.

Lemma route_cmp_Eq a b : route_cmp a b = Eq -> est_value a.2 = est_value b.2 /\ path_key a.1 = path_key b.1.
Proof.
  unfold route_cmp, cmp_then, cmp_on.
  destruct (Z.compare_spec (est_value a.2) (est_value b.2)) as [E| |]; simpl; [|done|done].
  intros H. split; [done|]. by apply list_str_cmp_Eq.
Qed.

(** Two runs over the same snapshot agree on whether there is a route, and on the
    liquidity it uses. *)
Lemma route_sell_perm s request iter iter' max_hops r r' :
  (forall l, iter l ≡ₚ l) -> (forall l, iter' l ≡ₚ l) -> req_side request = Sell ->
  route iter s request max_hops = Ret r -> route iter' s request max_hops = Ret r' ->
  (r = None <-> r' = None) /\ forall x y, r = Some x -> r' = Some y -> path_key x = path_key y.
Proof.
  intros Hi Hi' Hside. unfold route. rewrite Hside.
  set (c := path_candidates_with_hops _ _ _ _). intros Hr Hr'.
  assert (iter c ≡ₚ iter' c) as Hp by (by rewrite Hi, Hi').
  destruct (comp_map (candidate_sell s request) (iter c)) as [rs|] eqn:Hrs; [|done].
  destruct (comp_map_perm _ _ _ _ Hp Hrs) as (rs' & Hrs' & Hperm). rewrite Hrs' in Hr'.
  cbn [comp_bind] in *. assert (omap id rs ≡ₚ omap id rs') as Hpo by (by rewrite Hperm).
  destruct (max_by route_cmp (omap id rs)) as [m|] eqn:Hm, (max_by route_cmp (omap id rs')) as [m'|] eqn:Hm';
    simpl in Hr, Hr'; simplify_eq.
  - pose proof (max_by_perm route_cmp _ _ _ _ Hpo Hm Hm') as [_ Hk]%route_cmp_Eq.
    destruct m as [[|sg segs] e], m' as [[|sg' segs'] e']; simpl in *; try done.
    split; [done|]. intros x y [= <-] [= <-]. done.
  - apply max_by_None in Hm'. rewrite Hm' in Hpo. symmetry in Hpo. apply Permutation_nil in Hpo.
    rewrite Hpo in Hm. done.
  - apply max_by_None in Hm. rewrite Hm in Hpo. apply Permutation_nil in Hpo.
    rewrite Hpo in Hm'. done.
  - done.
Qed.

(** What the iteration order cannot change: over the same
    well-formed snapshot any two orders agree on whether a sell request has a
    route, on the output amount, and on the sequence of liquidity ids used. *)
Theorem route_order_independent weth base ls q iter iter' request max_hops s :
  quoter_opt_ok q -> Forall (liquidity_wf q) ls ->
  (forall l, iter l ≡ₚ l) -> (forall l, iter' l ≡ₚ l) ->
  req_side request = Sell -> u256 (asset_amount (req_sell request)) ->
  Solver_new weth base ls q = Ret s ->
  (route iter s request max_hops = Ret None /\ route iter' s request max_hops = Ret None) \/
  exists r r' v, route iter s request max_hops = Ret (Some r) /\
    route iter' s request max_hops = Ret (Some r') /\ path_key r = path_key r' /\
    Route_output r = Ret (mkAsset (asset_token (req_buy request)) v) /\
    Route_output r' = Ret (mkAsset (asset_token (req_buy request)) v).
Proof.
  intros Hq Hls Hi Hi' Hside Hx HS.
  destruct (returns_inv _ _ (Solver_new_returns weth base ls q Hq Hls)) as (s' & Hs & Hok & Hbase).
  rewrite HS in Hs. injection Hs as <-.
  destruct (returns_inv _ _ (route_sell_spec ls s Hok request weth base Hbase iter Hi max_hops Hside Hx))
    as (o & Ho & H).
  destruct (returns_inv _ _ (route_sell_spec ls s Hok request weth base Hbase iter' Hi' max_hops Hside Hx))
    as (o' & Ho' & H').
  destruct (route_sell_perm _ _ _ _ _ _ _ Hi Hi' Hside Ho Ho') as [Hnone Hkey].
  destruct o as [r|], o' as [r'|]; [|naive_solver|naive_solver|auto]. right.
  destruct H as (p & e & Hp & He & Hf & _ & Hbest), H' as (p' & e' & Hp' & He' & Hf' & _ & Hbest').
  assert (est_value e = est_value e') as Heq
    by (pose proof (Hbest _ _ Hp' He'); pose proof (Hbest' _ _ Hp He); lia).
  exists r, r', (est_value e). split_and!; [done|done|by apply Hkey| |].
  - eapply follows_route_ok in Hf as [Hc _]; [|exact Hp]. by apply connected_input_output in Hc as [_ ?].
  - rewrite Heq. eapply follows_route_ok in Hf' as [Hc _]; [|exact Hp'].
    by apply connected_input_output in Hc as [_ ?].
Qed.

Lemma route_order_independent_witness :
  exists s r r' v, Solver_new 3 [] example_snapshot None = Ret s /\
    route id s (example_request Sell 100000 90000) 1 = Ret (Some r) /\
    route reverse s (example_request Sell 100000 90000) 1 = Ret (Some r') /\
    Route_output r = Ret (mkAsset 2 v) /\ Route_output r' = Ret (mkAsset 2 v).
Proof.
  destruct (Solver_new 3 [] example_snapshot None) as [s|] eqn:Hs; [|vm_compute in Hs; discriminate Hs].
  pose proof route_example as E. rewrite Hs in E. cbn [comp_bind] in E.
  destruct (route_order_independent 3 [] example_snapshot None id reverse (example_request Sell 100000 90000) 1 s)
    as [[H _]|(r & r' & v & Hr & Hr' & _ & Ho & Ho')];
    [exact no_quoter_ok|exact example_snapshot_wf|reflexivity|intros l; apply reverse_Permutation
    |reflexivity|unfold u256; simpl; lia|exact Hs| |].
  - rewrite H in E. discriminate E.
  - exists s, r, r', v. split; [reflexivity|]. split; [exact Hr|]. split; [exact Hr'|].
    split; [exact Ho|exact Ho'].
Defined.

(** ** The decoder's bound on concentrated fees is too weak *)
Definition constant_quoter : Quoter := mkQuoter (fun _ _ a _ => Some a) (fun _ _ a _ => Some a).

(** Building the solver panics on a snapshot with a concentrated pool
    whose fee does not fit in 24 bits, whenever a quoter is configured: the
    [expect] of the fee conversion is reachable from the request, whose decoder
    admits any 32-bit fee.  Without a quoter such a pool is skipped. *)
Theorem concentrated_fee_panics weth base id addr router gas tokens fee q :
  2 ^ 24 <= fee ->
  let l := mkLiquidity id addr router gas (Concentrated (mkConcentratedPool tokens fee)) in
  Solver_new weth base [l] (Some q) = Panic /\
  exists s, Solver_new weth base [l] None = Ret s.
Proof.
  intros Hfee l. split; [|by eexists].
  unfold Solver_new, to_boundary_liquidity. cbn [to_boundary_liquidity_from add_liquidity l liq_state].
  assert (fits 24 fee = false) as Hf.
  { destruct (fits 24 fee) eqn:E; [|done]. apply fits_spec in E. lia. }
  cbn [cp_fee]. by rewrite Hf.
Qed.

Lemma concentrated_fee_panics_witness :
  Solver_new 3 [] [mkLiquidity "univ3" 104 None 0 (Concentrated (mkConcentratedPool (1, 2) 20000000))]
    (Some constant_quoter) = Panic.
Proof.
  apply (concentrated_fee_panics 3 [] "univ3" 104 None 0 (1, 2) 20000000 constant_quoter). lia.
Defined.

(** ** The route beats every other choice of pools *)
Lemma onchain_deep id tp p M : deep M p -> deep M (mkOnchainLiquidity id tp (SourceConstantProduct p)).
Proof. intros [H1 H2]. split; [exact H1|exact H2]. Qed.

(** Greedy estimation loses nothing over deep liquidity: when
    every registered pool quotes all amounts up to a bound [M], pays at most [M]
    and never pays less for more, then the route of a sell request pays at least
    what any candidate path pays through any choice of one pool per hop; and if
    some choice reaches the floor there is a route. *)
Theorem route_beats_every_pool_choice weth base ls q iter request max_hops s M path pools w :
  quoter_opt_ok q -> Forall (liquidity_wf q) ls -> (forall l, iter l ≡ₚ l) ->
  req_side request = Sell -> 0 <= asset_amount (req_sell request) <= M -> M < 2 ^ 256 ->
  Solver_new weth base ls q = Ret s ->
  (forall tp ps l, solver_onchain_liquidity s !! tp = Some ps -> l ∈ ps -> deep M l) ->
  path ∈ path_candidates_with_hops (BaseTokens_new weth base)
    (asset_token (req_sell request)) (asset_token (req_buy request)) max_hops ->
  run (solver_onchain_liquidity s) path (asset_amount (req_sell request)) pools w ->
  asset_amount (req_buy request) <= w ->
  exists r v, route iter s request max_hops = Ret (Some r) /\
    Route_output r = Ret (mkAsset (asset_token (req_buy request)) v) /\ w <= v.
Proof.
  intros Hq Hls Hiter Hside Hx HM HS Hdeep Hpath Hrun Hw.
  destruct (returns_inv _ _ (Solver_new_returns weth base ls q Hq Hls)) as (s' & Hs & Hok & Hbase).
  rewrite HS in Hs. injection Hs as <-.
  pose proof (solver_ok_liquidity ls s Hok) as Hliq.
  destruct (estimate_buy_optimal onchain_trades _ M path _ pools w Hliq Hdeep Hx HM Hrun) as (e & He & Hwe).
  assert (u256 (asset_amount (req_sell request))) as Hux by (unfold u256; lia).
  destruct (returns_inv _ _ (route_sell_spec ls s Hok request weth base Hbase iter Hiter max_hops Hside Hux))
    as ([r|] & Ho & H).
  - destruct H as (p & e' & Hp & He' & Hf & _ & Hbest). exists r, (est_value e'). split; [done|].
    split; [|pose proof (Hbest _ _ Hpath He); lia].
    eapply follows_route_ok in Hf as [Hc _]; [|exact Hp]. by apply connected_input_output in Hc as [_ ?].
  - specialize (H _ _ Hpath He). lia.
Qed.

(** The boundary pool of an example pool. *)
Definition example_onchain (id : string) (addr t0 r0 t1 r1 : Z) : OnchainLiquidity :=
  mkOnchainLiquidity id (t0, t1) (SourceConstantProduct (mkPool addr (t0, t1) (r0, r1) (3, 1000))).

Lemma example_onchain_deep id addr t0 r0 t1 r1 :
  t0 < t1 -> 0 <= r0 < 2 ^ 111 -> 0 <= r1 < 2 ^ 111 ->
  deep (2 ^ 111 - 1) (example_onchain id addr t0 r0 t1 r1).
Proof.
  intros. apply onchain_deep, cp_deep; unfold pool_wf, POOL_MAX_RESERVES; simpl; lia.
Qed.

Lemma route_beats_every_pool_choice_witness :
  exists s r v, Solver_new 3 [] example_snapshot None = Ret s /\
    route id s (example_request Sell 100000 0) 1 = Ret (Some r) /\
    Route_output r = Ret (mkAsset 2 v) /\ 81594 <= v.
Proof.
  destruct (Solver_new 3 [] example_snapshot None) as [s|] eqn:Hs; [|vm_compute in Hs; discriminate Hs].
  assert (solver_onchain_liquidity s = {[ (1, 2) := [example_onchain "direct" 101 1 1000000 2 900000];
    (1, 3) := [example_onchain "leg-a" 102 1 5000000 3 5000000];
    (2, 3) := [example_onchain "leg-b" 103 2 5000000 3 5000000] ]}) as Hm.
  { vm_compute in Hs. injection Hs as <-. reflexivity. }

  assert (solver_onchain_liquidity s !! (1, 2) = Some [example_onchain "direct" 101 1 1000000 2 900000])
    as Hdirect by (rewrite Hm; reflexivity).
  assert (run (solver_onchain_liquidity s) [1; 2] 100000 [example_onchain "direct" 101 1 1000000 2 900000] 81594) as Hrun.
  { eapply run_hop; [reflexivity|exact Hdirect|apply list_elem_of_singleton; reflexivity|vm_compute; reflexivity|constructor]. }
  destruct (route_beats_every_pool_choice 3 [] example_snapshot None id (example_request Sell 100000 0) 1 s
    (2 ^ 111 - 1) [1; 2] [example_onchain "direct" 101 1 1000000 2 900000] 81594)
    as (r & v & Hr & Ho & Hv);
    [exact no_quoter_ok|exact example_snapshot_wf|reflexivity|reflexivity|simpl; lia|lia|exact Hs| | |exact Hrun|simpl; lia|].
  - intros tp ps l Hps Hl. rewrite Hm in Hps.
    apply elem_of_map_to_list in Hps. vm_compute in Hps.
    repeat (apply elem_of_cons in Hps as [Hps|Hps]; [injection Hps as -> ->;
      apply list_elem_of_singleton in Hl as ->; apply example_onchain_deep; lia|]).
    apply not_elem_of_nil in Hps as [].
  - apply list_elem_of_In. vm_compute. auto.
  - exists s, r, v. auto.
Defined.
