(* ===== verification/Mandate.v ===== *)
(** * Mandate: per-intent solving

    [crates/solvers/src/domain/mandate.rs]: one signed intent at a time, routed
    over the allowed venues of a block-pinned snapshot, with a hard floor. *)

From stdpp Require Import base gmap sets list strings.
From Stdlib Require Import ZArith Lia Permutation.
From S2P Require Import Prelude Collections Eth Solvable ConstantProduct.
From S2P Require Import BaselineSolver Liquidity Baseline.

Open Scope Z_scope.

(** [solver::Routing]. *)
Record Routing := mkRouting {
  routing_weth : address;
  routing_base_tokens : list address;
  routing_max_hops : nat;
  routing_quoter : option Quoter;
}.

Record Intent := mkIntent {
  intent_sell : Asset;
  intent_buy : Asset;
  intent_allowed_venues : gset address;
}.

Record Snapshot := mkSnapshot {
  snapshot_source : string;
  snapshot_block : Z;
  snapshot_liquidity : list Liquidity;
}.

(** [mandate::Segment]. *)
Record FillSegment := mkFillSegment {
  fs_liquidity : string;
  fs_input : Asset;
  fs_output : Asset;
}.

Record Fill := mkFill {
  fill_segments : list FillSegment;
  fill_expected_out : Z;
  fill_gas : Z;
  fill_source : string;
  fill_block : Z;
}.

Record Quote := mkQuote {
  quote_expected_out : Z;
  quote_source : string;
  quote_block : Z;
}.

(** The liquidity path finding gets to see. *)
Definition allowed_liquidity (venues : gset address) (snapshot : Snapshot) : list Liquidity :=
  filter (fun l => is_venue l venues = true) (snapshot_liquidity snapshot).

Definition solve (iter : hash_order) (routing : Routing) (intent : Intent) (snapshot : Snapshot)
  : comp (option Fill) :=
  let liquidity := allowed_liquidity (intent_allowed_venues intent) snapshot in
  let! solver := Solver_new (routing_weth routing) (routing_base_tokens routing) liquidity
                   (routing_quoter routing) in
  let request := mkRequest (intent_sell intent) (intent_buy intent) Sell [] in
  let!? r := route iter solver request (routing_max_hops routing) in
  let! output := Route_output r in
  let expected_out := asset_amount output in
  if expected_out <? asset_amount (intent_buy intent) then Ret None
  else Ret (Some (mkFill
    (map (fun segment => mkFillSegment (liq_id (seg_liquidity segment)) (seg_input segment)
                           (seg_output segment)) r)
    expected_out (Route_gas r) (snapshot_source snapshot) (snapshot_block snapshot))).

Definition quote (iter : hash_order) (routing : Routing) (sell : Asset) (buy_token : address)
  (allowed_venues : gset address) (snapshot : Snapshot) : comp (option Quote) :=
  let intent := mkIntent sell (mkAsset buy_token 0) allowed_venues in
  let!? fill := solve iter routing intent snapshot in
  Ret (Some (mkQuote (fill_expected_out fill) (fill_source fill) (fill_block fill))).

(** ** Fills *)

(** The hops of a fill form a chain of trades from one asset to another. *)
Inductive fill_connected : Asset -> list FillSegment -> Asset -> Prop :=
| fill_connected_one s : fill_connected (fs_input s) [s] (fs_output s)
| fill_connected_cons s segs out :
    fill_connected (fs_output s) segs out -> fill_connected (fs_input s) (s :: segs) out.

Lemma connected_fill a r b :
  connected a r b ->
  fill_connected a (map (fun segment => mkFillSegment (liq_id (seg_liquidity segment))
    (seg_input segment) (seg_output segment)) r) b.
Proof.
  induction 1 as [s|s r out H IH]; simpl.
  - apply (fill_connected_one (mkFillSegment _ _ _)).
  - apply (fill_connected_cons (mkFillSegment _ _ _)). exact IH.
Qed.

Lemma allowed_liquidity_elem venues snapshot l :
  l ∈ allowed_liquidity venues snapshot <->
  l ∈ snapshot_liquidity snapshot /\ is_venue l venues = true.
Proof. unfold allowed_liquidity. rewrite list_elem_of_filter. tauto. Qed.

Lemma allowed_liquidity_wf q venues snapshot :
  Forall (liquidity_wf q) (snapshot_liquidity snapshot) ->
  Forall (liquidity_wf q) (allowed_liquidity venues snapshot).
Proof.
  rewrite !Forall_forall. intros H l [Hl _]%allowed_liquidity_elem. auto.
Qed.

(** The candidates of an intent with their estimates. *)
Definition intent_candidates (routing : Routing) (intent : Intent) : list (list address) :=
  path_candidates_with_hops (BaseTokens_new (routing_weth routing) (routing_base_tokens routing))
    (asset_token (intent_sell intent)) (asset_token (intent_buy intent)) (routing_max_hops routing).

Section solve_spec.
Context (iter : hash_order) (Hiter : forall l, iter l ≡ₚ l).
Context (routing : Routing) (Hq : quoter_opt_ok (routing_quoter routing)).
Context (snapshot : Snapshot) (Hwf : Forall (liquidity_wf (routing_quoter routing)) (snapshot_liquidity snapshot)).

Lemma solve_returns intent :
  u256 (asset_amount (intent_sell intent)) ->
  exists s, Solver_new (routing_weth routing) (routing_base_tokens routing)
      (allowed_liquidity (intent_allowed_venues intent) snapshot) (routing_quoter routing) = Ret s /\
  returns (solve iter routing intent snapshot) (fun o =>
    match o with
    | Some fill => exists r e path,
        path ∈ intent_candidates routing intent /\
        estimate_buy_amount (asset_amount (intent_sell intent)) path (solver_onchain_liquidity s)
          = Ret (Some e) /\
        route_ok (allowed_liquidity (intent_allowed_venues intent) snapshot)
          (mkRequest (intent_sell intent) (intent_buy intent) Sell []) (routing_max_hops routing) r
          (asset_amount (intent_sell intent)) (est_value e) /\
        asset_amount (intent_buy intent) <= est_value e /\
        fill = mkFill (map (fun segment => mkFillSegment (liq_id (seg_liquidity segment))
                 (seg_input segment) (seg_output segment)) r) (est_value e) (Route_gas r)
                 (snapshot_source snapshot) (snapshot_block snapshot) /\
        forall p e', p ∈ intent_candidates routing intent ->
          estimate_buy_amount (asset_amount (intent_sell intent)) p (solver_onchain_liquidity s)
            = Ret (Some e') -> est_value e' <= est_value e
    | None => forall p e', p ∈ intent_candidates routing intent ->
          estimate_buy_amount (asset_amount (intent_sell intent)) p (solver_onchain_liquidity s)
            = Ret (Some e') -> est_value e' < asset_amount (intent_buy intent)
    end).
Proof.
  intros Hx. pose proof (allowed_liquidity_wf _ (intent_allowed_venues intent) snapshot Hwf) as Hls.
  destruct (returns_inv _ _ (Solver_new_returns (routing_weth routing) (routing_base_tokens routing)
    _ _ Hq Hls)) as (s & Hs & Hok & Hbase).
  exists s. split; [done|]. unfold solve. rewrite Hs. cbn [comp_bind].
  set (request := mkRequest (intent_sell intent) (intent_buy intent) Sell []).
  destruct (returns_inv _ _ (route_sell_spec _ s Hok request _ _ Hbase iter Hiter
    (routing_max_hops routing) eq_refl Hx)) as (o & -> & H).
  destruct o as [r|]; cbn [comp_obind returns]; [|exact H].
  destruct H as (path & e & Hp & He & Hf & Hfloor & Hbest).
  pose proof (follows_route_ok _ request _ _ _ _ _ _ _ _ Hp Hf) as Hrok.
  destruct (connected_input_output _ _ _ (proj1 Hrok)) as [_ ->]. cbn [comp_bind asset_amount].
  rewrite (proj2 (Z.ltb_ge _ _)) by exact Hfloor. cbn [returns].
  exists r, e, path. split_and!; [done..|exact Hbest].
Qed.
End solve_spec.

(** C2 (safety): solving an intent over any well-formed snapshot never panics, and
    every fill honours the intent: at least the floor is bought, starting from the
    exact sell amount, over a connected chain of at most [max_hops + 1] trades,
    each through a liquidity of the snapshot that the signer allowed by its pool or
    router address, and tagged with the snapshot it was computed against. *)
Theorem solve_honours_intent iter routing intent snapshot :
  (forall l, iter l ≡ₚ l) -> quoter_opt_ok (routing_quoter routing) ->
  Forall (liquidity_wf (routing_quoter routing)) (snapshot_liquidity snapshot) -> u256 (asset_amount (intent_sell intent)) ->
  exists o, solve iter routing intent snapshot = Ret o /\
  forall fill, o = Some fill ->
    asset_amount (intent_buy intent) <= fill_expected_out fill /\
    fill_connected (intent_sell intent) (fill_segments fill)
      (mkAsset (asset_token (intent_buy intent)) (fill_expected_out fill)) /\
    (1 <= length (fill_segments fill) <= routing_max_hops routing + 1)%nat /\
    Forall (fun sg => exists l, l ∈ snapshot_liquidity snapshot /\ liq_id l = fs_liquidity sg /\
      (liq_address l ∈ intent_allowed_venues intent \/
       exists router, liq_router l = Some router /\ router ∈ intent_allowed_venues intent))
      (fill_segments fill) /\
    fill_source fill = snapshot_source snapshot /\ fill_block fill = snapshot_block snapshot.
Proof.
  intros Hiter Hq Hwf Hx.
  destruct (solve_returns iter Hiter routing Hq snapshot Hwf intent Hx) as (s & Hs & Hr).
  destruct (returns_inv _ _ Hr) as (o & Ho & H). exists o. split; [done|]. intros fill ->.
  destruct H as (r & e & path & _ & _ & (Hc & Hlen & Hfrom) & Hfloor & -> & _). simpl.
  split; [done|]. split.
  { replace (intent_sell intent) with (mkAsset (asset_token (intent_sell intent))
      (asset_amount (intent_sell intent))) by (by destruct (intent_sell intent)).
    by apply connected_fill. }
  rewrite length_fmap. split; [done|]. split; [|done].
  apply Forall_fmap. eapply Forall_impl; [exact Hfrom|]. simpl.
  intros sg [Hin Hv]%allowed_liquidity_elem. apply is_venue_spec in Hv. eauto.
Qed.

(** C3 (functional): the fill is the best the allowed venues offer: no candidate
    path over the allowed liquidity estimates to more than the fill, and no fill
    means that none of them reaches the floor. *)
Theorem solve_optimal iter routing intent snapshot :
  (forall l, iter l ≡ₚ l) -> quoter_opt_ok (routing_quoter routing) ->
  Forall (liquidity_wf (routing_quoter routing)) (snapshot_liquidity snapshot) -> u256 (asset_amount (intent_sell intent)) ->
  exists s o, Solver_new (routing_weth routing) (routing_base_tokens routing)
      (allowed_liquidity (intent_allowed_venues intent) snapshot) (routing_quoter routing) = Ret s /\
    solve iter routing intent snapshot = Ret o /\
    forall path e, path ∈ intent_candidates routing intent ->
      estimate_buy_amount (asset_amount (intent_sell intent)) path (solver_onchain_liquidity s)
        = Ret (Some e) ->
      match o with
      | Some fill => est_value e <= fill_expected_out fill
      | None => est_value e < asset_amount (intent_buy intent)
      end.
Proof.
  intros Hiter Hq Hwf Hx.
  destruct (solve_returns iter Hiter routing Hq snapshot Hwf intent Hx) as (s & Hs & Hr).
  destruct (returns_inv _ _ Hr) as (o & Ho & H). exists s, o. split; [done|]. split; [done|].
  destruct o as [fill|]; [|exact H].
  destruct H as (r & e & path & _ & _ & _ & _ & -> & Hbest). exact Hbest.
Qed.

(** ** Quotes and fills *)
Section quote_solve.
Context (ls : list Liquidity) (s : Solver) (Hs : solver_ok ls s).
Context (sell : Asset) (Hx : u256 (asset_amount sell)) (buy_token : address).
Local Abbreviation request f := (mkRequest sell (mkAsset buy_token f) Sell []).

(** The test a floor adds to a candidate. *)
Definition reaches (f : Z) (c : list Segment * Estimate OnchainLiquidity) : Prop :=
  f <= est_value c.2.
#[global] Instance reaches_dec f c : Decision (reaches f c).
Proof. unfold reaches. apply _. Defined.

Lemma candidate_sell_floor f path :
  candidate_sell s (request f) path =
  let! o := candidate_sell s (request 0) path in
  Ret (let? c := o in if decide (reaches f c) then Some c else None).
Proof.
  unfold candidate_sell. cbn [req_sell req_buy asset_amount].
  destruct (estimate_buy_amount _ _ _) as [[e|]|] eqn:He; cbn [comp_obind comp_bind]; [|done|done].
  assert (0 <= est_value e) as He0.
  { apply estimate_buy_run in He. eapply (run_u256 onchain_trades) in He; [apply He| |done].
    by eapply solver_ok_liquidity. }
  destruct (traverse_path _ _ _ _) as [[segs|]|]; cbn [comp_obind comp_bind]; [|done|done].
  destruct (head segs) as [sg|]; [|done].
  destruct (negb _); [done|]. rewrite (proj2 (Z.leb_le 0 _)) by done. cbn [comp_bind].
  unfold reaches. cbn [snd]. case_decide as Hd; [by rewrite (proj2 (Z.leb_le _ _))|].
  by rewrite (proj2 (Z.leb_gt _ _)) by lia.
Qed.

Lemma comp_map_ext_opt {A B} (g h : A -> comp (option B)) (k : option B -> option B) l :
  (forall x, g x = let! o := h x in Ret (k o)) ->
  comp_map g l = let! rs := comp_map h l in Ret (map k rs).
Proof.
  intros Hg. induction l as [|x l IH]; simpl; [done|]. rewrite Hg, IH.
  destruct (h x) as [o|]; simpl; [|done]. by destruct (comp_map h l).
Qed.

Lemma omap_id_filter {A} (P : A -> Prop) `{!forall x, Decision (P x)} (rs : list (option A)) :
  omap id (map (fun o => let? c := o in if decide (P c) then Some c else None) rs)
  = filter P (omap id rs).
Proof.
  induction rs as [|[c|] rs IH]; [done| |exact IH].
  change (omap id (Some c :: rs)) with (c :: omap id rs). rewrite filter_cons, <- IH.
  simpl. by destruct (decide (P c)).
Qed.

Lemma reaches_up f a b : reaches f a -> route_cmp a b <> Gt -> reaches f b.
Proof. unfold reaches. intros Ha Hb%route_cmp_value. lia. Qed.

(** The best candidate does not depend on the floor, as long as it reaches it. *)
Lemma route_floor iter max_hops f :
  exists best, route iter s (request 0) max_hops = (let!? c := best in Ret (Route_new c.1)) /\
    route iter s (request f) max_hops =
      (let!? c := best in Ret (if decide (reaches f c) then Route_new c.1 else None)) /\
    forall c, best = Ret (Some c) -> exists path,
      path ∈ iter (path_candidates_with_hops (solver_base_tokens s) (asset_token sell) buy_token max_hops) /\
      candidate_sell s (request 0) path = Ret (Some c).
Proof.
  unfold route. cbn [req_side req_sell req_buy asset_token].
  set (ps := iter _). rewrite (comp_map_ext_opt _ _ _ ps (candidate_sell_floor f)).
  exists (let! rs := comp_map (candidate_sell s (request 0)) ps in Ret (max_by route_cmp (omap id rs))).
  destruct (comp_map (candidate_sell s (request 0)) ps) as [rs|] eqn:Hrs; cbn [comp_bind].
  - split; [done|]. rewrite omap_id_filter.
    rewrite (max_by_filter route_cmp) by apply reaches_up. split.
    + destruct (max_by route_cmp (omap id rs)) as [m|]; [|done]. cbn [comp_obind]. by case_decide.
    + intros c [= Hc]. apply (max_by_Some route_cmp) in Hc as [Hin _].
      by apply (candidates_elem _ _ _ _ Hrs) in Hin.
  - done.
Qed.
End quote_solve.

(** The fill of an intent, from the fill with no floor. *)
Lemma solve_floor iter routing sell buy_token floor venues snapshot :
  (forall l, iter l ≡ₚ l) -> quoter_opt_ok (routing_quoter routing) ->
  Forall (liquidity_wf (routing_quoter routing)) (snapshot_liquidity snapshot) -> u256 (asset_amount sell) ->
  solve iter routing (mkIntent sell (mkAsset buy_token floor) venues) snapshot =
  let! o := solve iter routing (mkIntent sell (mkAsset buy_token 0) venues) snapshot in
  Ret (let? fill := o in if floor <=? fill_expected_out fill then Some fill else None).
Proof.
  intros Hiter Hq Hwf Hx. pose proof (allowed_liquidity_wf _ venues snapshot Hwf) as Hls.
  destruct (returns_inv _ _ (Solver_new_returns (routing_weth routing) (routing_base_tokens routing)
    _ _ Hq Hls)) as (s & Hs & Hok & Hbase).
  unfold solve. cbn [intent_allowed_venues intent_sell intent_buy asset_amount]. rewrite Hs. cbn [comp_bind].
  destruct (route_floor _ s Hok sell Hx buy_token iter (routing_max_hops routing) floor)
    as (best & -> & -> & Hbest).
  destruct best as [[c|]|]; cbn [comp_obind comp_bind]; [|done|done].
  destruct (Hbest c eq_refl) as (path & Hpath & Hcand). rewrite Hiter, Hbase in Hpath.
  set (req := mkRequest sell (mkAsset buy_token 0) Sell []) in *.
  change (asset_token sell) with (asset_token (req_sell req)) in Hpath.
  change buy_token with (asset_token (req_buy req)) in Hpath at 1.
  pose proof Hpath as (t' & rest & Hpe & _)%candidate_shape.
  pose proof (candidate_sell_returns _ s Hok req path _ t' rest Hpe eq_refl Hx) as Hr.
  rewrite Hcand in Hr. destruct c as [segs e]. destruct (proj1 Hr segs e eq_refl) as (_ & Hf & H0).
  pose proof (follows_route_ok _ req _ _ _ _ _ _ _ _ Hpath Hf) as (Hc & _ & _).
  destruct (connected_input_output _ _ _ Hc) as [_ Hout]. unfold reaches. cbn [fst snd].
  destruct segs as [|sg segs]; [by inversion Hf; subst|]. cbn [Route_new comp_obind].
  rewrite Hout. cbn [comp_bind asset_amount].
  rewrite (proj2 (Z.ltb_ge (est_value e) 0)) by exact H0. cbn [fill_expected_out comp_bind].
  case_decide as Hd; [rewrite (proj2 (Z.leb_le _ _)) by done|rewrite (proj2 (Z.leb_gt _ _)) by lia].
  - cbn [comp_obind]. rewrite Hout. cbn [comp_bind asset_amount].
    by rewrite (proj2 (Z.ltb_ge _ _)) by done.
  - done.
Qed.

(** A quote is the fill of the same intent without a floor, and
    adding a floor changes nothing else: solving against the same snapshot fills
    an intent exactly when its floor is at most the quoted output, with the quoted
    output and through the route the quote was computed on. *)
Theorem quote_solve_consistent iter routing sell buy_token floor venues snapshot :
  (forall l, iter l ≡ₚ l) -> quoter_opt_ok (routing_quoter routing) ->
  Forall (liquidity_wf (routing_quoter routing)) (snapshot_liquidity snapshot) -> u256 (asset_amount sell) ->
  exists o, solve iter routing (mkIntent sell (mkAsset buy_token 0) venues) snapshot = Ret o /\
    quote iter routing sell buy_token venues snapshot =
      Ret (option_map (fun fill => mkQuote (fill_expected_out fill) (snapshot_source snapshot)
                         (snapshot_block snapshot)) o) /\
    solve iter routing (mkIntent sell (mkAsset buy_token floor) venues) snapshot =
      Ret (let? fill := o in if floor <=? fill_expected_out fill then Some fill else None).
Proof.
  intros Hiter Hq Hwf Hx. set (intent := mkIntent sell (mkAsset buy_token 0) venues).
  destruct (solve_returns iter Hiter routing Hq snapshot Hwf intent Hx) as (s & _ & Hr).
  destruct (returns_inv _ _ Hr) as (o & Ho & H). exists o. split; [done|].
  rewrite (solve_floor iter routing sell buy_token floor venues snapshot) by done.
  unfold quote. fold intent. rewrite Ho. split; [|done].
  destruct o as [fill|]; [|done]. destruct H as (? & ? & ? & _ & _ & _ & _ & -> & _). done.
Qed.

(** ** Examples *)
Definition example_routing : Routing := mkRouting 3 [] 1 None.
Definition example_state : Snapshot := mkSnapshot "snapshot" 7 example_snapshot.
Definition example_intent (floor : Z) (venues : gset address) : Intent :=
  mkIntent (mkAsset 1 100000) (mkAsset 2 floor) venues.

(** With only the direct pool allowed, the better two-hop route is not taken. *)
Example solve_example :
  (let!? fill := solve id example_routing (example_intent 80000 {[ 101 ]}) example_state in
   Ret (Some (map fs_liquidity (fill_segments fill), fill_expected_out fill))) = Ret (Some (["direct"], 81594)) /\
  (let!? fill := solve id example_routing (example_intent 80000 {[ 101; 102; 103 ]}) example_state in
   Ret (Some (map fs_liquidity (fill_segments fill), fill_expected_out fill)))
    = Ret (Some (["leg-a"; "leg-b"], 95593)) /\
  solve id example_routing (example_intent 82000 {[ 101 ]}) example_state = Ret None.
Proof. by vm_compute. Qed.

Lemma solve_honours_intent_witness :
  exists fill, solve id example_routing (example_intent 80000 {[ 101 ]}) example_state = Ret (Some fill) /\
    80000 <= fill_expected_out fill /\
    Forall (fun sg => exists l, l ∈ example_snapshot /\ liq_id l = fs_liquidity sg /\
      (liq_address l ∈ ({[ 101 ]} : gset address) \/
       exists router, liq_router l = Some router /\ router ∈ ({[ 101 ]} : gset address)))
      (fill_segments fill).
Proof.
  destruct (solve_honours_intent id example_routing (example_intent 80000 {[ 101 ]}) example_state)
    as (o & Ho & H);
    [reflexivity|exact no_quoter_ok|exact example_snapshot_wf|unfold u256; simpl; lia|].
  destruct o as [fill|]; [|vm_compute in Ho; discriminate Ho].
  destruct (H fill eq_refl) as (Hfloor & _ & _ & Hv & _). exists fill.
  split; [exact Ho|]. split; [exact Hfloor|exact Hv].
Defined.

Lemma solve_optimal_witness :
  exists s o, Solver_new 3 [] (allowed_liquidity {[ 101 ]} example_state) None = Ret s /\
    solve id example_routing (example_intent 82000 {[ 101 ]}) example_state = Ret o /\ o = None /\
    forall path e, path ∈ intent_candidates example_routing (example_intent 82000 {[ 101 ]}) ->
      estimate_buy_amount 100000 path (solver_onchain_liquidity s) = Ret (Some e) -> est_value e < 82000.
Proof.
  destruct (solve_optimal id example_routing (example_intent 82000 {[ 101 ]}) example_state)
    as (s & o & Hs & Ho & H);
    [reflexivity|exact no_quoter_ok|exact example_snapshot_wf|unfold u256; simpl; lia|].
  exists s, o. split; [exact Hs|]. split; [exact Ho|].
  destruct o as [fill|]; [vm_compute in Ho; discriminate Ho|]. split; [reflexivity|exact H].
Defined.

Lemma quote_solve_consistent_witness :
  exists q fill, quote id example_routing (mkAsset 1 100000) 2 {[ 101; 102; 103 ]} example_state = Ret (Some q) /\
    solve id example_routing (example_intent 95593 {[ 101; 102; 103 ]}) example_state = Ret (Some fill) /\
    quote_expected_out q = fill_expected_out fill.
Proof.
  destruct (quote_solve_consistent id example_routing (mkAsset 1 100000) 2 95593 {[ 101; 102; 103 ]} example_state)
    as (o & Ho & Hq & Hs);
    [reflexivity|exact no_quoter_ok|exact example_snapshot_wf|unfold u256; simpl; lia|].
  assert (exists fill, o = Some fill /\ fill_expected_out fill = 95593) as (fill & -> & Hout).
  { vm_compute in Ho. injection Ho as <-. eexists. split; reflexivity. }
  eexists. exists fill. split; [exact Hq|]. split.
  - unfold example_intent. rewrite Hs. cbn beta iota. rewrite Hout. reflexivity.
  - reflexivity.
Defined.
