(* ===== verification/Dto.v ===== *)
(** * Dto: decoding requests into the domain

    The wire types of [crates/solvers-dto/src/auction.rs] that describe liquidity,
    the number conversions of [crates/solvers/src/util/conv.rs] and the
    conversion of each liquidity to its domain type
    ([crates/solvers/src/api/routes/solve/dto/auction.rs]).

    A [BigDecimal] is its integer and exponent, as [as_bigint_and_exponent]
    returns them; the conversion of a [BigDecimal] to [u32] belongs to its crate
    and is a parameter.  A [HashMap] on the wire is the list of its entries in
    iteration order, whose keys are distinct. *)

From stdpp Require Import base gmap sets list strings sorting.
From Stdlib Require Import ZArith Lia Permutation.
From S2P Require Import Prelude Collections Eth Solvable ConstantProduct LimitOrder.
From S2P Require Import BalancerSwap Liquidity Baseline.

Open Scope Z_scope.

(** ** Numbers: [util::conv] *)

(** The value is [bd_int * 10 ^ -bd_exp]; the exponent is an [i64]. *)
Record BigDecimal := mkBigDecimal { bd_int : Z; bd_exp : Z }.

Definition biguint_to_u256 (i : Z) : option Z := if fits 256 i then Some i else None.

(** [to_biguint] refuses negative integers; the exponent's magnitude must fit in
    [u32]; [Ratio::new] reduces to lowest terms. *)
Definition decimal_to_rational (d : BigDecimal) : comp (option (Z * Z)) :=
  if bd_int d <? 0 then Ret None
  else if negb (fits 32 (Z.abs (bd_exp d))) then Ret None
  else
    let factor := 10 ^ Z.abs (bd_exp d) in
    let! ratio := (if 0 <=? bd_exp d then Ratio_new (bd_int d) factor
                   else Ratio_new (bd_int d * factor) 1) in
    Ret (let? numer := biguint_to_u256 ratio.1 in
         let? denom := biguint_to_u256 ratio.2 in
         Some (numer, denom)).

(** [decimal_to_ether]: the product with [10^18] adds exponents. *)
Definition decimal_to_ether (d : BigDecimal) : comp (option Z) :=
  let!? ratio := decimal_to_rational (mkBigDecimal (bd_int d) (bd_exp d - 18)) in
  let! wei := div_u256 ratio.1 ratio.2 in
  Ret (Some wei).

Definition ether_to_decimal (e : Z) : BigDecimal := mkBigDecimal e 18.

(** ** Wire types *)
Record DtoConstantProductPool := mkDtoConstantProductPool {
  dcp_id : string;
  dcp_address : address;
  dcp_router : address;
  dcp_gas_estimate : Z;
  dcp_tokens : list (address * Z);
  dcp_fee : BigDecimal;
}.

Record DtoWeightedReserve := mkDtoWeightedReserve {
  dwr_balance : Z;
  dwr_scaling_factor : BigDecimal;
  dwr_weight : BigDecimal;
}.

Record DtoWeightedProductPool := mkDtoWeightedProductPool {
  dwp_id : string;
  dwp_address : address;
  dwp_gas_estimate : Z;
  dwp_tokens : list (address * DtoWeightedReserve);
  dwp_fee : BigDecimal;
  dwp_version : WeightedPoolVersion;
}.

Record DtoStableReserve := mkDtoStableReserve {
  dsr_balance : Z;
  dsr_scaling_factor : BigDecimal;
}.

Record DtoStablePool := mkDtoStablePool {
  dsp_id : string;
  dsp_address : address;
  dsp_gas_estimate : Z;
  dsp_tokens : list (address * DtoStableReserve);
  dsp_amplification_parameter : BigDecimal;
  dsp_fee : BigDecimal;
}.

(** The fields the solver reads of a concentrated pool. *)
Record DtoConcentratedPool := mkDtoConcentratedPool {
  dcl_id : string;
  dcl_address : address;
  dcl_router : address;
  dcl_gas_estimate : Z;
  dcl_tokens : list address;
  dcl_fee : BigDecimal;
}.

Record DtoForeignLimitOrder := mkDtoForeignLimitOrder {
  dlo_id : string;
  dlo_address : address;
  dlo_gas_estimate : Z;
  dlo_maker_token : address;
  dlo_taker_token : address;
  dlo_maker_amount : Z;
  dlo_taker_amount : Z;
  dlo_taker_token_fee_amount : Z;
}.

Inductive DtoLiquidity :=
| DtoConstantProduct (pool : DtoConstantProductPool)
| DtoWeightedProduct (pool : DtoWeightedProductPool)
| DtoStable (pool : DtoStablePool)
| DtoConcentrated (pool : DtoConcentratedPool)
| DtoLimitOrder (order : DtoForeignLimitOrder).

(** [Option::ok_or] on a computation. *)
Definition comp_ok_or {A} (c : comp (option A)) (e : string) : comp (result string A) :=
  let! o := c in Ret (ok_or o e).

(** [map(..).collect::<Result<Vec<_>, _>>()]. *)
Fixpoint comp_rmap {A B} (f : A -> comp (result string B)) (l : list A)
  : comp (result string (list B)) :=
  match l with
  | [] => Ret (Ok [])
  | x :: l => let!r y := f x in let!r k := comp_rmap f l in Ret (Ok (y :: k))
  end.

(** [decimal_to_rational(..).and_then(ScalingFactor::new)]. *)
Definition decimal_to_scaling_factor (d : BigDecimal) : comp (option (Z * Z)) :=
  let! r := decimal_to_rational d in Ret (let? r := r in ScalingFactor_new r).

(** ** Liquidity *)
Definition constant_product_to_domain (pool : DtoConstantProductPool) : comp (result string Liquidity) :=
  let!r (a, b) := Ret (match dcp_tokens pool with
                       | [(t0, r0); (t1, r1)] => Ok (mkAsset t0 r0, mkAsset t1 r1)
                       | _ => Err "invalid number of constant product tokens"
                       end) in
  let!r reserves := Ret (ok_or (Reserves_new a b) "invalid constant product pool reserves") in
  let!r fee := comp_ok_or (decimal_to_rational (dcp_fee pool)) "invalid constant product fee" in
  Ret (Ok (mkLiquidity (dcp_id pool) (dcp_address pool) (Some (dcp_router pool))
    (dcp_gas_estimate pool) (ConstantProduct (mkDomainPool reserves fee)))).

Definition weighted_product_to_domain (pool : DtoWeightedProductPool) : comp (result string Liquidity) :=
  let!r entries := comp_rmap (fun entry =>
    let!r weight := comp_ok_or (decimal_to_rational (dwr_weight entry.2)) "invalid token weight" in
    let!r scale := comp_ok_or (decimal_to_scaling_factor (dwr_scaling_factor entry.2))
                     "invalid token scaling factor" in
    Ret (Ok (mkWeightedReserve (mkAsset entry.1 (dwr_balance entry.2)) weight scale)))
    (dwp_tokens pool) in
  let!r reserves := Ret (ok_or (WeightedReserves_new entries) "duplicate weighted token addresses") in
  let!r fee := comp_ok_or (decimal_to_rational (dwp_fee pool)) "invalid weighted product fee" in
  Ret (Ok (mkLiquidity (dwp_id pool) (dwp_address pool) None (dwp_gas_estimate pool)
    (WeightedProduct (mkWeightedDomainPool reserves fee (dwp_version pool))))).

Definition stable_to_domain (pool : DtoStablePool) : comp (result string Liquidity) :=
  let!r entries := comp_rmap (fun entry =>
    let!r scale := comp_ok_or (decimal_to_scaling_factor (dsr_scaling_factor entry.2))
                     "invalid token scaling factor" in
    Ret (Ok (mkStableReserve (mkAsset entry.1 (dsr_balance entry.2)) scale)))
    (dsp_tokens pool) in
  let!r reserves := Ret (ok_or (StableReserves_new entries) "duplicate stable token addresses") in
  let!r amplification_parameter :=
    comp_ok_or (decimal_to_rational (dsp_amplification_parameter pool)) "invalid amplification parameter" in
  let!r fee := comp_ok_or (decimal_to_rational (dsp_fee pool)) "invalid stable pool fee" in
  Ret (Ok (mkLiquidity (dsp_id pool) (dsp_address pool) None (dsp_gas_estimate pool)
    (Stable (mkStableDomainPool reserves amplification_parameter fee)))).

Definition limit_order_to_domain (order : DtoForeignLimitOrder) : Liquidity :=
  mkLiquidity (dlo_id order) (dlo_address order) None (dlo_gas_estimate order)
    (LimitOrderState (mkLimitOrder (mkAsset (dlo_maker_token order) (dlo_maker_amount order))
       (mkAsset (dlo_taker_token order) (dlo_taker_amount order))
       (dlo_taker_token_fee_amount order))).

Section decode.
(** [BigDecimal::to_u32] of the fee scaled by a million. *)
Context (to_u32 : BigDecimal -> option Z).

(** Multiplying by [1_000_000] keeps the exponent. *)
Definition fee_units (fee : BigDecimal) : BigDecimal :=
  mkBigDecimal (bd_int fee * 1000000) (bd_exp fee).

Definition concentrated_to_domain (pool : DtoConcentratedPool) : comp (result string Liquidity) :=
  let!r (a, b) := Ret (match dcl_tokens pool with
                       | [a; b] => Ok (a, b)
                       | _ => Err "invalid number of concentrated liquidity pool tokens"
                       end) in
  let!r tokens := Ret (ok_or (TokenPair_new a b)
                         "duplicate concentrated liquidity pool token address") in
  let!r fee := Ret (ok_or (to_u32 (fee_units (dcl_fee pool))) "invalid concentrated liquidity pool fee") in
  Ret (Ok (mkLiquidity (dcl_id pool) (dcl_address pool) (Some (dcl_router pool))
    (dcl_gas_estimate pool) (Concentrated (mkConcentratedPool tokens fee)))).

Definition liquidity_to_domain (liquidity : DtoLiquidity) : comp (result string Liquidity) :=
  match liquidity with
  | DtoConstantProduct pool => constant_product_to_domain pool
  | DtoWeightedProduct pool => weighted_product_to_domain pool
  | DtoStable pool => stable_to_domain pool
  | DtoConcentrated pool => concentrated_to_domain pool
  | DtoLimitOrder order => Ret (Ok (limit_order_to_domain order))
  end.

Definition liquidities_to_domain (l : list DtoLiquidity) : comp (result string (list Liquidity)) :=
  comp_rmap liquidity_to_domain l.
End decode.

(** ** Conversions are exact *)
Lemma decimal_to_rational_returns d :
  returns (decimal_to_rational d) (fun o => forall r, o = Some r ->
    u256 r.1 /\ u256 r.2 /\ 0 < r.2 /\ 0 <= bd_int d /\
    r.1 * 10 ^ Z.max 0 (bd_exp d) = bd_int d * 10 ^ Z.max 0 (- bd_exp d) * r.2).
Proof.
  unfold decimal_to_rational. destruct (Z.ltb_spec (bd_int d) 0) as [|Hi]; [done|].
  destruct (negb _); [done|]. set (p := 10 ^ Z.abs (bd_exp d)).
  assert (0 < p) as Hp by (apply Z.pow_pos_nonneg; lia).
  assert (exists r, (if 0 <=? bd_exp d then Ratio_new (bd_int d) p
                     else Ratio_new (bd_int d * p) 1) = Ret r /\ 0 < r.2 /\
    r.1 * 10 ^ Z.max 0 (bd_exp d) = bd_int d * 10 ^ Z.max 0 (- bd_exp d) * r.2) as (r & -> & Hr & Hv).
  { destruct (Z.leb_spec 0 (bd_exp d)).
    - destruct (Ratio_new (bd_int d) p) as [r|] eqn:E;
        [|unfold Ratio_new in E; rewrite (proj2 (Z.eqb_neq p 0)) in E by lia; done].
      exists r. apply Ratio_new_Ret in E as (_ & ? & E); [|lia..].
      rewrite (Z.max_r 0 (bd_exp d)), (Z.max_l 0 (- bd_exp d)), Z.pow_0_r by lia.
      unfold p in E. rewrite Z.abs_eq in E by lia. split; [done|]. split; [lia|]. lia.
    - destruct (Ratio_new (bd_int d * p) 1) as [r|] eqn:E; [|done].
      exists r. apply Ratio_new_Ret in E as (_ & ? & E); [|nia|lia].
      rewrite (Z.max_l 0 (bd_exp d)), (Z.max_r 0 (- bd_exp d)), Z.pow_0_r by lia.
      unfold p in E. rewrite Z.abs_neq in E by lia. split; [done|]. split; [lia|]. lia. }
  cbn [comp_bind returns]. unfold biguint_to_u256. intros r' Hr'. rust_inv.
  rewrite !fits_spec in *. unfold u256. cbn [fst snd]. repeat split; try lia.
Qed.

Lemma decimal_to_rational_wf d :
  returns (decimal_to_rational d) (fun o => forall r, o = Some r -> rat_wf r).
Proof.
  eapply returns_mono; [apply decimal_to_rational_returns|]. cbn beta.
  intros o H r Hr. destruct (H r Hr) as (? & _ & ? & _). done.
Qed.

Lemma decimal_to_scaling_factor_wf d :
  returns (decimal_to_scaling_factor d) (fun o => forall r, o = Some r -> rat_wf r /\ 0 < r.1).
Proof.
  unfold decimal_to_scaling_factor. eapply returns_bind; [apply decimal_to_rational_wf|].
  intros o Ho. cbn [returns]. intros r Hr. destruct o as [r'|]; [|done].
  unfold ScalingFactor_new in Hr. rust_inv. zify_bool.
  destruct (Ho r eq_refl) as [[? ?] ?]. unfold rat_wf, u256. lia.
Qed.

(** [?] on a [Result] carries a postcondition of the successful values. *)
Lemma returns_rbind {E A B} (c : comp (result E A)) (k : A -> comp (result E B))
  (P : A -> Prop) (Q : B -> Prop) :
  returns c (fun o => forall a, o = Ok a -> P a) ->
  (forall a, P a -> returns (k a) (fun o => forall b, o = Ok b -> Q b)) ->
  returns (comp_rbind c k) (fun o => forall b, o = Ok b -> Q b).
Proof. destruct c as [[a|]|]; simpl; intros Hc Hk; [|done|done]. apply Hk. by apply Hc. Qed.

Lemma ok_or_returns {E A} (o : option A) (e : E) (P : A -> Prop) :
  (forall a, o = Some a -> P a) -> returns (Ret (ok_or o e)) (fun r => forall a, r = Ok a -> P a).
Proof. destruct o; simpl; naive_solver. Qed.

Lemma comp_ok_or_returns {A} (c : comp (option A)) e (P : A -> Prop) :
  returns c (fun o => forall a, o = Some a -> P a) ->
  returns (comp_ok_or c e) (fun r => forall a, r = Ok a -> P a).
Proof. destruct c as [[a|]|]; simpl; naive_solver. Qed.

Lemma comp_rmap_returns {A B} (f : A -> comp (result string B)) (R : A -> B -> Prop) l :
  (forall x, x ∈ l -> returns (f x) (fun r => forall y, r = Ok y -> R x y)) ->
  returns (comp_rmap f l) (fun r => forall k, r = Ok k -> Forall2 R l k).
Proof.
  induction l as [|x l IH]; intros Hf; simpl; [by intros k [= <-]|].
  eapply returns_rbind; [apply Hf; set_solver|]. intros y Hy.
  eapply returns_rbind; [apply IH; set_solver|]. intros k Hk. simpl.
  intros k' [= <-]. by constructor.
Qed.

Lemma comp_rmap_Ok {A B} (f : A -> comp (result string B)) l k :
  comp_rmap f l = Ret (Ok k) <-> Forall2 (fun x y => f x = Ret (Ok y)) l k.
Proof.
  revert k; induction l as [|x l IH]; intros k; simpl.
  { split; [by intros [= <-]|by intros ->%Forall2_nil_inv_l]. }
  rewrite comp_rbind_Ok. setoid_rewrite comp_rbind_Ok. setoid_rewrite IH. split.
  - intros (y & Hy & k' & Hk & [= <-]). by constructor.
  - intros (y & k' & Hy & Hk & ->)%Forall2_cons_inv_l. eauto 10.
Qed.

(** ** Decoding is total and establishes well-formedness *)

(** The wire amounts are [U256]s. *)
Definition dto_wf (l : DtoLiquidity) : Prop :=
  match l with
  | DtoConstantProduct p => Forall (fun e => u256 e.2) (dcp_tokens p)
  | DtoWeightedProduct p => Forall (fun e => u256 (dwr_balance e.2)) (dwp_tokens p)
  | DtoStable p => Forall (fun e => u256 (dsr_balance e.2)) (dsp_tokens p)
  | DtoConcentrated p => True
  | DtoLimitOrder o => u256 (dlo_maker_amount o) /\ u256 (dlo_taker_amount o)
  end.

Definition dto_id (l : DtoLiquidity) : string :=
  match l with
  | DtoConstantProduct p => dcp_id p
  | DtoWeightedProduct p => dwp_id p
  | DtoStable p => dsp_id p
  | DtoConcentrated p => dcl_id p
  | DtoLimitOrder o => dlo_id o
  end.

(** The addresses an intent may name to allow the venue. *)
Definition dto_venues (l : DtoLiquidity) : list address :=
  match l with
  | DtoConstantProduct p => [dcp_address p; dcp_router p]
  | DtoWeightedProduct p => [dwp_address p]
  | DtoStable p => [dsp_address p]
  | DtoConcentrated p => [dcl_address p; dcl_router p]
  | DtoLimitOrder o => [dlo_address o]
  end.

(** The token balances a liquidity holds; a concentrated pool's are not sent. *)
Definition dto_holdings (l : DtoLiquidity) : list (address * option Z) :=
  match l with
  | DtoConstantProduct p => map (fun e => (e.1, Some e.2)) (dcp_tokens p)
  | DtoWeightedProduct p => map (fun e => (e.1, Some (dwr_balance e.2))) (dwp_tokens p)
  | DtoStable p => map (fun e => (e.1, Some (dsr_balance e.2))) (dsp_tokens p)
  | DtoConcentrated p => map (fun t => (t, None)) (dcl_tokens p)
  | DtoLimitOrder o => [(dlo_maker_token o, Some (dlo_maker_amount o));
                        (dlo_taker_token o, Some (dlo_taker_amount o))]
  end.

Definition asset_holding (a : Asset) : address * option Z := (asset_token a, Some (asset_amount a)).

Definition state_holdings (st : State) : list (address * option Z) :=
  match st with
  | ConstantProduct p =>
      [asset_holding (reserves_0 (dp_reserves p)); asset_holding (reserves_1 (dp_reserves p))]
  | WeightedProduct p => map (fun r => asset_holding (wr_asset r)) (wdp_reserves p)
  | Stable p => map (fun r => asset_holding (sr_asset r)) (sdp_reserves p)
  | Concentrated p => [((cp_tokens p).1, None); ((cp_tokens p).2, None)]
  | LimitOrderState o => [asset_holding (lo_maker o); asset_holding (lo_taker o)]
  end.

(** A domain liquidity stands for a wire liquidity. *)
Definition decoded (d : DtoLiquidity) (l : Liquidity) : Prop :=
  liq_id l = dto_id d /\
  liq_address l :: option_list (liq_router l) = dto_venues d /\
  state_holdings (liq_state l) ≡ₚ dto_holdings d /\
  liquidity_wf None l.

Lemma constant_product_decoded p :
  dto_wf (DtoConstantProduct p) ->
  returns (constant_product_to_domain p) (fun r => forall l, r = Ok l ->
    decoded (DtoConstantProduct p) l).
Proof.
  intros Hwf. unfold constant_product_to_domain. simpl in Hwf.
  destruct (dcp_tokens p) as [|[t0 r0] [|[t1 r1] [|]]] eqn:Ht; try done.
  apply Forall_cons in Hwf as [[H0 _] [[H1 _] _]%Forall_cons]. cbn [fst snd] in *.
  eapply (returns_rbind _ _ (fun ab => ab = (mkAsset t0 r0, mkAsset t1 r1)));
    [by intros ab [= <-]|]. intros ab ->. cbn beta iota.
  eapply returns_rbind; [apply ok_or_returns; intros rs Hrs; exact Hrs|]. intros rs Hrs.
  eapply returns_rbind; [apply comp_ok_or_returns, decimal_to_rational_wf|]. intros fee [[Hf _] Hfd].
  cbn [returns]. intros l [= <-]. split_and!; [done|done| |].
  - simpl. rewrite Ht. unfold Reserves_new in Hrs. cbn [asset_amount asset_token] in Hrs. simpl.
    destruct (_ || _); [done|]. destruct (Z.compare t0 t1); simplify_eq; [done|].
    apply Permutation_swap.
  - unfold liquidity_wf, domain_pool_wf. simpl.
    apply Reserves_new_Some in Hrs as (? & ? & ?); [|done..]. done.
Qed.

Lemma weighted_product_decoded p :
  dto_wf (DtoWeightedProduct p) ->
  returns (weighted_product_to_domain p) (fun r => forall l, r = Ok l ->
    decoded (DtoWeightedProduct p) l).
Proof.
  intros Hwf. unfold weighted_product_to_domain.
  eapply returns_rbind.
  { apply (comp_rmap_returns _ (fun e r => wr_asset r = mkAsset e.1 (dwr_balance e.2) /\
      rat_wf (wr_weight r) /\ rat_wf (wr_scale r))). intros e _.
    eapply returns_rbind; [apply comp_ok_or_returns, decimal_to_rational_wf|]. intros w Hw.
    eapply returns_rbind; [apply comp_ok_or_returns, decimal_to_scaling_factor_wf|]. intros s [Hs _].
    by intros r [= <-]. }
  intros es Hes.
  eapply returns_rbind; [apply ok_or_returns; intros rs Hrs; exact Hrs|]. intros rs Hrs.
  eapply returns_rbind; [apply comp_ok_or_returns, decimal_to_rational_wf|]. intros fee Hfee.
  apply WeightedReserves_new_Some in Hrs as [Hperm Hsort].
  cbn [returns]. intros l [= <-]. split_and!; [done|done| |].
  - simpl. rewrite Hperm. clear -Hes.
    induction Hes as [|e r es rs (Hr & _) _ IH]; simpl; [done|]. rewrite Hr, IH. done.
  - split_and!; [done|done|]. cbn [wdp_reserves]. rewrite Hperm. simpl in Hwf. clear -Hes Hwf.
    induction Hes as [|e r es rs (Hr & ? & ?) _ IH]; [done|].
    apply Forall_cons in Hwf as [? ?]. constructor; [rewrite Hr; done|auto].
Qed.

Lemma stable_decoded p :
  dto_wf (DtoStable p) ->
  returns (stable_to_domain p) (fun r => forall l, r = Ok l -> decoded (DtoStable p) l).
Proof.
  intros Hwf. unfold stable_to_domain.
  eapply returns_rbind.
  { apply (comp_rmap_returns _ (fun e r => sr_asset r = mkAsset e.1 (dsr_balance e.2) /\
      rat_wf (sr_scale r))). intros e _.
    eapply returns_rbind; [apply comp_ok_or_returns, decimal_to_scaling_factor_wf|]. intros s [Hs _].
    by intros r [= <-]. }
  intros es Hes.
  eapply returns_rbind; [apply ok_or_returns; intros rs Hrs; exact Hrs|]. intros rs Hrs.
  eapply returns_rbind; [apply comp_ok_or_returns, decimal_to_rational_wf|]. intros amp Hamp.
  eapply returns_rbind; [apply comp_ok_or_returns, decimal_to_rational_wf|]. intros fee Hfee.
  apply StableReserves_new_Some in Hrs as [Hperm Hsort].
  cbn [returns]. intros l [= <-]. split_and!; [done|done| |].
  - simpl. rewrite Hperm. clear -Hes.
    induction Hes as [|e r es rs (Hr & _) _ IH]; simpl; [done|]. rewrite Hr, IH. done.
  - split_and!; [done|done|done|]. cbn [sdp_reserves]. rewrite Hperm. simpl in Hwf. clear -Hes Hwf.
    induction Hes as [|e r es rs (Hr & ?) _ IH]; [done|].
    apply Forall_cons in Hwf as [? ?]. constructor; [rewrite Hr; done|auto].
Qed.

Section decode_spec.
(** [to_u32] answers with [u32]s. *)
Context (to_u32 : BigDecimal -> option Z) (Hu32 : forall d v, to_u32 d = Some v -> 0 <= v < 2 ^ 32).

Lemma concentrated_decoded p :
  returns (concentrated_to_domain to_u32 p) (fun r => forall l, r = Ok l ->
    decoded (DtoConcentrated p) l).
Proof.
  unfold concentrated_to_domain. destruct (dcl_tokens p) as [|a [|b [|]]] eqn:Ht; try done.
  eapply (returns_rbind _ _ (fun ab => ab = (a, b))); [by intros ab [= <-]|]. intros ab ->. cbn beta iota.
  eapply returns_rbind; [apply ok_or_returns; intros t E; exact E|]. intros t E.
  eapply returns_rbind; [apply ok_or_returns; intros f Hf; exact (Hu32 _ _ Hf)|]. intros f Hf.
  cbn [returns]. intros l [= <-]. apply TokenPair_new_Some in E as (_ & Hlt & Hp).
  split_and!; [done|done| |].
  - simpl. rewrite Ht. destruct Hp as [-> | ->]; simpl; [done|apply Permutation_swap].
  - unfold liquidity_wf. cbn [liq_state state_wf cp_tokens cp_fee]. split; [done|]. split; [exact (proj1 Hf)|done].
Qed.

Lemma liquidity_decoded d :
  dto_wf d -> returns (liquidity_to_domain to_u32 d) (fun r => forall l, r = Ok l -> decoded d l).
Proof.
  destruct d as [p|p|p|p|o]; intros Hwf.
  - by apply constant_product_decoded.
  - by apply weighted_product_decoded.
  - by apply stable_decoded.
  - by apply concentrated_decoded.
  - intros l [= <-]. split_and!; [done|done|done|]. exact Hwf.
Qed.

(** The wire fee of a concentrated pool fits in the 24 bits the quoter takes. *)
Definition fee_fits (d : DtoLiquidity) : Prop :=
  forall p v, d = DtoConcentrated p -> to_u32 (fee_units (dcl_fee p)) = Some v -> v < 2 ^ 24.

Lemma decoded_wf q d l :
  (q <> None -> fee_fits d) -> dto_wf d -> liquidity_to_domain to_u32 d = Ret (Ok l) ->
  liquidity_wf q l.
Proof.
  intros Hfee Hd H. pose proof (liquidity_decoded d Hd) as Hr. rewrite H in Hr.
  destruct (Hr l eq_refl) as (_ & _ & _ & Hwf). clear Hr.
  destruct d as [p|p|p|p|o]; cbn [liquidity_to_domain] in H; [.. |by rust_inv].
  1: unfold constant_product_to_domain in H. 2: unfold weighted_product_to_domain in H.
  3: unfold stable_to_domain in H. 4: unfold concentrated_to_domain in H.
  all: repeat (first [rust_inv1 | match goal with ab : _ * _ |- _ => destruct ab end]; cbn beta iota in *).
  1-3: exact Hwf.
  - unfold liquidity_wf in *. cbn [liq_state state_wf cp_tokens cp_fee] in *.
    destruct Hwf as (? & ? & _). split; [done|]. split; [done|]. intros Hq. by eapply Hfee.
Qed.
End decode_spec.

(** C36 (type): decoding the liquidity of a request never panics, and what it accepts is
    what was sent: each liquidity keeps its id, its pool and router addresses and its token
    balances, in the order of the request, and satisfies the invariant routing relies on
    when no quoter is configured (ordered distinct tokens, reserves within the pool's width,
    positive denominators).  With a quoter routing also needs the fee of a concentrated pool
    to fit in 24 bits.  Decoding accepts fees up to 32 bits, so that this part of the
    invariant holds only if the fee on the wire fits ([Baseline.concentrated_fee_panics]
    shows what happens otherwise). *)
Theorem decoding_establishes_wf to_u32 ls :
  (forall d v, to_u32 d = Some v -> 0 <= v < 2 ^ 32) -> Forall dto_wf ls ->
  exists r, liquidities_to_domain to_u32 ls = Ret r /\
    forall ls', r = Ok ls' ->
      Forall2 decoded ls ls' /\
      forall q, (q <> None -> Forall (fee_fits to_u32) ls) -> Forall (liquidity_wf q) ls'.
Proof.
  intros Hu32 Hwf. rewrite Forall_forall in Hwf.
  assert (returns (liquidities_to_domain to_u32 ls) (fun r => forall ls', r = Ok ls' -> Forall2 decoded ls ls')) as Hr.
  { apply comp_rmap_returns. intros d Hd. by apply liquidity_decoded, Hwf. }
  apply returns_inv in Hr as (r & Hr & Hdec). exists r. split; [done|]. intros ls' ->. split; [by apply Hdec|].
  intros q Hq. unfold liquidities_to_domain in Hr. apply comp_rmap_Ok in Hr. apply Forall_forall. intros l Hl.
  apply list_elem_of_lookup in Hl as [i Hi]. destruct (Forall2_lookup_r _ _ _ _ _ Hr Hi) as (d & Hd & Hdl).
  apply list_elem_of_lookup_2 in Hd. eapply decoded_wf; [done| |by apply Hwf|exact Hdl].
  intros Hne. by eapply Forall_forall in Hq.
Qed.

(** An amount of wei written as a decimal number of ether reads
    back as the same amount, and reading any decimal number of ether rounds it
    down to a whole number of wei. *)
Theorem ether_decimal_round_trip e d :
  u256 e ->
  decimal_to_ether (ether_to_decimal e) = Ret (Some e) /\
  returns (decimal_to_ether d) (fun o => forall w, o = Some w ->
    w * 10 ^ Z.max 0 (bd_exp d - 18) <= bd_int d * 10 ^ Z.max 0 (18 - bd_exp d)
      < (w + 1) * 10 ^ Z.max 0 (bd_exp d - 18)).
Proof.
  intros He. split.
  - unfold decimal_to_ether, decimal_to_rational, ether_to_decimal. cbn [bd_int bd_exp].
    change (18 - 18) with 0. rewrite (proj2 (Z.ltb_ge e 0)) by (unfold u256 in He; lia).
    change (fits 32 (Z.abs 0)) with true. change (10 ^ Z.abs 0) with 1. cbn [negb Z.leb Z.compare].
    unfold Ratio_new. cbn [Z.eqb]. rewrite Z.gcd_1_r, !Z.div_1_r.
    cbn [comp_bind fst snd]. unfold biguint_to_u256. rewrite (proj2 (fits_spec 256 e)) by exact He.
    change (fits 256 1) with true. cbn [comp_obind fst snd]. unfold div_u256. cbn [Z.eqb comp_bind].
    by rewrite Z.div_1_r.
  - unfold decimal_to_ether. pose proof (decimal_to_rational_returns
      (mkBigDecimal (bd_int d) (bd_exp d - 18))) as H.
    destruct (decimal_to_rational _) as [[r|]|]; cbn [returns comp_obind] in *; [|done|done].
    destruct (H r eq_refl) as (Hr1 & _ & Hr2 & Hi & Hv). cbn [bd_int bd_exp] in *.
    unfold div_u256. rewrite (proj2 (Z.eqb_neq _ 0)) by lia. cbn [comp_bind returns]. intros w [= <-].
    replace (- (bd_exp d - 18)) with (18 - bd_exp d) in Hv by lia.
    set (p := 10 ^ Z.max 0 (bd_exp d - 18)) in *.
    set (v := bd_int d * 10 ^ Z.max 0 (18 - bd_exp d)) in *.
    assert (0 < p) by (apply Z.pow_pos_nonneg; lia).
    pose proof (Z.mul_div_le r.1 r.2 Hr2). pose proof (Z.mul_succ_div_gt r.1 r.2 Hr2). nia.
Qed.

(** ** Examples *)

(** The integer part of a decimal, when it is a [u32]. *)
Definition truncating_u32 (d : BigDecimal) : option Z :=
  let v := if 0 <=? bd_exp d then bd_int d / 10 ^ bd_exp d else bd_int d * 10 ^ (- bd_exp d) in
  if fits 32 v then Some v else None.

Definition example_wire : list DtoLiquidity := [
  DtoConstantProduct (mkDtoConstantProductPool "cp" 101 201 90000
    [(7, 1000000); (3, 2000000)] (mkBigDecimal 3 3));
  DtoConcentrated (mkDtoConcentratedPool "cl" 102 202 100000 [4; 9] (mkBigDecimal 3 3));
  DtoLimitOrder (mkDtoForeignLimitOrder "lo" 103 60000 1 2 500 600 0)].

Example decode_example :
  liquidities_to_domain truncating_u32 example_wire = Ret (Ok [
    mkLiquidity "cp" 101 (Some 201) 90000 (ConstantProduct
      (mkDomainPool (mkReserves (mkAsset 3 2000000) (mkAsset 7 1000000)) (3, 1000)));
    mkLiquidity "cl" 102 (Some 202) 100000 (Concentrated (mkConcentratedPool (4, 9) 3000));
    mkLiquidity "lo" 103 None 60000 (LimitOrderState (mkLimitOrder (mkAsset 1 500) (mkAsset 2 600) 0))]).
Proof. by vm_compute. Qed.

Lemma truncating_u32_fits d v : truncating_u32 d = Some v -> 0 <= v < 2 ^ 32.
Proof. unfold truncating_u32. intros H. rust_inv. by apply fits_spec. Qed.

(** The fee of the example's concentrated pool fits, so that it can also be routed over with a
    quoter. *)
Lemma decoding_establishes_wf_witness :
  exists ls', liquidities_to_domain truncating_u32 example_wire = Ret (Ok ls') /\
    Forall2 decoded example_wire ls' /\ forall q, Forall (liquidity_wf q) ls'.
Proof.
  destruct (decoding_establishes_wf truncating_u32 example_wire truncating_u32_fits)
    as (r & Hr & H); [repeat constructor; unfold u256; simpl; lia|].
  pose proof Hr as Hr'. rewrite decode_example in Hr'. injection Hr' as <-.
  eexists. split; [exact Hr|]. destruct (H _ eq_refl) as [Hd Hw]. split; [exact Hd|]. intros q. apply Hw. intros _.
  apply Forall_cons; split; [intros p v E; discriminate E|].
  apply Forall_cons; split; [|apply Forall_cons; split; [intros p v E; discriminate E|apply Forall_nil_2]].
  intros p v E Hv. injection E as <-. vm_compute in Hv. injection Hv as <-. reflexivity.
Defined.

Lemma ether_decimal_round_trip_witness :
  decimal_to_ether (ether_to_decimal 1500000000000000000) = Ret (Some 1500000000000000000).
Proof.
  destruct (ether_decimal_round_trip 1500000000000000000 (mkBigDecimal 15 1)) as [H _];
    [unfold u256; lia|exact H].
Defined.
