(* ===== verification/MandateApi.v ===== *)
(** * MandateApi: the [/mandate/solve] and [/mandate/quote] endpoints

    [crates/solvers/src/api/routes/mandate/dto.rs] (the wire types, the request
    validation and the conversions) and
    [crates/solvers/src/api/routes/mandate/mod.rs] (the two handlers).

    A handler's outcome is its status code, its body and the result label it
    recorded; the clock reading of [validate_intent] is an argument. *)

From stdpp Require Import base gmap sets list strings.
From Stdlib Require Import ZArith Lia Permutation.
From S2P Require Import Prelude Collections Eth Solvable ConstantProduct.
From S2P Require Import BaselineSolver Liquidity Baseline Mandate Dto.

Open Scope Z_scope.

(** ** Wire types *)
Record WireSource := mkWireSource { ws_name : string; ws_block : Z }.

Record LimitIntent := mkLimitIntent {
  li_signer : address;
  li_nonce : Z;
  li_sell_token : address;
  li_buy_token : address;
  li_sell_amount : Z;
  li_min_buy_amount : Z;
  li_max_slippage_bps : Z;
  li_deadline : Z;
  li_allowed_venues : list address;
}.

(** The request's [Deployment] and the engine's [MandateDeployment]. *)
Record Deployment := mkDeployment {
  dep_chain_id : option Z;
  dep_settlement_contract : option address;
}.
Record MandateDeployment := mkMandateDeployment {
  md_chain_id : option Z;
  md_settlement : option address;
}.

Record SolveRequest := mkSolveRequest {
  sr_intent : LimitIntent;
  sr_liquidity : list DtoLiquidity;
  sr_liquidity_source : WireSource;
  sr_deployment : Deployment;
}.

Record QuoteRequest := mkQuoteRequest {
  qr_sell_token : address;
  qr_buy_token : address;
  qr_sell_amount : Z;
  qr_allowed_venues : list address;
  qr_liquidity : list DtoLiquidity;
  qr_liquidity_source : WireSource;
  qr_deployment : Deployment;
}.

Record WireSegment := mkWireSegment {
  wseg_liquidity : string;
  wseg_input_token : address;
  wseg_input_amount : Z;
  wseg_output_token : address;
  wseg_output_amount : Z;
}.

Record Solution := mkSolution {
  sol_expected_out : Z;
  sol_liquidity_source : string;
  sol_block : Z;
  sol_gas : Z;
  sol_route : list WireSegment;
}.

Record WireQuote := mkWireQuote {
  wq_expected_out : Z;
  wq_block : Z;
  wq_liquidity_source : string;
}.

(** ** Conversions *)
Definition snapshot_to_domain (to_u32 : BigDecimal -> option Z) (liquidity : list DtoLiquidity)
  (source : WireSource) : comp (result string Snapshot) :=
  let!r liquidity := liquidities_to_domain to_u32 liquidity in
  Ret (Ok (mkSnapshot (ws_name source) (ws_block source) liquidity)).

Definition intent_to_domain (intent : LimitIntent) : Intent :=
  mkIntent (mkAsset (li_sell_token intent) (li_sell_amount intent))
    (mkAsset (li_buy_token intent) (li_min_buy_amount intent))
    (list_to_set (li_allowed_venues intent)).

Definition u64_MAX : Z := 2 ^ 64 - 1.

Definition Solution_from (fill : Fill) : Solution :=
  mkSolution (fill_expected_out fill) (fill_source fill) (fill_block fill)
    (if fits 64 (fill_gas fill) then fill_gas fill else u64_MAX)
    (map (fun segment => mkWireSegment (fs_liquidity segment)
      (asset_token (fs_input segment)) (asset_amount (fs_input segment))
      (asset_token (fs_output segment)) (asset_amount (fs_output segment))) (fill_segments fill)).

Definition Quote_from (q : Quote) : WireQuote :=
  mkWireQuote (quote_expected_out q) (quote_block q) (quote_source q).

(** ** Validation *)
Definition is_zero (a : Z) : bool := a =? 0.

(** [timestamp] is [chrono::Utc::now().timestamp()]. *)
Definition validate_intent (timestamp : Z) (intent : LimitIntent) : result string () :=
  if is_zero (li_signer intent) then Err "signer must not be zero"
  else if is_zero (li_sell_token intent) || is_zero (li_buy_token intent)
  then Err "token must not be zero"
  else if li_sell_token intent =? li_buy_token intent then Err "sell and buy token must differ"
  else if is_zero (li_sell_amount intent) || is_zero (li_min_buy_amount intent)
  then Err "amounts must be nonzero"
  else if li_deadline intent <=? Z.abs timestamp then Err "intent deadline has expired"
  else if 10000 <? li_max_slippage_bps intent then Err "max slippage must not exceed 10000 bps"
  else if bool_decide (li_allowed_venues intent = []) || bool_decide (0 ∈ li_allowed_venues intent)
  then Err "allowed venues must be nonempty and nonzero"
  else Ok ().

Definition validate_deployment (request : Deployment) (configured : MandateDeployment)
  : result string () :=
  letr _ := match md_chain_id configured with
            | Some chain_id =>
                if negb (bool_decide (dep_chain_id request = Some chain_id))
                then Err "request chain does not match the configured Mandate deployment" else Ok ()
            | None => Ok ()
            end in
  match md_settlement configured with
  | Some settlement =>
      if negb (bool_decide (dep_settlement_contract request = Some settlement))
      then Err "request settlement contract does not match the configured Mandate deployment"
      else Ok ()
  | None => Ok ()
  end.

Definition validate_quote (request : QuoteRequest) : result string () :=
  if is_zero (qr_sell_token request) || is_zero (qr_buy_token request)
  then Err "token must not be zero"
  else if qr_sell_token request =? qr_buy_token request then Err "sell and buy token must differ"
  else if is_zero (qr_sell_amount request) then Err "sell amount must be nonzero"
  else if bool_decide (qr_allowed_venues request = []) || bool_decide (0 ∈ qr_allowed_venues request)
  then Err "allowed venues must be nonempty and nonzero"
  else Ok ().

(** ** Handlers *)

(** [infra::metrics::result]. *)
Definition FILL : string := "fill".
Definition NO_FILL : string := "no_fill".
Definition BAD_REQUEST : string := "bad_request".

Record Outcome (T : Type) := mkOutcome {
  out_status : Z;
  out_body : result string T;
  out_recorded : string;
}.
Arguments mkOutcome {T} out_status out_body out_recorded.
Arguments out_status {T} o.
Arguments out_body {T} o.
Arguments out_recorded {T} o.

Definition respond_ok {T} (value : T) (recorded : string) : Outcome T :=
  mkOutcome 200 (Ok value) recorded.
Definition bad_request {T} (err : string) : Outcome T := mkOutcome 400 (Err err) BAD_REQUEST.

Section handlers.
Context (iter : hash_order) (to_u32 : BigDecimal -> option Z) (timestamp : Z).
Context (routing : Routing) (configured : MandateDeployment).

Definition handle_solve (request : SolveRequest) : comp (Outcome (option Solution)) :=
  match validate_deployment (sr_deployment request) configured with
  | Err err => Ret (bad_request err)
  | Ok _ =>
  match validate_intent timestamp (sr_intent request) with
  | Err err => Ret (bad_request err)
  | Ok _ =>
  let! decoded := snapshot_to_domain to_u32 (sr_liquidity request) (sr_liquidity_source request) in
  match decoded with
  | Err err => Ret (bad_request err)
  | Ok snapshot =>
  let! fill := Mandate.solve iter routing (intent_to_domain (sr_intent request)) snapshot in
  Ret (respond_ok (option_map Solution_from fill)
         (match fill with Some _ => FILL | None => NO_FILL end))
  end end end.

Definition handle_quote (request : QuoteRequest) : comp (Outcome (option WireQuote)) :=
  match validate_deployment (qr_deployment request) configured with
  | Err err => Ret (bad_request err)
  | Ok _ =>
  match validate_quote request with
  | Err err => Ret (bad_request err)
  | Ok _ =>
  let! decoded := snapshot_to_domain to_u32 (qr_liquidity request) (qr_liquidity_source request) in
  match decoded with
  | Err err => Ret (bad_request err)
  | Ok snapshot =>
  let! q := Mandate.quote iter routing (mkAsset (qr_sell_token request) (qr_sell_amount request))
              (qr_buy_token request) (list_to_set (qr_allowed_venues request)) snapshot in
  Ret (respond_ok (option_map Quote_from q)
         (match q with Some _ => FILL | None => NO_FILL end))
  end end end.
End handlers.

(** ** What validation accepts *)
Lemma validate_intent_Ok timestamp intent :
  validate_intent timestamp intent = Ok () <->
  li_signer intent <> 0 /\ li_sell_token intent <> 0 /\ li_buy_token intent <> 0 /\
  li_sell_token intent <> li_buy_token intent /\
  li_sell_amount intent <> 0 /\ li_min_buy_amount intent <> 0 /\
  Z.abs timestamp < li_deadline intent /\ li_max_slippage_bps intent <= 10000 /\
  li_allowed_venues intent <> [] /\ 0 ∉ li_allowed_venues intent.
Proof.
  unfold validate_intent, is_zero. split.
  - intros H. rust_inv. zify_bool. rewrite bool_decide_eq_false in *. split_and!; done.
  - intros (?&?&?&?&?&?&?&?&?&?).
    rewrite !(proj2 (Z.eqb_neq _ _)) by done. simpl.
    rewrite (proj2 (Z.leb_gt _ _)), (proj2 (Z.ltb_ge _ _)) by done.
    by rewrite !bool_decide_eq_false_2 by done.
Qed.

Lemma validate_deployment_Ok request configured :
  validate_deployment request configured = Ok () <->
  (forall c, md_chain_id configured = Some c -> dep_chain_id request = Some c) /\
  (forall s, md_settlement configured = Some s -> dep_settlement_contract request = Some s).
Proof.
  unfold validate_deployment. destruct (md_chain_id configured) as [c|], (md_settlement configured) as [s|];
    simpl; repeat case_bool_decide; simpl; naive_solver.
Qed.

Lemma validate_quote_Ok request :
  validate_quote request = Ok () <->
  qr_sell_token request <> 0 /\ qr_buy_token request <> 0 /\
  qr_sell_token request <> qr_buy_token request /\ qr_sell_amount request <> 0 /\
  qr_allowed_venues request <> [] /\ 0 ∉ qr_allowed_venues request.
Proof.
  unfold validate_quote, is_zero. split.
  - intros H. rust_inv. zify_bool. rewrite bool_decide_eq_false in *. split_and!; done.
  - intros (?&?&?&?&?&?). rewrite !(proj2 (Z.eqb_neq _ _)) by done. simpl.
    by rewrite !bool_decide_eq_false_2 by done.
Qed.

(** ** Routes on the wire *)

(** Where a route ends when it is executed from [at_], if each hop takes exactly
    what the previous one gave. *)
Fixpoint wire_end (at_ : address * Z) (route : list WireSegment) : option (address * Z) :=
  match route with
  | [] => Some at_
  | s :: route =>
      if bool_decide (at_ = (wseg_input_token s, wseg_input_amount s))
      then wire_end (wseg_output_token s, wseg_output_amount s) route else None
  end.

Lemma fill_connected_wire_end a segs b fill :
  fill_connected a segs b -> fill_segments fill = segs ->
  wire_end (asset_token a, asset_amount a) (sol_route (Solution_from fill))
    = Some (asset_token b, asset_amount b).
Proof.
  intros H E. cbn [sol_route Solution_from]. rewrite E. clear E.
  induction H as [s|s segs out H IH]; cbn [map wire_end wseg_input_token wseg_input_amount
    wseg_output_token wseg_output_amount]; rewrite bool_decide_eq_true_2 by done; [done|exact IH].
Qed.

(** ** The endpoints *)
Section endpoint_spec.
Context (iter : hash_order) (Hiter : forall l, iter l ≡ₚ l).
Context (to_u32 : BigDecimal -> option Z) (Hu32 : forall d v, to_u32 d = Some v -> 0 <= v < 2 ^ 32).
Context (timestamp : Z) (routing : Routing) (Hq : quoter_opt_ok (routing_quoter routing)).
Context (configured : MandateDeployment).

(** Liquidity the endpoints handle without panicking: [U256] amounts and, when a
    quoter is configured, concentrated fees within its 24 bits. *)
Definition wire_ok (ls : list DtoLiquidity) : Prop :=
  Forall (fun d => dto_wf d /\ (routing_quoter routing <> None -> fee_fits to_u32 d)) ls.

Lemma snapshot_to_domain_returns ls source :
  wire_ok ls ->
  returns (snapshot_to_domain to_u32 ls source) (fun r => forall s, r = Ok s ->
    snapshot_source s = ws_name source /\ snapshot_block s = ws_block source /\
    Forall2 decoded ls (snapshot_liquidity s) /\
    Forall (liquidity_wf (routing_quoter routing)) (snapshot_liquidity s)).
Proof.
  intros Hls. unfold snapshot_to_domain, wire_ok in *. rewrite Forall_forall in Hls.
  eapply (returns_rbind _ _ (Forall2 (fun d l => decoded d l /\ liquidity_wf (routing_quoter routing) l) ls)).
  - apply comp_rmap_returns. intros d Hd. destruct (Hls d Hd) as [Hwf Hfee].
    pose proof (liquidity_decoded to_u32 Hu32 d Hwf) as H.
    destruct (liquidity_to_domain to_u32 d) as [r|] eqn:E; [|done]. simpl in *.
    intros l ->. split; [by apply H|]. by eapply decoded_wf.
  - intros ls' H s [= <-]. cbn [snapshot_source snapshot_block snapshot_liquidity].
    split_and!; [done|done| |].
    + eapply Forall2_impl; [exact H|]. by intros d l [? _].
    + eapply Forall2_Forall_r; [exact H|]. apply Forall_forall. by intros d _ l [_ ?].
Qed.
End endpoint_spec.

(** What a fill promises the signer of an intent. *)
Definition honours (intent : LimitIntent) (ls : list DtoLiquidity) (source : WireSource)
  (max_hops : nat) (s : Solution) : Prop :=
  li_min_buy_amount intent <= sol_expected_out s /\
  wire_end (li_sell_token intent, li_sell_amount intent) (sol_route s)
    = Some (li_buy_token intent, sol_expected_out s) /\
  (1 <= length (sol_route s) <= max_hops + 1)%nat /\
  Forall (fun sg => exists d venue, d ∈ ls /\ dto_id d = wseg_liquidity sg /\
    venue ∈ dto_venues d /\ venue ∈ li_allowed_venues intent) (sol_route s) /\
  sol_liquidity_source s = ws_name source /\ sol_block s = ws_block source.

(** The fill of a domain intent, as the response shows it. *)
Lemma solve_honours_wire iter to_u32 routing intent ls source snapshot :
  (forall l, iter l ≡ₚ l) -> (forall d v, to_u32 d = Some v -> 0 <= v < 2 ^ 32) ->
  quoter_opt_ok (routing_quoter routing) -> wire_ok to_u32 routing ls ->
  u256 (li_sell_amount intent) ->
  snapshot_to_domain to_u32 ls source = Ret (Ok snapshot) ->
  returns (Mandate.solve iter routing (intent_to_domain intent) snapshot) (fun o =>
    forall fill, o = Some fill ->
      honours intent ls source (routing_max_hops routing) (Solution_from fill)).
Proof.
  intros Hiter Hu32 Hq Hls Hx Hsnap.
  pose proof (snapshot_to_domain_returns to_u32 Hu32 routing ls source Hls) as H.
  rewrite Hsnap in H. destruct (H snapshot eq_refl) as (Hsrc & Hblk & Hdec & Hwf). clear H.
  destruct (solve_returns iter Hiter routing Hq snapshot Hwf (intent_to_domain intent) Hx) as (s & _ & Hr).
  eapply returns_mono; [exact Hr|]. intros o Ho fill ->.
  destruct Ho as (r & e & path & _ & _ & (Hc & Hlen & Hfrom) & Hfloor & Hfill & _).
  pose proof (fill_connected_wire_end _ _ _ fill (connected_fill _ _ _ Hc)
    ltac:(by subst fill)) as Hend. subst fill.
  unfold honours. cbn [sol_expected_out sol_route sol_liquidity_source sol_block Solution_from
    fill_expected_out fill_source fill_block fill_segments] in *.
  split; [exact Hfloor|]. split; [exact Hend|]. rewrite !length_fmap. split; [exact Hlen|].
  split; [|done]. rewrite !Forall_fmap. eapply Forall_impl; [exact Hfrom|].
  cbn. intros sg [Hin Hv]%allowed_liquidity_elem. apply is_venue_spec in Hv.
  apply list_elem_of_lookup in Hin as [i Hi].
  destruct (Forall2_lookup_r _ _ _ _ _ Hdec Hi) as (d & Hd & Hid & Hven & _).
  exists d. cbn [intent_to_domain intent_allowed_venues] in Hv.
  destruct Hv as [Hv|(router & Hrt & Hv)]; apply elem_of_list_to_set in Hv; eexists.
  - split_and!; [by eapply list_elem_of_lookup_2|done| |exact Hv]. rewrite <- Hven. set_solver.
  - split_and!; [by eapply list_elem_of_lookup_2|done| |exact Hv]. rewrite <- Hven, Hrt. set_solver.
Qed.

(** C1 (safety): [POST /mandate/solve] answers every request over well-formed wire
    liquidity without panicking.  It answers 200 only to a request for the
    configured deployment carrying a live, well-formed intent, and a solution it
    returns honours that intent end to end: at least the signed floor, over a
    route that executes from the exact sell amount to the promised output, each
    hop through a liquidity of the request at an address the signer allowed, and
    tagged with the request's snapshot.  The recorded result label matches the
    answer. *)
Theorem solve_endpoint_sound iter to_u32 timestamp routing configured request :
  (forall l, iter l ≡ₚ l) -> (forall d v, to_u32 d = Some v -> 0 <= v < 2 ^ 32) ->
  quoter_opt_ok (routing_quoter routing) -> wire_ok to_u32 routing (sr_liquidity request) ->
  u256 (li_sell_amount (sr_intent request)) ->
  exists out, handle_solve iter to_u32 timestamp routing configured request = Ret out /\
    match out_body out with
    | Err _ => out_status out = 400 /\ out_recorded out = BAD_REQUEST
    | Ok solution =>
        out_status out = 200 /\
        (forall c, md_chain_id configured = Some c -> dep_chain_id (sr_deployment request) = Some c) /\
        (forall s, md_settlement configured = Some s ->
          dep_settlement_contract (sr_deployment request) = Some s) /\
        Z.abs timestamp < li_deadline (sr_intent request) /\
        li_sell_token (sr_intent request) <> li_buy_token (sr_intent request) /\
        li_min_buy_amount (sr_intent request) <> 0 /\ (0 ∉ li_allowed_venues (sr_intent request)) /\
        match solution with
        | Some s => out_recorded out = FILL /\ honours (sr_intent request) (sr_liquidity request)
                      (sr_liquidity_source request) (routing_max_hops routing) s
        | None => out_recorded out = NO_FILL
        end
    end.
Proof.
  intros Hiter Hu32 Hq Hls Hx. unfold handle_solve.
  destruct (validate_deployment _ _) as [[]|err] eqn:Hd; [|by eexists].
  destruct (validate_intent _ _) as [[]|err] eqn:Hi; [|by eexists].
  destruct (returns_inv _ _ (snapshot_to_domain_returns to_u32 Hu32 routing _
    (sr_liquidity_source request) Hls)) as (r & Hr & _). rewrite Hr. cbn [comp_bind].
  destruct r as [snapshot|err]; [|by eexists].
  destruct (returns_inv _ _ (solve_honours_wire iter to_u32 routing _ _ _ _ Hiter Hu32 Hq Hls Hx Hr))
    as (o & -> & Ho). cbn [comp_bind]. eexists. split; [done|]. cbn [out_body respond_ok].
  apply validate_deployment_Ok in Hd as [? ?].
  apply validate_intent_Ok in Hi as (?&?&?&?&?&?&?&?&?&?).
  split_and!; [done..|]. destruct o as [fill|]; [|done]. split; [done|by apply Ho].
Qed.

(** The quote request with the data of a solve request. *)
Definition quote_of (request : SolveRequest) : QuoteRequest :=
  mkQuoteRequest (li_sell_token (sr_intent request)) (li_buy_token (sr_intent request))
    (li_sell_amount (sr_intent request)) (li_allowed_venues (sr_intent request))
    (sr_liquidity request) (sr_liquidity_source request) (sr_deployment request).

(** The two endpoints agree.  For a valid intent, quoting its
    trade and solving it over the same snapshot fail together with the same
    error; otherwise the solve endpoint returns a solution exactly when the
    signed floor is at most the quoted output, and then promises the quoted
    output against the quoted snapshot. *)
Theorem endpoints_consistent iter to_u32 timestamp routing configured request :
  (forall l, iter l ≡ₚ l) -> (forall d v, to_u32 d = Some v -> 0 <= v < 2 ^ 32) ->
  quoter_opt_ok (routing_quoter routing) -> wire_ok to_u32 routing (sr_liquidity request) ->
  u256 (li_sell_amount (sr_intent request)) ->
  validate_intent timestamp (sr_intent request) = Ok () ->
  exists quoted solved,
    handle_quote iter to_u32 routing configured (quote_of request) = Ret quoted /\
    handle_solve iter to_u32 timestamp routing configured request = Ret solved /\
    out_status quoted = out_status solved /\
    match out_body quoted with
    | Err e => out_body solved = Err e
    | Ok None => out_body solved = Ok None
    | Ok (Some q) =>
        if li_min_buy_amount (sr_intent request) <=? wq_expected_out q
        then exists s, out_body solved = Ok (Some s) /\ sol_expected_out s = wq_expected_out q /\
          sol_block s = wq_block q /\ sol_liquidity_source s = wq_liquidity_source q
        else out_body solved = Ok None
    end.
Proof.
  intros Hiter Hu32 Hq Hls Hx Hv. unfold handle_solve, handle_quote. rewrite Hv.
  assert (validate_quote (quote_of request) = Ok ()) as ->.
  { apply validate_quote_Ok. apply validate_intent_Ok in Hv as (?&?&?&?&?&?&?&?&?&?). done. }
  cbn [quote_of qr_deployment qr_liquidity qr_liquidity_source qr_sell_token qr_sell_amount
    qr_buy_token qr_allowed_venues].
  destruct (validate_deployment _ _) as [[]|err]; [|do 2 eexists; done].
  destruct (returns_inv _ _ (snapshot_to_domain_returns to_u32 Hu32 routing _
    (sr_liquidity_source request) Hls)) as (r & -> & Hr). cbn [comp_bind].
  destruct r as [snapshot|err]; [|do 2 eexists; done].
  destruct (Hr snapshot eq_refl) as (_ & _ & _ & Hwf).
  unfold Mandate.quote, intent_to_domain. rewrite (solve_floor iter routing _ _
    (li_min_buy_amount (sr_intent request)) _ snapshot) by done.
  set (free := mkIntent _ (mkAsset _ 0) _).
  destruct (solve_returns iter Hiter routing Hq snapshot Hwf free Hx) as (s & _ & Ho).
  destruct (returns_inv _ _ Ho) as (o & -> & _). cbn [comp_bind].
  destruct o as [fill|]; cbn [comp_obind comp_bind option_map]; [|do 2 eexists; done].
  destruct (Z.leb_spec (li_min_buy_amount (sr_intent request)) (fill_expected_out fill)) as [Hle|Hlt];
    do 2 eexists; (split; [done|]); (split; [done|]); (split; [done|]);
    cbn [out_body respond_ok Quote_from wq_expected_out quote_expected_out].
  - rewrite (proj2 (Z.leb_le _ _)) by done. eexists. done.
  - by rewrite (proj2 (Z.leb_gt _ _)) by done.
Qed.

(** ** Examples *)
Definition example_request (deadline : Z) : SolveRequest :=
  mkSolveRequest (mkLimitIntent 9 0 3 7 1000 400 50 deadline [101]) example_wire
    (mkWireSource "indexer" 42) (mkDeployment (Some 84532) None).
Definition example_configured : MandateDeployment := mkMandateDeployment (Some 84532) None.
Definition api_routing : Routing := mkRouting 5 [] 1 None.

Example handle_solve_examples :
  handle_solve id truncating_u32 1000 api_routing example_configured (example_request 2000)
    = Ret (mkOutcome 200 (Ok (Some (mkSolution 498 "indexer" 42 60000
        [mkWireSegment "cp" 3 1000 7 498]))) "fill") /\
  handle_solve id truncating_u32 2000 api_routing example_configured (example_request 2000)
    = Ret (mkOutcome 400 (Err "intent deadline has expired") "bad_request") /\
  handle_solve id truncating_u32 1000 api_routing (mkMandateDeployment (Some 1) None)
      (example_request 2000)
    = Ret (mkOutcome 400 (Err "request chain does not match the configured Mandate deployment")
        "bad_request").
Proof. by vm_compute. Qed.

Lemma example_wire_ok : wire_ok truncating_u32 api_routing example_wire.
Proof. repeat constructor; try done; unfold u256; simpl; lia. Qed.

Lemma solve_endpoint_sound_witness :
  exists s, handle_solve id truncating_u32 1000 api_routing example_configured (example_request 2000)
      = Ret (mkOutcome 200 (Ok (Some s)) FILL) /\
    honours (sr_intent (example_request 2000)) example_wire (mkWireSource "indexer" 42) 1 s.
Proof.
  destruct (solve_endpoint_sound id truncating_u32 1000 api_routing example_configured
    (example_request 2000)) as (out & Hout & H);
    [reflexivity|exact truncating_u32_fits|exact no_quoter_ok|exact example_wire_ok
    |unfold u256; simpl; lia|].
  rewrite (proj1 handle_solve_examples) in Hout. injection Hout as <-.
  destruct H as (_ & _ & _ & _ & _ & _ & _ & _ & H). eexists.
  split; [exact (proj1 handle_solve_examples)|exact H].
Defined.

Lemma endpoints_consistent_witness :
  exists quoted solved,
    handle_quote id truncating_u32 api_routing example_configured (quote_of (example_request 2000))
      = Ret quoted /\
    handle_solve id truncating_u32 1000 api_routing example_configured (example_request 2000)
      = Ret solved /\ out_status quoted = out_status solved.
Proof.
  destruct (endpoints_consistent id truncating_u32 1000 api_routing example_configured
    (example_request 2000)) as (quoted & solved & Hq & Hs & Hst & _);
    [reflexivity|exact truncating_u32_fits|exact no_quoter_ok|exact example_wire_ok
    |unfold u256; simpl; lia|reflexivity|].
  exists quoted, solved. split; [exact Hq|]. split; [exact Hs|exact Hst].
Defined.
