(* ===== verification/Metrics.v ===== *)
(** * Metrics: accounting for Mandate requests

    The request tracker of [crates/solvers/src/infra/metrics.rs] and the
    middleware of [crates/solvers/src/api/mod.rs] that admits, sheds and times out
    requests, as a step relation over the requests that hold a permit.  Gauges
    and counters are maps from label values to integers; a label that was never
    touched reads as zero. *)

From stdpp Require Import base gmap sets list strings.
From Stdlib Require Import ZArith Lia.
From S2P Require Import Prelude MandateApi.

Open Scope Z_scope.

(** [infra::metrics::endpoint] and [result]. *)
Definition SOLVE : string := "solve".
Definition QUOTE : string := "quote".
Definition UNKNOWN : string := "unknown".
Definition OVERLOADED : string := "overloaded".
Definition TIMEOUT : string := "timeout".
Definition INTERNAL_ERROR : string := "internal_error".

(** The Mandate part of [Metrics]; durations are counted, not measured. *)
Record Metrics := mkMetrics {
  mandate_requests_total : gmap (string * string) Z;
  mandate_duration_count : gmap string Z;
  mandate_requests_inflight : gmap string Z;
}.

Definition label `{Countable K} (m : gmap K Z) (k : K) : Z := default 0 (m !! k).
Definition bump `{Countable K} (m : gmap K Z) (k : K) (d : Z) : gmap K Z := <[k := label m k + d]> m.

Record MandateRequest := mkMandateRequest { mr_endpoint : string; mr_result : option string }.

Definition mandate_request (endpoint : string) (m : Metrics) : MandateRequest * Metrics :=
  (mkMandateRequest endpoint None,
   mkMetrics (mandate_requests_total m) (mandate_duration_count m)
     (bump (mandate_requests_inflight m) endpoint 1)).

Definition MandateRequest_record (result : string) (r : MandateRequest) : MandateRequest :=
  mkMandateRequest (mr_endpoint r) (Some result).

(** [Drop for MandateRequest]. *)
Definition MandateRequest_drop (r : MandateRequest) (m : Metrics) : Metrics :=
  mkMetrics
    (match mr_result r with
     | Some result => bump (mandate_requests_total m) (mr_endpoint r, result) 1
     | None => mandate_requests_total m
     end)
    (bump (mandate_duration_count m) (mr_endpoint r) 1)
    (bump (mandate_requests_inflight m) (mr_endpoint r) (-1)).

Definition mandate_rejected (endpoint result : string) (m : Metrics) : Metrics :=
  mkMetrics (bump (mandate_requests_total m) (endpoint, result) 1) (mandate_duration_count m)
    (mandate_requests_inflight m).

(** ** Middleware errors *)
Inductive MiddlewareError := Overloaded | Elapsed | OtherError.

Record ErrorResponse := mkErrorResponse {
  er_status : Z;
  er_retry_after : option string;
  er_message : string;
}.

Definition endpoint_of_path (path : string) : string :=
  if bool_decide (path = "/mandate/solve") then SOLVE
  else if bool_decide (path = "/mandate/quote") then QUOTE else UNKNOWN.

Definition handle_error (path : string) (err : MiddlewareError) (m : Metrics)
  : ErrorResponse * Metrics :=
  let endpoint := endpoint_of_path path in
  match err with
  | Overloaded => (mkErrorResponse 503 (Some "1") "solver is at capacity",
                   mandate_rejected endpoint OVERLOADED m)
  | Elapsed => (mkErrorResponse 504 None "solving exceeded the request deadline",
                mandate_rejected endpoint TIMEOUT m)
  | OtherError => (mkErrorResponse 500 None "internal error",
                   mandate_rejected endpoint INTERNAL_ERROR m)
  end.

(** ** The middleware as a step relation

    A request that was admitted holds a permit until its response is ready or its
    deadline passes; it first has its body extracted and then runs its handler.
    Both Mandate routes share the permits. *)
Inductive Route_ := SolveRoute | QuoteRoute.
Definition route_path (r : Route_) : string :=
  match r with SolveRoute => "/mandate/solve" | QuoteRoute => "/mandate/quote" end.
Definition route_endpoint (r : Route_) : string :=
  match r with SolveRoute => SOLVE | QuoteRoute => QUOTE end.

Inductive Phase := Extracting | Handling (r : MandateRequest).
Record Active := mkActive { ac_route : Route_; ac_phase : Phase }.

(** How a request ended for its client: with an outcome that has a label, refused because its
    body does not parse, or without an answer because the handler panicked. *)
Inductive RequestEnd := Labelled (result : string) | BodyRefused | Unanswered.
#[export] Instance RequestEnd_eq_dec : EqDecision RequestEnd.
Proof. solve_decision. Defined.

(** The requests that ended are logged with the endpoint they asked for. *)
Record Server := mkServer {
  sv_active : list Active;
  sv_ended : list (string * RequestEnd);
  sv_metrics : Metrics;
}.

Definition server_init : Server := mkServer [] [] (mkMetrics ∅ ∅ ∅).

(** The labels a handler records. *)
Definition handler_results : list string := [FILL; NO_FILL; BAD_REQUEST].

Inductive step (max_concurrent_requests : nat) : Server -> Server -> Prop :=
(** a permit is free: the request is admitted *)
| step_admit rt act ended m :
    (length act < max_concurrent_requests)%nat ->
    step max_concurrent_requests (mkServer act ended m)
      (mkServer (mkActive rt Extracting :: act) ended m)
(** no permit is free: [load_shed] rejects the request *)
| step_shed rt act ended m :
    (max_concurrent_requests <= length act)%nat ->
    step max_concurrent_requests (mkServer act ended m)
      (mkServer act ((route_endpoint rt, Labelled OVERLOADED) :: ended)
         (handle_error (route_path rt) Overloaded m).2)
(** the body does not parse: the extractor answers, no handler runs *)
| step_reject_body rt act1 act2 ended m :
    step max_concurrent_requests (mkServer (act1 ++ mkActive rt Extracting :: act2) ended m)
      (mkServer (act1 ++ act2) ((route_endpoint rt, BodyRefused) :: ended) m)
(** the handler starts *)
| step_handle rt act1 act2 ended m :
    step max_concurrent_requests (mkServer (act1 ++ mkActive rt Extracting :: act2) ended m)
      (let (r, m') := mandate_request (route_endpoint rt) m in
       mkServer (act1 ++ mkActive rt (Handling r) :: act2) ended m')
(** the handler records its result and returns, which drops the tracker *)
| step_return rt r result act1 act2 ended m :
    result ∈ handler_results ->
    step max_concurrent_requests (mkServer (act1 ++ mkActive rt (Handling r) :: act2) ended m)
      (mkServer (act1 ++ act2) ((route_endpoint rt, Labelled result) :: ended)
         (MandateRequest_drop (MandateRequest_record result r) m))
(** the handler panics: unwinding drops the tracker *)
| step_panic rt r act1 act2 ended m :
    step max_concurrent_requests (mkServer (act1 ++ mkActive rt (Handling r) :: act2) ended m)
      (mkServer (act1 ++ act2) ((route_endpoint rt, Unanswered) :: ended) (MandateRequest_drop r m))
(** the deadline passes before the handler starts *)
| step_elapsed_extracting rt act1 act2 ended m :
    step max_concurrent_requests (mkServer (act1 ++ mkActive rt Extracting :: act2) ended m)
      (mkServer (act1 ++ act2) ((route_endpoint rt, Labelled TIMEOUT) :: ended)
         (handle_error (route_path rt) Elapsed m).2)
(** the deadline passes inside the handler: its future is dropped, then the error
    is turned into a response *)
| step_elapsed rt r act1 act2 ended m :
    step max_concurrent_requests (mkServer (act1 ++ mkActive rt (Handling r) :: act2) ended m)
      (mkServer (act1 ++ act2) ((route_endpoint rt, Labelled TIMEOUT) :: ended)
         (handle_error (route_path rt) Elapsed (MandateRequest_drop r m)).2).

Inductive reachable (n : nat) : Server -> Prop :=
| reachable_init : reachable n server_init
| reachable_step s s' : reachable n s -> step n s s' -> reachable n s'.

(** ** Counting *)
Lemma label_bump `{Countable K} (m : gmap K Z) k k' d :
  label (bump m k d) k' = label m k' + (if decide (k = k') then d else 0).
Proof.
  unfold bump, label at 1. case_decide as E.
  - subst. by rewrite lookup_insert_eq.
  - rewrite lookup_insert_ne by done. unfold label. lia.
Qed.

Definition handles (e : string) (a : Active) : Prop :=
  match ac_phase a with Handling r => mr_endpoint r = e | Extracting => False end.
#[export] Instance handles_dec e a : Decision (handles e a).
Proof. unfold handles. destruct (ac_phase a); apply _. Defined.

Definition count {A} (P : A -> Prop) `{!forall x, Decision (P x)} (l : list A) : Z :=
  Z.of_nat (length (filter P l)).

Lemma count_app {A} (P : A -> Prop) `{!forall x, Decision (P x)} l k :
  count P (l ++ k) = count P l + count P k.
Proof. unfold count. rewrite filter_app, length_app. lia. Qed.

Lemma count_cons {A} (P : A -> Prop) `{!forall x, Decision (P x)} x l :
  count P (x :: l) = (if decide (P x) then 1 else 0) + count P l.
Proof. unfold count. rewrite filter_cons. case_decide; simpl; lia. Qed.

(** The tracker of a running handler belongs to its route and has no result yet. *)
Definition tracked (a : Active) : Prop :=
  match ac_phase a with
  | Handling r => r = mkMandateRequest (route_endpoint (ac_route a)) None
  | Extracting => True
  end.

Lemma endpoint_of_route rt : endpoint_of_path (route_path rt) = route_endpoint rt.
Proof. by destruct rt. Qed.

Record accounted (n : nat) (s : Server) : Prop := {
  acc_permits : (length (sv_active s) <= n)%nat;
  acc_tracked : Forall tracked (sv_active s);
  acc_inflight e : label (mandate_requests_inflight (sv_metrics s)) e
                   = count (handles e) (sv_active s);
  acc_total e r : label (mandate_requests_total (sv_metrics s)) (e, r)
                  = count (fun o => o = (e, Labelled r)) (sv_ended s);
}.

Lemma step_accounted n s s' : accounted n s -> step n s s' -> accounted n s'.
Proof.
  intros [Hp Ht Hi Hc] Hs. destruct Hs; simpl in *; rewrite ?length_app, ?Forall_app, ?Forall_cons in *;
    simpl in *; split; simpl; rewrite ?length_app, ?Forall_app, ?Forall_cons; simpl;
    try solve [lia | tauto | split_and!; tauto | done].
  all: first [intros e r'; pose proof (Hc e r') as Hl | intros e; pose proof (Hi e) as Hl | idtac]; clear Hi Hc.
  all: try (destruct Ht as (Ht1 & Htr & Ht2)); try (unfold tracked in Htr; simpl in Htr; subst r).
  all: try solve [split_and!; done].
  all: rewrite ?endpoint_of_route, ?label_bump, ?count_app, ?count_cons in *; simpl in *.
  all: repeat case_decide; unfold handles in *; simpl in *; simplify_eq; try tauto; try lia.
Qed.

Lemma reachable_accounted n s : reachable n s -> accounted n s.
Proof.
  induction 1 as [|s s' _ IH Hs]; [|by eapply step_accounted].
  split; simpl; [lia|done|done|done].
Qed.

(** C35 (invariant): whatever the interleaving of admissions, rejections, returns,
    panics and timeouts, at most [max_concurrent_requests] Mandate requests hold a
    permit, the in-flight gauge of an endpoint is the number of its handlers that
    are running, and each outcome a client saw is counted exactly once under the
    endpoint it asked for: a shed or timed-out request is not counted again when
    its handler's tracker is dropped, and a request whose body is refused or whose handler
    panics is not counted. *)
Theorem mandate_accounting n s :
  reachable n s ->
  (length (sv_active s) <= n)%nat /\
  (forall e, label (mandate_requests_inflight (sv_metrics s)) e = count (handles e) (sv_active s)) /\
  (forall e r, label (mandate_requests_total (sv_metrics s)) (e, r)
               = count (fun o => o = (e, Labelled r)) (sv_ended s)).
Proof. intros [Hp _ Hi Hc]%reachable_accounted. done. Qed.

(** One request times out in its handler while a second one is shed. *)
Lemma example_reachable :
  reachable 1 (mkServer [] [(SOLVE, Labelled TIMEOUT); (QUOTE, Labelled OVERLOADED)]
    (handle_error "/mandate/solve" Elapsed (MandateRequest_drop (mkMandateRequest SOLVE None)
      (handle_error "/mandate/quote" Overloaded (mandate_request SOLVE (sv_metrics server_init)).2).2)).2).
Proof.
  eapply reachable_step; [eapply reachable_step; [eapply reachable_step; [eapply reachable_step;
    [apply reachable_init|]|]|]|].
  - apply (step_admit 1 SolveRoute []). simpl. lia.
  - apply (step_handle 1 SolveRoute [] []).
  - apply (step_shed 1 QuoteRoute [_]). simpl. lia.
  - apply (step_elapsed 1 SolveRoute _ [] []).
Qed.

Lemma mandate_accounting_witness :
  exists s, reachable 1 s /\
    label (mandate_requests_inflight (sv_metrics s)) SOLVE = 0 /\
    label (mandate_requests_total (sv_metrics s)) (SOLVE, TIMEOUT) = 1 /\
    label (mandate_requests_total (sv_metrics s)) (QUOTE, OVERLOADED) = 1.
Proof.
  destruct (mandate_accounting 1 _ example_reachable) as (_ & Hi & Hc).
  eexists. split; [exact example_reachable|]. rewrite Hi, !Hc. split_and!; reflexivity.
Defined.
