(* ===== verification/Config.v ===== *)
(** * Config: chains and the engine's configuration

    [crates/chain/src/lib.rs] (the supported chains) and
    [crates/solvers/src/infra/config.rs] (the routing limits and [load], from the
    parsed file on; reading and parsing TOML is not modelled).  The WETH address
    of a chain comes from generated contract bindings and is a parameter. *)

From stdpp Require Import base gmap sets list strings.
From Stdlib Require Import ZArith Lia Permutation.
From S2P Require Import Prelude Collections Eth BaselineSolver MandateApi.

Open Scope Z_scope.

(** ** [chain::Chain] *)
Inductive Chain :=
| Mainnet | Goerli | Gnosis | Sepolia | ArbitrumOne | Base | Hardhat | Bnb
| Avalanche | Optimism | Polygon | Lens | Linea | Plasma | Ink.

#[export] Instance Chain_eq_dec : EqDecision Chain.
Proof. solve_decision. Defined.

Definition Chain_id (c : Chain) : Z :=
  match c with
  | Mainnet => 1 | Goerli => 5 | Gnosis => 100 | Sepolia => 11155111
  | ArbitrumOne => 42161 | Base => 8453 | Hardhat => 31337 | Bnb => 56
  | Avalanche => 43114 | Optimism => 10 | Polygon => 137 | Lens => 232
  | Linea => 59144 | Plasma => 9745 | Ink => 57073
  end.

Definition Chain_name (c : Chain) : string :=
  match c with
  | Mainnet => "Ethereum / Mainnet" | Goerli => "Ethereum / Goerli" | Gnosis => "xDAI"
  | Sepolia => "Ethereum / Sepolia" | ArbitrumOne => "Arbitrum One" | Base => "Base"
  | Hardhat => "Hardhat" | Bnb => "BNB Smart Chain" | Avalanche => "Avalanche"
  | Optimism => "Optimism" | Polygon => "Polygon" | Lens => "Lens" | Linea => "Linea"
  | Plasma => "Plasma" | Ink => "Ink"
  end.

Definition default_amount_to_estimate_native_prices_with (c : Chain) : comp Z :=
  match c with
  | Mainnet | Goerli | Sepolia | ArbitrumOne | Base | Bnb | Linea | Optimism | Ink => Ret (10 ^ 17)
  | Gnosis | Avalanche | Lens => Ret (10 ^ 18)
  | Polygon | Plasma => Ret (10 ^ 20)
  | Hardhat => Panic
  end.

Definition block_time_in_ms (c : Chain) : Z :=
  match c with
  | Mainnet => 12000 | Goerli => 12000 | Gnosis => 5000 | Sepolia => 12000
  | ArbitrumOne => 250 | Base => 2000 | Hardhat => 12000 | Bnb => 3000
  | Avalanche => 2000 | Optimism => 2000 | Polygon => 2000 | Lens => 2000
  | Linea => 2000 | Plasma => 1000 | Ink => 1000
  end.

(** [TryFrom<u64>]: the match arms are tried in order. *)
Definition Chain_try_from (value : Z) : option Chain :=
  if value =? Chain_id Mainnet then Some Mainnet
  else if value =? Chain_id Goerli then Some Goerli
  else if value =? Chain_id Gnosis then Some Gnosis
  else if value =? Chain_id Sepolia then Some Sepolia
  else if value =? Chain_id ArbitrumOne then Some ArbitrumOne
  else if value =? Chain_id Base then Some Base
  else if value =? Chain_id Hardhat then Some Hardhat
  else if value =? Chain_id Bnb then Some Bnb
  else if value =? Chain_id Avalanche then Some Avalanche
  else if value =? Chain_id Optimism then Some Optimism
  else if value =? Chain_id Polygon then Some Polygon
  else if value =? Chain_id Lens then Some Lens
  else if value =? Chain_id Linea then Some Linea
  else if value =? Chain_id Plasma then Some Plasma
  else if value =? Chain_id Ink then Some Ink
  else None.

(** [TryFrom<U256>]. *)
Definition Chain_try_from_u256 (value : Z) : option Chain :=
  if fits 64 value then Chain_try_from value else None.

(** ** Routing limits *)
Definition usize_MAX : Z := 2 ^ 64 - 1.
Definition usize_saturating_add (a b : Z) : Z := Z.min (a + b) usize_MAX.
Definition usize_saturating_pow (a e : Z) : Z := Z.min (a ^ e) usize_MAX.

Definition MAX_BASE_TOKENS : Z := 128.
Definition MAX_HOPS : Z := 4.
Definition MAX_PATH_CANDIDATES : Z := 4096.

(** [hop as u32] truncates. *)
Definition path_candidate_bound (base_tokens : Z) (max_hops : nat) : Z :=
  let tokens := usize_saturating_add base_tokens 1 in
  fold_left usize_saturating_add
    (map (fun hop => usize_saturating_pow tokens (Z.of_nat hop mod 2 ^ 32)) (seq 0 (S max_hops))) 0.

Inductive RoutingError :=
| TooManyBaseTokens (base_tokens : Z)
| TooManyHops (max_hops : Z)
| TooManyCandidates (base_tokens max_hops candidates : Z).

Definition validate_routing (base_tokens : Z) (max_hops : nat) : result RoutingError () :=
  if MAX_BASE_TOKENS <? base_tokens then Err (TooManyBaseTokens base_tokens)
  else if MAX_HOPS <? Z.of_nat max_hops then Err (TooManyHops (Z.of_nat max_hops))
  else
    let candidates := path_candidate_bound base_tokens max_hops in
    if MAX_PATH_CANDIDATES <? candidates
    then Err (TooManyCandidates base_tokens (Z.of_nat max_hops) candidates)
    else Ok ().

(** ** [load] *)
Record FileConfig := mkFileConfig {
  fc_chain_id : option Chain;
  fc_weth : option address;
  fc_base_tokens : list address;
  fc_max_hops : nat;
  fc_max_partial_attempts : nat;
  fc_solution_gas_offset : Z;
  fc_native_token_price_estimation_amount : Z;
  fc_uni_v3_node_url : option string;
  fc_mandate_chain_id : option Z;
  fc_mandate_settlement : option address;
}.

Record Config := mkConfig {
  cf_weth : address;
  cf_base_tokens : list address;
  cf_max_hops : nat;
  cf_max_partial_attempts : nat;
  cf_solution_gas_offset : Z;
  cf_native_token_price_estimation_amount : Z;
  cf_uni_v3_node_url : option string;
  cf_mandate : MandateDeployment;
}.

Section load.
(** [WETH9::deployment_address]. *)
Context (deployment_address : Z -> option address).

Definition Contracts_for_chain (chain : Chain) : comp address :=
  expect (deployment_address (Chain_id chain)).

Definition load (config : FileConfig) : comp Config :=
  match validate_routing (Z.of_nat (length (fc_base_tokens config))) (fc_max_hops config) with
  | Err _ => Panic
  | Ok _ =>
  let! weth := match fc_chain_id config, fc_weth config with
               | Some chain_id, None => Contracts_for_chain chain_id
               | None, Some weth => Ret weth
               | Some _, Some _ => Panic
               | None, None => Panic
               end in
  Ret (mkConfig weth (fc_base_tokens config) (fc_max_hops config) (fc_max_partial_attempts config)
    (fc_solution_gas_offset config) (fc_native_token_price_estimation_amount config)
    (fc_uni_v3_node_url config)
    (mkMandateDeployment (fc_mandate_chain_id config) (fc_mandate_settlement config)))
  end.
End load.

(** ** Chains *)

(** Reading a chain id back gives the chain, and only the ids of
    supported chains are accepted, so no two chains share an id. *)
Theorem chain_id_round_trip value c :
  Chain_try_from_u256 value = Some c <-> value = Chain_id c.
Proof.
  split.
  - unfold Chain_try_from_u256, Chain_try_from. destruct (fits 64 value); [|done].
    intros H. repeat match type of H with (if ?b then _ else _) = _ =>
      let E := fresh "E" in destruct b eqn:E; [injection H as <-; by apply Z.eqb_eq in E|] end. done.
  - intros ->. by destruct c.
Qed.

(** ** The candidate bound *)
Lemma fold_saturating l a :
  0 <= a -> Forall (fun x => 0 <= x) l ->
  fold_left usize_saturating_add (map (fun x => Z.min x usize_MAX) l) (Z.min a usize_MAX)
    = Z.min (a + foldr Z.add 0 l) usize_MAX.
Proof.
  intros Ha Hl. revert a Ha. induction Hl as [|x l Hx Hl IH]; intros a Ha; simpl; [by rewrite Z.add_0_r|].
  assert (usize_saturating_add (Z.min a usize_MAX) (Z.min x usize_MAX) = Z.min (a + x) usize_MAX) as ->.
  { unfold usize_saturating_add, usize_MAX. lia. }
  rewrite IH by lia. f_equal. lia.
Qed.

Lemma foldr_add_app l k : foldr Z.add 0 (l ++ k) = foldr Z.add 0 l + foldr Z.add 0 k.
Proof. induction l; simpl; lia. Qed.

Lemma geometric_sum n b : foldr Z.add 0 (map (fun hop => b ^ Z.of_nat hop) (seq 0 n)) = geometric n b.
Proof.
  induction n as [|n IH]; [done|]. rewrite seq_S, map_app, foldr_add_app, IH. cbn [map foldr geometric].
  rewrite Nat.add_0_l. lia.
Qed.

(** The bound is the geometric sum, capped at the largest [usize]. *)
Lemma path_candidate_bound_geometric base_tokens max_hops :
  0 <= base_tokens < usize_MAX -> Z.of_nat max_hops < 2 ^ 32 ->
  path_candidate_bound base_tokens max_hops
    = Z.min (geometric (S max_hops) (base_tokens + 1)) usize_MAX.
Proof.
  intros Hb Hh. unfold path_candidate_bound.
  assert (usize_saturating_add base_tokens 1 = base_tokens + 1) as ->.
  { unfold usize_saturating_add. lia. }
  rewrite <- geometric_sum.
  replace (map (fun hop => usize_saturating_pow (base_tokens + 1) (Z.of_nat hop mod 2 ^ 32)) (seq 0 (S max_hops)))
    with (map (fun x => Z.min x usize_MAX)
            (map (fun hop => (base_tokens + 1) ^ Z.of_nat hop) (seq 0 (S max_hops)))).
  - change 0 with (Z.min 0 usize_MAX) at 1. rewrite fold_saturating; [done|done|].
    apply Forall_fmap, Forall_forall. intros hop _. simpl. apply Z.pow_nonneg. lia.
  - rewrite map_map. apply map_ext_in. intros hop Hhop%in_seq. unfold usize_saturating_pow.
    by rewrite Z.mod_small by lia.
Qed.

Lemma geometric_mono n b c : 0 <= b <= c -> geometric n b <= geometric n c.
Proof.
  intros H. induction n as [|n IH]; simpl; [done|].
  pose proof (Z.pow_le_mono_l b c (Z.of_nat n) H). lia.
Qed.

(** A configuration that [load] accepts never lets path finding
    enumerate more than [MAX_PATH_CANDIDATES] candidate paths, whatever the
    request: the arithmetic of the check saturates but never wraps, and its bound
    covers the solver's actual enumeration over the native token and the
    configured base tokens. *)
Theorem load_bounds_candidates deployment_address file config sell buy :
  load deployment_address file = Ret config ->
  Z.of_nat (length (path_candidates_with_hops
    (BaseTokens_new (cf_weth config) (cf_base_tokens config)) sell buy (cf_max_hops config)))
  <= MAX_PATH_CANDIDATES.
Proof.
  intros H. unfold load in H. destruct (validate_routing _ _) as [[]|] eqn:Hv; [|done].
  apply comp_bind_Ret in H as (weth & _ & [= <-]). cbn [cf_weth cf_base_tokens cf_max_hops].
  unfold validate_routing in Hv. rust_inv. zify_bool.
  unfold MAX_BASE_TOKENS, MAX_HOPS, MAX_PATH_CANDIDATES in *.
  rewrite path_candidate_bound_geometric in * by (unfold usize_MAX; lia).
  unfold path_candidates_with_hops. etrans; [apply path_candidates_length|].
  pose proof (BaseTokens_new_length weth (fc_base_tokens file)).
  etrans; [apply (geometric_mono _ _ (Z.of_nat (length (fc_base_tokens file)) + 1)); lia|].
  unfold usize_MAX in *. lia.
Qed.

(** ** Examples *)

(** The configurations the repository's tests accept and reject. *)
Example validate_routing_examples :
  validate_routing 0 0 = Ok () /\ validate_routing 8 2 = Ok () /\
  validate_routing 30 2 = Ok () /\ validate_routing 128 1 = Ok () /\
  validate_routing 129 0 = Err (TooManyBaseTokens 129) /\
  validate_routing 8 5 = Err (TooManyHops 5) /\
  validate_routing 64 2 = Err (TooManyCandidates 64 2 4291) /\
  path_candidate_bound 2 2 = 13.
Proof. by vm_compute. Qed.

Definition example_file : FileConfig :=
  mkFileConfig None (Some 3) [4; 5] 2 5 0 (10 ^ 17) None (Some 84532) None.

Lemma load_bounds_candidates_witness :
  exists config, load (fun _ => None) example_file = Ret config /\
    Z.of_nat (length (path_candidates_with_hops
      (BaseTokens_new (cf_weth config) (cf_base_tokens config)) 1 2 (cf_max_hops config))) <= 4096.
Proof.
  eexists. split; [reflexivity|].
  apply (load_bounds_candidates (fun _ => None) example_file _ 1 2). reflexivity.
Defined.
