(* ===== verification/Solution.v ===== *)
(** * Solution: auctions and single-order solutions

    [crates/solvers/src/domain/auction.rs] and
    [crates/solvers/src/domain/solution.rs]: the auction, the trades, prices and
    interactions of a solution, how a swap becomes a solution of one order, and
    which interactions the settlement contract's buffers can replace. *)

From stdpp Require Import base gmap sets list strings.
From Stdlib Require Import ZArith Lia Permutation.
From S2P Require Import Prelude Collections Eth Liquidity.

Open Scope Z_scope.

(** ** [domain::auction] *)
Record Token := mkToken {
  token_decimals : option Z;
  token_symbol : option string;
  token_reference_price : option Z;
  token_available_balance : Z;
  token_trusted : bool;
}.

Definition Tokens := gmap address Token.

Definition reference_price (tokens : Tokens) (token : address) : option Z :=
  let? t := tokens !! token in token_reference_price t.

Inductive AuctionId := SolveId (id : Z) | QuoteId.

(** A deadline is a point in time, in milliseconds. *)
Record Auction := mkAuction {
  auction_id : AuctionId;
  auction_tokens : Tokens;
  auction_orders : list Order;
  auction_liquidity : list Liquidity;
  auction_gas_price : Z;
  auction_deadline : Z;
}.

Definition Deadline_remaining (now deadline : Z) : option Z :=
  if deadline - now <? 0 then None else Some (deadline - now).
Definition Deadline_reduce (deadline duration : Z) : Z := deadline - duration.

(** ** Trades *)
Inductive Fee := FeeProtocol | FeeSurplus (fee : Z).

Definition Fee_surplus (f : Fee) : option Z :=
  match f with FeeProtocol => None | FeeSurplus fee => Some fee end.

Definition is_surplus (f : Fee) : bool :=
  match f with FeeSurplus _ => true | FeeProtocol => false end.

Record Fulfillment := mkFulfillment {
  ff_order : Order;
  ff_executed : Z;
  ff_fee : Fee;
}.

Definition Fulfillment_new (order : Order) (executed : Z) (fee : Fee) : option Fulfillment :=
  if negb (Bool.eqb (is_surplus fee) (solver_determines_fee order)) then None
  else
    let? (fill, full) :=
      match order_side order with
      | Buy => Some (asset_amount (order_buy order), executed)
      | Sell => let? full := checked_add executed (default 0 (Fee_surplus fee)) in
                Some (asset_amount (order_sell order), full)
      end in
    if (negb (order_partially_fillable order) && negb (full =? fill))
       || (order_partially_fillable order && (fill <? full))
    then None
    else Some (mkFulfillment order executed fee).

Definition Fulfillment_fill (order : Order) : option Fulfillment :=
  let executed := match order_side order with
                  | Buy => asset_amount (order_buy order)
                  | Sell => asset_amount (order_sell order)
                  end in
  Fulfillment_new order executed FeeProtocol.

Definition Fulfillment_executed (f : Fulfillment) : Asset :=
  mkAsset (match order_side (ff_order f) with
           | Buy => asset_token (order_buy (ff_order f))
           | Sell => asset_token (order_sell (ff_order f))
           end) (ff_executed f).

Definition Fulfillment_surplus_fee (f : Fulfillment) : option Asset :=
  let? fee := Fee_surplus (ff_fee f) in
  Some (mkAsset (asset_token (order_sell (ff_order f))) fee).

(** [order::Signature]; the words [r] and [s] of an ECDSA signature are their 32
    bytes. *)
Record EcdsaSignature := mkEcdsaSignature { ecdsa_r : list Z; ecdsa_s : list Z; ecdsa_v : Z }.

Definition EcdsaSignature_to_bytes (sig : EcdsaSignature) : list Z :=
  ecdsa_r sig ++ ecdsa_s sig ++ [ecdsa_v sig].

Inductive Signature :=
| Eip712 (sig : EcdsaSignature)
| EthSign (sig : EcdsaSignature)
| Eip1271 (bytes : list Z)
| PreSign.

Record JitOrder := mkJitOrder {
  jit_owner : address;
  jit_signature : Signature;
  jit_sell : Asset;
  jit_buy : Asset;
  jit_side : Side;
  jit_class : Class_;
  jit_partially_fillable : bool;
  jit_valid_to : Z;
  jit_app_data : Z;
  jit_receiver : address;
}.

Record JitTrade := mkJitTrade { jt_order : JitOrder; jt_executed : Z; jt_fee : Z }.

Inductive Trade :=
| FulfillmentT (f : Fulfillment)
| JitT (t : JitTrade).

(** ** Interactions *)
Record LiquidityInteraction := mkLiquidityInteraction {
  lint_liquidity : Liquidity;
  lint_input : Asset;
  lint_output : Asset;
  lint_internalize : bool;
}.

Record Allowance := mkAllowance { al_spender : address; al_asset : Asset }.

Record CustomInteraction := mkCustomInteraction {
  cint_target : address;
  cint_value : Z;
  cint_calldata : list Z;
  cint_internalize : bool;
  cint_inputs : list Asset;
  cint_outputs : list Asset;
  cint_allowances : list Allowance;
}.

Inductive Interaction :=
| LiquidityI (i : LiquidityInteraction)
| CustomI (i : CustomInteraction).

(** [eth::Interaction]. *)
Record EthInteraction := mkEthInteraction {
  ei_target : address;
  ei_value : Z;
  ei_calldata : list Z;
}.

(** [solution::WrapperCall]. *)
Record SolutionWrapperCall := mkSolutionWrapperCall { sw_target : address; sw_data : list Z }.

(** [solution::Solution]. *)
Record Solution := mkSolution {
  s_id : Z;
  s_prices : gmap address Z;
  s_trades : list Trade;
  s_pre_interactions : list EthInteraction;
  s_interactions : list Interaction;
  s_post_interactions : list EthInteraction;
  s_gas : option Z;
  s_wrappers : list SolutionWrapperCall;
}.

Definition with_id (id : Z) (s : Solution) : Solution :=
  mkSolution id (s_prices s) (s_trades s) (s_pre_interactions s) (s_interactions s)
    (s_post_interactions s) (s_gas s) (s_wrappers s).

Definition with_gas (gas : Z) (s : Solution) : Solution :=
  mkSolution (s_id s) (s_prices s) (s_trades s) (s_pre_interactions s) (s_interactions s)
    (s_post_interactions s) (Some gas) (s_wrappers s).

Definition with_interactions (is_ : list Interaction) (s : Solution) : Solution :=
  mkSolution (s_id s) (s_prices s) (s_trades s) (s_pre_interactions s) is_
    (s_post_interactions s) (s_gas s) (s_wrappers s).

(** [ClearingPrices::new]: collecting into a [HashMap] keeps the last entry of a
    key. *)
Definition ClearingPrices_new (prices : list (address * Z)) : gmap address Z :=
  fold_left (fun m e => <[e.1 := e.2]> m) prices ∅.

(** ** Internalization *)
Definition interaction_inputs (i : Interaction) : list Asset :=
  match i with LiquidityI i => [lint_input i] | CustomI i => cint_inputs i end.
Definition interaction_outputs (i : Interaction) : list Asset :=
  match i with LiquidityI i => [lint_output i] | CustomI i => cint_outputs i end.
Definition set_internalize (i : Interaction) : Interaction :=
  match i with
  | LiquidityI i => LiquidityI (mkLiquidityInteraction (lint_liquidity i) (lint_input i)
                                  (lint_output i) true)
  | CustomI i => CustomI (mkCustomInteraction (cint_target i) (cint_value i) (cint_calldata i) true
                            (cint_inputs i) (cint_outputs i) (cint_allowances i))
  end.

Definition is_trusted (tokens : Tokens) (a : Asset) : bool :=
  match tokens !! asset_token a with Some t => token_trusted t | None => false end.

(** The [try_fold] over the outputs of an interaction. *)
Fixpoint required_buffers (tokens : Tokens) (used map : gmap address Z) (outputs : list Asset)
  : option (gmap address Z) :=
  match outputs with
  | [] => Some map
  | output :: outputs =>
      let? amount := checked_add (asset_amount output) (default 0 (map !! asset_token output)) in
      let? total := checked_add amount (default 0 (used !! asset_token output)) in
      let? token := tokens !! asset_token output in
      if token_available_balance token <? total then None
      else required_buffers tokens used (<[asset_token output := amount]> map) outputs
  end.

(** The loop that books the required buffers. *)
Fixpoint book_buffers (required : list (address * Z)) (used : gmap address Z) : comp (gmap address Z) :=
  match required with
  | [] => Ret used
  | (token, amount) :: required =>
      let! total := expect (checked_add (default 0 (used !! token)) amount) in
      book_buffers required (<[token := total]> used)
  end.

(** The body of the loop over the interactions: the buffers the interaction needs,
    if it can be internalized. *)
Definition internalizable (tokens : Tokens) (used : gmap address Z) (i : Interaction)
  : option (gmap address Z) :=
  let inputs := interaction_inputs i in
  let outputs := interaction_outputs i in
  let trusted_inputs := forallb (is_trusted tokens) inputs in
  if bool_decide (inputs = []) || bool_decide (outputs = []) || negb trusted_inputs then None
  else required_buffers tokens used ∅ outputs.

Fixpoint internalize_loop (tokens : Tokens) (used : gmap address Z) (interactions : list Interaction)
  : comp (list Interaction) :=
  match interactions with
  | [] => Ret []
  | i :: interactions =>
      match internalizable tokens used i with
      | None => let! rest := internalize_loop tokens used interactions in Ret (i :: rest)
      | Some required =>
          let! used := book_buffers (map_to_list required) used in
          let! rest := internalize_loop tokens used interactions in
          Ret (set_internalize i :: rest)
      end
  end.

Definition with_buffers_internalizations (tokens : Tokens) (s : Solution) : comp Solution :=
  let! interactions := internalize_loop tokens ∅ (s_interactions s) in
  Ret (with_interactions interactions s).

(** ** [Single::into_solution] *)
Record Single := mkSingle {
  sg_order : Order;
  sg_input : Asset;
  sg_output : Asset;
  sg_interactions : list Interaction;
  sg_gas : Z;
  sg_wrappers : list WrapperCall;
}.

(** The executed sell and buy amounts, the solver's fee included. *)
Definition executed_amounts (order : Order) (input output : Asset) (surplus_fee : Z) : option (Z * Z) :=
  match order_side order with
  | Buy => let? sell := checked_add (asset_amount input) surplus_fee in
           Some (sell, asset_amount output)
  | Sell =>
      let? sell := checked_add (asset_amount input) surplus_fee in
      let sell := Z.min sell (asset_amount (order_sell order)) in
      let? net := checked_sub sell surplus_fee in
      let? scaled := checked_mul net (asset_amount output) in
      let? buy := checked_div scaled (asset_amount input) in
      Some (sell, buy)
  end.

Definition into_solution (single : Single) (fee : Z) : option Solution :=
  let order := sg_order single in
  if negb (bool_decide ((asset_token (order_sell order), asset_token (order_buy order))
                        = (asset_token (sg_input single), asset_token (sg_output single))))
  then None
  else
    let fee := if solver_determines_fee order then FeeSurplus fee else FeeProtocol in
    let surplus_fee := default 0 (Fee_surplus fee) in
    let? (sell, buy) := executed_amounts order (sg_input single) (sg_output single) surplus_fee in
    let? lhs := checked_mul (asset_amount (order_sell order)) buy in
    let? rhs := checked_mul (asset_amount (order_buy order)) sell in
    if lhs <? rhs then None
    else
      let? executed := match order_side order with
                       | Buy => Some buy
                       | Sell => checked_sub sell surplus_fee
                       end in
      let? net := checked_sub sell surplus_fee in
      let? trade := Fulfillment_new order executed fee in
      Some (mkSolution 0
        (ClearingPrices_new [(asset_token (order_sell order), buy); (asset_token (order_buy order), net)])
        [FulfillmentT trade] [] (sg_interactions single) [] (Some (sg_gas single))
        (map (fun w => mkSolutionWrapperCall (wrapper_address w) (wrapper_data w))
           (sg_wrappers single))).

(** ** Buffers are never overdrawn *)

(** The amount of a token in a list of assets. *)
Definition token_sum (t : address) (l : list Asset) : Z :=
  foldr (fun a acc => (if asset_token a =? t then asset_amount a else 0) + acc) 0 l.

Lemma token_sum_app t l k : token_sum t (l ++ k) = token_sum t l + token_sum t k.
Proof. induction l as [|a l IH]; simpl; [done|]. rewrite IH. lia. Qed.

Lemma token_sum_absent t l : t ∉ map asset_token l -> token_sum t l = 0.
Proof.
  induction l as [|a l IH]; simpl; [done|]. intros [Hne Hl]%not_elem_of_cons.
  rewrite IH by done. rewrite (proj2 (Z.eqb_neq _ _)) by congruence. done.
Qed.

(** What an entry of the required buffers guarantees. *)
Definition covered (tokens : Tokens) (used : gmap address Z) (t : address) (a : Z) : Prop :=
  exists tk, tokens !! t = Some tk /\ default 0 (used !! t) + a <= token_available_balance tk /\
    default 0 (used !! t) + a <= U256_MAX.

Lemma required_buffers_spec tokens used m outputs m' :
  required_buffers tokens used m outputs = Some m' ->
  (forall t, default 0 (m' !! t) = default 0 (m !! t) + token_sum t outputs) /\
  (forall t a, m' !! t = Some a -> m !! t = Some a \/ covered tokens used t a) /\
  (forall t, is_Some (m !! t) \/ t ∈ map asset_token outputs -> is_Some (m' !! t)).
Proof.
  revert m. induction outputs as [|o outputs IH]; intros m H; simpl in *.
  { injection H as <-. split_and!; [intros t; lia|by left|]. intros t [?|Ht]; [done|set_solver]. }
  destruct (checked_add _ _) as [amount|] eqn:Ea; [|done].
  destruct (checked_add amount _) as [total|] eqn:Et; [|done].
  destruct (tokens !! _) as [tk|] eqn:Etk; [|done].
  destruct (Z.ltb_spec (token_available_balance tk) total) as [|Hle]; [done|].
  apply checked_add_Some in Ea as [-> ?], Et as [-> ?].
  apply IH in H as (Hsum & Hcov & Hdom). split_and!.
  - intros t. rewrite Hsum. destruct (Z.eqb_spec (asset_token o) t) as [->|Hne].
    + rewrite lookup_insert_eq. simpl. lia.
    + rewrite lookup_insert_ne by done. lia.
  - intros t a Ha. destruct (Hcov t a Ha) as [Hi|]; [|by right].
    apply lookup_insert_Some in Hi as [[<- <-]|[_ ?]]; [|by left].
    right. exists tk. split; [done|]. lia.
  - intros t Ht. apply Hdom. rewrite elem_of_cons in Ht.
    destruct (decide (asset_token o = t)) as [<-|Hne]; [left; rewrite lookup_insert_eq; eauto|].
    rewrite lookup_insert_ne by done. naive_solver.
Qed.

Lemma book_buffers_spec l used :
  NoDup l.*1 -> Forall (fun e => default 0 (used !! e.1) + e.2 <= U256_MAX) l ->
  exists used', book_buffers l used = Ret used' /\
    (forall t a, (t, a) ∈ l -> used' !! t = Some (default 0 (used !! t) + a)) /\
    (forall t, t ∉ l.*1 -> used' !! t = used !! t).
Proof.
  revert used. induction l as [|[t a] l IH]; intros used Hnd Hl; simpl.
  { eexists. split; [done|]. split; [set_solver|done]. }
  apply NoDup_cons in Hnd as [Ht Hnd]. apply Forall_cons in Hl as [Ha Hl]. cbn [fst snd] in *.
  unfold checked_add. rewrite (proj2 (Z.leb_le _ _)) by done. cbn [expect comp_bind].
  destruct (IH (<[t := default 0 (used !! t) + a]> used)) as (used' & -> & Hin & Hout); [done| |].
  { apply Forall_forall. intros [t' a'] He. simpl. rewrite lookup_insert_ne.
    - rewrite Forall_forall in Hl. by apply (Hl (t', a')).
    - intros <-. apply Ht. apply list_elem_of_fmap. by exists (t, a'). }
  exists used'. split; [done|]. split.
  - intros t' a' [[= -> ->]|He]%elem_of_cons.
    + by rewrite Hout, lookup_insert_eq.
    + rewrite (Hin _ _ He), lookup_insert_ne; [done|].
      intros <-. apply Ht, list_elem_of_fmap. by exists (t, a').
  - intros t' [Hne Hn]%not_elem_of_cons. rewrite Hout, lookup_insert_ne by done. done.
Qed.

(** Everything booked so far is covered by the buffers. *)
Definition booked (tokens : Tokens) (used : gmap address Z) : Prop :=
  forall t a, used !! t = Some a ->
    exists tk, tokens !! t = Some tk /\ a <= token_available_balance tk.

Lemma internalizable_spec tokens used i required :
  booked tokens used -> internalizable tokens used i = Some required ->
  (interaction_inputs i <> [] /\ interaction_outputs i <> [] /\
   Forall (fun a => is_trusted tokens a = true) (interaction_inputs i)) /\
  exists used', book_buffers (map_to_list required) used = Ret used' /\ booked tokens used' /\
    (forall t, default 0 (used' !! t) = default 0 (used !! t) + token_sum t (interaction_outputs i)) /\
    (forall t, t ∈ map asset_token (interaction_outputs i) -> is_Some (used' !! t)).
Proof.
  intros Hb H. unfold internalizable in H.
  destruct (bool_decide_reflect (interaction_inputs i = [])); [done|].
  destruct (bool_decide_reflect (interaction_outputs i = [])); [done|]. simpl in H.
  destruct (forallb _ _) eqn:Htr; [|done]. simpl in H.
  split. { split; [done|]. split; [done|]. apply Forall_forall. intros a Ha.
    rewrite forallb_forall in Htr. apply Htr. by apply list_elem_of_In. }
  apply required_buffers_spec in H as (Hsum & Hcov & Hdom).
  assert (forall t a, required !! t = Some a -> covered tokens used t a) as Hcov'.
  { intros t a Ha. destruct (Hcov t a Ha) as [E|]; [by rewrite lookup_empty in E|done]. }
  destruct (book_buffers_spec (map_to_list required) used) as (used' & Hu & Hin & Hout).
  { apply NoDup_fst_map_to_list. }
  { apply Forall_forall. intros [t a] (tk & _ & _ & ?)%elem_of_map_to_list%Hcov'. done. }
  assert (forall t, used' !! t = match required !! t with
    | Some a => Some (default 0 (used !! t) + a) | None => used !! t end) as Hused.
  { intros t. destruct (required !! t) as [a|] eqn:E; [by apply Hin, elem_of_map_to_list|].
    apply Hout. intros ([t' a] & -> & He)%list_elem_of_fmap. apply elem_of_map_to_list in He.
    cbn [fst] in E. congruence. }
  exists used'. split; [done|]. split_and!.
  - intros t a. rewrite Hused. destruct (required !! t) as [b|] eqn:E; [|apply Hb].
    intros [= <-]. destruct (Hcov' t b E) as (tk & ? & ? & _). eauto.
  - intros t. rewrite Hused. specialize (Hsum t). rewrite lookup_empty in Hsum. simpl in Hsum.
    destruct (required !! t) as [b|]; simpl in *; lia.
  - intros t Ht. rewrite Hused. destruct (Hdom t) as [a ->]; [by right|]. eauto.
Qed.

(** The outputs of the interactions that a marking internalizes. *)
Definition marked_outputs (marks : list bool) (interactions : list Interaction) : list Asset :=
  mjoin (zip_with (fun b i => if b : bool then interaction_outputs i else []) marks interactions).

Definition apply_marks (marks : list bool) (interactions : list Interaction) : list Interaction :=
  zip_with (fun b i => if b : bool then set_internalize i else i) marks interactions.

(** A marked interaction may be replaced by the contract's buffers. *)
Definition replaceable (tokens : Tokens) (b : bool) (i : Interaction) : Prop :=
  b = true -> interaction_inputs i <> [] /\ interaction_outputs i <> [] /\
    Forall (fun a => is_trusted tokens a = true) (interaction_inputs i).

Lemma internalize_loop_spec tokens used interactions :
  booked tokens used ->
  exists marks, internalize_loop tokens used interactions = Ret (apply_marks marks interactions) /\
    Forall2 (replaceable tokens) marks interactions /\
    forall t, t ∈ map asset_token (marked_outputs marks interactions) ->
      exists tk, tokens !! t = Some tk /\
        default 0 (used !! t) + token_sum t (marked_outputs marks interactions)
          <= token_available_balance tk.
Proof.
  revert used. induction interactions as [|i is_ IH]; intros used Hb; simpl.
  { exists []. split; [done|]. split; [constructor|]. set_solver. }
  destruct (internalizable tokens used i) as [required|] eqn:E.
  - apply internalizable_spec in E as (Hrep & used' & -> & Hb' & Hsum & Hdom); [|done].
    destruct (IH used' Hb') as (marks & Hrun & HF & Hcov). simpl. rewrite Hrun. exists (true :: marks).
    split; [done|]. split; [constructor; [by intros _|done]|]. 
    change (marked_outputs (true :: marks) (i :: is_)) with (interaction_outputs i ++ marked_outputs marks is_).
    intros t Ht. rewrite token_sum_app. specialize (Hsum t).
    destruct (decide (t ∈ map asset_token (marked_outputs marks is_))) as [Hin|Hnin].
    + destruct (Hcov t Hin) as (tk & ? & ?). exists tk. split; [done|]. lia.
    + rewrite (token_sum_absent t (marked_outputs marks is_)) by done.
      rewrite map_app, elem_of_app in Ht. destruct Ht as [Ht|]; [|done].
      destruct (Hdom t Ht) as [a Ha]. destruct (Hb' t a Ha) as (tk & ? & ?).
      exists tk. split; [done|]. rewrite Ha in Hsum. simpl in Hsum. lia.
  - destruct (IH used Hb) as (marks & -> & HF & Hcov). exists (false :: marks).
    split; [done|]. split; [constructor; [done|done]|]. exact Hcov.
Qed.

(** Internalizing never panics and only sets flags.  The interactions
    it marks trade trusted inputs only, and for every token their outputs, summed
    over all marked interactions, fit in the balance the settlement contract
    holds: two interactions cannot spend the same buffer. *)
Theorem internalizations_within_buffers tokens s :
  exists marks,
    with_buffers_internalizations tokens s
      = Ret (with_interactions (apply_marks marks (s_interactions s)) s) /\
    Forall2 (replaceable tokens) marks (s_interactions s) /\
    forall t, t ∈ map asset_token (marked_outputs marks (s_interactions s)) ->
      exists tk, tokens !! t = Some tk /\
        token_sum t (marked_outputs marks (s_interactions s)) <= token_available_balance tk.
Proof.
  destruct (internalize_loop_spec tokens ∅ (s_interactions s)) as (marks & Hrun & HF & Hcov).
  { intros t a Ha. by rewrite lookup_empty in Ha. }
  exists marks. unfold with_buffers_internalizations. rewrite Hrun. split; [done|]. split; [done|].
  intros t Ht. destruct (Hcov t Ht) as (tk & ? & Hle). rewrite lookup_empty in Hle. simpl in Hle. eauto.
Qed.

(** ** Single-order solutions *)

(** A fulfillment fills a fill-or-kill order exactly and a partially fillable one
    at most completely. *)
Definition fills (order : Order) (filled full : Z) : Prop :=
  if order_partially_fillable order then filled <= full else filled = full.

Lemma Fulfillment_new_Some order executed fee f :
  Fulfillment_new order executed fee = Some f ->
  f = mkFulfillment order executed fee /\ is_surplus fee = solver_determines_fee order /\
  match order_side order with
  | Buy => fills order executed (asset_amount (order_buy order))
  | Sell => fills order (executed + default 0 (Fee_surplus fee)) (asset_amount (order_sell order))
  end.
Proof.
  unfold Fulfillment_new, fills. destruct (Bool.eqb_spec (is_surplus fee) (solver_determines_fee order)); [|done].
  cbn [negb]. intros H. destruct (order_side order); rust_inv.
  - destruct (order_partially_fillable order); simpl in *; simplify_eq; rust_inv; zify_bool; done.
  - destruct (order_partially_fillable order); simpl in *; simplify_eq; rust_inv; zify_bool; done.
Qed.

Lemma executed_amounts_Some order input output fee sell buy :
  u256 (asset_amount input) -> u256 (asset_amount output) -> 0 <= fee ->
  executed_amounts order input output fee = Some (sell, buy) ->
  fee <= sell <= asset_amount input + fee /\ 0 <= buy <= asset_amount output /\
  (order_side order = Sell -> sell <= asset_amount (order_sell order)).
Proof.
  unfold u256. intros Hi Ho Hf H. unfold executed_amounts in H. destruct (order_side order).
  - rust_inv. split_and!; [lia..|done].
  - rust_inv. split_and!; try lia.
    + apply Z.div_pos; [apply Z.mul_nonneg_nonneg; lia|lia].
    + apply Z.div_le_upper_bound; [lia|]. apply Z.mul_le_mono_nonneg_r; lia.
Qed.

(** [settles order x y fee s]: the solution executes one trade of [order] that takes
    [taken] and gives [given] through a swap of [x] for [y]. *)
Definition settles (order : Order) (x y fee : Z) (s : Solution) : Prop :=
  exists taken given f,
    s_trades s = [FulfillmentT (mkFulfillment order
      (match order_side order with Buy => given | Sell => taken - default 0 (Fee_surplus f) end) f)] /\
    f = (if solver_determines_fee order then FeeSurplus fee else FeeProtocol) /\
    taken <= x + default 0 (Fee_surplus f) /\
    given <= y /\
    asset_amount (order_buy order) * taken <= asset_amount (order_sell order) * given /\
    taken <= asset_amount (order_sell order) /\
    (match order_side order with
     | Buy => fills order given (asset_amount (order_buy order))
     | Sell => fills order taken (asset_amount (order_sell order))
     end) /\
    s_prices s !! asset_token (order_buy order) = Some (taken - default 0 (Fee_surplus f)) /\
    (asset_token (order_sell order) <> asset_token (order_buy order) ->
     s_prices s !! asset_token (order_sell order) = Some given).

Lemma into_solution_settles single fee s :
  u256 (asset_amount (sg_input single)) -> u256 (asset_amount (sg_output single)) ->
  u256 (asset_amount (order_sell (sg_order single))) ->
  0 < asset_amount (order_buy (sg_order single)) -> 0 <= fee ->
  into_solution single fee = Some s ->
  settles (sg_order single) (asset_amount (sg_input single)) (asset_amount (sg_output single)) fee s.
Proof.
  intros Hi Ho Hs Hb Hf H. unfold settles, into_solution in *.
  destruct (negb _); [done|].
  set (f := if solver_determines_fee (sg_order single) then _ else _) in *.
  assert (0 <= default 0 (Fee_surplus f)) as Hf0 by (unfold f; destruct (solver_determines_fee _); done).
  destruct (executed_amounts _ _ _ _) as [[sell buy]|] eqn:Ea; [|done].
  apply executed_amounts_Some in Ea as (Hsell & Hbuy & Hcap); [|done..].
  destruct (checked_mul _ buy) as [lhs|] eqn:El; [|done].
  destruct (checked_mul _ sell) as [rhs|] eqn:Er; [|done].
  apply checked_mul_Some in El as [-> ?], Er as [-> ?].
  destruct (Z.ltb_spec (asset_amount (order_sell (sg_order single)) * buy)
    (asset_amount (order_buy (sg_order single)) * sell)) as [|Hlim]; [done|].
  destruct (match order_side (sg_order single) with Buy => _ | Sell => _ end) as [executed|] eqn:Ex; [|done].
  destruct (checked_sub sell _) as [net|] eqn:En; [|done].
  destruct (Fulfillment_new _ _ _) as [trade|] eqn:Et; [|done]. injection H as <-.
  apply checked_sub_Some in En as [-> ?]. apply Fulfillment_new_Some in Et as (-> & _ & Hfill).
  exists sell, buy, f. cbn [s_trades s_prices].
  assert (sell <= asset_amount (order_sell (sg_order single))) as Hle.
  { destruct (order_side (sg_order single)) eqn:Hside; [|by apply Hcap]. injection Ex as <-.
    assert (buy <= asset_amount (order_buy (sg_order single))).
    { unfold fills in Hfill. destruct (order_partially_fillable _); lia. }
    apply (Z.mul_le_mono_pos_l _ _ (asset_amount (order_buy (sg_order single)))); [done|].
    etrans; [exact Hlim|]. rewrite (Z.mul_comm (asset_amount (order_buy _))).
    apply Z.mul_le_mono_nonneg_l; [apply Hs|done]. }
  destruct (order_side (sg_order single)); injection Ex as <-;
    (split; [done|]); (split; [done|]); (split; [lia|]); (split; [lia|]); (split; [done|]);
    (split; [done|]); (split; [|split]).
  1, 4: first [exact Hfill | by rewrite Z.sub_add in Hfill].
  all: unfold ClearingPrices_new; cbn [fold_left fst snd].
  1, 3: by rewrite lookup_insert_eq.
  all: intros Hne; rewrite lookup_insert_ne, lookup_insert_eq by congruence; done.
Qed.


(** A solution carries the swap's interactions and gas. *)
Lemma into_solution_fields single fee s :
  into_solution single fee = Some s ->
  s_interactions s = sg_interactions single /\ s_gas s = Some (sg_gas single).
Proof.
  unfold into_solution. destruct (negb _); [done|].
  set (f := if solver_determines_fee (sg_order single) then _ else _).
  destruct (executed_amounts _ _ _ _) as [[sell buy]|]; [|done]. intros H.
  repeat case_match; by simplify_eq.
Qed.

(** A solution for one order never settles against its owner.  The
    amount taken includes the solver's fee and is at most what the swap needs plus
    the fee; the amount given is at most what the swap yields; the signed limit
    price holds on the amounts with the fee included; a fill-or-kill order is
    filled exactly and no order is charged beyond its signed sell amount; only an
    order that lets the solver determine its fee pays one; and the clearing prices
    are the exact exchange rate of the net amounts. *)
Theorem single_solution_fair single fee s :
  u256 (asset_amount (sg_input single)) -> u256 (asset_amount (sg_output single)) ->
  u256 (asset_amount (order_sell (sg_order single))) ->
  0 < asset_amount (order_buy (sg_order single)) -> 0 <= fee ->
  into_solution single fee = Some s ->
  settles (sg_order single) (asset_amount (sg_input single)) (asset_amount (sg_output single)) fee s /\
  s_interactions s = sg_interactions single /\ s_gas s = Some (sg_gas single).
Proof.
  intros Hi Ho Hs Hb Hf H. split; [by apply into_solution_settles|].
  by destruct (into_solution_fields _ _ _ H).
Qed.

(** ** Examples *)
Definition example_order (side : Side) (partial : bool) : Order :=
  mkOrder 1 (mkAsset 1 1000) (mkAsset 2 900) side Limit partial None [].
Definition example_single : Single :=
  mkSingle (example_order Sell false) (mkAsset 1 1000) (mkAsset 2 1000) [] 50000 [].

Example into_solution_examples :
  (let? s := into_solution example_single 50 in Some (s_trades s, s_prices s))
    = Some ([FulfillmentT (mkFulfillment (example_order Sell false) 950 (FeeSurplus 50))],
            {[ 1 := 950; 2 := 950 ]}) /\
  into_solution example_single 101 = None.
Proof. by vm_compute. Qed.

Lemma single_solution_fair_witness :
  exists s taken given, into_solution example_single 50 = Some s /\
    900 * taken <= 1000 * given /\ taken <= 1000.
Proof.
  destruct (into_solution example_single 50) as [s|] eqn:E; [|vm_compute in E; discriminate E].
  destruct (single_solution_fair example_single 50 s) as ((taken & given & f & _ & _ & _ & _ & Hl & Ht & _) & _);
    [unfold u256; simpl; lia..|exact E|].
  exists s, taken, given. split; [reflexivity|]. split; [exact Hl|exact Ht].
Defined.
