(* ===== verification/Engine.v ===== *)
(** * Engine: solving auctions

    [crates/solvers/src/domain/solver.rs]: the batch solver that prices each order's
    sell token, tries ever smaller requests for a partially fillable order, turns
    the first routable one into a solution and sends it to the caller.

    The solver runs as a background task: what it sent before it finished, was
    aborted or panicked is what the caller returns, so a run is the list of sent
    solutions and whether it ran to completion.  The conversions between [U256] and [f64]
    belong to their crate and are parameters. *)

From stdpp Require Import base gmap sets list strings sorting.
From Stdlib Require Import ZArith Lia Permutation SpecFloat.
From S2P Require Import Prelude Collections F64 Eth Solvable ConstantProduct.
From S2P Require Import BaselineSolver Liquidity Baseline Mandate MandateApi Config Solution.

Open Scope Z_scope.

Record Inner := mkInner {
  in_weth : address;
  in_base_tokens : list address;
  in_max_hops : nat;
  in_max_partial_attempts : nat;
  in_solution_gas_offset : Z;
  in_native_token_price_estimation_amount : Z;
  in_uni_v3_quoter_v2 : option Quoter;
  in_mandate : MandateDeployment;
}.

(** [Solver::new]; [quoter] is the contract it managed to load, if a node is
    configured. *)
Definition Solver_new_inner (config : Config) (quoter : option Quoter) : Inner :=
  mkInner (cf_weth config) (cf_base_tokens config) (cf_max_hops config)
    (cf_max_partial_attempts config) (cf_solution_gas_offset config)
    (cf_native_token_price_estimation_amount config)
    (match cf_uni_v3_node_url config with Some _ => quoter | None => None end)
    (cf_mandate config).

(** [Solver::routing]. *)
Definition Inner_routing (self : Inner) : Routing :=
  mkRouting (in_weth self) (in_base_tokens self) (in_max_hops self) (in_uni_v3_quoter_v2 self).

(** [1 << i] drops the bits beyond the width. *)
Definition shl_one (i : nat) : Z := (2 ^ Z.of_nat i) mod 2 ^ 256.

Section engine.
Context (iter : hash_order).
Context (f64_from_u256 : Z -> f64) (u256_from_f64 : f64 -> Z).

Definition to_normalized_price (price : f64) : option Z :=
  let uint_max := f64_lit (2 ^ 256) in
  let price_in_eth := f64_mul (f64_lit (10 ^ 18)) price in
  if is_normal price_in_eth && SFleb (f64_lit 1) price_in_eth && SFltb price_in_eth uint_max
  then Some (u256_from_f64 price_in_eth) else None.

Context (self : Inner).

Definition native_price_request (order : Order) : Request :=
  mkRequest (mkAsset (asset_token (order_sell order)) (2 ^ 144))
    (mkAsset (in_weth self) (in_native_token_price_estimation_amount self)) Buy (order_wrappers order).

(** The price of the sell token; [None] skips the order. *)
Definition sell_token_price (boundary_solver : Baseline.Solver) (tokens : Tokens) (order : Order)
  : comp (option Z) :=
  match reference_price tokens (asset_token (order_sell order)) with
  | Some price => Ret (Some price)
  | None =>
      if asset_token (order_sell order) =? in_weth self then Ret (Some (10 ^ 18))
      else
        let! r := route iter boundary_solver (native_price_request order) (in_max_hops self) in
        match r with
        | Some r =>
            let! input := Route_input r in
            Ret (to_normalized_price
              (f64_div (f64_from_u256 (in_native_token_price_estimation_amount self))
                       (f64_from_u256 (asset_amount input))))
        | None => Ret (Some U256_MAX)
        end
  end.

(** The swap for a request; an order that trades a token for itself needs none. *)
Definition single_for_request (boundary_solver : Baseline.Solver) (order : Order) (request : Request)
  : comp (option Single) :=
  if asset_token (order_sell order) =? asset_token (order_buy order) then
    let '(input, output) := match order_side order with
                            | Sell => (order_sell order, order_buy order)
                            | Buy => (order_buy order, order_sell order)
                            end in
    Ret (Some (mkSingle order input (mkAsset (asset_token output) (asset_amount input)) []
      (Gas_add 0 (in_solution_gas_offset self)) (req_wrappers request)))
  else
    let!? r := route iter boundary_solver request (in_max_hops self) in
    let interactions := map (fun segment => LiquidityI (mkLiquidityInteraction
      (seg_liquidity segment) (seg_input segment) (seg_output segment) false)) r in
    let gas := Gas_add (Route_gas r) (in_solution_gas_offset self) in
    let! output := Route_output r in
    let output := match order_side order with
                  | Buy => mkAsset (asset_token output)
                             (Z.min (asset_amount output) (asset_amount (order_buy order)))
                  | Sell => output
                  end in
    let! input := Route_input r in
    Ret (Some (mkSingle order input output interactions gas (req_wrappers request))).

(** The closure [compute_solution]. *)
Definition compute_solution (boundary_solver : Baseline.Solver) (auction : Auction) (i : nat)
  (order : Order) (price : Z) (request : Request) : comp (option Solution) :=
  let!? single := single_for_request boundary_solver order request in
  let!? wei := Ret (checked_mul (sg_gas single) (auction_gas_price auction)) in
  let!? fee := Ret (ether_value price wei) in
  let!? solution := Ret (into_solution single fee) in
  let! solution := with_buffers_internalizations (auction_tokens auction)
                     (with_id (Z.of_nat i) solution) in
  Ret (Some solution).

(** The loop over [requests_for_order]: the iterator is lazy, so request [i] is
    only built when the earlier ones failed, and skipped when an amount is zero. *)
Fixpoint try_requests (attempts i : nat) (order : Order)
  (compute : Request -> comp (option Solution)) : comp (option Solution) :=
  match attempts with
  | O => Ret None
  | S attempts =>
      let! sell := div_u256 (asset_amount (order_sell order)) (shl_one i) in
      let! buy := div_u256 (asset_amount (order_buy order)) (shl_one i) in
      if (sell =? 0) || (buy =? 0) then try_requests attempts (S i) order compute
      else
        let! solution := compute (mkRequest (mkAsset (asset_token (order_sell order)) sell)
                                    (mkAsset (asset_token (order_buy order)) buy)
                                    (order_side order) (order_wrappers order)) in
        match solution with
        | Some solution => Ret (Some solution)
        | None => try_requests attempts (S i) order compute
        end
  end.

Definition attempts_for_order (order : Order) : nat :=
  if order_partially_fillable order then in_max_partial_attempts self else 1%nat.

(** The body of the loop over the orders. *)
Definition solve_order (boundary_solver : Baseline.Solver) (auction : Auction) (i : nat) (order : Order)
  : comp (option Solution) :=
  let!? price := sell_token_price boundary_solver (auction_tokens auction) order in
  try_requests (attempts_for_order order) 0 order
    (compute_solution boundary_solver auction i order price).

(** The solutions sent, and whether the loop ran to its end. *)
Fixpoint solve_orders (boundary_solver : Baseline.Solver) (auction : Auction) (i : nat)
  (orders : list Order) : list Solution * bool :=
  match orders with
  | [] => ([], true)
  | order :: orders =>
      match solve_order boundary_solver auction i order with
      | Panic => ([], false)
      | Ret None => solve_orders boundary_solver auction (S i) orders
      | Ret (Some solution) =>
          let '(sent, completed) := solve_orders boundary_solver auction (S i) orders in
          (solution :: sent, completed)
      end
  end.

Definition Inner_solve (auction : Auction) : list Solution * bool :=
  match Solver_new (in_weth self) (in_base_tokens self) (auction_liquidity auction)
          (in_uni_v3_quoter_v2 self) with
  | Panic => ([], false)
  | Ret boundary_solver => solve_orders boundary_solver auction 0 (auction_orders auction)
  end.

(** [Solver::solve]: the solutions received when the task ended, or the first
    [n] when it was aborted at the deadline after sending [n]. *)
Definition Solver_solve (aborted_after : option nat) (auction : Auction) : list Solution :=
  let sent := (Inner_solve auction).1 in
  match aborted_after with Some n => take n sent | None => sent end.
End engine.

(** ** Requests *)
Lemma shl_one_pos i : (i < 256)%nat -> shl_one i = 2 ^ Z.of_nat i /\ 0 < shl_one i.
Proof.
  intros Hi. unfold shl_one. assert (0 < 2 ^ Z.of_nat i) by (apply Z.pow_pos_nonneg; lia).
  rewrite Z.mod_small; [done|]. split; [lia|]. apply Z.pow_lt_mono_r; lia.
Qed.

Lemma shl_one_zero i : (256 <= i)%nat -> shl_one i = 0.
Proof.
  intros Hi. unfold shl_one. replace (Z.of_nat i) with ((Z.of_nat i - 256) + 256) by lia.
  rewrite Z.pow_add_r by lia. apply Z.mod_mul. lia.
Qed.

Section requests.
Context (order : Order) (compute : Request -> comp (option Solution)) (Q : Solution -> Prop).
Hypothesis Hsell : u256 (asset_amount (order_sell order)).
Hypothesis Hbuy : u256 (asset_amount (order_buy order)).

(** The requests that are tried are scaled-down orders with positive amounts. *)
Definition scaled (request : Request) : Prop :=
  req_side request = order_side order /\
  asset_token (req_sell request) = asset_token (order_sell order) /\
  asset_token (req_buy request) = asset_token (order_buy order) /\
  0 < asset_amount (req_sell request) <= asset_amount (order_sell order) /\
  0 < asset_amount (req_buy request) <= asset_amount (order_buy order).

Lemma scaled_request i sell buy :
  (i < 256)%nat -> sell = asset_amount (order_sell order) / shl_one i ->
  buy = asset_amount (order_buy order) / shl_one i -> sell <> 0 -> buy <> 0 ->
  scaled (mkRequest (mkAsset (asset_token (order_sell order)) sell)
    (mkAsset (asset_token (order_buy order)) buy) (order_side order) (order_wrappers order)).
Proof.
  intros Hi -> -> Hs0 Hb0. destruct (shl_one_pos i Hi) as [_ Hd]. unfold u256 in *.
  assert (forall x, 0 <= x -> x / shl_one i <> 0 -> 0 < x / shl_one i <= x) as Hdiv.
  { intros x Hx Hne. pose proof (Z.div_pos x (shl_one i) Hx Hd).
    assert (x / shl_one i <= x) by (apply Z.div_le_upper_bound; nia). lia. }
  unfold scaled. cbn [req_side req_sell req_buy asset_token asset_amount].
  split; [done|]. split; [done|]. split; [done|]. split; apply Hdiv; (apply Hs0 || apply Hb0 || lia).
Qed.

Hypothesis Hcompute : forall request, scaled request ->
  returns (compute request) (fun o => forall s, o = Some s -> Q s).

Lemma try_requests_returns attempts i :
  (i + attempts <= 256)%nat ->
  returns (try_requests attempts i order compute) (fun o => forall s, o = Some s -> Q s).
Proof.
  revert i. induction attempts as [|attempts IH]; intros i Hi; cbn [try_requests]; [done|].
  destruct (shl_one_pos i) as [_ Hd]; [lia|]. unfold div_u256.
  rewrite (proj2 (Z.eqb_neq (shl_one i) 0)) by lia. cbn [comp_bind].
  destruct (Z.eqb_spec (asset_amount (order_sell order) / shl_one i) 0) as [|Hs0]; [apply IH; lia|].
  destruct (Z.eqb_spec (asset_amount (order_buy order) / shl_one i) 0) as [|Hb0]; [apply IH; lia|].
  cbn [orb]. eapply returns_bind.
  { apply Hcompute. by apply (scaled_request i); [lia|done..]. }
  intros [s|] Ho; [|apply IH; lia]. intros s' [= <-]. by apply Ho.
Qed.
End requests.

(** ** Routing, for either side *)
Section engine_spec.
Context (iter : hash_order) (Hiter : forall l, iter l ≡ₚ l).
Context (self : Inner) (ls : list Liquidity) (b : Baseline.Solver).
Hypothesis Hb : solver_ok ls b.
Hypothesis Hbase : solver_base_tokens b = BaseTokens_new (in_weth self) (in_base_tokens self).

Lemma route_returns request :
  u256 (asset_amount (req_sell request)) -> u256 (asset_amount (req_buy request)) ->
  returns (route iter b request (in_max_hops self)) (fun o => forall r, o = Some r ->
    exists u v, route_ok ls request (in_max_hops self) r u v /\
      Forall (fun sg => 0 <= seg_gas sg) r /\
      0 <= u <= asset_amount (req_sell request) /\ asset_amount (req_buy request) <= v /\
      (req_side request = Sell -> u256 v)).
Proof.
  intros Hs Hbuy. destruct (req_side request) eqn:Hside.
  - pose proof (route_buy_spec ls b Hb request _ _ Hbase iter Hiter (in_max_hops self) Hside Hbuy) as H.
    destruct (route iter b request (in_max_hops self)) as [o|]; [|done]. cbn [returns] in *. intros r ->.
    destruct H as (path & e & v & Hp & Hf & Hv & Hlim & _). exists (est_value e), v.
    split; [by eapply follows_route_ok|]. split; [by eapply follows_gas|done].
  - pose proof (route_sell_spec ls b Hb request _ _ Hbase iter Hiter (in_max_hops self) Hside Hs) as H.
    destruct (route iter b request (in_max_hops self)) as [o|]; [|done]. cbn [returns] in *. intros r ->.
    destruct H as (path & e & Hp & He & Hf & Hfl & _). exists (asset_amount (req_sell request)), (est_value e).
    split; [by eapply follows_route_ok|]. split; [by eapply follows_gas|]. unfold u256 in Hs. split; [lia|]. split; [done|]. intros _.
    apply estimate_buy_run in He. eapply (run_u256 onchain_trades) in He; [exact He| |done].
    by eapply solver_ok_liquidity.
Qed.

(** The interactions of a solution are the segments of a route. *)
Definition swaps (order : Order) (x y : Z) (interactions : list Interaction) : Prop :=
  (asset_token (order_sell order) = asset_token (order_buy order) /\ interactions = [] /\ x = y) \/
  exists r out, connected (mkAsset (asset_token (order_sell order)) x) r
                  (mkAsset (asset_token (order_buy order)) out) /\ y <= out /\
    (1 <= length r <= in_max_hops self + 1)%nat /\
    Forall2 (fun sg i => seg_liquidity sg ∈ ls /\ exists internalize, i = LiquidityI
      (mkLiquidityInteraction (seg_liquidity sg) (seg_input sg) (seg_output sg) internalize)) r interactions.

Lemma single_for_request_returns order request :
  u256 (asset_amount (order_sell order)) -> u256 (asset_amount (order_buy order)) ->
  scaled order request ->
  returns (single_for_request iter self b order request) (fun o => forall sg, o = Some sg ->
    sg_order sg = order /\ u256 (asset_amount (sg_input sg)) /\ u256 (asset_amount (sg_output sg)) /\
    0 <= sg_gas sg /\
    swaps order (asset_amount (sg_input sg)) (asset_amount (sg_output sg)) (sg_interactions sg)).
Proof.
  intros Hs Hby (Hside & Hst & Hbt & Hsa & Hba). unfold single_for_request.
  destruct (Z.eqb_spec (asset_token (order_sell order)) (asset_token (order_buy order))) as [Heq|Hne].
  - assert (0 <= Gas_add 0 (in_solution_gas_offset self)) as Hg.
    { pose proof (Gas_add_u256 0 (in_solution_gas_offset self)) as H. unfold u256 in H. lia. }
    destruct (order_side order); intros sg [= <-]; (split; [done|]); (split; [done|]); (split; [done|]);
      (split; [done|]); by left.
  - assert (u256 (asset_amount (req_sell request)) /\ u256 (asset_amount (req_buy request))) as [Hrs Hrb]
      by (unfold u256 in *; lia).
    pose proof (route_returns request Hrs Hrb) as H.
    destruct (route iter b request (in_max_hops self)) as [[r|]|]; cbn [returns comp_obind] in *; [|done|done].
    destruct (H r eq_refl) as (u & v & (Hc & Hlen & Hfrom) & Hgas & Hu & Hv & Hv2). rewrite Hst, Hbt in Hc.
    destruct (connected_input_output _ _ _ Hc) as [-> ->]. cbn [comp_bind returns asset_amount asset_token].
    intros sg [= <-]. cbn [sg_order sg_input sg_output sg_gas sg_interactions asset_amount].
    split; [done|]. split; [unfold u256 in *; lia|].
    assert (u256 (asset_amount match order_side order with
      | Buy => mkAsset (asset_token (order_buy order)) (Z.min v (asset_amount (order_buy order)))
      | Sell => mkAsset (asset_token (order_buy order)) v end) /\
      asset_amount match order_side order with
      | Buy => mkAsset (asset_token (order_buy order)) (Z.min v (asset_amount (order_buy order)))
      | Sell => mkAsset (asset_token (order_buy order)) v end <= v) as [Ho Hle].
    { destruct (order_side order); cbn [asset_amount]; [unfold u256 in *; lia|].
      split; [by apply Hv2|lia]. }
    split; [done|]. split.
    { pose proof (Gas_add_u256 _ (in_solution_gas_offset self) (Route_gas_u256 r Hgas)) as H'.
      unfold u256 in H'. lia. }
    right. exists r, v. split; [done|]. split; [done|]. split; [done|].
    clear -Hfrom. induction Hfrom as [|sg r Hsg _ IH]; constructor; [eauto|done].
Qed.

Lemma settles_same_trades order x y fee s s' :
  s_trades s' = s_trades s -> s_prices s' = s_prices s -> settles order x y fee s -> settles order x y fee s'.
Proof. unfold settles. by intros -> ->. Qed.

Lemma swaps_apply_marks order x y marks interactions :
  length marks = length interactions ->
  swaps order x y interactions -> swaps order x y (apply_marks marks interactions).
Proof.
  intros Hlen [(? & -> & ?)|(r & out & ? & ? & ? & HF)].
  { left. destruct marks; done. }
  right. exists r, out. split; [done|]. split; [done|]. split; [done|].
  clear -Hlen HF. revert marks Hlen.
  induction HF as [|sg i r is_ (? & fl & ->) HF IH]; intros [|m marks] Hlen; try done; simpl.
  constructor; [|apply IH; simpl in *; lia]. split; [done|]. destruct m; simpl; eauto.
Qed.

(** What a solution for the order at index [k] promises. *)
Definition solves (k : nat) (order : Order) (s : Solution) : Prop :=
  s_id s = Z.of_nat k /\
  exists x y fee, settles order x y fee s /\ swaps order x y (s_interactions s).

Lemma compute_solution_returns auction k order price request :
  u256 (asset_amount (order_sell order)) -> u256 (asset_amount (order_buy order)) ->
  scaled order request -> 0 <= price -> 0 <= auction_gas_price auction ->
  returns (compute_solution iter self b auction k order price request)
    (fun o => forall s, o = Some s -> solves k order s).
Proof.
  intros Hs Hby Hreq Hprice Hgp. unfold compute_solution.
  pose proof (single_for_request_returns order request Hs Hby Hreq) as H.
  destruct (single_for_request _ _ _ _ _) as [[sg|]|]; cbn [returns comp_obind] in *; [|done|done].
  destruct (H sg eq_refl) as (Ho & Hi & Hout & Hgas & Hsw). clear H.
  destruct (checked_mul _ _) as [wei|] eqn:Hwei; cbn [comp_obind]; [|done].
  destruct (ether_value price wei) as [fee|] eqn:Hfee; cbn [comp_obind]; [|done].
  destruct (into_solution sg fee) as [sol|] eqn:Hsol; cbn [comp_obind]; [|done].
  apply checked_mul_Some in Hwei as [-> _].
  assert (0 <= fee) as Hf0.
  { unfold ether_value in Hfee. rust_inv. apply Z.div_pos; [|lia]. unfold PRICE_BASE. nia. }
  destruct Hreq as (_ & _ & _ & _ & Hba).
  destruct (into_solution_fields _ _ _ Hsol) as [Hint _].
  apply into_solution_settles in Hsol; [|rewrite ?Ho; first [done|lia]..]. rewrite Ho in Hsol.
  destruct (internalize_loop_spec (auction_tokens auction) ∅ (s_interactions (with_id (Z.of_nat k) sol)))
    as (marks & Hrun & HF & _); [intros t a Ha; by rewrite lookup_empty in Ha|].
  unfold with_buffers_internalizations. rewrite Hrun. cbn [comp_bind returns]. intros s [= <-].
  split; [done|]. exists (asset_amount (sg_input sg)), (asset_amount (sg_output sg)), fee.
  split; [by eapply settles_same_trades|]. cbn [with_id with_interactions s_interactions] in *.
  apply swaps_apply_marks; [by eapply Forall2_length|]. by rewrite Hint.
Qed.

Context (f64_from_u256 : Z -> f64) (u256_from_f64 : f64 -> Z).
Hypothesis Hf64 : forall x, 0 <= u256_from_f64 x.
Hypothesis Hnative : u256 (in_native_token_price_estimation_amount self).

Lemma to_normalized_price_nonneg x p :
  to_normalized_price u256_from_f64 x = Some p -> 0 <= p.
Proof.
  unfold to_normalized_price. generalize (f64_mul (f64_lit (10 ^ 18)) x), (f64_lit (2 ^ 256)).
  intros y max. cbv zeta. destruct (andb _ _); [|discriminate]. intros [= <-]. apply Hf64.
Qed.

Definition prices_ok (tokens : Tokens) : Prop :=
  forall t p, reference_price tokens t = Some p -> 0 <= p.

Lemma sell_token_price_returns tokens order :
  prices_ok tokens ->
  returns (sell_token_price iter f64_from_u256 u256_from_f64 self b tokens order)
    (fun o => forall p, o = Some p -> 0 <= p).
Proof.
  intros Hp. unfold sell_token_price.
  destruct (reference_price tokens _) as [p|] eqn:E; [intros ? [= <-]; by eapply Hp|].
  destruct (_ =? _); [intros ? [= <-]; lia|].
  pose proof (route_returns (native_price_request self order)) as H.
  destruct (route iter b _ _) as [[r|]|]; cbn [comp_bind returns] in *;
    [|intros ? [= <-]; unfold U256_MAX; lia|].
  - destruct (H ltac:(unfold u256; simpl; lia) Hnative r eq_refl) as (u & v & (Hc & _) & _).
    destruct (connected_input_output _ _ _ Hc) as [-> _]. cbn [comp_bind returns].
    intros p. apply to_normalized_price_nonneg.
  - apply H; [unfold u256; simpl; lia|exact Hnative].
Qed.

Definition order_ok (order : Order) : Prop :=
  u256 (asset_amount (order_sell order)) /\ u256 (asset_amount (order_buy order)).

Context (auction : Auction).
Hypothesis Hprices : prices_ok (auction_tokens auction).
Hypothesis Hgp : 0 <= auction_gas_price auction.
Hypothesis Hattempts : (in_max_partial_attempts self <= 256)%nat.

Lemma solve_order_returns k order :
  order_ok order ->
  returns (solve_order iter f64_from_u256 u256_from_f64 self b auction k order)
    (fun o => forall s, o = Some s -> solves k order s).
Proof.
  intros [Hs Hby]. unfold solve_order.
  pose proof (sell_token_price_returns (auction_tokens auction) order Hprices) as H.
  destruct (sell_token_price _ _ _ _ _ _ _) as [[price|]|]; cbn [returns comp_obind] in *; [|done|done].
  specialize (H price eq_refl).
  apply try_requests_returns; [done|done| |unfold attempts_for_order; destruct (order_partially_fillable _); lia].
  intros request Hreq. by apply compute_solution_returns.
Qed.

Lemma solve_orders_spec orders k :
  Forall order_ok orders ->
  exists sent, solve_orders iter f64_from_u256 u256_from_f64 self b auction k orders = (sent, true) /\
    StronglySorted Z.lt (map s_id sent) /\
    Forall (fun s => exists j order, orders !! j = Some order /\ solves (k + j) order s) sent.
Proof.
  intros Hall. revert k. induction Hall as [|order orders Ho Hall IH]; intros k; cbn [solve_orders].
  { exists []. split; [done|]. split; constructor. }
  pose proof (solve_order_returns k order Ho) as H. destruct (IH (S k)) as (sent & Hrun & Hsort & Hsent).
  assert (Forall (fun s => exists j o, (order :: orders) !! j = Some o /\ solves (k + j) o s) sent) as Hsent'.
  { eapply Forall_impl; [exact Hsent|]. intros s (j & o & Hj & Hsol). exists (S j), o.
    split; [done|]. by rewrite Nat.add_succ_r. }
  destruct (solve_order _ _ _ _ _ _ _ _) as [[s|]|]; cbn [returns] in H; [| |done]; rewrite Hrun.
  - exists (s :: sent). split; [done|]. specialize (H s eq_refl). split.
    + cbn [map]. constructor; [done|]. apply Forall_fmap. eapply Forall_impl; [exact Hsent|].
      intros s' (j & o & _ & [Hid' _]). destruct H as [Hid _]. simpl. rewrite Hid, Hid'. lia.
    + constructor; [|done]. exists 0%nat, order. by rewrite Nat.add_0_r.
  - exists sent. done.
Qed.
End engine_spec.

(** C33 (safety): over a well-formed auction, with at most 256 attempts per order,
    the engine runs through all orders without panicking, whatever the iteration
    order of its hash sets and the precision of its price estimates.  It sends at
    most one solution per order, numbered by the order's position and in that
    order, and each solution settles its order fairly through a chain of swaps
    over the auction's liquidity.  A deadline can only cut the list short. *)
Theorem engine_sound iter f64_from_u256 u256_from_f64 self auction aborted_after :
  (forall l, iter l ≡ₚ l) -> (forall x, 0 <= u256_from_f64 x) ->
  quoter_opt_ok (in_uni_v3_quoter_v2 self) ->
  Forall (liquidity_wf (in_uni_v3_quoter_v2 self)) (auction_liquidity auction) ->
  Forall order_ok (auction_orders auction) -> prices_ok (auction_tokens auction) ->
  0 <= auction_gas_price auction -> u256 (in_native_token_price_estimation_amount self) ->
  (in_max_partial_attempts self <= 256)%nat ->
  exists sent, Inner_solve iter f64_from_u256 u256_from_f64 self auction = (sent, true) /\
    StronglySorted Z.lt (map s_id sent) /\
    Forall (fun s => exists k order, auction_orders auction !! k = Some order /\
      solves self (auction_liquidity auction) k order s) sent /\
    Solver_solve iter f64_from_u256 u256_from_f64 self aborted_after auction `prefix_of` sent.
Proof.
  intros Hiter Hf64 Hq Hls Ho Hp Hgp Hn Ha. unfold Solver_solve, Inner_solve.
  destruct (returns_inv _ _ (Solver_new_returns (in_weth self) (in_base_tokens self) _ _ Hq Hls))
    as (b & -> & Hb & Hbase).
  destruct (solve_orders_spec iter Hiter self _ b Hb Hbase f64_from_u256 u256_from_f64 Hf64 Hn auction
    Hp Hgp Ha (auction_orders auction) 0 Ho) as (sent & Hrun & Hsort & Hsent).
  exists sent. rewrite Hrun. split; [done|]. split; [done|]. split; [exact Hsent|].
  destruct aborted_after as [n|]; cbn [fst]; [|done]. exists (drop n sent). by rewrite take_drop.
Qed.

(** ** Too many attempts *)

(** When no request has a solution, attempt 256 divides by zero. *)
Lemma try_requests_overflow order compute attempts i :
  order_ok order -> (forall request, scaled order request -> compute request = Ret None) ->
  (i <= 256 < i + attempts)%nat ->
  try_requests attempts i order compute = Panic.
Proof.
  intros [Hs Hb] Hc. revert i. induction attempts as [|attempts IH]; intros i Hi; cbn [try_requests]; [lia|].
  destruct (decide (i = 256%nat)) as [->|Hne]; [by rewrite shl_one_zero by lia|].
  destruct (shl_one_pos i) as [_ Hd]; [lia|]. unfold div_u256.
  rewrite (proj2 (Z.eqb_neq (shl_one i) 0)) by lia. cbn [comp_bind].
  destruct (Z.eqb_spec (asset_amount (order_sell order) / shl_one i) 0); [apply IH; lia|].
  destruct (Z.eqb_spec (asset_amount (order_buy order) / shl_one i) 0); [apply IH; lia|].
  cbn [orb]. rewrite Hc by (by apply (scaled_request order Hs Hb i); [lia|done..]).
  cbn [comp_bind]. apply IH; lia.
Qed.

Lemma solve_orders_stops iter f g self b auction k before order after :
  (forall i, solve_order iter f g self b auction i order = Panic) ->
  exists sent, solve_orders iter f g self b auction k (before ++ order :: after) = (sent, false) /\
    (length sent <= length before)%nat.
Proof.
  intros Hp. revert k. induction before as [|o before IH]; intros k; cbn [app solve_orders].
  { rewrite Hp. by exists []. }
  destruct (IH (S k)) as (sent & Hrun & Hlen).
  destruct (solve_order iter f g self b auction k o) as [[s|]|].
  - rewrite Hrun. exists (s :: sent). split; [done|]. simpl. lia.
  - exists sent. split; [done|]. simpl. lia.
  - exists []. split; [done|]. simpl. lia.
Qed.

(** C40 (error, a defect): the configuration does not bound the number of attempts,
    and beyond 256 of them a partially fillable order that cannot be routed makes
    the divisor wrap to zero.  The background task panics, which the caller cannot
    tell from a finished run: no order after the unroutable one is ever solved. *)
Theorem excess_attempts_drop_orders iter f64_from_u256 u256_from_f64 self auction b before order after price :
  Solver_new (in_weth self) (in_base_tokens self) (auction_liquidity auction)
    (in_uni_v3_quoter_v2 self) = Ret b ->
  auction_orders auction = before ++ order :: after ->
  order_ok order -> order_partially_fillable order = true ->
  asset_token (order_sell order) <> asset_token (order_buy order) ->
  reference_price (auction_tokens auction) (asset_token (order_sell order)) = Some price ->
  (forall request, scaled order request -> route iter b request (in_max_hops self) = Ret None) ->
  (256 < in_max_partial_attempts self)%nat ->
  exists sent, Inner_solve iter f64_from_u256 u256_from_f64 self auction = (sent, false) /\
    (length sent <= length before)%nat.
Proof.
  intros Hb Horders Ho Hpart Hne Hprice Hroute Hatt. unfold Inner_solve. rewrite Hb, Horders.
  apply solve_orders_stops. intros i. unfold solve_order, sell_token_price. rewrite Hprice. cbn [comp_obind].
  apply try_requests_overflow; [done| |unfold attempts_for_order; rewrite Hpart; lia].
  intros request Hreq. unfold compute_solution, single_for_request.
  rewrite (proj2 (Z.eqb_neq _ _)) by done. by rewrite Hroute.
Qed.

(** ** Examples *)
Definition example_inner (attempts : nat) : Inner :=
  mkInner 3 [] 1 attempts 0 (10 ^ 17) None (mkMandateDeployment None None).
Definition example_token : Token := mkToken None None (Some (10 ^ 18)) 0 false.
Definition limit_order (sell buy : Asset) (partial : bool) : Order :=
  mkOrder 1 sell buy Sell Limit partial None [].

(** The first order is routed over two pools; the second trades a token for
    itself. *)
Definition example_auction : Auction :=
  mkAuction QuoteId {[ 1 := example_token ]}
    [limit_order (mkAsset 1 100000) (mkAsset 2 90000) false;
     limit_order (mkAsset 1 500) (mkAsset 1 500) false] example_snapshot 0 0.

Definition no_f64 (_ : Z) : f64 := S754_nan.
Definition no_u256 (_ : f64) : Z := 0.

Example engine_example :
  (let '(sent, completed) := Inner_solve id no_f64 no_u256 (example_inner 5) example_auction in
   (map (fun s => (s_id s, s_prices s, length (s_interactions s))) sent, completed))
  = ([(0, {[ 1 := 95593; 2 := 100000 ]}, 2%nat); (1, {[ 1 := 500 ]}, 0%nat)], true).
Proof. by vm_compute. Qed.

Lemma example_auction_ok :
  Forall order_ok (auction_orders example_auction) /\ prices_ok (auction_tokens example_auction).
Proof.
  split; [repeat constructor; unfold u256; simpl; lia|].
  intros t p. unfold reference_price. cbn [example_auction auction_tokens].
  destruct (_ !! t) as [tk|] eqn:E; [|done]. apply lookup_singleton_Some in E as [_ <-].
  cbn [example_token token_reference_price]. intros [= <-]. lia.
Qed.

Lemma engine_sound_witness :
  exists sent, Inner_solve id no_f64 no_u256 (example_inner 5) example_auction = (sent, true) /\
    StronglySorted Z.lt (map s_id sent) /\
    Solver_solve id no_f64 no_u256 (example_inner 5) (Some 1%nat) example_auction `prefix_of` sent.
Proof.
  destruct (engine_sound id no_f64 no_u256 (example_inner 5) example_auction (Some 1%nat))
    as (sent & Hrun & Hsort & _ & Hpre);
    [reflexivity|done|exact no_quoter_ok|exact example_snapshot_wf|exact (proj1 example_auction_ok)
    |exact (proj2 example_auction_ok)|simpl; lia|unfold u256; simpl; lia|simpl; lia|].
  exists sent. split; [exact Hrun|]. split; [exact Hsort|exact Hpre].
Defined.

Definition unroutable_auction : Auction :=
  mkAuction QuoteId {[ 1 := example_token ]}
    [limit_order (mkAsset 1 100) (mkAsset 2 90) true;
     limit_order (mkAsset 1 500) (mkAsset 1 500) false] [] 0 0.

(** Without liquidity there is no route. *)
Lemma no_liquidity_no_route self b request :
  Solver_new (in_weth self) (in_base_tokens self) [] None = Ret b ->
  u256 (asset_amount (req_sell request)) -> u256 (asset_amount (req_buy request)) ->
  route id b request (in_max_hops self) = Ret None.
Proof.
  intros Hb Hs Hby.
  destruct (returns_inv _ _ (Solver_new_returns (in_weth self) (in_base_tokens self) [] None
    no_quoter_ok (Forall_nil_2 _))) as (b' & Hb' & Hok & Hbase).
  rewrite Hb in Hb'. injection Hb' as <-.
  pose proof (route_returns id (fun l => reflexivity l) self [] b Hok Hbase request Hs Hby) as H.
  destruct (route id b request _) as [[r|]|]; cbn [returns] in H; [|done|done].
  destruct (H r eq_refl) as (u & v & (_ & Hlen & Hin) & _). destruct r as [|sg r]; [simpl in Hlen; lia|].
  apply Forall_cons in Hin as [Hin _]. set_solver.
Qed.

Lemma excess_attempts_drop_orders_witness :
  exists sent, Inner_solve id no_f64 no_u256 (example_inner 257) unroutable_auction = (sent, false) /\
    (length sent <= 0)%nat.
Proof.
  destruct (Solver_new 3 [] [] None) as [b|] eqn:Hb; [|vm_compute in Hb; discriminate Hb].
  apply (excess_attempts_drop_orders id no_f64 no_u256 (example_inner 257) unroutable_auction b []
    (limit_order (mkAsset 1 100) (mkAsset 2 90) true)
    [limit_order (mkAsset 1 500) (mkAsset 1 500) false] (10 ^ 18));
    [exact Hb|reflexivity|split; unfold u256; simpl; lia|reflexivity|discriminate|reflexivity| |simpl; lia].
  intros request (_ & _ & _ & Hs & Hby). simpl in Hs, Hby.
  apply (no_liquidity_no_route (example_inner 257)); [exact Hb|unfold u256; lia|unfold u256; lia].
Defined.

(** With 256 attempts the second order is solved. *)
Example within_width_example :
  (let '(sent, completed) := Inner_solve id no_f64 no_u256 (example_inner 256) unroutable_auction in
   (map s_id sent, completed)) = ([1], true).
Proof. by vm_compute. Qed.
