(* ===== verification/AuctionApi.v ===== *)
(** * AuctionApi: the [/solve] endpoint

    [crates/solvers/src/api/routes/solve/mod.rs] (the handler),
    [.../solve/dto/auction.rs] (the auction's conversion to the domain) and
    [.../solve/dto/solution.rs] (the conversion of solutions to the wire types of
    [crates/solvers-dto/src/solution.rs]).  Of a wire order only the fields the
    conversion reads are kept. *)

From stdpp Require Import base gmap sets list strings sorting.
From Stdlib Require Import ZArith Lia Permutation.
From S2P Require Import Prelude Collections F64 Eth Solvable ConstantProduct.
From S2P Require Import BaselineSolver Liquidity Baseline Mandate Dto MandateApi Config Solution Engine.

Open Scope Z_scope.

(** ** The auction on the wire *)
Inductive Kind := KindSell | KindBuy.

Record WireToken := mkWireToken {
  wt_decimals : option Z;
  wt_symbol : option string;
  wt_reference_price : option Z;
  wt_available_balance : Z;
  wt_trusted : bool;
}.

Record WireOrder := mkWireOrder {
  wo_uid : Z;
  wo_sell_token : address;
  wo_buy_token : address;
  wo_sell_amount : Z;
  wo_buy_amount : Z;
  wo_kind : Kind;
  wo_class : Class_;
  wo_partially_fillable : bool;
  wo_flashloan_hint : option FlashloanHint;
  wo_wrappers : list WrapperCall;
}.

Record WireAuction := mkWireAuction {
  wa_id : option Z;
  wa_tokens : gmap address WireToken;
  wa_orders : list WireOrder;
  wa_liquidity : list DtoLiquidity;
  wa_effective_gas_price : Z;
  wa_deadline : Z;
}.

Definition token_to_domain (t : WireToken) : Token :=
  mkToken (wt_decimals t) (wt_symbol t) (wt_reference_price t) (wt_available_balance t) (wt_trusted t).

Definition order_to_domain (o : WireOrder) : Order :=
  mkOrder (wo_uid o) (mkAsset (wo_sell_token o) (wo_sell_amount o))
    (mkAsset (wo_buy_token o) (wo_buy_amount o))
    (match wo_kind o with KindBuy => Buy | KindSell => Sell end)
    (match wo_class o with Market => Market | Limit => Limit end)
    (wo_partially_fillable o) (wo_flashloan_hint o)
    (map (fun w => mkWrapperCall (wrapper_address w) (wrapper_data w)) (wo_wrappers o)).

Definition into_domain (to_u32 : BigDecimal -> option Z) (auction : WireAuction)
  : comp (result string Auction) :=
  let!r liquidity := liquidities_to_domain to_u32 (wa_liquidity auction) in
  Ret (Ok (mkAuction
    (match wa_id auction with Some id => SolveId id | None => QuoteId end)
    (token_to_domain <$> wa_tokens auction)
    (map order_to_domain (wa_orders auction))
    liquidity (wa_effective_gas_price auction) (wa_deadline auction))).

(** ** Solutions on the wire *)
Inductive SigningScheme := SchemeEip712 | SchemeEthSign | SchemeEip1271 | SchemePreSign.
Inductive TokenBalance := Erc20.

Record WireJitOrder := mkWireJitOrder {
  wj_sell_token : address;
  wj_sell_amount : Z;
  wj_buy_token : address;
  wj_buy_amount : Z;
  wj_partially_fillable : bool;
  wj_receiver : address;
  wj_valid_to : Z;
  wj_app_data : Z;
  wj_kind : Kind;
  wj_sell_token_balance : TokenBalance;
  wj_buy_token_balance : TokenBalance;
  wj_signing_scheme : SigningScheme;
  wj_signature : list Z;
}.

Inductive WireTrade :=
| WireFulfillment (order executed_amount : Z) (fee : option Z)
| WireJitTrade (order : WireJitOrder) (executed_amount : Z) (fee : option Z).

Record WireAllowance := mkWireAllowance {
  wal_token : address;
  wal_amount : Z;
  wal_spender : address;
}.

Inductive WireInteraction :=
| WireLiquidity (id : string) (input_token : address) (input_amount : Z)
    (output_token : address) (output_amount : Z) (internalize : bool)
| WireCustom (target : address) (value : Z) (calldata : list Z) (internalize : bool)
    (allowances : list WireAllowance) (inputs outputs : list Asset).

Record WireSolution := mkWireSolution {
  wsol_id : Z;
  wsol_prices : gmap address Z;
  wsol_trades : list WireTrade;
  wsol_pre_interactions : list EthInteraction;
  wsol_post_interactions : list EthInteraction;
  wsol_interactions : list WireInteraction;
  wsol_gas : option Z;
  wsol_flashloans : option (list FlashloanHint);
  wsol_wrappers : list WrapperCall;
}.

Definition signature_from_domain (s : Signature) : SigningScheme * list Z :=
  match s with
  | Eip712 signature => (SchemeEip712, EcdsaSignature_to_bytes signature)
  | EthSign signature => (SchemeEthSign, EcdsaSignature_to_bytes signature)
  | Eip1271 bytes => (SchemeEip1271, bytes)
  | PreSign => (SchemePreSign, [])
  end.

Definition trade_from_domain (trade : Trade) : WireTrade :=
  match trade with
  | FulfillmentT trade =>
      WireFulfillment (order_uid (ff_order trade)) (asset_amount (Fulfillment_executed trade))
        (option_map asset_amount (Fulfillment_surplus_fee trade))
  | JitT trade =>
      let order := jt_order trade in
      let '(signing_scheme, signature) := signature_from_domain (jit_signature order) in
      WireJitTrade (mkWireJitOrder (asset_token (jit_sell order)) (asset_amount (jit_sell order))
        (asset_token (jit_buy order)) (asset_amount (jit_buy order)) (jit_partially_fillable order)
        (jit_receiver order) (jit_valid_to order) (jit_app_data order)
        (match jit_side order with Buy => KindBuy | Sell => KindSell end) Erc20 Erc20
        signing_scheme signature) (jt_executed trade) (Some (jt_fee trade))
  end.

Definition interaction_from_domain (interaction : Interaction) : WireInteraction :=
  match interaction with
  | LiquidityI i => WireLiquidity (liq_id (lint_liquidity i))
      (asset_token (lint_input i)) (asset_amount (lint_input i))
      (asset_token (lint_output i)) (asset_amount (lint_output i)) (lint_internalize i)
  | CustomI i => WireCustom (cint_target i) (cint_value i) (cint_calldata i) (cint_internalize i)
      (map (fun a => mkWireAllowance (asset_token (al_asset a)) (asset_amount (al_asset a)) (al_spender a))
         (cint_allowances i))
      (map (fun a => mkAsset (asset_token a) (asset_amount a)) (cint_inputs i))
      (map (fun a => mkAsset (asset_token a) (asset_amount a)) (cint_outputs i))
  end.

Definition interaction_data_from_domain (l : list EthInteraction) : list EthInteraction :=
  map (fun i => mkEthInteraction (ei_target i) (ei_value i) (ei_calldata i)) l.

Definition solution_from_domain (solution : Solution) : WireSolution :=
  mkWireSolution (s_id solution) (s_prices solution) (map trade_from_domain (s_trades solution))
    (interaction_data_from_domain (s_pre_interactions solution))
    (interaction_data_from_domain (s_post_interactions solution))
    (map interaction_from_domain (s_interactions solution))
    (option_map (fun gas => if fits 64 gas then gas else u64_MAX) (s_gas solution))
    None
    (map (fun w => mkWrapperCall (sw_target w) (sw_data w)) (s_wrappers solution)).

Definition from_domain (solutions : list Solution) : list WireSolution :=
  map solution_from_domain solutions.

(** ** The handler *)
Section handler.
Context (iter : hash_order) (to_u32 : BigDecimal -> option Z).
Context (f64_from_u256 : Z -> f64) (u256_from_f64 : f64 -> Z).
Context (self : Inner) (aborted_after : option nat).

(** The status code and body. *)
Definition handle_auction (auction : WireAuction) : comp (Z * result string (list WireSolution)) :=
  let! decoded := into_domain to_u32 auction in
  match decoded with
  | Err err => Ret (400, Err err)
  | Ok auction =>
      let solutions := Solver_solve iter f64_from_u256 u256_from_f64 self aborted_after auction in
      Ret (200, Ok (from_domain solutions))
  end.
End handler.

(** ** What a caller gets *)

(** A wire fulfillment respects the order it executes: never more than signed, and
    all of it for a fill-or-kill order. *)
Definition wire_fills (o : WireOrder) (executed : Z) (fee : option Z) : Prop :=
  let '(filled, full) := match wo_kind o with
                         | KindBuy => (executed, wo_buy_amount o)
                         | KindSell => (executed + default 0 fee, wo_sell_amount o)
                         end in
  (if wo_partially_fillable o then filled <= full else filled = full) /\
  (wo_class o = Market <-> fee = None).

Lemma settles_wire o x y fee s :
  settles (order_to_domain o) x y fee s ->
  exists executed fee', map trade_from_domain (s_trades s) = [WireFulfillment (wo_uid o) executed fee'] /\
    wire_fills o executed fee'.
Proof.
  intros (taken & given & f & Ht & Hf & _ & _ & _ & _ & Hfill & _). rewrite Ht.
  cbn [map trade_from_domain ff_order order_to_domain order_uid Fulfillment_executed asset_amount ff_executed].
  do 2 eexists. split; [done|]. unfold wire_fills, Fulfillment_surplus_fee, fills in *.
  cbn [ff_fee order_to_domain order_side order_partially_fillable solver_determines_fee order_class] in *.
  unfold solver_determines_fee in Hf. cbn [order_to_domain order_class] in Hf.
  destruct (wo_kind o); cbn in *.
  - split; [|rewrite Hf; by destruct (wo_class o)]. rewrite Hf. destruct (wo_class o); cbn;
      by rewrite ?Z.sub_add, ?Z.sub_0_r, ?Z.add_0_r.
  - split; [exact Hfill|]. rewrite Hf. by destruct (wo_class o).
Qed.

Definition wire_auction_ok (to_u32 : BigDecimal -> option Z) (self : Inner) (a : WireAuction) : Prop :=
  wire_ok to_u32 (Inner_routing self) (wa_liquidity a) /\
  Forall (fun o => u256 (wo_sell_amount o) /\ u256 (wo_buy_amount o)) (wa_orders a) /\
  map_Forall (fun _ t => forall p, wt_reference_price t = Some p -> 0 <= p) (wa_tokens a) /\
  0 <= wa_effective_gas_price a.

Lemma into_domain_returns to_u32 self a :
  (forall d v, to_u32 d = Some v -> 0 <= v < 2 ^ 32) -> wire_auction_ok to_u32 self a ->
  returns (into_domain to_u32 a) (fun r => forall d, r = Ok d ->
    auction_orders d = map order_to_domain (wa_orders a) /\
    Forall order_ok (auction_orders d) /\ prices_ok (auction_tokens d) /\
    0 <= auction_gas_price d /\
    Forall2 decoded (wa_liquidity a) (auction_liquidity d) /\
    Forall (liquidity_wf (in_uni_v3_quoter_v2 self)) (auction_liquidity d)).
Proof.
  intros Hu32 (Hl & Ho & Hp & Hg). unfold into_domain.
  pose proof (snapshot_to_domain_returns to_u32 Hu32 (Inner_routing self) (wa_liquidity a)
    (mkWireSource EmptyString 0) Hl) as H. unfold snapshot_to_domain in H.
  destruct (liquidities_to_domain to_u32 (wa_liquidity a)) as [[ls|e]|]; cbn [comp_rbind returns] in *;
    [|done|done].
  destruct (H _ eq_refl) as (_ & _ & Hd & Hwf). cbn [snapshot_liquidity Inner_routing routing_quoter] in *.
  intros d [= <-]. cbn [auction_orders auction_tokens auction_gas_price auction_liquidity].
  split; [done|]. split; [by apply Forall_fmap|]. split; [|done].
  intros t p. unfold reference_price. destruct (_ !! t) as [tk|] eqn:E; [|done].
  apply lookup_fmap_Some in E as (wt & <- & E). by apply (Hp t wt E).
Qed.

(** The ids of the liquidity a wire solution uses. *)
Definition wire_liquidity_ids (s : WireSolution) : list (option string) :=
  map (fun i => match i with WireLiquidity id _ _ _ _ _ => Some id | WireCustom _ _ _ _ _ _ _ => None end)
    (wsol_interactions s).

Lemma swaps_wire_ids self dtos ls order x y s :
  Forall2 decoded dtos ls -> swaps self ls order x y (s_interactions s) ->
  Forall (fun id => exists d, d ∈ dtos /\ id = Some (dto_id d)) (wire_liquidity_ids (solution_from_domain s)).
Proof.
  intros Hdec Hsw. unfold wire_liquidity_ids. cbn [solution_from_domain wsol_interactions].
  destruct Hsw as [(_ & -> & _)|(r & out & _ & _ & _ & HF)]; [constructor|].
  rewrite map_map. apply Forall_fmap, Forall_forall. intros i (j & Hj)%list_elem_of_lookup.
  destruct (Forall2_lookup_r _ _ _ _ _ HF Hj) as (sg & _ & Hin & fl & ->).
  apply list_elem_of_lookup in Hin as [n Hn].
  destruct (Forall2_lookup_r _ _ _ _ _ Hdec Hn) as (d & Hd & Hid & _).
  exists d. split; [by eapply list_elem_of_lookup_2|]. cbn. by rewrite Hid.
Qed.

(** Every solution that is sent solves an order of the auction over its liquidity. *)
Lemma handle_auction_solves iter to_u32 f64_from_u256 u256_from_f64 self aborted_after a :
  (forall l, iter l ≡ₚ l) -> (forall d v, to_u32 d = Some v -> 0 <= v < 2 ^ 32) ->
  (forall x, 0 <= u256_from_f64 x) -> quoter_opt_ok (in_uni_v3_quoter_v2 self) ->
  u256 (in_native_token_price_estimation_amount self) ->
  (in_max_partial_attempts self <= 256)%nat -> wire_auction_ok to_u32 self a ->
  exists status body,
    handle_auction iter to_u32 f64_from_u256 u256_from_f64 self aborted_after a = Ret (status, body) /\
    match body with
    | Err _ => status = 400
    | Ok solutions => status = 200 /\ exists ls sent, solutions = from_domain sent /\
        Forall2 decoded (wa_liquidity a) ls /\
        Forall (fun s => exists k o, wa_orders a !! k = Some o /\ solves self ls k (order_to_domain o) s) sent
    end.
Proof.
  intros Hiter Hu32 Hf64 Hq Hn Ha Hok. unfold handle_auction.
  destruct (returns_inv _ _ (into_domain_returns to_u32 self a Hu32 Hok)) as (r & -> & Hr). cbn [comp_bind].
  destruct r as [d|e]; [|by do 2 eexists]. destruct (Hr d eq_refl) as (Hord & Ho & Hp & Hg & Hdec & Hwf).
  do 2 eexists. split; [done|]. split; [done|].
  destruct (returns_inv _ _ (Solver_new_returns (in_weth self) (in_base_tokens self) _ _ Hq Hwf))
    as (b & Hb & Hsok & Hbase).
  destruct (solve_orders_spec iter Hiter self _ b Hsok Hbase f64_from_u256 u256_from_f64 Hf64 Hn d
    Hp Hg Ha (auction_orders d) 0 Ho) as (sent & Hrun & _ & Hsent).
  exists (auction_liquidity d), (Solver_solve iter f64_from_u256 u256_from_f64 self aborted_after d).
  split; [done|]. split; [done|]. unfold Solver_solve, Inner_solve. rewrite Hb, Hrun. cbn [fst].
  assert (Forall (fun s => exists k o, wa_orders a !! k = Some o /\
    solves self (auction_liquidity d) k (order_to_domain o) s) sent) as H.
  { eapply Forall_impl; [exact Hsent|]. intros s (j & o' & Hj & Hs'). rewrite Hord in Hj.
    apply list_lookup_fmap_Some in Hj as (o & -> & Hj). by exists j, o. }
  destruct aborted_after; [by apply Forall_take|done].
Qed.

(** C34 (safety): [POST /solve] answers every well-formed auction without panicking,
    400 when its liquidity does not decode and 200 otherwise.  Each solution it
    returns executes exactly one order of the auction, the one at the position its
    id names, within the order's signed amounts (all of a fill-or-kill order), with
    a fee only on limit orders, and uses liquidity of the auction only. *)
Theorem auction_endpoint_sound iter to_u32 f64_from_u256 u256_from_f64 self aborted_after a :
  (forall l, iter l ≡ₚ l) -> (forall d v, to_u32 d = Some v -> 0 <= v < 2 ^ 32) ->
  (forall x, 0 <= u256_from_f64 x) -> quoter_opt_ok (in_uni_v3_quoter_v2 self) ->
  u256 (in_native_token_price_estimation_amount self) ->
  (in_max_partial_attempts self <= 256)%nat -> wire_auction_ok to_u32 self a ->
  exists status body,
    handle_auction iter to_u32 f64_from_u256 u256_from_f64 self aborted_after a = Ret (status, body) /\
    match body with
    | Err _ => status = 400
    | Ok solutions => status = 200 /\ Forall (fun s =>
        exists k o executed fee, wa_orders a !! k = Some o /\ wsol_id s = Z.of_nat k /\
          wsol_trades s = [WireFulfillment (wo_uid o) executed fee] /\ wire_fills o executed fee /\
          Forall (fun id => exists d, d ∈ wa_liquidity a /\ id = Some (dto_id d)) (wire_liquidity_ids s))
        solutions
    end.
Proof.
  intros Hiter Hu32 Hf64 Hq Hn Ha Hok.
  destruct (handle_auction_solves iter to_u32 f64_from_u256 u256_from_f64 self aborted_after a Hiter Hu32 Hf64 Hq Hn Ha Hok)
    as (status & body & Hrun & Hbody). exists status, body. split; [done|].
  destruct body as [solutions|]; [|done]. destruct Hbody as (-> & ls & sent & -> & Hdec & Hsol). split; [done|].
  unfold from_domain. apply Forall_fmap. eapply Forall_impl; [exact Hsol|].
  intros s (k & o & Hk & Hid & x & y & fee & Hset & Hsw).
  destruct (settles_wire o x y fee s Hset) as (executed & fee' & Ht & Hf).
  exists k, o, executed, fee'. split; [done|]. split; [done|]. split; [done|]. split; [done|].
  by eapply swaps_wire_ids.
Qed.

(** ** Examples *)
Definition example_wire_auction : WireAuction :=
  mkWireAuction (Some 7) {[ 3 := mkWireToken None None (Some (10 ^ 18)) 0 false ]}
    [mkWireOrder 77 3 7 1000 400 KindSell Limit false None []] example_wire 0 0.

Example handle_auction_example :
  (let! (status, body) := handle_auction id truncating_u32 no_f64 no_u256 (example_inner 5) None
     example_wire_auction in
   Ret (status, letr l := body in Ok (map (fun s => (wsol_id s, wsol_trades s, wsol_interactions s)) l)))
  = Ret (200, Ok [(0, [WireFulfillment 77 1000 (Some 0)], [WireLiquidity "cp" 3 1000 7 498 false])]).
Proof. by vm_compute. Qed.

Lemma auction_endpoint_sound_witness :
  exists status body,
    handle_auction id truncating_u32 no_f64 no_u256 (example_inner 5) None example_wire_auction
      = Ret (status, body) /\ (forall e, body = Err e -> status = 400).
Proof.
  destruct (auction_endpoint_sound id truncating_u32 no_f64 no_u256 (example_inner 5) None
    example_wire_auction) as (status & body & Hrun & H);
    [reflexivity|exact truncating_u32_fits|done|exact no_quoter_ok|unfold u256; simpl; lia|simpl; lia| |].
  - split; [exact example_wire_ok|]. split; [repeat constructor; unfold u256; simpl; lia|].
    split; [|simpl; lia]. intros t tk E. cbn [example_wire_auction wa_tokens] in E.
    apply lookup_singleton_Some in E as [_ <-]. intros p [= <-]. lia.
  - exists status, body. split; [exact Hrun|]. intros e ->. exact H.
Defined.
