(* ===== verification/Score.v ===== *)
(** * Score: the score of an executed order

    The scoring half of [crates/winner-selection/src/arbitrator.rs] with its
    primitives, [crates/winner-selection/src/{auction,primitives,solution}.rs], and
    the arithmetic of [crates/number/src/u256_ext.rs].  The conversions of [f64]
    values to integers belong to their crates and are parameters. *)

From stdpp Require Import base gmap sets list strings.
From Stdlib Require Import ZArith Lia SpecFloat.
From S2P Require Import Prelude Collections F64 Eth.

Open Scope Z_scope.

(** ** [U256Ext] *)
Definition checked_ceil_div (a b : Z) : option Z :=
  if b =? 0 then None else Some (div_ceil a b).

Definition ceil_div (a b : Z) : comp Z := expect (checked_ceil_div a b).

Section f64_factor.
(** [U256::from(f64)] and [BigUint::from_f64]. *)
Context (u256_from_f64 : f64 -> Z) (biguint_from_f64 : f64 -> option Z).

Definition checked_mul_f64 (a : Z) (factor : f64) : option Z :=
  if negb (is_finite factor) || is_sign_negative factor then None
  else if SFeqb factor (f64_lit 1) then Some a
  else
    let scaled_factor := f64_mul factor (f64_lit (10 ^ 18)) in
    let? scaled_factor_u256 :=
      if SFleb scaled_factor (f64_lit (2 ^ 128 - 1)) then Some (u256_from_f64 scaled_factor)
      else let? big := biguint_from_f64 scaled_factor in
           if fits 256 big then Some big else None in
    let? result := checked_mul a scaled_factor_u256 in
    checked_div result (10 ^ 18).
End f64_factor.

(** ** Primitives *)

(** [Address::repeat_byte(0xee)]. *)
Definition NATIVE_TOKEN : address := 0xeeeeeeeeeeeeeeeeeeeeeeeeeeeeeeeeeeeeeeee.

Definition as_erc20 (token wrapped : address) : address :=
  if token =? NATIVE_TOKEN then wrapped else token.

Definition price_in_eth (price amount : Z) : Z := saturating_mul amount price / 10 ^ 18.

Abbreviation DirectedTokenPair := (address * address)%type.

(** An order uid is its 56 bytes, most significant first; the owner's 20 bytes
    are followed by the 4 bytes of the timestamp. *)
Definition OrderUid_owner (uid : Z) : address := Z.land (Z.shiftr uid 32) (2 ^ 160 - 1).

Inductive Side := Buy | Sell.

Record Quote := mkQuote {
  quote_sell_amount : Z;
  quote_buy_amount : Z;
  quote_fee : Z;
  quote_solver : address;
}.

Inductive FeePolicy :=
| Surplus (factor max_volume_factor : f64)
| PriceImprovement (factor max_volume_factor : f64) (quote : Quote)
| Volume (factor : f64).

Record AuctionContext := mkAuctionContext {
  fee_policies : gmap Z (list FeePolicy);
  surplus_capturing_jit_order_owners : gset address;
  native_prices : gmap address Z;
}.

Definition contributes_to_score (context : AuctionContext) (uid : Z) : bool :=
  match fee_policies context !! uid with
  | Some _ => true
  | None => bool_decide (OrderUid_owner uid ∈ surplus_capturing_jit_order_owners context)
  end.

Record Order := mkOrder {
  order_uid : Z;
  order_sell_token : address;
  order_buy_token : address;
  order_sell_amount : Z;
  order_buy_amount : Z;
  order_executed_sell : Z;
  order_executed_buy : Z;
  order_side : Side;
}.

Record ClearingPrices := mkClearingPrices { price_sell : Z; price_buy : Z }.
Record PriceLimits := mkPriceLimits { limit_sell : Z; limit_buy : Z }.

Inductive MathError := Overflow | DivisionByZero | Negative.

(** What scoring an order can fail with. *)
Inductive ScoreError :=
| MissingNativePrice
| MissingUniformPrice
| Math (e : MathError)
| OverflowAddingFees
| OverflowAddingProtocolFees
| DivisionByZeroConvertingSurplus
| OverflowConvertingSurplus.

Definition math {A} (r : result MathError A) : result ScoreError A :=
  match r with Ok a => Ok a | Err e => Err (Math e) end.

(** ** Surplus *)
Definition surplus_over (order : Order) (prices : ClearingPrices) (limits : PriceLimits)
  : result MathError Z :=
  match order_side order with
  | Buy =>
      let executed := order_executed_buy order in
      letr m := ok_or (checked_mul (limit_sell limits) executed) Overflow in
      letr limit_sell := ok_or (checked_div m (limit_buy limits)) DivisionByZero in
      letr m := ok_or (checked_mul executed (price_buy prices)) Overflow in
      letr sold := ok_or (checked_div m (price_sell prices)) DivisionByZero in
      ok_or (checked_sub limit_sell sold) Negative
  | Sell =>
      let executed := order_executed_sell order in
      letr m := ok_or (checked_mul executed (limit_buy limits)) Overflow in
      letr limit_buy := ok_or (checked_ceil_div m (limit_sell limits)) DivisionByZero in
      letr m := ok_or (checked_mul executed (price_sell prices)) Overflow in
      letr bought := ok_or (checked_ceil_div m (price_buy prices)) DivisionByZero in
      ok_or (checked_sub bought limit_buy) Negative
  end.

Definition surplus_over_limit_price (order : Order) (prices : ClearingPrices) : result MathError Z :=
  surplus_over order prices (mkPriceLimits (order_sell_amount order) (order_buy_amount order)).

(** ** Amounts *)
Definition sell_amount (order : Order) (prices : ClearingPrices) : result MathError Z :=
  match order_side order with
  | Sell => Ok (order_executed_sell order)
  | Buy => letr m := ok_or (checked_mul (order_executed_buy order) (price_buy prices)) Overflow in
           ok_or (checked_div m (price_sell prices)) DivisionByZero
  end.

Definition buy_amount (order : Order) (prices : ClearingPrices) : result MathError Z :=
  match order_side order with
  | Sell => letr m := ok_or (checked_mul (order_executed_sell order) (price_sell prices)) Overflow in
            ok_or (checked_ceil_div m (price_buy prices)) DivisionByZero
  | Buy => Ok (order_executed_buy order)
  end.

Definition calculate_custom_prices_from_executed (order : Order) : ClearingPrices :=
  mkClearingPrices (order_executed_buy order) (order_executed_sell order).

Definition calculate_custom_prices (order : Order) (protocol_fee : Z) (prices : ClearingPrices)
  : result MathError ClearingPrices :=
  letr sell_amount := sell_amount order prices in
  letr buy_amount := buy_amount order prices in
  letr sell := match order_side order with
               | Sell => ok_or (checked_add buy_amount protocol_fee) Overflow
               | Buy => Ok buy_amount
               end in
  letr buy := match order_side order with
              | Sell => Ok sell_amount
              | Buy => ok_or (checked_sub sell_amount protocol_fee) Negative
              end in
  Ok (mkClearingPrices sell buy).

(** ** Price improvement *)
Definition adjust_quote_to_order_limits (order : Order) (quote : Quote) : result MathError PriceLimits :=
  match order_side order with
  | Sell =>
      letr m := ok_or (checked_mul (quote_fee quote) (quote_buy_amount quote)) Overflow in
      letr fee := ok_or (checked_div m (quote_sell_amount quote)) DivisionByZero in
      letr buy := ok_or (checked_sub (quote_buy_amount quote) fee) Negative in
      letr m := ok_or (checked_mul buy (order_sell_amount order)) Overflow in
      letr scaled := ok_or (checked_div m (quote_sell_amount quote)) DivisionByZero in
      Ok (mkPriceLimits (order_sell_amount order) (Z.max (order_buy_amount order) scaled))
  | Buy =>
      letr sell := ok_or (checked_add (quote_sell_amount quote) (quote_fee quote)) Overflow in
      letr m := ok_or (checked_mul sell (order_buy_amount order)) Overflow in
      letr scaled := ok_or (checked_div m (quote_buy_amount quote)) DivisionByZero in
      Ok (mkPriceLimits (Z.min (order_sell_amount order) scaled) (order_buy_amount order))
  end.

Definition price_improvement_over_quote (order : Order) (prices : ClearingPrices) (quote : Quote)
  : result MathError Z :=
  letr adjusted_quote := adjust_quote_to_order_limits order quote in
  match surplus_over order prices adjusted_quote with
  | Ok surplus => Ok surplus
  | Err Negative => Ok 0
  | Err err => Err err
  end.

(** ** Fees *)
Section fees.
Context (u256_from_f64 : f64 -> Z) (biguint_from_f64 : f64 -> option Z).
Local Abbreviation mul_f64 := (checked_mul_f64 u256_from_f64 biguint_from_f64).

Definition surplus_fee (surplus : Z) (factor : f64) : result MathError Z :=
  ok_or (mul_f64 surplus (f64_div factor (f64_sub (f64_lit 1) factor))) Overflow.

Definition volume_fee (order : Order) (prices : ClearingPrices) (factor : f64) : result MathError Z :=
  letr executed_in_surplus_token := match order_side order with
                                    | Sell => buy_amount order prices
                                    | Buy => sell_amount order prices
                                    end in
  let adjusted_factor := match order_side order with
                         | Sell => f64_div factor (f64_sub (f64_lit 1) factor)
                         | Buy => f64_div factor (f64_add (f64_lit 1) factor)
                         end in
  ok_or (mul_f64 executed_in_surplus_token adjusted_factor) Overflow.

Definition protocol_fee (order : Order) (policy : FeePolicy) (custom_prices : ClearingPrices)
  : result MathError Z :=
  match policy with
  | Surplus factor max_volume_factor =>
      letr surplus := surplus_over_limit_price order custom_prices in
      letr surplus_fee := surplus_fee surplus factor in
      letr volume_fee := volume_fee order custom_prices max_volume_factor in
      Ok (Z.min surplus_fee volume_fee)
  | PriceImprovement factor max_volume_factor quote =>
      letr price_improvement := price_improvement_over_quote order custom_prices quote in
      letr surplus_fee := surplus_fee price_improvement factor in
      letr volume_fee := volume_fee order custom_prices max_volume_factor in
      Ok (Z.min surplus_fee volume_fee)
  | Volume factor => volume_fee order custom_prices factor
  end.

(** The loop over the policies in reverse; the prices are not updated after the
    policy at index 0, the last one. *)
Fixpoint protocol_fees_loop (order : Order) (base_prices : ClearingPrices) (policies : list FeePolicy)
  (total_fee : Z) (current_prices : ClearingPrices) : result ScoreError Z :=
  match policies with
  | [] => Ok total_fee
  | policy :: policies =>
      letr fee := math (protocol_fee order policy current_prices) in
      letr total_fee := ok_or (checked_add total_fee fee) OverflowAddingProtocolFees in
      letr current_prices := match policies with
                             | [] => Ok current_prices
                             | _ => math (calculate_custom_prices order total_fee base_prices)
                             end in
      protocol_fees_loop order base_prices policies total_fee current_prices
  end.

Definition protocol_fees (order : Order) (context : AuctionContext) (base_prices : ClearingPrices)
  : result ScoreError Z :=
  let policies := default [] (fee_policies context !! order_uid order) in
  protocol_fees_loop order base_prices (reverse policies) 0 base_prices.

(** [prices] are the solution's uniform clearing prices. *)
Definition compute_order_score (order : Order) (prices : gmap address Z) (context : AuctionContext)
  : result ScoreError Z :=
  letr native_price_buy := ok_or (native_prices context !! order_buy_token order) MissingNativePrice in
  letr _ := ok_or (prices !! order_sell_token order) MissingUniformPrice in
  letr _ := ok_or (prices !! order_buy_token order) MissingUniformPrice in
  let custom_prices := calculate_custom_prices_from_executed order in
  letr user_surplus := math (surplus_over_limit_price order custom_prices) in
  letr fees := protocol_fees order context custom_prices in
  letr surplus_in_surplus_token := ok_or (checked_add user_surplus fees) OverflowAddingFees in
  match order_side order with
  | Sell => Ok (price_in_eth native_price_buy surplus_in_surplus_token)
  | Buy =>
      letr surplus_in_buy_tokens :=
        ok_or (checked_div (surplus_in_surplus_token * order_buy_amount order) (order_sell_amount order))
          DivisionByZeroConvertingSurplus in
      letr surplus_in_buy_tokens :=
        ok_or (if fits 256 surplus_in_buy_tokens then Some surplus_in_buy_tokens else None)
          OverflowConvertingSurplus in
      Ok (price_in_eth native_price_buy surplus_in_buy_tokens)
  end.
End fees.

(** ** Surplus over the executed prices *)

(** The amounts of an order are [U256]s. *)
Definition order_wf (o : Order) : Prop :=
  0 <= order_sell_amount o /\ 0 <= order_buy_amount o /\
  0 <= order_executed_sell o /\ 0 <= order_executed_buy o.

Lemma div_ceil_mul a b : 0 < b -> div_ceil (a * b) b = a.
Proof.
  intros Hb. pose proof (div_ceil_spec (a * b) b Hb). nia.
Qed.

Lemma checked_ceil_div_Some a b c : checked_ceil_div a b = Some c <-> c = div_ceil a b /\ b <> 0.
Proof. unfold checked_ceil_div. destruct (Z.eqb_spec b 0); naive_solver. Qed.

(** At the prices of the execution itself the surplus is the distance of the
    executed amount to the limit, scaled to the executed part of the order and
    rounded in the order's disfavour. *)
Lemma surplus_executed order s :
  order_wf order ->
  surplus_over_limit_price order (calculate_custom_prices_from_executed order) = Ok s ->
  0 <= s /\
  match order_side order with
  | Sell => 0 < order_executed_sell order /\ 0 < order_sell_amount order /\
      s = order_executed_buy order
          - div_ceil (order_executed_sell order * order_buy_amount order) (order_sell_amount order)
  | Buy => 0 < order_executed_buy order /\ 0 < order_buy_amount order /\
      s = order_sell_amount order * order_executed_buy order / order_buy_amount order
          - order_executed_sell order
  end.
Proof.
  intros (Hs & Hb & Hes & Heb) H. unfold surplus_over_limit_price, surplus_over in H.
  cbn [limit_sell limit_buy price_sell price_buy calculate_custom_prices_from_executed] in H.
  destruct (order_side order).
  - rust_inv.
    match goal with H : context [order_executed_buy order * order_executed_sell order / _] |- _ =>
      rewrite (Z.mul_comm (order_executed_buy order) (order_executed_sell order)), Z.div_mul in H by done end.
    rewrite (Z.mul_comm (order_executed_buy order) (order_executed_sell order)), Z.div_mul by done. lia.
  - rust_inv.
    repeat match goal with H : checked_ceil_div _ _ = Some _ |- _ => apply checked_ceil_div_Some in H as [-> ?] end.
    assert (div_ceil (order_executed_sell order * order_executed_buy order) (order_executed_sell order)
      = order_executed_buy order) as E by (rewrite Z.mul_comm; apply div_ceil_mul; lia).
    rewrite E in *. lia.
Qed.

(** A score is computed from the surplus at the executed prices. *)
Lemma compute_order_score_Ok f g order prices context score :
  compute_order_score f g order prices context = Ok score ->
  exists native surplus fees,
    native_prices context !! order_buy_token order = Some native /\
    surplus_over_limit_price order (calculate_custom_prices_from_executed order) = Ok surplus /\
    protocol_fees f g order context (calculate_custom_prices_from_executed order) = Ok fees /\
    score = price_in_eth native
      (match order_side order with
       | Sell => surplus + fees
       | Buy => (surplus + fees) * order_buy_amount order / order_sell_amount order
       end).
Proof.
  intros H. unfold compute_order_score in H.
  destruct (native_prices context !! _) as [native|] eqn:En; [|done]. cbn [ok_or result_bind] in H.
  destruct (prices !! order_sell_token order); [|done]. cbn [ok_or result_bind] in H.
  destruct (prices !! order_buy_token order); [|done]. cbn [ok_or result_bind] in H.
  destruct (surplus_over_limit_price _ _) as [surplus|] eqn:Es; [|done]. cbn [math result_bind] in H.
  destruct (protocol_fees _ _ _ _ _) as [fees|] eqn:Ef; [|done]. cbn [result_bind] in H.
  destruct (checked_add surplus fees) as [total|] eqn:Et; [|done]. cbn [ok_or result_bind] in H.
  apply checked_add_Some in Et as [-> _]. exists native, surplus, fees.
  split; [done|]. split; [done|]. split; [done|].
  destruct (order_side order); [|by injection H as <-].
  destruct (checked_div _ _) as [q|] eqn:Eq; [|done]. cbn [ok_or result_bind] in H.
  apply checked_div_Some in Eq as [-> _]. destruct (fits 256 _); [|done]. by injection H as <-.
Qed.

(** An order only gets a score when its execution respects the signed
    limit price, whatever the fee policies and the rounding of the scaled limit:
    the executed amounts trade at a rate at least as good as the limit amounts.
    (A violation is an error, and the arbitrator discards the whole solution.) *)
Theorem scored_order_respects_limit f g order prices context score :
  order_wf order -> compute_order_score f g order prices context = Ok score ->
  order_executed_sell order * order_buy_amount order
    <= order_executed_buy order * order_sell_amount order.
Proof.
  intros Hwf (native & surplus & fees & _ & Hs & _)%compute_order_score_Ok.
  apply surplus_executed in Hs as [H0 H]; [|done]. destruct Hwf as (? & ? & ? & ?).
  destruct (order_side order); destruct H as (Hpos & Hpos' & ->).
  - assert (order_executed_sell order <= order_sell_amount order * order_executed_buy order
      / order_buy_amount order) as Hle by lia.
    apply div_le_iff in Hle; lia.
  - assert (div_ceil (order_executed_sell order * order_buy_amount order) (order_sell_amount order)
      <= order_executed_buy order) as Hle by lia.
    apply div_ceil_le in Hle; lia.
Qed.

Lemma price_in_eth_mono price a b : 0 <= price -> a <= b -> price_in_eth price a <= price_in_eth price b.
Proof.
  intros Hp Hab. unfold price_in_eth, saturating_mul. apply Z.div_le_mono; [lia|].
  assert (a * price <= b * price) by nia. lia.
Qed.

(** The same order, executed at other amounts. *)
Definition executed_at (order : Order) (executed_sell executed_buy : Z) : Order :=
  mkOrder (order_uid order) (order_sell_token order) (order_buy_token order) (order_sell_amount order)
    (order_buy_amount order) executed_sell executed_buy (order_side order).

Definition no_policies (order : Order) (context : AuctionContext) : Prop :=
  default [] (fee_policies context !! order_uid order) = [].

(** The score rewards what the user gets.  For an order without
    protocol fees, a sell order that is executed for more of the buy token, or a
    buy order that is executed for less of the sell token, never scores lower. *)
Theorem better_execution_scores_higher f g order prices prices' context es eb es' eb' score score' :
  order_wf (executed_at order es eb) -> order_wf (executed_at order es' eb') ->
  no_policies order context -> map_Forall (fun _ p => 0 <= p) (native_prices context) ->
  (match order_side order with Sell => es = es' /\ eb <= eb' | Buy => eb = eb' /\ es' <= es end) ->
  compute_order_score f g (executed_at order es eb) prices context = Ok score ->
  compute_order_score f g (executed_at order es' eb') prices' context = Ok score' ->
  score <= score'.
Proof.
  intros Hwf Hwf' Hpol Hnat Hbetter.
  intros (n & s & fees & Hn & Hs & Hf & ->)%compute_order_score_Ok.
  intros (n' & s' & fees' & Hn' & Hs' & Hf' & ->)%compute_order_score_Ok.
  cbn [executed_at order_buy_token] in Hn, Hn'. rewrite Hn in Hn'. injection Hn' as <-.
  assert (0 <= n) as Hn0 by (by eapply (Hnat (order_buy_token order))).
  unfold protocol_fees in Hf, Hf'. cbn [executed_at order_uid] in Hf, Hf'.
  rewrite Hpol in Hf, Hf'. injection Hf as <-. injection Hf' as <-.
  apply surplus_executed in Hs as [_ Hs]; [|done]. apply surplus_executed in Hs' as [_ Hs']; [|done].
  cbn [executed_at order_side order_sell_amount order_buy_amount order_executed_sell order_executed_buy] in *.
  destruct Hwf as (Hw1 & Hw2 & _). cbn [executed_at order_sell_amount order_buy_amount] in Hw1, Hw2.
  destruct (order_side order); destruct Hbetter as [-> Hle], Hs as (_ & _ & ->), Hs' as (_ & _ & ->);
    apply price_in_eth_mono; [done| |done|lia].
  destruct (Z.eq_dec (order_sell_amount order) 0) as [->|Hne]; [by rewrite !Z.div_0_r|].
  apply Z.div_le_mono; [lia|]. apply Z.mul_le_mono_nonneg_r; lia.
Qed.

(** ** Examples *)
Definition score_context : AuctionContext :=
  mkAuctionContext {[ 1 := [] ]} ∅ {[ 20 := 10 ^ 18 ]}.
Definition score_order (executed_buy : Z) : Order :=
  mkOrder 1 10 20 1000 900 1000 executed_buy Sell.
Definition score_prices : gmap address Z := {[ 10 := 1; 20 := 1 ]}.

Example score_examples :
  compute_order_score (fun _ => 0) (fun _ => None) (score_order 950) score_prices score_context = Ok 50 /\
  compute_order_score (fun _ => 0) (fun _ => None) (score_order 899) score_prices score_context
    = Err (Math Negative).
Proof. by vm_compute. Qed.

Lemma scored_order_respects_limit_witness :
  compute_order_score (fun _ => 0) (fun _ => None) (score_order 950) score_prices score_context = Ok 50 /\
  1000 * 900 <= 950 * 1000.
Proof.
  split; [exact (proj1 score_examples)|].
  apply (scored_order_respects_limit (fun _ => 0) (fun _ => None) (score_order 950) score_prices
    score_context 50); [unfold order_wf; simpl; lia|exact (proj1 score_examples)].
Defined.

Lemma better_execution_scores_higher_witness :
  exists score score',
    compute_order_score (fun _ => 0) (fun _ => None) (score_order 950) score_prices score_context = Ok score /\
    compute_order_score (fun _ => 0) (fun _ => None) (score_order 960) score_prices score_context = Ok score' /\
    score <= score'.
Proof.
  exists 50, 60. split; [vm_compute; reflexivity|]. split; [vm_compute; reflexivity|].
  apply (better_execution_scores_higher (fun _ => 0) (fun _ => None) (score_order 0) score_prices score_prices
    score_context 1000 950 1000 960);
    [unfold order_wf; simpl; lia|unfold order_wf; simpl; lia|reflexivity| |simpl; lia
    |vm_compute; reflexivity|vm_compute; reflexivity].
  intros t p E. cbn [score_context native_prices] in E. apply lookup_singleton_Some in E as [_ <-]. lia.
Defined.
