(* ===== verification/Arbitrator.v ===== *)
(** * Arbitrator: selecting the winners of an auction

    The selection half of [crates/winner-selection/src/arbitrator.rs] and the
    solution states of [crates/winner-selection/src/{solution,state}.rs]: solutions
    that are unfair to some token pair are filtered out, the rest win greedily by
    score as long as no directed token pair is traded by two winners. *)

From stdpp Require Import base gmap sets list strings sorting.
From Stdlib Require Import ZArith Lia Permutation.
From S2P Require Import Prelude Collections F64 Eth Score.

Open Scope Z_scope.

(** ** Solutions and their states *)
Record Unscored := mkUnscored {}.
Record Scored := mkScored { scored_score : Z }.
Inductive RankType := Winner | NonWinner | FilteredOut.
Record Ranked := mkRanked { ranked_rank_type : RankType; ranked_score : Z }.

Definition RankType_is_winner (r : RankType) : bool :=
  match r with Winner => true | _ => false end.
Definition RankType_is_filtered_out (r : RankType) : bool :=
  match r with FilteredOut => true | _ => false end.

Record Solution (St : Type) := mkSolution {
  sol_id : Z;
  sol_solver : address;
  sol_orders : list Order;
  sol_prices : gmap address Z;
  sol_state : St;
}.
Arguments mkSolution {St}.
Arguments sol_id {St} s.
Arguments sol_solver {St} s.
Arguments sol_orders {St} s.
Arguments sol_prices {St} s.
Arguments sol_state {St} s.

Definition Solution_new (id : Z) (solver : address) (orders : list Order) (prices : gmap address Z)
  : Solution Unscored := mkSolution id solver orders prices mkUnscored.

(** [HasState::with_state] and the transitions built on it. *)
Definition with_state {St St'} (s : Solution St) (state : St') : Solution St' :=
  mkSolution (sol_id s) (sol_solver s) (sol_orders s) (sol_prices s) state.
Definition with_score (s : Solution Unscored) (score : Z) : Solution Scored :=
  with_state s (mkScored score).
Definition with_rank (rank_type : RankType) (s : Solution Scored) : Solution Ranked :=
  with_state s (mkRanked rank_type (scored_score (sol_state s))).

Definition score (s : Solution Scored) : Z := scored_score (sol_state s).
Definition rscore (s : Solution Ranked) : Z := ranked_score (sol_state s).
Definition is_winner (s : Solution Ranked) : bool := RankType_is_winner (ranked_rank_type (sol_state s)).
Definition is_filtered_out (s : Solution Ranked) : bool :=
  RankType_is_filtered_out (ranked_rank_type (sol_state s)).

Abbreviation SolutionKey := (address * Z)%type.
Definition key {St} (s : Solution St) : SolutionKey := (sol_solver s, sol_id s).

Abbreviation ScoreByDirection := (gmap DirectedTokenPair Z).
Abbreviation ScoresBySolution := (gmap SolutionKey ScoreByDirection).

Record Ranking := mkRanking { filtered_out : list (Solution Ranked); ranked : list (Solution Ranked) }.

Definition winners (r : Ranking) : list (Solution Ranked) :=
  filter (fun s => is_winner s = true) (ranked r).
Definition non_winners (r : Ranking) : list (Solution Ranked) :=
  filter (fun s => is_winner s = false) (ranked r).

(** ** Scores *)
Section scores.
Context (u256_from_f64 : f64 -> Z) (biguint_from_f64 : f64 -> option Z).
Context (context : AuctionContext).

(** The loop over the orders of a solution. *)
Fixpoint score_orders (prices : gmap address Z) (orders : list Order) (scores : ScoreByDirection)
  : result ScoreError ScoreByDirection :=
  match orders with
  | [] => Ok scores
  | order :: orders =>
      if negb (contributes_to_score context (order_uid order)) then score_orders prices orders scores
      else
        letr score := compute_order_score u256_from_f64 biguint_from_f64 order prices context in
        let token_pair := (order_sell_token order, order_buy_token order) in
        let entry := default 0 (scores !! token_pair) in
        score_orders prices orders (<[token_pair := saturating_add entry score]> scores)
  end.

Definition score_by_token_pair {St} (s : Solution St) : result ScoreError ScoreByDirection :=
  score_orders (sol_prices s) (sol_orders s) ∅.

Definition total_score (scores : ScoreByDirection) : Z :=
  foldl saturating_add 0 (map_to_list scores).*2.

(** The loop over the solutions; a solution without a score is dropped. *)
Fixpoint scores_loop (solutions : list (Solution Unscored)) (scored : list (Solution Scored))
  (by_solution : ScoresBySolution) : list (Solution Scored) * ScoresBySolution :=
  match solutions with
  | [] => (scored, by_solution)
  | s :: solutions =>
      match score_by_token_pair s with
      | Ok scores => scores_loop solutions (scored ++ [with_score s (total_score scores)])
                       (<[key s := scores]> by_solution)
      | Err _ => scores_loop solutions scored by_solution
      end
  end.

Definition compute_scores_by_solution (solutions : list (Solution Unscored))
  : list (Solution Scored) * ScoresBySolution := scores_loop solutions [] ∅.

(** The only entry of a map, [exactly_one]. *)
Definition exactly_one (m : ScoreByDirection) : option (DirectedTokenPair * Z) :=
  match map_to_list m with [e] => Some e | _ => None end.

Definition update_baseline (best : ScoreByDirection) (scores : ScoreByDirection) : ScoreByDirection :=
  match exactly_one scores with
  | Some (pair_, s) =>
      let current_best := default 0 (best !! pair_) in
      <[pair_ := if current_best <? s then s else current_best]> best
  | None => best
  end.

Definition compute_baseline_scores (scores_by_solution : ScoresBySolution) : ScoreByDirection :=
  foldl update_baseline ∅ (map_to_list scores_by_solution).*2.

(** ** Fairness *)
Definition is_fair (baseline scores : ScoreByDirection) : bool :=
  (size scores =? 1)%nat ||
  forallb (fun e => match baseline !! e.1 with None => true | Some b => b <=? e.2 end)
    (map_to_list scores).

Definition by_score : Solution Scored -> Solution Scored -> comparison :=
  cmp_rev (cmp_on score Z.compare).

Definition partition_unfair_solutions (solutions : list (Solution Unscored))
  : comp (list (Solution Scored) * list (Solution Scored)) :=
  let '(solutions, scores_by_solution) := compute_scores_by_solution solutions in
  let solutions := sort_by by_score solutions in
  let baseline_scores := compute_baseline_scores scores_by_solution in
  let! fair := comp_map (fun s =>
    let! aggregated_scores := expect (scores_by_solution !! key s) in
    Ret (is_fair baseline_scores aggregated_scores, s)) solutions in
  Ret ((filter (fun e => e.1 = true) fair).*2, (filter (fun e => e.1 = false) fair).*2).
End scores.

(** ** Winners *)
Section arbitrator.
Context (max_winners : nat) (weth : address).

Definition swapped_token_pairs {St} (s : Solution St) : gset DirectedTokenPair :=
  list_to_set (map (fun o => (as_erc20 (order_sell_token o) weth, as_erc20 (order_buy_token o) weth))
    (sol_orders s)).

Fixpoint pick_winners_loop {St} (solutions : list (Solution St)) (index : nat)
  (already_swapped_token_pairs : gset DirectedTokenPair) (winners : gset nat) : gset nat :=
  match solutions with
  | [] => winners
  | s :: solutions =>
      if (max_winners <=? size winners)%nat then winners
      else if bool_decide (swapped_token_pairs s ## already_swapped_token_pairs)
      then pick_winners_loop solutions (S index) (already_swapped_token_pairs ∪ swapped_token_pairs s)
             ({[ index ]} ∪ winners)
      else pick_winners_loop solutions (S index) already_swapped_token_pairs winners
  end.

Definition pick_winners {St} (solutions : list (Solution St)) : gset nat :=
  pick_winners_loop solutions 0 ∅ ∅.

Definition mark_winners (solutions : list (Solution Scored)) : list (Solution Ranked) :=
  let winner_indices := pick_winners solutions in
  imap (fun index s => with_rank (if bool_decide (index ∈ winner_indices) then Winner else NonWinner) s)
    solutions.

Definition by_rank : Solution Ranked -> Solution Ranked -> comparison :=
  cmp_then (cmp_rev (cmp_on (fun s => Z.b2z (is_winner s)) Z.compare)) (cmp_rev (cmp_on rscore Z.compare)).

Definition arbitrate (u256_from_f64 : f64 -> Z) (biguint_from_f64 : f64 -> option Z)
  (solutions : list (Solution Unscored)) (context : AuctionContext) : comp Ranking :=
  let! (kept, discarded) := partition_unfair_solutions u256_from_f64 biguint_from_f64 context solutions in
  let filtered_out := map (with_rank FilteredOut) discarded in
  let ranked := sort_by by_rank (mark_winners kept) in
  Ret (mkRanking filtered_out ranked).

(** ** Reference scores *)

(** The score of the winners with the given indices. *)
Definition winning_score (solutions : list (Solution Ranked)) (indices : gset nat) : Z :=
  let scores := omap id (imap (fun index s =>
    if bool_decide (index ∈ indices) then Some (rscore s) else None) solutions) in
  match scores with [] => 0 | s :: scores => foldl saturating_add s scores end.

Fixpoint reference_scores_loop (all todo : list (Solution Ranked)) (scores : gmap address Z)
  : gmap address Z :=
  match todo with
  | [] => scores
  | s :: todo =>
      let solver := sol_solver s in
      if (max_winners <=? size scores)%nat then scores
      else if bool_decide (is_Some (scores !! solver)) then reference_scores_loop all todo scores
      else if negb (is_winner s) then reference_scores_loop all todo scores
      else
        let without := filter (fun s' => sol_solver s' <> solver) all in
        let winner_indices := pick_winners without in
        reference_scores_loop all todo (<[solver := winning_score without winner_indices]> scores)
  end.

Definition compute_reference_scores (ranking : Ranking) : gmap address Z :=
  reference_scores_loop (ranked ranking) (ranked ranking) ∅.
End arbitrator.

(** ** Picking winners *)
Section pick_winners_spec.
Context (max_winners : nat) (weth : address) {St : Type} (all : list (Solution St)).

Definition pairs_at (i : nat) : gset DirectedTokenPair :=
  match all !! i with Some s => swapped_token_pairs weth s | None => ∅ end.

(** The state of the loop after the solutions before [index]. *)
Record picking (index : nat) (already : gset DirectedTokenPair) (w : gset nat) : Prop := {
  pick_range i : i ∈ w -> (i < index)%nat;
  pick_already p : p ∈ already <-> exists i, i ∈ w /\ p ∈ pairs_at i;
  pick_disjoint i j : i ∈ w -> j ∈ w -> i <> j -> pairs_at i ## pairs_at j;
  pick_size : (size w <= max_winners)%nat;
  pick_greedy i : (i < index)%nat -> i ∉ w -> exists j, j ∈ w /\ (j < i)%nat /\ ~ pairs_at i ## pairs_at j;
}.

(** What the winners of the whole list satisfy. *)
Record picked (w : gset nat) : Prop := {
  picked_range i : i ∈ w -> (i < length all)%nat;
  picked_disjoint i j : i ∈ w -> j ∈ w -> i <> j -> pairs_at i ## pairs_at j;
  picked_size : (size w <= max_winners)%nat;
  picked_greedy i : (i < length all)%nat -> i ∉ w ->
    size w = max_winners \/ exists j, j ∈ w /\ (j < i)%nat /\ ~ pairs_at i ## pairs_at j;
}.

Lemma picking_win index already w s :
  picking index already w -> all !! index = Some s -> (size w < max_winners)%nat ->
  swapped_token_pairs weth s ## already ->
  picking (S index) (already ∪ swapped_token_pairs weth s) ({[ index ]} ∪ w).
Proof.
  intros [Hr Ha Hd Hz Hg] Hs Hlt Hdis.
  assert (pairs_at index = swapped_token_pairs weth s) as Hp by (unfold pairs_at; by rewrite Hs).
  assert (forall i, i ∈ w -> pairs_at index ## pairs_at i) as Hnew.
  { intros i Hi p Hpi Hpi'. rewrite Hp in Hpi. apply (Hdis p Hpi). apply Ha. eauto. }
  split.
  - intros i. rewrite elem_of_union, elem_of_singleton. intros [->|Hi]; [lia|]. apply Hr in Hi. lia.
  - intros p. rewrite elem_of_union, Ha, <- Hp. setoid_rewrite elem_of_union.
    setoid_rewrite elem_of_singleton. naive_solver.
  - intros i j. rewrite !elem_of_union, !elem_of_singleton.
    intros [->|Hi] [->|Hj] Hne; [done|by apply Hnew|symmetry; by apply Hnew|by apply Hd].
  - rewrite size_union, size_singleton; [lia|]. intros i Hi%elem_of_singleton Hi'. subst.
    apply Hr in Hi'. lia.
  - intros i Hi Hn. rewrite elem_of_union, elem_of_singleton in Hn.
    destruct (Hg i) as (j & ? & ? & ?); [destruct (decide (i = index)); [naive_solver|lia]|naive_solver|].
    exists j. split; [set_solver|done].
Qed.

Lemma picking_skip index already w s :
  picking index already w -> all !! index = Some s ->
  ~ swapped_token_pairs weth s ## already -> picking (S index) already w.
Proof.
  intros [Hr Ha Hd Hz Hg] Hs Hdis. split; [|done|done|done|].
  - intros i Hi. apply Hr in Hi. lia.
  - intros i Hi Hn. destruct (decide (i = index)) as [->|]; [|apply Hg; [lia|done]].
    destruct (set_choose_or_empty (swapped_token_pairs weth s ∩ already)) as [[p Hp]|Hno].
    + apply elem_of_intersection in Hp as [Hp Hpa]. apply Ha in Hpa as (j & Hj & Hpj).
      exists j. split; [done|]. split; [by apply Hr|]. unfold pairs_at at 1. rewrite Hs.
      intros Hdd. by apply (Hdd p).
    + exfalso. apply Hdis. intros p Hp Hpa. apply (not_elem_of_empty (C := gset DirectedTokenPair) p).
      apply Hno. by apply elem_of_intersection.
Qed.

Lemma pick_winners_loop_spec todo index already w :
  drop index all = todo -> (index <= length all)%nat -> picking index already w ->
  picked (pick_winners_loop max_winners weth todo index already w).
Proof.
  revert index already w. induction todo as [|s todo IH]; intros index already w Hdrop Hlen Hpk;
    cbn [pick_winners_loop].
  { assert (length all <= index)%nat as Hle.
    { apply (f_equal length) in Hdrop. rewrite length_drop in Hdrop. simpl in Hdrop. lia. }
    destruct Hpk as [Hr Ha Hd Hz Hg]. split; [|done|done|].
    - intros i Hi. apply Hr in Hi. lia.
    - intros i Hi Hn. right. apply Hg; [lia|done]. }
  assert (all !! index = Some s) as Hs.
  { rewrite <- (Nat.add_0_r index), <- lookup_drop, Hdrop. done. }
  assert (drop (S index) all = todo) as Hdrop'.
  { rewrite <- Nat.add_1_r, <- drop_drop, Hdrop. done. }
  pose proof (lookup_lt_Some _ _ _ Hs) as Hlt.
  destruct (Nat.leb_spec max_winners (size w)) as [Hmax|Hmax].
  { destruct Hpk as [Hr Ha Hd Hz Hg]. split; [|done|done|].
    - intros i Hi. apply Hr in Hi. lia.
    - intros i _ _. left. lia. }
  destruct (bool_decide_reflect (swapped_token_pairs weth s ## already)).
  - apply IH; [done|lia|]. by apply picking_win.
  - apply IH; [done|lia|]. by eapply picking_skip.
Qed.

Lemma pick_winners_spec : picked (pick_winners max_winners weth all).
Proof.
  apply pick_winners_loop_spec; [done|lia|]. split; try set_solver.
  - rewrite size_empty. lia.
  - lia.
Qed.
End pick_winners_spec.

(** ** Lists *)
(** At most one position of a list satisfies the predicate. *)
Lemma filter_at_most_one {A} (P : A -> Prop) `{!forall x, Decision (P x)} l :
  (forall i j x y, l !! i = Some x -> l !! j = Some y -> P x -> P y -> i = j) ->
  (length (filter P l) <= 1)%nat.
Proof.
  induction l as [|x l IH]; intros Hone; [simpl; lia|]. rewrite filter_cons. case_decide as Hx.
  - assert (filter P l = []) as ->; [|simpl; lia].
    destruct (filter P l) as [|y k] eqn:E; [done|]. exfalso.
    assert (y ∈ filter P l) as [Hy Hin]%list_elem_of_filter by (rewrite E; set_solver).
    apply list_elem_of_lookup in Hin as [j Hj]. by specialize (Hone 0%nat (S j) x y eq_refl Hj Hx Hy).
  - apply IH. intros i j y z Hi Hj Hy Hz. specialize (Hone (S i) (S j) y z Hi Hj Hy Hz). lia.
Qed.

(** ** Ranking *)
Section mark_winners_spec.
Context (max_winners : nat) (weth : address) (kept : list (Solution Scored)).
Local Abbreviation w := (pick_winners max_winners weth kept).
Local Abbreviation marked := (mark_winners max_winners weth kept).

Lemma marked_lookup i s :
  marked !! i = Some s <-> exists k, kept !! i = Some k /\
    s = with_rank (if bool_decide (i ∈ w) then Winner else NonWinner) k.
Proof.
  unfold mark_winners. rewrite list_lookup_imap. destruct (kept !! i); simpl; naive_solver.
Qed.

Lemma marked_winner i s : marked !! i = Some s -> is_winner s = bool_decide (i ∈ w).
Proof. intros (k & _ & ->)%marked_lookup. by case_bool_decide. Qed.

Lemma marked_pairs i s : marked !! i = Some s -> swapped_token_pairs weth s = pairs_at weth kept i.
Proof. intros (k & Hk & ->)%marked_lookup. unfold pairs_at. by rewrite Hk. Qed.

Lemma winners_count : length (filter (fun s => is_winner s = true) marked) = size w.
Proof.
  pose proof (picked_range _ _ _ _ (pick_winners_spec max_winners weth kept)) as Hr.
  trans (length (filter (fun i => i ∈ w) (seq 0 (length kept)))).
  - unfold mark_winners. generalize w as W; intros W. clear Hr.
    assert (forall off, length (filter (fun s => is_winner s = true) (imap (fun index s =>
      with_rank (if bool_decide (off + index ∈ W)%nat then Winner else NonWinner) s) kept))
      = length (filter (fun i => i ∈ W) (seq off (length kept)))) as H; [|apply (H 0%nat)].
    induction kept as [|k l IH]; intros off; [done|]. cbn [length seq]. rewrite imap_cons, !filter_cons.
    rewrite Nat.add_0_r. specialize (IH (S off)).
    rewrite (imap_ext _ (fun index s => with_rank (if bool_decide (S off + index ∈ W)%nat
      then Winner else NonWinner) s)) by (intros i s _; simpl; by rewrite Nat.add_succ_r).
    destruct (decide (off ∈ W)) as [Hin|Hin].
    + rewrite decide_True by (by rewrite bool_decide_eq_true_2 by done). cbn [length]. by rewrite IH.
    + rewrite decide_False by (rewrite bool_decide_eq_false_2 by done; done). exact IH.
  - rewrite <- (size_list_to_set (C := gset nat)) by (apply NoDup_filter, NoDup_seq). f_equal.
    apply leibniz_equiv. intros i. rewrite elem_of_list_to_set, list_elem_of_filter, elem_of_seq.
    split; [tauto|]. intros Hi. split; [done|]. apply Hr in Hi. lia.
Qed.

Lemma winners_bounded : (length (filter (fun s => is_winner s = true) marked) <= max_winners)%nat.
Proof. rewrite winners_count. apply (picked_size _ _ _ _ (pick_winners_spec max_winners weth kept)). Qed.

Lemma winners_disjoint p :
  (length (filter (fun s => p ∈ swapped_token_pairs weth s)
    (filter (fun s => is_winner s = true) marked)) <= 1)%nat.
Proof.
  rewrite list_filter_filter. apply filter_at_most_one. intros i j x y Hi Hj [Hpx Hx] [Hpy Hy].
  rewrite (marked_winner _ _ Hi), bool_decide_eq_true in Hx.
  rewrite (marked_winner _ _ Hj), bool_decide_eq_true in Hy.
  rewrite (marked_pairs _ _ Hi) in Hpx. rewrite (marked_pairs _ _ Hj) in Hpy.
  destruct (decide (i = j)) as [|Hne]; [done|]. exfalso.
  by apply (picked_disjoint _ _ _ _ (pick_winners_spec max_winners weth kept) i j Hx Hy Hne p).
Qed.

Lemma losers_blocked s :
  StronglySorted (fun a b => score b <= score a) kept ->
  s ∈ marked -> is_winner s = false ->
  length (filter (fun s => is_winner s = true) marked) = max_winners \/
  exists v, v ∈ marked /\ is_winner v = true /\ rscore s <= rscore v /\
    ~ swapped_token_pairs weth s ## swapped_token_pairs weth v.
Proof.
  intros Hsort [i Hi]%list_elem_of_lookup Hs. rewrite winners_count.
  rewrite (marked_winner _ _ Hi), bool_decide_eq_false in Hs.
  rewrite (marked_pairs _ _ Hi). pose proof (pick_winners_spec max_winners weth kept) as [Hr _ _ Hg].
  pose proof Hi as (k & Hk & ->)%marked_lookup.
  destruct (Hg i (lookup_lt_Some _ _ _ Hk) Hs) as [->|(j & Hj & Hlt & Hnd)]; [by left|]. right.
  destruct (lookup_lt_is_Some_2 kept j (Hr j Hj)) as [kj Hkj].
  assert (marked !! j = Some (with_rank Winner kj)) as Hm.
  { apply marked_lookup. exists kj. by rewrite bool_decide_eq_true_2. }
  exists (with_rank Winner kj). split; [by eapply list_elem_of_lookup_2|]. split; [done|].
  split; [|by rewrite (marked_pairs _ _ Hm)].
  exact (StronglySorted_lookup_lt _ _ _ _ _ _ Hsort Hkj Hk Hlt).
Qed.
End mark_winners_spec.

(** ** Scoring and fairness *)
Section partition_spec.
Context (f : f64 -> Z) (g : f64 -> option Z) (context : AuctionContext).
Local Abbreviation scores_of s := (score_by_token_pair f g context s).

(** The scored solutions and their entries, in order. *)
Definition scored_of (s : Solution Unscored) : option (Solution Scored) :=
  match scores_of s with Ok m => Some (with_score s (total_score m)) | Err _ => None end.
Definition entry_of (s : Solution Unscored) : option (SolutionKey * ScoreByDirection) :=
  match scores_of s with Ok m => Some (key s, m) | Err _ => None end.

Definition insert_entry (m : ScoresBySolution) (e : SolutionKey * ScoreByDirection) : ScoresBySolution :=
  <[e.1 := e.2]> m.

Lemma scores_loop_spec solutions scored m :
  scores_loop f g context solutions scored m
    = (scored ++ omap scored_of solutions, foldl insert_entry m (omap entry_of solutions)).
Proof.
  revert scored m. induction solutions as [|s l IH]; intros scored m; cbn [scores_loop].
  { by rewrite app_nil_r. }
  destruct (scores_of s) as [sc|e] eqn:E; rewrite IH; simpl; unfold scored_of at 2, entry_of at 2; rewrite E.
  - by rewrite <- app_assoc.
  - done.
Qed.

Lemma insert_entries_is_Some l m k :
  is_Some (m !! k) \/ k ∈ l.*1 -> is_Some (foldl insert_entry m l !! k).
Proof.
  revert m. induction l as [|[k' v] l IH]; intros m H; simpl; [destruct H; [done|set_solver]|].
  apply IH. unfold insert_entry; simpl. destruct (decide (k' = k)) as [->|Hne].
  - left. rewrite lookup_insert_eq. eauto.
  - rewrite lookup_insert_ne by done. set_solver.
Qed.

Lemma insert_entries_lookup l m k v :
  NoDup l.*1 -> foldl insert_entry m l !! k = Some v <->
  (k, v) ∈ l \/ ((k ∉ l.*1) /\ m !! k = Some v).
Proof.
  revert m. induction l as [|[k' v'] l IH]; intros m Hnd; simpl.
  { split; [intros; right; split; [set_solver|done]|]. intros [H|[_ H]]; [set_solver|done]. }
  apply NoDup_cons in Hnd as [Hk Hnd]. rewrite IH by done. unfold insert_entry; simpl.
  destruct (decide (k' = k)) as [->|Hne].
  - rewrite lookup_insert_eq. split.
    + intros [H|[_ [= ->]]]; [left; by right|left; by left].
    + intros [[[= ->]|H]%elem_of_cons|[H _]]; [by right|by left|set_solver].
  - rewrite lookup_insert_ne by done. set_solver.
Qed.

Lemma omap_entry_keys solutions : (omap entry_of solutions).*1 = map key (omap scored_of solutions).
Proof.
  induction solutions as [|s l IH]; [done|]. simpl. unfold entry_of at 1, scored_of at 1.
  destruct (scores_of s); simpl; [by f_equal|exact IH].
Qed.

Definition baseline_of (solutions : list (Solution Unscored)) : ScoreByDirection :=
  compute_baseline_scores (foldl insert_entry ∅ (omap entry_of solutions)).

(** The fairness verdict of a solution of the auction. *)
Definition fair (solutions : list (Solution Unscored)) (s : Solution Scored) : bool :=
  is_fair (baseline_of solutions)
    (default ∅ (foldl insert_entry ∅ (omap entry_of solutions) !! key s)).

Lemma filter_pair {A} (F : A -> bool) (b : bool) l :
  (filter (fun e : bool * A => e.1 = b) (map (fun s => (F s, s)) l)).*2 = filter (fun s => F s = b) l.
Proof.
  induction l as [|x l IH]; [done|]. cbn [map]. rewrite !filter_cons. cbn [fst].
  case_decide; cbn; by rewrite ?IH.
Qed.

Lemma partition_spec solutions :
  partition_unfair_solutions f g context solutions =
  Ret (filter (fun s => fair solutions s = true) (sort_by by_score (omap scored_of solutions)),
       filter (fun s => fair solutions s = false) (sort_by by_score (omap scored_of solutions))).
Proof.
  unfold partition_unfair_solutions, compute_scores_by_solution. rewrite scores_loop_spec. cbn [app].
  set (m := foldl insert_entry ∅ (omap entry_of solutions)).
  set (sols := sort_by by_score (omap scored_of solutions)).
  assert (comp_map (fun s => let! aggregated := expect (m !! key s) in
    Ret (is_fair (compute_baseline_scores m) aggregated, s)) sols
    = Ret (map (fun s => (fair solutions s, s)) sols)) as ->.
  { apply comp_map_Ret, Forall2_fmap_r, Forall_Forall2_diag, Forall_forall. intros s Hs.
    apply sort_by_elem in Hs. destruct (insert_entries_is_Some (omap entry_of solutions) ∅ (key s)) as [v Hv].
    { right. rewrite omap_entry_keys. by apply list_elem_of_fmap_2. }
    unfold fair, baseline_of, m. rewrite Hv. cbn [expect comp_bind].
    exact (f_equal (fun a => Ret (is_fair _ (default ∅ a), s)) (eq_sym Hv)). }
  cbn [comp_bind]. by rewrite !filter_pair.
Qed.

Lemma kept_sorted solutions P `{!forall x, Decision (P x)} :
  StronglySorted (fun a b => score b <= score a)
    (filter P (sort_by by_score (omap scored_of solutions))).
Proof.
  apply StronglySorted_filter.
  assert (CmpPreorder by_score) by (unfold by_score; apply _).
  pose proof (sort_by_sorted by_score (omap scored_of solutions)) as H'.
  clear -H'. induction H' as [|x l Hl IH Hx]; constructor; [done|].
  eapply Forall_impl; [exact Hx|]. intros y Hy. unfold by_score, cmp_rev, cmp_on in Hy.
  by rewrite Z.compare_le_iff in Hy.
Qed.

(** ** Baselines *)
Lemma exactly_one_Some m p v : exactly_one m = Some (p, v) <-> m = {[ p := v ]}.
Proof.
  unfold exactly_one. split.
  - intros H. destruct (map_to_list m) as [|e [|]] eqn:E; [done| |done]. injection H as ->.
    rewrite <- (list_to_map_to_list m), E. done.
  - intros ->. by rewrite map_to_list_singleton.
Qed.

Lemma baseline_fold l best p :
  (forall b, best !! p = Some b -> exists b', foldl update_baseline best l !! p = Some b' /\ b <= b') /\
  (forall v, {[ p := v ]} ∈ l -> exists b', foldl update_baseline best l !! p = Some b' /\ v <= b').
Proof.
  revert best. induction l as [|m l IH]; intros best; simpl.
  { split; [intros b Hb; exists b; split; [done|lia]|set_solver]. }
  destruct (IH (update_baseline best m)) as [IH1 IH2]. split.
  - intros b Hb. assert (exists b', update_baseline best m !! p = Some b' /\ b <= b') as (b1 & H1 & Hle).
    { unfold update_baseline. destruct (exactly_one m) as [[q v]|]; [|exists b; split; [done|lia]].
      destruct (decide (q = p)) as [->|Hne].
      - rewrite lookup_insert_eq, Hb. eexists. split; [done|]. simpl. case_match; zify_bool; lia.
      - rewrite lookup_insert_ne by done. exists b. split; [done|lia]. }
    destruct (IH1 b1 H1) as (b' & ? & ?). exists b'. split; [done|lia].
  - intros v [<-|Hin]%elem_of_cons; [|by apply IH2].
    assert (exists b', update_baseline best {[ p := v ]} !! p = Some b' /\ v <= b') as (b1 & H1 & Hle).
    { unfold update_baseline. rewrite (proj2 (exactly_one_Some _ p v) eq_refl), lookup_insert_eq.
      eexists. split; [done|]. case_match; zify_bool; lia. }
    destruct (IH1 b1 H1) as (b' & ? & ?). exists b'. split; [done|lia].
Qed.

(** A fair solution with several pairs is at least as good on each of its pairs as
    any solution that only trades that pair. *)
Lemma is_fair_baseline (by_ : ScoresBySolution) m k p v x :
  is_fair (compute_baseline_scores by_) m = true -> size m <> 1%nat ->
  by_ !! k = Some {[ p := v ]} -> m !! p = Some x -> v <= x.
Proof.
  intros Hf Hsz Hk Hx. unfold is_fair in Hf. rewrite (proj2 (Nat.eqb_neq _ _)) in Hf by done.
  cbn [orb] in Hf. rewrite forallb_forall in Hf. specialize (Hf (p, x)).
  destruct (baseline_fold (map_to_list by_).*2 ∅ p) as [_ Hb].
  destruct (Hb v) as (b & Hbl & Hle).
  { apply list_elem_of_fmap. exists (k, {[ p := v ]}). split; [done|]. by apply elem_of_map_to_list. }
  unfold compute_baseline_scores in Hf. cbn [fst snd] in Hf. rewrite Hbl in Hf.
  apply Z.leb_le in Hf; [lia|]. apply list_elem_of_In. by apply elem_of_map_to_list.
Qed.
End partition_spec.

(** C4 (safety): arbitration always returns a ranking.  At most [max_winners]
    solutions win, every directed token pair (with native token and its wrapper
    identified) is traded by at most one winner, and the selection is greedy by
    score: a solution that passed the fairness filter and does not win either
    finds all places taken or shares a token pair with a winner that scores at
    least as much.  The ranking lists winners first and higher scores first. *)
Theorem arbitrate_winners max_winners weth f g solutions context :
  exists r, arbitrate max_winners weth f g solutions context = Ret r /\
    (length (winners r) <= max_winners)%nat /\
    (forall p, (length (filter (fun s => p ∈ swapped_token_pairs weth s) (winners r)) <= 1)%nat) /\
    (forall s, s ∈ non_winners r ->
       length (winners r) = max_winners \/
       exists v, v ∈ winners r /\ rscore s <= rscore v /\
         ~ swapped_token_pairs weth s ## swapped_token_pairs weth v) /\
    StronglySorted (fun a b => by_rank a b <> Gt) (ranked r).
Proof.
  unfold arbitrate. rewrite partition_spec. cbn [comp_bind].
  set (kept := filter (fun s => fair f g context solutions s = true) _).
  set (discarded := filter _ _). eexists. split; [done|].
  unfold winners, non_winners. cbn [ranked].
  assert (CmpPreorder by_rank) by (unfold by_rank; apply _).
  pose proof (sort_by_perm by_rank (mark_winners max_winners weth kept)) as Hperm.
  split; [rewrite Hperm; apply winners_bounded|]. split; [intros p; rewrite Hperm; apply winners_disjoint|].
  split; [|apply (sort_by_sorted by_rank)].
  intros s [Hs Hin]%list_elem_of_filter. rewrite Hperm in Hin. rewrite Hperm.
  destruct (losers_blocked max_winners weth kept s) as [|(v & Hv & Hw & Hle & Hnd)];
    [apply kept_sorted|done|done|by left|right].
  exists v. split; [|done]. apply list_elem_of_filter. by rewrite Hperm.
Qed.

(** A ranked or filtered solution as it was submitted. *)
Definition submitted (s : Solution Ranked) : Solution Unscored := with_state s mkUnscored.

Lemma submitted_rank t s sc : submitted (with_rank t (with_score s sc)) = s.
Proof. by destruct s as [? ? ? ? []]. Qed.

Lemma scored_of_Some f g context s s' :
  scored_of f g context s = Some s' <->
  exists m, score_by_token_pair f g context s = Ok m /\ s' = with_score s (total_score m).
Proof. unfold scored_of. destruct (score_by_token_pair f g context s); naive_solver. Qed.

Lemma entry_lookup f g context solutions s m :
  NoDup (map key solutions) -> s ∈ solutions -> score_by_token_pair f g context s = Ok m ->
  foldl insert_entry ∅ (omap (entry_of f g context) solutions) !! key s = Some m.
Proof.
  intros Hnd Hs Hm. apply insert_entries_lookup.
  - rewrite omap_entry_keys. clear Hs Hm. induction solutions as [|t l IH]; [constructor|].
    apply NoDup_cons in Hnd as [Ht Hnd]. simpl. unfold scored_of at 1.
    destruct (score_by_token_pair f g context t); [|by apply IH]. simpl. constructor; [|by apply IH].
    intros (t' & Hk & (t0 & Ht0 & (m0 & _ & ->)%scored_of_Some)%list_elem_of_omap)%list_elem_of_fmap.
    apply Ht. apply list_elem_of_fmap. by exists t0.
  - left. apply list_elem_of_omap. exists s. split; [done|]. unfold entry_of. by rewrite Hm.
Qed.

Lemma filter_split_perm {A} (F : A -> bool) l :
  filter (fun x => F x = true) l ++ filter (fun x => F x = false) l ≡ₚ l.
Proof.
  induction l as [|x l IH]; [done|]. rewrite !filter_cons. destruct (F x) eqn:E.
  - rewrite decide_True, decide_False by done. simpl. by rewrite IH.
  - rewrite decide_False, decide_True by done. rewrite <- Permutation_middle. by rewrite IH.
Qed.

Lemma map_submitted_marked max_winners weth kept :
  map submitted (mark_winners max_winners weth kept) = map (fun s => with_state s mkUnscored) kept.
Proof.
  unfold mark_winners. generalize (pick_winners max_winners weth kept). intros w.
  rewrite <- (imap_const (fun s => with_state s mkUnscored)). apply list_eq. intros i.
  rewrite list_lookup_fmap, !list_lookup_imap. by destruct (kept !! i).
Qed.

(** Nothing is lost between scoring and ranking. *)
Lemma ranking_complete max_winners weth f g context solutions :
  let sols := sort_by by_score (omap (scored_of f g context) solutions) in
  map submitted (mark_winners max_winners weth (filter (fun s => fair f g context solutions s = true) sols))
    ++ map (fun s => submitted (with_rank FilteredOut s))
         (filter (fun s => fair f g context solutions s = false) sols)
  ≡ₚ filter (fun s => is_Some (ok (score_by_token_pair f g context s))) solutions.
Proof.
  intros sols. rewrite map_submitted_marked.
  change (fun s => submitted (with_rank FilteredOut s)) with (fun s : Solution Scored => with_state s mkUnscored).
  rewrite <- map_app, filter_split_perm. unfold sols. rewrite (sort_by_perm by_score).
  clear sols. induction solutions as [|s l IH]; [done|]. rewrite filter_cons. simpl.
  unfold scored_of at 1. destruct (score_by_token_pair f g context s) as [m|e]; simpl.
  - etrans; [|by constructor; apply IH]. by destruct s as [? ? ? ? []].
  - exact IH.
Qed.

(** C5 (functional): the fairness filter.  When solution ids are unique per solver,
    the ranking contains every submitted solution whose scores could be computed,
    exactly once, either ranked or filtered out.  A ranked solution that trades
    several directed pairs is at least as good on each of them as every submitted
    solution that trades only that pair, and a solution that trades a single pair
    is never filtered out. *)
Theorem arbitrate_fair max_winners weth f g solutions context :
  NoDup (map key solutions) ->
  exists r, arbitrate max_winners weth f g solutions context = Ret r /\
    map submitted (ranked r ++ filtered_out r)
      ≡ₚ filter (fun s => is_Some (ok (score_by_token_pair f g context s))) solutions /\
    (forall s m, s ∈ ranked r -> score_by_token_pair f g context s = Ok m -> size m <> 1%nat ->
       forall t p v x, t ∈ solutions -> score_by_token_pair f g context t = Ok {[ p := v ]} ->
         m !! p = Some x -> v <= x) /\
    (forall s m, s ∈ filtered_out r -> score_by_token_pair f g context s = Ok m -> size m <> 1%nat).
Proof.
  intros Hnd. unfold arbitrate. rewrite partition_spec. cbn [comp_bind].
  set (sols := sort_by by_score (omap (scored_of f g context) solutions)).
  set (kept := filter (fun s => fair f g context solutions s = true) sols).
  set (discarded := filter _ sols). eexists. split; [done|]. cbn [ranked filtered_out].
  assert (forall k, k ∈ sols -> exists s m, s ∈ solutions /\ score_by_token_pair f g context s = Ok m /\
    k = with_score s (total_score m) /\
    foldl insert_entry ∅ (omap (entry_of f g context) solutions) !! key s = Some m) as Hsols.
  { intros k (s & Hs & (m & Hm & ->)%scored_of_Some)%sort_by_elem%list_elem_of_omap.
    exists s, m. split; [done|]. split; [done|]. split; [done|]. by apply entry_lookup. }
  split; [|split].
  - rewrite map_app, (sort_by_perm by_rank), map_map. by apply ranking_complete.
  - intros s m Hs Hm Hsz t p v x Ht Hv Hx. apply sort_by_elem in Hs.
    apply list_elem_of_lookup in Hs as [i (k & Hk & ->)%marked_lookup].
    apply list_elem_of_lookup_2, list_elem_of_filter in Hk as [Hfair Hk].
    destruct (Hsols k Hk) as (s & m' & Hs & Hm' & -> & He).
    assert (Ok (E := ScoreError) m' = Ok m) as [= <-] by (rewrite <- Hm', <- Hm; done).
    unfold fair in Hfair. change (key (with_score s (total_score m'))) with (key s) in Hfair.
    eapply is_fair_baseline; [|exact Hsz| |exact Hx].
    + etrans; [|exact Hfair]. unfold baseline_of.
      exact (f_equal (fun a => is_fair _ (default ∅ a)) (eq_sym He)).
    + exact (entry_lookup f g context solutions t _ Hnd Ht Hv).
  - intros s m (k & -> & Hk)%list_elem_of_fmap Hm Hsz.
    apply list_elem_of_filter in Hk as [Hfair Hk].
    destruct (Hsols k Hk) as (s & m' & Hs & Hm' & -> & He).
    assert (Ok (E := ScoreError) m' = Ok m) as [= <-] by (rewrite <- Hm', <- Hm; done).
    unfold fair in Hfair. change (key (with_score s (total_score m'))) with (key s) in Hfair.
    assert (is_fair (baseline_of f g context solutions) m' = false) as Hf.
    { etrans; [|exact Hfair]. exact (f_equal (fun a => is_fair _ (default ∅ a)) (eq_sym He)). }
    unfold is_fair in Hf. by rewrite Hsz in Hf.
Qed.

(** ** Reference scores *)
Section reference_scores.
Context (max_winners : nat) (weth : address) (all : list (Solution Ranked)).

(** The score the auction would reach without a solver. *)
Definition score_without (solver : address) : Z :=
  let without := filter (fun s => sol_solver s <> solver) all in
  winning_score without (pick_winners max_winners weth without).

Definition winner_solvers (l : list (Solution Ranked)) : gset address :=
  list_to_set (map sol_solver (filter (fun s => is_winner s = true) l)).

Lemma winner_solvers_cons s l :
  winner_solvers (s :: l) = (if is_winner s then {[ sol_solver s ]} else ∅) ∪ winner_solvers l.
Proof.
  unfold winner_solvers. rewrite filter_cons. destruct (is_winner s).
  - rewrite decide_True by done. done.
  - rewrite decide_False by done. by rewrite union_empty_l_L.
Qed.

Lemma reference_scores_loop_spec todo scores n :
  (size scores <= n)%nat ->
  (n + length (filter (fun s => is_winner s = true) todo) <= max_winners)%nat ->
  map_Forall (fun solver v => v = score_without solver) scores ->
  let result := reference_scores_loop max_winners weth all todo scores in
  dom result = dom scores ∪ winner_solvers todo /\
  map_Forall (fun solver v => v = score_without solver) result.
Proof.
  revert scores n. induction todo as [|s todo IH]; intros scores n Hn Hlen Hval;
    cbn [reference_scores_loop].
  { split; [|done]. unfold winner_solvers. simpl. by rewrite union_empty_r_L. }
  rewrite filter_cons in Hlen. rewrite winner_solvers_cons.
  destruct (Nat.leb_spec max_winners (size scores)) as [Hmax|Hmax].
  { split; [|done]. unfold winner_solvers. destruct (is_winner s).
    { rewrite decide_True in Hlen by done. simpl in Hlen. lia. }
    rewrite decide_False in Hlen by done.
    destruct (filter (fun s => is_winner s = true) todo); [|simpl in Hlen; lia].
    simpl. by rewrite !union_empty_r_L. }
  destruct (bool_decide_reflect (is_Some (scores !! sol_solver s))) as [Hin|Hnin].
  - destruct (is_winner s).
    + rewrite decide_True in Hlen by done. cbn [length] in Hlen.
      destruct (IH scores (S n)) as [Hdom Hv]; [lia|lia|done|]. split; [|done]. rewrite Hdom.
      apply elem_of_dom in Hin. set_solver.
    + rewrite decide_False in Hlen by done. destruct (IH scores n) as [Hdom Hv]; [lia|lia|done|].
      split; [|done]. rewrite Hdom. set_solver.
  - destruct (is_winner s); cbn [negb].
    + rewrite decide_True in Hlen by done. cbn [length] in Hlen.
      destruct (IH (<[sol_solver s := score_without (sol_solver s)]> scores) (S n)) as [Hdom Hv].
      * rewrite map_size_insert. destruct (scores !! sol_solver s); simpl; lia.
      * lia.
      * apply map_Forall_insert_2; done.
      * split; [|done]. etrans; [exact Hdom|]. rewrite dom_insert_L. set_solver.
    + rewrite decide_False in Hlen by done. destruct (IH scores n) as [Hdom Hv]; [lia|lia|done|].
      split; [|done]. rewrite Hdom. set_solver.
Qed.
End reference_scores.

(** Every solver with a winning solution gets a reference score,
    and no other solver does: stopping after [max_winners] entries never cuts one
    off.  A solver's reference score is the total score of the winners that would
    be picked from the ranking without that solver's solutions. *)
Theorem reference_scores_cover_winners max_winners weth f g solutions context r :
  arbitrate max_winners weth f g solutions context = Ret r ->
  dom (compute_reference_scores max_winners weth r) = winner_solvers (ranked r) /\
  forall solver v, compute_reference_scores max_winners weth r !! solver = Some v ->
    v = score_without max_winners weth (ranked r) solver.
Proof.
  intros Hr. unfold arbitrate in Hr. rewrite partition_spec in Hr. cbn [comp_bind] in Hr.
  injection Hr as <-. cbn [ranked]. unfold compute_reference_scores. cbn [ranked].
  set (kept := filter (fun s => fair f g context solutions s = true) _).
  destruct (reference_scores_loop_spec max_winners weth (sort_by by_rank (mark_winners max_winners weth kept))
    (sort_by by_rank (mark_winners max_winners weth kept)) ∅ 0) as [Hdom Hval].
  - rewrite map_size_empty. lia.
  - rewrite (sort_by_perm by_rank). apply winners_bounded.
  - apply map_Forall_empty.
  - split; [etrans; [exact Hdom|]; rewrite dom_empty_L; set_solver|]. intros solver v. apply Hval.
Qed.

(** ** Examples *)
Definition arb_order (uid sell buy executed_buy : Z) : Order :=
  mkOrder uid sell buy 1000 900 1000 executed_buy Sell.
Definition arb_prices : gmap address Z := {[ 10 := 1; 20 := 1; 30 := 1 ]}.
Definition arb_context : AuctionContext :=
  mkAuctionContext {[ 1 := []; 2 := [] ]} ∅ {[ 20 := 10 ^ 18; 30 := 10 ^ 18 ]}.
(** The batch of the second solver is unfair to the pair (10, 20); the third
    solver's solution conflicts with the first one's. *)
Definition arb_solutions : list (Solution Unscored) :=
  [Solution_new 0 100 [arb_order 1 10 20 980] arb_prices;
   Solution_new 0 200 [arb_order 1 10 20 910; arb_order 2 10 30 999] arb_prices;
   Solution_new 0 300 [arb_order 1 10 20 940] arb_prices;
   Solution_new 1 300 [arb_order 2 10 30 930] arb_prices].
Definition arb_run : comp Ranking :=
  arbitrate 2 10 (fun _ => 0) (fun _ => None) arb_solutions arb_context.

Example arbitrate_example :
  (let! r := arb_run in
   Ret (map (fun s => (sol_solver s, rscore s, is_winner s)) (ranked r), map sol_solver (filtered_out r),
        map_to_list (compute_reference_scores 2 10 r)))
  = Ret ([(100, 80, true); (300, 30, true); (300, 40, false)], [200], [(300, 80); (100, 70)]).
Proof. by vm_compute. Qed.

Lemma arbitrate_fair_witness :
  exists r, arb_run = Ret r /\ map submitted (ranked r ++ filtered_out r)
    ≡ₚ filter (fun s => is_Some (ok (score_by_token_pair (fun _ => 0) (fun _ => None) arb_context s)))
         arb_solutions.
Proof.
  destruct (arbitrate_fair 2 10 (fun _ => 0) (fun _ => None) arb_solutions arb_context) as (r & Hr & Hp & _).
  - repeat constructor; rewrite ?elem_of_cons, ?elem_of_nil; vm_compute; intros H;
      repeat match goal with H : _ \/ _ |- _ => destruct H end; congruence.
  - exists r. split; [exact Hr|exact Hp].
Defined.

Lemma reference_scores_cover_winners_witness :
  exists r, arb_run = Ret r /\ dom (compute_reference_scores 2 10 r) = winner_solvers (ranked r).
Proof.
  destruct arb_run as [r|] eqn:E; [|vm_compute in E; discriminate E].
  exists r. split; [reflexivity|].
  exact (proj1 (reference_scores_cover_winners 2 10 (fun _ => 0) (fun _ => None) arb_solutions arb_context r E)).
Defined.
