(* ===== verification/DriverOrder.v ===== *)
(** * DriverOrder: the driver's orders and the amounts offered to solvers

    [crates/driver/src/util/math.rs],
    [crates/driver/src/domain/competition/order/mod.rs] with [fees.rs],
    [signature.rs] and [app_data.rs], and the prices of
    [crates/driver/src/domain/competition/auction.rs].

    An order uid is its 56 bytes read as a big-endian number, as in [Score]; the
    newtypes [TargetAmount], [SellAmount] and [TokenAmount] are their [U256].  The
    side of an order and its native token constant are those of [Score]. *)

From stdpp Require Import base gmap sets list strings.
From Stdlib Require Import ZArith Lia.
From S2P Require Import Prelude Collections F64 Eth Liquidity Solution Score.

Open Scope Z_scope.

(** ** Ratios *)

(** [x * q / d] rounding down; the product is taken in 512 bits when it does not
    fit in 256. *)
Definition mul_ratio (x q d : Z) : option Z :=
  if d =? 0 then None
  else match checked_mul x q with
       | Some res => Some (res / d)
       | None => let div := x * q / d in if fits 256 div then Some div else None
       end.

(** [x * q / d] rounding up. *)
Definition mul_ratio_ceil (x q d : Z) : option Z :=
  if d =? 0 then None
  else
    let round p := if p mod d =? 0 then 0 else 1 in
    match checked_mul x q with
    | Some p => checked_add (p / d) (round p)
    | None => let p := x * q in
              let? result := if fits 256 (p / d) then Some (p / d) else None in
              checked_add result (round p)
    end.

(** ** Orders *)
Inductive Kind := Market | Limit.

Inductive SellTokenBalance := SellErc20 | SellInternal | SellExternal.
Inductive BuyTokenBalance := BuyErc20 | BuyInternal.

#[export] Instance SellTokenBalance_eq_dec : EqDecision SellTokenBalance.
Proof. solve_decision. Defined.
#[export] Instance SellTokenBalance_countable : Countable SellTokenBalance.
Proof.
  refine (inj_countable'
    (fun b => match b with SellErc20 => 0 | SellInternal => 1 | SellExternal => 2 end)
    (fun n => if n =? 0 then SellErc20 else if n =? 1 then SellInternal else SellExternal) _).
  by intros [].
Defined.

Inductive Scheme := Eip712 | EthSign | Eip1271 | PreSign.
Record Signature := mkSignature { sig_scheme : Scheme; sig_data : list Z; sig_signer : address }.

Inductive Partial := PartialYes (available : Z) | PartialNo.

Record Quote := mkQuote {
  quote_sell : Asset;
  quote_buy : Asset;
  quote_fee : Asset;
  quote_solver : address;
}.

Inductive FeePolicy :=
| Surplus (factor max_volume_factor : f64)
| PriceImprovement (factor max_volume_factor : f64) (quote : Quote)
| Volume (factor : f64).

(** Validated app data, as far as the driver reads it. *)
Record ValidatedAppData := mkValidatedAppData {
  vad_hash : Z;
  vad_flashloan : option FlashloanHint;
}.
Inductive AppData := AppDataHash (hash : Z) | AppDataFull (data : ValidatedAppData).

Definition AppData_hash (a : AppData) : Z :=
  match a with AppDataHash h => h | AppDataFull d => vad_hash d end.
Definition AppData_flashloan (a : AppData) : option FlashloanHint :=
  match a with AppDataHash _ => None | AppDataFull d => vad_flashloan d end.

Record Order := mkOrder {
  order_uid : Z;
  order_receiver : option address;
  order_created : Z;
  order_valid_to : Z;
  order_buy : Asset;
  order_sell : Asset;
  order_side : Side;
  order_kind : Kind;
  order_app_data : AppData;
  order_partial : Partial;
  order_pre_interactions : list EthInteraction;
  order_post_interactions : list EthInteraction;
  order_sell_token_balance : SellTokenBalance;
  order_buy_token_balance : BuyTokenBalance;
  order_signature : Signature;
  order_protocol_fees : list FeePolicy;
  order_quote : option Quote;
}.

Definition with_partial (partial : Partial) (o : Order) : Order :=
  mkOrder (order_uid o) (order_receiver o) (order_created o) (order_valid_to o) (order_buy o)
    (order_sell o) (order_side o) (order_kind o) (order_app_data o) partial
    (order_pre_interactions o) (order_post_interactions o) (order_sell_token_balance o)
    (order_buy_token_balance o) (order_signature o) (order_protocol_fees o) (order_quote o).

Definition with_app_data (data : AppData) (o : Order) : Order :=
  mkOrder (order_uid o) (order_receiver o) (order_created o) (order_valid_to o) (order_buy o)
    (order_sell o) (order_side o) (order_kind o) data (order_partial o)
    (order_pre_interactions o) (order_post_interactions o) (order_sell_token_balance o)
    (order_buy_token_balance o) (order_signature o) (order_protocol_fees o) (order_quote o).

Definition target (o : Order) : Z :=
  match order_side o with
  | Buy => asset_amount (order_buy o)
  | Sell => asset_amount (order_sell o)
  end.

Definition trader (o : Order) : address := sig_signer (order_signature o).
Definition buys_eth (o : Order) : bool := asset_token (order_buy o) =? NATIVE_TOKEN.
Definition solver_determines_fee (o : Order) : bool :=
  match order_kind o with Limit => true | Market => false end.

(** The amounts handed to a solver: those of the order, scaled to what is
    available of a partially fillable one. *)
Record Available := mkAvailable { av_sell : Asset; av_buy : Asset }.

Definition available (o : Order) : Available :=
  match order_partial o with
  | PartialNo => mkAvailable (order_sell o) (order_buy o)
  | PartialYes available =>
      mkAvailable
        (mkAsset (asset_token (order_sell o))
           (default 0 (mul_ratio (asset_amount (order_sell o)) available (target o))))
        (mkAsset (asset_token (order_buy o))
           (default 0 (mul_ratio_ceil (asset_amount (order_buy o)) available (target o))))
  end.

Definition Available_is_zero (a : Available) : bool :=
  (asset_amount (av_sell a) =? 0) || (asset_amount (av_buy a) =? 0).

(** ** Uids *)
Definition Uid_from_parts (order_hash owner valid_to : Z) : Z :=
  Z.lor (Z.lor (Z.shiftl order_hash 192) (Z.shiftl owner 32)) valid_to.
Definition Uid_parts (uid : Z) : Z * Z * Z :=
  (Z.shiftr uid 192, Z.land (Z.shiftr uid 32) (2 ^ 160 - 1), Z.land uid (2 ^ 32 - 1)).
Definition Uid_owner (uid : Z) : Z := (Uid_parts uid).1.2.
Definition Uid_valid_to (uid : Z) : Z := (Uid_parts uid).2.

(** ** Prices *)

(** [Price::in_eth] and [Price::from_eth]: the operators of [U256] wrap. *)
Definition in_eth (price amount : Z) : Z := wrapping_mul amount price / PRICE_BASE.
Definition from_eth (price amount : Z) : comp Z := div_u256 (wrapping_mul amount PRICE_BASE) price.

(** ** Just-in-time orders *)
Record JitOrder := mkJitOrder {
  jo_sell : Asset;
  jo_buy : Asset;
  jo_receiver : address;
  jo_valid_to : Z;
  jo_partially_fillable : bool;
  jo_app_data : Z;
  jo_side : Side;
  jo_sell_token_balance : SellTokenBalance;
  jo_buy_token_balance : BuyTokenBalance;
  jo_signature : Signature;
  jo_uid : Z;
}.

Definition Jit_target (o : JitOrder) : Z :=
  match jo_side o with
  | Buy => asset_amount (jo_buy o)
  | Sell => asset_amount (jo_sell o)
  end.

(** [Jit::partially_fillable]: just-in-time orders are fill-or-kill. *)
Definition Jit_partial (o : JitOrder) : Partial := PartialNo.

(** ** Ratios are exact *)
Lemma mul_ratio_Some x q d r :
  0 <= x -> 0 <= q -> 0 <= d -> mul_ratio x q d = Some r <-> d <> 0 /\ r = x * q / d /\ r <= U256_MAX.
Proof.
  intros Hx Hq Hd. unfold mul_ratio. destruct (Z.eqb_spec d 0) as [->|Hz]; [naive_solver|].
  assert (0 <= x * q / d) by (apply Z.div_pos; nia).
  destruct (checked_mul x q) as [p|] eqn:E.
  - apply checked_mul_Some in E as [-> Hp]. split; [intros [= <-]|intros (_ & -> & _)]; [|done].
    split_and!; [done|done|]. transitivity (x * q); [apply Z.div_le_upper_bound; nia|done].
  - cbv zeta. destruct (fits 256 (x * q / d)) eqn:Ef.
    + apply fits_spec in Ef. unfold U256_MAX in *. naive_solver lia.
    + split; [done|]. intros (_ & -> & Hle). enough (fits 256 (x * q / d) = true) by congruence.
      apply fits_spec. unfold U256_MAX in Hle. lia.
Qed.

Lemma ceil_mod p d : 0 < d -> p / d + (if p mod d =? 0 then 0 else 1) = div_ceil p d.
Proof.
  intros Hd. pose proof (div_ceil_spec p d Hd). pose proof (Z.div_mod p d).
  pose proof (Z.mod_pos_bound p d Hd). destruct (Z.eqb_spec (p mod d) 0); nia.
Qed.

Lemma mul_ratio_ceil_Some x q d r :
  0 <= x -> 0 <= q -> 0 <= d ->
  mul_ratio_ceil x q d = Some r <-> d <> 0 /\ r = div_ceil (x * q) d /\ r <= U256_MAX.
Proof.
  intros Hx Hq Hd. unfold mul_ratio_ceil. destruct (Z.eqb_spec d 0) as [->|Hz]; [naive_solver|].
  assert (Hc := ceil_mod (x * q) d ltac:(lia)).
  assert (0 <= x * q / d) by (apply Z.div_pos; nia).
  cbv zeta. destruct (checked_mul x q) as [p|] eqn:E.
  - apply checked_mul_Some in E as [-> Hp]. rewrite checked_add_Some, Hc. naive_solver.
  - destruct (fits 256 (x * q / d)) eqn:Ef.
    + rewrite checked_add_Some, Hc. naive_solver.
    + split; [done|]. intros (_ & -> & Hle). enough (fits 256 (x * q / d) = true) by congruence.
      apply fits_spec. unfold U256_MAX in Hle. destruct (_ =? 0); lia.
Qed.

(** Scaling never raises an order above itself, and keeps its limit price: a
    partial execution at the scaled amounts is at least as good for the user as
    the signed ones. *)
Definition order_wf (o : Order) : Prop :=
  u256 (asset_amount (order_sell o)) /\ u256 (asset_amount (order_buy o)) /\
  match order_partial o with PartialYes a => 0 <= a <= target o | PartialNo => True end.

Lemma available_sell_bounds o :
  order_wf o -> 0 <= asset_amount (av_sell (available o)) <= asset_amount (order_sell o).
Proof.
  intros (Hs & Hb & Hp). unfold available. destruct (order_partial o) as [a|]; cbn [av_sell asset_amount]; [|unfold u256 in *; lia].
  destruct (mul_ratio _ a _) as [r|] eqn:E; simpl; [|unfold u256 in *; lia].
  assert (0 <= target o) by lia. apply mul_ratio_Some in E as (Hne & -> & _); [|unfold u256 in *; lia..].
  split; [apply Z.div_pos; unfold u256 in *; nia|]. apply Z.div_le_upper_bound; unfold u256 in *; nia.
Qed.

Lemma available_u256 o :
  order_wf o -> u256 (asset_amount (av_sell (available o))) /\ u256 (asset_amount (av_buy (available o))).
Proof.
  intros Hwf. pose proof (available_sell_bounds o Hwf). destruct Hwf as (Hs & Hb & Hp).
  split; [unfold u256 in *; lia|].
  unfold available. destruct (order_partial o) as [a|]; cbn [av_buy asset_amount]; [|done].
  destruct (mul_ratio_ceil _ a _) as [r|] eqn:E; simpl; [|unfold u256; lia].
  assert (0 <= target o) by lia. apply mul_ratio_ceil_Some in E as (Hne & -> & Hle); [|unfold u256 in *; lia..].
  pose proof (div_ceil_spec (asset_amount (order_buy o) * a) (target o) ltac:(lia)).
  unfold u256, U256_MAX in *. nia.
Qed.
