(* ===== verification/OrderModel.v ===== *)
(** * OrderModel: signed orders, their hash, uid and signatures

    [crates/model/src/order.rs] (order data, EIP-712 struct hash, uid, balance and
    kind constants) and [crates/model/src/signature.rs].

    Keccak and the recovery of an ECDSA signer from a message hash are parameters.
    Byte strings are lists of bytes as integers, 32-byte words and addresses are
    integers written big-endian; the uid of an order is the integer of its 56 bytes.
    Token balances and signing schemes are those of [DriverOrder]. *)

From stdpp Require Import base gmap sets list strings.
From Stdlib Require Import ZArith Lia.
From S2P Require Import Prelude Collections F64 Eth Liquidity Solution Score DriverOrder.

Open Scope Z_scope.

(** ** Bytes *)

(** [to_be_bytes] of a number of [n] bytes. *)
Fixpoint be_bytes (n : nat) (x : Z) : list Z :=
  match n with O => [] | S n => (x / 256 ^ Z.of_nat n) mod 256 :: be_bytes n x end.

Definition from_be_bytes (l : list Z) : Z := foldl (fun acc b => acc * 256 + b) 0 l.

(** Signed 64-bit integers in two's complement. *)
Definition i64_to_be_bytes (x : Z) : list Z := be_bytes 8 (x mod 2 ^ 64).
Definition i64_from_be_bytes (l : list Z) : Z :=
  let u := from_be_bytes l in if u <? 2 ^ 63 then u else u - 2 ^ 64.

(** ** Order data *)
Record OrderData := mkOrderData {
  od_sell_token : address;
  od_buy_token : address;
  od_receiver : option address;
  od_sell_amount : Z;
  od_buy_amount : Z;
  od_valid_to : Z;
  od_app_data : Z;
  od_fee_amount : Z;
  od_kind : Side;
  od_partially_fillable : bool;
  od_sell_token_balance : SellTokenBalance;
  od_buy_token_balance : BuyTokenBalance;
}.

Definition TYPE_HASH : Z := 0xd5a25ba2e97094ad7d83dc28a6572da797d6b3e7fc6663bd93efb789fc17e489.
Definition KIND_BUY : Z := 0x6ed88e868af0a1983e3886d5f3e95a2fafbd6c3450bc229e27342283dc429ccc.
Definition KIND_SELL : Z := 0xf3b277728b3fee749481eb3e0b3b48980dbbab78658fc419025cb16eee346775.
Definition BALANCE_ERC20 : Z := 0x5a28e9363bb942b639270062aa6bb295f434bcdfc42c97267bf003f272060dc9.
Definition BALANCE_EXTERNAL : Z := 0xabee3b73373acd583a130924aad6dc38cfdc44ba0555ba94ce2ff63980ea0632.
Definition BALANCE_INTERNAL : Z := 0x4ac99ace14ee0a5ef932dc609df0943ab7ac16b7583634612f8dc35a4289a6ce.

Definition kind_bytes (kind : Side) : Z := match kind with Sell => KIND_SELL | Buy => KIND_BUY end.
Definition kind_from_contract_bytes (bytes : Z) : option Side :=
  if bytes =? KIND_SELL then Some Sell else if bytes =? KIND_BUY then Some Buy else None.

Definition sell_source_bytes (b : SellTokenBalance) : Z :=
  match b with SellErc20 => BALANCE_ERC20 | SellExternal => BALANCE_EXTERNAL | SellInternal => BALANCE_INTERNAL end.
Definition sell_source_from_contract_bytes (bytes : Z) : option SellTokenBalance :=
  if bytes =? BALANCE_ERC20 then Some SellErc20
  else if bytes =? BALANCE_EXTERNAL then Some SellExternal
  else if bytes =? BALANCE_INTERNAL then Some SellInternal else None.

Definition buy_destination_bytes (b : BuyTokenBalance) : Z :=
  match b with BuyErc20 => BALANCE_ERC20 | BuyInternal => BALANCE_INTERNAL end.
Definition buy_destination_from_contract_bytes (bytes : Z) : option BuyTokenBalance :=
  if bytes =? BALANCE_ERC20 then Some BuyErc20
  else if bytes =? BALANCE_INTERNAL then Some BuyInternal else None.

(** The 13 words of 32 bytes that are hashed: addresses, the timestamp and the flag
    are right-aligned in their words. *)
Definition hash_words (d : OrderData) : list Z :=
  [TYPE_HASH; od_sell_token d; od_buy_token d; default 0 (od_receiver d); od_sell_amount d;
   od_buy_amount d; od_valid_to d; od_app_data d; od_fee_amount d; kind_bytes (od_kind d);
   Z.b2z (od_partially_fillable d); sell_source_bytes (od_sell_token_balance d);
   buy_destination_bytes (od_buy_token_balance d)].

Definition hash_data (d : OrderData) : list Z := hash_words d ≫= be_bytes 32.

(** [OrderData::within_market] on the amounts of a quote; the sums wrap. *)
Definition within_market (d : OrderData) (quote_sell quote_buy quote_fee : Z) : bool :=
  wrapping_add quote_sell quote_fee * od_buy_amount d
    <=? wrapping_add (od_sell_amount d) (od_fee_amount d) * quote_buy.

(** ** Signatures *)
Record Ecdsa := mkEcdsa { ecdsa_r : Z; ecdsa_s : Z; ecdsa_v : Z }.

Inductive OrderSignature :=
| SigEip712 (signature : Ecdsa)
| SigEthSign (signature : Ecdsa)
| SigEip1271 (signature : list Z)
| SigPreSign.

Definition Ecdsa_to_bytes (s : Ecdsa) : list Z := be_bytes 32 (ecdsa_r s) ++ be_bytes 32 (ecdsa_s s) ++ [ecdsa_v s].

(** The recovery id is normalized to 27 or 28. *)
Definition Ecdsa_from_bytes (bytes : list Z) : option Ecdsa :=
  let v := default 0 (bytes !! 64%nat) in
  let? v := if (v =? 0) || (v =? 27) then Some 27
            else if (v =? 1) || (v =? 28) then Some 28 else None in
  Some (mkEcdsa (from_be_bytes (take 32 bytes)) (from_be_bytes (take 32 (drop 32 bytes))) v).

Definition OrderSignature_from_bytes (scheme : Scheme) (bytes : list Z) : option OrderSignature :=
  match scheme with
  | Eip712 | EthSign =>
      if bool_decide (length bytes = 65%nat) then
        let? s := Ecdsa_from_bytes bytes in
        Some match scheme with EthSign => SigEthSign s | _ => SigEip712 s end
      else None
  | Eip1271 => Some (SigEip1271 bytes)
  | PreSign =>
      if bool_decide (bytes = []) || bool_decide (length bytes = 20%nat) then Some SigPreSign else None
  end.

Definition OrderSignature_to_bytes (s : OrderSignature) : list Z :=
  match s with
  | SigEip712 s | SigEthSign s => Ecdsa_to_bytes s
  | SigEip1271 bytes => bytes
  | SigPreSign => []
  end.

Definition OrderSignature_scheme (s : OrderSignature) : Scheme :=
  match s with
  | SigEip712 _ => Eip712 | SigEthSign _ => EthSign | SigEip1271 _ => Eip1271 | SigPreSign => PreSign
  end.

Definition encode_for_settlement (s : OrderSignature) (owner : address) : list Z :=
  match s with
  | SigEip712 s | SigEthSign s => Ecdsa_to_bytes s
  | SigEip1271 bytes => be_bytes 20 owner ++ bytes
  | SigPreSign => be_bytes 20 owner
  end.

Section hashing.
Context (keccak256 : list Z -> Z) (ecrecover : list Z -> Z -> option address).

Definition hash_struct (d : OrderData) : Z := keccak256 (hash_data d).

Definition hashed_eip712_message (domain_separator struct_hash : Z) : Z :=
  keccak256 ([0x19; 0x01] ++ be_bytes 32 domain_separator ++ be_bytes 32 struct_hash).

(** "\x19Ethereum Signed Message:\n32". *)
Definition ETHSIGN_PREFIX : list Z :=
  [0x19; 0x45; 0x74; 0x68; 0x65; 0x72; 0x65; 0x75; 0x6d; 0x20; 0x53; 0x69; 0x67; 0x6e; 0x65; 0x64;
   0x20; 0x4d; 0x65; 0x73; 0x73; 0x61; 0x67; 0x65; 0x3a; 0x0a; 0x33; 0x32].

Definition hashed_ethsign_message (domain_separator struct_hash : Z) : Z :=
  keccak256 (ETHSIGN_PREFIX ++ be_bytes 32 (hashed_eip712_message domain_separator struct_hash)).

Definition uid (d : OrderData) (domain_separator : Z) (owner : address) : Z :=
  Uid_from_parts (hashed_eip712_message domain_separator (hash_struct d)) owner (od_valid_to d).

(** [Signature::recover]: the recovered signer of the ECDSA schemes. *)
Definition recover (s : OrderSignature) (domain_separator struct_hash : Z) : option (option address) :=
  match s with
  | SigEip712 s => Some <$> ecrecover (Ecdsa_to_bytes s) (hashed_eip712_message domain_separator struct_hash)
  | SigEthSign s => Some <$> ecrecover (Ecdsa_to_bytes s) (hashed_ethsign_message domain_separator struct_hash)
  | _ => Some None
  end.

(** [Signature::recover_owner]: taking 20 bytes of too short a signature panics. *)
Definition recover_owner (s : OrderSignature) (signature : list Z) (domain_separator struct_hash : Z)
  : comp (option address) :=
  match s with
  | SigEip712 _ | SigEthSign _ => Ret (let? r := recover s domain_separator struct_hash in r)
  | SigEip1271 _ =>
      if (length signature <? 20)%nat then Panic else Ret (Some (from_be_bytes (take 20 signature)))
  | SigPreSign =>
      if bool_decide (length signature = 20%nat) then Ret (Some (from_be_bytes signature)) else Panic
  end.
End hashing.

(** ** Bytes determine numbers *)
Lemma length_be_bytes n x : length (be_bytes n x) = n.
Proof. induction n; simpl; congruence. Qed.

Lemma foldl_be_bytes n acc x :
  0 <= x -> foldl (fun acc b => acc * 256 + b) acc (be_bytes n x) = acc * 256 ^ Z.of_nat n + x mod 256 ^ Z.of_nat n.
Proof.
  intros Hx. revert acc. induction n as [|n IH]; intros acc; [simpl; rewrite Z.mod_1_r; lia|].
  cbn [be_bytes foldl]. rewrite IH. rewrite Nat2Z.inj_succ, Z.pow_succ_r by lia.
  set (p := 256 ^ Z.of_nat n). assert (0 < p) by (apply Z.pow_pos_nonneg; lia).
  rewrite (Z.mul_comm 256 p), Z.rem_mul_r by lia. ring.
Qed.

Lemma from_be_bytes_be_bytes n x : 0 <= x < 256 ^ Z.of_nat n -> from_be_bytes (be_bytes n x) = x.
Proof.
  intros Hx. unfold from_be_bytes. rewrite foldl_be_bytes by lia. rewrite Z.mod_small by lia. lia.
Qed.

Lemma i64_round_trip x : - 2 ^ 63 <= x < 2 ^ 63 -> i64_from_be_bytes (i64_to_be_bytes x) = x.
Proof.
  intros Hx. unfold i64_from_be_bytes, i64_to_be_bytes.
  rewrite from_be_bytes_be_bytes by (pose proof (Z.mod_pos_bound x (2 ^ 64)); lia). cbv zeta.
  destruct (decide (0 <= x)) as [Hp|Hn].
  - rewrite Z.mod_small by lia. by rewrite (proj2 (Z.ltb_lt _ _)) by lia.
  - replace (x mod 2 ^ 64) with (x + 2 ^ 64) by (apply (Z.mod_unique_pos _ _ (-1)); lia).
    rewrite (proj2 (Z.ltb_ge _ _)) by lia. lia.
Qed.

Lemma be_bytes_inj n x y :
  0 <= x < 256 ^ Z.of_nat n -> 0 <= y < 256 ^ Z.of_nat n -> be_bytes n x = be_bytes n y -> x = y.
Proof. intros Hx Hy E. rewrite <-(from_be_bytes_be_bytes n x), <-(from_be_bytes_be_bytes n y), E; done. Qed.

Lemma be_bytes_app_inj n x y l k :
  0 <= x < 256 ^ Z.of_nat n -> 0 <= y < 256 ^ Z.of_nat n ->
  be_bytes n x ++ l = be_bytes n y ++ k -> x = y /\ l = k.
Proof.
  intros Hx Hy E. apply app_inj_1 in E as [E ->]; [|by rewrite !length_be_bytes].
  split; [by apply (be_bytes_inj n)|done].
Qed.

Lemma words_inj (l k : list Z) :
  Forall u256 l -> Forall u256 k -> l ≫= be_bytes 32 = k ≫= be_bytes 32 -> l = k.
Proof.
  intros Hl. revert k. induction Hl as [|x l Hx _ IH]; intros [|y k] Hk E; [done|discriminate E..|].
  apply Forall_cons in Hk as [Hy Hk]. cbn [mbind list_bind] in E.
  apply be_bytes_app_inj in E as [-> E]; [|exact Hx|exact Hy]. f_equal. by apply IH.
Qed.

(** ** Orders are identified by their uid *)
Record order_data_wf (d : OrderData) : Prop := {
  odw_sell_token : 0 <= od_sell_token d < 2 ^ 160;
  odw_buy_token : 0 <= od_buy_token d < 2 ^ 160;
  odw_receiver : 0 <= default 0 (od_receiver d) < 2 ^ 160;
  odw_sell_amount : u256 (od_sell_amount d);
  odw_buy_amount : u256 (od_buy_amount d);
  odw_valid_to : 0 <= od_valid_to d < 2 ^ 32;
  odw_app_data : u256 (od_app_data d);
  odw_fee_amount : u256 (od_fee_amount d);
}.

(** A missing receiver and the zero address are the same to the contract. *)
Definition normalized (d : OrderData) : OrderData :=
  mkOrderData (od_sell_token d) (od_buy_token d) (Some (default 0 (od_receiver d))) (od_sell_amount d)
    (od_buy_amount d) (od_valid_to d) (od_app_data d) (od_fee_amount d) (od_kind d)
    (od_partially_fillable d) (od_sell_token_balance d) (od_buy_token_balance d).

Lemma kind_round_trip k : kind_from_contract_bytes (kind_bytes k) = Some k.
Proof. by destruct k. Qed.
Lemma sell_source_round_trip b : sell_source_from_contract_bytes (sell_source_bytes b) = Some b.
Proof. by destruct b. Qed.
Lemma buy_destination_round_trip b : buy_destination_from_contract_bytes (buy_destination_bytes b) = Some b.
Proof. by destruct b. Qed.

Lemma kind_bytes_u256 k : u256 (kind_bytes k).
Proof. destruct k; split; first [discriminate|reflexivity]. Qed.
Lemma sell_source_bytes_u256 b : u256 (sell_source_bytes b).
Proof. destruct b; split; first [discriminate|reflexivity]. Qed.
Lemma buy_destination_bytes_u256 b : u256 (buy_destination_bytes b).
Proof. destruct b; split; first [discriminate|reflexivity]. Qed.

Lemma width_u256 w x : 0 <= w <= 256 -> 0 <= x < 2 ^ w -> u256 x.
Proof. intros Hw Hx. pose proof (Z.pow_le_mono_r 2 w 256). unfold u256. lia. Qed.

Lemma hash_words_u256 d : order_data_wf d -> Forall u256 (hash_words d).
Proof.
  intros []. unfold hash_words.
  repeat apply Forall_cons_2; [..|apply Forall_nil_2];
    auto using kind_bytes_u256, sell_source_bytes_u256, buy_destination_bytes_u256;
    try by (eapply width_u256; [|eassumption]; lia).
  - split; first [discriminate|reflexivity].
  - destruct (od_partially_fillable d); split; first [discriminate|reflexivity].
Qed.

Lemma hash_data_inj d d' :
  order_data_wf d -> order_data_wf d' -> hash_data d = hash_data d' -> normalized d = normalized d'.
Proof.
  intros Hd Hd' E. apply words_inj in E; [|by apply hash_words_u256..].
  unfold hash_words in E. injection E as Hst Hbt Hr Hsa Hba Hvt Had Hfa Hk Hp Hss Hbd.
  assert (od_kind d = od_kind d') by (apply (inj Some); rewrite <-!kind_round_trip; congruence).
  assert (od_sell_token_balance d = od_sell_token_balance d')
    by (apply (inj Some); rewrite <-!sell_source_round_trip; congruence).
  assert (od_buy_token_balance d = od_buy_token_balance d')
    by (apply (inj Some); rewrite <-!buy_destination_round_trip; congruence).
  assert (od_partially_fillable d = od_partially_fillable d')
    by (destruct (od_partially_fillable d), (od_partially_fillable d'); done).
  unfold normalized. congruence.
Qed.

Lemma Uid_from_parts_sum h o v :
  0 <= h -> 0 <= o < 2 ^ 160 -> 0 <= v < 2 ^ 32 -> Uid_from_parts h o v = (h * 2 ^ 160 + o) * 2 ^ 32 + v.
Proof.
  intros Hh Ho Hv. unfold Uid_from_parts.
  assert (Hlor : forall a b w, 0 <= w -> 0 <= b < 2 ^ w -> Z.lor (Z.shiftl a w) b = a * 2 ^ w + b).
  { intros a b w Hw Hb. rewrite Z.shiftl_mul_pow2 by lia.
    enough (Hl : Z.land (a * 2 ^ w) b = 0) by (by rewrite Z.add_nocarry_lxor, Z.lxor_lor).
    apply Z.bits_inj'. intros n Hn. rewrite Z.land_spec, Z.bits_0.
    destruct (decide (n < w)) as [Hlt|Hge].
    - by rewrite Z.mul_pow2_bits_low by lia.
    - replace b with (b mod 2 ^ w) by (apply Z.mod_small; lia).
      rewrite Z.mod_pow2_bits_high by lia. apply andb_false_r. }
  replace (Z.shiftl h 192) with (Z.shiftl (Z.shiftl h 160) 32) by (rewrite Z.shiftl_shiftl by lia; done).
  rewrite <-Z.shiftl_lor, Hlor, Hlor by lia. done.
Qed.

Section uids.
Context (keccak256 : list Z -> Z).
Context (keccak_width : forall l, 0 <= keccak256 l < 2 ^ 256).

(** The uid of an order identifies what its owner signed.  Two orders of
    the same uid have the same owner and the same data, up to writing a missing
    receiver as the zero address, or their hashing exhibits a collision of Keccak. *)
Theorem uid_identifies_order domain d d' owner owner' :
  order_data_wf d -> order_data_wf d' -> 0 <= domain < 2 ^ 256 ->
  0 <= owner < 2 ^ 160 -> 0 <= owner' < 2 ^ 160 ->
  uid keccak256 d domain owner = uid keccak256 d' domain owner' ->
  (owner = owner' /\ normalized d = normalized d') \/
  exists m m', m <> m' /\ keccak256 m = keccak256 m'.
Proof.
  intros Hd Hd' Hdom Ho Ho' E. unfold uid in E.
  pose proof (odw_valid_to d Hd) as Hv. pose proof (odw_valid_to d' Hd') as Hv'.
  unfold hashed_eip712_message in E.
  set (m := [25; 1] ++ _ ++ be_bytes 32 (hash_struct keccak256 d)) in E.
  set (m' := [25; 1] ++ _ ++ be_bytes 32 (hash_struct keccak256 d')) in E.
  pose proof (keccak_width m). pose proof (keccak_width m').
  rewrite !Uid_from_parts_sum in E by lia.
  assert (keccak256 m = keccak256 m' /\ owner = owner') as [Em ->] by lia.
  destruct (decide (m = m')) as [Emm|]; [|right; by exists m, m'].
  unfold m, m' in Emm. apply app_inv_head, app_inv_head in Emm.
  apply (be_bytes_inj 32) in Emm; [|apply keccak_width..]. unfold hash_struct in Emm.
  destruct (decide (hash_data d = hash_data d')) as [Eh|Hne]; [left|right; eauto].
  split; [done|]. by apply hash_data_inj.
Qed.
End uids.

(** ** Owners are recovered from encoded signatures *)
Section signatures.
Context (keccak256 : list Z -> Z) (ecrecover : list Z -> Z -> option address).

(** A signature together with the owner it is encoded for: the ECDSA schemes recover
    it, the others carry any address. *)
Definition signed_by (s : OrderSignature) (domain struct_hash : Z) (owner : address) : Prop :=
  match s with
  | SigEip712 e | SigEthSign e =>
      u256 (ecdsa_r e) /\ u256 (ecdsa_s e) /\ (ecdsa_v e = 27 \/ ecdsa_v e = 28) /\
      recover keccak256 ecrecover s domain struct_hash = Some (Some owner)
  | SigEip1271 _ | SigPreSign => 0 <= owner < 2 ^ 160
  end.

Lemma Ecdsa_round_trip e :
  u256 (ecdsa_r e) -> u256 (ecdsa_s e) -> (ecdsa_v e = 27 \/ ecdsa_v e = 28) ->
  Ecdsa_from_bytes (Ecdsa_to_bytes e) = Some e.
Proof.
  intros Hr Hs Hv. destruct e as [r s v]. cbn [ecdsa_r ecdsa_s ecdsa_v] in *.
  unfold Ecdsa_from_bytes, Ecdsa_to_bytes. cbn [ecdsa_r ecdsa_s ecdsa_v].
  rewrite lookup_app_r, length_be_bytes, lookup_app_r, length_be_bytes by (rewrite ?length_be_bytes; lia).
  rewrite take_app_le, take_ge, drop_app_ge, length_be_bytes by (rewrite ?length_be_bytes; lia).
  rewrite drop_0, take_app_le, take_ge by (rewrite ?length_be_bytes; lia).
  rewrite !from_be_bytes_be_bytes by done. by destruct Hv as [->| ->].
Qed.

Lemma length_Ecdsa_to_bytes e : length (Ecdsa_to_bytes e) = 65%nat.
Proof. unfold Ecdsa_to_bytes. by rewrite !length_app, !length_be_bytes. Qed.

(** Signatures whose recovery id is normalized. *)
Definition signature_wf (s : OrderSignature) : Prop :=
  match s with
  | SigEip712 e | SigEthSign e => u256 (ecdsa_r e) /\ u256 (ecdsa_s e) /\ (ecdsa_v e = 27 \/ ecdsa_v e = 28)
  | SigEip1271 _ | SigPreSign => True
  end.

Lemma OrderSignature_round_trip s :
  signature_wf s -> OrderSignature_from_bytes (OrderSignature_scheme s) (OrderSignature_to_bytes s) = Some s.
Proof.
  destruct s as [e|e|bytes|]; cbn [signature_wf OrderSignature_scheme OrderSignature_to_bytes OrderSignature_from_bytes]; [..|done|done].
  all: intros (Hr & Hs & Hv); rewrite bool_decide_true by apply length_Ecdsa_to_bytes; by rewrite Ecdsa_round_trip.
Qed.

(** What [encode_for_settlement] writes is parsed back under the signature's scheme
    and its owner is recovered, as the comment of [recover_owner] promises. *)
Lemma recover_owner_encoded s domain struct_hash owner :
  signed_by s domain struct_hash owner ->
  exists s', OrderSignature_from_bytes (OrderSignature_scheme s) (encode_for_settlement s owner) = Some s' /\
    recover_owner keccak256 ecrecover s' (encode_for_settlement s owner) domain struct_hash = Ret (Some owner).
Proof.
  destruct s as [e|e|bytes|]; cbn [signed_by OrderSignature_scheme encode_for_settlement OrderSignature_from_bytes].
  - intros (Hr & Hs & Hv & Hrec). rewrite bool_decide_true by apply length_Ecdsa_to_bytes.
    rewrite Ecdsa_round_trip by done. eexists. split; [done|]. cbn [recover_owner]. by rewrite Hrec.
  - intros (Hr & Hs & Hv & Hrec). rewrite bool_decide_true by apply length_Ecdsa_to_bytes.
    rewrite Ecdsa_round_trip by done. eexists. split; [done|]. cbn [recover_owner]. by rewrite Hrec.
  - intros Ho. eexists. split; [done|]. cbn [recover_owner].
    rewrite length_app, length_be_bytes, take_app_le, take_ge by (rewrite ?length_be_bytes; lia).
    by rewrite from_be_bytes_be_bytes.
  - intros Ho. rewrite (bool_decide_true (length _ = 20%nat)) by apply length_be_bytes.
    rewrite orb_true_r. eexists. split; [done|]. cbn [recover_owner].
    rewrite bool_decide_true by apply length_be_bytes. by rewrite from_be_bytes_be_bytes.
Qed.
End signatures.

(** ** Examples *)

(** A hash that is not Keccak, to evaluate the definitions. *)
Definition sample_keccak (l : list Z) : Z := foldl (fun acc b => acc * 31 + b) 7 l mod 2 ^ 256.

Definition sample_order_data : OrderData :=
  mkOrderData 1 2 None 1000 900 1700000000 5 0 Sell false SellErc20 BuyErc20.

Lemma sample_order_data_wf : order_data_wf sample_order_data.
Proof. split; split; first [discriminate|reflexivity]. Qed.

Lemma sample_keccak_width l : 0 <= sample_keccak l < 2 ^ 256.
Proof. apply Z.mod_pos_bound. lia. Qed.

Lemma uid_identifies_order_witness :
  (7 = 7 /\ normalized sample_order_data = normalized (normalized sample_order_data)) \/
  exists m m', m <> m' /\ sample_keccak m = sample_keccak m'.
Proof.
  apply (uid_identifies_order sample_keccak sample_keccak_width 3 sample_order_data
           (normalized sample_order_data) 7 7);
    [exact sample_order_data_wf|split; split; first [discriminate|reflexivity]|lia|lia|lia|].
  vm_compute. reflexivity.
Defined.
