(* ===== verification/DriverTrade.v ===== *)
(** * DriverTrade: the trades of a driver's solution and their protocol fees

    [crates/driver/src/domain/competition/solution/trade.rs] and [fee.rs]: a
    fulfillment executes an order of the auction at uniform clearing prices, with a
    fee in the sell token and a haircut; the driver takes the protocol fees of the
    order out of it before the solution is scored and encoded.

    Clearing prices (uniform and custom), price limits and math errors are the
    records of [Score], which have the fields of the driver's. *)

From stdpp Require Import base gmap sets list strings.
From Stdlib Require Import ZArith Lia SpecFloat.
From S2P Require Import Prelude Collections F64 Eth Liquidity Solution Score DriverOrder.

Open Scope Z_scope.

(** ** Errors *)
Inductive TradeError :=
| TradeProtocolFeeOnStaticOrder
| InvalidExecutedAmount
| TradeMath (e : MathError).

Inductive FeeError :=
| ProtocolFeeOnStaticOrder
| FeeMath (e : MathError)
| FeeFulfillment (e : TradeError).

(** [?] with the [From] conversions of the errors. *)
Definition map_err {E F A} (f : E -> F) (r : result E A) : result F A :=
  match r with Ok a => Ok a | Err e => Err (f e) end.

Lemma map_err_Ok {E F A} (f : E -> F) (r : result E A) a : map_err f r = Ok a <-> r = Ok a.
Proof. destruct r; simpl; naive_solver. Qed.

(** ** Fulfillments *)
Inductive Fee := Static | Dynamic (fee : Z).

Record Fulfillment := mkFulfillment {
  f_order : DriverOrder.Order;
  f_executed : Z;
  f_fee : Fee;
  f_haircut_fee : Z;
}.

Definition valid_execution (order : DriverOrder.Order) (executed_with_fee : Z) : bool :=
  match order_partial order with
  | PartialYes available => executed_with_fee <=? available
  | PartialNo => executed_with_fee =? target order
  end.

Definition valid_fee (order : DriverOrder.Order) (fee : Fee) : bool :=
  match fee with
  | Static => negb (solver_determines_fee order)
  | Dynamic _ => solver_determines_fee order
  end.

Definition fee_in_target (order : DriverOrder.Order) (fee : Fee) : Z :=
  match order_side order with
  | Buy => 0
  | Sell => match fee with Static => 0 | Dynamic fee => fee end
  end.

Definition Fulfillment_new (order : DriverOrder.Order) (executed : Z) (fee : Fee) (haircut_fee : Z)
  : result TradeError Fulfillment :=
  letr executed_with_fee :=
    ok_or (checked_add executed (fee_in_target order fee)) InvalidExecutedAmount in
  if valid_execution order executed_with_fee && valid_fee order fee
  then Ok (mkFulfillment order executed fee haircut_fee)
  else Err InvalidExecutedAmount.

Definition Fulfillment_fee (f : Fulfillment) : Z :=
  match f_fee f with Static => 0 | Dynamic fee => fee end.

Definition Fulfillment_surplus_fee (f : Fulfillment) : option Z :=
  match f_fee f with Static => None | Dynamic fee => Some fee end.

(** The two conversions at clearing prices that the amounts below share: how much
    is sold for an amount bought, and how much is bought for an amount sold. *)
Definition sold_for (amount : Z) (prices : ClearingPrices) : result MathError Z :=
  letr m := ok_or (checked_mul amount (price_buy prices)) Overflow in
  ok_or (checked_div m (price_sell prices)) DivisionByZero.

Definition bought_for (amount : Z) (prices : ClearingPrices) : result MathError Z :=
  letr m := ok_or (checked_mul amount (price_sell prices)) Overflow in
  ok_or (checked_ceil_div m (price_buy prices)) DivisionByZero.

Definition haircut_in_sell_token (f : Fulfillment) (prices : ClearingPrices) : result MathError Z :=
  match order_side (f_order f) with
  | Sell => Ok (f_haircut_fee f)
  | Buy => sold_for (f_haircut_fee f) prices
  end.

Definition Fulfillment_sell_amount (f : Fulfillment) (prices : ClearingPrices) : result MathError Z :=
  letr before_fee := match order_side (f_order f) with
                     | Sell => Ok (f_executed f)
                     | Buy => sold_for (f_executed f) prices
                     end in
  letr with_fee := ok_or (checked_add before_fee (Fulfillment_fee f)) Overflow in
  letr haircut := match order_side (f_order f) with
                  | Sell => Ok 0
                  | Buy => haircut_in_sell_token f prices
                  end in
  ok_or (checked_add with_fee haircut) Overflow.

Definition Fulfillment_buy_amount (f : Fulfillment) (prices : ClearingPrices) : result MathError Z :=
  match order_side (f_order f) with
  | Buy => Ok (f_executed f)
  | Sell =>
      letr base := bought_for (f_executed f) prices in
      letr m := ok_or (checked_mul (f_haircut_fee f) (price_sell prices)) Overflow in
      letr haircut_in_buy := ok_or (checked_div m (price_buy prices)) DivisionByZero in
      ok_or (checked_sub base haircut_in_buy) Negative
  end.

Definition Fulfillment_custom_prices (f : Fulfillment) (prices : ClearingPrices)
  : result MathError ClearingPrices :=
  letr sell := Fulfillment_buy_amount f prices in
  letr buy := Fulfillment_sell_amount f prices in
  Ok (mkClearingPrices sell buy).

Definition surplus_over_reference_price (f : Fulfillment) (limit_sell limit_buy : Z)
  (prices : ClearingPrices) : result TradeError Z :=
  let executed := f_executed f in
  letr executed_sell_amount :=
    map_err TradeMath match order_side (f_order f) with
                      | Buy => sold_for executed prices
                      | Sell => Ok executed
                      end in
  letr surplus_fee := ok_or (Fulfillment_surplus_fee f) TradeProtocolFeeOnStaticOrder in
  map_err TradeMath
    (letr executed_sell_amount_with_fee :=
       ok_or (checked_add executed_sell_amount surplus_fee) Overflow in
     match order_side (f_order f) with
     | Buy =>
         letr m := ok_or (checked_mul limit_sell executed) Overflow in
         letr limit_sell_amount := ok_or (checked_div m limit_buy) DivisionByZero in
         Ok (default 0 (checked_sub limit_sell_amount executed_sell_amount_with_fee))
     | Sell =>
         letr m := ok_or (checked_mul limit_buy executed_sell_amount_with_fee) Overflow in
         letr limit_buy_amount := ok_or (checked_ceil_div m limit_sell) DivisionByZero in
         letr executed_buy_amount := bought_for executed prices in
         Ok (default 0 (checked_sub executed_buy_amount limit_buy_amount))
     end).

(** ** Just-in-time trades *)
Record Jit := mkJit { jit_order : DriverOrder.JitOrder; jit_executed : Z; jit_fee : Z }.

Definition Jit_new (order : DriverOrder.JitOrder) (executed fee : Z) : result TradeError Jit :=
  let fee_target_amount := match jo_side order with Buy => 0 | Sell => fee end in
  letr executed_with_fee := ok_or (checked_add executed fee_target_amount) InvalidExecutedAmount in
  let is_valid := match Jit_partial order with
                  | PartialYes available => executed_with_fee <=? available
                  | PartialNo => executed_with_fee =? Jit_target order
                  end in
  if is_valid then Ok (mkJit order executed fee) else Err InvalidExecutedAmount.

Definition Jit_executed_buy (j : Jit) : result MathError Z :=
  match jo_side (jit_order j) with
  | Buy => Ok (jit_executed j)
  | Sell =>
      letr sold := ok_or (checked_add (jit_executed j) (jit_fee j)) Overflow in
      letr m := ok_or (checked_mul sold (asset_amount (jo_buy (jit_order j)))) Overflow in
      ok_or (checked_ceil_div m (asset_amount (jo_sell (jit_order j)))) DivisionByZero
  end.

Definition Jit_executed_sell (j : Jit) : result MathError Z :=
  match jo_side (jit_order j) with
  | Buy =>
      letr m := ok_or (checked_mul (jit_executed j) (asset_amount (jo_sell (jit_order j)))) Overflow in
      ok_or (checked_div m (asset_amount (jo_buy (jit_order j)))) DivisionByZero
  | Sell => ok_or (checked_add (jit_executed j) (jit_fee j)) Overflow
  end.

Definition Jit_sell_amount (j : Jit) (prices : ClearingPrices) : result MathError Z :=
  letr before_fee := match jo_side (jit_order j) with
                     | Sell => Ok (jit_executed j)
                     | Buy => sold_for (jit_executed j) prices
                     end in
  ok_or (checked_add before_fee (jit_fee j)) Overflow.

Definition Jit_buy_amount (j : Jit) (prices : ClearingPrices) : result MathError Z :=
  match jo_side (jit_order j) with
  | Buy => Ok (jit_executed j)
  | Sell => bought_for (jit_executed j) prices
  end.

Definition Jit_custom_prices (j : Jit) (prices : ClearingPrices) : result MathError ClearingPrices :=
  letr sell := Jit_buy_amount j prices in
  letr buy := Jit_sell_amount j prices in
  Ok (mkClearingPrices sell buy).

(** ** Trades *)
Inductive Trade := TradeFulfillment (f : Fulfillment) | TradeJit (j : Jit).

Definition Trade_uid (t : Trade) : Z :=
  match t with TradeFulfillment f => order_uid (f_order f) | TradeJit j => jo_uid (jit_order j) end.
Definition Trade_side (t : Trade) : Side :=
  match t with TradeFulfillment f => order_side (f_order f) | TradeJit j => jo_side (jit_order j) end.
Definition Trade_protocol_fees (t : Trade) : list DriverOrder.FeePolicy :=
  match t with TradeFulfillment f => order_protocol_fees (f_order f) | TradeJit _ => [] end.
Definition Trade_executed (t : Trade) : Z :=
  match t with TradeFulfillment f => f_executed f | TradeJit j => jit_executed j end.
Definition Trade_fee (t : Trade) : Z :=
  match t with TradeFulfillment f => Fulfillment_fee f | TradeJit j => jit_fee j end.
Definition Trade_buy (t : Trade) : Asset :=
  match t with TradeFulfillment f => order_buy (f_order f) | TradeJit j => jo_buy (jit_order j) end.
Definition Trade_sell (t : Trade) : Asset :=
  match t with TradeFulfillment f => order_sell (f_order f) | TradeJit j => jo_sell (jit_order j) end.
Definition Trade_sell_amount (t : Trade) (prices : ClearingPrices) : result MathError Z :=
  match t with
  | TradeFulfillment f => Fulfillment_sell_amount f prices
  | TradeJit j => Jit_sell_amount j prices
  end.
Definition Trade_buy_amount (t : Trade) (prices : ClearingPrices) : result MathError Z :=
  match t with
  | TradeFulfillment f => Fulfillment_buy_amount f prices
  | TradeJit j => Jit_buy_amount j prices
  end.
Definition Trade_custom_prices (t : Trade) (prices : ClearingPrices) : result MathError ClearingPrices :=
  match t with
  | TradeFulfillment f => Fulfillment_custom_prices f prices
  | TradeJit j => Jit_custom_prices j prices
  end.
Definition Order_receiver (o : DriverOrder.Order) : address :=
  default (sig_signer (order_signature o)) (order_receiver o).
Definition Trade_receiver (t : Trade) : address :=
  match t with
  | TradeFulfillment f => Order_receiver (f_order f)
  | TradeJit j => jo_receiver (jit_order j)
  end.

(** ** Protocol fees *)

(** [fee::adjust_quote_to_order_limits] on the amounts of an order and a quote. *)
Definition adjust_quote (side : Side) (sell_amount buy_amount : Z) (quote : DriverOrder.Quote)
  : result MathError PriceLimits :=
  let quote_sell_amount := asset_amount (quote_sell quote) in
  let quote_buy_amount := asset_amount (quote_buy quote) in
  let fee_amount := asset_amount (DriverOrder.quote_fee quote) in
  match side with
  | Sell =>
      letr m := ok_or (checked_mul fee_amount quote_buy_amount) Overflow in
      letr fee := ok_or (checked_div m quote_sell_amount) DivisionByZero in
      letr quote_buy := ok_or (checked_sub quote_buy_amount fee) Negative in
      letr m := ok_or (checked_mul quote_buy sell_amount) Overflow in
      letr scaled_buy_amount := ok_or (checked_div m quote_sell_amount) DivisionByZero in
      Ok (mkPriceLimits sell_amount (Z.max buy_amount scaled_buy_amount))
  | Buy =>
      letr quote_sell := ok_or (checked_add quote_sell_amount fee_amount) Overflow in
      letr m := ok_or (checked_mul quote_sell buy_amount) Overflow in
      letr scaled_sell_amount := ok_or (checked_div m quote_buy_amount) DivisionByZero in
      Ok (mkPriceLimits (Z.min sell_amount scaled_sell_amount) buy_amount)
  end.

Section protocol_fees.
Context (u256_from_f64 : f64 -> Z) (biguint_from_f64 : f64 -> option Z).

(** [TokenAmount::apply_factor]. *)
Definition apply_factor (amount : Z) (factor : f64) : option Z :=
  checked_mul_f64 u256_from_f64 biguint_from_f64 amount factor.

Definition fee_from_surplus (f : Fulfillment) (sell_amount buy_amount : Z) (prices : ClearingPrices)
  (factor : f64) : result FeeError Z :=
  letr surplus := map_err FeeFulfillment (surplus_over_reference_price f sell_amount buy_amount prices) in
  ok_or (apply_factor surplus factor) (FeeMath Overflow).

Definition fee_from_volume (f : Fulfillment) (prices : ClearingPrices) (factor : f64)
  : result FeeError Z :=
  letr volume := map_err FeeMath match order_side (f_order f) with
                                 | Buy => Fulfillment_sell_amount f prices
                                 | Sell => Fulfillment_buy_amount f prices
                                 end in
  ok_or (apply_factor volume factor) (FeeMath Overflow).

Definition calculate_fee (f : Fulfillment) (price_limits : PriceLimits) (prices : ClearingPrices)
  (factor max_volume_factor : f64) : result FeeError Z :=
  letr fee_from_surplus :=
    fee_from_surplus f (limit_sell price_limits) (limit_buy price_limits) prices factor in
  letr fee_from_volume := fee_from_volume f prices max_volume_factor in
  Ok (Z.min fee_from_surplus fee_from_volume).

Definition Fulfillment_protocol_fee (f : Fulfillment) (prices : ClearingPrices)
  (policy : DriverOrder.FeePolicy) : result FeeError Z :=
  let sell := asset_amount (order_sell (f_order f)) in
  let buy := asset_amount (order_buy (f_order f)) in
  match policy with
  | Surplus factor max_volume_factor =>
      calculate_fee f (mkPriceLimits sell buy) prices factor max_volume_factor
  | PriceImprovement factor max_volume_factor quote =>
      letr price_limits := map_err FeeMath (adjust_quote (order_side (f_order f)) sell buy quote) in
      calculate_fee f price_limits prices factor max_volume_factor
  | Volume factor => fee_from_volume f prices factor
  end.

Definition protocol_fee_in_sell_token (f : Fulfillment) (prices : ClearingPrices)
  (policy : DriverOrder.FeePolicy) : result FeeError Z :=
  letr fee := Fulfillment_protocol_fee f prices policy in
  match order_side (f_order f) with
  | Buy => Ok fee
  | Sell => map_err FeeMath (sold_for fee prices)
  end.

Definition with_protocol_fee (f : Fulfillment) (prices : ClearingPrices)
  (policy : DriverOrder.FeePolicy) : result FeeError Fulfillment :=
  letr protocol_fee := protocol_fee_in_sell_token f prices policy in
  letr fee := match Fulfillment_surplus_fee f with
              | None => if negb (protocol_fee =? 0) then Err ProtocolFeeOnStaticOrder else Ok Static
              | Some fee => letr fee := ok_or (checked_add fee protocol_fee) (FeeMath Overflow) in
                            Ok (Dynamic fee)
              end in
  letr executed := match order_side (f_order f) with
                   | Buy => Ok (f_executed f)
                   | Sell => ok_or (checked_sub (f_executed f) protocol_fee) (FeeMath Overflow)
                   end in
  map_err FeeFulfillment (Fulfillment_new (f_order f) executed fee (f_haircut_fee f)).

(** The loop of [with_protocol_fees] over the policies of the order. *)
Fixpoint apply_policies (f : Fulfillment) (prices : ClearingPrices)
  (policies : list DriverOrder.FeePolicy) : result FeeError Fulfillment :=
  match policies with
  | [] => Ok f
  | policy :: policies => letr f := with_protocol_fee f prices policy in
                          apply_policies f prices policies
  end.

Definition with_protocol_fees (f : Fulfillment) (prices : ClearingPrices) : result FeeError Fulfillment :=
  apply_policies f prices (order_protocol_fees (f_order f)).
End protocol_fees.

(** ** Valid fulfillments *)

(** What [Fulfillment::new] checks. *)
Definition fulfillment_valid (f : Fulfillment) : Prop :=
  f_executed f + fee_in_target (f_order f) (f_fee f) <= U256_MAX /\
  valid_execution (f_order f) (f_executed f + fee_in_target (f_order f) (f_fee f)) = true /\
  valid_fee (f_order f) (f_fee f) = true.

Lemma Fulfillment_new_Ok order executed fee haircut f :
  Fulfillment_new order executed fee haircut = Ok f <->
  f = mkFulfillment order executed fee haircut /\ fulfillment_valid f.
Proof.
  unfold Fulfillment_new, fulfillment_valid. split.
  - intros H. apply result_bind_Ok in H as (a & [-> Ha]%ok_or_Ok%checked_add_Some & H).
    destruct (_ && _) eqn:E; [|done]. injection H as <-. cbn.
    apply andb_true_iff in E. tauto.
  - intros (-> & Hle & He & Hf). cbn in *.
    replace (checked_add _ _) with (Some (executed + fee_in_target order fee))
      by (symmetry; by apply checked_add_Some).
    cbn. by rewrite He, Hf.
Qed.

(** The conversions at clearing prices, exactly. *)
Lemma sold_for_Ok a p r :
  sold_for a p = Ok r <->
  a * price_buy p <= U256_MAX /\ price_sell p <> 0 /\ r = a * price_buy p / price_sell p.
Proof.
  unfold sold_for. rewrite result_bind_Ok. setoid_rewrite ok_or_Ok.
  setoid_rewrite checked_mul_Some. setoid_rewrite checked_div_Some. naive_solver.
Qed.

Lemma bought_for_Ok a p r :
  bought_for a p = Ok r <->
  a * price_sell p <= U256_MAX /\ price_buy p <> 0 /\ r = div_ceil (a * price_sell p) (price_buy p).
Proof.
  unfold bought_for. rewrite result_bind_Ok. setoid_rewrite ok_or_Ok.
  setoid_rewrite checked_mul_Some. setoid_rewrite checked_ceil_div_Some. naive_solver.
Qed.

(** ** The limit price *)

(** The distance of the execution at the uniform prices, its fee included, to the
    limit of the order scaled to the executed amount: what a buy order pays less
    than it, what a sell order receives more. *)
Definition limit_margin (f : Fulfillment) (p : ClearingPrices) : Z :=
  let sell := asset_amount (order_sell (f_order f)) in
  let buy := asset_amount (order_buy (f_order f)) in
  match order_side (f_order f) with
  | Buy => sell * f_executed f / buy
           - (f_executed f * price_buy p / price_sell p + Fulfillment_fee f)
  | Sell => div_ceil (f_executed f * price_sell p) (price_buy p)
            - div_ceil (buy * (f_executed f + Fulfillment_fee f)) sell
  end.

Definition prices_wf (p : ClearingPrices) : Prop := 0 < price_sell p /\ 0 < price_buy p.

Definition fulfillment_wf (f : Fulfillment) : Prop :=
  0 <= f_executed f /\ 0 <= Fulfillment_fee f /\ 0 <= f_haircut_fee f /\
  0 < asset_amount (order_sell (f_order f)) /\ 0 < asset_amount (order_buy (f_order f)).

(** A surplus that is not clipped at zero is the distance to the limit. *)
Lemma surplus_over_reference_price_Ok f ls lb p s :
  surplus_over_reference_price f ls lb p = Ok s ->
  exists fee, f_fee f = Dynamic fee /\
  match order_side (f_order f) with
  | Buy => lb <> 0 /\ price_sell p <> 0 /\
      s = Z.max 0 (ls * f_executed f / lb - (f_executed f * price_buy p / price_sell p + fee))
  | Sell => ls <> 0 /\ price_buy p <> 0 /\
      s = Z.max 0 (div_ceil (f_executed f * price_sell p) (price_buy p)
                   - div_ceil (lb * (f_executed f + fee)) ls)
  end.
Proof.
  intros H. unfold surplus_over_reference_price, Fulfillment_surplus_fee in H. cbv zeta in H.
  assert (Hsub : forall a b, default 0 (checked_sub a b) = Z.max 0 (a - b)).
  { intros a b. unfold checked_sub. destruct (Z.leb_spec b a); simpl; lia. }
  apply result_bind_Ok in H as (e & He & H).
  apply result_bind_Ok in H as (fee & Hfee & H). rewrite map_err_Ok in *.
  destruct (f_fee f) as [|fee'] eqn:Ef; [done|]. injection Hfee as <-. exists fee'. split; [done|].
  apply result_bind_Ok in H as (w & [-> _]%ok_or_Ok%checked_add_Some & H).
  destruct (order_side _).
  - apply sold_for_Ok in He as (_ & Hp & ->).
    apply result_bind_Ok in H as (m & [-> _]%ok_or_Ok%checked_mul_Some & H).
    apply result_bind_Ok in H as (l & [-> Hl]%ok_or_Ok%checked_div_Some & H).
    injection H as <-. by rewrite Hsub.
  - injection He as <-.
    apply result_bind_Ok in H as (m & [-> _]%ok_or_Ok%checked_mul_Some & H).
    apply result_bind_Ok in H as (l & [-> Hl]%ok_or_Ok%checked_ceil_div_Some & H).
    apply result_bind_Ok in H as (b & (_ & Hb & ->)%bought_for_Ok & H).
    injection H as <-. by rewrite Hsub.
Qed.

(** The limits of a quote are at least as tight as those of the order. *)
Lemma adjust_quote_tight side sell buy quote l :
  adjust_quote side sell buy quote = Ok l ->
  match side with
  | Sell => limit_sell l = sell /\ buy <= limit_buy l
  | Buy => limit_buy l = buy /\ limit_sell l <= sell
  end.
Proof.
  unfold adjust_quote. cbv zeta. intros H. destruct side.
  - apply result_bind_Ok in H as (? & _ & H). apply result_bind_Ok in H as (? & _ & H).
    apply result_bind_Ok in H as (? & _ & H). injection H as <-. cbn. lia.
  - apply result_bind_Ok in H as (? & _ & H). apply result_bind_Ok in H as (? & _ & H).
    apply result_bind_Ok in H as (? & _ & H). apply result_bind_Ok in H as (? & _ & H).
    apply result_bind_Ok in H as (? & _ & H). injection H as <-. cbn. lia.
Qed.

Lemma div_ceil_mono a b c : 0 < c -> a <= b -> div_ceil a c <= div_ceil b c.
Proof. intros Hc Hab. unfold div_ceil. apply Z.div_le_mono; lia. Qed.

Section protocol_fee_proofs.
Context (u256_from_f64 : f64 -> Z) (biguint_from_f64 : f64 -> option Z).
Hypothesis from_f64_nonneg : forall x, 0 <= u256_from_f64 x.
Local Abbreviation apply_factor := (apply_factor u256_from_f64 biguint_from_f64).
Local Abbreviation protocol_fee := (Fulfillment_protocol_fee u256_from_f64 biguint_from_f64).
Local Abbreviation with_fee := (with_protocol_fee u256_from_f64 biguint_from_f64).

(** A factor takes at most the whole of one ether. *)
Definition proper_factor (factor : f64) : bool :=
  match apply_factor (10 ^ 18) factor with Some r => r <=? 10 ^ 18 | None => false end.

(** The factor of a policy that takes a share of the surplus. *)
Definition shares_surplus (policy : DriverOrder.FeePolicy) : bool :=
  match policy with
  | Surplus factor _ | PriceImprovement factor _ _ => proper_factor factor
  | Volume _ => false
  end.

(** Applying a factor is multiplication by a fixed point number of 18 decimals. *)
Lemma apply_factor_scaled factor :
  (forall a, apply_factor a factor = None) \/
  (exists k, 0 <= k /\ forall a r, apply_factor a factor = Some r -> r = a * k / 10 ^ 18) .
Proof.
  unfold DriverTrade.apply_factor, checked_mul_f64.
  destruct (negb _ || _); [by left|]. destruct (SpecFloat.SFeqb _ _).
  { right. exists (10 ^ 18). split; [lia|]. intros a r [= <-]. by rewrite Z.div_mul. }
  cbv zeta. destruct (if SpecFloat.SFleb _ _ then _ else _) as [k|] eqn:E; [|by left].
  right. exists k. split.
  - destruct (SpecFloat.SFleb _ _); [injection E as <-; apply from_f64_nonneg|].
    destruct (biguint_from_f64 _); [|done]. destruct (fits 256 z) eqn:Ef; [|done].
    injection E as <-. apply fits_spec in Ef. lia.
  - intros a r H. destruct (checked_mul a k) eqn:Em; [|done].
    apply checked_mul_Some in Em as [-> _]. by apply checked_div_Some in H as [-> _].
Qed.

Lemma apply_factor_nonneg a factor r : 0 <= a -> apply_factor a factor = Some r -> 0 <= r.
Proof.
  intros Ha H. destruct (apply_factor_scaled factor) as [Hn|(k & Hk & Heq)]; [by rewrite Hn in H|].
  apply Heq in H as ->. apply Z.div_pos; nia.
Qed.

Lemma apply_factor_le a factor r :
  0 <= a -> proper_factor factor = true -> apply_factor a factor = Some r -> r <= a.
Proof.
  unfold proper_factor. intros Ha Hp H.
  destruct (apply_factor_scaled factor) as [Hn|(k & Hk & Heq)]; [by rewrite Hn in H|].
  destruct (apply_factor (10 ^ 18) factor) as [r'|] eqn:E; [|done].
  apply Heq in E as ->. rewrite Z.mul_comm, Z.div_mul in Hp by done.
  apply Heq in H as ->. apply Z.div_le_upper_bound; nia.
Qed.

Lemma sell_amount_nonneg f p v :
  fulfillment_wf f -> prices_wf p -> Fulfillment_sell_amount f p = Ok v -> 0 <= v.
Proof.
  intros (He & Hf & Hh & _) (Hs & Hb) H. unfold Fulfillment_sell_amount, haircut_in_sell_token in H.
  apply result_bind_Ok in H as (b & H1 & H).
  apply result_bind_Ok in H as (w & [-> _]%ok_or_Ok%checked_add_Some & H).
  apply result_bind_Ok in H as (h & H2 & [-> _]%ok_or_Ok%checked_add_Some).
  destruct (order_side _); [|injection H1 as <-; injection H2 as <-; lia].
  apply sold_for_Ok in H1 as (_ & _ & ->). apply sold_for_Ok in H2 as (_ & _ & ->).
  assert (0 <= f_executed f * price_buy p / price_sell p) by (apply Z.div_pos; nia).
  assert (0 <= f_haircut_fee f * price_buy p / price_sell p) by (apply Z.div_pos; nia). lia.
Qed.

Lemma buy_amount_nonneg f p v :
  fulfillment_wf f -> Fulfillment_buy_amount f p = Ok v -> 0 <= v.
Proof.
  intros (He & _) H. unfold Fulfillment_buy_amount in H.
  destruct (order_side _); [by injection H as <-|].
  apply result_bind_Ok in H as (b & _ & H). apply result_bind_Ok in H as (m & _ & H).
  apply result_bind_Ok in H as (h & _ & [-> ?]%ok_or_Ok%checked_sub_Some). lia.
Qed.

Lemma fee_from_volume_nonneg f p factor v :
  fulfillment_wf f -> prices_wf p ->
  fee_from_volume u256_from_f64 biguint_from_f64 f p factor = Ok v -> 0 <= v.
Proof.
  intros Hf Hp H. unfold fee_from_volume in H. apply result_bind_Ok in H as (a & Ha & H).
  apply map_err_Ok in Ha. apply ok_or_Ok in H. eapply apply_factor_nonneg; [|exact H].
  destruct (order_side _); eauto using sell_amount_nonneg, buy_amount_nonneg.
Qed.

(** A share of the surplus over limits at least as tight as the order's is not
    negative and no more than the margin. *)
Lemma fee_from_surplus_bounds f p (l : PriceLimits) factor v :
  fulfillment_wf f -> prices_wf p -> proper_factor factor = true ->
  match order_side (f_order f) with
  | Sell => limit_sell l = asset_amount (order_sell (f_order f)) /\
            asset_amount (order_buy (f_order f)) <= limit_buy l
  | Buy => limit_buy l = asset_amount (order_buy (f_order f)) /\
           limit_sell l <= asset_amount (order_sell (f_order f))
  end ->
  fee_from_surplus u256_from_f64 biguint_from_f64 f (limit_sell l) (limit_buy l) p factor = Ok v ->
  0 <= v <= Z.max 0 (limit_margin f p).
Proof.
  intros (He & Hf & _ & Hs & Hb) (Hps & Hpb) Hfac Hl H. unfold fee_from_surplus in H.
  apply result_bind_Ok in H as (s & Hsur & H). apply map_err_Ok in Hsur. apply ok_or_Ok in H.
  apply surplus_over_reference_price_Ok in Hsur as (fee & Hfee & Hsur).
  assert (Hff : Fulfillment_fee f = fee) by (unfold Fulfillment_fee; by rewrite Hfee).
  enough (Hsm : 0 <= s <= Z.max 0 (limit_margin f p)).
  { pose proof (apply_factor_nonneg _ _ _ (proj1 Hsm) H).
    pose proof (apply_factor_le _ _ _ (proj1 Hsm) Hfac H). lia. }
  unfold limit_margin. cbv zeta. rewrite Hff in *. destruct (order_side _).
  - destruct Hsur as (_ & _ & ->), Hl as [-> Hl].
    assert (limit_sell l * f_executed f / asset_amount (order_buy (f_order f))
            <= asset_amount (order_sell (f_order f)) * f_executed f
               / asset_amount (order_buy (f_order f))) by (apply Z.div_le_mono; nia). lia.
  - destruct Hsur as (_ & _ & ->), Hl as [-> Hl].
    pose proof (div_ceil_mono (asset_amount (order_buy (f_order f)) * (f_executed f + fee))
      (limit_buy l * (f_executed f + fee)) _ Hs ltac:(nia)). lia.
Qed.

Lemma calculate_fee_bounds f p (l : PriceLimits) factor max v :
  fulfillment_wf f -> prices_wf p -> proper_factor factor = true ->
  match order_side (f_order f) with
  | Sell => limit_sell l = asset_amount (order_sell (f_order f)) /\
            asset_amount (order_buy (f_order f)) <= limit_buy l
  | Buy => limit_buy l = asset_amount (order_buy (f_order f)) /\
           limit_sell l <= asset_amount (order_sell (f_order f))
  end ->
  calculate_fee u256_from_f64 biguint_from_f64 f l p factor max = Ok v ->
  0 <= v <= Z.max 0 (limit_margin f p).
Proof.
  intros Hf Hp Hfac Hl H. unfold calculate_fee in H.
  apply result_bind_Ok in H as (a & Ha & H). apply result_bind_Ok in H as (b & Hb & H).
  injection H as <-. apply fee_from_volume_nonneg in Hb; [|done..].
  eapply fee_from_surplus_bounds in Ha; [|done..]. lia.
Qed.

Lemma protocol_fee_bounds f p policy v :
  fulfillment_wf f -> prices_wf p -> shares_surplus policy = true ->
  protocol_fee f p policy = Ok v -> 0 <= v <= Z.max 0 (limit_margin f p).
Proof.
  intros Hf Hp Hpol H. destruct policy as [factor mv|factor mv quote|factor]; simpl in Hpol; [| |done].
  - eapply calculate_fee_bounds in H; [done..|]. cbn. destruct (order_side _); lia.
  - unfold Fulfillment_protocol_fee in H. cbv zeta in H.
    apply result_bind_Ok in H as (l & Hl%map_err_Ok%adjust_quote_tight & H).
    by eapply calculate_fee_bounds in H.
Qed.

Lemma protocol_fee_nonneg f p policy v :
  fulfillment_wf f -> prices_wf p -> protocol_fee f p policy = Ok v -> 0 <= v.
Proof.
  intros Hf Hp H.
  assert (Hc : forall l factor max,
    calculate_fee u256_from_f64 biguint_from_f64 f l p factor max = Ok v -> 0 <= v).
  { intros l factor max Hc. unfold calculate_fee in Hc.
    apply result_bind_Ok in Hc as (a & Ha & Hc). apply result_bind_Ok in Hc as (b & Hb & Hc).
    injection Hc as <-. apply fee_from_volume_nonneg in Hb; [|done..].
    apply result_bind_Ok in Ha as (s & Hs%map_err_Ok & Ha%ok_or_Ok).
    apply surplus_over_reference_price_Ok in Hs as (fee & _ & Hs).
    apply apply_factor_nonneg in Ha; [lia|]. destruct (order_side _); lia. }
  destruct policy as [factor mv|factor mv quote|factor].
  - eauto.
  - apply result_bind_Ok in H as (l & _ & H). eauto.
  - by apply fee_from_volume_nonneg in H.
Qed.

(** One policy: the fee in the sell token moves from the executed amount of a sell
    order to its fee, and is charged on top for a buy order. *)
Lemma with_protocol_fee_Ok f p policy f' :
  with_fee f p policy = Ok f' ->
  fulfillment_valid f' /\ f_order f' = f_order f /\ f_haircut_fee f' = f_haircut_fee f /\
  exists v, protocol_fee f p policy = Ok v /\
  match order_side (f_order f) with
  | Buy => f_executed f' = f_executed f /\ Fulfillment_fee f' = Fulfillment_fee f + v
  | Sell => let d := v * price_buy p / price_sell p in
            d <= f_executed f /\ f_executed f' = f_executed f - d /\
            Fulfillment_fee f' = Fulfillment_fee f + d
  end.
Proof.
  intros H. unfold with_protocol_fee, protocol_fee_in_sell_token in H.
  apply result_bind_Ok in H as (d & Hd & H). apply result_bind_Ok in Hd as (v & Hv & Hd).
  apply result_bind_Ok in H as (fee & Hfee & H). apply result_bind_Ok in H as (e & He & H).
  apply map_err_Ok, Fulfillment_new_Ok in H as [-> Hval]. cbn [f_order f_haircut_fee f_executed].
  split_and!; [done..|]. exists v. split; [done|].
  assert (Hf : match fee with Static => 0 | Dynamic fee => fee end = Fulfillment_fee f + d).
  { unfold Fulfillment_surplus_fee in Hfee. unfold Fulfillment_fee. destruct (f_fee f).
    - destruct (Z.eqb_spec d 0) as [->|]; [|done]. by injection Hfee as <-.
    - apply result_bind_Ok in Hfee as (x & [-> _]%ok_or_Ok%checked_add_Some & Hfee).
      by injection Hfee as <-. }
  destruct (order_side _).
  - injection Hd as ->. by injection He as <-.
  - apply map_err_Ok, sold_for_Ok in Hd as (_ & _ & ->).
    by apply ok_or_Ok, checked_sub_Some in He as [-> ?].
Qed.

(** The margin pays the fee. *)
Lemma with_protocol_fee_margin f p policy f' :
  fulfillment_wf f -> prices_wf p -> shares_surplus policy = true ->
  with_fee f p policy = Ok f' -> 0 <= limit_margin f p -> 0 <= limit_margin f' p.
Proof.
  intros Hf Hp Hpol H Hm. apply with_protocol_fee_Ok in H as (_ & Ho & _ & v & Hv & H).
  apply protocol_fee_bounds in Hv; [|done..]. rewrite Z.max_r in Hv by done.
  unfold limit_margin in *. cbv zeta in *. rewrite Ho. destruct (order_side _).
  - destruct H as [-> ->]. lia.
  - destruct H as (_ & -> & ->), Hp as [Hps Hpb].
    set (d := v * price_buy p / price_sell p) in *.
    replace (f_executed f - d + (Fulfillment_fee f + d)) with (f_executed f + Fulfillment_fee f) by lia.
    enough (div_ceil (f_executed f * price_sell p) (price_buy p) - v
            <= div_ceil ((f_executed f - d) * price_sell p) (price_buy p)) by lia.
    assert (price_sell p * d <= v * price_buy p) by (apply Z.mul_div_le; lia).
    enough (div_ceil (f_executed f * price_sell p) (price_buy p)
            <= div_ceil ((f_executed f - d) * price_sell p) (price_buy p) + v) by lia.
    apply div_ceil_le; [done|].
    pose proof (div_ceil_spec ((f_executed f - d) * price_sell p) (price_buy p) Hpb). nia.
Qed.

Lemma with_protocol_fee_wf f p policy f' :
  fulfillment_wf f -> prices_wf p -> with_fee f p policy = Ok f' ->
  fulfillment_wf f' /\ Fulfillment_fee f <= Fulfillment_fee f'.
Proof.
  intros Hf Hp H. apply with_protocol_fee_Ok in H as (_ & Ho & Hh & v & Hv & H).
  apply protocol_fee_nonneg in Hv; [|done..]. destruct Hf as (He & Hfee & Hhc & Hs & Hb), Hp as [Hps Hpb].
  unfold fulfillment_wf. rewrite Ho, Hh. destruct (order_side _).
  - destruct H as [-> ->]. lia.
  - cbv zeta in H. assert (0 <= v * price_buy p / price_sell p) by (apply Z.div_pos; nia). lia.
Qed.

(** What holds of a fulfillment that took protocol fees. *)
Definition charged (f f' : Fulfillment) : Prop :=
  f_order f' = f_order f /\ f_haircut_fee f' = f_haircut_fee f /\
  Fulfillment_fee f <= Fulfillment_fee f' /\
  match order_side (f_order f) with
  | Buy => f_executed f' = f_executed f
  | Sell => 0 <= f_executed f' /\ f_executed f' + Fulfillment_fee f' = f_executed f + Fulfillment_fee f
  end.

Lemma apply_policies_charged policies f p f' :
  fulfillment_wf f -> prices_wf p -> fulfillment_valid f ->
  apply_policies u256_from_f64 biguint_from_f64 f p policies = Ok f' ->
  charged f f' /\ fulfillment_valid f' /\ fulfillment_wf f'.
Proof.
  revert f. induction policies as [|policy policies IH]; intros f Hf Hp Hval H; simpl in H.
  { injection H as <-. destruct Hf as (? & ? & ?). unfold charged, fulfillment_wf.
    destruct (order_side _); split_and!; auto; try lia; done. }
  apply result_bind_Ok in H as (f1 & H1 & H).
  destruct (with_protocol_fee_wf _ _ _ _ Hf Hp H1) as [Hwf1 Hle].
  apply with_protocol_fee_Ok in H1 as (Hval1 & Ho & Hh & v & _ & H1).
  apply IH in H as ((Ho' & Hh' & Hle' & H) & Hval' & Hwf'); [|done..].
  split; [|done]. unfold charged. rewrite Ho', Hh', Ho, Hh in *.
  split_and!; [done..|lia|]. destruct (order_side _); cbv zeta in *; lia.
Qed.

(** Taking the protocol fees of an order keeps its fulfillment
    valid, for the same order and haircut: the fee in the sell token only grows; a
    buy order still receives all it bought; what a sell order sells, fee included,
    stays the same, the fees coming out of the executed amount. *)
Theorem protocol_fees_conserve f p f' :
  fulfillment_wf f -> prices_wf p -> fulfillment_valid f ->
  with_protocol_fees u256_from_f64 biguint_from_f64 f p = Ok f' ->
  charged f f' /\ fulfillment_valid f'.
Proof.
  intros Hf Hp Hval H. unfold with_protocol_fees in H.
  apply apply_policies_charged in H as (? & ? & _); done.
Qed.

End protocol_fee_proofs.

(** ** Examples *)
Definition half : f64 := f64_div (f64_lit 1) (f64_lit 2).

(** Selling 1000 for at least 900, quoted at 950, with a fee on the surplus and one
    on the improvement over the quote. *)
Definition fee_order (side : Side) : DriverOrder.Order :=
  DriverOrder.mkOrder 1 None 0 100 (mkAsset 2 900) (mkAsset 1 1000) side Limit (AppDataHash 0) PartialNo
    [] [] SellErc20 BuyErc20 (DriverOrder.mkSignature Eip712 [] 9)
    [Surplus half half;
     PriceImprovement half half
       (DriverOrder.mkQuote (mkAsset 1 1000) (mkAsset 2 950) (mkAsset 1 0) 7)] None.

Definition sell_fulfillment : Fulfillment := mkFulfillment (fee_order Sell) 990 (Dynamic 10) 0.
Definition fee_prices : ClearingPrices := mkClearingPrices 100 100.

Example fee_examples :
  with_protocol_fees f64_trunc (fun _ => None) sell_fulfillment fee_prices
    = Ok (mkFulfillment (fee_order Sell) 945 (Dynamic 55) 0) /\
  with_protocol_fees f64_trunc (fun _ => None) (mkFulfillment (fee_order Buy) 900 (Dynamic 10) 0) fee_prices
    = Ok (mkFulfillment (fee_order Buy) 900 (Dynamic 55) 0) /\
  with_protocol_fees f64_trunc (fun _ => None) (mkFulfillment (fee_order Sell) 990 (Dynamic 9) 0) fee_prices
    = Err (FeeFulfillment InvalidExecutedAmount) /\
  limit_margin sell_fulfillment fee_prices = 90 /\
  limit_margin (mkFulfillment (fee_order Sell) 945 (Dynamic 55) 0) fee_prices = 45.
Proof. split_and!; vm_compute; reflexivity. Qed.

(** A fee on the volume is taken whatever the limit: the seller of 1000 for at least 990
    who gets 1000 at the uniform prices is left with 500. *)
Example volume_fee_breaks_limit :
  let order := DriverOrder.mkOrder 1 None 0 100 (mkAsset 2 990) (mkAsset 1 1000) Sell Limit (AppDataHash 0) PartialNo
    [] [] SellErc20 BuyErc20 (DriverOrder.mkSignature Eip712 [] 9) [Volume half] None in
  with_protocol_fees f64_trunc (fun _ => None) (mkFulfillment order 1000 (Dynamic 0) 0) fee_prices
    = Ok (mkFulfillment order 500 (Dynamic 500) 0) /\
  limit_margin (mkFulfillment order 1000 (Dynamic 0) 0) fee_prices = 10 /\
  limit_margin (mkFulfillment order 500 (Dynamic 500) 0) fee_prices = -490.
Proof. split_and!; vm_compute; reflexivity. Qed.

Lemma sell_fulfillment_wf : fulfillment_wf sell_fulfillment /\ prices_wf fee_prices.
Proof. unfold fulfillment_wf, prices_wf; cbn; lia. Qed.

Lemma protocol_fees_conserve_witness :
  charged sell_fulfillment (mkFulfillment (fee_order Sell) 945 (Dynamic 55) 0) /\
  fulfillment_valid (mkFulfillment (fee_order Sell) 945 (Dynamic 55) 0).
Proof.
  apply (protocol_fees_conserve f64_trunc (fun _ => None) f64_trunc_nonneg sell_fulfillment fee_prices).
  - apply sell_fulfillment_wf.
  - apply sell_fulfillment_wf.
  - split_and!; vm_compute; congruence.
  - apply fee_examples.
Defined.

