(* ===== verification/DriverScore.v ===== *)
(** * DriverScore: the driver's own score of its trades

    [crates/driver/src/domain/competition/solution/scoring.rs]: the driver scores a
    solution before it bids, with the amounts that will appear on chain.  The
    auctioneer recomputes the score from the driver's response ([Score]); the two
    computations are shown to agree. *)

From stdpp Require Import base gmap sets list strings.
From Stdlib Require Import ZArith Lia SpecFloat.
From S2P Require Import Prelude Collections F64 Eth Liquidity Solution Score DriverOrder DriverTrade.

Open Scope Z_scope.

(** ** Trades as the settlement contract sees them *)
Record ScoredTrade := mkScoredTrade {
  signed_sell : Asset;
  signed_buy : Asset;
  st_side : Side;
  st_executed : Z;
  custom_price : ClearingPrices;
  policies : list DriverOrder.FeePolicy;
}.

Definition with_custom_price (prices : ClearingPrices) (t : ScoredTrade) : ScoredTrade :=
  mkScoredTrade (signed_sell t) (signed_buy t) (st_side t) (st_executed t) prices (policies t).

Inductive ScoringError := MissingPrice (token : address) | ScoringMath (e : MathError).

(** ** Surplus and amounts *)
Definition st_surplus_over (t : ScoredTrade) (price_limits : PriceLimits) : result MathError Z :=
  match st_side t with
  | Buy =>
      letr m := ok_or (checked_mul (limit_sell price_limits) (st_executed t)) Overflow in
      letr limit_sell := ok_or (checked_div m (limit_buy price_limits)) DivisionByZero in
      letr m := ok_or (checked_mul (st_executed t) (price_buy (custom_price t))) Overflow in
      letr sold := ok_or (checked_div m (price_sell (custom_price t))) DivisionByZero in
      ok_or (checked_sub limit_sell sold) Negative
  | Sell =>
      letr m := ok_or (checked_mul (st_executed t) (limit_buy price_limits)) Overflow in
      letr limit_buy := ok_or (checked_ceil_div m (limit_sell price_limits)) DivisionByZero in
      letr m := ok_or (checked_mul (st_executed t) (price_sell (custom_price t))) Overflow in
      letr bought := ok_or (checked_ceil_div m (price_buy (custom_price t))) DivisionByZero in
      ok_or (checked_sub bought limit_buy) Negative
  end.

Definition st_sell_amount (t : ScoredTrade) : result MathError Z :=
  match st_side t with
  | Sell => Ok (st_executed t)
  | Buy => letr m := ok_or (checked_mul (st_executed t) (price_buy (custom_price t))) Overflow in
           ok_or (checked_div m (price_sell (custom_price t))) DivisionByZero
  end.

Definition st_buy_amount (t : ScoredTrade) : result MathError Z :=
  match st_side t with
  | Sell => letr m := ok_or (checked_mul (st_executed t) (price_sell (custom_price t))) Overflow in
            ok_or (checked_ceil_div m (price_buy (custom_price t))) DivisionByZero
  | Buy => Ok (st_executed t)
  end.

Definition st_calculate_custom_prices (t : ScoredTrade) (protocol_fee : Z)
  : result MathError ClearingPrices :=
  letr sell := match st_side t with
               | Sell => letr buy_amount := st_buy_amount t in
                         ok_or (checked_add buy_amount protocol_fee) Overflow
               | Buy => st_buy_amount t
               end in
  letr buy := match st_side t with
              | Sell => st_sell_amount t
              | Buy => letr sell_amount := st_sell_amount t in
                       ok_or (checked_sub sell_amount protocol_fee) Negative
              end in
  Ok (mkClearingPrices sell buy).

Definition st_user_surplus (t : ScoredTrade) : result MathError Z :=
  st_surplus_over t (mkPriceLimits (asset_amount (signed_sell t)) (asset_amount (signed_buy t))).

Definition st_price_improvement (t : ScoredTrade) (quote : DriverOrder.Quote) : result MathError Z :=
  letr quote := adjust_quote (st_side t) (asset_amount (signed_sell t)) (asset_amount (signed_buy t))
                  quote in
  match st_surplus_over t quote with
  | Err Negative => Ok 0
  | surplus => surplus
  end.

(** ** Fees and score *)
Section scoring.
Context (u256_from_f64 : f64 -> Z) (biguint_from_f64 : f64 -> option Z).
Local Abbreviation mul_f64 := (checked_mul_f64 u256_from_f64 biguint_from_f64).

Definition st_fee (surplus : Z) (factor : f64) : result MathError Z :=
  ok_or (mul_f64 surplus (f64_div factor (f64_sub (f64_lit 1) factor))) Overflow.

Definition st_volume_fee (t : ScoredTrade) (factor : f64) : result MathError Z :=
  letr executed_in_surplus_token := match st_side t with
                                    | Buy => st_sell_amount t
                                    | Sell => st_buy_amount t
                                    end in
  let factor := match st_side t with
                | Sell => f64_div factor (f64_sub (f64_lit 1) factor)
                | Buy => f64_div factor (f64_add (f64_lit 1) factor)
                end in
  ok_or (mul_f64 executed_in_surplus_token factor) Overflow.

Definition st_protocol_fee (t : ScoredTrade) (fee_policy : DriverOrder.FeePolicy) : result MathError Z :=
  match fee_policy with
  | Surplus factor max_volume_factor =>
      letr surplus := st_user_surplus t in
      letr fee := st_fee surplus factor in
      letr volume_fee := st_volume_fee t max_volume_factor in
      Ok (Z.min fee volume_fee)
  | PriceImprovement factor max_volume_factor quote =>
      letr price_improvement := st_price_improvement t quote in
      letr fee := st_fee price_improvement factor in
      letr volume_fee := st_volume_fee t max_volume_factor in
      Ok (Z.min fee volume_fee)
  | Volume factor => st_volume_fee t factor
  end.

(** The loop of [fees] over the policies in reverse: the fees are taken out of the
    prices of the trade itself, [t], one after the other. *)
Fixpoint st_fees_loop (t current_trade : ScoredTrade) (policies : list DriverOrder.FeePolicy)
  (total : Z) : result MathError Z :=
  match policies with
  | [] => Ok total
  | policy :: policies =>
      letr fee := st_protocol_fee current_trade policy in
      letr total := ok_or (checked_add total fee) Overflow in
      letr prices := st_calculate_custom_prices t total in
      st_fees_loop t (with_custom_price prices current_trade) policies total
  end.

Definition st_fees (t : ScoredTrade) : result MathError Z :=
  st_fees_loop t t (reverse (policies t)) 0.

(** The surplus and the fees of a trade, in its buy token. *)
Definition surplus_in_buy_tokens (t : ScoredTrade) : result MathError Z :=
  letr surplus := st_user_surplus t in
  letr fees := st_fees t in
  letr surplus_in_surplus_token := ok_or (checked_add surplus fees) Overflow in
  match st_side t with
  | Sell => Ok surplus_in_surplus_token
  | Buy =>
      letr wide := ok_or (checked_div (surplus_in_surplus_token * asset_amount (signed_buy t))
                            (asset_amount (signed_sell t))) DivisionByZero in
      ok_or (if fits 256 wide then Some wide else None) Overflow
  end.

Definition st_score (native_prices : gmap address Z) (t : ScoredTrade) : result ScoringError Z :=
  letr native_price_buy := ok_or (native_prices !! asset_token (signed_buy t))
                             (MissingPrice (asset_token (signed_buy t))) in
  letr amount := map_err ScoringMath (surplus_in_buy_tokens t) in
  Ok (in_eth native_price_buy amount).

(** [compute_score]: the sum stops at the first error; adding ether wraps. *)
Fixpoint compute_score (native_prices : gmap address Z) (trades : list ScoredTrade) (sum : Z)
  : result ScoringError Z :=
  match trades with
  | [] => Ok sum
  | t :: trades => letr score := st_score native_prices t in
                   compute_score native_prices trades (wrapping_add sum score)
  end.
End scoring.

(** ** The auctioneer's view of a trade *)

(** The fee policies of the auction, as winner selection has them. *)
Definition ws_policy (policy : DriverOrder.FeePolicy) : Score.FeePolicy :=
  match policy with
  | Surplus factor max_volume_factor => Score.Surplus factor max_volume_factor
  | PriceImprovement factor max_volume_factor q =>
      Score.PriceImprovement factor max_volume_factor
        (Score.mkQuote (asset_amount (quote_sell q)) (asset_amount (quote_buy q))
           (asset_amount (DriverOrder.quote_fee q)) (DriverOrder.quote_solver q))
  | Volume factor => Score.Volume factor
  end.

(** An order whose executed amounts are the custom prices of the trade. *)
Definition ws_order (uid : Z) (t : ScoredTrade) : Score.Order :=
  Score.mkOrder uid (asset_token (signed_sell t)) (asset_token (signed_buy t))
    (asset_amount (signed_sell t)) (asset_amount (signed_buy t))
    (price_buy (custom_price t)) (price_sell (custom_price t)) (st_side t).

(** The executed amount of the trade is the custom price of its target token. *)
Definition executed_consistent (t : ScoredTrade) : Prop :=
  match st_side t with
  | Sell => price_buy (custom_price t) = st_executed t
  | Buy => price_sell (custom_price t) = st_executed t
  end.

Section agreement.
Context (u256_from_f64 : f64 -> Z) (biguint_from_f64 : f64 -> option Z).
(** The trade as submitted: only its custom prices change while its fees are
    unwound. *)
Context (uid : Z) (t : ScoredTrade) (Ht : executed_consistent t).
Local Abbreviation order := (ws_order uid t).

Lemma surplus_over_agrees prices limits :
  st_surplus_over (with_custom_price prices t) limits = surplus_over order prices limits.
Proof.
  unfold st_surplus_over, surplus_over, executed_consistent in *. simpl.
  destruct (st_side t); by rewrite Ht.
Qed.

Lemma sell_amount_agrees prices : st_sell_amount (with_custom_price prices t) = sell_amount order prices.
Proof.
  unfold st_sell_amount, sell_amount, executed_consistent in *. simpl.
  destruct (st_side t); by rewrite Ht.
Qed.

Lemma buy_amount_agrees prices : st_buy_amount (with_custom_price prices t) = buy_amount order prices.
Proof.
  unfold st_buy_amount, buy_amount, executed_consistent in *. simpl.
  destruct (st_side t); by rewrite Ht.
Qed.

Lemma volume_fee_agrees prices factor :
  st_volume_fee u256_from_f64 biguint_from_f64 (with_custom_price prices t) factor
  = volume_fee u256_from_f64 biguint_from_f64 order prices factor.
Proof.
  unfold st_volume_fee, volume_fee. rewrite sell_amount_agrees, buy_amount_agrees. simpl.
  by destruct (st_side t).
Qed.

Lemma price_improvement_agrees prices f m q sq :
  ws_policy (PriceImprovement f m q) = Score.PriceImprovement f m sq ->
  st_price_improvement (with_custom_price prices t) q
  = price_improvement_over_quote order prices sq.
Proof.
  intros [= <-]. unfold st_price_improvement, price_improvement_over_quote.
  assert (Ha : adjust_quote (st_side t) (asset_amount (signed_sell t)) (asset_amount (signed_buy t)) q
    = adjust_quote_to_order_limits order (Score.mkQuote (asset_amount (quote_sell q))
        (asset_amount (quote_buy q)) (asset_amount (DriverOrder.quote_fee q)) (DriverOrder.quote_solver q))).
  { unfold adjust_quote, adjust_quote_to_order_limits. simpl. by destruct (st_side t). }
  simpl. rewrite Ha. destruct (adjust_quote_to_order_limits _ _) as [l|e]; [|done]. simpl.
  rewrite surplus_over_agrees. by destruct (surplus_over _ _ _) as [|[]].
Qed.

Lemma protocol_fee_agrees prices policy :
  st_protocol_fee u256_from_f64 biguint_from_f64 (with_custom_price prices t) policy
  = protocol_fee u256_from_f64 biguint_from_f64 order (ws_policy policy) prices.
Proof.
  destruct policy as [f m|f m q|f].
  - simpl. unfold st_user_surplus, surplus_over_limit_price. rewrite surplus_over_agrees.
    by setoid_rewrite volume_fee_agrees.
  - unfold st_protocol_fee, protocol_fee. cbn [ws_policy].
    rewrite (price_improvement_agrees prices f m q _ eq_refl).
    by setoid_rewrite volume_fee_agrees.
  - apply volume_fee_agrees.
Qed.

Lemma custom_prices_agree fee prices :
  st_calculate_custom_prices t fee = Ok prices <->
  calculate_custom_prices order fee (custom_price t) = Ok prices.
Proof.
  assert (Hself : with_custom_price (custom_price t) t = t) by by destruct t.
  unfold st_calculate_custom_prices, calculate_custom_prices.
  rewrite <-(sell_amount_agrees (custom_price t)), <-(buy_amount_agrees (custom_price t)), Hself. simpl.
  destruct (st_side t), (st_sell_amount t), (st_buy_amount t); simpl; try done;
    by destruct (ok_or _ _).
Qed.

(** The driver also recomputes the prices after the last policy, which can only
    fail: when its fees are known, the auctioneer finds the same. *)
Lemma fees_loop_agrees ps prices total r :
  st_fees_loop u256_from_f64 biguint_from_f64 t (with_custom_price prices t) ps total = Ok r ->
  protocol_fees_loop u256_from_f64 biguint_from_f64 order (custom_price t) (ws_policy <$> ps) total prices
  = Ok r.
Proof.
  revert prices total. induction ps as [|policy ps IH]; intros prices total H; [injection H as <-; reflexivity|].
  simpl in *. rewrite protocol_fee_agrees in H.
  apply result_bind_Ok in H as (fee & -> & H). apply result_bind_Ok in H as (total' & Ht' & H).
  apply result_bind_Ok in H as (prices' & Hp & H). simpl.
  apply ok_or_Ok in Ht' as ->. simpl. apply custom_prices_agree in Hp.
  apply IH in H. destruct ps as [|policy' ps]; simpl in *; [done|]. by rewrite Hp.
Qed.

Lemma surplus_agrees s : st_user_surplus t = Ok s -> surplus_over_limit_price order (custom_price t) = Ok s.
Proof.
  intros H. unfold surplus_over_limit_price. rewrite <-surplus_over_agrees.
  by replace (with_custom_price (custom_price t) t) with t by by destruct t.
Qed.

(** The trade scored by the driver and the order of its response scored by the
    auctioneer. *)
Lemma st_score_agrees context prices s :
  default [] (fee_policies context !! uid) = ws_policy <$> policies t ->
  is_Some (prices !! asset_token (signed_sell t)) -> is_Some (prices !! asset_token (signed_buy t)) ->
  (forall a p, surplus_in_buy_tokens u256_from_f64 biguint_from_f64 t = Ok a ->
     native_prices context !! asset_token (signed_buy t) = Some p -> 0 <= a * p <= U256_MAX) ->
  st_score u256_from_f64 biguint_from_f64 (native_prices context) t = Ok s ->
  compute_order_score u256_from_f64 biguint_from_f64 order prices context = Ok s.
Proof.
  intros Hpol [ps Hps] [pb Hpb] Hfit H. unfold st_score in H.
  apply result_bind_Ok in H as (p & Hp%ok_or_Ok & H).
  apply result_bind_Ok in H as (a & Ha%map_err_Ok & [= <-]).
  specialize (Hfit a p Ha Hp). unfold compute_order_score. simpl.
  rewrite Hp, Hps, Hpb. simpl. unfold surplus_in_buy_tokens in Ha.
  apply result_bind_Ok in Ha as (sur & Hsur & Ha). apply surplus_agrees in Hsur.
  apply result_bind_Ok in Ha as (fees & Hfees & Ha).
  change (calculate_custom_prices_from_executed order) with
    (mkClearingPrices (price_sell (custom_price t)) (price_buy (custom_price t))).
  replace (mkClearingPrices _ _) with (custom_price t) by by destruct (custom_price t).
  rewrite Hsur. simpl. unfold protocol_fees. simpl. rewrite Hpol, <-fmap_reverse.
  unfold st_fees in Hfees.
  replace t with (with_custom_price (custom_price t) t) in Hfees at 2 by by destruct t.
  apply fees_loop_agrees in Hfees as ->. simpl.
  apply result_bind_Ok in Ha as (both & Hb%ok_or_Ok & Ha). rewrite Hb. simpl.
  assert (Hin : in_eth p a = price_in_eth p a).
  { unfold in_eth, price_in_eth, wrapping_mul, saturating_mul.
    rewrite Z.mod_small, Z.min_l; [done| |]; unfold U256_MAX in *; lia. }
  rewrite Hin. destruct (st_side t).
  - apply result_bind_Ok in Ha as (w & Hw%ok_or_Ok & Ha%ok_or_Ok). rewrite Hw. simpl.
    by rewrite Ha.
  - by injection Ha as ->.
Qed.
End agreement.
