(* ===== verification/DriverSolution.v ===== *)
(** * DriverSolution: the solutions a driver bids with

    [crates/driver/src/domain/competition/solution/mod.rs] with [interaction.rs], the
    allowances of [crates/driver/src/domain/eth/allowance.rs], and the amounts and
    gas parameters of [solution/settlement.rs].

    A solution gets its trades with protocol fees, its score, and may be merged with
    another one of the same solver by scaling their prices to a common unit.

    The global counter of solution ids is threaded through the operations that draw
    from it.  A solver is its account address.  Iterating over a hash map in another
    order can only change which of two errors [merge] reports. *)

From stdpp Require Import base gmap sets list strings.
From Stdlib Require Import ZArith Lia SpecFloat.
From S2P Require Import Prelude Collections F64 Eth Liquidity Solution Score DriverOrder DriverTrade.
From S2P Require Import DriverScore.

Open Scope Z_scope.

(** ** Allowances *)
Record Allowance := mkAllowance { al_token : address; al_spender : address; al_amount : Z }.

Definition allowance_cmp : Allowance -> Allowance -> comparison :=
  cmp_then (cmp_on al_token Z.compare)
    (cmp_then (cmp_on al_spender Z.compare) (cmp_on al_amount Z.compare)).

Definition Required_approval (required existing : Allowance) : option Allowance :=
  if negb (al_spender required =? al_spender existing) || (al_amount required <=? al_amount existing)
  then None else Some required.

Definition Approval_max (a : Allowance) : Allowance := mkAllowance (al_token a) (al_spender a) U256_MAX.
Definition Approval_revoke (a : Allowance) : Allowance := mkAllowance (al_token a) (al_spender a) 0.

(** ** Interactions *)

(** The liquidity behind an interaction, as far as its allowances read it. *)
Inductive LiquidityKind :=
| UniswapV2 (router : address)
| UniswapV3 (router : address)
| BalancerV2Stable (vault : address)
| BalancerV2Weighted (vault : address)
| Swapr (router : address)
| ZeroEx (contract : address).

Inductive Interaction :=
| Custom (target : address) (value : Z) (call_data : list Z) (allowances : list Allowance)
    (inputs outputs : list Asset) (internalize : bool)
| LiquidityInteraction (kind : LiquidityKind) (input output : Asset) (internalize : bool).

Definition internalize (i : Interaction) : bool :=
  match i with Custom _ _ _ _ _ _ b | LiquidityInteraction _ _ _ b => b end.
Definition interaction_inputs (i : Interaction) : list Asset :=
  match i with Custom _ _ _ _ inputs _ _ => inputs | LiquidityInteraction _ input _ _ => [input] end.
Definition interaction_allowances (i : Interaction) : list Allowance :=
  match i with
  | Custom _ _ _ allowances _ _ _ => allowances
  | LiquidityInteraction kind input _ _ =>
      let address := match kind with
                     | UniswapV2 a | UniswapV3 a | BalancerV2Stable a | BalancerV2Weighted a
                     | Swapr a | ZeroEx a => a
                     end in
      [mkAllowance (asset_token input) address U256_MAX]
  end.

(** ** Ids *)
Record Id := mkId { id_get : Z; merged_solutions : list Z }.

(** [AtomicU64::fetch_add] on the global counter. *)
Definition next_global_id (counter : Z) : Z * Z := (counter, (counter + 1) mod 2 ^ 64).
Definition Id_new (counter solution : Z) : Id * Z :=
  let '(id, counter) := next_global_id counter in (mkId id [solution], counter).
Definition Id_new_merged (counter : Z) (first second : Id) : Id * Z :=
  let '(id, counter) := next_global_id counter in
  (mkId id (merged_solutions first ++ merged_solutions second), counter).

(** ** Solutions *)
Record Flashloan := mkFlashloan {
  fl_liquidity_provider : address;
  fl_protocol_adapter : address;
  fl_receiver : address;
  fl_token : address;
  fl_amount : Z;
}.

Record Solution := mkSolution {
  sol_id : Id;
  sol_trades : list Trade;
  sol_prices : gmap address Z;
  sol_pre_interactions : list EthInteraction;
  sol_interactions : list Interaction;
  sol_post_interactions : list EthInteraction;
  sol_solver : address;
  sol_weth : address;
  sol_gas : option Z;
  sol_flashloans : gmap Z Flashloan;
  sol_wrappers : list WrapperCall;
}.

Definition with_trades (trades : list Trade) (s : Solution) : Solution :=
  mkSolution (sol_id s) trades (sol_prices s) (sol_pre_interactions s) (sol_interactions s)
    (sol_post_interactions s) (sol_solver s) (sol_weth s) (sol_gas s) (sol_flashloans s) (sol_wrappers s).

Inductive FeeHandler := DriverFees | SolverFees.

Inductive SolutionError :=
| InvalidClearingPrices
| SolutionProtocolFee (e : FeeError)
| InvalidJitTrade (e : TradeError).

Definition user_trades_of (trades : list Trade) : list Fulfillment :=
  omap (fun t => match t with TradeFulfillment f => Some f | TradeJit _ => None end) trades.
Definition user_trades (s : Solution) : list Fulfillment := user_trades_of (sol_trades s).

Definition clearing_price (s : Solution) (token : address) : option Z :=
  sol_prices s !! as_erc20 token (sol_weth s).

(** [solution.prices[&token]]: indexing a map panics on a missing key. *)
Definition index_price (s : Solution) (token : address) : comp Z := expect (clearing_price s token).

Definition token_pairs (s : Solution) : list (address * address) :=
  (fun t => (asset_token (Trade_sell t), asset_token (Trade_buy t))) <$> sol_trades s.

(** ** Construction *)

(** A just-in-time order of a surplus capturing owner as an order of the auction;
    [now] is the clock in seconds. *)
Definition jit_as_order (now : Z) (j : DriverOrder.JitOrder) : DriverOrder.Order :=
  DriverOrder.mkOrder (jo_uid j) (Some (jo_receiver j)) (if fits 32 now then now else 0) (jo_valid_to j)
    (jo_buy j) (jo_sell j) (jo_side j) Limit (AppDataHash (jo_app_data j)) (Jit_partial j) [] []
    (jo_sell_token_balance j) (jo_buy_token_balance j) (jo_signature j) [] None.

Fixpoint convert_jit (now : Z) (owners : gset address) (trades : list Trade)
  : result SolutionError (list Trade) :=
  match trades with
  | [] => Ok []
  | trade :: trades =>
      letr trade :=
        match trade with
        | TradeJit jit =>
            if bool_decide (sig_signer (jo_signature (jit_order jit)) ∈ owners) then
              letr f := map_err InvalidJitTrade
                          (Fulfillment_new (jit_as_order now (jit_order jit)) (jit_executed jit)
                             (Dynamic (jit_fee jit)) 0) in
              Ok (TradeFulfillment f)
            else Ok trade
        | TradeFulfillment _ => Ok trade
        end in
      letr trades := convert_jit now owners trades in
      Ok (trade :: trades)
  end.

Section solutions.
Context (u256_from_f64 : f64 -> Z) (biguint_from_f64 : f64 -> option Z).

Fixpoint charge_trades (s : Solution) (trades : list Trade) : comp (result SolutionError (list Trade)) :=
  match trades with
  | [] => Ret (Ok [])
  | trade :: trades =>
      let!r trade :=
        match trade with
        | TradeFulfillment f =>
            let! sell := index_price s (asset_token (order_sell (f_order f))) in
            let! buy := index_price s (asset_token (order_buy (f_order f))) in
            Ret (letr f := map_err SolutionProtocolFee
                             (with_protocol_fees u256_from_f64 biguint_from_f64 f
                                (mkClearingPrices sell buy)) in
                 Ok (TradeFulfillment f))
        | TradeJit _ => Ret (Ok trade)
        end in
      let!r trades := charge_trades s trades in
      Ret (Ok (trade :: trades))
  end.

(** [Solution::new] on the solution its arguments make up. *)
Definition Solution_new (now : Z) (solution : Solution) (fee_handler : FeeHandler) (owners : gset address)
  : comp (result SolutionError Solution) :=
  match convert_jit now owners (sol_trades solution) with
  | Err e => Ret (Err e)
  | Ok trades =>
      let solution := with_trades trades solution in
      if existsb (fun f => bool_decide (clearing_price solution (asset_token (order_sell (f_order f))) = None)
                        || bool_decide (clearing_price solution (asset_token (order_buy (f_order f))) = None))
           (user_trades solution)
      then Ret (Err InvalidClearingPrices)
      else match fee_handler with
           | SolverFees => Ret (Ok solution)
           | DriverFees =>
               let!r trades := charge_trades solution (sol_trades solution) in
               Ret (Ok (with_trades trades solution))
           end
  end.

(** ** Score *)
Inductive ScoringFailure :=
| ScoringInvalidClearingPrices
| ScoringFailureMath (e : MathError)
| ScoringMissingPrice (token : address).

Definition from_scoring (e : ScoringError) : ScoringFailure :=
  match e with MissingPrice t => ScoringMissingPrice t | ScoringMath e => ScoringFailureMath e end.

Definition trade_count_for_scorable (trade : Trade) (owners : gset address) : bool :=
  match trade with
  | TradeFulfillment _ => true
  | TradeJit jit => bool_decide (sig_signer (jo_signature (jit_order jit)) ∈ owners)
  end.

Definition scored_trade (s : Solution) (trade : Trade) : result ScoringFailure ScoredTrade :=
  let executed := match Trade_side trade with
                  | Sell => wrapping_add (Trade_executed trade) (Trade_fee trade)
                  | Buy => Trade_executed trade
                  end in
  let buy := Trade_buy trade in
  let sell := Trade_sell trade in
  letr price_sell := ok_or (clearing_price s (asset_token sell)) ScoringInvalidClearingPrices in
  letr price_buy := ok_or (clearing_price s (asset_token buy)) ScoringInvalidClearingPrices in
  letr custom := map_err ScoringFailureMath (Trade_custom_prices trade (mkClearingPrices price_sell price_buy)) in
  Ok (mkScoredTrade sell buy (Trade_side trade) executed custom (Trade_protocol_fees trade)).

Fixpoint scored_trades (s : Solution) (owners : gset address) (trades : list Trade)
  : result ScoringFailure (list ScoredTrade) :=
  match trades with
  | [] => Ok []
  | trade :: trades =>
      if trade_count_for_scorable trade owners then
        letr t := scored_trade s trade in
        letr ts := scored_trades s owners trades in
        Ok (t :: ts)
      else scored_trades s owners trades
  end.

Definition scoring (s : Solution) (native_prices : gmap address Z) (owners : gset address)
  : result ScoringFailure Z :=
  letr trades := scored_trades s owners (sol_trades s) in
  map_err from_scoring (compute_score u256_from_f64 biguint_from_f64 native_prices trades 0).
End solutions.

Definition is_empty (s : Solution) (owners : gset address) : bool :=
  negb (existsb (fun t => trade_count_for_scorable t owners) (sol_trades s)).

Inductive Internalization := Enable | Disable.

(** ** Allowances of a solution *)
Definition normalized_allowances (interactions : list Interaction) (internalization : Internalization)
  : gmap (address * address) Z :=
  let required := flat_map (fun i =>
    if internalize i && match internalization with Enable => true | Disable => false end
    then [] else interaction_allowances i) interactions in
  foldl (fun normalized a =>
    let key := (al_token a, al_spender a) in
    <[key := saturating_add (default 0 (normalized !! key)) (al_amount a)]> normalized) ∅ required.

Definition allowances (s : Solution) (internalization : Internalization) : list Allowance :=
  sort_by allowance_cmp
    ((fun e => mkAllowance e.1.1 e.1.2 e.2)
       <$> map_to_list (normalized_allowances (sol_interactions s) internalization)).

(** [existing] is the allowance of the settlement contract for a token and spender. *)
Definition approvals (s : Solution) (internalization : Internalization)
  (existing : address -> address -> Z) : list Allowance :=
  omap (fun required =>
    Required_approval required
      (mkAllowance (al_token required) (al_spender required)
         (existing (al_token required) (al_spender required))))
    (allowances s internalization).

(** ** Prices *)
Definition trades_weth (s : Solution) : bool :=
  existsb (fun f => (asset_token (order_sell (f_order f)) =? sol_weth s)
                 || (asset_token (order_buy (f_order f)) =? sol_weth s)) (user_trades s).

Definition clearing_prices (s : Solution) : comp (gmap address Z) :=
  if existsb (fun f => buys_eth (f_order f)) (user_trades s) then
    let prices := if negb (trades_weth s) then delete (sol_weth s) (sol_prices s) else sol_prices s in
    let! price := expect (sol_prices s !! sol_weth s) in
    Ret (<[NATIVE_TOKEN := price]> prices)
  else Ret (sol_prices s).

Definition revertable (s : Solution) : bool :=
  existsb (fun i => negb (internalize i)) (sol_interactions s)
  || existsb (fun f => match sig_scheme (order_signature (f_order f)) with Eip1271 => true | _ => false end)
       (user_trades s).

Definition has_haircut (s : Solution) : bool :=
  existsb (fun t => match t with TradeFulfillment f => negb (f_haircut_fee f =? 0) | TradeJit _ => false end)
    (sol_trades s).

(** ** Merging *)
Inductive MergeError :=
| Incompatible
| DuplicateTrade
| IncongruentPrices
| MoreOrdersThanAllowed
| MergeMath.

(** The distinct factors, as a set of ratios in lowest terms. *)
Definition scaling_factors (first second : gmap address Z) : comp (list (Z * Z)) :=
  let! factors := comp_map (fun e => Ratio_new e.1 e.2)
                    (map_to_list (map_zip first second)).*2 in
  Ret (remove_dups factors).

Definition scaling_factor (first second : gmap address Z) : comp (option (Z * Z)) :=
  let! factors := scaling_factors first second in
  Ret match factors with
      | [] => Some (1, 1)
      | [factor] => Some factor
      | _ => None
      end.

(** [big_rational_to_u256] of a price times a ratio. *)
Definition scale_price (price : Z) (factor : Z * Z) : option Z :=
  let scaled := price * factor.1 / factor.2 in
  if fits 256 scaled then Some scaled else None.

Fixpoint merge_prices (factor : Z * Z) (entries : list (address * Z)) (prices : gmap address Z)
  : result MergeError (gmap address Z) :=
  match entries with
  | [] => Ok prices
  | (token, price) :: entries =>
      letr scaled := ok_or (scale_price price factor) MergeMath in
      match prices !! token with
      | Some p => if negb (p =? scaled) then Err IncongruentPrices
                  else merge_prices factor entries prices
      | None => merge_prices factor entries (<[token := scaled]> prices)
      end
  end.

(** [merge] calls itself with the solutions swapped when it would have to scale
    down; [None] is running out of [fuel]. *)
Fixpoint merge (fuel : nat) (counter : Z) (self other : Solution) (max_orders : nat)
  : option (comp (result MergeError (Solution * Z))) :=
  match fuel with
  | O => None
  | S fuel =>
      if negb (sol_solver self =? sol_solver other) then Some (Ret (Err Incompatible))
      else if (max_orders <? length (sol_trades self) + length (sol_trades other))%nat
      then Some (Ret (Err MoreOrdersThanAllowed))
      else
        let uids : gset Z := list_to_set ((fun f => order_uid (f_order f)) <$> user_trades self) in
        let other_uids : gset Z := list_to_set ((fun f => order_uid (f_order f)) <$> user_trades other) in
        if negb (bool_decide (uids ∩ other_uids = ∅)) then Some (Ret (Err DuplicateTrade))
        else
          match scaling_factor (sol_prices self) (sol_prices other) with
          | Panic => Some Panic
          | Ret None => Some (Ret (Err IncongruentPrices))
          | Ret (Some factor) =>
              if factor.1 <? factor.2 then merge fuel counter other self max_orders
              else
                Some (Ret
                  (letr prices := merge_prices factor (map_to_list (sol_prices other)) (sol_prices self) in
                   let '(id, counter) := Id_new_merged counter (sol_id self) (sol_id other) in
                   Ok (mkSolution id
                         (sol_trades self ++ sol_trades other) prices
                         (sol_pre_interactions self ++ sol_pre_interactions other)
                         (sol_interactions self ++ sol_interactions other)
                         (sol_post_interactions self ++ sol_post_interactions other)
                         (sol_solver self) (sol_weth self)
                         match sol_gas self, sol_gas other with
                         | Some gas, Some other_gas => Some (wrapping_add gas other_gas)
                         | Some gas, None => Some gas
                         | None, other_gas => other_gas
                         end
                         (sol_flashloans other ∪ sol_flashloans self)
                         (sol_wrappers self), counter)))
          end
  end.

(** ** Settlements *)

(** [competition::Amounts]. *)
Record Amounts := mkAmounts {
  am_side : Side;
  am_sell : Asset;
  am_buy : Asset;
  am_executed_sell : Z;
  am_executed_buy : Z;
}.

Definition ok_or_zero {E} (r : result E Z) : Z := match r with Ok a => a | Err _ => 0 end.

Definition trade_amounts (s : Solution) (trade : Trade) : comp Amounts :=
  match trade with
  | TradeFulfillment _ =>
      let! sell := index_price s (asset_token (Trade_sell trade)) in
      let! buy := index_price s (asset_token (Trade_buy trade)) in
      let prices := mkClearingPrices sell buy in
      Ret (mkAmounts (Trade_side trade) (Trade_sell trade) (Trade_buy trade)
             (ok_or_zero (Trade_sell_amount trade prices)) (ok_or_zero (Trade_buy_amount trade prices)))
  | TradeJit jit =>
      Ret (mkAmounts (Trade_side trade) (Trade_sell trade) (Trade_buy trade)
             (ok_or_zero (Jit_executed_sell jit)) (ok_or_zero (Jit_executed_buy jit)))
  end.

Fixpoint settlement_orders_loop (s : Solution) (trades : list Trade) (acc : gmap Z Amounts)
  : comp (gmap Z Amounts) :=
  match trades with
  | [] => Ret acc
  | trade :: trades =>
      let! order := trade_amounts s trade in
      settlement_orders_loop s trades (<[Trade_uid trade := order]> acc)
  end.

(** [Settlement::orders]. *)
Definition settlement_orders (s : Solution) : comp (gmap Z Amounts) :=
  settlement_orders_loop s (sol_trades s) ∅.

(** [settlement::Gas]. *)
Record SettlementGas := mkSettlementGas { gas_estimate : Z; gas_limit : Z }.

(** [f64_from_u256] is the conversion of a [U256] to a float. *)
Definition SettlementGas_new (f64_from_u256 : Z -> f64) (u256_from_f64 : f64 -> Z)
  (estimate block_limit : Z) : result (Z * Z) SettlementGas :=
  let max_gas := block_limit / 2 in
  if max_gas <? estimate then Err (estimate, max_gas)
  else
    let estimate_with_buffer := u256_from_f64 (f64_mul (f64_from_u256 estimate) (f64_lit 2)) in
    Ok (mkSettlementGas estimate (Z.min max_gas estimate_with_buffer)).

Definition required_balance (g : SettlementGas) (max_fee_per_gas : Z) : Z :=
  wrapping_mul (gas_limit g) max_fee_per_gas.

(** ** Prices are scaled by the one factor that makes them agree *)
Definition prices_u256 (m : gmap address Z) : Prop := map_Forall (fun _ p => u256 p) m.

Lemma scaling_factors_spec first second fs :
  scaling_factors first second = Ret fs ->
  NoDup fs /\
  (forall t a b, first !! t = Some a -> second !! t = Some b -> exists r, Ratio_new a b = Ret r /\ r ∈ fs) /\
  (forall r, r ∈ fs -> exists t a b, first !! t = Some a /\ second !! t = Some b /\ Ratio_new a b = Ret r).
Proof.
  unfold scaling_factors. intros H. apply comp_bind_Ret in H as (l & Hl & [= <-]).
  apply comp_map_Ret in Hl. split; [apply NoDup_remove_dups|]. split.
  - intros t a b Ha Hb.
    assert (Hin : (a, b) ∈ (map_to_list (map_zip first second)).*2).
    { apply list_elem_of_fmap. exists (t, (a, b)). split; [done|]. apply elem_of_map_to_list.
      rewrite map_lookup_zip_with, Ha, Hb. done. }
    apply list_elem_of_lookup in Hin as [i Hi].
    destruct (Forall2_lookup_l _ _ _ _ _ Hl Hi) as (r & Hr & E). simpl in E.
    exists r. split; [done|]. apply elem_of_remove_dups, list_elem_of_lookup. eauto.
  - intros r Hr. apply (proj1 (elem_of_remove_dups l r)) in Hr. apply list_elem_of_lookup in Hr as [i Hi].
    destruct (Forall2_lookup_r _ _ _ _ _ Hl Hi) as ([a b] & Hab & E). simpl in E.
    assert (Hin : (a, b) ∈ (map_to_list (map_zip first second)).*2) by (apply list_elem_of_lookup; eauto).
    apply list_elem_of_fmap in Hin as ([t [a' b']] & E' & Hin). simpl in E'. injection E' as -> ->.
    apply elem_of_map_to_list in Hin. rewrite map_lookup_zip_with in Hin.
    destruct (first !! t) as [x|] eqn:E1; [|done]. destruct (second !! t) as [y|] eqn:E2; [|done].
    simpl in Hin. injection Hin as -> ->. eauto 6.
Qed.

Lemma Ratio_new_inv a b r : u256 a -> u256 b -> Ratio_new a b = Ret r ->
  0 < b /\ 0 <= r.1 /\ 0 < r.2 /\ r.1 * b = a * r.2.
Proof.
  intros Ha Hb H. assert (0 < b).
  { unfold Ratio_new in H. destruct (Z.eqb_spec b 0); [done|]. unfold u256 in *. lia. }
  apply Ratio_new_Ret in H; [|unfold u256 in *; lia..]. lia.
Qed.

(** The factor, when there is one, turns each common price of the second solution
    exactly into that of the first. *)
Lemma scaling_factor_exact first second n d :
  prices_u256 first -> prices_u256 second -> scaling_factor first second = Ret (Some (n, d)) ->
  0 <= n /\ 0 < d /\
  (forall t a b, first !! t = Some a -> second !! t = Some b -> 0 < b /\ n * b = a * d) /\
  (n < d -> exists t a b, first !! t = Some a /\ second !! t = Some b).
Proof.
  intros H1 H2 H. unfold scaling_factor in H. apply comp_bind_Ret in H as (fs & Hfs & H).
  apply scaling_factors_spec in Hfs as (_ & Hall & Hex). destruct fs as [|f [|]]; [| |done].
  - injection H as <- <-. split_and!; [lia..| |lia].
    intros t a b Ha Hb. destruct (Hall t a b Ha Hb) as (r & _ & []%not_elem_of_nil).
  - injection H as ->. destruct (Hex (n, d) ltac:(set_solver)) as (t & a & b & Ha & Hb & Hr).
    pose proof (Ratio_new_inv _ _ _ (H1 _ _ Ha) (H2 _ _ Hb) Hr) as (Hbp & Hn & Hd & _). simpl in *.
    split_and!; [done..| |eauto 6].
    intros t' a' b' Ha' Hb'. destruct (Hall t' a' b' Ha' Hb') as (r & Hr' & ->%list_elem_of_singleton).
    by apply Ratio_new_inv in Hr' as (Hb'' & _ & _ & Heq); [|eapply H1|eapply H2].
Qed.

Lemma scale_exact p n d q : u256 q -> 0 < d -> n * p = q * d -> scale_price p (n, d) = Some q.
Proof.
  intros Hq Hd E. unfold scale_price. cbn [fst snd]. rewrite (Z.mul_comm p n), E, Z.div_mul by lia.
  cbv zeta. replace (fits 256 q) with true; [done|]. symmetry. by apply fits_spec.
Qed.

(** What merging the prices does when the factor is exact on the common tokens: it
    can only overflow; the prices of the first solution stay, those of the second
    are scaled. *)
Lemma merge_prices_spec n d entries prices :
  0 < d -> NoDup entries.*1 ->
  (forall t q p, prices !! t = Some q -> (t, p) ∈ entries -> u256 q /\ n * p = q * d) ->
  match merge_prices (n, d) entries prices with
  | Err e => e = MergeMath
  | Ok prices' =>
      prices ⊆ prices' /\
      (forall t p, (t, p) ∈ entries -> prices' !! t = Some (p * n / d)) /\
      (forall t q, prices' !! t = Some q -> prices !! t = Some q \/ exists p, (t, p) ∈ entries)
  end.
Proof.
  intros Hd. revert prices. induction entries as [|[t p] entries IH]; intros prices Hnd Hcom; simpl.
  { split_and!; [done| |naive_solver]. intros t p Hin. by apply not_elem_of_nil in Hin. }
  cbn [fmap list_fmap fst] in Hnd. apply NoDup_cons in Hnd as [Hni Hnd].
  assert (Hni' : forall q, ~ (t, q) ∈ entries).
  { intros q Hin. apply Hni, list_elem_of_fmap. by exists (t, q). }
  assert (Hcom' : forall t q p, prices !! t = Some q -> (t, p) ∈ entries -> u256 q /\ n * p = q * d).
  { intros t' q' p' Hl Hin. apply (Hcom t' q' p' Hl), elem_of_cons. by right. }
  destruct (prices !! t) as [q|] eqn:Eq.
  - destruct (Hcom t q p Eq) as [Hq E]; [apply elem_of_cons; by left|].
    rewrite (scale_exact p n d q Hq Hd E). simpl. rewrite Z.eqb_refl. simpl.
    assert (Hqp : q = p * n / d) by (rewrite (Z.mul_comm p n), E, Z.div_mul; lia).
    specialize (IH prices Hnd Hcom'). destruct (merge_prices _ _ _) as [m|e]; [|done].
    destruct IH as (Hsub & Hsc & Hback). split_and!; [done| |].
    + intros t' p' [[= -> ->]|Hin]%elem_of_cons; [|auto]. rewrite <-Hqp. by eapply lookup_weaken.
    + intros t' q' Hl. apply Hback in Hl as [Hl|[p' Hin]]; [by left|right]. exists p'.
      apply elem_of_cons. by right.
  - destruct (scale_price p (n, d)) as [sc|] eqn:Es; [|done]. simpl.
    assert (Hsc : sc = p * n / d).
    { unfold scale_price in Es. cbv zeta in Es. cbn [fst snd] in Es.
      destruct (fits _ _); [by injection Es|done]. }
    specialize (IH (<[t := sc]> prices) Hnd).
    assert (Hcom2 : forall t' q' p', <[t := sc]> prices !! t' = Some q' -> (t', p') ∈ entries ->
      u256 q' /\ n * p' = q' * d).
    { intros t' q' p' Hl Hin. rewrite lookup_insert_ne in Hl by (intros ->; by eapply Hni'). eauto. }
    specialize (IH Hcom2). destruct (merge_prices _ _ _) as [m|e]; [|done].
    destruct IH as (Hsub & Hscm & Hback). split_and!.
    + etrans; [by apply (insert_subseteq prices t sc)|done].
    + intros t' p' [[= -> ->]|Hin]%elem_of_cons; [|auto]. rewrite <-Hsc.
      eapply lookup_weaken; [apply lookup_insert_eq|done].
    + intros t' q' Hl. apply Hback in Hl as [Hl|[p' Hin]];
        [|right; exists p'; apply elem_of_cons; by right].
      destruct (decide (t = t')) as [->|Hne]; [right; exists p; apply elem_of_cons; by left|].
      rewrite lookup_insert_ne in Hl by done. by left.
Qed.

(** Swapping the solutions inverts the factor, so that it is not below one twice. *)
Lemma scaling_factor_swap first second n d n' d' :
  prices_u256 first -> prices_u256 second ->
  scaling_factor first second = Ret (Some (n, d)) -> n < d ->
  scaling_factor second first = Ret (Some (n', d')) -> d' <= n'.
Proof.
  intros H1 H2 H Hlt H'. apply scaling_factor_exact in H as (Hn & Hd & Hall & Hex); [|done..].
  apply scaling_factor_exact in H' as (Hn' & Hd' & Hall' & _); [|done..].
  destruct (Hex Hlt) as (t & a & b & Ha & Hb). destruct (Hall t a b Ha Hb) as [Hbp E].
  destruct (Hall' t b a Hb Ha) as [Hap E']. nia.
Qed.

(** Two solutions whose common tokens have no price 0. *)
Definition common_prices_positive (first second : gmap address Z) : Prop :=
  forall t a b, first !! t = Some a -> second !! t = Some b -> 0 < a /\ 0 < b.

Lemma scaling_factor_total first second :
  common_prices_positive first second -> exists o, scaling_factor first second = Ret o.
Proof.
  intros Hpos. unfold scaling_factor, scaling_factors.
  assert (returns (comp_map (fun e : Z * Z => Ratio_new e.1 e.2) (map_to_list (map_zip first second)).*2) (fun _ => True)) as Hr.
  { eapply returns_mono; [apply (comp_map_returns _ (fun _ _ => True))|done].
    intros e ([t [a b]] & -> & Hin%elem_of_map_to_list)%list_elem_of_fmap. rewrite map_lookup_zip_with in Hin.
    destruct (first !! t) as [x|] eqn:E1; [|done]. destruct (second !! t) as [y|] eqn:E2; [|done].
    cbn in Hin. injection Hin as -> ->. destruct (Hpos t a b E1 E2) as [_ Hb]. cbn [fst snd]. unfold Ratio_new.
    by rewrite (proj2 (Z.eqb_neq b 0)) by lia. }
  destruct (comp_map _ _) as [l|]; [|done]. cbn [comp_bind]. eauto.
Qed.

(** C38 (termination): merging two solutions calls itself at most once, with the two
    swapped: two levels are enough for every pair of solutions, and more do not change the
    result.  When no token they have in common has price 0 in either of them, the result is a
    merged solution or an error, and not a panic (with such a price merging panics: see
    [merge_examples]). *)
Theorem merge_terminates counter self other max_orders :
  prices_u256 (sol_prices self) -> prices_u256 (sol_prices other) ->
  exists outcome,
    (forall fuel, merge (2 + fuel) counter self other max_orders = Some outcome) /\
    (common_prices_positive (sol_prices self) (sol_prices other) -> exists r, outcome = Ret r).
Proof.
  intros H1 H2. cbn [merge Nat.add].
  destruct (negb (sol_solver self =? _)); [by eauto|]. destruct (_ <? _)%nat; [by eauto|].
  cbv zeta. destruct (negb (bool_decide _)); [by eauto|].
  pose proof (scaling_factor_total (sol_prices self) (sol_prices other)) as Htot.
  destruct (scaling_factor (sol_prices self) _) as [[[n d]|]|] eqn:E; [|by eauto|].
  2: { exists Panic. split; [done|]. intros [o Ho]%Htot. done. }
  cbn [fst snd]. destruct (Z.ltb_spec n d) as [Hlt|]; [|by eauto].
  destruct (negb (sol_solver other =? _)); [by eauto|]. destruct (_ <? _)%nat; [by eauto|].
  destruct (negb (bool_decide _)); [by eauto|].
  pose proof (scaling_factor_total (sol_prices other) (sol_prices self)) as Htot'.
  destruct (scaling_factor (sol_prices other) _) as [[[n' d']|]|] eqn:E'; [|by eauto|].
  2: { exists Panic. split; [done|]. intros Hpos. destruct Htot' as [o Ho]; [|done].
       intros t a b Ha Hb. destruct (Hpos t b a Hb Ha). lia. }
  cbn [fst snd]. pose proof (scaling_factor_swap _ _ _ _ _ _ H1 H2 E Hlt E').
  destruct (Z.ltb_spec n' d'); [lia|]. by eauto.
Qed.

(** What a merged solution keeps of the two it was made of. *)
Record merged_from (base added s : Solution) (n d : Z) : Prop := {
  merged_scale_up : 0 < d <= n;
  merged_trades : sol_trades s = sol_trades base ++ sol_trades added;
  merged_disjoint : forall f g, f ∈ user_trades base -> g ∈ user_trades added ->
    order_uid (f_order f) <> order_uid (f_order g);
  merged_base_prices : sol_prices base ⊆ sol_prices s;
  merged_added_prices : forall t p, sol_prices added !! t = Some p ->
    sol_prices s !! t = Some (p * n / d);
  merged_tokens : forall t, is_Some (sol_prices s !! t) ->
    is_Some (sol_prices base !! t) \/ is_Some (sol_prices added !! t);
  merged_common_exact : forall t p q, sol_prices added !! t = Some p -> sol_prices base !! t = Some q ->
    p * n = q * d;
}.

Lemma uids_disjoint (us vs : list Fulfillment) f g :
  (list_to_set ((fun f => order_uid (f_order f)) <$> us) : gset Z)
    ∩ list_to_set ((fun f => order_uid (f_order f)) <$> vs) = ∅ ->
  f ∈ us -> g ∈ vs -> order_uid (f_order f) <> order_uid (f_order g).
Proof.
  intros Hd Hf Hg E.
  assert (Hin : order_uid (f_order f) ∈ (∅ : gset Z)); [|by apply not_elem_of_empty in Hin].
  rewrite <-Hd. apply elem_of_intersection. rewrite !elem_of_list_to_set, !list_elem_of_fmap.
  split; [by exists f|by exists g].
Qed.

(** The branch of [merge] that builds a solution. *)
Lemma merge_step base added n d prices :
  prices_u256 (sol_prices base) -> prices_u256 (sol_prices added) ->
  scaling_factor (sol_prices base) (sol_prices added) = Ret (Some (n, d)) ->
  merge_prices (n, d) (map_to_list (sol_prices added)) (sol_prices base) = Ok prices ->
  0 < d /\ sol_prices base ⊆ prices /\
  (forall t p, sol_prices added !! t = Some p -> prices !! t = Some (p * n / d)) /\
  (forall t, is_Some (prices !! t) -> is_Some (sol_prices base !! t) \/ is_Some (sol_prices added !! t)) /\
  (forall t p q, sol_prices added !! t = Some p -> sol_prices base !! t = Some q -> p * n = q * d).
Proof.
  intros H1 H2 Hf Hm. apply scaling_factor_exact in Hf as (Hn & Hd & Hall & _); [|done..].
  pose proof (merge_prices_spec n d (map_to_list (sol_prices added)) (sol_prices base) Hd
    (NoDup_fst_map_to_list _)) as Hspec. rewrite Hm in Hspec. destruct Hspec as (Hsub & Hsc & Hback).
  { intros t q p Hq Hp%elem_of_map_to_list. split; [by eapply H1|]. by apply (Hall t q p). }
  split_and!; [done..| | |].
  - intros t p Hp. by apply Hsc, elem_of_map_to_list.
  - intros t [q Hq]. apply Hback in Hq as [Hq|[p Hp%elem_of_map_to_list]]; eauto.
  - intros t p q Hp Hq. destruct (Hall t q p Hq Hp). lia.
Qed.

(** A merged solution holds the trades of both, within the allowed
    number and settling no order of the auction twice; it keeps every price of one
    of them and scales those of the other by one factor of at least one, rounding
    down: exactly on the tokens they share, so that all exchange rates of both
    survive. *)
Theorem merge_keeps_prices fuel counter self other max_orders s counter' :
  prices_u256 (sol_prices self) -> prices_u256 (sol_prices other) ->
  merge fuel counter self other max_orders = Some (Ret (Ok (s, counter'))) ->
  (length (sol_trades s) <= max_orders)%nat /\
  exists n d, merged_from self other s n d \/ merged_from other self s n d.
Proof.
  revert self other. induction fuel as [|fuel IH]; intros self other H1 H2 H; [done|].
  cbn [merge] in H. destruct (negb (sol_solver self =? _)); [done|].
  destruct (Nat.ltb_spec max_orders (length (sol_trades self) + length (sol_trades other)));
    [done|]. cbv zeta in H. destruct (bool_decide_reflect
    ((list_to_set ((fun f => order_uid (f_order f)) <$> user_trades self) : gset Z)
     ∩ list_to_set ((fun f => order_uid (f_order f)) <$> user_trades other) = ∅)) as [Hd|]; [|done].
  cbn [negb] in H. destruct (scaling_factor _ _) as [[[n d]|]|] eqn:Ef; [|done..].
  cbn [fst snd] in H. destruct (Z.ltb_spec n d) as [Hlt|Hge].
  { destruct (IH other self H2 H1 H) as (Hlen & n' & d' & [Hm|Hm]); eauto 6. }
  injection H as H. apply result_bind_Ok in H as (prices & Hp & H). cbn in H. injection H as <- <-.
  cbn [sol_trades]. rewrite length_app. split; [done|]. exists n, d. left.
  destruct (merge_step _ _ _ _ _ H1 H2 Ef Hp) as (Hd0 & Hsub & Hsc & Htok & Hex).
  constructor; auto. intros f g. by apply uids_disjoint.
Qed.

(** ** Examples *)
Definition example_solution (id : Z) (trades : list Trade) (prices : gmap address Z) : Solution :=
  mkSolution (mkId id [id]) trades prices [] [] [] 5 99 (Some 100) ∅ [].

Definition first_solution : Solution :=
  example_solution 1 [TradeFulfillment sell_fulfillment] (<[1 := 1]> (<[2 := 2]> ∅)).
Definition second_solution : Solution := example_solution 2 [] (<[1 := 10]> (<[3 := 7]> ∅)).

(** The first solution would have to be scaled down, so the second one is kept. *)
Example merge_examples :
  (exists s, merge 2 7 first_solution second_solution 3 = Some (Ret (Ok (s, 8))) /\
     map_to_list (sol_prices s) = [(3, 7); (2, 20); (1, 10)] /\ sol_gas s = Some 200 /\
     sol_id s = mkId 7 [2; 1]) /\
  merge 2 7 first_solution first_solution 3 = Some (Ret (Err DuplicateTrade)) /\
  merge 2 7 first_solution second_solution 0 = Some (Ret (Err MoreOrdersThanAllowed)) /\
  merge 2 7 first_solution (example_solution 2 [] (<[1 := 10]> (<[2 := 7]> ∅))) 3
    = Some (Ret (Err IncongruentPrices)) /\
  merge 2 7 first_solution (example_solution 2 [] (<[1 := 0]> ∅)) 3 = Some Panic.
Proof. split_and!; [eexists; split_and!| | | |]; vm_compute; reflexivity. Qed.

Lemma example_prices_u256 :
  prices_u256 (sol_prices first_solution) /\ prices_u256 (sol_prices second_solution).
Proof.
  assert (Hu : forall z, 0 <= z <= 100 -> u256 z) by (unfold u256; lia).
  split; repeat (apply map_Forall_insert_2; [apply Hu; lia|]); apply map_Forall_empty.
Qed.

Lemma merge_terminates_witness :
  exists r, forall fuel, merge (2 + fuel) 7 first_solution second_solution 3 = Some (Ret r).
Proof.
  destruct (merge_terminates 7 first_solution second_solution 3 (proj1 example_prices_u256) (proj2 example_prices_u256))
    as (outcome & Hm & Hr).
  destruct Hr as [r ->]; [|by exists r]. intros t a b Ha Hb.
  assert (forall m : gmap address Z, map_Forall (fun _ p => 0 < p) m -> forall t p, m !! t = Some p -> 0 < p) as Hpos by (intros m; by apply id).
  split; [apply (Hpos (sol_prices first_solution)) in Ha|apply (Hpos (sol_prices second_solution)) in Hb]; try assumption;
    repeat (apply map_Forall_insert_2; [reflexivity|]); apply map_Forall_empty.
Defined.

Lemma merge_keeps_prices_witness :
  exists s, merge 2 7 first_solution second_solution 3 = Some (Ret (Ok (s, 8))) /\
    (length (sol_trades s) <= 3)%nat /\
    exists n d, merged_from first_solution second_solution s n d
             \/ merged_from second_solution first_solution s n d.
Proof.
  destruct (proj1 merge_examples) as (s & E & _). exists s. split; [exact E|].
  apply (merge_keeps_prices 2 7 first_solution second_solution 3 s 8);
    [exact (proj1 example_prices_u256)|exact (proj2 example_prices_u256)|exact E].
Defined.
