(* ===== verification/AutopilotBids.v ===== *)
(** * AutopilotBids: a driver's bid and what the autopilot makes of it

    The way of a solution from the driver to winner selection:
    [crates/driver/src/infra/api/routes/solve/dto/solve_response.rs] writes it,
    [crates/autopilot/src/infra/solvers/dto/solve.rs] reads it,
    [crates/autopilot/src/domain/competition/{mod,bid,winner_selection}.rs] turns it
    into a bid, ranks the bids with the arbitrator of [Arbitrator] and maps the
    ranking back.

    The response is carried as JSON with the same fields on both sides; it is one
    record here.  A fee policy of the autopilot has the fields of winner
    selection's.  The entries of a hash map are listed in the map's order. *)

From stdpp Require Import base gmap sets list strings.
From Stdlib Require Import ZArith Lia.
From S2P Require Import Prelude Collections F64 Eth Liquidity Solution Score Arbitrator DriverOrder.
From S2P Require Import DriverTrade DriverScore DriverSolution.

Open Scope Z_scope.

(** ** The response *)
Record TradedOrderDto := mkTradedOrderDto {
  td_side : Side;
  td_sell_token : address;
  td_buy_token : address;
  td_limit_sell : Z;
  td_limit_buy : Z;
  td_executed_sell : Z;
  td_executed_buy : Z;
}.

Record SolutionDto := mkSolutionDto {
  sd_solution_id : Z;
  sd_score : Z;
  sd_submission_address : address;
  sd_orders : gmap Z TradedOrderDto;
  sd_clearing_prices : gmap address Z;
}.

(** [competition::Solved], without the gas estimate. *)
Record Solved := mkSolved {
  solved_id : Id;
  solved_score : Z;
  solved_trades : gmap Z Amounts;
  solved_prices : gmap address Z;
}.

Definition traded_order_dto (a : Amounts) : TradedOrderDto :=
  mkTradedOrderDto (am_side a) (asset_token (am_sell a)) (asset_token (am_buy a))
    (asset_amount (am_sell a)) (asset_amount (am_buy a)) (am_executed_sell a) (am_executed_buy a).

Definition SolutionDto_new (solution_id : Z) (solved : Solved) (solver : address) : SolutionDto :=
  mkSolutionDto solution_id (solved_score solved) solver
    (traded_order_dto <$> solved_trades solved) (solved_prices solved).

Definition SolveResponse_new (solved : option Solved) (solver : address) : list SolutionDto :=
  match solved with
  | Some solved => [SolutionDto_new (id_get (solved_id solved)) solved solver]
  | None => []
  end.

(** The solution a driver bids with, once its settlement is scored. *)
Definition solve_result (s : DriverSolution.Solution) (score : Z) : comp Solved :=
  let! trades := settlement_orders s in
  let! prices := clearing_prices s in
  Ret (mkSolved (DriverSolution.sol_id s) score trades prices).

(** ** The autopilot's solutions *)
Record TradedOrder := mkTradedOrder {
  to_side : Side;
  to_sell : Asset;
  to_buy : Asset;
  to_executed_sell : Z;
  to_executed_buy : Z;
}.

Record BidSolution := mkBidSolution {
  bs_id : Z;
  bs_solver : address;
  bs_orders : gmap Z TradedOrder;
  bs_prices : gmap address Z;
}.

Inductive BidError := ZeroScore | InvalidPrice | SolverDenyListed.

(** [auction::Price::try_new]. *)
Definition Price_try_new (value : Z) : result BidError Z :=
  if value =? 0 then Err InvalidPrice else Ok value.

(** [Score::try_new]. *)
Definition Score_try_new (score : Z) : result BidError Z :=
  if score =? 0 then Err ZeroScore else Ok score.

Definition TradedOrder_into_domain (t : TradedOrderDto) : TradedOrder :=
  mkTradedOrder (td_side t) (mkAsset (td_sell_token t) (td_limit_sell t))
    (mkAsset (td_buy_token t) (td_limit_buy t)) (td_executed_sell t) (td_executed_buy t).

Definition Solution_into_domain (s : SolutionDto) : result BidError BidSolution :=
  if existsb (fun e => match Price_try_new e.2 with Err _ => true | Ok _ => false end)
       (map_to_list (sd_clearing_prices s))
  then Err InvalidPrice
  else Ok (mkBidSolution (sd_solution_id s) (sd_submission_address s)
             (TradedOrder_into_domain <$> sd_orders s) (sd_clearing_prices s)).

Definition Response_into_domain (solutions : list SolutionDto) : list (result BidError BidSolution) :=
  Solution_into_domain <$> solutions.

(** ** Winner selection's view *)
Record AuctionOrder := mkAuctionOrder { ao_uid : Z; ao_protocol_fees : list Score.FeePolicy }.
Record BidAuction := mkBidAuction {
  ba_orders : list AuctionOrder;
  ba_prices : gmap address Z;
  ba_surplus_capturing_jit_order_owners : list address;
}.

Definition auction_context (auction : BidAuction) : AuctionContext :=
  mkAuctionContext
    (foldl (fun m o => <[ao_uid o := ao_protocol_fees o]> m) ∅ (ba_orders auction))
    (list_to_set (ba_surplus_capturing_jit_order_owners auction))
    (ba_prices auction).

Definition to_winsel_order (uid : Z) (order : TradedOrder) : Score.Order :=
  Score.mkOrder uid (asset_token (to_sell order)) (asset_token (to_buy order))
    (asset_amount (to_sell order)) (asset_amount (to_buy order))
    (to_executed_sell order) (to_executed_buy order) (to_side order).

Definition to_winsel_solution (s : BidSolution) : Arbitrator.Solution Unscored :=
  Arbitrator.Solution_new (bs_id s) (bs_solver s)
    ((fun e => to_winsel_order e.1 e.2) <$> map_to_list (bs_orders s)) (bs_prices s).

(** ** Bids *)
Record Bid (St : Type) := mkBid { bid_solution : BidSolution; bid_driver : string; bid_state : St }.
Arguments mkBid {St}.
Arguments bid_solution {St} b.
Arguments bid_driver {St} b.
Arguments bid_state {St} b.

Definition Bid_new (solution : BidSolution) (driver : string) : Bid Unscored :=
  mkBid solution driver mkUnscored.
Definition Bid_with_score {St} (score : Z) (b : Bid St) : Bid Scored :=
  mkBid (bid_solution b) (bid_driver b) (mkScored score).
Definition Bid_with_rank (rank_type : RankType) (b : Bid Scored) : Bid Ranked :=
  mkBid (bid_solution b) (bid_driver b) (mkRanked rank_type (scored_score (bid_state b))).

Definition bid_key {St} (b : Bid St) : SolutionKey := (bs_solver (bid_solution b), bs_id (bid_solution b)).

Record BidRanking := mkBidRanking {
  br_filtered_out : list (Bid Ranked);
  br_ranked : list (Bid Ranked);
  br_reference_scores : gmap address Z;
}.

(** The bid of a ranked solution is taken out of the map it was put in. *)
Fixpoint take_bids (rank : Arbitrator.Solution Ranked -> RankType) (solutions : list (Arbitrator.Solution Ranked))
  (bid_by_key : gmap SolutionKey (Bid Unscored))
  : comp (list (Bid Ranked) * gmap SolutionKey (Bid Unscored)) :=
  match solutions with
  | [] => Ret ([], bid_by_key)
  | s :: solutions =>
      let! bid := expect (bid_by_key !! key s) in
      let! (bids, rest) := take_bids rank solutions (delete (key s) bid_by_key) in
      Ret (Bid_with_rank (rank s) (Bid_with_score (rscore s) bid) :: bids, rest)
  end.

Definition arbitrate_bids (max_winners : nat) (weth : address) (u256_from_f64 : f64 -> Z)
  (biguint_from_f64 : f64 -> option Z) (bids : list (Bid Unscored)) (auction : BidAuction)
  : comp BidRanking :=
  let context := auction_context auction in
  let bid_by_key := foldl (fun m b => <[bid_key b := b]> m) ∅ bids in
  let solutions := (fun b => to_winsel_solution (bid_solution b)) <$> bids in
  let! ws_ranking := arbitrate max_winners weth u256_from_f64 biguint_from_f64 solutions context in
  let reference_scores := compute_reference_scores max_winners weth ws_ranking in
  let! (filtered_out, bid_by_key) :=
    take_bids (fun _ => FilteredOut) (filtered_out ws_ranking) bid_by_key in
  let! (ranked, bid_by_key) :=
    take_bids (fun s => ranked_rank_type (sol_state s)) (ranked ws_ranking) bid_by_key in
  Ret (mkBidRanking filtered_out ranked reference_scores).

(** [Ranking::all], [winners] and [non_winners]. *)
Definition br_all (r : BidRanking) : list (Bid Ranked) := br_ranked r ++ br_filtered_out r.
Definition bid_is_winner (b : Bid Ranked) : bool := RankType_is_winner (ranked_rank_type (bid_state b)).
Definition br_winners (r : BidRanking) : list (Bid Ranked) :=
  filter (fun b => bid_is_winner b = true) (br_ranked r).
Definition br_non_winners (r : BidRanking) : list (Bid Ranked) :=
  filter (fun b => bid_is_winner b = false) (br_ranked r).
Definition br_enumerated (r : BidRanking) : list (nat * Bid Ranked) := imap (fun i b => (i, b)) (br_all r).

(** ** Every scored bid is ranked once *)

(** A ranked bid as it was submitted. *)
Definition bid_submitted (b : Bid Ranked) : Bid Unscored := mkBid (bid_solution b) (bid_driver b) mkUnscored.

Definition bid_scored f g context (b : Bid Unscored) : Prop :=
  is_Some (ok (score_by_token_pair f g context (to_winsel_solution (bid_solution b)))).

Lemma take_bids_spec rank sols m :
  NoDup (map key sols) -> (forall s, s ∈ sols -> is_Some (m !! key s)) ->
  exists bids, take_bids rank sols m = Ret (bids, foldl (fun m s => delete (key s) m) m sols) /\
    bid_submitted <$> bids = omap (fun s => m !! key s) sols.
Proof.
  revert m. induction sols as [|s sols IH]; intros m Hnd Hm; simpl; [by exists []|].
  apply NoDup_cons in Hnd as [Hs Hnd]. destruct (Hm s) as [b Hb]; [set_solver|].
  rewrite Hb. simpl.
  assert (Hne : forall t, t ∈ sols -> key s <> key t).
  { intros t Ht E. apply Hs, list_elem_of_fmap. exists t. by rewrite E. }
  destruct (IH (delete (key s) m) Hnd) as (bids & -> & Hbids).
  { intros t Ht. rewrite lookup_delete_ne by (by apply Hne). apply Hm. set_solver. }
  eexists. split; [done|]. rewrite fmap_cons, Hbids. f_equal.
  - by destruct b as [? ? []].
  - apply list_omap_ext, Forall_Forall2_diag, Forall_forall. intros t Ht.
    by rewrite lookup_delete_ne by (by apply Hne).
Qed.

Lemma take_bids_NoDup rank sols m bids rest :
  take_bids rank sols m = Ret (bids, rest) ->
  NoDup (map key sols) /\ (forall s, s ∈ sols -> is_Some (m !! key s)) /\
  (forall k, k ∈ map key sols -> rest !! k = None) /\
  (forall k, m !! k = None -> rest !! k = None).
Proof.
  revert m bids. induction sols as [|s sols IH]; intros m bids H; simpl in H.
  { injection H as <- <-. split_and!; [constructor|set_solver|set_solver|done]. }
  apply comp_bind_Ret in H as (b & Hb%expect_Ret & H).
  apply comp_bind_Ret in H as ([bs r] & Hr & H). injection H as <- <-.
  apply IH in Hr as (Hnd & Hall & Hrest & Hmono). cbn [map].
  assert (Hs : key s ∉ map key sols).
  { intros (t & E & Ht)%list_elem_of_fmap. specialize (Hall t Ht). rewrite <-E, lookup_delete_eq in Hall.
    by destruct Hall. }
  split_and!.
  - by constructor.
  - intros t [->|Ht]%elem_of_cons; [by exists b|]. destruct (Hall t Ht) as [x Hx].
    apply lookup_delete_Some in Hx as [_ Hx]. by exists x.
  - intros k [->|Hk]%elem_of_cons; [|auto]. apply Hmono, lookup_delete_eq.
  - intros k Hk. apply Hmono. by rewrite lookup_delete_None; right.
Qed.

Lemma bid_by_key_lookup (bids : list (Bid Unscored)) (b : Bid Unscored) (m : gmap SolutionKey (Bid Unscored)) :
  NoDup (map bid_key bids) -> b ∈ bids -> foldl (fun m b => <[bid_key b := b]> m) m bids !! bid_key b = Some b.
Proof.
  revert m. induction bids as [|c bids IH]; intros m Hnd Hb; [by apply not_elem_of_nil in Hb|].
  apply NoDup_cons in Hnd as [Hc Hnd]. simpl. apply elem_of_cons in Hb as [->|Hb]; [|by apply IH].
  clear IH. assert (Hl : <[bid_key c := c]> m !! bid_key c = Some c) by apply lookup_insert_eq.
  revert Hl Hc. generalize (<[bid_key c := c]> m). clear. induction bids as [|d bids IH]; intros m Hl Hc; [done|].
  cbn [map] in Hc. apply not_elem_of_cons in Hc as [Hne Hc]. simpl. apply IH; [|done].
  by rewrite lookup_insert_ne.
Qed.

(** The arbitrator's ranking holds every solution that could be scored, once. *)
Lemma arbitrate_complete max_winners weth f g solutions context r :
  arbitrate max_winners weth f g solutions context = Ret r ->
  map submitted (ranked r ++ filtered_out r)
    ≡ₚ filter (fun s => is_Some (ok (score_by_token_pair f g context s))) solutions.
Proof.
  unfold arbitrate. rewrite partition_spec. cbn [comp_bind]. intros [= <-]. cbn [ranked filtered_out].
  rewrite map_app, (sort_by_perm by_rank), map_map. by apply ranking_complete.
Qed.

Lemma key_submitted (l : list (Arbitrator.Solution Ranked)) : map key l = map key (map submitted l).
Proof. rewrite map_map. by apply map_ext. Qed.

Lemma ranked_keys max_winners weth f g bids auction r :
  arbitrate max_winners weth f g ((fun b => to_winsel_solution (bid_solution b)) <$> bids)
    (auction_context auction) = Ret r ->
  map key (ranked r ++ filtered_out r)
    ≡ₚ map bid_key (filter (bid_scored f g (auction_context auction)) bids).
Proof.
  intros H. rewrite key_submitted, (arbitrate_complete _ _ _ _ _ _ _ H).
  generalize (auction_context auction). intros ctx. clear H.
  induction bids as [|b bids IH]; [done|]. rewrite fmap_cons, !filter_cons. unfold bid_scored at 1.
  case_decide; [|done]. cbn [map]. by rewrite IH.
Qed.

Lemma foldl_delete_lookup (l : list (Arbitrator.Solution Ranked)) (m : gmap SolutionKey (Bid Unscored)) k :
  k ∉ map key l -> foldl (fun m s => delete (key s) m) m l !! k = m !! k.
Proof.
  revert m. induction l as [|s l IH]; intros m Hk; [done|]. simpl.
  cbn [map] in Hk. apply not_elem_of_cons in Hk as [Hne Hk].
  rewrite IH by done. by apply lookup_delete_ne.
Qed.

Lemma omap_map {A B C} (h : A -> B) (k : B -> option C) (l : list A) :
  omap k (map h l) = omap (fun x => k (h x)) l.
Proof. induction l as [|x l IH]; [done|]. csimpl. by rewrite IH. Qed.

Lemma omap_lookup_keys (m : gmap SolutionKey (Bid Unscored)) (bids : list (Bid Unscored)) :
  (forall b, b ∈ bids -> m !! bid_key b = Some b) -> omap (fun k => m !! k) (map bid_key bids) = bids.
Proof.
  induction bids as [|b bids IH]; intros H; [done|]. simpl.
  rewrite (H b) by set_solver. f_equal. apply IH. intros c Hc. apply H. set_solver.
Qed.

(** When no two bids come from the same solver with the same id, the
    arbitration of bids never panics, and its ranking holds every bid whose solution
    could be scored, with its own driver, exactly once. *)
Theorem arbitrate_bids_complete max_winners weth f g bids auction :
  NoDup (map bid_key bids) ->
  exists r, arbitrate_bids max_winners weth f g bids auction = Ret r /\
    bid_submitted <$> br_all r ≡ₚ filter (bid_scored f g (auction_context auction)) bids.
Proof.
  intros Hnd. unfold arbitrate_bids. cbv zeta.
  destruct (arbitrate _ _ _ _ _ _) as [ws|] eqn:Hws;
    [|unfold arbitrate in Hws; by rewrite partition_spec in Hws].
  cbn [comp_bind]. apply ranked_keys in Hws as Hkeys.
  set (m0 := foldl _ ∅ bids).
  assert (Hm0 : forall b, b ∈ bids -> m0 !! bid_key b = Some b)
    by (intros b Hb; by apply bid_by_key_lookup).
  assert (Hndk : NoDup (map key (ranked ws ++ filtered_out ws))).
  { rewrite Hkeys. eapply sublist_NoDup; [exact Hnd|]. apply (fmap_sublist bid_key), sublist_filter. }
  assert (Hin : forall s, s ∈ ranked ws ++ filtered_out ws -> is_Some (m0 !! key s)).
  { intros s Hs. apply (list_elem_of_fmap_2 key) in Hs. change (key <$> ?l) with (map key l) in Hs.
    rewrite Hkeys in Hs. apply list_elem_of_fmap in Hs as (b & -> & [_ Hb]%list_elem_of_filter).
    rewrite Hm0 by done. eauto. }
  rewrite map_app in Hndk. apply NoDup_app in Hndk as (Hr & Hdis & Hf).
  destruct (take_bids_spec (fun _ => FilteredOut) (filtered_out ws) m0 Hf) as (fb & -> & Hfb).
  { intros s Hs. apply Hin. set_solver. }
  cbn [comp_bind].
  destruct (take_bids_spec (fun s => ranked_rank_type (sol_state s)) (ranked ws)
    (foldl (fun m s => delete (key s) m) m0 (filtered_out ws)) Hr) as (rb & -> & Hrb).
  { intros s Hs. rewrite foldl_delete_lookup by (apply Hdis; by apply list_elem_of_fmap_2).
    apply Hin. set_solver. }
  cbn [comp_bind]. eexists. split; [done|]. unfold br_all. cbn [br_ranked br_filtered_out].
  rewrite fmap_app, Hrb, Hfb.
  rewrite (list_omap_ext _ (fun s => m0 !! key s) (ranked ws) (ranked ws)).
  2: { apply Forall_Forall2_diag, Forall_forall. intros s Hs.
       by rewrite foldl_delete_lookup by (apply Hdis; by apply list_elem_of_fmap_2). }
  rewrite <-omap_app, <-(omap_map key (fun k => m0 !! k)), Hkeys, omap_lookup_keys; [done|].
  intros b [_ Hb]%list_elem_of_filter. by apply Hm0.
Qed.

(** Two bids of the same solver with the same id, both of which can be
    scored, stop the arbitration with a panic: the second one finds no bid left
    under its key. *)
Theorem duplicate_bids_panic max_winners weth f g bids auction :
  ~ NoDup (map bid_key (filter (bid_scored f g (auction_context auction)) bids)) ->
  arbitrate_bids max_winners weth f g bids auction = Panic.
Proof.
  intros Hdup. destruct (arbitrate_bids _ _ _ _ _ _) as [r|] eqn:H; [|done]. exfalso. apply Hdup.
  unfold arbitrate_bids in H. cbv zeta in H. apply comp_bind_Ret in H as (ws & Hws & H).
  apply ranked_keys in Hws as <-. rewrite map_app.
  apply comp_bind_Ret in H as ([fb m1] & Hf & H). apply comp_bind_Ret in H as ([rb m2] & Hr & _).
  apply take_bids_NoDup in Hf as (Hfn & _ & Hnone & _).
  apply take_bids_NoDup in Hr as (Hrn & Hsome & _). apply NoDup_app. split_and!; [done| |done].
  intros k (s & -> & Hs)%list_elem_of_fmap Hin. specialize (Hsome s Hs). rewrite Hnone in Hsome by done.
  by destruct Hsome.
Qed.

(** ** Sums of scores *)
Definition sum_Z (l : list Z) : Z := foldr Z.add 0 l.

Lemma sum_Z_perm l k : l ≡ₚ k -> sum_Z l = sum_Z k.
Proof. unfold sum_Z. induction 1; simpl; lia. Qed.

Lemma sum_Z_nonneg l : Forall (Z.le 0) l -> 0 <= sum_Z l.
Proof. unfold sum_Z. induction 1; simpl; lia. Qed.

Definition map_sum (m : ScoreByDirection) : Z := sum_Z (map_to_list m).*2.

Lemma map_sum_fresh m p v : m !! p = None -> map_sum (<[p := v]> m) = v + map_sum m.
Proof.
  intros Hp. unfold map_sum. etrans; [apply sum_Z_perm; by rewrite map_to_list_insert|].
  by rewrite fmap_cons.
Qed.

Lemma map_sum_insert m p v : map_sum (<[p := v]> m) = map_sum m - default 0 (m !! p) + v.
Proof.
  destruct (m !! p) as [w|] eqn:E; simpl; [|rewrite map_sum_fresh by done; lia].
  rewrite <-(insert_delete_eq m p v), map_sum_fresh by apply lookup_delete_eq.
  rewrite <-(insert_delete_id m p w E) at 2. rewrite map_sum_fresh by apply lookup_delete_eq. lia.
Qed.

Lemma map_sum_nonneg m : map_Forall (fun _ v => 0 <= v) m -> 0 <= map_sum m.
Proof.
  intros Hm. apply sum_Z_nonneg, Forall_forall.
  intros x ([k y] & -> & Hx%elem_of_map_to_list)%list_elem_of_fmap. by eapply Hm.
Qed.

Lemma map_sum_lookup m p :
  map_Forall (fun _ v => 0 <= v) m -> 0 <= default 0 (m !! p) <= map_sum m.
Proof.
  intros Hm. pose proof (map_sum_nonneg m Hm). destruct (m !! p) as [w|] eqn:E; simpl; [|lia].
  split; [by eapply Hm|]. rewrite <-(insert_delete_id m p w E), map_sum_fresh by apply lookup_delete_eq.
  pose proof (map_sum_nonneg (delete p m) (map_Forall_delete _ _ _ Hm)). lia.
Qed.

Lemma foldl_saturating l a :
  0 <= a -> Forall (Z.le 0) l -> a + sum_Z l <= U256_MAX -> foldl saturating_add a l = a + sum_Z l.
Proof.
  revert a. unfold sum_Z. induction l as [|x l IH]; intros a Ha Hl Hle; simpl in *; [lia|].
  apply Forall_cons in Hl as [Hx Hl]. pose proof (sum_Z_nonneg l Hl). unfold sum_Z in *.
  unfold saturating_add at 2. rewrite Z.min_l by lia. rewrite IH; [lia|lia|done|lia].
Qed.

(** The scores of the orders that count, in order. *)
Definition order_scores f g context prices (orders : list Score.Order) : list (result ScoreError Z) :=
  (fun o => compute_order_score f g o prices context)
    <$> filter (fun o => contributes_to_score context (Score.order_uid o) = true) orders.

Lemma score_orders_sum f g context prices orders scores vs :
  order_scores f g context prices orders = Ok <$> vs -> Forall (Z.le 0) vs ->
  map_Forall (fun _ v => 0 <= v) scores -> map_sum scores + sum_Z vs <= U256_MAX ->
  exists m, score_orders f g context prices orders scores = Ok m /\
    map_sum m = map_sum scores + sum_Z vs /\ map_Forall (fun _ v => 0 <= v) m.
Proof.
  revert scores vs. induction orders as [|o orders IH]; intros scores vs Hvs Hpos Hsc Hle; cbn [score_orders].
  { destruct vs; [|done]. exists scores. split_and!; [done|unfold sum_Z; simpl; lia|done]. }
  unfold order_scores in Hvs. rewrite filter_cons in Hvs.
  destruct (contributes_to_score context (Score.order_uid o)); cbn [negb].
  2: { rewrite decide_False in Hvs by done. by apply IH. }
  rewrite decide_True in Hvs by done. destruct vs as [|v vs]; [done|]. rewrite !fmap_cons in Hvs.
  injection Hvs as Hv Hvs. rewrite Hv. cbn [result_bind]. cbv zeta.
  apply Forall_cons in Hpos as [Hv0 Hpos]. set (p := (_, _)).
  pose proof (map_sum_lookup scores p Hsc).
  pose proof (sum_Z_nonneg vs Hpos). change (sum_Z (v :: vs)) with (v + sum_Z vs) in *.
  assert (Hsat : saturating_add (default 0 (scores !! p)) v = default 0 (scores !! p) + v)
    by (unfold saturating_add; rewrite Z.min_l; lia).
  rewrite Hsat. destruct (IH (<[p := default 0 (scores !! p) + v]> scores) vs) as (m & Hm & Hs & Hall).
  - done.
  - done.
  - apply map_Forall_insert_2; [lia|done].
  - rewrite map_sum_insert. lia.
  - exists m. split_and!; [done| |done]. rewrite Hs, map_sum_insert. lia.
Qed.

Lemma total_score_sum m :
  map_Forall (fun _ v => 0 <= v) m -> map_sum m <= U256_MAX -> total_score m = map_sum m.
Proof.
  intros Hm Hle. unfold total_score. change (map_sum m) with (0 + map_sum m).
  apply foldl_saturating; [lia| |exact Hle].
  apply Forall_forall. intros x ([k y] & -> & Hx%elem_of_map_to_list)%list_elem_of_fmap. by eapply Hm.
Qed.

(** ** The driver's score is the auctioneer's *)

(** The order winner selection sees for an amount of the driver's response. *)
Definition winsel_order (e : Z * Amounts) : Score.Order :=
  to_winsel_order e.1 (TradedOrder_into_domain (traded_order_dto e.2)).

Lemma settlement_orders_loop_spec s trades ams acc :
  NoDup (Trade_uid <$> trades) -> (forall t, t ∈ trades -> acc !! Trade_uid t = None) ->
  comp_map (trade_amounts s) trades = Ret ams ->
  exists m, settlement_orders_loop s trades acc = Ret m /\
    map_to_list m ≡ₚ zip (Trade_uid <$> trades) ams ++ map_to_list acc.
Proof.
  revert ams acc. induction trades as [|t trades IH]; intros ams acc Hnd Hacc H; simpl in H.
  { injection H as <-. by exists acc. }
  apply comp_bind_Ret in H as (am & Ham & H). apply comp_bind_Ret in H as (ams' & Hams & [= <-]).
  rewrite fmap_cons in *. apply NoDup_cons in Hnd as [Ht Hnd]. cbn [settlement_orders_loop].
  rewrite Ham. cbn [comp_bind].
  destruct (IH ams' (<[Trade_uid t := am]> acc) Hnd) as (m & Hm & Hp); [|done|].
  { intros t' Ht'. rewrite lookup_insert_ne; [apply Hacc; apply elem_of_cons; by right|].
    intros E. apply Ht. rewrite E. by apply list_elem_of_fmap_2. }
  exists m. split; [done|]. rewrite Hp, map_to_list_insert by (apply Hacc, elem_of_cons; by left).
  cbn [zip zip_with app]. by rewrite <-Permutation_middle.
Qed.

Section score_agreement.
Context (f : f64 -> Z) (g : f64 -> option Z) (s : DriverSolution.Solution) (auction : BidAuction).
Local Abbreviation context := (auction_context auction).
Local Abbreviation owners := (surplus_capturing_jit_order_owners context).
Local Abbreviation native := (native_prices context).

(** The trade belongs to the auction: a fulfillment is of an order whose policies
    the auction knows (or of a surplus capturing owner, without policies), and any
    other just-in-time trade is of an owner the auction does not know. *)
Definition trade_in_auction (trade : Trade) : Prop :=
  match trade with
  | TradeFulfillment ff =>
      contributes_to_score context (Trade_uid trade) = true /\
      default [] (fee_policies context !! Trade_uid trade) = ws_policy <$> Trade_protocol_fees trade /\
      asset_token (Trade_sell trade) <> NATIVE_TOKEN /\
      0 <= f_executed ff /\ 0 <= Fulfillment_fee ff
  | TradeJit jit =>
      contributes_to_score context (Trade_uid trade) = false /\
      sig_signer (jo_signature (jit_order jit)) ∉ owners
  end.

(** The scores and their sum do not overflow. *)
Definition scores_fit : Prop :=
  forall ts, scored_trades s owners (DriverSolution.sol_trades s) = Ok ts ->
  (forall t a p, t ∈ ts -> surplus_in_buy_tokens f g t = Ok a ->
     native !! asset_token (signed_buy t) = Some p -> 0 <= a * p <= U256_MAX) /\
  (forall vs, st_score f g native <$> ts = Ok <$> vs -> sum_Z vs <= U256_MAX).

(** A scored fulfillment: the amounts of the response are its custom prices. *)
Lemma fulfillment_amounts ff t :
  0 <= f_executed ff -> 0 <= Fulfillment_fee ff ->
  scored_trade s (TradeFulfillment ff) = Ok t ->
  executed_consistent t /\ policies t = Trade_protocol_fees (TradeFulfillment ff) /\
  is_Some (clearing_price s (asset_token (signed_sell t))) /\
  is_Some (clearing_price s (asset_token (signed_buy t))) /\
  signed_sell t = order_sell (f_order ff) /\ signed_buy t = order_buy (f_order ff) /\
  exists am, trade_amounts s (TradeFulfillment ff) = Ret am /\
    winsel_order (order_uid (f_order ff), am) = ws_order (order_uid (f_order ff)) t.
Proof.
  intros He Hfee H. unfold scored_trade in H. cbv zeta in H.
  apply result_bind_Ok in H as (ps & Hps%ok_or_Ok & H).
  apply result_bind_Ok in H as (pb & Hpb%ok_or_Ok & H).
  apply result_bind_Ok in H as (custom & Hc%map_err_Ok & H). injection H as <-.
  cbn [Trade_custom_prices] in Hc. unfold Fulfillment_custom_prices in Hc.
  apply result_bind_Ok in Hc as (buy & Hb & Hc). apply result_bind_Ok in Hc as (sell & Hs & Hc).
  injection Hc as <-. split_and!; cbn; rewrite ?Hps, ?Hpb; eauto.
  - unfold executed_consistent. cbn. unfold Fulfillment_sell_amount, Fulfillment_buy_amount in *.
    destruct (order_side (f_order ff)); [by injection Hb|].
    cbn in Hs. apply result_bind_Ok in Hs as (w & [-> Hw]%ok_or_Ok%checked_add_Some & Hs).
    cbn in Hs. apply ok_or_Ok, checked_add_Some in Hs as [-> _].
    unfold wrapping_add. rewrite Z.mod_small; [lia|]. unfold U256_MAX in Hw. lia.
  - exists (mkAmounts (order_side (f_order ff)) (order_sell (f_order ff)) (order_buy (f_order ff)) sell buy).
    split; [|done]. unfold index_price. cbn in *. rewrite Hps, Hpb. cbn. by rewrite Hs, Hb.
Qed.

(** The prices of the response have all the tokens of its fulfillments. *)
Lemma clearing_prices_Ret :
  (forall ff, ff ∈ user_trades s -> is_Some (clearing_price s (asset_token (order_buy (f_order ff))))) ->
  exists prices, clearing_prices s = Ret prices /\
    (forall t v, prices !! t = Some v -> exists t', DriverSolution.sol_prices s !! t' = Some v) /\
    (forall ff, ff ∈ user_trades s -> forall token,
       token = asset_token (order_buy (f_order ff)) \/
       (token = asset_token (order_sell (f_order ff)) /\ token <> NATIVE_TOKEN) ->
       is_Some (clearing_price s token) -> is_Some (prices !! token)).
Proof.
  intros Hbuy. unfold clearing_prices.
  assert (Hweth : existsb (fun ff => buys_eth (f_order ff)) (user_trades s) = true ->
    is_Some (DriverSolution.sol_prices s !! sol_weth s)).
  { intros (ff & Hff & He)%existsb_exists. apply list_elem_of_In in Hff. unfold buys_eth in He.
    specialize (Hbuy ff Hff). unfold clearing_price, as_erc20 in Hbuy. by rewrite He in Hbuy. }
  destruct (existsb _ (user_trades s)) eqn:Eeth.
  - destruct (Hweth eq_refl) as [pw Hpw]. rewrite Hpw. cbn [expect comp_bind]. eexists.
    split; [done|]. split.
    + intros t v. rewrite lookup_insert_Some. intros [[_ <-]|[_ Hv]]; [eauto|].
      destruct (negb (trades_weth s)); [apply lookup_delete_Some in Hv as [_ Hv]|]; eauto.
    + intros ff Hff token Htok [p Hp]. destruct (decide (token = NATIVE_TOKEN)) as [->|Hne].
      { rewrite lookup_insert_eq. eauto. }
      rewrite lookup_insert_ne by done. unfold clearing_price, as_erc20 in Hp.
      rewrite (proj2 (Z.eqb_neq _ _) Hne) in Hp.
      destruct (trades_weth s) eqn:Ew; cbn [negb]; [by exists p|]. exists p.
      rewrite lookup_delete_Some. split; [|done]. intros Ht. enough (trades_weth s = true) by congruence.
      unfold trades_weth. apply existsb_exists. exists ff. split; [by apply list_elem_of_In|].
      rewrite Ht. destruct Htok as [->|[-> _]]; rewrite Z.eqb_refl, ?orb_true_r; done.
  - eexists. split; [done|]. split; [eauto|]. intros ff Hff token Htok [p Hp].
    assert (Hne : token <> NATIVE_TOKEN).
    { destruct Htok as [->|[_ ?]]; [|done]. intros Hb.
      enough (existsb (fun ff => buys_eth (f_order ff)) (user_trades s) = true) by congruence.
      apply existsb_exists. exists ff. split; [by apply list_elem_of_In|]. unfold buys_eth. by rewrite Hb. }
    unfold clearing_price, as_erc20 in Hp. rewrite (proj2 (Z.eqb_neq _ _) Hne) in Hp. by exists p.
Qed.

Lemma compute_score_sum ts a total :
  compute_score f g native ts a = Ok total ->
  exists vs, st_score f g native <$> ts = Ok <$> vs /\ Forall (Z.le 0) vs /\
    (0 <= a -> a + sum_Z vs <= U256_MAX -> total = a + sum_Z vs).
Proof.
  revert a. induction ts as [|t ts IH]; intros a H; cbn [compute_score] in H.
  { injection H as <-. exists []. split_and!; [done|constructor|]. intros _ _. unfold sum_Z. simpl. lia. }
  apply result_bind_Ok in H as (v & Hv & H). apply IH in H as (vs & Hvs & Hpos & Hsum).
  assert (Hv0 : 0 <= v).
  { unfold st_score in Hv. apply result_bind_Ok in Hv as (p & _ & Hv).
    apply result_bind_Ok in Hv as (x & _ & [= <-]). unfold in_eth, wrapping_mul.
    apply Z.div_pos; [apply Z.mod_pos_bound|]; done. }
  exists (v :: vs). split_and!; [|by constructor|].
  - by rewrite !fmap_cons, Hv, Hvs.
  - change (sum_Z (v :: vs)) with (v + sum_Z vs). intros Ha Hle. pose proof (sum_Z_nonneg vs Hpos).
    assert (Hw : wrapping_add a v = a + v)
      by (unfold wrapping_add; rewrite Z.mod_small; unfold U256_MAX in *; lia).
    rewrite Hw in Hsum. lia.
Qed.

(** The trades of a suffix of the solution and their orders in the response. *)
Lemma trades_scores trades ts :
  Forall trade_in_auction trades -> scored_trades s owners trades = Ok ts ->
  (forall ff, ff ∈ user_trades_of trades ->
     is_Some (clearing_price s (asset_token (order_sell (f_order ff)))) /\
     is_Some (clearing_price s (asset_token (order_buy (f_order ff))))) /\
  exists ams, comp_map (trade_amounts s) trades = Ret ams /\
  forall prices vs,
    (forall t a p, t ∈ ts -> surplus_in_buy_tokens f g t = Ok a ->
       native !! asset_token (signed_buy t) = Some p -> 0 <= a * p <= U256_MAX) ->
    (forall ff, ff ∈ user_trades_of trades ->
       is_Some (prices !! asset_token (order_sell (f_order ff))) /\
       is_Some (prices !! asset_token (order_buy (f_order ff)))) ->
    st_score f g native <$> ts = Ok <$> vs ->
    order_scores f g context prices (winsel_order <$> zip (Trade_uid <$> trades) ams) = Ok <$> vs.
Proof.
  intros Hall. revert ts. induction Hall as [|trade trades Htr Hall IH]; intros ts H; cbn [scored_trades] in H.
  { injection H as <-. split; [intros ff []%not_elem_of_nil|]. exists []. split; [done|].
    intros prices vs _ _ Hvs. by destruct vs. }
  destruct trade as [ff|jit]; cbn [trade_count_for_scorable trade_in_auction] in *.
  - destruct Htr as (Hcon & Hpol & Hnat & He & Hfee).
    apply result_bind_Ok in H as (t & Ht & H). apply result_bind_Ok in H as (ts' & Hts & [= <-]).
    apply (fulfillment_amounts ff t He Hfee) in Ht
      as (Hex & Hpt & Hps & Hpb & Hss & Hsb & am & Ham & Hws).
    destruct (IH ts' Hts) as [Hclear (ams & Hams & Hscores)]. split.
    { intros ff' [->|Hff]%elem_of_cons; [by rewrite <-Hss, <-Hsb|auto]. }
    exists (am :: ams). cbn [comp_map]. rewrite Ham. cbn [comp_bind]. rewrite Hams. split; [done|].
    intros prices vs Hfit Hp Hvs. destruct vs as [|v vs]; [done|]. rewrite !fmap_cons in Hvs.
    injection Hvs as Hv Hvs. unfold order_scores. rewrite fmap_cons. cbn [zip zip_with]. rewrite fmap_cons.
    change (Trade_uid (TradeFulfillment ff)) with (order_uid (f_order ff)) in *. rewrite Hws, filter_cons.
    rewrite decide_True by exact Hcon. rewrite !fmap_cons. f_equal.
    + destruct (Hp ff) as [Hp1 Hp2]; [apply elem_of_cons; by left|].
      apply st_score_agrees; rewrite ?Hss, ?Hsb; auto; [by rewrite Hpt|].
      intros a p Ha Hpr. apply (Hfit t a p); [apply elem_of_cons; by left|done|by rewrite Hsb].
    + apply Hscores; [|intros ff' Hff'; apply Hp, elem_of_cons; by right|done].
      intros t' a p Ht'. apply Hfit, elem_of_cons. by right.
  - destruct Htr as [Hcon Hown]. rewrite bool_decide_eq_false_2 in H by done.
    destruct (IH ts H) as [Hclear (ams & Hams & Hscores)]. split; [done|].
    cbn [comp_map trade_amounts comp_bind]. rewrite Hams. cbn [comp_bind]. eexists. split; [done|].
    intros prices vs Hfit Hp Hvs. unfold order_scores. rewrite fmap_cons. cbn [zip zip_with].
    rewrite fmap_cons, filter_cons. rewrite decide_False; [by apply Hscores|].
    change (contributes_to_score context (Trade_uid (TradeJit jit)) <> true). by rewrite Hcon.
Qed.

(** The orders of a hash map are scored in any order. *)
Lemma score_response id solver m prices l vs :
  map_to_list m ≡ₚ l -> order_scores f g context prices (winsel_order <$> l) = Ok <$> vs ->
  Forall (Z.le 0) vs -> sum_Z vs <= U256_MAX ->
  exists scores,
    score_by_token_pair f g context
      (to_winsel_solution (mkBidSolution id solver (TradedOrder_into_domain <$> (traded_order_dto <$> m)) prices))
      = Ok scores /\ total_score scores = sum_Z vs.
Proof.
  intros Hp Hos Hpos Hsum. unfold score_by_token_pair. cbn [sol_prices sol_orders to_winsel_solution
    Arbitrator.Solution_new bs_orders bs_prices bs_id bs_solver].
  set (orders := _ <$> map_to_list _).
  assert (Ho : orders ≡ₚ winsel_order <$> l).
  { unfold orders. rewrite !map_to_list_fmap, <-!list_fmap_compose, Hp. done. }
  assert (Hv : order_scores f g context prices orders ≡ₚ Ok <$> vs)
    by (rewrite <-Hos; unfold order_scores; by rewrite Ho).
  apply Permutation_map_inv in Hv as (vs' & Hv & Hvs).
  destruct (score_orders_sum f g context prices orders ∅ vs' Hv) as (scores & Hs & Hsumm & Hm).
  - by rewrite <-Hvs.
  - apply map_Forall_empty.
  - rewrite <-(sum_Z_perm _ _ Hvs). exact Hsum.
  - change (map_sum ∅) with 0 in Hsumm. exists scores. split; [exact Hs|].
    rewrite <-(sum_Z_perm _ _ Hvs) in Hsumm. rewrite total_score_sum; [lia|done|lia].
Qed.

(** C13 (equivalence): the score a driver bids with is the score the auctioneer
    computes from the driver's response.  For a solution whose trades belong to the
    auction, with distinct uids and nonzero prices, and whose scores fit in 256
    bits: when the driver's own scoring succeeds, building the response does not
    panic, the autopilot accepts it, and the total that winner selection computes
    from the orders, prices and fee policies it sees equals the driver's score. *)
Theorem driver_score_agrees total :
  NoDup (Trade_uid <$> DriverSolution.sol_trades s) ->
  map_Forall (fun _ p => p <> 0) (DriverSolution.sol_prices s) ->
  Forall trade_in_auction (DriverSolution.sol_trades s) -> scores_fit ->
  scoring f g s native owners = Ok total ->
  exists solved bid scores,
    solve_result s total = Ret solved /\
    Solution_into_domain (SolutionDto_new (id_get (DriverSolution.sol_id s)) solved
                            (DriverSolution.sol_solver s)) = Ok bid /\
    score_by_token_pair f g context (to_winsel_solution bid) = Ok scores /\
    total_score scores = total.
Proof.
  intros Hnd Hnz Hall Hfit H. unfold scoring in H. apply result_bind_Ok in H as (ts & Hts & H).
  destruct (Hfit ts Hts) as [Hfit1 Hfit2].
  apply map_err_Ok, compute_score_sum in H as (vs & Hvs & Hpos & Htotal).
  specialize (Hfit2 vs Hvs). specialize (Htotal ltac:(lia) ltac:(lia)).
  destruct (trades_scores _ _ Hall Hts) as [Hclear (ams & Hams & Hscores)].
  destruct (settlement_orders_loop_spec s _ ams ∅ Hnd) as (m & Hm & Hperm);
    [intros; apply lookup_empty|done|].
  destruct clearing_prices_Ret as (prices & Hpr & Hvals & Htoks); [intros ff Hff; by apply Hclear|].
  eexists (mkSolved _ total m prices), _. unfold solve_result, settlement_orders.
  rewrite Hm. cbn [comp_bind]. rewrite Hpr. cbn [comp_bind].
  unfold Solution_into_domain. cbn [SolutionDto_new sd_clearing_prices solved_prices].
  destruct (existsb _ _) eqn:Ez.
  { exfalso. apply existsb_exists in Ez as ([t p] & Hin & Hz). apply list_elem_of_In, elem_of_map_to_list in Hin.
    apply Hvals in Hin as [t' Hin]. apply Hnz in Hin. unfold Price_try_new in Hz. cbn [snd] in Hz.
    by rewrite (proj2 (Z.eqb_neq p 0) Hin) in Hz. }
  assert (Hos : order_scores f g context prices (winsel_order <$> zip (Trade_uid <$> sol_trades s) ams)
    = Ok <$> vs).
  { apply Hscores; [done| |done]. intros ff Hff. destruct (Hclear ff Hff). split; apply (Htoks ff); auto.
    right. split; [done|]. rewrite Forall_forall in Hall. apply list_elem_of_omap in Hff as ([ff'|] & Hin & [= <-]).
    by apply Hall in Hin as (_ & _ & ? & _). }
  assert (Hperm' : map_to_list m ≡ₚ zip (Trade_uid <$> DriverSolution.sol_trades s) ams)
    by (rewrite Hperm, map_to_list_empty; by rewrite app_nil_r).
  destruct (score_response (id_get (DriverSolution.sol_id s)) (DriverSolution.sol_solver s) m prices _ vs
    Hperm' Hos Hpos Hfit2) as (scores & Hsc & Htot).
  exists scores. split_and!; [done|done|exact Hsc|lia].
Qed.
End score_agreement.

(** ** Examples *)
Definition bid_driver_solution : DriverSolution.Solution :=
  example_solution 1 [TradeFulfillment (mkFulfillment (fee_order Sell) 945 (Dynamic 55) 0)]
    (<[1 := 100]> (<[2 := 100]> ∅)).
Definition bid_auction : BidAuction :=
  mkBidAuction [mkAuctionOrder 1 (ws_policy <$> order_protocol_fees (fee_order Sell))]
    {[ 2 := 10 ^ 18 ]} [].

(** Selling 1000 for 945, quoted at 950 and limited to 900: 90 of surplus before the
    fees. *)
Example driver_score_example :
  scoring f64_trunc (fun _ => None) bid_driver_solution
    (native_prices (auction_context bid_auction)) ∅ = Ok 90.
Proof. vm_compute. reflexivity. Qed.

Lemma bid_trade_in_auction :
  Forall (trade_in_auction bid_auction) (DriverSolution.sol_trades bid_driver_solution).
Proof.
  constructor; [|constructor]. split_and!; [vm_compute; reflexivity|vm_compute; reflexivity| | |];
    vm_compute; congruence.
Qed.

Definition bid_scored_trade : ScoredTrade :=
  mkScoredTrade (mkAsset 1 1000) (mkAsset 2 900) Sell 1000 (mkClearingPrices 945 1000)
    (order_protocol_fees (fee_order Sell)).

Lemma Ok_inj {E A} (r : result E A) a b : r = Ok a -> r = Ok b -> a = b.
Proof. congruence. Qed.

Lemma bid_scores_fit : scores_fit f64_trunc (fun _ => None) bid_driver_solution bid_auction.
Proof.
  intros ts Hts.
  assert (E : scored_trades bid_driver_solution (surplus_capturing_jit_order_owners (auction_context bid_auction))
    (DriverSolution.sol_trades bid_driver_solution) = Ok [bid_scored_trade]) by (vm_compute; reflexivity).
  pose proof (Ok_inj _ _ _ E Hts) as <-. clear Hts E.
  split.
  - intros t a p ->%list_elem_of_singleton Ha Hp. vm_compute in Ha. injection Ha as <-.
    vm_compute in Hp. injection Hp as <-. vm_compute. split; congruence.
  - assert (E : st_score f64_trunc (fun _ => None) (native_prices (auction_context bid_auction))
      <$> [bid_scored_trade] = [Ok 90]) by (vm_compute; reflexivity).
    rewrite E. intros vs Hvs. destruct vs as [|v [|]]; [done| |done]. injection Hvs as <-.
    vm_compute. congruence.
Qed.

Lemma driver_score_agrees_witness :
  exists solved bid scores,
    solve_result bid_driver_solution 90 = Ret solved /\
    Solution_into_domain (SolutionDto_new 1 solved 5) = Ok bid /\
    score_by_token_pair f64_trunc (fun _ => None) (auction_context bid_auction) (to_winsel_solution bid)
      = Ok scores /\
    total_score scores = 90.
Proof.
  apply (driver_score_agrees f64_trunc (fun _ => None) bid_driver_solution bid_auction 90).
  - apply NoDup_singleton.
  - repeat (apply map_Forall_insert_2; [done|]). apply map_Forall_empty.
  - exact bid_trade_in_auction.
  - exact bid_scores_fit.
  - exact driver_score_example.
Defined.

Definition example_bid (solver id executed_buy : Z) : Bid Unscored :=
  Bid_new (mkBidSolution id solver
    {[ 1 := mkTradedOrder Sell (mkAsset 1 1000) (mkAsset 2 900) 1000 executed_buy ]}
    (<[1 := 100]> (<[2 := 100]> ∅))) "driver".

Lemma arbitrate_bids_complete_witness :
  exists r, arbitrate_bids 2 9 f64_trunc (fun _ => None)
              [example_bid 7 0 940; example_bid 8 0 950; example_bid 8 1 800] bid_auction = Ret r /\
    bid_submitted <$> br_all r
      ≡ₚ filter (bid_scored f64_trunc (fun _ => None) (auction_context bid_auction))
           [example_bid 7 0 940; example_bid 8 0 950; example_bid 8 1 800].
Proof.
  apply (arbitrate_bids_complete 2 9 f64_trunc (fun _ => None)
    [example_bid 7 0 940; example_bid 8 0 950; example_bid 8 1 800] bid_auction).
  repeat constructor; rewrite ?elem_of_cons, ?elem_of_nil; vm_compute; intros H;
    repeat match goal with H : _ \/ _ |- _ => destruct H end; congruence.
Defined.

Lemma duplicate_bids_panic_witness :
  arbitrate_bids 2 9 f64_trunc (fun _ => None) [example_bid 7 0 940; example_bid 7 0 950] bid_auction = Panic.
Proof.
  apply (duplicate_bids_panic 2 9 f64_trunc (fun _ => None) [example_bid 7 0 940; example_bid 7 0 950] bid_auction).
  rewrite !filter_cons, filter_nil.
  rewrite !decide_True by (eexists; vm_compute; reflexivity).
  intros [Hin _]%NoDup_cons. apply Hin. by left.
Defined.
