(* ===== verification/DriverCompetition.v ===== *)
(** * DriverCompetition: how a driver takes part in an auction

    [crates/driver/src/domain/competition/mod.rs] with [sorting.rs] and the auction
    of [auction.rs]: sorting the orders, allocating the owners' balances to them,
    discarding and merging the solver's solutions, picking the best settlement,
    keeping it in a small cache and settling it when the autopilot asks to.

    Fetching balances, app data and liquidity, simulating and submitting are the
    node's; what they return is an argument.  [now] is the clock in seconds. *)

From stdpp Require Import base gmap sets list strings.
From Stdlib Require Import ZArith Lia SpecFloat Sorted.
From S2P Require Import Prelude Collections F64 Eth Liquidity Solution Score DriverOrder DriverTrade.
From S2P Require Import DriverScore DriverSolution.

Open Scope Z_scope.

(** ** Auctions *)
Record DriverToken := mkDriverToken {
  dt_decimals : option Z;
  dt_symbol : option string;
  dt_price : option Z;
  dt_available_balance : Z;
  dt_trusted : bool;
}.

Record DriverAuction := mkDriverAuction {
  da_id : option Z;
  da_orders : list DriverOrder.Order;
  da_tokens : gmap address DriverToken;
  da_deadline : Z;
  da_surplus_capturing_jit_order_owners : gset address;
}.

Definition with_orders (orders : list DriverOrder.Order) (a : DriverAuction) : DriverAuction :=
  mkDriverAuction (da_id a) orders (da_tokens a) (da_deadline a) (da_surplus_capturing_jit_order_owners a).

(** [Auction::new], without the gas price it reads from the node. *)
Definition Auction_new (id : option Z) (orders : list DriverOrder.Order) (tokens : gmap address DriverToken)
  (deadline : Z) (weth : address) (owners : gset address) : DriverAuction :=
  let keep o :=
    negb (Available_is_zero (available o))
    && bool_decide (is_Some (tokens !! as_erc20 (asset_token (order_buy o)) weth))
    && bool_decide (is_Some (tokens !! asset_token (order_sell o))) in
  mkDriverAuction id (filter (fun o => keep o = true) orders) tokens deadline owners.

(** The price of the native token itself is one. *)
Definition da_native_prices (a : DriverAuction) : gmap address Z :=
  <[NATIVE_TOKEN := 10 ^ 18]> (omap dt_price (da_tokens a)).

(** ** Sorting *)

(** [f64::total_cmp]. *)
Definition f64_total_cmp (x y : f64) : comparison :=
  match x, y with
  | S754_nan, S754_nan => Eq
  | S754_nan, _ => Gt
  | _, S754_nan => Lt
  | S754_zero s, S754_zero t => if Bool.eqb s t then Eq else if s then Lt else Gt
  | _, _ => match SFcompare x y with Some c => c | None => Eq end
  end.

(** [f64::is_subnormal] of a value of 53 bits of precision. *)
Definition is_subnormal (x : f64) : bool :=
  match SFclassify 53 x with FloatClass.PSubn | FloatClass.NSubn => true | _ => false end.

Inductive SortingKey :=
| KeyFloat (key : f64)
| KeyTimestamp (key : option Z)
| KeyBool (key : bool).

Definition option_cmp (x y : option Z) : comparison :=
  match x, y with
  | None, None => Eq
  | None, Some _ => Lt
  | Some _, None => Gt
  | Some x, Some y => Z.compare x y
  end.

Definition key_cmp (x y : SortingKey) : comparison :=
  match x, y with
  | KeyFloat x, KeyFloat y => f64_total_cmp x y
  | KeyTimestamp x, KeyTimestamp y => option_cmp x y
  | KeyBool x, KeyBool y => Z.compare (Z.b2z x) (Z.b2z y)
  | KeyFloat _, _ => Lt
  | _, KeyFloat _ => Gt
  | KeyTimestamp _, KeyBool _ => Lt
  | KeyBool _, KeyTimestamp _ => Gt
  end.

Inductive SortingStrategy :=
| ExternalPrice
| CreationTimestamp (max_order_age : option Z)
| OwnQuotes (max_order_age : option Z).

Definition earliest_allowed_creation (now max_order_age : Z) : Z :=
  if fits 32 (now - max_order_age) then now - max_order_age else 2 ^ 32 - 1.

(** The key of an order; [f64_from_u256] converts amounts to floats. *)
Definition strategy_key (f64_from_u256 : Z -> f64) (strategy : SortingStrategy) (order : DriverOrder.Order)
  (tokens : gmap address DriverToken) (solver : address) (now : Z) : SortingKey :=
  match strategy with
  | ExternalPrice =>
      let price token := let? t := tokens !! token in dt_price t in
      KeyFloat match price (asset_token (order_buy order)), price (asset_token (order_sell order)) with
               | Some buy_price, Some sell_price =>
                   let buy := f64_from_u256 (in_eth buy_price (asset_amount (order_buy order))) in
                   let sell := f64_from_u256 (in_eth sell_price (asset_amount (order_sell order))) in
                   if is_subnormal buy then f64_lit 0 else f64_div sell buy
               | _, _ => f64_lit 0
               end
  | CreationTimestamp max_order_age =>
      KeyTimestamp match max_order_age with
                   | Some age => if earliest_allowed_creation now age <=? order_created order
                                 then Some (order_created order) else None
                   | None => Some (order_created order)
                   end
  | OwnQuotes max_order_age =>
      let is_order_outdated := match max_order_age with
                               | Some age => order_created order <? earliest_allowed_creation now age
                               | None => false
                               end in
      let is_own_quote := match order_quote order with
                          | Some q => DriverOrder.quote_solver q =? solver
                          | None => false
                          end in
      KeyBool (negb is_order_outdated && is_own_quote)
  end.

Definition sort_orders (f64_from_u256 : Z -> f64) (orders : list DriverOrder.Order)
  (tokens : gmap address DriverToken) (solver : address) (strategies : list SortingStrategy) (now : Z)
  : list DriverOrder.Order :=
  sort_by (cmp_rev (cmp_on
    (fun order => (fun st => strategy_key f64_from_u256 st order tokens solver now) <$> strategies)
    (list_cmp key_cmp))) orders.

(** ** Allocating balances *)
Abbreviation BalanceKey := (address * address * SellTokenBalance)%type.
Abbreviation Balances := (gmap BalanceKey Z).

Definition balance_key (o : DriverOrder.Order) : BalanceKey :=
  (trader o, asset_token (order_sell o), order_sell_token_balance o).

(** The body of the [retain_mut] loop of [update_orders]: the order to keep, if any,
    and the balances left. *)
Definition fund_order (balances : Balances) (order : DriverOrder.Order)
  : option DriverOrder.Order * Balances :=
  match balances !! balance_key order with
  | None => (None, balances)
  | Some remaining_balance =>
      let max_sell := asset_amount (av_sell (available order)) in
      let allocated_balance :=
        match order_partial order with
        | PartialYes _ => Z.min max_sell remaining_balance
        | PartialNo => if max_sell <=? remaining_balance then max_sell else 0
        end in
      if allocated_balance =? 0 then (None, balances)
      else
        let order := match order_partial order with
                     | PartialYes available =>
                         with_partial
                           (PartialYes (default 0 (mul_ratio available allocated_balance max_sell))) order
                     | PartialNo => order
                     end in
        if Available_is_zero (available order) then (None, balances)
        else (Some order,
              <[balance_key order := wrapping_sub remaining_balance allocated_balance]> balances)
  end.

Definition update_order (cow_amms : gset Z) (app_data : gmap Z ValidatedAppData)
  (settlement_contract : address) (balances : Balances) (order : DriverOrder.Order)
  : option DriverOrder.Order * Balances :=
  if bool_decide (order_uid order ∈ cow_amms) then (Some order, balances)
  else
    match app_data !! AppData_hash (order_app_data order) with
    | Some fetched =>
        let order := with_app_data (AppDataFull fetched) order in
        match AppData_flashloan (order_app_data order) with
        | Some _ => (if bool_decide (order_receiver order = Some settlement_contract)
                     then Some order else None, balances)
        | None => fund_order balances order
        end
    | None => fund_order balances order
    end.

Fixpoint update_orders (cow_amms : gset Z) (app_data : gmap Z ValidatedAppData)
  (settlement_contract : address) (balances : Balances) (orders : list DriverOrder.Order)
  : list DriverOrder.Order * Balances :=
  match orders with
  | [] => ([], balances)
  | order :: orders =>
      let '(kept, balances) := update_order cow_amms app_data settlement_contract balances order in
      let '(rest, balances) := update_orders cow_amms app_data settlement_contract balances orders in
      (match kept with Some order => order :: rest | None => rest end, balances)
  end.

(** [without_unsupported_orders], before the risk detector. *)
Definition without_flashloans (flashloans_enabled : bool) (orders : list DriverOrder.Order)
  : list DriverOrder.Order :=
  if flashloans_enabled then orders
  else filter (fun o => AppData_flashloan (order_app_data o) = None) orders.

(** ** Solutions *)

(** Discard solutions that don't have a unique id. *)
Fixpoint discard_duplicates (ids : list Id) (solutions : list DriverSolution.Solution)
  : list DriverSolution.Solution :=
  match solutions with
  | [] => []
  | s :: solutions =>
      if existsb (fun i => (id_get i =? id_get (sol_id s))
                        && bool_decide (merged_solutions i = merged_solutions (sol_id s))) ids
      then discard_duplicates ids solutions
      else s :: discard_duplicates (sol_id s :: ids) solutions
  end.

Definition discard_empty (owners : gset address) (solutions : list DriverSolution.Solution)
  : list DriverSolution.Solution := filter (fun s => is_empty s owners = false) solutions.

Definition MAX_SOLUTIONS_TO_MERGE : nat := 10.

(** [Solution::merge]; two levels of calls are enough. *)
Definition merge_two (counter : Z) (self other : DriverSolution.Solution) (max_orders : nat)
  : comp (result MergeError (DriverSolution.Solution * Z)) :=
  match merge 2 counter self other max_orders with Some c => c | None => Panic end.

(** The loop over the solutions merged so far. *)
Fixpoint extend_with (counter : Z) (solution : DriverSolution.Solution)
  (merged : list DriverSolution.Solution) (max_orders : nat)
  : comp (list DriverSolution.Solution * Z) :=
  match merged with
  | [] => Ret ([], counter)
  | already_merged :: merged =>
      let! r := merge_two counter solution already_merged max_orders in
      match r with
      | Ok (m, counter) =>
          let! (extension, counter) := extend_with counter solution merged max_orders in
          Ret (m :: extension, counter)
      | Err _ => extend_with counter solution merged max_orders
      end
  end.

Fixpoint merge_loop (counter : Z) (solutions merged : list DriverSolution.Solution) (max_orders : nat)
  : comp (list DriverSolution.Solution * Z) :=
  match solutions with
  | [] => Ret (merged, counter)
  | solution :: solutions =>
      let! (extension, counter) := extend_with counter solution merged max_orders in
      merge_loop counter solutions (merged ++ (extension ++ [solution])) max_orders
  end.

Section competition.
Context (u256_from_f64 : f64 -> Z) (biguint_from_f64 : f64 -> option Z).

Definition score_or_default (a : DriverAuction) (s : DriverSolution.Solution) : Z :=
  ok_or_zero (scoring u256_from_f64 biguint_from_f64 s (da_native_prices a)
    (da_surplus_capturing_jit_order_owners a)).

(** [competition::merge]: all combinations, best score first. *)
Definition merge_solutions (counter : Z) (solutions : list DriverSolution.Solution) (auction : DriverAuction)
  (max_orders : nat) : comp (list DriverSolution.Solution * Z) :=
  let! (merged, counter) := merge_loop counter (take MAX_SOLUTIONS_TO_MERGE solutions) [] max_orders in
  Ret (sort_by (cmp_rev (cmp_on (score_or_default auction) Z.compare)) merged, counter).

(** Scoring the encoded settlements and picking the best: the last of the maxima. *)
Definition pick_best (auction : DriverAuction) (settlements : list DriverSolution.Solution)
  : option (Z * DriverSolution.Solution) :=
  let scores := omap (fun s =>
    match scoring u256_from_f64 biguint_from_f64 s (da_native_prices auction)
            (da_surplus_capturing_jit_order_owners auction) with
    | Ok score => Some (score, s)
    | Err _ => None
    end) settlements in
  max_by_key fst scores.
End competition.

(** ** Floats are totally ordered *)

(** The order of [f64::total_cmp] as keys. *)
Definition f64_key (x : f64) : list Z :=
  match x with
  | S754_infinity true => [0]
  | S754_finite true m e => [1; - e; - Z.pos m]
  | S754_zero true => [2]
  | S754_zero false => [3]
  | S754_finite false m e => [4; e; Z.pos m]
  | S754_infinity false => [5]
  | S754_nan => [6]
  end.

Lemma f64_total_cmp_key x y : f64_total_cmp x y = list_cmp Z.compare (f64_key x) (f64_key y).
Proof.
  destruct x as [[]|[]| |[] m e], y as [[]|[]| |[] n f]; try reflexivity; cbn.
  - rewrite (Z.compare_opp e f), (Z.compare_antisym e f). destruct (Z.compare e f); cbn; try done.
    change (Pos.compare_cont Eq m n) with (Pos.compare m n). rewrite Z.compare_opp. change (Z.pos n ?= Z.pos m) with (n ?= m)%positive. rewrite (Pos.compare_antisym m n).
    by destruct (Pos.compare m n).
  - destruct (Z.compare e f); try done. change (Pos.compare_cont Eq m n) with (Pos.compare m n).
    by destruct (Pos.compare m n).
Qed.

#[export] Instance f64_total_cmp_preorder : CmpPreorder f64_total_cmp.
Proof.
  split.
  - intros x y. rewrite !f64_total_cmp_key. apply (cmp_antisym (list_cmp Z.compare)).
  - intros x y z. rewrite !f64_total_cmp_key. apply (cmp_trans (list_cmp Z.compare)).
Qed.

(** ** Balances are never allocated twice *)

(** Scaling an order to an allocated balance never asks for more than that. *)
Lemma scaled_sell_le sell av target m alloc av' :
  0 <= sell -> 0 <= av -> 0 < target -> m = sell * av / target -> 0 < alloc <= m ->
  av' = av * alloc / m -> sell * av' / target <= alloc.
Proof.
  intros Hs Ha Ht Hm [Hal Hle] Hav'.
  pose proof (Z.mul_div_le (av * alloc) m ltac:(lia)) as H1.
  pose proof (Z.mul_succ_div_gt (sell * av) target ltac:(lia)) as H2. rewrite <-Hm in H2. rewrite <-Hav' in H1.
  destruct (Z.le_gt_cases (sell * av' / target) alloc) as [|Hgt]; [done|]. exfalso.
  assert (H3 : (alloc + 1) * target <= sell * av') by (apply div_le_iff; lia).
  assert (sell * (m * av') <= sell * (av * alloc)) by (apply Z.mul_le_mono_nonneg_l; lia).
  assert ((alloc + 1) * target * m <= sell * av' * m) by (apply Z.mul_le_mono_nonneg_r; lia). nia.
Qed.

Definition balances_wf (balances : Balances) : Prop := map_Forall (fun _ b => u256 b) balances.

Lemma available_sell_partial o a :
  order_partial o = PartialYes a ->
  asset_amount (av_sell (available o)) = default 0 (mul_ratio (asset_amount (order_sell o)) a (target o)).
Proof. intros E. unfold available. by rewrite E. Qed.

Lemma mul_ratio_default_bounds x q d :
  0 <= x -> 0 <= q <= d -> 0 <= default 0 (mul_ratio x q d) <= x.
Proof.
  intros Hx Hq. destruct (mul_ratio x q d) as [r|] eqn:E; simpl; [|lia].
  apply mul_ratio_Some in E as (Hd & -> & _); [|lia..].
  split; [apply Z.div_pos; nia|apply Z.div_le_upper_bound; nia].
Qed.

Lemma scaled_available o av alloc :
  order_wf o -> order_partial o = PartialYes av ->
  0 < alloc <= asset_amount (av_sell (available o)) ->
  0 <= asset_amount (av_sell (available (with_partial
         (PartialYes (default 0 (mul_ratio av alloc (asset_amount (av_sell (available o)))))) o))) <= alloc.
Proof.
  intros (Hsu & _ & Hp) Ep Hal. rewrite Ep in Hp. unfold u256 in Hsu.
  set (m := asset_amount (av_sell (available o))) in *.
  pose proof (mul_ratio_default_bounds av alloc m ltac:(lia) ltac:(lia)) as Hr.
  assert (Hm : m = asset_amount (order_sell o) * av / target o /\ 0 < target o).
  { unfold m in Hal |- *. rewrite (available_sell_partial o av Ep) in Hal |- *.
    destruct (mul_ratio (asset_amount (order_sell o)) av _) as [x|] eqn:Ex; simpl in *; [|lia].
    apply mul_ratio_Some in Ex as (? & -> & _); lia. }
  rewrite (available_sell_partial _ (default 0 (mul_ratio av alloc m))) by done.
  change (target (with_partial _ o)) with (target o). change (order_sell (with_partial _ o)) with (order_sell o).
  destruct (mul_ratio (asset_amount (order_sell o)) _ _) as [s'|] eqn:Es; simpl; [|lia].
  apply mul_ratio_Some in Es as (Ht & -> & _); [|lia..]. split; [apply Z.div_pos; nia|].
  destruct (mul_ratio av alloc m) as [r|] eqn:Er; simpl in *.
  - apply mul_ratio_Some in Er as (_ & Hre & _); [|lia..].
    apply (scaled_sell_le _ av _ m _ r); lia.
  - rewrite Z.mul_0_r, Z.div_0_l; lia.
Qed.

(** The amount allocated to an order is at most what is left, and covers what a
    solver may sell of it. *)
Lemma fund_order_Some balances o o' balances' :
  order_wf o -> balances_wf balances -> fund_order balances o = (Some o', balances') ->
  order_uid o' = order_uid o /\ order_app_data o' = order_app_data o /\ balance_key o' = balance_key o /\
  Available_is_zero (available o') = false /\
  exists b a, balances !! balance_key o = Some b /\
    0 <= asset_amount (av_sell (available o')) <= a /\ a <= b /\
    balances' = <[balance_key o := b - a]> balances.
Proof.
  intros Hwf Hb H. pose proof (available_sell_bounds o Hwf) as Hav. unfold fund_order in H.
  destruct (balances !! balance_key o) as [b|] eqn:Eb; [|done]. cbv zeta in H.
  pose proof (Hb _ _ Eb : u256 b) as Hbu. unfold u256 in Hbu.
  set (m := asset_amount (av_sell (available o))) in *.
  assert (Hsub : forall a, 0 <= a <= b -> wrapping_sub b a = b - a)
    by (intros a Ha; unfold wrapping_sub; apply Z.mod_small; lia).
  destruct (order_partial o) as [av|] eqn:Ep.
  - destruct (Z.eqb_spec (Z.min m b) 0) as [|Hne]; [done|].
    destruct (Available_is_zero _) eqn:Ez; [done|]. injection H as <- <-.
    split_and!; [done..|]. exists b, (Z.min m b).
    pose proof (scaled_available o av (Z.min m b) Hwf Ep ltac:(lia)) as Hsc. fold m in Hsc.
    split_and!; [done|lia|lia|lia|]. by rewrite Hsub by lia.
  - destruct (Z.leb_spec m b); [|by rewrite Z.eqb_refl in H].
    destruct (Z.eqb_spec m 0); [done|]. destruct (Available_is_zero _) eqn:Ez; [done|]. injection H as <- <-.
    split_and!; [done..|]. exists b, m. split_and!; [done|lia|lia|lia|]. by rewrite Hsub by lia.
Qed.

(** A dropped order takes nothing. *)
Lemma fund_order_None balances o balances' : fund_order balances o = (None, balances') -> balances' = balances.
Proof.
  unfold fund_order. destruct (balances !! _); [|by intros [= <-]]. cbv zeta.
  destruct (_ =? 0); [by intros [= <-]|]. destruct (Available_is_zero _); [by intros [= <-]|done].
Qed.

(** An order that pays from its owner's balance. *)
Definition pays_from_balance (cow_amms : gset Z) (o : DriverOrder.Order) : bool :=
  negb (bool_decide (order_uid o ∈ cow_amms))
  && match AppData_flashloan (order_app_data o) with None => true | Some _ => false end.

(** What the orders may sell in total from a balance. *)
Fixpoint spend (cow_amms : gset Z) (orders : list DriverOrder.Order) (k : BalanceKey) : Z :=
  match orders with
  | [] => 0
  | o :: orders =>
      (if pays_from_balance cow_amms o && bool_decide (balance_key o = k)
       then asset_amount (av_sell (available o)) else 0) + spend cow_amms orders k
  end.

(** One step of the loop: an order either takes its share of one balance or nothing. *)
Record allocated (cow_amms : gset Z) (balances : Balances) (o : DriverOrder.Order)
  (kept : option DriverOrder.Order) (balances' : Balances) : Prop := {
  alloc_wf : balances_wf balances';
  alloc_spend k b : balances !! k = Some b -> exists b', balances' !! k = Some b' /\
    match kept with Some o' => spend cow_amms [o'] k | None => 0 end + b' <= b;
  alloc_kept o' : kept = Some o' -> order_uid o' = order_uid o /\
    (pays_from_balance cow_amms o' = true -> Available_is_zero (available o') = false);
}.

Lemma fund_order_allocated cow_amms balances o o1 kept balances' :
  order_wf o1 -> balances_wf balances -> order_uid o1 = order_uid o ->
  fund_order balances o1 = (kept, balances') -> allocated cow_amms balances o kept balances'.
Proof.
  intros Hwf1 Hb Huid H. destruct kept as [o'|].
  - apply fund_order_Some in H as (Hu & _ & Hk & Hz & b & a & Hbk & Ha & Hle & ->); [|done..]. split.
    + apply map_Forall_insert_2; [|done]. pose proof (Hb _ _ Hbk : u256 b). unfold u256 in *. lia.
    + intros k c Hc. cbn [spend]. destruct (decide (balance_key o1 = k)) as [<-|Hne].
      * rewrite lookup_insert_eq. eexists. split; [done|]. assert (c = b) as -> by congruence.
        destruct (_ && _); lia.
      * rewrite lookup_insert_ne by done. exists c. split; [done|].
        rewrite Hk, bool_decide_eq_false_2, andb_false_r by done. lia.
    + intros o2 [= <-]. rewrite Hu. done.
  - apply fund_order_None in H as ->. split; [done| |done]. intros k b Hk. exists b. split; [done|lia].
Qed.

Lemma free_order_allocated cow_amms balances o o1 kept :
  balances_wf balances -> pays_from_balance cow_amms o1 = false -> order_uid o1 = order_uid o ->
  (kept = Some o1 \/ kept = None) -> allocated cow_amms balances o kept balances.
Proof.
  intros Hb Hp Hu Hk. split; [done| |].
  - intros k b Hkb. exists b. split; [done|]. destruct Hk as [-> | ->]; cbn [spend]; rewrite ?Hp; simpl; lia.
  - intros o' ->. destruct Hk as [[= ->]|]; [|done]. split; [done|]. by rewrite Hp.
Qed.

Lemma update_order_allocated cow_amms app_data contract balances o kept balances' :
  order_wf o -> balances_wf balances ->
  update_order cow_amms app_data contract balances o = (kept, balances') ->
  allocated cow_amms balances o kept balances'.
Proof.
  intros Hwf Hb H. unfold update_order in H.
  destruct (bool_decide_reflect (order_uid o ∈ cow_amms)) as [Hc|Hc].
  { injection H as <- <-. apply (free_order_allocated _ _ _ o); auto. unfold pays_from_balance.
    by rewrite bool_decide_eq_true_2. }
  destruct (app_data !! _) as [d|]; [|by apply (fund_order_allocated _ _ _ o)]. cbv zeta in H.
  destruct (AppData_flashloan _) eqn:Ef;
    [|by apply (fund_order_allocated _ _ _ (with_app_data (AppDataFull d) o))].
  injection H as <- <-. apply (free_order_allocated _ _ _ (with_app_data (AppDataFull d) o)); auto.
  - unfold pays_from_balance. by rewrite Ef, andb_false_r.
  - destruct (bool_decide _); auto.
Qed.

(** C21 (safety): the orders handed to a solver never promise more than their owners
    have.  Balances are allocated in order of priority; summed over all orders that
    pay from the same balance (cow amm and flashloan orders aside), what a solver
    may sell, together with what is left, is at most the balance.  No order appears
    that was not in the auction, their order is kept, and none is left with a zero
    amount. *)
Theorem balances_not_overallocated cow_amms app_data contract balances orders kept left :
  Forall order_wf orders -> balances_wf balances ->
  update_orders cow_amms app_data contract balances orders = (kept, left) ->
  (forall k b, balances !! k = Some b ->
     exists b', left !! k = Some b' /\ 0 <= b' /\ spend cow_amms kept k + b' <= b) /\
  order_uid <$> kept `sublist_of` order_uid <$> orders /\
  (forall o, o ∈ kept -> pays_from_balance cow_amms o = true -> Available_is_zero (available o) = false).
Proof.
  intros Hwf. revert balances kept. induction Hwf as [|o orders Ho Hwf IH]; intros balances kept Hb H;
    cbn [update_orders] in H.
  { injection H as <- <-. split_and!; [|done|intros o []%not_elem_of_nil].
    intros k b Hk. exists b. pose proof (Hb _ _ Hk : u256 b) as Hu. unfold u256 in Hu. simpl. split_and!; lia || done. }
  destruct (update_order _ _ _ _ _) as [ko b1] eqn:E1. destruct (update_orders _ _ _ _ _) as [rest b2] eqn:E2.
  injection H as <- <-. apply update_order_allocated in E1 as [Hb1 Hs1 Hk1]; [|done..].
  destruct (IH b1 rest Hb1 E2) as (Hspend & Hsub & Hz). split_and!.
  - intros k b Hk. destruct (Hs1 k b Hk) as (c & Hc & Hle). destruct (Hspend k c Hc) as (d & Hd & Hd0 & Hle').
    exists d. split_and!; [done..|]. destruct ko; cbn [spend] in *; lia.
  - destruct ko as [o'|]; rewrite ?fmap_cons.
    + destruct (Hk1 o' eq_refl) as [-> _]. by constructor.
    + by constructor.
  - intros o1 Ho1 Hp. destruct ko as [o'|]; [|by apply Hz]. apply elem_of_cons in Ho1 as [->|Ho1]; [|by apply Hz].
    by apply Hk1.
Qed.

(** ** Merging is bounded *)
Lemma extend_with_length counter s merged max_orders r c :
  extend_with counter s merged max_orders = Ret (r, c) -> (length r <= length merged)%nat.
Proof.
  revert counter r. induction merged as [|m merged IH]; intros counter r H; cbn [extend_with] in H.
  { by injection H as <- <-. }
  apply comp_bind_Ret in H as ([[x c1]|e] & _ & H).
  - apply comp_bind_Ret in H as ([ext c2] & Hx & [= <- <-]). apply IH in Hx. simpl. lia.
  - apply IH in H. simpl. lia.
Qed.

Lemma merge_loop_spec solutions counter merged max_orders r c :
  merge_loop counter solutions merged max_orders = Ret (r, c) ->
  (length r + 1 <= 2 ^ length solutions * (length merged + 1))%nat /\
  merged ⊆ r /\ solutions ⊆ r.
Proof.
  revert counter merged. induction solutions as [|s solutions IH]; intros counter merged H;
    cbn [merge_loop] in H.
  { injection H as <- <-. split_and!; [simpl; lia|done|]. intros x []%not_elem_of_nil. }
  apply comp_bind_Ret in H as ([ext c1] & Hx & H). apply extend_with_length in Hx.
  apply IH in H as (Hlen & Hm & Hs). rewrite !length_app in Hlen. cbn [length] in *.
  split_and!; [rewrite Nat.pow_succ_r'; nia| |].
  - intros x Hin. apply Hm, elem_of_app. by left.
  - intros x [->|Hin]%elem_of_cons; [|by apply Hs]. apply Hm, elem_of_app. right.
    apply elem_of_app. right. by apply list_elem_of_singleton.
Qed.

(** The combinations of the first ten solutions: at most 1023, the solutions
    themselves among them, best score first. *)
Lemma merge_solutions_spec f g counter solutions auction max_orders r c :
  merge_solutions f g counter solutions auction max_orders = Ret (r, c) ->
  (length r <= 1023)%nat /\ take MAX_SOLUTIONS_TO_MERGE solutions ⊆ r /\
  StronglySorted (fun a b => score_or_default f g auction b <= score_or_default f g auction a) r.
Proof.
  unfold merge_solutions. intros H. apply comp_bind_Ret in H as ([m c1] & Hm & [= <- <-]).
  apply merge_loop_spec in Hm as (Hlen & _ & Hs). set (cmp := cmp_rev _).
  assert (CmpPreorder cmp) by (unfold cmp; apply _). split_and!.
  - rewrite (sort_by_perm cmp). cbn [length] in Hlen.
    assert (2 ^ length (take MAX_SOLUTIONS_TO_MERGE solutions) <= 2 ^ 10)%nat.
    { apply Nat.pow_le_mono_r; [lia|]. rewrite length_take. unfold MAX_SOLUTIONS_TO_MERGE. lia. }
    change (2 ^ 10)%nat with 1024%nat in *. lia.
  - intros x Hx. apply sort_by_elem. by apply Hs.
  - pose proof (sort_by_sorted cmp m) as Hsort. revert Hsort. generalize (sort_by cmp m). clear.
    induction 1 as [|x l Hl IH Hx]; constructor; [done|]. eapply Forall_impl; [exact Hx|].
    intros y Hy. unfold cmp, cmp_rev, cmp_on in Hy. by rewrite Z.compare_le_iff in Hy.
Qed.

(** ** Duplicate ids *)

(** The ids the driver gives to the solutions of a solver's response. *)
Fixpoint number_solutions (counter : Z) (solver_ids : list Z) : list Id * Z :=
  match solver_ids with
  | [] => ([], counter)
  | sid :: solver_ids =>
      let '(id, counter) := Id_new counter sid in
      let '(ids, counter) := number_solutions counter solver_ids in
      (id :: ids, counter)
  end.

Lemma number_solutions_ids counter solver_ids :
  0 <= counter -> counter + Z.of_nat (length solver_ids) < 2 ^ 64 ->
  id_get <$> (number_solutions counter solver_ids).1 = seqZ counter (Z.of_nat (length solver_ids)).
Proof.
  revert counter. induction solver_ids as [|sid l IH]; intros counter H0 Hlt; [done|].
  cbn [length] in *. rewrite seqZ_cons by lia. cbn [number_solutions]. unfold Id_new, next_global_id. cbn.
  destruct (number_solutions _ l) as [ids c] eqn:E. cbn. f_equal.
  rewrite Z.mod_small in E by lia. specialize (IH (counter + 1) ltac:(lia) ltac:(lia)).
  rewrite E in IH. cbn in IH. rewrite IH. f_equal; lia.
Qed.

Lemma discard_duplicates_id ids solutions :
  NoDup ((id_get <$> ids) ++ ((fun s => id_get (sol_id s)) <$> solutions)) ->
  discard_duplicates ids solutions = solutions.
Proof.
  revert ids. induction solutions as [|s solutions IH]; intros ids Hnd; [done|]. cbn [discard_duplicates].
  rewrite fmap_cons in Hnd. destruct (existsb _ ids) eqn:E.
  - apply existsb_exists in E as (i & Hi%list_elem_of_In & [Hg _]%andb_true_iff). apply Z.eqb_eq in Hg.
    apply NoDup_app in Hnd as (_ & Hdis & _). exfalso. apply (Hdis (id_get i)).
    + by apply list_elem_of_fmap_2.
    + rewrite Hg. apply elem_of_cons. by left.
  - f_equal. apply IH. rewrite fmap_cons. cbn [app].
    by rewrite Permutation_middle.
Qed.

(** The filter against duplicate ids never removes a solution of a solver's
    response, whatever ids the solver gave them: every solution gets a fresh id of
    the driver, which is part of what is compared. *)
Theorem duplicate_filter_keeps_all counter solver_ids solutions :
  0 <= counter -> counter + Z.of_nat (length solver_ids) < 2 ^ 64 ->
  sol_id <$> solutions = (number_solutions counter solver_ids).1 ->
  discard_duplicates [] solutions = solutions.
Proof.
  intros H0 Hlt Hids. apply discard_duplicates_id. cbn [fmap list_fmap app].
  change ((fun s => id_get (sol_id s)) <$> solutions) with ((id_get ∘ sol_id) <$> solutions).
  rewrite list_fmap_compose, Hids, number_solutions_ids by done. apply NoDup_seqZ.
Qed.

(** ** Examples *)
Definition partial_order (av : Z) : DriverOrder.Order := with_partial (PartialYes av) (fee_order Sell).
Definition example_balances : Balances := {[ (9, 1, SellErc20) := 1500 ]}.

(** Two orders of the same owner: the second only gets what the first left. *)
Example update_orders_example :
  update_orders ∅ ∅ 77 example_balances [partial_order 1000; partial_order 1000; fee_order Sell]
  = ([partial_order 1000; partial_order 500], {[ (9, 1, SellErc20) := 0 ]}).
Proof. vm_compute. reflexivity. Qed.

Lemma example_orders_wf : Forall order_wf [partial_order 1000; partial_order 1000; fee_order Sell].
Proof.
  assert (Hp : order_wf (partial_order 1000))
    by (split_and!; unfold u256; cbn; [lia..| |]; change (target _) with 1000; lia).
  repeat apply Forall_cons_2; [done|done| |apply Forall_nil_2].
  split_and!; unfold u256; cbn; [lia..|exact I].
Qed.

Lemma balances_not_overallocated_witness :
  exists b', ({[ (9, 1, SellErc20) := 0 ]} : Balances) !! (9, 1, SellErc20) = Some b' /\ 0 <= b' /\
    spend ∅ [partial_order 1000; partial_order 500] (9, 1, SellErc20) + b' <= 1500.
Proof.
  destruct (balances_not_overallocated ∅ ∅ 77 example_balances
    [partial_order 1000; partial_order 1000; fee_order Sell] [partial_order 1000; partial_order 500]
    {[ (9, 1, SellErc20) := 0 ]}) as [H _].
  - exact example_orders_wf.
  - apply map_Forall_singleton. unfold u256. lia.
  - exact update_orders_example.
  - apply H. reflexivity.
Defined.

(** An order that buys something of no value: its buy amount in ether is zero, which
    is not subnormal, and the quotient is infinite. *)
Definition worthless_buy : DriverOrder.Order := partial_order 1000.
Definition sorting_tokens : gmap address DriverToken :=
  <[1 := mkDriverToken None None (Some (10 ^ 18)) 0 true]>
  (<[2 := mkDriverToken None None (Some 1) 0 true]> ∅).

Example worthless_buy_sorts_first :
  strategy_key f64_lit ExternalPrice worthless_buy sorting_tokens 5 0 = KeyFloat (S754_infinity false) /\
  key_cmp (KeyFloat (S754_infinity false)) (KeyFloat (f64_lit (2 ^ 255))) = Gt.
Proof. split; vm_compute; reflexivity. Qed.

(** A solver's response with one id twice: both solutions pass the filter. *)
Lemma duplicate_filter_keeps_all_witness :
  discard_duplicates []
    [example_solution 0 [] ∅;
     mkSolution (mkId 1 [0]) [] ∅ [] [] [] 5 99 None ∅ []]
  = [example_solution 0 [] ∅; mkSolution (mkId 1 [0]) [] ∅ [] [] [] 5 99 None ∅ []].
Proof.
  apply (duplicate_filter_keeps_all 0 [0; 0]); [lia|simpl; lia|reflexivity].
Defined.
