(* ===== verification/DriverSettle.v ===== *)
(** * DriverSettle: the cache of settlements and the settle queue

    The part of [crates/driver/src/domain/competition/mod.rs] that lives between two
    requests of the autopilot: [solve] caches the settlement it bids with, [reveal]
    looks it up, [settle] enqueues a request, and one task takes the requests off
    the queue and hands the settlement to the mempools.

    The settlement is its solution id, its auction and its two calldatas; what the
    node answers ([block], [executed]) is an argument of the operations.  The
    interleavings of these operations are the paths of [step]. *)

From stdpp Require Import base gmap sets list strings relations.
From Stdlib Require Import ZArith Lia.
From S2P Require Import Prelude.

Open Scope Z_scope.

(** ** State *)
Record Settlement := mkSettlement {
  st_solution : Z;
  st_auction_id : Z;
  st_internalized : list Z;
  st_uninternalized : list Z;
}.

Record SettleRequest := mkSettleRequest {
  sr_auction_id : Z;
  sr_solution_id : Z;
  sr_submission_deadline : Z;
}.

Inductive CompetitionError :=
| SolutionNotAvailable
| DeadlineExceeded
| SubmissionError
| TooManyPendingSettlements.

Record Settled := mkSettled {
  settled_tx_hash : Z;
  settled_internalized : list Z;
  settled_uninternalized : list Z;
}.

(** ** The cache *)
Definition MAX_SOLUTION_STORAGE : nat := 5.

(** [push_front] and [truncate] at the end of [solve]. *)
Definition cache_settlement (s : Settlement) (settlements : list Settlement) : list Settlement :=
  take MAX_SOLUTION_STORAGE (s :: settlements).

(** [retain] when a simulation on a new block reverts. *)
Definition void_settlement (solution_id : Z) (settlements : list Settlement) : list Settlement :=
  filter (fun s => st_solution s <> solution_id) settlements.

Definition is_requested (solution_id auction_id : Z) (s : Settlement) : bool :=
  (st_solution s =? solution_id) && (st_auction_id s =? auction_id).

(** [Iterator::position]. *)
Fixpoint position {A} (p : A -> bool) (l : list A) : option nat :=
  match l with
  | [] => None
  | x :: l => if p x then Some O else S <$> position p l
  end.

(** [VecDeque::swap_remove_front]: the element is replaced by the front one. *)
Definition swap_remove_front {A} (index : nat) (l : list A) : option A * list A :=
  match l !! index, l with
  | Some x, front :: _ => (Some x, tail (<[index := front]> l))
  | _, _ => (None, l)
  end.

Definition find_settlement (solution_id auction_id : Z) (settlements : list Settlement) : option Settlement :=
  let? index := position (is_requested solution_id auction_id) settlements in settlements !! index.

Definition reveal (settlements : list Settlement) (solution_id auction_id : Z)
  : result CompetitionError (list Z * list Z) :=
  letr s := ok_or (find_settlement solution_id auction_id settlements) SolutionNotAvailable in
  Ok (st_internalized s, st_uninternalized s).

(** ** The queue *)

(** [settle] puts a request on the bounded channel. *)
Definition settle (capacity : nat) (queue : list SettleRequest) (request : SettleRequest)
  : result CompetitionError (list SettleRequest) :=
  if (length queue <? capacity)%nat then Ok (queue ++ [request]) else Err TooManyPendingSettlements.

Definition ensure_settle_queue_capacity (capacity : nat) (queue : list SettleRequest)
  : result CompetitionError unit :=
  if (capacity - length queue =? 0)%nat then Err TooManyPendingSettlements else Ok tt.

(** [process_settle_request]: the settlement is removed from the cache before it is
    handed to the mempools, whose result is [executed].  The second component is the
    settlement submitted. *)
Definition process_settle_request (settlements : list Settlement) (auction_id solution_id : Z)
  (executed : option Z) : result CompetitionError Settled * option Settlement * list Settlement :=
  match position (is_requested solution_id auction_id) settlements with
  | None => (Err SolutionNotAvailable, None, settlements)
  | Some index =>
      match swap_remove_front index settlements with
      | (None, settlements) => (Err SolutionNotAvailable, None, settlements)
      | (Some s, settlements) =>
          (match executed with
           | None => Err SubmissionError
           | Some tx_hash => Ok (mkSettled tx_hash (st_internalized s) (st_uninternalized s))
           end, Some s, settlements)
      end
  end.

(** One turn of the loop of [process_settle_requests], at the current [block]. *)
Definition process_request (settlements : list Settlement) (block : Z) (request : SettleRequest)
  (executed : option Z) : result CompetitionError Settled * option Settlement * list Settlement :=
  if sr_submission_deadline request <=? block then (Err DeadlineExceeded, None, settlements)
  else process_settle_request settlements (sr_auction_id request) (sr_solution_id request) executed.

(** ** Interleavings *)
Inductive Event :=
| EvCached (s : Settlement)
| EvVoided (solution_id : Z)
| EvRequested (request : SettleRequest)
| EvSubmitted (s : Settlement) (request : SettleRequest) (block : Z).

Record State := mkState {
  settlements : list Settlement;
  queue : list SettleRequest;
  (** The next id of the global counter, and the ids that were taken from it for solutions
      that are not cached. *)
  next_id : Z;
  allocated : list Z;
  (** What happened, the latest first. *)
  log : list Event;
}.

(** Any number of calls of [solve] run at once: each takes ids from the counter, and later
    caches the settlement of one of its solutions, whichever id that has, and may void it
    after that. *)
Inductive step (capacity : nat) : State -> State -> Prop :=
| step_allocate c q n a l :
    step capacity (mkState c q n a l) (mkState c q (n + 1) (n :: a) l)
| step_solve c q n a a' l s : a ≡ₚ st_solution s :: a' ->
    step capacity (mkState c q n a l) (mkState (cache_settlement s c) q n a' (EvCached s :: l))
| step_void c q n a l s : EvCached s ∈ l ->
    step capacity (mkState c q n a l) (mkState (void_settlement (st_solution s) c) q n a (EvVoided (st_solution s) :: l))
| step_settle c q n a l request q' : settle capacity q request = Ok q' ->
    step capacity (mkState c q n a l) (mkState c q' n a (EvRequested request :: l))
| step_process c request q n a l block executed r s c' :
    process_request c block request executed = (r, s, c') ->
    step capacity (mkState c (request :: q) n a l)
      (mkState c' q n a (match s with Some s => EvSubmitted s request block :: l | None => l end)).

Definition initial : State := mkState [] [] 0 [] [].

(** ** Lists *)
Lemma position_Some {A} (p : A -> bool) l i :
  position p l = Some i -> exists x, l !! i = Some x /\ p x = true.
Proof.
  revert i. induction l as [|x l IH]; intros i H; [done|]. simpl in H.
  destruct (p x) eqn:E; [injection H as <-; by exists x|].
  destruct (position p l) as [j|]; [|done]. injection H as <-. by apply IH.
Qed.

Lemma position_None {A} (p : A -> bool) l : position p l = None -> forall x, x ∈ l -> p x = false.
Proof.
  induction l as [|x l IH]; intros H y Hy; [by apply not_elem_of_nil in Hy|]. simpl in H.
  destruct (p x) eqn:E; [done|]. destruct (position p l); [done|].
  apply elem_of_cons in Hy as [->|Hy]; [done|by apply IH].
Qed.

Lemma swap_remove_front_perm {A} (l : list A) i x :
  l !! i = Some x -> exists l', swap_remove_front i l = (Some x, l') /\ x :: l' ≡ₚ l.
Proof.
  unfold swap_remove_front. intros H. rewrite H. destruct l as [|front l]; [done|].
  eexists. split; [done|]. destruct i as [|i]; simpl in *; [by injection H as ->|].
  rewrite insert_take_drop by (by eapply lookup_lt_Some).
  rewrite <-(take_drop_middle l i x H) at 3. rewrite <-!Permutation_middle. by constructor.
Qed.

Lemma Forall_sublist {A} (P : A -> Prop) l k : Forall P k -> l `sublist_of` k -> Forall P l.
Proof. rewrite !Forall_forall. intros Hk Hs x Hx. apply Hk. by eapply elem_of_sublist. Qed.

(** ** Invariant *)

(** When the settlement goes to the mempools in answer to the request: it was cached and
    requested, neither voided nor submitted before, and the deadline has not passed. *)
Record submission_ok (past : list Event) (s : Settlement) (request : SettleRequest) (block : Z) : Prop := {
  sub_cached : EvCached s ∈ past;
  sub_requested : EvRequested request ∈ past;
  sub_not_voided : ~ EvVoided (st_solution s) ∈ past;
  sub_once : forall s' r' b', EvSubmitted s' r' b' ∈ past -> st_solution s' <> st_solution s;
  sub_solution : sr_solution_id request = st_solution s;
  sub_auction : sr_auction_id request = st_auction_id s;
  sub_in_time : block < sr_submission_deadline request;
}.

Definition submissions_ok (l : list Event) : Prop :=
  forall later past s r b, l = later ++ EvSubmitted s r b :: past -> submission_ok past s r b.

Lemma submissions_ok_cons e l :
  match e with EvSubmitted s r b => submission_ok l s r b | _ => True end -> submissions_ok l -> submissions_ok (e :: l).
Proof. intros He Hl [|e' later] past s r b; cbn [app]; intros [= -> ->]; [done|]. by apply (Hl later). Qed.

(** The ids of the settlements that were cached. *)
Definition cached_ids (l : list Event) : list Z := omap (fun e => match e with EvCached s => Some (st_solution s) | _ => None end) l.

#[local] Arguments cached_ids : simpl never.

Lemma cached_ids_cached s l : cached_ids (EvCached s :: l) = st_solution s :: cached_ids l.
Proof. done. Qed.
Lemma cached_ids_other e l : match e with EvCached _ => False | _ => True end -> cached_ids (e :: l) = cached_ids l.
Proof. by destruct e. Qed.

Lemma elem_of_cached_ids l s : EvCached s ∈ l -> st_solution s ∈ cached_ids l.
Proof. intros H. apply list_elem_of_omap. by exists (EvCached s). Qed.

(** A settlement that can be submitted. *)
Definition obtainable (l : list Event) (s : Settlement) : Prop :=
  EvCached s ∈ l /\ ~ EvVoided (st_solution s) ∈ l /\ forall s' r b, EvSubmitted s' r b ∈ l -> st_solution s' <> st_solution s.

Record wf (capacity : nat) (s : State) : Prop := {
  wf_cache_size : (length (settlements s) <= MAX_SOLUTION_STORAGE)%nat;
  wf_queue_size : (length (queue s) <= capacity)%nat;
  wf_unique : NoDup (st_solution <$> settlements s);
  wf_ids : NoDup (allocated s ++ cached_ids (log s));
  wf_counter : Forall (fun i => i < next_id s) (allocated s ++ cached_ids (log s));
  wf_obtainable : Forall (obtainable (log s)) (settlements s);
  wf_requested : Forall (fun r => EvRequested r ∈ log s) (queue s);
  (** Only what was cached is voided or submitted. *)
  wf_voided : forall i, EvVoided i ∈ log s -> i ∈ cached_ids (log s);
  wf_submitted : forall x r b, EvSubmitted x r b ∈ log s -> st_solution x ∈ cached_ids (log s);
  wf_log : submissions_ok (log s);
}.

Lemma process_request_spec c block request executed r s c' :
  process_request c block request executed = (r, s, c') ->
  match s with
  | Some s => s :: c' ≡ₚ c /\ sr_solution_id request = st_solution s /\ sr_auction_id request = st_auction_id s /\
              block < sr_submission_deadline request
  | None => c' = c
  end.
Proof.
  unfold process_request, process_settle_request.
  destruct (Z.leb_spec (sr_submission_deadline request) block) as [|Hb]; [by intros [= <- <- <-]|].
  destruct (position _ c) as [i|] eqn:Ei; [|by intros [= <- <- <-]].
  apply position_Some in Ei as (x & Hx & [Hs%Z.eqb_eq Ha%Z.eqb_eq]%andb_true_iff).
  destruct (swap_remove_front_perm c i x Hx) as (l & -> & Hp). by intros [= <- <- <-].
Qed.

Lemma Forall_requested (q : list SettleRequest) e l :
  Forall (fun r => EvRequested r ∈ l) q -> Forall (fun r => EvRequested r ∈ e :: l) q.
Proof. intros H. eapply Forall_impl; [exact H|]. intros r. by right. Qed.

(** Which events make a cached settlement unavailable. *)
Lemma obtainable_cons e l s :
  match e with EvVoided i => i <> st_solution s | EvSubmitted x _ _ => st_solution x <> st_solution s | _ => True end ->
  obtainable l s -> obtainable (e :: l) s.
Proof.
  intros He (Hc & Hv & Hs). split; [by right|]. split.
  - intros [<-|Hin]%elem_of_cons; [by apply He|done].
  - intros s' r b [<-|Hin]%elem_of_cons; [done|by eapply Hs].
Qed.

Lemma solve_wf capacity c q n a a' l s : a ≡ₚ st_solution s :: a' ->
  wf capacity (mkState c q n a l) -> wf capacity (mkState (cache_settlement s c) q n a' (EvCached s :: l)).
Proof.
  intros Ha [Hlen Hq Hu Hids Hn Hav Hreq Hvoid Hsub Hlog]. cbn in *. rewrite Ha in Hids, Hn. cbn [app] in Hids, Hn.
  assert (Hnew : st_solution s ∉ cached_ids l) by (apply NoDup_cons in Hids as [Hi _]; set_solver).
  assert (Hsl : cache_settlement s c `sublist_of` s :: c) by (unfold cache_settlement; apply sublist_take).
  assert (Hfresh : forall x, x ∈ c -> st_solution x <> st_solution s).
  { intros x Hx E. rewrite Forall_forall in Hav. apply Hav in Hx as [Hx%elem_of_cached_ids _]. congruence. }
  split; cbn [settlements queue next_id allocated log]; rewrite ?cached_ids_cached.
  - cbn. rewrite length_take. unfold MAX_SOLUTION_STORAGE. lia.
  - done.
  - eapply sublist_NoDup; [|apply fmap_sublist; exact Hsl]. rewrite fmap_cons. constructor; [|done].
    intros (x & E & Hx)%list_elem_of_fmap. by apply (Hfresh x).
  - by rewrite <-Permutation_middle.
  - by rewrite <-Permutation_middle.
  - eapply Forall_sublist; [|exact Hsl]. constructor.
    + split; [left|]. split.
      * intros [[=]|Hin]%elem_of_cons. by apply Hvoid in Hin.
      * intros x r b [[=]|Hin]%elem_of_cons E. apply Hsub in Hin. congruence.
    + eapply Forall_impl; [exact Hav|]. intros x. by apply obtainable_cons.
  - by apply Forall_requested.
  - intros i [[=]|Hin]%elem_of_cons. right. by apply Hvoid.
  - intros x r b [[=]|Hin]%elem_of_cons. right. by eapply Hsub.
  - by apply submissions_ok_cons.
Qed.

Lemma void_wf capacity c q n a l s : EvCached s ∈ l -> wf capacity (mkState c q n a l) ->
  wf capacity (mkState (void_settlement (st_solution s) c) q n a (EvVoided (st_solution s) :: l)).
Proof.
  intros Hs [Hlen Hq Hu Hids Hn Hav Hreq Hvoid Hsub Hlog]. cbn in *.
  assert (Hsl : void_settlement (st_solution s) c `sublist_of` c) by apply sublist_filter.
  split; cbn [settlements queue next_id allocated log]; rewrite ?cached_ids_other by done; try done.
  - pose proof (sublist_length _ _ Hsl). lia.
  - eapply sublist_NoDup; [exact Hu|by apply fmap_sublist].
  - apply Forall_forall. intros x [Hx Hin]%list_elem_of_filter. rewrite Forall_forall in Hav.
    apply obtainable_cons; [congruence|by apply Hav].
  - by apply Forall_requested.
  - intros i [[= ->]|Hin]%elem_of_cons; [by apply elem_of_cached_ids|by apply Hvoid].
  - intros x r b [[=]|Hin]%elem_of_cons. by eapply Hsub.
  - by apply submissions_ok_cons.
Qed.

Lemma submit_wf capacity c c' req q n a l s block :
  s :: c' ≡ₚ c -> sr_solution_id req = st_solution s -> sr_auction_id req = st_auction_id s -> block < sr_submission_deadline req ->
  wf capacity (mkState c (req :: q) n a l) -> wf capacity (mkState c' q n a (EvSubmitted s req block :: l)).
Proof.
  intros Hp Hsid Haid Hb [Hlen Hq Hu Hids Hn Hav Hreq Hvoid Hsub Hlog]. cbn in *. rewrite <-Hp in Hlen, Hu, Hav.
  apply Forall_cons in Hav as [(Hs & Hnv & Hns) Hav]. apply Forall_cons in Hreq as [Hr Hreq]. cbn [length] in Hlen.
  rewrite fmap_cons in Hu. apply NoDup_cons in Hu as [Hnot Hu].
  split; cbn [settlements queue next_id allocated log]; rewrite ?cached_ids_other by done; try done; try lia.
  - apply Forall_forall. intros x Hx. apply obtainable_cons; [|rewrite Forall_forall in Hav; by apply Hav].
    intros E. apply Hnot. rewrite E. by apply list_elem_of_fmap_2.
  - by apply Forall_requested.
  - intros i [[=]|Hin]%elem_of_cons. by apply Hvoid.
  - intros x r b [[= -> _ _]|Hin]%elem_of_cons; [by apply elem_of_cached_ids|by eapply Hsub].
  - apply submissions_ok_cons; [|done]. split; try done.
Qed.

Lemma step_wf capacity s s' : step capacity s s' -> wf capacity s -> wf capacity s'.
Proof.
  intros Hstep Hwf.
  destruct Hstep as [c q n a l|c q n a a' l s Ha|c q n a l s Hs|c q n a l req q' Hq|c req q n a l b e r s c' H].
  - destruct Hwf as [Hlen Hq Hu Hids Hn Hav Hreq Hvoid Hsub Hlog]. cbn in *. split; cbn; try done.
    + constructor; [|done]. intros Hin. rewrite Forall_forall in Hn. apply Hn in Hin. lia.
    + constructor; [lia|]. eapply Forall_impl; [exact Hn|]. intros x Hx. simpl in Hx. lia.
  - by eapply solve_wf.
  - by apply void_wf.
  - destruct Hwf as [Hlen Hq' Hu Hids Hn Hav Hreq Hvoid Hsub Hlog]. cbn in *. unfold settle in Hq.
    destruct (Nat.ltb_spec (length q) capacity); [|done]. injection Hq as <-.
    split; cbn [settlements queue next_id allocated log]; rewrite ?cached_ids_other by done; try done.
    + rewrite length_app. simpl. lia.
    + eapply Forall_impl; [exact Hav|]. intros x. by apply obtainable_cons.
    + apply Forall_app. split; [by apply Forall_requested|]. apply Forall_singleton. left.
    + intros i [[=]|Hin]%elem_of_cons. by apply Hvoid.
    + intros x r b [[=]|Hin]%elem_of_cons. by eapply Hsub.
    + by apply submissions_ok_cons.
  - apply process_request_spec in H. destruct s as [s|].
    + destruct H as (Hp & Hsid & Haid & Hb). by eapply submit_wf.
    + subst c'. destruct Hwf as [Hlen Hq' Hu Hids Hn Hav Hreq Hvoid Hsub Hlog]. cbn in *.
      apply Forall_cons in Hreq as [_ Hreq]. split; cbn; try done. lia.
Qed.

Lemma reachable_wf capacity s : rtc (step capacity) initial s -> wf capacity s.
Proof.
  revert s. apply rtc_ind_r; [|eauto using step_wf].
  split; cbn; [unfold MAX_SOLUTION_STORAGE; lia|lia|constructor..| | |].
  - by intros i Hi%not_elem_of_nil.
  - by intros x r b Hx%not_elem_of_nil.
  - by intros [|? ?] past s r b.
Qed.

(** C20 (invariant): however any number of calls of [solve], voiding, requests to settle and
    the settling task interleave, a settlement only goes to the mempools in answer to a
    request that names its solution and its auction, before the deadline of that request,
    after it was cached, if it was neither voided nor submitted before.  A cached
    settlement was neither voided nor submitted; the cache holds at most five settlements
    with distinct solutions, and the queue never exceeds its capacity. *)
Theorem settled_at_most_once capacity s :
  rtc (step capacity) initial s ->
  (forall later past x request block, log s = later ++ EvSubmitted x request block :: past ->
     submission_ok past x request block) /\
  (forall x, x ∈ settlements s -> ~ EvVoided (st_solution x) ∈ log s /\
     forall y r b, EvSubmitted y r b ∈ log s -> st_solution y <> st_solution x) /\
  NoDup (st_solution <$> settlements s) /\
  (length (settlements s) <= MAX_SOLUTION_STORAGE)%nat /\ (length (queue s) <= capacity)%nat.
Proof.
  intros [Hlen Hq Hu _ _ Hav _ _ _ Hlog]%reachable_wf. split_and!; try done.
  intros x Hx. rewrite Forall_forall in Hav. by destruct (Hav x Hx) as (_ & ? & ?).
Qed.

(** ** Requests are answered *)

(** A settlement is available until it is voided, submitted or pushed out. *)
Lemma find_settlement_elem c s :
  NoDup (st_solution <$> c) -> s ∈ c -> find_settlement (st_solution s) (st_auction_id s) c = Some s.
Proof.
  intros Hnd Hs. unfold find_settlement. destruct (position _ c) as [i|] eqn:Ei.
  - apply position_Some in Ei as (x & Hx & [E _]%andb_true_iff). apply Z.eqb_eq in E.
    apply list_elem_of_lookup in Hs as [j Hj]. rewrite Hx.
    assert (i = j) as ->; [|congruence]. eapply NoDup_lookup; [exact Hnd| |].
    + by rewrite list_lookup_fmap, Hx.
    + rewrite list_lookup_fmap, Hj. simpl. by rewrite E.
  - apply (position_None _ _ Ei) in Hs. unfold is_requested in Hs. by rewrite !Z.eqb_refl in Hs.
Qed.

(** A request to settle a cached solution before its deadline
    submits exactly that settlement, whatever the state of the cache: the answer
    carries its calldata when the mempools succeed, and the cache loses it and
    nothing else. *)
Theorem settle_submits_the_request capacity c request q n a l block executed s :
  rtc (step capacity) initial (mkState c (request :: q) n a l) ->
  s ∈ c -> st_solution s = sr_solution_id request -> st_auction_id s = sr_auction_id request ->
  block < sr_submission_deadline request ->
  exists c', process_request c block request executed =
    (match executed with
     | Some tx => Ok (mkSettled tx (st_internalized s) (st_uninternalized s))
     | None => Err SubmissionError
     end, Some s, c') /\ s :: c' ≡ₚ c.
Proof.
  intros [_ _ Hnd]%reachable_wf Hs Hid Haid Hb. cbn in Hnd.
  apply (find_settlement_elem c s Hnd) in Hs. unfold find_settlement in Hs. rewrite Hid, Haid in Hs.
  unfold process_request, process_settle_request. destruct (Z.leb_spec (sr_submission_deadline request) block); [lia|].
  destruct (position _ c) as [i|]; [|done].
  destruct (swap_remove_front_perm c i s Hs) as (c' & -> & Hp). by exists c'.
Qed.

(** ** Examples *)
Definition sample (i : Z) : Settlement := mkSettlement i 1 [i] [i; i].
Definition request_for (i : Z) : SettleRequest := mkSettleRequest 1 i 100.

(** Two calls of [solve] run at once: the first solution is cached last. *)
Definition after_solving : State :=
  mkState [sample 0; sample 1] [] 2 [] [EvCached (sample 0); EvCached (sample 1)].

Lemma after_solving_reachable : rtc (step 2) initial after_solving.
Proof.
  eapply rtc_l; [apply step_allocate|]. eapply rtc_l; [apply step_allocate|]. cbn.
  eapply rtc_l; [apply (step_solve 2 _ _ _ _ [0] _ (sample 1)); reflexivity|].
  eapply rtc_l; [apply (step_solve 2 _ _ _ _ [] _ (sample 0)); reflexivity|]. apply rtc_refl.
Qed.

(** The solution 1 is settled; the solution 0 is voided, and a request for it in vain. *)
Definition after_settling : State :=
  mkState [] [] 2 [] [EvRequested (request_for 0); EvVoided 0; EvSubmitted (sample 1) (request_for 1) 10;
                      EvRequested (request_for 1); EvCached (sample 0); EvCached (sample 1)].

Lemma after_request : rtc (step 2) initial
  (mkState [sample 0; sample 1] [request_for 1] 2 [] [EvRequested (request_for 1); EvCached (sample 0); EvCached (sample 1)]).
Proof. eapply rtc_r; [apply after_solving_reachable|]. by apply (step_settle 2 _ _ _ _ _ (request_for 1)). Qed.

Lemma after_settling_reachable : rtc (step 2) initial after_settling.
Proof.
  etransitivity; [apply after_request|].
  eapply rtc_l; [by apply (step_process 2 [sample 0; sample 1] (request_for 1) [] 2 [] _ 10 (Some 7)
    (Ok (mkSettled 7 [1] [1; 1])) (Some (sample 1)) [sample 0])|].
  eapply rtc_l; [apply (step_void 2 _ _ _ _ _ (sample 0)); set_solver|].
  eapply rtc_l; [by apply (step_settle 2 _ _ _ _ _ (request_for 0))|].
  eapply rtc_l; [by apply (step_process 2 [] (request_for 0) [] 2 [] _ 10 (Some 7) (Err SolutionNotAvailable) None [])|].
  apply rtc_refl.
Qed.

Lemma settled_at_most_once_witness :
  submission_ok [EvRequested (request_for 1); EvCached (sample 0); EvCached (sample 1)] (sample 1) (request_for 1) 10 /\
  (length (queue after_settling) <= 2)%nat.
Proof.
  destruct (settled_at_most_once 2 after_settling after_settling_reachable) as (H & _ & _ & _ & Hq). split; [|exact Hq].
  by apply (H [EvRequested (request_for 0); EvVoided 0]).
Defined.

Lemma settle_submits_the_request_witness :
  exists c', process_request [sample 0; sample 1] 10 (request_for 1) (Some 7)
    = (Ok (mkSettled 7 [1] [1; 1]), Some (sample 1), c') /\ sample 1 :: c' ≡ₚ [sample 0; sample 1].
Proof.
  apply (settle_submits_the_request 2 [sample 0; sample 1] (request_for 1) [] 2 [] _ 10 (Some 7) (sample 1) after_request).
  - set_solver.
  - reflexivity.
  - reflexivity.
  - reflexivity.
Defined.

(** Removing a settlement moves the newest one back in the cache; three solutions later it
    is pushed out, while two older ones are still there. *)
Example newer_settlement_evicted :
  let cached := [sample 4; sample 3; sample 2; sample 1; sample 0] in
  let settled := (process_request cached 10 (request_for 1) (Some 7)).2 in
  st_solution <$> settled = [3; 2; 4; 0] /\
  st_solution <$> cache_settlement (sample 7) (cache_settlement (sample 6) (cache_settlement (sample 5) settled)) =
    [7; 6; 5; 3; 2].
Proof. by vm_compute. Qed.
