(* ===== verification/EventHandling.v ===== *)
(** * EventHandling: indexing contract events across chain reorganizations

    [crates/shared/src/event_handling.rs]: a handler keeps the last handled blocks
    and a store of events in step with the canonical chain: it finds the blocks that
    are new or were replaced, fetches their events from the node and replaces or
    appends them in its store.

    The node is an argument: what it answers to the calls of one update.  A block is
    its number and its hash.  Stores implement the class [EventStoring]; [EventStore]
    says what the handler relies on, and the two kinds of stores of the repository
    are its instances: those that delete every event from a block on
    ([boundary/events/settlement.rs]) and those that delete the events of a range of
    blocks ([database/ethflow_events/event_storing.rs]). *)

From stdpp Require Import base gmap sets list strings relations.
From Stdlib Require Import ZArith Lia.
From S2P Require Import Prelude Collections.

Open Scope nat_scope.

Abbreviation BlockNumberHash := (nat * Z)%type.

Definition MAX_REORG_BLOCK_COUNT : nat := 64.
Definition INSERT_EVENT_BATCH_SIZE : nat := Z.to_nat 10000.
Definition MAX_BLOCKS_QUERIED : nat := 2 * MAX_REORG_BLOCK_COUNT.
Definition MAX_PARALLEL_RPC_CALLS : nat := 128.

Inductive EventError :=
| EmptyRange
| NodeError
| StoreError
| NoBlocksToUpdate
| UpdateDonePartially.

(** [RangeInclusive::try_new]. *)
Definition RangeInclusive_try_new (start end_ : nat) : result EventError (nat * nat) :=
  if (start <=? end_) then Ok (start, end_) else Err EmptyRange.

(** ** Interfaces *)
Record BlockInfo := mkBlockInfo { bi_number : nat; bi_hash : Z; bi_parent_hash : Z }.

(** What the node answers. *)
Record Node (E : Type) := mkNode {
  node_current_block : result EventError BlockInfo;
  node_blocks : nat * nat -> result EventError (list BlockNumberHash);
  node_events_by_hash : Z -> result EventError (list E);
  node_events_by_range : nat * nat -> result EventError (list (result EventError E));
}.
Arguments mkNode {E}.
Arguments node_current_block {E} n.
Arguments node_blocks {E} n.
Arguments node_events_by_hash {E} n.
Arguments node_events_by_range {E} n.

Class EventStoring (S E : Type) := {
  replace_events : S -> list E -> nat * nat -> result EventError S;
  append_events : S -> list E -> result EventError S;
  last_event_block : S -> result EventError nat;
  persist_last_indexed_block : S -> nat -> result EventError S;
}.

Record EventRange := mkEventRange {
  history_range : option (nat * nat);
  latest_blocks : list BlockNumberHash;
  is_reorg : bool;
}.

Record EventHandler (S : Type) := mkEventHandler {
  handler_store : S;
  last_handled_blocks : list BlockNumberHash;
}.
Arguments mkEventHandler {S}.
Arguments handler_store {S} e.
Arguments last_handled_blocks {S} e.

(** ** Helpers *)

(** [Iterator::chunks] and [slice::chunks]: no empty chunk. *)
Fixpoint chunks_fuel {A} (fuel n : nat) (l : list A) : list (list A) :=
  match fuel, l with
  | S fuel, _ :: _ => take n l :: chunks_fuel fuel n (drop n l)
  | _, _ => []
  end.
Definition chunks {A} (n : nat) (l : list A) : list (list A) := chunks_fuel (length l) n l.

(** The last index of a block in a list, found from the back. *)
Fixpoint last_index_of (b : BlockNumberHash) (l : list BlockNumberHash) : option nat :=
  match l with
  | [] => None
  | x :: l => match last_index_of b l with
              | Some i => Some (S i)
              | None => if bool_decide (x = b) then Some O else None
              end
  end.

Fixpoint detect_reorg_loop (handled_blocks latest_blocks todo : list BlockNumberHash)
  : list BlockNumberHash * bool :=
  match todo with
  | [] => (latest_blocks, negb (bool_decide (handled_blocks = [])))
  | handled_block :: todo =>
      match last_index_of handled_block latest_blocks with
      | Some i => (drop (i + 1) latest_blocks, negb (bool_decide (Some handled_block = last handled_blocks)))
      | None => detect_reorg_loop handled_blocks latest_blocks todo
      end
  end.

Definition detect_reorg_path (handled_blocks latest_blocks : list BlockNumberHash)
  : list BlockNumberHash * bool :=
  detect_reorg_loop handled_blocks latest_blocks (reverse handled_blocks).

Definition split_range (range : nat * nat) : comp (option (nat * nat) * (nat * nat)) :=
  let '(start, end_) := range in
  if (MAX_BLOCKS_QUERIED <? end_ - start) then
    let! history := expect (ok (RangeInclusive_try_new start (end_ - MAX_BLOCKS_QUERIED))) in
    let! latest := expect (ok (RangeInclusive_try_new (end_ - MAX_BLOCKS_QUERIED + 1) end_)) in
    Ret (Some history, latest)
  else Ret (None, range).

(** ** The handler *)
Section handler.
Context {S E : Type} `{EventStoring S E}.

Definition with_store (s : S) (h : EventHandler S) : EventHandler S :=
  mkEventHandler s (last_handled_blocks h).

Definition EventHandler_new (store : S) (start_sync_at_block : option BlockNumberHash) : EventHandler S :=
  mkEventHandler store match start_sync_at_block with Some block => [block] | None => [] end.

Definition new_skip_blocks_before (store : S) (skip_blocks_before : BlockNumberHash)
  : result EventError (EventHandler S) :=
  letr last_handled_block := last_event_block store in
  Ok (EventHandler_new store
        (if (skip_blocks_before.1 <=? last_handled_block) then None else Some skip_blocks_before)).

(** The case of several new blocks on top of the last handled one. *)
Definition new_blocks_without_reorg (node : Node E) (last_handled : BlockNumberHash) (current : nat)
  : result EventError (option (list BlockNumberHash)) :=
  match RangeInclusive_try_new last_handled.1 current with
  | Err _ => Ok None
  | Ok range =>
      if (range.2 - range.1 <=? MAX_REORG_BLOCK_COUNT) then
        letr new_blocks := node_blocks node range in
        Ok match new_blocks with
           | first :: rest => if Z.eqb first.2 last_handled.2 then Some rest else None
           | [] => None
           end
      else Ok None
  end.

Definition event_block_range (node : Node E) (h : EventHandler S)
  : comp (result EventError EventRange) :=
  let!r handled_blocks :=
    match last_handled_blocks h with
    | [] => Ret (letr last_handled_block := last_event_block (handler_store h) in
                 letr range := RangeInclusive_try_new last_handled_block last_handled_block in
                 node_blocks node range)
    | blocks => Ret (Ok blocks)
    end in
  let!r current_block := Ret (node_current_block node) in
  let! last_handled := expect (last handled_blocks) in
  if Z.eqb (bi_parent_hash current_block) last_handled.2 then
    Ret (Ok (mkEventRange None [(bi_number current_block, bi_hash current_block)] false))
  else if bool_decide ((bi_number current_block, bi_hash current_block) = last_handled) then
    Ret (Ok (mkEventRange None [] false))
  else
    let!r new_blocks := Ret (new_blocks_without_reorg node last_handled (bi_number current_block)) in
    match new_blocks with
    | Some new_blocks => Ret (Ok (mkEventRange None new_blocks false))
    | None =>
        let!r block_range := Ret (RangeInclusive_try_new
                                    (last_handled.1 - MAX_REORG_BLOCK_COUNT) (bi_number current_block)) in
        let! (history_range, latest_range) := split_range block_range in
        let!r latest_blocks := Ret (node_blocks node latest_range) in
        let '(latest_blocks, is_reorg) :=
          match history_range with
          | Some _ => (latest_blocks, true)
          | None => detect_reorg_path handled_blocks latest_blocks
          end in
        Ret (Ok (mkEventRange history_range latest_blocks is_reorg))
    end.

Definition update_last_handled_blocks (blocks : list BlockNumberHash) (h : EventHandler S) : EventHandler S :=
  match blocks with
  | [] => h
  | first :: _ =>
      let kept := filter (fun b => (b.1 < first.1)) (last_handled_blocks h) ++ blocks in
      mkEventHandler (handler_store h) (drop (length kept - MAX_REORG_BLOCK_COUNT) kept)
  end.

(** The loop over the chunks of the event stream: the first chunk replaces the
    events of the range, the others are appended.  The store is changed even when
    the loop ends early. *)
Fixpoint store_chunks (s : S) (range : nat * nat) (chunks : list (list (result EventError E)))
  (have_deleted_old_events : bool) : S * result EventError bool :=
  match chunks with
  | [] => (s, Ok have_deleted_old_events)
  | chunk :: chunks =>
      match mapM (fun r => ok r) chunk with
      | None => (s, Err NodeError)
      | Some events =>
          match (if have_deleted_old_events then append_events s events
                 else replace_events s events range) with
          | Err e => (s, Err e)
          | Ok s => store_chunks s range chunks true
          end
      end
  end.

Definition update_events_from_old_blocks (node : Node E) (h : EventHandler S) (range : nat * nat)
  : EventHandler S * result EventError unit :=
  match letr blocks_range := RangeInclusive_try_new (range.2 - MAX_REORG_BLOCK_COUNT) range.2 in
        letr blocks := node_blocks node blocks_range in
        letr events := node_events_by_range node range in
        Ok (blocks, events) with
  | Err e => (h, Err e)
  | Ok (blocks, events) =>
      match store_chunks (handler_store h) range (chunks INSERT_EVENT_BATCH_SIZE events) false with
      | (s, Err e) => (with_store s h, Err e)
      | (s, Ok have_deleted_old_events) =>
          match (if have_deleted_old_events then Ok s else replace_events s [] range) with
          | Err e => (with_store s h, Err e)
          | Ok s => (update_last_handled_blocks blocks (with_store s h), Ok tt)
          end
      end
  end.

(** The results of one chunk of calls, in order; [i] counts within the chunk.  The
    flag says that a call failed. *)
Fixpoint collect_chunk (node : Node E) (blocks chunk : list BlockNumberHash) (i : nat)
  (blocks_filtered : list BlockNumberHash) (events : list E) : comp (list BlockNumberHash * list E * bool) :=
  match chunk with
  | [] => Ret (blocks_filtered, events, false)
  | block :: chunk =>
      match node_events_by_hash node block.2 with
      | Ok e =>
          let! b := expect (blocks !! i) in
          collect_chunk node blocks chunk (Datatypes.S i) (blocks_filtered ++ [b]) (events ++ e)
      | Err _ => Ret (blocks_filtered, events, true)
      end
  end.

Fixpoint collect_chunks (node : Node E) (blocks : list BlockNumberHash) (chunks : list (list BlockNumberHash))
  (blocks_filtered : list BlockNumberHash) (events : list E) : comp (list BlockNumberHash * list E) :=
  match chunks with
  | [] => Ret (blocks_filtered, events)
  | chunk :: chunks =>
      let! (blocks_filtered, events, failed) := collect_chunk node blocks chunk 0 blocks_filtered events in
      if (failed : bool) then Ret (blocks_filtered, events)
      else collect_chunks node blocks chunks blocks_filtered events
  end.

Definition past_events_by_block_hashes (node : Node E) (blocks : list BlockNumberHash)
  : comp (list BlockNumberHash * list E) :=
  collect_chunks node blocks (chunks MAX_PARALLEL_RPC_CALLS blocks) [] [].

Definition update_events_from_latest_blocks (node : Node E) (h : EventHandler S)
  (latest_blocks : list BlockNumberHash) (is_reorg : bool) : comp (EventHandler S * result EventError unit) :=
  let! (blocks, events) := past_events_by_block_hashes node latest_blocks in
  match blocks, last blocks with
  | first :: _, Some last =>
      match RangeInclusive_try_new first.1 last.1 with
      | Err e => Ret (h, Err e)
      | Ok range =>
          match (if is_reorg then replace_events (handler_store h) events range
                 else append_events (handler_store h) events) with
          | Err e => Ret (h, Err e)
          | Ok s =>
              let h := update_last_handled_blocks blocks (with_store s h) in
              Ret (h, if bool_decide (blocks = latest_blocks) then Ok tt else Err UpdateDonePartially)
          end
      end
  | _, _ => Ret (h, Err NoBlocksToUpdate)
  end.

Definition update_events (node : Node E) (h : EventHandler S) : comp (EventHandler S * result EventError unit) :=
  let! range := event_block_range node h in
  match range with
  | Err e => Ret (h, Err e)
  | Ok event_range =>
      let '(h, r) := match history_range event_range with
                     | Some range => update_events_from_old_blocks node h range
                     | None => (h, Ok tt)
                     end in
      match r, last (latest_blocks event_range) with
      | Err e, _ => Ret (h, Err e)
      | Ok _, None => Ret (h, Ok tt)
      | Ok _, Some last_block =>
          let! (h, r) := update_events_from_latest_blocks node h (latest_blocks event_range)
                           (is_reorg event_range) in
          match r with
          | Err e => Ret (h, Err e)
          | Ok _ =>
              match persist_last_indexed_block (handler_store h) last_block.1 with
              | Err e => Ret (h, Err e)
              | Ok s => Ret (with_store s h, Ok tt)
              end
          end
      end
  end.
End handler.

(** ** What a store promises *)

(** [stored] lists the events of a store.  Replacing the events of a range keeps
    what is older, and promises nothing about what is newer than the range but that
    nothing is invented. *)
Class EventStore (S E : Type) `{!EventStoring S E} (block_of : E -> nat) := {
  stored : S -> list E;
  append_ok s es : exists s', append_events s es = Ok s' /\ stored s' ≡ₚ stored s ++ es;
  replace_ok s es a b : a <= b -> Forall (fun e => a <= block_of e <= b) es ->
    exists s', replace_events s es (a, b) = Ok s' /\
      filter (fun e => block_of e <= b) (stored s') ≡ₚ filter (fun e => block_of e < a) (stored s) ++ es /\
      forall e, e ∈ stored s' -> block_of e <= b \/ e ∈ stored s;
  persist_ok s n : exists s', persist_last_indexed_block s n = Ok s' /\ stored s' = stored s;
}.

(** ** Chains *)
Record Chain := mkChain { tip : nat; hash_at : nat -> Z }.

(** The blocks and the events of the numbers from [a] up to but not including [e]. *)
Definition between (c : Chain) (a e : nat) : list BlockNumberHash :=
  (fun i => (i, hash_at c i)) <$> seq a (e - a).
Definition events_between {E} (log : Z -> list E) (c : Chain) (a e : nat) : list E :=
  seq a (e - a) ≫= fun i => log (hash_at c i).

Lemma seq_split a m e : a <= m <= e -> seq a (e - a) = seq a (m - a) ++ seq m (e - m).
Proof. intros H. replace (e - a) with ((m - a) + (e - m)) by lia. rewrite seq_app. do 2 f_equal. lia. Qed.

Lemma between_app c a m e : a <= m <= e -> between c a m ++ between c m e = between c a e.
Proof. intros H. unfold between. by rewrite <-fmap_app, <-seq_split. Qed.

Lemma events_between_app {E} (log : Z -> list E) c a m e :
  a <= m <= e -> events_between log c a m ++ events_between log c m e = events_between log c a e.
Proof. intros H. unfold events_between. by rewrite (seq_split a m e H), bind_app. Qed.

Lemma length_between c a e : length (between c a e) = e - a.
Proof. unfold between. by rewrite length_fmap, length_seq. Qed.

Lemma between_lookup c a e i : i < e - a -> between c a e !! i = Some (a + i, hash_at c (a + i)).
Proof. intros H. unfold between. rewrite list_lookup_fmap, lookup_seq_lt by done. done. Qed.

Lemma between_cons c a e : a < e -> between c a e = (a, hash_at c a) :: between c (S a) e.
Proof.
  intros H. unfold between. replace (e - a) with (S (e - S a)) by lia. done.
Qed.

Lemma between_last c a e : a < e -> last (between c a e) = Some (e - 1, hash_at c (e - 1)).
Proof.
  intros H. rewrite last_lookup, length_between, between_lookup by lia. do 2 f_equal; [lia|f_equal; lia].
Qed.

Lemma between_ext c c' a e :
  (forall i, a <= i < e -> hash_at c i = hash_at c' i) -> between c a e = between c' a e.
Proof.
  intros H. apply list_fmap_ext. intros i x Hx. apply lookup_seq in Hx as [-> Hi]. rewrite H by lia. done.
Qed.

Lemma events_between_ext {E} (log : Z -> list E) c c' a e :
  (forall i, a <= i < e -> hash_at c i = hash_at c' i) -> events_between log c a e = events_between log c' a e.
Proof.
  intros H. unfold events_between. remember (e - a) as n eqn:Hn.
  assert (Hle : forall i, a <= i < a + n -> hash_at c i = hash_at c' i) by (intros i Hi; apply H; lia).
  clear H Hn. revert a Hle. induction n as [|n IH]; intros a Hle; [done|]. cbn [seq mbind list_bind].
  rewrite Hle by lia. f_equal. apply IH. intros i Hi. apply Hle. lia.
Qed.

Lemma between_events {E} (log : Z -> list E) c a e :
  (between c a e ≫= fun b => log b.2) = events_between log c a e.
Proof.
  unfold between, events_between. induction (seq a (e - a)) as [|i l IH]; [done|].
  cbn [fmap list_fmap mbind list_bind] in *. by rewrite IH.
Qed.

Lemma elem_of_between c a e i h : (i, h) ∈ between c a e <-> a <= i < e /\ h = hash_at c i.
Proof.
  unfold between. rewrite list_elem_of_fmap. setoid_rewrite elem_of_seq. split.
  - intros (j & [= -> ->] & Hj). split; [lia|done].
  - intros [Hi ->]. exists i. split; [done|lia].
Qed.

Lemma take_between c a e n : a + n <= e -> take n (between c a e) = between c a (a + n).
Proof.
  intros Hle. rewrite <-(between_app c a (a + n) e) by lia. rewrite take_app_le by (rewrite length_between; lia).
  rewrite take_ge by (rewrite length_between; lia). done.
Qed.

Lemma drop_between c a e j : drop j (between c a e) = between c (a + j) e.
Proof.
  destruct (decide (a + j <= e)) as [Hle|Hgt].
  - rewrite <-(between_app c a (a + j) e) by lia. rewrite drop_app_le by (rewrite length_between; lia).
    rewrite drop_ge by (rewrite length_between; lia). done.
  - rewrite drop_ge by (rewrite length_between; lia). unfold between. replace (e - (a + j)) with 0 by lia. done.
Qed.

Lemma filter_between c a m e :
  filter (fun b : BlockNumberHash => b.1 < m) (between c a e) = between c a (Nat.min m e).
Proof.
  destruct (decide (m <= a)) as [Hma|Hma].
  { replace (between c a (Nat.min m e)) with (@nil BlockNumberHash)
      by (unfold between; by replace (Nat.min m e - a) with 0 by lia).
    apply filter_none. intros [i h] [Hi _]%elem_of_between. simpl. lia. }
  destruct (decide (e <= a)) as [Hea|Hea].
  { unfold between. replace (e - a) with 0 by lia. by replace (Nat.min m e - a) with 0 by lia. }
  rewrite <-(between_app c a (Nat.min m e) e) at 1 by lia. rewrite filter_app.
  rewrite (filter_all _ (between c a (Nat.min m e))), (filter_none _ (between c (Nat.min m e) e)).
  - by rewrite app_nil_r.
  - intros [i h] [Hi _]%elem_of_between. simpl. lia.
  - intros [i h] [Hi _]%elem_of_between. simpl. lia.
Qed.

(** ** Chunks *)
Lemma chunks_single {A} n (l : list A) : l <> [] -> length l <= n -> chunks n l = [l].
Proof.
  intros Hne Hlen. unfold chunks. destruct l as [|x l]; [done|]. cbn [length chunks_fuel].
  rewrite take_ge, drop_ge by done. by destruct (length l).
Qed.

Lemma chunks_concat {A} n (l : list A) : 0 < n -> concat (chunks n l) = l.
Proof.
  intros Hn. unfold chunks. assert (Hlen : length l <= length l) by done. revert Hlen.
  generalize (length l) at 2 3. intros fuel. revert l. induction fuel as [|fuel IH]; intros l Hlen.
  { by destruct l; [|simpl in Hlen; lia]. }
  destruct l as [|x l]; [done|]. cbn [chunks_fuel concat]. rewrite IH; [by rewrite take_drop|].
  rewrite length_drop. simpl in *. lia.
Qed.

(** A stream without errors. *)
Definition all_ok {X} (l : list X) : list (result EventError X) := Ok <$> l.

(** ** Updates keep the store on the canonical chain *)
Section refinement.
Context {St E : Type} `{!EventStoring St E} (block_of : E -> nat) `{!EventStore St E block_of}.
Context (log : Z -> list E).

(** The node answers from one chain throughout an update, and an event belongs to
    the block it was fetched for. *)
Record faithful (node : Node E) (c : Chain) : Prop := {
  faithful_grown : 0 < tip c;
  faithful_current : node_current_block node
    = Ok (mkBlockInfo (tip c) (hash_at c (tip c)) (hash_at c (tip c - 1)));
  faithful_blocks a b : a <= b <= tip c -> node_blocks node (a, b) = Ok (between c a (b + 1));
  faithful_by_hash i : i <= tip c -> node_events_by_hash node (hash_at c i) = Ok (log (hash_at c i));
  faithful_by_range a b : a <= b <= tip c ->
    node_events_by_range node (a, b) = Ok (all_ok (events_between log c a (b + 1)));
  faithful_numbers i : i <= tip c -> Forall (fun e => block_of e = i) (log (hash_at c i));
}.

(** A hash stands for one block number and its whole history. *)
Definition linked (old new : Chain) : Prop :=
  forall i j, i <= tip old -> j <= tip new -> hash_at old i = hash_at new j ->
    i = j /\ forall m, m <= i -> hash_at old m = hash_at new m.

(** The handler is in step with a chain: its store holds exactly the events of the
    chain, and it remembers the last blocks of it. *)
Record synced (h : EventHandler St) (c : Chain) : Prop := {
  synced_blocks : exists lo, lo <= tip c /\ tip c + 1 - lo <= MAX_REORG_BLOCK_COUNT /\
    last_handled_blocks h = between c lo (tip c + 1);
  synced_stored : stored (handler_store h) ≡ₚ events_between log c 0 (tip c + 1);
}.

Lemma events_between_range c a e :
  (forall i, a <= i < e -> Forall (fun x => block_of x = i) (log (hash_at c i))) ->
  Forall (fun x => a <= block_of x < e) (events_between log c a e).
Proof.
  intros H. apply Forall_forall. intros x (i & Hx & Hi)%list_elem_of_bind. apply elem_of_seq in Hi.
  specialize (H i ltac:(lia)). rewrite Forall_forall in H. apply H in Hx. lia.
Qed.

(** The part of a chain's events below a number. *)
Lemma filter_events_below c m e :
  (forall i, i < e -> Forall (fun x => block_of x = i) (log (hash_at c i))) -> m <= e ->
  filter (fun x => block_of x < m) (events_between log c 0 e) = events_between log c 0 m.
Proof.
  intros H Hm. rewrite <-(events_between_app log c 0 m e) by lia. rewrite filter_app.
  rewrite filter_all, filter_none; [by rewrite app_nil_r|..].
  - intros x Hx. pose proof (events_between_range c m e ltac:(intros; apply H; lia)) as Hr.
    rewrite Forall_forall in Hr. apply Hr in Hx. lia.
  - intros x Hx. pose proof (events_between_range c 0 m ltac:(intros; apply H; lia)) as Hr.
    rewrite Forall_forall in Hr. apply Hr in Hx. lia.
Qed.

Lemma collect_chunk_ok (node : Node E) blocks i bf ev :
  (forall b, b ∈ blocks -> node_events_by_hash node b.2 = Ok (log b.2)) ->
  collect_chunk node blocks (drop i blocks) i bf ev
  = Ret (bf ++ drop i blocks, ev ++ (drop i blocks ≫= fun b => log b.2), false).
Proof.
  intros Hok. remember (drop i blocks) as chunk eqn:Hc. revert i bf ev Hc.
  induction chunk as [|b chunk IH]; intros i bf ev Hc; cbn [collect_chunk].
  { simpl. by rewrite !app_nil_r. }
  assert (Hb : blocks !! i = Some b) by (by rewrite <-(Nat.add_0_r i), <-lookup_drop, <-Hc).
  rewrite Hok by (by eapply list_elem_of_lookup_2). rewrite Hb. cbn [expect comp_bind].
  rewrite IH.
  - cbn [mbind list_bind]. by rewrite <-!app_assoc.
  - apply (f_equal tail) in Hc. cbn [tail] in Hc. rewrite Hc, <-Nat.add_1_r, <-drop_drop.
    by destruct (drop i blocks).
Qed.

Lemma collect_chunk_prefix node blocks chunk rest :
  blocks = chunk ++ rest -> (forall b, b ∈ chunk -> node_events_by_hash node b.2 = Ok (log b.2)) ->
  collect_chunk node blocks chunk 0 [] [] = Ret (chunk, chunk ≫= (fun b => log b.2), false).
Proof.
  intros -> Hok.
  assert (Hgen : forall done bf ev, (forall b, b ∈ chunk -> node_events_by_hash node b.2 = Ok (log b.2)) ->
    collect_chunk node (done ++ chunk ++ rest) chunk (length done) bf ev =
    Ret (bf ++ chunk, ev ++ (chunk ≫= (fun b => log b.2)), false)).
  { clear Hok. induction chunk as [|b chunk IH]; intros done bf ev Hok; cbn [collect_chunk].
    { simpl. by rewrite !app_nil_r. }
    rewrite Hok by left. rewrite lookup_app_r, Nat.sub_diag by lia. cbn [lookup list_lookup app expect comp_bind].
    replace (done ++ b :: chunk ++ rest) with ((done ++ [b]) ++ chunk ++ rest) by (by rewrite <-app_assoc).
    replace (Datatypes.S (length done)) with (length (done ++ [b])) by (rewrite length_app; cbn; lia).
    rewrite IH by (intros b' Hb'; apply Hok; by right). cbn [mbind list_bind]. by rewrite <-!app_assoc. }
  exact (Hgen [] [] [] Hok).
Qed.

Lemma chunks_two {A} n (l : list A) : 0 < n -> n < length l <= 2 * n -> chunks n l = [take n l; drop n l].
Proof.
  intros Hn Hl. unfold chunks. destruct (length l) as [|[|k]] eqn:Elen; [lia|lia|]. cbn [chunks_fuel].
  destruct l as [|x l]; [cbn in Elen; lia|]. f_equal.
  pose proof (length_drop (x :: l) n) as Hd. destruct (drop n (x :: l)) as [|y d] eqn:Ed; [cbn [length] in *; lia|].
  rewrite take_ge by (cbn [length] in *; lia). rewrite (drop_ge (y :: d)) by (cbn [length] in *; lia).
  by destruct k.
Qed.

(** Up to 128 blocks are fetched completely. *)
Lemma past_events_ok node c a e :
  faithful node c -> a < e <= tip c + 1 -> e - a <= MAX_PARALLEL_RPC_CALLS ->
  past_events_by_block_hashes node (between c a e) = Ret (between c a e, events_between log c a e).
Proof.
  intros Hn Hae Hlen. unfold past_events_by_block_hashes. rewrite chunks_single.
  - cbn [collect_chunks]. change (between c a e) with (drop 0 (between c a e)) at 2.
    rewrite collect_chunk_ok by (intros [i h] [Hi ->]%elem_of_between; apply (faithful_by_hash _ _ Hn); lia).
    cbn [comp_bind app]. by rewrite drop_0, between_events.
  - rewrite between_cons by lia. done.
  - by rewrite length_between.
Qed.

(** ** Stores *)

(** The store agrees with the chain below [m] and has no event after [cur]. *)
Definition covers (s : St) (c : Chain) (m cur : nat) : Prop :=
  filter (fun e => block_of e < m) (stored s) ≡ₚ events_between log c 0 m /\
  forall e, e ∈ stored s -> block_of e <= cur.

Definition numbered (c : Chain) : Prop :=
  forall i, i <= tip c -> Forall (fun e => block_of e = i) (log (hash_at c i)).

Lemma synced_covers h old new m cur :
  numbered old -> synced h old -> (forall i, i < m -> hash_at old i = hash_at new i) ->
  m <= tip old + 1 -> tip old <= cur -> covers (handler_store h) new m cur.
Proof.
  intros Hnum [_ Hst] Hag Hm Hcur. split.
  - rewrite Hst, filter_events_below; [|intros i Hi; apply Hnum; lia|done].
    by rewrite (events_between_ext log old new 0 m) by (intros i Hi; apply Hag; lia).
  - intros e He. rewrite Hst in He.
    pose proof (events_between_range old 0 (tip old + 1) ltac:(intros; apply Hnum; lia)) as Hr.
    rewrite Forall_forall in Hr. apply Hr in He. lia.
Qed.

Lemma covers_full s c : covers s c (tip c + 1) (tip c) -> stored s ≡ₚ events_between log c 0 (tip c + 1).
Proof.
  intros [Hf Hle]. rewrite <-Hf. rewrite filter_all; [done|]. intros e He. apply Hle in He. lia.
Qed.

(** Events of a range split between one that replaces and one that is appended. *)
Lemma covers_replace s c m b cur es1 es2 :
  numbered c -> covers s c m cur -> m <= b -> b <= cur -> b <= tip c ->
  es1 ++ es2 = events_between log c m (b + 1) ->
  exists s', replace_events s es1 (m, b) = Ok s' /\
    forall s2, stored s2 ≡ₚ stored s' ++ es2 -> covers s2 c (b + 1) cur.
Proof.
  intros Hnum [Hf Hle] Hmb Hb Hbt Hes.
  pose proof (events_between_range c m (b + 1) ltac:(intros; apply Hnum; lia)) as Hr.
  rewrite <-Hes, Forall_app in Hr. destruct Hr as [Hr1 Hr2].
  destruct (replace_ok s es1 m b Hmb) as (s' & Hs' & Hp & Hin).
  { eapply Forall_impl; [exact Hr1|]. intros x Hx. simpl in Hx. lia. }
  exists s'. split; [done|]. intros s2 H2. split.
  - rewrite H2, filter_app, (filter_all _ es2).
    2: { rewrite Forall_forall in Hr2. intros x Hx. apply Hr2 in Hx. lia. }
    rewrite (list_filter_iff _ (fun e => block_of e <= b)) by (intros; lia).
    rewrite Hp, Hf, <-app_assoc, Hes, events_between_app by lia. done.
  - intros e He. rewrite H2 in He. apply elem_of_app in He as [He|He].
    + apply Hin in He as [He|He]; [lia|by apply Hle].
    + rewrite Forall_forall in Hr2. apply Hr2 in He. lia.
Qed.

Lemma covers_append s c m :
  numbered c -> m <= tip c -> covers s c m (m - 1) -> 0 < m ->
  exists s', append_events s (events_between log c m (tip c + 1)) = Ok s' /\ covers s' c (tip c + 1) (tip c).
Proof.
  intros Hnum Hm [Hf Hle] H0. destruct (append_ok s (events_between log c m (tip c + 1))) as (s' & Hs' & Hp).
  pose proof (events_between_range c m (tip c + 1) ltac:(intros; apply Hnum; lia)) as Hr.
  rewrite Forall_forall in Hr. exists s'. split; [done|]. split.
  - rewrite Hp, filter_all.
    + rewrite <-(events_between_app log c 0 m) by lia. rewrite <-Hf, filter_all; [done|].
      intros e He. apply Hle in He. lia.
    + intros e [He|He]%elem_of_app; [apply Hle in He|apply Hr in He]; lia.
  - intros e He. rewrite Hp in He. apply elem_of_app in He as [He|He]; [apply Hle in He|apply Hr in He]; lia.
Qed.

Lemma mapM_ok {X} (l : list X) : mapM (fun r => ok r) (all_ok l) = Some l.
Proof. induction l as [|x l IH]; [done|]. unfold all_ok in *. rewrite fmap_cons. simpl. by rewrite IH. Qed.

Lemma chunks_Ok {X} n (l : list X) : chunks n (all_ok l) = all_ok <$> chunks n l.
Proof.
  unfold chunks. replace (length (all_ok l)) with (length l) by (symmetry; apply length_fmap).
  generalize (length l) as fuel. intros fuel. revert l.
  induction fuel as [|fuel IH]; intros l; [done|]. destruct l as [|x l]; [done|].
  change (chunks_fuel (S fuel) n (all_ok (x :: l)))
    with (take n (all_ok (x :: l)) :: chunks_fuel fuel n (drop n (all_ok (x :: l)))).
  change (chunks_fuel (S fuel) n (x :: l)) with (take n (x :: l) :: chunks_fuel fuel n (drop n (x :: l))).
  rewrite fmap_cons, <-IH. unfold all_ok. by rewrite fmap_take, fmap_drop.
Qed.

Lemma store_chunks_append s range (cs : list (list E)) :
  exists s', store_chunks s range (all_ok <$> cs) true = (s', Ok true) /\
    stored s' ≡ₚ stored s ++ concat cs.
Proof.
  revert s. induction cs as [|es cs IH]; intros s; [exists s; simpl; by rewrite app_nil_r|].
  rewrite fmap_cons. cbn [store_chunks]. rewrite mapM_ok. destruct (append_ok s es) as (s1 & -> & H1).
  destruct (IH s1) as (s2 & -> & H2). exists s2. split; [done|]. simpl. by rewrite H2, H1, <-app_assoc.
Qed.

(** A history update, whatever the number of events. *)
Lemma old_blocks_ok node h c a b cur :
  faithful node c -> a <= b -> b <= tip c -> tip c <= cur -> covers (handler_store h) c a cur ->
  exists s', update_events_from_old_blocks node h (a, b)
    = (update_last_handled_blocks (between c (b - MAX_REORG_BLOCK_COUNT) (b + 1)) (with_store s' h), Ok tt) /\
    covers s' c (b + 1) cur.
Proof.
  intros Hn Hab Hb Hcur Hcov. unfold update_events_from_old_blocks, RangeInclusive_try_new. cbn [fst snd].
  rewrite (proj2 (Nat.leb_le (b - MAX_REORG_BLOCK_COUNT) b)) by lia. cbn [result_bind].
  rewrite (faithful_blocks _ _ Hn), (faithful_by_range _ _ Hn) by lia. cbn [result_bind].
  rewrite chunks_Ok. pose proof (faithful_numbers _ _ Hn) as Hnum.
  pose proof (chunks_concat INSERT_EVENT_BATCH_SIZE (events_between log c a (b + 1)) ltac:(unfold INSERT_EVENT_BATCH_SIZE; lia)) as Hcat.
  destruct (chunks INSERT_EVENT_BATCH_SIZE _) as [|es cs]; cbn [concat] in Hcat.
  - cbn [fmap list_fmap store_chunks].
    destruct (covers_replace (handler_store h) c a b cur [] [] Hnum Hcov Hab ltac:(lia) Hb ltac:(done))
      as (s' & -> & Hc). exists s'. split; [done|]. apply Hc. by rewrite app_nil_r.
  - rewrite fmap_cons. cbn [store_chunks]. rewrite mapM_ok.
    destruct (covers_replace (handler_store h) c a b cur es (concat cs) Hnum Hcov Hab ltac:(lia) Hb Hcat)
      as (s1 & -> & Hc). destruct (store_chunks_append s1 (a, b) cs) as (s2 & -> & H2).
    exists s2. split; [done|]. by apply Hc.
Qed.

(** ** The handled blocks *)
Lemma update_handled_ok c lo a e (h : EventHandler St) :
  lo <= a < e -> filter (fun b : BlockNumberHash => b.1 < a) (last_handled_blocks h) = between c lo a ->
  last_handled_blocks (update_last_handled_blocks (between c a e) h)
  = between c (Nat.max lo (e - MAX_REORG_BLOCK_COUNT)) e.
Proof.
  intros Ha Hf. unfold update_last_handled_blocks. rewrite (between_cons c a e) by lia.
  rewrite <-(between_cons c a e) by lia. cbn [fst last_handled_blocks]. rewrite Hf, between_app by lia.
  rewrite length_between, drop_between. f_equal. unfold MAX_REORG_BLOCK_COUNT. lia.
Qed.

Lemma filter_handled old new lo a :
  lo <= tip old -> a <= tip old + 1 -> (forall i, i < a -> hash_at old i = hash_at new i) ->
  filter (fun b : BlockNumberHash => b.1 < a) (between old lo (tip old + 1)) = between new (Nat.min lo a) a.
Proof.
  intros Hlo Ha Hag. rewrite filter_between, Nat.min_l by lia.
  destruct (decide (lo <= a)) as [Hle|Hgt].
  - rewrite Nat.min_l by lia. apply between_ext. intros i Hi. apply Hag. lia.
  - rewrite Nat.min_r by lia. unfold between. replace (a - lo) with 0 by lia. by rewrite Nat.sub_diag.
Qed.

(** The update of the latest blocks, given what the store does. *)
Lemma latest_blocks_ok node h c lo a s' (reorg : bool) :
  faithful node c -> a <= tip c -> tip c + 1 - a <= MAX_PARALLEL_RPC_CALLS -> lo <= a ->
  filter (fun b : BlockNumberHash => b.1 < a) (last_handled_blocks h) = between c lo a ->
  (if reorg then replace_events (handler_store h) (events_between log c a (tip c + 1)) (a, tip c)
   else append_events (handler_store h) (events_between log c a (tip c + 1))) = Ok s' ->
  covers s' c (tip c + 1) (tip c) ->
  exists h', update_events_from_latest_blocks node h (between c a (tip c + 1)) reorg = Ret (h', Ok tt) /\
    synced h' c.
Proof.
  intros Hn Ha Hlen Hlo Hf Hs Hcov. unfold update_events_from_latest_blocks.
  rewrite (past_events_ok _ _ _ _ Hn) by lia. cbn [comp_bind].
  rewrite (between_cons c a (tip c + 1)) by lia. cbv beta iota.
  rewrite <-(between_cons c a (tip c + 1)), between_last by lia. unfold RangeInclusive_try_new. cbn [fst].
  rewrite (proj2 (Nat.leb_le a (tip c + 1 - 1))) by lia. replace (tip c + 1 - 1) with (tip c) by lia.
  rewrite Hs. cbv zeta. rewrite bool_decide_eq_true_2 by done. eexists. split; [done|]. split.
  - exists (Nat.max lo (tip c + 1 - MAX_REORG_BLOCK_COUNT)). split; [unfold MAX_REORG_BLOCK_COUNT; lia|].
    split; [lia|]. by apply update_handled_ok; [lia|].
  - replace (handler_store _) with s'; [by apply covers_full|].
    unfold update_last_handled_blocks. by destruct (between c a (tip c + 1)).
Qed.

(** ** Detecting a reorg *)
Lemma last_index_between c i h a e :
  last_index_of (i, h) (between c a e) = if decide (a <= i < e /\ h = hash_at c i) then Some (i - a) else None.
Proof.
  remember (e - a) as n eqn:Hn. revert a Hn. induction n as [|n IH]; intros a Hn.
  { unfold between. rewrite <-Hn. simpl. by rewrite decide_False by lia. }
  rewrite between_cons by lia. cbn [last_index_of]. rewrite IH by lia.
  destruct (decide (S a <= i < e /\ h = hash_at c i)) as [[Hi ->]|Hni].
  - rewrite decide_True by (split; [lia|done]). f_equal. lia.
  - case_bool_decide as Heq.
    + injection Heq as -> ->. rewrite decide_True by (split; [lia|done]). f_equal. lia.
    + rewrite decide_False; [done|]. intros [Hi ->]. apply Hni. split; [|done].
      destruct (decide (i = a)) as [->|]; [done|lia].
Qed.

Lemma detect_reorg_between old new lo st e :
  lo <= tip old -> e <= tip old + 1 -> lo <= e -> st <= tip new ->
  (forall j, e <= j <= tip old -> st <= j <= tip new -> hash_at old j <> hash_at new j) ->
  let handled := between old lo (tip old + 1) in
  (exists j, lo <= j < e /\ st <= j <= tip new /\ hash_at old j = hash_at new j /\
     detect_reorg_loop handled (between new st (tip new + 1)) (reverse (between old lo e))
     = (between new (j + 1) (tip new + 1), negb (bool_decide (j = tip old)))) \/
  ((forall j, lo <= j <= tip old -> st <= j <= tip new -> hash_at old j <> hash_at new j) /\
   detect_reorg_loop handled (between new st (tip new + 1)) (reverse (between old lo e))
   = (between new st (tip new + 1), true)).
Proof.
  intros Hlo He Hloe Hst Hnone handled. remember (e - lo) as n eqn:Hn. revert e He Hloe Hnone Hn.
  induction n as [|n IH]; intros e He Hloe Hnone Hn.
  { right. assert (e = lo) as -> by lia. split; [done|].
    assert (Hnil : between old lo lo = []) by (unfold between; by rewrite Nat.sub_diag). rewrite Hnil.
    rewrite reverse_nil. cbn [detect_reorg_loop]. f_equal. rewrite bool_decide_eq_false_2; [done|].
    unfold handled. rewrite between_cons by lia. done. }
  assert (Hrev : reverse (between old lo e) = (e - 1, hash_at old (e - 1)) :: reverse (between old lo (e - 1))).
  { rewrite <-(between_app old lo (e - 1) e) by lia. rewrite reverse_app, (between_cons old (e - 1) e) by lia.
    unfold between at 1. replace (e - S (e - 1)) with 0 by lia. done. }
  rewrite Hrev. cbn [detect_reorg_loop]. rewrite last_index_between.
  destruct (decide (st <= e - 1 < tip new + 1 /\ hash_at old (e - 1) = hash_at new (e - 1))) as [[Hi Hh]|Hni].
  - left. exists (e - 1). split_and!; [lia|lia|lia|lia|done|]. rewrite drop_between.
    replace (st + (e - 1 - st + 1)) with (e - 1 + 1) by lia. f_equal. f_equal. unfold handled.
    rewrite between_last by lia. apply bool_decide_ext. split; [intros [= ? ?]; lia|].
    intros ->. do 2 f_equal; [lia|f_equal; lia].
  - destruct (IH (e - 1) ltac:(lia) ltac:(lia)) as [(j & Hj & ?)|?]; [|lia| |by right].
    + intros j Hj Hj'. destruct (decide (j = e - 1)) as [->|]; [|apply Hnone; lia].
      intros Hh. apply Hni. split; [lia|done].
    + left. exists j. split; [lia|done].
Qed.

(** ** One update *)

(** How the chain may change between two updates: it does not get shorter, and at most
    the last 64 handled blocks are replaced. *)
Record advances (old new : Chain) : Prop := {
  adv_linked : linked old new;
  adv_height : tip old <= tip new;
  adv_depth i : i < tip old - MAX_REORG_BLOCK_COUNT -> hash_at old i = hash_at new i;
}.

(** No handled block is canonical any more, and the range from 64 blocks before the last
    handled one is exactly 129 blocks long. *)
Definition out_of_luck (h : EventHandler St) (old new : Chain) : Prop :=
  tip new - (tip old - MAX_REORG_BLOCK_COUNT) = MAX_BLOCKS_QUERIED /\
  forall j, j <= tip new -> ~ (j, hash_at new j) ∈ last_handled_blocks h.

(** The blocks an update fetches. *)
Inductive plan (h : EventHandler St) (old new : Chain) : EventRange -> Prop :=
| plan_nothing : tip new = tip old -> (forall i, i <= tip old -> hash_at old i = hash_at new i) ->
    plan h old new (mkEventRange None [] false)
| plan_append : tip old < tip new -> tip new - tip old <= MAX_BLOCKS_QUERIED ->
    (forall i, i <= tip old -> hash_at old i = hash_at new i) ->
    plan h old new (mkEventRange None (between new (tip old + 1) (tip new + 1)) false)
| plan_replace a : a <= tip old -> a <= tip new -> tip new + 1 - a <= MAX_BLOCKS_QUERIED ->
    (forall i, i < a -> hash_at old i = hash_at new i) ->
    plan h old new (mkEventRange None (between new a (tip new + 1)) true)
| plan_edge : out_of_luck h old new ->
    plan h old new (mkEventRange None (between new (tip old - MAX_REORG_BLOCK_COUNT) (tip new + 1)) true)
| plan_history : MAX_BLOCKS_QUERIED < tip new - (tip old - MAX_REORG_BLOCK_COUNT) ->
    plan h old new (mkEventRange (Some (tip old - MAX_REORG_BLOCK_COUNT, tip new - MAX_BLOCKS_QUERIED))
      (between new (tip new - MAX_BLOCKS_QUERIED + 1) (tip new + 1)) true).

Lemma split_range_spec a b :
  a <= b -> split_range (a, b) = Ret (if MAX_BLOCKS_QUERIED <? b - a
    then (Some (a, b - MAX_BLOCKS_QUERIED), (b - MAX_BLOCKS_QUERIED + 1, b)) else (None, (a, b))).
Proof.
  intros Hab. unfold split_range. destruct (Nat.ltb_spec MAX_BLOCKS_QUERIED (b - a)) as [Hlt|]; [|done].
  unfold RangeInclusive_try_new. rewrite !(proj2 (Nat.leb_le _ _)); [done| |];
    unfold MAX_BLOCKS_QUERIED, MAX_REORG_BLOCK_COUNT in *; lia.
Qed.

(** The case of new blocks on top of the last handled one. *)
Lemma new_blocks_spec node old new :
  faithful node new -> linked old new -> tip old <= tip new ->
  exists r, new_blocks_without_reorg node (tip old, hash_at old (tip old)) (tip new) = Ok r /\
  match r with
  | Some bs => bs = between new (tip old + 1) (tip new + 1) /\ tip new - tip old <= MAX_REORG_BLOCK_COUNT /\
      hash_at old (tip old) = hash_at new (tip old)
  | None => tip new - tip old <= MAX_REORG_BLOCK_COUNT -> hash_at old (tip old) <> hash_at new (tip old)
  end.
Proof.
  intros Hn Hl Hh. unfold new_blocks_without_reorg, RangeInclusive_try_new. cbn [fst snd].
  rewrite (proj2 (Nat.leb_le _ _)) by lia. cbn [fst snd].
  destruct (Nat.leb_spec (tip new - tip old) MAX_REORG_BLOCK_COUNT) as [Hle|]; [|exists None; split; [done|lia]].
  rewrite (faithful_blocks _ _ Hn) by lia. cbn [result_bind]. rewrite (between_cons new (tip old)) by lia.
  cbn [snd]. eexists. split; [done|]. destruct (Z.eqb_spec (hash_at new (tip old)) (hash_at old (tip old))) as [Eh|Eh].
  - split_and!; [f_equal; lia|done|done].
  - intros _ Eh'. by rewrite Eh' in Eh.
Qed.

(** A reorg within the fetched blocks. *)
Lemma detect_plan (h : EventHandler St) old new lo :
  linked old new -> tip old <= tip new ->
  (forall i, i < tip old - MAX_REORG_BLOCK_COUNT -> hash_at old i = hash_at new i) ->
  lo <= tip old -> tip old + 1 - lo <= MAX_REORG_BLOCK_COUNT ->
  last_handled_blocks h = between old lo (tip old + 1) ->
  tip new - (tip old - MAX_REORG_BLOCK_COUNT) <= MAX_BLOCKS_QUERIED ->
  (tip new, hash_at new (tip new)) <> (tip old, hash_at old (tip old)) ->
  let '(blocks, reorg) := detect_reorg_path (last_handled_blocks h)
    (between new (tip old - MAX_REORG_BLOCK_COUNT) (tip new + 1)) in
  plan h old new (mkEventRange None blocks reorg).
Proof.
  intros Hl Hh Hdepth Hlo Hlen Hbl Hhist Ecur. unfold detect_reorg_path. rewrite Hbl.
  destruct (detect_reorg_between old new lo (tip old - MAX_REORG_BLOCK_COUNT) (tip old + 1))
    as [(j & Hj & Hst & Eh & ->)|[Hnone ->]]; try lia.
  - destruct (Hl j j) as [_ Hag]; [lia|lia|done|]. case_bool_decide as Ej; cbn [negb].
    + subst j. apply plan_append; [|lia|done].
      destruct (decide (tip new = tip old)) as [Et|]; [|lia]. exfalso. apply Ecur. by rewrite Et, Eh.
    + apply plan_replace; [lia| |lia|intros i Hi; apply Hag; lia].
      destruct (decide (j = tip new)) as [->|]; [|lia]. exfalso. apply Ej. lia.
  - destruct (decide (tip new - (tip old - MAX_REORG_BLOCK_COUNT) = MAX_BLOCKS_QUERIED)) as [Eedge|].
    + apply plan_edge. split; [done|]. intros j Hjn. rewrite Hbl. intros [Hj Eh]%elem_of_between.
      apply (Hnone j); [lia|lia|done].
    + apply plan_replace; [lia|lia|lia|done].
Qed.

Lemma event_block_range_plan node h old new :
  faithful node new -> synced h old -> advances old new ->
  exists r, event_block_range node h = Ret (Ok r) /\ plan h old new r.
Proof.
  intros Hn [(lo & Hlo & Hlen & Hbl) _] [Hl Hh Hdepth]. unfold event_block_range.
  assert (Hlast : last (last_handled_blocks h) = Some (tip old, hash_at old (tip old))).
  { rewrite Hbl, between_last by lia. do 2 f_equal; [lia|f_equal; lia]. }
  destruct (last_handled_blocks h) as [|b0 bs] eqn:Eb; [done|]. rewrite <-Eb in *. clear b0 bs Eb.
  cbn [comp_rbind]. rewrite (faithful_current _ _ Hn). cbn [comp_rbind]. rewrite Hlast.
  cbn [expect comp_bind bi_number bi_hash bi_parent_hash fst snd].
  pose proof (faithful_grown _ _ Hn) as Hpos.
  destruct (Z.eqb_spec (hash_at new (tip new - 1)) (hash_at old (tip old))) as [Ep|_].
  { destruct (Hl (tip old) (tip new - 1)) as [Ht Hag]; [lia|lia|done|]. eexists. split; [done|].
    replace [(tip new, hash_at new (tip new))] with (between new (tip old + 1) (tip new + 1)).
    - apply plan_append; [lia| |done]. unfold MAX_BLOCKS_QUERIED, MAX_REORG_BLOCK_COUNT. lia.
    - replace (tip old + 1) with (tip new) by lia. rewrite between_cons by lia. unfold between.
      by replace (tip new + 1 - S (tip new)) with 0 by lia. }
  case_bool_decide as Ecur.
  { injection Ecur as Et Eh. rewrite Et in Eh. destruct (Hl (tip old) (tip old)) as [_ Hag]; [lia|lia|done|].
    eexists. split; [done|]. by apply plan_nothing. }
  destruct (new_blocks_spec node old new Hn Hl Hh) as (r & -> & Hr). cbn [comp_rbind].
  destruct r as [bs|].
  { destruct Hr as (-> & Hle & Eh). destruct (Hl (tip old) (tip old)) as [_ Hag]; [lia|lia|done|].
    eexists. split; [done|]. apply plan_append; [|unfold MAX_BLOCKS_QUERIED in *; lia|done].
    destruct (decide (tip new = tip old)) as [Et|]; [|lia]. exfalso. apply Ecur. by rewrite Et, Eh. }
  unfold RangeInclusive_try_new at 1. rewrite (proj2 (Nat.leb_le _ _)) by lia. cbn [comp_rbind].
  rewrite split_range_spec by lia. cbn [comp_bind].
  destruct (Nat.ltb_spec MAX_BLOCKS_QUERIED (tip new - (tip old - MAX_REORG_BLOCK_COUNT))) as [Hhist|Hhist].
  { rewrite (faithful_blocks _ _ Hn) by (unfold MAX_BLOCKS_QUERIED, MAX_REORG_BLOCK_COUNT in *; lia).
    cbn [comp_rbind]. eexists. split; [done|]. by apply plan_history. }
  rewrite (faithful_blocks _ _ Hn) by lia. cbn [comp_rbind].
  pose proof (detect_plan h old new lo Hl Hh Hdepth Hlo Hlen Hbl Hhist Ecur) as Hp.
  destruct (detect_reorg_path _ _) as [bs reorg]. by eexists.
Qed.

Lemma persist_synced h c n : synced h c ->
  exists s', persist_last_indexed_block (handler_store h) n = Ok s' /\ synced (with_store s' h) c.
Proof.
  intros [Hb Hs]. destruct (persist_ok (handler_store h) n) as (s' & Hp & Hst). exists s'. split; [done|].
  split; [done|]. cbn. by rewrite Hst.
Qed.

(** The last part of an update, once the latest blocks are in. *)
Lemma finish_update node h c blocks reorg :
  blocks <> [] ->
  (exists h', update_events_from_latest_blocks node h blocks reorg = Ret (h', Ok tt) /\ synced h' c) ->
  exists h', (match last blocks with
    | None => Ret (h, Ok tt)
    | Some last_block =>
        let! (h, r) := update_events_from_latest_blocks node h blocks reorg in
        match r with
        | Err e => Ret (h, Err e)
        | Ok _ => match persist_last_indexed_block (handler_store h) last_block.1 with
                  | Err e => Ret (h, Err e)
                  | Ok s => Ret (with_store s h, Ok tt)
                  end
        end
    end) = Ret (h', Ok tt) /\ synced h' c.
Proof.
  intros Hne (h' & Hu & Hs). destruct (last blocks) as [b|] eqn:El; [|by apply last_None in El].
  rewrite Hu. cbn [comp_bind]. destruct (persist_synced h' c b.1 Hs) as (s' & -> & Hs').
  by eexists.
Qed.

(** Blocks that fill the memory of the handler, or start at the first one, replace
    all of it. *)
Lemma update_handled_all c a e (h : EventHandler St) :
  a < e -> a = 0 \/ MAX_REORG_BLOCK_COUNT <= e - a ->
  last_handled_blocks (update_last_handled_blocks (between c a e) h)
  = between c (Nat.max a (e - MAX_REORG_BLOCK_COUNT)) e.
Proof.
  intros Ha Hor. unfold update_last_handled_blocks. rewrite (between_cons c a e) by lia. cbv beta iota.
  rewrite <-(between_cons c a e) by lia. cbn [fst last_handled_blocks].
  set (kept := filter _ _). rewrite length_app, length_between.
  destruct Hor as [->|Hlen].
  - assert (Hk : kept = []) by (apply filter_none; intros x _; lia). rewrite Hk. cbn [app length].
    rewrite drop_between. f_equal. unfold MAX_REORG_BLOCK_COUNT. lia.
  - replace (length kept + (e - a) - MAX_REORG_BLOCK_COUNT)
      with (length kept + ((e - a) - MAX_REORG_BLOCK_COUNT)) by lia.
    rewrite <-drop_drop, drop_app_length, drop_between. f_equal. lia.
Qed.

(** An update of a long range: the history and then the latest blocks. *)
Lemma history_ok node h new a :
  faithful node new -> covers (handler_store h) new a (tip new) -> MAX_BLOCKS_QUERIED < tip new - a ->
  exists h1, update_events_from_old_blocks node h (a, tip new - MAX_BLOCKS_QUERIED) = (h1, Ok tt) /\
  exists h', update_events_from_latest_blocks node h1
    (between new (tip new - MAX_BLOCKS_QUERIED + 1) (tip new + 1)) true = Ret (h', Ok tt) /\ synced h' new.
Proof.
  intros Hn Hcov Hlt. unfold MAX_BLOCKS_QUERIED in *. set (b := tip new - 2 * MAX_REORG_BLOCK_COUNT) in *.
  pose proof (faithful_numbers _ _ Hn) as Hnum.
  destruct (old_blocks_ok node h new a b (tip new) Hn) as (s1 & -> & Hc1); [lia|lia|lia|done|].
  eexists. split; [done|].
  destruct (covers_replace s1 new (b + 1) (tip new) (tip new) (events_between log new (b + 1) (tip new + 1)) [])
    as (s' & Hs' & Hc); [done|done|unfold MAX_REORG_BLOCK_COUNT in *; lia|lia|lia|by rewrite app_nil_r|].
  set (lo := Nat.max (b - MAX_REORG_BLOCK_COUNT) (b + 1 - MAX_REORG_BLOCK_COUNT)).
  eapply (latest_blocks_ok node _ new lo (b + 1) s' true); [done|..].
  - unfold MAX_REORG_BLOCK_COUNT in *. lia.
  - unfold MAX_PARALLEL_RPC_CALLS, MAX_REORG_BLOCK_COUNT in *. lia.
  - unfold lo. lia.
  - rewrite update_handled_all by (unfold MAX_REORG_BLOCK_COUNT; lia). fold lo.
    by rewrite filter_between, Nat.min_id.
  - replace (handler_store _) with s1; [done|]. unfold update_last_handled_blocks.
    by destruct (between new (b - MAX_REORG_BLOCK_COUNT) (b + 1)).
  - apply Hc. by rewrite app_nil_r.
Qed.

(** More than 128 blocks are looked up in two chunks, the second with the index of the
    first: its block is recorded as the first block of the range. *)
Lemma past_events_129 node c a :
  faithful node c -> a + MAX_BLOCKS_QUERIED = tip c ->
  past_events_by_block_hashes node (between c a (tip c + 1)) =
  Ret (between c a (tip c) ++ [(a, hash_at c a)], events_between log c a (tip c + 1)).
Proof.
  intros Hn Hlen. unfold past_events_by_block_hashes.
  assert (Hall : forall a' e, a <= a' -> e <= tip c + 1 ->
    forall b, b ∈ between c a' e -> node_events_by_hash node b.2 = Ok (log b.2)).
  { intros a' e Ha He [i h] [Hi ->]%elem_of_between. apply (faithful_by_hash _ _ Hn). lia. }
  rewrite chunks_two by (rewrite ?length_between; unfold MAX_PARALLEL_RPC_CALLS, MAX_BLOCKS_QUERIED, MAX_REORG_BLOCK_COUNT in *; lia).
  rewrite take_between, drop_between by (unfold MAX_PARALLEL_RPC_CALLS, MAX_BLOCKS_QUERIED, MAX_REORG_BLOCK_COUNT in *; lia).
  replace (a + MAX_PARALLEL_RPC_CALLS) with (tip c)
    by (unfold MAX_PARALLEL_RPC_CALLS, MAX_BLOCKS_QUERIED, MAX_REORG_BLOCK_COUNT in *; lia).
  cbn [collect_chunks].
  rewrite (collect_chunk_prefix node (between c a (tip c + 1)) (between c a (tip c)) (between c (tip c) (tip c + 1))).
  2: { symmetry. apply between_app. lia. }
  2: { eapply Hall; lia. }
  cbn [comp_bind app]. rewrite (between_cons c (tip c) (tip c + 1)) by lia.
  assert (Hnil : between c (S (tip c)) (tip c + 1) = []) by (unfold between; by replace (tip c + 1 - S (tip c)) with 0 by lia).
  rewrite Hnil. cbn [collect_chunk snd]. rewrite (faithful_by_hash _ _ Hn) by lia.
  rewrite (between_cons c a (tip c + 1)) by lia. cbn [lookup list_lookup expect comp_bind app].
  rewrite between_events. do 2 f_equal. rewrite <-(events_between_app log c a (tip c) (tip c + 1)) by lia. f_equal.
  unfold events_between. replace (tip c + 1 - tip c) with 1 by lia. cbn. by rewrite app_nil_r.
Qed.

Lemma edge_fails node h a c :
  faithful node c -> a + MAX_BLOCKS_QUERIED = tip c ->
  exists h' e, update_events_from_latest_blocks node h (between c a (tip c + 1)) true = Ret (h', Err e).
Proof.
  intros Hn Ha. unfold update_events_from_latest_blocks. rewrite past_events_129 by done. cbn [comp_bind].
  rewrite (between_cons c a (tip c)) by (unfold MAX_BLOCKS_QUERIED, MAX_REORG_BLOCK_COUNT in *; lia). cbn [app].
  rewrite app_comm_cons, last_snoc. unfold RangeInclusive_try_new. cbn [fst]. rewrite Nat.leb_refl.
  destruct (replace_events _ _ _) as [s'|e]; [|by eexists _, _].
  rewrite bool_decide_eq_false_2; [by eexists _, _|]. rewrite (between_cons c a (tip c + 1)) by lia. intros [= H].
  apply (f_equal last) in H. rewrite last_snoc in H.
  pose proof (between_last c (S a) (tip c + 1)) as Hl. rewrite Hl in H by (unfold MAX_BLOCKS_QUERIED, MAX_REORG_BLOCK_COUNT in *; lia).
  injection H as H _. unfold MAX_BLOCKS_QUERIED, MAX_REORG_BLOCK_COUNT in *. lia.
Qed.

(** C18 (refinement): the event handler implements the canonical chain.  When the
    handler is in step with a chain, and the next chain is not shorter and replaces at most
    the last 64 handled blocks, an update whose node answers does not panic, and either
    succeeds, leaving the store with exactly the events of the new chain, each once, and
    the handler in step with it again; or reports an error, which it only does when no
    handled block is canonical any more and the range to fetch is exactly 129 blocks
    ([blocks_129_partial]).  A chain that gets shorter is not covered
    ([shorter_chain_keeps_events]). *)
Theorem update_events_refines_chain node h old new :
  numbered old -> faithful node new -> synced h old -> advances old new ->
  (exists h', update_events node h = Ret (h', Ok tt) /\ synced h' new) \/
  (out_of_luck h old new /\ exists h' e, update_events node h = Ret (h', Err e)).
Proof.
  intros Hold Hn Hsy Hadv. unfold update_events.
  destruct (event_block_range_plan node h old new Hn Hsy Hadv) as (r & -> & Hplan). cbn [comp_bind].
  pose proof (faithful_numbers _ _ Hn) as Hnum. pose proof (adv_height _ _ Hadv) as Hh.
  pose proof Hsy as [(lo & Hlo & Hlen & Hbl) Hst].
  destruct Hplan as [Ht Hag|Hlt Hle Hag|a Ha Ha' Hle Hag|Hout|Hhist]; cbn [history_range latest_blocks is_reorg];
    [left|left|left|right|left].
  - cbn [last]. eexists. split; [done|]. split.
    + exists lo. rewrite Ht. split_and!; [lia|lia|]. rewrite Hbl. apply between_ext. intros i Hi. apply Hag. lia.
    + rewrite Hst, Ht. by rewrite (events_between_ext log old new) by (intros i Hi; apply Hag; lia).
  - apply finish_update; [rewrite between_cons by lia; done|].
    destruct (covers_append (handler_store h) new (tip old + 1)) as (s' & Hs' & Hc); [done|lia| |lia|].
    { eapply synced_covers; [exact Hold|done|intros i Hi; apply Hag; lia|lia|lia]. }
    eapply (latest_blocks_ok node h new (Nat.min lo (tip old + 1)) _ s' false);
      [done|lia|unfold MAX_PARALLEL_RPC_CALLS, MAX_BLOCKS_QUERIED, MAX_REORG_BLOCK_COUNT in *; lia|lia| |done|done].
    rewrite Hbl. apply filter_handled; [lia|lia|]. intros i Hi. apply Hag. lia.
  - apply finish_update; [rewrite between_cons by lia; done|].
    pose proof (synced_covers h old new a (tip new) Hold Hsy Hag ltac:(lia) ltac:(lia)) as Hcov.
    destruct (covers_replace (handler_store h) new a (tip new) (tip new) (events_between log new a (tip new + 1)) [])
      as (s' & Hs' & Hc); [done|done|lia|lia|lia|by rewrite app_nil_r|].
    eapply (latest_blocks_ok node h new (Nat.min lo a) a s' true);
      [done|lia|unfold MAX_PARALLEL_RPC_CALLS, MAX_BLOCKS_QUERIED, MAX_REORG_BLOCK_COUNT in *; lia|lia| |done|].
    + rewrite Hbl. apply filter_handled; [lia|lia|done].
    + apply Hc. by rewrite app_nil_r.
  - split; [done|]. destruct Hout as [Hlen' _].
    destruct (edge_fails node h (tip old - MAX_REORG_BLOCK_COUNT) new Hn) as (h' & e & Hu);
      [unfold MAX_BLOCKS_QUERIED, MAX_REORG_BLOCK_COUNT in *; lia|].
    rewrite between_last by lia. rewrite Hu. by eexists _, _.
  - destruct (history_ok node h new (tip old - MAX_REORG_BLOCK_COUNT) Hn) as (h1 & -> & Hu); [|done|].
    { apply (synced_covers h old); [done|done|apply (adv_depth _ _ Hadv)|lia|lia]. }
    apply finish_update; [|done]. rewrite between_cons; [done|].
    unfold MAX_BLOCKS_QUERIED, MAX_REORG_BLOCK_COUNT in *. lia.
Qed.
End refinement.

(** ** Stores of the repository *)
Section stores.
Context {E : Type} (block_of : E -> nat).

(** The settlement indexer: replacing deletes every event from the start of the
    range on. *)
Record IndexerStore := mkIndexerStore { ix_events : list E; ix_last_block : nat; ix_start_index : nat }.

#[export] Instance IndexerStore_storing : EventStoring IndexerStore E := {
  replace_events s events range :=
    Ok (mkIndexerStore (filter (fun e => block_of e < range.1) (ix_events s) ++ events)
          (ix_last_block s) (ix_start_index s));
  append_events s events := Ok (mkIndexerStore (ix_events s ++ events) (ix_last_block s) (ix_start_index s));
  last_event_block s := Ok (Nat.max (ix_last_block s) (ix_start_index s));
  persist_last_indexed_block s n := Ok (mkIndexerStore (ix_events s) n (ix_start_index s));
}.

(** The store of ethflow refunds: replacing deletes the events of the range. *)
Record RefundStore := mkRefundStore { rf_refunds : list E; rf_last_block : nat }.

#[export] Instance RefundStore_storing : EventStoring RefundStore E := {
  replace_events s events range :=
    Ok (mkRefundStore (filter (fun e => ~ (range.1 <= block_of e /\ block_of e <= range.2)) (rf_refunds s)
                         ++ events) (rf_last_block s));
  append_events s events := Ok (mkRefundStore (rf_refunds s ++ events) (rf_last_block s));
  last_event_block s := Ok (rf_last_block s);
  persist_last_indexed_block s n := Ok (mkRefundStore (rf_refunds s) n);
}.

Lemma filter_filter_sub (P Q R : E -> Prop) `{!forall x, Decision (P x), !forall x, Decision (Q x),
  !forall x, Decision (R x)} (l : list E) :
  (forall x, R x <-> P x /\ Q x) -> filter P (filter Q l) = filter R l.
Proof. intros HR. rewrite list_filter_filter. apply list_filter_iff. intros x. naive_solver. Qed.

#[export] Instance IndexerStore_store : EventStore IndexerStore E block_of.
Proof.
  refine {| stored := ix_events |}.
  - intros s es. by eexists.
  - intros s es a b Hab Hes. eexists. split; [done|]. cbn. split.
    + rewrite filter_app, (filter_all _ es) by (rewrite Forall_forall in Hes; intros x Hx; apply Hes in Hx; lia).
      rewrite (filter_filter_sub _ _ (fun e => block_of e < a)); [done|]. intros x. lia.
    + intros e [[_ He]%list_elem_of_filter|He]%elem_of_app; [by right|].
      rewrite Forall_forall in Hes. apply Hes in He. left. lia.
  - intros s n. by eexists.
Defined.

#[export] Instance RefundStore_store : EventStore RefundStore E block_of.
Proof.
  refine {| stored := rf_refunds |}.
  - intros s es. by eexists.
  - intros s es a b Hab Hes. eexists. split; [done|]. cbn. split.
    + rewrite filter_app, (filter_all _ es) by (rewrite Forall_forall in Hes; intros x Hx; apply Hes in Hx; lia).
      rewrite (filter_filter_sub _ _ (fun e => block_of e < a)); [done|]. intros x. lia.
    + intros e [[_ He]%list_elem_of_filter|He]%elem_of_app; [by right|].
      rewrite Forall_forall in Hes. apply Hes in He. left. lia.
  - intros s n. by eexists.
Defined.
End stores.

(** ** A node on one chain *)
Definition node_of {E} (log : Z -> list E) (c : Chain) : Node E :=
  mkNode (Ok (mkBlockInfo (tip c) (hash_at c (tip c)) (hash_at c (tip c - 1))))
    (fun r => if (r.1 <=? r.2) && (r.2 <=? tip c) then Ok (between c r.1 (r.2 + 1)) else Err NodeError)
    (fun h => Ok (log h))
    (fun r => Ok (all_ok (events_between log c r.1 (r.2 + 1)))).

Lemma node_of_faithful {E} (block_of : E -> nat) (log : Z -> list E) c :
  0 < tip c -> numbered block_of log c -> faithful block_of log (node_of log c) c.
Proof.
  intros Hpos Hnum. split; [done|done| |done|done|done]. intros a b Hab. cbn.
  by rewrite !(proj2 (Nat.leb_le _ _)) by lia.
Qed.

(** ** Examples *)

(** An event is its hash, which ends in its block number. *)
Definition sample_block (e : Z) : nat := Z.to_nat (e mod 1000).
Definition sample_log (h : Z) : list Z := [h].
Definition old_chain : Chain := mkChain 2 (fun i => 1000 + Z.of_nat i)%Z.
(** The last block is replaced and two more are added. *)
Definition new_chain : Chain :=
  mkChain 4 (fun i => if i <? 2 then (1000 + Z.of_nat i)%Z else (2000 + Z.of_nat i)%Z).

Abbreviation sample_store := (IndexerStore (E := Z)).
#[local] Instance sample_storing : EventStoring sample_store Z := IndexerStore_storing sample_block.
#[local] Instance sample_store_ok : EventStore sample_store Z sample_block := IndexerStore_store sample_block.

Definition old_handler : EventHandler sample_store :=
  mkEventHandler (mkIndexerStore [1000; 1001; 1002]%Z 2 0) (between old_chain 1 3).

Example update_example :
  (let! (h, r) := update_events (node_of sample_log new_chain) old_handler in
   Ret (ix_events (handler_store h), last_handled_blocks h, r))
  = Ret ([1000; 1001; 2002; 2003; 2004]%Z, [(1, 1001%Z); (2, 2002%Z); (3, 2003%Z); (4, 2004%Z)], Ok tt).
Proof. vm_compute. reflexivity. Qed.

(** The chain advances by two blocks and one reorganization. *)
Lemma update_events_refines_chain_witness :
  exists h', update_events (node_of sample_log new_chain) old_handler = Ret (h', Ok tt) /\
    synced sample_block sample_log h' new_chain.
Proof.
  destruct (update_events_refines_chain (St := sample_store) sample_block sample_log
           (node_of sample_log new_chain) old_handler old_chain new_chain) as [H|[[H _] _]]; [..|exact H|discriminate H].
  - intros [|[|[|i]]] Hi; cbn in Hi; [..|lia]; by apply Forall_singleton.
  - apply node_of_faithful; [cbn; lia|].
    intros [|[|[|[|[|i]]]]] Hi; cbn in Hi; [..|lia]; by apply Forall_singleton.
  - split; [exists 1; split_and!; [cbn; lia|unfold MAX_REORG_BLOCK_COUNT; cbn; lia|done]|done].
  - split.
    + intros i j Hi Hj Hh.
      assert (Hcases : i = 0 \/ i = 1 \/ i = 2) by (cbn in Hi; lia).
      assert (Hcases' : j = 0 \/ j = 1 \/ j = 2 \/ j = 3 \/ j = 4) by (cbn in Hj; lia).
      destruct_or!; subst; vm_compute in Hh; try discriminate Hh; (split; [done|]);
        intros [|[|m]] Hm; first [reflexivity|lia].
    + cbn; lia.
    + intros i Hi. unfold MAX_REORG_BLOCK_COUNT in Hi. cbn in Hi. lia.
Defined.

(** 129 latest blocks: the last handled block was replaced, none of the handled
    blocks is canonical and the range [last - 64 .. last + 64] is not split.  The
    calls are made in two chunks, and the block of the second chunk is looked up with
    its index within the chunk, so the first block is recorded in place of the last
    and the update reports an error. *)
Definition long_chain : Chain := mkChain 128 (fun i => (1000 + Z.of_nat i)%Z).
Definition stale_handler : EventHandler sample_store := mkEventHandler (mkIndexerStore [] 64 0) [(64, 999%Z)].

Example blocks_129_partial :
  (let! (h, r) := update_events (node_of sample_log long_chain) stale_handler in
   Ret (length (ix_events (handler_store h)), last (last_handled_blocks h), r))
  = Ret (129, Some (0, 1000%Z), Err UpdateDonePartially).
Proof. vm_compute. reflexivity. Qed.

(** Unlike what the bound on the number of queried blocks says. *)
Example split_range_129 : split_range (0, 128) = Ret (None, (0, 128)).
Proof. reflexivity. Qed.

(** The node answers with a shorter chain: the events of the blocks that are gone stay. *)
Example shorter_chain_keeps_events :
  (let! (h, r) := update_events (node_of sample_log (mkChain 1 (hash_at old_chain))) old_handler in
   Ret (ix_events (handler_store h), last_handled_blocks h, r))
  = Ret ([1000; 1001; 1002]%Z, [(1, 1001%Z); (2, 1002%Z)], Ok tt).
Proof. vm_compute. reflexivity. Qed.
