(* ===== verification/RateLimit.v ===== *)
(** * RateLimit: dropping requests while an API asks for a back-off

    [crates/rate-limit/src/lib.rs]: a limiter shared by concurrent requests counts
    the rate-limited responses in a row, drops requests until a back-off that grows
    with the count is over, and starts afresh with the first normal response.

    Instants and durations are nanoseconds.  The clock is an argument of the
    operations.  [f64::powf], whose precision the standard library leaves open, and
    the last representable instant are parameters; so are the parsers of the textual
    configuration.  [System] interleaves the two halves of any number of concurrent
    [execute] calls, as the mutex serializes them. *)

From stdpp Require Import base gmap sets list strings relations.
From Stdlib Require Import ZArith Ascii SpecFloat Lia.
From S2P Require Import Prelude F64.

Open Scope Z_scope.

Definition NANOS_PER_SEC : Z := 10 ^ 9.

(** ** Durations *)

(** [Duration::as_secs_f64]. *)
Definition as_secs_f64 (d : Z) : f64 :=
  f64_add (f64_lit (d / NANOS_PER_SEC)) (f64_div (f64_lit (d mod NANOS_PER_SEC)) (f64_lit NANOS_PER_SEC)).

(** The quotient nearest to [a / b], ties to even. *)
Definition div_half_even (a b : Z) : Z :=
  let q := a / b in
  match (2 * (a mod b) ?= b) with
  | Lt => q
  | Gt => q + 1
  | Eq => if Z.even q then q else q + 1
  end.

(** [Duration::try_from_secs_f64]: negative values, values of [2^64] seconds or more
    and NaN are errors. *)
Definition try_from_secs_f64 (x : f64) : option Z :=
  match x with
  | S754_zero _ => Some 0
  | S754_finite false m e =>
      if 0 <=? e then
        let secs := Z.pos m * 2 ^ e in
        if secs <? 2 ^ 64 then Some (secs * NANOS_PER_SEC) else None
      else Some (div_half_even (Z.pos m * NANOS_PER_SEC) (2 ^ (- e)))
  | _ => None
  end.

(** ** The strategy *)
Record Strategy := mkStrategy {
  drop_requests_until : Z;
  times_rate_limited : Z;
  back_off_growth_factor : f64;
  min_back_off : Z;
  max_back_off : Z;
}.

Inductive StrategyError :=
| FactorNotNormal
| FactorTooSmall
| MinAboveMax
| MissingParameter
| ExtraneousParameters
| Unparsable.

Definition Strategy_try_new (now : Z) (factor : f64) (min max : Z) : result StrategyError Strategy :=
  if negb (is_normal factor) then Err FactorNotNormal
  else if negb (SFleb (f64_lit 1) factor) then Err FactorTooSmall
  else if negb (min <=? max) then Err MinAboveMax
  else Ok (mkStrategy now 0 factor min max).

Definition Strategy_default (now : Z) : comp Strategy :=
  expect (ok (Strategy_try_new now (f64_lit 1) 0 0)).

(** [str::split(',')]. *)
Fixpoint split_commas (s : string) : list string :=
  match s with
  | EmptyString => [EmptyString]
  | String c s =>
      if Ascii.eqb c ","%char then EmptyString :: split_commas s
      else match split_commas s with
           | part :: parts => String c part :: parts
           | [] => [String c EmptyString]
           end
  end.

Section strategy.
Context (powf : f64 -> f64 -> f64) (INSTANT_MAX : Z).

Definition Strategy_from_str (parse_f64 : string -> option f64) (parse_duration : string -> option Z)
  (now : Z) (config : string) : result StrategyError Strategy :=
  match split_commas config with
  | [factor; min; max] =>
      letr factor := ok_or (parse_f64 factor) Unparsable in
      letr min := ok_or (parse_duration min) Unparsable in
      letr max := ok_or (parse_duration max) Unparsable in
      Strategy_try_new now factor min max
  | [] | [_] | [_; _] => Err MissingParameter
  | _ => Err ExtraneousParameters
  end.

Definition response_ok (now : Z) (s : Strategy) : Strategy :=
  mkStrategy now 0 (back_off_growth_factor s) (min_back_off s) (max_back_off s).

Definition get_current_back_off (s : Strategy) : Z :=
  let factor := powf (back_off_growth_factor s) (f64_lit (times_rate_limited s)) in
  let back_off_secs := f64_mul (as_secs_f64 (min_back_off s)) factor in
  Z.min (default (max_back_off s) (try_from_secs_f64 back_off_secs)) (max_back_off s).

(** [Instant + Duration] panics when the sum is not representable. *)
Definition instant_add (t d : Z) : comp Z := if t + d <=? INSTANT_MAX then Ret (t + d) else Panic.

Definition response_rate_limited (now previous_rate_limits : Z) (s : Strategy)
  : comp (Strategy * option Z) :=
  if negb (times_rate_limited s =? previous_rate_limits) then Ret (s, None)
  else
    let new_back_off := get_current_back_off s in
    let! until := instant_add now new_back_off in
    Ret (mkStrategy until ((times_rate_limited s + 1) mod 2 ^ 64) (back_off_growth_factor s)
           (min_back_off s) (max_back_off s), Some new_back_off).

Definition times_rate_limited_at (now : Z) (s : Strategy) : option Z :=
  if now <? drop_requests_until s then None else Some (times_rate_limited s).

(** ** The limiter and its counters *)
Record RateLimiter := mkRateLimiter {
  strategy : Strategy;
  requests_dropped : Z;
  rate_limited_requests : Z;
  successful_requests : Z;
}.

Definition from_strategy (s : Strategy) : RateLimiter := mkRateLimiter s 0 0 0.

(** [execute] up to the task: [None] is [Error::RateLimited]. *)
Definition execute_begin (now : Z) (l : RateLimiter) : RateLimiter * option Z :=
  match times_rate_limited_at now (strategy l) with
  | None => (mkRateLimiter (strategy l) (requests_dropped l + 1) (rate_limited_requests l)
               (successful_requests l), None)
  | Some n => (l, Some n)
  end.

(** [execute] after the task. *)
Definition execute_end (now times : Z) (requires_back_off : bool) (l : RateLimiter) : comp RateLimiter :=
  if requires_back_off then
    let! (s, _) := response_rate_limited now times (strategy l) in
    Ret (mkRateLimiter s (requests_dropped l) (rate_limited_requests l + 1) (successful_requests l))
  else
    Ret (mkRateLimiter (response_ok now (strategy l)) (requests_dropped l) (rate_limited_requests l)
           (successful_requests l + 1)).

(** The whole of [execute] when no other request interferes: the task yields [result]
    at the instant [later]. *)
Definition execute {T} (now later : Z) (result : T) (requires_back_off : T -> bool) (l : RateLimiter)
  : comp (RateLimiter * option T) :=
  let '(l, times) := execute_begin now l in
  match times with
  | None => Ret (l, None)
  | Some times =>
      let! l := execute_end later times (requires_back_off result) l in
      Ret (l, Some result)
  end.

Definition get_back_off_duration_if_limited (now : Z) (l : RateLimiter) : option Z :=
  if now <? drop_requests_until (strategy l) then Some (drop_requests_until (strategy l) - now) else None.

(** [slept] is the instant at which the sleep for the back-off is over. *)
Definition execute_with_back_off {T} (now : Z) (slept : Z -> Z) (later : Z) (result : T)
  (requires_back_off : T -> bool) (l : RateLimiter) : comp (RateLimiter * option T) :=
  let start := match get_back_off_duration_if_limited now l with Some d => slept d | None => now end in
  execute start later result requires_back_off l.

(** [back_off::on_http_429], on the status of a response. *)
Definition on_http_429 (response : option Z) : bool :=
  match response with Some status => status =? 429 | None => false end.

(** ** Concurrent requests *)

(** [in_flight] lists the counts the running requests started with; [requests] counts
    all calls and [last_limited] is the last instant at which the back-off was
    extended. *)
Record System := mkSystem {
  limiter : RateLimiter;
  clock : Z;
  in_flight : list Z;
  requests : Z;
  last_limited : Z;
}.

Inductive sys_step : System -> System -> Prop :=
| step_tick s d : 0 <= d ->
    sys_step s (mkSystem (limiter s) (clock s + d) (in_flight s) (requests s) (last_limited s))
| step_begin s l n : execute_begin (clock s) (limiter s) = (l, Some n) ->
    sys_step s (mkSystem l (clock s) (n :: in_flight s) (requests s + 1) (last_limited s))
| step_drop s l : execute_begin (clock s) (limiter s) = (l, None) ->
    sys_step s (mkSystem l (clock s) (in_flight s) (requests s + 1) (last_limited s))
| step_end s n before after back_off l : in_flight s = before ++ n :: after ->
    execute_end (clock s) n back_off (limiter s) = Ret l ->
    sys_step s (mkSystem l (clock s) (before ++ after) (requests s)
                  (if back_off then clock s else last_limited s)).

Definition sys_init (s : Strategy) (now : Z) : System := mkSystem (from_strategy s) now [] 0 now.

(** Requests are dropped for at most the longest back-off after the last rate-limited
    response, the settings never change, and every request is counted once. *)
Record sys_inv (max : Z) (s : System) : Prop := {
  inv_max : max_back_off (strategy (limiter s)) = max;
  inv_until : drop_requests_until (strategy (limiter s)) <= Z.max (clock s) (last_limited s + max);
  inv_past : last_limited s <= clock s;
  inv_count : requests s = requests_dropped (limiter s) + rate_limited_requests (limiter s)
                + successful_requests (limiter s) + Z.of_nat (length (in_flight s));
}.

Lemma back_off_le_max s : get_current_back_off s <= max_back_off s.
Proof. unfold get_current_back_off. lia. Qed.

Lemma Strategy_try_new_Ok now factor min max s :
  Strategy_try_new now factor min max = Ok s ->
  drop_requests_until s = now /\ max_back_off s = max /\ min <= max.
Proof.
  unfold Strategy_try_new. repeat case_match; try discriminate. intros [= <-]. cbn. split_and!; [done..|].
  by apply Z.leb_le, negb_false_iff.
Qed.

Lemma response_rate_limited_spec now n s :
  now + max_back_off s <= INSTANT_MAX ->
  exists s' r, response_rate_limited now n s = Ret (s', r) /\
    max_back_off s' = max_back_off s /\
    (s' = s \/ drop_requests_until s' <= now + max_back_off s).
Proof.
  intros Hmax. unfold response_rate_limited, instant_add. pose proof (back_off_le_max s) as Hle.
  destruct (_ =? _); cbn [negb]; [|by exists s, None; auto].
  rewrite (proj2 (Z.leb_le _ _)) by lia. cbn [comp_bind]. do 2 eexists. split; [done|].
  split; [done|right; cbn; lia].
Qed.

Lemma response_rate_limited_inv now n s s' r :
  response_rate_limited now n s = Ret (s', r) ->
  max_back_off s' = max_back_off s /\ (s' = s \/ drop_requests_until s' <= now + max_back_off s).
Proof.
  unfold response_rate_limited, instant_add. pose proof (back_off_le_max s) as Hle.
  destruct (_ =? _); cbn [negb]; [|by intros [= <- _]; auto].
  case_match eqn:Hb; cbn [comp_bind]; [|discriminate]. intros [= <- _].
  split; [done|right; cbn; lia].
Qed.

Lemma execute_begin_spec now l l' r :
  execute_begin now l = (l', r) ->
  strategy l' = strategy l /\ rate_limited_requests l' = rate_limited_requests l /\
  successful_requests l' = successful_requests l /\
  requests_dropped l' = requests_dropped l + match r with None => 1 | Some _ => 0 end.
Proof.
  unfold execute_begin. destruct (times_rate_limited_at _ _); intros [= <- <-]; cbn; split_and!; try done; lia.
Qed.

Lemma sys_step_inv max s s' : sys_step s s' -> sys_inv max s -> sys_inv max s'.
Proof.
  intros Hstep [Hmax Huntil Hpast Hcount].
  destruct Hstep as [s d Hd|s l n Hb|s l Hb|s n before after back_off l Hin Hend].
  - split; cbn; [done|lia|lia|done].
  - apply execute_begin_spec in Hb as (Hs & H1 & H2 & H3). split; cbn; rewrite ?Hs; [done..|].
    rewrite H1, H2, H3, Hcount. lia.
  - apply execute_begin_spec in Hb as (Hs & H1 & H2 & H3). split; cbn; rewrite ?Hs; [done..|].
    rewrite H1, H2, H3, Hcount. lia.
  - assert (Hlen : length (in_flight s) = S (length (before ++ after)))
      by (rewrite Hin, !length_app; simpl; lia).
    destruct back_off; cbn in Hend.
    + destruct (response_rate_limited _ _ _) as [[s1 r]|] eqn:Hr; [|discriminate]. injection Hend as <-.
      apply response_rate_limited_inv in Hr as [Hm Hor].
      split; cbn; [congruence| |lia|rewrite Hcount, Hlen; lia].
      destruct Hor as [->|Hle]; lia.
    + injection Hend as <-. split; cbn; [done|lia|lia|rewrite Hcount, Hlen; lia].
Qed.

Lemma sys_reachable_inv s0 now s :
  drop_requests_until s0 <= now -> rtc sys_step (sys_init s0 now) s -> sys_inv (max_back_off s0) s.
Proof.
  intros Hnow Hr. assert (Hi : sys_inv (max_back_off s0) (sys_init s0 now)) by (split; cbn; [done|lia|lia|done]).
  induction Hr as [|x y z Hxy _ IH]; [done|]. apply IH. by eapply sys_step_inv.
Qed.

(** C39 (liveness): however concurrent requests interleave, the limiter never shuts an
    API out for good.  In every reachable state a request is admitted once the
    longest back-off has passed since the last rate-limited response, whatever the
    growth factor; when it is answered normally all later requests are admitted and
    the count starts afresh; when it is rate limited again the limiter does not
    panic while the clock is representable, and drops requests for at most the
    longest back-off.  All requests but the running ones are counted once, as
    dropped, rate limited or successful. *)
Theorem rate_limiter_recovers now factor min max s0 s t later :
  0 <= min -> Strategy_try_new now factor min max = Ok s0 -> rtc sys_step (sys_init s0 now) s ->
  clock s <= t -> last_limited s + max <= t -> t <= later -> later + max <= INSTANT_MAX ->
  (exists n, execute_begin t (limiter s) = (limiter s, Some n) /\
     (exists l, execute_end later n false (limiter s) = Ret l /\
        forall t', later <= t' -> execute_begin t' l = (l, Some 0)) /\
     (exists l, execute_end later n true (limiter s) = Ret l /\
        forall t', later + max <= t' -> exists n', execute_begin t' l = (l, Some n'))) /\
  requests s = requests_dropped (limiter s) + rate_limited_requests (limiter s)
    + successful_requests (limiter s) + Z.of_nat (length (in_flight s)).
Proof.
  intros Hmin (Hdrop & <- & Hle)%Strategy_try_new_Ok Hr Hclock Ht Hlater Hinst.
  destruct (sys_reachable_inv s0 now s ltac:(lia) Hr) as [Hmax Huntil Hpast Hcount]. split; [|done].
  unfold execute_begin, times_rate_limited_at. rewrite (proj2 (Z.ltb_ge _ _)) by lia.
  eexists. split; [done|]. split.
  - eexists. split; [done|]. intros t' Ht'. cbn. by rewrite (proj2 (Z.ltb_ge _ _)).
  - destruct (response_rate_limited_spec later (times_rate_limited (strategy (limiter s))) (strategy (limiter s)))
      as (s' & r & Hs & Hm & Hor); [lia|].
    unfold execute_end. rewrite Hs. cbn [comp_bind]. eexists. split; [done|]. intros t' Ht'. cbn.
    rewrite (proj2 (Z.ltb_ge _ _)); [by eexists|]. destruct Hor as [->|?]; lia.
Qed.

(** Sleeping for the reported back-off is enough when no other response comes in. *)
Lemma back_off_sleep_suffices {T} now (slept : Z -> Z) later (result : T) requires l :
  (forall d, now + d <= slept d) -> requires result = false ->
  exists l', execute_with_back_off now slept later result requires l = Ret (l', Some result).
Proof.
  intros Hslept Hreq. unfold execute_with_back_off, execute, execute_begin, times_rate_limited_at,
    get_back_off_duration_if_limited.
  destruct (now <? drop_requests_until (strategy l)) eqn:Hlim.
  - specialize (Hslept (drop_requests_until (strategy l) - now)).
    rewrite (proj2 (Z.ltb_ge _ _)) by lia. rewrite Hreq. cbn. by eexists.
  - rewrite Hlim, Hreq. cbn. by eexists.
Qed.
End strategy.

(** ** Examples *)

(** Repeated multiplication, for whole exponents. *)
Definition sample_powf (x y : f64) : f64 :=
  Nat.iter (Z.to_nat (f64_trunc y)) (f64_mul x) (f64_lit 1).
Definition millis (n : Z) : Z := n * 10 ^ 6.
Definition sample_strategy : Strategy := mkStrategy 0 0 (f64_lit 2) (millis 20) (millis 50).

Example back_off_grows :
  (fun n => get_current_back_off sample_powf (mkStrategy 0 n (f64_lit 2) (millis 20) (millis 50)))
    <$> [0; 1; 2; 3] = [millis 20; millis 40; millis 50; millis 50].
Proof. vm_compute. reflexivity. Qed.

Example from_str_example :
  Strategy_from_str (fun s => if decide (s = "2"%string) then Some (f64_lit 2) else None)
    (fun s => if decide (s = "20ms"%string) then Some (millis 20)
              else if decide (s = "50ms"%string) then Some (millis 50) else None) 0 "2,20ms,50ms"%string
  = Ok sample_strategy.
Proof. vm_compute. reflexivity. Qed.

(** A rate-limited response at the start: requests are admitted again 50 ms later. *)
Definition limited_once : RateLimiter :=
  mkRateLimiter (mkStrategy (millis 20) 1 (f64_lit 2) (millis 20) (millis 50)) 0 1 0.

Lemma rate_limiter_recovers_witness :
  (exists n, execute_begin (millis 50) limited_once = (limited_once, Some n) /\
     (exists l, execute_end sample_powf (2 ^ 90) (millis 60) n false limited_once = Ret l /\
        forall t', millis 60 <= t' -> execute_begin t' l = (l, Some 0)) /\
     (exists l, execute_end sample_powf (2 ^ 90) (millis 60) n true limited_once = Ret l /\
        forall t', millis 60 + millis 50 <= t' -> exists n', execute_begin t' l = (l, Some n'))) /\
  1 = 0 + 1 + 0 + 0.
Proof.
  apply (rate_limiter_recovers sample_powf (2 ^ 90) 0 (f64_lit 2) (millis 20) (millis 50)
           sample_strategy (mkSystem limited_once 0 [] 1 0) (millis 50) (millis 60)); [done|by vm_compute| |done..].
  eapply rtc_l; [by apply step_begin|].
  eapply rtc_l; [by apply (step_end _ _ _ 0 [] [] true limited_once); [|vm_compute]|]. apply rtc_refl.
Defined.

(** A count does not tell an extension from a reset and another extension: the first
    request starts with count 1, a second one is answered normally, a third one is
    rate limited, and the late rate-limited response of the first one doubles the
    back-off although another request already extended it since. *)
Example stale_response_extends :
  (let! (l, n) := Ret (execute_begin (millis 20) limited_once) in
   let! (l, m) := Ret (execute_begin (millis 20) l) in
   let! l := execute_end sample_powf (2 ^ 90) (millis 21) (default 0 m) false l in
   let! (l, k) := Ret (execute_begin (millis 21) l) in
   let! l := execute_end sample_powf (2 ^ 90) (millis 22) (default 0 k) true l in
   let! l' := execute_end sample_powf (2 ^ 90) (millis 23) (default 0 n) true l in
   Ret (drop_requests_until (strategy l), drop_requests_until (strategy l')))
  = Ret (millis 42, millis 63).
Proof. vm_compute. reflexivity. Qed.
