(* ===== verification/DriverEncoding.v ===== *)
(** * DriverEncoding: the settlement transaction of a solution

    [crates/driver/src/domain/competition/solution/encoding.rs] and [slippage.rs]: a
    solution becomes one call of the settlement contract, with the uniform clearing
    prices first, two custom prices and the trade data for each trade, the
    interactions, and the auction id behind the call data.

    The ABI encoders are generated from the contracts; the class [SettlementAbi]
    states what the program relies on: decoding undoes encoding.  Encoding a swap
    against a pool is a parameter.  Byte strings are lists of bytes as integers. *)

From stdpp Require Import base gmap sets list strings.
From Stdlib Require Import ZArith Lia.
From S2P Require Import Prelude Collections F64 Eth Liquidity Solution Score DriverOrder DriverTrade.
From S2P Require Import OrderModel DriverScore DriverSolution.

Open Scope Z_scope.

(** ** The contract's data *)

(** [GPv2Trade::Data]. *)
Record GPv2Trade := mkGPv2Trade {
  gt_sell_token_index : Z;
  gt_buy_token_index : Z;
  gt_receiver : address;
  gt_sell_amount : Z;
  gt_buy_amount : Z;
  gt_valid_to : Z;
  gt_app_data : Z;
  gt_fee_amount : Z;
  gt_flags : Z;
  gt_executed_amount : Z;
  gt_signature : list Z;
}.

(** The arguments of [settle]. *)
Record SettleCall := mkSettleCall {
  sc_tokens : list address;
  sc_clearing_prices : list Z;
  sc_trades : list GPv2Trade;
  sc_pre_interactions : list EthInteraction;
  sc_interactions : list EthInteraction;
  sc_post_interactions : list EthInteraction;
}.

(** [LoanRequest::Data]. *)
Record LoanRequest := mkLoanRequest { lr_amount : Z; lr_borrower : address; lr_lender : address; lr_token : address }.

Class SettlementAbi := {
  SETTLE_SELECTOR : list Z;
  settle_calldata : SettleCall -> list Z;
  settle_abi_decode : list Z -> option SettleCall;
  withdraw_calldata : Z -> list Z;
  flash_loan_and_settle_calldata : list LoanRequest -> list Z -> list Z;
  wrapped_settle_calldata : list Z -> list Z -> list Z;
  settle_decode_encode c : settle_abi_decode (settle_calldata c) = Some c;
  settle_selector_prefix c : SETTLE_SELECTOR `prefix_of` settle_calldata c;
}.

(** ** Flags and signatures: [codec] *)
Record Flags := mkFlags {
  flag_side : Side;
  flag_partially_fillable : bool;
  flag_signing_scheme : Scheme;
  flag_sell_token_balance : SellTokenBalance;
  flag_buy_token_balance : BuyTokenBalance;
}.

Definition flags (f : Flags) : Z :=
  let result := match flag_side f with Sell => 0 | Buy => 1 end in
  let result := Z.lor result (Z.shiftl (Z.b2z (flag_partially_fillable f)) 1) in
  let result := Z.lor result (Z.shiftl match flag_sell_token_balance f with
                                       | SellErc20 => 0 | SellExternal => 2 | SellInternal => 3
                                       end 2) in
  let result := Z.lor result (Z.shiftl match flag_buy_token_balance f with
                                       | BuyErc20 => 0 | BuyInternal => 1
                                       end 4) in
  Z.lor result (Z.shiftl match flag_signing_scheme f with
                         | Eip712 => 0 | EthSign => 1 | Eip1271 => 2 | PreSign => 3
                         end 5).

Definition codec_signature (s : DriverOrder.Signature) : list Z :=
  match sig_scheme s with
  | Eip712 | EthSign => sig_data s
  | Eip1271 => be_bytes 20 (sig_signer s) ++ sig_data s
  | PreSign => be_bytes 20 (sig_signer s)
  end.

(** ** Slippage *)
Record SlippageParameters := mkSlippageParameters {
  sp_relative : Z * Z;
  sp_max : option Z;
  sp_min : option Z;
  sp_prices : gmap address Z;
}.

(** [big_rational_to_u256] of an amount times the relative slippage. *)
Definition relative_amount (p : SlippageParameters) (amount : Z) : result MathError Z :=
  let q := Z.quot (amount * (sp_relative p).1) (sp_relative p).2 in
  if fits 256 q then Ok q else Err DivisionByZero.

(** [Ord::clamp] panics on an empty range. *)
Definition clamp (x min max : Z) : comp Z :=
  if max <? min then Panic else Ret (Z.max min (Z.min x max)).

Definition capped_slippage (p : SlippageParameters) (price amount : Z) : comp (result MathError Z) :=
  let!r relative := Ret (relative_amount p (in_eth price amount)) in
  let! slippage := clamp relative (default 0 (sp_min p)) (default U256_MAX (sp_max p)) in
  let! slippage := from_eth price slippage in
  Ret (Ok slippage).

Definition slippage_apply_to (p : SlippageParameters) (input output : Asset)
  : comp (result MathError (Asset * Asset)) :=
  let!r slippage :=
    match sp_prices p !! asset_token input with
    | Some price => capped_slippage p price (asset_amount input)
    | None =>
        match sp_prices p !! asset_token output with
        | Some price =>
            let!r slippage := capped_slippage p price (asset_amount output) in
            Ret (letr m := ok_or (checked_mul slippage (asset_amount input)) Overflow in
                 ok_or (checked_div m (asset_amount output)) DivisionByZero)
        | None => Ret (relative_amount p (asset_amount input))
        end
    end in
  Ret (Ok (mkAsset (asset_token input) (wrapping_add (asset_amount input) slippage), output)).

(** ** Encoding *)
Inductive EncodingError :=
| InvalidInteractionExecution
| MissingAuctionId
| InvalidClearingPrice (token : address)
| EncodingMath (e : MathError)
| FlashloanSupportDisabled
| FlashloanWrappersIncompatible.

(** What the loop over the trades collects. *)
Record Encoded := mkEncoded {
  en_tokens : list address;
  en_prices : list Z;
  en_trades : list GPv2Trade;
  en_pre : list EthInteraction;
  en_post : list EthInteraction;
  en_unwrap : Z;
}.

Definition fulfillment_trade (f : Fulfillment) (sell_index buy_index : Z) : GPv2Trade :=
  let o := f_order f in
  mkGPv2Trade sell_index buy_index (default 0 (order_receiver o)) (asset_amount (order_sell o))
    (asset_amount (order_buy o)) (order_valid_to o) (AppData_hash (order_app_data o)) 0
    (flags (mkFlags (order_side o) match order_partial o with PartialYes _ => true | PartialNo => false end
              (sig_scheme (order_signature o)) (order_sell_token_balance o) (order_buy_token_balance o)))
    match order_side o with
    | Sell => wrapping_add (f_executed f) (Fulfillment_fee f)
    | Buy => f_executed f
    end
    (codec_signature (order_signature o)).

Definition jit_trade (j : Jit) (sell_index buy_index : Z) : GPv2Trade :=
  let o := jit_order j in
  mkGPv2Trade sell_index buy_index (jo_receiver o) (asset_amount (jo_sell o)) (asset_amount (jo_buy o))
    (jo_valid_to o) (jo_app_data o) 0
    (flags (mkFlags (jo_side o) match Jit_partial o with PartialYes _ => true | PartialNo => false end
              (sig_scheme (jo_signature o)) (jo_sell_token_balance o) (jo_buy_token_balance o)))
    (jit_executed j) (codec_signature (jo_signature o)).

(** Two tokens with their prices and the trade with the indices of the tokens. *)
Definition push_trade (e : Encoded) (t : Trade) (custom : ClearingPrices) (trade : Z -> Z -> GPv2Trade)
  : Encoded :=
  let n := Z.of_nat (length (en_tokens e)) in
  mkEncoded (en_tokens e ++ [asset_token (Trade_sell t); asset_token (Trade_buy t)])
    (en_prices e ++ [price_sell custom; price_buy custom]) (en_trades e ++ [trade n (n + 1)])
    (en_pre e) (en_post e) (en_unwrap e).

Definition encode_trade (s : DriverSolution.Solution) (t : Trade) (e : Encoded) : result EncodingError Encoded :=
  match t with
  | TradeFulfillment f =>
      let o := f_order f in
      let sell_token := asset_token (order_sell o) in
      let buy_token := asset_token (order_buy o) in
      letr sell := ok_or (clearing_price s sell_token) (InvalidClearingPrice sell_token) in
      letr buy := ok_or (clearing_price s buy_token) (InvalidClearingPrice buy_token) in
      let uniform_prices := mkClearingPrices sell buy in
      letr native_unwrap :=
        if buys_eth o then
          letr amount := map_err EncodingMath (Fulfillment_buy_amount f uniform_prices) in
          Ok (wrapping_add (en_unwrap e) amount)
        else Ok (en_unwrap e) in
      letr custom_prices := map_err EncodingMath (Fulfillment_custom_prices f uniform_prices) in
      let e := mkEncoded (en_tokens e) (en_prices e) (en_trades e) (en_pre e ++ order_pre_interactions o)
                 (en_post e ++ order_post_interactions o) native_unwrap in
      Ok (push_trade e t custom_prices (fulfillment_trade f))
  | TradeJit j =>
      Ok (push_trade e t (mkClearingPrices (asset_amount (jo_buy (jit_order j)))
                            (asset_amount (jo_sell (jit_order j)))) (jit_trade j))
  end.

Fixpoint encode_trades (s : DriverSolution.Solution) (trades : list Trade) (e : Encoded)
  : result EncodingError Encoded :=
  match trades with
  | [] => Ok e
  | t :: trades => letr e := encode_trade s t e in encode_trades s trades e
  end.

(** The uniform clearing prices, sorted by token. *)
Definition uniform_prices (prices : gmap address Z) : list (address * Z) :=
  sort_by (cmp_on fst Z.compare) (map_to_list prices).

Definition approve (a : DriverSolution.Allowance) : EthInteraction :=
  mkEthInteraction (al_token a) 0
    ([0x09; 0x5e; 0xa7; 0xb3] ++ repeat 0 12 ++ be_bytes 20 (al_spender a) ++ be_bytes 32 (al_amount a)).

(** The length is a [u16]; the first wrapper is the target of the transaction. *)
Fixpoint encode_wrapper_data (first : bool) (wrappers : list WrapperCall) : list Z :=
  match wrappers with
  | [] => []
  | w :: wrappers =>
      (if first then [] else be_bytes 20 (wrapper_address w))
      ++ be_bytes 2 (Z.of_nat (length (wrapper_data w)) mod 2 ^ 16) ++ wrapper_data w
      ++ encode_wrapper_data false wrappers
  end.

Record Contracts := mkContracts {
  ct_settlement : address;
  ct_weth : address;
  ct_flashloan_router : option address;
}.

Record Tx := mkTx { tx_from : address; tx_to : address; tx_input : list Z }.

Section encoding.
Context `{SettlementAbi}.
(** [pool.swap] and [limit_order.to_interaction]. *)
Context (swap : LiquidityKind -> Asset -> Asset -> address -> option EthInteraction).

Definition liquidity_interaction (kind : LiquidityKind) (input output : Asset) (slippage : SlippageParameters)
  (settlement : address) : comp (result EncodingError EthInteraction) :=
  let! r := slippage_apply_to slippage input output in
  Ret (letr (max_input, exact_output) := map_err EncodingMath r in
       ok_or (swap kind max_input exact_output settlement) InvalidInteractionExecution).

Fixpoint encode_interactions (slippage : SlippageParameters) (settlement : address)
  (internalization : Internalization) (interactions : list DriverSolution.Interaction)
  : comp (result EncodingError (list EthInteraction)) :=
  match interactions with
  | [] => Ret (Ok [])
  | i :: interactions =>
      if match internalization with Enable => internalize i | Disable => false end
      then encode_interactions slippage settlement internalization interactions
      else
        let!r encoded := match i with
                         | Custom target value call_data _ _ _ _ =>
                             Ret (Ok (mkEthInteraction target value call_data))
                         | LiquidityInteraction kind input output _ =>
                             liquidity_interaction kind input output slippage settlement
                         end in
        let!r rest := encode_interactions slippage settlement internalization interactions in
        Ret (Ok (encoded :: rest))
  end.

Definition unwrap_interaction (amount : Z) (weth : address) : EthInteraction :=
  mkEthInteraction weth 0 (withdraw_calldata amount).

Definition encode_flashloan_settlement (s : DriverSolution.Solution) (contracts : Contracts)
  (calldata : list Z) : result EncodingError (address * list Z) :=
  letr router := ok_or (ct_flashloan_router contracts) FlashloanSupportDisabled in
  let flashloans := (fun e : Z * Flashloan =>
    mkLoanRequest (fl_amount e.2) (fl_protocol_adapter e.2) (fl_liquidity_provider e.2) (fl_token e.2))
      <$> map_to_list (sol_flashloans s) in
  Ok (router, flash_loan_and_settle_calldata flashloans calldata).

(** The call of [settle] a solution is encoded as. *)
Definition settle_call (s : DriverSolution.Solution) (contracts : Contracts)
  (approvals : list DriverSolution.Allowance) (internalization : Internalization)
  (slippage : SlippageParameters) (insert_unwraps : bool) : comp (result EncodingError SettleCall) :=
  let! prices := clearing_prices s in
  let uniform := uniform_prices prices in
  let!r e := Ret (encode_trades s (sol_trades s)
                    (mkEncoded uniform.*1 uniform.*2 [] (sol_pre_interactions s)
                       (sol_post_interactions s) 0)) in
  let!r interactions := encode_interactions slippage (ct_settlement contracts) internalization
                          (sol_interactions s) in
  let unwraps := if negb (en_unwrap e =? 0) && insert_unwraps
                 then [unwrap_interaction (en_unwrap e) (ct_weth contracts)] else [] in
  Ret (Ok (mkSettleCall (en_tokens e) (en_prices e) (en_trades e) (en_pre e)
             ((approve <$> approvals) ++ interactions ++ unwraps) (en_post e))).

Definition encoding_tx (auction_id : option Z) (s : DriverSolution.Solution) (contracts : Contracts)
  (approvals : list DriverSolution.Allowance) (internalization : Internalization)
  (slippage : SlippageParameters) (insert_unwraps : bool) : comp (result EncodingError Tx) :=
  let!r call := settle_call s contracts approvals internalization slippage insert_unwraps in
  Ret (letr id := ok_or auction_id MissingAuctionId in
       let calldata := settle_calldata call ++ i64_to_be_bytes id in
       let has_flashloans := negb (bool_decide (sol_flashloans s = ∅)) in
       letr (to, calldata) :=
         match has_flashloans, sol_wrappers s with
         | true, _ :: _ => Err FlashloanWrappersIncompatible
         | true, [] => encode_flashloan_settlement s contracts calldata
         | false, w :: _ =>
             Ok (wrapper_address w, wrapped_settle_calldata calldata (encode_wrapper_data true (sol_wrappers s)))
         | false, [] => Ok (ct_settlement contracts, calldata)
         end in
       Ok (mkTx (sol_solver s) to calldata)).
End encoding.

(** ** What a settlement holds *)
Definition encoded_trade (t : Trade) : Z -> Z -> GPv2Trade :=
  match t with TradeFulfillment f => fulfillment_trade f | TradeJit j => jit_trade j end.

(** The custom prices of a trade: at the uniform prices of its tokens, and the limit
    price of a just-in-time order. *)
Definition trade_custom (s : DriverSolution.Solution) (t : Trade) (c : ClearingPrices) : Prop :=
  match t with
  | TradeFulfillment f => exists sell buy,
      clearing_price s (asset_token (order_sell (f_order f))) = Some sell /\
      clearing_price s (asset_token (order_buy (f_order f))) = Some buy /\
      Fulfillment_custom_prices f (mkClearingPrices sell buy) = Ok c
  | TradeJit j =>
      c = mkClearingPrices (asset_amount (jo_buy (jit_order j))) (asset_amount (jo_sell (jit_order j)))
  end.

Definition pair_of {A B} (f g : A -> B) (l : list A) : list B := l ≫= fun x => [f x; g x].

Lemma pair_of_lookup {A B} (f g : A -> B) l (k : nat) x :
  l !! k = Some x ->
  pair_of f g l !! (2 * k)%nat = Some (f x) /\ pair_of f g l !! (2 * k + 1)%nat = Some (g x).
Proof.
  revert k. induction l as [|y l IH]; intros [|k] Hk; try discriminate Hk.
  - injection Hk as ->. done.
  - destruct (IH k Hk) as [H1 H2]. unfold pair_of in *. cbn [mbind list_bind app].
    replace (2 * S k)%nat with (S (S (2 * k))) by lia.
    replace (S (S (2 * k)) + 1)%nat with (S (S (2 * k + 1))) by lia. done.
Qed.

Lemma length_pair_of {A B} (f g : A -> B) l : length (pair_of f g l) = (2 * length l)%nat.
Proof. induction l as [|x l IH]; [done|]. unfold pair_of in *. cbn [mbind list_bind]. simpl. lia. Qed.

Definition sell_token_of (t : Trade) : address := asset_token (Trade_sell t).
Definition buy_token_of (t : Trade) : address := asset_token (Trade_buy t).

(** The trades of a call point at the tokens pushed for them. *)
Definition indexed_trades (n : nat) (trades : list Trade) : list GPv2Trade :=
  imap (fun k t => encoded_trade t (Z.of_nat (n + 2 * k)) (Z.of_nat (n + 2 * k + 1))) trades.

Lemma encode_trade_spec s t e e' :
  encode_trade s t e = Ok e' -> exists c, trade_custom s t c /\
    en_tokens e' = en_tokens e ++ [sell_token_of t; buy_token_of t] /\
    en_prices e' = en_prices e ++ [price_sell c; price_buy c] /\
    en_trades e' = en_trades e ++ [encoded_trade t (Z.of_nat (length (en_tokens e)))
                                     (Z.of_nat (length (en_tokens e)) + 1)].
Proof.
  destruct t as [f|j]; cbn [encode_trade]; intros E; [|injection E as <-; eexists; split; [done|by cbn]].
  apply result_bind_Ok in E as (sell & Hsell%ok_or_Ok & E).
  apply result_bind_Ok in E as (buy & Hbuy%ok_or_Ok & E).
  apply result_bind_Ok in E as (unwrap & _ & E).
  apply result_bind_Ok in E as (c & Hc%map_err_Ok & E). injection E as <-.
  exists c. split; [by exists sell, buy|by cbn].
Qed.

Lemma encode_trades_spec s trades e e' :
  encode_trades s trades e = Ok e' -> exists customs, Forall2 (trade_custom s) trades customs /\
    en_tokens e' = en_tokens e ++ pair_of sell_token_of buy_token_of trades /\
    en_prices e' = en_prices e ++ pair_of price_sell price_buy customs /\
    en_trades e' = en_trades e ++ indexed_trades (length (en_tokens e)) trades.
Proof.
  revert e. induction trades as [|t trades IH]; intros e E; cbn [encode_trades] in E.
  { injection E as <-. exists []. unfold pair_of. cbn. rewrite !app_nil_r. by split_and!; [constructor|..]. }
  apply result_bind_Ok in E as (e1 & E1 & E).
  apply encode_trade_spec in E1 as (c & Hc & Ht & Hp & Htr).
  apply IH in E as (customs & Hcs & Ht' & Hp' & Htr'). exists (c :: customs).
  split; [by constructor|]. split_and!.
  - rewrite Ht', Ht, <-app_assoc. done.
  - rewrite Hp', Hp, <-app_assoc. done.
  - rewrite Htr', Htr, <-app_assoc, Ht, length_app. cbn [length app]. f_equal.
    unfold indexed_trades. rewrite imap_cons. cbn [app]. f_equal; [f_equal; lia|].
    apply imap_ext. intros k x _. cbn. f_equal; lia.
Qed.

Section calls.
Context `{SettlementAbi} (swap : LiquidityKind -> Asset -> Asset -> address -> option EthInteraction).

Lemma settle_call_spec s contracts approvals internalization slippage unwraps call :
  settle_call swap s contracts approvals internalization slippage unwraps = Ret (Ok call) ->
  exists prices customs, clearing_prices s = Ret prices /\
    Forall2 (trade_custom s) (sol_trades s) customs /\
    sc_tokens call = (uniform_prices prices).*1 ++ pair_of sell_token_of buy_token_of (sol_trades s) /\
    sc_clearing_prices call = (uniform_prices prices).*2 ++ pair_of price_sell price_buy customs /\
    sc_trades call = indexed_trades (length (uniform_prices prices)) (sol_trades s).
Proof.
  intros E. unfold settle_call in E. apply comp_bind_Ret in E as (prices & Hprices & E).
  apply comp_rbind_Ok in E as (e & He & E). injection He as He.
  apply comp_rbind_Ok in E as (interactions & _ & E). injection E as <-.
  apply encode_trades_spec in He as (customs & Hcs & Ht & Hp & Htr). cbn [en_tokens en_prices en_trades] in *.
  exists prices, customs. rewrite length_fmap in Htr. by cbn.
Qed.
End calls.

(** ** The uniform prices come first *)
Lemma uniform_prices_elem prices token p : (token, p) ∈ uniform_prices prices <-> prices !! token = Some p.
Proof. unfold uniform_prices. rewrite sort_by_elem. apply elem_of_map_to_list. Qed.

Lemma uniform_prices_NoDup prices : NoDup (uniform_prices prices).*1.
Proof. unfold uniform_prices. rewrite sort_by_perm. apply NoDup_fst_map_to_list. Qed.

(** The tokens of user trades have their uniform price in the settlement; no order
    sells the native token. *)
Lemma clearing_prices_user s prices f token :
  sol_weth s <> NATIVE_TOKEN -> clearing_prices s = Ret prices -> f ∈ user_trades s ->
  (token = asset_token (order_sell (f_order f)) /\ token <> NATIVE_TOKEN) \/ token = asset_token (order_buy (f_order f)) ->
  prices !! token = clearing_price s token.
Proof.
  intros Hweth Hcp Hf Htok. unfold clearing_prices in Hcp. unfold clearing_price, as_erc20.
  destruct (existsb (fun f => buys_eth (f_order f)) (user_trades s)) eqn:Heth.
  - apply comp_bind_Ret in Hcp as (p & Hp%expect_Ret & Hcp). injection Hcp as <-.
    destruct (Z.eqb_spec token NATIVE_TOKEN) as [->|Hne]; [by rewrite lookup_insert_eq, Hp|].
    rewrite lookup_insert_ne by congruence. destruct (trades_weth s) eqn:Htw; cbn [negb]; [done|].
    rewrite lookup_delete_ne; [done|]. intros <-. enough (trades_weth s = true) by congruence.
    apply existsb_exists. exists f. split; [by apply list_elem_of_In|].
    apply orb_true_iff. destruct Htok as [[-> _]| ->]; [left|right]; apply Z.eqb_refl.
  - injection Hcp as <-. destruct (Z.eqb_spec token NATIVE_TOKEN) as [->|Hne]; [|done].
    destruct Htok as [[_ Hn]|Hb]; [done|].
    enough (existsb (fun f => buys_eth (f_order f)) (user_trades s) = true) by congruence.
    apply existsb_exists. exists f. split; [by apply list_elem_of_In|]. unfold buys_eth. by apply Z.eqb_eq.
Qed.
