(* ===== verification/AutopilotSettlement.v ===== *)
(** * AutopilotSettlement: settlements as the autopilot observes them

    [crates/autopilot/src/domain/settlement/transaction/mod.rs] and [tokenized.rs]: the
    autopilot finds the settlement call in the traces of a transaction, the solver
    among its callers, and decodes the trades with the uids of their orders.  The
    driver's encoding ([DriverEncoding]) is shown to be read back as it was meant.

    Keccak and ECDSA recovery are the parameters of [OrderModel]; the on-chain list of
    solvers is a parameter. *)

From stdpp Require Import base gmap sets list strings.
From Stdlib Require Import ZArith Lia SpecFloat.
From S2P Require Import Prelude Collections F64 Eth Liquidity Solution Score Arbitrator Dto.
From S2P Require Import DriverOrder OrderModel DriverTrade DriverScore DriverSolution.
From S2P Require Import AutopilotBids DriverEncoding.

Open Scope Z_scope.

(** ** Call frames *)
#[warnings="-register-all"]
Inductive CallFrame :=
| mkCallFrame (from : address) (to : option address) (input : list Z) (calls : list CallFrame).

Definition cf_from (f : CallFrame) : address := let '(mkCallFrame from _ _ _) := f in from.
Definition cf_to (f : CallFrame) : option address := let '(mkCallFrame _ to _ _) := f in to.
Definition cf_input (f : CallFrame) : list Z := let '(mkCallFrame _ _ input _) := f in input.
Definition cf_calls (f : CallFrame) : list CallFrame := let '(mkCallFrame _ _ _ calls) := f in calls.

(** The number of frames of a call. *)
Fixpoint cf_size (f : CallFrame) : nat :=
  let '(mkCallFrame _ _ _ calls) := f in S (list_sum (map cf_size calls)).

Inductive TransactionError :=
| MissingCalldata
| MissingSolver
| MissingTxAuctionId
| Decoding
| OrderUidRecover
| SignatureRecover
| Authentication.

Record TxPrices := mkTxPrices { uniform : ClearingPrices; custom : ClearingPrices }.

Record EncodedTrade := mkEncodedTrade {
  et_uid : Z;
  et_sell : Asset;
  et_buy : Asset;
  et_side : Side;
  et_receiver : address;
  et_valid_to : Z;
  et_app_data : Z;
  et_fee_amount : Z;
  et_sell_token_balance : SellTokenBalance;
  et_buy_token_balance : BuyTokenBalance;
  et_partially_fillable : bool;
  et_signature : OrderSignature;
  et_executed : Z;
  et_prices : TxPrices;
}.

(** [eth::Transaction]. *)
Record EthTransaction := mkEthTransaction {
  etx_hash : Z;
  etx_block : Z;
  etx_timestamp : Z;
  etx_gas : Z;
  etx_gas_price : Z;
  etx_trace_calls : CallFrame;
}.

Record Transaction := mkTransaction {
  tr_hash : Z;
  tr_auction_id : Z;
  tr_block : Z;
  tr_timestamp : Z;
  tr_gas : Z;
  tr_gas_price : Z;
  tr_solver : address;
  tr_trades : list EncodedTrade;
}.

(** ** [TradeFlags] *)
Definition flags_as_u8 (f : Z) : Z := Z.land f 0xff.
Definition tf_side (f : Z) : Side := if Z.land (flags_as_u8 f) 1 =? 0 then Sell else Buy.
Definition tf_partially_fillable (f : Z) : bool := negb (Z.land (flags_as_u8 f) 2 =? 0).
Definition tf_sell_token_balance (f : Z) : SellTokenBalance :=
  if Z.land (flags_as_u8 f) 0x08 =? 0 then SellErc20
  else if Z.land (flags_as_u8 f) 0x04 =? 0 then SellExternal
  else SellInternal.
Definition tf_buy_token_balance (f : Z) : BuyTokenBalance :=
  if Z.land (flags_as_u8 f) 0x10 =? 0 then BuyErc20 else BuyInternal.
Definition tf_signing_scheme (f : Z) : Scheme :=
  let bits := Z.land (Z.shiftr (flags_as_u8 f) 5) 3 in
  if bits =? 0 then Eip712 else if bits =? 1 then EthSign else if bits =? 2 then Eip1271 else PreSign.

(** ** Decoding a transaction *)

(** [position] of a token. *)
Fixpoint token_position (token : address) (tokens : list address) : option nat :=
  match tokens with
  | [] => None
  | t :: tokens => if t =? token then Some O else S <$> token_position token tokens
  end.

(** Indices beyond the bounds of a vector panic. *)
Definition index {A} (l : list A) (i : Z) : comp A :=
  expect (if fits 64 i then l !! Z.to_nat i else None).

Section transaction.
Context `{SettlementAbi}.
Context (keccak256 : list Z -> Z) (ecrecover : list Z -> Z -> option address) (domain_separator : Z).
Context (is_valid_solver : address -> option bool).

(** [tokenized::order_uid]. *)
Definition tokenized_order_data (trade : GPv2Trade) (sell_token buy_token : address) : OrderData :=
  let f := gt_flags trade in
  mkOrderData sell_token buy_token (Some (gt_receiver trade)) (gt_sell_amount trade) (gt_buy_amount trade)
    (gt_valid_to trade) (gt_app_data trade) (gt_fee_amount trade) (tf_side f) (tf_partially_fillable f)
    (tf_sell_token_balance f) (tf_buy_token_balance f).

Definition tokenized_order_uid (trade : GPv2Trade) (tokens : list address) : comp (option Z) :=
  let!? signature := Ret (OrderSignature_from_bytes (tf_signing_scheme (gt_flags trade)) (gt_signature trade)) in
  let! sell_token := index tokens (gt_sell_token_index trade) in
  let! buy_token := index tokens (gt_buy_token_index trade) in
  let order := tokenized_order_data trade sell_token buy_token in
  let!? owner := recover_owner keccak256 ecrecover signature (gt_signature trade) domain_separator
                   (hash_struct keccak256 order) in
  Ret (Some (uid keccak256 order domain_separator owner)).

Definition is_settlement_trace (trace : CallFrame) (settlement_contract : address) : bool :=
  (default 0 (cf_to trace) =? settlement_contract)
  && bool_decide (SETTLE_SELECTOR `prefix_of` cf_input trace).

(** The breadth-first search; the fuel is the number of frames to visit. *)
Fixpoint find_settlement_loop (fuel : nat) (settlement_contract : address)
  (queue : list (CallFrame * list address)) : option (CallFrame * list address) :=
  match fuel, queue with
  | S fuel, (call_frame, callers_so_far) :: queue =>
      if is_settlement_trace call_frame settlement_contract then Some (call_frame, callers_so_far)
      else find_settlement_loop fuel settlement_contract
             (queue ++ ((fun sub_call => (sub_call, callers_so_far ++ [cf_from sub_call]))
                          <$> cf_calls call_frame))
  | _, _ => None
  end.

Definition find_settlement_trace_and_callers (call_frame : CallFrame) (settlement_contract : address)
  : option (CallFrame * list address) :=
  find_settlement_loop (cf_size call_frame) settlement_contract [(call_frame, [cf_from call_frame])].

Fixpoint find_solver_loop (callers : list address) (checked_callers : gset address)
  : result TransactionError (option address) :=
  match callers with
  | [] => Ok None
  | caller :: callers =>
      if bool_decide (caller ∈ checked_callers) then find_solver_loop callers checked_callers
      else
        letr valid := ok_or (is_valid_solver caller) Authentication in
        if (valid : bool) then Ok (Some caller)
        else find_solver_loop callers ({[caller]} ∪ checked_callers)
  end.

Definition find_solver_address (callers : list address) : result TransactionError (option address) :=
  find_solver_loop callers ∅.

Definition decode_trade (call : SettleCall) (trade : GPv2Trade) : comp (result TransactionError EncodedTrade) :=
  let tokens := sc_tokens call in
  let prices := sc_clearing_prices call in
  let f := gt_flags trade in
  let! sell_token := index tokens (gt_sell_token_index trade) in
  let! buy_token := index tokens (gt_buy_token_index trade) in
  let! uniform_sell_token_index := expect (token_position sell_token tokens) in
  let! uniform_buy_token_index := expect (token_position buy_token tokens) in
  let! uid := tokenized_order_uid trade tokens in
  let!r uid := Ret (ok_or uid OrderUidRecover) in
  let!r signature :=
    Ret (ok_or (OrderSignature_from_bytes (tf_signing_scheme f) (gt_signature trade)) SignatureRecover) in
  let! uniform_sell := index prices (Z.of_nat uniform_sell_token_index) in
  let! uniform_buy := index prices (Z.of_nat uniform_buy_token_index) in
  let! custom_sell := index prices (gt_sell_token_index trade) in
  let! custom_buy := index prices (gt_buy_token_index trade) in
  Ret (Ok (mkEncodedTrade uid (mkAsset sell_token (gt_sell_amount trade)) (mkAsset buy_token (gt_buy_amount trade))
             (tf_side f) (gt_receiver trade) (gt_valid_to trade) (gt_app_data trade) (gt_fee_amount trade)
             (tf_sell_token_balance f) (tf_buy_token_balance f) (tf_partially_fillable f) signature
             (gt_executed_amount trade)
             (mkTxPrices (mkClearingPrices uniform_sell uniform_buy) (mkClearingPrices custom_sell custom_buy)))).

Fixpoint decode_trades (call : SettleCall) (trades : list GPv2Trade)
  : comp (result TransactionError (list EncodedTrade)) :=
  match trades with
  | [] => Ret (Ok [])
  | trade :: trades =>
      let!r trade := decode_trade call trade in
      let!r trades := decode_trades call trades in
      Ret (Ok (trade :: trades))
  end.

Definition META_DATA_LEN : nat := 8.

Definition Transaction_try_new (t : EthTransaction) (settlement_contract : address)
  : comp (result TransactionError Transaction) :=
  let!r (frame, callers) :=
    Ret (ok_or (find_settlement_trace_and_callers (etx_trace_calls t) settlement_contract) MissingCalldata) in
  let!r solver := Ret (find_solver_address callers) in
  let calldata := cf_input frame in
  if (length calldata <? META_DATA_LEN)%nat then Ret (Err MissingCalldata)
  else
    let data := take (length calldata - META_DATA_LEN) calldata in
    let auction_id := i64_from_be_bytes (drop (length calldata - META_DATA_LEN) calldata) in
    let!r solver := Ret (ok_or solver MissingSolver) in
    let!r call := Ret (ok_or (settle_abi_decode data) Decoding) in
    let!r trades := decode_trades call (sc_trades call) in
    Ret (Ok (mkTransaction (etx_hash t) auction_id (etx_block t) (etx_timestamp t) (etx_gas t)
               (etx_gas_price t) solver trades)).
End transaction.

(** ** The search visits every call *)

(** [calls_path f p g]: [g] is a call inside [f], and [p] lists the callers from [f]'s
    to [g]'s. *)
Inductive calls_path : CallFrame -> list address -> CallFrame -> Prop :=
| path_here f : calls_path f [cf_from f] f
| path_sub f c p g : c ∈ cf_calls f -> calls_path c p g -> calls_path f (cf_from f :: p) g.

Lemma calls_path_inv f p g :
  calls_path f p g <->
  (p = [cf_from f] /\ g = f) \/ exists c q, c ∈ cf_calls f /\ p = cf_from f :: q /\ calls_path c q g.
Proof.
  split.
  - destruct 1 as [f|f c q g Hc Hq]; [by left|right; eauto].
  - intros [[-> ->]|(c & q & Hc & -> & Hq)]; econstructor; eauto.
Qed.

Lemma calls_path_nonempty f p g : calls_path f p g -> exists q, p = cf_from f :: q.
Proof. destruct 1; eauto. Qed.

Section search.
Context `{SettlementAbi} (settlement : address).

Definition queue_size (queue : list (CallFrame * list address)) : nat :=
  list_sum ((fun e => cf_size e.1) <$> queue).

Definition sub_calls (f : CallFrame) (callers : list address) : list (CallFrame * list address) :=
  (fun c => (c, callers ++ [cf_from c])) <$> cf_calls f.

(** The calls that are still to be visited, with the callers reported for them. *)
Definition pending (queue : list (CallFrame * list address)) (p : list address) (g : CallFrame) : Prop :=
  exists f pre q, (f, pre ++ [cf_from f]) ∈ queue /\ p = pre ++ q /\ calls_path f q g.

(** All callers of the queue end with the frame's own, and lists of callers grow by
    at most one along it. *)
Definition queue_ok (n : nat) (queue : list (CallFrame * list address)) : Prop :=
  exists now next, queue = now ++ next /\
    Forall (fun e => length e.2 = n /\ exists pre, e.2 = pre ++ [cf_from e.1]) now /\
    Forall (fun e => length e.2 = S n /\ exists pre, e.2 = pre ++ [cf_from e.1]) next.

Lemma cf_size_calls f : cf_size f = S (list_sum (cf_size <$> cf_calls f)).
Proof. by destruct f. Qed.

Lemma queue_size_step f callers queue :
  queue_size ((f, callers) :: queue) = S (queue_size (queue ++ sub_calls f callers)).
Proof.
  unfold queue_size, sub_calls. rewrite fmap_app, list_sum_app, fmap_cons, <-list_fmap_compose.
  cbn [list_sum foldr fst]. rewrite cf_size_calls. unfold compose. cbn [fst].
  change (foldr Init.Nat.add 0%nat) with list_sum. change (fun x => cf_size x) with cf_size. lia.
Qed.

Lemma pending_step f pre queue p g :
  pending ((f, pre ++ [cf_from f]) :: queue) p g <->
  (p = pre ++ [cf_from f] /\ g = f) \/ pending (queue ++ sub_calls f (pre ++ [cf_from f])) p g.
Proof.
  unfold pending, sub_calls. split.
  - intros (f' & pre' & q & [Hin|Hin]%elem_of_cons & -> & Hq).
    + injection Hin as -> Hpre. apply app_inj_2 in Hpre as [-> _]; [|done].
      apply calls_path_inv in Hq as [[-> ->]|(c & r & Hc & -> & Hr)]; [by left|right].
      exists c, (pre ++ [cf_from f]), r. rewrite elem_of_app, list_elem_of_fmap.
      split; [right; by exists c|]. by rewrite <-app_assoc.
    + right. exists f', pre', q. rewrite elem_of_app. auto.
  - intros [[-> ->]|(f' & pre' & q & Hin & -> & Hq)].
    + exists f, pre, [cf_from f]. rewrite elem_of_cons. split_and!; [by left|done|constructor].
    + apply elem_of_app in Hin as [Hin|(c & Hc & Hin)%list_elem_of_fmap].
      * exists f', pre', q. rewrite elem_of_cons. auto.
      * injection Hc as -> Hpre. apply app_inj_2 in Hpre as [-> _]; [|done].
        exists f, pre, (cf_from f :: q). rewrite elem_of_cons.
        split_and!; [by left|by rewrite <-app_assoc|by econstructor].
Qed.

Lemma queue_ok_step n f callers queue :
  queue_ok n ((f, callers) :: queue) -> exists m pre,
    callers = pre ++ [cf_from f] /\ length callers = m /\
    Forall (fun e => m <= length e.2)%nat queue /\ queue_ok m (queue ++ sub_calls f callers).
Proof.
  assert (Hsub : forall m, length callers = m ->
    Forall (fun e => length e.2 = S m /\ exists pre, e.2 = pre ++ [cf_from e.1]) (sub_calls f callers)).
  { intros m Hm. apply Forall_fmap, Forall_forall. intros c _. cbn. split; [rewrite length_app; cbn; lia|eauto]. }
  assert (Hle : forall m k (l : list (CallFrame * list address)), (m <= k)%nat ->
    Forall (fun e => length e.2 = k /\ exists pre, e.2 = pre ++ [cf_from e.1]) l ->
    Forall (fun e => m <= length e.2)%nat l).
  { intros m k l Hmk Hl. eapply Forall_impl; [exact Hl|]. intros e [-> _]. done. }
  intros ([|e now] & next & Hq & Hnow & Hnext); cbn in Hq.
  - subst next. apply Forall_cons in Hnext as [[Hlen [pre Hpre]] Hnext]. cbn in *.
    exists (S n), pre. split_and!; [done|done|by eapply Hle; [|exact Hnext]|].
    exists queue, (sub_calls f callers). auto.
  - injection Hq as <- ->. apply Forall_cons in Hnow as [[Hlen [pre Hpre]] Hnow]. cbn in *.
    exists n, pre. split_and!; [done|done| |].
    + apply Forall_app. split; [by eapply Hle; [|exact Hnow]|eapply Hle; [|exact Hnext]; lia].
    + exists now, (next ++ sub_calls f callers). rewrite app_assoc. split_and!; [done|done|].
      apply Forall_app. auto.
Qed.

Lemma pending_length m queue p g :
  Forall (fun e => m <= length e.2)%nat queue -> pending queue p g -> (m <= length p)%nat.
Proof.
  intros Hall (f & pre & q & Hin & -> & Hq). rewrite Forall_forall in Hall. apply Hall in Hin. cbn in Hin.
  apply calls_path_nonempty in Hq as [r ->]. rewrite length_app in *. cbn in *. lia.
Qed.

Lemma find_settlement_loop_spec fuel n queue :
  (queue_size queue <= fuel)%nat -> queue_ok n queue ->
  match find_settlement_loop fuel settlement queue with
  | Some (g, p) => pending queue p g /\ is_settlement_trace g settlement = true /\
      forall p' g', pending queue p' g' -> is_settlement_trace g' settlement = true -> (length p <= length p')%nat
  | None => forall p g, pending queue p g -> is_settlement_trace g settlement = false
  end.
Proof.
  revert n queue. induction fuel as [|fuel IH]; intros n [|[f callers] queue] Hsize Hok;
    try (intros p g (f' & pre & q & Hin & _); by apply not_elem_of_nil in Hin).
  { rewrite queue_size_step in Hsize. lia. }
  apply queue_ok_step in Hok as (m & pre & -> & Hlen & Hle & Hok). rewrite queue_size_step in Hsize.
  cbn [find_settlement_loop]. destruct (is_settlement_trace f settlement) eqn:Hf.
  - split_and!; [apply pending_step; by left|done|]. intros p' g' (f' & pre' & q & Hin & -> & Hq) _.
    apply (pending_length (length (pre ++ [cf_from f])) ((f, pre ++ [cf_from f]) :: queue) _ g');
      [rewrite Hlen; constructor; [cbn; lia|done]|]. by exists f', pre', q.
  - specialize (IH m (queue ++ sub_calls f (pre ++ [cf_from f])) ltac:(lia) Hok). unfold sub_calls in IH.
    destruct (find_settlement_loop _ _ _) as [[g p]|].
    + destruct IH as (Hp & Hg & Hmin). split_and!; [apply pending_step; by right|done|].
      intros p' g' [[-> ->]|Hp']%pending_step Hg'; [congruence|eauto].
    + intros p g [[-> ->]|Hp]%pending_step; eauto.
Qed.

(** The search finds an outermost settlement call together with its callers,
    whenever there is one. *)
Lemma find_settlement_spec f :
  match find_settlement_trace_and_callers f settlement with
  | Some (g, p) => calls_path f p g /\ is_settlement_trace g settlement = true /\
      forall p' g', calls_path f p' g' -> is_settlement_trace g' settlement = true -> (length p <= length p')%nat
  | None => forall p g, calls_path f p g -> is_settlement_trace g settlement = false
  end.
Proof.
  assert (Hpend : forall p g, pending [(f, [cf_from f])] p g <-> calls_path f p g).
  { intros p g. split.
    - intros (f' & pre & q & Hin%list_elem_of_singleton & -> & Hq). injection Hin as -> Hpre.
      apply (app_inj_2 pre []) in Hpre as [-> _]; done.
    - intros Hp. exists f, [], p. rewrite list_elem_of_singleton. done. }
  assert (Hok : queue_ok 1 [(f, [cf_from f])]).
  { exists [(f, [cf_from f])], []. split_and!; [done| |done]. constructor; [by split; [|exists []]|done]. }
  pose proof (find_settlement_loop_spec (cf_size f) 1 [(f, [cf_from f])]
    ltac:(unfold queue_size; cbn; lia) Hok) as Hspec.
  unfold find_settlement_trace_and_callers.
  destruct (find_settlement_loop _ _ _) as [[g p]|].
  - destruct Hspec as (Hp & Hg & Hmin). split_and!; [by apply Hpend|done|].
    intros p' g' Hp'%Hpend. eauto.
  - intros p g Hp%Hpend. eauto.
Qed.
End search.

(** ** What the driver encodes is what the autopilot reads *)
Lemma flags_round_trip f :
  tf_side (flags f) = flag_side f /\ tf_partially_fillable (flags f) = flag_partially_fillable f /\
  tf_signing_scheme (flags f) = flag_signing_scheme f /\
  tf_sell_token_balance (flags f) = flag_sell_token_balance f /\
  tf_buy_token_balance (flags f) = flag_buy_token_balance f.
Proof. by destruct f as [[] [] [] [] []]. Qed.

Lemma index_lookup {A} (l : list A) (i : nat) x :
  l !! i = Some x -> Z.of_nat (length l) <= 2 ^ 64 -> index l (Z.of_nat i) = Ret x.
Proof.
  intros Hi Hlen. pose proof (lookup_lt_Some _ _ _ Hi). unfold index.
  assert (fits 64 (Z.of_nat i) = true) as -> by (apply fits_spec; lia). by rewrite Nat2Z.id, Hi.
Qed.

Lemma token_position_app token l k (i : nat) :
  NoDup l -> l !! i = Some token -> token_position token (l ++ k) = Some i.
Proof.
  revert i. induction l as [|t l IH]; intros [|i] Hnd Hi; try discriminate Hi.
  - injection Hi as ->. cbn. by rewrite Z.eqb_refl.
  - apply NoDup_cons in Hnd as [Ht Hnd]. cbn. destruct (Z.eqb_spec t token) as [->|Hne].
    + destruct Ht. by apply list_elem_of_lookup_2 with i.
    + by rewrite (IH i).
Qed.

Lemma token_position_elem token l : token ∈ l -> exists i, token_position token l = Some i /\ l !! i = Some token.
Proof.
  induction l as [|t l IH]; intros Hin; [by apply not_elem_of_nil in Hin|]. cbn.
  destruct (Z.eqb_spec t token) as [->|Hne]; [by exists O|].
  apply elem_of_cons in Hin as [->|Hin]; [done|]. destruct (IH Hin) as (i & -> & Hi). by exists (S i).
Qed.

(** The signed data of a trade's order and its signature. *)
Definition trade_order_data (t : Trade) : OrderData :=
  match t with
  | TradeFulfillment f =>
      let o := f_order f in
      mkOrderData (asset_token (order_sell o)) (asset_token (order_buy o)) (Some (default 0 (order_receiver o)))
        (asset_amount (order_sell o)) (asset_amount (order_buy o)) (order_valid_to o)
        (AppData_hash (order_app_data o)) 0 (order_side o)
        match order_partial o with PartialYes _ => true | PartialNo => false end
        (order_sell_token_balance o) (order_buy_token_balance o)
  | TradeJit j =>
      let o := jit_order j in
      mkOrderData (asset_token (jo_sell o)) (asset_token (jo_buy o)) (Some (jo_receiver o))
        (asset_amount (jo_sell o)) (asset_amount (jo_buy o)) (jo_valid_to o) (jo_app_data o) 0 (jo_side o)
        false (jo_sell_token_balance o) (jo_buy_token_balance o)
  end.

Definition trade_signature (t : Trade) : DriverOrder.Signature :=
  match t with
  | TradeFulfillment f => order_signature (f_order f)
  | TradeJit j => jo_signature (jit_order j)
  end.

(** The executed amount a trade is encoded with. *)
Definition encoded_executed (t : Trade) : Z :=
  match t with
  | TradeFulfillment f =>
      match order_side (f_order f) with
      | Sell => wrapping_add (f_executed f) (Fulfillment_fee f)
      | Buy => f_executed f
      end
  | TradeJit j => jit_executed j
  end.

Section round_trip.
Context `{SettlementAbi} (swap : LiquidityKind -> Asset -> Asset -> address -> option EthInteraction).
Context (keccak256 : list Z -> Z) (ecrecover : list Z -> Z -> option address) (domain_separator : Z).
Context (is_valid_solver : address -> option bool).

(** An order is known by its uid and signed by its owner. *)
Definition signature_valid (sg : DriverOrder.Signature) (struct_hash : Z) : Prop :=
  match sig_scheme sg with
  | Eip712 | EthSign => exists s,
      OrderSignature_from_bytes (sig_scheme sg) (sig_data sg) = Some s /\
      recover keccak256 ecrecover s domain_separator struct_hash = Some (Some (sig_signer sg))
  | Eip1271 | PreSign => 0 <= sig_signer sg < 2 ^ 160
  end.

Definition trade_valid (t : Trade) : Prop :=
  Trade_uid t = uid keccak256 (trade_order_data t) domain_separator (sig_signer (trade_signature t)) /\
  signature_valid (trade_signature t) (hash_struct keccak256 (trade_order_data t)).

Lemma OrderSignature_from_bytes_ecdsa scheme bytes s :
  OrderSignature_from_bytes scheme bytes = Some s -> scheme = Eip712 \/ scheme = EthSign ->
  (exists e, s = SigEip712 e) \/ (exists e, s = SigEthSign e).
Proof.
  intros Hs [->| ->]; cbn in Hs; case_bool_decide; try discriminate Hs;
    destruct (Ecdsa_from_bytes bytes) as [e|]; try discriminate Hs; injection Hs as <-; eauto.
Qed.

Lemma signer_recovered sg struct_hash :
  signature_valid sg struct_hash -> exists s,
    OrderSignature_from_bytes (sig_scheme sg) (codec_signature sg) = Some s /\
    recover_owner keccak256 ecrecover s (codec_signature sg) domain_separator struct_hash
      = Ret (Some (sig_signer sg)).
Proof.
  unfold signature_valid, codec_signature. intros Hv.
  destruct (sig_scheme sg) eqn:Hscheme.
  1, 2: destruct Hv as (s & Hs & Hr); exists s; split; [done|];
    destruct (OrderSignature_from_bytes_ecdsa _ _ _ Hs) as [[e ->]|[e ->]]; [by auto|..];
    cbn [recover_owner]; by rewrite Hr.
  - destruct (recover_owner_encoded keccak256 ecrecover (SigEip1271 (sig_data sg)) domain_separator struct_hash
      (sig_signer sg) Hv) as (s' & Hs' & Hr). by exists s'.
  - destruct (recover_owner_encoded keccak256 ecrecover SigPreSign domain_separator struct_hash
      (sig_signer sg) Hv) as (s' & Hs' & Hr). by exists s'.
Qed.

Lemma encoded_trade_data t i j :
  let e := encoded_trade t i j in
  tokenized_order_data e (sell_token_of t) (buy_token_of t) = trade_order_data t /\
  tf_signing_scheme (gt_flags e) = sig_scheme (trade_signature t) /\
  gt_signature e = codec_signature (trade_signature t).
Proof.
  destruct t as [f|j']; cbv zeta; unfold tokenized_order_data;
    cbn [encoded_trade fulfillment_trade jit_trade gt_flags gt_receiver gt_sell_amount gt_buy_amount gt_valid_to
         gt_app_data gt_fee_amount gt_signature trade_order_data trade_signature Jit_partial];
    match goal with |- context [flags ?x] => destruct (flags_round_trip x) as (-> & -> & -> & -> & ->) end; done.
Qed.

Lemma order_uid_recovered t (i j : nat) tokens :
  tokens !! i = Some (sell_token_of t) -> tokens !! j = Some (buy_token_of t) ->
  Z.of_nat (length tokens) <= 2 ^ 64 -> trade_valid t ->
  tokenized_order_uid keccak256 ecrecover domain_separator (encoded_trade t (Z.of_nat i) (Z.of_nat j)) tokens
    = Ret (Some (Trade_uid t)).
Proof.
  intros Hi Hj Hlen [Huid Hsig]. unfold tokenized_order_uid.
  destruct (encoded_trade_data t (Z.of_nat i) (Z.of_nat j)) as (Hdata & Hscheme & Hbytes).
  assert (gt_sell_token_index (encoded_trade t (Z.of_nat i) (Z.of_nat j)) = Z.of_nat i) as -> by (by destruct t).
  assert (gt_buy_token_index (encoded_trade t (Z.of_nat i) (Z.of_nat j)) = Z.of_nat j) as -> by (by destruct t).
  rewrite Hscheme, Hbytes. destruct (signer_recovered _ _ Hsig) as (s & Hs & Hr).
  rewrite Hs. cbn [comp_obind comp_bind]. rewrite !(index_lookup _ _ _ Hi Hlen), !(index_lookup _ _ _ Hj Hlen).
  cbn [comp_bind]. rewrite Hdata, Hr. cbn [comp_obind comp_bind]. by rewrite Huid.
Qed.

(** What the autopilot knows of a trade of the driver's solution. *)
Record observed (s : DriverSolution.Solution) (t : Trade) (d : EncodedTrade) : Prop := {
  obs_uid : et_uid d = Trade_uid t;
  obs_sell : et_sell d = Trade_sell t;
  obs_buy : et_buy d = Trade_buy t;
  obs_side : et_side d = Trade_side t;
  obs_partially_fillable : et_partially_fillable d = od_partially_fillable (trade_order_data t);
  obs_sell_token_balance : et_sell_token_balance d = od_sell_token_balance (trade_order_data t);
  obs_buy_token_balance : et_buy_token_balance d = od_buy_token_balance (trade_order_data t);
  obs_executed : et_executed d = encoded_executed t;
  obs_custom : trade_custom s t (custom (et_prices d));
  obs_uniform : match t with
                | TradeFulfillment _ =>
                    clearing_price s (sell_token_of t) = Some (price_sell (uniform (et_prices d))) /\
                    clearing_price s (buy_token_of t) = Some (price_buy (uniform (et_prices d)))
                | TradeJit _ => True
                end;
}.

Lemma decode_encoded_trade call s t (i j i' j' : nat) c u :
  sc_tokens call !! i = Some (sell_token_of t) -> sc_tokens call !! j = Some (buy_token_of t) ->
  sc_clearing_prices call !! i = Some (price_sell c) -> sc_clearing_prices call !! j = Some (price_buy c) ->
  token_position (sell_token_of t) (sc_tokens call) = Some i' ->
  token_position (buy_token_of t) (sc_tokens call) = Some j' ->
  sc_clearing_prices call !! i' = Some (price_sell u) -> sc_clearing_prices call !! j' = Some (price_buy u) ->
  Z.of_nat (length (sc_tokens call)) <= 2 ^ 64 -> Z.of_nat (length (sc_clearing_prices call)) <= 2 ^ 64 ->
  trade_valid t -> trade_custom s t c ->
  match t with
  | TradeFulfillment _ => clearing_price s (sell_token_of t) = Some (price_sell u) /\
                          clearing_price s (buy_token_of t) = Some (price_buy u)
  | TradeJit _ => True
  end ->
  exists d, decode_trade keccak256 ecrecover domain_separator call
    (encoded_trade t (Z.of_nat i) (Z.of_nat j)) = Ret (Ok d) /\ observed s t d.
Proof.
  intros Hi Hj Hci Hcj Hpi Hpj Hui Huj Hlt Hlp Hv Hc Hu. unfold decode_trade.
  rewrite (order_uid_recovered t i j) by done.
  destruct (encoded_trade_data t (Z.of_nat i) (Z.of_nat j)) as (Hdata & Hscheme & Hbytes).
  set (e := encoded_trade t (Z.of_nat i) (Z.of_nat j)) in *.
  assert (gt_sell_token_index e = Z.of_nat i) as -> by (by unfold e; destruct t).
  assert (gt_buy_token_index e = Z.of_nat j) as -> by (by unfold e; destruct t).
  assert (gt_executed_amount e = encoded_executed t) as -> by (by unfold e; destruct t).
  rewrite Hscheme, Hbytes. destruct Hv as [_ Hsig]. destruct (signer_recovered _ _ Hsig) as (sg & Hsg & _).
  rewrite Hsg, !(index_lookup _ _ _ Hi Hlt), !(index_lookup _ _ _ Hj Hlt). cbn [comp_bind].
  rewrite Hpi, Hpj. cbn [expect comp_bind comp_rbind ok_or].
  rewrite (index_lookup _ _ _ Hui Hlp), (index_lookup _ _ _ Huj Hlp), (index_lookup _ _ _ Hci Hlp),
    (index_lookup _ _ _ Hcj Hlp). cbn [comp_bind]. eexists. split; [done|].
  pose proof (f_equal od_kind Hdata) as Hk. pose proof (f_equal od_sell_amount Hdata) as Hsa.
  pose proof (f_equal od_buy_amount Hdata) as Hba.
  unfold tokenized_order_data in Hk, Hsa, Hba. cbn [od_kind od_sell_amount od_buy_amount] in Hk, Hsa, Hba.
  split; cbn [et_uid et_sell et_buy et_side et_partially_fillable et_sell_token_balance et_buy_token_balance
              et_executed et_prices custom uniform price_sell price_buy]; try done.
  - rewrite Hsa. transitivity (mkAsset (asset_token (Trade_sell t)) (asset_amount (Trade_sell t)));
      [by destruct t|by destruct (Trade_sell t)].
  - rewrite Hba. transitivity (mkAsset (asset_token (Trade_buy t)) (asset_amount (Trade_buy t)));
      [by destruct t|by destruct (Trade_buy t)].
  - rewrite Hk. by destruct t.
  - by rewrite <-Hdata.
  - by rewrite <-Hdata.
  - by rewrite <-Hdata.
  - by destruct c.
Qed.

(** Where the autopilot looks up the uniform price of a token. *)
Lemma uniform_index prices token p extra (extra_prices : list Z) :
  prices !! token = Some p -> exists i,
    token_position token ((uniform_prices prices).*1 ++ extra) = Some i /\
    ((uniform_prices prices).*2 ++ extra_prices) !! i = Some p.
Proof.
  intros Hp. apply uniform_prices_elem in Hp. apply list_elem_of_lookup in Hp as [i Hi].
  exists i. split.
  - apply token_position_app; [apply uniform_prices_NoDup|]. by rewrite list_lookup_fmap, Hi.
  - apply lookup_app_l_Some. by rewrite list_lookup_fmap, Hi.
Qed.

(** No order sells the native token, which the settlement contract cannot transfer. *)
Definition sells_erc20 (s : DriverSolution.Solution) : Prop :=
  sol_weth s <> NATIVE_TOKEN /\
  forall f, f ∈ user_trades s -> asset_token (order_sell (f_order f)) <> NATIVE_TOKEN.

Lemma fulfillment_user s f : TradeFulfillment f ∈ sol_trades s -> f ∈ user_trades s.
Proof. intros Hf. apply list_elem_of_omap. by exists (TradeFulfillment f). Qed.

Lemma decode_trades_Forall2 call s trades es :
  Forall2 (fun t e => exists d, decode_trade keccak256 ecrecover domain_separator call e = Ret (Ok d)
                                /\ observed s t d) trades es ->
  exists ds, decode_trades keccak256 ecrecover domain_separator call es = Ret (Ok ds) /\
    Forall2 (observed s) trades ds.
Proof.
  induction 1 as [|t e trades es (d & Hd & Ho) _ (ds & Hds & Hos)]; [by exists []|].
  exists (d :: ds). cbn [decode_trades]. rewrite Hd. cbn [comp_rbind]. rewrite Hds. cbn [comp_rbind].
  split; [done|by constructor].
Qed.

Lemma uniform_lookup s prices call t customs :
  sol_weth s <> NATIVE_TOKEN ->
  (forall f, f ∈ user_trades s -> asset_token (order_sell (f_order f)) <> NATIVE_TOKEN) ->
  clearing_prices s = Ret prices -> t ∈ sol_trades s ->
  sc_tokens call = (uniform_prices prices).*1 ++ pair_of sell_token_of buy_token_of (sol_trades s) ->
  sc_clearing_prices call = (uniform_prices prices).*2 ++ pair_of price_sell price_buy customs ->
  Forall2 (trade_custom s) (sol_trades s) customs ->
  exists i' j' u, token_position (sell_token_of t) (sc_tokens call) = Some i' /\
    token_position (buy_token_of t) (sc_tokens call) = Some j' /\
    sc_clearing_prices call !! i' = Some (price_sell u) /\ sc_clearing_prices call !! j' = Some (price_buy u) /\
    match t with
    | TradeFulfillment _ => clearing_price s (sell_token_of t) = Some (price_sell u) /\
                            clearing_price s (buy_token_of t) = Some (price_buy u)
    | TradeJit _ => True
    end.
Proof.
  intros Hweth Hsell Hcp Hin Ht Hp Hcs. destruct t as [f|jit].
  - pose proof (fulfillment_user s f Hin) as Hf.
    apply list_elem_of_lookup in Hin as [k Hk].
    destruct (Forall2_lookup_l _ _ _ _ _ Hcs Hk) as (c & _ & sell & buy & Hs & Hb & _).
    change (sell_token_of (TradeFulfillment f)) with (asset_token (order_sell (f_order f))).
    change (buy_token_of (TradeFulfillment f)) with (asset_token (order_buy (f_order f))).
    destruct (uniform_index prices (asset_token (order_sell (f_order f))) sell
      (pair_of sell_token_of buy_token_of (sol_trades s)) (pair_of price_sell price_buy customs)) as (i' & Hi & Hpi).
    { rewrite <-Hs. apply (clearing_prices_user s prices f); auto. }
    destruct (uniform_index prices (asset_token (order_buy (f_order f))) buy
      (pair_of sell_token_of buy_token_of (sol_trades s)) (pair_of price_sell price_buy customs)) as (j' & Hj & Hpj).
    { rewrite <-Hb. apply (clearing_prices_user s prices f); auto. }
    exists i', j', (mkClearingPrices sell buy). rewrite Ht, Hp. by split_and!.
  - assert (Hlens : length (sc_clearing_prices call) = length (sc_tokens call)).
    { rewrite Ht, Hp, !length_app, !length_pair_of, !length_fmap. by apply Forall2_length in Hcs as ->. }
    assert (Hpos : forall token, token ∈ sc_tokens call -> exists i p,
      token_position token (sc_tokens call) = Some i /\ sc_clearing_prices call !! i = Some p).
    { intros token (i & Hi & Hl)%token_position_elem. apply lookup_lt_Some in Hl.
      destruct (lookup_lt_is_Some_2 (sc_clearing_prices call) i) as [x Hx]; [lia|]. by exists i, x. }
    assert (Hmem : forall token, token ∈ [sell_token_of (TradeJit jit); buy_token_of (TradeJit jit)] ->
      token ∈ sc_tokens call).
    { intros token Htok. rewrite Ht, elem_of_app. right. apply list_elem_of_bind. eauto. }
    destruct (Hpos (sell_token_of (TradeJit jit))) as (i & x & Hi & Hx); [apply Hmem; set_solver|].
    destruct (Hpos (buy_token_of (TradeJit jit))) as (j & y & Hj & Hy); [apply Hmem; set_solver|].
    by exists i, j, (mkClearingPrices x y).
Qed.

Lemma decode_settle_call s contracts approvals internalization slippage unwraps call :
  settle_call swap s contracts approvals internalization slippage unwraps = Ret (Ok call) ->
  sells_erc20 s -> Forall trade_valid (sol_trades s) ->
  Z.of_nat (length (sc_tokens call)) <= 2 ^ 64 ->
  exists ds, decode_trades keccak256 ecrecover domain_separator call (sc_trades call) = Ret (Ok ds) /\
    Forall2 (observed s) (sol_trades s) ds.
Proof.
  intros Hcall [Hweth Hsell] Hvalid Hlen.
  apply settle_call_spec in Hcall as (prices & customs & Hcp & Hcs & Ht & Hp & Htr).
  assert (Hlens : length (sc_clearing_prices call) = length (sc_tokens call)).
  { rewrite Ht, Hp, !length_app, !length_pair_of, !length_fmap. by apply Forall2_length in Hcs as ->. }
  apply decode_trades_Forall2. rewrite Htr. unfold indexed_trades.
  apply Forall2_same_length_lookup_2; [by rewrite length_imap|]. intros k t e Hk He.
  rewrite list_lookup_imap, Hk in He. injection He as <-.
  destruct (Forall2_lookup_l _ _ _ _ _ Hcs Hk) as (c & Hck & Hc).
  rewrite Forall_forall in Hvalid. specialize (Hvalid t (list_elem_of_lookup_2 _ _ _ Hk)).
  set (n := length (uniform_prices prices)) in *.
  destruct (pair_of_lookup sell_token_of buy_token_of _ _ _ Hk) as [Ht1 Ht2].
  destruct (pair_of_lookup price_sell price_buy _ _ _ Hck) as [Hp1 Hp2].
  assert (Happ : forall {A} (l m : list A) x i, length l = n -> m !! i = Some x -> (l ++ m) !! (n + i)%nat = Some x).
  { intros A l m x i Hl Hm. rewrite lookup_app_r by lia. by replace (n + i - length l)%nat with i by lia. }
  destruct (uniform_lookup s prices call t customs) as (i' & j' & u & Hi' & Hj' & Hui & Huj & Hu);
    [done|done|done|by eapply list_elem_of_lookup_2|done|done|done|].
  rewrite <-Nat.add_assoc.
  apply (decode_encoded_trade call s t (n + 2 * k) (n + (2 * k + 1)) i' j' c u); try done; try lia;
    rewrite ?Ht, ?Hp; apply Happ; try done; apply length_fmap.
Qed.

Lemma size_clearing_prices s prices :
  clearing_prices s = Ret prices -> (size prices <= S (size (sol_prices s)))%nat.
Proof.
  unfold clearing_prices. intros E. destruct (existsb _ _); [|injection E as <-; lia].
  apply comp_bind_Ret in E as (p & _ & E). injection E as <-.
  set (m := if negb (trades_weth s) then _ else _).
  assert (size m <= size (sol_prices s))%nat.
  { unfold m. destruct (negb _); [|done]. apply map_subseteq_size, delete_subseteq. }
  rewrite map_size_insert. destruct (m !! _); cbn; lia.
Qed.

Lemma length_sc_tokens s contracts approvals internalization slippage unwraps call :
  settle_call swap s contracts approvals internalization slippage unwraps = Ret (Ok call) ->
  (length (sc_tokens call) <= S (size (sol_prices s)) + 2 * length (sol_trades s))%nat.
Proof.
  intros (prices & customs & Hcp & _ & -> & _)%settle_call_spec.
  apply size_clearing_prices in Hcp. rewrite length_app, length_fmap, length_pair_of.
  unfold uniform_prices. rewrite (Permutation_length (sort_by_perm _ _)), length_map_to_list. lia.
Qed.

(** A settlement the autopilot finds at the top of the trace. *)
Lemma find_settlement_top settlement from input calls :
  SETTLE_SELECTOR `prefix_of` input ->
  find_settlement_trace_and_callers (mkCallFrame from (Some settlement) input calls) settlement
    = Some (mkCallFrame from (Some settlement) input calls, [from]).
Proof.
  intros Hp. unfold find_settlement_trace_and_callers. rewrite cf_size_calls. cbn [find_settlement_loop cf_from].
  unfold is_settlement_trace. cbn [cf_to cf_input default]. by rewrite Z.eqb_refl, bool_decide_eq_true_2.
Qed.

(** C14 (roundtrip): the autopilot reads from the chain what the driver encoded.  When a
    solution without flash loans and wrappers is encoded as a transaction for auction
    [id], and that call heads a transaction's trace, then the autopilot decodes the
    transaction to the same auction id, the submitting solver, and one trade for each
    trade of the solution, in order, with its order uid (recovered from the
    signature), tokens, limit amounts, side, flags, executed amount, custom prices
    and, for user orders, the solution's uniform clearing prices. *)
Theorem settlement_round_trip id s contracts approvals internalization slippage unwraps tx t calls :
  encoding_tx swap (Some id) s contracts approvals internalization slippage unwraps = Ret (Ok tx) ->
  sol_flashloans s = ∅ -> sol_wrappers s = [] -> - 2 ^ 63 <= id < 2 ^ 63 ->
  Z.of_nat (S (size (sol_prices s)) + 2 * length (sol_trades s)) <= 2 ^ 64 ->
  sells_erc20 s -> Forall trade_valid (sol_trades s) -> is_valid_solver (sol_solver s) = Some true ->
  etx_trace_calls t = mkCallFrame (tx_from tx) (Some (tx_to tx)) (tx_input tx) calls ->
  exists ds,
    Transaction_try_new keccak256 ecrecover domain_separator is_valid_solver t (ct_settlement contracts)
      = Ret (Ok (mkTransaction (etx_hash t) id (etx_block t) (etx_timestamp t) (etx_gas t) (etx_gas_price t)
                   (sol_solver s) ds)) /\
    Forall2 (observed s) (sol_trades s) ds.
Proof.
  intros E Hfl Hw Hid Hlen Hsell Hvalid Hsolver Htrace. unfold encoding_tx in E.
  apply comp_rbind_Ok in E as (call & Hcall & E). rewrite Hfl, Hw, bool_decide_eq_true_2 in E by done.
  injection E as <-. cbn [tx_from tx_to tx_input] in Htrace.
  pose proof (length_sc_tokens _ _ _ _ _ _ _ Hcall) as Htok.
  destruct (decode_settle_call _ _ _ _ _ _ _ Hcall Hsell Hvalid) as (ds & Hds & Hobs); [lia|].
  exists ds. split; [|exact Hobs]. unfold Transaction_try_new.
  rewrite Htrace, find_settlement_top by apply prefix_app_r, settle_selector_prefix.
  cbn [ok_or comp_rbind]. unfold find_solver_address. cbn [find_solver_loop].
  rewrite bool_decide_eq_false_2 by set_solver. rewrite Hsolver. cbn [ok_or result_bind comp_rbind cf_input].
  assert (Hm : length (i64_to_be_bytes id) = META_DATA_LEN) by apply length_be_bytes.
  rewrite length_app, Hm, Nat.add_sub.
  rewrite (proj2 (Nat.ltb_ge _ _)) by lia. rewrite take_app_length, drop_app_length.
  rewrite settle_decode_encode. cbn [ok_or comp_rbind]. rewrite Hds. cbn [comp_rbind].
  by rewrite i64_round_trip.
Qed.
End round_trip.

(** ** Examples *)

(** An ABI that satisfies the laws. *)
Definition trade_tuple (t : GPv2Trade) :=
  (gt_sell_token_index t, gt_buy_token_index t, gt_receiver t, gt_sell_amount t, gt_buy_amount t, gt_valid_to t,
   gt_app_data t, gt_fee_amount t, gt_flags t, gt_executed_amount t, gt_signature t).
Definition tuple_trade x :=
  let '(a, b, c, d, e, f, g, h, i, j, k) := x in mkGPv2Trade a b c d e f g h i j k.

#[global] Instance GPv2Trade_eq_dec : EqDecision GPv2Trade.
Proof. solve_decision. Defined.
#[global] Instance GPv2Trade_countable : Countable GPv2Trade.
Proof. refine (inj_countable' trade_tuple tuple_trade _). by intros []. Defined.

#[global] Instance EthInteraction_eq_dec : EqDecision EthInteraction.
Proof. solve_decision. Defined.
#[global] Instance EthInteraction_countable : Countable EthInteraction.
Proof.
  refine (inj_countable' (fun '(mkEthInteraction a b c) => (a, b, c)) (fun '(a, b, c) => mkEthInteraction a b c) _).
  by intros [].
Defined.

#[global] Instance SettleCall_eq_dec : EqDecision SettleCall.
Proof. solve_decision. Defined.
#[global] Instance SettleCall_countable : Countable SettleCall.
Proof.
  refine (inj_countable' (fun '(mkSettleCall a b c d e f) => (a, b, c, d, e, f))
            (fun '(a, b, c, d, e, f) => mkSettleCall a b c d e f) _).
  by intros [].
Defined.

Definition sample_calldata (c : SettleCall) : list Z := [0x13; 0xd7; 0x9a; 0x0b] ++ [Zpos (encode c)].
Definition sample_decode (l : list Z) : option SettleCall :=
  match drop 4 l with [Zpos p] => decode p | _ => None end.

#[local] Instance sample_abi : SettlementAbi := {|
  SETTLE_SELECTOR := [0x13; 0xd7; 0x9a; 0x0b];
  settle_calldata := sample_calldata;
  settle_abi_decode := sample_decode;
  withdraw_calldata amount := [amount];
  flash_loan_and_settle_calldata _ data := data;
  wrapped_settle_calldata data _ := data;
  settle_decode_encode c := decode_encode c;
  settle_selector_prefix c := prefix_app_r _ _ _ (reflexivity _);
|}.

(** A pre-signed order that sells 1000 for at least 900. *)
Definition presigned (uid : Z) : DriverOrder.Order :=
  DriverOrder.mkOrder uid (Some 9) 0 100 (mkAsset 2 900) (mkAsset 1 1000) Sell Limit (AppDataHash 0) PartialNo
    [] [] SellErc20 BuyErc20 (DriverOrder.mkSignature PreSign [] 9) [] None.
Definition presigned_uid : Z := Eval vm_compute in
  uid sample_keccak (trade_order_data (TradeFulfillment (mkFulfillment (presigned 0) 990 (Dynamic 10) 0))) 3 9.
Definition presigned_fulfillment : Fulfillment := mkFulfillment (presigned presigned_uid) 990 (Dynamic 10) 0.
Definition presigned_solution : DriverSolution.Solution :=
  example_solution 1 [TradeFulfillment presigned_fulfillment] (<[1 := 100]> (<[2 := 100]> ∅)).

Definition presigned_call : SettleCall :=
  mkSettleCall [1; 2; 1; 2] [100; 100; 990; 1000]
    [mkGPv2Trade 2 3 9 1000 900 100 0 0 96 1000 (be_bytes 20 9)] [] [] [].
Definition sample_slippage : SlippageParameters := mkSlippageParameters (1, 100) None None ∅.
Definition sample_tx : Tx := mkTx 5 77 (settle_calldata presigned_call ++ i64_to_be_bytes 42).

Lemma presigned_encoded :
  settle_call (fun _ _ _ _ => None) presigned_solution (mkContracts 77 99 None) [] Enable sample_slippage true
    = Ret (Ok presigned_call).
Proof. vm_compute. reflexivity. Qed.

Lemma presigned_solution_ok :
  sells_erc20 presigned_solution /\
  Forall (trade_valid sample_keccak (fun _ _ => None) 3) (sol_trades presigned_solution).
Proof.
  split.
  - split; [by vm_compute|]. intros f Hf%list_elem_of_singleton. subst f. by vm_compute.
  - constructor; [|done]. split; [vm_compute; reflexivity|cbn; lia].
Qed.

Lemma settlement_round_trip_witness : exists ds,
  Transaction_try_new sample_keccak (fun _ _ => None) 3 (fun a => Some (a =? 5))
    (mkEthTransaction 8 1000 2000 21000 7 (mkCallFrame 5 (Some 77) (tx_input sample_tx) [])) 77
    = Ret (Ok (mkTransaction 8 42 1000 2000 21000 7 5 ds)) /\
  Forall2 (observed presigned_solution) [TradeFulfillment presigned_fulfillment] ds.
Proof.
  apply (settlement_round_trip (fun _ _ _ _ => None) sample_keccak (fun _ _ => None) 3 (fun a => Some (a =? 5))
    42 presigned_solution (mkContracts 77 99 None) [] Enable sample_slippage true sample_tx
    (mkEthTransaction 8 1000 2000 21000 7 (mkCallFrame 5 (Some 77) (tx_input sample_tx) [])) []);
    [|reflexivity|reflexivity|lia|vm_compute; discriminate|apply presigned_solution_ok..|reflexivity|reflexivity].
  unfold encoding_tx. rewrite presigned_encoded. reflexivity.
Defined.
