(* ===== verification/AutopilotTrade.v ===== *)
(** * AutopilotTrade: surplus and fees of an observed trade

    [crates/autopilot/src/domain/settlement/trade/mod.rs] and [trade/math.rs]: the
    autopilot recomputes the surplus and the fees of every trade it finds on chain,
    from the uniform and the custom clearing prices of the settlement.  Winner
    selection ([Score]) computed them before, from the executed amounts of the bid;
    the two are shown to agree.

    The conversions of floats to integers are the parameters of [Score]. *)

From stdpp Require Import base gmap sets list strings.
From Stdlib Require Import ZArith Lia SpecFloat.
From S2P Require Import Prelude Collections F64 Eth Liquidity Solution Score Arbitrator.
From S2P Require Import DriverOrder OrderModel DriverTrade DriverScore DriverSolution.
From S2P Require Import AutopilotBids DriverEncoding AutopilotSettlement.

Open Scope Z_scope.

(** ** Trades *)

(** [math::Trade]. *)
Record MathTrade := mkMathTrade {
  mt_uid : Z;
  mt_sell : Asset;
  mt_buy : Asset;
  mt_side : Side;
  mt_executed : Z;
  mt_prices : TxPrices;
}.

Record SettledFulfillment := mkSettledFulfillment {
  sf_uid : Z;
  sf_sell : Asset;
  sf_buy : Asset;
  sf_side : Side;
  sf_executed : Z;
  sf_prices : TxPrices;
}.

Record SettledJit := mkSettledJit {
  sj_uid : Z;
  sj_sell : Asset;
  sj_buy : Asset;
  sj_side : Side;
  sj_receiver : address;
  sj_valid_to : Z;
  sj_app_data : Z;
  sj_fee_amount : Z;
  sj_sell_token_balance : SellTokenBalance;
  sj_buy_token_balance : BuyTokenBalance;
  sj_partially_fillable : bool;
  sj_signature : OrderSignature;
  sj_executed : Z;
  sj_prices : TxPrices;
  sj_created : Z;
  sj_surplus_capturing : bool;
}.

Inductive SettledTrade := SettledFulfillmentTrade (f : SettledFulfillment) | SettledJitTrade (j : SettledJit).

(** [settlement::Auction]. *)
Record SettledAuction := mkSettledAuction {
  sa_id : Z;
  sa_block : Z;
  sa_orders : gmap Z (list Score.FeePolicy);
  sa_prices : gmap address Z;
  sa_surplus_capturing_jit_order_owners : gset address;
}.

Record ExecutedProtocolFee := mkExecutedProtocolFee { epf_policy : Score.FeePolicy; epf_fee : Asset }.
Record FeeBreakdown := mkFeeBreakdown { fb_total : Asset; fb_protocol : list ExecutedProtocolFee }.

Inductive TradeMathError := MissingTokenPrice (token : address) | TradeMathErr (e : MathError).

(** The conversions into [math::Trade]. *)
Definition MathTrade_from_fulfillment (f : SettledFulfillment) : MathTrade :=
  mkMathTrade (sf_uid f) (sf_sell f) (sf_buy f) (sf_side f) (sf_executed f) (sf_prices f).
Definition MathTrade_from_jit (j : SettledJit) : MathTrade :=
  mkMathTrade (sj_uid j) (sj_sell j) (sj_buy j) (sj_side j) (sj_executed j) (sj_prices j).
Definition MathTrade_from (t : SettledTrade) : MathTrade :=
  match t with
  | SettledFulfillmentTrade f => MathTrade_from_fulfillment f
  | SettledJitTrade j => MathTrade_from_jit j
  end.

Definition with_custom (prices : ClearingPrices) (t : MathTrade) : MathTrade :=
  mkMathTrade (mt_uid t) (mt_sell t) (mt_buy t) (mt_side t) (mt_executed t)
    (mkTxPrices (uniform (mt_prices t)) prices).

(** ** Surplus and amounts *)
Definition mt_surplus_over (t : MathTrade) (prices : ClearingPrices) (price_limits : PriceLimits)
  : result MathError Z :=
  match mt_side t with
  | Buy =>
      letr m := ok_or (checked_mul (limit_sell price_limits) (mt_executed t)) Overflow in
      letr limit_sell := ok_or (checked_div m (limit_buy price_limits)) DivisionByZero in
      letr m := ok_or (checked_mul (mt_executed t) (price_buy prices)) Overflow in
      letr sold := ok_or (checked_div m (price_sell prices)) DivisionByZero in
      ok_or (checked_sub limit_sell sold) Negative
  | Sell =>
      letr m := ok_or (checked_mul (mt_executed t) (limit_buy price_limits)) Overflow in
      letr limit_buy := ok_or (checked_ceil_div m (limit_sell price_limits)) DivisionByZero in
      letr m := ok_or (checked_mul (mt_executed t) (price_sell prices)) Overflow in
      letr bought := ok_or (checked_ceil_div m (price_buy prices)) DivisionByZero in
      ok_or (checked_sub bought limit_buy) Negative
  end.

Definition mt_limits (t : MathTrade) : PriceLimits :=
  mkPriceLimits (asset_amount (mt_sell t)) (asset_amount (mt_buy t)).
Definition mt_surplus_over_limit_price (t : MathTrade) : result MathError Z :=
  mt_surplus_over t (custom (mt_prices t)) (mt_limits t).
Definition mt_surplus_over_limit_price_before_fee (t : MathTrade) : result MathError Z :=
  mt_surplus_over t (uniform (mt_prices t)) (mt_limits t).

Definition mt_surplus_token (t : MathTrade) : address :=
  match mt_side t with Buy => asset_token (mt_sell t) | Sell => asset_token (mt_buy t) end.

Definition mt_surplus_in_ether (t : MathTrade) (prices : gmap address Z) : result TradeMathError Z :=
  letr surplus_amount := map_err TradeMathErr (mt_surplus_over_limit_price t) in
  letr price := ok_or (prices !! mt_surplus_token t) (MissingTokenPrice (mt_surplus_token t)) in
  Ok (in_eth price surplus_amount).

Definition mt_fee (t : MathTrade) : result TradeMathError Z :=
  letr before := map_err TradeMathErr (mt_surplus_over_limit_price_before_fee t) in
  letr after := map_err TradeMathErr (mt_surplus_over_limit_price t) in
  ok_or (checked_sub before after) (TradeMathErr Negative).

Definition mt_fee_in_ether (t : MathTrade) (prices : gmap address Z) : result TradeMathError Z :=
  letr fee := mt_fee t in
  letr price := ok_or (prices !! mt_surplus_token t) (MissingTokenPrice (mt_surplus_token t)) in
  Ok (in_eth price fee).

Definition mt_fee_into_sell_token (t : MathTrade) (fee : Z) : result TradeMathError Z :=
  match mt_side t with
  | Buy => Ok fee
  | Sell =>
      letr m := ok_or (checked_mul fee (price_buy (uniform (mt_prices t)))) (TradeMathErr Overflow) in
      ok_or (checked_div m (price_sell (uniform (mt_prices t)))) (TradeMathErr DivisionByZero)
  end.

Definition mt_fee_in_sell_token (t : MathTrade) : result TradeMathError Z :=
  letr fee := mt_fee t in mt_fee_into_sell_token t fee.

Definition mt_sell_amount (t : MathTrade) : result MathError Z :=
  match mt_side t with
  | Sell => Ok (mt_executed t)
  | Buy => letr m := ok_or (checked_mul (mt_executed t) (price_buy (custom (mt_prices t)))) Overflow in
           ok_or (checked_div m (price_sell (custom (mt_prices t)))) DivisionByZero
  end.

Definition mt_buy_amount (t : MathTrade) : result MathError Z :=
  match mt_side t with
  | Sell => letr m := ok_or (checked_mul (mt_executed t) (price_sell (custom (mt_prices t)))) Overflow in
            ok_or (checked_ceil_div m (price_buy (custom (mt_prices t)))) DivisionByZero
  | Buy => Ok (mt_executed t)
  end.

Definition mt_calculate_custom_prices (t : MathTrade) (protocol_fee : Z) : result MathError ClearingPrices :=
  letr sell := match mt_side t with
               | Sell => letr buy_amount := mt_buy_amount t in
                         ok_or (checked_add buy_amount protocol_fee) Overflow
               | Buy => mt_buy_amount t
               end in
  letr buy := match mt_side t with
              | Sell => mt_sell_amount t
              | Buy => letr sell_amount := mt_sell_amount t in
                       ok_or (checked_sub sell_amount protocol_fee) Negative
              end in
  Ok (mkClearingPrices sell buy).

(** [adjust_quote_to_order_limits] of [math.rs]. *)
Definition mt_adjust_quote (side : Side) (order_sell order_buy quote_sell quote_buy quote_fee : Z)
  : result MathError PriceLimits :=
  match side with
  | Sell =>
      letr m := ok_or (checked_mul quote_fee quote_buy) Overflow in
      letr fee := ok_or (checked_div m quote_sell) DivisionByZero in
      letr quote_buy_amount := ok_or (checked_sub quote_buy fee) Negative in
      letr m := ok_or (checked_mul quote_buy_amount order_sell) Overflow in
      letr scaled_buy_amount := ok_or (checked_div m quote_sell) DivisionByZero in
      Ok (mkPriceLimits order_sell (Z.max order_buy scaled_buy_amount))
  | Buy =>
      letr quote_sell_amount := ok_or (checked_add quote_sell quote_fee) Overflow in
      letr m := ok_or (checked_mul quote_sell_amount order_buy) Overflow in
      letr scaled_sell_amount := ok_or (checked_div m quote_buy) DivisionByZero in
      Ok (mkPriceLimits (Z.min order_sell scaled_sell_amount) order_buy)
  end.

Definition mt_surplus_over_quote (t : MathTrade) (quote : Score.Quote) : result MathError Z :=
  letr limits := mt_adjust_quote (mt_side t) (asset_amount (mt_sell t)) (asset_amount (mt_buy t))
                   (quote_sell_amount quote) (quote_buy_amount quote) (Score.quote_fee quote) in
  mt_surplus_over t (custom (mt_prices t)) limits.

Definition mt_price_improvement (t : MathTrade) (quote : Score.Quote) : result MathError Z :=
  match mt_surplus_over_quote t quote with
  | Err Negative => Ok 0
  | surplus => surplus
  end.

(** ** Protocol fees *)
Section protocol_fees.
Context (u256_from_f64 : f64 -> Z) (biguint_from_f64 : f64 -> option Z).
Local Abbreviation mul_f64 := (checked_mul_f64 u256_from_f64 biguint_from_f64).

Definition mt_surplus_fee (surplus : Z) (factor : f64) : result MathError Z :=
  ok_or (mul_f64 surplus (f64_div factor (f64_sub (f64_lit 1) factor))) Overflow.

Definition mt_volume_fee (t : MathTrade) (factor : f64) : result MathError Z :=
  letr executed_in_surplus_token := match mt_side t with
                                    | Buy => mt_sell_amount t
                                    | Sell => mt_buy_amount t
                                    end in
  let factor := match mt_side t with
                | Sell => f64_div factor (f64_sub (f64_lit 1) factor)
                | Buy => f64_div factor (f64_add (f64_lit 1) factor)
                end in
  ok_or (mul_f64 executed_in_surplus_token factor) Overflow.

Definition mt_protocol_fee (t : MathTrade) (policy : Score.FeePolicy) : result MathError Z :=
  match policy with
  | Score.Surplus factor max_volume_factor =>
      letr surplus := mt_surplus_over_limit_price t in
      letr surplus_fee := mt_surplus_fee surplus factor in
      letr volume_fee := mt_volume_fee t max_volume_factor in
      Ok (Z.min surplus_fee volume_fee)
  | Score.PriceImprovement factor max_volume_factor quote =>
      letr price_improvement := mt_price_improvement t quote in
      letr surplus_fee := mt_surplus_fee price_improvement factor in
      letr volume_fee := mt_volume_fee t max_volume_factor in
      Ok (Z.min surplus_fee volume_fee)
  | Score.Volume factor => mt_volume_fee t factor
  end.

(** The loop over the policies in reverse; the prices are not updated after the
    policy at index 0, the last one. *)
Fixpoint mt_protocol_fees_loop (self current_trade : MathTrade) (policies : list Score.FeePolicy) (total : Z)
  : result TradeMathError (list ExecutedProtocolFee) :=
  match policies with
  | [] => Ok []
  | policy :: policies =>
      letr fee := map_err TradeMathErr (mt_protocol_fee current_trade policy) in
      letr total := ok_or (checked_add total fee) (TradeMathErr Overflow) in
      letr current_trade := match policies with
                            | [] => Ok current_trade
                            | _ => letr prices := map_err TradeMathErr (mt_calculate_custom_prices self total) in
                                   Ok (with_custom prices current_trade)
                            end in
      letr fees := mt_protocol_fees_loop self current_trade policies total in
      Ok (mkExecutedProtocolFee policy (mkAsset (mt_surplus_token self) fee) :: fees)
  end.

Definition mt_protocol_fees (t : MathTrade) (fee_policies : gmap Z (list Score.FeePolicy))
  : result TradeMathError (list ExecutedProtocolFee) :=
  let policies := default [] (fee_policies !! mt_uid t) in
  letr fees := mt_protocol_fees_loop t t (reverse policies) 0 in
  Ok (reverse fees).

(** ** [settlement::Trade] *)
Definition SettledTrade_sell_token (t : SettledTrade) : address :=
  match t with
  | SettledFulfillmentTrade f => asset_token (sf_sell f)
  | SettledJitTrade j => asset_token (sj_sell j)
  end.

Definition SettledTrade_fee_breakdown (t : SettledTrade) (auction : SettledAuction)
  : result TradeMathError FeeBreakdown :=
  let trade := MathTrade_from t in
  letr total := mt_fee_in_sell_token trade in
  letr protocol := mt_protocol_fees trade (sa_orders auction) in
  Ok (mkFeeBreakdown (mkAsset (SettledTrade_sell_token t) total) protocol).
End protocol_fees.

Definition SettledTrade_uid (t : SettledTrade) : Z :=
  match t with SettledFulfillmentTrade f => sf_uid f | SettledJitTrade j => sj_uid j end.

Definition as_jit (t : SettledTrade) : option SettledJit :=
  match t with SettledFulfillmentTrade _ => None | SettledJitTrade j => Some j end.

Definition SettledTrade_surplus_in_ether (t : SettledTrade) (prices : gmap address Z) : result TradeMathError Z :=
  match t with
  | SettledFulfillmentTrade f => mt_surplus_in_ether (MathTrade_from_fulfillment f) prices
  | SettledJitTrade j =>
      if sj_surplus_capturing j then mt_surplus_in_ether (MathTrade_from_jit j) prices else Ok 0
  end.

Definition SettledTrade_fee_in_ether (t : SettledTrade) (prices : gmap address Z) : result TradeMathError Z :=
  mt_fee_in_ether (MathTrade_from t) prices.

Definition SettledTrade_new (trade : EncodedTrade) (auction : SettledAuction) (created : Z) : SettledTrade :=
  match sa_orders auction !! et_uid trade with
  | Some _ =>
      SettledFulfillmentTrade (mkSettledFulfillment (et_uid trade) (et_sell trade) (et_buy trade)
        (et_side trade) (et_executed trade) (et_prices trade))
  | None =>
      let surplus_capturing :=
        bool_decide (OrderUid_owner (et_uid trade) ∈ sa_surplus_capturing_jit_order_owners auction) in
      SettledJitTrade (mkSettledJit (et_uid trade) (et_sell trade) (et_buy trade) (et_side trade)
        (et_receiver trade) (et_valid_to trade) (et_app_data trade) (et_fee_amount trade)
        (et_sell_token_balance trade) (et_buy_token_balance trade) (et_partially_fillable trade)
        (et_signature trade) (et_executed trade)
        (if surplus_capturing then et_prices trade
         else mkTxPrices (custom (et_prices trade)) (custom (et_prices trade)))
        created surplus_capturing)
  end.

(** ** Agreement with winner selection *)
Definition fees_total (fees : list ExecutedProtocolFee) : Z := sum_Z ((fun e => asset_amount (epf_fee e)) <$> fees).

(** The executed amount is the custom price of the target token: a settlement's custom
    prices are the traded amounts. *)
Definition mt_consistent (t : MathTrade) : Prop :=
  mt_executed t = match mt_side t with
                  | Sell => price_buy (custom (mt_prices t))
                  | Buy => price_sell (custom (mt_prices t))
                  end.

Section agreement.
Context (u256_from_f64 : f64 -> Z) (biguint_from_f64 : f64 -> option Z).
Context (t : MathTrade) (Ht : mt_consistent t).

(** The order winner selection has seen. *)
Definition mt_order : Score.Order :=
  Score.mkOrder (mt_uid t) (asset_token (mt_sell t)) (asset_token (mt_buy t)) (asset_amount (mt_sell t))
    (asset_amount (mt_buy t)) (price_buy (custom (mt_prices t))) (price_sell (custom (mt_prices t))) (mt_side t).

Lemma mt_surplus_over_agrees p prices limits :
  mt_surplus_over (with_custom p t) prices limits = surplus_over mt_order prices limits.
Proof. unfold mt_surplus_over, surplus_over, mt_consistent in *. simpl. by destruct (mt_side t); rewrite Ht. Qed.

Lemma mt_sell_amount_agrees prices : mt_sell_amount (with_custom prices t) = sell_amount mt_order prices.
Proof. unfold mt_sell_amount, sell_amount, mt_consistent in *. simpl. by destruct (mt_side t); rewrite Ht. Qed.

Lemma mt_buy_amount_agrees prices : mt_buy_amount (with_custom prices t) = buy_amount mt_order prices.
Proof. unfold mt_buy_amount, buy_amount, mt_consistent in *. simpl. by destruct (mt_side t); rewrite Ht. Qed.

Lemma with_custom_self : with_custom (custom (mt_prices t)) t = t.
Proof. by destruct t as [? ? ? ? ? []]. Qed.

Lemma mt_volume_fee_agrees prices factor :
  mt_volume_fee u256_from_f64 biguint_from_f64 (with_custom prices t) factor
  = volume_fee u256_from_f64 biguint_from_f64 mt_order prices factor.
Proof.
  unfold mt_volume_fee, volume_fee. rewrite mt_sell_amount_agrees, mt_buy_amount_agrees. simpl.
  by destruct (mt_side t).
Qed.

Lemma mt_price_improvement_agrees prices q v :
  price_improvement_over_quote mt_order prices q = Ok v -> mt_price_improvement (with_custom prices t) q = Ok v.
Proof.
  unfold mt_price_improvement, mt_surplus_over_quote, price_improvement_over_quote. intros H.
  apply result_bind_Ok in H as (l & Hl & H).
  assert (mt_adjust_quote (mt_side t) (asset_amount (mt_sell t)) (asset_amount (mt_buy t))
    (quote_sell_amount q) (quote_buy_amount q) (Score.quote_fee q) = Ok l) as Ha.
  { rewrite <-Hl. unfold mt_adjust_quote, adjust_quote_to_order_limits. simpl. by destruct (mt_side t). }
  simpl. rewrite Ha. simpl. rewrite mt_surplus_over_agrees. by destruct (surplus_over _ _ _) as [|[]].
Qed.

Lemma mt_protocol_fee_agrees prices policy v :
  protocol_fee u256_from_f64 biguint_from_f64 mt_order policy prices = Ok v ->
  mt_protocol_fee u256_from_f64 biguint_from_f64 (with_custom prices t) policy = Ok v.
Proof.
  destruct policy as [f m|f m q|f]; cbn [protocol_fee mt_protocol_fee].
  - unfold mt_surplus_over_limit_price, surplus_over_limit_price. cbn [with_custom mt_prices custom].
    change (mkMathTrade _ _ _ _ _ _) with (with_custom prices t). rewrite mt_surplus_over_agrees.
    by setoid_rewrite mt_volume_fee_agrees.
  - intros H. apply result_bind_Ok in H as (x & Hx & H). rewrite (mt_price_improvement_agrees _ _ _ Hx).
    cbn [result_bind]. setoid_rewrite mt_volume_fee_agrees. exact H.
  - by rewrite mt_volume_fee_agrees.
Qed.

Lemma mt_custom_prices_agree fee prices :
  calculate_custom_prices mt_order fee (custom (mt_prices t)) = Ok prices ->
  mt_calculate_custom_prices t fee = Ok prices.
Proof.
  unfold mt_calculate_custom_prices, calculate_custom_prices.
  rewrite <-(mt_sell_amount_agrees (custom (mt_prices t))), <-(mt_buy_amount_agrees (custom (mt_prices t))).
  rewrite with_custom_self. simpl.
  destruct (mt_side t), (mt_sell_amount t), (mt_buy_amount t); simpl; try done; by destruct (ok_or _ _).
Qed.

Lemma mt_fees_loop_agrees ps prices total r :
  protocol_fees_loop u256_from_f64 biguint_from_f64 mt_order (custom (mt_prices t)) ps total prices = Ok r ->
  exists fees,
    mt_protocol_fees_loop u256_from_f64 biguint_from_f64 t (with_custom prices t) ps total = Ok fees /\
    epf_policy <$> fees = ps /\ Forall (fun e => asset_token (epf_fee e) = mt_surplus_token t) fees /\
    r = total + fees_total fees.
Proof.
  revert prices total. induction ps as [|policy ps IH]; intros prices total H.
  { injection H as <-. exists []. split_and!; [done|done|constructor|]. unfold fees_total, sum_Z. simpl. lia. }
  cbn [protocol_fees_loop] in H. apply result_bind_Ok in H as (fee & Hfee & H).
  unfold math in Hfee. destruct (protocol_fee _ _ _ _ _) as [v|] eqn:Hv; [injection Hfee as ->|done].
  apply mt_protocol_fee_agrees in Hv. apply result_bind_Ok in H as (total' & Ht' & H).
  apply ok_or_Ok in Ht' as Hadd. apply checked_add_Some in Hadd as Hsum. destruct Hsum as [Hsum _].
  apply result_bind_Ok in H as (p & Hp & H). apply IH in H as (fees & Hf & Hpol & Htok & Hr).
  exists (mkExecutedProtocolFee policy (mkAsset (mt_surplus_token t) fee) :: fees).
  cbn [mt_protocol_fees_loop]. rewrite Hv. cbn [map_err result_bind]. rewrite Hadd. cbn [ok_or result_bind].
  split_and!; [|by rewrite fmap_cons, Hpol|by constructor|].
  - destruct ps as [|q ps].
    + injection Hp as ->. cbn [result_bind]. by rewrite Hf.
    + unfold math in Hp. destruct (calculate_custom_prices _ _ _) as [c|] eqn:Hc; [|done].
      apply mt_custom_prices_agree in Hc as ->. injection Hp as ->. cbn [map_err result_bind].
      change (with_custom p (with_custom prices t)) with (with_custom p t). by rewrite Hf.
  - change (fees_total (_ :: fees)) with (fee + fees_total fees). lia.
Qed.

Lemma mt_protocol_fees_agree context r :
  protocol_fees u256_from_f64 biguint_from_f64 mt_order context (custom (mt_prices t)) = Ok r ->
  exists fees,
    mt_protocol_fees u256_from_f64 biguint_from_f64 t (fee_policies context) = Ok fees /\
    epf_policy <$> fees = default [] (fee_policies context !! mt_uid t) /\
    Forall (fun e => asset_token (epf_fee e) = mt_surplus_token t) fees /\ fees_total fees = r.
Proof.
  unfold protocol_fees, mt_protocol_fees. intros (fees & Hf & Hp & Htok & ->)%mt_fees_loop_agrees.
  rewrite with_custom_self in Hf. exists (reverse fees). change (Score.order_uid mt_order) with (mt_uid t) in *. cbv zeta. rewrite Hf.
  split_and!; [done| |by apply Forall_reverse|].
  - by rewrite fmap_reverse, Hp, reverse_involutive.
  - unfold fees_total. rewrite fmap_reverse, (sum_Z_perm _ _ (reverse_Permutation _)). lia.
Qed.
(** The score of the order and the accounting of the trade. *)
Lemma mt_score_agrees prices context score :
  compute_order_score u256_from_f64 biguint_from_f64 mt_order prices context = Ok score ->
  exists surplus fees native,
    mt_surplus_over_limit_price t = Ok surplus /\
    mt_protocol_fees u256_from_f64 biguint_from_f64 t (fee_policies context) = Ok fees /\
    epf_policy <$> fees = default [] (fee_policies context !! mt_uid t) /\
    Forall (fun e => asset_token (epf_fee e) = mt_surplus_token t) fees /\
    native_prices context !! asset_token (mt_buy t) = Some native /\
    score = price_in_eth native
              match mt_side t with
              | Sell => surplus + fees_total fees
              | Buy => (surplus + fees_total fees) * asset_amount (mt_buy t) / asset_amount (mt_sell t)
              end.
Proof.
  intros H. unfold compute_order_score in H. apply result_bind_Ok in H as (native & Hn%ok_or_Ok & H).
  apply result_bind_Ok in H as (? & _ & H). apply result_bind_Ok in H as (? & _ & H).
  apply result_bind_Ok in H as (surplus & Hs & H). apply result_bind_Ok in H as (r & Hr & H).
  apply result_bind_Ok in H as (total & Htot & H). apply ok_or_Ok, checked_add_Some in Htot as [-> _].
  change (calculate_custom_prices_from_executed mt_order) with
    (mkClearingPrices (price_sell (custom (mt_prices t))) (price_buy (custom (mt_prices t)))) in *.
  replace (mkClearingPrices _ _) with (custom (mt_prices t)) in * by (by destruct (custom (mt_prices t))).
  apply mt_protocol_fees_agree in Hr as (fees & Hfees & Hpols & Htok & <-).
  exists surplus, fees, native. split_and!; try done.
  - unfold math in Hs. destruct (Score.surplus_over_limit_price _ _) eqn:E; [injection Hs as ->|done].
    rewrite <-E. unfold mt_surplus_over_limit_price, Score.surplus_over_limit_price.
    rewrite <-(mt_surplus_over_agrees (custom (mt_prices t))), with_custom_self. done.
  - cbn [Score.order_side mt_order Score.order_buy_amount Score.order_sell_amount] in H.
    destruct (mt_side t); [|by injection H as <-].
    apply result_bind_Ok in H as (w & [-> _]%ok_or_Ok%checked_div_Some & H).
    apply result_bind_Ok in H as (y & Hx & H). injection H as <-.
    apply ok_or_Ok in Hx. by destruct (fits 256 _); [injection Hx as <-|].
Qed.
End agreement.

(** ** From the bid to the chain *)
Section settled.
Context (u256_from_f64 : f64 -> Z) (biguint_from_f64 : f64 -> option Z) (s : DriverSolution.Solution).

(** The amounts a driver reports for a fulfilment are the custom prices it encodes. *)
Lemma reported_custom f am c :
  trade_amounts s (TradeFulfillment f) = Ret am -> trade_custom s (TradeFulfillment f) c ->
  am = mkAmounts (order_side (f_order f)) (order_sell (f_order f)) (order_buy (f_order f)) (price_buy c) (price_sell c).
Proof.
  intros Ham (sell & buy & Hs & Hb & Hc). cbn [trade_amounts] in Ham. unfold index_price in Ham.
  cbn [Trade_sell Trade_buy] in Ham. rewrite Hs, Hb in Ham. cbn [expect comp_bind] in Ham. injection Ham as <-.
  unfold Fulfillment_custom_prices in Hc. apply result_bind_Ok in Hc as (b & Hb' & Hc).
  apply result_bind_Ok in Hc as (a & Ha' & Hc). injection Hc as <-. cbn [Trade_sell_amount Trade_buy_amount].
  by rewrite Ha', Hb'.
Qed.

(** The executed amount of an encoded fulfilment is its custom price. *)
Lemma encoded_consistent f c :
  0 <= f_executed f -> 0 <= Fulfillment_fee f -> trade_custom s (TradeFulfillment f) c ->
  encoded_executed (TradeFulfillment f)
  = match order_side (f_order f) with Sell => price_buy c | Buy => price_sell c end.
Proof.
  intros He Hf (sell & buy & _ & _ & Hc). unfold Fulfillment_custom_prices in Hc.
  apply result_bind_Ok in Hc as (b & Hb & Hc). apply result_bind_Ok in Hc as (a & Ha & Hc). injection Hc as <-.
  unfold Fulfillment_sell_amount, Fulfillment_buy_amount in *. cbn [encoded_executed price_sell price_buy].
  destruct (order_side (f_order f)); [by injection Hb|].
  cbn [result_bind] in Ha. apply result_bind_Ok in Ha as (w & [-> Hw]%ok_or_Ok%checked_add_Some & Ha).
  cbn [result_bind] in Ha. apply ok_or_Ok, checked_add_Some in Ha as [-> _].
  unfold wrapping_add. rewrite Z.mod_small; [lia|]. unfold U256_MAX in Hw. lia.
Qed.

(** The settled trade of an order of the auction. *)
Lemma settled_math f d auction created policies :
  observed s (TradeFulfillment f) d -> sa_orders auction !! et_uid d = Some policies ->
  0 <= f_executed f -> 0 <= Fulfillment_fee f ->
  let t := MathTrade_from (SettledTrade_new d auction created) in
  mt_consistent t /\
  forall am, trade_amounts s (TradeFulfillment f) = Ret am ->
    winsel_order (Trade_uid (TradeFulfillment f), am) = mt_order t /\ mt_uid t = Trade_uid (TradeFulfillment f).
Proof.
  intros Ho Hp He Hf. unfold SettledTrade_new. rewrite Hp. cbv zeta. split.
  - unfold mt_consistent. cbn. rewrite (obs_executed _ _ _ Ho), (obs_side _ _ _ Ho).
    apply encoded_consistent; [done|done|apply (obs_custom _ _ _ Ho)].
  - intros am Ham. rewrite (reported_custom f am _ Ham (obs_custom _ _ _ Ho)). unfold mt_order, winsel_order.
    cbn. rewrite (obs_uid _ _ _ Ho), (obs_sell _ _ _ Ho), (obs_buy _ _ _ Ho), (obs_side _ _ _ Ho). done.
Qed.

(** C16 (equivalence): what winner selection scored is what the settlement paid.  When the
    autopilot observes on chain a trade of a driver's solution that fills an order of
    the auction, and winner selection had given the order a score from the amounts the
    driver reported, then the accounting of the settled trade succeeds, charges one
    protocol fee for each of the order's fee policies, in their order and in the
    surplus token, and the surplus it finds together with these fees is the amount
    the score was computed from. *)
Theorem settled_fees_agree f d auction created context prices am score :
  observed s (TradeFulfillment f) d -> 0 <= f_executed f -> 0 <= Fulfillment_fee f ->
  trade_amounts s (TradeFulfillment f) = Ret am ->
  is_Some (sa_orders auction !! Trade_uid (TradeFulfillment f)) ->
  sa_orders auction !! Trade_uid (TradeFulfillment f) = fee_policies context !! Trade_uid (TradeFulfillment f) ->
  compute_order_score u256_from_f64 biguint_from_f64 (winsel_order (Trade_uid (TradeFulfillment f), am))
    prices context = Ok score ->
  let t := MathTrade_from (SettledTrade_new d auction created) in
  exists surplus fees native,
    mt_surplus_over_limit_price t = Ok surplus /\
    mt_protocol_fees u256_from_f64 biguint_from_f64 t (sa_orders auction) = Ok fees /\
    epf_policy <$> fees = default [] (sa_orders auction !! Trade_uid (TradeFulfillment f)) /\
    Forall (fun e => asset_token (epf_fee e) = mt_surplus_token t) fees /\
    native_prices context !! asset_token (order_buy (f_order f)) = Some native /\
    score = price_in_eth native
              match order_side (f_order f) with
              | Sell => surplus + fees_total fees
              | Buy => (surplus + fees_total fees) * asset_amount (order_buy (f_order f))
                       / asset_amount (order_sell (f_order f))
              end.
Proof.
  intros Ho He Hf Ham [policies Hp] Hpol Hscore.
  assert (Hp' : sa_orders auction !! et_uid d = Some policies) by (by rewrite (obs_uid _ _ _ Ho)).
  destruct (settled_math f d auction created policies Ho Hp' He Hf) as [Hc Hord].
  destruct (Hord am Ham) as [Horder Huid]. rewrite Horder in Hscore. clear Hord Horder. cbv zeta.
  set (t := MathTrade_from _) in *.
  destruct (mt_score_agrees _ _ t Hc _ _ _ Hscore) as (surplus & fees & native & Hs & Hfees & Hpols & Htok & Hn & ->).
  assert (Hsell : mt_sell t = order_sell (f_order f) /\ mt_buy t = order_buy (f_order f) /\
                  mt_side t = order_side (f_order f)).
  { unfold t, SettledTrade_new. rewrite Hp'. cbn. by destruct Ho as [? -> -> ->]. }
  destruct Hsell as (Hms & Hmb & Hside). rewrite Hms, Hmb, Hside in *.
  exists surplus, fees, native. rewrite Hpol, <-Huid. split_and!; try done.
  rewrite <-Hfees. unfold mt_protocol_fees. by rewrite Huid, Hpol.
Qed.
End settled.

Lemma mt_fee_same t surplus :
  uniform (mt_prices t) = custom (mt_prices t) -> mt_surplus_over_limit_price t = Ok surplus -> mt_fee t = Ok 0.
Proof.
  intros He Hs. unfold mt_fee, mt_surplus_over_limit_price_before_fee. rewrite He.
  change (mt_surplus_over t _ _) with (mt_surplus_over_limit_price t). rewrite Hs. cbn [map_err result_bind].
  apply ok_or_Ok, checked_sub_Some. lia.
Qed.

(** A just-in-time order whose owner captures no surplus pays no fee, and has no
    surplus. *)
Lemma liquidity_jit_free trade auction created surplus :
  sa_orders auction !! et_uid trade = None ->
  OrderUid_owner (et_uid trade) ∉ sa_surplus_capturing_jit_order_owners auction ->
  let t := SettledTrade_new trade auction created in
  mt_surplus_over_limit_price (MathTrade_from t) = Ok surplus ->
  mt_fee (MathTrade_from t) = Ok 0 /\ forall prices, SettledTrade_surplus_in_ether t prices = Ok 0.
Proof.
  intros Hp Ho. unfold SettledTrade_new. rewrite Hp, bool_decide_eq_false_2 by done. cbv zeta. intros Hs.
  split; [by eapply mt_fee_same|done].
Qed.

(** ** Examples *)
Definition presigned_trade : EncodedTrade :=
  mkEncodedTrade presigned_uid (mkAsset 1 1000) (mkAsset 2 900) Sell 9 100 0 0 SellErc20 BuyErc20 false SigPreSign 1000
    (mkTxPrices (mkClearingPrices 100 100) (mkClearingPrices 990 1000)).
Definition presigned_policies : gmap Z (list Score.FeePolicy) := {[ presigned_uid := [Score.Volume half] ]}.
Definition presigned_auction : SettledAuction := mkSettledAuction 42 990 presigned_policies {[ 2 := 10 ^ 18 ]} ∅.
Definition presigned_context : AuctionContext := mkAuctionContext presigned_policies ∅ {[ 2 := 10 ^ 18 ]}.

Lemma presigned_observed : observed presigned_solution (TradeFulfillment presigned_fulfillment) presigned_trade.
Proof.
  split; [reflexivity..| |].
  - exists 100, 100. split_and!; vm_compute; reflexivity.
  - split; vm_compute; reflexivity.
Qed.

Lemma settled_fees_agree_witness :
  let t := MathTrade_from (SettledTrade_new presigned_trade presigned_auction 2000) in
  exists surplus fees native,
    mt_surplus_over_limit_price t = Ok surplus /\
    mt_protocol_fees f64_trunc (fun _ => None) t presigned_policies = Ok fees /\
    epf_policy <$> fees = [Score.Volume half] /\
    Forall (fun e => asset_token (epf_fee e) = mt_surplus_token t) fees /\
    native_prices presigned_context !! 2 = Some native /\
    1080 = price_in_eth native (surplus + fees_total fees).
Proof.
  apply (settled_fees_agree f64_trunc (fun _ => None) presigned_solution presigned_fulfillment presigned_trade
    presigned_auction 2000 presigned_context (<[1 := 100]> {[2 := 100]})
    (mkAmounts Sell (mkAsset 1 1000) (mkAsset 2 900) 1000 990) 1080 presigned_observed);
    [vm_compute; discriminate|vm_compute; discriminate|vm_compute; reflexivity|
     by vm_compute; eexists|vm_compute; reflexivity|vm_compute; reflexivity].
Defined.

(** A quote whose fee exceeds what it sells fails winner selection and the driver, while
    the accounting takes it for no improvement. *)
Example unaffordable_quote_example :
  let t := MathTrade_from (SettledTrade_new presigned_trade presigned_auction 2000) in
  let q := Score.mkQuote 1000 950 2000 7 in
  price_improvement_over_quote (mt_order t) (custom (mt_prices t)) q = Err Negative /\
  mt_price_improvement t q = Ok 0.
Proof. split; vm_compute; reflexivity. Qed.
