(* ===== verification/CompetitionStore.v ===== *)
(** * CompetitionStore: the competition data in the database

    [crates/database/src/solver_competition_v2.rs] and [fee_policies.rs], with
    [save_solutions] and [store_fee_policies] of
    [crates/autopilot/src/infra/persistence/mod.rs] and
    [crates/autopilot/src/infra/persistence/dto/fee_policy.rs]: the solutions of an
    auction and the fee policies of its orders are stored when the auction is
    decided, and read back when a settlement is observed.

    A table is a map from its primary key; [ON CONFLICT DO NOTHING] keeps the row
    that is there.  A query's rows come in any order ([arrange]).  A bulk insert
    without rows is not valid SQL. *)

From stdpp Require Import base gmap sets list strings sorting.
From Stdlib Require Import ZArith Lia SpecFloat.
From S2P Require Import Prelude Collections F64 Eth Liquidity Solution Score Arbitrator Dto.
From S2P Require Import DriverOrder DriverTrade DriverScore DriverSolution AutopilotBids.

Open Scope Z_scope.

(** ** Number conversions *)
Definition u256_to_big_decimal (x : Z) : BigDecimal := mkBigDecimal x 0.

Definition big_decimal_to_u256 (d : BigDecimal) : option Z :=
  let whole := if bd_exp d <=? 0 then Some (bd_int d * 10 ^ (- bd_exp d))
               else if bd_int d mod 10 ^ bd_exp d =? 0 then Some (bd_int d / 10 ^ bd_exp d) else None in
  match whole with
  | Some x => if fits 256 x then Some x else None
  | None => None
  end.

(** ** Solutions *)

(** What an order asks for, in [proposed_jit_orders] and in [orders]. *)
Record OrderTerms := mkOrderTerms {
  ot_sell_token : address;
  ot_buy_token : address;
  ot_limit_sell : BigDecimal;
  ot_limit_buy : BigDecimal;
  ot_side : Side;
}.

(** [solver_competition_v2::Order]. *)
Record DbOrder := mkDbOrder {
  dbo_uid : Z;
  dbo_terms : OrderTerms;
  dbo_executed_sell : BigDecimal;
  dbo_executed_buy : BigDecimal;
}.

(** The row of [proposed_solutions], without its key. *)
Record SolutionEntry := mkSolutionEntry {
  se_id : BigDecimal;
  se_solver : address;
  se_is_winner : bool;
  se_filtered_out : bool;
  se_score : BigDecimal;
  se_price_tokens : list address;
  se_price_values : list BigDecimal;
}.

(** [solver_competition_v2::Solution]. *)
Record DbSolution := mkDbSolution { dbs_uid : Z; dbs_entry : SolutionEntry; dbs_orders : list DbOrder }.

Record SolutionRow := mkSolutionRow { row_uid : Z; row_entry : SolutionEntry; row_order : DbOrder }.

Record CompetitionDb := mkCompetitionDb {
  proposed_solutions : gmap (Z * Z) SolutionEntry;
  proposed_trade_executions : gmap (Z * Z * Z) (BigDecimal * BigDecimal);
  proposed_jit_orders : gmap (Z * Z * Z) OrderTerms;
  orders_table : gmap Z OrderTerms;
}.

(** [INSERT ... ON CONFLICT DO NOTHING]. *)
Definition insert_new {K V} `{Countable K} (m : gmap K V) (e : K * V) : gmap K V :=
  match m !! e.1 with Some _ => m | None => <[e.1 := e.2]> m end.

Definition insert_rows {K V} `{Countable K} (rows : list (K * V)) (m : gmap K V) : gmap K V :=
  foldl insert_new m rows.

(** A bulk insert of no rows is an error. *)
Definition bulk_insert {K V} `{Countable K} (rows : list (K * V)) (m : gmap K V) : option (gmap K V) :=
  match rows with [] => None | _ => Some (insert_rows rows m) end.

Definition execution_rows (auction_id : Z) (solutions : list DbSolution)
  : list (Z * Z * Z * (BigDecimal * BigDecimal)) :=
  solutions ≫= fun s => (fun o => ((auction_id, dbs_uid s, dbo_uid o),
                                   (dbo_executed_sell o, dbo_executed_buy o))) <$> dbs_orders s.

Definition jit_rows (auction_id : Z) (solutions : list DbSolution) : list (Z * Z * Z * OrderTerms) :=
  solutions ≫= fun s => (fun o => ((auction_id, dbs_uid s, dbo_uid o), dbo_terms o)) <$> dbs_orders s.

Definition db_save_solutions (auction_id : Z) (solutions : list DbSolution) (db : CompetitionDb)
  : option CompetitionDb :=
  let? ps := bulk_insert ((fun s => ((auction_id, dbs_uid s), dbs_entry s)) <$> solutions)
               (proposed_solutions db) in
  Some (mkCompetitionDb ps (proposed_trade_executions db) (proposed_jit_orders db) (orders_table db)).

Definition save_trade_executions (auction_id : Z) (solutions : list DbSolution) (db : CompetitionDb)
  : option CompetitionDb :=
  let? pte := bulk_insert (execution_rows auction_id solutions) (proposed_trade_executions db) in
  Some (mkCompetitionDb (proposed_solutions db) pte (proposed_jit_orders db) (orders_table db)).

(** Order data is stored for the orders that are not in [orders]. *)
Definition save_jit_orders (auction_id : Z) (solutions : list DbSolution) (db : CompetitionDb) : CompetitionDb :=
  let rows := filter (fun e => orders_table db !! e.1.2 = None) (jit_rows auction_id solutions) in
  mkCompetitionDb (proposed_solutions db) (proposed_trade_executions db)
    (insert_rows rows (proposed_jit_orders db)) (orders_table db).

Definition save (auction_id : Z) (solutions : list DbSolution) (db : CompetitionDb) : option CompetitionDb :=
  match solutions with
  | [] => Some db
  | _ =>
      let? db := db_save_solutions auction_id solutions db in
      let? db := save_trade_executions auction_id solutions db in
      Some (save_jit_orders auction_id solutions db)
  end.

(** [BASE_SOLUTIONS_QUERY]: a row without order data cannot be decoded. *)
Definition decode_row (db : CompetitionDb) (entry : SolutionEntry) (auction_id uid order_uid : Z)
  (executed : BigDecimal * BigDecimal) : option SolutionRow :=
  let? terms := match proposed_jit_orders db !! (auction_id, uid, order_uid) with
                | Some terms => Some terms
                | None => orders_table db !! order_uid
                end in
  Some (mkSolutionRow uid entry (mkDbOrder order_uid terms executed.1 executed.2)).

(** The rows joined to a solution [(auction_id, uid)] with its entry. *)
Definition solution_join (db : CompetitionDb) (p : Z -> SolutionEntry -> bool) (x : Z * Z * SolutionEntry)
  : list (option SolutionRow) :=
  if p x.1.1 x.2 then
    (fun y => decode_row db x.2 x.1.1 x.1.2 y.1.2 y.2)
      <$> filter (fun y => y.1.1 = x.1) (map_to_list (proposed_trade_executions db))
  else [].

Definition joined_rows (db : CompetitionDb) (p : Z -> SolutionEntry -> bool) : list (option SolutionRow) :=
  map_to_list (proposed_solutions db) ≫= solution_join db p.

Definition all_decoded (rows : list (option SolutionRow)) : option (list SolutionRow) :=
  mapM id rows.

(** [map_rows_to_solutions]. *)
Definition push_row (m : gmap Z DbSolution) (r : SolutionRow) : gmap Z DbSolution :=
  match m !! row_uid r with
  | Some s => <[row_uid r := mkDbSolution (dbs_uid s) (dbs_entry s) (dbs_orders s ++ [row_order r])]> m
  | None => <[row_uid r := mkDbSolution (row_uid r) (row_entry r) [row_order r]]> m
  end.

Definition map_rows_to_solutions (rows : list SolutionRow) : list DbSolution :=
  sort_by (cmp_on dbs_uid Z.compare) (map_to_list (foldl push_row ∅ rows)).*2.

Section queries.
Context (arrange : list SolutionRow -> list SolutionRow).

Definition fetch_where (p : Z -> SolutionEntry -> bool) (db : CompetitionDb) : option (list DbSolution) :=
  (fun rows => map_rows_to_solutions (arrange rows)) <$> all_decoded (joined_rows db p).

Definition fetch (auction_id : Z) (db : CompetitionDb) : option (list DbSolution) :=
  fetch_where (fun a _ => a =? auction_id) db.

Definition fetch_solver_winning_solutions (auction_id : Z) (solver : address) (db : CompetitionDb)
  : option (list DbSolution) :=
  fetch_where (fun a e => (a =? auction_id) && (se_solver e =? solver) && se_is_winner e) db.
End queries.

(** ** [save_solutions] of the autopilot *)
Definition bid_order (uid : Z) (o : TradedOrder) : DbOrder :=
  mkDbOrder uid
    (mkOrderTerms (asset_token (to_sell o)) (asset_token (to_buy o)) (u256_to_big_decimal (asset_amount (to_sell o)))
       (u256_to_big_decimal (asset_amount (to_buy o))) (to_side o))
    (u256_to_big_decimal (to_executed_sell o)) (u256_to_big_decimal (to_executed_buy o)).

Definition bid_entry (b : Bid Ranked) : SolutionEntry :=
  mkSolutionEntry (mkBigDecimal (bs_id (bid_solution b)) 0) (bs_solver (bid_solution b)) (bid_is_winner b)
    (match ranked_rank_type (bid_state b) with FilteredOut => true | _ => false end)
    (u256_to_big_decimal (ranked_score (bid_state b))) (map_to_list (bs_prices (bid_solution b))).*1
    (u256_to_big_decimal <$> (map_to_list (bs_prices (bid_solution b))).*2).

Definition bid_row (uid : nat) (b : Bid Ranked) : DbSolution :=
  mkDbSolution (Z.of_nat uid) (bid_entry b)
    ((fun e => bid_order e.1 e.2) <$> map_to_list (bs_orders (bid_solution b))).

(** The uid is a position, which fits in an [i64]; an error stops the transaction. *)
Definition persistence_save_solutions (auction_id : Z) (bids : list (Bid Ranked)) (db : CompetitionDb)
  : option CompetitionDb :=
  if Z.of_nat (length bids) <=? 2 ^ 63 then save auction_id (imap bid_row bids) db else None.

(** ** Fee policies *)
Inductive FeePolicyKind := KindSurplus | KindVolume | KindPriceImprovement.

Record FeePolicyRow := mkFeePolicyRow {
  fp_auction_id : Z;
  fp_order_uid : Z;
  fp_kind : FeePolicyKind;
  fp_surplus_factor : option f64;
  fp_surplus_max_volume_factor : option f64;
  fp_volume_factor : option f64;
  fp_price_improvement_factor : option f64;
  fp_price_improvement_max_volume_factor : option f64;
}.

Definition fee_policy_from_domain (auction_id order_uid : Z) (policy : Score.FeePolicy) : FeePolicyRow :=
  match policy with
  | Score.Surplus factor max_volume_factor =>
      mkFeePolicyRow auction_id order_uid KindSurplus (Some factor) (Some max_volume_factor) None None None
  | Score.Volume factor => mkFeePolicyRow auction_id order_uid KindVolume None None (Some factor) None None
  | Score.PriceImprovement factor max_volume_factor _ =>
      mkFeePolicyRow auction_id order_uid KindPriceImprovement None None None (Some factor) (Some max_volume_factor)
  end.

(** [FeeFactor::try_from]: the half-open range from 0 to 1. *)
Definition FeeFactor_try_from (value : f64) : option f64 :=
  if SFleb (f64_lit 0) value && SFltb value (f64_lit 1) then Some value else None.

Inductive FeePolicyError := Inconsistency | MissingQuote.

Definition factor_column (column : option f64) : result FeePolicyError f64 :=
  letr value := ok_or column Inconsistency in ok_or (FeeFactor_try_from value) Inconsistency.

Definition fee_policy_try_into_domain (policy : FeePolicyRow) (quote : option Score.Quote)
  : result FeePolicyError Score.FeePolicy :=
  match fp_kind policy with
  | KindSurplus =>
      letr factor := factor_column (fp_surplus_factor policy) in
      letr max_volume_factor := factor_column (fp_surplus_max_volume_factor policy) in
      Ok (Score.Surplus factor max_volume_factor)
  | KindVolume =>
      letr factor := factor_column (fp_volume_factor policy) in
      Ok (Score.Volume factor)
  | KindPriceImprovement =>
      letr factor := factor_column (fp_price_improvement_factor policy) in
      letr max_volume_factor := factor_column (fp_price_improvement_max_volume_factor policy) in
      letr quote := ok_or quote MissingQuote in
      Ok (Score.PriceImprovement factor max_volume_factor quote)
  end.

(** The table is in the order of [application_order]. *)
Definition fee_policies_insert_batch (rows table : list FeePolicyRow) : list FeePolicyRow := table ++ rows.

(** [slice::chunks] of a positive size. *)
Fixpoint batches {A} (fuel size : nat) (l : list A) : list (list A) :=
  match fuel, l with
  | S fuel, _ :: _ => take size l :: batches fuel size (drop size l)
  | _, _ => []
  end.

Definition store_fee_policies (batch_size : nat) (auction_id : Z)
  (fee_policies : list (Z * list Score.FeePolicy)) (table : list FeePolicyRow) : list FeePolicyRow :=
  foldl (fun table chunk =>
           fee_policies_insert_batch
             (chunk ≫= fun e => fee_policy_from_domain auction_id e.1 <$> e.2) table)
    table (batches (length fee_policies) batch_size fee_policies).

(** [fee_policies::fetch_all]. *)
Definition fee_policies_fetch_all (keys_filter : list (Z * Z)) (table : list FeePolicyRow)
  : gmap (Z * Z) (list FeePolicyRow) :=
  let rows := table ≫= fun r =>
    (fun _ => r) <$> filter (fun k => k = (fp_auction_id r, fp_order_uid r)) keys_filter in
  foldl (fun m r => let key := (fp_auction_id r, fp_order_uid r) in
                    <[key := default [] (m !! key) ++ [r]]> m) ∅ rows.

Lemma big_decimal_round_trip x : 0 <= x <= U256_MAX -> big_decimal_to_u256 (u256_to_big_decimal x) = Some x.
Proof.
  intros Hx. unfold big_decimal_to_u256, u256_to_big_decimal. cbn [bd_exp bd_int]. cbv zeta.
  rewrite Z.leb_refl. replace (x * 10 ^ (- 0)) with x by (cbn; lia).
  assert (fits 256 x = true) as -> by (apply fits_spec; unfold U256_MAX in Hx; lia). done.
Qed.

(** ** Inserted rows *)
Lemma insert_rows_perm {K V} `{Countable K} (rows : list (K * V)) (m : gmap K V) :
  NoDup rows.*1 -> Forall (fun e => m !! e.1 = None) rows ->
  map_to_list (insert_rows rows m) ≡ₚ rows ++ map_to_list m.
Proof.
  unfold insert_rows. revert m. induction rows as [|[k v] rows IH]; intros m Hnd Hnew; [done|].
  apply NoDup_cons in Hnd as [Hk Hnd]. apply Forall_cons in Hnew as [Hm Hnew]. cbn [foldl fst] in *.
  unfold insert_new at 2. cbn [fst snd] in *. rewrite Hm, IH; [|done|].
  - rewrite map_to_list_insert by done. by rewrite <-Permutation_middle.
  - rewrite Forall_forall in *. intros [k' v'] He. cbn. rewrite lookup_insert_ne; [by apply (Hnew _ He)|].
    intros ->. apply Hk. apply list_elem_of_fmap. by exists (k', v').
Qed.

Lemma insert_rows_lookup {K V} `{Countable K} (rows : list (K * V)) (m : gmap K V) k v :
  NoDup rows.*1 -> Forall (fun e => m !! e.1 = None) rows ->
  insert_rows rows m !! k = Some v <-> (k, v) ∈ rows \/ m !! k = Some v.
Proof.
  intros Hnd Hnew. rewrite <-!elem_of_map_to_list, insert_rows_perm, elem_of_app by done. done.
Qed.

Lemma insert_rows_old {K V} `{Countable K} (rows : list (K * V)) (m : gmap K V) k v :
  m !! k = Some v -> insert_rows rows m !! k = Some v.
Proof.
  unfold insert_rows. revert m. induction rows as [|e rows IH]; intros m Hm; [done|]. cbn [foldl]. apply IH.
  unfold insert_new. destruct (m !! e.1) eqn:E; [done|]. rewrite lookup_insert_ne; [done|congruence].
Qed.

Lemma bind_perm_ext {A B} (f g : A -> list B) l : (forall x, x ∈ l -> f x ≡ₚ g x) -> l ≫= f ≡ₚ l ≫= g.
Proof.
  induction l as [|x l IH]; intros Hfg; [done|]. rewrite !bind_cons. rewrite (Hfg x) by set_solver.
  rewrite IH; [done|]. intros y Hy. apply Hfg. set_solver.
Qed.

Lemma fmap_bind_list {A B C} (f : A -> list B) (g : B -> C) l : g <$> (l ≫= f) = l ≫= fun x => g <$> f x.
Proof. induction l as [|x l IH]; [done|]. rewrite !bind_cons, fmap_app, IH. done. Qed.

Lemma bind_none {A B} (f : A -> list B) l : (forall x, x ∈ l -> f x = []) -> l ≫= f = [].
Proof.
  induction l as [|x l IH]; intros Hl; [done|]. rewrite bind_cons, (Hl x) by set_solver. cbn. apply IH.
  intros y Hy. apply Hl. set_solver.
Qed.

Lemma bind_filter {A B} (P : A -> bool) (f : A -> list B) l :
  filter (fun x => P x = true) l ≫= f = l ≫= fun x => if P x then f x else [].
Proof.
  induction l as [|x l IH]; [done|]. rewrite bind_cons. destruct (P x) eqn:E.
  - by rewrite filter_cons_True, bind_cons, IH.
  - rewrite filter_cons_False by congruence. done.
Qed.

(** ** What is saved can be fetched *)

(** One row for each order of each solution. *)
Definition order_rows {A} (row : DbSolution -> DbOrder -> A) (solutions : list DbSolution) : list A :=
  solutions ≫= fun s => row s <$> dbs_orders s.

(** A fetched solution is the saved one with its orders in some order. *)
Definition same_solution (s s' : DbSolution) : Prop :=
  dbs_uid s' = dbs_uid s /\ dbs_entry s' = dbs_entry s /\ dbs_orders s' ≡ₚ dbs_orders s.

(** Nothing is stored for the auction yet. *)
Definition auction_fresh (auction_id : Z) (db : CompetitionDb) : Prop :=
  forall u o, proposed_solutions db !! (auction_id, u) = None /\
    proposed_trade_executions db !! (auction_id, u, o) = None /\ proposed_jit_orders db !! (auction_id, u, o) = None.

(** Uids are unique, and an order in [orders] has the terms it is reported with. *)
Record solutions_ok (db : CompetitionDb) (solutions : list DbSolution) : Prop := {
  ok_uids : NoDup (dbs_uid <$> solutions);
  ok_orders : forall s, s ∈ solutions -> NoDup (dbo_uid <$> dbs_orders s);
  ok_terms : forall s o terms, s ∈ solutions -> o ∈ dbs_orders s ->
    orders_table db !! dbo_uid o = Some terms -> terms = dbo_terms o;
}.

Lemma order_rows_elem {A} (row : DbSolution -> DbOrder -> A) l r :
  r ∈ order_rows row l <-> exists s o, s ∈ l /\ o ∈ dbs_orders s /\ r = row s o.
Proof. unfold order_rows. setoid_rewrite list_elem_of_bind. setoid_rewrite list_elem_of_fmap. naive_solver. Qed.

Lemma order_rows_NoDup {A} (row : DbSolution -> DbOrder -> A) l :
  NoDup (dbs_uid <$> l) -> (forall s, s ∈ l -> NoDup (dbo_uid <$> dbs_orders s)) ->
  (forall s o s' o', row s o = row s' o' -> dbs_uid s = dbs_uid s' /\ dbo_uid o = dbo_uid o') ->
  NoDup (order_rows row l).
Proof.
  intros Hnd Ho Hinj. induction l as [|s l IH]; [constructor|]. unfold order_rows. rewrite bind_cons.
  rewrite fmap_cons in Hnd. apply NoDup_cons in Hnd as [Hs Hnd]. apply NoDup_app. split_and!.
  - specialize (Ho s ltac:(set_solver)). clear - Ho Hinj. induction (dbs_orders s) as [|o os IH]; [constructor|].
    rewrite fmap_cons in *. apply NoDup_cons in Ho as [Hn Ho]. apply NoDup_cons. split; [|auto].
    intros (o' & E & Ho')%list_elem_of_fmap. apply Hinj in E as [_ E]. apply Hn. rewrite E.
    by apply list_elem_of_fmap_2.
  - intros k (o & -> & _)%list_elem_of_fmap (s' & o' & Hs' & _ & E)%order_rows_elem.
    apply Hinj in E as [E _]. apply Hs. rewrite E. by apply list_elem_of_fmap_2.
  - apply IH; [done|]. intros s' Hs'. apply Ho. set_solver.
Qed.

Lemma fmap_order_rows {A B} (row : DbSolution -> DbOrder -> A) (f : A -> B) l :
  f <$> order_rows row l = order_rows (fun s o => f (row s o)) l.
Proof.
  unfold order_rows. rewrite fmap_bind_list. apply list_bind_ext; [|done]. intros s. by rewrite <-list_fmap_compose.
Qed.

(** The rows of one solution, among the rows of all. *)
Lemma order_rows_of {A} (row : DbSolution -> DbOrder -> A) (P : A -> Prop) `{forall x, Decision (P x)} l s :
  NoDup (dbs_uid <$> l) -> s ∈ l -> (forall s' o, P (row s' o) <-> dbs_uid s' = dbs_uid s) ->
  filter P (order_rows row l) = row s <$> dbs_orders s.
Proof.
  intros Hnd Hs HP. assert (Hother : forall l, dbs_uid s ∉ dbs_uid <$> l -> filter P (order_rows row l) = []).
  { intros k Hk. apply filter_none. intros r (s' & o & Hs' & _ & ->)%order_rows_elem Hr. apply HP in Hr.
    apply Hk. rewrite <-Hr. by apply list_elem_of_fmap_2. }
  induction l as [|s' l IH]; [by apply not_elem_of_nil in Hs|].
  rewrite fmap_cons in Hnd. apply NoDup_cons in Hnd as [Hs' Hnd].
  unfold order_rows. rewrite bind_cons, filter_app. apply elem_of_cons in Hs as [->|Hs].
  - fold (order_rows row l). rewrite (Hother l Hs'), app_nil_r. apply filter_all.
    intros r (o & -> & _)%list_elem_of_fmap. by apply HP.
  - fold (order_rows row l). rewrite IH by done. rewrite filter_none; [done|].
    intros r (o & -> & _)%list_elem_of_fmap Hr. apply HP in Hr. apply Hs'. rewrite Hr. by apply list_elem_of_fmap_2.
Qed.

Section saved.
Context (auction_id : Z) (db db' : CompetitionDb) (solutions : list DbSolution).
Context (Hfresh : auction_fresh auction_id db) (Hok : solutions_ok db solutions).
Context (Hsave : save auction_id solutions db = Some db').

Local Abbreviation pte_key := (fun s o => (auction_id, dbs_uid s, dbo_uid o)).

Lemma save_tables :
  proposed_solutions db' = insert_rows ((fun s => ((auction_id, dbs_uid s), dbs_entry s)) <$> solutions)
                             (proposed_solutions db) /\
  proposed_trade_executions db' = insert_rows (execution_rows auction_id solutions) (proposed_trade_executions db) /\
  proposed_jit_orders db' =
    insert_rows (filter (fun e => orders_table db !! e.1.2 = None) (jit_rows auction_id solutions))
      (proposed_jit_orders db) /\
  orders_table db' = orders_table db.
Proof.
  unfold save in Hsave. destruct solutions as [|s l] eqn:E; [injection Hsave as <-; done|]. rewrite <-E in *.
  unfold db_save_solutions, save_trade_executions, bulk_insert in Hsave.
  assert (exists x y, (fun s => ((auction_id, dbs_uid s), dbs_entry s)) <$> solutions = x :: y) as (x & y & Hx)
    by (rewrite E; eauto). rewrite Hx in *. cbn [proposed_trade_executions proposed_jit_orders] in Hsave.
  destruct (execution_rows auction_id solutions) as [|x' y'] eqn:Hy; [done|]. by injection Hsave as <-.
Qed.

Lemma keys_NoDup : NoDup (order_rows pte_key solutions).
Proof. apply order_rows_NoDup; [apply Hok|apply Hok|]. by intros s o s' o' [= -> ->]. Qed.

Lemma saved_solutions :
  map_to_list (proposed_solutions db')
    ≡ₚ ((fun s => ((auction_id, dbs_uid s), dbs_entry s)) <$> solutions) ++ map_to_list (proposed_solutions db).
Proof.
  destruct save_tables as [-> _]. apply insert_rows_perm.
  - rewrite <-list_fmap_compose. change (NoDup ((fun s => (auction_id, dbs_uid s)) <$> solutions)).
    pose proof (ok_uids _ _ Hok) as Hnd. clear -Hnd. induction solutions as [|s l IH]; [constructor|].
    rewrite fmap_cons in *. apply NoDup_cons in Hnd as [Hs Hnd]. apply NoDup_cons. split; [|auto].
    intros (s' & [= E] & Hs')%list_elem_of_fmap. apply Hs. rewrite E. by apply list_elem_of_fmap_2.
  - apply Forall_fmap, Forall_forall. intros s _. apply (Hfresh (dbs_uid s) 0).
Qed.

Lemma saved_executions :
  map_to_list (proposed_trade_executions db')
    ≡ₚ execution_rows auction_id solutions ++ map_to_list (proposed_trade_executions db).
Proof.
  destruct save_tables as (_ & -> & _). apply insert_rows_perm.
  - pose proof keys_NoDup as Hk.
    by rewrite <-(fmap_order_rows (fun s o => (pte_key s o, (dbo_executed_sell o, dbo_executed_buy o))) fst) in Hk.
  - apply Forall_forall. intros [k v] Hk.
    apply (order_rows_elem (fun s o => (pte_key s o, (dbo_executed_sell o, dbo_executed_buy o)))) in Hk as (s & o & _ & _ & [= -> _]). apply Hfresh.
Qed.

Lemma saved_terms s o :
  s ∈ solutions -> o ∈ dbs_orders s ->
  decode_row db' (dbs_entry s) auction_id (dbs_uid s) (dbo_uid o) (dbo_executed_sell o, dbo_executed_buy o)
  = Some (mkSolutionRow (dbs_uid s) (dbs_entry s) o).
Proof.
  intros Hs Ho. unfold decode_row. destruct save_tables as (_ & _ & -> & ->).
  set (rows := filter _ _).
  assert (Hnd : NoDup rows.*1).
  { eapply (sublist_NoDup _ ((jit_rows auction_id solutions).*1)); [|apply fmap_sublist, sublist_filter].
    pose proof keys_NoDup as Hk. by rewrite <-(fmap_order_rows (fun s o => (pte_key s o, dbo_terms o)) fst) in Hk. }
  assert (Hnew : Forall (fun e => proposed_jit_orders db !! e.1 = None) rows).
  { apply Forall_forall. intros [k v] [_ Hk]%list_elem_of_filter.
    apply (order_rows_elem (fun s o => (pte_key s o, dbo_terms o))) in Hk as (s' & o' & _ & _ & [= -> _]). apply Hfresh. }
  destruct (orders_table db !! dbo_uid o) as [terms|] eqn:E.
  - assert (insert_rows rows (proposed_jit_orders db) !! pte_key s o = None) as ->.
    { destruct (insert_rows _ _ !! _) as [v|] eqn:Ei; [|done]. apply (insert_rows_lookup _ _ _ _ Hnd Hnew) in Ei as [Hin|Hin].
      - apply list_elem_of_filter in Hin as [Hin _]. cbn in Hin. congruence.
      - destruct (Hfresh (dbs_uid s) (dbo_uid o)) as (_ & _ & Hn). congruence. }
    rewrite (ok_terms _ _ Hok s o terms Hs Ho E). by destruct o.
  - assert (insert_rows rows (proposed_jit_orders db) !! pte_key s o = Some (dbo_terms o)) as ->.
    { apply insert_rows_lookup; [done|done|]. left. apply list_elem_of_filter. split; [done|].
      apply (order_rows_elem (fun s o => (pte_key s o, dbo_terms o))). by exists s, o. }
    by destruct o.
Qed.

(** The rows of a query over the auction. *)
Lemma joined_rows_saved q :
  joined_rows db' (fun a e => (a =? auction_id) && q e)
  ≡ₚ Some <$> order_rows (fun s => mkSolutionRow (dbs_uid s) (dbs_entry s))
                (filter (fun s => q (dbs_entry s) = true) solutions).
Proof.
  unfold joined_rows. rewrite saved_solutions, bind_app.
  rewrite (bind_none _ (map_to_list (proposed_solutions db))), app_nil_r.
  2: { intros [[a u] e] He%elem_of_map_to_list. unfold solution_join. cbn [fst snd].
       destruct (Z.eqb_spec a auction_id) as [->|]; [|done]. destruct (Hfresh u 0) as [Hn _]. congruence. }
  unfold order_rows. rewrite list_fmap_bind, fmap_bind_list, bind_filter. apply bind_perm_ext. intros s Hs.
  unfold compose, solution_join. cbn [fst snd]. rewrite Z.eqb_refl. cbn [andb].
  destruct (q (dbs_entry s)); [|done]. rewrite saved_executions, filter_app.
  rewrite (filter_none _ (map_to_list (proposed_trade_executions db))), app_nil_r.
  2: { intros [[[a u] o] x] Hx%elem_of_map_to_list [= -> ->].
       destruct (Hfresh (dbs_uid s) o) as (_ & Hn & _). congruence. }
  rewrite (order_rows_of (fun s o => (pte_key s o, (dbo_executed_sell o, dbo_executed_buy o))) _ solutions s
    (ok_uids _ _ Hok) Hs) by (intros s1 o1; cbn; split; [by intros [= ?]|by intros ->]).
  rewrite <-!list_fmap_compose. apply Permutation_refl', list_fmap_ext. intros i o Hi. cbn.
  apply saved_terms; [done|]. by eapply list_elem_of_lookup_2.
Qed.
End saved.

(** ** Rows back to solutions *)

(** What the rows of one uid amount to. *)
Definition grouped (rows : list SolutionRow) (u : Z) : option DbSolution :=
  match filter (fun r => row_uid r = u) rows with
  | [] => None
  | r :: rs => Some (mkDbSolution u (row_entry r) (row_order <$> (r :: rs)))
  end.

Lemma push_rows_lookup rows u : foldl push_row ∅ rows !! u = grouped rows u.
Proof.
  revert u. induction rows as [|r rows IH] using rev_ind; intros u; [apply lookup_empty|].
  rewrite foldl_app. cbn [foldl]. unfold push_row, grouped. rewrite filter_app, IH.
  destruct (decide (row_uid r = u)) as [Hu|Hne].
  - rewrite Hu, filter_cons_True, filter_nil by done. unfold grouped.
    destruct (filter _ rows) as [|r' rs]; rewrite lookup_insert_eq; [done|].
    cbn [dbs_uid dbs_entry dbs_orders app]. by rewrite app_comm_cons, fmap_app.
  - rewrite filter_cons_False, filter_nil, app_nil_r by done.
    destruct (grouped rows (row_uid r)); rewrite lookup_insert_ne, IH by done; done.
Qed.

Lemma push_rows_uid rows u s : foldl push_row ∅ rows !! u = Some s -> dbs_uid s = u.
Proof. rewrite push_rows_lookup. unfold grouped. destruct (filter _ _); [done|]. by intros [= <-]. Qed.

Lemma map_rows_elem rows s : s ∈ map_rows_to_solutions rows <-> grouped rows (dbs_uid s) = Some s.
Proof.
  unfold map_rows_to_solutions. rewrite sort_by_elem, list_elem_of_fmap, <-push_rows_lookup. split.
  - intros ([u s'] & -> & Hs%elem_of_map_to_list). cbn. by rewrite (push_rows_uid _ _ _ Hs).
  - intros Hs. exists (dbs_uid s, s). split; [done|]. by apply elem_of_map_to_list.
Qed.

Lemma map_rows_sorted rows : StronglySorted Z.lt (dbs_uid <$> map_rows_to_solutions rows).
Proof.
  set (sols := map_rows_to_solutions rows).
  assert (Hnd : NoDup (dbs_uid <$> sols)).
  { unfold sols, map_rows_to_solutions. rewrite sort_by_perm, <-list_fmap_compose.
    rewrite (list_fmap_ext _ fst); [apply NoDup_fst_map_to_list|].
    intros i [u s] Hi%list_elem_of_lookup_2%elem_of_map_to_list. by apply push_rows_uid in Hi. }
  assert (Hs : StronglySorted (fun s s' => cmp_on dbs_uid Z.compare s s' <> Gt) sols) by apply sort_by_sorted, _.
  induction Hs as [|s l _ IH Hall]; [constructor|]. rewrite fmap_cons in *. apply NoDup_cons in Hnd as [Hn Hnd].
  constructor; [auto|]. apply Forall_fmap, Forall_forall. intros s' Hs'.
  rewrite Forall_forall in Hall. specialize (Hall s' Hs'). unfold cmp_on in Hall. cbn.
  destruct (Z.compare_spec (dbs_uid s) (dbs_uid s')) as [E|E|E]; [|done|by destruct Hall].
  destruct Hn. rewrite E. by apply list_elem_of_fmap_2.
Qed.

Lemma all_decoded_perm rows l :
  rows ≡ₚ Some <$> l -> exists l', all_decoded rows = Some l' /\ l' ≡ₚ l.
Proof.
  intros Hp. apply Permutation_map_inv in Hp as (l' & -> & Hl). exists l'. split; [|done].
  unfold all_decoded. clear. induction l' as [|r l IH]; [done|]. cbn. by rewrite IH.
Qed.

(** [fetched] are the selected solutions that have orders, by uid. *)
Definition selection_of (q : SolutionEntry -> bool) (solutions fetched : list DbSolution) : Prop :=
  StronglySorted Z.lt (dbs_uid <$> fetched) /\
  (forall s', s' ∈ fetched -> exists s, s ∈ solutions /\ q (dbs_entry s) = true /\ same_solution s s') /\
  (forall s, s ∈ solutions -> q (dbs_entry s) = true -> dbs_orders s <> [] ->
     exists s', s' ∈ fetched /\ same_solution s s').

Lemma fetch_where_saved auction_id db db' solutions arrange q :
  auction_fresh auction_id db -> solutions_ok db solutions -> (forall rows, arrange rows ≡ₚ rows) ->
  save auction_id solutions db = Some db' ->
  exists fetched, fetch_where arrange (fun a e => (a =? auction_id) && q e) db' = Some fetched /\
    selection_of q solutions fetched.
Proof.
  intros Hfresh Hok Harr Hsave.
  destruct (all_decoded_perm _ _ (joined_rows_saved _ _ _ _ Hfresh Hok Hsave q)) as (rows & Hrows & Hperm).
  unfold fetch_where. rewrite Hrows. cbn. eexists. split; [done|]. split; [apply map_rows_sorted|].
  rewrite <-(Harr rows) in Hperm. set (rs := arrange rows) in *.
  set (row := fun s => mkSolutionRow (dbs_uid s) (dbs_entry s)) in *.
  set (sel := filter (fun s => q (dbs_entry s) = true) solutions) in *.
  assert (Hnd : NoDup (dbs_uid <$> sel)).
  { eapply sublist_NoDup; [apply (ok_uids _ _ Hok)|]. apply fmap_sublist, sublist_filter. }
  assert (Hgroup : forall s, s ∈ sel -> filter (fun r => row_uid r = dbs_uid s) rs ≡ₚ row s <$> dbs_orders s).
  { intros s Hs. rewrite Hperm. by rewrite (order_rows_of row _ sel s Hnd Hs). }
  assert (Hsame : forall s s', s ∈ sel -> grouped rs (dbs_uid s) = Some s' -> same_solution s s').
  { intros s s' Hs Hg. specialize (Hgroup s Hs). unfold grouped in Hg.
    destruct (filter _ rs) as [|r l]; [done|]. injection Hg as <-. split_and!; [done| |]; cbn [dbs_entry dbs_orders].
    - assert (Hr : r ∈ row s <$> dbs_orders s) by (rewrite <-Hgroup; set_solver).
      apply list_elem_of_fmap in Hr as (o & -> & _). done.
    - transitivity (row_order <$> (row s <$> dbs_orders s)); [exact (fmap_Permutation row_order _ _ Hgroup)|].
      rewrite <-list_fmap_compose. apply Permutation_refl', list_fmap_id. }
  split.
  - intros s' Hs'. apply map_rows_elem in Hs' as Hg. unfold grouped in Hg.
    destruct (filter _ rs) as [|r l] eqn:E; [done|].
    assert (Hr : r ∈ filter (fun r => row_uid r = dbs_uid s') rs) by (rewrite E; set_solver).
    apply list_elem_of_filter in Hr as [Hu Hr]. rewrite Hperm in Hr.
    apply order_rows_elem in Hr as (s & o & Hs & _ & ->). cbn in Hu.
    pose proof Hs as Hsel. apply list_elem_of_filter in Hsel as [Hq Hin]. exists s. split_and!; [done|done|].
    apply Hsame; [done|]. rewrite Hu. by apply map_rows_elem.
  - intros s Hs Hq Hne. assert (Hsel : s ∈ sel) by (apply list_elem_of_filter; done).
    specialize (Hgroup s Hsel). destruct (grouped rs (dbs_uid s)) as [s'|] eqn:Hg.
    + destruct (Hsame s s' Hsel Hg) as (Hu & He & Ho). exists s'. split; [|done]. apply map_rows_elem.
      by rewrite Hu.
    + unfold grouped in Hg. destruct (filter _ rs) as [|r l]; [|done].
      apply Permutation_nil_l in Hgroup. symmetry in Hgroup. apply fmap_nil_inv in Hgroup. by rewrite Hgroup in Hne.
Qed.

Lemma fetch_where_ext arrange p p' db :
  (forall a e, p a e = p' a e) -> fetch_where arrange p db = fetch_where arrange p' db.
Proof.
  intros Hp. unfold fetch_where, joined_rows. do 2 f_equal. apply list_bind_ext; [|done].
  intros x. unfold solution_join. by rewrite Hp.
Qed.

Lemma fetch_winning_saved auction_id db db' solutions arrange solver :
  auction_fresh auction_id db -> solutions_ok db solutions -> (forall rows, arrange rows ≡ₚ rows) ->
  save auction_id solutions db = Some db' ->
  exists fetched, fetch_solver_winning_solutions arrange auction_id solver db' = Some fetched /\
    selection_of (fun e => (se_solver e =? solver) && se_is_winner e) solutions fetched.
Proof.
  intros Hf Ho Ha Hs. unfold fetch_solver_winning_solutions.
  rewrite (fetch_where_ext _ _ (fun a e => (a =? auction_id) && ((se_solver e =? solver) && se_is_winner e)))
    by (intros a e; by rewrite andb_assoc).
  by apply (fetch_where_saved auction_id db).
Qed.

(** The database gives back the competition that was saved.  For a fresh
    auction and solutions with unique uids, whose orders either are unknown to the
    [orders] table or have there the terms they are reported with: once [save]
    succeeded, fetching the auction's solutions decodes every row and returns, ordered
    by uid and in whatever order the rows arrive, exactly the solutions that have
    orders, each with all its orders and columns. *)
Theorem competition_round_trip auction_id db db' solutions arrange :
  auction_fresh auction_id db -> solutions_ok db solutions -> (forall rows, arrange rows ≡ₚ rows) ->
  save auction_id solutions db = Some db' ->
  exists fetched, fetch arrange auction_id db' = Some fetched /\
    StronglySorted Z.lt (dbs_uid <$> fetched) /\
    (forall s', s' ∈ fetched -> exists s, s ∈ solutions /\ same_solution s s') /\
    (forall s, s ∈ solutions -> dbs_orders s <> [] -> exists s', s' ∈ fetched /\ same_solution s s').
Proof.
  intros Hf Ho Ha Hs. unfold fetch.
  rewrite (fetch_where_ext _ _ (fun a e => (a =? auction_id) && true)) by (intros a e; by rewrite andb_true_r).
  destruct (fetch_where_saved auction_id db db' solutions arrange (fun _ => true) Hf Ho Ha Hs)
    as (fetched & -> & Hsort & H1 & H2).
  exists fetched. split_and!; [done|done| |]; [intros s' (s & ? & _ & ?)%H1; eauto|eauto].
Qed.

(** ** Fee policies *)
Definition factor_ok (f : f64) : Prop := FeeFactor_try_from f = Some f.

(** The factors of a domain policy are in range, and its quote is the order's. *)
Definition policy_ok (quote : option Score.Quote) (policy : Score.FeePolicy) : Prop :=
  match policy with
  | Score.Surplus factor max_volume_factor => factor_ok factor /\ factor_ok max_volume_factor
  | Score.PriceImprovement factor max_volume_factor q =>
      factor_ok factor /\ factor_ok max_volume_factor /\ quote = Some q
  | Score.Volume factor => factor_ok factor
  end.

Lemma fee_policy_row_round_trip auction_id order_uid quote policy :
  policy_ok quote policy ->
  fee_policy_try_into_domain (fee_policy_from_domain auction_id order_uid policy) quote = Ok policy.
Proof.
  unfold policy_ok, factor_ok, fee_policy_try_into_domain, factor_column.
  destruct policy as [f m|f m q|f]; cbn [fee_policy_from_domain fp_kind fp_surplus_factor
    fp_surplus_max_volume_factor fp_volume_factor fp_price_improvement_factor
    fp_price_improvement_max_volume_factor ok_or result_bind].
  - intros [-> ->]. done.
  - intros (-> & -> & ->). done.
  - intros ->. done.
Qed.

Lemma concat_batches {A} fuel size (l : list A) :
  (0 < size)%nat -> (length l <= fuel)%nat -> concat (batches fuel size l) = l.
Proof.
  intros Hsize. revert l. induction fuel as [|fuel IH]; intros [|x l] Hl; try done; [simpl in Hl; lia|].
  cbn [batches concat]. rewrite IH; [apply take_drop|]. rewrite length_drop. cbn in *. lia.
Qed.

(** The batches are stored one after the other: the table grows by all policies, in
    their order. *)
Lemma store_fee_policies_app batch_size auction_id policies table :
  (0 < batch_size)%nat ->
  store_fee_policies batch_size auction_id policies table
  = table ++ (policies ≫= fun e => fee_policy_from_domain auction_id e.1 <$> e.2).
Proof.
  intros Hsize. unfold store_fee_policies, fee_policies_insert_batch.
  assert (Hfold : forall l table,
    foldl (fun table chunk => table ++ (chunk ≫= fun e => fee_policy_from_domain auction_id e.1 <$> e.2)) table l
    = table ++ (concat l ≫= fun e => fee_policy_from_domain auction_id e.1 <$> e.2)).
  { induction l as [|c l IH]; intros t; cbn [foldl concat]; [cbn; by rewrite app_nil_r|].
    by rewrite IH, bind_app, app_assoc. }
  by rewrite Hfold, concat_batches.
Qed.

Definition row_key (r : FeePolicyRow) : Z * Z := (fp_auction_id r, fp_order_uid r).

Lemma fetch_all_lookup keys table k :
  NoDup keys -> k ∈ keys ->
  default [] (fee_policies_fetch_all keys table !! k) = filter (fun r => row_key r = k) table.
Proof.
  intros Hnd Hk. unfold fee_policies_fetch_all.
  assert (Hrow : forall r, (fun _ : Z * Z => r) <$> filter (fun k => k = row_key r) keys
                           = if decide (row_key r ∈ keys) then [r] else []).
  { intros r. case_decide as Hr; [|rewrite filter_none; [done|intros x Hx ->; done]].
    clear Hk. induction keys as [|x keys IH]; [by apply not_elem_of_nil in Hr|].
    apply NoDup_cons in Hnd as [Hx Hnd]. destruct (decide (x = row_key r)) as [->|Hne].
    - rewrite filter_cons_True by done. rewrite filter_none; [done|]. intros y Hy ->. done.
    - rewrite filter_cons_False by done. apply IH; [done|]. apply elem_of_cons in Hr as [E|Hr]; [by rewrite E in Hne|done]. }
  assert (Hfold : forall rows (m : gmap (Z * Z) (list FeePolicyRow)),
    default [] (foldl (fun m r => <[row_key r := default [] (m !! row_key r) ++ [r]]> m) m rows !! k)
    = default [] (m !! k) ++ filter (fun r => row_key r = k) rows).
  { induction rows as [|r rows IH]; intros m; [by rewrite app_nil_r|]. cbn [foldl]. rewrite IH.
    destruct (decide (row_key r = k)) as [<-|Hne].
    - rewrite lookup_insert_eq, filter_cons_True by done. unfold from_option, id. by rewrite <-app_assoc.
    - by rewrite lookup_insert_ne, filter_cons_False by done. }
  cbv zeta. change (fp_auction_id ?r, fp_order_uid ?r) with (row_key r).
  rewrite Hfold, lookup_empty. cbn [default app].
  induction table as [|r table IH]; [done|]. rewrite bind_cons, filter_app, IH, Hrow.
  destruct (decide (row_key r = k)) as [<-|Hne].
  - rewrite decide_True, !filter_cons_True by done. done.
  - rewrite (filter_cons_False _ r) by done. case_decide; [by rewrite filter_cons_False|done].
Qed.

(** The fee policies of an auction survive the database: policies
    stored in batches are fetched per order, in their order, and convert back to the
    same policies, when the order is listed once, none of its policies were stored
    for the auction before, and price improvements refer to the order's quote. *)
Lemma fee_policies_round_trip batch_size auction_id policies table uid ps keys quote :
  (0 < batch_size)%nat -> NoDup policies.*1 -> (uid, ps) ∈ policies -> NoDup keys -> (auction_id, uid) ∈ keys ->
  Forall (fun r => row_key r <> (auction_id, uid)) table -> Forall (policy_ok quote) ps ->
  (fun r => fee_policy_try_into_domain r quote) <$>
    default [] (fee_policies_fetch_all keys (store_fee_policies batch_size auction_id policies table)
                  !! (auction_id, uid))
  = Ok <$> ps.
Proof.
  intros Hb Hnd Hin Hk Hkey Htab Hps. rewrite fetch_all_lookup, store_fee_policies_app, filter_app by done.
  rewrite filter_none by (rewrite Forall_forall in Htab; auto). cbn [app].
  assert (Hrows : forall e p, row_key (fee_policy_from_domain auction_id e p) = (auction_id, e)) by (by intros e []).
  assert (filter (fun r => row_key r = (auction_id, uid))
    (policies ≫= fun e => fee_policy_from_domain auction_id e.1 <$> e.2)
    = fee_policy_from_domain auction_id uid <$> ps) as ->.
  { clear Hps. induction policies as [|[u qs] policies IH]; [by apply not_elem_of_nil in Hin|].
    rewrite fmap_cons in Hnd. apply NoDup_cons in Hnd as [Hu Hnd]. rewrite bind_cons, filter_app. cbn [fst snd].
    apply elem_of_cons in Hin as [[= <- <-]|Hin].
    - rewrite filter_all, filter_none, app_nil_r; [done| |].
      + intros r ([u' qs'] & (p & -> & _)%list_elem_of_fmap & Hu')%list_elem_of_bind. cbn. rewrite Hrows.
        intros [= ->]. apply Hu. apply list_elem_of_fmap. by exists (uid, qs').
      + intros r (p & -> & _)%list_elem_of_fmap. apply Hrows.
    - rewrite IH by done. rewrite filter_none; [done|]. intros r (p & -> & _)%list_elem_of_fmap. rewrite Hrows.
      intros [= ->]. apply Hu, list_elem_of_fmap. by exists (uid, ps). }
  rewrite <-list_fmap_compose. apply list_fmap_ext. intros i p Hp. apply fee_policy_row_round_trip.
  rewrite Forall_forall in Hps. apply Hps. by eapply list_elem_of_lookup_2.
Qed.

(** ** Examples *)
Definition example_terms (buy : Z) : OrderTerms :=
  mkOrderTerms 1 2 (u256_to_big_decimal 1000) (u256_to_big_decimal buy) Sell.
Definition example_entry (solver : address) (winner : bool) : SolutionEntry :=
  mkSolutionEntry (mkBigDecimal 0 0) solver winner false (u256_to_big_decimal 5) [] [].
Definition example_order (uid buy : Z) : DbOrder :=
  mkDbOrder uid (example_terms buy) (u256_to_big_decimal 1000) (u256_to_big_decimal 990).
Definition example_solutions : list DbSolution :=
  [mkDbSolution 1 (example_entry 5 true) [example_order 11 900; example_order 12 800];
   mkDbSolution 0 (example_entry 6 true) [example_order 11 900];
   mkDbSolution 2 (example_entry 6 false) []].
Definition example_db : CompetitionDb := mkCompetitionDb ∅ ∅ ∅ {[ 11 := example_terms 900 ]}.

(** The first order of the first solution is in [orders]; the solution without orders is
    stored and not fetched. *)
Example competition_examples :
  exists db', save 42 example_solutions example_db = Some db' /\
    map_to_list (proposed_jit_orders db') = [(42, 1, 12, example_terms 800)] /\
    option_map (map dbs_uid) (fetch reverse 42 db') = Some [0; 1] /\
    option_map (map dbs_uid) (fetch_solver_winning_solutions reverse 42 6 db') = Some [0] /\
    save 43 [mkDbSolution 2 (example_entry 6 false) []] db' = None.
Proof. eexists. split; [reflexivity|]. split_and!; vm_compute; reflexivity. Qed.

Lemma example_ok : auction_fresh 42 example_db /\ solutions_ok example_db example_solutions.
Proof.
  split; [done|]. split.
  - cbn. repeat constructor; set_solver by lia.
  - intros s Hs. repeat (apply elem_of_cons in Hs as [->|Hs]); [..|by apply not_elem_of_nil in Hs];
      cbn; repeat constructor; set_solver by lia.
  - intros s o terms Hs Ho Ht. cbn [orders_table example_db] in Ht. apply lookup_singleton_Some in Ht as [Hu <-].
    repeat (apply elem_of_cons in Hs as [->|Hs]); [..|by apply not_elem_of_nil in Hs];
      repeat (apply elem_of_cons in Ho as [->|Ho]); try (by apply not_elem_of_nil in Ho); done.
Qed.

Lemma competition_round_trip_witness :
  exists db' fetched, save 42 example_solutions example_db = Some db' /\ fetch reverse 42 db' = Some fetched /\
    StronglySorted Z.lt (dbs_uid <$> fetched) /\
    (forall s', s' ∈ fetched -> exists s, s ∈ example_solutions /\ same_solution s s') /\
    (forall s, s ∈ example_solutions -> dbs_orders s <> [] -> exists s', s' ∈ fetched /\ same_solution s s').
Proof.
  destruct competition_examples as (db' & Hs & _). exists db'.
  destruct (competition_round_trip 42 example_db db' example_solutions reverse (proj1 example_ok) (proj2 example_ok)
    reverse_Permutation Hs) as (fetched & H). exists fetched. split; [exact Hs|exact H].
Defined.
