(* ===== verification/AutopilotAccounting.v ===== *)
(** * AutopilotAccounting: which solution a settlement executed

    [crates/autopilot/src/domain/settlement/mod.rs] and [observer.rs], with
    [get_auction] of [crates/autopilot/src/infra/persistence/mod.rs]: a settlement
    observed on chain is attributed to the winning solution with the same executed
    orders, and accounted for in the auction it was executed in.

    Each query of the database can fail; the rows it returns are those of
    [CompetitionStore]. *)

From stdpp Require Import base gmap sets list strings.
From Stdlib Require Import ZArith Lia SpecFloat Ascii.
From Stdlib Require String.
From S2P Require Import Prelude Collections F64 Eth Liquidity Solution Score Arbitrator Dto Config.
From S2P Require Import DriverOrder OrderModel DriverTrade DriverScore DriverSolution AutopilotBids.
From S2P Require Import DriverEncoding AutopilotSettlement AutopilotTrade CompetitionStore.

Open Scope Z_scope.

(** ** Matching a settlement with a solution *)

Record OrderMatchKey := mkOrderMatchKey { mk_uid : Z; mk_token : address; mk_executed : Z }.

#[global] Instance OrderMatchKey_eq_dec : EqDecision OrderMatchKey.
Proof. solve_decision. Defined.
#[global] Instance OrderMatchKey_countable : Countable OrderMatchKey.
Proof.
  refine (inj_countable' (fun '(mkOrderMatchKey a b c) => (a, b, c)) (fun '(a, b, c) => mkOrderMatchKey a b c) _).
  by intros [].
Defined.

Definition trade_to_key (trade : EncodedTrade) : OrderMatchKey :=
  let '(token, executed) := match et_side trade with
                            | Sell => (asset_token (et_sell trade), asset_amount (et_sell trade))
                            | Buy => (asset_token (et_buy trade), asset_amount (et_buy trade))
                            end in
  let executed := if et_partially_fillable trade then et_executed trade else executed in
  mkOrderMatchKey (et_uid trade) token executed.

Definition order_to_key (order : DbOrder) : OrderMatchKey :=
  let terms := dbo_terms order in
  mkOrderMatchKey (dbo_uid order)
    match ot_side terms with Sell => ot_sell_token terms | Buy => ot_buy_token terms end
    match ot_side terms with
    | Sell => default 0 (big_decimal_to_u256 (dbo_executed_sell order))
    | Buy => default 0 (big_decimal_to_u256 (dbo_executed_buy order))
    end.

Definition keys_of_trades (trades : list EncodedTrade) : gset OrderMatchKey := list_to_set (trade_to_key <$> trades).
Definition keys_of_orders (orders : list DbOrder) : gset OrderMatchKey := list_to_set (order_to_key <$> orders).

Fixpoint find_winning_solution_uid (solver_winning_solutions : list DbSolution) (settled_trades : list EncodedTrade)
  : option Z :=
  match solver_winning_solutions with
  | [] => None
  | solution :: solutions =>
      if bool_decide (keys_of_trades settled_trades = keys_of_orders (dbs_orders solution))
      then Some (dbs_uid solution)
      else find_winning_solution_uid solutions settled_trades
  end.

(** ** The age of a settlement *)

(** [round] and [as u64] of a float: half away from zero, saturating. *)
Definition f64_round_to_u64 (x : f64) : Z :=
  match x with
  | S754_finite false m e =>
      Z.min (2 ^ 64 - 1)
        (if 0 <=? e then Z.shiftl (Zpos m) e else Z.shiftr (Zpos m + Z.shiftl 1 (- e - 1)) (- e))
  | S754_infinity false => 2 ^ 64 - 1
  | _ => 0
  end.

Definition blocks_in (chain : Chain) (time_in_ms : Z) : f64 :=
  f64_div (f64_lit time_in_ms) (f64_lit (block_time_in_ms chain)).

Definition TARGET_AGE : Z := 6 * 60 * 60 * 1000.
Definition max_settlement_age (chain : Chain) : Z := f64_round_to_u64 (blocks_in chain TARGET_AGE).

(** ** The auction of a settlement *)
Inductive AuctionError :=
| AuctionDatabaseError
| AuctionNotFound
| InvalidFeePolicy (e : FeePolicyError) (order : Z)
| InvalidAuctionPrice (token : address).

(** The answers to the queries for an auction; [None] is a failed query. *)
Record AuctionQueries := mkAuctionQueries {
  aq_surplus_capturing_jit_order_owners : option (option (list address));
  aq_prices : option (list (address * BigDecimal));
  aq_order_uids : option (option (list Z));
  aq_fee_policies : list (Z * Z) -> option (gmap (Z * Z) (list FeePolicyRow));
  aq_quotes : list Z -> option (gmap Z Score.Quote);
  aq_start_block : option (option string);
}.

(** [str::parse::<u64>]. *)
Fixpoint parse_digits (s : list ascii) (acc : Z) : option Z :=
  match s with
  | [] => Some acc
  | c :: s =>
      let d := Z.of_N (N_of_ascii c) - 48 in
      if (0 <=? d) && (d <=? 9) && (acc * 10 + d <=? 2 ^ 64 - 1) then parse_digits s (acc * 10 + d) else None
  end.
Definition parse_u64 (s : string) : option Z :=
  match String.list_ascii_of_string s with
  | [] => None
  | c :: rest =>
      if (c =? "+")%char then match rest with [] => None | _ => parse_digits rest 0 end
      else parse_digits (c :: rest) 0
  end.

Definition auction_price (row : address * BigDecimal) : result AuctionError (address * Z) :=
  match big_decimal_to_u256 row.2 with
  | Some p => match Price_try_new p with Ok p => Ok (row.1, p) | Err _ => Err (InvalidAuctionPrice row.1) end
  | None => Err (InvalidAuctionPrice row.1)
  end.

(** [collect] of results. *)
Fixpoint result_map {E A B} (f : A -> result E B) (l : list A) : result E (list B) :=
  match l with
  | [] => Ok []
  | x :: l => letr y := f x in letr ys := result_map f l in Ok (y :: ys)
  end.

Definition order_policies (auction_id : Z) (fee_policies : gmap (Z * Z) (list FeePolicyRow))
  (quotes : gmap Z Score.Quote) (order : Z) : result AuctionError (Z * list Score.FeePolicy) :=
  letr policies := match fee_policies !! (auction_id, order) with
                   | Some policies =>
                       result_map (fun policy => map_err (fun e => InvalidFeePolicy e order)
                                                   (fee_policy_try_into_domain policy (quotes !! order))) policies
                   | None => Ok []
                   end in
  Ok (order, policies).

Definition has_price_improvement (policies : list FeePolicyRow) : bool :=
  existsb (fun p => match fp_kind p with KindPriceImprovement => true | _ => false end) policies.

Definition get_auction (q : AuctionQueries) (auction_id : Z) (trades : list EncodedTrade)
  : result AuctionError SettledAuction :=
  letr owners := ok_or (aq_surplus_capturing_jit_order_owners q) AuctionDatabaseError in
  letr owners := ok_or owners AuctionNotFound in
  letr price_rows := ok_or (aq_prices q) AuctionDatabaseError in
  letr prices := result_map auction_price price_rows in
  letr auction_orders := ok_or (aq_order_uids q) AuctionDatabaseError in
  letr auction_orders := ok_or auction_orders AuctionNotFound in
  let relevant_orders : gset Z :=
    list_to_set (et_uid <$> filter (fun t => et_uid t ∈ (list_to_set auction_orders : gset Z)) trades) in
  letr fee_policies :=
    ok_or (aq_fee_policies q ((fun o => (auction_id, o)) <$> elements relevant_orders)) AuctionDatabaseError in
  letr quotes :=
    ok_or (aq_quotes q ((fun e => e.1.2) <$> filter (fun e => has_price_improvement e.2 = true)
                                               (map_to_list fee_policies))) AuctionDatabaseError in
  letr orders := result_map (order_policies auction_id fee_policies quotes) (elements relevant_orders) in
  letr block := ok_or (aq_start_block q) AuctionDatabaseError in
  letr block := ok_or block AuctionNotFound in
  letr block := ok_or (parse_u64 block) AuctionNotFound in
  Ok (mkSettledAuction auction_id block (foldl (fun m o => <[o.1 := o.2]> m) ∅ orders)
        (foldl (fun m p => <[p.1 := p.2]> m) ∅ prices) (list_to_set owners)).

(** ** Settlements *)
Record Settlement := mkSettlement {
  st_gas : Z;
  st_gas_price : Z;
  st_block : Z;
  st_solver : address;
  st_solution_uid : Z;
  st_auction : SettledAuction;
  st_trades : list SettledTrade;
}.

Inductive SettlementError :=
| Infra
| InconsistentData (e : AuctionError)
| SolutionNotFound
| WrongEnvironment.

Definition settlement_error (e : AuctionError) : SettlementError :=
  match e with AuctionDatabaseError => Infra | e => InconsistentData e end.

(** The two queries run concurrently; when both fail, the auction's error is
    reported here.  Adding to a block number wraps. *)
Definition Settlement_new (settled : Transaction) (auction : result AuctionError SettledAuction)
  (solver_winning_solutions : option (list DbSolution)) (chain : Chain) : result SettlementError Settlement :=
  letr auction := map_err settlement_error auction in
  letr solver_winning_solutions := ok_or solver_winning_solutions Infra in
  if (sa_block auction + max_settlement_age chain) mod 2 ^ 64 <? tr_block settled then Err WrongEnvironment
  else
    letr solution_uid :=
      ok_or (find_winning_solution_uid solver_winning_solutions (tr_trades settled)) SolutionNotFound in
    Ok (mkSettlement (tr_gas settled) (tr_gas_price settled) (tr_block settled) (tr_solver settled) solution_uid
          auction ((fun trade => SettledTrade_new trade auction (tr_timestamp settled)) <$> tr_trades settled)).

Definition unwrap_or_zero {E} (r : result E Z) : Z := match r with Ok x => x | Err _ => 0 end.

Definition Settlement_surplus_in_ether (s : Settlement) : Z :=
  foldl saturating_add 0
    ((fun t => unwrap_or_zero (SettledTrade_surplus_in_ether t (sa_prices (st_auction s)))) <$> st_trades s).

Definition Settlement_fee_in_ether (s : Settlement) : Z :=
  foldl saturating_add 0
    ((fun t => unwrap_or_zero (SettledTrade_fee_in_ether t (sa_prices (st_auction s)))) <$> st_trades s).

Definition Settlement_fee_breakdown (u256_from_f64 : f64 -> Z) (biguint_from_f64 : f64 -> option Z)
  (s : Settlement) : gmap Z FeeBreakdown :=
  foldl (fun m t =>
           <[SettledTrade_uid t :=
               match SettledTrade_fee_breakdown u256_from_f64 biguint_from_f64 t (st_auction s) with
               | Ok breakdown => breakdown
               | Err _ => mkFeeBreakdown (mkAsset (SettledTrade_sell_token t) 0) []
               end]> m) ∅ (st_trades s).

Definition Settlement_jit_orders (s : Settlement) : list SettledJit := omap as_jit (st_trades s).

(** ** The observer *)

(** [Err] is an error worth retrying; [None] marks the settlement as processed without
    data. *)
Definition fetch_auction_data_for_transaction
  (transaction : option (comp (result TransactionError Transaction)))
  (settlement_new : Transaction -> result SettlementError Settlement) : comp (result () (option Settlement)) :=
  match transaction with
  | None => Ret (Err ())
  | Some transaction =>
      let! transaction := transaction in
      Ret match transaction with
          | Ok transaction =>
              match settlement_new transaction with
              | Ok settlement => Ok (Some settlement)
              | Err Infra => Err ()
              | Err _ => Ok None
              end
          | Err Authentication => Err ()
          | Err _ => Ok None
          end
  end.

Definition MAX_RETRIES : nat := 5.

(** [retry_with_sleep]: [future n] is the outcome of the n-th call. *)
Fixpoint retry_loop {E A} (fuel tries : nat) (future : nat -> result E A) (errors : list E) : result (list E) A :=
  match fuel with
  | O => Err errors
  | S fuel =>
      match future tries with
      | Ok res => Ok res
      | Err err => retry_loop fuel (S tries) future (errors ++ [err])
      end
  end.
Definition retry_with_sleep {E A} (future : nat -> result E A) : result (list E) A :=
  retry_loop MAX_RETRIES 0 future [].

(** ** Six hours of blocks *)
Lemma max_settlement_age_exact chain : max_settlement_age chain * block_time_in_ms chain = TARGET_AGE.
Proof. destruct chain; vm_compute; reflexivity. Qed.

Lemma max_settlement_age_nonneg chain : 0 <= max_settlement_age chain.
Proof. by destruct chain; vm_compute. Qed.

(** ** The keys of a settlement *)

Local Arguments big_decimal_to_u256 : simpl never.
Local Arguments u256_to_big_decimal : simpl never.

(** A trade the driver may build: the amounts are unsigned, a user order is filled as
    [Fulfillment::new] demands, a just-in-time order as [Jit::new] demands. *)
Definition trade_exact (t : Trade) : Prop :=
  match t with
  | TradeFulfillment f => 0 <= f_executed f /\ 0 <= Fulfillment_fee f /\ fulfillment_valid f
  | TradeJit j => 0 <= jit_executed j /\ 0 <= jit_fee j /\
      Jit_new (jit_order j) (jit_executed j) (jit_fee j) = Ok j
  end.

(** The amount a key holds for a trade: what the contract reports as executed. *)
Definition trade_key_amount (t : Trade) : Z :=
  match t with
  | TradeFulfillment f => f_executed f + fee_in_target (f_order f) (f_fee f)
  | TradeJit j => Jit_target (jit_order j)
  end.

Lemma fulfillment_executed f :
  trade_exact (TradeFulfillment f) ->
  encoded_executed (TradeFulfillment f) = trade_key_amount (TradeFulfillment f) /\
  0 <= trade_key_amount (TradeFulfillment f) <= U256_MAX /\
  (order_partial (f_order f) = PartialNo -> trade_key_amount (TradeFulfillment f) = target (f_order f)).
Proof.
  intros (He & Hf & Hle & Hv & _). cbn [encoded_executed trade_key_amount].
  assert (Hfee : 0 <= fee_in_target (f_order f) (f_fee f)).
  { unfold fee_in_target, Fulfillment_fee in *. destruct (order_side _); [lia|]. by destruct (f_fee f). }
  split_and!; [|lia|done|].
  - unfold fee_in_target, Fulfillment_fee in *. destruct (order_side _); [lia|].
    unfold wrapping_add. rewrite Z.mod_small; [by destruct (f_fee f)|].
    unfold U256_MAX in Hle. destruct (f_fee f); lia.
  - intros Hp. unfold valid_execution in Hv. rewrite Hp in Hv. by apply Z.eqb_eq.
Qed.

Lemma jit_executed_amount j :
  trade_exact (TradeJit j) ->
  0 <= Jit_target (jit_order j) <= U256_MAX /\
  match jo_side (jit_order j) with
  | Sell => Jit_executed_sell j = Ok (Jit_target (jit_order j))
  | Buy => Jit_executed_buy j = Ok (Jit_target (jit_order j))
  end.
Proof.
  intros (He & Hf & Hj). unfold Jit_new in Hj.
  apply result_bind_Ok in Hj as (w & [-> Hw]%ok_or_Ok%checked_add_Some & Hj).
  cbn [Jit_partial] in Hj. destruct (Z.eqb_spec (jit_executed j +
    match jo_side (jit_order j) with Buy => 0 | Sell => jit_fee j end) (Jit_target (jit_order j))) as [E|]; [|done].
  rewrite <-E. unfold Jit_executed_sell, Jit_executed_buy. destruct (jo_side _).
  - rewrite Z.add_0_r in *. done.
  - split; [lia|]. by apply ok_or_Ok, checked_add_Some.
Qed.

Lemma observed_amounts s t d : observed s t d -> exists am, trade_amounts s t = Ret am.
Proof.
  intros Ho. destruct t as [f|j]; cbn [trade_amounts]; [|by eexists].
  destruct (obs_custom _ _ _ Ho) as (sell & buy & Hs & Hb & _). unfold index_price. cbn [Trade_sell Trade_buy].
  rewrite Hs, Hb. by eexists.
Qed.

(** The order of the bid and the trade on chain have the same key. *)
Lemma key_agrees s t d am :
  observed s t d -> trade_exact t -> trade_amounts s t = Ret am ->
  order_to_key (bid_order (Trade_uid t) (TradedOrder_into_domain (traded_order_dto am))) = trade_to_key d.
Proof.
  intros Ho Hex Ham.
  assert (Hd : trade_to_key d = mkOrderMatchKey (Trade_uid t)
    match Trade_side t with Sell => sell_token_of t | Buy => buy_token_of t end (trade_key_amount t)).
  { unfold trade_to_key. destruct Ho as [-> -> -> -> -> _ _ -> _ _].
    destruct t as [f|j].
    - destruct (fulfillment_executed f Hex) as (-> & _ & Hno). cbn [trade_order_data od_partially_fillable].
      destruct (order_partial (f_order f)); cbn [Trade_side]; [by destruct (order_side (f_order f))|].
      rewrite (Hno eq_refl). unfold target. by destruct (order_side (f_order f)) eqn:E; cbn; rewrite ?E.
    - cbn. unfold Jit_target. by destruct (jo_side (jit_order j)). }
  rewrite Hd. unfold order_to_key, bid_order. cbn [dbo_uid dbo_terms dbo_executed_sell dbo_executed_buy].
  destruct t as [f|j].
  - rewrite (reported_custom s f am _ Ham (obs_custom _ _ _ Ho)). cbn.
    destruct (fulfillment_executed f Hex) as (He & Hr & _).
    rewrite (encoded_consistent s f _ (proj1 Hex) (proj1 (proj2 Hex)) (obs_custom _ _ _ Ho)) in He.
    destruct (order_side (f_order f)); rewrite He, big_decimal_round_trip by done; done.
  - injection Ham as <-. cbn. destruct (jit_executed_amount j Hex) as [Hr Ha].
    destruct (jo_side (jit_order j)); rewrite Ha; cbn; rewrite big_decimal_round_trip by done; done.
Qed.

(** ** Attribution *)
Lemma find_winning_spec solutions trades :
  match find_winning_solution_uid solutions trades with
  | Some u => exists s, s ∈ solutions /\ dbs_uid s = u /\ keys_of_trades trades = keys_of_orders (dbs_orders s)
  | None => forall s, s ∈ solutions -> keys_of_trades trades <> keys_of_orders (dbs_orders s)
  end.
Proof.
  induction solutions as [|s l IH]; cbn [find_winning_solution_uid]; [intros s []%not_elem_of_nil|].
  case_bool_decide as Hk; [exists s; set_solver|].
  destruct (find_winning_solution_uid l trades) as [u|].
  - destruct IH as (s' & Hs' & Hu). exists s'. rewrite elem_of_cons. auto.
  - intros s' [->|Hs']%elem_of_cons; auto.
Qed.

Lemma keys_of_orders_perm l k : l ≡ₚ k -> keys_of_orders l = keys_of_orders k.
Proof. intros Hp. unfold keys_of_orders. apply leibniz_equiv. by rewrite Hp. Qed.

(** The orders of a bid, as the driver's response listed them. *)
Definition bid_of (s : DriverSolution.Solution) (b : Bid Ranked) : Prop :=
  exists m, settlement_orders s = Ret m /\
    bs_orders (bid_solution b) = TradedOrder_into_domain <$> (traded_order_dto <$> m).

Lemma bid_keys s b uid trades :
  bid_of s b -> NoDup (Trade_uid <$> sol_trades s) -> Forall2 (observed s) (sol_trades s) trades ->
  Forall trade_exact (sol_trades s) ->
  keys_of_orders (dbs_orders (bid_row uid b)) = keys_of_trades trades.
Proof.
  intros (m & Hm & Hb) Hnd Hobs Hex.
  assert (Hams : exists ams, comp_map (trade_amounts s) (sol_trades s) = Ret ams).
  { clear -Hobs. induction Hobs as [|t d ts ds Ho _ (ams & IH)]; [by exists []|].
    destruct (observed_amounts s t d Ho) as [am Ham]. exists (am :: ams). cbn [comp_map]. rewrite Ham.
    cbn [comp_bind]. by rewrite IH. }
  destruct Hams as (ams & Hams).
  destruct (settlement_orders_loop_spec s (sol_trades s) ams ∅ Hnd) as (m' & Hm' & Hp);
    [intros; apply lookup_empty|done|].
  unfold settlement_orders in Hm. rewrite Hm in Hm'. injection Hm' as <-. rewrite map_to_list_empty, app_nil_r in Hp.
  cbn [dbs_orders bid_row]. rewrite Hb, !map_to_list_fmap, <-!list_fmap_compose.
  unfold keys_of_orders, keys_of_trades. apply leibniz_equiv. rewrite Hp.
  match goal with |- list_to_set ?l ≡ list_to_set ?k => assert (l = k) as ->; [|done] end.
  apply comp_map_Ret in Hams. clear -Hams Hobs Hex. revert trades Hobs.
  induction Hams as [|t am ts ams Ham Hams IH]; intros trades Hobs; [by apply Forall2_nil_inv_l in Hobs as ->|].
  apply Forall2_cons_inv_l in Hobs as (d & ds & Ho & Hobs & ->). apply Forall_cons in Hex as [Ht Hex].
  change (zip (Trade_uid <$> t :: ts) (am :: ams)) with ((Trade_uid t, am) :: zip (Trade_uid <$> ts) ams).
  rewrite !fmap_cons, (IH Hex ds Hobs). f_equal.
  by apply (key_agrees s).
Qed.

(** The orders of the bids that the [orders] table knows have their terms there. *)
Definition bids_known (db : CompetitionDb) (bids : list (Bid Ranked)) : Prop :=
  forall b uid o terms, b ∈ bids -> bs_orders (bid_solution b) !! uid = Some o ->
    orders_table db !! uid = Some terms -> terms = dbo_terms (bid_order uid o).

Lemma bid_rows_elem bids r :
  r ∈ imap bid_row bids <-> exists i b, bids !! i = Some b /\ r = bid_row i b.
Proof.
  rewrite list_elem_of_lookup. setoid_rewrite list_lookup_imap. split.
  - intros (i & Hi). destruct (bids !! i) as [b|] eqn:E; [|done]. injection Hi as <-. eauto.
  - intros (i & b & Hb & ->). exists i. by rewrite Hb.
Qed.

Lemma bid_rows_ok db bids : bids_known db bids -> solutions_ok db (imap bid_row bids).
Proof.
  intros Hk. split.
  - apply NoDup_alt. intros i j x. rewrite !list_lookup_fmap, !list_lookup_imap.
    destruct (bids !! i), (bids !! j); try done. cbn. intros [= <-] [= E]. lia.
  - intros r (i & b & _ & ->)%bid_rows_elem. cbn [dbs_orders bid_row]. rewrite <-list_fmap_compose.
    rewrite (list_fmap_ext _ fst); [apply NoDup_fst_map_to_list|done].
  - intros r o terms (i & b & Hb & ->)%bid_rows_elem Ho Ht. cbn [dbs_orders bid_row] in Ho.
    apply list_elem_of_fmap in Ho as ([uid to] & -> & Hin%elem_of_map_to_list).
    apply (Hk b uid to terms); [by eapply list_elem_of_lookup_2|done|done].
Qed.

Section attribution.
Context (arrange : list SolutionRow -> list SolutionRow) (Harrange : forall rows, arrange rows ≡ₚ rows).

(** C15 (refinement): a settlement is attributed to the solution it executed.  The bids of
    an auction are saved; the autopilot observes a transaction with the trades of the
    solution behind a winning bid, all filled as the driver's constructors demand.
    Whatever order the database returns its rows in, the settlement is recorded with
    that bid's position as solution uid, in that auction, with each trade accounted
    for, provided that no other winning bid of the solver executes the same orders in
    the same amounts and that the settlement is at most six hours of blocks older
    than the auction. *)
Theorem settlement_attributed auction_id db db' bids i b s settled auction chain :
  auction_fresh auction_id db -> bids_known db bids ->
  persistence_save_solutions auction_id bids db = Some db' ->
  bids !! i = Some b -> bid_is_winner b = true -> bs_solver (bid_solution b) = tr_solver settled ->
  bid_of s b -> sol_trades s <> [] -> NoDup (Trade_uid <$> sol_trades s) -> Forall trade_exact (sol_trades s) ->
  Forall2 (observed s) (sol_trades s) (tr_trades settled) ->
  (forall j b', bids !! j = Some b' -> bid_is_winner b' = true -> bs_solver (bid_solution b') = tr_solver settled ->
     keys_of_orders (dbs_orders (bid_row j b')) = keys_of_orders (dbs_orders (bid_row i b)) -> j = i) ->
  0 <= sa_block auction -> sa_block auction + max_settlement_age chain < 2 ^ 64 ->
  tr_block settled <= sa_block auction + max_settlement_age chain ->
  Settlement_new settled (Ok auction) (fetch_solver_winning_solutions arrange auction_id (tr_solver settled) db') chain
  = Ok (mkSettlement (tr_gas settled) (tr_gas_price settled) (tr_block settled) (tr_solver settled) (Z.of_nat i)
          auction ((fun trade => SettledTrade_new trade auction (tr_timestamp settled)) <$> tr_trades settled)).
Proof.
  intros Hfresh Hknown Hsave Hb Hwin Hsolver Hbid Hne Hnd Hex Hobs Huniq Hb0 Hfit Hage.
  unfold persistence_save_solutions in Hsave. destruct (_ <=? _); [|done].
  destruct (fetch_winning_saved auction_id db db' _ arrange (tr_solver settled) Hfresh (bid_rows_ok db bids Hknown)
    Harrange Hsave) as (fetched & -> & Hsel). destruct Hsel as (_ & Hfrom & Hto).
  unfold Settlement_new. cbn [map_err ok_or result_bind].
  rewrite Z.mod_small by (pose proof (max_settlement_age_nonneg chain); lia).
  rewrite (proj2 (Z.ltb_ge _ _)) by done.
  pose proof (bid_keys s b i (tr_trades settled) Hbid Hnd Hobs Hex) as Hkeys.
  assert (Hin : exists r, r ∈ fetched /\ same_solution (bid_row i b) r).
  { apply Hto; [apply bid_rows_elem; eauto| |].
    - cbn. by rewrite Hsolver, Z.eqb_refl, Hwin.
    - intros Hnil. rewrite Hnil in Hkeys. destruct Hobs as [|t d ts ds]; [done|]. unfold keys_of_trades in Hkeys.
      cbn in Hkeys. set_solver. }
  pose proof (find_winning_spec fetched (tr_trades settled)) as Hfind.
  destruct (find_winning_solution_uid fetched (tr_trades settled)) as [u|].
  - destruct Hfind as (r & Hr & <- & Hrk). cbn [ok_or result_bind]. do 2 f_equal.
    apply Hfrom in Hr as (r' & Hr' & Hq & Hu & _ & Ho). apply bid_rows_elem in Hr' as (j & b' & Hb' & ->).
    rewrite Hu. cbn [dbs_uid bid_row]. f_equal. apply andb_true_iff in Hq as [Hs Hw]. cbn in Hs, Hw.
    apply (Huniq j b' Hb' Hw); [by apply Z.eqb_eq|]. by rewrite <-(keys_of_orders_perm _ _ Ho), <-Hrk, Hkeys.
  - destruct Hin as (r & Hr & _ & _ & Ho). destruct (Hfind r Hr).
    by rewrite (keys_of_orders_perm _ _ Ho), Hkeys.
Qed.
End attribution.

(** ** The auction of a settlement *)
Lemma result_map_Ok {E A B} (f : A -> result E B) l k :
  result_map f l = Ok k <-> Forall2 (fun x y => f x = Ok y) l k.
Proof.
  revert k. induction l as [|x l IH]; intros k; cbn [result_map].
  { split; [intros [= <-]; constructor|by intros ->%Forall2_nil_inv_l]. }
  split.
  - intros H. apply result_bind_Ok in H as (y & Hy & H). apply result_bind_Ok in H as (ys & Hys%IH & H).
    injection H as <-. by constructor.
  - intros (y & ys & Hy & Hys%IH & ->)%Forall2_cons_inv_l. rewrite Hy. cbn [result_bind]. by rewrite Hys.
Qed.

Lemma foldl_insert_lookup {V} (l : list (Z * V)) (m : gmap Z V) k :
  NoDup l.*1 ->
  foldl (fun m o => <[o.1 := o.2]> m) m l !! k = match (list_to_map l : gmap Z V) !! k with Some v => Some v | None => m !! k end.
Proof.
  revert m. induction l as [|[k' v] l IH]; intros m Hnd; cbn [foldl list_to_map foldr].
  { by rewrite lookup_empty. }
  rewrite fmap_cons in Hnd. apply NoDup_cons in Hnd as [Hk Hnd]. rewrite IH by done. cbn [fst snd uncurry].
  destruct (decide (k' = k)) as [->|Hne].
  - rewrite lookup_insert_eq. rewrite (not_elem_of_list_to_map_1 l k Hk). by rewrite lookup_insert_eq.
  - rewrite !lookup_insert_ne by done. done.
Qed.

Lemma result_map_fmap {E E' A B} (g : A -> result E B) (h : E -> E') l k :
  g <$> l = Ok <$> k -> result_map (fun x => map_err h (g x)) l = Ok k.
Proof.
  revert k. induction l as [|x l IH]; intros [|y k] H; try done. rewrite !fmap_cons in H. injection H as Hx H.
  cbn [result_map]. rewrite Hx. cbn [map_err result_bind]. by rewrite (IH k H).
Qed.

Lemma order_policies_fst auction_id fee_policies quotes o r :
  order_policies auction_id fee_policies quotes o = Ok r -> r.1 = o.
Proof. unfold order_policies. intros H. by apply result_bind_Ok in H as (ps & _ & [= <-]). Qed.

(** The orders of the auction that were settled, with their policies. *)
Lemma get_auction_orders q auction_id trades auction :
  get_auction q auction_id trades = Ok auction ->
  exists uids fee_policies quotes,
    aq_order_uids q = Some (Some uids) /\
    let relevant : gset Z := list_to_set (et_uid <$> filter (fun t => et_uid t ∈ (list_to_set uids : gset Z)) trades) in
    aq_fee_policies q ((fun o => (auction_id, o)) <$> elements relevant) = Some fee_policies /\
    aq_quotes q ((fun e => e.1.2) <$> filter (fun e => has_price_improvement e.2 = true) (map_to_list fee_policies))
      = Some quotes /\
    forall o, if decide (o ∈ relevant)
              then exists ps, order_policies auction_id fee_policies quotes o = Ok (o, ps) /\
                              sa_orders auction !! o = Some ps
              else sa_orders auction !! o = None.
Proof.
  unfold get_auction. intros H. do 4 apply result_bind_Ok in H as (? & _ & H).
  apply result_bind_Ok in H as (o1 & Ho1%ok_or_Ok & H). apply result_bind_Ok in H as (uids & Huids%ok_or_Ok & H).
  cbv zeta in H. set (relevant := list_to_set _) in H.
  apply result_bind_Ok in H as (fps & Hfps%ok_or_Ok & H). apply result_bind_Ok in H as (quotes & Hq%ok_or_Ok & H).
  apply result_bind_Ok in H as (orders & Hor & H). do 3 apply result_bind_Ok in H as (? & _ & H).
  injection H as <-. cbn [sa_orders]. exists uids, fps, quotes. split; [by rewrite Ho1, Huids|]. cbv zeta.
  fold relevant. split_and!; [done|done|]. intros o. apply result_map_Ok in Hor.
  assert (Hfst : orders.*1 = elements relevant).
  { clear -Hor. induction Hor as [|x y l k Hy _ IH]; [done|]. rewrite fmap_cons, IH. f_equal.
    by eapply order_policies_fst. }
  rewrite foldl_insert_lookup by (rewrite Hfst; apply NoDup_elements).
  case_decide as Ho.
  - apply elem_of_elements, list_elem_of_lookup in Ho as [i Hi].
    destruct (Forall2_lookup_l _ _ _ _ _ Hor Hi) as ([o' ps] & Hl & Hps).
    apply order_policies_fst in Hps as Ho'. cbn in Ho'. subst o'. exists ps. split; [done|].
    rewrite (elem_of_list_to_map_1 orders o ps); [done|rewrite Hfst; apply NoDup_elements|].
    by eapply list_elem_of_lookup_2.
  - rewrite (not_elem_of_list_to_map_1 orders o); [apply lookup_empty|]. rewrite Hfst. by rewrite elem_of_elements.
Qed.

Lemma query_keys_NoDup (auction_id : Z) (relevant : gset Z) : NoDup ((fun o => (auction_id, o)) <$> elements relevant).
Proof. apply (NoDup_fmap_2 _). apply NoDup_elements. Qed.

Lemma query_keys_elem (auction_id : Z) (relevant : gset Z) o :
  (auction_id, o) ∈ ((fun o => (auction_id, o)) <$> elements relevant) <-> o ∈ relevant.
Proof. rewrite list_elem_of_fmap. setoid_rewrite elem_of_elements. naive_solver. Qed.

(** A settlement is accounted with the fee policies of its auction.  When
    the policies of the auction's orders were stored in batches, with price improvements
    referring to the quotes in the database, then reading the auction gives each settled
    order of the auction exactly its policies, in their order, and knows no other order,
    so that every trade outside of the auction is classified as just-in-time. *)
Theorem get_auction_policies q auction_id trades auction uids batch_size policies table trade created :
  get_auction q auction_id trades = Ok auction -> aq_order_uids q = Some (Some uids) ->
  (forall keys, aq_fee_policies q keys
     = Some (fee_policies_fetch_all keys (store_fee_policies batch_size auction_id policies table))) ->
  (0 < batch_size)%nat -> NoDup policies.*1 -> policies.*1 ≡ₚ uids ->
  Forall (fun r => fp_auction_id r <> auction_id) table ->
  (forall o ps l quotes, (o, ps) ∈ policies -> aq_quotes q l = Some quotes -> Forall (policy_ok (quotes !! o)) ps) ->
  trade ∈ trades ->
  (forall ps, (et_uid trade, ps) ∈ policies -> sa_orders auction !! et_uid trade = Some ps) /\
  (is_Some (as_jit (SettledTrade_new trade auction created)) <-> et_uid trade ∉ uids).
Proof.
  intros Hget Huids Hfetch Hb Hnd Hperm Htab Hok Hin.
  destruct (get_auction_orders _ _ _ _ Hget) as (uids' & fps & quotes & Hu & Hf & Hq & Hall).
  rewrite Huids in Hu. injection Hu as <-. cbv zeta in *. set (relevant := list_to_set _) in *.
  assert (Hrel : et_uid trade ∈ relevant <-> et_uid trade ∈ uids).
  { unfold relevant. rewrite elem_of_list_to_set, list_elem_of_fmap. setoid_rewrite list_elem_of_filter.
    setoid_rewrite elem_of_list_to_set. split; [intros (t & -> & Ht & _); done|intros Hu; by exists trade]. }
  specialize (Hall (et_uid trade)). rewrite Hfetch in Hf. injection Hf as <-.
  assert (Hpol : forall ps, (et_uid trade, ps) ∈ policies -> sa_orders auction !! et_uid trade = Some ps).
  { intros ps Hps.
    assert (Hr : et_uid trade ∈ relevant).
    { apply Hrel. rewrite <-Hperm. apply list_elem_of_fmap. by exists (et_uid trade, ps). }
    rewrite decide_True in Hall by done. destruct Hall as (ps' & Hop & ->). f_equal.
    pose proof (fee_policies_round_trip batch_size auction_id policies table (et_uid trade) ps _ (quotes !! et_uid trade)
      Hb Hnd Hps (query_keys_NoDup auction_id relevant) (proj2 (query_keys_elem auction_id relevant _) Hr)) as Hrt.
    apply result_bind_Ok in Hop as (ps'' & Hm & [= <-]). revert Hm Hrt.
    destruct (fee_policies_fetch_all _ _ !! _) as [rows|]; cbn [from_option id].
    - intros Hm Hrt. apply result_map_fmap with (h := fun e => InvalidFeePolicy e (et_uid trade)) in Hrt; [congruence| |].
      + eapply Forall_impl; [exact Htab|]. intros r Hr' [= E _]. done.
      + by eapply Hok.
    - intros [= <-] Hrt. destruct ps as [|p ps]; [done|]. discriminate Hrt;
      [eapply Forall_impl; [exact Htab|]; intros r Hr' [= E _]; done|by eapply Hok]. }
  split; [done|]. unfold SettledTrade_new. rewrite <-Hrel. case_decide as Hr.
  - destruct Hall as (ps & _ & ->). cbn. split; [by intros [? ?]|done].
  - rewrite Hall. cbn. split; [done|by eexists].
Qed.

(** ** Retries *)
Lemma retry_loop_spec {E A} fuel tries (future : nat -> result E A) errors :
  match retry_loop fuel tries future errors with
  | Ok res => exists n, (n < fuel)%nat /\ future (tries + n)%nat = Ok res /\
      forall k, (k < n)%nat -> exists e, future (tries + k)%nat = Err e
  | Err errs => exists new, errs = errors ++ new /\ length new = fuel /\
      forall k e, new !! k = Some e -> future (tries + k)%nat = Err e
  end.
Proof.
  revert tries errors. induction fuel as [|fuel IH]; intros tries errors; cbn [retry_loop].
  { exists []. by rewrite app_nil_r. }
  destruct (future tries) as [a|e] eqn:Hf.
  { exists O. rewrite Nat.add_0_r. split_and!; [lia|done|lia]. }
  specialize (IH (S tries) (errors ++ [e])). destruct (retry_loop fuel (S tries) future (errors ++ [e])) as [a|errs].
  - destruct IH as (n & Hn & Ha & Hk). exists (S n). rewrite <-Nat.add_succ_comm. split_and!; [lia|done|].
    intros [|k] Hlt; [exists e; by rewrite Nat.add_0_r|]. rewrite <-Nat.add_succ_comm. apply Hk. lia.
  - destruct IH as (new & -> & Hlen & Hk). exists (e :: new). rewrite <-app_assoc. split_and!; [done|cbn; lia|].
    intros [|k] e' Hl; [injection Hl as <-; by rewrite Nat.add_0_r|]. rewrite <-Nat.add_succ_comm. by apply Hk.
Qed.

(** A settlement is processed when one of five attempts succeeds.
    [retry_with_sleep] returns the first success among the first five calls, and gives up
    with exactly five errors, those of the five calls in order, when there is none. *)
Theorem retry_first_success {E A} (future : nat -> result E A) :
  match retry_with_sleep future with
  | Ok res => exists n, (n < 5)%nat /\ future n = Ok res /\ forall k, (k < n)%nat -> exists e, future k = Err e
  | Err errs => length errs = 5%nat /\ forall k e, errs !! k = Some e -> future k = Err e
  end.
Proof.
  pose proof (retry_loop_spec MAX_RETRIES 0 future []) as H. unfold retry_with_sleep.
  destruct (retry_loop _ _ _ _) as [a|errs]; [exact H|]. by destruct H as (new & -> & Hlen & Hk).
Qed.

(** ** Examples *)
Definition presigned_bid : Bid Ranked :=
  mkBid (mkBidSolution 1 5 {[ presigned_uid := mkTradedOrder Sell (mkAsset 1 1000) (mkAsset 2 900) 1000 990 ]}
           (<[1 := 100]> {[2 := 100]})) "driver" (mkRanked Winner 1080).
Definition presigned_db : CompetitionDb := mkCompetitionDb ∅ ∅ ∅ ∅.
Definition presigned_transaction : Transaction := mkTransaction 8 42 1000 2000 21000 7 5 [presigned_trade].

Lemma presigned_saved : exists db', persistence_save_solutions 42 [presigned_bid] presigned_db = Some db'.
Proof. by eexists. Qed.

Lemma presigned_exact : Forall trade_exact (sol_trades presigned_solution).
Proof.
  repeat constructor; try (vm_compute; congruence).
Qed.

Lemma settlement_attributed_witness : exists db',
  Settlement_new presigned_transaction (Ok presigned_auction)
    (fetch_solver_winning_solutions reverse 42 5 db') Mainnet
  = Ok (mkSettlement 21000 7 1000 5 0 presigned_auction [SettledTrade_new presigned_trade presigned_auction 2000]).
Proof.
  destruct presigned_saved as [db' Hdb]. exists db'.
  apply (settlement_attributed reverse reverse_Permutation 42 presigned_db db' [presigned_bid] 0 presigned_bid
    presigned_solution presigned_transaction presigned_auction Mainnet).
  - intros u o. split_and!; reflexivity.
  - by intros b uid o terms _ _ ?.
  - exact Hdb.
  - reflexivity.
  - reflexivity.
  - reflexivity.
  - eexists. split; vm_compute; reflexivity.
  - discriminate.
  - apply NoDup_singleton.
  - exact presigned_exact.
  - constructor; [exact presigned_observed|constructor].
  - intros [|j] b' Hb' _ _ _; [reflexivity|discriminate Hb'].
  - vm_compute. discriminate.
  - vm_compute. reflexivity.
  - vm_compute. discriminate.
Defined.

Definition presigned_queries : AuctionQueries :=
  mkAuctionQueries (Some (Some [])) (Some [(2, mkBigDecimal 1 (-18))]) (Some (Some [presigned_uid; 7]))
    (fun keys => Some (fee_policies_fetch_all keys
       (store_fee_policies 1 42 [(7, []); (presigned_uid, [Score.Volume half])] [])))
    (fun _ => Some ∅) (Some (Some "990")).

Lemma presigned_auction_read :
  exists auction, get_auction presigned_queries 42 [presigned_trade] = Ok auction /\ sa_block auction = 990 /\
    sa_prices auction !! 2 = Some (10 ^ 18).
Proof. eexists. split; [vm_compute; reflexivity|]. by vm_compute. Qed.

Lemma get_auction_policies_witness : exists auction,
  get_auction presigned_queries 42 [presigned_trade] = Ok auction /\
  (forall ps, (presigned_uid, ps) ∈ [(7, []); (presigned_uid, [Score.Volume half])] ->
     sa_orders auction !! presigned_uid = Some ps) /\
  (is_Some (as_jit (SettledTrade_new presigned_trade auction 2000)) <-> (presigned_uid ∉ [presigned_uid; 7])).
Proof.
  destruct presigned_auction_read as (auction & Ha & _). exists auction. split; [exact Ha|].
  apply (get_auction_policies presigned_queries 42 [presigned_trade] auction [presigned_uid; 7] 1
    [(7, []); (presigned_uid, [Score.Volume half])] [] presigned_trade 2000 Ha).
  - reflexivity.
  - reflexivity.
  - lia.
  - apply NoDup_cons. split; [|apply NoDup_singleton]. intros Hin%list_elem_of_singleton. discriminate Hin.
  - apply Permutation_swap.
  - constructor.
  - assert (factor_ok half) by (vm_compute; reflexivity).
    intros o ps l quotes [E|Hin]%elem_of_cons _; [apply pair_equal_spec in E as [_ ->]; constructor|].
    apply list_elem_of_singleton, pair_equal_spec in Hin as [_ ->]. constructor; [assumption|constructor].
  - apply list_elem_of_singleton. reflexivity.
Defined.
