(* ===== verification/AppData.v ===== *)
(** * AppData: the documents orders commit to

    [crates/app-data/src/app_data.rs] and [hooks.rs], and the registry of full app
    data of [crates/orderbook/src/app_data.rs] on its table
    ([crates/database/src/app_data.rs], [crates/orderbook/src/database/app_data.rs]).

    A document is a string of bytes.  Keccak, the check that bytes are UTF-8, the JSON
    reader that produces the root object and the IPFS client are parameters; the enums
    that the hand-written deserializers match on are types here. *)

From stdpp Require Import base gmap sets list strings.
From Stdlib Require Import ZArith Lia.
From S2P Require Import Prelude Collections Eth.

Open Scope Z_scope.

(** ** Hooks *)
Record Hook := mkHook { hook_target : address; hook_call_data : list Z; hook_gas_limit : Z }.
Record Hooks := mkHooks { hooks_pre : list Hook; hooks_post : list Hook }.

Definition u64_saturating_add (a b : Z) : Z := Z.min (a + b) (2 ^ 64 - 1).

Definition hooks_gas_limit (hooks : Hooks) : Z :=
  foldl (fun total hook => u64_saturating_add total (hook_gas_limit hook)) 0
    (hooks_pre hooks ++ hooks_post hooks).

(** ** Protocol app data *)
Record Flashloan := mkFlashloan {
  fl_liquidity_provider : address;
  fl_protocol_adapter : address;
  fl_receiver : address;
  fl_token : address;
  fl_amount : Z;
}.
Record AppWrapperCall := mkAppWrapperCall { aw_address : address; aw_data : list Z; aw_is_omittable : bool }.

Inductive PartnerFeePolicy :=
| PartnerSurplus (bps max_volume_bps : Z)
| PartnerPriceImprovement (bps max_volume_bps : Z)
| PartnerVolume (bps : Z).

(** The untagged helper of [FeePolicy::deserialize]. *)
Inductive FeePolicyHelper :=
| HelperSurplus (surplus_bps max_volume_bps : Z)
| HelperPriceImprovement (price_improvement_bps max_volume_bps : Z)
| HelperVolume (volume_bps : Z)
| HelperVolumeOld (bps : Z).

Definition FeePolicy_deserialize (h : FeePolicyHelper) : PartnerFeePolicy :=
  match h with
  | HelperSurplus surplus_bps max_volume_bps => PartnerSurplus surplus_bps max_volume_bps
  | HelperPriceImprovement price_improvement_bps max_volume_bps =>
      PartnerPriceImprovement price_improvement_bps max_volume_bps
  | HelperVolume volume_bps => PartnerVolume volume_bps
  | HelperVolumeOld bps => PartnerVolume bps
  end.

Record PartnerFee := mkPartnerFee { pf_policy : PartnerFeePolicy; pf_recipient : address }.

(** The untagged helper of [PartnerFees::deserialize]. *)
Inductive PartnerFeesHelper := HelperSingle (fee : PartnerFee) | HelperMultiple (fees : list PartnerFee).

Definition PartnerFees_deserialize (h : PartnerFeesHelper) : list PartnerFee :=
  match h with HelperSingle fee => [fee] | HelperMultiple fees => fees end.

Record ProtocolAppData := mkProtocolAppData {
  pad_hooks : Hooks;
  pad_signer : option address;
  pad_replaced_order : option Z;
  pad_partner_fee : list PartnerFee;
  pad_flashloan : option Flashloan;
  pad_wrappers : list AppWrapperCall;
}.

Definition ProtocolAppData_default : ProtocolAppData := mkProtocolAppData (mkHooks [] []) None None [] None [].

(** The legacy [backend] object holds hooks only. *)
Definition ProtocolAppData_from_backend (hooks : Hooks) : ProtocolAppData :=
  mkProtocolAppData hooks None None [] None [].

Record Root := mkRoot { root_metadata : option ProtocolAppData; root_backend : option Hooks }.

Definition root_protocol (root : Root) : ProtocolAppData :=
  match root_metadata root with
  | Some metadata => metadata
  | None => default ProtocolAppData_default (ProtocolAppData_from_backend <$> root_backend root)
  end.

Record ValidAppData := mkValidAppData { va_hash : Z; va_document : string; va_protocol : ProtocolAppData }.

(** The empty document [EMPTY]. *)
Definition EMPTY : string := "{}".

Inductive AppDataError := TooLarge (size limit : Z) | NotUtf8 | InvalidJson.

(** The registry's table: contract app data to full app data. *)
Abbreviation AppDataTable := (gmap Z string) (only parsing).

Definition app_data_insert (contract_app_data : Z) (full_app_data : string) (table : AppDataTable)
  : option string * AppDataTable :=
  match table !! contract_app_data with
  | Some existing => (Some existing, table)
  | None => (None, <[contract_app_data := full_app_data]> table)
  end.

Inductive Registered := RegisteredNew | AlreadyExisted.
Inductive InsertError := InsertDuplicate | InsertMismatch (existing : string) | InsertOther.
Inductive RegisterError :=
| RegisterInvalid (e : AppDataError)
| HashMismatch (expected computed : Z)
| DataMismatch (existing : string)
| RegisterOther.

Section documents.
Context (keccak256 : list Z -> Z) (utf8 : string -> bool) (from_slice : string -> option Root).

Definition hash_full_app_data (full_app_data : string) : Z := keccak256 (string_bytes full_app_data).

Definition parse (full_app_data : string) : option ProtocolAppData := root_protocol <$> from_slice full_app_data.

Definition validate (size_limit : Z) (full_app_data : string) : result AppDataError ValidAppData :=
  let len := Z.of_nat (String.length full_app_data) in
  if size_limit <? len then Err (TooLarge len size_limit)
  else if negb (utf8 full_app_data) then Err NotUtf8
  else letr protocol := ok_or (parse full_app_data) InvalidJson in
       Ok (mkValidAppData (hash_full_app_data full_app_data) full_app_data protocol).

(** [Postgres::insert_full_app_data]: an existing document that is not UTF-8 is
    reported as another error. *)
Definition insert_full_app_data (contract_app_data : Z) (full_app_data : string) (table : AppDataTable)
  : result InsertError unit * AppDataTable :=
  let '(existing, table') := app_data_insert contract_app_data full_app_data table in
  match existing with
  | Some existing =>
      if bool_decide (existing = full_app_data) then (Err InsertDuplicate, table')
      else if utf8 existing then (Err (InsertMismatch existing), table') else (Err InsertOther, table')
  | None => (Ok tt, table')
  end.

Definition register (size_limit : Z) (hash : option Z) (document : string) (table : AppDataTable)
  : result RegisterError (Registered * Z) * AppDataTable :=
  match validate size_limit document with
  | Err e => (Err (RegisterInvalid e), table)
  | Ok validated =>
      let mismatch := match hash with Some hash => negb (hash =? va_hash validated) | None => false end in
      if mismatch then (Err (HashMismatch (default 0 hash) (va_hash validated)), table)
      else match insert_full_app_data (va_hash validated) (va_document validated) table with
           | (Ok _, table') => (Ok (RegisteredNew, va_hash validated), table')
           | (Err InsertDuplicate, table') => (Ok (AlreadyExisted, va_hash validated), table')
           | (Err (InsertMismatch existing), table') => (Err (DataMismatch existing), table')
           | (Err InsertOther, table') => (Err RegisterOther, table')
           end
  end.

(** [Registry::find]: the zero hash is the empty document, then the table, then IPFS
    where it is configured. *)
Definition registry_find (ipfs : option (Z -> result unit (option string))) (contract_app_data : Z)
  (table : AppDataTable) : result unit (option string) :=
  if contract_app_data =? 0 then Ok (Some EMPTY)
  else match table !! contract_app_data with
       | Some app_data => if utf8 app_data then Ok (Some app_data) else Err tt
       | None => match ipfs with None => Ok None | Some fetch => fetch contract_app_data end
       end.
End documents.

(** ** Facts *)
Lemma hooks_gas_limit_bounds hooks :
  Forall (fun h => 0 <= hook_gas_limit h) (hooks_pre hooks ++ hooks_post hooks) ->
  0 <= hooks_gas_limit hooks < 2 ^ 64.
Proof.
  unfold hooks_gas_limit. generalize (hooks_pre hooks ++ hooks_post hooks) as l.
  assert (Hgen : forall l acc, Forall (fun h => 0 <= hook_gas_limit h) l -> 0 <= acc < 2 ^ 64 ->
            0 <= foldl (fun total hook => u64_saturating_add total (hook_gas_limit hook)) acc l < 2 ^ 64).
  { induction l as [|h l IH]; intros acc Hl Hacc; [done|]. apply Forall_cons in Hl as [Hh Hl].
    cbn [foldl]. apply IH; [done|]. unfold u64_saturating_add. lia. }
  intros l Hl. apply Hgen; [done|lia].
Qed.

Section documents_spec.
Context (keccak256 : list Z -> Z) (utf8 : string -> bool) (from_slice : string -> option Root).
Abbreviation validate := (validate keccak256 utf8 from_slice).
Abbreviation register := (register keccak256 utf8 from_slice).

Lemma validate_Ok size_limit document v :
  validate size_limit document = Ok v <->
  Z.of_nat (String.length document) <= size_limit /\ utf8 document = true /\
  exists root, from_slice document = Some root /\
    v = mkValidAppData (hash_full_app_data keccak256 document) document (root_protocol root).
Proof.
  unfold AppData.validate, parse. destruct (Z.ltb_spec size_limit (Z.of_nat (String.length document))).
  { split; [done|]. intros (? & _). lia. }
  destruct (utf8 document) eqn:Hu; cbn [negb]; [|split; [done|by intros (_ & ? & _)]].
  destruct (from_slice document) as [root|]; cbn [fmap option_fmap option_map ok_or result_bind].
  - split; [intros [= <-]; eauto|]. intros (_ & _ & root' & [= <-] & ->). done.
  - split; [done|]. by intros (_ & _ & ? & ? & _).
Qed.

(** The entries of the table commit to their documents. *)
Definition table_hashed (table : AppDataTable) : Prop :=
  map_Forall (fun h document => h = hash_full_app_data keccak256 document /\ utf8 document = true) table.

Lemma register_hashed size_limit hash document table :
  table_hashed table -> table_hashed (register size_limit hash document table).2.
Proof.
  intros Ht. unfold AppData.register. destruct (validate size_limit document) as [v|e] eqn:Hv; [|done].
  apply validate_Ok in Hv as (_ & Hu & root & _ & ->).
  assert (Hins : table_hashed (insert_full_app_data utf8 (hash_full_app_data keccak256 document) document table).2).
  { unfold insert_full_app_data, app_data_insert.
    destruct (table !! hash_full_app_data keccak256 document) as [existing|];
      [repeat case_match; exact Ht|]. apply map_Forall_insert_2; done. }
  cbn [va_hash va_document].
  destruct (insert_full_app_data utf8 (hash_full_app_data keccak256 document) document table) as [r t'].
  cbn [snd] in Hins. destruct (match hash with Some _ => _ | None => false end); [done|].
  repeat case_match; done.
Qed.

(** A document that was registered is found under its hash. *)
Lemma register_find size_limit hash document table r h :
  table_hashed table ->
  (register size_limit hash document table).1 = Ok (r, h) -> h <> 0 ->
  forall ipfs, registry_find utf8 ipfs h (register size_limit hash document table).2 = Ok (Some document).
Proof.
  intros Ht Hok Hz ipfs. revert Hok. unfold AppData.register.
  destruct (validate size_limit document) as [v|e] eqn:Hv; [|done].
  apply validate_Ok in Hv as (_ & Hu & root & _ & ->). cbn [va_hash va_document].
  set (hd := hash_full_app_data keccak256 document).
  assert (Hins : forall r' t', insert_full_app_data utf8 hd document table = (r', t') ->
            (r' = Ok tt \/ r' = Err InsertDuplicate) -> t' !! hd = Some document).
  { unfold insert_full_app_data, app_data_insert. destruct (table !! hd) as [existing|] eqn:He.
    - case_bool_decide; [subst existing; intros ? ? [= <- <-] _; done|].
      destruct (utf8 existing); intros ? ? [= <- <-] [?|?]; done.
    - intros ? ? [= <- <-] _. apply lookup_insert_eq. }
  destruct (insert_full_app_data utf8 hd document table) as [r' t'] eqn:Hi.
  assert (Hgo : h = hd -> (r' = Ok tt \/ r' = Err InsertDuplicate) ->
            registry_find utf8 ipfs h t' = Ok (Some document)).
  { intros -> Hr. unfold registry_find. rewrite (proj2 (Z.eqb_neq _ _) Hz), (Hins r' t'), Hu; done. }
  destruct (match hash with Some _ => _ | None => false end); [done|].
  destruct r' as [[]|[| |]]; cbn [fst snd]; intros [= _ <-] || (intros ?; discriminate || done); auto.
Qed.
End documents_spec.
