(* ===== verification/OrderCreation.v ===== *)
(** * OrderCreation: orders and quotes as users submit them

    [crates/model/src/order.rs] (orders, their metadata, order creation and the
    verification of its owner, cancellations), [crates/model/src/quote.rs] (quote
    requests) and [crates/model/src/time.rs].

    Keccak and signature recovery are the parameters of [OrderModel]; the current time
    is an argument.  Timestamps are seconds, durations are non-negative seconds, and
    [u32] values saturate as in the source.  A JSON value is its text. *)

From stdpp Require Import base gmap sets list strings.
From Stdlib Require Import ZArith Lia.
From S2P Require Import Prelude Collections F64 Eth Liquidity Solution Dto Score DriverOrder.
From S2P Require Import OrderModel AppData.

Open Scope Z_scope.

(** ** Time *)
Definition U32_MAX : Z := 2 ^ 32 - 1.
Definition u32_saturating_add (a b : Z) : Z := Z.min (a + b) U32_MAX.

(** [Duration::MAX] has [u64::MAX] seconds. *)
Definition DURATION_MAX : Z := 2 ^ 64 - 1.

(** [try_into().unwrap_or(u32::MAX)] on the seconds of the duration. *)
Definition timestamp_after_duration (timestamp duration : Z) : Z :=
  u32_saturating_add timestamp (if fits 32 duration then duration else U32_MAX).

(** ** Orders *)
Definition BUY_ETH_ADDRESS : address := 0xeeeeeeeeeeeeeeeeeeeeeeeeeeeeeeeeeeeeeeee.

Record Interactions := mkInteractions { in_pre : list EthInteraction; in_post : list EthInteraction }.

Inductive OrderStatus := PresignaturePending | StatusOpen | Fulfilled | StatusCancelled | Expired.
Inductive OrderClass := ClassMarket | ClassLiquidity | ClassLimit.

#[export] Instance OrderStatus_eq_dec : EqDecision OrderStatus.
Proof. solve_decision. Defined.
#[export] Instance OrderClass_eq_dec : EqDecision OrderClass.
Proof. solve_decision. Defined.
#[export] Instance Scheme_eq_dec : EqDecision Scheme.
Proof. solve_decision. Defined.
#[export] Instance BuyTokenBalance_eq_dec : EqDecision BuyTokenBalance.
Proof. solve_decision. Defined.

Definition OrderClass_is_limit (c : OrderClass) : bool := match c with ClassLimit => true | _ => false end.

Definition kind_label (k : Side) : string := match k with Buy => "buy" | Sell => "sell" end.

(** The quote an order was created from. *)
Record OrderQuote := mkOrderQuote {
  oq_gas_amount : BigDecimal;
  oq_gas_price : BigDecimal;
  oq_sell_token_price : BigDecimal;
  oq_sell_amount : Z;
  oq_buy_amount : Z;
  oq_fee_amount : Z;
  oq_solver : address;
  oq_verified : bool;
  oq_metadata : string;
}.

Record EthflowData := mkEthflowData { ef_user_valid_to : Z; ef_refund_tx_hash : option Z }.

Inductive OnchainOrderPlacementError :=
| ValidToTooFarInTheFuture | DisabledOrderClass | PreValidationError | InvalidQuote
| InsufficientFee | OnchainNonZeroFee | InvalidOrderData | OtherPlacementError.

Record OnchainOrderData := mkOnchainOrderData {
  ood_sender : address;
  ood_placement_error : option OnchainOrderPlacementError;
}.

Record OrderMetadata := mkOrderMetadata {
  md_creation_date : Z;
  md_owner : address;
  md_uid : Z;
  md_executed_buy_amount : Z;
  md_executed_sell_amount : Z;
  md_executed_sell_amount_before_fees : Z;
  md_executed_fee_amount : Z;
  md_executed_fee : Z;
  md_executed_fee_token : address;
  md_invalidated : bool;
  md_status : OrderStatus;
  md_class : OrderClass;
  md_settlement_contract : address;
  md_ethflow_data : option EthflowData;
  md_onchain_order_data : option OnchainOrderData;
  md_onchain_user : option address;
  md_is_liquidity_order : bool;
  md_full_app_data : option string;
  md_quote : option OrderQuote;
}.

Record ModelOrder := mkModelOrder {
  mo_metadata : OrderMetadata;
  mo_data : OrderData;
  mo_signature : OrderSignature;
  mo_interactions : Interactions;
}.

Definition contains_token_from (o : ModelOrder) (token_list : gset address) : bool :=
  bool_decide (od_buy_token (mo_data o) ∈ token_list) || bool_decide (od_sell_token (mo_data o) ∈ token_list).

Definition is_user_order (o : ModelOrder) : bool :=
  match md_class (mo_metadata o) with ClassMarket | ClassLimit => true | ClassLiquidity => false end.

Definition is_limit_order (o : ModelOrder) : bool := OrderClass_is_limit (md_class (mo_metadata o)).

Definition try_to_ecdsa_scheme (s : Scheme) : option Scheme :=
  match s with Eip712 => Some Eip712 | EthSign => Some EthSign | Eip1271 | PreSign => None end.
Definition is_ecdsa_scheme (s : Scheme) : bool := match try_to_ecdsa_scheme s with Some _ => true | None => false end.

(** ** Order creation *)
Inductive OrderCreationAppData :=
| AppBoth (full : string) (expected : Z)
| AppHash (hash : Z)
| AppFull (full : string).

Record OrderCreation := mkOrderCreation {
  oc_sell_token : address;
  oc_buy_token : address;
  oc_receiver : option address;
  oc_sell_amount : Z;
  oc_buy_amount : Z;
  oc_valid_to : Z;
  oc_fee_amount : Z;
  oc_kind : Side;
  oc_partially_fillable : bool;
  oc_sell_token_balance : SellTokenBalance;
  oc_buy_token_balance : BuyTokenBalance;
  oc_from : option address;
  oc_signature : OrderSignature;
  oc_quote_id : option Z;
  oc_app_data : OrderCreationAppData;
}.

Inductive VerificationError :=
| UnableToRecoverSigner
| UnexpectedSigner (recovered : address)
| VerMissingFrom
| VerAppdataFromMismatch (from app_data_signer : address).

(** ** Cancellations *)
Definition CANCELLATIONS_TYPE_HASH : Z := 0x4c89efb91ae246f78d2fe68b47db2fa1444a121a4f2dc3fda7a5a408c2e3588e.
Definition CANCELLATION_TYPE_HASH : Z := 0x7b41b3a6e2b3cae020a3b2f9cdc997e0d420643957e7fea81747e984e47c88ec.

(** Cancellations are signed with one of the two ECDSA schemes. *)
Inductive EcdsaScheme := EcdsaEip712 | EcdsaEthSign.
Definition to_signature (scheme : EcdsaScheme) (s : Ecdsa) : OrderSignature :=
  match scheme with EcdsaEip712 => SigEip712 s | EcdsaEthSign => SigEthSign s end.

Record SignedOrderCancellations := mkSignedOrderCancellations {
  soc_order_uids : list Z;
  soc_signature : Ecdsa;
  soc_signing_scheme : EcdsaScheme;
}.
Record OrderCancellation := mkOrderCancellation {
  can_order_uid : Z;
  can_signature : Ecdsa;
  can_signing_scheme : EcdsaScheme;
}.

Section creation.
Context (keccak256 : list Z -> Z) (ecrecover : list Z -> Z -> option address).

Definition OrderCreationAppData_hash (a : OrderCreationAppData) : Z :=
  match a with
  | AppHash hash => hash
  | AppFull full | AppBoth full _ => hash_full_app_data keccak256 full
  end.

Definition OrderCreation_data (o : OrderCreation) : OrderData :=
  mkOrderData (oc_sell_token o) (oc_buy_token o) (oc_receiver o) (oc_sell_amount o) (oc_buy_amount o)
    (oc_valid_to o) (OrderCreationAppData_hash (oc_app_data o)) (oc_fee_amount o) (oc_kind o)
    (oc_partially_fillable o) (oc_sell_token_balance o) (oc_buy_token_balance o).

Definition verify_owner (o : OrderCreation) (domain : Z) (app_data_signer : option address)
  : result VerificationError address :=
  letr recovered := ok_or (recover keccak256 ecrecover (oc_signature o) domain
                             (hash_struct keccak256 (OrderCreation_data o))) UnableToRecoverSigner in
  letr from := match oc_from o, app_data_signer with
               | None, None => Ok None
               | None, Some addr => Ok (Some addr)
               | Some addr, None => Ok (Some addr)
               | Some from, Some signer =>
                   if from =? signer then Ok (Some from) else Err (VerAppdataFromMismatch from signer)
               end in
  match from, recovered with
  | Some from, Some recovered => if from =? recovered then Ok from else Err (UnexpectedSigner recovered)
  | Some from, None => Ok from
  | None, Some recovered => Ok recovered
  | None, None => Err VerMissingFrom
  end.

Definition cancellations_hash_struct (order_uids : list Z) : Z :=
  let encoded_uids := order_uids ≫= (fun uid => be_bytes 32 (keccak256 (be_bytes 56 uid))) in
  keccak256 (be_bytes 32 CANCELLATIONS_TYPE_HASH ++ be_bytes 32 (keccak256 encoded_uids)).

Definition cancellation_hash_struct (order_uid : Z) : Z :=
  keccak256 (be_bytes 32 CANCELLATION_TYPE_HASH ++ be_bytes 32 (keccak256 (be_bytes 56 order_uid))).

(** [EcdsaSignature::recover]. *)
Definition ecdsa_recover (scheme : EcdsaScheme) (s : Ecdsa) (domain struct_hash : Z) : option address :=
  match recover keccak256 ecrecover (to_signature scheme s) domain struct_hash with
  | Some (Some signer) => Some signer
  | _ => None
  end.

Definition SignedOrderCancellations_validate (c : SignedOrderCancellations) (domain : Z) : option address :=
  ecdsa_recover (soc_signing_scheme c) (soc_signature c) domain (cancellations_hash_struct (soc_order_uids c)).

Definition OrderCancellation_validate (c : OrderCancellation) (domain : Z) : option address :=
  ecdsa_recover (can_signing_scheme c) (can_signature c) domain (cancellation_hash_struct (can_order_uid c)).
End creation.

(** ** Quote requests *)
Inductive QuoteSigningScheme :=
| QEip712
| QEthSign
| QEip1271 (onchain_order : bool) (verification_gas_limit : Z)
| QPreSign (onchain_order : bool).

Definition additional_gas_amount (s : QuoteSigningScheme) : Z :=
  match s with QEip1271 _ verification_gas_limit => verification_gas_limit | _ => 0 end.

Definition SigningScheme_from_quote (s : QuoteSigningScheme) : Scheme :=
  match s with QEip712 => Eip712 | QEip1271 _ _ => Eip1271 | QPreSign _ => PreSign | QEthSign => EthSign end.

Definition default_verification_gas_limit : Z := 27000.

Record QuoteSigningData := mkQuoteSigningData {
  qsd_signing_scheme : Scheme;
  qsd_verification_gas_limit : option Z;
  qsd_onchain_order : bool;
}.

Definition QuoteSigningScheme_try_from (d : QuoteSigningData) : result string QuoteSigningScheme :=
  match qsd_signing_scheme d, qsd_onchain_order d, qsd_verification_gas_limit d with
  | Eip712, true, None | EthSign, true, None => Err "ECDSA-signed orders cannot be on-chain"%string
  | Eip712, false, None => Ok QEip712
  | EthSign, false, None => Ok QEthSign
  | Eip1271, onchain_order, limit => Ok (QEip1271 onchain_order (default default_verification_gas_limit limit))
  | PreSign, onchain_order, None => Ok (QPreSign onchain_order)
  | _, _, Some _ => Err "Only EIP-1271 signatures should have a verification_gas_limit!"%string
  end.

Inductive SellAmount := BeforeFee (value : Z) | AfterFee (value : Z).
Inductive OrderQuoteSide := QuoteSell (sell_amount : SellAmount) | QuoteBuy (buy_amount_after_fee : Z).

Inductive Validity := ValidityTo (valid_to : Z) | ValidityFor (valid_for : Z).

Definition actual_valid_to (now : Z) (v : Validity) : Z :=
  match v with ValidityTo valid_to => valid_to | ValidityFor valid_for => u32_saturating_add now valid_for end.

Definition Validity_default : Validity := ValidityFor 1800.

Definition Validity_deserialize (valid_to valid_for : option Z) : result string Validity :=
  match valid_to, valid_for with
  | Some valid_to, None => Ok (ValidityTo valid_to)
  | None, Some valid_for => Ok (ValidityFor valid_for)
  | None, None => Ok Validity_default
  | Some _, Some _ => Err "must specify at most one of `validTo` or `validFor`"%string
  end.

Inductive PriceQuality := PriceFast | PriceOptimal | PriceVerified.

Record OrderQuoteRequest := mkOrderQuoteRequest {
  qr_from : address;
  qr_sell_token : address;
  qr_buy_token : address;
  qr_receiver : option address;
  qr_side : OrderQuoteSide;
  qr_validity : Validity;
  qr_app_data : OrderCreationAppData;
  qr_sell_token_balance : SellTokenBalance;
  qr_buy_token_balance : BuyTokenBalance;
  qr_signing_scheme : QuoteSigningScheme;
  qr_price_quality : PriceQuality;
  qr_timeout : option Z;
}.

(** [deserialize_optional_app_data]; the parser of a hash is an argument. *)
Definition deserialize_optional_app_data (parse_hash : string -> option Z) (app_data : option string)
  (app_data_hash : option Z) : result string OrderCreationAppData :=
  match app_data, app_data_hash with
  | Some app_data, None =>
      Ok match parse_hash app_data with Some hash => AppHash hash | None => AppFull app_data end
  | Some full, Some expected => Ok (AppBoth full expected)
  | None, None => Ok (AppHash 0)
  | None, Some _ => Err "invalid app data"%string
  end.

(** Timeouts travel as milliseconds in a [u32]. *)
Definition serialize_timeout (timeout : option Z) : result string (option Z) :=
  match timeout with
  | None => Ok None
  | Some ms => if fits 32 ms then Ok (Some ms) else Err "timeout only support u32"%string
  end.

(** ** Facts *)
Section creation_spec.
Context (keccak256 : list Z -> Z) (ecrecover : list Z -> Z -> option address).

(** A verified owner is the signer of the order's data, or the scheme leaves the check
    to the chain and the request names the owner. *)
Definition owner_justified (o : OrderCreation) (domain : Z) (app_data_signer : option address)
  (owner : address) : Prop :=
  recover keccak256 ecrecover (oc_signature o) domain
    (hash_struct keccak256 (OrderCreation_data keccak256 o)) = Some (Some owner) \/
  is_ecdsa_scheme (OrderSignature_scheme (oc_signature o)) = false /\
  (oc_from o = Some owner \/ app_data_signer = Some owner).

Lemma recover_None_scheme s domain h :
  recover keccak256 ecrecover s domain h = Some None <-> is_ecdsa_scheme (OrderSignature_scheme s) = false.
Proof.
  destruct s; cbn [recover OrderSignature_scheme]; try done;
    (split; [|done]); destruct (ecrecover _ _); done.
Qed.

Lemma verify_owner_Ok o domain app_data_signer owner :
  verify_owner keccak256 ecrecover o domain app_data_signer = Ok owner ->
  owner_justified o domain app_data_signer owner /\
  (forall from, oc_from o = Some from -> from = owner) /\
  (forall signer, app_data_signer = Some signer -> signer = owner).
Proof.
  unfold verify_owner, owner_justified.
  destruct (recover _ _ _ _ _) as [recovered|] eqn:Hr; [|done]. cbn [ok_or result_bind].
  assert (Hnone : recovered = None -> is_ecdsa_scheme (OrderSignature_scheme (oc_signature o)) = false).
  { intros ->. by apply recover_None_scheme in Hr. }
  destruct (oc_from o) as [from|], app_data_signer as [signer|]; [case_match|..];
    cbn [result_bind]; try done; destruct recovered as [r|]; try case_match; try done;
    intros [= <-]; zify_bool; subst; naive_solver.
Qed.
End creation_spec.

(** Every signing scheme a quote can be requested for is read back from its parts. *)
Lemma QuoteSigningScheme_read s :
  match s with QEip1271 _ limit => 0 <= limit < 2 ^ 64 | _ => True end ->
  QuoteSigningScheme_try_from (mkQuoteSigningData (SigningScheme_from_quote s)
    match s with QEip1271 _ limit => Some limit | _ => None end
    match s with QEip1271 onchain _ | QPreSign onchain => onchain | _ => false end) = Ok s.
Proof. by destruct s as [| |[] |[]]. Qed.

Lemma timestamp_after_duration_mono t d d' :
  0 <= d <= d' -> timestamp_after_duration t d <= timestamp_after_duration t d'.
Proof.
  intros Hd. unfold timestamp_after_duration, u32_saturating_add, U32_MAX.
  destruct (fits 32 d) eqn:H1, (fits 32 d') eqn:H2; rewrite ?fits_spec in *; try lia.
  - assert (~ (0 <= d < 2 ^ 32)) by (rewrite <-fits_spec; congruence). lia.
Qed.

Lemma timestamp_after_duration_max t : 0 <= t -> timestamp_after_duration t DURATION_MAX = U32_MAX.
Proof.
  intros Ht. unfold timestamp_after_duration, u32_saturating_add.
  replace (fits 32 DURATION_MAX) with false by (vm_compute; done). lia.
Qed.
