(* ===== verification/OrderQuoting.v ===== *)
(** * OrderQuoting: computing, storing and finding quotes

    [crates/shared/src/order_quoting.rs], [crates/shared/src/fee.rs], the price
    queries of [crates/shared/src/price_estimation/mod.rs], the [quotes] table
    ([crates/database/src/quotes.rs]) and its rows
    ([crates/shared/src/event_storing_helpers.rs], [crates/orderbook/src/database/quotes.rs]).

    The table is a map from the ids its sequence hands out to its rows; state is passed
    explicitly.  The estimators, the balances, the conversions of other crates ([U256]
    from a float, [BigDecimal] from a float, JSON) are parameters; the time is an
    argument.  [try_join!] reports the first error in the order it lists the futures. *)

From stdpp Require Import base gmap sets list strings.
From Stdlib Require Import ZArith Lia SpecFloat.
From S2P Require Import Prelude Collections F64 Eth Liquidity Solution Dto Score DriverOrder.
From S2P Require Import CompetitionStore OrderModel AppData OrderCreation.

Open Scope Z_scope.

(** ** Fees *)

(** [f64::ceil]. *)
Definition f64_ceil (x : f64) : f64 :=
  match x with
  | S754_finite s m e =>
      if 0 <=? e then x
      else let q := Z.pos m / 2 ^ (- e) in
           if Z.pos m mod 2 ^ (- e) =? 0 then x
           else if s then (if q =? 0 then S754_zero true else f64_lit (- q)) else f64_lit (q + 1)
  | _ => x
  end.

Record FeeParameters := mkFeeParameters { gas_amount : f64; gas_price : f64; sell_token_price : f64 }.

Definition FeeParameters_default : FeeParameters := mkFeeParameters (f64_lit 0) (f64_lit 0) (f64_lit 1).

(** Buckets of tokens with their own volume fee. *)
Record TokenBucketFeeOverride := mkTokenBucket { tb_tokens : gset address; tb_factor : f64 }.
Record VolumeFeePolicy := mkVolumeFeePolicy {
  vfp_bucket_overrides : list TokenBucketFeeOverride;
  vfp_default_factor : option f64;
  vfp_enable_sell_equals_buy_volume_fee : bool;
}.

Definition in_bucket (buy_token sell_token : address) (b : TokenBucketFeeOverride) : bool :=
  bool_decide (buy_token ∈ tb_tokens b) && bool_decide (sell_token ∈ tb_tokens b).

Definition get_applicable_volume_fee_factor (p : VolumeFeePolicy) (buy_token sell_token : address)
  (fee_factor : option f64) : option f64 :=
  if (buy_token =? sell_token) && negb (vfp_enable_sell_equals_buy_volume_fee p) then None
  else match list_find (fun b => in_bucket buy_token sell_token b = true) (vfp_bucket_overrides p) with
       | Some (_, b) => Some (tb_factor b)
       | None => match fee_factor with Some f => Some f | None => vfp_default_factor p end
       end.

(** ** Price queries and estimates *)
Record Verification := mkVerification {
  ver_from : address;
  ver_receiver : address;
  ver_pre_interactions : list EthInteraction;
  ver_post_interactions : list EthInteraction;
  ver_sell_token_source : SellTokenBalance;
  ver_buy_token_destination : BuyTokenBalance;
}.

Record PriceQuery := mkPriceQuery {
  pq_sell_token : address;
  pq_buy_token : address;
  pq_in_amount : Z;
  pq_kind : Side;
  pq_verification : Verification;
  pq_block_dependent : bool;
  pq_timeout : Z;
}.

Record QuoteJitOrder := mkQuoteJitOrder {
  qj_buy_token : address;
  qj_sell_token : address;
  qj_sell_amount : Z;
  qj_buy_amount : Z;
  qj_executed_amount : Z;
  qj_receiver : address;
  qj_valid_to : Z;
  qj_app_data : Z;
  qj_side : Side;
  qj_partially_fillable : bool;
  qj_sell_token_source : SellTokenBalance;
  qj_buy_token_destination : BuyTokenBalance;
  qj_signature : list Z;
  qj_signing_scheme : Scheme;
}.

Record QuoteExecution := mkQuoteExecution {
  qe_interactions : list EthInteraction;
  qe_pre_interactions : list EthInteraction;
  qe_jit_orders : list QuoteJitOrder;
}.

Record Estimate := mkEstimate {
  est_out_amount : Z;
  est_gas : Z;
  est_solver : address;
  est_verified : bool;
  est_execution : QuoteExecution;
}.

(** [Estimate::amounts]: the sell amount and the buy amount. *)
Definition Estimate_amounts (e : Estimate) (q : PriceQuery) : Z * Z :=
  match pq_kind q with
  | Buy => (est_out_amount e, pq_in_amount q)
  | Sell => (pq_in_amount q, est_out_amount e)
  end.

Inductive PriceEstimationError :=
| UnsupportedToken (token : address) (reason : string)
| NoLiquidity
| UnsupportedOrderType (order_type : string)
| RateLimited
| EstimatorInternal (err : string)
| ProtocolInternal (err : string).

Inductive EstimatorKind := EkGas | EkRegular | EkNativeSell | EkNativeBuy.

Inductive CalculateQuoteError :=
| SellAmountDoesNotCoverFee (fee_amount : Z)
| Price (estimator_kind : EstimatorKind) (source : PriceEstimationError)
| QuoteNotVerified
| CalculateOther (err : string).

(** ** Quotes *)
Record QuoteParameters := mkQuoteParameters {
  qp_sell_token : address;
  qp_buy_token : address;
  qp_side : OrderQuoteSide;
  qp_verification : Verification;
  qp_signing_scheme : QuoteSigningScheme;
  qp_additional_gas : Z;
  qp_timeout : option Z;
}.

Definition to_price_query (p : QuoteParameters) (default_quote_timeout : Z) : PriceQuery :=
  let '(kind, in_amount) := match qp_side p with
                            | QuoteSell (BeforeFee sell_amount) | QuoteSell (AfterFee sell_amount) =>
                                (Sell, sell_amount)
                            | QuoteBuy buy_amount_after_fee => (Buy, buy_amount_after_fee)
                            end in
  let timeout := Z.min (default default_quote_timeout (qp_timeout p)) default_quote_timeout in
  mkPriceQuery (qp_sell_token p) (qp_buy_token p) in_amount kind (qp_verification p) true timeout.

Definition parameters_additional_cost (p : QuoteParameters) : Z :=
  u64_saturating_add (additional_gas_amount (qp_signing_scheme p)) (qp_additional_gas p).

Inductive QuoteKind := StandardQuote | Eip1271OnchainOrder | PreSignOnchainOrder.
#[export] Instance QuoteKind_eq_dec : EqDecision QuoteKind.
Proof. solve_decision. Defined.

Definition quote_kind_from_signing_scheme (scheme : QuoteSigningScheme) : QuoteKind :=
  match scheme with
  | QEip1271 true _ => Eip1271OnchainOrder
  | QPreSign true => PreSignOnchainOrder
  | _ => StandardQuote
  end.

Inductive QuoteMetadata := V1 (execution : QuoteExecution).
Definition QuoteMetadata_default : QuoteMetadata := V1 (mkQuoteExecution [] [] []).

(** The untagged helper that reads the metadata column. *)
Inductive QuoteMetadataHelper := MetadataData (m : QuoteMetadata) | MetadataEmpty.
Definition QuoteMetadata_from_helper (h : QuoteMetadataHelper) : QuoteMetadata :=
  match h with MetadataData m => m | MetadataEmpty => QuoteMetadata_default end.

Record QuoteData := mkQuoteData {
  qd_sell_token : address;
  qd_buy_token : address;
  qd_quoted_sell_amount : Z;
  qd_quoted_buy_amount : Z;
  qd_fee_parameters : FeeParameters;
  qd_kind : Side;
  qd_expiration : Z;
  qd_quote_kind : QuoteKind;
  qd_solver : address;
  qd_verified : bool;
  qd_metadata : QuoteMetadata;
}.

Record Quote := mkQuote {
  q_id : option Z;
  q_data : QuoteData;
  q_sell_amount : Z;
  q_buy_amount : Z;
  q_fee_amount : Z;
}.

Record QuoteSearchParameters := mkQuoteSearchParameters {
  qs_sell_token : address;
  qs_buy_token : address;
  qs_sell_amount : Z;
  qs_buy_amount : Z;
  qs_fee_amount : Z;
  qs_kind : Side;
  qs_signing_scheme : QuoteSigningScheme;
  qs_additional_gas : Z;
  qs_verification : Verification;
}.

Definition Side_eqb (a b : Side) : bool := match a, b with Buy, Buy | Sell, Sell => true | _, _ => false end.

(** The sum of the amounts wraps. *)
Definition quote_matches (s : QuoteSearchParameters) (data : QuoteData) : bool :=
  let amounts_match := match qs_kind s with
                       | Buy => qs_buy_amount s =? qd_quoted_buy_amount data
                       | Sell => (qs_sell_amount s =? qd_quoted_sell_amount data) ||
                                 (wrapping_add (qs_sell_amount s) (qs_fee_amount s) =? qd_quoted_sell_amount data)
                       end in
  amounts_match && (qs_sell_token s =? qd_sell_token data) && (qs_buy_token s =? qd_buy_token data) &&
  Side_eqb (qs_kind s) (qd_kind data).

Definition search_additional_cost (s : QuoteSearchParameters) : Z :=
  u64_saturating_add (additional_gas_amount (qs_signing_scheme s)) (qs_additional_gas s).

(** Scaling divides by the quoted sell amount and saturates. *)
Definition with_scaled_sell_amount (q : Quote) (sell_amount : Z) : comp Quote :=
  let! buy := div_u256 (qd_quoted_buy_amount (q_data q) * sell_amount) (qd_quoted_sell_amount (q_data q)) in
  Ret (mkQuote (q_id q) (q_data q) sell_amount (if fits 256 buy then buy else U256_MAX) (q_fee_amount q)).

(** ** The table of quotes *)
Record QuoteRow := mkQuoteRow {
  qrow_sell_token : address;
  qrow_buy_token : address;
  qrow_sell_amount : BigDecimal;
  qrow_buy_amount : BigDecimal;
  qrow_gas_amount : f64;
  qrow_gas_price : f64;
  qrow_sell_token_price : f64;
  qrow_order_kind : Side;
  qrow_expiration_timestamp : Z;
  qrow_quote_kind : QuoteKind;
  qrow_solver : address;
  qrow_verified : bool;
  qrow_metadata : string;
}.

(** The rows by id, and the next value of the id sequence. *)
Record QuoteTable := mkQuoteTable { quote_rows : gmap Z QuoteRow; next_quote_id : Z }.

Definition quotes_save (row : QuoteRow) (t : QuoteTable) : Z * QuoteTable :=
  (next_quote_id t, mkQuoteTable (<[next_quote_id t := row]> (quote_rows t)) (next_quote_id t + 1)).

Definition quotes_get (id : Z) (t : QuoteTable) : option QuoteRow := quote_rows t !! id.

Record DbQuoteSearch := mkDbQuoteSearch {
  dqs_sell_token : address;
  dqs_buy_token : address;
  dqs_sell_amount_0 : BigDecimal;
  dqs_sell_amount_1 : BigDecimal;
  dqs_buy_amount : BigDecimal;
  dqs_kind : Side;
  dqs_expiration : Z;
  dqs_quote_kind : QuoteKind;
}.

(** Numbers are compared by value. *)
Definition bd_eqb (a b : BigDecimal) : bool :=
  bd_int a * 10 ^ Z.max 0 (bd_exp b - bd_exp a) =? bd_int b * 10 ^ Z.max 0 (bd_exp a - bd_exp b).

Definition row_selected (p : DbQuoteSearch) (r : QuoteRow) : bool :=
  (qrow_sell_token r =? dqs_sell_token p) && (qrow_buy_token r =? dqs_buy_token p) &&
  ((Side_eqb (qrow_order_kind r) Sell && bd_eqb (qrow_sell_amount r) (dqs_sell_amount_0 p)) ||
   (Side_eqb (qrow_order_kind r) Sell && bd_eqb (qrow_sell_amount r) (dqs_sell_amount_1 p)) ||
   (Side_eqb (qrow_order_kind r) Buy && bd_eqb (qrow_buy_amount r) (dqs_buy_amount p))) &&
  Side_eqb (qrow_order_kind r) (dqs_kind p) &&
  (dqs_expiration p <=? qrow_expiration_timestamp r) &&
  bool_decide (qrow_quote_kind r = dqs_quote_kind p).

(** Products of [double precision] columns fail when they overflow or underflow. *)
Definition is_zero_float (x : f64) : bool := match x with S754_zero _ => true | _ => false end.
Definition is_infinite_float (x : f64) : bool := match x with S754_infinity _ => true | _ => false end.
Definition pg_float_mul (a b : f64) : option f64 :=
  let r := f64_mul a b in
  if is_infinite_float r && negb (is_infinite_float a) && negb (is_infinite_float b) then None
  else if is_zero_float r && negb (is_zero_float a) && negb (is_zero_float b) then None
  else Some r.

(** In the ordering of the database a NaN is above every number and equal to itself. *)
Definition pg_float_cmp (a b : f64) : comparison :=
  match SFcompare a b with
  | Some c => c
  | None => match a, b with
            | S754_nan, S754_nan => Eq
            | S754_nan, _ => Gt
            | _, _ => Lt
            end
  end.

Definition row_cost (r : QuoteRow) : option f64 :=
  let? p := pg_float_mul (qrow_gas_amount r) (qrow_gas_price r) in pg_float_mul p (qrow_sell_token_price r).

(** [find]: the selected row of least cost; among equal ones the first the scan of the
    table meets. *)
Definition quotes_find (p : DbQuoteSearch) (t : QuoteTable) : result string (option (Z * QuoteRow)) :=
  let rows := filter (fun r => row_selected p r.2 = true) (map_to_list (quote_rows t)) in
  match mapM (fun r => (fun c => (c, r)) <$> row_cost r.2) rows with
  | None => Err "value out of range"%string
  | Some costs => Ok (snd <$> min_by (cmp_on fst pg_float_cmp) costs)
  end.

Definition remove_expired_quotes (max_expiry : Z) (t : QuoteTable) : QuoteTable :=
  mkQuoteTable (filter (fun kv => max_expiry <= qrow_expiration_timestamp kv.2) (quote_rows t)) (next_quote_id t).

(** ** Balances *)
Record BalanceOverrideRequest := mkBalanceOverride { bo_token : address; bo_holder : address; bo_amount : Z }.
Record BalanceQuery := mkBalanceQuery {
  bq_owner : address;
  bq_token : address;
  bq_source : SellTokenBalance;
  bq_interactions : list EthInteraction;
  bq_balance_override : option BalanceOverrideRequest;
}.

(** ** The quoter *)
Inductive QuoteVerificationMode := Unverified | Prefer | EnforceWhenPossible.

Inductive FindQuoteError :=
| QuoteNotFound (id : option Z)
| ParameterMismatch (data : QuoteData)
| QuoteExpired (expiration : Z)
| FindOther (err : string).

Record QuoteValidity := mkQuoteValidity {
  v_eip1271_onchain_quote : Z;
  v_presign_onchain_quote : Z;
  v_standard_quote : Z;
}.

Section quoter.
Context (u256_from_f64 : f64 -> comp Z).
Context (bd_from_f64 : f64 -> option BigDecimal).
Context (to_value : QuoteMetadata -> option string) (from_value : string -> option QuoteMetadataHelper).

Definition fee_with_additional_cost (p : FeeParameters) (additional_cost : Z) : comp Z :=
  let fee_in_eth := f64_mul (f64_add (gas_amount p) (f64_lit additional_cost)) (gas_price p) in
  u256_from_f64 (f64_ceil (f64_div fee_in_eth (sell_token_price p))).

Definition fee (p : FeeParameters) : comp Z := fee_with_additional_cost p 0.

Definition Quote_new (id : option Z) (data : QuoteData) : comp Quote :=
  let! fee_amount := fee (qd_fee_parameters data) in
  Ret (mkQuote id data (qd_quoted_sell_amount data) (qd_quoted_buy_amount data) fee_amount).

Definition with_additional_cost (q : Quote) (additional_cost : Z) : comp Quote :=
  let! fee_amount := fee_with_additional_cost (qd_fee_parameters (q_data q)) additional_cost in
  Ret (mkQuote (q_id q) (q_data q) (q_sell_amount q) (q_buy_amount q) fee_amount).

Definition try_to_model_order_quote (q : Quote) : result string OrderQuote :=
  let p := qd_fee_parameters (q_data q) in
  letr gas_amount := ok_or (bd_from_f64 (gas_amount p)) "gas amount is not a valid BigDecimal"%string in
  letr gas_price := ok_or (bd_from_f64 (gas_price p)) "gas price is not a valid BigDecimal"%string in
  letr price := ok_or (bd_from_f64 (sell_token_price p)) "sell token price is not a valid BigDecimal"%string in
  letr metadata := ok_or (to_value (qd_metadata (q_data q))) "json"%string in
  Ok (mkOrderQuote gas_amount gas_price price (q_sell_amount q) (q_buy_amount q) (q_fee_amount q)
        (qd_solver (q_data q)) (qd_verified (q_data q)) metadata).

(** *** Rows *)
Definition create_quote_row (d : QuoteData) : result string QuoteRow :=
  letr metadata := ok_or (to_value (qd_metadata d)) "json"%string in
  Ok (mkQuoteRow (qd_sell_token d) (qd_buy_token d) (u256_to_big_decimal (qd_quoted_sell_amount d))
        (u256_to_big_decimal (qd_quoted_buy_amount d)) (gas_amount (qd_fee_parameters d))
        (gas_price (qd_fee_parameters d)) (sell_token_price (qd_fee_parameters d)) (qd_kind d)
        (qd_expiration d) (qd_quote_kind d) (qd_solver d) (qd_verified d) metadata).

Definition QuoteData_try_from (r : QuoteRow) : result string QuoteData :=
  letr sell := ok_or (big_decimal_to_u256 (qrow_sell_amount r)) "quoted sell amount is not a valid U256"%string in
  letr buy := ok_or (big_decimal_to_u256 (qrow_buy_amount r)) "quoted buy amount is not a valid U256"%string in
  letr metadata := ok_or (from_value (qrow_metadata r)) "json"%string in
  Ok (mkQuoteData (qrow_sell_token r) (qrow_buy_token r) sell buy
        (mkFeeParameters (qrow_gas_amount r) (qrow_gas_price r) (qrow_sell_token_price r))
        (qrow_order_kind r) (qrow_expiration_timestamp r) (qrow_quote_kind r) (qrow_solver r)
        (qrow_verified r) (QuoteMetadata_from_helper metadata)).

Definition create_db_search_parameters (s : QuoteSearchParameters) (expiration : Z) : DbQuoteSearch :=
  mkDbQuoteSearch (qs_sell_token s) (qs_buy_token s) (u256_to_big_decimal (qs_sell_amount s))
    (u256_to_big_decimal (wrapping_add (qs_sell_amount s) (qs_fee_amount s)))
    (u256_to_big_decimal (qs_buy_amount s)) (qs_kind s) expiration
    (quote_kind_from_signing_scheme (qs_signing_scheme s)).

(** *** Storage *)
Definition storage_save (d : QuoteData) (t : QuoteTable) : result string Z * QuoteTable :=
  match create_quote_row d with
  | Err e => (Err e, t)
  | Ok row => let '(id, t') := quotes_save row t in (Ok id, t')
  end.

Definition storage_get (id : Z) (t : QuoteTable) : result string (option QuoteData) :=
  match quotes_get id t with
  | None => Ok None
  | Some row => letr data := QuoteData_try_from row in Ok (Some data)
  end.

Definition storage_find (s : QuoteSearchParameters) (expiration : Z) (t : QuoteTable)
  : result string (option (Z * QuoteData)) :=
  letr found := quotes_find (create_db_search_parameters s expiration) t in
  match found with
  | None => Ok None
  | Some (id, row) => letr data := QuoteData_try_from row in Ok (Some (id, data))
  end.

(** *** Computing quotes *)
Context (effective_gas_price : result string Z).
Context (estimate : PriceQuery -> result PriceEstimationError Estimate).
Context (estimate_native_price : address -> Z -> result PriceEstimationError f64).
Context (get_balances : list BalanceQuery -> list (result string Z)).
Context (validity : QuoteValidity) (quote_verification : QuoteVerificationMode) (default_quote_timeout : Z).

Definition price_err {A} (kind : EstimatorKind) (r : result PriceEstimationError A) : result CalculateQuoteError A :=
  match r with Ok a => Ok a | Err e => Err (Price kind e) end.

Definition get_balance (v : Verification) (token : address) : result string Z :=
  let query := mkBalanceQuery (ver_from v) token (ver_sell_token_source v)
                 ((fun i => mkEthInteraction (ei_target i) (ei_value i) (ei_calldata i)) <$> ver_pre_interactions v)
                 None in
  match last (get_balances [query]) with
  | Some balance => balance
  | None => Err "missing balance result"%string
  end.

Definition verify_quote (e : Estimate) (p : QuoteParameters) (sell_amount : Z) : result CalculateQuoteError unit :=
  if est_verified e || negb (match quote_verification with EnforceWhenPossible => true | _ => false end) then Ok tt
  else match get_balance (qp_verification p) (qp_sell_token p) with
       | Ok balance => if sell_amount <=? balance then Err QuoteNotVerified else Ok tt
       | Err _ => Err QuoteNotVerified
       end.

Definition quote_expiration (now : Z) (scheme : QuoteSigningScheme) : Z :=
  match scheme with
  | QEip1271 true _ => now + v_eip1271_onchain_quote validity
  | QPreSign true => now + v_presign_onchain_quote validity
  | _ => now + v_standard_quote validity
  end.

Definition compute_quote_data (now : Z) (p : QuoteParameters) : result CalculateQuoteError QuoteData :=
  let expiration := quote_expiration now (qp_signing_scheme p) in
  let trade_query := to_price_query p default_quote_timeout in
  letr effective_gas_price := price_err EkGas match effective_gas_price with
                                              | Ok g => Ok g | Err e => Err (ProtocolInternal e) end in
  letr trade_estimate := price_err EkRegular (estimate trade_query) in
  letr price := price_err EkNativeSell (estimate_native_price (qp_sell_token p) (pq_timeout trade_query)) in
  letr _ := price_err EkNativeBuy (estimate_native_price (qp_buy_token p) (pq_timeout trade_query)) in
  let '(quoted_sell_amount, quoted_buy_amount) :=
    match qp_side p with
    | QuoteSell (BeforeFee sell_amount) | QuoteSell (AfterFee sell_amount) =>
        (sell_amount, est_out_amount trade_estimate)
    | QuoteBuy buy_amount => (est_out_amount trade_estimate, buy_amount)
    end in
  let fee_parameters := mkFeeParameters (f64_lit (est_gas trade_estimate)) (f64_lit effective_gas_price) price in
  letr _ := verify_quote trade_estimate p quoted_sell_amount in
  Ok (mkQuoteData (qp_sell_token p) (qp_buy_token p) quoted_sell_amount quoted_buy_amount fee_parameters
        (pq_kind trade_query) expiration (quote_kind_from_signing_scheme (qp_signing_scheme p))
        (est_solver trade_estimate) (est_verified trade_estimate) (V1 (est_execution trade_estimate))).

Definition calculate_quote (now : Z) (p : QuoteParameters) : comp (result CalculateQuoteError Quote) :=
  match compute_quote_data now p with
  | Err e => Ret (Err e)
  | Ok data =>
      let! quote := Quote_new None data in
      let! quote := with_additional_cost quote (parameters_additional_cost p) in
      match qp_side p with
      | QuoteSell (BeforeFee sell_amount_before_fee) =>
          let sell_amount := saturating_sub sell_amount_before_fee (q_fee_amount quote) in
          if sell_amount =? 0 then Ret (Err (SellAmountDoesNotCoverFee (q_fee_amount quote)))
          else let! quote := with_scaled_sell_amount quote sell_amount in Ret (Ok quote)
      | _ => Ret (Ok quote)
      end
  end.

Definition store_quote (q : Quote) (t : QuoteTable) : result string Quote * QuoteTable :=
  match storage_save (q_data q) t with
  | (Ok id, t') => (Ok (mkQuote (Some id) (q_data q) (q_sell_amount q) (q_buy_amount q) (q_fee_amount q)), t')
  | (Err e, t') => (Err e, t')
  end.

Definition storage_err {A} (r : result string A) : result FindQuoteError A :=
  match r with Ok a => Ok a | Err e => Err (FindOther e) end.

(** The stored data a search selects. *)
Definition find_quote_data (now : Z) (id : option Z) (s : QuoteSearchParameters) (t : QuoteTable)
  : result FindQuoteError (Z * QuoteData) :=
  match id with
  | Some id =>
      letr data := storage_err (storage_get id t) in
      letr data := ok_or data (QuoteNotFound (Some id)) in
      if negb (quote_matches s data) then Err (ParameterMismatch data)
      else if qd_expiration data <? now then Err (QuoteExpired (qd_expiration data))
      else Ok (id, data)
  | None =>
      letr found := storage_err (storage_find s now t) in
      ok_or found (QuoteNotFound None)
  end.

Definition find_quote (now : Z) (id : option Z) (s : QuoteSearchParameters) (t : QuoteTable)
  : comp (result FindQuoteError Quote) :=
  let scaled_sell_amount := match qs_kind s with Sell => Some (qs_sell_amount s) | Buy => None end in
  match find_quote_data now id s t with
  | Err e => Ret (Err e)
  | Ok (id, data) =>
      let! quote := Quote_new (Some id) data in
      let! quote := with_additional_cost quote (search_additional_cost s) in
      match scaled_sell_amount with
      | Some sell_amount => let! quote := with_scaled_sell_amount quote sell_amount in Ret (Ok quote)
      | None => Ret (Ok quote)
      end
  end.
End quoter.

(** ** Facts *)
Lemma Side_eqb_eq a b : Side_eqb a b = true <-> a = b.
Proof. by destruct a, b. Qed.

Lemma bd_eqb_u256 d x y : bd_eqb d (u256_to_big_decimal x) = true -> big_decimal_to_u256 d = Some y -> y = x.
Proof.
  unfold bd_eqb, big_decimal_to_u256, u256_to_big_decimal. cbn [bd_int bd_exp].
  rewrite Z.eqb_eq. intros E. destruct (Z.leb_spec (bd_exp d) 0) as [Hle|Hlt].
  - destruct (fits 256 _); [|done]. intros [= <-].
    rewrite (Z.max_r 0 (0 - bd_exp d)), (Z.max_l 0 (bd_exp d - 0)) in E by lia.
    rewrite Z.sub_0_l, Z.pow_0_r, Z.mul_1_r in E. done.
  - rewrite (Z.max_l 0 (0 - bd_exp d)), (Z.max_r 0 (bd_exp d - 0)) in E by lia.
    rewrite Z.pow_0_r, Z.mul_1_r, Z.sub_0_r in E.
    destruct (_ =? 0); [|done]. destruct (fits 256 _); [|done]. intros [= <-].
    rewrite E. apply Z.div_mul. pose proof (Z.pow_pos_nonneg 10 (bd_exp d)). lia.
Qed.

Lemma with_scaled_sell_amount_Ret q sell q' :
  with_scaled_sell_amount q sell = Ret q' <->
  qd_quoted_sell_amount (q_data q) <> 0 /\
  q' = mkQuote (q_id q) (q_data q) sell
         (let buy := qd_quoted_buy_amount (q_data q) * sell / qd_quoted_sell_amount (q_data q) in
          if fits 256 buy then buy else U256_MAX) (q_fee_amount q).
Proof.
  unfold with_scaled_sell_amount. rewrite comp_bind_Ret. setoid_rewrite div_u256_Ret.
  split; [intros (buy & [-> Hne] & [= <-]); done|]. intros [Hne ->]. eauto.
Qed.

(** The least element is an element, whatever the comparison. *)
Lemma min_by_elem {A} (cmp : A -> A -> comparison) l m : min_by cmp l = Some m -> m ∈ l.
Proof.
  destruct l as [|x l]; [done|]. intros [= <-]. revert x. induction l as [|y l IH]; intros x; [left|].
  cbn [min_by_from]. destruct (cmp _ _); specialize (IH x) as H1; specialize (IH y) as H2; set_solver.
Qed.

Section quoter_spec.
Context (u256_from_f64 : f64 -> comp Z).
Context (to_value : QuoteMetadata -> option string) (from_value : string -> option QuoteMetadataHelper).
Context (effective_gas_price : result string Z).
Context (estimate : PriceQuery -> result PriceEstimationError Estimate).
Context (estimate_native_price : address -> Z -> result PriceEstimationError f64).
Context (get_balances : list BalanceQuery -> list (result string Z)).
Context (validity : QuoteValidity) (quote_verification : QuoteVerificationMode) (default_quote_timeout : Z).

Abbreviation compute_quote_data :=
  (compute_quote_data effective_gas_price estimate estimate_native_price get_balances validity
     quote_verification default_quote_timeout).
Abbreviation calculate_quote :=
  (calculate_quote u256_from_f64 effective_gas_price estimate estimate_native_price get_balances validity
     quote_verification default_quote_timeout).
Abbreviation store_quote := (store_quote to_value).
Abbreviation find_quote := (find_quote u256_from_f64 from_value).

(** The amount a request fixes, and on which side. *)
Definition side_kind (side : OrderQuoteSide) : Side := match side with QuoteSell _ => Sell | QuoteBuy _ => Buy end.
Definition side_amount (side : OrderQuoteSide) : Z :=
  match side with QuoteSell (BeforeFee v) | QuoteSell (AfterFee v) | QuoteBuy v => v end.

(** The quoted amounts of data computed for a request. *)
Lemma compute_quote_data_Ok now p d :
  compute_quote_data now p = Ok d ->
  qd_sell_token d = qp_sell_token p /\ qd_buy_token d = qp_buy_token p /\
  qd_kind d = side_kind (qp_side p) /\ qd_expiration d = quote_expiration validity now (qp_signing_scheme p) /\
  qd_quote_kind d = quote_kind_from_signing_scheme (qp_signing_scheme p) /\
  exists e, estimate (to_price_query p default_quote_timeout) = Ok e /\
    (qd_quoted_sell_amount d, qd_quoted_buy_amount d) =
      Estimate_amounts e (to_price_query p default_quote_timeout) /\
    match side_kind (qp_side p) with
    | Sell => qd_quoted_sell_amount d = side_amount (qp_side p)
    | Buy => qd_quoted_buy_amount d = side_amount (qp_side p)
    end.
Proof.
  unfold OrderQuoting.compute_quote_data.
  destruct (price_err EkGas _) as [g|] eqn:Hg; [|done]. cbn [result_bind].
  destruct (estimate _) as [e|] eqn:He; [|done]. cbn [price_err result_bind].
  destruct (price_err EkNativeSell _) as [pr|]; [|done]. cbn [result_bind].
  destruct (price_err EkNativeBuy _) as [pb|]; [|done]. cbn [result_bind].
  destruct (qp_side p) as [[v|v]|v] eqn:Hs;
    (destruct (verify_quote _ _ _ _ _) as [[]|]; [|done]); cbn [result_bind];
    intros [= <-]; cbn [qd_sell_token qd_buy_token qd_kind qd_expiration qd_quote_kind qd_quoted_sell_amount
      qd_quoted_buy_amount side_kind side_amount]; (do 2 (split; [done|]));
    (split; [unfold to_price_query; by rewrite Hs|]); (do 2 (split; [done|])); exists e;
    (split; [done|]); unfold Estimate_amounts, to_price_query; rewrite Hs; done.
Qed.

(** Requests carry non-zero 256-bit amounts and estimators answer with 256-bit amounts. *)
Definition request_wf (p : QuoteParameters) : Prop :=
  0 < side_amount (qp_side p) < 2 ^ 256 /\
  forall e, estimate (to_price_query p default_quote_timeout) = Ok e -> u256 (est_out_amount e).

Lemma compute_quote_data_u256 now p d :
  request_wf p -> compute_quote_data now p = Ok d ->
  u256 (qd_quoted_sell_amount d) /\ u256 (qd_quoted_buy_amount d).
Proof.
  intros [Hv He] Hd. apply compute_quote_data_Ok in Hd as (_ & _ & _ & _ & _ & e & Hest & Ham & _).
  specialize (He e Hest). revert Ham. unfold Estimate_amounts, to_price_query, u256 in *.
  destruct (qp_side p) as [[v|v]|v]; cbn [side_amount pq_kind pq_in_amount] in *;
    rewrite pair_equal_spec; intros [-> ->]; lia.
Qed.

(** What [calculate_quote] answers. *)
Lemma calculate_quote_Ok now p q :
  calculate_quote now p = Ret (Ok q) ->
  q_id q = None /\ compute_quote_data now p = Ok (q_data q) /\
  fee_with_additional_cost u256_from_f64 (qd_fee_parameters (q_data q)) (parameters_additional_cost p)
    = Ret (q_fee_amount q) /\
  (exists f, fee u256_from_f64 (qd_fee_parameters (q_data q)) = Ret f) /\
  match qp_side p with
  | QuoteSell (BeforeFee v) =>
      q_sell_amount q = saturating_sub v (q_fee_amount q) /\ q_sell_amount q <> 0 /\
      with_scaled_sell_amount q (q_sell_amount q) = Ret q
  | _ => q_sell_amount q = qd_quoted_sell_amount (q_data q) /\ q_buy_amount q = qd_quoted_buy_amount (q_data q)
  end.
Proof.
  unfold OrderQuoting.calculate_quote. destruct (compute_quote_data now p) as [d|]; [|done].
  rewrite comp_bind_Ret. intros (q1 & Hq1 & H). rewrite comp_bind_Ret in H. destruct H as (q2 & Hq2 & H).
  unfold Quote_new in Hq1. rewrite comp_bind_Ret in Hq1. destruct Hq1 as (f & Hf & [= <-]).
  unfold with_additional_cost in Hq2. rewrite comp_bind_Ret in Hq2.
  cbn [q_data q_id q_sell_amount q_buy_amount] in Hq2. destruct Hq2 as (f2 & Hf2 & [= <-]).
  cbn [q_fee_amount] in H. destruct (qp_side p) as [[v|v]|v]; try by injection H as <-; eauto 10.
  destruct (Z.eqb_spec (saturating_sub v f2) 0) as [|Hne]; [done|].
  rewrite comp_bind_Ret in H. destruct H as (q3 & Hq3 & [= <-]).
  pose proof Hq3 as Hq3'. apply with_scaled_sell_amount_Ret in Hq3' as [_ ->]. eauto 10.
Qed.

(** *** Stored data is read back *)
Context (to_from_value : forall m v, to_value m = Some v -> from_value v = Some (MetadataData m)).

Lemma create_quote_row_read d row :
  u256 (qd_quoted_sell_amount d) -> u256 (qd_quoted_buy_amount d) ->
  create_quote_row to_value d = Ok row -> QuoteData_try_from from_value row = Ok d.
Proof.
  intros Hs Hb. unfold create_quote_row. destruct (to_value (qd_metadata d)) as [v|] eqn:Hv; [|done].
  intros [= <-]. unfold QuoteData_try_from. cbn [qrow_sell_amount qrow_buy_amount qrow_metadata].
  rewrite !big_decimal_round_trip by (unfold u256, U256_MAX in *; lia). cbn [ok_or result_bind].
  rewrite (to_from_value _ _ Hv). by destruct d as [? ? ? ? [] ? ? ? ? ? ?].
Qed.

Lemma store_quote_get q t q' t' :
  u256 (qd_quoted_sell_amount (q_data q)) -> u256 (qd_quoted_buy_amount (q_data q)) ->
  store_quote q t = (Ok q', t') ->
  q_data q' = q_data q /\ q_fee_amount q' = q_fee_amount q /\ q_sell_amount q' = q_sell_amount q /\
  q_buy_amount q' = q_buy_amount q /\
  exists id, q_id q' = Some id /\ storage_get from_value id t' = Ok (Some (q_data q)).
Proof.
  intros Hs Hb. unfold OrderQuoting.store_quote, storage_save.
  destruct (create_quote_row to_value (q_data q)) as [row|] eqn:Hrow; [|done].
  unfold quotes_save. intros [= <- <-]. cbn [q_data q_fee_amount q_sell_amount q_buy_amount q_id].
  do 4 (split; [done|]). eexists. split; [done|]. unfold storage_get, quotes_get. cbn [quote_rows].
  rewrite lookup_insert_eq. by rewrite (create_quote_row_read _ _ Hs Hb Hrow).
Qed.

(** A search for the order that a quote was requested for. *)
Definition searches_for (s : QuoteSearchParameters) (p : QuoteParameters) : Prop :=
  qs_sell_token s = qp_sell_token p /\ qs_buy_token s = qp_buy_token p /\
  qs_kind s = side_kind (qp_side p) /\
  search_additional_cost s = parameters_additional_cost p /\
  match side_kind (qp_side p) with
  | Sell => qs_sell_amount s = side_amount (qp_side p)
  | Buy => qs_buy_amount s = side_amount (qp_side p)
  end.

Lemma searches_for_matches s p now d :
  searches_for s p -> compute_quote_data now p = Ok d -> quote_matches s d = true.
Proof.
  intros (Hst & Hbt & Hk & _ & Ham) Hd.
  apply compute_quote_data_Ok in Hd as (Est & Ebt & Ek & _ & _ & e & _ & _ & Hamt).
  unfold quote_matches. rewrite Hst, Hbt, Est, Ebt, !Z.eqb_refl, !andb_true_r, Hk, Ek.
  apply andb_true_intro. split; [|by apply Side_eqb_eq].
  destruct (side_kind (qp_side p)); rewrite Ham, Hamt, Z.eqb_refl; done.
Qed.

(** A quote that was computed and stored is found again.  Looking up
    the id of a stored quote, before it expires, for an order with the tokens, kind and
    amount the quote was requested for, returns the stored data with the quoted amounts
    and the same fee; unless the request fixed the sell amount before fees, that is the
    very quote the user was given. *)
Theorem quote_round_trip now p q t q' t' now' s :
  request_wf p ->
  calculate_quote now p = Ret (Ok q) -> store_quote q t = (Ok q', t') ->
  searches_for s p -> now' <= quote_expiration validity now (qp_signing_scheme p) ->
  exists q'', find_quote now' (q_id q') s t' = Ret (Ok q'') /\
    q_id q'' = q_id q' /\ q_data q'' = q_data q /\ q_fee_amount q'' = q_fee_amount q /\
    q_sell_amount q'' = qd_quoted_sell_amount (q_data q) /\
    q_buy_amount q'' = qd_quoted_buy_amount (q_data q) /\
    (match qp_side p with QuoteSell (BeforeFee _) => True | _ => q'' = q' end).
Proof.
  intros Hwf Hq Hst Hs Hexp. apply calculate_quote_Ok in Hq as (_ & Hd & Hfee & [f Hf] & Hside).
  destruct (compute_quote_data_u256 _ _ _ Hwf Hd) as [Hus Hub].
  destruct (store_quote_get _ _ _ _ Hus Hub Hst) as (Ed & Ef & Es & Eb & id & Eid & Hget).
  pose proof (compute_quote_data_Ok _ _ _ Hd) as (_ & _ & Ek & Eexp & _ & e & _ & _ & Hamt).
  pose proof (searches_for_matches _ _ _ _ Hs Hd) as Hm. destruct Hs as (_ & _ & Hk & Hcost & Ham).
  unfold OrderQuoting.find_quote, OrderQuoting.find_quote_data. rewrite Eid, Hget.
  cbn [storage_err result_bind ok_or]. rewrite Hm, (proj2 (Z.ltb_ge _ _)) by (rewrite Eexp; lia).
  cbn [negb]. unfold Quote_new. rewrite Hf. cbn [comp_bind]. unfold with_additional_cost.
  cbn [q_data q_id q_sell_amount q_buy_amount]. rewrite Hcost, Hfee. cbn [comp_bind].
  assert (Eq' : q' = mkQuote (Some id) (q_data q) (q_sell_amount q) (q_buy_amount q) (q_fee_amount q)).
  { destruct q'. cbn in *. congruence. }
  rewrite Hk. destruct (qp_side p) as [a|v] eqn:Hsd; cbn [side_kind] in *.
  - unfold with_scaled_sell_amount. cbn [q_data q_id q_fee_amount]. rewrite Ham, <-Hamt.
    destruct Hwf as [Hv _]. rewrite Hsd in Hv.
    unfold div_u256. rewrite (proj2 (Z.eqb_neq _ _)) by lia. cbn [comp_bind].
    rewrite Z.div_mul by lia. rewrite (proj2 (fits_spec 256 _) Hub). eexists. split; [done|].
    cbn [q_data q_id q_fee_amount q_sell_amount q_buy_amount]. do 5 (split; [done|]).
    destruct a as [v|v]; [done|]. rewrite Eq'. destruct Hside as [-> ->]. done.
  - eexists. split; [done|]. cbn [q_data q_id q_fee_amount q_sell_amount q_buy_amount].
    do 5 (split; [done|]). rewrite Eq'. destruct Hside as [-> ->]. done.
Qed.

End quoter_spec.

(** ** What a search finds *)
Section search_spec.
Context (u256_from_f64 : f64 -> comp Z) (from_value : string -> option QuoteMetadataHelper).
Abbreviation find_quote := (find_quote u256_from_f64 from_value).
Abbreviation find_quote_data := (find_quote_data from_value).

Lemma QuoteData_try_from_u256 row d :
  QuoteData_try_from from_value row = Ok d ->
  big_decimal_to_u256 (qrow_sell_amount row) = Some (qd_quoted_sell_amount d) /\
  big_decimal_to_u256 (qrow_buy_amount row) = Some (qd_quoted_buy_amount d) /\
  qd_sell_token d = qrow_sell_token row /\ qd_buy_token d = qrow_buy_token row /\
  qd_kind d = qrow_order_kind row /\ qd_expiration d = qrow_expiration_timestamp row /\
  qd_quote_kind d = qrow_quote_kind row.
Proof.
  unfold QuoteData_try_from. destruct (big_decimal_to_u256 (qrow_sell_amount row)) as [a|]; [|done].
  destruct (big_decimal_to_u256 (qrow_buy_amount row)) as [b|]; [|done]. cbn [ok_or result_bind].
  destruct (from_value (qrow_metadata row)); [|done]. by intros [= <-].
Qed.

Lemma big_decimal_to_u256_u256 d x : big_decimal_to_u256 d = Some x -> u256 x.
Proof.
  unfold big_decimal_to_u256. destruct (if bd_exp d <=? 0 then _ else _) as [y|]; [|done].
  destruct (fits 256 y) eqn:Hf; [|done]. intros [= <-]. by apply fits_spec in Hf.
Qed.

Lemma quotes_find_Ok p t id row :
  quotes_find p t = Ok (Some (id, row)) -> quote_rows t !! id = Some row /\ row_selected p row = true.
Proof.
  unfold quotes_find. set (rows := filter _ _).
  destruct (mapM _ rows) as [costs|] eqn:Hm; [|done]. intros [= Hmin].
  apply fmap_Some in Hmin as ([c r] & Hmin & Er). cbn [snd] in Er. subst r.
  apply min_by_elem, list_elem_of_lookup in Hmin as [k Hk]. apply mapM_Some_1 in Hm.
  destruct (Forall2_lookup_r _ _ _ _ _ Hm Hk) as (r & Hr & Hcost).
  apply fmap_Some in Hcost as (c' & _ & [= _ <-]).
  apply list_elem_of_lookup_2 in Hr. apply list_elem_of_filter in Hr as [Hsel Hr].
  by apply elem_of_map_to_list in Hr.
Qed.

Lemma storage_find_matches s now t id d :
  storage_find from_value s now t = Ok (Some (id, d)) ->
  exists row, quote_rows t !! id = Some row /\ QuoteData_try_from from_value row = Ok d /\
    quote_matches s d = true /\ now <= qd_expiration d /\
    qd_quote_kind d = quote_kind_from_signing_scheme (qs_signing_scheme s).
Proof.
  unfold storage_find. destruct (quotes_find _ t) as [[[i row]|]|] eqn:Hf; [|done..]. cbn [result_bind].
  destruct (QuoteData_try_from from_value row) as [d'|] eqn:Hd; [|done]. intros [= <- <-].
  apply quotes_find_Ok in Hf as [Hrow Hsel]. exists row. split; [done|]. split; [done|].
  apply QuoteData_try_from_u256 in Hd as (Hs & Hb & Est & Ebt & Ek & Ee & Eqk).
  unfold row_selected, create_db_search_parameters in Hsel.
  cbn [dqs_sell_token dqs_buy_token dqs_sell_amount_0 dqs_sell_amount_1 dqs_buy_amount dqs_kind
       dqs_expiration dqs_quote_kind] in Hsel.
  rewrite !andb_true_iff, !orb_true_iff, !andb_true_iff in Hsel.
  destruct Hsel as [[[[[Ht1 Ht2] Ham] Hk] Hexp] Hqk].
  rewrite Ee, Eqk. split; [|split; [lia|by apply bool_decide_eq_true in Hqk]].
  unfold quote_matches. rewrite Est, Ebt, Ek. apply Side_eqb_eq in Hk.
  rewrite !andb_true_iff. split; [split; [split|]|by apply Side_eqb_eq]; [|lia..].
  rewrite <-Hk. destruct (qrow_order_kind row).
  - destruct Ham as [[[? _]|[? _]]|[_ Hbd]]; [done..|].
    rewrite (bd_eqb_u256 _ _ _ Hbd Hb). apply Z.eqb_refl.
  - apply orb_true_iff.
    destruct Ham as [[[_ Hbd]|[_ Hbd]]|[? _]]; [left|right|done];
      rewrite (bd_eqb_u256 _ _ _ Hbd Hs); apply Z.eqb_refl.
Qed.

Lemma find_quote_data_Ok now id s t i d :
  find_quote_data now id s t = Ok (i, d) ->
  (exists row, quote_rows t !! i = Some row /\ QuoteData_try_from from_value row = Ok d) /\
  (forall j, id = Some j -> i = j) /\ quote_matches s d = true /\ now <= qd_expiration d /\
  (id = None -> qd_quote_kind d = quote_kind_from_signing_scheme (qs_signing_scheme s)).
Proof.
  unfold OrderQuoting.find_quote_data. destruct id as [id|].
  - unfold storage_get, quotes_get. destruct (quote_rows t !! id) as [row|] eqn:Hrow; [|done].
    destruct (QuoteData_try_from from_value row) as [d'|] eqn:Hd; [|done]. cbn [result_bind storage_err ok_or].
    destruct (quote_matches s d') eqn:Hm; [|done]. cbn [negb].
    destruct (Z.ltb_spec (qd_expiration d') now); [done|]. intros [= <- <-]. naive_solver.
  - destruct (storage_find from_value s now t) as [[[i' d']|]|] eqn:Hf; [|done..].
    cbn [result_bind storage_err ok_or]. intros [= <- <-].
    apply storage_find_matches in Hf as (row & ? & ? & ? & ? & ?). naive_solver.
Qed.

Lemma find_quote_inv now id s t q :
  find_quote now id s t = Ret (Ok q) -> exists i, find_quote_data now id s t = Ok (i, q_data q).
Proof.
  unfold OrderQuoting.find_quote. destruct (find_quote_data now id s t) as [[i d]|]; [|done].
  rewrite comp_bind_Ret. intros (q1 & Hq1 & H). rewrite comp_bind_Ret in H. destruct H as (q2 & Hq2 & H).
  unfold Quote_new in Hq1. rewrite comp_bind_Ret in Hq1. destruct Hq1 as (f & _ & [= <-]).
  unfold with_additional_cost in Hq2. rewrite comp_bind_Ret in Hq2. destruct Hq2 as (f2 & _ & [= <-]).
  exists i. destruct (qs_kind s); [by injection H as <-|].
  rewrite comp_bind_Ret in H. destruct H as (q3 & Hq3 & [= <-]).
  apply with_scaled_sell_amount_Ret in Hq3 as [_ ->]. done.
Qed.

(** An order is only priced by a quote that fits it.  Whatever
    [find_quote] returns was stored for the order's tokens, kind and amount, has not
    expired, is the requested one when an id was given and one for the order's signing
    scheme otherwise; its amounts never promise a better rate than the stored one. *)
Theorem found_quote_fits now id s t q :
  0 <= qs_sell_amount s ->
  find_quote now id s t = Ret (Ok q) ->
  exists i row, q_id q = Some i /\ quote_rows t !! i = Some row /\
    QuoteData_try_from from_value row = Ok (q_data q) /\ (forall j, id = Some j -> i = j) /\
    quote_matches s (q_data q) = true /\ now <= qd_expiration (q_data q) /\
    (id = None -> qd_quote_kind (q_data q) = quote_kind_from_signing_scheme (qs_signing_scheme s)) /\
    (qs_kind s = Sell -> q_sell_amount q = qs_sell_amount s) /\
    q_buy_amount q * qd_quoted_sell_amount (q_data q) <= qd_quoted_buy_amount (q_data q) * q_sell_amount q.
Proof.
  intros Hsell. unfold OrderQuoting.find_quote.
  destruct (find_quote_data now id s t) as [[i d]|] eqn:Hd; [|done].
  apply find_quote_data_Ok in Hd as ((row & Hrow & Hdat) & Hid & Hm & Hexp & Hk).
  rewrite comp_bind_Ret. intros (q1 & Hq1 & H). rewrite comp_bind_Ret in H. destruct H as (q2 & Hq2 & H).
  unfold Quote_new in Hq1. rewrite comp_bind_Ret in Hq1. destruct Hq1 as (f & _ & [= <-]).
  unfold with_additional_cost in Hq2. rewrite comp_bind_Ret in Hq2. destruct Hq2 as (f2 & _ & [= <-]).
  cbn [q_data q_id q_sell_amount q_buy_amount] in H. exists i, row.
  destruct (qs_kind s) eqn:Hks.
  - injection H as <-. cbn [q_data q_id q_sell_amount q_buy_amount].
    do 7 (split; [done|]). split; [done|]. lia.
  - rewrite comp_bind_Ret in H. destruct H as (q3 & Hq3 & [= <-]).
    apply with_scaled_sell_amount_Ret in Hq3 as [Hne ->]. cbn [q_data q_id q_sell_amount q_buy_amount] in *.
    do 8 (split; [done|]). pose proof (QuoteData_try_from_u256 _ _ Hdat) as (Hs & Hb & _).
    apply big_decimal_to_u256_u256 in Hs, Hb. unfold u256 in Hs, Hb.
    pose proof (Z.mul_div_le (qd_quoted_buy_amount d * qs_sell_amount s) (qd_quoted_sell_amount d)) as Hdiv.
    destruct (fits 256 _) eqn:Hf; [lia|].
    assert (Hbig : ~ (0 <= qd_quoted_buy_amount d * qs_sell_amount s / qd_quoted_sell_amount d < 2 ^ 256))
      by (rewrite <-fits_spec; congruence).
    pose proof (Z.div_pos (qd_quoted_buy_amount d * qs_sell_amount s) (qd_quoted_sell_amount d)).
    unfold U256_MAX. nia.
Qed.
End search_spec.

(** ** Examples *)
Definition sample_estimate : Estimate := mkEstimate 900 100 7 true (mkQuoteExecution [] [] []).
Definition sample_verification : Verification := mkVerification 1 1 [] [] SellErc20 BuyErc20.
Definition sample_parameters : QuoteParameters :=
  mkQuoteParameters 1 2 (QuoteSell (BeforeFee 1000)) sample_verification QEip712 0 None.
Definition sample_search : QuoteSearchParameters :=
  mkQuoteSearchParameters 1 2 1000 800 0 Sell QEip712 0 sample_verification.
Definition empty_quotes : QuoteTable := mkQuoteTable ∅ 1.
Definition sample_validity : QuoteValidity := mkQuoteValidity 600 600 60.

(** An instance of the JSON codec on the execution that is stored here. *)
Definition sample_to_value (m : QuoteMetadata) : option string :=
  match m with V1 (mkQuoteExecution [] [] []) => Some "{}"%string | _ => None end.
Definition sample_from_value (v : string) : option QuoteMetadataHelper := Some (MetadataData QuoteMetadata_default).

Lemma sample_to_from_value m v : sample_to_value m = Some v -> sample_from_value v = Some (MetadataData m).
Proof. by destruct m as [[[|] [|] [|]]]. Qed.

Definition sample_calculated : comp (result CalculateQuoteError Quote) :=
  calculate_quote (fun x => Ret (f64_trunc x)) (Ok 1) (fun _ => Ok sample_estimate) (fun _ _ => Ok (f64_lit 1))
    (fun _ => []) sample_validity Prefer 10 0 sample_parameters.

Definition sample_quote : Quote :=
  mkQuote None (mkQuoteData 1 2 1000 900 (mkFeeParameters (f64_lit 100) (f64_lit 1) (f64_lit 1)) Sell 60
                  StandardQuote 7 true QuoteMetadata_default) 900 810 100.

Definition sample_table : QuoteTable := Eval vm_compute in (store_quote sample_to_value sample_quote empty_quotes).2.

Lemma quote_round_trip_witness :
  exists q'', find_quote (fun x => Ret (f64_trunc x)) sample_from_value 60 (Some 1) sample_search sample_table
                = Ret (Ok q'') /\
    q_id q'' = Some 1 /\ q_data q'' = q_data sample_quote /\ q_fee_amount q'' = 100 /\
    q_sell_amount q'' = 1000 /\ q_buy_amount q'' = 900 /\ True.
Proof.
  apply (quote_round_trip (fun x => Ret (f64_trunc x)) sample_to_value sample_from_value (Ok 1)
           (fun _ => Ok sample_estimate) (fun _ _ => Ok (f64_lit 1)) (fun _ => []) sample_validity Prefer 10
           sample_to_from_value 0 sample_parameters sample_quote empty_quotes
           (mkQuote (Some 1) (q_data sample_quote) 900 810 100) sample_table 60 sample_search).
  - split; [split; vm_compute; done|]. intros e [= <-]. split; [vm_compute; discriminate|vm_compute; done].
  - vm_compute. reflexivity.
  - vm_compute. reflexivity.
  - repeat split; vm_compute; reflexivity.
  - vm_compute. discriminate.
Defined.

Lemma found_quote_fits_witness :
  exists i row, Some 1 = Some i /\ quote_rows sample_table !! i = Some row /\
    QuoteData_try_from sample_from_value row = Ok (q_data sample_quote) /\ (forall j, None = Some j -> i = j) /\
    quote_matches sample_search (q_data sample_quote) = true /\ 60 <= 60 /\
    (@None Z = None -> StandardQuote = quote_kind_from_signing_scheme QEip712) /\
    (Sell = Sell -> 1000 = 1000) /\ 900 * 1000 <= 900 * 1000.
Proof.
  apply (found_quote_fits (fun x => Ret (f64_trunc x)) sample_from_value 60 None sample_search sample_table
           (mkQuote (Some 1) (q_data sample_quote) 1000 900 100)).
  - vm_compute. discriminate.
  - vm_compute. reflexivity.
Defined.

(** Among the stored quotes that fit, [find] does not take the one of least fee: it
    orders by the product with the price of the sell token, by which a fee is divided. *)
Definition quote_row_priced (price : Z) : QuoteRow :=
  mkQuoteRow 1 2 (u256_to_big_decimal 1000) (u256_to_big_decimal 900) (f64_lit 100) (f64_lit 1) (f64_lit price)
    Sell 60 StandardQuote 7 true "{}"%string.
Definition two_quotes : QuoteTable := mkQuoteTable {[ 1 := quote_row_priced 1; 2 := quote_row_priced 4 ]} 3.

Lemma find_not_least_fee :
  find_quote (fun x => Ret (f64_trunc x)) sample_from_value 0 (Some 2) sample_search two_quotes <>
  find_quote (fun x => Ret (f64_trunc x)) sample_from_value 0 None sample_search two_quotes /\
  match find_quote (fun x => Ret (f64_trunc x)) sample_from_value 0 None sample_search two_quotes,
        find_quote (fun x => Ret (f64_trunc x)) sample_from_value 0 (Some 2) sample_search two_quotes with
  | Ret (Ok found), Ret (Ok other) => q_fee_amount found = 100 /\ q_fee_amount other = 25
  | _, _ => False
  end.
Proof. split; [vm_compute; discriminate|vm_compute; split; reflexivity]. Qed.

(** A lookup by id does not compare the kind of the quote: a quote for an on-chain
    order, which lives longer, prices an order that is signed off-chain. *)
Lemma find_by_id_ignores_quote_kind :
  let row := mkQuoteRow 1 2 (u256_to_big_decimal 1000) (u256_to_big_decimal 900) (f64_lit 100) (f64_lit 1)
               (f64_lit 1) Sell 600 PreSignOnchainOrder 7 true "{}"%string in
  let t := mkQuoteTable {[ 1 := row ]} 2 in
  find_quote (fun x => Ret (f64_trunc x)) sample_from_value 600 None sample_search t = Ret (Err (QuoteNotFound None)) /\
  match find_quote (fun x => Ret (f64_trunc x)) sample_from_value 600 (Some 1) sample_search t with
  | Ret (Ok q) => qd_quote_kind (q_data q) = PreSignOnchainOrder
  | _ => False
  end.
Proof. split; vm_compute; reflexivity. Qed.
