(* ===== verification/OrderValidation.v ===== *)
(** * OrderValidation: which orders are accepted

    [crates/shared/src/order_validation.rs]: partial and full validation of a submitted
    order, and the construction of the order that is stored.

    The services the validator calls (the quoter apart) are parameters: banned users,
    token quality, balances, on-chain signatures, the counter of limit orders, the
    encoding of hooks.  The quoter is the interface [OrderQuoting], which carries the
    store of quotes as explicit state; [OrderQuoting.v] implements it.  One argument is
    the current time.  A panic of the quoter is a panic here. *)

From stdpp Require Import base gmap sets list strings.
From Stdlib Require Import ZArith Lia SpecFloat.
From S2P Require Import Prelude Collections F64 Eth Liquidity Solution Dto Score DriverOrder.
From S2P Require Import OrderModel AppData OrderCreation OrderQuoting.

Open Scope Z_scope.

(** ** Errors *)
Inductive OrderValidToError := Insufficient | Excessive.

Inductive PartialValidationError :=
| Forbidden
| ValidTo (err : OrderValidToError)
| InvalidNativeSellToken
| SameBuyAndSellToken
| UnsupportedBuyTokenDestination (destination : BuyTokenBalance)
| UnsupportedSellTokenSource (source : SellTokenBalance)
| PartialUnsupportedOrderType
| PartialUnsupportedToken (token : address) (reason : string)
| PartialOther (err : string).

(** [Invalid] holds an error of the validator, or the message about the hash whose
    pre-image is unknown. *)
Inductive AppDataValidationError :=
| AppDataMismatch (provided actual : Z)
| AppDataInvalid (err : AppDataError + Z).

Inductive ValidationError :=
| PartialError (err : PartialValidationError)
| AppDataErr (err : AppDataValidationError)
| PriceForQuote (err : PriceEstimationError)
| NonZeroFee
| InsufficientBalance
| InsufficientAllowance
| InvalidSignature
| TransferSimulationFailed
| MissingFrom
| AppdataFromMismatch (from app_data_signer : address)
| WrongOwner (recovered : address)
| InvalidEip1271Signature (hash : Z)
| ZeroAmount
| TooManyLimitOrders
| TooMuchGas
| ValQuoteNotVerified
| ValidationOther (err : string).

Definition ValidationError_from_verification (e : VerificationError) : ValidationError :=
  match e with
  | UnableToRecoverSigner => InvalidSignature
  | UnexpectedSigner recovered => WrongOwner recovered
  | VerMissingFrom => MissingFrom
  | VerAppdataFromMismatch from signer => AppdataFromMismatch from signer
  end.

Definition ValidationError_from_quote (e : CalculateQuoteError) : ValidationError :=
  match e with
  | Price _ (UnsupportedToken token reason) => PartialError (PartialUnsupportedToken token reason)
  | Price _ (ProtocolInternal err) | CalculateOther err => ValidationOther err
  | Price _ source => PriceForQuote source
  | QuoteNotVerified => ValQuoteNotVerified
  | SellAmountDoesNotCoverFee _ => ValidationOther "unexpected quote calculation error"%string
  end.

(** ** Configuration *)
Inductive SameTokensPolicy := Disallow | AllowSell.

Record OrderValidPeriodConfiguration := mkValidPeriod { vp_min : Z; vp_max_market : Z; vp_max_limit : Z }.

Definition any_period : OrderValidPeriodConfiguration := mkValidPeriod 0 DURATION_MAX DURATION_MAX.

Record OrderValidator := mkOrderValidator {
  ov_native_token : address;
  ov_validity_configuration : OrderValidPeriodConfiguration;
  ov_eip1271_skip_creation_validation : bool;
  ov_hooks : address;
  ov_max_limit_orders_per_user : Z;
  ov_app_data_size_limit : Z;
  ov_max_gas_per_order : Z;
  ov_same_tokens_policy : SameTokensPolicy;
}.

Record PreOrderData := mkPreOrderData {
  po_owner : address;
  po_sell_token : address;
  po_buy_token : address;
  po_receiver : address;
  po_valid_to : Z;
  po_partially_fillable : bool;
  po_buy_token_balance : BuyTokenBalance;
  po_sell_token_balance : SellTokenBalance;
  po_signing_scheme : Scheme;
  po_class : OrderClass;
  po_kind : Side;
}.

Definition actual_receiver (owner : address) (order : OrderData) : address :=
  let receiver := default 0 (od_receiver order) in
  if receiver =? 0 then owner else receiver.

Definition from_order_creation (owner : address) (order : OrderData) (signing_scheme : Scheme) : PreOrderData :=
  mkPreOrderData owner (od_sell_token order) (od_buy_token order) (actual_receiver owner order)
    (od_valid_to order) (od_partially_fillable order) (od_buy_token_balance order)
    (od_sell_token_balance order) signing_scheme
    (if od_fee_amount order =? 0 then ClassLimit else ClassMarket) (od_kind order).

(** [From<&OrderQuoteRequest> for PreOrderData]. *)
Definition PreOrderData_from_quote_request (now : Z) (r : OrderQuoteRequest) : PreOrderData :=
  mkPreOrderData (qr_from r) (qr_sell_token r) (qr_buy_token r) (default (qr_from r) (qr_receiver r))
    (actual_valid_to now (qr_validity r)) false (qr_buy_token_balance r) (qr_sell_token_balance r)
    (SigningScheme_from_quote (qr_signing_scheme r)) ClassMarket
    (match qr_side r with QuoteBuy _ => Buy | QuoteSell _ => Sell end).

Record OrderAppData := mkOrderAppData { oad_inner : ValidAppData; oad_interactions : Interactions }.

(** ** Periods and tokens *)
Definition period_max (c : OrderValidPeriodConfiguration) (order : PreOrderData) : Z :=
  if bool_decide (po_signing_scheme order = PreSign) then DURATION_MAX
  else match po_class order with
       | ClassMarket => vp_max_market c
       | ClassLimit => vp_max_limit c
       | ClassLiquidity => DURATION_MAX
       end.

Definition validate_period (now : Z) (c : OrderValidPeriodConfiguration) (order : PreOrderData)
  : result OrderValidToError unit :=
  if po_valid_to order <? timestamp_after_duration now (vp_min c) then Err Insufficient
  else if timestamp_after_duration now (period_max c order) <? po_valid_to order then Err Excessive
  else Ok tt.

Definition validate_same_sell_and_buy_token (policy : SameTokensPolicy) (order : PreOrderData)
  (native_token : address) : result PartialValidationError unit :=
  if (po_sell_token order =? native_token) && (po_buy_token order =? BUY_ETH_ADDRESS) then
    Err SameBuyAndSellToken
  else if negb (po_sell_token order =? po_buy_token order) then Ok tt
  else match policy, po_kind order with
       | AllowSell, Sell => Ok tt
       | _, _ => Err SameBuyAndSellToken
       end.

(** ** Market price *)
Record Amounts := mkAmounts { am_sell : Z; am_buy : Z; am_fee : Z }.

(** Products are 512 bits wide; the sum of sell amount and fee wraps. *)
Definition is_order_outside_market_price (order quote : Amounts) (kind : Side) : bool :=
  let check :=
    match kind with
    | Buy => Some (am_sell order * am_buy quote <? wrapping_add (am_sell quote) (am_fee quote) * am_buy order)
    | Sell =>
        let? fee_buy := checked_mul (am_fee quote) (am_buy quote) in
        let? fee_share := checked_div fee_buy (am_sell quote) in
        let? quote_buy := checked_sub (am_buy quote) fee_share in
        Some (am_sell order * quote_buy <? am_sell quote * am_buy order)
    end in
  default true check.

(** ** Signing schemes of quotes *)
Definition convert_signing_scheme_into_quote_signing_scheme (scheme : Scheme) (order_placement_via_api : bool)
  (verification_gas_limit : Z) : option QuoteSigningScheme :=
  match order_placement_via_api, scheme with
  | true, Eip712 => Some QEip712
  | true, EthSign => Some QEthSign
  | false, Eip712 | false, EthSign => None
  | via_api, PreSign => Some (QPreSign (negb via_api))
  | via_api, Eip1271 => Some (QEip1271 (negb via_api) verification_gas_limit)
  end.

(** ** Gas *)

(** [as u64] saturates and takes a NaN to zero. *)
Definition f64_as_u64 (x : f64) : Z :=
  match x with
  | S754_infinity s => if s then 0 else 2 ^ 64 - 1
  | _ => Z.min (f64_trunc x) (2 ^ 64 - 1)
  end.

(** The sum of the quoted gas and the additional gas wraps in a [u64]. *)
Definition exceeds_gas_limit (quote : Quote) (additional_cost max_gas_per_order : Z) : bool :=
  max_gas_per_order <? (f64_as_u64 (gas_amount (qd_fee_parameters (q_data quote))) + additional_cost) mod 2 ^ 64.

(** ** The quoter, as validation uses it *)
Class OrderQuoting (store : Type) := {
  qt_calculate_quote : Z -> QuoteParameters -> comp (result CalculateQuoteError Quote);
  qt_store_quote : Quote -> store -> result string Quote * store;
  qt_find_quote : Z -> option Z -> QuoteSearchParameters -> store -> comp (result FindQuoteError Quote);
}.

(** What validation relies on: quotes that are found or computed are for the tokens and
    the kind asked for, and storing a quote keeps it. *)
Class OrderQuotingLaws (store : Type) `{!OrderQuoting store} : Prop := {
  qt_found_fits now id s t q :
    qt_find_quote now id s t = Ret (Ok q) ->
    quote_matches s (q_data q) = true /\ now <= qd_expiration (q_data q);
  qt_computed_fits now p q :
    qt_calculate_quote now p = Ret (Ok q) ->
    qd_sell_token (q_data q) = qp_sell_token p /\ qd_buy_token (q_data q) = qp_buy_token p /\
    qd_kind (q_data q) = side_kind (qp_side p);
  qt_stored_same q t q' t' :
    qt_store_quote q t = (Ok q', t') -> q_data q' = q_data q;
}.

Definition map_interactions (l : list EthInteraction) : list EthInteraction :=
  (fun i => mkEthInteraction (ei_target i) (ei_value i) (ei_calldata i)) <$> l.

Definition flashloan_override (p : ProtocolAppData) : option BalanceOverrideRequest :=
  (fun loan => mkBalanceOverride (fl_token loan) (fl_receiver loan) (fl_amount loan)) <$> pad_flashloan p.

Inductive TransferSimulationError := SimInsufficientAllowance | SimInsufficientBalance | SimTransferFailed | SimOther.
Inductive SignatureValidationError := SignatureInvalid | SignatureOther (err : string).

Record SignatureCheck := mkSignatureCheck {
  sc_signer : address;
  sc_hash : Z;
  sc_signature : list Z;
  sc_interactions : list EthInteraction;
  sc_balance_override : option BalanceOverrideRequest;
}.

Section validator.
Context (keccak256 : list Z -> Z) (ecrecover : list Z -> Z -> option address).
Context (utf8 : string -> bool) (from_slice : string -> option Root).
Context (execute_calldata : list Hook -> list Z).
Context (banned : list address -> gset address).
Context (detect : address -> result string (option string)).
Context (can_transfer : BalanceQuery -> Z -> result TransferSimulationError unit).
Context (check_signature : SignatureCheck -> result SignatureValidationError Z).
Context (limit_order_count : address -> result string Z).
Context (bd_from_f64 : f64 -> option BigDecimal) (to_value : QuoteMetadata -> option string).
Context (v : OrderValidator).

Definition check_max_limit_orders (owner : address) : result ValidationError unit :=
  match limit_order_count owner with
  | Err e => Err (ValidationOther e)
  | Ok num_limit_orders =>
      if ov_max_limit_orders_per_user v <=? num_limit_orders then Err TooManyLimitOrders else Ok tt
  end.

Definition to_interactions (hooks : list Hook) : list EthInteraction :=
  match hooks with
  | [] => []
  | _ => [mkEthInteraction (ov_hooks v) 0 (execute_calldata hooks)]
  end.

Definition custom_interactions (hooks : Hooks) : Interactions :=
  mkInteractions (to_interactions (hooks_pre hooks)) (to_interactions (hooks_post hooks)).

(** The loop over the transfer amounts; [res] is the outcome so far. *)
Fixpoint transfer_loop (order : OrderCreation) (query : BalanceQuery) (amounts : list Z)
  (res : result ValidationError unit) : result ValidationError unit :=
  match amounts with
  | [] => res
  | amount :: amounts =>
      match can_transfer query amount with
      | Ok _ => Ok tt
      | Err err =>
          match oc_signature order, err with
          | SigPreSign, (SimInsufficientAllowance | SimInsufficientBalance | SimTransferFailed) => Ok tt
          | _, SimInsufficientAllowance => Err InsufficientAllowance
          | _, SimInsufficientBalance => Err InsufficientBalance
          | _, (SimTransferFailed | SimOther) => transfer_loop order query amounts (Err TransferSimulationFailed)
          end
      end
  end.

Definition ensure_token_is_transferable (order : OrderCreation) (owner : address) (app_data : OrderAppData)
  : result ValidationError unit :=
  let query := mkBalanceQuery owner (oc_sell_token order) (oc_sell_token_balance order)
                 (in_pre (oad_interactions app_data)) (flashloan_override (va_protocol (oad_inner app_data))) in
  transfer_loop order query [1; 10; 100] (Ok tt).

Definition detect_token (token : address) : result PartialValidationError unit :=
  match detect token with
  | Err e => Err (PartialOther e)
  | Ok (Some reason) => Err (PartialUnsupportedToken token reason)
  | Ok None => Ok tt
  end.

Definition partial_validate (now : Z) (order : PreOrderData) : result PartialValidationError unit :=
  if negb (bool_decide (banned [po_receiver order; po_owner order] = ∅)) then Err Forbidden
  else if bool_decide (po_class order = ClassMarket) && po_partially_fillable order then
    Err PartialUnsupportedOrderType
  else if bool_decide (po_buy_token_balance order <> BuyErc20) then
    Err (UnsupportedBuyTokenDestination (po_buy_token_balance order))
  else if bool_decide (po_sell_token_balance order = SellInternal) then
    Err (UnsupportedSellTokenSource (po_sell_token_balance order))
  else
    letr _ := match validate_period now (ov_validity_configuration v) order with
              | Ok _ => Ok tt | Err e => Err (ValidTo e) end in
    letr _ := validate_same_sell_and_buy_token (ov_same_tokens_policy v) order (ov_native_token v) in
    if po_sell_token order =? BUY_ETH_ADDRESS then Err InvalidNativeSellToken
    else letr _ := detect_token (po_sell_token order) in
         detect_token (po_buy_token order).

Definition validate_document (app_data : string) : result AppDataValidationError ValidAppData :=
  match validate keccak256 utf8 from_slice (ov_app_data_size_limit v) app_data with
  | Ok d => Ok d
  | Err e => Err (AppDataInvalid (inl e))
  end.

Definition validate_app_data (app_data : OrderCreationAppData) (full_app_data_override : option string)
  : result AppDataValidationError OrderAppData :=
  letr app_data :=
    match app_data with
    | AppBoth full expected =>
        letr validated := validate_document full in
        if va_hash validated =? expected then Ok validated
        else Err (AppDataMismatch expected (va_hash validated))
    | AppHash hash =>
        match full_app_data_override with
        | Some full =>
            letr validated := validate_document full in
            Ok (mkValidAppData hash ""%string (va_protocol validated))
        | None => Err (AppDataInvalid (inr hash))
        end
    | AppFull full => validate_document full
    end in
  Ok (mkOrderAppData app_data (custom_interactions (pad_hooks (va_protocol app_data)))).

(** The gas an on-chain signature check takes; off-chain schemes take none. *)
Definition signature_gas (order : OrderCreation) (domain : Z) (data : OrderData) (owner : address)
  (app_data : OrderAppData) : result ValidationError Z :=
  match oc_signature order with
  | SigEip1271 signature =>
      if ov_eip1271_skip_creation_validation v then Ok 0
      else
        let hash := hashed_eip712_message keccak256 domain (hash_struct keccak256 data) in
        match check_signature (mkSignatureCheck owner hash signature (in_pre (oad_interactions app_data))
                                 (flashloan_override (va_protocol (oad_inner app_data)))) with
        | Ok gas => Ok gas
        | Err SignatureInvalid => Err (InvalidEip1271Signature hash)
        | Err (SignatureOther err) => Err (ValidationOther err)
        end
  | _ => Ok 0
  end.

Context {store : Type} `{!OrderQuoting store}.

(** The parameters of the fresh quote that is computed when none is found. *)
Definition fresh_quote_parameters (s : QuoteSearchParameters) : result ValidationError QuoteParameters :=
  letr side := match qs_kind s with
               | Buy => if qs_buy_amount s =? 0 then Err ZeroAmount else Ok (QuoteBuy (qs_buy_amount s))
               | Sell => if qs_sell_amount s =? 0 then Err ZeroAmount
                         else Ok (QuoteSell (AfterFee (qs_sell_amount s)))
               end in
  Ok (mkQuoteParameters (qs_sell_token s) (qs_buy_token s) side (qs_verification s) (qs_signing_scheme s)
        (qs_additional_gas s) None).

Definition get_or_create_quote (now : Z) (s : QuoteSearchParameters) (quote_id : option Z) (t : store)
  : comp (result ValidationError Quote * store) :=
  let! found := qt_find_quote now quote_id s t in
  match found with
  | Ok quote => Ret (Ok quote, t)
  | Err _ =>
      match fresh_quote_parameters s with
      | Err e => Ret (Err e, t)
      | Ok parameters =>
          let! computed := qt_calculate_quote now parameters in
          match computed with
          | Err e => Ret (Err (ValidationError_from_quote e), t)
          | Ok quote =>
              match qt_store_quote quote t with
              | (Ok quote, t') => Ret (Ok quote, t')
              | (Err e, t') => Ret (Err (ValidationOther e), t')
              end
          end
      end
  end.

Definition get_quote_and_check_fee (now : Z) (s : QuoteSearchParameters) (quote_id fee_amount : option Z) (t : store)
  : comp (result ValidationError Quote * store) :=
  let! answer := get_or_create_quote now s quote_id t in
  let '(quote, t) := answer in
  Ret (letr quote := quote in
       if match fee_amount with Some fee => negb (fee =? 0) | None => false end then Err NonZeroFee else Ok quote, t).

Definition outside_market (data : OrderData) (quote : Quote) : bool :=
  is_order_outside_market_price
    (mkAmounts (od_sell_amount data) (od_buy_amount data) (od_fee_amount data))
    (mkAmounts (q_sell_amount quote) (q_buy_amount quote) (q_fee_amount quote)) (od_kind data).

(** The class the order is stored with and its quote. *)
Definition classify (now : Z) (class : OrderClass) (data : OrderData) (owner : address)
  (s : QuoteSearchParameters) (quote_id : option Z) (t : store)
  : comp (result ValidationError (OrderClass * option Quote) * store) :=
  match class with
  | ClassMarket =>
      let! answer := get_quote_and_check_fee now s quote_id (Some (od_fee_amount data)) t in
      let '(quote, t) := answer in
      Ret (letr quote := quote in
           Ok (if outside_market data quote then ClassLimit else class, Some quote), t)
  | ClassLimit =>
      let! answer := get_quote_and_check_fee now s quote_id None t in
      let '(quote, t) := answer in
      Ret (match quote with
           | Ok quote =>
               letr _ := if outside_market data quote then check_max_limit_orders owner else Ok tt in
               Ok (class, Some quote)
           | Err (PriceForQuote NoLiquidity) => Ok (class, None)
           | Err other => Err other
           end, t)
  | ClassLiquidity =>
      let! answer := get_quote_and_check_fee now s quote_id None t in
      let '(quote, t) := answer in
      Ret (letr quote := quote in
           letr _ := if outside_market data quote then check_max_limit_orders owner else Ok tt in
           Ok (ClassLimit, None), t)
  end.

Definition quote_search (order : OrderCreation) (data : OrderData) (owner : address) (app_data : OrderAppData)
  (verification_gas_limit : Z) : result ValidationError QuoteSearchParameters :=
  let verification := mkVerification owner (default owner (oc_receiver order))
                        (map_interactions (in_pre (oad_interactions app_data)))
                        (map_interactions (in_post (oad_interactions app_data)))
                        (oc_sell_token_balance order) (oc_buy_token_balance order) in
  letr scheme := ok_or (convert_signing_scheme_into_quote_signing_scheme
                          (OrderSignature_scheme (oc_signature order)) true verification_gas_limit) InvalidSignature in
  Ok (mkQuoteSearchParameters (od_sell_token data) (od_buy_token data) (od_sell_amount data) (od_buy_amount data)
        (od_fee_amount data) (od_kind data) scheme
        (hooks_gas_limit (pad_hooks (va_protocol (oad_inner app_data)))) verification).

(** Everything before the quoter is asked: the verified owner, the order's data, the
    app data and the search for its quote. *)
Definition validate_static (now : Z) (order : OrderCreation) (domain : Z) (full_app_data_override : option string)
  : result ValidationError (OrderAppData * address * OrderData * QuoteSearchParameters) :=
  letr app_data := match validate_app_data (oc_app_data order) full_app_data_override with
                   | Ok a => Ok a | Err e => Err (AppDataErr e) end in
  letr owner := match verify_owner keccak256 ecrecover order domain (pad_signer (va_protocol (oad_inner app_data))) with
                | Ok o => Ok o | Err e => Err (ValidationError_from_verification e) end in
  let d := OrderCreation_data keccak256 order in
  let data := mkOrderData (od_sell_token d) (od_buy_token d) (od_receiver d) (od_sell_amount d)
                (od_buy_amount d) (od_valid_to d) (va_hash (oad_inner app_data)) (od_fee_amount d)
                (od_kind d) (od_partially_fillable d) (od_sell_token_balance d) (od_buy_token_balance d) in
  letr verification_gas_limit := signature_gas order domain data owner app_data in
  if (od_buy_amount data =? 0) || (od_sell_amount data =? 0) then Err ZeroAmount
  else
    letr _ := match partial_validate now (from_order_creation owner data (OrderSignature_scheme (oc_signature order))) with
              | Ok _ => Ok tt | Err e => Err (PartialError e) end in
    letr s := quote_search order data owner app_data verification_gas_limit in
    letr _ := ensure_token_is_transferable order owner app_data in
    Ok (app_data, owner, data, s).

Definition construct_order (now : Z) (order : OrderCreation) (domain : Z) (settlement_contract : address)
  (full_app_data_override : option string) (app_data : OrderAppData) (owner : address) (data : OrderData)
  (class : OrderClass) (quote : option Quote) : result ValidationError ModelOrder :=
  letr model_quote := match quote with
                      | None => Ok None
                      | Some q => match try_to_model_order_quote bd_from_f64 to_value q with
                                  | Ok q => Ok (Some q) | Err e => Err (ValidationOther e) end
                      end in
  let full_app_data := match oc_app_data order with
                       | AppBoth full _ | AppFull full => Some full
                       | AppHash _ => full_app_data_override
                       end in
  Ok (mkModelOrder
        (mkOrderMetadata now owner (uid keccak256 data domain owner) 0 0 0 0 0 0 false StatusOpen class
           settlement_contract None None None false full_app_data model_quote)
        data (oc_signature order) (oad_interactions app_data)).

Definition validate_and_construct_order (now : Z) (order : OrderCreation) (domain : Z)
  (settlement_contract : address) (full_app_data_override : option string) (t : store)
  : comp (result ValidationError (ModelOrder * option Quote) * store) :=
  match validate_static now order domain full_app_data_override with
  | Err e => Ret (Err e, t)
  | Ok (app_data, owner, data, s) =>
      let class := po_class (from_order_creation owner data (OrderSignature_scheme (oc_signature order))) in
      let! answer := classify now class data owner s (oc_quote_id order) t in
      let '(classified, t) := answer in
      Ret (letr classified := classified in
           let '(class, quote) := classified in
           if match quote with
              | Some q => exceeds_gas_limit q (search_additional_cost s) (ov_max_gas_per_order v)
              | None => false
              end then Err TooMuchGas
           else letr model := construct_order now order domain settlement_contract full_app_data_override
                                app_data owner data class quote in
                Ok (model, quote), t)
  end.
End validator.

(** ** What validation establishes *)

(** The checks that need neither signature nor balances. *)
Record well_formed_order (banned : list address -> gset address)
  (detect : address -> result string (option string)) (v : OrderValidator) (now : Z) (o : PreOrderData) : Prop := {
  wfo_not_banned : banned [po_receiver o; po_owner o] = ∅;
  wfo_fillable : po_class o = ClassMarket -> po_partially_fillable o = false;
  wfo_destination : po_buy_token_balance o = BuyErc20;
  wfo_source : po_sell_token_balance o <> SellInternal;
  wfo_not_too_short : timestamp_after_duration now (vp_min (ov_validity_configuration v)) <= po_valid_to o;
  wfo_not_too_long : po_valid_to o <= timestamp_after_duration now (period_max (ov_validity_configuration v) o);
  wfo_not_unwrap : ~ (po_sell_token o = ov_native_token v /\ po_buy_token o = BUY_ETH_ADDRESS);
  wfo_same_tokens : po_sell_token o = po_buy_token o -> ov_same_tokens_policy v = AllowSell /\ po_kind o = Sell;
  wfo_not_native : po_sell_token o <> BUY_ETH_ADDRESS;
  wfo_sell_supported : detect (po_sell_token o) = Ok None;
  wfo_buy_supported : detect (po_buy_token o) = Ok None;
}.

Section partial_spec.
Context (banned : list address -> gset address) (detect : address -> result string (option string)) (v : OrderValidator).

Lemma validate_period_Ok now c o :
  validate_period now c o = Ok tt <->
  timestamp_after_duration now (vp_min c) <= po_valid_to o <= timestamp_after_duration now (period_max c o).
Proof. unfold validate_period. repeat case_match; zify_bool; split; try done; lia. Qed.

Lemma same_tokens_Ok policy o native :
  validate_same_sell_and_buy_token policy o native = Ok tt <->
  ~ (po_sell_token o = native /\ po_buy_token o = BUY_ETH_ADDRESS) /\
  (po_sell_token o = po_buy_token o -> policy = AllowSell /\ po_kind o = Sell).
Proof.
  unfold validate_same_sell_and_buy_token.
  destruct (Z.eqb_spec (po_sell_token o) native), (Z.eqb_spec (po_buy_token o) BUY_ETH_ADDRESS),
    (Z.eqb_spec (po_sell_token o) (po_buy_token o)), policy, (po_kind o); cbn [andb negb]; naive_solver.
Qed.

Lemma detect_token_Ok token : detect_token detect token = Ok tt <-> detect token = Ok None.
Proof. unfold detect_token. destruct (detect token) as [[]|]; naive_solver. Qed.

Lemma result_bind_unit {E} (c k : result E unit) :
  result_bind c (fun _ => k) = Ok tt <-> c = Ok tt /\ k = Ok tt.
Proof. destruct c as [[]|]; naive_solver. Qed.

(** Partial validation accepts exactly the well-formed orders. *)
Lemma partial_validate_Ok now o :
  partial_validate banned detect v now o = Ok tt <-> well_formed_order banned detect v now o.
Proof.
  unfold partial_validate.
  assert (Hperiod : match validate_period now (ov_validity_configuration v) o with
                    | Ok _ => Ok tt | Err e => Err (ValidTo e) end = Ok tt <->
                    validate_period now (ov_validity_configuration v) o = Ok tt)
    by (destruct (validate_period _ _ _) as [[]|]; naive_solver).
  split.
  - case_bool_decide as Hb; cbn [negb]; [|done].
    destruct (bool_decide (po_class o = ClassMarket) && po_partially_fillable o) eqn:Hf; [done|].
    destruct (bool_decide (po_buy_token_balance o <> BuyErc20)) eqn:Hd; [done|].
    destruct (bool_decide (po_sell_token_balance o = SellInternal)) eqn:Hs; [done|].
    apply bool_decide_eq_false in Hd, Hs.
    rewrite result_bind_unit, Hperiod, result_bind_unit, validate_period_Ok, same_tokens_Ok.
    intros (Hp & (Hu & Hst) & H). destruct (Z.eqb_spec (po_sell_token o) BUY_ETH_ADDRESS); [done|].
    rewrite result_bind_unit, !detect_token_Ok in H. destruct H as [H1 H2].
    split; try done; try apply Hp.
    + intros Hc. rewrite bool_decide_true in Hf by done. exact Hf.
    + destruct (po_buy_token_balance o); [done|]. exfalso. by apply Hd.
  - intros []. rewrite bool_decide_true by done. cbn [negb].
    assert (bool_decide (po_class o = ClassMarket) && po_partially_fillable o = false) as ->
      by (case_bool_decide; [by rewrite wfo_fillable0|done]).
    rewrite bool_decide_false by (rewrite wfo_destination0; tauto). rewrite bool_decide_false by done.
    rewrite result_bind_unit, Hperiod, result_bind_unit, validate_period_Ok, same_tokens_Ok.
    split; [done|]. split; [done|]. rewrite (proj2 (Z.eqb_neq _ _)) by done.
    by rewrite result_bind_unit, !detect_token_Ok.
Qed.
End partial_spec.

Section validator_spec.
Context (keccak256 : list Z -> Z) (ecrecover : list Z -> Z -> option address).
Context (utf8 : string -> bool) (from_slice : string -> option Root).
Context (execute_calldata : list Hook -> list Z).
Context (banned : list address -> gset address).
Context (detect : address -> result string (option string)).
Context (can_transfer : BalanceQuery -> Z -> result TransferSimulationError unit).
Context (check_signature : SignatureCheck -> result SignatureValidationError Z).
Context (limit_order_count : address -> result string Z).
Context (bd_from_f64 : f64 -> option BigDecimal) (to_value : QuoteMetadata -> option string).
Context (v : OrderValidator).
Context {store : Type} `{!OrderQuoting store} `{!OrderQuotingLaws store}.

Abbreviation validate_app_data := (validate_app_data keccak256 utf8 from_slice execute_calldata v).
Abbreviation validate_static :=
  (validate_static keccak256 ecrecover utf8 from_slice execute_calldata banned detect can_transfer
     check_signature v).
Abbreviation validate_and_construct_order :=
  (validate_and_construct_order keccak256 ecrecover utf8 from_slice execute_calldata banned detect can_transfer
     check_signature limit_order_count bd_from_f64 to_value v).

(** The document an order commits to: its hash is the one in the order, except that an
    order that gives a hash only may be looked up under it. *)
Lemma validate_app_data_Ok a override d :
  validate_app_data a override = Ok d ->
  va_hash (oad_inner d) = OrderCreationAppData_hash keccak256 a /\
  oad_interactions d = custom_interactions execute_calldata v (pad_hooks (va_protocol (oad_inner d))) /\
  exists full, (match a with AppBoth f _ | AppFull f => Some f | AppHash _ => override end) = Some full /\
    validate_document keccak256 utf8 from_slice v full =
      Ok (mkValidAppData (hash_full_app_data keccak256 full) full (va_protocol (oad_inner d))) /\
    (forall f e, a = AppBoth f e -> e = hash_full_app_data keccak256 f).
Proof.
  unfold OrderValidation.validate_app_data.
  assert (Hdoc : forall full d, validate_document keccak256 utf8 from_slice v full = Ok d ->
            d = mkValidAppData (hash_full_app_data keccak256 full) full (va_protocol d)).
  { intros full d'. unfold validate_document.
    destruct (validate keccak256 utf8 from_slice (ov_app_data_size_limit v) full) as [d''|] eqn:Hv; [|done].
    apply validate_Ok in Hv as (_ & _ & root & _ & ->). by intros [= <-]. }
  destruct a as [full expected|hash|full]; cbn [OrderCreationAppData_hash].
  - destruct (validate_document _ _ _ v full) as [d'|] eqn:Hd; [|done]. cbn [result_bind].
    pose proof (Hdoc _ _ Hd) as E. destruct (Z.eqb_spec (va_hash d') expected) as [Ee|]; [|done].
    intros [= <-]. cbn [oad_inner oad_interactions].
    rewrite E in Ee |- *. cbn [va_hash va_protocol] in *. split; [done|]. split; [done|].
    exists full. split; [done|]. split; [by rewrite <-E|]. intros ? ? [= <- <-]. done.
  - destruct override as [full|]; [|done].
    destruct (validate_document _ _ _ v full) as [d'|] eqn:Hd; [|done]. intros [= <-].
    cbn [oad_inner oad_interactions va_hash va_protocol]. split; [done|]. split; [done|].
    exists full. split; [done|]. split; [by rewrite <-(Hdoc _ _ Hd)|done].
  - destruct (validate_document _ _ _ v full) as [d'|] eqn:Hd; [|done]. intros [= <-].
    cbn [oad_inner oad_interactions]. pose proof (Hdoc _ _ Hd) as E. split; [by rewrite E|]. split; [done|].
    exists full. split; [done|]. split; [by rewrite <-E|done].
Qed.

Lemma transfer_loop_Ok order query amounts res :
  transfer_loop can_transfer order query amounts res = Ok tt ->
  res = Ok tt /\ amounts = [] \/ oc_signature order = SigPreSign \/
  exists amount, amount ∈ amounts /\ can_transfer query amount = Ok tt.
Proof.
  revert res. induction amounts as [|a amounts IH]; intros res; cbn [transfer_loop]; [auto|].
  destruct (can_transfer query a) as [[]|err] eqn:Hc.
  { intros _. do 2 right. exists a. split; [left|done]. }
  assert (Hrec : transfer_loop can_transfer order query amounts (Err TransferSimulationFailed) = Ok tt ->
            oc_signature order = SigPreSign \/ exists amount, amount ∈ a :: amounts /\ can_transfer query amount = Ok tt).
  { intros [[? _]|[?|(b & Hb & ?)]]%IH; [done|by left|]. right. exists b. split; [by right|done]. }
  destruct (oc_signature order), err; intros H; try done; auto.
Qed.

(** The quoter answers for the tokens and the kind that were asked for. *)
Definition quote_for (data : OrderData) (q : Quote) : Prop :=
  qd_sell_token (q_data q) = od_sell_token data /\ qd_buy_token (q_data q) = od_buy_token data /\
  qd_kind (q_data q) = od_kind data.

Lemma get_or_create_quote_Ok now s id t q t' :
  get_or_create_quote now s id t = Ret (Ok q, t') ->
  qd_sell_token (q_data q) = qs_sell_token s /\ qd_buy_token (q_data q) = qs_buy_token s /\
  qd_kind (q_data q) = qs_kind s.
Proof.
  unfold get_or_create_quote. rewrite comp_bind_Ret. intros ([q0|e] & Hf & H).
  - injection H as <- <-. apply qt_found_fits in Hf as [Hm _]. unfold quote_matches in Hm.
    rewrite !andb_true_iff in Hm. destruct Hm as [[[_ H1] H2] H3]. apply Side_eqb_eq in H3. apply Z.eqb_eq in H1, H2. done.
  - destruct (fresh_quote_parameters s) as [p|] eqn:Hp; [|done].
    rewrite comp_bind_Ret in H. destruct H as ([q0|e'] & Hc & H); [|done].
    destruct (qt_store_quote q0 t) as [[q1|] t1] eqn:Hs; [|done]. injection H as <- <-.
    rewrite (qt_stored_same _ _ _ _ Hs). apply qt_computed_fits in Hc as (-> & -> & ->).
    unfold fresh_quote_parameters in Hp. destruct (qs_kind s); case_match; try done;
      injection Hp as <-; done.
Qed.

(** An order with a fee is never classified: quotes are refused for it. *)
Lemma classify_Ok now class data owner s id t r t' :
  classify limit_order_count v now class data owner s id t = Ret (Ok r, t') ->
  class <> ClassLiquidity -> (class = ClassMarket -> od_fee_amount data <> 0) ->
  class = ClassLimit /\ r.1 = ClassLimit /\
  (forall q, r.2 = Some q -> qd_sell_token (q_data q) = qs_sell_token s /\ qd_buy_token (q_data q) = qs_buy_token s /\
                             qd_kind (q_data q) = qs_kind s) /\
  (forall q, r.2 = Some q -> outside_market data q = true ->
             exists n, limit_order_count owner = Ok n /\ n < ov_max_limit_orders_per_user v).
Proof.
  intros H Hliq Hmarket. destruct class; [|done|]; unfold classify, get_quote_and_check_fee in H;
    rewrite comp_bind_Ret in H; destruct H as ([quote t1] & H1 & H); rewrite comp_bind_Ret in H1;
    destruct H1 as ([quote0 t2] & Hq & [= <- <-]).
  - destruct quote0 as [q|]; cbn [result_bind] in H; [|done].
    rewrite (proj2 (Z.eqb_neq _ _) (Hmarket eq_refl)) in H. done.
  - destruct quote0 as [q|[]]; cbn [result_bind] in H; try done; cycle 1.
    { destruct err; try done. by injection H as <- <-. }
    unfold check_max_limit_orders in H. split; [done|].
    pose proof (get_or_create_quote_Ok _ _ _ _ _ _ Hq) as Hfor.
    destruct (outside_market data q) eqn:Hout; [destruct (limit_order_count owner) as [n|] eqn:Hn; [|done];
      destruct (Z.leb_spec (ov_max_limit_orders_per_user v) n); [done|]|];
      injection H as <- <-; (split; [done|]); (split; intros q' [= <-]); try done; try congruence.
    intros _. by exists n.
Qed.

(** Who is behind an order: the signer of its data under the two schemes that recover one;
    otherwise whom the request or the app data name, and the contract of that account
    accepted the signature of an EIP-1271 order unless the check is switched off.  Nobody
    has signed a pre-signed order yet. *)
Definition authorised (order : OrderCreation) (domain : Z) (data : OrderData) (owner : address) (protocol : ProtocolAppData)
  (interactions : Interactions) : Prop :=
  let named := oc_from order = Some owner \/ pad_signer protocol = Some owner in
  match oc_signature order with
  | SigEip712 s =>
      ecrecover (Ecdsa_to_bytes s) (hashed_eip712_message keccak256 domain (hash_struct keccak256 data)) = Some owner
  | SigEthSign s =>
      ecrecover (Ecdsa_to_bytes s) (hashed_ethsign_message keccak256 domain (hash_struct keccak256 data)) = Some owner
  | SigEip1271 signature =>
      named /\
      (ov_eip1271_skip_creation_validation v = false -> exists gas,
         check_signature (mkSignatureCheck owner (hashed_eip712_message keccak256 domain (hash_struct keccak256 data))
           signature (in_pre interactions) (flashloan_override protocol)) = Ok gas)
  | SigPreSign => named
  end.

(** What holds of every order that is stored with a document of the protocol. *)
Record accepted_order (now : Z) (order : OrderCreation) (domain : Z) (settlement_contract : address)
  (override : option string) (o : ModelOrder) (quote : option Quote) (document : string) (protocol : ProtocolAppData)
  : Prop := {
  ao_data : mo_data o = OrderCreation_data keccak256 order;
  ao_signature : mo_signature o = oc_signature order;
  ao_uid : md_uid (mo_metadata o) = uid keccak256 (mo_data o) domain (md_owner (mo_metadata o));
  ao_settlement : md_settlement_contract (mo_metadata o) = settlement_contract;
  ao_authorised : authorised order domain (mo_data o) (md_owner (mo_metadata o)) protocol (mo_interactions o);
  ao_from : forall from, oc_from order = Some from -> from = md_owner (mo_metadata o);
  ao_signer : forall signer, pad_signer protocol = Some signer -> signer = md_owner (mo_metadata o);
  ao_amounts : od_sell_amount (mo_data o) <> 0 /\ od_buy_amount (mo_data o) <> 0;
  ao_no_fee : od_fee_amount (mo_data o) = 0;
  ao_limit : md_class (mo_metadata o) = ClassLimit;
  ao_well_formed : well_formed_order banned detect v now
    (from_order_creation (md_owner (mo_metadata o)) (mo_data o) (OrderSignature_scheme (oc_signature order)));
  ao_transferable : oc_signature order <> SigPreSign -> exists amount, amount ∈ [1; 10; 100] /\
    can_transfer (mkBalanceQuery (md_owner (mo_metadata o)) (od_sell_token (mo_data o)) (od_sell_token_balance (mo_data o))
      (in_pre (mo_interactions o)) (flashloan_override protocol)) amount = Ok tt;
  ao_document : md_full_app_data (mo_metadata o) = Some document;
  ao_source : match oc_app_data order with
    | AppBoth full _ | AppFull full => document = full
    | AppHash _ => override = Some document
    end;
  ao_committed : match oc_app_data order with
    | AppBoth _ _ | AppFull _ => od_app_data (mo_data o) = hash_full_app_data keccak256 document
    | AppHash hash => od_app_data (mo_data o) = hash
    end;
  ao_valid_document : validate keccak256 utf8 from_slice (ov_app_data_size_limit v) document =
    Ok (mkValidAppData (hash_full_app_data keccak256 document) document protocol);
  ao_interactions : mo_interactions o = custom_interactions execute_calldata v (pad_hooks protocol);
  ao_quote : forall q, quote = Some q -> quote_for (mo_data o) q;
  ao_limited : forall q, quote = Some q -> outside_market (mo_data o) q = true ->
    exists n, limit_order_count (md_owner (mo_metadata o)) = Ok n /\ n < ov_max_limit_orders_per_user v;
}.

(** What holds before the quoter is asked. *)
Record static_checks (now : Z) (order : OrderCreation) (domain : Z) (override : option string)
  (a : OrderAppData) (owner : address) (data : OrderData) (s : QuoteSearchParameters) : Prop := {
  st_app_data : validate_app_data (oc_app_data order) override = Ok a;
  st_data : data = OrderCreation_data keccak256 order;
  st_owner : owner_justified keccak256 ecrecover order domain (pad_signer (va_protocol (oad_inner a))) owner;
  st_from : forall from, oc_from order = Some from -> from = owner;
  st_signer : forall signer, pad_signer (va_protocol (oad_inner a)) = Some signer -> signer = owner;
  st_signature : exists gas, signature_gas keccak256 check_signature v order domain data owner a = Ok gas;
  st_amounts : od_sell_amount data <> 0 /\ od_buy_amount data <> 0;
  st_well_formed : well_formed_order banned detect v now
    (from_order_creation owner data (OrderSignature_scheme (oc_signature order)));
  st_search : qs_sell_token s = od_sell_token data /\ qs_buy_token s = od_buy_token data /\ qs_kind s = od_kind data;
  st_transferable : ensure_token_is_transferable can_transfer order owner a = Ok tt;
}.

Lemma validate_static_Ok now order domain override a owner data s :
  validate_static now order domain override = Ok (a, owner, data, s) ->
  static_checks now order domain override a owner data s.
Proof.
  unfold OrderValidation.validate_static.
  destruct (validate_app_data _ override) as [a'|] eqn:Ha; [|done]. cbn [result_bind].
  destruct (verify_owner _ _ order domain _) as [owner'|] eqn:Ho; [|done]. cbn [result_bind].
  set (d := mkOrderData _ _ _ _ _ _ _ _ _ _ _ _).
  assert (Hd : d = OrderCreation_data keccak256 order).
  { unfold d. destruct (validate_app_data_Ok _ _ _ Ha) as (-> & _). by destruct order. }
  destruct (signature_gas _ _ _ _ _ _ _ _) as [gas|] eqn:Hg; [|done]. cbn [result_bind].
  destruct ((od_buy_amount d =? 0) || (od_sell_amount d =? 0)) eqn:Hz; [done|].
  destruct (partial_validate _ _ _ _ _) as [[]|] eqn:Hp; [|done]. cbn [result_bind].
  destruct (quote_search _ _ _ _ _) as [s'|] eqn:Hs; [|done]. cbn [result_bind].
  destruct (ensure_token_is_transferable _ _ _ _) as [[]|] eqn:Ht; [|done]. intros [= <- <- <- <-].
  apply partial_validate_Ok in Hp. apply verify_owner_Ok in Ho as (Ho & Hfrom & Hsigner).
  apply orb_false_iff in Hz as [Hz1%Z.eqb_neq Hz2%Z.eqb_neq].
  split; try done; [by eexists|]. unfold quote_search in Hs.
  destruct (convert_signing_scheme_into_quote_signing_scheme _ _ _); [|done]. by injection Hs as <-.
Qed.

Lemma owner_authorised order domain a owner data gas :
  data = OrderCreation_data keccak256 order ->
  owner_justified keccak256 ecrecover order domain (pad_signer (va_protocol (oad_inner a))) owner ->
  signature_gas keccak256 check_signature v order domain data owner a = Ok gas ->
  authorised order domain data owner (va_protocol (oad_inner a)) (oad_interactions a).
Proof.
  unfold owner_justified, signature_gas, authorised. intros ->.
  destruct (oc_signature order) as [s|s|signature|]; cbn [recover OrderSignature_scheme].
  - intros [Hr|[[=] _]] _. by destruct (ecrecover _ _); [injection Hr as ->|].
  - intros [Hr|[[=] _]] _. by destruct (ecrecover _ _); [injection Hr as ->|].
  - intros [[=]|[_ Hn]] Hg. split; [done|]. intros Hskip. rewrite Hskip in Hg.
    destruct (check_signature _) as [g|[]]; [eauto|done..].
  - by intros [[=]|[_ Hn]] _.
Qed.

Lemma authorised_justified order domain owner protocol interactions :
  authorised order domain (OrderCreation_data keccak256 order) owner protocol interactions ->
  owner_justified keccak256 ecrecover order domain (pad_signer protocol) owner.
Proof.
  unfold authorised, owner_justified. destruct (oc_signature order); cbn [recover OrderSignature_scheme is_ecdsa_scheme].
  - intros ->. by left.
  - intros ->. by left.
  - intros [Hn _]. by right.
  - intros Hn. by right.
Qed.

(** Every constructed order passed all the checks. *)
Lemma accepted_order_holds now order domain settlement_contract override t o quote t' :
  validate_and_construct_order now order domain settlement_contract override t = Ret (Ok (o, quote), t') ->
  exists document protocol, accepted_order now order domain settlement_contract override o quote document protocol.
Proof.
  unfold OrderValidation.validate_and_construct_order.
  destruct (validate_static now order domain override) as [[[[a owner] data] s]|] eqn:Hst; [|done].
  apply validate_static_Ok in Hst as [Ha Hd Ho Hfrom Hsigner [gas Hg] Ham Hwf (Hs1 & Hs2 & Hs3) Htr].
  rewrite comp_bind_Ret. intros ([[[class quote']|] t1] & Hc & H); [|done].
  apply classify_Ok in Hc as (Hlim & Hclass & Hfor & Hcount); cycle 1.
  { unfold from_order_creation. cbn [po_class]. by case_match. }
  { unfold from_order_creation. cbn [po_class]. case_match; [done|]. intros _. by apply Z.eqb_neq. }
  cbn [fst snd result_bind] in *. subst class.
  destruct (match quote' with Some _ => _ | None => false end); [done|].
  destruct (construct_order _ _ _ _ _ _ _ _ _ _ _ _ _) as [model|] eqn:Hm; [|done].
  cbn [result_bind] in H. injection H as <- <- <-. unfold construct_order in Hm.
  destruct (match quote' with None => _ | Some _ => _ end) as [mq|]; [|done]. injection Hm as <-.
  destruct (validate_app_data_Ok _ _ _ Ha) as (Hhash & Hint & full & Hfull & Hdoc & _).
  assert (Hfee : od_fee_amount data = 0).
  { revert Hlim. unfold from_order_creation. cbn [po_class]. by destruct (Z.eqb_spec (od_fee_amount data) 0). }
  exists full, (va_protocol (oad_inner a)).
  split; cbn [mo_data mo_signature mo_metadata mo_interactions md_uid md_owner md_settlement_contract md_class md_full_app_data];
    try done.
  - by eapply owner_authorised.
  - intros Hpre. apply transfer_loop_Ok in Htr as [[_ ?]|[?|(amount & Hin & Hok)]]; [done..|].
    exists amount. split; [done|]. rewrite Hd. exact Hok.
  - destruct (oc_app_data order) as [f ex|h|f]; congruence.
  - subst data. cbn [OrderCreation_data od_app_data].
    destruct (oc_app_data order) as [f ex|h|f] eqn:E; cbn [OrderCreationAppData_hash] in *; try done; [|congruence].
    by injection Hfull as ->.
  - unfold validate_document in Hdoc. destruct (validate _ _ _ _ full) as [va|] eqn:Hva; [|done]. by injection Hdoc as ->.
  - intros q Hq. unfold quote_for. rewrite <-Hs1, <-Hs2, <-Hs3. by apply Hfor.
Qed.

End validator_spec.

(** ** The quoter of [OrderQuoting.v] is the one validation relies on *)
Section order_quoter.
Context (u256_from_f64 : f64 -> comp Z).
Context (to_value : QuoteMetadata -> option string) (from_value : string -> option QuoteMetadataHelper).
Context (effective_gas_price : result string Z).
Context (estimate : PriceQuery -> result PriceEstimationError Estimate).
Context (estimate_native_price : address -> Z -> result PriceEstimationError f64).
Context (get_balances : list BalanceQuery -> list (result string Z)).
Context (validity : QuoteValidity) (quote_verification : QuoteVerificationMode) (default_quote_timeout : Z).

Definition OrderQuoter : OrderQuoting QuoteTable := {|
  qt_calculate_quote := calculate_quote u256_from_f64 effective_gas_price estimate estimate_native_price
                          get_balances validity quote_verification default_quote_timeout;
  qt_store_quote := store_quote to_value;
  qt_find_quote := find_quote u256_from_f64 from_value;
|}.

Lemma OrderQuoter_laws : @OrderQuotingLaws QuoteTable OrderQuoter.
Proof.
  split; cbn [qt_calculate_quote qt_store_quote qt_find_quote OrderQuoter].
  - intros now id s t q [i Hd]%find_quote_inv.
    apply find_quote_data_Ok in Hd as (_ & _ & Hm & He & _). done.
  - intros now p q (_ & Hd & _)%calculate_quote_Ok.
    apply compute_quote_data_Ok in Hd as (? & ? & ? & _). done.
  - intros q t q' t'. unfold store_quote. destruct (storage_save to_value (q_data q) t) as [[id|] t1]; [|done].
    by intros [= <- <-].
Qed.
End order_quoter.

(** ** Gas limits *)

(** The sum of gas wraps: a hook whose gas limit is the largest [u64] passes the limit
    on gas that a hook of one unit above it does not. *)
Lemma gas_limit_wraps :
  exceeds_gas_limit sample_quote (hooks_gas_limit (mkHooks [mkHook 1 [] (2 ^ 64 - 1)] [])) 8000000 = false /\
  exceeds_gas_limit sample_quote (hooks_gas_limit (mkHooks [mkHook 1 [] 8000001] [])) 8000000 = true.
Proof. split; vm_compute; reflexivity. Qed.

(** Below the range of [u64] the limit holds. *)
Lemma gas_limit_holds q additional max :
  0 <= additional -> f64_as_u64 (gas_amount (qd_fee_parameters (q_data q))) + additional < 2 ^ 64 ->
  exceeds_gas_limit q additional max = false ->
  f64_as_u64 (gas_amount (qd_fee_parameters (q_data q))) + additional <= max.
Proof.
  unfold exceeds_gas_limit. intros Ha Hlt.
  assert (0 <= f64_as_u64 (gas_amount (qd_fee_parameters (q_data q)))).
  { unfold f64_as_u64. pose proof (f64_trunc_nonneg (gas_amount (qd_fee_parameters (q_data q)))).
    case_match; try lia. by case_match. }
  rewrite Z.mod_small by lia. rewrite Z.ltb_ge. done.
Qed.

(** ** Examples *)
Definition sample_validator : OrderValidator :=
  mkOrderValidator 11 (mkValidPeriod 60 3600 86400) false 99 10 8192 8000000 Disallow.

Definition sample_creation : OrderCreation :=
  mkOrderCreation 1 2 None 1000 800 5000 0 Sell false SellErc20 BuyErc20 (Some 5) (SigEip712 (mkEcdsa 1 2 27)) None
    (AppFull EMPTY).

Definition sample_quoter : OrderQuoting QuoteTable :=
  OrderQuoter (fun x => Ret (f64_trunc x)) sample_to_value sample_from_value (Ok 1) (fun _ => Ok sample_estimate)
    (fun _ _ => Ok (f64_lit 1)) (fun _ => []) sample_validity Prefer 10.

Definition sample_validate (order : OrderCreation) :=
  @validate_and_construct_order sample_keccak (fun _ _ => Some 5) (fun _ => true) (fun _ => Some (mkRoot None None))
    (fun _ => []) (fun _ => ∅) (fun _ => Ok None) (fun _ _ => Ok tt) (fun _ => Err SignatureInvalid)
    (fun _ => Ok 0) (fun _ => Some (mkBigDecimal 1 0)) sample_to_value sample_validator QuoteTable sample_quoter
    1000 order 3 42 None empty_quotes.

Definition sample_accepted : ModelOrder * option Quote := Eval vm_compute in
  match sample_validate sample_creation with
  | Ret (Ok r, _) => r
  | _ => (mkModelOrder (mkOrderMetadata 0 0 0 0 0 0 0 0 0 false StatusOpen ClassMarket 0 None None None false None None)
            sample_order_data SigPreSign (mkInteractions [] []), None)
  end.
Definition sample_accepted_store : QuoteTable := Eval vm_compute in
  match sample_validate sample_creation with Ret (_, t) => t | Panic => empty_quotes end.


(** An order with another signer than the account it names is refused. *)
Example wrong_owner_refused :
  match sample_validate (mkOrderCreation 1 2 None 1000 800 5000 0 Sell false SellErc20 BuyErc20 (Some 6)
                           (SigEip712 (mkEcdsa 1 2 27)) None (AppFull EMPTY)) with
  | Ret (Err (WrongOwner 5), _) => True
  | _ => False
  end.
Proof. vm_compute. exact I. Qed.

(** An order that signs a fee is refused. *)
Example fee_refused :
  match sample_validate (mkOrderCreation 1 2 None 1000 800 4000 1 Sell false SellErc20 BuyErc20 (Some 5)
                           (SigEip712 (mkEcdsa 1 2 27)) None (AppFull EMPTY)) with
  | Ret (Err NonZeroFee, _) => True
  | _ => False
  end.
Proof. vm_compute. exact I. Qed.
