(* ===== verification/BannedUsers.v ===== *)
(** * BannedUsers: which users may trade

    [crates/order-validation/src/banned.rs]: a fixed list of users and an on-chain
    registry behind a cache that a background task refreshes.

    The cache of entries is a map; which entries an insertion evicts belongs to the
    cache's crate, so insertion is a parameter.  The registry ([isSanctioned]) is a
    parameter too and may fail.  Times are seconds. *)

From stdpp Require Import base gmap sets list.
From Stdlib Require Import ZArith Lia.
From S2P Require Import Prelude Collections Eth.

Open Scope Z_scope.

Record UserMetadata := mkUserMetadata { um_is_banned : bool; um_last_updated : Z }.

Abbreviation Cache := (gmap Z UserMetadata) (only parsing).

Record Users := mkUsers { u_list : gset address; u_onchain : option Cache }.

Definition Users_none : Users := mkUsers ∅ None.
Definition Users_from_set (l : gset address) : Users := mkUsers l None.
Definition Users_new (contract : bool) (banned_users : list address) : Users :=
  mkUsers (list_to_set banned_users) (if contract then Some ∅ else None).

Definition CACHE_EXPIRY : Z := 3600.
Definition MAINTENANCE_TIMEOUT : Z := 60.

Section users.
Context (cache_insert : address -> UserMetadata -> Cache -> Cache).
Context (fetch : address -> option bool).

(** The addresses the cache answers for, and those it does not know. *)
Definition lookup_cached (cache : Cache) (need_lookup : list address) (banned : gset address)
  : gset address * list address :=
  foldl (fun (st : gset Z * list Z) (address : Z) =>
           match cache !! address with
           | Some metadata => (if um_is_banned metadata then {[ address ]} ∪ st.1 else st.1, st.2)
           | None => (st.1, st.2 ++ [address])
           end) (banned, []) need_lookup.

(** The results of the lookups are cached; failures are not, and ban nobody. *)
Definition cache_results (now : Z) (to_cache : list (address * option bool)) (cache : Cache) (banned : gset address)
  : gset address * Cache :=
  foldl (fun st (r : Z * option bool) =>
           match r.2 with
           | Some is_banned =>
               (if is_banned then {[ r.1 ]} ∪ st.1 else st.1,
                cache_insert r.1 (mkUserMetadata is_banned now) st.2)
           | None => st
           end) (banned, cache) to_cache.

Definition banned (now : Z) (u : Users) (addresses : list address) : gset address * Users :=
  let listed := filter (fun a : Z => a ∈ u_list u) addresses in
  let need_lookup : gset address := list_to_set (filter (fun a : Z => (a ∉ u_list u)) addresses) in
  let banned : gset address := list_to_set listed in
  match u_onchain u with
  | None => (banned, u)
  | Some cache =>
      let '(banned, filtered) := lookup_cached cache (elements need_lookup) banned in
      let to_cache := (fun a => (a, fetch a)) <$> filtered in
      let '(banned, cache) := cache_results now to_cache cache banned in
      (banned, mkUsers (u_list u) (Some cache))
  end.

Definition insert_many_into_cache (now : Z) (addresses : list (address * UserMetadata)) (cache : Cache) : Cache :=
  foldl (fun c r => cache_insert r.1 (mkUserMetadata (um_is_banned r.2) now) c) cache addresses.

(** One round of the maintenance task: entries about to expire are fetched again. *)
Definition maintenance (start now : Z) (cache : Cache) : Cache :=
  let expired := filter (fun r => CACHE_EXPIRY - MAINTENANCE_TIMEOUT <= Z.max 0 (start - um_last_updated r.2))
                   (map_to_list cache) in
  let results := omap (fun r => match fetch r.1 with
                                | Some is_banned => Some (r.1, mkUserMetadata is_banned (um_last_updated r.2))
                                | None => None
                                end) expired in
  insert_many_into_cache now results cache.
End users.

(** ** The cache is transparent *)
Section users_spec.
Context (cache_insert : address -> UserMetadata -> Cache -> Cache).
Context (cache_insert_spec : forall a m c b m', cache_insert a m c !! b = Some m' -> b = a /\ m' = m \/ c !! b = Some m').
Context (fetch : address -> option bool).

(** Every cached status is the one of the registry. *)
Definition truthful (c : Cache) : Prop := map_Forall (fun a m => fetch a = Some (um_is_banned m)) c.

(** What [banned] answers without a cache. *)
Definition banned_uncached (u : Users) (addresses : list address) : gset address :=
  list_to_set (filter (fun a : Z => a ∈ u_list u \/ is_Some (u_onchain u) /\ fetch a = Some true) addresses).

Lemma cache_insert_truthful a b now c :
  truthful c -> fetch a = Some b -> truthful (cache_insert a (mkUserMetadata b now) c).
Proof. intros Hc Ha x m [[-> ->]|Hx]%cache_insert_spec; [done|by apply Hc]. Qed.

Lemma lookup_cached_spec (c : Cache) l acc k :
  foldl (fun (st : gset Z * list Z) (address : Z) =>
           match c !! address with
           | Some metadata => (if um_is_banned metadata then {[ address ]} ∪ st.1 else st.1, st.2)
           | None => (st.1, st.2 ++ [address])
           end) (acc, k) l =
  (list_to_set (filter (fun a => (um_is_banned <$> c !! a) = Some true) l) ∪ acc,
   k ++ filter (fun a => c !! a = None) l).
Proof.
  revert acc k. induction l as [|a l IH]; intros acc k; cbn [foldl].
  { rewrite app_nil_r. f_equal. cbn. set_solver. }
  rewrite !filter_cons. destruct (c !! a) as [m|] eqn:Ha; cbn [fst snd]; rewrite IH.
  - rewrite (decide_False (P := Some m = None)) by done. cbn [fmap option_fmap option_map].
    destruct (um_is_banned m); [rewrite decide_True by done|by rewrite decide_False by done].
    f_equal. cbn [list_to_set foldr]. set_solver.
  - rewrite decide_False, decide_True by done. by rewrite <-app_assoc.
Qed.

Lemma cache_results_spec now l (c : Cache) acc :
  truthful c ->
  let r := cache_results cache_insert now ((fun a => (a, fetch a)) <$> l) c acc in
  r.1 = list_to_set (filter (fun a => fetch a = Some true) l) ∪ acc /\ truthful r.2.
Proof.
  unfold cache_results. revert c acc. induction l as [|a l IH]; intros c acc Hc; cbn [fmap list_fmap foldl].
  { split; [cbn; set_solver|done]. }
  cbn [fst snd]. rewrite filter_cons. destruct (fetch a) as [[|]|] eqn:Ha.
  - destruct (IH (cache_insert a (mkUserMetadata true now) c) ({[ a ]} ∪ acc)) as [-> Ht];
      [by apply cache_insert_truthful|]. rewrite decide_True by done. split; [cbn; set_solver|done].
  - destruct (IH (cache_insert a (mkUserMetadata false now) c) acc) as [-> Ht];
      [by apply cache_insert_truthful|]. by rewrite decide_False by done.
  - destruct (IH c acc Hc) as [-> Ht]. by rewrite decide_False by done.
Qed.

(** The answer and the state it leaves. *)
Lemma banned_spec now u addresses :
  (forall c, u_onchain u = Some c -> truthful c) ->
  (banned cache_insert fetch now u addresses).1 = banned_uncached u addresses /\
  u_list (banned cache_insert fetch now u addresses).2 = u_list u /\
  (forall c, u_onchain (banned cache_insert fetch now u addresses).2 = Some c -> truthful c).
Proof.
  intros Hc. unfold banned. destruct (u_onchain u) as [c|] eqn:Ho; cycle 1.
  { cbn [fst snd]. split; [|rewrite Ho; done]. unfold banned_uncached. rewrite Ho.
    apply set_eq. intros a. rewrite !elem_of_list_to_set, !list_elem_of_filter.
    split; [naive_solver|]. intros [[?|[[? ?] _]] ?]; done. }
  specialize (Hc c eq_refl). unfold lookup_cached. rewrite lookup_cached_spec. cbn [app].
  set (known := list_to_set (filter _ (elements _)) ∪ _). set (missed := filter _ (elements _)).
  pose proof (cache_results_spec now missed c known Hc) as Hr. cbv zeta in Hr.
  destruct (cache_results _ _ _ c known) as [b c']. cbn [fst snd] in *. destruct Hr as [-> Ht].
  split; [|cbn; split; [done|by intros ? [= <-]]].
  apply set_eq. intros a. unfold banned_uncached, missed, known. rewrite Ho.
  rewrite !elem_of_union, !elem_of_list_to_set, !list_elem_of_filter, elem_of_elements, elem_of_list_to_set,
    list_elem_of_filter. split.
  - intros [[Hf [_ [_ Hin]]]|[[Hf [_ Hin]]|[Hl Hin]]]; (split; [|done]); [right; by eauto| |by left].
    right. split; [eauto|]. apply fmap_Some in Hf as (m & Hm & E). rewrite (Hc a m Hm). congruence.
  - intros [[Hl|[_ Hf]] Hin]; [eauto|].
    destruct (decide (a ∈ u_list u)) as [Hl|Hl]; [eauto|].
    destruct (c !! a) as [m|] eqn:Hm; [|by left].
    right; left. split; [|done]. rewrite <-Hf, (Hc a m Hm). done.
Qed.

(** The cache does not change who is banned.  While every cached
    status is the registry's, [banned] answers exactly the requested users that are on
    the list or that the registry sanctions (nobody whose lookup fails), and leaves a
    cache of which the same holds. *)
Theorem banned_cache_transparent now u addresses :
  (forall c, u_onchain u = Some c -> truthful c) ->
  (banned cache_insert fetch now u addresses).1 = banned_uncached u addresses /\
  u_list (banned cache_insert fetch now u addresses).2 = u_list u /\
  (forall c, u_onchain (banned cache_insert fetch now u addresses).2 = Some c -> truthful c).
Proof. apply banned_spec. Qed.

(** Maintenance keeps a truthful cache truthful, whoever it refreshes. *)
Lemma maintenance_truthful start now c :
  truthful c -> truthful (maintenance cache_insert fetch start now c).
Proof.
  intros Hc. unfold maintenance. generalize (filter (fun r => CACHE_EXPIRY - MAINTENANCE_TIMEOUT <=
    Z.max 0 (start - um_last_updated r.2)) (map_to_list c)) as l. revert Hc. generalize c.
  intros c0 Hc l. unfold insert_many_into_cache. revert c0 Hc.
  induction l as [|[a m] l IH]; intros c0 Hc; [done|]. cbn [omap list_omap fst snd].
  destruct (fetch a) as [b|] eqn:Ha; cbn [foldl]; apply IH; [by apply cache_insert_truthful|done].
Qed.
End users_spec.

(** ** Example: the list and the registry *)
Definition sample_cache_insert (a : address) (m : UserMetadata) (c : Cache) : Cache := <[a := m]> c.

Lemma sample_cache_insert_spec a m c b m' :
  sample_cache_insert a m c !! b = Some m' -> b = a /\ m' = m \/ c !! b = Some m'.
Proof.
  unfold sample_cache_insert. destruct (decide (b = a)) as [->|Hne].
  - rewrite lookup_insert_eq. intros [= <-]. by left.
  - rewrite lookup_insert_ne by done. by right.
Qed.

Definition sample_registry (a : address) : option bool := if a =? 3 then None else Some (a =? 2).
Definition sample_users : Users := mkUsers {[ 1 ]} (Some {[ 4 := mkUserMetadata false 0 ]}).

Lemma banned_cache_transparent_witness :
  (banned sample_cache_insert sample_registry 7 sample_users [1; 2; 3; 4]).1
    = banned_uncached sample_registry sample_users [1; 2; 3; 4] /\
  u_list (banned sample_cache_insert sample_registry 7 sample_users [1; 2; 3; 4]).2 = {[ 1 ]} /\
  (forall c, u_onchain (banned sample_cache_insert sample_registry 7 sample_users [1; 2; 3; 4]).2 = Some c ->
             truthful sample_registry c).
Proof.
  apply (banned_cache_transparent sample_cache_insert sample_cache_insert_spec sample_registry 7 sample_users
           [1; 2; 3; 4]).
  intros c [= <-]. apply map_Forall_singleton. reflexivity.
Defined.
