(* ===== verification/OrdersDb.v ===== *)
(** * OrdersDb: the tables of orders and their queries

    [crates/database/src/orders.rs], [order_events.rs], [ethflow_orders.rs],
    [onchain_broadcasted_orders.rs] and [onchain_invalidations.rs], and the conversion
    of rows to orders of [crates/shared/src/db_order_conversions.rs].

    A table is a map from its primary key to the other columns; a query is a function
    of the database and a statement returns the database it leaves.  [NUMERIC] columns
    hold integers.  A query without an order returns its rows in the order of the map,
    of which nothing is used.  [ON CONFLICT] and violated keys are written out. *)

From stdpp Require Import base gmap sets list strings.
From Stdlib Require Import ZArith Lia.
From S2P Require Import Prelude Collections F64 Eth Liquidity Solution Dto Score DriverOrder.
From S2P Require Import OrderModel AppData OrderCreation OrderQuoting.

Open Scope Z_scope.

(** ** Rows *)
Record DbOrder := mkDbOrder {
  db_uid : Z;
  db_owner : address;
  db_creation_timestamp : Z;
  db_sell_token : address;
  db_buy_token : address;
  db_receiver : option address;
  db_sell_amount : Z;
  db_buy_amount : Z;
  db_valid_to : Z;
  db_app_data : Z;
  db_fee_amount : Z;
  db_kind : Side;
  db_partially_fillable : bool;
  db_signature : list Z;
  db_signing_scheme : Scheme;
  db_settlement_contract : address;
  db_sell_token_balance : SellTokenBalance;
  db_buy_token_balance : BuyTokenBalance;
  db_cancellation_timestamp : option Z;
  db_class : OrderClass;
}.

(** A row of [orders] has one column more than the struct. *)
Record OrderRow := mkOrderRow { or_order : DbOrder; or_true_valid_to : Z }.

Inductive DbPlacementError :=
| DbQuoteNotFound | DbInvalidQuote | DbPreValidationError | DbDisabledOrderClass | DbValidToTooFarInFuture
| DbInvalidOrderData | DbInsufficientFee | DbNonZeroFee | DbOther.

Definition to_metrics_label (e : DbPlacementError) : string :=
  match e with
  | DbQuoteNotFound => "no_quote" | DbInvalidQuote => "invalid_quote" | DbPreValidationError => "invalid_order"
  | DbDisabledOrderClass => "disabled_class" | DbValidToTooFarInFuture => "expired"
  | DbInvalidOrderData => "invalid_data" | DbInsufficientFee => "low_fee" | DbNonZeroFee => "non_zero_fee"
  | DbOther => "unspecified"
  end.

Inductive ExecutionTime := ExecPre | ExecPost.
#[export] Instance ExecutionTime_eq_dec : EqDecision ExecutionTime.
Proof. solve_decision. Defined.
#[export] Instance ExecutionTime_countable : Countable ExecutionTime.
Proof.
  refine (inj_countable' (fun e => match e with ExecPre => true | ExecPost => false end)
            (fun b : bool => if b then ExecPre else ExecPost) _). by intros [].
Defined.

Record DbInteraction := mkDbInteraction {
  dbi_target : address; dbi_value : Z; dbi_data : list Z; dbi_index : Z; dbi_execution : ExecutionTime;
}.

Record DbOrderQuote := mkDbOrderQuote {
  dbq_order_uid : Z;
  dbq_gas_amount : f64;
  dbq_gas_price : f64;
  dbq_sell_token_price : f64;
  dbq_sell_amount : Z;
  dbq_buy_amount : Z;
  dbq_solver : address;
  dbq_verified : bool;
  dbq_metadata : string;
}.

Record DbTrade := mkDbTrade { tr_order_uid : Z; tr_sell_amount : Z; tr_buy_amount : Z; tr_fee_amount : Z }.

Record DbPlacement := mkDbPlacement {
  pl_sender : address; pl_is_reorged : bool; pl_placement_error : option DbPlacementError;
  pl_block_number : Z; pl_log_index : Z;
}.

Record DbRefund := mkDbRefund { rf_block_number : Z; rf_tx_hash : Z }.
Record DbExecution := mkDbExecution { ex_executed_fee : Z; ex_executed_fee_token : address; ex_block_number : Z }.

Inductive OrderEventLabel :=
| EvCreated | EvReady | EvFiltered | EvInvalid | EvExecuting | EvConsidered | EvTraded | EvCancelled.
#[export] Instance OrderEventLabel_eq_dec : EqDecision OrderEventLabel.
Proof. solve_decision. Defined.

Record OrderEvent := mkOrderEvent { oe_order_uid : Z; oe_timestamp : Z; oe_label : OrderEventLabel }.

(** ** The database *)
Record Db := mkDb {
  t_orders : gmap Z OrderRow;
  t_interactions : gmap (Z * Z * ExecutionTime) (address * Z * list Z);
  t_order_quotes : gmap Z DbOrderQuote;
  t_trades : gmap (Z * Z) DbTrade;
  t_invalidations : gmap (Z * Z) Z;
  t_onchain_invalidations : gmap Z (Z * Z);
  t_onchain_placed : gmap Z DbPlacement;
  t_ethflow_orders : gmap Z Z;
  t_ethflow_refunds : gmap Z DbRefund;
  t_presignatures : gmap (Z * Z) (Z * bool);
  t_order_execution : gmap (Z * Z) DbExecution;
  t_app_data : gmap Z string;
  t_settlement_blocks : list Z;
  t_order_events : list OrderEvent;
}.

Definition set_orders (x : gmap Z OrderRow) (d : Db) : Db :=
  mkDb x (t_interactions d) (t_order_quotes d) (t_trades d) (t_invalidations d) (t_onchain_invalidations d)
    (t_onchain_placed d) (t_ethflow_orders d) (t_ethflow_refunds d) (t_presignatures d) (t_order_execution d)
    (t_app_data d) (t_settlement_blocks d) (t_order_events d).
Definition set_interactions x (d : Db) : Db :=
  mkDb (t_orders d) x (t_order_quotes d) (t_trades d) (t_invalidations d) (t_onchain_invalidations d)
    (t_onchain_placed d) (t_ethflow_orders d) (t_ethflow_refunds d) (t_presignatures d) (t_order_execution d)
    (t_app_data d) (t_settlement_blocks d) (t_order_events d).
Definition set_order_quotes x (d : Db) : Db :=
  mkDb (t_orders d) (t_interactions d) x (t_trades d) (t_invalidations d) (t_onchain_invalidations d)
    (t_onchain_placed d) (t_ethflow_orders d) (t_ethflow_refunds d) (t_presignatures d) (t_order_execution d)
    (t_app_data d) (t_settlement_blocks d) (t_order_events d).
Definition set_onchain_invalidations x (d : Db) : Db :=
  mkDb (t_orders d) (t_interactions d) (t_order_quotes d) (t_trades d) (t_invalidations d) x
    (t_onchain_placed d) (t_ethflow_orders d) (t_ethflow_refunds d) (t_presignatures d) (t_order_execution d)
    (t_app_data d) (t_settlement_blocks d) (t_order_events d).
Definition set_onchain_placed x (d : Db) : Db :=
  mkDb (t_orders d) (t_interactions d) (t_order_quotes d) (t_trades d) (t_invalidations d) (t_onchain_invalidations d)
    x (t_ethflow_orders d) (t_ethflow_refunds d) (t_presignatures d) (t_order_execution d)
    (t_app_data d) (t_settlement_blocks d) (t_order_events d).
Definition set_ethflow_orders x (d : Db) : Db :=
  mkDb (t_orders d) (t_interactions d) (t_order_quotes d) (t_trades d) (t_invalidations d) (t_onchain_invalidations d)
    (t_onchain_placed d) x (t_ethflow_refunds d) (t_presignatures d) (t_order_execution d)
    (t_app_data d) (t_settlement_blocks d) (t_order_events d).
Definition set_ethflow_refunds x (d : Db) : Db :=
  mkDb (t_orders d) (t_interactions d) (t_order_quotes d) (t_trades d) (t_invalidations d) (t_onchain_invalidations d)
    (t_onchain_placed d) (t_ethflow_orders d) x (t_presignatures d) (t_order_execution d)
    (t_app_data d) (t_settlement_blocks d) (t_order_events d).
Definition set_app_data x (d : Db) : Db :=
  mkDb (t_orders d) (t_interactions d) (t_order_quotes d) (t_trades d) (t_invalidations d) (t_onchain_invalidations d)
    (t_onchain_placed d) (t_ethflow_orders d) (t_ethflow_refunds d) (t_presignatures d) (t_order_execution d)
    x (t_settlement_blocks d) (t_order_events d).
Definition set_order_events x (d : Db) : Db :=
  mkDb (t_orders d) (t_interactions d) (t_order_quotes d) (t_trades d) (t_invalidations d) (t_onchain_invalidations d)
    (t_onchain_placed d) (t_ethflow_orders d) (t_ethflow_refunds d) (t_presignatures d) (t_order_execution d)
    (t_app_data d) (t_settlement_blocks d) x.

Definition set_trades x (d : Db) : Db :=
  mkDb (t_orders d) (t_interactions d) (t_order_quotes d) x (t_invalidations d) (t_onchain_invalidations d)
    (t_onchain_placed d) (t_ethflow_orders d) (t_ethflow_refunds d) (t_presignatures d) (t_order_execution d)
    (t_app_data d) (t_settlement_blocks d) (t_order_events d).
Definition set_invalidations x (d : Db) : Db :=
  mkDb (t_orders d) (t_interactions d) (t_order_quotes d) (t_trades d) x (t_onchain_invalidations d)
    (t_onchain_placed d) (t_ethflow_orders d) (t_ethflow_refunds d) (t_presignatures d) (t_order_execution d)
    (t_app_data d) (t_settlement_blocks d) (t_order_events d).
Definition set_presignatures x (d : Db) : Db :=
  mkDb (t_orders d) (t_interactions d) (t_order_quotes d) (t_trades d) (t_invalidations d) (t_onchain_invalidations d)
    (t_onchain_placed d) (t_ethflow_orders d) (t_ethflow_refunds d) x (t_order_execution d)
    (t_app_data d) (t_settlement_blocks d) (t_order_events d).
Definition set_order_execution x (d : Db) : Db :=
  mkDb (t_orders d) (t_interactions d) (t_order_quotes d) (t_trades d) (t_invalidations d) (t_onchain_invalidations d)
    (t_onchain_placed d) (t_ethflow_orders d) (t_ethflow_refunds d) (t_presignatures d) x
    (t_app_data d) (t_settlement_blocks d) (t_order_events d).
Definition set_settlement_blocks x (d : Db) : Db :=
  mkDb (t_orders d) (t_interactions d) (t_order_quotes d) (t_trades d) (t_invalidations d) (t_onchain_invalidations d)
    (t_onchain_placed d) (t_ethflow_orders d) (t_ethflow_refunds d) (t_presignatures d) (t_order_execution d)
    (t_app_data d) x (t_order_events d).

(** ** Order events *)

(** The event of the latest timestamp; among equal ones the first inserted. *)
Definition latest_event (uid : Z) (events : list OrderEvent) : option OrderEvent :=
  min_by (cmp_rev (cmp_on oe_timestamp Z.compare)) (filter (fun e => oe_order_uid e = uid) events).

Definition insert_order_event (event : OrderEvent) (d : Db) : Db :=
  match latest_event (oe_order_uid event) (t_order_events d) with
  | Some latest => if bool_decide (oe_label latest = oe_label event) then d
                   else set_order_events (t_order_events d ++ [event]) d
  | None => set_order_events (t_order_events d ++ [event]) d
  end.

Definition delete_order_events_before (timestamp : Z) (d : Db) : Db :=
  set_order_events (filter (fun e => timestamp <= oe_timestamp e) (t_order_events d)) d.

Definition get_latest (uid : Z) (d : Db) : option OrderEvent := latest_event uid (t_order_events d).

(** ** Inserting orders *)
Inductive SqlError := DuplicateRecord | SqlOther.

Definition is_duplicate_record_error (e : SqlError) : bool := match e with DuplicateRecord => true | SqlOther => false end.

Definition insert_order_execute_sqlx (order : DbOrder) (d : Db) : Db :=
  set_orders (<[db_uid order := mkOrderRow order (db_valid_to order)]> (t_orders d)) d.

Definition db_insert_order (order : DbOrder) (d : Db) : result SqlError Db :=
  match t_orders d !! db_uid order with
  | Some _ => Err DuplicateRecord
  | None => Ok (insert_order_execute_sqlx order d)
  end.

Definition insert_order_and_ignore_conflicts (order : DbOrder) (d : Db) : bool * Db :=
  match t_orders d !! db_uid order with
  | Some _ => (false, d)
  | None => (true, insert_order_execute_sqlx order d)
  end.

Definition insert_orders_and_ignore_conflicts (orders : list DbOrder) (d : Db) : Db :=
  foldl (fun d order =>
           match insert_order_and_ignore_conflicts order d with
           | (true, d) => insert_order_event (mkOrderEvent (db_uid order) (db_creation_timestamp order) EvCreated) d
           | (false, d) => d
           end) d orders.

Definition db_read_order (uid : Z) (d : Db) : option DbOrder := or_order <$> t_orders d !! uid.

(** A cancelled order keeps its first cancellation. *)
Definition cancel_row (timestamp : Z) (r : OrderRow) : OrderRow :=
  let o := or_order r in
  match db_cancellation_timestamp o with
  | Some _ => r
  | None =>
      mkOrderRow (mkDbOrder (db_uid o) (db_owner o) (db_creation_timestamp o) (db_sell_token o) (db_buy_token o)
        (db_receiver o) (db_sell_amount o) (db_buy_amount o) (db_valid_to o) (db_app_data o) (db_fee_amount o)
        (db_kind o) (db_partially_fillable o) (db_signature o) (db_signing_scheme o) (db_settlement_contract o)
        (db_sell_token_balance o) (db_buy_token_balance o) (Some timestamp) (db_class o)) (or_true_valid_to r)
  end.

Definition db_cancel_order (uid timestamp : Z) (d : Db) : Db :=
  set_orders (alter (cancel_row timestamp) uid (t_orders d)) d.

(** ** Interactions *)
Definition interaction_key (uid : Z) (i : DbInteraction) : Z * Z * ExecutionTime := (uid, dbi_index i, dbi_execution i).
Definition interaction_columns (i : DbInteraction) : address * Z * list Z := (dbi_target i, dbi_value i, dbi_data i).

Definition insert_interaction (uid : Z) (i : DbInteraction) (d : Db) : result SqlError Db :=
  match t_interactions d !! interaction_key uid i with
  | Some _ => Err DuplicateRecord
  | None => Ok (set_interactions (<[interaction_key uid i := interaction_columns i]> (t_interactions d)) d)
  end.

Fixpoint insert_interactions (uid : Z) (l : list DbInteraction) (d : Db) : result SqlError Db :=
  match l with
  | [] => Ok d
  | i :: l => letr d := insert_interaction uid i d in insert_interactions uid l d
  end.

Definition insert_or_overwrite_interaction (i : DbInteraction) (uid : Z) (d : Db) : Db :=
  set_interactions (<[interaction_key uid i := interaction_columns i]> (t_interactions d)) d.

Definition insert_or_overwrite_interactions (l : list (Z * DbInteraction)) (d : Db) : Db :=
  foldl (fun d ui => insert_or_overwrite_interaction ui.2 ui.1 d) d l.

(** The interactions of an order by index. *)
Definition interactions_of (uid : Z) (execution : ExecutionTime) (d : Db) : list (Z * (address * Z * list Z)) :=
  sort_by (cmp_on fst Z.compare)
    ((fun kv => (kv.1.1.2, kv.2)) <$>
       map_to_list (filter (fun kv => kv.1.1.1 = uid /\ kv.1.2 = execution) (t_interactions d))).

Definition raw_interactions (uid : Z) (execution : ExecutionTime) (d : Db) : list (address * Z * list Z) :=
  snd <$> interactions_of uid execution d.

Definition next_free_interaction_indices (uid : Z) (d : Db) : Z * Z :=
  let next e := foldl Z.max (-1) (fst <$> interactions_of uid e d) + 1 in (next ExecPre, next ExecPost).

(** ** Quotes of orders *)
Definition insert_quote (q : DbOrderQuote) (d : Db) : result SqlError Db :=
  match t_order_quotes d !! dbq_order_uid q with
  | Some _ => Err DuplicateRecord
  | None => Ok (set_order_quotes (<[dbq_order_uid q := q]> (t_order_quotes d)) d)
  end.

(** On a conflict every column but the solver is overwritten. *)
Definition insert_quote_and_update_on_conflict (q : DbOrderQuote) (d : Db) : Db :=
  let row := match t_order_quotes d !! dbq_order_uid q with
             | Some old => mkDbOrderQuote (dbq_order_uid q) (dbq_gas_amount q) (dbq_gas_price q)
                             (dbq_sell_token_price q) (dbq_sell_amount q) (dbq_buy_amount q) (dbq_solver old)
                             (dbq_verified q) (dbq_metadata q)
             | None => q
             end in
  set_order_quotes (<[dbq_order_uid q := row]> (t_order_quotes d)) d.

Definition insert_quotes (quotes : list DbOrderQuote) (d : Db) : Db :=
  foldl (fun d q => insert_quote_and_update_on_conflict q d) d quotes.

Definition read_quote (uid : Z) (d : Db) : option DbOrderQuote := t_order_quotes d !! uid.

Definition read_quotes (uids : list Z) (d : Db) : list DbOrderQuote :=
  match uids with
  | [] => []
  | _ => snd <$> filter (fun kv => kv.1 ∈ uids) (map_to_list (t_order_quotes d))
  end.

(** ** On-chain orders *)
Definition update_true_valid_to_for_ethflow_order (uid valid_to : Z) (d : Db) : Db :=
  set_orders (alter (fun r => mkOrderRow (or_order r) valid_to) uid (t_orders d)) d.

Definition insert_or_overwrite_ethflow_order (uid valid_to : Z) (d : Db) : Db :=
  update_true_valid_to_for_ethflow_order uid valid_to
    (set_ethflow_orders (<[uid := valid_to]> (t_ethflow_orders d)) d).

Definition insert_or_overwrite_orders (events : list (Z * Z)) (d : Db) : Db :=
  foldl (fun d e => insert_or_overwrite_ethflow_order e.1 e.2 d) d events.

Definition read_ethflow_order (uid : Z) (d : Db) : option (Z * option Z) :=
  (fun valid_to => (valid_to, rf_tx_hash <$> t_ethflow_refunds d !! uid)) <$> t_ethflow_orders d !! uid.

Definition insert_refund_tx_hash (uid tx_hash block_number : Z) (d : Db) : Db :=
  set_ethflow_refunds (<[uid := mkDbRefund (Z.min block_number (2 ^ 63 - 1)) tx_hash]> (t_ethflow_refunds d)) d.

Definition delete_refunds (from_block to_block : Z) (d : Db) : Db :=
  set_ethflow_refunds
    (filter (fun kv => ~ (from_block <= rf_block_number kv.2 <= to_block)) (t_ethflow_refunds d)) d.

Definition insert_onchain_order (block_number log_index uid : Z) (sender : address)
  (placement_error : option DbPlacementError) (d : Db) : Db :=
  set_onchain_placed
    (<[uid := mkDbPlacement sender false placement_error block_number log_index]> (t_onchain_placed d)) d.

Definition mark_as_reorged (from_block : Z) (d : Db) : Db :=
  set_onchain_placed
    ((fun p => if from_block <=? pl_block_number p
               then mkDbPlacement (pl_sender p) true (pl_placement_error p) (pl_block_number p) (pl_log_index p)
               else p) <$> t_onchain_placed d) d.

Definition insert_onchain_invalidation (block_number log_index uid : Z) (d : Db) : Db :=
  set_onchain_invalidations (<[uid := (block_number, log_index)]> (t_onchain_invalidations d)) d.

Definition insert_onchain_invalidations (now : Z) (events : list (Z * Z * Z)) (d : Db) : Db :=
  foldl (fun d e => let '(block_number, log_index, uid) := e in
                    insert_order_event (mkOrderEvent uid now EvCancelled)
                      (insert_onchain_invalidation block_number log_index uid d)) d events.

Definition delete_invalidations (block_number : Z) (d : Db) : Db :=
  set_onchain_invalidations (filter (fun kv => kv.2.1 < block_number) (t_onchain_invalidations d)) d.

(** ** Full orders *)
Record FullOrder := mkFullOrder {
  fo_order : DbOrder;
  fo_sum_sell : Z;
  fo_sum_buy : Z;
  fo_sum_fee : Z;
  fo_invalidated : bool;
  fo_presignature_pending : bool;
  fo_pre_interactions : list (address * Z * list Z);
  fo_post_interactions : list (address * Z * list Z);
  fo_ethflow_data : option (option Z * Z);
  fo_onchain_user : option address;
  fo_onchain_placement_error : option DbPlacementError;
  fo_executed_fee : Z;
  fo_executed_fee_token : address;
  fo_full_app_data : option string;
}.

(** For ethflow orders the user's validity counts. *)
Definition FullOrder_valid_to (o : FullOrder) : Z :=
  match fo_ethflow_data o with Some (_, valid_to) => valid_to | None => db_valid_to (fo_order o) end.

Definition trades_of (uid : Z) (d : Db) : list DbTrade :=
  snd <$> map_to_list (filter (fun kv => tr_order_uid kv.2 = uid) (t_trades d)).
Definition sum_of (f : DbTrade -> Z) (uid : Z) (d : Db) : Z := foldr Z.add 0 (f <$> trades_of uid d).

(** The executions of an order; the query that takes one of them names none. *)
Definition executions_of (uid : Z) (d : Db) : list DbExecution :=
  snd <$> map_to_list (filter (fun kv => kv.1.1 = uid) (t_order_execution d)).

(** The latest pre-signature event of an order by block and log index. *)
Definition block_log_cmp : (Z * Z) -> (Z * Z) -> comparison := cmp_then (cmp_on fst Z.compare) (cmp_on snd Z.compare).
Definition latest_presignature (uid : Z) (d : Db) : option bool :=
  (fun kv => kv.2.2) <$>
    max_by (cmp_on fst block_log_cmp) (map_to_list (filter (fun kv => kv.2.1 = uid) (t_presignatures d))).

Definition Scheme_is_presign (s : Scheme) : bool := match s with PreSign => true | _ => false end.

Definition presignature_pending (o : DbOrder) (d : Db) : bool :=
  Scheme_is_presign (db_signing_scheme o) &&
  match latest_presignature (db_uid o) d with Some signed => negb signed | None => true end.

Definition invalidated_onchain (uid : Z) (d : Db) : bool :=
  negb (bool_decide (filter (fun kv => kv.2 = uid) (t_invalidations d) = ∅)) ||
  match t_onchain_invalidations d !! uid with Some _ => true | None => false end.

(** The columns of [SELECT] for one row of [orders]. *)
Definition full_order (d : Db) (o : DbOrder) : FullOrder :=
  let uid := db_uid o in
  mkFullOrder o (sum_of tr_sell_amount uid d) (sum_of tr_buy_amount uid d) (sum_of tr_fee_amount uid d)
    (match db_cancellation_timestamp o with Some _ => true | None => false end || invalidated_onchain uid d)
    (presignature_pending o d)
    (raw_interactions uid ExecPre d) (raw_interactions uid ExecPost d)
    ((fun valid_to => (rf_tx_hash <$> t_ethflow_refunds d !! uid, valid_to)) <$> t_ethflow_orders d !! uid)
    (pl_sender <$> t_onchain_placed d !! uid)
    (t_onchain_placed d !! uid ≫= pl_placement_error)
    (foldr Z.add 0 (ex_executed_fee <$> executions_of uid d))
    (match executions_of uid d with e :: _ => ex_executed_fee_token e | [] => db_sell_token o end)
    (t_app_data d !! db_app_data o).

Definition single_full_order_with_quote (uid : Z) (d : Db) : option (FullOrder * option DbOrderQuote) :=
  (fun r => (full_order d (or_order r), t_order_quotes d !! uid)) <$> t_orders d !! uid.

(** [OPEN_ORDERS]: the conditions on live orders, then the fill condition. *)
Definition is_live (min_valid_to : Z) (d : Db) (r : OrderRow) : bool :=
  let uid := db_uid (or_order r) in
  match db_cancellation_timestamp (or_order r) with Some _ => false | None => true end &&
  (min_valid_to <=? or_true_valid_to r) && negb (invalidated_onchain uid d) &&
  match t_onchain_placed d !! uid ≫= pl_placement_error with Some _ => false | None => true end &&
  match t_ethflow_refunds d !! uid with Some _ => false | None => true end.

Definition not_filled (d : Db) (o : DbOrder) : bool :=
  match db_kind o with
  | Sell => sum_of tr_sell_amount (db_uid o) d <? db_sell_amount o
  | Buy => sum_of tr_buy_amount (db_uid o) d <? db_buy_amount o
  end.

(** Live orders are read with [invalidated] false and no placement error. *)
Definition open_order (d : Db) (o : DbOrder) : FullOrder :=
  let f := full_order d o in
  mkFullOrder (fo_order f) (fo_sum_sell f) (fo_sum_buy f) (fo_sum_fee f) false (fo_presignature_pending f)
    (fo_pre_interactions f) (fo_post_interactions f) (fo_ethflow_data f) (fo_onchain_user f) None
    (fo_executed_fee f) (fo_executed_fee_token f) (fo_full_app_data f).

Definition solvable_orders (min_valid_to : Z) (d : Db) : list FullOrder :=
  (fun r => open_order d (or_order r)) <$>
    filter (fun r => is_live min_valid_to d r && not_filled d (or_order r) = true) (snd <$> map_to_list (t_orders d)).

Definition selected_order (uids : list Z) (after_timestamp : Z) (o : DbOrder) : bool :=
  (after_timestamp <? db_creation_timestamp o) ||
  match db_cancellation_timestamp o with Some c => after_timestamp <? c | None => false end ||
  bool_decide (db_uid o ∈ uids).

Definition open_orders_by_time_or_uids (uids : list Z) (after_timestamp : Z) (d : Db) : list FullOrder :=
  (fun r => full_order d (or_order r)) <$>
    filter (fun r => selected_order uids after_timestamp (or_order r) = true) (snd <$> map_to_list (t_orders d)).

Definition latest_settlement_block (d : Db) : Z :=
  match t_settlement_blocks d with [] => 0 | b :: l => foldl Z.max b l end.

Definition updated_order_uids_after (after_block : Z) (d : Db) : list Z :=
  remove_dups
    (omap (fun kv => if after_block <? kv.1.1 then Some (tr_order_uid kv.2) else None) (map_to_list (t_trades d)) ++
     omap (fun kv => if after_block <? ex_block_number kv.2 then Some kv.1.1 else None)
       (map_to_list (t_order_execution d)) ++
     omap (fun kv => if after_block <? kv.1.1 then Some kv.2 else None) (map_to_list (t_invalidations d)) ++
     omap (fun kv => if after_block <? kv.2.1 then Some kv.1 else None) (map_to_list (t_onchain_invalidations d)) ++
     omap (fun kv => if after_block <? pl_block_number kv.2 then Some kv.1 else None)
       (map_to_list (t_onchain_placed d)) ++
     omap (fun kv => if after_block <? rf_block_number kv.2 then Some kv.1 else None)
       (map_to_list (t_ethflow_refunds d)) ++
     omap (fun kv => if after_block <? kv.1.1 then Some kv.2.1 else None) (map_to_list (t_presignatures d))).

(** The quotes of a user's open limit orders. *)
Definition user_orders_with_quote (min_valid_to : Z) (owner : address) (d : Db) : list (DbOrder * DbOrderQuote) :=
  omap (fun r => let o := or_order r in
          if is_live min_valid_to d r && (db_owner o =? owner) && OrderClass_is_limit (db_class o) && not_filled d o
          then (fun q => (o, q)) <$> t_order_quotes d !! db_uid o else None)
    (snd <$> map_to_list (t_orders d)).

(** ** Rows to orders *)
Definition to_u256 (x : Z) : option Z := if fits 256 x then Some x else None.
Definition to_big_uint (x : Z) : option Z := if 0 <=? x then Some x else None.

Definition onchain_order_placement_error_from (e : option DbPlacementError) : option OnchainOrderPlacementError :=
  match e with
  | Some DbInvalidOrderData => Some InvalidOrderData
  | Some DbPreValidationError => Some PreValidationError
  | Some DbDisabledOrderClass => Some DisabledOrderClass
  | Some DbValidToTooFarInFuture => Some ValidToTooFarInTheFuture
  | Some DbNonZeroFee => Some OnchainNonZeroFee
  | Some DbOther => Some OtherPlacementError
  | Some (DbQuoteNotFound | DbInvalidQuote | DbInsufficientFee) | None => None
  end.

Definition extract_interactions (l : list (address * Z * list Z)) : option (list EthInteraction) :=
  mapM (fun i => let '(target, value, data) := i in
                 let? value := to_u256 value in Some (mkEthInteraction target value data)) l.

Section conversion.
Context (utf8 : string -> bool).

(** The part of the conversion that both conversions share: the status and the quote
    are arguments. *)
Definition model_order_from (order : FullOrder) (status : OrderStatus) (quote : option OrderQuote) : option ModelOrder :=
  let o := fo_order order in
  let? pre := extract_interactions (fo_pre_interactions order) in
  let? post := extract_interactions (fo_post_interactions order) in
  let ethflow_data := (fun d => mkEthflowData d.2 d.1) <$> fo_ethflow_data order in
  let onchain_order_data :=
    (fun user => mkOnchainOrderData user (onchain_order_placement_error_from (fo_onchain_placement_error order)))
      <$> fo_onchain_user order in
  let? executed_buy := to_big_uint (fo_sum_buy order) in
  let? executed_sell := to_big_uint (fo_sum_sell order) in
  let? before_fees := to_u256 (fo_sum_sell order - fo_sum_fee order) in
  let? fee_amount := to_u256 (fo_sum_fee order) in
  let? executed_fee := to_u256 (fo_executed_fee order) in
  let? full_app_data := match fo_full_app_data order with
                        | None => Some None
                        | Some s => if utf8 s then Some (Some s) else None
                        end in
  let? sell_amount := to_u256 (db_sell_amount o) in
  let? buy_amount := to_u256 (db_buy_amount o) in
  let? valid_to := (if fits 32 (db_valid_to o) then Some (db_valid_to o) else None) in
  let? order_fee := to_u256 (db_fee_amount o) in
  let? signature := OrderSignature_from_bytes (db_signing_scheme o) (db_signature o) in
  Some (mkModelOrder
    (mkOrderMetadata (db_creation_timestamp o) (db_owner o) (db_uid o) executed_buy executed_sell before_fees
       fee_amount executed_fee (fo_executed_fee_token order) (fo_invalidated order) status (db_class o)
       (db_settlement_contract o) ethflow_data onchain_order_data (fo_onchain_user order)
       (match db_class o with ClassLiquidity => true | _ => false end) full_app_data quote)
    (mkOrderData (db_sell_token o) (db_buy_token o) (db_receiver o) sell_amount buy_amount valid_to
       (db_app_data o) order_fee (db_kind o) (db_partially_fillable o) (db_sell_token_balance o)
       (db_buy_token_balance o))
    signature (mkInteractions pre post)).

(** [db_order_conversions::full_order_into_model_order]. *)
Definition full_order_into_model_order (order : FullOrder) : option ModelOrder :=
  model_order_from order (if fo_presignature_pending order then PresignaturePending else StatusOpen) None.
End conversion.
