(* ===== verification/SolvableOrders.v ===== *)
(** * SolvableOrders: the orders the autopilot considers

    How the set of solvable orders is read from the database: all of them
    ([Postgres::all_solvable_orders] of [crates/autopilot/src/database/auction.rs]) or
    the changes since the last time ([Persistence::solvable_orders_after] of
    [crates/autopilot/src/infra/persistence/mod.rs]), the quotes that come with them
    ([crates/autopilot/src/infra/persistence/dto/quote.rs]) and the choice between the
    two ([SolvableOrdersCache::get_solvable_orders] of
    [crates/autopilot/src/solvable_orders.rs]).

    A [HashMap] from uids is a [gmap].  One transaction reads one state of the database.
    The exact rational value of a float is a parameter of the conversion of quotes. *)

From stdpp Require Import base gmap sets list strings.
From Stdlib Require Import ZArith Lia.
From S2P Require Import Prelude Collections F64 Eth Liquidity Solution Dto Score DriverOrder.
From S2P Require Import OrderModel AppData OrderCreation OrderQuoting OrdersDb.

Open Scope Z_scope.

(** ** Quotes *)
Record DomainQuote := mkDomainQuote {
  dq_order_uid : Z;
  dq_sell_amount : Z;
  dq_buy_amount : Z;
  dq_fee : Z;
  dq_solver : address;
}.

(** [big_rational_to_u256]: division truncates towards zero. *)
Definition big_rational_to_u256 (numer denom : Z) : option Z :=
  if denom =? 0 then None else to_u256 (Z.quot numer denom).

Section quotes.
Context (rational_from_f64 : f64 -> option (Z * Z)).

Definition quote_into_domain (q : DbOrderQuote) : option DomainQuote :=
  let? amount := rational_from_f64 (dbq_gas_amount q) in
  let? price := rational_from_f64 (dbq_gas_price q) in
  let? token_price := rational_from_f64 (dbq_sell_token_price q) in
  if token_price.1 =? 0 then None
  else
    let? fee := big_rational_to_u256 (amount.1 * price.1 * token_price.2) (amount.2 * price.2 * token_price.1) in
    let? sell := to_u256 (dbq_sell_amount q) in
    let? buy := to_u256 (dbq_buy_amount q) in
    Some (mkDomainQuote (dbq_order_uid q) sell buy fee (dbq_solver q)).

(** [Postgres::read_quotes]. *)
Definition read_domain_quotes (uids : list Z) (d : Db) : gmap Z DomainQuote :=
  list_to_map (omap (fun q => (fun dq => (dbq_order_uid q, dq)) <$> quote_into_domain q) (read_quotes uids d)).
End quotes.

(** ** Solvable orders *)
Record SolvableOrders := mkSolvableOrders {
  so_orders : gmap Z ModelOrder;
  so_quotes : gmap Z DomainQuote;
  so_latest_settlement_block : Z;
  so_fetched_from_db : Z;
}.

(** Collecting converted rows by their uid; the first failure fails the whole. *)
Definition collect_orders (utf8 : string -> bool) (rows : list FullOrder) : option (gmap Z ModelOrder) :=
  let? orders := mapM (full_order_into_model_order utf8) rows in
  Some (foldl (fun m o => <[md_uid (mo_metadata o) := o]> m) ∅ orders).

Definition is_expired (min_valid_to : Z) (o : ModelOrder) : bool :=
  (od_valid_to (mo_data o) <? min_valid_to) ||
  match md_ethflow_data (mo_metadata o) with Some e => ef_user_valid_to e <? min_valid_to | None => false end.

Definition has_onchain_error (o : ModelOrder) : bool :=
  match md_onchain_order_data (mo_metadata o) with
  | Some e => match ood_placement_error e with Some _ => true | None => false end
  | None => false
  end.

Definition is_fulfilled (o : ModelOrder) : bool :=
  match od_kind (mo_data o) with
  | Sell => od_sell_amount (mo_data o) <=? md_executed_sell_amount (mo_metadata o)
  | Buy => od_buy_amount (mo_data o) <=? md_executed_buy_amount (mo_metadata o)
  end.

(** The condition under which an order stays in the cache. *)
Definition retained (min_valid_to : Z) (o : ModelOrder) : bool :=
  negb (is_expired min_valid_to o) && negb (md_invalidated (mo_metadata o)) && negb (has_onchain_error o) &&
  negb (is_fulfilled o).

(** Quotes are read again for new orders and for orders placed on-chain. *)
Definition needs_quote (after_timestamp : Z) (o : ModelOrder) : bool :=
  match md_onchain_user (mo_metadata o) with Some _ => true | None => false end ||
  (after_timestamp <? md_creation_date (mo_metadata o)).

Section fetching.
Context (utf8 : string -> bool) (rational_from_f64 : f64 -> option (Z * Z)).

Definition all_solvable_orders (now min_valid_to : Z) (d : Db) : option SolvableOrders :=
  let? orders := collect_orders utf8 (solvable_orders min_valid_to d) in
  if fits 64 (latest_settlement_block d) then
    Some (mkSolvableOrders orders (read_domain_quotes rational_from_f64 (fst <$> map_to_list orders) d)
            (latest_settlement_block d) now)
  else None.

Definition solvable_orders_after (now : Z) (current_orders : gmap Z ModelOrder)
  (current_quotes : gmap Z DomainQuote) (after_timestamp after_block min_valid_to : Z) (d : Db)
  : option SolvableOrders :=
  if negb (after_block <? 2 ^ 63) then None
  else
    let updated_order_uids := updated_order_uids_after after_block d in
    let? next_orders := collect_orders utf8 (open_orders_by_time_or_uids updated_order_uids after_timestamp d) in
    if negb (fits 64 (latest_settlement_block d)) then None
    else
      let orders := filter (fun kv => retained min_valid_to kv.2 = true) (next_orders ∪ current_orders) in
      let kept_quotes := filter (fun kv => is_Some (orders !! kv.1)) current_quotes in
      let order_uids := omap (fun kv => if needs_quote after_timestamp kv.2
                                        then Some (md_uid (mo_metadata kv.2)) else None) (map_to_list orders) in
      Some (mkSolvableOrders orders (read_domain_quotes rational_from_f64 order_uids d ∪ kept_quotes)
              (latest_settlement_block d) now).

(** [get_solvable_orders]: the sum of the time and the minimal validity wraps in a
    [u32]; the checkpoint is moved back by a minute. *)
Definition get_solvable_orders (now min_order_validity_period : Z) (cache : option SolvableOrders) (d : Db)
  : option SolvableOrders :=
  if negb (fits 32 min_order_validity_period) then None
  else
    let min_valid_to := (now + min_order_validity_period) mod 2 ^ 32 in
    let? orders := match cache with
                   | Some c => solvable_orders_after now (so_orders c) (so_quotes c) (so_fetched_from_db c)
                                 (so_latest_settlement_block c) min_valid_to d
                   | None => all_solvable_orders now min_valid_to d
                   end in
    Some (mkSolvableOrders (so_orders orders) (so_quotes orders) (so_latest_settlement_block orders)
            (so_fetched_from_db orders - 60)).
End fetching.

(** ** Collected orders *)
Lemma foldl_insert_elem (l : list ModelOrder) (m : gmap Z ModelOrder) u o :
  foldl (fun m o => <[md_uid (mo_metadata o) := o]> m) m l !! u = Some o ->
  o ∈ l /\ md_uid (mo_metadata o) = u \/ m !! u = Some o.
Proof.
  revert m. induction l as [|x l IH]; intros m; [by right|]. cbn [foldl]. intros [[Ho Hu]|Hm]%IH.
  - left. split; [by right|done].
  - destruct (decide (md_uid (mo_metadata x) = u)) as [<-|Hne].
    + rewrite lookup_insert_eq in Hm. injection Hm as ->. left. split; [left|done].
    + rewrite lookup_insert_ne in Hm by done. by right.
Qed.

Lemma foldl_insert_some (l : list ModelOrder) (m : gmap Z ModelOrder) u :
  u ∈ (fun o => md_uid (mo_metadata o)) <$> l \/ is_Some (m !! u) ->
  is_Some (foldl (fun m o => <[md_uid (mo_metadata o) := o]> m) m l !! u).
Proof.
  revert m. induction l as [|x l IH]; intros m H; cbn [foldl].
  { destruct H as [H|H]; [by apply elem_of_nil in H|done]. }
  apply IH. destruct (decide (md_uid (mo_metadata x) = u)) as [<-|Hne].
  - right. rewrite lookup_insert_eq. eauto.
  - rewrite lookup_insert_ne by done. destruct H as [H|H]; [|by right].
    cbn [fmap list_fmap] in H. apply elem_of_cons in H as [H|H]; [congruence|by left].
Qed.

(** The uid of a converted row is the row's. *)
Lemma full_order_uid utf8 f o : full_order_into_model_order utf8 f = Some o -> md_uid (mo_metadata o) = db_uid (fo_order f).
Proof.
  unfold full_order_into_model_order, model_order_from. intros H.
  repeat (case_match; [|discriminate H]). by injection H as <-.
Qed.

(** Rows of distinct uids are collected one by one. *)
Lemma collect_orders_lookup utf8 rows m :
  collect_orders utf8 rows = Some m ->
  (forall f g, f ∈ rows -> g ∈ rows -> db_uid (fo_order f) = db_uid (fo_order g) -> f = g) ->
  forall u o, m !! u = Some o <-> exists f, f ∈ rows /\ db_uid (fo_order f) = u /\
                                             full_order_into_model_order utf8 f = Some o.
Proof.
  unfold collect_orders. destruct (mapM _ rows) as [orders|] eqn:Hm; [|done]. intros [= <-] Huniq u o.
  apply mapM_Some_1 in Hm.
  assert (Hin : forall o, o ∈ orders -> exists f, f ∈ rows /\ full_order_into_model_order utf8 f = Some o).
  { intros o' [k Hk]%list_elem_of_lookup. destruct (Forall2_lookup_r _ _ _ _ _ Hm Hk) as (f & Hf & E).
    exists f. split; [by eapply list_elem_of_lookup_2|done]. }
  split.
  - intros [[Ho Hu]|Hno]%foldl_insert_elem; [|by rewrite lookup_empty in Hno].
    destruct (Hin o Ho) as (f & Hf & E). exists f. split; [done|]. split; [|done].
    by rewrite <-(full_order_uid _ _ _ E).
  - intros (f & Hf & Hu & E).
    destruct (foldl_insert_some orders ∅ u) as [o' Ho'].
    { left. apply list_elem_of_lookup in Hf as [k Hk]. destruct (Forall2_lookup_l _ _ _ _ _ Hm Hk) as (o2 & Ho2 & E2).
      rewrite E in E2. injection E2 as <-. apply list_elem_of_fmap. exists o.
      split; [rewrite (full_order_uid _ _ _ E); done|by eapply list_elem_of_lookup_2]. }
    rewrite Ho'. destruct (foldl_insert_elem _ _ _ _ Ho') as [[Hin' Hu']|Hno]; [|by rewrite lookup_empty in Hno].
    destruct (Hin o' Hin') as (g & Hg & Eg). f_equal.
    assert (g = f) as -> by (apply Huniq; [done..|]; rewrite <-(full_order_uid _ _ _ Eg); congruence).
    rewrite E in Eg. congruence.
Qed.

(** ** How the database changes between two reads *)

(** An order the incremental query looks at: created or cancelled after the timestamp,
    or with an event in a block after the given one. *)
Definition touched (ts block : Z) (d : Db) (u : Z) : Prop :=
  (exists r, t_orders d !! u = Some r /\
     (ts < db_creation_timestamp (or_order r) \/
      exists c, db_cancellation_timestamp (or_order r) = Some c /\ ts < c)) \/
  (exists k t, t_trades d !! k = Some t /\ tr_order_uid t = u /\ block < k.1) \/
  (exists k e, t_order_execution d !! k = Some e /\ k.1 = u /\ block < ex_block_number e) \/
  (exists k, t_invalidations d !! k = Some u /\ block < k.1) \/
  (exists bl, t_onchain_invalidations d !! u = Some bl /\ block < bl.1) \/
  (exists p, t_onchain_placed d !! u = Some p /\ block < pl_block_number p) \/
  (exists rf, t_ethflow_refunds d !! u = Some rf /\ block < rf_block_number rf) \/
  (exists k s, t_presignatures d !! k = Some (u, s) /\ block < k.1).

(** The statements that mark the orders they change: rows with new timestamps or in new
    blocks, and rows for orders that such a row already marks.  A row that is indexed for a
    block before the checkpoint, a validity or a document that is overwritten, and rows a
    reorganization removes are not among them; histories of reads admit all of these. *)
Inductive marked_change (ts block : Z) : Db -> Db -> Prop :=
| marked_new_order o d :
    t_orders d !! db_uid o = None -> ts < db_creation_timestamp o -> marked_change ts block d (insert_order_execute_sqlx o d)
| marked_cancel u t d : ts < t -> marked_change ts block d (db_cancel_order u t d)
| marked_trade k t d :
    t_trades d !! k = None -> block < k.1 -> marked_change ts block d (set_trades (<[k := t]> (t_trades d)) d)
| marked_invalidation k u d :
    t_invalidations d !! k = None -> block < k.1 ->
    marked_change ts block d (set_invalidations (<[k := u]> (t_invalidations d)) d)
| marked_onchain_invalidation b l u d : block < b -> marked_change ts block d (insert_onchain_invalidation b l u d)
| marked_presignature k u s d :
    t_presignatures d !! k = None -> block < k.1 ->
    marked_change ts block d (set_presignatures (<[k := (u, s)]> (t_presignatures d)) d)
| marked_execution k e d :
    block < ex_block_number e -> marked_change ts block d (set_order_execution (<[k := e]> (t_order_execution d)) d)
| marked_placed b l u sender err d : block < b -> marked_change ts block d (insert_onchain_order b l u sender err d)
| marked_refund u tx b d : block < Z.min b (2 ^ 63 - 1) -> marked_change ts block d (insert_refund_tx_hash u tx b d)
| marked_ethflow u v d : touched ts block d u -> marked_change ts block d (insert_or_overwrite_ethflow_order u v d)
| marked_interaction u i d : touched ts block d u -> marked_change ts block d (insert_or_overwrite_interaction i u d)
| marked_app_data h document d :
    (forall u r, t_orders d !! u = Some r -> db_app_data (or_order r) = h -> touched ts block d u) ->
    marked_change ts block d (set_app_data (<[h := document]> (t_app_data d)) d)
| marked_quote q d : marked_change ts block d (insert_quote_and_update_on_conflict q d)
| marked_settlement b d : marked_change ts block d (set_settlement_blocks (b :: t_settlement_blocks d) d)
| marked_event e d : marked_change ts block d (insert_order_event e d).

(** What the database holds on one order. *)
Record same_order (u : Z) (d d' : Db) : Prop := {
  so_row : t_orders d' !! u = t_orders d !! u;
  so_trades : filter (fun kv => tr_order_uid kv.2 = u) (t_trades d') = filter (fun kv => tr_order_uid kv.2 = u) (t_trades d);
  so_invalidations : filter (fun kv => kv.2 = u) (t_invalidations d') = filter (fun kv => kv.2 = u) (t_invalidations d);
  so_onchain_invalidation : t_onchain_invalidations d' !! u = t_onchain_invalidations d !! u;
  so_placed : t_onchain_placed d' !! u = t_onchain_placed d !! u;
  so_ethflow : t_ethflow_orders d' !! u = t_ethflow_orders d !! u;
  so_refund : t_ethflow_refunds d' !! u = t_ethflow_refunds d !! u;
  so_presignatures : filter (fun kv => kv.2.1 = u) (t_presignatures d') = filter (fun kv => kv.2.1 = u) (t_presignatures d);
  so_executions : filter (fun kv => kv.1.1 = u) (t_order_execution d') = filter (fun kv => kv.1.1 = u) (t_order_execution d);
  so_interactions e : filter (fun kv => kv.1.1.1 = u /\ kv.1.2 = e) (t_interactions d') =
                      filter (fun kv => kv.1.1.1 = u /\ kv.1.2 = e) (t_interactions d);
  so_app_data r : t_orders d !! u = Some r -> t_app_data d' !! db_app_data (or_order r) = t_app_data d !! db_app_data (or_order r);
}.

#[local] Instance same_order_refl u : Reflexive (same_order u).
Proof. intros d. by split. Qed.

#[local] Instance same_order_trans u : Transitive (same_order u).
Proof.
  intros d1 d2 d3 [] []. split; intros; try congruence.
  - by rewrite so_interactions1.
  - rewrite so_app_data1; [by apply so_app_data0|congruence].
Qed.

Lemma same_order_full u d d' r :
  same_order u d d' -> t_orders d !! u = Some r -> db_uid (or_order r) = u ->
  full_order d' (or_order r) = full_order d (or_order r) /\
  (forall mv, is_live mv d' r = is_live mv d r) /\ not_filled d' (or_order r) = not_filled d (or_order r).
Proof.
  intros [] Hr Hu. unfold full_order, is_live, not_filled, sum_of, trades_of, invalidated_onchain,
    presignature_pending, latest_presignature, raw_interactions, interactions_of, executions_of. rewrite Hu.
  rewrite so_trades0, so_invalidations0, so_onchain_invalidation0, so_placed0, so_ethflow0, so_refund0,
    so_presignatures0, so_executions0, !so_interactions0, (so_app_data0 r Hr). done.
Qed.

(** Marks only depend on what the database holds on the order. *)
Lemma touched_same ts block d d' u : same_order u d d' -> touched ts block d u -> touched ts block d' u.
Proof.
  intros []. unfold touched. rewrite so_row0, so_onchain_invalidation0, so_placed0, so_refund0.
  intros [?|[(k & t & Hk & Hu & Hb)|[(k & e & Hk & Hu & Hb)|[(k & Hk & Hb)|[?|[?|[?|(k & s & Hk & Hb)]]]]]]]; try tauto.
  - right; left. exists k, t. split; [|done].
    assert (E : filter (fun kv => tr_order_uid kv.2 = u) (t_trades d) !! k = Some t) by (by apply map_lookup_filter_Some).
    rewrite <-so_trades0 in E. by apply map_lookup_filter_Some in E as [? _].
  - right; right; left. exists k, e. split; [|done].
    assert (E : filter (fun kv => kv.1.1 = u) (t_order_execution d) !! k = Some e) by (by apply map_lookup_filter_Some).
    rewrite <-so_executions0 in E. by apply map_lookup_filter_Some in E as [? _].
  - do 3 right; left. exists k. split; [|done].
    assert (E : filter (fun kv => kv.2 = u) (t_invalidations d) !! k = Some u) by (by apply map_lookup_filter_Some).
    rewrite <-so_invalidations0 in E. by apply map_lookup_filter_Some in E as [? _].
  - do 7 right. exists k, s. split; [|done].
    assert (E : filter (fun kv => kv.2.1 = u) (t_presignatures d) !! k = Some (u, s)) by (by apply map_lookup_filter_Some).
    rewrite <-so_presignatures0 in E. by apply map_lookup_filter_Some in E as [? _].
Qed.

(** Inserting a row that is not the order's does not change the order's rows. *)
Lemma filter_insert_other {K V} `{Countable K} (P : K * V -> Prop) `{!forall x, Decision (P x)} (m : gmap K V) k v :
  (forall w, m !! k = Some w -> ~ P (k, w)) -> ~ P (k, v) -> filter P (<[k := v]> m) = filter P m.
Proof.
  intros Hold Hnew. rewrite map_filter_insert_False by done. apply map_eq. intros j.
  apply option_eq. intros w.
  rewrite !map_lookup_filter_Some. split.
  - intros [Hj Hp]. apply lookup_delete_Some in Hj as [? ?]. done.
  - intros [Hj Hp]. split; [|done]. apply lookup_delete_Some. split; [|done].
    intros ->. by destruct (Hold w).
Qed.

Ltac same_tables := split; cbn; intros; first [reflexivity | by rewrite lookup_insert_ne by congruence
  | by rewrite lookup_alter_ne by congruence | idtac].

(** A statement marks the orders it changes. *)
Lemma marked_change_marks ts block d d' u :
  marked_change ts block d d' -> touched ts block d' u \/ same_order u d d'.
Proof.
  intros [o d0 Hn Hts|u0 t d0 Hts|k t d0 Hn Hb|k u0 d0 Hn Hb|b l u0 d0 Hb|k u0 s d0 Hn Hb|k e d0 Hb|b l u0 sender err d0 Hb
         |u0 tx b d0 Hb|u0 v d0 Ht|u0 i d0 Ht|h document d0 Hh|q d0|b d0|e d0].
  - destruct (decide (u = db_uid o)) as [->|Hne]; [left; left|right; same_tables].
    exists (mkOrderRow o (db_valid_to o)). cbn. rewrite lookup_insert_eq. auto.
  - destruct (decide (u = u0)) as [->|Hne]; [|right; same_tables].
    destruct (t_orders d0 !! u0) as [r|] eqn:Hr.
    + destruct (db_cancellation_timestamp (or_order r)) as [c|] eqn:Hc.
      * right. split; cbn; intros; try reflexivity. rewrite lookup_alter_eq, Hr. cbn. unfold cancel_row. by rewrite Hc.
      * left; left. exists (cancel_row t r). cbn. rewrite lookup_alter_eq, Hr. split; [done|]. right.
        unfold cancel_row. rewrite Hc. eauto.
    + right. split; cbn; intros; try reflexivity. by rewrite lookup_alter_eq, Hr.
  - destruct (decide (tr_order_uid t = u)) as [<-|Hne].
    + left; right; left. exists k, t. cbn. by rewrite lookup_insert_eq.
    + right. same_tables. apply filter_insert_other; [congruence|done].
  - destruct (decide (u0 = u)) as [<-|Hne].
    + left; do 3 right; left. exists k. cbn. by rewrite lookup_insert_eq.
    + right. same_tables. apply filter_insert_other; [congruence|done].
  - destruct (decide (u0 = u)) as [<-|Hne]; [left; do 4 right; left|right; same_tables].
    exists (b, l). cbn. by rewrite lookup_insert_eq.
  - destruct (decide (u0 = u)) as [<-|Hne].
    + left; do 7 right. exists k, s. cbn. by rewrite lookup_insert_eq.
    + right. same_tables. apply filter_insert_other; [congruence|done].
  - destruct (decide (k.1 = u)) as [<-|Hne].
    + left; do 2 right; left. exists k, e. cbn. by rewrite lookup_insert_eq.
    + right. same_tables. apply filter_insert_other; done.
  - destruct (decide (u0 = u)) as [<-|Hne]; [left; do 5 right; left|right; same_tables].
    eexists. cbn. rewrite lookup_insert_eq. split; [done|]. done.
  - destruct (decide (u0 = u)) as [<-|Hne]; [left; do 6 right; left|right; same_tables].
    eexists. cbn. rewrite lookup_insert_eq. split; [done|]. done.
  - destruct (decide (u0 = u)) as [<-|Hne]; [left|right; same_tables].
    destruct Ht as [(r & Hr & Ht)|Ht]; [left|right; exact Ht].
    exists (mkOrderRow (or_order r) v). cbn. by rewrite lookup_alter_eq, Hr.
  - destruct (decide (u0 = u)) as [<-|Hne]; [left; exact Ht|right; same_tables].
    apply filter_insert_other; cbn; naive_solver.
  - destruct (t_orders d0 !! u) as [r|] eqn:Hr; [|right; same_tables; cbn in *; congruence].
    destruct (decide (db_app_data (or_order r) = h)) as [E|Hne]; [left; exact (Hh u r Hr E)|right].
    same_tables.
  - right. by split.
  - right. by split.
  - right. unfold insert_order_event. repeat case_match; by split.
Qed.

Lemma marked_change_keeps ts block d d' u :
  marked_change ts block d d' -> is_Some (t_orders d !! u) -> is_Some (t_orders d' !! u).
Proof.
  intros []; cbn; try done.
  - intros ?. destruct (decide (u = db_uid o)) as [->|]; [rewrite lookup_insert_eq|rewrite lookup_insert_ne]; eauto.
  - intros ?. destruct (decide (u = u0)) as [->|]; [rewrite lookup_alter_eq, fmap_is_Some|rewrite lookup_alter_ne]; eauto.
  - intros ?. destruct (decide (u = u0)) as [->|]; [rewrite lookup_alter_eq, fmap_is_Some|rewrite lookup_alter_ne]; eauto.
  - unfold insert_order_event. repeat case_match; done.
Qed.

(** After any number of statements, an order that is not marked is as it was. *)
Lemma changes_mark ts block d d' u :
  rtc (marked_change ts block) d d' -> touched ts block d' u \/ same_order u d d'.
Proof.
  induction 1 as [d|d1 d2 d3 H12 _ IH]; [by right|].
  destruct IH as [?|H23]; [by left|]. destruct (marked_change_marks ts block d1 d2 u H12) as [Ht|Hs].
  - left. by eapply touched_same.
  - right. by etrans.
Qed.

Lemma changes_keep ts block d d' u :
  rtc (marked_change ts block) d d' -> is_Some (t_orders d !! u) -> is_Some (t_orders d' !! u).
Proof. induction 1; eauto using marked_change_keeps. Qed.

(** ** The two reads agree *)

(** A row is stored under its uid. *)
Definition keyed (d : Db) : Prop := forall u r, t_orders d !! u = Some r -> db_uid (or_order r) = u.

(** What makes the database's and the cache's condition agree on one order: the validity in
    force is the user's for an order of the ethflow contract and the order's for another;
    the recorded placement error is one still in use; a refunded order has expired or was
    invalidated. *)
Record row_ok (min_valid_to : Z) (d : Db) (u : Z) : Prop := {
  ok_validity r : t_orders d !! u = Some r ->
    or_true_valid_to r = default (db_valid_to (or_order r)) (t_ethflow_orders d !! u) /\
    or_true_valid_to r <= db_valid_to (or_order r);
  ok_placement p e : t_onchain_placed d !! u = Some p -> pl_placement_error p = Some e ->
    is_Some (onchain_order_placement_error_from (Some e));
  ok_refund r : t_orders d !! u = Some r -> is_Some (t_ethflow_refunds d !! u) ->
    invalidated_onchain u d = true \/ or_true_valid_to r < min_valid_to;
}.

(** Every row converts. *)
Definition rows_convert (utf8 : string -> bool) (d : Db) : Prop :=
  forall u r, t_orders d !! u = Some r -> is_Some (full_order_into_model_order utf8 (full_order d (or_order r))).

(** A live order is read the same way by both queries. *)
Lemma live_open_order mv d r : is_live mv d r = true -> open_order d (or_order r) = full_order d (or_order r).
Proof.
  unfold is_live, open_order, full_order. intros H. cbn.
  destruct (db_cancellation_timestamp (or_order r)); [discriminate H|].
  destruct (invalidated_onchain _ d); [by rewrite andb_false_r in H|].
  destruct (t_onchain_placed d !! db_uid (or_order r) ≫= pl_placement_error); [by rewrite andb_false_r in H|]. done.
Qed.

(** The columns of a converted order that decide whether it is kept. *)
Lemma converted_columns utf8 f o :
  full_order_into_model_order utf8 f = Some o ->
  od_valid_to (mo_data o) = db_valid_to (fo_order f) /\
  md_ethflow_data (mo_metadata o) = (fun e => mkEthflowData e.2 e.1) <$> fo_ethflow_data f /\
  md_invalidated (mo_metadata o) = fo_invalidated f /\
  md_onchain_order_data (mo_metadata o) =
    ((fun user => mkOnchainOrderData user (onchain_order_placement_error_from (fo_onchain_placement_error f)))
       <$> fo_onchain_user f) /\
  od_kind (mo_data o) = db_kind (fo_order f) /\
  od_sell_amount (mo_data o) = db_sell_amount (fo_order f) /\ od_buy_amount (mo_data o) = db_buy_amount (fo_order f) /\
  md_executed_sell_amount (mo_metadata o) = fo_sum_sell f /\ md_executed_buy_amount (mo_metadata o) = fo_sum_buy f.
Proof.
  unfold full_order_into_model_order, model_order_from, to_u256, to_big_uint. intros H.
  repeat (case_match; simplify_eq); simplify_eq; cbn; auto 10.
Qed.

(** An order stays in the cache iff the full query would select it. *)
Lemma retained_live utf8 mv d u r o :
  keyed d -> row_ok mv d u -> t_orders d !! u = Some r ->
  full_order_into_model_order utf8 (full_order d (or_order r)) = Some o ->
  retained mv o = is_live mv d r && not_filled d (or_order r).
Proof.
  intros Hkey Hok Hr (Hvt & Heth & Hinv & Hplaced & Hkind & Hsell & Hbuy & Hes & Heb)%converted_columns.
  pose proof (Hkey u r Hr) as Hu. destruct (ok_validity _ _ _ Hok r Hr) as [Htrue Hle].
  pose proof (ok_refund _ _ _ Hok r Hr) as Href.
  unfold retained, is_expired, has_onchain_error, is_fulfilled, is_live, not_filled.
  rewrite Hvt, Heth, Hinv, Hplaced, Hkind, Hsell, Hbuy, Hes, Heb. unfold full_order.
  cbn [fo_order fo_ethflow_data fo_invalidated fo_onchain_placement_error fo_onchain_user fo_sum_sell fo_sum_buy].
  rewrite Hu.
  assert (Hexp : (db_valid_to (or_order r) <? mv) ||
    match (fun e => mkEthflowData e.2 e.1) <$> ((fun valid_to => (rf_tx_hash <$> t_ethflow_refunds d !! u, valid_to)) <$>
             t_ethflow_orders d !! u) with Some e => ef_user_valid_to e <? mv | None => false end =
    negb (mv <=? or_true_valid_to r)).
  { destruct (t_ethflow_orders d !! u) as [v|]; cbn in *; rewrite Htrue in *; lia. }
  rewrite Hexp. clear Hexp.
  assert (Hfill : negb match db_kind (or_order r) with
      | Sell => db_sell_amount (or_order r) <=? sum_of tr_sell_amount u d
      | Buy => db_buy_amount (or_order r) <=? sum_of tr_buy_amount u d end =
    match db_kind (or_order r) with
      | Sell => sum_of tr_sell_amount u d <? db_sell_amount (or_order r)
      | Buy => sum_of tr_buy_amount u d <? db_buy_amount (or_order r) end) by (destruct (db_kind _); lia).
  rewrite Hfill. clear Hfill. f_equal.
  destruct (db_cancellation_timestamp (or_order r)); [by rewrite andb_false_r|].
  destruct (invalidated_onchain u d); [by rewrite !andb_false_r|].
  assert (Herr : negb match (fun user => mkOnchainOrderData user (onchain_order_placement_error_from
             (t_onchain_placed d !! u ≫= pl_placement_error))) <$> (pl_sender <$> t_onchain_placed d !! u) with
           | Some e => match ood_placement_error e with Some _ => true | None => false end | None => false end =
    match t_onchain_placed d !! u ≫= pl_placement_error with Some _ => false | None => true end).
  { destruct (t_onchain_placed d !! u) as [p|] eqn:Hp; [|done]. cbn.
    destruct (pl_placement_error p) as [e|] eqn:He; [|done].
    by destruct (ok_placement _ _ _ Hok p e Hp He) as [x ->]. }
  rewrite Herr. clear Herr. rewrite negb_involutive. cbn [negb orb andb]. rewrite !andb_true_r.
  destruct (t_ethflow_refunds d !! u); [|by rewrite andb_true_r].
  destruct (Href ltac:(eauto)) as [|Hlt]; [done|]. replace (mv <=? or_true_valid_to r) with false by lia. done.
Qed.

(** The orders of the incremental query are the marked ones. *)
Lemma updated_touched block d u :
  u ∈ updated_order_uids_after block d <->
  (exists k t, t_trades d !! k = Some t /\ tr_order_uid t = u /\ block < k.1) \/
  (exists k e, t_order_execution d !! k = Some e /\ k.1 = u /\ block < ex_block_number e) \/
  (exists k, t_invalidations d !! k = Some u /\ block < k.1) \/
  (exists bl, t_onchain_invalidations d !! u = Some bl /\ block < bl.1) \/
  (exists p, t_onchain_placed d !! u = Some p /\ block < pl_block_number p) \/
  (exists rf, t_ethflow_refunds d !! u = Some rf /\ block < rf_block_number rf) \/
  (exists k s, t_presignatures d !! k = Some (u, s) /\ block < k.1).
Proof.
  unfold updated_order_uids_after. rewrite elem_of_remove_dups, !elem_of_app, !list_elem_of_omap.
  assert (Hif : forall (b : bool) (x : Z), (if b then Some x else None) = Some u <-> b = true /\ x = u)
    by (intros [] x; naive_solver).
  setoid_rewrite Hif. setoid_rewrite Z.ltb_lt.
  assert (Hpair : forall {K V} `{Countable K} (m : gmap K V) (P : K -> V -> Prop),
    (exists x, x ∈ map_to_list m /\ P x.1 x.2) <-> exists k v, m !! k = Some v /\ P k v).
  { intros K V ?? m P. split.
    - intros ([k v] & Hx%elem_of_map_to_list & HP). eauto.
    - intros (k & v & Hx%elem_of_map_to_list & HP). exists (k, v). eauto. }
  rewrite (Hpair _ _ _ _ (t_trades d) (fun k t => block < k.1 /\ tr_order_uid t = u)).
  rewrite (Hpair _ _ _ _ (t_order_execution d) (fun k e => block < ex_block_number e /\ k.1 = u)).
  rewrite (Hpair _ _ _ _ (t_invalidations d) (fun k w => block < k.1 /\ w = u)).
  rewrite (Hpair _ _ _ _ (t_onchain_invalidations d) (fun k b => block < b.1 /\ k = u)).
  rewrite (Hpair _ _ _ _ (t_onchain_placed d) (fun k p => block < pl_block_number p /\ k = u)).
  rewrite (Hpair _ _ _ _ (t_ethflow_refunds d) (fun k r => block < rf_block_number r /\ k = u)).
  rewrite (Hpair _ _ _ _ (t_presignatures d) (fun k s => block < k.1 /\ s.1 = u)).
  clear Hif Hpair.
  split.
  - intros [(k & v & ? & ? & <-)|[(k & v & ? & ? & <-)|[(k & v & ? & ? & <-)|[(k & v & ? & ? & <-)
           |[(k & v & ? & ? & <-)|[(k & v & ? & ? & <-)|(k & [w s] & ? & ? & <-)]]]]]]; eauto 12.
  - intros [(k & v & ? & <- & ?)|[(k & v & ? & <- & ?)|[(k & ? & ?)|[(v & ? & ?)|[(v & ? & ?)|[(v & ? & ?)
           |(k & s & ? & ?)]]]]]]; eauto 12.
Qed.

Lemma selected_touched ts block d u r :
  t_orders d !! u = Some r -> db_uid (or_order r) = u ->
  selected_order (updated_order_uids_after block d) ts (or_order r) = true <-> touched ts block d u.
Proof.
  intros Hr Hu. unfold selected_order, touched. rewrite !orb_true_iff, bool_decide_eq_true, Hu, updated_touched, Z.ltb_lt.
  assert (Hc : match db_cancellation_timestamp (or_order r) with Some c => ts <? c | None => false end = true <->
               exists c, db_cancellation_timestamp (or_order r) = Some c /\ ts < c).
  { destruct (db_cancellation_timestamp _) as [c|]; [rewrite Z.ltb_lt|]; naive_solver. }
  rewrite Hc. split; [intros [?|?]; [left; by exists r|by right]|].
  intros [(r' & Hr' & ?)|?]; [rewrite Hr in Hr'; injection Hr' as <-; by left|by right].
Qed.

Lemma mapM_all {A B} (f : A -> option B) l : (forall x, x ∈ l -> is_Some (f x)) -> is_Some (mapM f l).
Proof. intros H. apply mapM_is_Some_2, Forall_forall. exact H. Qed.

(** The incremental query looks at the orders that are marked and that it finds. *)
Definition looked_at (ts block : Z) (d : Db) (u : Z) : Prop := touched ts block d u /\ is_Some (t_orders d !! u).

(** What a full query returns for one order. *)
Definition solvable_in (utf8 : string -> bool) (mv : Z) (d : Db) (u : Z) (o : ModelOrder) : Prop :=
  exists r, t_orders d !! u = Some r /\ is_live mv d r && not_filled d (or_order r) = true /\
            full_order_into_model_order utf8 (full_order d (or_order r)) = Some o.

Section agreement.
Context (utf8 : string -> bool) (rational_from_f64 : f64 -> option (Z * Z)).

(** A query that returns the full rows of some orders is collected into these orders. *)
Lemma rows_collected d (rows : list FullOrder) (selected : Z -> OrderRow -> Prop) m :
  keyed d ->
  (forall f, f ∈ rows <-> exists u r, t_orders d !! u = Some r /\ selected u r /\ f = full_order d (or_order r)) ->
  collect_orders utf8 rows = Some m ->
  forall u o, m !! u = Some o <-> exists r, t_orders d !! u = Some r /\ selected u r /\
                              full_order_into_model_order utf8 (full_order d (or_order r)) = Some o.
Proof.
  intros Hkey Hel Hm u o. rewrite (collect_orders_lookup utf8 _ m Hm).
  - split.
    + intros (f & (u' & r & Hr & Hl & ->)%Hel & Hu & Ho). cbn in Hu. rewrite (Hkey u' r Hr) in Hu. subst. eauto.
    + intros (r & Hr & Hl & Ho). exists (full_order d (or_order r)). rewrite Hel. cbn.
      pose proof (Hkey u r Hr). eauto 8.
  - intros f g (v & r & Hr & _ & ->)%Hel (v' & r' & Hr' & _ & ->)%Hel E. cbn in E.
    rewrite (Hkey v r Hr), (Hkey v' r' Hr') in E. congruence.
Qed.

Lemma rows_collect d rows (selected : Z -> OrderRow -> Prop) :
  rows_convert utf8 d ->
  (forall f, f ∈ rows <-> exists u r, t_orders d !! u = Some r /\ selected u r /\ f = full_order d (or_order r)) ->
  is_Some (collect_orders utf8 rows).
Proof.
  intros Hrows Hel. unfold collect_orders.
  destruct (mapM_all (full_order_into_model_order utf8) rows) as [x ->]; [|by eauto].
  intros f (u & r & Hr & _ & ->)%Hel. by eapply Hrows.
Qed.

(** The full query returns the live orders that are not filled. *)
Lemma solvable_rows mv d f :
  f ∈ solvable_orders mv d <->
  exists u r, t_orders d !! u = Some r /\ is_live mv d r && not_filled d (or_order r) = true /\ f = full_order d (or_order r).
Proof.
  unfold solvable_orders. rewrite list_elem_of_fmap. split.
  - intros (r & -> & [Hl Hin]%list_elem_of_filter). apply list_elem_of_fmap in Hin as ([u r'] & -> & Hin%elem_of_map_to_list).
    exists u, r'. split; [done|]. split; [done|]. apply andb_true_iff in Hl as [Hl _]. by eapply live_open_order.
  - intros (u & r & Hr & Hl & ->). exists r. apply andb_true_iff in Hl as Hl'. destruct Hl' as [Hl' _].
    split; [symmetry; by eapply live_open_order|]. apply list_elem_of_filter. split; [done|].
    apply list_elem_of_fmap. exists (u, r). by rewrite elem_of_map_to_list.
Qed.

(** The incremental query returns the marked orders. *)
Lemma updated_rows ts block d f :
  keyed d ->
  f ∈ open_orders_by_time_or_uids (updated_order_uids_after block d) ts d <->
  exists u r, t_orders d !! u = Some r /\ touched ts block d u /\ f = full_order d (or_order r).
Proof.
  intros Hkey. unfold open_orders_by_time_or_uids. rewrite list_elem_of_fmap. split.
  - intros (r & -> & [Hl Hin]%list_elem_of_filter). apply list_elem_of_fmap in Hin as ([u r'] & -> & Hin%elem_of_map_to_list).
    exists u, r'. split; [done|]. split; [|done]. apply (selected_touched ts block d u r' Hin); [by apply Hkey|done].
  - intros (u & r & Hr & Hl & ->). exists r. split; [done|]. apply list_elem_of_filter. split.
    + apply (selected_touched ts block d u r Hr); [by apply Hkey|done].
    + apply list_elem_of_fmap. exists (u, r). by rewrite elem_of_map_to_list.
Qed.

Lemma is_live_mono mv mv' d r : mv <= mv' -> is_live mv' d r = true -> is_live mv d r = true.
Proof.
  intros Hle. unfold is_live. intros H. destruct (Z.leb_spec mv (or_true_valid_to r)) as [|Hlt]; [|].
  - destruct (mv' <=? or_true_valid_to r); [done|]. by rewrite andb_false_r in H.
  - replace (mv' <=? or_true_valid_to r) with false in H by lia. by rewrite andb_false_r in H.
Qed.

Lemma retained_mono mv mv' o : mv <= mv' -> retained mv' o = true -> retained mv o = true.
Proof.
  intros Hle. unfold retained. rewrite !andb_true_iff, !negb_true_iff. intros [[[He ?] ?] ?]. repeat split; try done.
  revert He. unfold is_expired. rewrite !orb_false_iff. intros [? He]. split; [lia|]. destruct (md_ethflow_data _); [lia|done].
Qed.

(** One order in an incremental read: looked at again, or kept as it was cached. *)
Lemma read_again_lookup now current quotes ts block mv d s u o :
  keyed d -> solvable_orders_after utf8 rational_from_f64 now current quotes ts block mv d = Some s ->
  so_orders s !! u = Some o <->
  retained mv o = true /\
  ((looked_at ts block d u /\ exists r, t_orders d !! u = Some r /\ full_order_into_model_order utf8 (full_order d (or_order r)) = Some o) \/
   (~ looked_at ts block d u /\ current !! u = Some o)).
Proof.
  intros Hkey. unfold solvable_orders_after. destruct (negb _); [done|].
  destruct (collect_orders utf8 _) as [next|] eqn:Hnext; [|done]. destruct (negb _); [done|]. intros [= <-]. cbn [so_orders].
  pose proof (rows_collected d _ (fun u _ => touched ts block d u) next Hkey (fun f => updated_rows ts block d f Hkey) Hnext) as Hn.
  rewrite map_lookup_filter_Some, lookup_union_Some_raw. cbn.
  assert (Hsel : next !! u = None <-> ~ looked_at ts block d u).
  { unfold looked_at. split.
    - intros Hno [Ht [r Hr]]. unfold collect_orders in Hnext. destruct (mapM _ _) as [l|] eqn:Hl; [|done].
      assert (is_Some (full_order_into_model_order utf8 (full_order d (or_order r)))) as [x Hx].
      { apply mapM_Some_1 in Hl. assert (Hin : full_order d (or_order r) ∈ open_orders_by_time_or_uids (updated_order_uids_after block d) ts d)
          by (apply updated_rows; eauto). apply list_elem_of_lookup in Hin as [k Hk].
        destruct (Forall2_lookup_l _ _ _ _ _ Hl Hk) as (y & _ & Hy). eauto. }
      assert (next !! u = Some x) by (apply Hn; eauto). congruence.
    - intros Hnot. destruct (next !! u) as [x|] eqn:Hx; [|done]. apply Hn in Hx as (r & Hr & Ht & _). destruct Hnot. eauto. }
  split.
  - intros [[Hx|[Hno Hc]] Hret]; (split; [done|]).
    + left. apply Hn in Hx as (r & Hr & Ht & Ho). unfold looked_at. eauto 8.
    + right. by apply Hsel in Hno.
  - intros [Hret [[[Ht _] (r & Hr & Ho)]|[Hno Hc]]]; (split; [|done]).
    + left. apply Hn. eauto.
    + right. by apply Hsel in Hno.
Qed.
End agreement.

(** ** Histories of reads *)
Section histories.
Context (utf8 : string -> bool) (rational_from_f64 : f64 -> option (Z * Z)) (period : Z).

(** A time at which the cache may be updated: the minimal validity does not wrap. *)
Definition read_time (now : Z) : Prop := 0 <= now /\ fits 32 period = true /\ now + period < 2 ^ 32.

(** Histories of reads of arbitrary databases, seen from one order: the last read, of
    [d] at [now], left the cache [c], and the order was last looked at in [s].  The first
    read is a full one and looks at every order, the later ones at those that are marked. *)
Inductive last_seen (u : Z) : Z -> Db -> SolvableOrders -> Db -> Prop :=
| seen_first now d c :
    read_time now -> keyed d -> get_solvable_orders utf8 rational_from_f64 now period None d = Some c -> last_seen u now d c d
| seen_again now d c s now' d' c' :
    last_seen u now d c s -> now <= now' -> read_time now' -> keyed d' ->
    get_solvable_orders utf8 rational_from_f64 now' period (Some c) d' = Some c' ->
    looked_at (so_fetched_from_db c) (so_latest_settlement_block c) d' u -> last_seen u now' d' c' d'
| seen_before now d c s now' d' c' :
    last_seen u now d c s -> now <= now' -> read_time now' -> keyed d' ->
    get_solvable_orders utf8 rational_from_f64 now' period (Some c) d' = Some c' ->
    ~ looked_at (so_fetched_from_db c) (so_latest_settlement_block c) d' u -> last_seen u now' d' c' s.

Lemma full_read now d c :
  read_time now -> get_solvable_orders utf8 rational_from_f64 now period None d = Some c ->
  collect_orders utf8 (solvable_orders (now + period) d) = Some (so_orders c) /\
  so_latest_settlement_block c = latest_settlement_block d.
Proof.
  intros (H0 & Hp & Hw). pose proof (proj1 (fits_spec _ _) Hp). unfold get_solvable_orders, all_solvable_orders.
  rewrite Hp. cbn [negb]. rewrite Z.mod_small by lia.
  destruct (collect_orders utf8 (solvable_orders (now + period) d)) as [m|]; [|done]. destruct (fits 64 _); [|done]. by intros [= <-].
Qed.

Lemma full_read_lookup now d c u o :
  read_time now -> keyed d -> get_solvable_orders utf8 rational_from_f64 now period None d = Some c ->
  so_orders c !! u = Some o <-> solvable_in utf8 (now + period) d u o.
Proof.
  intros Ht Hkey [Hc _]%full_read; [|done].
  apply (rows_collected utf8 d _ (fun _ r => is_live (now + period) d r && not_filled d (or_order r) = true) _ Hkey
           (solvable_rows (now + period) d) Hc).
Qed.

Lemma next_read now c d c' :
  read_time now -> get_solvable_orders utf8 rational_from_f64 now period (Some c) d = Some c' ->
  exists s, solvable_orders_after utf8 rational_from_f64 now (so_orders c) (so_quotes c) (so_fetched_from_db c)
    (so_latest_settlement_block c) (now + period) d = Some s /\ so_orders s = so_orders c' /\
    so_latest_settlement_block c' = latest_settlement_block d.
Proof.
  intros (H0 & Hp & Hw). pose proof (proj1 (fits_spec _ _) Hp). unfold get_solvable_orders. rewrite Hp. cbn [negb].
  rewrite Z.mod_small by lia. destruct (solvable_orders_after _ _ _ _ _ _ _ _ _) as [s|] eqn:Hs; [|done].
  intros [= <-]. exists s. split; [done|]. split; [done|]. revert Hs. cbn. unfold solvable_orders_after.
  destruct (negb _); [done|]. destruct (collect_orders _ _); [|done]. destruct (negb _); [done|]. by intros [= <-].
Qed.

Lemma next_read_lookup now c d c' u o :
  read_time now -> keyed d -> get_solvable_orders utf8 rational_from_f64 now period (Some c) d = Some c' ->
  so_orders c' !! u = Some o <->
  retained (now + period) o = true /\
  ((looked_at (so_fetched_from_db c) (so_latest_settlement_block c) d u /\
    exists r, t_orders d !! u = Some r /\ full_order_into_model_order utf8 (full_order d (or_order r)) = Some o) \/
   (~ looked_at (so_fetched_from_db c) (so_latest_settlement_block c) d u /\ so_orders c !! u = Some o)).
Proof. intros Ht Hkey (s & Hs & <- & _)%next_read; [|done]. by eapply read_again_lookup. Qed.

Lemma last_seen_reads u now d c s :
  last_seen u now d c s -> read_time now /\ keyed d /\ keyed s /\ so_latest_settlement_block c = latest_settlement_block d.
Proof.
  induction 1 as [now d c Ht Hk Hg|now d c s now' d' c' _ (? & ? & ? & _) _ Ht Hk Hg _|now d c s now' d' c' _ (? & ? & ? & _) _ Ht Hk Hg _].
  - by destruct (full_read _ _ _ Ht Hg).
  - by destruct (next_read _ _ _ _ Ht Hg) as (? & _ & _ & ?).
  - by destruct (next_read _ _ _ _ Ht Hg) as (? & _ & _ & ?).
Qed.

(** The cache holds of an order what a full read would have returned when the order was
    last looked at, as long as it is retained. *)
Lemma last_seen_solvable u now d c s mv o :
  last_seen u now d c s -> now + period <= mv -> row_ok mv s u ->
  so_orders c !! u = Some o /\ retained mv o = true <-> solvable_in utf8 mv s u o.
Proof.
  intros H. revert mv. induction H as [now d c Ht Hk Hg|now d c s now' d' c' _ _ _ Ht Hk Hg Hl|now d c s now' d' c' _ IH Hle Ht Hk Hg Hl];
    intros mv Hmv Hok.
  - rewrite (full_read_lookup _ _ _ _ _ Ht Hk Hg). split.
    + intros [(r & Hr & _ & Ho) Hret]. exists r. split; [done|]. split; [|done]. by rewrite <-(retained_live utf8 mv d u r o).
    + intros (r & Hr & Hlive & Ho). split; [|by rewrite (retained_live utf8 mv d u r o)].
      exists r. split; [done|]. split; [|done]. apply andb_true_iff in Hlive as [Hlive ->].
      by rewrite (is_live_mono _ _ _ _ Hmv Hlive).
  - rewrite (next_read_lookup _ _ _ _ _ _ Ht Hk Hg). split.
    + intros [[_ [[_ (r & Hr & Ho)]|[]]] Hret]; [|done]. exists r. split; [done|]. split; [|done].
      by rewrite <-(retained_live utf8 mv d' u r o).
    + intros (r & Hr & Hlive & Ho). assert (Hret : retained mv o = true) by (by rewrite (retained_live utf8 mv d' u r o)).
      split; [|done]. split; [by eapply retained_mono|]. left. eauto.
  - rewrite (next_read_lookup _ _ _ _ _ _ Ht Hk Hg), <-(IH mv) by (done || lia). split.
    + intros [[_ [[]|[_ Hc]]] Hret]; done.
    + intros [Hc Hret]. split; [|done]. split; [by eapply retained_mono|]. by right.
Qed.

Lemma last_seen_retained u now d c s o :
  last_seen u now d c s -> row_ok (now + period) s u -> so_orders c !! u = Some o -> retained (now + period) o = true.
Proof.
  intros [now' d' c' Ht Hk Hg|now0 d0 c0 s0 now' d' c' _ _ Ht Hk Hg _|now0 d0 c0 s0 now' d' c' _ _ Ht Hk Hg _] Hok Ho.
  - apply (full_read_lookup _ _ _ _ _ Ht Hk Hg) in Ho as (r & Hr & Hlive & Ho).
    by rewrite (retained_live utf8 _ d' u r o).
  - by apply (next_read_lookup _ _ _ _ _ _ Ht Hk Hg) in Ho as [? _].
  - by apply (next_read_lookup _ _ _ _ _ _ Ht Hk Hg) in Ho as [? _].
Qed.

Lemma row_ok_same mv s d u : keyed d -> same_order u s d -> row_ok mv d u -> row_ok mv s u.
Proof.
  intros Hkey [] [Hv Hp Hr]. rewrite so_row0, so_ethflow0 in Hv. rewrite so_placed0 in Hp. rewrite so_row0, so_refund0 in Hr.
  split; [done..|]. intros r Hrow. unfold invalidated_onchain in *. rewrite so_invalidations0, so_onchain_invalidation0 in Hr. eauto.
Qed.

Lemma solvable_in_same mv s d u o : keyed d -> same_order u s d -> solvable_in utf8 mv s u o <-> solvable_in utf8 mv d u o.
Proof.
  intros Hkey Hs. unfold solvable_in. pose proof (so_row _ _ _ Hs) as Erow. rewrite Erow.
  split; intros (r & Hr & Hl & Ho); (destruct (same_order_full u s d r Hs Hr) as (Ef & El & En); [apply Hkey; congruence|]);
    exists r; (split; [done|]); [rewrite El, En, Ef|rewrite <-El, <-En, <-Ef]; done.
Qed.

(** C10 (refinement): whatever happens to the database between the reads of a history, a
    deletion or an overwritten row included, the cache holds of each order what a full
    query at this time returns of the database in which the order was last looked at; so it
    agrees on the order with a full read of the present database if nothing the database
    holds on the order has changed since, and the incremental query looks at every order
    with a creation, a cancellation or an event after the checkpoint.  The order's own row
    has to be consistent: the validity in force is the user's (the order's own outside
    ethflow), the placement error is a known one, and a refunded order has expired or was
    invalidated.  The next read of any database whose rows convert succeeds. *)
Theorem incremental_reads_refine_full u now d c s :
  last_seen u now d c s ->
  (row_ok (now + period) s u -> forall o, so_orders c !! u = Some o <-> solvable_in utf8 (now + period) s u o) /\
  (row_ok (now + period) d u -> same_order u s d -> forall full,
     get_solvable_orders utf8 rational_from_f64 now period None d = Some full -> so_orders c !! u = so_orders full !! u) /\
  (forall now' d', read_time now' -> rows_convert utf8 d' -> latest_settlement_block d < 2 ^ 63 ->
     0 <= latest_settlement_block d' < 2 ^ 63 -> keyed d' ->
     exists c', get_solvable_orders utf8 rational_from_f64 now' period (Some c) d' = Some c').
Proof.
  intros H. destruct (last_seen_reads _ _ _ _ _ H) as (Ht & Hkd & Hks & Hb).
  assert (Hsolv : row_ok (now + period) s u -> forall o, so_orders c !! u = Some o <-> solvable_in utf8 (now + period) s u o).
  { intros Hok o. rewrite <-(last_seen_solvable _ _ _ _ _ (now + period) o H) by (done || lia).
    split; [|by intros [? _]]. intros Ho. split; [done|]. by eapply last_seen_retained. }
  split; [done|]. split.
  - intros Hok Hs full Hfull. apply option_eq. intros o.
    rewrite (full_read_lookup _ _ _ _ _ Ht Hkd Hfull), <-(solvable_in_same _ _ _ _ _ Hkd Hs).
    apply Hsolv. exact (row_ok_same _ _ _ _ Hkd Hs Hok).
  - intros now' d' (H0 & Hp & Hw) Hrows Hblock Hblock' Hkd'. pose proof (proj1 (fits_spec _ _) Hp).
    unfold get_solvable_orders, solvable_orders_after. rewrite Hp. cbn [negb]. rewrite Hb.
    replace (latest_settlement_block d <? 2 ^ 63) with true by lia. cbn [negb].
    destruct (rows_collect utf8 d' _ (fun u _ => touched (so_fetched_from_db c) (latest_settlement_block d) d' u) Hrows
      (fun f => updated_rows (so_fetched_from_db c) (latest_settlement_block d) d' f Hkd')) as [m ->].
    replace (fits 64 (latest_settlement_block d')) with true by (symmetry; apply fits_spec; lia). eauto.
Qed.
End histories.

(** A database of orders only. *)
Definition orders_db (orders : gmap Z OrderRow) : Db := mkDb orders ∅ ∅ ∅ ∅ ∅ ∅ ∅ ∅ ∅ ∅ ∅ [] [].

Definition example_row (uid created valid_to : Z) : DbOrder :=
  mkDbOrder uid 7 created 1 2 None 100 90 valid_to 0 0 Sell false [] PreSign 9 SellErc20 BuyErc20 None ClassMarket.

Definition example_db : Db :=
  orders_db {[1 := mkOrderRow (example_row 1 5 500) 500; 3 := mkOrderRow (example_row 3 5 500) 500]}.
Definition example_later : Db := db_cancel_order 1 95 (insert_order_execute_sqlx (example_row 2 90 500) example_db).

(** A read of the sample databases, and the orders that it returns. *)
Definition example_read (now : Z) (cache : option SolvableOrders) (d : Db) : option SolvableOrders :=
  get_solvable_orders (fun _ => true) (fun _ => None) now 10 cache d.
Definition uids (c : option SolvableOrders) : option (list Z) := (fun c => fst <$> map_to_list (so_orders c)) <$> c.

Lemma orders_db_keyed orders : map_Forall (fun u r => db_uid (or_order r) = u) orders -> keyed (orders_db orders).
Proof. intros H u r Hr. exact (H u r Hr). Qed.

Lemma example_later_orders : example_later = orders_db {[
  1 := cancel_row 95 (mkOrderRow (example_row 1 5 500) 500); 2 := mkOrderRow (example_row 2 90 500) 500;
  3 := mkOrderRow (example_row 3 5 500) 500]}.
Proof. by vm_compute. Qed.

(** Order 2 is new, order 1 was cancelled, and order 3 is as it was. *)
Lemma incremental_reads_refine_full_witness :
  exists c, last_seen (fun _ => true) (fun _ => None) 10 3 120 example_later c example_db /\ uids (Some c) = Some [3; 2] /\
    forall full, example_read 120 None example_later = Some full -> so_orders c !! 3 = so_orders full !! 3.
Proof.
  destruct (example_read 100 None example_db) as [c1|] eqn:Hc1; [|vm_compute in Hc1; discriminate Hc1].
  destruct (example_read 120 (Some c1) example_later) as [c2|] eqn:Hc2;
    [|vm_compute in Hc1; injection Hc1 as <-; vm_compute in Hc2; discriminate Hc2].
  assert (Hseen : last_seen (fun _ => true) (fun _ => None) 10 3 120 example_later c2 example_db).
  { apply (seen_before _ _ _ _ 100 example_db c1 example_db 120 example_later c2); [apply seen_first|..]; try done.
    - apply orders_db_keyed. repeat (apply map_Forall_insert_2; [done|]). apply map_Forall_empty.
    - rewrite example_later_orders. apply orders_db_keyed. repeat (apply map_Forall_insert_2; [done|]). apply map_Forall_empty.
    - intros [Ht _]. unfold looked_at, touched in Ht. rewrite example_later_orders in Ht. vm_compute in Hc1. injection Hc1 as <-.
      cbn in Ht. destruct Ht as [(r & Hr & Ht)|Ht]; [|naive_solver].
      vm_compute in Hr. injection Hr as <-. cbn in Ht. destruct Ht as [Ht|(x & Hx & _)]; [discriminate Ht|done]. }
  exists c2. split; [exact Hseen|]. split.
  - vm_compute in Hc1. injection Hc1 as <-. vm_compute in Hc2. injection Hc2 as <-. vm_compute. reflexivity.
  - destruct (incremental_reads_refine_full _ _ _ _ _ _ _ _ Hseen) as (_ & Hagree & _). apply Hagree.
    + rewrite example_later_orders. split.
      * intros r Hr. vm_compute in Hr. by injection Hr as <-.
      * intros p e Hp. by vm_compute in Hp.
      * intros r _ [x Hx]. by vm_compute in Hx.
    + rewrite example_later_orders. split; try done.
Defined.

(** A row that is indexed for a block before the checkpoint is not seen: the invalidation
    of order 3 in block 40 arrives when block 50 has been read.  Nor is a reorganization
    that takes the trade of order 3 back seen. *)
Example late_event_missed :
  let before := set_settlement_blocks [50] example_db in
  let invalidated := set_invalidations {[(40, 0) := 3]} before in
  let first := example_read 100 None before in
  uids (first ≫= fun c => example_read 120 (Some c) invalidated) = Some [3; 1] /\
  uids (example_read 120 None invalidated) = Some [1].
Proof. by vm_compute. Qed.

Example reorganization_missed :
  let filled := set_trades {[(40, 0) := mkDbTrade 3 100 90 0]} example_db in
  let first := example_read 100 None filled in
  uids (first ≫= fun c => example_read 120 (Some c) example_db) = Some [1] /\
  uids (example_read 120 None example_db) = Some [3; 1].
Proof. by vm_compute. Qed.
