(* ===== verification/RemainingAmounts.v ===== *)
(** * RemainingAmounts: what is left of an order

    [crates/shared/src/remaining_amounts.rs] on the ratios of
    [crates/number/src/ratio_ext.rs]: the part of an order that was not executed yet and
    that its owner can still pay for.

    Ratios are not reduced, as [Ratio::new_raw] leaves them.  [U256::MAX] is [2^256 - 1];
    [Query::from_order] of [crates/shared/src/account_balances/mod.rs] is here as well,
    since balances are looked up with it. *)

From stdpp Require Import base list strings.
From Stdlib Require Import ZArith Lia.
From S2P Require Import Prelude Eth Liquidity Solution Dto Score DriverOrder OrderModel AppData OrderCreation OrderQuoting.

Open Scope Z_scope.

(** ** Ratios *)
Record Ratio := mkRatio { numer : Z; denom : Z }.

Definition Ratio_ZERO : Ratio := mkRatio 0 1.
Definition Ratio_ONE : Ratio := mkRatio 1 1.

(** Fails when the product or the quotient does. *)
Definition scalar_mul (r : Ratio) (scalar : Z) : option Z :=
  let? product := checked_mul scalar (numer r) in checked_div product (denom r).

(** The product is 512 bits wide; only the quotient has to fit. *)
Definition full_scalar_mul (r : Ratio) (scalar : Z) : option Z :=
  if denom r =? 0 then None
  else let q := scalar * numer r / denom r in if fits 256 q then Some q else None.

(** ** Orders *)
Record RemainingOrder := mkRemainingOrder {
  ro_kind : Side;
  ro_buy_amount : Z;
  ro_sell_amount : Z;
  ro_fee_amount : Z;
  ro_executed_amount : Z;
  ro_partially_fillable : bool;
}.

(** A buy order of which more than 256 bits were executed counts as executed. *)
Definition RemainingOrder_from (o : ModelOrder) : RemainingOrder :=
  let d := mo_data o in
  mkRemainingOrder (od_kind d) (od_buy_amount d) (od_sell_amount d) (od_fee_amount d)
    (match od_kind d with
     | Buy => if fits 256 (md_executed_buy_amount (mo_metadata o)) then md_executed_buy_amount (mo_metadata o)
              else od_buy_amount d
     | Sell => md_executed_sell_amount_before_fees (mo_metadata o)
     end)
    (od_partially_fillable d).

Definition Query_from_order (o : ModelOrder) : BalanceQuery :=
  mkBalanceQuery (md_owner (mo_metadata o)) (od_sell_token (mo_data o)) (od_sell_token_balance (mo_data o))
    (in_pre (mo_interactions o)) None.

(** ** Remaining amounts *)
Record Remaining := mkRemaining { rem_execution : Ratio; rem_balance : Ratio }.

Definition with_context {A} (o : option A) (context : string) : result string A :=
  match o with Some x => Ok x | None => Err context end.

Definition from_order_with_balance (order : RemainingOrder) (sell_balance : Z) : result string Remaining :=
  let total := match ro_kind order with Buy => ro_buy_amount order | Sell => ro_sell_amount order end in
  if ro_partially_fillable order then
    letr unexecuted := with_context (checked_sub total (ro_executed_amount order)) "executed larger than total" in
    let execution := mkRatio unexecuted total in
    letr sell_amount := with_context (scalar_mul execution (ro_sell_amount order))
                          "overflow scaling sell amount for execution" in
    letr fee_amount := with_context (scalar_mul execution (ro_fee_amount order))
                         "overflow scaling fee amount for execution" in
    letr need := with_context (checked_add sell_amount fee_amount)
                   "partially fillable need calculation overflow" in
    Ok (mkRemaining execution (if sell_balance <? need then mkRatio sell_balance need else Ratio_ONE))
  else
    letr sell := with_context (checked_add (ro_sell_amount order) (ro_fee_amount order)) "overflow sell + fee amount" in
    Ok (mkRemaining (if ro_executed_amount order =? 0 then Ratio_ONE else Ratio_ZERO)
                    (if sell <=? sell_balance then Ratio_ONE else Ratio_ZERO)).

Definition from_order (order : RemainingOrder) : result string Remaining :=
  from_order_with_balance order (2 ^ 256 - 1).

Definition remaining (r : Remaining) (total : Z) : result string Z :=
  letr order_execution := with_context (scalar_mul (rem_execution r) total) "overflow scaling for order execution" in
  with_context (full_scalar_mul (rem_balance r) order_execution) "overflow scaling for available balance".

(** ** Ratios of at most one *)
Definition ratio_ok (r : Ratio) : Prop := 0 <= numer r <= denom r.

Lemma scale_bounds s n d : 0 <= s -> 0 <= n <= d -> 0 < d -> 0 <= s * n / d <= s.
Proof.
  intros. split; [apply Z.div_pos; nia|]. apply Z.div_le_upper_bound; nia.
Qed.

Lemma scalar_mul_Some r s x :
  scalar_mul r s = Some x <-> x = s * numer r / denom r /\ s * numer r <= U256_MAX /\ denom r <> 0.
Proof.
  unfold scalar_mul. destruct (checked_mul s (numer r)) as [p|] eqn:E; cbn.
  - apply checked_mul_Some in E as [-> ?]. rewrite checked_div_Some. tauto.
  - apply checked_mul_None in E. split; [done|lia].
Qed.

Lemma full_scalar_mul_ok r s :
  ratio_ok r -> denom r <> 0 -> 0 <= s <= U256_MAX -> full_scalar_mul r s = Some (s * numer r / denom r).
Proof.
  intros [Hn Hd] Hz Hs. unfold full_scalar_mul. replace (denom r =? 0) with false by lia.
  assert (Hb : 0 <= s * numer r / denom r <= s) by (apply scale_bounds; lia).
  replace (fits 256 _) with true; [done|]. symmetry. apply fits_spec. unfold U256_MAX in *. lia.
Qed.

(** Scaling two parts by the same ratio gives no more than scaling their sum. *)
Lemma scale_sum a b n : 0 <= a -> 0 <= b -> 0 <= n -> 0 < a + b -> a * n / (a + b) + b * n / (a + b) <= n.
Proof.
  intros. transitivity ((a * n + b * n) / (a + b)).
  - apply Z.div_le_lower_bound; [done|]. pose proof (Z.mul_div_le (a * n) (a + b)). pose proof (Z.mul_div_le (b * n) (a + b)). nia.
  - rewrite <-Z.mul_add_distr_r, Z.mul_comm, Z.div_mul; lia.
Qed.

Record remaining_order_ok (o : RemainingOrder) : Prop := {
  roo_buy : 0 <= ro_buy_amount o <= U256_MAX;
  roo_sell : 0 <= ro_sell_amount o <= U256_MAX;
  roo_fee : 0 <= ro_fee_amount o <= U256_MAX;
  roo_executed : 0 <= ro_executed_amount o;
}.

(** What the two ratios of an order are. *)
Lemma from_order_with_balance_Ok o b r :
  remaining_order_ok o -> 0 <= b -> from_order_with_balance o b = Ok r ->
  ratio_ok (rem_execution r) /\ 0 < denom (rem_execution r) /\ ratio_ok (rem_balance r) /\ 0 < denom (rem_balance r) /\
  exists s f, scalar_mul (rem_execution r) (ro_sell_amount o) = Some s /\
    scalar_mul (rem_execution r) (ro_fee_amount o) = Some f /\ s + f <= U256_MAX /\
    (s + f <= b \/ numer (rem_balance r) = 0 \/ rem_balance r = mkRatio b (s + f)).
Proof.
  intros [Hb Hs Hf He] Hbal. unfold from_order_with_balance, with_context.
  destruct (ro_partially_fillable o).
  - destruct (checked_sub _ _) as [rest|] eqn:Hl; [|done]. apply checked_sub_Some in Hl as [-> Hle]. cbn.
    destruct (scalar_mul _ (ro_sell_amount o)) as [s|] eqn:Es; [|done].
    destruct (scalar_mul _ (ro_fee_amount o)) as [f|] eqn:Ef; [|done]. cbn.
    destruct (checked_add s f) as [need|] eqn:En; [|done]. apply checked_add_Some in En as [-> Hneed]. cbn. intros [= <-]. cbn.
    pose proof (proj1 (scalar_mul_Some _ _ _) Es) as (_ & _ & Hden). cbn in Hden.
    assert (Hden' : 0 < match ro_kind o with Buy => ro_buy_amount o | Sell => ro_sell_amount o end) by (destruct (ro_kind o); lia).
    split; [unfold ratio_ok; cbn; lia|]. split; [done|].
    destruct (Z.ltb_spec b (s + f)); cbn.
    + split; [unfold ratio_ok; cbn; lia|]. split; [lia|]. exists s, f. split; [done|]. split; [done|]. auto.
    + split; [unfold ratio_ok; cbn; lia|]. split; [lia|]. exists s, f. split; [done|]. split; [done|]. auto.
  - destruct (checked_add _ _) as [sell|] eqn:Ea; [|done]. apply checked_add_Some in Ea as [-> Hsum]. cbn. intros [= <-]. cbn.
    assert (Hx : forall c : bool, ratio_ok (if c then Ratio_ONE else Ratio_ZERO) /\ 0 < denom (if c then Ratio_ONE else Ratio_ZERO))
      by (intros []; unfold ratio_ok; cbn; lia).
    destruct (Hx (ro_executed_amount o =? 0)) as [H1 H2]. destruct (Hx (ro_sell_amount o + ro_fee_amount o <=? b)) as [H3 H4].
    split; [done|]. split; [done|]. split; [done|]. split; [done|].
    exists (if ro_executed_amount o =? 0 then ro_sell_amount o else 0), (if ro_executed_amount o =? 0 then ro_fee_amount o else 0).
    rewrite !scalar_mul_Some. destruct (ro_executed_amount o =? 0); cbn;
      rewrite ?Z.mul_1_r, ?Z.mul_0_r, ?Z.div_1_r, ?Z.div_0_l; destruct (Z.leb_spec (ro_sell_amount o + ro_fee_amount o) b); cbn;
      unfold U256_MAX in *; repeat split; lia.
Qed.

(** C32 (bounds): the remaining amounts of an order are affordable: whenever the ratios of an
    order are computed, its sell amount and its fee both scale without overflow, together
    they do not exceed the balance the owner has, and no amount scales to more than itself. *)
Theorem remaining_affordable o b r :
  remaining_order_ok o -> 0 <= b -> from_order_with_balance o b = Ok r ->
  (exists s f, remaining r (ro_sell_amount o) = Ok s /\ remaining r (ro_fee_amount o) = Ok f /\
               0 <= s /\ 0 <= f /\ s + f <= b) /\
  (forall t x, 0 <= t -> remaining r t = Ok x -> 0 <= x <= t).
Proof.
  intros Ho Hb Hr. destruct (from_order_with_balance_Ok o b r Ho Hb Hr) as (Hex & Hexd & Hba & Hbad & s & f & Es & Ef & Hsum & Hcase).
  destruct Ho as [_ Hsell Hfee _]. split.
  - pose proof (proj1 (scalar_mul_Some _ _ _) Es) as (Es' & _). pose proof (proj1 (scalar_mul_Some _ _ _) Ef) as (Ef' & _).
    assert (0 <= s) by (rewrite Es'; apply scale_bounds; [lia|exact Hex|lia]).
    assert (0 <= f) by (rewrite Ef'; apply scale_bounds; [lia|exact Hex|lia]).
    unfold remaining. rewrite Es, Ef. cbn. rewrite !full_scalar_mul_ok by (done || lia). cbn.
    eexists _, _. split; [done|]. split; [done|].
    pose proof (scale_bounds s _ _ ltac:(lia) Hba Hbad). pose proof (scale_bounds f _ _ ltac:(lia) Hba Hbad).
    split; [lia|]. split; [lia|]. destruct Hcase as [|[Hz|Hratio]]; [lia| |].
    + rewrite Hz, !Z.mul_0_r, Z.div_0_l by lia. lia.
    + rewrite Hratio in *. cbn in *. apply scale_sum; lia.
  - intros t x Ht. unfold remaining, with_context. destruct (scalar_mul _ t) as [y|] eqn:Ey; [|done]. cbn.
    apply scalar_mul_Some in Ey as (-> & Hle & _). pose proof (scale_bounds t _ _ Ht Hex Hexd).
    unfold full_scalar_mul. replace (denom (rem_balance r) =? 0) with false by lia.
    destruct (fits 256 _) eqn:Efit; [|done]. intros [= <-].
    pose proof (scale_bounds (t * numer (rem_execution r) / denom (rem_execution r)) _ _ ltac:(lia) Hba Hbad). lia.
Qed.

Lemma remaining_affordable_witness :
  let o := mkRemainingOrder Sell 900 100 10 40 true in
  remaining_order_ok o /\ exists r, from_order_with_balance o 33 = Ok r /\ remaining r 100 = Ok 30 /\ remaining r 10 = Ok 3 /\
  (exists s f, remaining r 100 = Ok s /\ remaining r 10 = Ok f /\ s + f <= 33).
Proof.
  cbv zeta. assert (Ho : remaining_order_ok (mkRemainingOrder Sell 900 100 10 40 true)) by (split; cbn; unfold U256_MAX; lia).
  split; [done|]. eexists. split; [reflexivity|]. split; [reflexivity|]. split; [reflexivity|].
  destruct (remaining_affordable _ 33 (mkRemaining (mkRatio 60 100) (mkRatio 33 66)) Ho ltac:(lia) ltac:(reflexivity))
    as [(s & f & E1 & E2 & _ & _ & E3) _]. exists s, f. auto.
Defined.
