(* ===== verification/AutopilotFee.v ===== *)
(** * AutopilotFee: protocol and partner fees of the orders of an auction

    [crates/autopilot/src/domain/fee/mod.rs] and [policy.rs], their configuration
    ([FeePolicy] and its neighbours of [crates/autopilot/src/arguments.rs], the factors and
    buckets of [crates/shared/src/arguments.rs]), and the conversion of orders to the
    domain ([crates/autopilot/src/boundary/order.rs],
    [crates/autopilot/src/domain/auction/order.rs]).

    [rust_decimal::Decimal] is the class [DecimalOps]; what the caps rely on is stated in
    [DecimalLaws], which the rationals satisfy.  A [FeeFactor] is its [f64].  Parsing
    floats and addresses is a parameter. *)

From stdpp Require Import base gmap sets list strings.
From Stdlib Require Import ZArith QArith Qminmax Lia Lqa Ascii String.
From S2P Require Import Prelude Collections F64 Eth Liquidity Solution Dto Score DriverOrder CompetitionStore.
From S2P Require Import OrderModel AppData OrderCreation OrderQuoting OrderValidation OrdersDb SolvableOrders RemainingAmounts.

Open Scope Z_scope.

(** ** Configuration *)
Inductive FeePolicyOrderClass := FeeMarket | FeeLimit | FeeAny.

(** [arguments::FeePolicyKind] and [policy::Policy] have the same variants. *)
Inductive ConfigPolicy :=
| ConfigSurplus (factor max_volume_factor : f64)
| ConfigPriceImprovement (factor max_volume_factor : f64)
| ConfigVolume (factor : f64).

Record ProtocolFee := mkProtocolFee { fee_policy : ConfigPolicy; fee_order_class : FeePolicyOrderClass }.

(** [str::split] at a character. *)
Fixpoint split_at (sep : Ascii.ascii) (s : string) : list string :=
  match s with
  | EmptyString => [EmptyString]
  | String c s =>
      if Ascii.eqb c sep then EmptyString :: split_at sep s
      else match split_at sep s with
           | part :: parts => String c part :: parts
           | [] => [String c EmptyString]
           end
  end.

Definition lower_char (c : Ascii.ascii) : Ascii.ascii :=
  let n := Ascii.nat_of_ascii c in
  if (Nat.leb 65 n && Nat.leb n 90)%bool then Ascii.ascii_of_nat (n + 32) else c.
Fixpoint to_lower (s : string) : string :=
  match s with EmptyString => EmptyString | String c s => String (lower_char c) (to_lower s) end.

(** [ValueEnum::from_str], ignoring the case. *)
Definition FeePolicyOrderClass_from_str (s : string) : option FeePolicyOrderClass :=
  if (to_lower s =? "market")%string then Some FeeMarket
  else if (to_lower s =? "limit")%string then Some FeeLimit
  else if (to_lower s =? "any")%string then Some FeeAny
  else None.

Section configuration.
Context (parse_f64 : string -> option f64) (parse_address : string -> option address).

(** A factor of a policy: the next part, parsed and in range. *)
Definition policy_factor (parts : list string) : option (f64 * list string) :=
  match parts with
  | [] => None
  | part :: parts => let? value := parse_f64 part in
                     let? factor := FeeFactor_try_from value in Some (factor, parts)
  end.

(** Both floats are parsed before their ranges are checked; every failure is an error. *)
Definition FeePolicy_from_str (s : string) : option ProtocolFee :=
  match split_at ":"%char s with
  | [] => None
  | kind :: parts =>
      let? answer :=
        (if (kind =? "surplus")%string then
           let? f := policy_factor parts in
           let? m := policy_factor f.2 in Some (ConfigSurplus f.1 m.1, m.2)
         else if (kind =? "priceImprovement")%string then
           let? f := policy_factor parts in
           let? m := policy_factor f.2 in Some (ConfigPriceImprovement f.1 m.1, m.2)
         else if (kind =? "volume")%string then
           let? f := policy_factor parts in Some (ConfigVolume f.1, f.2)
         else None) in
      match answer.2 with
      | [] => None
      | class :: _ => let? class := FeePolicyOrderClass_from_str class in Some (mkProtocolFee answer.1 class)
      end
  end.

(** [str::split_once] at a colon. *)
Definition split_once_colon (s : string) : option (string * string) :=
  match index 0 ":" s with
  | Some n => Some (substring 0 n s, substring (n + 1) (String.length s - n - 1) s)
  | None => None
  end.

Definition TokenBucketFeeOverride_from_str (s : string) : option TokenBucketFeeOverride :=
  let? parts := split_once_colon s in
  let? value := parse_f64 parts.1 in
  let? factor := FeeFactor_try_from value in
  let? addresses := mapM parse_address (split_at ";"%char parts.2) in
  let tokens : gset address := list_to_set addresses in
  if bool_decide (2 <= size tokens)%nat then Some (mkTokenBucket tokens factor) else None.
End configuration.

Record UpcomingFeePolicies := mkUpcomingFeePolicies {
  ufp_fee_policies : list ProtocolFee;
  ufp_effective_from_timestamp : option Z;
}.
Record FeePoliciesConfig := mkFeePoliciesConfig {
  fpc_fee_policies : list ProtocolFee;
  fpc_max_partner_fee : f64;
  fpc_upcoming_fee_policies : UpcomingFeePolicies;
}.

Record UpcomingProtocolFees := mkUpcomingProtocolFees {
  upf_fee_policies : list ProtocolFee;
  upf_effective_from_timestamp : Z;
}.

Definition upcoming_from (value : UpcomingFeePolicies) : option UpcomingProtocolFees :=
  let? effective_from_timestamp := ufp_effective_from_timestamp value in
  match ufp_fee_policies value with
  | [] => None
  | policies => Some (mkUpcomingProtocolFees policies effective_from_timestamp)
  end.

Record ProtocolFees := mkProtocolFees {
  pfs_fee_policies : list ProtocolFee;
  pfs_max_partner_fee : f64;
  pfs_upcoming_fee_policies : option UpcomingProtocolFees;
  pfs_volume_fee_policy : VolumeFeePolicy;
}.

Definition ProtocolFees_new (config : FeePoliciesConfig) (volume_fee_bucket_overrides : list TokenBucketFeeOverride)
  (enable_sell_equals_buy_volume_fee : bool) : ProtocolFees :=
  mkProtocolFees (fpc_fee_policies config) (fpc_max_partner_fee config)
    (upcoming_from (fpc_upcoming_fee_policies config))
    (mkVolumeFeePolicy volume_fee_bucket_overrides None enable_sell_equals_buy_volume_fee).

(** ** Orders of the domain *)
Record DomainOrder := mkDomainOrder {
  do_uid : Z;
  do_sell : Asset;
  do_buy : Asset;
  do_protocol_fees : list Score.FeePolicy;
  do_side : Side;
  do_created : Z;
  do_valid_to : Z;
  do_receiver : option address;
  do_owner : address;
  do_partially_fillable : bool;
  do_executed : Z;
  do_pre_interactions : list EthInteraction;
  do_post_interactions : list EthInteraction;
  do_sell_token_balance : SellTokenBalance;
  do_buy_token_balance : BuyTokenBalance;
  do_app_data : Z;
  do_signature : OrderSignature;
  do_quote : option DomainQuote;
}.

(** Pre-interactions are only kept for the first fill. *)
Definition to_domain (order : ModelOrder) (protocol_fees : list Score.FeePolicy) (quote : option DomainQuote) : DomainOrder :=
  let remaining_order := RemainingOrder_from order in
  let order_is_untouched := ro_executed_amount remaining_order =? 0 in
  let d := mo_data order in
  let md := mo_metadata order in
  mkDomainOrder (md_uid md) (mkAsset (od_sell_token d) (od_sell_amount d)) (mkAsset (od_buy_token d) (od_buy_amount d))
    protocol_fees (od_kind d) (if fits 32 (md_creation_date md) then md_creation_date md else 0) (od_valid_to d)
    (od_receiver d) (md_owner md) (od_partially_fillable d) (ro_executed_amount remaining_order)
    (if order_is_untouched then in_pre (mo_interactions order) else []) (in_post (mo_interactions order))
    (od_sell_token_balance d) (od_buy_token_balance d) (od_app_data d) (mo_signature order) quote.

Definition Quote_from_domain (value : DomainQuote) : Score.Quote :=
  Score.mkQuote (dq_sell_amount value) (dq_buy_amount value) (dq_fee value) (dq_solver value).

Definition Amounts_from_quote (q : DomainQuote) : Amounts := mkAmounts (dq_sell_amount q) (dq_buy_amount q) (dq_fee q).
Definition Amounts_from_order (o : ModelOrder) : Amounts :=
  mkAmounts (od_sell_amount (mo_data o)) (od_buy_amount (mo_data o)) (od_fee_amount (mo_data o)).

(** ** Protocol fees *)
Definition Surplus_apply (factor max_volume_factor : f64) (order : ModelOrder) : option Score.FeePolicy :=
  match md_class (mo_metadata order) with
  | ClassMarket | ClassLiquidity => None
  | ClassLimit => Some (Score.Surplus factor max_volume_factor)
  end.

Definition PriceImprovement_apply (factor max_volume_factor : f64) (order : ModelOrder) (quote : DomainQuote)
  : option Score.FeePolicy :=
  match md_class (mo_metadata order) with
  | ClassMarket | ClassLiquidity => None
  | ClassLimit => Some (Score.PriceImprovement factor max_volume_factor (Quote_from_domain quote))
  end.

Definition Volume_apply (factor : f64) (order : ModelOrder) (policy : VolumeFeePolicy) : option Score.FeePolicy :=
  match md_class (mo_metadata order) with
  | ClassMarket | ClassLiquidity => None
  | ClassLimit =>
      Score.Volume <$> get_applicable_volume_fee_factor policy (od_buy_token (mo_data order))
                         (od_sell_token (mo_data order)) (Some factor)
  end.

Definition variant_fee_apply (fees : ProtocolFees) (order : ModelOrder) (quote : DomainQuote) (policy : ConfigPolicy)
  : option Score.FeePolicy :=
  match policy with
  | ConfigSurplus factor max_volume_factor => Surplus_apply factor max_volume_factor order
  | ConfigPriceImprovement factor max_volume_factor => PriceImprovement_apply factor max_volume_factor order quote
  | ConfigVolume factor => Volume_apply factor order (pfs_volume_fee_policy fees)
  end.

Definition protocol_fee_into_policy (order : ModelOrder) (quote : DomainQuote) (fee : ProtocolFee) : option ConfigPolicy :=
  match is_order_outside_market_price (Amounts_from_order order) (Amounts_from_quote quote) (od_kind (mo_data order)),
        fee_order_class fee with
  | _, FeeAny | true, FeeLimit | false, FeeMarket => Some (fee_policy fee)
  | _, _ => None
  end.

Definition apply_policies (now : Z) (fees : ProtocolFees) (order : ModelOrder) (quote : DomainQuote)
  (partner_fees : list Score.FeePolicy) : DomainOrder :=
  let fee_policies := match pfs_upcoming_fee_policies fees with
                      | Some upcoming => if upf_effective_from_timestamp upcoming <=? now then upf_fee_policies upcoming
                                         else pfs_fee_policies fees
                      | None => pfs_fee_policies fees
                      end in
  let protocol_fees := omap (fun fee => let? policy := protocol_fee_into_policy order quote fee in
                                        variant_fee_apply fees order quote policy) fee_policies in
  to_domain order (protocol_fees ++ partner_fees) (Some quote).

(** ** Decimals *)
Class DecimalOps (D : Type) := {
  d_zero : D;
  d_one : D;
  d_add : D -> D -> D;
  d_sub : D -> D -> D;
  d_div : D -> D -> D;
  d_min : D -> D -> D;
  d_max : D -> D -> D;
  d_from_u64 : Z -> D;
  d_try_from_f64 : f64 -> option D;
  d_to_f64 : D -> f64;
}.

Section partner_fees.
Context {D : Type} `{!DecimalOps D}.

Definition MAX_BPS : Z := 10000.

(** The factor before its conversion to a float, and the new accumulated factor.  The
    divisor is at least one. *)
Definition fee_factor_from_capped (value cap accumulated : D) : D * D :=
  let remaining_factor := d_sub (d_div (d_add d_one cap) (d_add d_one accumulated)) d_one in
  (d_min (d_max value d_zero) remaining_factor, d_add accumulated (d_min value (d_sub cap accumulated))).

Definition fee_factor_from_bps (bps : Z) : comp f64 :=
  expect (FeeFactor_try_from (f64_div (f64_lit (Z.min bps (MAX_BPS - 1))) (f64_lit MAX_BPS))).

(** The part of a partner fee that is capped. *)
Definition capped_bps (policy : PartnerFeePolicy) : Z :=
  match policy with
  | PartnerVolume bps => bps
  | PartnerSurplus _ max_volume_bps | PartnerPriceImprovement _ max_volume_bps => max_volume_bps
  end.

Definition bps_decimal (bps : Z) : D := d_div (d_from_u64 bps) (d_from_u64 MAX_BPS).

Definition partner_policy (quote : DomainQuote) (factor : f64) (policy : PartnerFeePolicy) : comp Score.FeePolicy :=
  match policy with
  | PartnerVolume _ => Ret (Score.Volume factor)
  | PartnerSurplus bps _ => let! f := fee_factor_from_bps bps in Ret (Score.Surplus f factor)
  | PartnerPriceImprovement bps _ =>
      let! f := fee_factor_from_bps bps in Ret (Score.PriceImprovement f factor (Quote_from_domain quote))
  end.

(** The capped factors of a list of partner fees. *)
Fixpoint capped_factors (cap accumulated : D) (policies : list PartnerFeePolicy) : list D * D :=
  match policies with
  | [] => ([], accumulated)
  | policy :: policies =>
      let '(factor, accumulated) := fee_factor_from_capped (bps_decimal (capped_bps policy)) cap accumulated in
      let '(factors, accumulated) := capped_factors cap accumulated policies in
      (factor :: factors, accumulated)
  end.

Context (keccak256 : list Z -> Z) (utf8 : string -> bool) (from_slice : string -> option Root).

Definition get_partner_fee (order : ModelOrder) (quote : DomainQuote) (max_partner_fee : f64)
  : comp (list Score.FeePolicy) :=
  match d_try_from_f64 max_partner_fee, md_full_app_data (mo_metadata order) with
  | Some max_partner_fee, Some full_app_data =>
      match AppData.validate keccak256 utf8 from_slice (2 ^ 64 - 1) full_app_data with
      | Ok validated =>
          let policies := pf_policy <$> pad_partner_fee (va_protocol validated) in
          comp_map (fun fp => partner_policy quote (d_to_f64 fp.1) fp.2)
            (zip (capped_factors max_partner_fee d_zero policies).1 policies)
      | Err _ => Ret []
      end
  | _, _ => Ret []
  end.

(** Without a quote the order is compared with one that buys nothing. *)
Definition fees_apply (now : Z) (fees : ProtocolFees) (order : ModelOrder) (quote : option DomainQuote)
  (surplus_capturing_jit_order_owners : list address) : comp DomainOrder :=
  let reference_quote :=
    default (mkDomainQuote (md_uid (mo_metadata order)) (od_sell_amount (mo_data order)) 0
               (od_fee_amount (mo_data order)) 0) quote in
  let! partner_fee := get_partner_fee order reference_quote (pfs_max_partner_fee fees) in
  if bool_decide (md_owner (mo_metadata order) ∈ surplus_capturing_jit_order_owners) then
    Ret (to_domain order partner_fee quote)
  else Ret (apply_policies now fees order reference_quote partner_fee).
End partner_fees.

(** ** Factors from basis points *)

Lemma FeeFactor_stable x f : FeeFactor_try_from x = Some f -> FeeFactor_try_from f = Some f.
Proof. unfold FeeFactor_try_from. destruct (_ && _) eqn:Hc; [|done]. intros [= <-]. by rewrite Hc. Qed.

(** A test of [n] consecutive integers from [z] on. *)
Fixpoint holds_from (test : Z -> bool) (n : nat) (z : Z) : bool :=
  match n with
  | O => true
  | S n => if test z then holds_from test n (Z.succ z) else false
  end.

Lemma holds_from_spec test n z x :
  holds_from test n z = true -> z <= x < z + Z.of_nat n -> test x = true.
Proof.
  revert z. induction n as [|n IH]; intros z; cbn [holds_from]; [lia|].
  destruct (test z) eqn:Hz; [|done]. intros Hn Hx.
  destruct (decide (x = z)) as [->|]; [done|]. apply (IH (Z.succ z)); [done|lia].
Qed.

Definition is_factor (bps : Z) : bool :=
  match FeeFactor_try_from (f64_div (f64_lit bps) (f64_lit 10000)) with Some _ => true | None => false end.

Lemma all_factors : holds_from is_factor (10 * 10 * 100) 0 = true.
Proof. vm_compute. reflexivity. Qed.

(** The clamped value is always a valid factor: the two [expect]s never fail. *)
Lemma fee_factor_from_bps_total bps : 0 <= bps -> exists f, fee_factor_from_bps bps = Ret f /\ factor_ok f.
Proof.
  intros Hbps. unfold fee_factor_from_bps, factor_ok, MAX_BPS.
  pose proof (holds_from_spec _ _ _ (Z.min bps (10000 - 1)) all_factors ltac:(rewrite !Nat2Z.inj_mul; lia)) as Hall.
  unfold is_factor in Hall.
  destruct (FeeFactor_try_from _) as [f|] eqn:E; [|discriminate]. exists f. split; [done|]. by eapply FeeFactor_stable.
Qed.

(** ** Caps *)

(** What the caps rely on: comparisons are exact, sums and differences of small numbers
    too, and quotients stay on the right side of one and of the dividend. *)
Class DecimalLaws (D : Type) `{!DecimalOps D} := {
  dv : D -> Q;
  dv_zero : (dv d_zero == 0)%Q;
  dv_one : (dv d_one == 1)%Q;
  dv_add a b : (-2 <= dv a <= 2 -> -2 <= dv b <= 2 -> dv (d_add a b) == dv a + dv b)%Q;
  dv_sub a b : (-2 <= dv a <= 2 -> -2 <= dv b <= 2 -> dv (d_sub a b) == dv a - dv b)%Q;
  dv_min a b : (dv (d_min a b) == Qmin (dv a) (dv b))%Q;
  dv_max a b : (dv (d_max a b) == Qmax (dv a) (dv b))%Q;
  dv_from_u64 n : (0 <= n -> (dv (d_from_u64 n) == inject_Z n)%Q)%Z;
  dv_div_nonneg a b : (0 <= dv a -> 0 < dv b -> 0 <= dv (d_div a b))%Q;
  dv_div_ge_one a b : (0 < dv b -> dv b <= dv a -> 1 <= dv (d_div a b))%Q;
  dv_div_le a b : (0 <= dv a -> 1 <= dv b -> dv (d_div a b) <= dv a)%Q;
}.

Section caps.
Context {D : Type} `{!DecimalOps D} `{!DecimalLaws D}.

Lemma bps_decimal_nonneg bps : 0 <= bps -> (0 <= dv (bps_decimal bps))%Q.
Proof.
  intros H. unfold bps_decimal, MAX_BPS. apply dv_div_nonneg.
  - rewrite dv_from_u64 by done. unfold Qle. cbn. lia.
  - rewrite dv_from_u64 by lia. unfold Qlt. cbn. lia.
Qed.

(** One step: the factor is between zero and the cap, and the accumulated factor grows
    within the cap. *)
Lemma fee_factor_capped (value cap acc : D) :
  (0 <= dv value -> 0 <= dv acc -> dv acc <= dv cap -> dv cap <= 1 ->
   0 <= dv (fee_factor_from_capped value cap acc).1 <= dv cap /\
   dv acc <= dv (fee_factor_from_capped value cap acc).2 <= dv cap)%Q.
Proof.
  intros Hv Ha Hac Hc. unfold fee_factor_from_capped. cbn [fst snd].
  assert (H1c : (dv (d_add d_one cap) == 1 + dv cap)%Q) by (rewrite dv_add, dv_one; rewrite ?dv_one; lra).
  assert (H1a : (dv (d_add d_one acc) == 1 + dv acc)%Q) by (rewrite dv_add, dv_one; rewrite ?dv_one; lra).
  pose proof (dv_div_ge_one (d_add d_one cap) (d_add d_one acc) ltac:(rewrite H1a; lra) ltac:(rewrite H1a, H1c; lra)) as Hge.
  pose proof (dv_div_le (d_add d_one cap) (d_add d_one acc) ltac:(rewrite H1c; lra) ltac:(rewrite H1a; lra)) as Hle.
  rewrite H1c in Hle. set (q := d_div (d_add d_one cap) (d_add d_one acc)) in *.
  assert (Hq : (dv (d_sub q d_one) == dv q - 1)%Q) by (rewrite dv_sub, dv_one; rewrite ?dv_one; lra).
  assert (Hs : (dv (d_sub cap acc) == dv cap - dv acc)%Q) by (apply dv_sub; lra).
  assert (Hm : (0 <= dv (d_min value (d_sub cap acc)) <= dv cap - dv acc)%Q).
  { rewrite dv_min, Hs. split; [apply Q.min_glb; lra|apply Q.le_min_r]. }
  rewrite (dv_add acc) by lra. split; [|lra]. rewrite dv_min, dv_max, dv_zero, Hq. split.
  - apply Q.min_glb; [apply Q.le_max_r|lra].
  - eapply Qle_trans; [apply Q.le_min_r|lra].
Qed.

Lemma capped_factors_bounded cap acc policies :
  (0 <= dv acc -> dv acc <= dv cap -> dv cap <= 1 -> Forall (fun p => (0 <= capped_bps p)%Z) policies ->
   Forall (fun f => 0 <= dv f <= dv cap) (capped_factors cap acc policies).1 /\
   dv acc <= dv (capped_factors cap acc policies).2 <= dv cap)%Q.
Proof.
  intros Ha Hac Hc Hp. revert acc Ha Hac. induction Hp as [|p policies Hp _ IH]; intros acc Ha Hac; cbn [capped_factors].
  { split; [constructor|]. cbn. split; [apply Qle_refl|done]. }
  destruct (fee_factor_capped (bps_decimal (capped_bps p)) cap acc (bps_decimal_nonneg _ Hp) Ha Hac Hc) as [Hf Hacc].
  destruct (fee_factor_from_capped _ cap acc) as [factor acc'] eqn:E. cbn [fst snd] in *.
  destruct (IH acc') as [Hfs Hacc']; [lra|lra|].
  destruct (capped_factors cap acc' policies) as [factors acc''] eqn:E'. cbn [fst snd] in *.
  split; [by constructor|lra].
Qed.
End caps.

(** ** Rationals are decimals *)
#[export] Instance Q_decimal : DecimalOps Q := {|
  d_zero := 0%Q; d_one := 1%Q; d_add := Qplus; d_sub := Qminus; d_div := Qdiv; d_min := Qmin; d_max := Qmax;
  d_from_u64 := inject_Z; d_try_from_f64 := fun _ => Some (3 # 10)%Q; d_to_f64 := fun _ => f64_lit 0;
|}.

#[export] Instance Q_decimal_laws : DecimalLaws Q.
Proof.
  refine {| dv := fun q : Q => q |}; cbn; try (intros; reflexivity).
  - intros a b Ha Hb. apply Qle_shift_div_l; [done|]. lra.
  - intros a b Hb Hab. apply Qle_shift_div_l; [done|]. lra.
  - intros a b Ha Hb. apply Qle_shift_div_r; [lra|]. nra.
Qed.

(** The cap bounds the sum of the accumulated factors, not what they compound to: with a
    cap of 30%, volume fees of 5%, 20% and 10% become 5%, 20% and 4%, which compound to
    31.04%. *)
Lemma partner_fees_compound_above_cap :
  let factors := (capped_factors (3 # 10)%Q 0%Q [PartnerVolume 500; PartnerVolume 2000; PartnerVolume 1000]).1 in
  Forall2 Qeq factors [5 # 100; 20 # 100; 4 # 100]%Q /\
  (1 + (3 # 10) < foldr (fun f acc => (1 + f) * acc) 1 factors)%Q.
Proof. cbv zeta. split; [repeat constructor; vm_compute; reflexivity|vm_compute; reflexivity]. Qed.

(** The documented spelling of the price improvement policy is refused. *)
Lemma price_improvement_spelling :
  (forall parse, FeePolicy_from_str parse "price_improvement:0.5:0.9:any" = None) /\
  is_Some (FeePolicy_from_str (fun _ => Some (f64_div (f64_lit 1) (f64_lit 2))) "priceImprovement:0.5:0.9:any").
Proof. split; [reflexivity|]. vm_compute. eauto. Qed.
