(* ===== verification/AuctionBuilding.v ===== *)
(** * AuctionBuilding: from solvable orders to the auction

    [SolvableOrdersCache::update] of [crates/autopilot/src/solvable_orders.rs] with its
    filters and the counter that reports what they remove, and the raw auction of
    [crates/autopilot/src/domain/auction/mod.rs].

    The balances, the signature validator, the detector of bad tokens, the price
    estimator, the registry of CoW AMMs and the on-chain list of banned users are
    parameters.  A [HashMap] or [HashSet] that is only iterated is a list; the order of
    [HashMap::values] is the order of the map, of which nothing is used.  Metrics that are
    only written are left out, but for the counts of the filter counter. *)

From stdpp Require Import base gmap sets list strings.
From Stdlib Require Import ZArith Lia SpecFloat.
From S2P Require Import Prelude Collections F64 Eth Liquidity Solution Dto Score DriverOrder CompetitionStore.
From S2P Require Import OrderModel AppData OrderCreation OrderQuoting OrderValidation BannedUsers OrdersDb SolvableOrders.
From S2P Require Import RemainingAmounts AutopilotFee.

Open Scope Z_scope.

(** ** Prices *)
Section prices.
Context (u256_from_f64 : f64 -> Z).

(** [shared::price_estimation::native::to_normalized_price]. *)
Definition to_normalized_price (price : f64) : option Z :=
  let uint_max := f64_lit (2 ^ 256) in
  let price_in_eth := f64_mul (f64_lit (10 ^ 18)) price in
  if is_normal price_in_eth && SFleb (f64_lit 1) price_in_eth && SFltb price_in_eth uint_max
  then Some (u256_from_f64 price_in_eth) else None.

(** Estimates that failed or do not normalize are dropped. *)
Definition get_native_prices (estimates : list (address * result string f64)) : gmap address Z :=
  list_to_map (omap (fun e => let? price := ok e.2 in
                              let? price := to_normalized_price price in Some (e.1, price)) estimates).
End prices.

(** [Price::try_new]. *)
Definition Price_try_new (value : Z) : option Z := if value =? 0 then None else Some value.

(** [Price::in_eth]: a product that wraps. *)
Definition Price_in_eth (price amount : Z) : Z := wrapping_mul amount price / 10 ^ 18.

(** ** Balances *)
#[export] Instance BalanceOverrideRequest_eq_dec : EqDecision BalanceOverrideRequest.
Proof. solve_decision. Defined.
#[export] Instance EthInteraction_eq_dec : EqDecision EthInteraction.
Proof. solve_decision. Defined.
#[export] Instance SellTokenBalance_eq_dec : EqDecision SellTokenBalance.
Proof. solve_decision. Defined.
#[export] Instance BalanceQuery_eq_dec : EqDecision BalanceQuery.
Proof. solve_decision. Defined.

(** A [HashMap] filled in the order of the list: the last entry of a key counts. *)
Definition Balances := list (BalanceQuery * Z).
Definition balances_get (balances : Balances) (q : BalanceQuery) : option Z :=
  snd ∘ snd <$> list_find (fun e => e.1 = q) (reverse balances).

Definition fetch_balances (disable_order_balance_filter : bool) (queries : list BalanceQuery)
  (fetched : list (result string Z)) : Balances :=
  if disable_order_balance_filter then []
  else omap (fun e => (fun balance => (e.1, balance)) <$> ok e.2) (zip queries fetched).

Definition is_eip1271 (s : OrderSignature) : bool := match s with SigEip1271 _ => true | _ => false end.

(** Newer orders first. *)
Definition newer_first (a b : ModelOrder) : comparison :=
  cmp_rev (cmp_on (fun o => md_creation_date (mo_metadata o)) Z.compare) a b.

Definition has_balance (balances : Balances) (settlement_contract : address) (disable_1271_order_balance_filter : bool)
  (order : ModelOrder) : bool :=
  if disable_1271_order_balance_filter && is_eip1271 (mo_signature order) then true
  else if bool_decide (od_receiver (mo_data order) = Some settlement_contract) then true
  else match balances_get balances (Query_from_order order) with
       | None => false
       | Some balance =>
           if od_partially_fillable (mo_data order) && (1 <=? balance) then true
           else match checked_add (od_sell_amount (mo_data order)) (od_fee_amount (mo_data order)) with
                | None => false
                | Some needed_balance => needed_balance <=? balance
                end
       end.

Definition orders_with_balance (orders : list ModelOrder) (balances : Balances) (settlement_contract : address)
  (disable_1271_order_balance_filter : bool) : list ModelOrder :=
  filter (fun o => has_balance balances settlement_contract disable_1271_order_balance_filter o = true)
    (sort_by newer_first orders).

Definition is_not_dust (balances : Balances) (order : ModelOrder) : bool :=
  if negb (od_partially_fillable (mo_data order)) then true
  else match balances_get balances (Query_from_order order) with
       | None => false
       | Some balance =>
           match from_order_with_balance (RemainingOrder_from order) balance with
           | Err _ => false
           | Ok rem =>
               match remaining rem (od_sell_amount (mo_data order)), remaining rem (od_buy_amount (mo_data order)) with
               | Ok sell_amount, Ok buy_amount => negb (sell_amount =? 0) && negb (buy_amount =? 0)
               | _, _ => false
               end
           end
       end.

Definition filter_dust_orders (orders : list ModelOrder) (balances : Balances) : list ModelOrder :=
  filter (fun o => is_not_dust balances o = true) orders.

(** ** Missing prices *)
Definition has_prices (prices : gmap address Z) (order : ModelOrder) : bool :=
  match prices !! od_sell_token (mo_data order), prices !! od_buy_token (mo_data order) with
  | Some _, Some _ => true
  | _, _ => false
  end.

(** Inserting into an [IndexSet] keeps the first position. *)
Definition index_set_extend (s : list address) (tokens : list address) : list address :=
  foldl (fun s t => if bool_decide (t ∈ s) then s else s ++ [t]) s tokens.

Definition MARKET_ORDER_AGE : Z := 30 * 60.

Definition count_token (t : address) (counts : gmap address Z) : gmap address Z :=
  <[t := default 0 (counts !! t) + 1]> counts.

(** Tokens of recent orders first, then the others by how many orders need them. *)
Definition prioritize_missing_prices (now : Z) (orders : list ModelOrder) : list address :=
  let '(high_priority_tokens, most_used_tokens) :=
    foldl (fun st order =>
             let sell_token := od_sell_token (mo_data order) in
             let buy_token := od_buy_token (mo_data order) in
             if now - md_creation_date (mo_metadata order) <=? MARKET_ORDER_AGE then
               (index_set_extend st.1 [sell_token; buy_token], st.2)
             else (st.1, count_token buy_token (count_token sell_token st.2)))
      ([], ∅) (sort_by newer_first orders) in
  index_set_extend high_priority_tokens
    (fst <$> sort_by (cmp_rev (cmp_on snd Z.compare)) (map_to_list most_used_tokens)).

(** The orders that have prices, and the tokens whose prices are wanted next. *)
Definition get_orders_with_native_prices (now : Z) (prices : gmap address Z) (orders : list ModelOrder)
  : list ModelOrder * list address :=
  (filter (fun o => has_prices prices o = true) orders,
   prioritize_missing_prices now (filter (fun o => has_prices prices o <> true) orders)).

Definition traded_tokens (orders : list ModelOrder) (additional_tokens : list address) : gset address :=
  list_to_set ((orders ≫= fun o => [od_sell_token (mo_data o); od_buy_token (mo_data o)]) ++ additional_tokens).

(** ** Orders out of the market *)

(** [a >= b * factor] of big decimals. *)
Definition bd_ge_mul (a b : Z) (factor : BigDecimal) : bool :=
  if 0 <=? bd_exp factor then b * bd_int factor <=? a * 10 ^ bd_exp factor
  else b * bd_int factor * 10 ^ (- bd_exp factor) <=? a.

Definition in_market (prices : gmap address Z) (price_factor : BigDecimal) (order : ModelOrder) : comp bool :=
  if negb (is_limit_order order) then Ret true
  else
    let! sell_price := expect (prices !! od_sell_token (mo_data order)) in
    let! buy_price := expect (prices !! od_buy_token (mo_data order)) in
    match checked_mul (od_sell_amount (mo_data order)) sell_price, checked_mul (od_buy_amount (mo_data order)) buy_price with
    | Some sell_native, Some buy_native => Ret (bd_ge_mul sell_native buy_native price_factor)
    | _, _ => Ret false
    end.

(** [Vec::retain] with a predicate that can panic. *)
Fixpoint comp_filter {A} (f : A -> comp bool) (l : list A) : comp (list A) :=
  match l with
  | [] => Ret []
  | x :: l => let! keep := f x in let! rest := comp_filter f l in Ret (if keep : bool then x :: rest else rest)
  end.

Definition filter_mispriced_limit_orders (orders : list ModelOrder) (prices : gmap address Z) (price_factor : BigDecimal)
  : comp (list ModelOrder) := comp_filter (in_market prices price_factor) orders.

(** ** The filter counter *)
Record OrderFilterCounter := mkOrderFilterCounter {
  ofc_orders : gmap Z OrderClass;
  ofc_counts : gmap string nat;
}.

Definition OrderFilterCounter_new (orders : list ModelOrder) : OrderFilterCounter :=
  mkOrderFilterCounter (foldl (fun m o => <[md_uid (mo_metadata o) := md_class (mo_metadata o)]> m) ∅ orders) ∅.

Definition add_count (reason : string) (n : nat) (counts : gmap string nat) : gmap string nat :=
  <[reason := (default 0%nat (counts !! reason) + n)%nat]> counts.

Definition checkpoint (c : OrderFilterCounter) (reason : string) (orders : list ModelOrder)
  : list Z * OrderFilterCounter :=
  let filtered_orders := foldl (fun m o => delete (md_uid (mo_metadata o)) m) (ofc_orders c) orders in
  let keys := fst <$> map_to_list filtered_orders in
  (keys, mkOrderFilterCounter (foldl (fun m u => delete u m) (ofc_orders c) keys)
           (add_count reason (length keys) (ofc_counts c))).

Definition checkpoint_by_invalid_orders (c : OrderFilterCounter) (reason : string) (invalid_orders : list Z)
  : OrderFilterCounter :=
  match invalid_orders with
  | [] => c
  | _ =>
      let '(orders, counter) :=
        foldl (fun st u => match st.1 !! u with Some _ => (delete u st.1, S st.2) | None => st end)
          (ofc_orders c, 0%nat) invalid_orders in
      mkOrderFilterCounter orders (add_count reason counter (ofc_counts c))
  end.

(** [record]: what no checkpoint explained, and the counts that become metrics. *)
Definition record (c : OrderFilterCounter) (orders : list ModelOrder) : list Z * gmap string nat :=
  let '(removed, c) := checkpoint c "other" orders in (removed, ofc_counts c).

(** ** Invalid orders *)
Definition involved_users (o : ModelOrder) : list address :=
  md_owner (mo_metadata o) :: match od_receiver (mo_data o) with Some r => [r] | None => [] end.

Section update.
Context (cache_insert : address -> UserMetadata -> Cache -> Cache) (is_banned : address -> option bool).
Context (check_signature : SignatureCheck -> result SignatureValidationError Z).
Context (detect : address -> result string bool).
Context (get_balances : list BalanceQuery -> list (result string Z)).
Context (estimate : list address -> list (address * result string f64)).
Context (estimate_one : address -> result string f64).
Context (u256_from_f64 : f64 -> Z).

Definition find_banned_user_orders (now : Z) (orders : list ModelOrder) (users : Users) : list Z * Users :=
  let '(banned_users, users) := banned cache_insert is_banned now users (orders ≫= involved_users) in
  (omap (fun o => if existsb (fun a => bool_decide (a ∈ banned_users)) (involved_users o)
                  then Some (md_uid (mo_metadata o)) else None) orders, users).

(** The outcome of one order, in the order the loop and the futures push them. *)
Inductive SignatureOutcome := SignatureSkipped | PresignatureMissing | SignatureChecked (valid : bool) | NoSignatureCheck.

Definition signature_outcome (disable_1271_order_sig_filter : bool) (o : ModelOrder) : SignatureOutcome :=
  if is_eip1271 (mo_signature o) && disable_1271_order_sig_filter then SignatureSkipped
  else match md_status (mo_metadata o) with
       | PresignaturePending => PresignatureMissing
       | _ =>
           match mo_signature o with
           | SigEip1271 signature =>
               let '(hash, signer, _) := Uid_parts (md_uid (mo_metadata o)) in
               SignatureChecked match check_signature (mkSignatureCheck signer hash signature (in_pre (mo_interactions o)) None) with
                                | Ok _ => true | Err _ => false end
           | _ => NoSignatureCheck
           end
       end.

(** The checks finish in any order; here they are in the order of the orders. *)
Definition find_invalid_signature_orders (orders : list ModelOrder) (disable_1271_order_sig_filter : bool) : list Z :=
  omap (fun o => match signature_outcome disable_1271_order_sig_filter o with
                 | PresignatureMissing => Some (md_uid (mo_metadata o)) | _ => None end) orders ++
  omap (fun o => match signature_outcome disable_1271_order_sig_filter o with
                 | SignatureChecked false => Some (md_uid (mo_metadata o)) | _ => None end) orders.

Definition pair_tokens (o : ModelOrder) : list address :=
  match TokenPair_new (od_buy_token (mo_data o)) (od_sell_token (mo_data o)) with
  | Some tokens => [tokens.1; tokens.2]
  | None => []
  end.

(** A token whose quality is unknown counts as bad. *)
Definition is_bad_token (token : address) : bool :=
  match detect token with Ok good => negb good | Err _ => true end.

Definition find_unsupported_tokens (orders : list ModelOrder) : list Z :=
  let bad_tokens : gset address := list_to_set (filter (fun t : Z => is_bad_token t = true) (orders ≫= pair_tokens)) in
  omap (fun o => if existsb (fun t => bool_decide (t ∈ bad_tokens)) (pair_tokens o)
                 then Some (md_uid (mo_metadata o)) else None) orders.

Definition filter_invalid_orders (now : Z) (disable_1271_order_sig_filter : bool) (orders : list ModelOrder)
  (users : Users) (counter : OrderFilterCounter) : list ModelOrder * gset Z * Users * OrderFilterCounter :=
  let '(banned_user_orders, users) := find_banned_user_orders now orders users in
  let invalid_signature_orders := find_invalid_signature_orders orders disable_1271_order_sig_filter in
  let unsupported_token_orders := find_unsupported_tokens orders in
  let counter := checkpoint_by_invalid_orders counter "banned_user" banned_user_orders in
  let counter := checkpoint_by_invalid_orders counter "invalid_signature" invalid_signature_orders in
  let counter := checkpoint_by_invalid_orders counter "unsupported_token" unsupported_token_orders in
  let invalid : gset Z := list_to_set (banned_user_orders ++ invalid_signature_orders ++ unsupported_token_orders) in
  (filter (fun o => md_uid (mo_metadata o) ∉ invalid) orders, invalid, users, counter).

(** ** The update *)
Record RawAuctionData := mkRawAuctionData {
  rad_block : Z;
  rad_orders : list DomainOrder;
  rad_prices : gmap address Z;
  rad_surplus_capturing_jit_order_owners : list address;
}.

Record CowAmm := mkCowAmm { ca_address : address; ca_traded_tokens : list address }.

(** The configuration of [SolvableOrdersCache], and its state. *)
Record CacheConfig := mkCacheConfig {
  cc_min_order_validity_period : Z;
  cc_weth : address;
  cc_limit_order_price_factor : BigDecimal;
  cc_protocol_fees : ProtocolFees;
  cc_settlement_contract : address;
  cc_disable_order_balance_filter : bool;
  cc_disable_1271_order_sig_filter : bool;
  cc_disable_1271_order_balance_filter : bool;
}.
Record CacheState := mkCacheState {
  cs_banned_users : Users;
  cs_inner : option (RawAuctionData * SolvableOrders);
}.

Definition current_auction (st : CacheState) : option RawAuctionData := fst <$> cs_inner st.

(** What the filters leave of the orders and what they report. *)
Record Filtered := mkFiltered {
  fi_orders : list ModelOrder;
  fi_prices : gmap address Z;
  fi_invalid : gset Z;
  fi_filtered : list Z;
  fi_high_priority : list address;
  fi_counts : gmap string nat;
}.

(** The balance and dust filters; they are skipped together. *)
Definition filter_by_balance (cfg : CacheConfig) (balances : Balances) (orders : list ModelOrder)
  (counter : OrderFilterCounter) : list ModelOrder * list Z * list Z * OrderFilterCounter :=
  if cc_disable_order_balance_filter cfg then (orders, [], [], counter)
  else
    let orders := orders_with_balance orders balances (cc_settlement_contract cfg) (cc_disable_1271_order_balance_filter cfg) in
    let '(poor, counter) := checkpoint counter "insufficient_balance" orders in
    let orders := filter_dust_orders orders balances in
    let '(dust, counter) := checkpoint counter "dust_order" orders in
    (orders, poor, dust, counter).

(** The price of the wrapped native token is added when it is missing. *)
Definition add_weth_price (weth : address) (prices : gmap address Z) : comp (gmap address Z) :=
  match prices !! weth with
  | Some _ => Ret prices
  | None =>
      let! price := expect (ok (estimate_one weth)) in
      let! price := expect (to_normalized_price u256_from_f64 price) in
      Ret (<[weth := price]> prices)
  end.

(** The filters of [update], from the candidates to the orders of the auction. *)
Definition filter_orders (now : Z) (cfg : CacheConfig) (cow_amms : list CowAmm) (orders : list ModelOrder) (users : Users)
  : comp (Filtered * Users) :=
  let counter := OrderFilterCounter_new orders in
  let queries := Query_from_order <$> orders in
  let balances := fetch_balances (cc_disable_order_balance_filter cfg) queries (get_balances queries) in
  let '(orders, invalid, users, counter) :=
    filter_invalid_orders now (cc_disable_1271_order_sig_filter cfg) orders users counter in
  let '(orders, poor, dust, counter) := filter_by_balance cfg balances orders counter in
  let cow_amm_tokens := cow_amms ≫= ca_traded_tokens in
  let prices := get_native_prices u256_from_f64 (estimate (elements (traded_tokens orders cow_amm_tokens))) in
  let '(orders, high_priority) := get_orders_with_native_prices now prices orders in
  let! prices := add_weth_price (cc_weth cfg) prices in
  let '(unpriced, counter) := checkpoint counter "missing_price" orders in
  let! orders := filter_mispriced_limit_orders orders prices (cc_limit_order_price_factor cfg) in
  let '(mispriced, counter) := checkpoint counter "out_of_market" orders in
  let '(others, counts) := record counter orders in
  Ret (mkFiltered orders prices (invalid ∪ list_to_set poor) (dust ++ unpriced ++ mispriced ++ others) high_priority counts,
       users).

(** The owners of CoW AMMs all of whose tokens have prices. *)
Definition jit_order_owners (cow_amms : list CowAmm) (prices : gmap address Z) : list address :=
  ca_address <$> filter (fun a => forallb (fun t => bool_decide (is_Some (prices !! t))) (ca_traded_tokens a) = true) cow_amms.

Context {D : Type} `{!DecimalOps D}.
Context (keccak256 : list Z -> Z) (utf8 : string -> bool) (from_slice : string -> option Root).
Context (rational_from_f64 : f64 -> option (Z * Z)).

(** The events that are stored: invalid and filtered orders. *)
Record UpdateEvents := mkUpdateEvents { ev_invalid : gset Z; ev_filtered : list Z }.

(** The events are stored before the prices are checked. *)
Definition update (now block : Z) (store_events : bool) (cfg : CacheConfig) (cow_amms : list CowAmm) (d : Db) (st : CacheState)
  : comp (result string unit * CacheState * option UpdateEvents) :=
  match get_solvable_orders utf8 rational_from_f64 now (cc_min_order_validity_period cfg) (snd <$> cs_inner st) d with
  | None => Ret (Err "failed to fetch solvable orders", st, None)
  | Some db_solvable_orders =>
      let! answer := filter_orders now cfg cow_amms (snd <$> map_to_list (so_orders db_solvable_orders)) (cs_banned_users st) in
      let '(filtered, users) := answer in
      let events := if store_events then Some (mkUpdateEvents (fi_invalid filtered) (fi_filtered filtered)) else None in
      let owners := jit_order_owners cow_amms (fi_prices filtered) in
      let! orders := comp_map (fun order => fees_apply (D := D) keccak256 utf8 from_slice now (cc_protocol_fees cfg) order
                                   (so_quotes db_solvable_orders !! md_uid (mo_metadata order)) owners)
                       (fi_orders filtered) in
      if forallb (fun p => bool_decide (is_Some (Price_try_new p.2))) (map_to_list (fi_prices filtered)) then
        Ret (Ok tt, mkCacheState users (Some (mkRawAuctionData block orders (fi_prices filtered) owners, db_solvable_orders)), events)
      else Ret (Err "price cannot be zero", mkCacheState users (cs_inner st), events)
  end.
End update.

(** ** The counter *)
Definition uids (orders : list ModelOrder) : gset Z := list_to_set ((fun o => md_uid (mo_metadata o)) <$> orders).

Lemma elem_of_uids u orders : u ∈ uids orders <-> exists o, o ∈ orders /\ md_uid (mo_metadata o) = u.
Proof. unfold uids. rewrite elem_of_list_to_set, list_elem_of_fmap. naive_solver. Qed.

Lemma uids_filter (P : ModelOrder -> Prop) `{!forall o, Decision (P o)} orders : uids (filter P orders) ⊆ uids orders.
Proof. intros u. rewrite !elem_of_uids. setoid_rewrite list_elem_of_filter. naive_solver. Qed.

Lemma counter_new_dom orders : dom (ofc_orders (OrderFilterCounter_new orders)) = uids orders.
Proof.
  cbn. assert (H : forall m : gmap Z OrderClass,
    dom (foldl (fun m o => <[md_uid (mo_metadata o) := md_class (mo_metadata o)]> m) m orders) = uids orders ∪ dom m).
  { induction orders as [|o orders IH]; intros m; cbn [foldl]; [unfold uids; cbn; set_solver|].
    rewrite IH, dom_insert_L. unfold uids. cbn. set_solver. }
  rewrite H. set_solver.
Qed.

Lemma foldl_delete_dom {V} (keys : list Z) (m : gmap Z V) :
  dom (foldl (fun m u => delete u m) m keys) = dom m ∖ list_to_set keys.
Proof.
  revert m. induction keys as [|u keys IH]; intros m; cbn [foldl]; [cbn; set_solver|].
  rewrite IH, dom_delete_L. cbn. set_solver.
Qed.

Lemma keys_dom {V} (m : gmap Z V) : list_to_set (C := gset Z) (fst <$> map_to_list m) = dom m.
Proof.
  apply set_eq. intros u. rewrite elem_of_list_to_set, list_elem_of_fmap, elem_of_dom. split.
  - intros ([k v] & -> & Hk%elem_of_map_to_list). eauto.
  - intros [v Hv]. exists (u, v). by rewrite elem_of_map_to_list.
Qed.

(** A checkpoint reports the orders that are gone, each once, and counts the others on. *)
Lemma checkpoint_spec c reason orders :
  uids orders ⊆ dom (ofc_orders c) ->
  list_to_set (checkpoint c reason orders).1 = dom (ofc_orders c) ∖ uids orders /\
  NoDup (checkpoint c reason orders).1 /\ dom (ofc_orders (checkpoint c reason orders).2) = uids orders.
Proof.
  intros Hsub. unfold checkpoint. cbn [fst snd ofc_orders].
  replace (foldl (fun m o => delete (md_uid (mo_metadata o)) m) (ofc_orders c) orders)
    with (foldl (fun m u => delete u m) (ofc_orders c) ((fun o => md_uid (mo_metadata o)) <$> orders)).
  2: { generalize (ofc_orders c). induction orders as [|o orders IH]; intros m; cbn; [done|].
       rewrite IH; [done|]. intros u Hu. apply Hsub. rewrite elem_of_uids in *. set_solver. }
  set (gone := foldl _ _ _).
  assert (Hgone : list_to_set (fst <$> map_to_list gone) = dom (ofc_orders c) ∖ uids orders).
  { rewrite keys_dom. unfold gone. by rewrite foldl_delete_dom. }
  split; [done|]. split; [apply NoDup_fst_map_to_list|]. rewrite foldl_delete_dom, Hgone.
  apply set_eq. intros u. destruct (decide (u ∈ uids orders)); set_solver.
Qed.

Lemma by_invalid_dom c reason invalid :
  dom (ofc_orders (checkpoint_by_invalid_orders c reason invalid)) = dom (ofc_orders c) ∖ list_to_set invalid.
Proof.
  unfold checkpoint_by_invalid_orders. destruct invalid as [|v invalid]; [cbn; set_solver|].
  generalize (v :: invalid) as l. intros l.
  assert (H : forall l m n, dom (foldl (fun (st : gmap Z OrderClass * nat) u => match st.1 !! u with
      Some _ => (delete u st.1, S st.2) | None => st end) (m, n) l).1 = dom m ∖ list_to_set l).
  { clear. induction l as [|u l IH]; intros m n; cbn [foldl fst snd]; [cbn; set_solver|].
    destruct (m !! u) eqn:Hu; rewrite IH; cbn.
    - rewrite dom_delete_L. set_solver.
    - apply not_elem_of_dom in Hu. set_solver. }
  specialize (H l (ofc_orders c) 0%nat). destruct (foldl _ _ l) as [m n]. exact H.
Qed.

(** Nothing is left for the last checkpoint. *)
Lemma record_nothing c orders : dom (ofc_orders c) = uids orders -> (record c orders).1 = [].
Proof.
  intros Hdom. unfold record. destruct (checkpoint_spec c "other" orders) as (Hs & _ & _); [by rewrite Hdom|].
  destruct (checkpoint c "other" orders) as [removed c']. cbn [fst] in *.
  rewrite Hdom in Hs. assert (E : list_to_set (C := gset Z) removed = ∅) by (rewrite Hs; set_solver).
  destruct removed; [done|]. cbn in E. set_solver.
Qed.

(** ** The filters *)
Lemma comp_filter_returns {A} (f : A -> comp bool) (l : list A) :
  (forall x, x ∈ l -> exists b, f x = Ret b) ->
  exists k, comp_filter f l = Ret k /\ forall x, x ∈ k <-> x ∈ l /\ f x = Ret true.
Proof.
  induction l as [|x l IH]; intros Hf; cbn [comp_filter].
  { exists []. split; [done|]. set_solver. }
  destruct (Hf x) as [b Hb]; [by left|]. destruct IH as (k & Hk & Hin); [intros; apply Hf; by right|].
  rewrite Hb, Hk. cbn [comp_bind]. eexists. split; [done|]. intros y.
  destruct b; rewrite ?elem_of_cons, Hin; (split; [naive_solver|]).
  - intros [[->|?] ?]; auto.
  - intros [[->|?] ?]; [congruence|auto].
Qed.

(** Orders with prices never make the price filter panic. *)
Lemma in_market_total prices factor o : has_prices prices o = true -> exists b, in_market prices factor o = Ret b.
Proof.
  unfold has_prices, in_market. destruct (prices !! od_sell_token _); [|done]. destruct (prices !! od_buy_token _); [|done].
  intros _. cbn. destruct (negb _); [eauto|]. repeat case_match; eauto.
Qed.

Lemma add_weth_price_returns estimate_one u256_from_f64 weth prices :
  (exists p, estimate_one weth = Ok p /\ is_Some (to_normalized_price u256_from_f64 p)) ->
  exists prices', add_weth_price estimate_one u256_from_f64 weth prices = Ret prices' /\ prices ⊆ prices' /\
    forall t p, prices' !! t = Some p -> prices !! t = Some p \/ exists x, to_normalized_price u256_from_f64 x = Some p.
Proof.
  intros (p & Hp & [n Hn]). unfold add_weth_price. destruct (prices !! weth) eqn:Hw; [eauto|].
  rewrite Hp. cbn. rewrite Hn. cbn. eexists. split; [done|]. split; [by apply insert_subseteq|].
  intros t q. destruct (decide (t = weth)) as [->|]; [rewrite lookup_insert_eq|rewrite lookup_insert_ne by done; auto].
  intros [= <-]. right. by exists p.
Qed.

Lemma has_prices_mono prices prices' o : prices ⊆ prices' -> has_prices prices o = true -> has_prices prices' o = true.
Proof.
  unfold has_prices. intros Hsub H. destruct (prices !! od_sell_token _) eqn:E1; [|done].
  destruct (prices !! od_buy_token _) eqn:E2; [|done].
  by rewrite (lookup_weaken _ _ _ _ E1 Hsub), (lookup_weaken _ _ _ _ E2 Hsub).
Qed.

(** The balance filters remove orders and report them. *)
Lemma filter_by_balance_spec cfg balances orders counter :
  dom (ofc_orders counter) = uids orders ->
  let '(kept, poor, dust, counter') := filter_by_balance cfg balances orders counter in
  (forall o, o ∈ kept <-> o ∈ orders /\ (cc_disable_order_balance_filter cfg = false ->
     has_balance balances (cc_settlement_contract cfg) (cc_disable_1271_order_balance_filter cfg) o = true /\
     is_not_dust balances o = true)) /\
  dom (ofc_orders counter') = uids kept /\ NoDup dust /\
  uids orders = uids kept ∪ list_to_set poor ∪ list_to_set dust /\
  list_to_set (C := gset Z) poor ## uids kept ∪ list_to_set dust /\ list_to_set (C := gset Z) dust ## uids kept.
Proof.
  intros Hdom. unfold filter_by_balance. destruct (cc_disable_order_balance_filter cfg).
  { split; [naive_solver|]. split; [done|]. split; [constructor|]. cbn. set_solver. }
  set (rich := orders_with_balance _ _ _ _).
  assert (Hrich : forall o, o ∈ rich <-> o ∈ orders /\
    has_balance balances (cc_settlement_contract cfg) (cc_disable_1271_order_balance_filter cfg) o = true).
  { intros o. unfold rich, orders_with_balance. rewrite list_elem_of_filter, sort_by_perm. tauto. }
  assert (Hru : uids rich ⊆ uids orders) by (intros u; rewrite !elem_of_uids; setoid_rewrite Hrich; naive_solver).
  destruct (checkpoint_spec counter "insufficient_balance" rich) as (Hpoor & _ & Hd1); [by rewrite Hdom|].
  destruct (checkpoint counter "insufficient_balance" rich) as [poor c1]. cbn [fst snd] in *.
  destruct (checkpoint_spec c1 "dust_order" (filter_dust_orders rich balances)) as (Hdust & Hnd & Hd2);
    [rewrite Hd1; apply uids_filter|].
  destruct (checkpoint c1 "dust_order" _) as [dust c2]. cbn [fst snd] in *.
  pose proof (uids_filter (fun o => is_not_dust balances o = true) rich) as Hku. fold (filter_dust_orders rich balances) in Hku.
  split.
  { intros o. unfold filter_dust_orders. rewrite list_elem_of_filter, Hrich. naive_solver. }
  split; [done|]. split; [done|]. rewrite Hpoor, Hdust, Hdom, Hd1.
  split; [|set_solver]. apply set_eq. intros u.
  destruct (decide (u ∈ uids rich)), (decide (u ∈ uids (filter_dust_orders rich balances))); set_solver.
Qed.

(** ** What an order of the auction passed *)
Section accounting.
Context (cache_insert : address -> UserMetadata -> Cache -> Cache).
Context (cache_insert_spec : forall a m c b m', cache_insert a m c !! b = Some m' -> b = a /\ m' = m \/ c !! b = Some m').
Context (is_banned : address -> option bool).
Context (check_signature : SignatureCheck -> result SignatureValidationError Z).
Context (detect : address -> result string bool).
Context (get_balances : list BalanceQuery -> list (result string Z)).
Context (estimate : list address -> list (address * result string f64)).
Context (estimate_one : address -> result string f64).
Context (u256_from_f64 : f64 -> Z).

(** Nobody involved is denied, the signature holds, the tokens are supported. *)
Record valid_order (cfg : CacheConfig) (users : Users) (o : ModelOrder) : Prop := {
  vo_users a : a ∈ involved_users o -> (a ∉ u_list users) /\ (is_Some (u_onchain users) -> is_banned a <> Some true);
  vo_presignature : signature_outcome check_signature (cc_disable_1271_order_sig_filter cfg) o <> PresignatureMissing;
  vo_signature : signature_outcome check_signature (cc_disable_1271_order_sig_filter cfg) o <> SignatureChecked false;
  vo_tokens t : t ∈ pair_tokens o -> detect t = Ok true;
}.

(** Cached statuses are the registry's. *)
Definition users_ok (users : Users) : Prop := forall c, u_onchain users = Some c -> truthful is_banned c.

Lemma not_existsb {A} (f : A -> bool) l : existsb f l = false <-> forall x, x ∈ l -> f x = false.
Proof.
  rewrite <-not_true_iff_false, existsb_exists. setoid_rewrite <-list_elem_of_In.
  setoid_rewrite <-not_true_iff_false. naive_solver.
Qed.

Lemma elem_of_omap_if {A} (f : A -> bool) (g : A -> Z) (l : list A) u :
  u ∈ omap (fun o => if f o then Some (g o) else None) l <-> exists o, o ∈ l /\ f o = true /\ g o = u.
Proof.
  rewrite list_elem_of_omap. split.
  - intros (o & Ho & E). exists o. destruct (f o); [|done]. by injection E as ->.
  - intros (o & Ho & Hf & <-). exists o. by rewrite Hf.
Qed.

Lemma filter_invalid_spec now cfg orders users counter :
  users_ok users -> dom (ofc_orders counter) = uids orders ->
  let '(kept, invalid, users', counter') :=
    filter_invalid_orders cache_insert is_banned check_signature detect now (cc_disable_1271_order_sig_filter cfg)
      orders users counter in
  (forall o, o ∈ kept -> o ∈ orders /\ valid_order cfg users o) /\
  dom (ofc_orders counter') = uids kept /\ uids orders = uids kept ∪ invalid /\ uids kept ## invalid /\ users_ok users'.
Proof.
  intros Hok Hdom. unfold filter_invalid_orders, find_banned_user_orders.
  destruct (banned_spec cache_insert cache_insert_spec is_banned now users (orders ≫= involved_users) Hok) as (Hban & _ & Hok').
  destruct (banned cache_insert is_banned now users _) as [banned_users users'] eqn:Eb. cbn [fst snd] in *.
  set (bad := omap (fun o => if existsb (fun a => bool_decide (a ∈ banned_users)) (involved_users o)
                             then Some (md_uid (mo_metadata o)) else None) orders).
  set (unsigned := find_invalid_signature_orders _ _ _).
  set (unsupported := find_unsupported_tokens _ _).
  set (invalid := list_to_set (C := gset Z) (bad ++ unsigned ++ unsupported)).
  assert (Hsub : invalid ⊆ uids orders).
  { intros u. unfold invalid. rewrite elem_of_list_to_set, !elem_of_app, elem_of_uids. intros [Hu|[Hu|Hu]].
    - apply elem_of_omap_if in Hu as (o & ? & _ & ?). eauto.
    - unfold unsigned, find_invalid_signature_orders in Hu. apply elem_of_app in Hu as [Hu|Hu];
        apply list_elem_of_omap in Hu as (o & Ho & E); exists o; (split; [done|]); repeat case_match; congruence.
    - apply elem_of_omap_if in Hu as (o & ? & _ & ?). eauto. }
  assert (Hkept : forall o, o ∈ filter (fun o => md_uid (mo_metadata o) ∉ invalid) orders <->
                            o ∈ orders /\ md_uid (mo_metadata o) ∉ invalid) by (intros o; rewrite list_elem_of_filter; tauto).
  assert (Huk : uids (filter (fun o => md_uid (mo_metadata o) ∉ invalid) orders) = uids orders ∖ invalid).
  { apply set_eq. intros u. rewrite elem_of_difference, !elem_of_uids. setoid_rewrite Hkept. naive_solver. }
  split; [|split; [|split; [|split; [|exact Hok']]]].
  - intros o [Ho Hni]%Hkept. split; [done|]. unfold invalid in Hni.
    rewrite elem_of_list_to_set, !elem_of_app in Hni.
    assert (Hin : forall l (f : ModelOrder -> bool), l = omap (fun o => if f o then Some (md_uid (mo_metadata o)) else None) orders ->
      md_uid (mo_metadata o) ∉ l -> f o = false).
    { intros l f -> Hl. destruct (f o) eqn:Hf; [|done]. destruct Hl. apply elem_of_omap_if. eauto. }
    split.
    + intros a Ha. assert (Hnb : a ∉ banned_uncached is_banned users (orders ≫= involved_users)).
      { rewrite <-Hban. pose proof (Hin bad _ eq_refl ltac:(tauto)) as Hf. rewrite not_existsb in Hf.
        by apply Hf, bool_decide_eq_false in Ha. }
      assert (Hbind : a ∈ (orders ≫= involved_users)) by (apply list_elem_of_bind; eauto).
      unfold banned_uncached in Hnb. rewrite elem_of_list_to_set, list_elem_of_filter in Hnb.
      destruct (decide (a ∈ u_list users)); naive_solver.
    + intros E. destruct Hni. right; left. unfold unsigned, find_invalid_signature_orders. apply elem_of_app. left.
      apply list_elem_of_omap. exists o. by rewrite E.
    + intros E. destruct Hni. right; left. unfold unsigned, find_invalid_signature_orders. apply elem_of_app. right.
      apply list_elem_of_omap. exists o. by rewrite E.
    + intros t Ht. pose proof (Hin unsupported _ eq_refl ltac:(tauto)) as Hf. rewrite not_existsb in Hf.
      specialize (Hf t Ht). apply bool_decide_eq_false in Hf.
      rewrite elem_of_list_to_set, list_elem_of_filter in Hf.
      assert (Hbind : t ∈ (orders ≫= pair_tokens)) by (apply list_elem_of_bind; eauto).
      unfold is_bad_token in Hf. destruct (detect t) as [[]|]; [done|tauto|tauto].
  - rewrite !by_invalid_dom, Hdom.
    rewrite Huk. unfold invalid. rewrite !list_to_set_app_L. set_solver.
  - rewrite Huk. apply set_eq. intros u. destruct (decide (u ∈ invalid)); set_solver.
  - rewrite Huk. set_solver.
Qed.
(** Every candidate is in the auction, reported as invalid or reported as filtered, and
    only one of these. *)
Record accounted (candidates : gset Z) (auction invalid : gset Z) (filtered : list Z) : Prop := {
  acc_all : candidates = auction ∪ invalid ∪ list_to_set filtered;
  acc_invalid : auction ## invalid;
  acc_filtered : auction ## list_to_set filtered;
  acc_reports : invalid ## list_to_set filtered;
  acc_once : NoDup filtered;
}.

(** What the orders of the auction passed; [balances] are the fetched ones. *)
Record admitted (cfg : CacheConfig) (users : Users) (balances : Balances) (prices : gmap address Z) (o : ModelOrder) : Prop := {
  ad_valid : valid_order cfg users o;
  ad_balance : cc_disable_order_balance_filter cfg = false ->
    has_balance balances (cc_settlement_contract cfg) (cc_disable_1271_order_balance_filter cfg) o = true /\
    is_not_dust balances o = true;
  ad_prices : has_prices prices o = true;
  ad_market : in_market prices (cc_limit_order_price_factor cfg) o = Ret true;
}.

Lemma native_price_normalized estimates t p :
  get_native_prices u256_from_f64 estimates !! t = Some p -> exists x, to_normalized_price u256_from_f64 x = Some p.
Proof.
  intros H%elem_of_list_to_map_2. apply list_elem_of_omap in H as ([t' r] & _ & E). cbn [fst snd] in E.
  destruct (ok r) as [x|]; [|discriminate]. destruct (to_normalized_price u256_from_f64 x) eqn:Ex; [|discriminate].
  injection E as _ <-. by exists x.
Qed.

Definition fetched_balances (cfg : CacheConfig) (orders : list ModelOrder) : Balances :=
  fetch_balances (cc_disable_order_balance_filter cfg) (Query_from_order <$> orders)
    (get_balances (Query_from_order <$> orders)).

Lemma NoDup_app_sets (l k : list Z) :
  NoDup l -> NoDup k -> list_to_set (C := gset Z) l ## list_to_set k -> NoDup (l ++ k).
Proof.
  intros Hl Hk Hd. apply NoDup_app. split; [done|]. split; [|done]. intros x Hx Hx'.
  apply (Hd x); by apply elem_of_list_to_set.
Qed.

(** The sets of the stages, one inside the other. *)
Lemma partition_sets (all k1 invalid k2 poor dust k3 k4 : gset Z) :
  all = k1 ∪ invalid -> k1 ## invalid -> k1 = k2 ∪ poor ∪ dust -> poor ## k2 ∪ dust -> dust ## k2 -> k3 ⊆ k2 -> k4 ⊆ k3 ->
  all = k4 ∪ (invalid ∪ poor) ∪ (dust ∪ ((k2 ∖ k3) ∪ (k3 ∖ k4))) /\
  k4 ## invalid ∪ poor /\ k4 ## dust ∪ ((k2 ∖ k3) ∪ (k3 ∖ k4)) /\
  invalid ∪ poor ## dust ∪ ((k2 ∖ k3) ∪ (k3 ∖ k4)) /\
  dust ## (k2 ∖ k3) ∪ (k3 ∖ k4) /\ (k2 ∖ k3) ## k3 ∖ k4.
Proof.
  intros -> Hd1 -> Hd2 Hd3 H3 H4.
  assert (E : k2 = k4 ∪ ((k2 ∖ k3) ∪ (k3 ∖ k4))).
  { apply set_eq. intros u. specialize (H3 u). specialize (H4 u).
    destruct (decide (u ∈ k3)), (decide (u ∈ k4)); rewrite !elem_of_union, !elem_of_difference; tauto. }
  assert (H42 : k4 ⊆ k2) by set_solver. assert (Hm : (k2 ∖ k3) ∪ (k3 ∖ k4) ⊆ k2) by set_solver.
  assert (Hk : k4 ## (k2 ∖ k3) ∪ (k3 ∖ k4)) by set_solver. assert (H34 : (k2 ∖ k3) ## k3 ∖ k4) by set_solver.
  set (m := (k2 ∖ k3) ∪ (k3 ∖ k4)) in *. clearbody m. clear H3 H4.
  split; [rewrite E at 1; set_solver|]. split; [set_solver|]. split; [set_solver|]. split; [set_solver|].
  split; [set_solver|done].
Qed.

Lemma filter_orders_spec now cfg cow_amms orders users :
  users_ok users ->
  (exists p, estimate_one (cc_weth cfg) = Ok p /\ is_Some (to_normalized_price u256_from_f64 p)) ->
  exists f users', filter_orders cache_insert is_banned check_signature detect get_balances estimate estimate_one
                     u256_from_f64 now cfg cow_amms orders users = Ret (f, users') /\
    users_ok users' /\ accounted (uids orders) (uids (fi_orders f)) (fi_invalid f) (fi_filtered f) /\
    (forall o, o ∈ fi_orders f -> o ∈ orders /\ admitted cfg users (fetched_balances cfg orders) (fi_prices f) o) /\
    (forall t p, fi_prices f !! t = Some p -> exists x, to_normalized_price u256_from_f64 x = Some p).
Proof.
  intros Hok Hweth. unfold filter_orders. fold (fetched_balances cfg orders).
  pose proof (filter_invalid_spec now cfg orders users (OrderFilterCounter_new orders) Hok (counter_new_dom orders)) as H1.
  destruct (filter_invalid_orders _ _ _ _ _ _ _ _ _) as [[[orders1 invalid] users'] c1].
  destruct H1 as (Hk1 & Hd1 & Hu1 & Hdis1 & Hok').
  pose proof (filter_by_balance_spec cfg (fetched_balances cfg orders) orders1 c1 Hd1) as H2.
  destruct (filter_by_balance _ _ _ _) as [[[orders2 poor] dust] c2]. destruct H2 as (Hk2 & Hd2 & Hnd2 & Hu2 & Hdis2 & Hdis2').
  set (prices := get_native_prices _ _). unfold get_orders_with_native_prices. cbv beta iota zeta.
  set (orders3 := filter (fun o => has_prices prices o = true) orders2).
  destruct (add_weth_price_returns estimate_one u256_from_f64 (cc_weth cfg) prices Hweth) as (prices' & -> & Hsub & Hnorm).
  cbn [comp_bind].
  assert (Hu3 : uids orders3 ⊆ uids orders2) by apply uids_filter.
  destruct (checkpoint_spec c2 "missing_price" orders3) as (Hs3 & Hnd3 & Hd3); [by rewrite Hd2|].
  destruct (checkpoint c2 "missing_price" orders3) as [unpriced c3]. cbn [fst snd] in *.
  destruct (comp_filter_returns (in_market prices' (cc_limit_order_price_factor cfg)) orders3) as (orders4 & E4 & Hk4).
  { intros o Ho. apply in_market_total. apply list_elem_of_filter in Ho as [Ho _]. by eapply has_prices_mono. }
  unfold filter_mispriced_limit_orders. rewrite E4. cbn [comp_bind].
  assert (Hu4 : uids orders4 ⊆ uids orders3) by (intros u; rewrite !elem_of_uids; setoid_rewrite Hk4; naive_solver).
  destruct (checkpoint_spec c3 "out_of_market" orders4) as (Hs4 & Hnd4 & Hd4); [by rewrite Hd3|].
  destruct (checkpoint c3 "out_of_market" orders4) as [mispriced c4]. cbn [fst snd] in *.
  pose proof (record_nothing c4 orders4 Hd4) as Hrec. destruct (record c4 orders4) as [others counts]. cbn [fst] in Hrec. subst others.
  rewrite app_nil_r. eexists _, _. split; [done|]. split; [done|]. cbn [fi_orders fi_invalid fi_filtered fi_prices].
  rewrite Hd2 in Hs3. rewrite Hd3 in Hs4. split; [|split].
  - destruct (partition_sets _ _ _ _ _ _ _ _ Hu1 Hdis1 Hu2 Hdis2 Hdis2' Hu3 Hu4) as (Hall & H1 & H2 & H3 & H4 & H5).
    split; rewrite ?list_to_set_app_L, ?Hs3, ?Hs4; try done.
    apply NoDup_app_sets; [done| |by rewrite list_to_set_app_L, Hs3, Hs4].
    apply NoDup_app_sets; [done..|]. by rewrite Hs3, Hs4.
  - intros o [Ho3 Hm]%Hk4. apply list_elem_of_filter in Ho3 as [Hp Ho2]. apply Hk2 in Ho2 as [Ho1 Hb].
    destruct (Hk1 o Ho1) as [Ho Hv]. split; [done|]. split; [done|done| |done]. by eapply has_prices_mono.
  - intros t p [Ht|?]%Hnorm; [by eapply native_price_normalized|done].
Qed.
End accounting.

(** ** The update *)
Definition keyed (orders : gmap Z ModelOrder) : Prop := forall u o, orders !! u = Some o -> md_uid (mo_metadata o) = u.

Lemma collect_orders_keyed utf8 rows m : collect_orders utf8 rows = Some m -> keyed m.
Proof.
  unfold collect_orders. destruct (mapM _ rows) as [orders|]; [|done]. intros [= <-] u o.
  intros [[_ Hu]|Hno]%foldl_insert_elem; [done|by rewrite lookup_empty in Hno].
Qed.

Lemma get_solvable_orders_keyed utf8 rational now period cache d s :
  (forall c, cache = Some c -> keyed (so_orders c)) ->
  get_solvable_orders utf8 rational now period cache d = Some s -> keyed (so_orders s).
Proof.
  intros Hc. unfold get_solvable_orders. destruct (negb _); [done|]. destruct cache as [c|].
  - unfold solvable_orders_after. destruct (negb _); [done|].
    destruct (collect_orders utf8 _) as [next|] eqn:E; [|done]. destruct (negb _); [done|]. intros [= <-]. cbn.
    intros u o [Ho _]%map_lookup_filter_Some. apply lookup_union_Some_raw in Ho as [Ho|[_ Ho]].
    + by eapply collect_orders_keyed.
    + by eapply (Hc c).
  - unfold all_solvable_orders. destruct (collect_orders utf8 _) as [m|] eqn:E; [|done]. destruct (fits 64 _); [|done].
    intros [= <-]. by eapply collect_orders_keyed.
Qed.

Lemma keyed_values_uids m : keyed m -> uids (snd <$> map_to_list m) = dom m.
Proof.
  intros Hk. apply set_eq. intros u. rewrite elem_of_uids, elem_of_dom. split.
  - intros (o & Ho & <-). apply list_elem_of_fmap in Ho as ([k v] & -> & Hin%elem_of_map_to_list).
    cbn [snd]. rewrite (Hk _ _ Hin). eauto.
  - intros [o Ho]. exists o. split; [|by apply Hk]. apply list_elem_of_fmap. exists (u, o). by rewrite elem_of_map_to_list.
Qed.

(** Basis points are unsigned. *)
Definition bps_unsigned (from_slice : string -> option Root) : Prop :=
  forall s root, from_slice s = Some root -> Forall (fun f => match pf_policy f with
    | PartnerSurplus bps _ | PartnerPriceImprovement bps _ | PartnerVolume bps => 0 <= bps end) (pad_partner_fee (root_protocol root)).

Section fees.
Context {D : Type} `{!DecimalOps D}.
Context (keccak256 : list Z -> Z) (utf8 : string -> bool) (from_slice : string -> option Root).
Context (Hbps : bps_unsigned from_slice).

Lemma get_partner_fee_returns order quote cap :
  exists fees, get_partner_fee (D := D) keccak256 utf8 from_slice order quote cap = Ret fees.
Proof.
  unfold get_partner_fee. destruct (d_try_from_f64 cap); [|eauto]. destruct (md_full_app_data _) as [document|]; [|eauto].
  destruct (AppData.validate _ _ _ _ document) as [validated|] eqn:Ev; [|eauto].
  assert (Hv : exists root, from_slice document = Some root /\ va_protocol validated = root_protocol root).
  { revert Ev. unfold AppData.validate, parse. repeat case_match; try done.
    destruct (from_slice document) as [root|] eqn:Er; [|done]. cbn. intros [= <-]. eauto. }
  destruct Hv as (root & Hroot & ->).
  set (policies := pf_policy <$> pad_partner_fee (root_protocol root)).
  assert (Hall : returns (comp_map (fun fp => partner_policy quote (d_to_f64 fp.1) fp.2)
      (zip (capped_factors d d_zero policies).1 policies)) (Forall2 (fun _ _ => True) (zip (capped_factors d d_zero policies).1 policies))).
  { apply comp_map_returns. intros [factor p] Hin. apply elem_of_zip_r, list_elem_of_fmap in Hin as (fee & -> & Hin).
    pose proof (proj1 (Forall_forall _ _) (Hbps document root Hroot) fee Hin) as H. cbn [fst snd].
    cbn beta in H. destruct (pf_policy fee); cbn;
      [destruct (fee_factor_from_bps_total bps H) as (f & -> & _)..|]; exact I. }
  apply returns_inv in Hall as (fees & Hfees & _). by exists fees.
Qed.

Lemma fees_apply_returns now fees order quote owners :
  returns (fees_apply (D := D) keccak256 utf8 from_slice now fees order quote owners)
    (fun o => do_uid o = md_uid (mo_metadata order)).
Proof.
  unfold fees_apply. destruct (get_partner_fee_returns order (default (mkDomainQuote (md_uid (mo_metadata order))
    (od_sell_amount (mo_data order)) 0 (od_fee_amount (mo_data order)) 0) quote) (pfs_max_partner_fee fees)) as [pf ->].
  cbn [comp_bind]. by destruct (bool_decide _).
Qed.
End fees.

Section auction.
Context (cache_insert : address -> UserMetadata -> Cache -> Cache).
Context (cache_insert_spec : forall a m c b m', cache_insert a m c !! b = Some m' -> b = a /\ m' = m \/ c !! b = Some m').
Context (is_banned : address -> option bool).
Context (check_signature : SignatureCheck -> result SignatureValidationError Z).
Context (detect : address -> result string bool).
Context (get_balances : list BalanceQuery -> list (result string Z)).
Context (estimate : list address -> list (address * result string f64)).
Context (estimate_one : address -> result string f64).
Context (u256_from_f64 : f64 -> Z).
Context (u256_from_f64_pos : forall x, SFleb (f64_lit 1) x = true -> 1 <= u256_from_f64 x).
Context {D : Type} `{!DecimalOps D}.
Context (keccak256 : list Z -> Z) (utf8 : string -> bool) (from_slice : string -> option Root).
Context (Hbps : bps_unsigned from_slice).
Context (rational_from_f64 : f64 -> option (Z * Z)).

Lemma normalized_price_nonzero x p : to_normalized_price u256_from_f64 x = Some p -> Price_try_new p = Some p.
Proof.
  unfold to_normalized_price, Price_try_new. generalize (f64_mul (f64_lit (10 ^ 18)) x) as y, (f64_lit (2 ^ 256)) as limit.
  intros y limit. pose proof (u256_from_f64_pos y) as Hpos. cbv zeta.
  destruct (SFleb (f64_lit 1) y); [|by rewrite andb_false_r]. specialize (Hpos eq_refl).
  destruct (_ && _ && _); [|done]. intros [= <-]. destruct (Z.eqb_spec (u256_from_f64 y) 0); [lia|done].
Qed.

(** C6 (safety): an update accounts for every order.  When the solvable orders are read and
    the wrapped native token has a price, the update succeeds without panicking; every
    solvable order is either in the new auction, or reported as invalid, or reported as
    filtered, and in exactly one of these; and every order of the auction is one of the
    solvable orders, nobody involved in it is banned, its signature and its tokens pass,
    its owner has the balance it needs, both its tokens have prices in the auction and its
    limit is within the market. *)
Theorem update_accounts_for_orders now block cfg cow_amms d st s :
  (forall inner, cs_inner st = Some inner -> keyed (so_orders inner.2)) ->
  users_ok is_banned (cs_banned_users st) ->
  (exists p, estimate_one (cc_weth cfg) = Ok p /\ is_Some (to_normalized_price u256_from_f64 p)) ->
  get_solvable_orders utf8 rational_from_f64 now (cc_min_order_validity_period cfg) (snd <$> cs_inner st) d = Some s ->
  exists auction users events,
    update cache_insert is_banned check_signature detect get_balances estimate estimate_one u256_from_f64 (D := D)
      keccak256 utf8 from_slice rational_from_f64 now block true cfg cow_amms d st
    = Ret (Ok tt, mkCacheState users (Some (auction, s)), Some events) /\
    keyed (so_orders s) /\ users_ok is_banned users /\
    accounted (dom (so_orders s)) (list_to_set (do_uid <$> rad_orders auction)) (ev_invalid events) (ev_filtered events) /\
    forall o, o ∈ rad_orders auction -> exists m, so_orders s !! do_uid o = Some m /\
      admitted is_banned check_signature detect cfg (cs_banned_users st)
        (fetched_balances get_balances cfg (snd <$> map_to_list (so_orders s))) (rad_prices auction) m.
Proof.
  intros Hst Hok Hweth Hs.
  assert (Hkey : keyed (so_orders s)).
  { eapply get_solvable_orders_keyed; [|exact Hs]. intros c Hc. apply fmap_Some in Hc as (inner & Hi & ->). by apply Hst. }
  destruct (filter_orders_spec cache_insert cache_insert_spec is_banned check_signature detect get_balances estimate
    estimate_one u256_from_f64 now cfg cow_amms (snd <$> map_to_list (so_orders s)) (cs_banned_users st) Hok Hweth)
    as (f & users & Ef & Hok' & Hacc & Hadm & Hprices).
  unfold update. rewrite Hs, Ef. cbn [comp_bind]. cbv zeta.
  edestruct (returns_inv _ _ (comp_map_returns (fun order => fees_apply (D := D) keccak256 utf8 from_slice now (cc_protocol_fees cfg)
    order (so_quotes s !! md_uid (mo_metadata order)) (jit_order_owners cow_amms (fi_prices f)))
    (fun o r => do_uid r = md_uid (mo_metadata o)) (fi_orders f)
    (fun x _ => fees_apply_returns keccak256 utf8 from_slice Hbps _ _ _ _ _))) as (orders & -> & Horders).
  cbn [comp_bind]. replace (forallb _ _) with true; cycle 1.
  { symmetry. apply forallb_forall. intros [t p] Hin. apply list_elem_of_In, elem_of_map_to_list in Hin.
    destruct (Hprices t p Hin) as [x Hx]. apply bool_decide_eq_true. cbn [snd].
    rewrite (normalized_price_nonzero x p Hx). eauto. }
  eexists _, _, _. split; [done|]. split; [done|]. split; [done|]. cbn [rad_orders ev_invalid ev_filtered rad_prices]. split.
  - rewrite <-(keyed_values_uids _ Hkey). replace (list_to_set (C := gset Z) (do_uid <$> orders)) with (uids (fi_orders f)); [done|].
    unfold uids. f_equal. clear -Horders. induction Horders as [|? ? ? ? E]; [done|]. cbn. by rewrite E, IHHorders.
  - intros o [k Hk]%list_elem_of_lookup. destruct (Forall2_lookup_r _ _ _ _ _ Horders Hk) as (m & Hm & ->).
    destruct (Hadm m) as [Hin Had]; [by eapply list_elem_of_lookup_2|]. exists m. split; [|done].
    apply list_elem_of_fmap in Hin as ([u v] & -> & Hin%elem_of_map_to_list). cbn [snd]. by rewrite (Hkey _ _ Hin).
Qed.
End auction.

(** ** Example: one order of the auction, one without its pre-signature *)
Definition example_orders : Db :=
  orders_db {[1 := mkOrderRow (example_row 1 5 500) 500;
              2 := mkOrderRow (mkDbOrder 2 7 6 1 2 None 100 90 500 0 0 Sell false [] Eip1271 9 SellErc20 BuyErc20 None ClassMarket) 500]}.
Definition example_config : CacheConfig :=
  mkCacheConfig 10 3 (mkBigDecimal 1 0) (mkProtocolFees [] (f64_lit 0) None (mkVolumeFeePolicy [] None true)) 9 false false false.
Definition example_state : CacheState := mkCacheState Users_none None.

Definition example_update : comp (result string unit * CacheState * option UpdateEvents) :=
  update sample_cache_insert (fun _ => None) (fun _ => Ok 0) (fun _ => Ok true) (fmap (fun _ => Ok 1000))
    (fmap (fun t => (t, Ok (f64_lit 1)))) (fun _ => Ok (f64_lit 1)) (fun _ => 10 ^ 18) (D := QArith_base.Q)
    (fun _ => 0) (fun _ => true) (fun _ => None) (fun _ => None) 100 77 true example_config [] example_orders example_state.

Lemma update_accounts_for_orders_witness :
  exists s auction users events, example_update = Ret (Ok tt, mkCacheState users (Some (auction, s)), Some events) /\
    accounted (dom (so_orders s)) (list_to_set (do_uid <$> rad_orders auction)) (ev_invalid events) (ev_filtered events).
Proof.
  destruct (get_solvable_orders (fun _ => true) (fun _ => None) 100 10 None example_orders) as [s|] eqn:Hs;
    [|vm_compute in Hs; discriminate Hs].
  destruct (update_accounts_for_orders sample_cache_insert sample_cache_insert_spec (fun _ => None) (fun _ => Ok 0)
    (fun _ => Ok true) (fmap (fun _ => Ok 1000)) (fmap (fun t => (t, Ok (f64_lit 1)))) (fun _ => Ok (f64_lit 1)) (fun _ => 10 ^ 18)
    (fun _ _ => ltac:(lia)) (D := QArith_base.Q) (fun _ => 0) (fun _ => true) (fun _ => None) (fun _ _ => ltac:(done))
    (fun _ => None) 100 77 example_config [] example_orders example_state s)
    as (auction & users & events & E & _ & _ & Hacc & _).
  - intros inner Hi. discriminate Hi.
  - intros c Hc. discriminate Hc.
  - exists (f64_lit 1). split; [reflexivity|]. vm_compute. eauto.
  - exact Hs.
  - exists s, auction, users, events. split; [exact E|exact Hacc].
Defined.

(** The order with a valid signature is auctioned, the other is reported. *)
Example example_update_result :
  match example_update with
  | Ret (Ok _, st, Some events) =>
      (fun a => do_uid <$> rad_orders a) <$> current_auction st = Some [2] /\ ev_invalid events = {[1]} /\ ev_filtered events = []
  | _ => False
  end.
Proof. vm_compute. repeat split. Qed.
