(* ===== verification/OrderStoring.v ===== *)
(** * OrderStoring: orders in the database of the order book

    [crates/orderbook/src/database/orders.rs] ([OrderStoring] and [LimitOrderCounting]),
    [insert_order_app_data] of [crates/orderbook/src/database/mod.rs] and
    [order_quote_into_model] of [crates/shared/src/db_order_conversions.rs].

    A transaction either returns the database it leaves or an error and leaves the
    database as it was.  The query for JIT orders and the conversions between big decimals
    and floats are parameters. *)

From stdpp Require Import base gmap sets list strings sorting.
From Stdlib Require Import ZArith Lia.
From S2P Require Import Prelude Collections F64 Eth Liquidity Solution Dto Score DriverOrder.
From S2P Require Import OrderModel AppData OrderCreation OrderQuoting OrderValidation OrdersDb.

Open Scope Z_scope.

(** ** Cancelling and inserting *)
Inductive InsertionError :=
| InsDuplicatedRecord
| InsDbError
| InsAppDataMismatch (existing : string)
| InsMetadataSerializationFailed.

Definition cancel_order_tx (order_uid now : Z) (d : Db) : Db :=
  db_cancel_order order_uid now (insert_order_event (mkOrderEvent order_uid now EvCancelled) d).

(** Interactions before and after the trade share one numbering. *)
Definition db_interactions (i : Interactions) : list DbInteraction :=
  imap (fun index e => mkDbInteraction (ei_target e.1) (ei_value e.1) (ei_calldata e.1) (Z.of_nat index) e.2)
    (((fun x => (x, ExecPre)) <$> in_pre i) ++ ((fun x => (x, ExecPost)) <$> in_post i)).

Definition db_order_from (o : ModelOrder) : DbOrder :=
  let md := mo_metadata o in let d := mo_data o in
  mkDbOrder (md_uid md) (md_owner md) (md_creation_date md) (od_sell_token d) (od_buy_token d) (od_receiver d)
    (od_sell_amount d) (od_buy_amount d) (od_valid_to d) (od_app_data d) (od_fee_amount d) (od_kind d)
    (od_partially_fillable d) (OrderSignature_to_bytes (mo_signature o)) (OrderSignature_scheme (mo_signature o))
    (md_settlement_contract md) (od_sell_token_balance d) (od_buy_token_balance d) None (md_class md).

Section storing.
Context (bd_to_f64 : BigDecimal -> option f64) (bd_from_f64 : f64 -> option BigDecimal).
Context (u256_from_f64 : f64 -> comp Z) (utf8 : string -> bool) (jit_order : Z -> option FullOrder).

Definition db_quote_from (order_uid : Z) (q : OrderQuote) : comp DbOrderQuote :=
  let! gas_amount := expect (bd_to_f64 (oq_gas_amount q)) in
  let! gas_price := expect (bd_to_f64 (oq_gas_price q)) in
  let! sell_token_price := expect (bd_to_f64 (oq_sell_token_price q)) in
  Ret (mkDbOrderQuote order_uid gas_amount gas_price sell_token_price (oq_sell_amount q) (oq_buy_amount q)
         (oq_solver q) (oq_verified q) (oq_metadata q)).

Definition insert_order_tx (now : Z) (order : ModelOrder) (d : Db) : comp (result InsertionError Db) :=
  let order_uid := md_uid (mo_metadata order) in
  let d := insert_order_event (mkOrderEvent order_uid now EvCreated) d in
  match db_insert_order (db_order_from order) d with
  | Err e => Ret (Err (if is_duplicate_record_error e then InsDuplicatedRecord else InsDbError))
  | Ok d =>
      match insert_interactions order_uid (db_interactions (mo_interactions order)) d with
      | Err _ => Ret (Err InsDbError)
      | Ok d =>
          match md_quote (mo_metadata order) with
          | None => Ret (Ok d)
          | Some quote =>
              let! db_quote := db_quote_from order_uid quote in
              Ret match insert_quote db_quote d with Ok d => Ok d | Err _ => Err InsDbError end
          end
      end
  end.

Definition insert_order_app_data (order : ModelOrder) (d : Db) : result InsertionError Db :=
  match md_full_app_data (mo_metadata order) with
  | None => Ok d
  | Some full_app_data =>
      match app_data_insert (od_app_data (mo_data order)) full_app_data (t_app_data d) with
      | (Some existing, table) => if bool_decide (full_app_data = existing) then Ok (set_app_data table d)
                                  else Err (InsAppDataMismatch existing)
      | (None, table) => Ok (set_app_data table d)
      end
  end.

(** [OrderStoring::insert_order]. *)
Definition store_insert_order (now : Z) (order : ModelOrder) (d : Db) : comp (result InsertionError Db) :=
  let!r d := insert_order_tx now order d in Ret (insert_order_app_data order d).

Definition store_cancel_orders (order_uids : list Z) (now : Z) (d : Db) : Db :=
  foldl (fun d uid => cancel_order_tx uid now d) d order_uids.

Definition store_cancel_order (order_uid now : Z) (d : Db) : Db := cancel_order_tx order_uid now d.

(** The replaced order gets no event of its own. *)
Definition store_replace_order (now : Z) (old_order : Z) (new_order : ModelOrder) (d : Db) : comp (result InsertionError Db) :=
  let d := db_cancel_order old_order (md_creation_date (mo_metadata new_order)) d in
  let!r d := insert_order_tx now new_order d in Ret (insert_order_app_data new_order d).

Definition latest_order_event (order_uid : Z) (d : Db) : option OrderEvent := get_latest order_uid d.

(** ** Reading *)
Definition is_sell_order_filled (amount executed_amount executed_fee : Z) : bool :=
  if executed_amount =? 0 then false else executed_amount - executed_fee =? amount.

Definition is_buy_order_filled (amount executed_amount : Z) : bool :=
  negb (executed_amount =? 0) && (amount =? executed_amount).

Definition calculate_status (now : Z) (o : FullOrder) : OrderStatus :=
  if match db_kind (fo_order o) with
     | Buy => is_buy_order_filled (db_buy_amount (fo_order o)) (fo_sum_buy o)
     | Sell => is_sell_order_filled (db_sell_amount (fo_order o)) (fo_sum_sell o) (fo_sum_fee o)
     end then Fulfilled
  else if fo_invalidated o then StatusCancelled
  else if FullOrder_valid_to o <? now then Expired
  else if fo_presignature_pending o then PresignaturePending
  else StatusOpen.

(** The execution plan of a quote is hidden (a JSON null) while the order can still be
    filled. *)
Definition order_quote_into_model (q : DbOrderQuote) (status : OrderStatus) : comp (option OrderQuote) :=
  let metadata := match status with StatusOpen | PresignaturePending => "null"%string | _ => dbq_metadata q end in
  let! fee_amount := fee u256_from_f64 (mkFeeParameters (dbq_gas_amount q) (dbq_gas_price q) (dbq_sell_token_price q)) in
  Ret (let? gas_amount := bd_from_f64 (dbq_gas_amount q) in
       let? gas_price := bd_from_f64 (dbq_gas_price q) in
       let? sell_token_price := bd_from_f64 (dbq_sell_token_price q) in
       let? sell_amount := to_u256 (dbq_sell_amount q) in
       let? buy_amount := to_u256 (dbq_buy_amount q) in
       Some (mkOrderQuote gas_amount gas_price sell_token_price sell_amount buy_amount fee_amount (dbq_solver q)
               (dbq_verified q) metadata)).

(** The quote is converted last but for the order's data; every failure is an error. *)
Definition full_order_with_quote_into_model_order (now : Z) (order : FullOrder) (quote : option DbOrderQuote)
  : comp (option ModelOrder) :=
  let status := calculate_status now order in
  let! quote := match quote with
                | None => Ret (Some None)
                | Some q => let! q := order_quote_into_model q status in Ret (Some <$> q)
                end in
  Ret (let? quote := quote in model_order_from utf8 order status quote).

Definition ob_full_order_into_model_order (now : Z) (order : FullOrder) : comp (option ModelOrder) :=
  full_order_with_quote_into_model_order now order None.

(** [single_order]: [None] is a row that does not convert, [Some None] an unknown order. *)
Definition single_order (now uid : Z) (d : Db) : comp (option (option ModelOrder)) :=
  match single_full_order_with_quote uid d with
  | Some (order, quote) =>
      let! o := full_order_with_quote_into_model_order now order quote in Ret (Some <$> o)
  | None =>
      match jit_order uid with
      | Some order => let! o := ob_full_order_into_model_order now order in Ret (Some <$> o)
      | None => Ret (Some None)
      end
  end.

(** ** Counting limit orders *)
Definition is_outside_market (oq : DbOrder * DbOrderQuote) : comp bool :=
  let '(o, q) := oq in
  let! order_sell := expect (to_u256 (db_sell_amount o)) in
  let! order_buy := expect (to_u256 (db_buy_amount o)) in
  let! quote_sell := expect (to_u256 (dbq_sell_amount q)) in
  let! quote_buy := expect (to_u256 (dbq_buy_amount q)) in
  let! fee := fee u256_from_f64 (mkFeeParameters (dbq_gas_amount q) (dbq_gas_price q) (dbq_sell_token_price q)) in
  Ret (is_order_outside_market_price (mkAmounts order_sell order_buy 0) (mkAmounts quote_sell quote_buy fee) (db_kind o)).

Definition limit_order_count (now : Z) (owner : address) (d : Db) : comp Z :=
  let! outside := comp_map is_outside_market (user_orders_with_quote now owner d) in
  Ret (Z.of_nat (length (filter (fun b : bool => b = true) outside))).
End storing.

(** ** What the statements change *)
Lemma insert_event_keeps e d :
  t_orders (insert_order_event e d) = t_orders d /\ t_interactions (insert_order_event e d) = t_interactions d /\
  t_order_quotes (insert_order_event e d) = t_order_quotes d.
Proof. unfold insert_order_event. repeat case_match; done. Qed.

Lemma insert_interactions_keeps uid l d d' :
  insert_interactions uid l d = Ok d' -> exists x, d' = set_interactions x d.
Proof.
  revert d. induction l as [|i l IH]; intros d; cbn [insert_interactions].
  { intros [= <-]. exists (t_interactions d). by destruct d. }
  unfold insert_interaction. destruct (t_interactions d !! _); [done|]. cbn [result_bind].
  intros (x & ->)%IH. by exists x.
Qed.

Section storing_spec.
Context (bd_to_f64 : BigDecimal -> option f64).

(** A stored order adds its row and changes no other. *)
Lemma insert_order_tx_orders now o d d' :
  insert_order_tx bd_to_f64 now o d = Ret (Ok d') ->
  t_orders d !! md_uid (mo_metadata o) = None /\
  t_orders d' = <[md_uid (mo_metadata o) := mkOrderRow (db_order_from o) (od_valid_to (mo_data o))]> (t_orders d) /\
  t_order_events d' = t_order_events (insert_order_event (mkOrderEvent (md_uid (mo_metadata o)) now EvCreated) d).
Proof.
  unfold insert_order_tx, db_insert_order. destruct (insert_event_keeps (mkOrderEvent (md_uid (mo_metadata o)) now EvCreated) d) as (-> & _ & _).
  cbn [db_uid db_order_from]. destruct (t_orders d !! md_uid (mo_metadata o)) eqn:Hno; [done|].
  destruct (insert_interactions _ _ _) as [d2|] eqn:Hi; [|done]. apply insert_interactions_keeps in Hi as (x & ->).
  set (d1 := insert_order_execute_sqlx _ _).
  assert (H1 : t_orders d1 = <[md_uid (mo_metadata o) := mkOrderRow (db_order_from o) (od_valid_to (mo_data o))]> (t_orders d)).
  { unfold d1, insert_order_execute_sqlx. cbn [t_orders set_orders].
    by destruct (insert_event_keeps (mkOrderEvent (md_uid (mo_metadata o)) now EvCreated) d) as (-> & _). }
  destruct (md_quote (mo_metadata o)) as [q|]; [|intros [= <-]; done].
  rewrite comp_bind_Ret. intros (dq & _ & E). unfold insert_quote in E. destruct (t_order_quotes _ !! _); [done|].
  injection E as <-. done.
Qed.

Lemma insert_order_app_data_keeps o d d' :
  insert_order_app_data o d = Ok d' -> exists x, d' = set_app_data x d.
Proof.
  unfold insert_order_app_data, app_data_insert. destruct (md_full_app_data _) as [doc|].
  - destruct (t_app_data d !! _) as [existing|]; [case_bool_decide|]; intros [= <-]; eauto.
  - intros [= <-]. exists (t_app_data d). by destruct d.
Qed.

Lemma store_insert_order_orders now o d d' :
  store_insert_order bd_to_f64 now o d = Ret (Ok d') ->
  t_orders d !! md_uid (mo_metadata o) = None /\
  t_orders d' = <[md_uid (mo_metadata o) := mkOrderRow (db_order_from o) (od_valid_to (mo_data o))]> (t_orders d).
Proof.
  unfold store_insert_order. destruct (insert_order_tx _ _ _ d) as [[d1|]|] eqn:Hi; cbn; [|done..].
  apply insert_order_tx_orders in Hi as (Hno & Ho & _). intros [= E]. apply insert_order_app_data_keeps in E as (x & ->). done.
Qed.

Lemma store_replace_order_orders now old o d d' :
  store_replace_order bd_to_f64 now old o d = Ret (Ok d') ->
  t_orders d !! md_uid (mo_metadata o) = None /\
  t_orders d' = <[md_uid (mo_metadata o) := mkOrderRow (db_order_from o) (od_valid_to (mo_data o))]>
                  (alter (cancel_row (md_creation_date (mo_metadata o))) old (t_orders d)) /\
  t_order_events d' = t_order_events (insert_order_event (mkOrderEvent (md_uid (mo_metadata o)) now EvCreated) d).
Proof.
  unfold store_replace_order. destruct (insert_order_tx _ _ _ _) as [[d1|]|] eqn:Hi; cbn; [|done..].
  apply insert_order_tx_orders in Hi as (Hno & Ho & He). intros [= E]. apply insert_order_app_data_keeps in E as (x & ->).
  cbn [t_orders set_app_data db_cancel_order set_orders t_order_events] in *. split.
  - apply eq_None_not_Some. intros [r Hr]. apply eq_None_not_Some in Hno. apply Hno.
    destruct (decide (old = md_uid (mo_metadata o))) as [->|]; [rewrite lookup_alter_eq, Hr|rewrite lookup_alter_ne by done]; eauto.
  - split; [done|]. rewrite He. unfold insert_order_event. cbn. repeat case_match; done.
Qed.

Lemma latest_event_other uid e events : oe_order_uid e <> uid -> latest_event uid (events ++ [e]) = latest_event uid events.
Proof. intros Hne. unfold latest_event. rewrite filter_app, filter_cons, decide_False by done. cbn. by rewrite app_nil_r. Qed.

(** The events of a replaced order do not say that it was cancelled: the latest event is
    the one from before the replacement. *)
Lemma replaced_order_keeps_event now old o d d' :
  store_replace_order bd_to_f64 now old o d = Ret (Ok d') -> old <> md_uid (mo_metadata o) ->
  latest_order_event old d' = latest_order_event old d.
Proof.
  intros (_ & _ & He)%store_replace_order_orders Hne. unfold latest_order_event, get_latest. rewrite He.
  unfold insert_order_event. repeat case_match; cbn; try done; by apply latest_event_other.
Qed.
End storing_spec.

Lemma store_cancel_orders_lookup uids now d u :
  t_orders (store_cancel_orders uids now d) !! u =
  if decide (u ∈ uids) then cancel_row now <$> t_orders d !! u else t_orders d !! u.
Proof.
  unfold store_cancel_orders. revert d. induction uids as [|v uids IH]; intros d; cbn [foldl].
  { by rewrite decide_False by apply not_elem_of_nil. }
  rewrite IH. unfold cancel_order_tx, db_cancel_order. cbn [t_orders set_orders].
  destruct (insert_event_keeps (mkOrderEvent v now EvCancelled) d) as (-> & _).
  destruct (decide (u = v)) as [->|Hne].
  - rewrite lookup_alter_eq, (decide_True (P := v ∈ v :: uids)) by apply list_elem_of_here.
    destruct (decide (v ∈ uids)); [|done]. destruct (t_orders d !! v) as [r|]; [|done]. cbn. f_equal.
    unfold cancel_row. destruct (db_cancellation_timestamp (or_order r)) eqn:E; cbn; by rewrite ?E.
  - rewrite lookup_alter_ne by done. destruct (decide (u ∈ uids)), (decide (u ∈ v :: uids)) as [Hin|Hin]; try done.
    + destruct Hin. by right.
    + apply elem_of_cons in Hin as [?|?]; done.
Qed.

(** ** What was stored is read back *)
Lemma insert_interactions_lookup uid l d d' :
  insert_interactions uid l d = Ok d' ->
  forall k v, t_interactions d' !! k = Some v <->
    t_interactions d !! k = Some v \/ exists i, i ∈ l /\ interaction_key uid i = k /\ interaction_columns i = v.
Proof.
  revert d. induction l as [|i l IH]; intros d; cbn [insert_interactions].
  { intros [= <-] k v. split; [auto|]. intros [?|(i & Hi & _)]; [done|]. by apply elem_of_nil in Hi. }
  unfold insert_interaction. destruct (t_interactions d !! interaction_key uid i) eqn:Hno; [done|]. cbn [result_bind].
  intros H k v. rewrite (IH _ H). cbn [t_interactions set_interactions].
  destruct (decide (interaction_key uid i = k)) as [<-|Hne].
  - rewrite lookup_insert_eq, Hno. split.
    + intros [[= <-]|(j & Hj & ? & ?)]; right; [exists i|exists j]; (split; [|done]); [left|by right].
    + intros [?|(j & [->|Hj]%elem_of_cons & ? & <-)]; [done|by left|]. right. by exists j.
  - rewrite lookup_insert_ne by done. split.
    + intros [?|(j & Hj & ? & ?)]; [by left|]. right. exists j. split; [by right|done].
    + intros [?|(j & [->|Hj]%elem_of_cons & ? & ?)]; [by left|done|]. right. by exists j.
Qed.

(** Interactions with increasing indices can be stored for a new order. *)
Lemma insert_interactions_fresh uid l d :
  StronglySorted (fun a b => dbi_index a < dbi_index b) l ->
  (forall i, i ∈ l -> t_interactions d !! interaction_key uid i = None) ->
  exists d', insert_interactions uid l d = Ok d'.
Proof.
  intros Hs. revert d. induction Hs as [|i l Hs IH Hi]; intros d Hfresh; cbn [insert_interactions]; [eauto|].
  unfold insert_interaction. rewrite Hfresh by left. cbn [result_bind]. apply IH. intros j Hj. cbn.
  rewrite Forall_forall in Hi. specialize (Hi j Hj). rewrite lookup_insert_ne; [by apply Hfresh; right|].
  unfold interaction_key. intros [= ? ?]. lia.
Qed.

#[local] Instance index_cmp {A} : CmpPreorder (cmp_on (A := Z * A) fst Z.compare).
Proof. apply _. Qed.

(** The interactions of one kind come back in their order. *)
Lemma interactions_read_back uid e l d d' :
  insert_interactions uid l d = Ok d' -> StronglySorted (fun a b => dbi_index a < dbi_index b) l ->
  (forall k v, t_interactions d !! k = Some v -> k.1.1 <> uid) ->
  raw_interactions uid e d' = interaction_columns <$> filter (fun i => dbi_execution i = e) l.
Proof.
  intros Hins Hs Hno. unfold raw_interactions, interactions_of.
  set (stored := (fun i => (dbi_index i, interaction_columns i)) <$> filter (fun i => dbi_execution i = e) l).
  replace (interaction_columns <$> filter (fun i => dbi_execution i = e) l) with (snd <$> stored)
    by (unfold stored; rewrite <-list_fmap_compose; done).
  f_equal.
  assert (Hsf : StronglySorted (fun a b => dbi_index a < dbi_index b) (filter (fun i => dbi_execution i = e) l)).
  { clear -Hs. induction Hs as [|i l Hs IH Hi]; [constructor|]. rewrite filter_cons. case_decide; [|done].
    constructor; [done|]. apply Forall_forall. intros j [_ Hj]%list_elem_of_filter. rewrite Forall_forall in Hi. by apply Hi. }
  assert (Hinj : forall i j, i ∈ filter (fun i => dbi_execution i = e) l -> j ∈ filter (fun i => dbi_execution i = e) l ->
                 dbi_index i = dbi_index j -> i = j).
  { clear -Hsf. induction Hsf as [|x l' Hsf IH Hx]; [intros i j Hi; by apply elem_of_nil in Hi|].
    rewrite Forall_forall in Hx. intros i j [->|Hi]%elem_of_cons [->|Hj]%elem_of_cons E; auto.
    - specialize (Hx j Hj). lia.
    - specialize (Hx i Hi). lia. }
  assert (Hin : forall n c, (n, c) ∈ (fun kv => (kv.1.1.2, kv.2)) <$>
      map_to_list (filter (fun kv => kv.1.1.1 = uid /\ kv.1.2 = e) (t_interactions d')) <-> (n, c) ∈ stored).
  { intros n c. rewrite list_elem_of_fmap. split.
    - intros ([[[u m] e'] v] & E & Hkv%elem_of_map_to_list). injection E as -> ->.
      apply map_lookup_filter_Some in Hkv as [Hkv [Hu He]]. cbn in Hu, He. subst u e'.
      apply (insert_interactions_lookup _ _ _ _ Hins) in Hkv as [Hold|(i & Hi & Hk & <-)]; [by destruct (Hno _ _ Hold)|].
      injection Hk as Hm He. unfold stored. apply list_elem_of_fmap. exists i. rewrite Hm. split; [done|].
      by apply list_elem_of_filter.
    - unfold stored. intros (i & E & [He Hi]%list_elem_of_filter)%list_elem_of_fmap. injection E as -> ->.
      exists (interaction_key uid i, interaction_columns i). split; [done|]. apply elem_of_map_to_list, map_lookup_filter_Some.
      split; [|done]. apply (insert_interactions_lookup _ _ _ _ Hins). eauto. }
  apply (StronglySorted_unique_strong (fun x y => cmp_on fst Z.compare x y <> Gt)).
  - intros [n1 c1] [n2 c2] H1 H2 Hle1 Hle2. unfold cmp_on in Hle1, Hle2. cbn in Hle1, Hle2.
    assert (n1 = n2) as -> by (change (n1 <= n2) in Hle1; change (n2 <= n1) in Hle2; lia).
    rewrite sort_by_perm in H1. apply Hin in H1. unfold stored in H1, H2.
    apply list_elem_of_fmap in H1 as (i & [= -> ->] & Hi), H2 as (j & [= E ->] & Hj). by rewrite (Hinj i j Hi Hj E).
  - apply sort_by_sorted. apply _.
  - unfold stored. clear -Hsf. induction Hsf as [|x l' Hsf IH Hx]; cbn; [constructor|]. constructor; [done|].
    apply Forall_forall. intros y (i & -> & Hi)%list_elem_of_fmap. rewrite Forall_forall in Hx. specialize (Hx i Hi).
    unfold cmp_on. cbn. change (dbi_index x <= dbi_index i). lia.
  - rewrite sort_by_perm. apply NoDup_Permutation.
    + apply NoDup_fmap_2_strong; [|apply NoDup_map_to_list].
      intros [[[u1 n1] e1] v1] [[[u2 n2] e2] v2] H1%elem_of_map_to_list H2%elem_of_map_to_list [= -> ->].
      apply map_lookup_filter_Some in H1 as [_ [Hu1 He1]], H2 as [_ [Hu2 He2]]. cbn in *. by subst.
    + apply NoDup_fmap_2_strong; [intros i j Hi Hj [= E _]; by apply Hinj|]. clear -Hsf.
      induction Hsf as [|x l' Hsf IH Hx]; [constructor|]. constructor; [|done]. rewrite Forall_forall in Hx.
      intros Hin. specialize (Hx x Hin). lia.
    + intros [n c]. apply Hin.
Qed.

Lemma insert_event_form e d : exists x, insert_order_event e d = set_order_events x d.
Proof.
  unfold insert_order_event. destruct (latest_event _ _); [case_bool_decide|]; eauto. exists (t_order_events d). by destruct d.
Qed.

Lemma db_interactions_sorted i : StronglySorted (fun a b => dbi_index a < dbi_index b) (db_interactions i).
Proof.
  unfold db_interactions. generalize (((fun x => (x, ExecPre)) <$> in_pre i) ++ ((fun x => (x, ExecPost)) <$> in_post i)) as l.
  assert (H : forall (l : list (EthInteraction * ExecutionTime)) n,
    StronglySorted (fun a b => dbi_index a < dbi_index b)
      (imap (fun index e => mkDbInteraction (ei_target e.1) (ei_value e.1) (ei_calldata e.1) (Z.of_nat (n + index)) e.2) l)).
  { induction l as [|x l IH]; intros n; cbn; [constructor|]. constructor.
    - unfold compose. erewrite imap_ext; [apply (IH (S n))|]. intros j y _. cbn. do 2 f_equal. lia.
    - apply Forall_forall. intros y (j & z & -> & _)%elem_of_lookup_imap. cbn. lia. }
  intros l. exact (H l 0%nat).
Qed.

(** The interactions of one kind among those stored. *)
Lemma db_interactions_of i e :
  interaction_columns <$> filter (fun x => dbi_execution x = e) (db_interactions i) =
  (fun x => (ei_target x, ei_value x, ei_calldata x)) <$> match e with ExecPre => in_pre i | ExecPost => in_post i end.
Proof.
  unfold db_interactions.
  assert (H : forall (f : nat -> Z) (l : list (EthInteraction * ExecutionTime)),
    interaction_columns <$> filter (fun x => dbi_execution x = e)
      (imap (fun index e => mkDbInteraction (ei_target e.1) (ei_value e.1) (ei_calldata e.1) (f index) e.2) l) =
    (fun x => (ei_target x.1, ei_value x.1, ei_calldata x.1)) <$> filter (fun x => x.2 = e) l).
  { intros f l. revert f. induction l as [|x l IH]; intros f; [done|]. rewrite imap_cons, !filter_cons. cbn [dbi_execution].
    unfold compose. case_decide; cbn; [f_equal|]; apply (IH (fun n => f (S n))). }
  rewrite (H Z.of_nat). rewrite filter_app, fmap_app.
  assert (Hk : forall (l : list EthInteraction) e', filter (fun x : EthInteraction * ExecutionTime => x.2 = e) ((fun x => (x, e')) <$> l) =
                 if decide (e' = e) then (fun x => (x, e')) <$> l else []).
  { induction l as [|x l IH]; intros e'; [by case_decide|]. cbn [fmap list_fmap]. rewrite filter_cons, IH. cbn. by case_decide. }
  rewrite !Hk. destruct e; (case_decide; try done); (case_decide; try done);
    rewrite ?fmap_nil, ?app_nil_r, ?app_nil_l, <-list_fmap_compose; done.
Qed.

(** An order whose columns fit. *)
Record storable (o : ModelOrder) : Prop := {
  sto_sell : fits 256 (od_sell_amount (mo_data o)) = true;
  sto_buy : fits 256 (od_buy_amount (mo_data o)) = true;
  sto_fee : fits 256 (od_fee_amount (mo_data o)) = true;
  sto_valid_to : fits 32 (od_valid_to (mo_data o)) = true;
  sto_nonzero : od_sell_amount (mo_data o) <> 0 /\ od_buy_amount (mo_data o) <> 0;
  sto_signature : signature_wf (mo_signature o);
  sto_interactions : Forall (fun i => fits 256 (ei_value i) = true) (in_pre (mo_interactions o) ++ in_post (mo_interactions o));
}.

(** The database knows nothing of an order yet. *)
Record unknown_order (u : Z) (d : Db) : Prop := {
  un_order : t_orders d !! u = None;
  un_interactions k v : t_interactions d !! k = Some v -> k.1.1 <> u;
  un_quote : t_order_quotes d !! u = None;
  un_trades : trades_of u d = [];
  un_invalidated : invalidated_onchain u d = false;
  un_placed : t_onchain_placed d !! u = None;
  un_ethflow : t_ethflow_orders d !! u = None;
  un_executions : executions_of u d = [];
  un_presignature : latest_presignature u d = None;
}.

Definition app_data_stored (utf8 : string -> bool) (o : ModelOrder) (d : Db) : Prop :=
  match md_full_app_data (mo_metadata o) with
  | Some document => utf8 document = true /\
      (t_app_data d !! od_app_data (mo_data o) = None \/ t_app_data d !! od_app_data (mo_data o) = Some document)
  | None => t_app_data d !! od_app_data (mo_data o) = None
  end.

Definition fresh_status (now : Z) (o : ModelOrder) : OrderStatus :=
  if od_valid_to (mo_data o) <? now then Expired
  else if Scheme_is_presign (OrderSignature_scheme (mo_signature o)) then PresignaturePending else StatusOpen.

Lemma extract_stored (l : list EthInteraction) :
  Forall (fun i => fits 256 (ei_value i) = true) l ->
  extract_interactions ((fun x => (ei_target x, ei_value x, ei_calldata x)) <$> l) = Some l.
Proof.
  intros H. unfold extract_interactions. apply mapM_Some_2, Forall2_fmap_l, Forall_Forall2_diag.
  eapply Forall_impl; [exact H|]. intros [target value data] Hi. cbn in *. unfold to_u256. by rewrite Hi.
Qed.

Section round_trip.
Context (bd_to_f64 : BigDecimal -> option f64) (bd_from_f64 : f64 -> option BigDecimal).
Context (u256_from_f64 : f64 -> comp Z) (utf8 : string -> bool) (jit_order : Z -> option FullOrder).

(** A decimal as its column of floats keeps it, and as it is read from there. *)
Definition column (b : BigDecimal) (x : f64) (b' : BigDecimal) : Prop := bd_to_f64 b = Some x /\ bd_from_f64 x = Some b'.

(** A quote whose columns fit: its numbers convert, to something, and make a fee. *)
Definition quote_storable (q : option OrderQuote) : Prop :=
  match q with
  | None => True
  | Some q =>
      fits 256 (oq_sell_amount q) = true /\ fits 256 (oq_buy_amount q) = true /\
      exists gas gas' price price' token_price token_price' fee_amount,
        column (oq_gas_amount q) gas gas' /\ column (oq_gas_price q) price price' /\
        column (oq_sell_token_price q) token_price token_price' /\
        fee u256_from_f64 (mkFeeParameters gas price token_price) = Ret fee_amount
  end.

(** The quote that is read for a stored one: its fee is computed from the stored numbers, its
    execution plan hidden while the order can still be filled. *)
Definition read_quote (q : option OrderQuote) (status : OrderStatus) (q' : option OrderQuote) : Prop :=
  match q, q' with
  | None, None => True
  | Some q, Some q' =>
      oq_sell_amount q' = oq_sell_amount q /\ oq_buy_amount q' = oq_buy_amount q /\ oq_solver q' = oq_solver q /\
      oq_verified q' = oq_verified q /\
      (oq_metadata q' = match status with StatusOpen | PresignaturePending => "null"%string | _ => oq_metadata q end) /\
      exists gas price token_price,
        column (oq_gas_amount q) gas (oq_gas_amount q') /\ column (oq_gas_price q) price (oq_gas_price q') /\
        column (oq_sell_token_price q) token_price (oq_sell_token_price q') /\
        fee u256_from_f64 (mkFeeParameters gas price token_price) = Ret (oq_fee_amount q')
  | _, _ => False
  end.

(** What storing a new order leaves: its row, its interactions and its quote. *)
Lemma store_new_order now o d :
  unknown_order (md_uid (mo_metadata o)) d -> quote_storable (md_quote (mo_metadata o)) -> app_data_stored utf8 o d ->
  exists events interactions quotes documents,
    store_insert_order bd_to_f64 now o d =
      Ret (Ok (set_app_data documents (set_order_quotes quotes (set_interactions interactions
        (set_orders (<[md_uid (mo_metadata o) := mkOrderRow (db_order_from o) (od_valid_to (mo_data o))]> (t_orders d))
          (set_order_events events d)))))) /\
    (forall e, raw_interactions (md_uid (mo_metadata o)) e (set_interactions interactions d) =
       (fun x => (ei_target x, ei_value x, ei_calldata x)) <$>
         match e with ExecPre => in_pre (mo_interactions o) | ExecPost => in_post (mo_interactions o) end) /\
    (match md_quote (mo_metadata o) with
     | None => quotes !! md_uid (mo_metadata o) = None
     | Some q => exists dq, db_quote_from bd_to_f64 (md_uid (mo_metadata o)) q = Ret dq /\ quotes !! md_uid (mo_metadata o) = Some dq
     end) /\
    documents !! od_app_data (mo_data o) = md_full_app_data (mo_metadata o).
Proof.
  intros Hun Hq Happ. unfold store_insert_order, insert_order_tx, db_insert_order.
  destruct (insert_event_form (mkOrderEvent (md_uid (mo_metadata o)) now EvCreated) d) as (events & ->).
  cbn [t_orders set_order_events db_uid db_order_from]. rewrite (un_order _ _ Hun).
  set (d1 := insert_order_execute_sqlx _ _).
  destruct (insert_interactions_fresh (md_uid (mo_metadata o)) (db_interactions (mo_interactions o)) d1
              (db_interactions_sorted _)) as (d2 & Hd2).
  { intros i _. apply eq_None_not_Some. intros [v Hv]. by apply (un_interactions _ _ Hun) in Hv. }
  rewrite Hd2. destruct (insert_interactions_keeps _ _ _ _ Hd2) as (interactions & ->).
  assert (Hint : forall e, raw_interactions (md_uid (mo_metadata o)) e (set_interactions interactions d) =
       (fun x => (ei_target x, ei_value x, ei_calldata x)) <$>
         match e with ExecPre => in_pre (mo_interactions o) | ExecPost => in_post (mo_interactions o) end).
  { intros e. rewrite <-db_interactions_of. change (raw_interactions (md_uid (mo_metadata o)) e (set_interactions interactions d))
      with (raw_interactions (md_uid (mo_metadata o)) e (set_interactions interactions d1)).
    apply (interactions_read_back _ _ _ d1); [done|apply db_interactions_sorted|]. exact (un_interactions _ _ Hun). }
  assert (Hdoc : forall x, exists documents, insert_order_app_data o (set_order_quotes x (set_interactions interactions d1)) =
            Ok (set_app_data documents (set_order_quotes x (set_interactions interactions d1))) /\
            documents !! od_app_data (mo_data o) = md_full_app_data (mo_metadata o)).
  { intros x. unfold insert_order_app_data, app_data_insert. cbn [t_app_data set_order_quotes set_interactions d1].
    unfold d1, insert_order_execute_sqlx. cbn [t_app_data set_orders set_order_events]. unfold app_data_stored in Happ.
    destruct (md_full_app_data (mo_metadata o)) as [doc|] eqn:Edoc.
    - destruct Happ as [_ [Hn|Hs]]; [rewrite Hn|rewrite Hs, bool_decide_true by done].
      + eexists. split; [done|]. by rewrite lookup_insert_eq.
      + eexists. split; [done|]. done.
    - eexists (t_app_data d). split; [done|done]. }
  destruct (md_quote (mo_metadata o)) as [q|].
  - destruct Hq as (_ & _ & gas & gas' & price & price' & tp & tp' & n & [E1 _] & [E2 _] & [E3 _] & _).
    assert (Hdq : exists dq, db_quote_from bd_to_f64 (md_uid (mo_metadata o)) q = Ret dq /\ dbq_order_uid dq = md_uid (mo_metadata o)).
    { unfold db_quote_from. rewrite E1, E2, E3. cbn. eauto. }
    destruct Hdq as (dq & Hdq & Huid). rewrite Hdq. cbn [comp_bind]. unfold insert_quote.
    cbn [t_order_quotes set_interactions]. unfold d1 at 1. cbn [t_order_quotes insert_order_execute_sqlx set_orders set_order_events].
    rewrite Huid, (un_quote _ _ Hun). cbn [comp_rbind].
    destruct (Hdoc (<[md_uid (mo_metadata o) := dq]> (t_order_quotes d))) as (documents & Hx & Hl).
    exists events, interactions, (<[md_uid (mo_metadata o) := dq]> (t_order_quotes d)), documents.
    split; [apply f_equal; exact Hx|]. split; [done|]. split; [|done]. exists dq. split; [done|]. by rewrite lookup_insert_eq.
  - cbn [comp_rbind]. destruct (Hdoc (t_order_quotes d)) as (documents & Hx & Hl).
    exists events, interactions, (t_order_quotes d), documents. split; [apply f_equal; exact Hx|]. split; [done|].
    split; [apply (un_quote _ _ Hun)|done].
Qed.

(** The quote of a stored order is converted back. *)
Lemma quote_read_back q dq status uid :
  quote_storable (Some q) -> db_quote_from bd_to_f64 uid q = Ret dq ->
  exists q', order_quote_into_model bd_from_f64 u256_from_f64 dq status = Ret (Some q') /\ read_quote (Some q) status (Some q').
Proof.
  intros (Hs & Hb & gas & gas' & price & price' & tp & tp' & n & [E1 F1] & [E2 F2] & [E3 F3] & Hfee). unfold db_quote_from.
  rewrite E1, E2, E3. cbn. intros [= <-]. unfold order_quote_into_model. cbn. rewrite Hfee. cbn. rewrite F1, F2, F3. unfold to_u256.
  rewrite Hs, Hb. eexists. split; [done|]. cbn. do 5 (split; [done|]). exists gas, price, tp. unfold column. auto.
Qed.

(** The full row of a stored order. *)
Lemma stored_full_order o d documents quotes interactions events :
  unknown_order (md_uid (mo_metadata o)) d ->
  let d' := set_app_data documents (set_order_quotes quotes (set_interactions interactions
              (set_orders (<[md_uid (mo_metadata o) := mkOrderRow (db_order_from o) (od_valid_to (mo_data o))]> (t_orders d))
                (set_order_events events d)))) in
  single_full_order_with_quote (md_uid (mo_metadata o)) d' =
    Some (mkFullOrder (db_order_from o) 0 0 0 false (Scheme_is_presign (OrderSignature_scheme (mo_signature o)))
            (raw_interactions (md_uid (mo_metadata o)) ExecPre (set_interactions interactions d))
            (raw_interactions (md_uid (mo_metadata o)) ExecPost (set_interactions interactions d))
            None None None 0 (od_sell_token (mo_data o)) (documents !! od_app_data (mo_data o)),
          quotes !! md_uid (mo_metadata o)).
Proof.
  intros Hun d'. unfold single_full_order_with_quote. cbn [t_orders t_order_quotes d' set_app_data set_order_quotes set_interactions
    set_orders]. rewrite lookup_insert_eq. cbn [fmap option_fmap option_map or_order]. do 2 f_equal. unfold full_order.
  cbn [db_uid db_order_from db_cancellation_timestamp db_sell_token db_app_data].
  unfold sum_of, presignature_pending. cbn [db_uid db_order_from db_signing_scheme].
  change (trades_of (md_uid (mo_metadata o)) d') with (trades_of (md_uid (mo_metadata o)) d).
  change (executions_of (md_uid (mo_metadata o)) d') with (executions_of (md_uid (mo_metadata o)) d).
  change (invalidated_onchain (md_uid (mo_metadata o)) d') with (invalidated_onchain (md_uid (mo_metadata o)) d).
  change (latest_presignature (md_uid (mo_metadata o)) d') with (latest_presignature (md_uid (mo_metadata o)) d).
  change (t_onchain_placed d') with (t_onchain_placed d). change (t_ethflow_orders d') with (t_ethflow_orders d).
  rewrite (un_trades _ _ Hun), (un_executions _ _ Hun), (un_invalidated _ _ Hun), (un_presignature _ _ Hun), (un_placed _ _ Hun),
    (un_ethflow _ _ Hun). cbn. by rewrite andb_true_r.
Qed.

(** C30 (roundtrip): a stored order is the order.  Storing an order the database does not know
    yet and whose columns fit succeeds, and reading it back returns the same data, signature
    of any scheme, owner, class and interactions in their order, before and after the trade,
    with its full app data, nothing executed, and the status its validity and signature give
    it.  Its quote comes back with the same amounts, solver and verification, without its
    execution plan while the order can be filled; its gas, gas price and token price are what
    the columns of floats keep of the decimals, and its fee is the one these numbers make:
    what was added to the quote's fee for the verification of a signature is not stored. *)
Theorem stored_order_round_trip now now' o d :
  storable o -> unknown_order (md_uid (mo_metadata o)) d -> quote_storable (md_quote (mo_metadata o)) -> app_data_stored utf8 o d ->
  exists d' o', store_insert_order bd_to_f64 now o d = Ret (Ok d') /\
    single_order bd_from_f64 u256_from_f64 utf8 jit_order now' (md_uid (mo_metadata o)) d' = Ret (Some (Some o')) /\
    mo_data o' = mo_data o /\ mo_signature o' = mo_signature o /\ mo_interactions o' = mo_interactions o /\
    md_owner (mo_metadata o') = md_owner (mo_metadata o) /\ md_uid (mo_metadata o') = md_uid (mo_metadata o) /\
    md_class (mo_metadata o') = md_class (mo_metadata o) /\ md_creation_date (mo_metadata o') = md_creation_date (mo_metadata o) /\
    md_full_app_data (mo_metadata o') = md_full_app_data (mo_metadata o) /\
    md_executed_sell_amount (mo_metadata o') = 0 /\ md_executed_buy_amount (mo_metadata o') = 0 /\
    md_status (mo_metadata o') = fresh_status now' o /\
    read_quote (md_quote (mo_metadata o)) (fresh_status now' o) (md_quote (mo_metadata o')).
Proof.
  intros Hst Hun Hq Happ.
  destruct (store_new_order now o d Hun Hq Happ) as (events & interactions & quotes & documents & Hins & Hint & Hquote & Hdoc).
  eexists. pose proof (stored_full_order o d documents quotes interactions events Hun) as Hfull. cbv zeta in Hfull.
  rewrite Hint in Hfull. rewrite Hint, Hdoc in Hfull.
  unfold single_order. rewrite Hfull. unfold full_order_with_quote_into_model_order.
  set (f := mkFullOrder _ _ _ _ _ _ _ _ _ _ _ _ _ _).
  assert (Hstatus : calculate_status now' f = fresh_status now' o).
  { unfold calculate_status, fresh_status, f. cbn. destruct (sto_nonzero _ Hst). by destruct (od_kind (mo_data o)). }
  assert (Hconv : exists q', match quotes !! md_uid (mo_metadata o) with
              | Some q => let! q := order_quote_into_model bd_from_f64 u256_from_f64 q (calculate_status now' f) in Ret (Some <$> q)
              | None => Ret (Some None) end = Ret (Some q') /\
              read_quote (md_quote (mo_metadata o)) (calculate_status now' f) q').
  { destruct (md_quote (mo_metadata o)) as [q|].
    - destruct Hquote as (dq & Hdq & ->). destruct (quote_read_back q dq (calculate_status now' f) _ Hq Hdq) as (q' & -> & Hsame).
      by exists (Some q').
    - rewrite Hquote. by exists None. }
  destruct Hconv as (q' & Hconv & Hsame). rewrite Hconv. cbn [comp_bind]. rewrite Hstatus. rewrite Hstatus in Hsame.
  unfold model_order_from, f. cbn [fo_order fo_sum_sell fo_sum_buy fo_sum_fee fo_invalidated fo_pre_interactions
    fo_post_interactions fo_ethflow_data fo_onchain_user fo_onchain_placement_error fo_executed_fee fo_executed_fee_token
    fo_full_app_data fo_presignature_pending].
  destruct (proj1 (Forall_app _ _ _) (sto_interactions _ Hst)) as [Hpre Hpost]. rewrite !extract_stored by done.
  cbn [to_big_uint to_u256 fits Z.leb Z.ltb Z.sub].
  assert (Hd : match md_full_app_data (mo_metadata o) with None => Some None | Some s => if utf8 s then Some (Some s) else None end
               = Some (md_full_app_data (mo_metadata o))).
  { unfold app_data_stored in Happ. destruct (md_full_app_data (mo_metadata o)); [|done]. by destruct Happ as [-> _]. }
  rewrite Hd. cbn [db_sell_amount db_buy_amount db_valid_to db_fee_amount db_signing_scheme db_signature db_order_from].
  unfold to_u256. rewrite (sto_sell _ Hst), (sto_buy _ Hst), (sto_valid_to _ Hst), (sto_fee _ Hst), (OrderSignature_round_trip _ (sto_signature _ Hst)).
  eexists. split; [exact Hins|]. split; [reflexivity|]. cbn. destruct (mo_data o) eqn:Ed. destruct (mo_interactions o).
  cbn. auto 20.
Qed.
End round_trip.

(** ** Example: a signed order with interactions and a quote *)
Definition sample_stored_order : ModelOrder :=
  mkModelOrder
    (mkOrderMetadata 5 7 1 0 0 0 0 0 0 false StatusOpen ClassLimit 9 None None None false (Some "{}")
       (Some (mkOrderQuote (mkBigDecimal 100 0) (mkBigDecimal 2 0) (mkBigDecimal 4 0) 100 90 50 4 true "plan")))
    (mkOrderData 11 12 None 100 90 500 33 0 Sell false SellErc20 BuyErc20) (SigEip712 (mkEcdsa 3 4 28))
    (mkInteractions [mkEthInteraction 1 0 [1]; mkEthInteraction 2 3 [2]] [mkEthInteraction 4 0 []]).
Definition empty_db : Db := mkDb ∅ ∅ ∅ ∅ ∅ ∅ ∅ ∅ ∅ ∅ ∅ ∅ [] [].

(** Conversions of integers, instances of the library's. *)
Definition integer_to_f64 (b : BigDecimal) : option f64 := if bd_exp b =? 0 then Some (f64_lit (bd_int b)) else None.
Definition integer_from_f64 (x : f64) : option BigDecimal := Some (mkBigDecimal (f64_trunc x) 0).
Definition integer_u256 (x : f64) : comp Z := Ret (f64_trunc x).

Lemma sample_storable : storable sample_stored_order.
Proof.
  split; [reflexivity|reflexivity|reflexivity|reflexivity|split; discriminate|split; [split; done|split; [split; done|by right]]|].
  apply Forall_cons; split; [reflexivity|]. apply Forall_cons; split; [reflexivity|].
  apply Forall_cons; split; [reflexivity|apply Forall_nil_2].
Qed.

Lemma stored_order_round_trip_witness :
  exists d' o',
    store_insert_order integer_to_f64 6 sample_stored_order empty_db = Ret (Ok d') /\
    single_order integer_from_f64 integer_u256 (fun _ => true) (fun _ => None) 100 1 d' = Ret (Some (Some o')) /\
    mo_interactions o' = mo_interactions sample_stored_order /\ mo_signature o' = SigEip712 (mkEcdsa 3 4 28) /\
    md_status (mo_metadata o') = StatusOpen /\
    read_quote integer_to_f64 integer_from_f64 integer_u256 (md_quote (mo_metadata sample_stored_order)) StatusOpen
      (md_quote (mo_metadata o')).
Proof.
  destruct (stored_order_round_trip integer_to_f64 integer_from_f64 integer_u256
    (fun _ => true) (fun _ => None) 6 100 sample_stored_order empty_db)
    as (d' & o' & H1 & H2 & _ & Hs & H3 & _ & _ & _ & _ & _ & _ & _ & H4 & H5).
  - exact sample_storable.
  - split; try (vm_compute; reflexivity). intros k v Hk. cbn in Hk. by rewrite lookup_empty in Hk.
  - split; [reflexivity|]. split; [reflexivity|].
    exists (f64_lit 100), (mkBigDecimal 100 0), (f64_lit 2), (mkBigDecimal 2 0), (f64_lit 4), (mkBigDecimal 4 0), 50.
    split; [split; vm_compute; reflexivity|]. split; [split; vm_compute; reflexivity|].
    split; [split; vm_compute; reflexivity|]. vm_compute. reflexivity.
  - split; [reflexivity|]. left. reflexivity.
  - exists d', o'. split; [exact H1|]. split; [exact H2|]. split; [exact H3|]. split; [exact Hs|]. split; [exact H4|]. exact H5.
Defined.

(** The fee that is read for the example's quote is the one of its numbers: 100 units of gas at
    a price of 2, in a token worth 4. *)
Example sample_quote_read :
  exists d' o', store_insert_order integer_to_f64 6 sample_stored_order empty_db = Ret (Ok d') /\
    single_order integer_from_f64 integer_u256 (fun _ => true) (fun _ => None) 100 1 d' = Ret (Some (Some o')) /\
    md_quote (mo_metadata o') =
      Some (mkOrderQuote (mkBigDecimal 100 0) (mkBigDecimal 2 0) (mkBigDecimal 4 0) 100 90 50 4 true "null").
Proof. do 2 eexists. split; [vm_compute; reflexivity|]. split; vm_compute; reflexivity. Qed.
