(* ===== verification/Orderbook.v ===== *)
(** * Orderbook: creating, replacing and cancelling orders

    [crates/orderbook/src/orderbook.rs]: adding orders, with the replacement of the order
    their app data names, cancelling them with a signature, and the status of an order.

    The validator is the class [OrderValidating], as the code has it as a trait; the one of
    [OrderValidation.v] is an instance.  The registry of app data is the one of [AppData.v]
    over the same table; competitions are read through parameters.  Metrics are left out. *)

From stdpp Require Import base gmap sets list strings.
From Stdlib Require Import ZArith Lia.
From S2P Require Import Prelude Collections F64 Eth Liquidity Solution Dto Score DriverOrder.
From S2P Require Import OrderModel AppData OrderCreation OrderQuoting OrderValidation OrdersDb OrderStoring.

Open Scope Z_scope.

(** ** Validation, as the order book uses it *)
Class OrderValidating (store : Type) := {
  ov_validate_and_construct_order :
    Z -> OrderCreation -> Z -> address -> option string -> store ->
    comp (result ValidationError (ModelOrder * option Quote) * store);
  ov_validate_app_data : OrderCreationAppData -> option string -> result AppDataValidationError OrderAppData;
  ov_partial_validate : Z -> PreOrderData -> result PartialValidationError unit;
}.

(** What the order book relies on: an accepted order carries the submitted data and
    signature, and its owner signed it, unless the chain checks the signature. *)
Class OrderValidatingLaws (keccak256 : list Z -> Z) (ecrecover : list Z -> Z -> option address) (store : Type)
  `{!OrderValidating store} : Prop := {
  ov_accepted now payload domain settlement override t order quote t' :
    ov_validate_and_construct_order now payload domain settlement override t = Ret (Ok (order, quote), t') ->
    mo_data order = OrderCreation_data keccak256 payload /\ mo_signature order = oc_signature payload /\
    md_uid (mo_metadata order) = uid keccak256 (mo_data order) domain (md_owner (mo_metadata order)) /\
    exists signer, owner_justified keccak256 ecrecover payload domain signer (md_owner (mo_metadata order));
}.

(** ** Errors *)
Inductive OrderCancellationError :=
| CanInvalidSignature | CanWrongOwner | CanOrderNotFound | CanAlreadyCancelled | CanOrderFullyExecuted
| CanOrderExpired | CanOnChainOrder | CanOther.

Inductive OrderReplacementError := RepInvalidSignature | RepWrongOwner | RepOldOrderActivelyBidOn | RepOther.

Inductive AddOrderError :=
| AddOrderNotFound (e : OrderCancellationError)
| AddDuplicatedOrder
| AddOrderValidation (e : ValidationError)
| AddDatabase
| AddInvalidAppData (e : AppDataError)
| AddInvalidReplacement (e : OrderReplacementError)
| AddAppDataMismatch (contract_app_data : Z) (provided existing : string)
| AddMetadataSerializationFailed.

Section orderbook.
Context (keccak256 : list Z -> Z) (ecrecover : list Z -> Z -> option address).
Context (utf8 : string -> bool) (from_slice : string -> option Root) (from_utf8_lossy : string -> string).
Context (bd_to_f64 : BigDecimal -> option f64) (bd_from_f64 : f64 -> option BigDecimal).
Context (u256_from_f64 : f64 -> comp Z) (jit_order : Z -> option FullOrder).
Context (ipfs : option (Z -> result unit (option string))).

(** The mismatch can only be reported when full app data was given. *)
Definition from_insertion (e : InsertionError) (order : ModelOrder) : comp AddOrderError :=
  match e with
  | InsDuplicatedRecord => Ret AddDuplicatedOrder
  | InsDbError => Ret AddDatabase
  | InsAppDataMismatch existing =>
      let! provided := expect (md_full_app_data (mo_metadata order)) in
      Ret (AddAppDataMismatch (od_app_data (mo_data order)) provided (from_utf8_lossy existing))
  | InsMetadataSerializationFailed => Ret AddMetadataSerializationFailed
  end.

Record OrderbookConfig := mkOrderbookConfig {
  ob_domain_separator : Z;
  ob_settlement_contract : address;
  ob_active_order_competition_threshold : Z;
}.

(** [find_order_for_cancellation]: only open orders with an off-chain signature. *)
Definition cancellable (order : ModelOrder) : result OrderCancellationError ModelOrder :=
  match md_status (mo_metadata order) with
  | PresignaturePending => Err CanOnChainOrder
  | StatusOpen => if is_ecdsa_scheme (OrderSignature_scheme (mo_signature order)) then Ok order else Err CanOnChainOrder
  | Fulfilled => Err CanOrderFullyExecuted
  | StatusCancelled => Err CanAlreadyCancelled
  | Expired => Err CanOrderExpired
  end.

Definition find_order_for_cancellation (now order_uid : Z) (d : Db) : comp (result OrderCancellationError ModelOrder) :=
  let! found := single_order bd_from_f64 u256_from_f64 utf8 jit_order now order_uid d in
  Ret match found with
      | None => Err CanOther
      | Some None => Err CanOrderNotFound
      | Some (Some order) => cancellable order
      end.

Fixpoint find_orders_for_cancellation (now : Z) (order_uids : list Z) (d : Db)
  : comp (result OrderCancellationError (list ModelOrder)) :=
  match order_uids with
  | [] => Ret (Ok [])
  | order_uid :: order_uids =>
      let!r order := find_order_for_cancellation now order_uid d in
      let!r orders := find_orders_for_cancellation now order_uids d in
      Ret (Ok (order :: orders))
  end.

Definition cancel_orders (cfg : OrderbookConfig) (now : Z) (c : SignedOrderCancellations) (d : Db)
  : comp (result OrderCancellationError unit * Db) :=
  let! orders := find_orders_for_cancellation now (soc_order_uids c) d in
  match orders with
  | Err e => Ret (Err e, d)
  | Ok orders =>
      match SignedOrderCancellations_validate keccak256 ecrecover c (ob_domain_separator cfg) with
      | None => Ret (Err CanInvalidSignature, d)
      | Some signer =>
          if existsb (fun order => negb (signer =? md_owner (mo_metadata order))) orders then Ret (Err CanWrongOwner, d)
          else Ret (Ok tt, store_cancel_orders (soc_order_uids c) now d)
      end
  end.

Definition cancel_order (cfg : OrderbookConfig) (now : Z) (c : OrderCancellation) (d : Db)
  : comp (result OrderCancellationError unit * Db) :=
  let! order := find_order_for_cancellation now (can_order_uid c) d in
  match order with
  | Err e => Ret (Err e, d)
  | Ok order =>
      match OrderCancellation_validate keccak256 ecrecover c (ob_domain_separator cfg) with
      | None => Ret (Err CanInvalidSignature, d)
      | Some signer =>
          if negb (signer =? md_owner (mo_metadata order)) then Ret (Err CanWrongOwner, d)
          else Ret (Ok tt, store_cancel_order (md_uid (mo_metadata order)) now d)
      end
  end.

(** ** Replacing orders *)

(** The order the app data names, when there is app data and it names one. *)
Definition get_replaced_order (now : Z) (new_order : OrderCreation) (app_data_override : option string) (d : Db)
  : comp (result AddOrderError (option ModelOrder)) :=
  let full_app_data := match oc_app_data new_order with
                       | AppHash _ => app_data_override
                       | AppBoth full _ | AppFull full => Some full
                       end in
  match full_app_data with
  | None => Ret (Ok None)
  | Some full_app_data =>
      match AppData.validate keccak256 utf8 from_slice (2 ^ 64 - 1) full_app_data with
      | Err e => Ret (Err (AddInvalidAppData e))
      | Ok validated_app_data =>
          match pad_replaced_order (va_protocol validated_app_data) with
          | None => Ret (Ok None)
          | Some replaced_order =>
              let! found := find_order_for_cancellation now replaced_order d in
              Ret match found with Ok order => Ok (Some order) | Err e => Err (AddOrderNotFound e) end
          end
      end
  end.

(** The orders of the solutions of the latest competitions. *)
Inductive CompetitionOrder := Colocated (id sell_amount buy_amount : Z) | Legacy (id executed_amount : Z).
Definition CompetitionOrder_id (o : CompetitionOrder) : Z := match o with Colocated id _ _ => id | Legacy id _ => id end.
Record CompetitionSolution := mkCompetitionSolution { cso_solver : string; cso_orders : list CompetitionOrder }.

Context (load_latest_competitions : Z -> result string (list (list CompetitionSolution))).

Definition order_is_actively_bid_on (cfg : OrderbookConfig) (order_uid : Z) : result AddOrderError bool :=
  match load_latest_competitions (ob_active_order_competition_threshold cfg) with
  | Err _ => Err AddDatabase
  | Ok latest_competitions =>
      Ok (existsb (fun o => CompetitionOrder_id o =? order_uid) (latest_competitions ≫= (fun c => c ≫= cso_orders)))
  end.

Definition replace_order (cfg : OrderbookConfig) (now : Z) (validated_new_order old_order : ModelOrder) (d : Db)
  : comp (result AddOrderError unit * Db) :=
  match try_to_ecdsa_scheme (OrderSignature_scheme (mo_signature validated_new_order)) with
  | None => Ret (Err (AddInvalidReplacement RepInvalidSignature), d)
  | Some _ =>
      if negb (md_owner (mo_metadata validated_new_order) =? md_owner (mo_metadata old_order)) then
        Ret (Err (AddInvalidReplacement RepWrongOwner), d)
      else match order_is_actively_bid_on cfg (md_uid (mo_metadata old_order)) with
           | Err e => Ret (Err e, d)
           | Ok true => Ret (Err (AddInvalidReplacement RepOldOrderActivelyBidOn), d)
           | Ok false =>
               let! stored := store_replace_order bd_to_f64 now (md_uid (mo_metadata old_order)) validated_new_order d in
               match stored with
               | Ok d' => Ret (Ok tt, d')
               | Err e => let! e := from_insertion e validated_new_order in Ret (Err e, d)
               end
           end
  end.

Context {store : Type} `{!OrderValidating store}.

(** [add_order]: the store is the one of the validator's quotes. *)
Definition add_order (cfg : OrderbookConfig) (now : Z) (payload : OrderCreation) (d : Db) (t : store)
  : comp (result AddOrderError (Z * option (option Z * address)) * Db * store) :=
  let override := match oc_app_data payload with
                  | AppHash hash => registry_find utf8 ipfs hash (t_app_data d)
                  | _ => Ok None
                  end in
  match override with
  | Err _ => Ret (Err AddDatabase, d, t)
  | Ok override =>
      let! replaced := get_replaced_order now payload override d in
      match replaced with
      | Err e => Ret (Err e, d, t)
      | Ok replaced_order =>
          let! answer := ov_validate_and_construct_order now payload (ob_domain_separator cfg)
                           (ob_settlement_contract cfg) override t in
          let '(validated, t) := answer in
          match validated with
          | Err e => Ret (Err (AddOrderValidation e), d, t)
          | Ok (order, quote) =>
              let! stored :=
                match replaced_order with
                | Some old_order => replace_order cfg now order old_order d
                | None =>
                    let! inserted := store_insert_order bd_to_f64 now order d in
                    match inserted with
                    | Ok d' => Ret (Ok tt, d')
                    | Err e => let! e := from_insertion e order in Ret (Err e, d)
                    end
                end in
              match stored with
              | (Err e, d) => Ret (Err e, d, t)
              | (Ok _, d) => Ret (Ok (md_uid (mo_metadata order), (fun q => (q_id q, qd_solver (q_data q))) <$> quote), d, t)
              end
          end
      end
  end.

(** ** The status of an order *)
Record SolutionInclusion := mkSolutionInclusion { si_solver : string; si_executed_amounts : option (Z * Z) }.
Inductive StatusDto :=
| DtoOpen | DtoScheduled | DtoActive | DtoSolved (l : list SolutionInclusion) | DtoExecuting (l : list SolutionInclusion)
| DtoTraded (l : list SolutionInclusion) | DtoCancelled.
Inductive OrderStatusError := StatusNotFound | StatusOther.

Definition solutions_of (uid : Z) (competition : list CompetitionSolution) : list SolutionInclusion :=
  (fun s => mkSolutionInclusion (cso_solver s)
     (head (omap (fun o => match o with
                           | Legacy _ _ => None
                           | Colocated id sell buy => if id =? uid then Some (sell, buy) else None
                           end) (cso_orders s)))) <$> competition.

Context (load_latest_competition : result OrderStatusError (list CompetitionSolution)).
Context (load_competition : Z -> result OrderStatusError (list CompetitionSolution)).
Context (trades : Z -> result string (list (option Z))).

(** The transaction hashes of the order's trades come first. *)
Definition get_order_status (uid : Z) (d : Db) : result OrderStatusError StatusDto :=
  let latest (status : list SolutionInclusion -> StatusDto) :=
    letr competition := load_latest_competition in Ok (status (solutions_of uid competition)) in
  match trades uid with
  | Err _ => Err StatusOther
  | Ok (Some tx_hash :: _) => letr competition := load_competition tx_hash in Ok (DtoTraded (solutions_of uid competition))
  | Ok (None :: _) => latest DtoTraded
  | Ok [] =>
      letr event := ok_or (latest_order_event uid d) StatusNotFound in
      match oe_label event with
      | EvReady => Ok DtoActive
      | EvCreated => Ok DtoScheduled
      | EvConsidered => latest DtoSolved
      | EvExecuting => latest DtoExecuting
      | EvTraded => latest DtoTraded
      | EvCancelled => Ok DtoCancelled
      | EvFiltered | EvInvalid => Ok DtoOpen
      end
  end.
End orderbook.

(** ** Who may cancel an order *)
Inductive Request :=
| ReqCancel (c : OrderCancellation)
| ReqCancelMany (c : SignedOrderCancellations)
| ReqAdd (payload : OrderCreation).

(** A signature keeps the scheme it is read with. *)
Lemma from_bytes_scheme scheme bytes s : OrderSignature_from_bytes scheme bytes = Some s -> OrderSignature_scheme s = scheme.
Proof. destruct scheme; cbn; repeat case_match; try done; by intros [= <-]. Qed.

Lemma model_order_from_fields utf8 f status quote o :
  model_order_from utf8 f status quote = Some o ->
  md_owner (mo_metadata o) = db_owner (fo_order f) /\ md_uid (mo_metadata o) = db_uid (fo_order f) /\
  md_status (mo_metadata o) = status /\ OrderSignature_scheme (mo_signature o) = db_signing_scheme (fo_order f).
Proof.
  unfold model_order_from. intros H. repeat (case_match; [|discriminate H]). injection H as <-. cbn.
  split; [done|]. split; [done|]. split; [done|]. by eapply from_bytes_scheme.
Qed.

Section authorisation.
Context (keccak256 : list Z -> Z) (ecrecover : list Z -> Z -> option address).
Context (utf8 : string -> bool) (from_slice : string -> option Root) (from_utf8_lossy : string -> string).
Context (bd_to_f64 : BigDecimal -> option f64) (bd_from_f64 : f64 -> option BigDecimal).
Context (u256_from_f64 : f64 -> comp Z) (jit_order : Z -> option FullOrder).
Context (ipfs : option (Z -> result unit (option string))).
Context (load_latest_competitions : Z -> result string (list (list CompetitionSolution))).
Context {store : Type} `{!OrderValidating store} `{!OrderValidatingLaws keccak256 ecrecover store}.
Context (cfg : OrderbookConfig).
Context (jit_order_key : forall u f, jit_order u = Some f -> db_uid (fo_order f) = u).

Abbreviation find_order_for_cancellation := (find_order_for_cancellation utf8 bd_from_f64 u256_from_f64 jit_order).

(** The handlers on the database and the store of quotes. *)
Definition handle (now : Z) (r : Request) (d : Db) (t : store) : comp (Db * store) :=
  match r with
  | ReqCancel c =>
      let! answer := cancel_order keccak256 ecrecover utf8 bd_from_f64 u256_from_f64 jit_order cfg now c d in Ret (answer.2, t)
  | ReqCancelMany c =>
      let! answer := cancel_orders keccak256 ecrecover utf8 bd_from_f64 u256_from_f64 jit_order cfg now c d in Ret (answer.2, t)
  | ReqAdd payload =>
      let! answer := add_order keccak256 utf8 from_slice from_utf8_lossy bd_to_f64 bd_from_f64 u256_from_f64 jit_order ipfs
                       load_latest_competitions cfg now payload d t in Ret (answer.1.2, answer.2)
  end.

Definition newly_cancelled (u : Z) (d d' : Db) : Prop :=
  (exists r, t_orders d !! u = Some r /\ db_cancellation_timestamp (or_order r) = None) /\
  exists r', t_orders d' !! u = Some r' /\ is_Some (db_cancellation_timestamp (or_order r')).

(** The app data a submitted order comes with names an order to replace. *)
Definition names_replaced (payload : OrderCreation) (override : option string) (u : Z) : Prop :=
  exists document protocol,
    match oc_app_data payload with AppHash _ => override | AppBoth full _ | AppFull full => Some full end = Some document /\
    parse from_slice document = Some protocol /\ pad_replaced_order protocol = Some u.

(** What justifies the cancellation of an order of the given owner. *)
Definition authorised (r : Request) (owner : address) (u : Z) : Prop :=
  match r with
  | ReqCancel c =>
      can_order_uid c = u /\ OrderCancellation_validate keccak256 ecrecover c (ob_domain_separator cfg) = Some owner
  | ReqCancelMany c =>
      u ∈ soc_order_uids c /\ SignedOrderCancellations_validate keccak256 ecrecover c (ob_domain_separator cfg) = Some owner
  | ReqAdd payload =>
      recover keccak256 ecrecover (oc_signature payload) (ob_domain_separator cfg)
        (hash_struct keccak256 (OrderCreation_data keccak256 payload)) = Some (Some owner) /\
      (exists override, names_replaced payload override u) /\
      order_is_actively_bid_on load_latest_competitions cfg u = Ok false
  end.

(** An order found for cancellation is the row's, open, and signed off-chain. *)
Definition open_offchain (now : Z) (d : Db) (r : OrderRow) : Prop :=
  calculate_status now (full_order d (or_order r)) = StatusOpen /\ is_ecdsa_scheme (db_signing_scheme (or_order r)) = true.

Lemma found_order now u d r o :
  t_orders d !! u = Some r -> find_order_for_cancellation now u d = Ret (Ok o) ->
  md_owner (mo_metadata o) = db_owner (or_order r) /\ md_uid (mo_metadata o) = db_uid (or_order r) /\ open_offchain now d r.
Proof.
  intros Hr. unfold Orderbook.find_order_for_cancellation, single_order, single_full_order_with_quote. rewrite Hr. cbn.
  unfold full_order_with_quote_into_model_order. rewrite !comp_bind_Ret.
  intros (found & (q & (q' & Hq & Hm)%comp_bind_Ret & Hf)%comp_bind_Ret & H).
  injection Hm as <-. injection Hf as <-. injection H as H. destruct q' as [q'|]; [|done]. cbn in H.
  destruct (model_order_from utf8 (full_order d (or_order r)) _ q') as [m|] eqn:Em; [|done]. cbn in H.
  destruct (model_order_from_fields _ _ _ _ _ Em) as (Ho & Hu & Hs & Hsch). unfold cancellable in H. rewrite Hs, Hsch in H.
  destruct (calculate_status now (full_order d (or_order r))) eqn:Hst; try done. cbn in *.
  destruct (is_ecdsa_scheme _) eqn:He; [|done]. injection H as <-. done.
Qed.

Lemma found_uid now u d o :
  (forall k row, t_orders d !! k = Some row -> db_uid (or_order row) = k) ->
  find_order_for_cancellation now u d = Ret (Ok o) -> md_uid (mo_metadata o) = u.
Proof.
  intros Hkey H. destruct (t_orders d !! u) as [r|] eqn:Hr.
  { destruct (found_order now u d r o Hr H) as (_ & -> & _). by apply Hkey. }
  revert H. unfold Orderbook.find_order_for_cancellation, single_order, single_full_order_with_quote. rewrite Hr. cbn.
  destruct (jit_order u) as [f|] eqn:Hj; [|done]. unfold ob_full_order_into_model_order, full_order_with_quote_into_model_order.
  cbn. destruct (model_order_from utf8 f _ None) as [m|] eqn:Em; cbn; [|done].
  destruct (model_order_from_fields _ _ _ _ _ Em) as (_ & Hm & _). unfold cancellable. repeat case_match; try done.
  intros [= <-]. rewrite Hm. by apply jit_order_key.
Qed.

Lemma found_orders now us d os :
  find_orders_for_cancellation utf8 bd_from_f64 u256_from_f64 jit_order now us d = Ret (Ok os) ->
  Forall2 (fun u o => find_order_for_cancellation now u d = Ret (Ok o)) us os.
Proof.
  revert os. induction us as [|u us IH]; intros os; cbn [find_orders_for_cancellation].
  { intros [= <-]. constructor. }
  destruct (Orderbook.find_order_for_cancellation _ _ _ _ now u d) as [[o|]|] eqn:Ho; cbn; [|done..].
  destruct (find_orders_for_cancellation _ _ _ _ now us d) as [[os'|]|] eqn:Hos; cbn; [|done..].
  intros [= <-]. constructor; [done|by apply IH].
Qed.

Lemma not_cancelled_twice u d d' : t_orders d' !! u = t_orders d !! u -> ~ newly_cancelled u d d'.
Proof. intros E [(r & Hr & Hn) (r' & Hr' & [c Hc])]. congruence. Qed.

Lemma newly_cancelled_insert u v row d (m : gmap Z OrderRow) :
  t_orders d !! v = None -> is_Some (t_orders d !! u) -> (<[v := row]> m) !! u = m !! u.
Proof. intros Hv [r Hu]. apply lookup_insert_ne. congruence. Qed.

(** A replacement is authorised by the new order's signature. *)
Lemma replaced_authorised now payload override order old d d' t quote t' u r :
  (forall k row, t_orders d !! k = Some row -> db_uid (or_order row) = k) ->
  get_replaced_order keccak256 utf8 from_slice bd_from_f64 u256_from_f64 jit_order now payload override d = Ret (Ok (Some old)) ->
  ov_validate_and_construct_order now payload (ob_domain_separator cfg) (ob_settlement_contract cfg) override t
    = Ret (Ok (order, quote), t') ->
  replace_order from_utf8_lossy bd_to_f64 load_latest_competitions cfg now order old d = Ret (Ok tt, d') ->
  newly_cancelled u d d' -> t_orders d !! u = Some r ->
  authorised (ReqAdd payload) (db_owner (or_order r)) u /\ open_offchain now d r.
Proof.
  intros Hkey Hrep Hval Hdo Hnew Hr. destruct (ov_accepted _ _ _ _ _ _ _ _ _ Hval) as (Hdata & Hsig & _ & signer & Hjust).
  unfold replace_order in Hdo. rewrite Hsig in Hdo.
  destruct (try_to_ecdsa_scheme _) eqn:Hscheme; [|done].
  destruct (Z.eqb_spec (md_owner (mo_metadata order)) (md_owner (mo_metadata old))) as [Hown|]; [|done]. cbn [negb] in Hdo.
  destruct (order_is_actively_bid_on _ _ _) as [[]|] eqn:Hbid; [done| |done].
  apply comp_bind_Ret in Hdo as ([d1|e] & Hst & Hdo); [|apply comp_bind_Ret in Hdo as (? & _ & ?); done]. injection Hdo as <-.
  apply store_replace_order_orders in Hst as (Hno & Horders & _).
  assert (Hu : u = md_uid (mo_metadata old)).
  { destruct (decide (u = md_uid (mo_metadata old))) as [|Hne]; [done|]. exfalso.
    eapply not_cancelled_twice; [|exact Hnew]. rewrite Horders, (newly_cancelled_insert u _ _ d) by eauto.
    by rewrite lookup_alter_ne. }
  unfold get_replaced_order in Hrep.
  destruct (match oc_app_data payload with AppBoth f _ => Some f | AppHash _ => override | AppFull f => Some f end) as [doc|] eqn:Hdoc; [|done].
  destruct (AppData.validate _ _ _ _ doc) as [va|] eqn:Hva; [|done].
  destruct (pad_replaced_order (va_protocol va)) as [w|] eqn:Hw; [|done].
  apply comp_bind_Ret in Hrep as ([o|] & Hfind & Hrep); [|done]. injection Hrep as <-.
  assert (w = u) as -> by (rewrite Hu; symmetry; by apply (found_uid now w d o)).
  destruct (found_order now u d r o Hr Hfind) as (Howner & _ & Hopen). split; [|done]. cbn [authorised].
  rewrite <-Howner, <-Hown. split; [|split].
  - destruct Hjust as [H|[H _]]; [done|]. unfold is_ecdsa_scheme in H. by rewrite Hscheme in H.
  - exists override, doc, (va_protocol va). split; [done|]. split; [|done].
    apply validate_Ok in Hva as (_ & _ & root & Hroot & ->). unfold parse. by rewrite Hroot.
  - by rewrite Hu.
Qed.

(** C12 (safety): only its owner cancels an order.  Whatever request is handled, an order of
    the database becomes cancelled only if it was open and signed off-chain, and its owner
    signed for it: the signature of the cancellation recovers to the owner over a message
    that names the order, or the order is replaced by one that names it in its app data,
    whose own signature recovers to the same owner, while no recent competition bids on the
    replaced order. *)
Theorem cancellation_authorised now request d t d' t' u :
  (forall k row, t_orders d !! k = Some row -> db_uid (or_order row) = k) ->
  handle now request d t = Ret (d', t') -> newly_cancelled u d d' ->
  exists r, t_orders d !! u = Some r /\ authorised request (db_owner (or_order r)) u /\ open_offchain now d r.
Proof.
  intros Hkey Hh Hnew. pose proof Hnew as [(r & Hr & Hn) _]. exists r. split; [done|].
  destruct request as [c|c|payload]; cbn [handle] in Hh; apply comp_bind_Ret in Hh as (answer & Ha & [= <- <-]).
  - unfold cancel_order in Ha. apply comp_bind_Ret in Ha as ([o|] & Hf & Ha); [|injection Ha as <-; by apply not_cancelled_twice in Hnew].
    destruct (OrderCancellation_validate _ _ c _) as [signer|] eqn:Hv; [|injection Ha as <-; by apply not_cancelled_twice in Hnew].
    destruct (Z.eqb_spec signer (md_owner (mo_metadata o))) as [->|]; [|injection Ha as <-; by apply not_cancelled_twice in Hnew].
    injection Ha as <-. rewrite (found_uid now _ d o Hkey Hf) in Hnew. cbn [snd] in Hnew.
    change (store_cancel_order (can_order_uid c) now d) with (store_cancel_orders [can_order_uid c] now d) in Hnew.
    assert (Hu : can_order_uid c = u).
    { destruct (decide (can_order_uid c = u)); [done|]. exfalso. eapply not_cancelled_twice; [|exact Hnew].
      rewrite store_cancel_orders_lookup, decide_False; [done|]. rewrite list_elem_of_singleton. congruence. }
    rewrite Hu in Hf. destruct (found_order now u d r o Hr Hf) as (<- & _ & Hopen). done.
  - unfold cancel_orders in Ha. apply comp_bind_Ret in Ha as ([os|] & Hf & Ha); [|injection Ha as <-; by apply not_cancelled_twice in Hnew].
    destruct (SignedOrderCancellations_validate _ _ c _) as [signer|] eqn:Hv; [|injection Ha as <-; by apply not_cancelled_twice in Hnew].
    destruct (existsb _ os) eqn:Hex; [injection Ha as <-; by apply not_cancelled_twice in Hnew|]. injection Ha as <-. cbn [snd] in Hnew.
    assert (Hin : u ∈ soc_order_uids c).
    { destruct (decide (u ∈ soc_order_uids c)); [done|]. exfalso. eapply not_cancelled_twice; [|exact Hnew].
      by rewrite store_cancel_orders_lookup, decide_False. }
    apply found_orders in Hf. apply list_elem_of_lookup in Hin as Hin'. destruct Hin' as [k Hk].
    destruct (Forall2_lookup_l _ _ _ _ _ Hf Hk) as (o & Ho & Hfo).
    destruct (found_order now u d r o Hr Hfo) as (Hown & _ & Hopen). split; [|done]. split; [done|].
    rewrite Hv, <-Hown. f_equal. apply not_true_iff_false in Hex. destruct (Z.eqb_spec signer (md_owner (mo_metadata o))); [done|].
    destruct Hex. apply existsb_exists. exists o. split; [by eapply list_elem_of_In, list_elem_of_lookup_2|].
    by rewrite (proj2 (Z.eqb_neq _ _)).
  - unfold add_order in Ha.
    destruct (match oc_app_data payload with AppHash hash => _ | _ => Ok None end) as [override|];
      [|injection Ha as <-; by apply not_cancelled_twice in Hnew].
    apply comp_bind_Ret in Ha as ([replaced|] & Hrep & Ha); [|injection Ha as <-; by apply not_cancelled_twice in Hnew].
    apply comp_bind_Ret in Ha as ([[[order quote]|] t1] & Hval & Ha); [|injection Ha as <-; by apply not_cancelled_twice in Hnew].
    apply comp_bind_Ret in Ha as ([[[]|] d1] & Hst & Ha); injection Ha as <-; cbn [fst snd] in Hnew.
    + destruct replaced as [old|]; [by eapply replaced_authorised|]. exfalso.
      apply comp_bind_Ret in Hst as ([d2|e] & Hins & Hst); [|apply comp_bind_Ret in Hst as (? & _ & ?); done]. injection Hst as ->.
      apply store_insert_order_orders in Hins as (Hno & Horders).
      eapply not_cancelled_twice; [|exact Hnew]. rewrite Horders. apply (newly_cancelled_insert u _ _ d); eauto.
    + exfalso. assert (d1 = d) as ->; [|by apply not_cancelled_twice in Hnew].
      destruct replaced as [old|].
      * unfold replace_order in Hst. destruct (try_to_ecdsa_scheme _); [|by injection Hst].
        destruct (negb _); [by injection Hst|]. destruct (order_is_actively_bid_on _ _ _) as [[]|]; [by injection Hst| |by injection Hst].
        apply comp_bind_Ret in Hst as ([d2|e'] & _ & Hst); [done|]. apply comp_bind_Ret in Hst as (? & _ & Hst). by injection Hst.
      * apply comp_bind_Ret in Hst as ([d2|e'] & _ & Hst); [done|]. apply comp_bind_Ret in Hst as (? & _ & Hst). by injection Hst.
Qed.
End authorisation.

(** ** The validator of [OrderValidation.v] is the one the order book relies on *)
Section validator.
Context (keccak256 : list Z -> Z) (ecrecover : list Z -> Z -> option address).
Context (utf8 : string -> bool) (from_slice : string -> option Root).
Context (execute_calldata : list Hook -> list Z).
Context (banned : list address -> gset address).
Context (detect : address -> result string (option string)).
Context (can_transfer : BalanceQuery -> Z -> result TransferSimulationError unit).
Context (check_signature : SignatureCheck -> result SignatureValidationError Z).
Context (limit_order_count : address -> result string Z).
Context (bd_from_f64 : f64 -> option BigDecimal) (to_value : QuoteMetadata -> option string).
Context (v : OrderValidator).
Context {store : Type} `{!OrderQuoting store} `{!OrderQuotingLaws store}.

Definition Validator : OrderValidating store := {|
  ov_validate_and_construct_order :=
    validate_and_construct_order keccak256 ecrecover utf8 from_slice execute_calldata banned detect can_transfer
      check_signature limit_order_count bd_from_f64 to_value v;
  ov_validate_app_data := validate_app_data keccak256 utf8 from_slice execute_calldata v;
  ov_partial_validate := partial_validate banned detect v;
|}.

Lemma Validator_laws : @OrderValidatingLaws keccak256 ecrecover store Validator.
Proof.
  split. intros now payload domain settlement override t order quote t' H. apply accepted_order_holds in H as (document & protocol & Hok); [|exact _].
  destruct Hok as [Hdata Hsig Huid _ Hauth _]. rewrite Hdata in Hauth.
  split; [done|]. split; [done|]. split; [done|]. exists (pad_signer protocol). by eapply authorised_justified.
Qed.
End validator.

(** ** Example: the owner cancels an order *)
Definition sample_row : DbOrder :=
  mkDbOrder 1 7 5 11 12 None 100 90 500 0 0 Sell false (replicate 65 0) Eip712 9 SellErc20 BuyErc20 None ClassLimit.
Definition sample_book : Db := mkDb {[1 := mkOrderRow sample_row 500]} ∅ ∅ ∅ ∅ ∅ ∅ ∅ ∅ ∅ ∅ ∅ [] [].
Definition sample_config : OrderbookConfig := mkOrderbookConfig 3 42 5.
Definition sample_cancellation : Request := ReqCancel (mkOrderCancellation 1 (mkEcdsa 0 0 0) EcdsaEip712).

Definition sample_order_validating : OrderValidating QuoteTable :=
  Validator sample_keccak (fun _ _ => Some 7) (fun _ => true) (fun _ => None) (fun _ => []) (fun _ => ∅) (fun _ => Ok None)
    (fun _ _ => Ok tt) (fun _ => Err SignatureInvalid) (fun _ => Ok 0) (fun _ => None) (fun _ => None) sample_validator
    (store := QuoteTable) (OrderQuoting0 := sample_quoter).

Lemma cancellation_authorised_witness :
  exists r, t_orders sample_book !! 1 = Some r /\
    authorised sample_keccak (fun _ _ => Some 7) (fun _ => None) (fun _ => Ok []) sample_config sample_cancellation
      (db_owner (or_order r)) 1 /\ open_offchain 100 sample_book r.
Proof.
  destruct (@handle sample_keccak (fun _ _ => Some 7) (fun _ => true) (fun _ => None) (fun s => s) (fun _ => None) (fun _ => None)
    (fun _ => Ret 0) (fun _ => None) None (fun _ => Ok []) QuoteTable sample_order_validating sample_config 100 sample_cancellation
    sample_book empty_quotes) as [[d' t']|] eqn:Hh; [|vm_compute in Hh; discriminate Hh].
  eapply (@cancellation_authorised sample_keccak (fun _ _ => Some 7) (fun _ => true) (fun _ => None) (fun s => s) (fun _ => None)
    (fun _ => None) (fun _ => Ret 0) (fun _ => None) None (fun _ => Ok []) QuoteTable sample_order_validating
    (Validator_laws _ _ _ _ _ _ _ _ _ _ _ _ _ (OrderQuotingLaws0 := OrderQuoter_laws _ _ _ _ _ _ _ _ _ _)) sample_config
    (fun _ _ H => ltac:(discriminate H)) 100 sample_cancellation sample_book empty_quotes d' t' 1).
  - intros k row Hk. unfold sample_book in Hk. cbn [t_orders] in Hk. apply lookup_singleton_Some in Hk as [<- <-]. reflexivity.
  - exact Hh.
  - vm_compute in Hh. injection Hh as <- <-. split; eexists; (split; [reflexivity|]); vm_compute; eauto.
Defined.
