(* ===== verification/QuoteHandler.v ===== *)
(** * QuoteHandler: quotes of the order book's API

    [crates/orderbook/src/quoter.rs]: a request is validated, quoted and adjusted by the
    volume fee.

    The validator is the class of [Orderbook.v], the two quoters are values of the class of
    [OrderValidation.v], over one store.  The printed form of a float and the conversion of
    floats to big decimals are parameters. *)

From stdpp Require Import base gmap sets list strings.
From Stdlib Require Import ZArith Lia SpecFloat.
From S2P Require Import Prelude Collections F64 Eth Liquidity Solution Dto Score DriverOrder.
From S2P Require Import OrderModel AppData OrderCreation OrderQuoting OrderValidation OrdersDb OrderStoring Orderbook.

Open Scope Z_scope.

(** ** Fee factors *)

(** [f64::round] as [u64]: halves away from zero, then saturation. *)
Definition f64_round_as_u64 (x : f64) : Z :=
  match x with
  | S754_finite false m e =>
      let rounded := if 0 <=? e then Z.pos m * 2 ^ e
                     else let q := Z.pos m / 2 ^ (- e) in
                          if 2 ^ (- e) <=? 2 * (Z.pos m mod 2 ^ (- e)) then q + 1 else q in
      Z.min rounded (2 ^ 64 - 1)
  | S754_infinity false => 2 ^ 64 - 1
  | _ => 0
  end.

Definition HIGH_PRECISION_SCALE : Z := 1000000.

Definition to_high_precision (factor : f64) : Z := f64_round_as_u64 (f64_mul factor (f64_lit HIGH_PRECISION_SCALE)).

(** ** Volume fees *)
Record AdjustedQuoteData := mkAdjustedQuoteData {
  aq_sell_amount : Z;
  aq_buy_amount : Z;
  aq_protocol_fee_bps : option string;
}.

Definition AdjustedQuoteData_unchanged (q : Quote) : AdjustedQuoteData :=
  mkAdjustedQuoteData (q_sell_amount q) (q_buy_amount q) None.

Record VolumeFeeConfig := mkVolumeFeeConfig { vf_factor : option f64; vf_effective_from_timestamp : option Z }.

(** The product is 512 bits wide. *)
Definition volume_fee_amount (volume scaled_factor : Z) : option Z :=
  let amount := volume * scaled_factor / HIGH_PRECISION_SCALE in if fits 256 amount then Some amount else None.

Section handler.
Context (to_bps_str : f64 -> string).

Definition get_vol_fee_adjusted_quote_data (now : Z) (quote : Quote) (side : OrderQuoteSide)
  (volume_fee : option VolumeFeeConfig) (policy : VolumeFeePolicy) (buy_token sell_token : address)
  : result string AdjustedQuoteData :=
  let effective := match volume_fee with
                   | Some config => match vf_effective_from_timestamp config with Some ts => ts <=? now | None => true end
                   | None => false
                   end in
  if negb effective then Ok (AdjustedQuoteData_unchanged quote)
  else match get_applicable_volume_fee_factor policy buy_token sell_token None with
       | None => Ok (mkAdjustedQuoteData (q_sell_amount quote) (q_buy_amount quote) None)
       | Some factor =>
           let scaled_factor := to_high_precision factor in
           letr amounts :=
             match side with
             | QuoteSell _ =>
                 letr protocol_fee := ok_or (volume_fee_amount (q_buy_amount quote) scaled_factor)
                                        "volume fee calculation overflow"%string in
                 Ok (q_sell_amount quote, saturating_sub (q_buy_amount quote) protocol_fee)
             | QuoteBuy _ =>
                 let total_sell_volume := saturating_add (q_sell_amount quote) (q_fee_amount quote) in
                 letr protocol_fee := ok_or (volume_fee_amount total_sell_volume scaled_factor)
                                        "volume fee calculation overflow"%string in
                 Ok (saturating_add (q_sell_amount quote) protocol_fee, q_buy_amount quote)
             end in
           let '(sell, buy) := amounts in
           Ok (mkAdjustedQuoteData sell buy (Some (to_bps_str factor)))
       end.

(** ** Responses *)
Record QuotedOrder := mkQuotedOrder {
  qo_sell_token : address;
  qo_buy_token : address;
  qo_receiver : option address;
  qo_sell_amount : Z;
  qo_buy_amount : Z;
  qo_valid_to : Z;
  qo_app_data : OrderCreationAppData;
  qo_fee_amount : Z;
  qo_gas_amount : BigDecimal;
  qo_gas_price : BigDecimal;
  qo_sell_token_price : BigDecimal;
  qo_kind : Side;
  qo_partially_fillable : bool;
  qo_sell_token_balance : SellTokenBalance;
  qo_buy_token_balance : BuyTokenBalance;
  qo_signing_scheme : Scheme;
}.

Record OrderQuoteResponse := mkOrderQuoteResponse {
  qres_quote : QuotedOrder;
  qres_from : address;
  qres_expiration : Z;
  qres_id : option Z;
  qres_verified : bool;
  qres_protocol_fee_bps : option string;
}.

Inductive OrderQuoteError :=
| QuoteAppData (e : AppDataValidationError)
| QuoteOrder (e : PartialValidationError)
| QuoteCalculation (e : CalculateQuoteError).

Context (keccak256 : list Z -> Z) (utf8 : string -> bool) (ipfs : option (Z -> result unit (option string))).
Context (bd_from_f64 : f64 -> option BigDecimal).

Record QuoteHandlerConfig := mkQuoteHandlerConfig {
  qh_volume_fee : option VolumeFeeConfig;
  qh_volume_fee_policy : VolumeFeePolicy;
}.

Definition QuoteHandler_new (volume_fee : option VolumeFeeConfig) (overrides : list TokenBucketFeeOverride)
  (enable_sell_equals_buy_volume_fee : bool) : QuoteHandlerConfig :=
  mkQuoteHandlerConfig volume_fee
    (mkVolumeFeePolicy overrides (volume_fee ≫= vf_factor) enable_sell_equals_buy_volume_fee).

Definition request_parameters (request : OrderQuoteRequest) (app_data : OrderAppData) : QuoteParameters :=
  mkQuoteParameters (qr_sell_token request) (qr_buy_token request) (qr_side request)
    (mkVerification (qr_from request) (default (qr_from request) (qr_receiver request))
       (map_interactions (in_pre (oad_interactions app_data))) (map_interactions (in_post (oad_interactions app_data)))
       (qr_sell_token_balance request) (qr_buy_token_balance request))
    (qr_signing_scheme request) (hooks_gas_limit (pad_hooks (va_protocol (oad_inner app_data)))) (qr_timeout request).

Context {store : Type} `{!OrderValidating store} (optimal_quoter fast_quoter : OrderQuoting store).

(** Fast quotes expire at once and are not stored. *)
Definition make_quote (now : Z) (quality : PriceQuality) (params : QuoteParameters) (t : store)
  : comp (result CalculateQuoteError Quote * store) :=
  match quality with
  | PriceOptimal | PriceVerified =>
      let! quote := @qt_calculate_quote store optimal_quoter now params in
      match quote with
      | Err e => Ret (Err e, t)
      | Ok quote => match @qt_store_quote store optimal_quoter quote t with
                    | (Ok quote, t) => Ret (Ok quote, t)
                    | (Err e, t) => Ret (Err (CalculateOther e), t)
                    end
      end
  | PriceFast =>
      let! quote := @qt_calculate_quote store fast_quoter now params in
      match quote with
      | Err e => Ret (Err e, t)
      | Ok q =>
          let d := q_data q in
          Ret (Ok (mkQuote (q_id q)
                 (mkQuoteData (qd_sell_token d) (qd_buy_token d) (qd_quoted_sell_amount d) (qd_quoted_buy_amount d)
                    (qd_fee_parameters d) (qd_kind d) 0 (qd_quote_kind d) (qd_solver d) (qd_verified d) (qd_metadata d))
                 (q_sell_amount q) (q_buy_amount q) (q_fee_amount q)), t)
      end
  end.

Definition build_response (request : OrderQuoteRequest) (valid_to : Z) (quote : Quote) (adjusted : AdjustedQuoteData)
  : result OrderQuoteError OrderQuoteResponse :=
  let p := qd_fee_parameters (q_data quote) in
  letr gas_amount := ok_or (bd_from_f64 (gas_amount p)) (QuoteCalculation (CalculateOther "gas_amount is not a valid BigDecimal")) in
  letr gas_price := ok_or (bd_from_f64 (gas_price p)) (QuoteCalculation (CalculateOther "gas_price is not a valid BigDecimal")) in
  letr token_price := ok_or (bd_from_f64 (sell_token_price p))
                        (QuoteCalculation (CalculateOther "sell_token_price is not a valid BigDecimal")) in
  Ok (mkOrderQuoteResponse
        (mkQuotedOrder (qr_sell_token request) (qr_buy_token request) (qr_receiver request) (aq_sell_amount adjusted)
           (aq_buy_amount adjusted) valid_to
           (match qr_app_data request with
            | AppFull full => AppBoth full (OrderCreationAppData_hash keccak256 (qr_app_data request))
            | app_data => app_data
            end)
           (q_fee_amount quote) gas_amount gas_price token_price (qd_kind (q_data quote)) false
           (qr_sell_token_balance request) (qr_buy_token_balance request)
           (SigningScheme_from_quote (qr_signing_scheme request)))
        (qr_from request) (qd_expiration (q_data quote)) (q_id quote) (qd_verified (q_data quote))
        (aq_protocol_fee_bps adjusted)).

(** A document that cannot be looked up counts as unknown. *)
Definition handle_quote (cfg : QuoteHandlerConfig) (now : Z) (request : OrderQuoteRequest) (documents : gmap Z string) (t : store)
  : comp (result OrderQuoteError OrderQuoteResponse * store) :=
  let override := match qr_app_data request with
                  | AppHash hash => match registry_find utf8 ipfs hash documents with Ok found => found | Err _ => None end
                  | _ => None
                  end in
  match ov_validate_app_data (qr_app_data request) override with
  | Err e => Ret (Err (QuoteAppData e), t)
  | Ok app_data =>
      let order := PreOrderData_from_quote_request now request in
      match ov_partial_validate now order with
      | Err e => Ret (Err (QuoteOrder e), t)
      | Ok _ =>
          let! answer := make_quote now (qr_price_quality request) (request_parameters request app_data) t in
          let '(quote, t) := answer in
          Ret (match quote with
               | Err e => Err (QuoteCalculation e)
               | Ok quote =>
                   match get_vol_fee_adjusted_quote_data now quote (qr_side request) (qh_volume_fee cfg)
                           (qh_volume_fee_policy cfg) (qr_buy_token request) (qr_sell_token request) with
                   | Err e => Err (QuoteCalculation (CalculateOther e))
                   | Ok adjusted => build_response request (po_valid_to order) quote adjusted
                   end
               end, t)
      end
  end.
End handler.

(** ** Facts *)
Lemma volume_fee_amount_bounds volume factor x :
  0 <= volume -> 0 <= factor <= HIGH_PRECISION_SCALE -> volume_fee_amount volume factor = Some x -> 0 <= x <= volume.
Proof.
  unfold volume_fee_amount, HIGH_PRECISION_SCALE. intros Hv Hf. destruct (fits 256 _); [|done]. intros [= <-].
  split; [apply Z.div_pos; nia|]. apply Z.div_le_upper_bound; nia.
Qed.

(** The volume fee is only ever taken from the user: the other amount stays as quoted, and
    a factor of at most one takes at most what is received. *)
Lemma volume_fee_direction to_bps now quote side fee policy buy sell a :
  0 <= q_buy_amount quote -> 0 <= q_sell_amount quote <= U256_MAX -> 0 <= q_fee_amount quote ->
  (forall f, get_applicable_volume_fee_factor policy buy sell None = Some f -> 0 <= to_high_precision f <= HIGH_PRECISION_SCALE) ->
  get_vol_fee_adjusted_quote_data to_bps now quote side fee policy buy sell = Ok a ->
  match side with
  | QuoteSell _ => aq_sell_amount a = q_sell_amount quote /\ 0 <= aq_buy_amount a <= q_buy_amount quote
  | QuoteBuy _ => aq_buy_amount a = q_buy_amount quote /\ q_sell_amount quote <= aq_sell_amount a
  end.
Proof.
  intros Hb Hs Hfee Hf. unfold get_vol_fee_adjusted_quote_data. destruct (negb _).
  { intros [= <-]. destruct side; cbn; lia. }
  destruct (get_applicable_volume_fee_factor _ _ _ _) as [f|]; [|intros [= <-]; destruct side; cbn; lia].
  specialize (Hf f eq_refl). destruct side; cbn.
  - destruct (volume_fee_amount _ _) as [x|] eqn:Hx; [|done]. cbn. intros [= <-]. cbn. split; [done|].
    apply volume_fee_amount_bounds in Hx; [|lia..]. unfold saturating_sub. lia.
  - destruct (volume_fee_amount _ _) as [x|] eqn:Hx; [|done]. cbn. intros [= <-]. cbn. split; [done|].
    apply volume_fee_amount_bounds in Hx; [|unfold saturating_add, U256_MAX; lia|lia]. unfold saturating_add. lia.
Qed.

(** A quote is for what was asked: the request passed validation, the order of the response
    has its tokens, kind and validity, a fast quote has expired and leaves the store alone,
    and the volume fee is only taken from the user. *)
Section handler_spec.
Context (to_bps_str : f64 -> string).
Context (keccak256 : list Z -> Z) (utf8 : string -> bool) (ipfs : option (Z -> result unit (option string))).
Context (bd_from_f64 : f64 -> option BigDecimal).
Context {store : Type} `{!OrderValidating store} (optimal_quoter fast_quoter : OrderQuoting store).
Context (optimal_laws : @OrderQuotingLaws store optimal_quoter) (fast_laws : @OrderQuotingLaws store fast_quoter).

Lemma make_quote_Ok now quality params t q t' :
  make_quote optimal_quoter fast_quoter now quality params t = Ret (Ok q, t') ->
  qd_kind (q_data q) = side_kind (qp_side params) /\
  (quality = PriceFast -> qd_expiration (q_data q) = 0 /\ t' = t).
Proof.
  destruct quality; cbn [make_quote]; rewrite comp_bind_Ret; intros ([q0|] & Hc & H); try done.
  - injection H as <- <-. cbn. apply (qt_computed_fits (OrderQuotingLaws := fast_laws)) in Hc as (_ & _ & ?). done.
  - destruct (qt_store_quote q0 t) as [[q1|] t1] eqn:Hs; [|done]. injection H as <- <-.
    rewrite (qt_stored_same (OrderQuotingLaws := optimal_laws) _ _ _ _ Hs).
    apply (qt_computed_fits (OrderQuotingLaws := optimal_laws)) in Hc as (_ & _ & ?). done.
  - destruct (qt_store_quote q0 t) as [[q1|] t1] eqn:Hs; [|done]. injection H as <- <-.
    rewrite (qt_stored_same (OrderQuotingLaws := optimal_laws) _ _ _ _ Hs).
    apply (qt_computed_fits (OrderQuotingLaws := optimal_laws)) in Hc as (_ & _ & ?). done.
Qed.

Lemma handle_quote_sound cfg now request documents t r t' :
  handle_quote to_bps_str keccak256 utf8 ipfs bd_from_f64 optimal_quoter fast_quoter cfg now request documents t = Ret (Ok r, t') ->
  ov_partial_validate now (PreOrderData_from_quote_request now request) = Ok tt /\
  (exists override a, ov_validate_app_data (qr_app_data request) override = Ok a) /\
  qo_sell_token (qres_quote r) = qr_sell_token request /\ qo_buy_token (qres_quote r) = qr_buy_token request /\
  qo_kind (qres_quote r) = side_kind (qr_side request) /\
  qo_valid_to (qres_quote r) = actual_valid_to now (qr_validity request) /\
  (qr_price_quality request = PriceFast -> qres_expiration r = 0 /\ t' = t).
Proof.
  unfold handle_quote. set (override := match qr_app_data request with AppHash _ => _ | _ => _ end).
  destruct (ov_validate_app_data _ override) as [a|] eqn:Ha; [|done].
  destruct (ov_partial_validate _ _) as [[]|] eqn:Hp; [|done]. rewrite comp_bind_Ret. intros ([[q|] t1] & Hm & H); [|done].
  apply make_quote_Ok in Hm as [Hkind Hfast]. cbn [qp_side request_parameters] in Hkind.
  destruct (get_vol_fee_adjusted_quote_data _ _ _ _ _ _ _ _) as [adj|]; [|done]. unfold build_response in H.
  destruct (bd_from_f64 (gas_amount _)); [|done]. destruct (bd_from_f64 (gas_price _)); [|done].
  destruct (bd_from_f64 (sell_token_price _)); [|done]. injection H as <- <-. cbn. split; [done|]. split; [eauto|]. auto.
Qed.
End handler_spec.
