(* ===== verification/OnchainOrders.v ===== *)
(** * OnchainOrders: orders placed and invalidated by contract events

    [crates/autopilot/src/database/onchain_order_events/mod.rs] (the parser of placement
    and invalidation events and its store) with the ethflow parser of
    [onchain_order_events/ethflow_events.rs], the event indices of
    [crates/autopilot/src/database/events.rs], and the blocks at which indexing starts
    ([boundary/events/mod.rs], [crates/database/src/last_indexed_blocks.rs]).

    The node, the calldata of the hooks trampoline and the quoter are parameters.  The
    orders of one batch are quoted concurrently: the model quotes them one after the
    other and takes the results in the order [completed] says, any permutation.  The
    error counters are left out. *)

From stdpp Require Import base gmap sets list strings sorting.
From Stdlib Require Import ZArith Lia.
From S2P Require Import Prelude Collections F64 Eth Liquidity Solution Dto Score DriverOrder.
From S2P Require Import OrderModel AppData OrderCreation OrderQuoting OrderValidation OrdersDb.

Open Scope Z_scope.

(** ** Events *)

(** [GPv2Order::Data], enumerations as the words of the contract. *)
Record GPv2OrderData := mkGPv2OrderData {
  gd_sell_token : address;
  gd_buy_token : address;
  gd_receiver : address;
  gd_sell_amount : Z;
  gd_buy_amount : Z;
  gd_valid_to : Z;
  gd_app_data : Z;
  gd_fee_amount : Z;
  gd_kind : Z;
  gd_partially_fillable : bool;
  gd_sell_token_balance : Z;
  gd_buy_token_balance : Z;
}.

Record ContractOrderPlacement := mkContractOrderPlacement {
  cp_sender : address;
  cp_order : GPv2OrderData;
  cp_signature_scheme : Z;
  cp_signature_data : list Z;
  cp_data : list Z;
}.

Inductive ContractEvent :=
| OrderPlacement (event : ContractOrderPlacement)
| OrderInvalidation (order_uid : list Z).

Record Log := mkLog {
  log_block_number : option Z; log_index : option Z; log_transaction_hash : option Z;
}.

(** [EventIndex]: the block number and the index of the log. *)
Definition to_i64 (n : Z) : option Z := if n <? 2 ^ 63 then Some n else None.

Definition log_to_event_index (log : Log) : option (Z * Z) :=
  let? block_number := (let? n := log_block_number log in to_i64 n) in
  let? index := (let? n := log_index log in to_i64 n) in
  Some (block_number, index).

Definition bytes_to_order_uid (bytes : list Z) : option Z :=
  if bool_decide (length bytes = 56%nat) then Some (from_be_bytes bytes) else None.

Inductive OnchainError := NoMetadata | UidLength | NodeFailure.

Fixpoint get_invalidation_events (events : list (ContractEvent * Log)) : result OnchainError (list (Z * Z * list Z)) :=
  match events with
  | [] => Ok []
  | (data, log) :: events =>
      letr event_index := ok_or (log_to_event_index log) NoMetadata in
      letr rest := get_invalidation_events events in
      Ok (match data with OrderInvalidation order_uid => (event_index, order_uid) :: rest | OrderPlacement _ => rest end)
  end.

Definition extract_invalidated_order_uids (l : list (Z * Z * list Z)) : result OnchainError (list (Z * Z * Z)) :=
  ok_or (mapM (fun i => let? uid := bytes_to_order_uid i.2 in Some (i.1, uid)) l) UidLength.

Definition is_placement (e : ContractEvent * Log) : bool :=
  match e.1 with OrderPlacement _ => true | OrderInvalidation _ => false end.

(** ** Ethflow *)
Definition WRAP_ALL_SELECTOR : list Z := [0x4c; 0x84; 0xc1; 0xc8].

Definition convert_to_quote_id_and_user_valid_to (e : ContractOrderPlacement) : option (Z * Z) :=
  if bool_decide (length (cp_data e) = 12%nat)
  then Some (i64_from_be_bytes (take 8 (cp_data e)), from_be_bytes (take 4 (drop 8 (cp_data e))))
  else None.

(** The quote and the validity of every placement event that can be parsed. *)
Fixpoint parse_custom_event_data (events : list (ContractEvent * Log)) : result OnchainError (list (Z * Z * (Z * Z))) :=
  match events with
  | [] => Ok []
  | (data, log) :: events =>
      letr event_index := ok_or (log_to_event_index log) NoMetadata in
      letr rest := parse_custom_event_data events in
      Ok match data with
         | OrderPlacement event =>
             match convert_to_quote_id_and_user_valid_to event with
             | Some custom => (event_index, custom) :: rest
             | None => rest
             end
         | OrderInvalidation _ => rest
         end
  end.

(** A hash map of custom data by event. *)
Definition by_index (f : Z * Z -> Z) (custom : list (Z * Z * (Z * Z))) : gmap (Z * Z) Z :=
  foldl (fun m c => <[c.1 := f c.2]> m) ∅ custom.

Record EthFlowDataForDb := mkEthFlowDataForDb { ef_uid : Z; ef_valid_to : Z; ef_pre_interaction : DbInteraction }.

Record OnchainOrderPlacement := mkOnchainOrderPlacement {
  op_order_uid : Z; op_sender : address; op_placement_error : option DbPlacementError;
}.

Definition customized_event_data_for_event_index (event_index : Z * Z) (order : DbOrder) (custom : gmap (Z * Z) Z)
  : comp EthFlowDataForDb :=
  let! user_valid_to := expect (custom !! event_index) in
  Ret (mkEthFlowDataForDb (db_uid order) user_valid_to
         (mkDbInteraction (db_owner order) 0 WRAP_ALL_SELECTOR 0 ExecPre)).

Definition append_custom_order_info_to_db (l : list EthFlowDataForDb) (d : Db) : Db :=
  insert_or_overwrite_interactions ((fun e => (ef_uid e, ef_pre_interaction e)) <$> l)
    (insert_or_overwrite_orders ((fun e => (ef_uid e, ef_valid_to e)) <$> l) d).

(** ** Placements *)

(** [GeneralOnchainOrderPlacementData]. *)
Record PlacementData := mkPlacementData {
  pd_event_index : Z * Z;
  pd_quote : option DbOrderQuote;
  pd_placement : OnchainOrderPlacement;
  pd_order : DbOrder;
  pd_tx_hash : Z;
}.

Definition onchain_append (events : list (Z * Z * OnchainOrderPlacement)) (d : Db) : Db :=
  foldl (fun d e => insert_onchain_order e.1.1 e.1.2 (op_order_uid e.2) (op_sender e.2) (op_placement_error e.2) d)
    d events.

Definition delete_events (range_start : Z) (d : Db) : Db :=
  let from := default (2 ^ 63 - 1) (to_i64 range_start) in
  delete_invalidations from (mark_as_reorged from d).

Fixpoint dedup (l : list Z) : list Z :=
  match l with
  | [] => []
  | x :: l => match dedup l with
              | y :: k => if x =? y then y :: k else x :: y :: k
              | [] => [x]
              end
  end.

Section parser.
Context (keccak256 : list Z -> Z) (from_slice : string -> option Root).
Context (to_value : QuoteMetadata -> option string).
Context (timestamp_of_block_in_seconds : Z -> result string Z).
Context (trampoline : address) (execute_calldata : list Hook -> list Z).
Context (completed : list (option PlacementData) -> list (option PlacementData)).
Context (domain_separator : Z) (settlement_contract : address).
Context {store : Type} `{!OrderQuoting store}.

Fixpoint block_timestamps (blocks : list Z) : result OnchainError (list (Z * Z)) :=
  match blocks with
  | [] => Ok []
  | block :: blocks =>
      letr timestamp := match timestamp_of_block_in_seconds block with Ok t => Ok t | Err _ => Err NodeFailure end in
      letr rest := block_timestamps blocks in
      Ok ((block, timestamp) :: rest)
  end.

Definition get_block_numbers_of_events (events : list (ContractEvent * Log)) : result OnchainError (gmap Z Z) :=
  letr event_block_numbers := ok_or (mapM (fun e => log_block_number e.2) events) NoMetadata in
  letr pairs := block_timestamps (dedup event_block_numbers) in
  Ok (list_to_map pairs).

(** An owner that is not 20 bytes long makes [Address::from_slice] panic. *)
Definition extract_order_data_from_onchain_order_placement_event (e : ContractOrderPlacement)
  : comp (option (OrderData * address * Scheme * Z)) :=
  let o := cp_order e in
  let! signer :=
    (if cp_signature_scheme e =? 0
     then if bool_decide (length (cp_signature_data e) = 20%nat)
          then Ret (Some (Eip1271, from_be_bytes (cp_signature_data e))) else Panic
     else Ret (if cp_signature_scheme e =? 1 then Some (PreSign, cp_sender e) else None)) in
  Ret (let? signer := signer in
       let receiver := if gd_receiver o =? 0 then None else Some (gd_receiver o) in
       let? kind := kind_from_contract_bytes (gd_kind o) in
       let? source := sell_source_from_contract_bytes (gd_sell_token_balance o) in
       let? destination := buy_destination_from_contract_bytes (gd_buy_token_balance o) in
       let data := mkOrderData (gd_sell_token o) (gd_buy_token o) receiver (gd_sell_amount o) (gd_buy_amount o)
                     (gd_valid_to o) (gd_app_data o) (gd_fee_amount o) kind (gd_partially_fillable o)
                     source destination in
       Some (data, signer.2, signer.1, uid keccak256 data domain_separator signer.2)).

Definition onchain_verification : Verification := mkVerification 0 0 [] [] SellErc20 BuyErc20.

Definition onchain_get_quote (now : Z) (data : OrderData) (scheme : Scheme) (quote_id : Z) (t : store)
  : comp (result DbPlacementError Quote * store) :=
  match convert_signing_scheme_into_quote_signing_scheme scheme false 0 with
  | None => Ret (Err DbOther, t)
  | Some signing_scheme =>
      let parameters := mkQuoteSearchParameters (od_sell_token data) (od_buy_token data) (od_sell_amount data)
                          (od_buy_amount data) (od_fee_amount data) (od_kind data) signing_scheme 0
                          onchain_verification in
      let! answer := get_quote_and_check_fee now parameters (Some quote_id) (Some (od_fee_amount data)) t in
      let '(quote, t) := answer in
      Ret (match quote with
           | Ok quote => Ok quote
           | Err (PartialError _) => Err DbPreValidationError
           | Err NonZeroFee => Err DbNonZeroFee
           | Err _ => Err DbOther
           end, t)
  end.

Definition convert_onchain_order_placement (e : ContractOrderPlacement) (event_timestamp : Z)
  (quote : result DbPlacementError Quote) (data : OrderData) (scheme : Scheme) (order_uid : Z) (owner : address)
  : OnchainOrderPlacement * DbOrder :=
  (mkOnchainOrderPlacement order_uid (cp_sender e) (match quote with Ok _ => None | Err err => Some err end),
   mkDbOrder order_uid owner event_timestamp (od_sell_token data) (od_buy_token data) (od_receiver data)
     (od_sell_amount data) (od_buy_amount data) (od_valid_to data) (od_app_data data) (od_fee_amount data)
     (od_kind data) (od_partially_fillable data) (cp_signature_data e) scheme settlement_contract
     (od_sell_token_balance data) (od_buy_token_balance data) None
     (if od_fee_amount data =? 0 then ClassLimit else ClassMarket)).

(** The quote of an order; metadata that cannot be serialised drops the event. *)
Definition onchain_db_quote (order_uid : Z) (quote : result DbPlacementError Quote) : option (option DbOrderQuote) :=
  match quote with
  | Err _ => Some None
  | Ok quote =>
      let f := qd_fee_parameters (q_data quote) in
      let? metadata := to_value (qd_metadata (q_data quote)) in
      Some (Some (mkDbOrderQuote order_uid (gas_amount f) (gas_price f) (sell_token_price f) (q_sell_amount quote)
                    (q_buy_amount quote) (qd_solver (q_data quote)) (qd_verified (q_data quote)) metadata))
  end.

(** A placement event with its log, the time of its block, its quote and transaction. *)
Definition parse_placement (now : Z) (x : ContractEvent * Log * Z * Z * Z) (t : store)
  : comp (option PlacementData * store) :=
  let '(data, log, event_timestamp, quote_id, tx_hash) := x in
  match log_to_event_index log with
  | None => Ret (None, t)
  | Some event_index =>
      match data with
      | OrderInvalidation _ => Panic
      | OrderPlacement event =>
          let! detailed := extract_order_data_from_onchain_order_placement_event event in
          match detailed with
          | None => Ret (None, t)
          | Some (data, owner, scheme, order_uid) =>
              let! answer := onchain_get_quote now data scheme quote_id t in
              let '(quote_result, t) := answer in
              let '(placement, order) :=
                convert_onchain_order_placement event event_timestamp quote_result data scheme order_uid owner in
              Ret (let? quote := onchain_db_quote order_uid quote_result in
                   Some (mkPlacementData event_index quote placement order tx_hash), t)
          end
      end
  end.

Fixpoint parse_placements (now : Z) (l : list (ContractEvent * Log * Z * Z * Z)) (t : store)
  : comp (list (option PlacementData) * store) :=
  match l with
  | [] => Ret ([], t)
  | x :: l =>
      let! first := parse_placement now x t in
      let! rest := parse_placements now l first.2 in
      Ret (first.1 :: rest.1, rest.2)
  end.

Definition parse_general_onchain_order_placement_data (now : Z) (l : list (ContractEvent * Log * Z * Z * Z)) (t : store)
  : comp (list PlacementData * store) :=
  let! parsed := parse_placements now l t in
  Ret (omap id (completed parsed.1), parsed.2).

Definition event_and_quote (timestamps : gmap Z Z) (quote_ids : gmap (Z * Z) Z) (e : ContractEvent * Log)
  : comp (option (ContractEvent * Log * Z * Z * Z)) :=
  match log_transaction_hash e.2, log_to_event_index e.2 with
  | Some tx_hash, Some event_index =>
      match quote_ids !! event_index with
      | None => Ret None
      | Some quote_id =>
          let! timestamp := expect (timestamps !! event_index.1) in
          Ret (Some (e, timestamp, quote_id, tx_hash))
      end
  | _, _ => Ret None
  end.

(** The rows of the custom table with the data of the placements. *)
Definition extract_custom_and_general_order_data (now : Z) (events : list (ContractEvent * Log)) (t : store)
  : comp (result OnchainError (list (EthFlowDataForDb * PlacementData)) * store) :=
  match (letr timestamps := get_block_numbers_of_events events in
         letr custom := parse_custom_event_data events in Ok (timestamps, custom)) with
  | Err err => Ret (Err err, t)
  | Ok (timestamps, custom) =>
      let custom_data := by_index snd custom in
      let quote_ids := by_index fst custom in
      let! zipped := comp_map (event_and_quote timestamps quote_ids) events in
      let! answer := parse_general_onchain_order_placement_data now (omap id zipped) t in
      let! rows := comp_map (fun p => let! c := customized_event_data_for_event_index (pd_event_index p) (pd_order p)
                                                  custom_data in Ret (c, p)) answer.1 in
      Ret (Ok rows, answer.2)
  end.

(** ** Hooks *)
Definition hook_interactions (d : Db) (order : DbOrder) : list (Z * DbInteraction) :=
  match t_app_data d !! db_app_data order ≫= parse from_slice with
  | None => []
  | Some parsed =>
      let hooks := pad_hooks parsed in
      let next := next_free_interaction_indices (db_uid order) d in
      let interaction hooks index execution :=
        (db_uid order, mkDbInteraction trampoline 0 (execute_calldata hooks) index execution) in
      (match hooks_pre hooks with [] => [] | pre => [interaction pre next.1 ExecPre] end) ++
      (match hooks_post hooks with [] => [] | post => [interaction post next.2 ExecPost] end)
  end.

Definition insert_order_hooks (orders : list DbOrder) (d : Db) : Db :=
  insert_or_overwrite_interactions (orders ≫= hook_interactions d) d.

(** ** The store *)

(** The statements of [insert_events], in their order. *)
Definition write_events (now : Z) (invalidated : list (Z * Z * Z)) (rows : list (EthFlowDataForDb * PlacementData))
  (d : Db) : Db :=
  let placements := rows.*2 in
  let d := insert_onchain_invalidations now invalidated d in
  let d := append_custom_order_info_to_db rows.*1 d in
  let d := onchain_append ((fun p => (pd_event_index p, pd_placement p)) <$> placements) d in
  let d := insert_quotes (omap pd_quote placements) d in
  let d := insert_order_hooks (pd_order <$> placements) d in
  insert_orders_and_ignore_conflicts (pd_order <$> placements) d.

Definition insert_events (now : Z) (events : list (ContractEvent * Log)) (d : Db) (t : store)
  : comp (result OnchainError Db * store) :=
  let order_placement_events := filter (fun e => is_placement e = true) events in
  match (letr invalidations := get_invalidation_events events in extract_invalidated_order_uids invalidations) with
  | Err err => Ret (Err err, t)
  | Ok invalidated =>
      let! answer := extract_custom_and_general_order_data now order_placement_events t in
      Ret (match answer.1 with Err err => Err err | Ok rows => Ok (write_events now invalidated rows d) end, answer.2)
  end.

Definition onchain_replace_events (now : Z) (events : list (ContractEvent * Log)) (range_start : Z) (d : Db) (t : store)
  : comp (result OnchainError Db * store) :=
  insert_events now events (delete_events range_start d) t.

Definition onchain_append_events (now : Z) (events : list (ContractEvent * Log)) (d : Db) (t : store)
  : comp (result OnchainError Db * store) :=
  insert_events now events d t.
End parser.

(** ** Where indexing starts *)
Definition last_indexed_update (contract : string) (block_number : Z) (table : gmap string Z) : gmap string Z :=
  <[contract := block_number]> table.
Definition last_indexed_fetch (contract : string) (table : gmap string Z) : option Z := table !! contract.

Definition write_last_block_to_db (last_block : Z) (contract : string) (table : gmap string Z) : option (gmap string Z) :=
  let? block := to_i64 last_block in Some (last_indexed_update contract block table).

Definition read_last_block_from_db (contract : string) (table : gmap string Z) : option Z :=
  let block := default 0 (last_indexed_fetch contract table) in if 0 <=? block then Some block else None.

Definition ONCHAIN_INDEX_NAME : string := "onchain_orders".
Definition REFUND_INDEX_NAME : string := "ethflow_refunds".
Definition SETTLEMENT_INDEX_NAME : string := "settlements".

Section start.
Context (block_number_hash : Z -> option (Z * Z)) (deployment_block : Z -> option Z) (table : gmap string Z).

Definition settlement_deployment_block_number_hash (chain_id : Z) : option (Z * Z) :=
  let? block_number := deployment_block chain_id in block_number_hash block_number.

(** [None] is an error, [Some None] no block. *)
Definition find_indexing_start_block (index_name : string) (fallback_start_block settlement_fallback_chain_id : option Z)
  : option (option (Z * Z)) :=
  let? last_indexed_block := read_last_block_from_db index_name table in
  if 0 <? last_indexed_block then Some <$> block_number_hash last_indexed_block
  else match fallback_start_block with
       | Some start_block => Some <$> block_number_hash start_block
       | None => match settlement_fallback_chain_id with
                 | Some chain_id => Some <$> settlement_deployment_block_number_hash chain_id
                 | None => Some None
                 end
       end.

Definition determine_ethflow_indexing_start (skip_event_sync_start : option (Z * Z)) (ethflow_indexing_start : option Z)
  (chain_id : Z) : comp (Z * Z) :=
  match skip_event_sync_start with
  | Some block => Ret block
  | None =>
      let! found := expect (find_indexing_start_block ONCHAIN_INDEX_NAME ethflow_indexing_start (Some chain_id)) in
      expect found
  end.

Definition determine_ethflow_refund_indexing_start (skip_event_sync_start : option (Z * Z))
  (ethflow_indexing_start : option Z) (chain_id : Z) : comp (Z * Z) :=
  match skip_event_sync_start with
  | Some block => Ret block
  | None =>
      let! refund := expect (find_indexing_start_block REFUND_INDEX_NAME ethflow_indexing_start None) in
      let! settlement := expect (find_indexing_start_block SETTLEMENT_INDEX_NAME None (Some chain_id)) in
      expect (max_by_key fst (omap id [refund; settlement]))
  end.
End start.

(** ** Tables after a batch of statements *)
Lemma foldl_proj {A B X} (p : A -> B) (f : A -> X -> A) (g : B -> X -> B) (l : list X) a :
  (forall a x, p (f a x) = g (p a) x) -> p (foldl f a l) = foldl g (p a) l.
Proof. intros H. revert a. induction l as [|x l IH]; intros a; [done|]. simpl. by rewrite IH, H. Qed.

Lemma foldl_id {A X} (a : A) (l : list X) : foldl (fun a _ => a) a l = a.
Proof. by induction l. Qed.

Lemma foldl_kept {A B X} (p : A -> B) (f : A -> X -> A) (l : list X) a :
  (forall a x, p (f a x) = p a) -> p (foldl f a l) = p a.
Proof. intros H. rewrite (foldl_proj p f (fun a _ => a)) by done. apply foldl_id. Qed.

Section keyed.
Context `{Countable K} {V X : Type} (k : X -> K) (v : X -> V).

Lemma foldl_insert_other (l : list X) (m : gmap K V) i :
  i ∉ k <$> l -> foldl (fun m x => <[k x := v x]> m) m l !! i = m !! i.
Proof.
  revert m. induction l as [|x l IH]; intros m; [done|]. rewrite fmap_cons, not_elem_of_cons. intros [Hx Hl].
  simpl. rewrite IH by done. by apply lookup_insert_ne.
Qed.

Lemma foldl_keyed_elem (l : list X) (m : gmap K V) x :
  NoDup (k <$> l) -> x ∈ l -> foldl (fun m x => <[k x := v x]> m) m l !! k x = Some (v x).
Proof.
  revert m. induction l as [|y l IH]; intros m; [by intros _ ?%elem_of_nil|].
  rewrite fmap_cons, NoDup_cons, elem_of_cons. intros [Hy Hnd] [->|Hx]; simpl; [|by apply IH].
  rewrite foldl_insert_other by done. apply lookup_insert_eq.
Qed.

Lemma foldl_insert_is_Some (l : list X) (m : gmap K V) i :
  i ∈ k <$> l -> is_Some (foldl (fun m x => <[k x := v x]> m) m l !! i).
Proof.
  revert m. induction l as [|x l IH]; intros m; [by intros ?%elem_of_nil|]. rewrite fmap_cons. cbn [foldl].
  destruct (decide (i ∈ k <$> l)) as [Hk|Hk]; [by intros _; apply IH|]. rewrite elem_of_cons. intros [->|?]; [|done].
  rewrite foldl_insert_other by done. rewrite lookup_insert_eq. eauto.
Qed.
End keyed.

Lemma lookup_foldl_alter {X V} (k : X -> Z) (f : X -> V -> V) (l : list X) (m : gmap Z V) x :
  NoDup (k <$> l) -> x ∈ l -> foldl (fun m x => alter (f x) (k x) m) m l !! k x = f x <$> m !! k x.
Proof.
  assert (Hother : forall l (m : gmap Z V) i, i ∉ k <$> l -> foldl (fun m x => alter (f x) (k x) m) m l !! i = m !! i).
  { clear. induction l as [|y l IH]; intros m i; [done|]. rewrite fmap_cons, not_elem_of_cons. intros [Hy Hl].
    simpl. rewrite IH by done. by apply lookup_alter_ne. }
  revert m. induction l as [|y l IH]; intros m; [by intros _ ?%elem_of_nil|].
  rewrite fmap_cons, NoDup_cons, elem_of_cons. intros [Hy Hnd] [->|Hx]; simpl.
  - rewrite Hother by done. apply lookup_alter_eq.
  - rewrite IH by done. rewrite lookup_alter_ne; [done|]. intros Heq. apply Hy. rewrite Heq. by apply list_elem_of_fmap_2.
Qed.

Lemma event_keeps {B} (p : Db -> B) e d :
  (forall d x, p (set_order_events x d) = p d) -> p (insert_order_event e d) = p d.
Proof. intros H. unfold insert_order_event. repeat case_match; by rewrite ?H. Qed.

Lemma invalidations_keep {B} (p : Db -> B) now l d :
  (forall d x, p (set_order_events x d) = p d) -> (forall d x, p (set_onchain_invalidations x d) = p d) ->
  p (insert_onchain_invalidations now l d) = p d.
Proof.
  intros He Hi. apply foldl_kept. intros a [[b i] u]. rewrite (event_keeps p) by done. apply Hi.
Qed.

Lemma t_onchain_invalidations_inserted now l d :
  t_onchain_invalidations (insert_onchain_invalidations now l d) =
  foldl (fun m e => <[e.2 := e.1]> m) (t_onchain_invalidations d) l.
Proof.
  apply foldl_proj. intros a [[b i] u]. by rewrite (event_keeps t_onchain_invalidations) by done.
Qed.

Lemma t_interactions_overwritten l d :
  t_interactions (insert_or_overwrite_interactions l d) =
  foldl (fun m ui => <[interaction_key ui.1 ui.2 := interaction_columns ui.2]> m) (t_interactions d) l.
Proof. by apply foldl_proj. Qed.

Lemma interactions_keep {B} (p : Db -> B) l d :
  (forall d x, p (set_interactions x d) = p d) -> p (insert_or_overwrite_interactions l d) = p d.
Proof. intros H. apply foldl_kept. intros. apply H. Qed.

Lemma placed_keep {B} (p : Db -> B) l d :
  (forall d x, p (set_onchain_placed x d) = p d) -> p (onchain_append l d) = p d.
Proof. intros H. apply foldl_kept. intros. apply H. Qed.

Lemma quotes_keep {B} (p : Db -> B) l d :
  (forall d x, p (set_order_quotes x d) = p d) -> p (insert_quotes l d) = p d.
Proof. intros H. apply foldl_kept. intros. apply H. Qed.

Lemma orders_keep {B} (p : Db -> B) l d :
  (forall d x, p (set_orders x d) = p d) -> (forall d x, p (set_order_events x d) = p d) ->
  p (insert_orders_and_ignore_conflicts l d) = p d.
Proof.
  intros Ho He. apply foldl_kept. intros a o. unfold insert_order_and_ignore_conflicts. destruct (_ !! _); [done|].
  rewrite (event_keeps p) by done. apply Ho.
Qed.

Lemma ethflow_keep {B} (p : Db -> B) l d :
  (forall d x, p (set_orders x d) = p d) -> (forall d x, p (set_ethflow_orders x d) = p d) ->
  p (insert_or_overwrite_orders l d) = p d.
Proof. intros Ho He. apply foldl_kept. intros a e. unfold insert_or_overwrite_ethflow_order. etrans; [apply Ho|apply He]. Qed.

(** Inserting orders keeps the rows there are and adds the missing ones. *)
Lemma t_orders_inserted l d o :
  NoDup (db_uid <$> l) -> o ∈ l ->
  t_orders (insert_orders_and_ignore_conflicts l d) !! db_uid o =
  Some (default (mkOrderRow o (db_valid_to o)) (t_orders d !! db_uid o)).
Proof.
  assert (Hstep : forall l d i, i ∉ db_uid <$> l -> t_orders (insert_orders_and_ignore_conflicts l d) !! i = t_orders d !! i).
  { clear. intros l. induction l as [|x l IH]; intros d i; [done|]. rewrite fmap_cons, not_elem_of_cons. intros [Hx Hl].
    unfold insert_orders_and_ignore_conflicts in *. cbn [foldl]. rewrite IH by done.
    unfold insert_order_and_ignore_conflicts. destruct (_ !! db_uid x); [done|].
    rewrite (event_keeps t_orders) by done. cbn. by apply lookup_insert_ne. }
  revert d. induction l as [|x l IH]; intros d; [by intros _ ?%elem_of_nil|].
  rewrite fmap_cons, NoDup_cons, elem_of_cons. intros [Hx Hnd] Ho.
  unfold insert_orders_and_ignore_conflicts in *. cbn [foldl]. unfold insert_order_and_ignore_conflicts at 2.
  destruct Ho as [->|Ho].
  - rewrite Hstep by done. destruct (t_orders d !! db_uid x) eqn:E; [by rewrite E|].
    rewrite (event_keeps t_orders) by done. apply lookup_insert_eq.
  - rewrite IH by done. assert (db_uid o <> db_uid x) by (intros Heq; apply Hx; rewrite <-Heq; by apply list_elem_of_fmap_2).
    destruct (t_orders d !! db_uid x) eqn:E; [done|]. rewrite (event_keeps t_orders) by done.
    cbn. by rewrite lookup_insert_ne.
Qed.

(** ** What a batch of events writes *)
Definition wrap_all (owner : address) : DbInteraction := mkDbInteraction owner 0 WRAP_ALL_SELECTOR 0 ExecPre.

(** The parts of a row are about the same order. *)
Record row_ok (r : EthFlowDataForDb * PlacementData) : Prop := {
  row_custom_uid : ef_uid r.1 = db_uid (pd_order r.2);
  row_placed_uid : op_order_uid (pd_placement r.2) = db_uid (pd_order r.2);
  row_wrap : ef_pre_interaction r.1 = wrap_all (db_owner (pd_order r.2));
  row_quote_uid q : pd_quote r.2 = Some q -> dbq_order_uid q = db_uid (pd_order r.2);
}.

Definition row_uid (r : EthFlowDataForDb * PlacementData) : Z := db_uid (pd_order r.2).

Lemma foldl_fmap {A B X} (f : A -> B -> A) (g : X -> B) a (l : list X) :
  foldl f a (g <$> l) = foldl (fun a x => f a (g x)) a l.
Proof. revert a. by induction l as [|x l IH]; intros a; simpl. Qed.

Lemma foldl_ext_elem {A X} (f g : A -> X -> A) (l : list X) a :
  (forall a x, x ∈ l -> f a x = g a x) -> foldl f a l = foldl g a l.
Proof.
  revert a. induction l as [|x l IH]; intros a H; [done|]. simpl. rewrite H by apply list_elem_of_here. apply IH.
  intros b y Hy. apply H. by apply list_elem_of_further.
Qed.

(** An index that is taken is below the next free one. *)
Lemma next_free_above uid index d v :
  t_interactions d !! (uid, index, ExecPre) = Some v -> index < (next_free_interaction_indices uid d).1.
Proof.
  intros Hv. assert (Hin : index ∈ fst <$> interactions_of uid ExecPre d).
  { apply list_elem_of_fmap. exists (index, v). split; [done|]. unfold interactions_of. apply sort_by_elem.
    apply list_elem_of_fmap. exists (uid, index, ExecPre, v). split; [done|].
    apply elem_of_map_to_list. by apply map_lookup_filter_Some. }
  unfold next_free_interaction_indices. cbn [fst]. revert Hin. generalize (fst <$> interactions_of uid ExecPre d).
  intros l Hin. assert (Hge : forall l a, a <= foldl Z.max a l /\ forall x, x ∈ l -> x <= foldl Z.max a l).
  { clear. induction l as [|y l IH]; intros a; [split; [simpl; lia|by intros x ?%elem_of_nil]|]. simpl.
    destruct (IH (Z.max a y)) as [H1 H2]. split; [lia|]. intros x [->|Hx]%elem_of_cons; [lia|by apply H2]. }
  pose proof (proj2 (Hge l (-1)) _ Hin). lia.
Qed.

Section written.
Context (from_slice : string -> option Root) (trampoline : address) (execute_calldata : list Hook -> list Z).
Context (now : Z) (invalidated : list (Z * Z * Z)) (rows : list (EthFlowDataForDb * PlacementData)) (d : Db).
Context (Hrows : Forall row_ok rows) (Hnd : NoDup (row_uid <$> rows)).

Abbreviation d' := (write_events from_slice trampoline execute_calldata now invalidated rows d).

Definition placed_row (r : EthFlowDataForDb * PlacementData) : DbPlacement :=
  mkDbPlacement (op_sender (pd_placement r.2)) false (op_placement_error (pd_placement r.2))
    (pd_event_index r.2).1 (pd_event_index r.2).2.

Lemma written_placed r : r ∈ rows -> t_onchain_placed d' !! row_uid r = Some (placed_row r).
Proof.
  intros Hr. unfold write_events, insert_order_hooks.
  rewrite (orders_keep t_onchain_placed), (interactions_keep t_onchain_placed), (quotes_keep t_onchain_placed) by done.
  unfold onchain_append. rewrite <-list_fmap_compose, foldl_fmap.
  rewrite (foldl_proj t_onchain_placed _ (fun m r => <[op_order_uid (pd_placement r.2) := placed_row r]> m)) by done.
  rewrite (foldl_ext_elem _ (fun m r => <[row_uid r := placed_row r]> m)).
  - by apply (foldl_keyed_elem row_uid placed_row).
  - intros m x Hx. unfold row_uid. by rewrite (row_placed_uid x (proj1 (Forall_forall _ _) Hrows x Hx)).
Qed.

Lemma written_ethflow r : r ∈ rows -> t_ethflow_orders d' !! row_uid r = Some (ef_valid_to r.1).
Proof.
  intros Hr. unfold write_events, insert_order_hooks, append_custom_order_info_to_db.
  rewrite (orders_keep t_ethflow_orders), (interactions_keep t_ethflow_orders), (quotes_keep t_ethflow_orders),
    (placed_keep t_ethflow_orders), (interactions_keep t_ethflow_orders) by done.
  unfold insert_or_overwrite_orders. rewrite <-list_fmap_compose, foldl_fmap.
  rewrite (foldl_proj t_ethflow_orders _ (fun m r => <[ef_uid r.1 := ef_valid_to r.1]> m)) by done.
  rewrite (foldl_ext_elem _ (fun m r => <[row_uid r := ef_valid_to r.1]> m)).
  - by apply (foldl_keyed_elem row_uid (fun r => ef_valid_to r.1)).
  - intros m x Hx. unfold row_uid. by rewrite (row_custom_uid x (proj1 (Forall_forall _ _) Hrows x Hx)).
Qed.

(** An order that is in the database gets the validity of the event; a new one does
    not, because the validity is updated before the order is inserted. *)
Lemma written_order r :
  r ∈ rows ->
  t_orders d' !! row_uid r =
  Some match t_orders d !! row_uid r with
       | Some row => mkOrderRow (or_order row) (ef_valid_to r.1)
       | None => mkOrderRow (pd_order r.2) (db_valid_to (pd_order r.2))
       end.
Proof.
  intros Hr. unfold write_events, insert_order_hooks, append_custom_order_info_to_db.
  unfold row_uid at 1. rewrite t_orders_inserted.
  2: { rewrite <-!list_fmap_compose. exact Hnd. }
  2: { apply list_elem_of_fmap_2. by apply list_elem_of_fmap_2. }
  rewrite (interactions_keep t_orders), (quotes_keep t_orders), (placed_keep t_orders), (interactions_keep t_orders) by done.
  unfold insert_or_overwrite_orders. rewrite <-list_fmap_compose, foldl_fmap.
  rewrite (foldl_proj t_orders _ (fun m r => alter (fun row => mkOrderRow (or_order row) (ef_valid_to r.1)) (ef_uid r.1) m)) by done.
  rewrite (foldl_ext_elem _ (fun m r => alter (fun row => mkOrderRow (or_order row) (ef_valid_to r.1)) (row_uid r) m)).
  2: { intros m x Hx. unfold row_uid. by rewrite (row_custom_uid x (proj1 (Forall_forall _ _) Hrows x Hx)). }
  change (db_uid (pd_order r.2)) with (row_uid r).
  rewrite (lookup_foldl_alter row_uid (fun r row => mkOrderRow (or_order row) (ef_valid_to r.1))) by done.
  rewrite (invalidations_keep t_orders) by done. by destruct (t_orders d !! row_uid r).
Qed.

Lemma written_wrap r :
  r ∈ rows ->
  t_interactions d' !! (row_uid r, 0, ExecPre) = Some (db_owner (pd_order r.2), 0, WRAP_ALL_SELECTOR).
Proof.
  intros Hr. unfold write_events, insert_order_hooks. rewrite (orders_keep t_interactions) by done.
  rewrite t_interactions_overwritten. set (d1 := insert_quotes _ _).
  assert (Hd1 : t_interactions d1 !! (row_uid r, 0, ExecPre) = Some (db_owner (pd_order r.2), 0, WRAP_ALL_SELECTOR)).
  { unfold d1. rewrite (quotes_keep t_interactions), (placed_keep t_interactions) by done.
    unfold append_custom_order_info_to_db. rewrite t_interactions_overwritten, !foldl_fmap.
    rewrite (foldl_ext_elem _ (fun (m : gmap (Z * Z * ExecutionTime) (address * Z * list Z)) r =>
      <[(row_uid r, 0, ExecPre) := interaction_columns (wrap_all (db_owner (pd_order r.2)))]> m)).
    - apply (foldl_keyed_elem (fun r => (row_uid r, 0, ExecPre))
               (fun r => interaction_columns (wrap_all (db_owner (pd_order r.2))))); [|done].
      change (fun r0 => (row_uid r0, 0, ExecPre)) with (compose (fun u : Z => (u, 0, ExecPre)) row_uid).
      rewrite list_fmap_compose. apply NoDup_fmap; [|done]. by intros ?? [= ->].
    - intros m x Hx. unfold row_uid. pose proof (proj1 (Forall_forall _ _) Hrows x Hx) as Hok. cbn.
      by rewrite (row_custom_uid x Hok), (row_wrap x Hok). }
  rewrite (foldl_insert_other (fun ui => interaction_key ui.1 ui.2) (fun ui => interaction_columns ui.2)); [done|].
  intros Hin. apply list_elem_of_fmap in Hin as ([u i] & Hkey & Hin). apply list_elem_of_bind in Hin as (o & Hin & Ho).
  unfold hook_interactions in Hin. destruct (t_app_data d1 !! _ ≫= _) as [parsed|]; [|by apply elem_of_nil in Hin].
  apply elem_of_app in Hin. destruct Hin as [Hin|Hin]; repeat case_match; try (by apply elem_of_nil in Hin);
    apply list_elem_of_singleton in Hin as [= -> ->]; [|by injection Hkey].
  injection Hkey as Hu Hi. pose proof (next_free_above _ _ _ _ Hd1) as Hlt. rewrite Hu in Hlt.
  unfold next_free_interaction_indices in Hlt. cbn [fst] in Hlt. lia.
Qed.

Lemma written_invalidations :
  t_onchain_invalidations d' = foldl (fun m e => <[e.2 := e.1]> m) (t_onchain_invalidations d) invalidated.
Proof.
  unfold write_events, insert_order_hooks, append_custom_order_info_to_db.
  rewrite (orders_keep t_onchain_invalidations), (interactions_keep t_onchain_invalidations),
    (quotes_keep t_onchain_invalidations), (placed_keep t_onchain_invalidations),
    (interactions_keep t_onchain_invalidations), (ethflow_keep t_onchain_invalidations) by done.
  apply t_onchain_invalidations_inserted.
Qed.
End written.

(** ** Parsing a batch *)
Lemma sublist_omap {A B} (f : A -> option B) (l k : list A) :
  l `sublist_of` k -> omap f l `sublist_of` omap f k.
Proof.
  induction 1 as [|x l k H IH|x l k H IH]; [done| |]; simpl; case_match; auto using sublist_skip, sublist_cons.
Qed.

Lemma sublist_omap_back {A B} (f : A -> option B) (g : B -> A) (l : list A) :
  (forall x y, f x = Some y -> g y = x) -> g <$> omap f l `sublist_of` l.
Proof.
  intros H. induction l as [|x l IH]; [done|]. simpl. destruct (f x) as [y|] eqn:E; [|by apply sublist_cons].
  rewrite fmap_cons, (H _ _ E). by apply sublist_skip.
Qed.

Lemma omap_keys_NoDup {A B I} (g : A -> option B) (f : A -> option I) (k : B -> I) (l : list A) :
  (forall x y, g x = Some y -> f x = Some (k y)) -> NoDup (f <$> l) -> NoDup (k <$> omap g l).
Proof.
  intros H. induction l as [|x l IH]; [intros _; apply NoDup_nil_2|]. rewrite fmap_cons, NoDup_cons. intros [Hx Hl].
  simpl. destruct (g x) as [y|] eqn:E; [|by apply IH]. rewrite fmap_cons. apply NoDup_cons. split; [|by apply IH].
  intros (y' & Hy & (x' & Hx' & Hg)%list_elem_of_omap)%list_elem_of_fmap. apply Hx. apply list_elem_of_fmap.
  exists x'. split; [|done]. rewrite (H _ _ E), (H _ _ Hg). by f_equal.
Qed.

Definition event_index (e : ContractEvent * Log) : option (Z * Z) := log_to_event_index e.2.

Definition invalidation_of (e : ContractEvent * Log) : option (Z * Z * list Z) :=
  match e.1 with
  | OrderInvalidation bytes => (fun i => (i, bytes)) <$> event_index e
  | OrderPlacement _ => None
  end.

Definition custom_of (e : ContractEvent * Log) : option (Z * Z * (Z * Z)) :=
  match e.1 with
  | OrderPlacement event =>
      let? i := event_index e in let? c := convert_to_quote_id_and_user_valid_to event in Some (i, c)
  | OrderInvalidation _ => None
  end.

Lemma get_invalidation_events_ok l :
  (forall e, e ∈ l -> is_Some (event_index e)) -> get_invalidation_events l = Ok (omap invalidation_of l).
Proof.
  induction l as [|[data log] l IH]; intros H; [done|]. simpl.
  destruct (H (data, log)) as [i Hi]; [apply list_elem_of_here|]. unfold event_index in Hi. cbn in Hi. rewrite Hi. cbn.
  rewrite IH by (intros; apply H; by apply list_elem_of_further). unfold invalidation_of, event_index. cbn.
  destruct data; [done|]. cbn. by rewrite Hi.
Qed.

Lemma parse_custom_event_data_ok l :
  (forall e, e ∈ l -> is_Some (event_index e)) -> parse_custom_event_data l = Ok (omap custom_of l).
Proof.
  induction l as [|[data log] l IH]; intros H; [done|]. simpl.
  destruct (H (data, log)) as [i Hi]; [apply list_elem_of_here|]. unfold event_index in Hi. cbn in Hi. rewrite Hi. cbn.
  rewrite IH by (intros; apply H; by apply list_elem_of_further). unfold custom_of, event_index. cbn.
  destruct data as [event|]; [|done]. cbn. rewrite Hi. by destruct (convert_to_quote_id_and_user_valid_to event).
Qed.

Lemma extract_invalidated_order_uids_ok l :
  (forall i, i ∈ l -> length i.2 = 56%nat) ->
  extract_invalidated_order_uids l = Ok ((fun i => (i.1, from_be_bytes i.2)) <$> l).
Proof.
  intros H. unfold extract_invalidated_order_uids.
  rewrite (proj2 (mapM_Some _ _ ((fun i => (i.1, from_be_bytes i.2)) <$> l))); [done|].
  apply Forall2_fmap_r. apply Forall_Forall2_diag. apply Forall_forall. intros i Hi. unfold bytes_to_order_uid.
  by rewrite bool_decide_eq_true_2 by (by apply H).
Qed.

Lemma elem_of_dedup x l : x ∈ dedup l <-> x ∈ l.
Proof.
  induction l as [|y l IH]; [done|]. simpl. rewrite elem_of_cons, <-IH. destruct (dedup l) as [|z k].
  - by rewrite elem_of_cons.
  - destruct (Z.eqb_spec y z) as [->|]; rewrite !elem_of_cons; naive_solver.
Qed.

Section indexing.
Context (keccak256 : list Z -> Z) (from_slice : string -> option Root).
Context (to_value : QuoteMetadata -> option string).
Context (timestamp_of_block_in_seconds : Z -> result string Z).
Context (trampoline : address) (execute_calldata : list Hook -> list Z).
Context (completed : list (option PlacementData) -> list (option PlacementData)).
Context (domain_separator : Z) (settlement_contract : address).
Context {store : Type} `{!OrderQuoting store}.

Abbreviation extract := (extract_order_data_from_onchain_order_placement_event keccak256 domain_separator).
Abbreviation convert := (convert_onchain_order_placement settlement_contract).
Abbreviation parse_placement := (parse_placement keccak256 to_value domain_separator settlement_contract).
Abbreviation parse_placements := (parse_placements keccak256 to_value domain_separator settlement_contract).
Abbreviation insert_events :=
  (insert_events keccak256 from_slice to_value timestamp_of_block_in_seconds trampoline execute_calldata completed
     domain_separator settlement_contract).

(** The services answer: results are reported in some order, the quoter does not panic,
    quotes can be serialised and the node knows the blocks. *)
Record services_answer : Prop := {
  sa_completed l : completed l ≡ₚ l;
  sa_find now id s t : safe (qt_find_quote now id s t);
  sa_calculate now p : safe (qt_calculate_quote now p);
  sa_to_value m : is_Some (to_value m);
  sa_node b : exists ts, timestamp_of_block_in_seconds b = Ok ts;
}.

Definition order_uid_of (e : ContractEvent * Log) : option Z :=
  match e.1 with
  | OrderPlacement event => match extract event with Ret (Some (_, _, _, u)) => Some u | _ => None end
  | OrderInvalidation _ => None
  end.

(** What the contracts and the node guarantee of the events of a batch. *)
Record batch_ok (events : list (ContractEvent * Log)) : Prop := {
  bo_metadata e : e ∈ events -> is_Some (event_index e) /\ is_Some (log_transaction_hash e.2);
  bo_uids bytes log : (OrderInvalidation bytes, log) ∈ events -> length bytes = 56%nat;
  bo_owner event log :
    (OrderPlacement event, log) ∈ events -> cp_signature_scheme event = 0 -> length (cp_signature_data event) = 20%nat;
  bo_indices : NoDup (event_index <$> events);
  bo_orders : NoDup (omap order_uid_of events);
}.

Context (Hservices : services_answer).

Lemma block_timestamps_ok l :
  exists pairs, block_timestamps timestamp_of_block_in_seconds l = Ok pairs /\ pairs.*1 = l /\
  forall b ts, (b, ts) ∈ pairs -> timestamp_of_block_in_seconds b = Ok ts.
Proof.
  induction l as [|b l (pairs & IH & Hfst & Hts)]; [exists []; split_and!; [done..|by intros ?? ?%elem_of_nil]|].
  destruct (sa_node Hservices b) as [ts Hb]. exists ((b, ts) :: pairs). simpl. rewrite Hb. cbn. rewrite IH. cbn.
  split_and!; [done|by rewrite <-Hfst|]. intros b' ts' [[= -> ->]|H]%elem_of_cons; [done|by apply Hts].
Qed.

Lemma get_block_numbers_of_events_ok l :
  (forall e, e ∈ l -> is_Some (event_index e)) ->
  exists m, get_block_numbers_of_events timestamp_of_block_in_seconds l = Ok m /\
  forall e i, e ∈ l -> event_index e = Some i -> exists ts, m !! i.1 = Some ts /\ timestamp_of_block_in_seconds i.1 = Ok ts.
Proof.
  intros Hl. unfold get_block_numbers_of_events.
  assert (Hnum : forall e i, event_index e = Some i -> log_block_number e.2 = Some i.1).
  { intros e i. unfold event_index, log_to_event_index, to_i64. repeat case_match; naive_solver. }
  destruct (proj2 (mapM_is_Some (fun e : ContractEvent * Log => log_block_number e.2) l)) as [numbers Hn].
  { apply Forall_forall. intros e He. destruct (Hl e He) as [i Hi]. exists i.1. by apply Hnum. }
  rewrite Hn. cbn. destruct (block_timestamps_ok (dedup numbers)) as (pairs & -> & Hfst & Hts). cbn.
  eexists; split; [done|]. intros e i He Hi. apply mapM_Some in Hn.
  assert (Hin : i.1 ∈ dedup numbers).
  { apply elem_of_dedup. apply list_elem_of_lookup in He as [n He].
    destruct (Forall2_lookup_l _ _ _ _ _ Hn He) as (x & Hx & Heq). rewrite (Hnum e i Hi) in Heq. injection Heq as <-.
    by eapply list_elem_of_lookup_2. }
  rewrite <-Hfst in Hin. destruct (list_to_map (M := gmap Z Z) pairs !! i.1) as [ts|] eqn:E.
  - exists ts. split; [done|]. apply Hts. by apply elem_of_list_to_map_2.
  - by apply not_elem_of_list_to_map in E.
Qed.

(** The data of an order read from an event. *)
Definition parsed_of (e : ContractEvent * Log) (p : PlacementData) : Prop :=
  exists event data owner scheme u ts quote,
    e.1 = OrderPlacement event /\ event_index e = Some (pd_event_index p) /\
    extract event = Ret (Some (data, owner, scheme, u)) /\
    timestamp_of_block_in_seconds (pd_event_index p).1 = Ok ts /\
    convert event ts quote data scheme u owner = (pd_placement p, pd_order p) /\
    onchain_db_quote to_value u quote = Some (pd_quote p).

Lemma onchain_get_quote_safe now data scheme id t : safe (onchain_get_quote now data scheme id t).
Proof.
  unfold onchain_get_quote, get_quote_and_check_fee, get_or_create_quote. case_match; [|done].
  destruct (safe_inv _ (sa_find Hservices now (Some id)
    (mkQuoteSearchParameters (od_sell_token data) (od_buy_token data) (od_sell_amount data) (od_buy_amount data)
       (od_fee_amount data) (od_kind data) q 0 onchain_verification) t)) as [[quote|err] ->]; cbn; [done|].
  case_match; cbn; [|done]. destruct (safe_inv _ (sa_calculate Hservices now a)) as [[quote|err'] ->]; cbn; [|done].
  by destruct (qt_store_quote quote t) as [[]].
Qed.

Lemma extract_safe event :
  (cp_signature_scheme event = 0 -> length (cp_signature_data event) = 20%nat) -> safe (extract event).
Proof.
  intros H. unfold extract_order_data_from_onchain_order_placement_event.
  destruct (Z.eqb_spec (cp_signature_scheme event) 0) as [E|]; [|done].
  by rewrite bool_decide_eq_true_2 by auto.
Qed.

Lemma parse_placement_spec now event log ts id tx t :
  is_Some (log_to_event_index log) -> safe (extract event) ->
  (exists i, log_to_event_index log = Some i /\ timestamp_of_block_in_seconds i.1 = Ok ts) ->
  returns (parse_placement now (OrderPlacement event, log, ts, id, tx) t) (fun r =>
    (forall p, r.1 = Some p -> parsed_of (OrderPlacement event, log) p) /\
    (forall x, extract event = Ret (Some x) -> is_Some r.1)).
Proof.
  intros _ Hsafe (i & Hi & Hts). unfold OnchainOrders.parse_placement. rewrite Hi.
  destruct (safe_inv _ Hsafe) as [[[[[data owner] scheme] u]|] Hx]; rewrite Hx; cbn; [|split; [done|by intros ? [=]]].
  destruct (safe_inv _ (onchain_get_quote_safe now data scheme id t)) as [[quote t'] Hq]. rewrite Hq. cbn.
  assert (Hdb : exists q, onchain_db_quote to_value u quote = Some q).
  { destruct quote as [quote|]; [|by eexists]. cbn. destruct (sa_to_value Hservices (qd_metadata (q_data quote))) as [m ->]. eauto. }
  destruct Hdb as [q Hdb]. rewrite Hdb. split; [|eauto]. intros p [= <-].
  exists event, data, owner, scheme, u, ts, quote. unfold event_index. cbn. rewrite Hdb, Hi, Hts. done.
Qed.

Definition placement_event (x : ContractEvent * Log * Z * Z * Z) : ContractEvent * Log := x.1.1.1.

(** The events whose orders are parsed. *)
Definition zipped_ok (x : ContractEvent * Log * Z * Z * Z) : Prop :=
  is_placement (placement_event x) = true /\
  (forall event, (placement_event x).1 = OrderPlacement event -> safe (extract event)) /\
  exists i, event_index (placement_event x) = Some i /\ timestamp_of_block_in_seconds i.1 = Ok x.1.1.2.

Definition parse_result (x : ContractEvent * Log * Z * Z * Z) (o : option PlacementData) : Prop :=
  (forall p, o = Some p -> parsed_of (placement_event x) p) /\
  (is_Some (order_uid_of (placement_event x)) -> is_Some o).

Lemma parse_placements_spec now l t :
  Forall zipped_ok l -> returns (parse_placements now l t) (fun r => Forall2 parse_result l r.1).
Proof.
  intros Hl. revert t. induction Hl as [|x l Hx Hl IH]; intros t; [by constructor|]. simpl.
  destruct x as [[[[[event|bytes] log] ts] id] tx]; destruct Hx as (Hp & Hsafe & i & Hi & Hts); [|done].
  eapply returns_bind; [apply parse_placement_spec; [by eexists| by apply Hsafe| by exists i]|].
  intros r [H1 H2]. eapply returns_bind; [apply IH|]. intros rest Hrest. cbn. constructor; [|done].
  split; [done|]. unfold order_uid_of, placement_event. cbn. intros [u Hu].
  destruct (extract event) as [[y|]|] eqn:E; [by eapply H2|done..].
Qed.

(** The custom data of the events of a batch. *)
Lemma by_index_elem f l e i c :
  NoDup (event_index <$> l) -> e ∈ l -> custom_of e = Some (i, c) -> by_index f (omap custom_of l) !! i = Some (f c).
Proof.
  intros Hnd He Hc. apply (foldl_keyed_elem fst (fun c : Z * Z * (Z * Z) => f c.2) _ _ (i, c)).
  - apply (omap_keys_NoDup _ event_index); [|done]. intros x y. unfold custom_of. repeat case_match; try done. by intros [= <-].
  - apply list_elem_of_omap. by exists e.
Qed.

Lemma by_index_both l i q :
  by_index fst (omap custom_of l) !! i = Some q -> is_Some (by_index snd (omap custom_of l) !! i).
Proof.
  unfold by_index. intros Hq. destruct (decide (i ∈ fst <$> omap custom_of l)) as [Hin|Hno].
  - by apply (foldl_insert_is_Some fst (fun c : Z * Z * (Z * Z) => c.2.2)).
  - rewrite (foldl_insert_other fst (fun c : Z * Z * (Z * Z) => c.2.1)) in Hq by done. by rewrite lookup_empty in Hq.
Qed.

(** The events whose orders are parsed: those with custom data. *)
Definition zip_event (timestamps : gmap Z Z) (quote_ids : gmap (Z * Z) Z) (e : ContractEvent * Log)
  : option (ContractEvent * Log * Z * Z * Z) :=
  let? tx_hash := log_transaction_hash e.2 in
  let? i := event_index e in
  let? quote_id := quote_ids !! i in
  let? ts := timestamps !! i.1 in Some (e, ts, quote_id, tx_hash).

Lemma event_and_quote_zip timestamps quote_ids (l : list (ContractEvent * Log)) :
  (forall e i, e ∈ l -> event_index e = Some i -> is_Some (timestamps !! i.1)) ->
  comp_map (event_and_quote timestamps quote_ids) l = Ret (zip_event timestamps quote_ids <$> l).
Proof.
  intros H. apply comp_map_Ret. apply Forall2_fmap_r, Forall_Forall2_diag, Forall_forall. intros e He.
  cbv beta. unfold compose, event_and_quote, zip_event. change (log_to_event_index e.2) with (event_index e).
  destruct (log_transaction_hash e.2); [|done]. destruct (event_index e) as [i|] eqn:Hi; [|done].
  destruct (quote_ids !! i); [|done]. by destruct (H e i He Hi) as [ts ->].
Qed.

Lemma zip_event_back timestamps quote_ids e x :
  zip_event timestamps quote_ids e = Some x ->
  placement_event x = e /\ exists i, event_index e = Some i /\ is_Some (quote_ids !! i) /\ timestamps !! i.1 = Some x.1.1.2.
Proof. unfold zip_event. repeat case_match; try done. intros [= <-]. split; [done|]. eauto 10. Qed.

Lemma omap_id_fmap {A B} (f : A -> option B) (l : list A) : omap id (f <$> l) = omap f l.
Proof. induction l as [|x l IH]; [done|]. simpl. unfold id at 1. destruct (f x); [f_equal|]; exact IH. Qed.

Lemma parsed_uids l os :
  Forall2 parse_result l os ->
  (fun p => db_uid (pd_order p)) <$> omap id os `sublist_of` omap order_uid_of (placement_event <$> l).
Proof.
  induction 1 as [|x [p|] l os [H1 H2] H IH]; [done|..]; simpl.
  - destruct (H1 p eq_refl) as (event & data & owner & scheme & u & ts & quote & Hev & _ & Hx & _ & Hc & _).
    unfold order_uid_of at 1. rewrite Hev, Hx. injection Hc as _ <-. by apply sublist_skip.
  - case_match; [by apply sublist_cons|done].
Qed.

(** A row of the custom table with the data of its placement. *)
Definition row_of (custom_data : gmap (Z * Z) Z) (p : PlacementData) (row : EthFlowDataForDb * PlacementData) : Prop :=
  (row.2 = p) /\ ef_uid row.1 = db_uid (pd_order p) /\ ef_pre_interaction row.1 = wrap_all (db_owner (pd_order p)) /\
  custom_data !! pd_event_index p = Some (ef_valid_to row.1).

Lemma rows_of_placements custom_data (l : list PlacementData) :
  (forall p, p ∈ l -> is_Some (custom_data !! pd_event_index p)) ->
  returns (comp_map (fun p => (let! c := customized_event_data_for_event_index (pd_event_index p) (pd_order p) custom_data
                               in Ret (c, p))) l) (Forall2 (row_of custom_data) l).
Proof.
  intros H. apply comp_map_returns. intros p Hp. destruct (H p Hp) as [valid_to Hv].
  unfold customized_event_data_for_event_index. rewrite Hv. by split_and!.
Qed.

Lemma row_of_ok custom_data e p row : parsed_of e p -> row_of custom_data p row -> row_ok row.
Proof.
  destruct row as [c p'].
  intros (event & data & owner & scheme & u & ts & quote & _ & _ & _ & _ & Hc & Hq) (Hp & Hu & Hw & _). cbn in *. subst p'.
  injection Hc as Hpl Ho. assert (Huid : db_uid (pd_order p) = u) by by rewrite <-Ho.
  constructor; cbn; [done|by rewrite <-Hpl, Huid|done|]. intros q Hsome. rewrite Huid. revert Hq. rewrite Hsome. clear.
  destruct quote; cbn; [|done]. case_match; [|done]. by intros [= <-].
Qed.

(** Parsing a batch finds the order of every event with custom data, and each once. *)
Record answer_ok (quote_ids : gmap (Z * Z) Z) (l : list (ContractEvent * Log)) (answer : list PlacementData) : Prop := {
  ao_parsed p : p ∈ answer -> exists e, e ∈ l /\ parsed_of e p /\ is_Some (quote_ids !! pd_event_index p);
  ao_once : NoDup ((fun p => db_uid (pd_order p)) <$> answer);
  ao_complete e i : e ∈ l -> is_Some (order_uid_of e) -> event_index e = Some i -> is_Some (quote_ids !! i) ->
    exists p, p ∈ answer /\ parsed_of e p;
}.

Lemma zipped_all_ok timestamps quote_ids (l : list (ContractEvent * Log)) :
  batch_ok l -> Forall (fun e => is_placement e = true) l ->
  (forall e i, e ∈ l -> event_index e = Some i ->
     exists ts, timestamps !! i.1 = Some ts /\ timestamp_of_block_in_seconds i.1 = Ok ts) ->
  Forall zipped_ok (omap (zip_event timestamps quote_ids) l).
Proof.
  intros Hb Hplaced Hts. apply Forall_forall. intros x (e & He & Hx)%list_elem_of_omap.
  destruct (zip_event_back _ _ _ _ Hx) as (Hpe & i & Hi & _ & Ht).
  destruct (Hts e i He Hi) as (ts & Hts1 & Hts2). rewrite Ht in Hts1. injection Hts1 as <-. split_and!.
  - rewrite Hpe. by eapply Forall_forall in Hplaced.
  - intros event Hev. apply extract_safe. intros Hs. eapply (bo_owner _ Hb event e.2); [|done].
    rewrite <-Hev, Hpe. by destruct e.
  - exists i. by rewrite Hpe.
Qed.

Lemma parse_general_spec now timestamps quote_ids (l : list (ContractEvent * Log)) t :
  batch_ok l -> Forall (fun e => is_placement e = true) l ->
  (forall e i, e ∈ l -> event_index e = Some i ->
     exists ts, timestamps !! i.1 = Some ts /\ timestamp_of_block_in_seconds i.1 = Ok ts) ->
  returns (parse_general_onchain_order_placement_data keccak256 to_value completed domain_separator settlement_contract
             now (omap (zip_event timestamps quote_ids) l) t) (fun a => answer_ok quote_ids l a.1).
Proof.
  intros Hb Hplaced Hts. unfold parse_general_onchain_order_placement_data.
  eapply returns_bind; [by apply parse_placements_spec, zipped_all_ok|].
  intros [os t'] Hos. cbn in *.
  assert (Hin : forall p, p ∈ omap id (completed os) <-> Some p ∈ os).
  { intros p. rewrite list_elem_of_omap. setoid_rewrite (sa_completed Hservices). split; [|by eexists].
    intros (o & Ho & Heq). unfold id in Heq. by subst o. }
  constructor.
  - intros p Hp%Hin. apply list_elem_of_lookup in Hp as [n Hn].
    destruct (Forall2_lookup_r _ _ _ _ _ Hos Hn) as (x & Hx%list_elem_of_lookup_2 & [H1 _]).
    apply list_elem_of_omap in Hx as (e & He & Hx). destruct (zip_event_back _ _ _ _ Hx) as (Hpe & i & Hi & Hq & _).
    exists e. pose proof (H1 p eq_refl) as Hparsed. rewrite Hpe in Hparsed. split_and!; [done..|].
    destruct Hparsed as (event & data & owner & scheme & u & ts & quote & _ & Hidx & _). by simplify_eq.
  - rewrite (sa_completed Hservices). eapply sublist_NoDup; [exact (bo_orders _ Hb)|].
    etrans; [by apply parsed_uids|]. apply sublist_omap. apply sublist_omap_back.
    intros e x Hx. by destruct (zip_event_back _ _ _ _ Hx).
  - intros e i He Hu Hi [q Hq]. destruct (Hts e i He Hi) as (ts & Ht & _). destruct (bo_metadata _ Hb e He) as [_ [tx Htx]].
    assert (Hx : (e, ts, q, tx) ∈ omap (zip_event timestamps quote_ids) l).
    { apply list_elem_of_omap. exists e. split; [done|]. unfold zip_event. by rewrite Htx, Hi, Hq, Ht. }
    apply list_elem_of_lookup in Hx as [n Hn]. destruct (Forall2_lookup_l _ _ _ _ _ Hos Hn) as (o & Ho%list_elem_of_lookup_2 & [H1 H2]).
    destruct (H2 Hu) as [p ->]. exists p. split; [by apply Hin|by apply H1].
Qed.

Lemma extract_custom_and_general_spec now (l : list (ContractEvent * Log)) t :
  batch_ok l -> Forall (fun e => is_placement e = true) l ->
  returns (extract_custom_and_general_order_data keccak256 to_value timestamp_of_block_in_seconds completed
             domain_separator settlement_contract now l t) (fun r =>
    exists rows, r.1 = Ok rows /\ Forall row_ok rows /\ NoDup (row_uid <$> rows) /\
    forall e i quote_id user_valid_to,
      e ∈ l -> is_Some (order_uid_of e) -> custom_of e = Some (i, (quote_id, user_valid_to)) ->
      exists row, row ∈ rows /\ parsed_of e row.2 /\ ef_valid_to row.1 = user_valid_to).
Proof.
  intros Hb Hplaced. unfold extract_custom_and_general_order_data.
  destruct (get_block_numbers_of_events_ok l) as (timestamps & -> & Hts); [intros e He; by apply Hb|].
  rewrite parse_custom_event_data_ok by (intros e He; by apply Hb). cbn [result_bind].
  rewrite event_and_quote_zip by (intros e i He Hi; destruct (Hts e i He Hi) as (ts & -> & _); eauto).
  cbn [comp_bind]. rewrite omap_id_fmap.
  eapply returns_bind; [by apply parse_general_spec|]. intros [answer t'] Ha. cbn [fst] in *.
  eapply returns_bind; [apply rows_of_placements|].
  { intros p Hp. destruct (ao_parsed _ _ _ Ha p Hp) as (e & _ & _ & q & Hq). by eapply by_index_both. }
  intros rows Hrows. exists rows. split; [done|]. split_and!.
  - apply Forall_forall. intros row [n Hn]%list_elem_of_lookup.
    destruct (Forall2_lookup_r _ _ _ _ _ Hrows Hn) as (p & Hp%list_elem_of_lookup_2 & Hrow).
    destruct (ao_parsed _ _ _ Ha p Hp) as (e & _ & He & _). by eapply row_of_ok.
  - replace (row_uid <$> rows) with ((fun p => db_uid (pd_order p)) <$> answer); [by apply Ha|].
    clear -Hrows. induction Hrows as [|p row k rows (Hp & _) H IH]; [done|]. rewrite !fmap_cons, IH. unfold row_uid at 2. by rewrite Hp.
  - intros e i id valid_to He Hu Hc.
    assert (Hi : event_index e = Some i) by (revert Hc; unfold custom_of; repeat case_match; naive_solver).
    destruct (ao_complete _ _ _ Ha e i He Hu Hi) as (p & Hp & Hparsed).
    { rewrite (by_index_elem fst l e i (id, valid_to)) by (done || apply Hb). eauto. }
    apply list_elem_of_lookup in Hp as [n Hn]. destruct (Forall2_lookup_l _ _ _ _ _ Hrows Hn) as (row & Hr%list_elem_of_lookup_2 & Hp & _ & _ & Hv).
    exists row. rewrite Hp. split_and!; [done..|].
    assert (pd_event_index p = i) as Hpi.
    { destruct Hparsed as (event & data & owner & scheme & u & ts & quote & _ & Hidx & _). by simplify_eq. }
    rewrite Hpi, (by_index_elem snd l e i (id, valid_to)) in Hv by (done || apply Hb). by injection Hv.
Qed.

Lemma batch_ok_placements events : batch_ok events -> batch_ok (filter (fun e => is_placement e = true) events).
Proof.
  intros Hb. assert (Hsub : filter (fun e => is_placement e = true) events `sublist_of` events) by apply sublist_filter.
  constructor.
  - intros e [_ He]%list_elem_of_filter. by apply Hb.
  - intros bytes log [? _]%list_elem_of_filter. done.
  - intros event log [_ He]%list_elem_of_filter. by apply (bo_owner _ Hb event log).
  - eapply sublist_NoDup; [exact (bo_indices _ Hb)|]. by apply fmap_sublist.
  - eapply sublist_NoDup; [exact (bo_orders _ Hb)|]. by apply sublist_omap.
Qed.

Lemma insert_events_spec now events d t :
  batch_ok events ->
  exists d' t' rows, insert_events now events d t = Ret (Ok d', t') /\ Forall row_ok rows /\ NoDup (row_uid <$> rows) /\
    d' = write_events from_slice trampoline execute_calldata now
           ((fun i => (i.1, from_be_bytes i.2)) <$> omap invalidation_of events) rows d /\
    forall e i quote_id user_valid_to,
      e ∈ events -> is_Some (order_uid_of e) -> custom_of e = Some (i, (quote_id, user_valid_to)) ->
      exists row, row ∈ rows /\ parsed_of e row.2 /\ ef_valid_to row.1 = user_valid_to.
Proof.
  intros Hb. unfold OnchainOrders.insert_events.
  rewrite get_invalidation_events_ok by (intros e He; by apply Hb). cbn [result_bind].
  rewrite extract_invalidated_order_uids_ok.
  2: { intros i (e & He & Hi)%list_elem_of_omap. destruct e as [[event|bytes] log]; [done|]. cbn in Hi.
       destruct (event_index _); [|done]. injection Hi as <-. by apply (bo_uids _ Hb bytes log). }
  destruct (returns_inv _ _ (extract_custom_and_general_spec now _ t (batch_ok_placements _ Hb) ltac:(apply Forall_forall; by intros e [? _]%list_elem_of_filter)))
    as ([answer t'] & Heq & rows & Hrows & Hok & Hnd & Hall). rewrite Heq. cbn in Hrows |- *. rewrite Hrows.
  eexists _, t', rows. split_and!; [done..|]. intros e i id v He Hu Hc. eapply Hall; [|done..].
  apply list_elem_of_filter. split; [|done]. revert Hu. unfold order_uid_of, is_placement. by destruct e.1; [|intros []].
Qed.
End indexing.


(** ** Examples *)

(** A quoter that always finds the same quote. *)
Definition fixed_quoter : OrderQuoting unit := {|
  qt_calculate_quote := fun _ _ => Ret (Ok sample_quote);
  qt_store_quote := fun q t => (Ok q, t);
  qt_find_quote := fun _ _ _ _ => Ret (Ok sample_quote) |}.

(** An ethflow order valid until 700 by the user's wish, as a placement of contract 9,
    signed with the largest validity. *)
Definition example_placement : ContractOrderPlacement :=
  mkContractOrderPlacement 4 (mkGPv2OrderData 1 2 3 1000 900 (2 ^ 32 - 1) 5 0 KIND_SELL false BALANCE_ERC20 BALANCE_ERC20)
    0 (be_bytes 20 9) (be_bytes 8 1 ++ be_bytes 4 700).
Definition example_events : list (ContractEvent * Log) :=
  [(OrderPlacement example_placement, mkLog (Some 50) (Some 0) (Some 77));
   (OrderInvalidation (be_bytes 56 8), mkLog (Some 50) (Some 1) (Some 78))].

(** App data whose document has a hook before the trade. *)
Definition hook_document : string := "hook".
Definition example_from_slice (s : string) : option Root :=
  Some (mkRoot None (Some (mkHooks [mkHook 6 [1] 100] []))).
Definition onchain_db (app_data : gmap Z string) : Db := mkDb ∅ ∅ ∅ ∅ ∅ ∅ ∅ ∅ ∅ ∅ ∅ app_data [] [].

Definition example_append (d : Db) : comp (result OnchainError Db * unit) :=
  let _ := fixed_quoter in
  onchain_append_events sample_keccak example_from_slice (fun _ => Some ""%string) (fun _ => Ok 40) 55
    (fun hooks => [Z.of_nat (length hooks)]) id 3 8 45 example_events d tt.

(** The validity the user asked for is not the one the order is stored with, so a query
    for open orders returns the order long after it expired. *)
Lemma ethflow_validity_lost :
  (let! answer := example_append (onchain_db ∅) in
   Ret match answer.1 with
       | Ok d => Some (((fun kv => (t_ethflow_orders d !! kv.1, or_true_valid_to kv.2)) <$> map_to_list (t_orders d)),
                       FullOrder_valid_to <$> solvable_orders 1000 d)
       | Err _ => None
       end) = Ret (Some ([(Some 700, 2 ^ 32 - 1)], [700])).
Proof. vm_compute. reflexivity. Qed.

(** Indexing the same events again, as after a reorganisation, repeats the hooks. *)
Lemma reindexed_hooks_repeated :
  (let! first := example_append (onchain_db {[5 := hook_document]}) in
   match first.1 with
   | Ok d =>
       let! second := example_append (delete_events 50 d) in
       Ret match second.1 with
           | Ok d' => Some ((fun u => length (raw_interactions u ExecPre d)) <$> (map_to_list (t_orders d)).*1,
                            (fun u => length (raw_interactions u ExecPre d')) <$> (map_to_list (t_orders d')).*1)
           | Err _ => None
           end
   | Err _ => Ret None
   end) = Ret (Some ([2%nat], [3%nat])).
Proof. vm_compute. reflexivity. Qed.

(** Refund events between the last indexed one and the last indexed settlement are
    skipped. *)
Lemma refund_indexing_skips_blocks :
  determine_ethflow_refund_indexing_start (fun b => Some (b, b)) (fun _ => None)
    {[REFUND_INDEX_NAME := 100; SETTLEMENT_INDEX_NAME := 200]} None None 1 = Ret (200, 200).
Proof. vm_compute. reflexivity. Qed.

Lemma fixed_services_answer :
  services_answer (store := unit) (OrderQuoting0 := fixed_quoter) (fun _ => Some ""%string) (fun _ => Ok 40) id.
Proof. split; try done. intros b. by exists 40. Qed.

Lemma example_events_ok : batch_ok sample_keccak 3 example_events.
Proof.
  split.
  - intros e [->|[->|[]%elem_of_nil]%elem_of_cons]%elem_of_cons; split; eexists; reflexivity.
  - intros bytes log [[=]|[[= -> _]|[]%elem_of_nil]%elem_of_cons]%elem_of_cons. reflexivity.
  - intros event log [[= -> _]|[[=]|[]%elem_of_nil]%elem_of_cons]%elem_of_cons _. reflexivity.
  - apply (bool_decide_unpack _). vm_compute. exact I.
  - apply (bool_decide_unpack _). vm_compute. exact I.
Qed.

