(* ===== verification/PriceEstimation.v ===== *)
(** * Price estimation

    [shared/src/price_estimation]: the competition of estimators over several stages
    ([competition/mod.rs], [competition/quote.rs], [competition/native.rs]), the estimator
    that handles unsupported tokens and the native asset ([sanitized.rs]) and the estimator
    of native prices ([native/mod.rs]).

    An estimator is a function from a query to its answer; the order in which the requests
    of a batch complete is the parameter [completed], of which only
    [completed l ≡ₚ l] is assumed. *)

From stdpp Require Import base gmap sets list strings.
From Stdlib Require Import ZArith Lia SpecFloat.
From S2P Require Import Prelude Collections F64 Eth Liquidity Solution Dto Score DriverOrder DriverCompetition.
From S2P Require Import OrderModel AppData OrderCreation OrderQuoting AuctionBuilding.

Open Scope Z_scope.
Open Scope rust_scope.

(** ** The stages of a competition *)

(** The stage of an estimator and its index within the stage. *)
Definition EstimatorIndex : Type := nat * nat.

Section produce.
Context {T R : Type} (usable_results_for_early_return : Z).
Context (result_is_usable : result PriceEstimationError R -> bool).
Context (get_single_result : EstimatorIndex -> T -> nat -> result PriceEstimationError R).
Context (completed : list (EstimatorIndex * result PriceEstimationError R) ->
                     list (EstimatorIndex * result PriceEstimationError R)).

Definition usable_count (results : list (EstimatorIndex * result PriceEstimationError R)) : Z :=
  Z.of_nat (length (filter (fun r => result_is_usable r.2 = true) results)).

Definition missing_results (results : list (EstimatorIndex * result PriceEstimationError R)) : Z :=
  Z.max 0 (usable_results_for_early_return - usable_count results).

Definition stage_requests (stage_index : nat) (stage : list (string * T)) : list (EstimatorIndex * T) :=
  imap (fun index e => ((stage_index, index), e.2)) stage.

(** The stages are started until enough results are possible. *)
Fixpoint collect_requests (requests_for_batch : Z) (requests : list (EstimatorIndex * T)) (stage_index : nat)
  (stages : list (list (string * T))) : list (EstimatorIndex * T) * nat * list (list (string * T)) :=
  match stages with
  | [] => (requests, stage_index, [])
  | stage :: rest =>
      if Z.of_nat (length requests) <? requests_for_batch
      then collect_requests requests_for_batch (requests ++ stage_requests stage_index stage) (S stage_index) rest
      else (requests, stage_index, stages)
  end.

(** Results are taken until enough of them are usable. *)
Fixpoint receive_results (results answers : list (EstimatorIndex * result PriceEstimationError R))
  : list (EstimatorIndex * result PriceEstimationError R) * bool :=
  match answers with
  | [] => (results, false)
  | answer :: answers =>
      let results := results ++ [answer] in
      if missing_results results =? 0 then (results, true) else receive_results results answers
  end.

Fixpoint produce_loop (fuel : nat) (stage_index : nat) (stages : list (list (string * T)))
  (results : list (EstimatorIndex * result PriceEstimationError R))
  : option (list (EstimatorIndex * result PriceEstimationError R)) :=
  match fuel with
  | O => None
  | S fuel =>
      match stages with
      | [] => Some results
      | _ =>
          let '(requests, stage_index, stages) := collect_requests (missing_results results) [] stage_index stages in
          let remaining_stages := length stages in
          let answers := completed ((fun q => (q.1, get_single_result q.1 q.2 remaining_stages)) <$> requests) in
          let '(results, enough) := receive_results results answers in
          if enough then Some results else produce_loop fuel stage_index stages results
      end
  end.

(** Every round starts at least one stage; [None] is a loop that does not end. *)
Definition produce_results (stages : list (list (string * T)))
  : option (list (EstimatorIndex * result PriceEstimationError R)) :=
  produce_loop (S (length stages)) 0 stages [].
End produce.

(** ** Ranking *)

Definition error_to_integer_priority (e : PriceEstimationError) : Z :=
  match e with
  | RateLimited => 5
  | ProtocolInternal _ => 4
  | EstimatorInternal _ => 3
  | UnsupportedToken _ _ => 2
  | NoLiquidity => 1
  | UnsupportedOrderType _ => 0
  end.

Definition compare_error (a b : PriceEstimationError) : comparison :=
  Z.compare (error_to_integer_priority a) (error_to_integer_priority b).

(** The native estimator and the gas price of [BestBangForBuck]. *)
Inductive PriceRanking :=
| MaxOutAmount
| BestBangForBuck (native : address -> Z -> result PriceEstimationError f64) (gas : result string Z).

Record RankingContext := mkRankingContext { rc_native_price : f64; rc_gas_price : f64 }.

Definition provide_context (r : PriceRanking) (token : address) (timeout : Z)
  : result PriceEstimationError RankingContext :=
  match r with
  | MaxOutAmount => Ok (mkRankingContext (f64_lit 1) (f64_lit 0))
  | BestBangForBuck native gas =>
      letr native_price := native token timeout in
      letr gas_price := match gas with Ok g => Ok g | Err e => Err (ProtocolInternal e) end in
      Ok (mkRankingContext native_price (f64_lit gas_price))
  end.

(** [f64::trunc]. *)
Definition f64_trunc_to_float (x : f64) : f64 :=
  match x with
  | S754_finite s m e =>
      if 0 <=? e then x
      else let q := Z.pos m / 2 ^ (- e) in
           if q =? 0 then S754_zero s else f64_lit (if s then - q else q)
  | _ => x
  end.

(** [Iterator::max_by] with a comparison that can panic. *)
Fixpoint comp_max_by_from {A} (cmp : A -> A -> comp comparison) (best : A) (l : list A) : comp A :=
  match l with
  | [] => Ret best
  | x :: l =>
      let! c := cmp best x in
      comp_max_by_from cmp (match c with Gt => best | _ => x end) l
  end.
Definition comp_max_by {A} (cmp : A -> A -> comp comparison) (l : list A) : comp (option A) :=
  match l with
  | [] => Ret None
  | x :: l => let! best := comp_max_by_from cmp x l in Ret (Some best)
  end.

Section ranking.
Context (f64_from_u256 : Z -> f64) (u256_from_f64 : f64 -> comp Z).

Definition effective_eth_out (c : RankingContext) (e : Estimate) (kind : Side) : comp Z :=
  let eth_out := f64_mul (f64_from_u256 (est_out_amount e)) (rc_native_price c) in
  let fees := f64_mul (f64_lit (est_gas e)) (rc_gas_price c) in
  let v := match kind with Sell => f64_sub eth_out fees | Buy => f64_add eth_out fees end in
  if is_sign_negative v || match v with S754_nan => true | _ => false end then Ret 0
  else match v with
       | S754_infinity _ => Ret U256_MAX
       | _ => u256_from_f64 (f64_trunc_to_float v)
       end.

Definition compare_quote (kind : Side) (a b : Estimate) (c : RankingContext) : comp comparison :=
  let! a := effective_eth_out c a kind in
  let! b := effective_eth_out c b kind in
  Ret match kind with Buy => CompOpp (Z.compare a b) | Sell => Z.compare a b end.

Definition compare_quote_result (kind : Side) (a b : result PriceEstimationError Estimate) (c : RankingContext)
  (prefer_verified_estimates : bool) : comp comparison :=
  match a, b with
  | Ok a, Ok b =>
      match prefer_verified_estimates, est_verified a, est_verified b with
      | true, true, false => Ret Gt
      | true, false, true => Ret Lt
      | _, _, _ => compare_quote kind a b c
      end
  | Ok _, Err _ => Ret Gt
  | Err _, Ok _ => Ret Lt
  | Err a, Err b => Ret (compare_error a b)
  end.

(** ** The competition *)

(** An estimator with its name. *)
Record CompetitionEstimator (T : Type) := mkCompetitionEstimator {
  ce_stages : list (list (string * T));
  ce_usable_results_for_early_return : Z;
  ce_ranking : PriceRanking;
  ce_verification_mode : QuoteVerificationMode;
}.
Arguments mkCompetitionEstimator {T} _ _ _ _.
Arguments ce_stages {T} _.
Arguments ce_usable_results_for_early_return {T} _.
Arguments ce_ranking {T} _.
Arguments ce_verification_mode {T} _.

Definition CompetitionEstimator_new {T} (stages : list (list (string * T))) (ranking : PriceRanking)
  : comp (CompetitionEstimator T) :=
  match stages with
  | [] => Panic
  | _ => if forallb (fun stage => negb (bool_decide (length stage = 0%nat))) stages
         then Ret (mkCompetitionEstimator stages (2 ^ 64 - 1) ranking Unverified)
         else Panic
  end.

Definition with_verification {T} (c : CompetitionEstimator T) (mode : QuoteVerificationMode) : CompetitionEstimator T :=
  mkCompetitionEstimator (ce_stages c) (ce_usable_results_for_early_return c) (ce_ranking c) mode.

Definition with_early_return {T} (c : CompetitionEstimator T) (n : Z) : CompetitionEstimator T :=
  mkCompetitionEstimator (ce_stages c) n (ce_ranking c) (ce_verification_mode c).

(** Neither free gas nor an empty trade. *)
Definition is_reasonable (r : result PriceEstimationError Estimate) : bool :=
  match r with Ok e => (0 <? est_gas e) && negb (est_out_amount e =? 0) | Err _ => false end.

Definition is_error {E A} (r : result E A) : bool := match r with Ok _ => false | Err _ => true end.

Definition with_timeout (q : PriceQuery) (timeout : Z) : PriceQuery :=
  mkPriceQuery (pq_sell_token q) (pq_buy_token q) (pq_in_amount q) (pq_kind q) (pq_verification q)
    (pq_block_dependent q) timeout.

Definition prefers_verified (mode : QuoteVerificationMode) : bool :=
  match mode with Unverified => false | _ => true end.

(** The token whose price ranks the estimates. *)
Definition out_token (q : PriceQuery) : address :=
  match pq_kind q with Buy => pq_sell_token q | Sell => pq_buy_token q end.

Definition UNREASONABLE : string := "all price estimates were unreasonable (0 gas or 0 out_amount)".

Definition competition_estimate
  (completed : list (EstimatorIndex * result PriceEstimationError Estimate) ->
               list (EstimatorIndex * result PriceEstimationError Estimate))
  (c : CompetitionEstimator (PriceQuery -> result PriceEstimationError Estimate)) (query : PriceQuery)
  : option (comp (result PriceEstimationError Estimate)) :=
  let n := Z.of_nat (length (ce_stages c)) mod 2 ^ 32 in
  if n =? 0 then Some Panic
  else
    let query := with_timeout query (pq_timeout query / n) in
    let? results := produce_results (ce_usable_results_for_early_return c) is_reasonable
                      (fun _ estimator _ => estimator query) completed (ce_stages c) in
    Some match provide_context (ce_ranking c) (out_token query) (pq_timeout query) with
         | Err e => Ret (Err e)
         | Ok context =>
             let! winner := comp_max_by
                 (fun a b => compare_quote_result (pq_kind query) a.2 b.2 context (prefers_verified (ce_verification_mode c)))
                 (filter (fun r => is_error r.2 || is_reasonable r.2 = true) results) in
             Ret match winner with
                 | None => Err (EstimatorInternal UNREASONABLE)
                 | Some winner => winner.2
                 end
         end.
End ranking.

Arguments mkCompetitionEstimator {T} _ _ _ _.
Arguments ce_stages {T} _.
Arguments ce_usable_results_for_early_return {T} _.
Arguments ce_ranking {T} _.
Arguments ce_verification_mode {T} _.

(** ** Native prices *)
Section native.
Context (f64_from_u256 : Z -> f64) (u256_from_f64 : f64 -> Z).

Definition is_price_malformed (price : f64) : bool :=
  negb (is_normal price) || SFleb price (f64_lit 0) ||
  match to_normalized_price u256_from_f64 price with Some _ => false | None => true end.

Definition compare_native_result (a b : result PriceEstimationError f64) : comparison :=
  match a, b with
  | Ok a, Ok b => f64_total_cmp a b
  | Ok _, Err _ => Gt
  | Err _, Ok _ => Lt
  | Err a, Err b => compare_error a b
  end.

(** The part of the time left that an estimator of the current stages may use. *)
Definition stage_timeout (total_timeout elapsed : Z) (remaining_stages : nat) : Z :=
  let time_left := Z.max 0 (total_timeout - elapsed) in
  let stages := (Z.of_nat remaining_stages mod 2 ^ 32 + 1) mod 2 ^ 32 in
  if stages =? 0 then 0 else time_left / stages.

(** [elapsed] is the time that has passed when an estimator is asked. *)
Definition native_single_result (token total_timeout : Z) (elapsed : EstimatorIndex -> Z) (index : EstimatorIndex)
  (estimator : address -> Z -> result PriceEstimationError f64) (remaining_stages : nat)
  : result PriceEstimationError f64 :=
  match estimator token (stage_timeout total_timeout (elapsed index) remaining_stages) with
  | Ok price =>
      if is_price_malformed price then Err (EstimatorInternal "estimator returned malformed price") else Ok price
  | Err e => Err e
  end.

Definition competition_estimate_native_price
  (completed : list (EstimatorIndex * result PriceEstimationError f64) ->
               list (EstimatorIndex * result PriceEstimationError f64))
  (elapsed : EstimatorIndex -> Z)
  (c : CompetitionEstimator (address -> Z -> result PriceEstimationError f64)) (token : address) (total_timeout : Z)
  : option (result PriceEstimationError f64) :=
  let? results := produce_results (ce_usable_results_for_early_return c) (fun r => negb (is_error r))
                    (native_single_result token total_timeout elapsed) completed (ce_stages c) in
  Some match max_by (fun a b => compare_native_result a.2 b.2) results with
       | None => Err (EstimatorInternal "could not get any native price")
       | Some winner => winner.2
       end.

(** *** The estimator of native prices from a trade *)
Record NativePriceEstimator := mkNativePriceEstimator {
  npe_native_token : address;
  npe_price_estimation_amount : Z;
}.

Definition zero_verification : Verification := mkVerification 0 0 [] [] SellErc20 BuyErc20.

Definition native_query (self : NativePriceEstimator) (token timeout : Z) : PriceQuery :=
  mkPriceQuery token (npe_native_token self) (npe_price_estimation_amount self) Buy zero_verification false timeout.

Definition price_in_buy_token_f64 (e : Estimate) (q : PriceQuery) : f64 :=
  let '(sell_amount, buy_amount) := Estimate_amounts e q in
  f64_div (f64_from_u256 buy_amount) (f64_from_u256 sell_amount).

Definition native_estimate (estimate : PriceQuery -> result PriceEstimationError Estimate) (self : NativePriceEstimator)
  (token timeout : Z) : result PriceEstimationError f64 :=
  let query := native_query self token timeout in
  letr e := estimate query in
  let price := price_in_buy_token_f64 e query in
  if is_price_malformed price then Err (EstimatorInternal "estimator returned malformed price") else Ok price.
End native.

(** ** Unsupported tokens and the native asset *)
Definition GAS_PER_WETH_UNWRAP : Z := 9223.
Definition GAS_PER_WETH_WRAP : Z := 24038.

Section sanitized.
(** [detect] answers [Some reason] for a bad token. *)
Context (estimate : PriceQuery -> result PriceEstimationError Estimate).
Context (detect : address -> result string (option string)).
Context (native_token : address) (is_estimating_native_price : bool).

Fixpoint handle_bad_tokens (tokens : list address) : result PriceEstimationError unit :=
  match tokens with
  | [] => Ok tt
  | token :: tokens =>
      match detect token with
      | Err e => Err (ProtocolInternal e)
      | Ok (Some reason) => Err (UnsupportedToken token reason)
      | Ok None => handle_bad_tokens tokens
      end
  end.

(** A conversion at the rate of one to one. *)
Definition trivial_estimate (q : PriceQuery) (gas : Z) : Estimate :=
  mkEstimate (pq_in_amount q) gas 0 true (mkQuoteExecution [] [] []).

Definition with_tokens (q : PriceQuery) (sell_token buy_token : address) : PriceQuery :=
  mkPriceQuery sell_token buy_token (pq_in_amount q) (pq_kind q) (pq_verification q) (pq_block_dependent q) (pq_timeout q).

Definition add_gas (e : Estimate) (gas : Z) : result PriceEstimationError Estimate :=
  if fits 64 (est_gas e + gas)
  then Ok (mkEstimate (est_out_amount e) (est_gas e + gas) (est_solver e) (est_verified e) (est_execution e))
  else Err (ProtocolInternal "cost of converting native asset would overflow gas price").

Definition sanitized_estimate (q : PriceQuery) : result PriceEstimationError Estimate :=
  letr _ := handle_bad_tokens [pq_sell_token q; pq_buy_token q] in
  if is_estimating_native_price && (pq_buy_token q =? pq_sell_token q) then Ok (trivial_estimate q 0)
  else if (pq_sell_token q =? native_token) && (pq_buy_token q =? BUY_ETH_ADDRESS) then
    Ok (trivial_estimate q GAS_PER_WETH_UNWRAP)
  else if (pq_sell_token q =? BUY_ETH_ADDRESS) && (pq_buy_token q =? native_token) then
    Ok (trivial_estimate q GAS_PER_WETH_WRAP)
  else if negb (pq_sell_token q =? native_token) && (pq_buy_token q =? BUY_ETH_ADDRESS) then
    letr e := estimate (with_tokens q (pq_sell_token q) native_token) in add_gas e GAS_PER_WETH_UNWRAP
  else if (pq_sell_token q =? BUY_ETH_ADDRESS) && negb (pq_buy_token q =? native_token) then
    letr e := estimate (with_tokens q native_token (pq_buy_token q)) in add_gas e GAS_PER_WETH_WRAP
  else estimate q.
End sanitized.

(** ** What a competition asks *)
Section produce_spec.
Context {T R : Type} (early : Z) (usable : result PriceEstimationError R -> bool).
Context (get : EstimatorIndex -> T -> nat -> result PriceEstimationError R).
Context (completed : list (EstimatorIndex * result PriceEstimationError R) ->
                     list (EstimatorIndex * result PriceEstimationError R)).
Context (completed_perm : forall l, completed l ≡ₚ l) (early_pos : 0 < early).

(** The estimators of the stages from the [k]-th on. *)
Fixpoint estimators_from (k : nat) (stages : list (list (string * T))) : list (EstimatorIndex * T) :=
  match stages with
  | [] => []
  | stage :: stages => stage_requests k stage ++ estimators_from (S k) stages
  end.

Definition answers_request (q : EstimatorIndex * T) (r : EstimatorIndex * result PriceEstimationError R) : Prop :=
  r.1 = q.1 /\ exists remaining, r.2 = get q.1 q.2 remaining.

(** The results are answers of some of the estimators, each asked once: of all of them, or
    of enough for [early] usable results. *)
Record produced (estimators : list (EstimatorIndex * T))
  (results : list (EstimatorIndex * result PriceEstimationError R)) : Prop := {
  pr_split : exists answered unanswered, answered ++ unanswered ≡ₚ estimators /\
    Forall2 answers_request answered results /\
    (unanswered = [] \/ usable_count usable results = early);
  pr_bound : usable_count usable results <= early;
}.

Lemma usable_count_snoc results r :
  usable_count usable (results ++ [r]) = usable_count usable results + (if usable r.2 then 1 else 0).
Proof.
  unfold usable_count. rewrite filter_app, length_app, filter_cons, filter_nil.
  destruct (usable r.2) eqn:E; [rewrite decide_True by done|rewrite decide_False by congruence]; cbn; lia.
Qed.

Lemma collect_requests_spec n requests k stages requests' k' rest :
  collect_requests n requests k stages = (requests', k', rest) ->
  requests' ++ estimators_from k' rest = requests ++ estimators_from k stages /\
  (length rest <= length stages)%nat /\
  (Z.of_nat (length requests) < n -> stages <> [] -> (length rest < length stages)%nat).
Proof.
  revert requests k. induction stages as [|stage stages IH]; intros requests k; cbn [collect_requests].
  { intros [= <- <- <-]. split_and!; done. }
  destruct (Z.ltb_spec (Z.of_nat (length requests)) n) as [Hlt|Hge].
  - intros (He & Hl & _)%IH. split_and!; [|cbn; lia..].
    rewrite He. cbn [estimators_from]. by rewrite app_assoc.
  - intros [= <- <- <-]. split_and!; [done|done|lia].
Qed.

Lemma receive_results_spec results answers results' enough :
  usable_count usable results < early ->
  receive_results early usable results answers = (results', enough) ->
  exists taken left, answers = taken ++ left /\ results' = results ++ taken /\
    (if enough then usable_count usable results' = early else left = [] /\ usable_count usable results' < early).
Proof.
  revert results. induction answers as [|r answers IH]; intros results Hlt; cbn [receive_results].
  { intros [= <- <-]. exists [], []. by rewrite (app_nil_r results). }
  pose proof (usable_count_snoc results r) as Hc. unfold missing_results.
  destruct (Z.eqb_spec (Z.max 0 (early - usable_count usable (results ++ [r]))) 0) as [E|E].
  - intros [= <- <-]. exists [r], answers. split_and!; [done..|]. destruct (usable r.2); lia.
  - intros (taken & left & -> & -> & Hr)%IH; [|lia]. exists (r :: taken), left.
    rewrite <- app_assoc in *. cbn [app] in *. done.
Qed.

Lemma produce_loop_spec fuel k stages results answered estimators :
  (length stages < fuel)%nat -> usable_count usable results < early ->
  Forall2 answers_request answered results -> answered ++ estimators_from k stages ≡ₚ estimators ->
  exists results', produce_loop early usable get completed fuel k stages results = Some results' /\
    produced estimators results'.
Proof.
  revert k stages results answered. induction fuel as [|fuel IH]; intros k stages results answered Hf Hlt Ha Hp; [lia|].
  cbn [produce_loop]. destruct stages as [|stage stages].
  { eexists. split; [done|]. cbn in Hp. rewrite app_nil_r in Hp. split; [|lia].
    exists answered, []. rewrite app_nil_r. eauto. }
  destruct (collect_requests (missing_results early usable results) [] k (stage :: stages)) as [[requests k'] rest] eqn:Hc.
  apply collect_requests_spec in Hc as (He & _ & Hlen).
  specialize (Hlen ltac:(unfold missing_results; cbn; lia) ltac:(done)). cbn [app] in He.
  set (answers := completed _).
  destruct (receive_results early usable results answers) as [results' enough] eqn:Hr.
  apply receive_results_spec in Hr as (taken & left & Ht & -> & Hen); [|done].
  assert (exists asked pending, requests ≡ₚ asked ++ pending /\ Forall2 answers_request asked taken /\
            (left = [] -> pending = [])) as (asked & pending & Hreq & Hask & Hnil).
  { assert (taken ++ left ≡ₚ (fun q => (q.1, get q.1 q.2 (length rest))) <$> requests) as Hperm
      by (rewrite <- Ht; apply completed_perm).
    apply Permutation_map_inv in Hperm as (requests' & Hmap & Hreq).
    symmetry in Hmap. apply fmap_app_inv in Hmap as (asked & pending & -> & -> & ->).
    exists asked, pending. split_and!; [done| |by intros ->%fmap_nil_inv].
    apply Forall2_fmap_r, Forall2_same_length_lookup; split; [done|].
    intros i x y Hx Hy. simplify_eq. split; [done|]. by eexists. }
  assert (Forall2 answers_request (answered ++ asked) (results ++ taken)) as Hall by by apply Forall2_app.
  assert ((answered ++ asked) ++ pending ++ estimators_from k' rest ≡ₚ estimators) as Hp'.
  { rewrite <- Hp. cbn [estimators_from] in He |- *. rewrite <- He, Hreq. by rewrite <- !app_assoc. }
  destruct enough.
  - eexists. split; [done|]. split; [|lia]. exists (answered ++ asked), (pending ++ estimators_from k' rest). eauto.
  - destruct Hen as [-> Hlt']. rewrite (Hnil eq_refl) in Hp'. cbn in Hp', Hlen, Hf. eapply IH; [lia|done..].
Qed.

Lemma produce_results_spec stages :
  exists results, produce_results early usable get completed stages = Some results /\
    produced (estimators_from 0 stages) results.
Proof.
  unfold produce_results. apply (produce_loop_spec _ _ _ [] []); [lia|by unfold usable_count|constructor|done].
Qed.
End produce_spec.

(** ** What wins *)

Lemma comp_max_by_pure {A} (cmp : A -> A -> comp comparison) cmp' (l : list A) :
  (forall a b, a ∈ l -> b ∈ l -> cmp a b = Ret (cmp' a b)) -> comp_max_by cmp l = Ret (max_by cmp' l).
Proof.
  destruct l as [|x l]; [done|]. cbn. intros Hcmp.
  assert (forall best k, best ∈ x :: l -> k ⊆ x :: l -> comp_max_by_from cmp best k = Ret (max_by_from cmp' best k)) as Hfrom.
  { intros best k. revert best. induction k as [|y k IH]; intros best Hb Hk; [done|].
    cbn [comp_max_by_from max_by_from]. rewrite Hcmp by set_solver. cbn.
    apply IH; [destruct (cmp' best y)|]; set_solver. }
  rewrite Hfrom by set_solver. done.
Qed.

Lemma list_cmp_pair (a b c x y z : Z) :
  list_cmp Z.compare [a; b; c] [x; y; z] <> Gt <-> a < x \/ a = x /\ (b < y \/ b = y /\ c <= z).
Proof.
  cbn. destruct (Z.compare_spec a x), (Z.compare_spec b y), (Z.compare_spec c z); cbn; split; intros; try lia; try done.
Qed.

(** Larger keys win; [value] is what an estimate is worth. *)
Definition quote_rank (kind : Side) (prefer_verified : bool) (value : Estimate -> Z)
  (r : result PriceEstimationError Estimate) : list Z :=
  match r with
  | Ok e => [1; Z.b2z (prefer_verified && est_verified e); match kind with Sell => value e | Buy => - value e end]
  | Err e => [0; error_to_integer_priority e; 0]
  end.

(** [e] is at least as good as [e']: verified where only that counts, otherwise it pays
    more (sell orders) or costs less (buy orders) with the gas included. *)
Definition at_least (kind : Side) (prefer_verified : bool) (value : Estimate -> Z) (e e' : Estimate) : Prop :=
  prefer_verified = true /\ est_verified e = true /\ est_verified e' = false \/
  (prefer_verified = true -> est_verified e = est_verified e') /\
  match kind with Sell => value e' <= value e | Buy => value e <= value e' end.

Lemma quote_rank_at_least kind prefer value e e' :
  list_cmp Z.compare (quote_rank kind prefer value (Ok e')) (quote_rank kind prefer value (Ok e)) <> Gt ->
  at_least kind prefer value e e'.
Proof.
  cbn [quote_rank]. rewrite list_cmp_pair. unfold at_least.
  destruct prefer, (est_verified e), (est_verified e'), kind; cbn; intros [?|[_ H]]; try lia; try tauto;
    try (right; split; [done|lia]).
Qed.

Section winners.
Context (f64_from_u256 : Z -> f64) (u256_from_f64 : f64 -> comp Z).

Lemma compare_quote_result_rank kind prefer value context a b :
  (forall e, a = Ok e \/ b = Ok e -> effective_eth_out f64_from_u256 u256_from_f64 context e kind = Ret (value e)) ->
  compare_quote_result f64_from_u256 u256_from_f64 kind a b context prefer =
  Ret (list_cmp Z.compare (quote_rank kind prefer value a) (quote_rank kind prefer value b)).
Proof.
  intros Hv. destruct a as [a|a], b as [b|b]; try done.
  - unfold compare_quote_result, compare_quote. rewrite (Hv a), (Hv b) by tauto. cbn.
    destruct prefer, (est_verified a), (est_verified b), kind; cbn; try done;
      rewrite ?Z.compare_opp, ?Z.opp_involutive; try (by destruct (Z.compare _ _));
      rewrite <- (Z.compare_antisym (value a) (value b)); try (by destruct (Z.compare _ _)).
  - unfold compare_quote_result, compare_error. cbn. by destruct (Z.compare _ _).
Qed.

Context (completed : list (EstimatorIndex * result PriceEstimationError Estimate) ->
                     list (EstimatorIndex * result PriceEstimationError Estimate)).
Context (completed_perm : forall l, completed l ≡ₚ l).

Lemma produced_answer {T R} early usable (get : EstimatorIndex -> T -> nat -> result PriceEstimationError R) estimators results i r :
  produced early usable get estimators results -> (i, r) ∈ results ->
  exists e remaining, (i, e) ∈ estimators /\ r = get i e remaining.
Proof.
  intros [(answered & unanswered & Hp & Ha & _) _] Hi.
  apply list_elem_of_lookup in Hi as [k Hk].
  destruct (Forall2_lookup_r _ _ _ _ _ Ha Hk) as ([j e] & Hj & Hji & remaining & Hr). cbn in *. subst.
  exists e, remaining. split; [|done]. rewrite <- Hp. apply elem_of_app. left. by eapply list_elem_of_lookup_2.
Qed.
End winners.

Section competition_spec.
Context (f64_from_u256 : Z -> f64) (u256_from_f64 : f64 -> comp Z).
Context (completed : list (EstimatorIndex * result PriceEstimationError Estimate) ->
                     list (EstimatorIndex * result PriceEstimationError Estimate)).

(** What a competition may answer, given the results of the estimators. *)
Definition best_outcome (kind : Side) (prefer_verified : bool) (value : Estimate -> Z)
  (results : list (EstimatorIndex * result PriceEstimationError Estimate))
  (outcome : result PriceEstimationError Estimate) : Prop :=
  match outcome with
  | Ok e => (exists i, (i, Ok e) ∈ results) /\ is_reasonable (Ok e) = true /\
      forall i e', (i, Ok e') ∈ results -> is_reasonable (Ok e') = true -> at_least kind prefer_verified value e e'
  | Err err => (forall i e', (i, Ok e') ∈ results -> is_reasonable (Ok e') = false) /\
      ((exists i, (i, Err err) ∈ results) \/ err = EstimatorInternal UNREASONABLE)
  end.

Lemma best_outcome_max kind prefer value results :
  best_outcome kind prefer value results
    match max_by (cmp_on (fun r => quote_rank kind prefer value r.2) (list_cmp Z.compare))
            (filter (fun r => is_error r.2 || is_reasonable r.2 = true) results) with
    | None => Err (EstimatorInternal UNREASONABLE)
    | Some winner => winner.2
    end.
Proof.
  destruct (max_by _ _) as [[i [e|err]]|] eqn:Hm; cbn [snd].
  - apply max_by_Some in Hm as [(Hf & Hi)%list_elem_of_filter Hmax]; [|apply _]. cbn in Hf. split_and!; [eauto|done|].
    intros j e' Hj Hr. apply quote_rank_at_least, (Hmax (j, Ok e')). apply list_elem_of_filter. split; [exact Hr|done].
  - apply max_by_Some in Hm as [(_ & Hi)%list_elem_of_filter Hmax]; [|apply _]. split; [|eauto].
    intros j e' Hj. destruct (is_reasonable (Ok e')) eqn:Hr; [|done]. exfalso.
    apply (Hmax (j, Ok e')); [|done]. apply list_elem_of_filter. split; [exact Hr|done].
  - apply max_by_None in Hm. split; [|by right]. intros j e' Hj. destruct (is_reasonable (Ok e')) eqn:Hr; [|done].
    exfalso. apply (not_elem_of_nil (j, Ok e' : result PriceEstimationError Estimate)). rewrite <- Hm.
    apply list_elem_of_filter. split; [exact Hr|done].
Qed.

(** What an estimate is worth in the native asset, given the price of its token and of gas:
    a sell order receives the output and pays for the gas, a buy order pays the input and
    for the gas. *)
Definition net_worth (native_price gas_price : f64) (kind : Side) (e : Estimate) : f64 :=
  let amount := f64_mul (f64_from_u256 (est_out_amount e)) native_price in
  let gas := f64_mul (f64_lit (est_gas e)) gas_price in
  match kind with Sell => f64_sub amount gas | Buy => f64_add amount gas end.

(** In whole wei: nothing below zero, and at most the largest [U256] when it is infinite. *)
Definition whole_wei (x : f64) : Z :=
  match x with
  | S754_nan | S754_zero _ | S754_finite true _ _ | S754_infinity true => 0
  | S754_infinity false => U256_MAX
  | S754_finite false _ _ => f64_trunc (f64_trunc_to_float x)
  end.

Definition worth (native_price gas_price : f64) (kind : Side) (e : Estimate) : Z :=
  whole_wei (net_worth native_price gas_price kind e).

(** [U256::from] takes the integer part of a number below [2^256]. *)
Context (from_f64_spec : forall x, f64_trunc x < 2 ^ 256 -> u256_from_f64 x = Ret (f64_trunc x)).

Lemma effective_eth_out_worth native_price gas_price kind e :
  worth native_price gas_price kind e < 2 ^ 256 ->
  effective_eth_out f64_from_u256 u256_from_f64 (mkRankingContext native_price gas_price) e kind =
  Ret (worth native_price gas_price kind e).
Proof.
  unfold worth, effective_eth_out. cbn [rc_native_price rc_gas_price].
  replace (match kind with Sell => f64_sub _ _ | Buy => f64_add _ _ end) with (net_worth native_price gas_price kind e)
    by (by destruct kind).
  destruct (net_worth _ _ _ _) as [[]|[]| |[] m ex] eqn:E; cbn [is_sign_negative orb whole_wei]; try done.
  - intros _. rewrite from_f64_spec; [done|]. cbn. lia.
  - intros H. by rewrite from_f64_spec.
Qed.

(** No reasonable result is worth [2^256] wei or more. *)
Definition rankable (native_price gas_price : f64) (kind : Side)
  (results : list (EstimatorIndex * result PriceEstimationError Estimate)) : Prop :=
  forall i e, (i, Ok e) ∈ results -> is_reasonable (Ok e) = true -> worth native_price gas_price kind e < 2 ^ 256.

Lemma winner_of_results kind prefer native_price gas_price results :
  rankable native_price gas_price kind results ->
  exists outcome,
    (let! winner := comp_max_by
        (fun a b => compare_quote_result f64_from_u256 u256_from_f64 kind a.2 b.2 (mkRankingContext native_price gas_price) prefer)
        (filter (fun r => is_error r.2 || is_reasonable r.2 = true) results) in
     Ret match winner with
         | None => Err (EstimatorInternal UNREASONABLE)
         | Some winner => winner.2
         end) = Ret outcome /\
    best_outcome kind prefer (worth native_price gas_price kind) results outcome.
Proof.
  intros Hr. eexists. split; [|apply best_outcome_max].
  rewrite (comp_max_by_pure _ (cmp_on (fun r => quote_rank kind prefer (worth native_price gas_price kind) r.2)
                                 (list_cmp Z.compare))); [reflexivity|].
  intros [i a] [j b] (Ha & Hi)%list_elem_of_filter (Hb & Hj)%list_elem_of_filter. cbn [snd] in *.
  apply compare_quote_result_rank. intros e [E|E]; cbn in E; subst; apply effective_eth_out_worth; by eapply Hr.
Qed.

(** What the competition returns once the results are in, by the ranking. *)
Definition ranked_outcome (ranking : PriceRanking) (q : PriceQuery) (prefer_verified : bool)
  (results : list (EstimatorIndex * result PriceEstimationError Estimate)) (returned : comp (result PriceEstimationError Estimate))
  : Prop :=
  let best native_price gas_price :=
    rankable native_price gas_price (pq_kind q) results ->
    exists outcome, returned = Ret outcome /\
      best_outcome (pq_kind q) prefer_verified (worth native_price gas_price (pq_kind q)) results outcome in
  match ranking with
  | MaxOutAmount => best (f64_lit 1) (f64_lit 0)
  | BestBangForBuck native gas =>
      match native (out_token q) (pq_timeout q), gas with
      | Err e, _ => returned = Ret (Err e)
      | Ok _, Err e => returned = Ret (Err (ProtocolInternal e))
      | Ok native_price, Ok gas_price => best native_price (f64_lit gas_price)
      end
  end.

End competition_spec.

(** *** An example *)

(** A conversion that panics for values of 256 bits or more, as [U256::from] does. *)
Definition panicking_from_f64 (x : f64) : comp Z :=
  if f64_trunc x <? 2 ^ 256 then Ret (f64_trunc x) else Panic.

Definition fixed_estimator (r : result PriceEstimationError Estimate) (q : PriceQuery)
  : result PriceEstimationError Estimate := r.
Definition plain_estimate (out_amount gas : Z) (verified : bool) : Estimate :=
  mkEstimate out_amount gas 0 verified (mkQuoteExecution [] [] []).

Definition example_competition : CompetitionEstimator (PriceQuery -> result PriceEstimationError Estimate) :=
  mkCompetitionEstimator
    [[("a"%string, fixed_estimator (Ok (plain_estimate 100 10 false))); ("b"%string, fixed_estimator (Ok (plain_estimate 120 0 false)))];
     [("c"%string, fixed_estimator (Ok (plain_estimate 110 20 false))); ("d"%string, fixed_estimator (Err NoLiquidity))]]
    3 (BestBangForBuck (fun _ _ => Ok (f64_lit 1)) (Ok 2)) Unverified.
Definition example_query : PriceQuery := mkPriceQuery 1 2 1000 Sell zero_verification false 10.

Lemma panicking_from_f64_spec x : f64_trunc x < 2 ^ 256 -> panicking_from_f64 x = Ret (f64_trunc x).
Proof. unfold panicking_from_f64. by destruct (Z.ltb_spec (f64_trunc x) (2 ^ 256)) as [|?]; [|lia]. Qed.


Lemma example_competition_winner :
  competition_estimate f64_lit panicking_from_f64 (@rev _) example_competition example_query =
  Some (Ret (Ok (plain_estimate 100 10 false))).
Proof. vm_compute. reflexivity. Qed.

(** A promised output worth [2^256] wei or more is not clamped: ranking it panics. *)
Lemma effective_eth_out_panics :
  effective_eth_out f64_lit panicking_from_f64 (mkRankingContext (f64_lit 4) (f64_lit 0))
    (plain_estimate (2 ^ 255) 10 false) Sell = Panic.
Proof. vm_compute. reflexivity. Qed.

(** ** Native prices that can be used *)

Definition native_rank (r : result PriceEstimationError f64) : list Z :=
  match r with Ok p => 1 :: f64_key p | Err e => [0; error_to_integer_priority e] end.

Lemma compare_native_result_rank a b :
  compare_native_result a b = list_cmp Z.compare (native_rank a) (native_rank b).
Proof.
  destruct a, b; cbn; try done; [by rewrite f64_total_cmp_key|].
  unfold compare_error. by destruct (Z.compare _ _).
Qed.

#[local] Instance native_result_preorder :
  CmpPreorder (fun a b : EstimatorIndex * result PriceEstimationError f64 => compare_native_result a.2 b.2).
Proof.
  split; intros *; rewrite !compare_native_result_rank; [apply (cmp_antisym (list_cmp Z.compare))|].
  apply (cmp_trans (list_cmp Z.compare)).
Qed.

Section native_spec.
Context (f64_from_u256 : Z -> f64) (u256_from_f64 : f64 -> Z).

Lemma price_usable p :
  is_price_malformed u256_from_f64 p = false -> is_Some (to_normalized_price u256_from_f64 p).
Proof. unfold is_price_malformed. destruct (to_normalized_price _ _); [eauto|]. by rewrite orb_true_r. Qed.

Lemma native_single_result_usable token timeout elapsed i e n p :
  native_single_result u256_from_f64 token timeout elapsed i e n = Ok p -> is_price_malformed u256_from_f64 p = false.
Proof.
  unfold native_single_result. destruct (e _ _) as [q|]; [|done].
  destruct (is_price_malformed u256_from_f64 q) eqn:E; congruence.
Qed.

(** The competition of native prices ends with the largest price it got, one the auction
    can use, and fails only when no estimator gave a usable price. *)
Lemma native_competition completed elapsed c token timeout :
  (forall l, completed l ≡ₚ l) -> 0 < ce_usable_results_for_early_return c ->
  exists results outcome,
    competition_estimate_native_price u256_from_f64 completed elapsed c token timeout = Some outcome /\
    produced (ce_usable_results_for_early_return c) (fun r => negb (is_error r))
      (native_single_result u256_from_f64 token timeout elapsed) (estimators_from 0 (ce_stages c)) results /\
    match outcome with
    | Ok p => is_Some (to_normalized_price u256_from_f64 p) /\
        forall i p', (i, Ok p') ∈ results -> f64_total_cmp p' p <> Gt
    | Err _ => forall i p', (i, Ok p') ∉ results
    end.
Proof.
  intros Hcomp Hearly. unfold competition_estimate_native_price.
  destruct (produce_results_spec (ce_usable_results_for_early_return c) (fun r => negb (is_error r))
              (native_single_result u256_from_f64 token timeout elapsed) completed Hcomp Hearly (ce_stages c))
    as (results & -> & Hp).
  exists results. eexists. split; [done|]. split; [done|].
  destruct (max_by _ _) as [[i [p|err]]|] eqn:Hm; cbn [snd].
  - apply max_by_Some in Hm as [Hi Hmax]; [|apply _].
    destruct (produced_answer _ _ _ _ _ _ _ Hp Hi) as (f & n & _ & E). split.
    + symmetry in E. by eapply price_usable, native_single_result_usable.
    + intros j p' Hj. apply (Hmax _ Hj).
  - apply max_by_Some in Hm as [_ Hmax]; [|apply _]. intros j p' Hj. by apply (Hmax _ Hj).
  - apply max_by_None in Hm as ->. intros j p'. apply not_elem_of_nil.
Qed.

(** A native price that is estimated can be used in the auction. *)
Lemma native_estimate_usable estimate self token timeout p :
  native_estimate f64_from_u256 u256_from_f64 estimate self token timeout = Ok p ->
  is_Some (to_normalized_price u256_from_f64 p).
Proof.
  unfold native_estimate. destruct (estimate _) as [e|]; unfold result_bind; [|intros [=]].
  destruct (is_price_malformed u256_from_f64 _) eqn:E; [intros [=]|]. intros [= <-]. exact (price_usable _ E).
Qed.
End native_spec.

(** ** The native asset *)
Section sanitized_spec.
Context (estimate : PriceQuery -> result PriceEstimationError Estimate).
Context (detect : address -> result string (option string)).
Context (native_token : address) (is_estimating_native_price : bool).

(** The token that is traded for a token or the native asset. *)
Definition wrapped (token : address) : address := if token =? BUY_ETH_ADDRESS then native_token else token.

(** What converting the native asset costs. *)
Definition conversion_gas (q : PriceQuery) : Z :=
  if pq_buy_token q =? BUY_ETH_ADDRESS then GAS_PER_WETH_UNWRAP
  else if pq_sell_token q =? BUY_ETH_ADDRESS then GAS_PER_WETH_WRAP else 0.

(** Only supported tokens are priced; trading the native asset is trading its wrapped token
    with the cost of the conversion added, or a conversion at one to one. *)
Lemma sanitized_estimate_Ok q e :
  native_token <> BUY_ETH_ADDRESS -> ~ (pq_sell_token q = BUY_ETH_ADDRESS /\ pq_buy_token q = BUY_ETH_ADDRESS) ->
  (forall q e, estimate q = Ok e -> 0 <= est_gas e < 2 ^ 64) ->
  sanitized_estimate estimate detect native_token is_estimating_native_price q = Ok e ->
  detect (pq_sell_token q) = Ok None /\ detect (pq_buy_token q) = Ok None /\ 0 <= est_gas e < 2 ^ 64 /\
  (wrapped (pq_sell_token q) = wrapped (pq_buy_token q) /\ est_out_amount e = pq_in_amount q /\
     est_gas e = conversion_gas q \/
   exists e0, estimate (with_tokens q (wrapped (pq_sell_token q)) (wrapped (pq_buy_token q))) = Ok e0 /\
     est_out_amount e = est_out_amount e0 /\ est_gas e = est_gas e0 + conversion_gas q).
Proof.
  intros Hn Hq Hgas. unfold sanitized_estimate, handle_bad_tokens, wrapped, conversion_gas.
  assert (q = with_tokens q (pq_sell_token q) (pq_buy_token q)) as Eq by by destruct q.
  destruct (detect (pq_sell_token q)) as [[]|], (detect (pq_buy_token q)) as [[]|]; cbn; try done.
  destruct (Z.eqb_spec (pq_buy_token q) BUY_ETH_ADDRESS) as [Eb|Eb], (Z.eqb_spec (pq_sell_token q) BUY_ETH_ADDRESS) as [Es|Es];
    try tauto; destruct (Z.eqb_spec (pq_sell_token q) native_token) as [Ens|Ens];
    destruct (Z.eqb_spec (pq_buy_token q) native_token) as [Enb|Enb]; try congruence;
    destruct (is_estimating_native_price && (pq_buy_token q =? pq_sell_token q)) eqn:Esame; cbn;
    try (apply andb_true_iff in Esame as [_ Esame%Z.eqb_eq]); try congruence;
    try (intros [= <-]; split_and!; [done|done|cbn; unfold GAS_PER_WETH_UNWRAP, GAS_PER_WETH_WRAP; lia..|left; split_and!; congruence || done]);
    try (destruct (estimate _) as [e0|] eqn:E; cbn; [|done]; unfold add_gas;
         destruct (fits _ _) eqn:F; [|done]; apply fits_spec in F; intros [= <-];
         split_and!; [done|done|cbn; lia..|right; exists e0; split_and!; done]);
    (intros E; pose proof (Hgas _ _ E); split_and!; [done|done|lia..|right; exists e; split_and!; [by rewrite <- Eq|done|lia]]).
Qed.
End sanitized_spec.
