(* ===== verification/NativePriceCache.v ===== *)
(** * NativePriceCache: native prices between requests

    [shared/src/price_estimation/native_price_cache.rs]: the cache of native prices that the
    autopilot builds auctions from, its approximating tokens, its counting of errors and the
    background task that keeps it warm.

    Instants and durations are nanoseconds; every operation takes the instants at which it
    reads the clock.  The operations on the cache are atomic, as the mutex is held for each
    of them; a request to the estimator is split into the look-up before it and the update
    after it, and [cache_step] interleaves these halves for any number of requests.  The
    estimator, [f64::powi], the conversion of a [BigDecimal] to a float and the order in
    which a map is iterated are parameters. *)

From stdpp Require Import base gmap sets list strings relations.
From Stdlib Require Import ZArith Lia SpecFloat.
From S2P Require Import Prelude Collections F64 Eth Liquidity Solution Dto Score DriverOrder DriverCompetition.
From S2P Require Import CompetitionStore OrderModel AppData OrderCreation OrderQuoting AuctionBuilding RateLimit.
From S2P Require Import PriceEstimation.

Open Scope Z_scope.
Open Scope rust_scope.

(** ** Approximating tokens *)
Record ApproximationToken := mkApproximationToken { at_address : address; at_normalization_factor : f64 }.

Definition same_decimals (token : address) : ApproximationToken := mkApproximationToken token (f64_lit 1).

Definition with_normalization (powi : f64 -> Z -> f64) (peg : address * Z) (token_decimals : Z) : ApproximationToken :=
  mkApproximationToken peg.1 (powi (f64_lit 10) (peg.2 - token_decimals)).

Definition normalize_price (a : ApproximationToken) (price : f64) : f64 := f64_mul price (at_normalization_factor a).

(** ** Entries *)
Definition CacheEntry : Type := result PriceEstimationError f64.

Record CachedResult := mkCachedResult {
  cr_result : CacheEntry;
  cr_updated_at : Z;
  cr_requested_at : Z;
  cr_accumulative_errors_count : Z;
}.

Definition ACCUMULATIVE_ERRORS_THRESHOLD : Z := 5.

Definition is_estimator_internal (r : CacheEntry) : bool :=
  match r with Err (EstimatorInternal _) => true | _ => false end.

Definition CachedResult_new (r : CacheEntry) (updated_at requested_at current_accumulative_errors_count : Z) : CachedResult :=
  mkCachedResult r updated_at requested_at
    (if is_estimator_internal r then (current_accumulative_errors_count + 1) mod 2 ^ 32 else 0).

Definition is_ready (c : CachedResult) : bool :=
  negb (is_estimator_internal (cr_result c)) || (ACCUMULATIVE_ERRORS_THRESHOLD <=? cr_accumulative_errors_count c).

(** Transient errors are not kept. *)
Definition should_cache (r : CacheEntry) : bool :=
  match r with
  | Ok _ | Err NoLiquidity | Err (UnsupportedToken _ _) | Err (EstimatorInternal _) => true
  | Err (ProtocolInternal _) | Err RateLimited | Err (UnsupportedOrderType _) => false
  end.

(** [Instant::saturating_duration_since]. *)
Definition duration_since (now earlier : Z) : Z := Z.max 0 (now - earlier).

Definition requested (c : CachedResult) (now : Z) : CachedResult :=
  mkCachedResult (cr_result c) (cr_updated_at c) now (cr_accumulative_errors_count c).

(** ** The cache *)
Definition get_cached_price (token now : Z) (cache : gmap address CachedResult) (max_age : Z) (create_missing_entry : bool)
  : comp (option CachedResult * gmap address CachedResult) :=
  match cache !! token with
  | Some entry =>
      let entry := requested entry now in
      Ret (if duration_since now (cr_updated_at entry) <? max_age then Some entry else None, <[token := entry]> cache)
  | None =>
      if create_missing_entry then
        let! outdated_timestamp := expect (if now <? max_age then None else Some (now - max_age)) in
        Ret (None, <[token := CachedResult_new (Ok (f64_lit 0)) outdated_timestamp now 0]> cache)
      else Ret (None, cache)
  end.

Definition get_ready_to_use_cached_price (token now : Z) (cache : gmap address CachedResult) (max_age : Z)
  (create_missing_entry : bool) : comp (option CachedResult * gmap address CachedResult) :=
  let! answer := get_cached_price token now cache max_age create_missing_entry in
  Ret (match answer.1 with Some c => if is_ready c then Some c else None | None => None end, answer.2).

(** The part of a request before the estimator is asked: a cached answer, or the number of
    errors so far. *)
Definition fetch_begin (token now : Z) (cache : gmap address CachedResult) (max_age : Z)
  : comp ((CacheEntry + Z) * gmap address CachedResult) :=
  let! answer := get_cached_price token now cache max_age false in
  Ret (match answer.1 with
       | Some cached => if is_ready cached then inl (cr_result cached) else inr (cr_accumulative_errors_count cached)
       | None => inr 0
       end, answer.2).

(** The part after it. *)
Definition fetch_end (token now : Z) (r : CacheEntry) (current_accumulative_errors_count : Z)
  (cache : gmap address CachedResult) : gmap address CachedResult :=
  if should_cache r then <[token := CachedResult_new r now now current_accumulative_errors_count]> cache else cache.

Section estimator.
Context (estimate_native_price : address -> Z -> result PriceEstimationError f64).
Context (approximation_tokens : gmap address ApproximationToken).

Definition fetch_price (token request_timeout : Z) : CacheEntry :=
  let approximation := default (same_decimals token) (approximation_tokens !! token) in
  match estimate_native_price (at_address approximation) request_timeout with
  | Ok price => Ok (normalize_price approximation price)
  | Err e => Err e
  end.

(** The requests of a stream, one after the other; each comes with the instants of its two
    halves. *)
Fixpoint estimate_prices_and_update_cache (tokens : list (address * (Z * Z))) (max_age request_timeout : Z)
  (cache : gmap address CachedResult) : comp (list (address * CacheEntry) * gmap address CachedResult) :=
  match tokens with
  | [] => Ret ([], cache)
  | (token, (asked, answered)) :: tokens =>
      let! begun := fetch_begin token asked cache max_age in
      let '(r, cache) := match begun.1 with
                         | inl r => (r, begun.2)
                         | inr count => let r := fetch_price token request_timeout in
                                        (r, fetch_end token answered r count begun.2)
                         end in
      let! rest := estimate_prices_and_update_cache tokens max_age request_timeout cache in
      Ret ((token, r) :: rest.1, rest.2)
  end.

(** [CachingNativePriceEstimator::estimate_native_price]. *)
Definition caching_estimate_native_price (now asked answered token timeout max_age : Z) (cache : gmap address CachedResult)
  : comp (CacheEntry * gmap address CachedResult) :=
  let! cached := get_ready_to_use_cached_price token now cache max_age false in
  match cached.1 with
  | Some c => Ret (cr_result c, cached.2)
  | None =>
      let! stream := estimate_prices_and_update_cache [(token, (asked, answered))] max_age timeout cached.2 in
      let! first := expect (head stream.1) in
      Ret (first.2, stream.2)
  end.

Fixpoint get_cached_prices (tokens : list address) (now max_age : Z) (results : gmap address CacheEntry)
  (cache : gmap address CachedResult) : comp (gmap address CacheEntry * gmap address CachedResult) :=
  match tokens with
  | [] => Ret (results, cache)
  | token :: tokens =>
      let! answer := get_ready_to_use_cached_price token now cache max_age true in
      get_cached_prices tokens now max_age
        match answer.1 with Some c => <[token := cr_result c]> results | None => results end answer.2
  end.

(** [schedule] gives the instants of the requests that are made before the timeout. *)
Definition estimate_native_prices_with_timeout (now : Z) (schedule : list address -> list (address * (Z * Z)))
  (tokens : list address) (timeout max_age : Z) (cache : gmap address CachedResult)
  : comp (gmap address CacheEntry * gmap address CachedResult) :=
  let! cached := get_cached_prices tokens now max_age ∅ cache in
  let '(prices, cache) := cached in
  if timeout =? 0 then Ret (prices, cache)
  else
    let uncached_tokens := filter (fun t => prices !! t = None) tokens in
    let! stream := estimate_prices_and_update_cache (schedule uncached_tokens) max_age timeout cache in
    Ret (foldl (fun prices e => <[e.1 := e.2]> prices) prices stream.1, stream.2).

(** ** Keeping the cache warm *)

(** [IndexSet::get_index_of]. *)
Definition priority_index (high_priority : list address) (token : address) : Z :=
  match list_find (fun t => t = token) high_priority with
  | Some (i, _) => Z.of_nat i
  | None => 2 ^ 64 - 1
  end.

Definition update_order (high_priority : list address) : address * Z -> address * Z -> comparison :=
  cmp_then (cmp_on (fun e => priority_index high_priority e.1) Z.compare) (cmp_rev (cmp_on snd Z.compare)).

Definition sorted_tokens_to_update (iter : list (address * CachedResult) -> list (address * CachedResult))
  (high_priority : list address) (cache : gmap address CachedResult) (max_age now : Z) : list address :=
  let outdated := filter (fun e => (max_age <? duration_since now (cr_updated_at e.2)) = true) (iter (map_to_list cache)) in
  (sort_by (update_order high_priority) ((fun e => (e.1, cr_requested_at e.2)) <$> outdated)).*1.

Record UpdateTask := mkUpdateTask { ut_update_size : option nat; ut_prefetch_time : Z }.

(** One run of the background task. *)
Definition single_update (iter : list (address * CachedResult) -> list (address * CachedResult))
  (schedule : list address -> list (address * (Z * Z))) (task : UpdateTask) (high_priority : list address)
  (inner_max_age quote_timeout now : Z) (cache : gmap address CachedResult) : comp (gmap address CachedResult) :=
  let max_age := Z.max 0 (inner_max_age - ut_prefetch_time task) in
  let outdated := sorted_tokens_to_update iter high_priority cache max_age now in
  let outdated := match ut_update_size task with Some n => take n outdated | None => outdated end in
  match outdated with
  | [] => Ret cache
  | _ =>
      let! stream := estimate_prices_and_update_cache (schedule outdated) max_age quote_timeout cache in
      Ret stream.2
  end.
End estimator.

(** [from_normalized_price]; [div_to_f64] is the quotient by [1e18] as a float. *)
Definition from_normalized_price (div_to_f64 : BigDecimal -> option f64) (price : BigDecimal) : option f64 :=
  let? p := div_to_f64 price in if is_normal p then Some p else None.

(** [percent] is the random age, between 50 and 90 percent of the longest. *)
Definition initial_entry (div_to_f64 : BigDecimal -> option f64) (percent : address -> Z) (now max_age : Z)
  (p : address * BigDecimal) : comp (option (address * CachedResult)) :=
  let age := max_age / NANOS_PER_SEC * percent p.1 / 100 * NANOS_PER_SEC in
  let! updated_at := expect (if now <? age then None else Some (now - age)) in
  Ret (let? price := from_normalized_price div_to_f64 p.2 in
       Some (p.1, CachedResult_new (Ok price) updated_at now 0)).

Definition initialize_cache (div_to_f64 : BigDecimal -> option f64) (percent : address -> Z) (now max_age : Z)
  (prices : gmap address BigDecimal) : comp (gmap address CachedResult) :=
  let! entries := comp_map (initial_entry div_to_f64 percent now max_age) (map_to_list prices) in
  Ret (list_to_map (omap id entries)).

(** ** Any number of requests

    [pending] holds the requests that wait for the estimator, with the number of errors they
    found.  A request that is dropped, as by a timeout, disappears.  For the statement only,
    [answers] records what the estimator answered, and [loaded] the prices with which the
    cache was initialised. *)
Record Answer := mkAnswer {
  an_token : address;
  an_asked : address;
  an_answer : result PriceEstimationError f64;
  an_time : Z;
}.
Record Loaded := mkLoaded { ld_token : address; ld_price : f64; ld_time : Z }.

Record CacheSystem := mkCacheSystem {
  sys_cache : gmap address CachedResult;
  sys_clock : Z;
  sys_pending : list (address * Z);
  sys_answers : list Answer;
  sys_loaded : list Loaded;
}.

(** The prices of a cache that was just initialised. *)
Definition loaded_prices (now : Z) (cache : gmap address CachedResult) : list Loaded :=
  omap (fun e => match cr_result e.2 with Ok p => Some (mkLoaded e.1 p now) | Err _ => None end) (map_to_list cache).

Section system.
Context (max_age : Z) (approximation_tokens : gmap address ApproximationToken).

Definition approximation (token : address) : ApproximationToken :=
  default (same_decimals token) (approximation_tokens !! token).

(** The estimator may answer every request differently. *)
Inductive cache_step : CacheSystem -> CacheSystem -> Prop :=
| step_time s now : sys_clock s <= now ->
    cache_step s (mkCacheSystem (sys_cache s) now (sys_pending s) (sys_answers s) (sys_loaded s))
| step_look s token create answer cache :
    get_cached_price token (sys_clock s) (sys_cache s) max_age create = Ret (answer, cache) ->
    cache_step s (mkCacheSystem cache (sys_clock s) (sys_pending s) (sys_answers s) (sys_loaded s))
| step_begin s token age begun cache : age <= max_age ->
    fetch_begin token (sys_clock s) (sys_cache s) age = Ret (begun, cache) ->
    cache_step s (mkCacheSystem cache (sys_clock s)
                    (match begun with inl _ => sys_pending s | inr count => (token, count) :: sys_pending s end)
                    (sys_answers s) (sys_loaded s))
| step_end s token count estimate timeout before after : sys_pending s = before ++ (token, count) :: after ->
    let r := fetch_price estimate approximation_tokens token timeout in
    let asked := at_address (approximation token) in
    cache_step s (mkCacheSystem (fetch_end token (sys_clock s) r count (sys_cache s)) (sys_clock s) (before ++ after)
                    (mkAnswer token asked (estimate asked timeout) (sys_clock s) :: sys_answers s) (sys_loaded s))
| step_drop s request before after : sys_pending s = before ++ request :: after ->
    cache_step s (mkCacheSystem (sys_cache s) (sys_clock s) (before ++ after) (sys_answers s) (sys_loaded s))
| step_initialize s div_to_f64 percent prices cache : (forall t, 50 <= percent t <= 90) ->
    initialize_cache div_to_f64 percent (sys_clock s) max_age prices = Ret cache ->
    cache_step s (mkCacheSystem cache (sys_clock s) (sys_pending s) (sys_answers s)
                    (loaded_prices (sys_clock s) cache ++ sys_loaded s)).
End system.

(** ** What the cache answers *)

(** How often the estimator failed internally when it was asked for a token. *)
Definition failed_internally (a : Answer) : bool := match an_answer a with Err (EstimatorInternal _) => true | _ => false end.
Definition internal_errors (token : address) (answers : list Answer) : Z :=
  Z.of_nat (length (filter (fun a => an_token a = token /\ failed_internally a = true) answers)).

(** The results an answer of the estimator for the approximating token gives: the price in
    atoms of the token itself, and errors as they are. *)
Definition gives (approximation_tokens : gmap address ApproximationToken) (token : address) (a : Answer) (r : CacheEntry) : Prop :=
  an_token a = token /\ an_asked a = at_address (approximation approximation_tokens token) /\
  match an_answer a, r with
  | Ok price, Ok price' => price' = f64_mul price (at_normalization_factor (approximation approximation_tokens token))
  | Err e, Err e' => e' = e
  | _, _ => False
  end.

(** Errors that are expected to pass are not kept; internal ones are only believed when they
    were seen [ACCUMULATIVE_ERRORS_THRESHOLD] times. *)
Definition lasting (r : CacheEntry) : Prop :=
  match r with
  | Ok _ | Err NoLiquidity | Err (UnsupportedToken _ _) | Err (EstimatorInternal _) => True
  | Err (ProtocolInternal _) | Err RateLimited | Err (UnsupportedOrderType _) => False
  end.

(** Where an entry comes from. *)
Inductive origin (approximation_tokens : gmap address ApproximationToken) (s : CacheSystem) (token : address) (r : CacheEntry)
  (updated_at : Z) : Prop :=
| origin_answer a : a ∈ sys_answers s -> gives approximation_tokens token a r -> an_time a = updated_at -> lasting r ->
    origin approximation_tokens s token r updated_at
| origin_loaded price time : mkLoaded token price time ∈ sys_loaded s -> r = Ok price -> updated_at <= time <= sys_clock s ->
    origin approximation_tokens s token r updated_at.

Section cache_spec.
Context (max_age : Z) (approximation_tokens : gmap address ApproximationToken).
Local Abbreviation origin := (origin approximation_tokens).

(** An entry is what the estimator answered when it was updated, was loaded, or is too old
    to be used. *)
Record entry_ok (s : CacheSystem) (token : address) (c : CachedResult) : Prop := {
  eo_past : cr_updated_at c <= sys_clock s;
  eo_origin : origin s token (cr_result c) (cr_updated_at c) \/ cr_updated_at c + max_age <= sys_clock s;
  eo_count : 0 <= cr_accumulative_errors_count c <= internal_errors token (sys_answers s);
}.

Record system_ok (s : CacheSystem) : Prop := {
  so_entry token c : sys_cache s !! token = Some c -> entry_ok s token c;
  so_pending token count : (token, count) ∈ sys_pending s -> 0 <= count <= internal_errors token (sys_answers s);
}.

Lemma internal_errors_cons token a answers :
  internal_errors token (a :: answers) =
  internal_errors token answers + (if bool_decide (an_token a = token) && failed_internally a then 1 else 0).
Proof.
  unfold internal_errors. rewrite filter_cons. case_decide as H.
  - destruct H as [-> ->]. rewrite bool_decide_true by done. cbn. lia.
  - case_bool_decide; [|cbn; lia]. destruct (failed_internally a); [tauto|cbn; lia].
Qed.

Lemma internal_errors_nonneg token answers : 0 <= internal_errors token answers.
Proof. unfold internal_errors. lia. Qed.

(** More time, more answers and more loaded prices keep an entry. *)
Lemma entry_ok_mono s s' token c :
  entry_ok s token c -> sys_clock s <= sys_clock s' -> sys_answers s ⊆ sys_answers s' -> sys_loaded s ⊆ sys_loaded s' ->
  internal_errors token (sys_answers s) <= internal_errors token (sys_answers s') -> entry_ok s' token c.
Proof.
  intros [Hp Ho Hc] Ht Hs Hl He. split; [lia| |lia]. destruct Ho as [[a Ha Hg Hta Hla|price time Hin Hr Hu]|?]; [left|left|right; lia].
  - by apply (origin_answer _ _ _ _ _ a); [apply Hs|..].
  - apply (origin_loaded _ _ _ _ _ price time); [by apply Hl|done|lia].
Qed.

Lemma entry_ok_requested s token c now : entry_ok s token c -> entry_ok s token (requested c now).
Proof. by intros [???]. Qed.

Lemma get_cached_price_spec s token age create answer cache :
  0 <= max_age -> system_ok s ->
  get_cached_price token (sys_clock s) (sys_cache s) age create = Ret (answer, cache) ->
  (create = true -> age = max_age) ->
  (forall t c, cache !! t = Some c -> entry_ok s t c) /\
  (forall c, answer = Some c -> entry_ok s token c /\ sys_clock s < cr_updated_at c + age).
Proof.
  intros Hmax [Hentry _] Hget Hage. unfold get_cached_price in Hget.
  destruct (sys_cache s !! token) as [e|] eqn:He; [|destruct create].
  - injection Hget as <- <-. apply Hentry in He. pose proof (eo_past _ _ _ He) as Hpast.
    unfold duration_since. cbn [requested cr_updated_at]. split.
    + intros t c [[<- <-]|[_ Hc]]%lookup_insert_Some; [by apply entry_ok_requested|by apply Hentry].
    + intros c. destruct (Z.ltb_spec (Z.max 0 (sys_clock s - cr_updated_at e)) age) as [Hlt|]; [|done].
      intros [= <-]. split; [by apply entry_ok_requested|cbn; lia].
  - rewrite (Hage eq_refl) in Hget. destruct (Z.ltb_spec (sys_clock s) max_age); [done|].
    injection Hget as <- <-. split; [|done].
    intros t c [[<- <-]|[_ Hc]]%lookup_insert_Some; [|by apply Hentry].
    split; cbn; [|right|pose proof (internal_errors_nonneg token (sys_answers s))]; lia.
  - injection Hget as <- <-. split; [by apply Hentry|done].
Qed.

(** The estimator's answer is what the request returns. *)
Lemma fetch_price_gives estimate token timeout clock :
  let asked := at_address (approximation approximation_tokens token) in
  gives approximation_tokens token (mkAnswer token asked (estimate asked timeout) clock)
    (fetch_price estimate approximation_tokens token timeout).
Proof. unfold gives, fetch_price, approximation. cbn. by destruct (estimate _ _). Qed.

Lemma gives_failed token a r : gives approximation_tokens token a r -> failed_internally a = is_estimator_internal r.
Proof. intros (_ & _ & H). unfold failed_internally. destruct (an_answer a), r; by subst. Qed.

Lemma should_cache_lasting r : should_cache r = true -> lasting r.
Proof. by destruct r as [|[]]. Qed.

Lemma fetch_end_ok s token count a r before after :
  system_ok s -> sys_pending s = before ++ (token, count) :: after ->
  gives approximation_tokens token a r -> an_time a = sys_clock s ->
  system_ok (mkCacheSystem (fetch_end token (sys_clock s) r count (sys_cache s)) (sys_clock s)
               (before ++ after) (a :: sys_answers s) (sys_loaded s)).
Proof.
  intros [Hentry Hpending] Hp Hg Htime.
  assert (forall t, internal_errors t (sys_answers s) <= internal_errors t (a :: sys_answers s)) as Hmono.
  { intros t. rewrite internal_errors_cons. destruct (_ && _); lia. }
  split; cbn [sys_cache sys_pending sys_answers sys_clock].
  - assert (forall t c, sys_cache s !! t = Some c ->
              entry_ok (mkCacheSystem (fetch_end token (sys_clock s) r count (sys_cache s)) (sys_clock s)
                       (before ++ after) (a :: sys_answers s) (sys_loaded s)) t c) as Hold.
    { intros t c Hc. eapply entry_ok_mono; [by apply Hentry|cbn; lia|cbn; set_solver|done|apply Hmono]. }
    intros t c. unfold fetch_end at 1. destruct (should_cache r) eqn:Hr; [|apply Hold].
    intros [[<- <-]|[_ Hc]]%lookup_insert_Some; [|by apply Hold].
    destruct (Hpending token count ltac:(rewrite Hp; set_solver)) as [H0 H1].
    split; cbn [CachedResult_new cr_updated_at cr_result cr_accumulative_errors_count sys_clock sys_answers]; [lia|left|].
    + apply (origin_answer _ _ _ _ _ a); [cbn; set_solver|done|done|by apply should_cache_lasting].
    + rewrite internal_errors_cons, bool_decide_true by apply Hg. rewrite (gives_failed _ _ _ Hg).
      destruct (is_estimator_internal r); cbn [andb]; [|lia].
      pose proof (Z.mod_pos_bound (count + 1) (2 ^ 32)). pose proof (Z.mod_le (count + 1) (2 ^ 32)). lia.
  - intros t c Hc. specialize (Hpending t c ltac:(rewrite Hp; set_solver)). specialize (Hmono t). lia.
Qed.

Lemma initial_entry_spec div_to_f64 percent now p t c :
  initial_entry div_to_f64 percent now max_age p = Ret (Some (t, c)) -> 0 <= max_age -> (forall t, 0 <= percent t) ->
  cr_updated_at c <= now /\ (exists price, cr_result c = Ok price) /\ cr_accumulative_errors_count c = 0.
Proof.
  unfold initial_entry. intros Hi Hage Hp. apply comp_bind_Ret in Hi as (updated & Hu%expect_Ret & Hr).
  destruct (from_normalized_price _ _); [|done]. injection Hr as <- <-. cbn. split_and!; [|by eexists|done].
  destruct (Z.ltb_spec now (max_age / NANOS_PER_SEC * percent p.1 / 100 * NANOS_PER_SEC)); [done|]. injection Hu as <-.
  assert (0 <= max_age / NANOS_PER_SEC * percent p.1 / 100 * NANOS_PER_SEC); [|lia].
  specialize (Hp p.1). apply Z.mul_nonneg_nonneg; [|done]. apply Z.div_pos; [|lia].
  apply Z.mul_nonneg_nonneg; [by apply Z.div_pos|done].
Qed.

Lemma initialize_cache_spec div_to_f64 percent now prices cache t c :
  initialize_cache div_to_f64 percent now max_age prices = Ret cache -> 0 <= max_age -> (forall t, 0 <= percent t) ->
  cache !! t = Some c ->
  cr_updated_at c <= now /\ (exists price, cr_result c = Ok price) /\ cr_accumulative_errors_count c = 0.
Proof.
  unfold initialize_cache. intros (entries & He & [= <-])%comp_bind_Ret Hage Hp Hc.
  apply elem_of_list_to_map_2, list_elem_of_omap in Hc as (e & Hin & He'). cbn in He'. subst e.
  apply comp_map_Ret in He. apply list_elem_of_lookup in Hin as [i Hi].
  destruct (Forall2_lookup_r _ _ _ _ _ He Hi) as (p & _ & Hpe). by eapply initial_entry_spec.
Qed.

Lemma cache_step_ok s s' : 0 <= max_age -> system_ok s -> cache_step max_age approximation_tokens s s' -> system_ok s'.
Proof.
  intros Hmax Hok Hstep. pose proof (so_pending _ Hok) as Hpending. inversion Hstep as
    [? now Hnow|? token create answer cache Hget|? token age begun cache Hage Hget|? token count estimate timeout before after Hp
    |? request before after Hp|? div_to_f64 percent prices cache Hper Hi]; subst.
  - split; [|done]. intros t c Hc. eapply entry_ok_mono; [by apply (so_entry _ Hok)|done..].
  - destruct (get_cached_price_spec _ _ _ _ _ _ Hmax Hok Hget ltac:(done)) as [He _]. split; [|done].
    intros t c Hc. eapply entry_ok_mono; [by apply He|done..].
  - unfold fetch_begin in Hget. apply comp_bind_Ret in Hget as ([answer cache'] & Hget & [= <- <-]).
    destruct (get_cached_price_spec _ _ _ _ _ _ Hmax Hok Hget ltac:(done)) as [He Hans]. split.
    + intros t c Hc. eapply entry_ok_mono; [by apply He|done..].
    + cbn [sys_pending sys_answers fst snd]. intros t n. destruct answer as [c|]; [destruct (is_ready c)|].
      * apply Hpending.
      * intros [[= -> ->]|?]%elem_of_cons; [|by apply Hpending]. apply (eo_count _ _ _ (proj1 (Hans c eq_refl))).
      * intros [[= -> ->]|?]%elem_of_cons; [|by apply Hpending]. split; [done|apply internal_errors_nonneg].
  - apply fetch_end_ok; [done|done|apply fetch_price_gives|done].
  - split; cbn; [|intros t n Hn; apply Hpending; rewrite Hp; set_solver].
    intros t c Hc. eapply entry_ok_mono; [by apply (so_entry _ Hok)|done..].
  - assert (forall t, 0 <= percent t) as Hper' by (intros t; specialize (Hper t); lia). split; cbn; [|done].
    intros t c Hc. destruct (initialize_cache_spec _ _ _ _ _ _ _ Hi Hmax Hper' Hc) as (Hu & (price & Hr) & Hn).
    split; cbn; [done| |pose proof (internal_errors_nonneg t (sys_answers s)); rewrite Hn; lia].
    left. apply (origin_loaded _ _ _ _ _ price (sys_clock s)); [|done|cbn; lia]. cbn. apply elem_of_app. left.
    apply list_elem_of_omap. exists (t, c). rewrite elem_of_map_to_list. cbn. by rewrite Hr.
Qed.

Lemma cache_reachable_ok s0 s :
  0 <= max_age -> system_ok s0 -> rtc (cache_step max_age approximation_tokens) s0 s -> system_ok s.
Proof. intros Hmax Hok. induction 1; [done|]. eauto using cache_step_ok. Qed.

(** The answers the cache gives: to a look-up, or to a request before the estimator is
    asked. *)
Inductive answered_from_cache (s : CacheSystem) (token : address) : CacheEntry -> Prop :=
| from_look create c cache :
    get_ready_to_use_cached_price token (sys_clock s) (sys_cache s) max_age create = Ret (Some c, cache) ->
    answered_from_cache s token (cr_result c)
| from_begin age r cache : age <= max_age ->
    fetch_begin token (sys_clock s) (sys_cache s) age = Ret (inl r, cache) ->
    answered_from_cache s token r.

Lemma is_ready_count c err :
  is_ready c = true -> cr_result c = Err (EstimatorInternal err) -> ACCUMULATIVE_ERRORS_THRESHOLD <= cr_accumulative_errors_count c.
Proof. unfold is_ready. intros [E%negb_true_iff|E%Z.leb_le]%orb_true_iff Hr; [by rewrite Hr in E|done]. Qed.

(** C26 (invariant): The cache only answers with prices that are fresh and real.  However
    look-ups, requests to the estimator, its answers, timeouts, the background task and
    loading stored prices interleave, an answer from the cache is either what the estimator
    answered less than [max_age] ago when it was asked for the token's approximating token,
    in atoms of the token itself, or a stored price that was loaded less than [max_age] ago.
    It is a price, a lack of liquidity or an unsupported token, or an internal error after
    at least five of them for this token; never a rate limit, an error of the protocol or an
    unsupported kind of order.  The placeholder for a missing price is never returned. *)
Theorem cached_prices_fresh now s token r :
  0 <= max_age -> rtc (cache_step max_age approximation_tokens) (mkCacheSystem ∅ now [] [] []) s -> answered_from_cache s token r ->
  ((exists a, a ∈ sys_answers s /\ gives approximation_tokens token a r /\ sys_clock s - max_age < an_time a <= sys_clock s) \/
   (exists price time, mkLoaded token price time ∈ sys_loaded s /\ r = Ok price /\ sys_clock s - max_age < time <= sys_clock s)) /\
  match r with
  | Ok _ | Err NoLiquidity | Err (UnsupportedToken _ _) => True
  | Err (EstimatorInternal _) => 5 <= internal_errors token (sys_answers s)
  | Err RateLimited | Err (ProtocolInternal _) | Err (UnsupportedOrderType _) => False
  end.
Proof.
  intros Hmax Hreach Hans.
  assert (system_ok s) as Hok.
  { eapply cache_reachable_ok; [done| |done]. split; cbn; [|by intros ?? ?%not_elem_of_nil].
    intros t c. by rewrite lookup_empty. }
  assert (exists c age create cache, r = cr_result c /\ is_ready c = true /\ age <= max_age /\ (create = true -> age = max_age) /\
            get_cached_price token (sys_clock s) (sys_cache s) age create = Ret (Some c, cache))
    as (c & age & create & cache & -> & Hready & Hage & Hcreate & Hget).
  { destruct Hans as [create c cache Hget|age r cache Hage Hget].
    - apply comp_bind_Ret in Hget as ([[c'|] cache'] & Hget & Hret); [|discriminate Hret]. cbn [fst snd] in Hret.
      destruct (is_ready c') eqn:Hr; [|discriminate Hret]. injection Hret as <- <-. by exists c', max_age, create, cache'.
    - apply comp_bind_Ret in Hget as ([[c'|] cache'] & Hget & Hret); [|discriminate Hret]. cbn [fst snd] in Hret.
      destruct (is_ready c') eqn:Hr; [|discriminate Hret]. injection Hret as <- <-. by exists c', age, false, cache'. }
  destruct (get_cached_price_spec _ _ _ _ _ _ Hmax Hok Hget Hcreate) as [_ Hc].
  destruct (Hc c eq_refl) as [[Hpast Ho Hcount] Hfresh].
  destruct Ho as [[a Ha Hg Hta Hla|price time Hin Hr Hu]|Hold]; [| |lia]; (split; [|]).
  - left. exists a. split; [done|]. split; [done|lia].
  - destruct (cr_result c) as [p|[]] eqn:E; try done. pose proof (is_ready_count _ _ Hready E).
    unfold ACCUMULATIVE_ERRORS_THRESHOLD in *. lia.
  - right. exists price, time. split; [done|]. split; [done|lia].
  - by rewrite Hr.
Qed.
End cache_spec.

(** Token 7 is priced as twice token 8, whose price is asked for at 1000. *)
Definition sample_approximations : gmap address ApproximationToken := {[ 7 := mkApproximationToken 8 (f64_lit 2) ]}.

Lemma cached_prices_fresh_witness :
  exists a, a ∈ [mkAnswer 7 8 (Ok (f64_lit 3)) 1000] /\ gives sample_approximations 7 a (Ok (f64_lit 6)) /\
            1003 - 10 < an_time a <= 1003.
Proof.
  destruct (cached_prices_fresh 10 sample_approximations 1000
           (mkCacheSystem {[7 := CachedResult_new (Ok (f64_lit 6)) 1000 1000 0]} 1003 []
              [mkAnswer 7 8 (Ok (f64_lit 3)) 1000] []) 7 (Ok (f64_lit 6))) as [[H|(? & ? & H & _)] _].
  - lia.
  - eapply rtc_l. { apply (step_begin _ _ _ 7 10); [lia|reflexivity]. }
    eapply rtc_l. { apply (step_end _ _ _ 7 0 (fun _ _ => Ok (f64_lit 3)) 5 [] []). reflexivity. }
    eapply rtc_l. { apply (step_time _ _ _ 1003). cbn. lia. } vm_compute. apply rtc_refl.
  - refine (from_look 10 _ 7 false (mkCachedResult (Ok (f64_lit 6)) 1000 1003 0) _ _). reflexivity.
  - exact H.
  - by apply not_elem_of_nil in H.
Defined.

(** ** Which prices are updated *)

#[local] Instance update_order_preorder high_priority : CmpPreorder (update_order high_priority).
Proof. unfold update_order. apply _. Qed.

(** The tokens to update are those whose prices are too old, the prioritised ones first and
    among equals those that were requested last. *)
Lemma sorted_tokens_to_update_spec iter high_priority cache max_age now :
  (forall l, iter l ≡ₚ l) ->
  exists entries : list (address * Z), sorted_tokens_to_update iter high_priority cache max_age now = entries.*1 /\
    (forall t r, (t, r) ∈ entries <-> exists c, cache !! t = Some c /\ cr_requested_at c = r /\
                                        max_age < duration_since now (cr_updated_at c)) /\
    Sorted.StronglySorted (fun a b => update_order high_priority a b <> Gt) entries.
Proof.
  intros Hiter. eexists. split; [done|]. split.
  - intros t r. rewrite sort_by_elem, list_elem_of_fmap. split.
    + intros ([t' c] & [= -> ->] & (Ho%Z.ltb_lt & Hin)%list_elem_of_filter). rewrite Hiter in Hin.
      apply elem_of_map_to_list in Hin. by exists c.
    + intros (c & Hc & <- & Ho). exists (t, c). split; [done|]. apply list_elem_of_filter. split; [by apply Z.ltb_lt|].
      rewrite Hiter. by apply elem_of_map_to_list.
  - apply sort_by_sorted, _.
Qed.

(** The background task counts its own updates as requests: a price nobody asked for is
    afterwards the one requested last. *)
Lemma background_update_requests :
  (let! cache := single_update (fun _ _ => Ok (f64_lit 1)) ∅ id (fmap (fun t => (t, (200, 210)))) (mkUpdateTask None 0) []
                   50 5 200 {[7 := CachedResult_new (Ok (f64_lit 1)) 100 100 0]} in
   Ret (cr_requested_at <$> cache !! 7)) = Ret (Some 210).
Proof. vm_compute. reflexivity. Qed.
