(* ===== verification/DriverLiquidity.v ===== *)
(** * DriverLiquidity: the liquidity a driver knows

    [driver/src/domain/liquidity]: the pools and limit orders the driver fetches, with the
    invariants their constructors establish and the guards of their swaps.  The encoders of
    the swaps themselves ([driver/src/boundary/liquidity]) are parameters, as they call
    generated contract bindings. *)

From stdpp Require Import base gmap sets list strings.
From Stdlib Require Import ZArith Lia.
From S2P Require Import Prelude Eth BalancerSwap Solution DriverSolution.

Open Scope Z_scope.

(** ** Uniswap V2 and Swapr *)

(** Ordered by token, for distinct tokens. *)
Record V2Reserves := mkV2Reserves { v2_first : Asset; v2_second : Asset }.

Definition V2Reserves_try_new (a b : Asset) : option V2Reserves :=
  match Z.compare (asset_token a) (asset_token b) with
  | Lt => Some (mkV2Reserves a b)
  | Eq => None
  | Gt => Some (mkV2Reserves b a)
  end.

Definition V2Reserves_has_tokens (r : V2Reserves) (a b : address) : bool :=
  (asset_token (v2_first r) =? a) && (asset_token (v2_second r) =? b)
  || (asset_token (v2_second r) =? a) && (asset_token (v2_first r) =? b).

Definition V2Reserves_iter (r : V2Reserves) : list Asset := [v2_first r; v2_second r].

Record V2Pool := mkV2Pool { v2_address : address; v2_router : address; v2_reserves : V2Reserves }.

(** A fee in basis points, at most ten percent. *)
Definition SwaprFee_try_new (bps : Z) : option Z := if (0 <=? bps) && (bps <=? 1000) then Some bps else None.

Record SwaprPool := mkSwaprPool { sw_base : V2Pool; sw_fee : Z }.

(** ** Uniswap V3 *)
Record V3Pool := mkV3Pool {
  v3_router : address;
  v3_address : address;
  v3_tokens : address * address;
  v3_sqrt_price : Z;
  v3_liquidity : Z;
  v3_tick : Z;
  v3_liquidity_net : list (Z * Z);
  v3_fee : Z * Z;
}.

Definition LiquidityTokenPair_try_new (a b : address) : option (address * address) :=
  match Z.compare a b with Lt => Some (a, b) | Eq => None | Gt => Some (b, a) end.

Definition V3Pool_has_tokens (p : V3Pool) (a b : address) : bool :=
  (a =? (v3_tokens p).1) && (b =? (v3_tokens p).2) || (a =? (v3_tokens p).2) && (b =? (v3_tokens p).1).

(** ** Balancer V2 *)

(** The address is the first 20 of the 32 bytes of a pool id. *)
Definition BalancerId_address (id : Z) : address := id / 2 ^ 96.

Definition ScalingFactor_from_raw (factor : Z) : option Z := if factor =? 0 then None else Some factor.

Record BalancerStableReserve := mkBalancerStableReserve { bsr_asset : Asset; bsr_scale : Z }.
Record BalancerWeightedReserve := mkBalancerWeightedReserve { bwr_asset : Asset; bwr_scale : Z; bwr_weight : Z }.

(** [itertools::all_unique]. *)
Definition all_unique (tokens : list address) : bool := bool_decide (NoDup tokens).

Definition BalancerStableReserves_try_new (reserves : list BalancerStableReserve) : option (list BalancerStableReserve) :=
  if all_unique ((asset_token ∘ bsr_asset) <$> reserves) then Some reserves else None.
Definition BalancerWeightedReserves_try_new (reserves : list BalancerWeightedReserve) : option (list BalancerWeightedReserve) :=
  if all_unique ((asset_token ∘ bwr_asset) <$> reserves) then Some reserves else None.

Definition BalancerStableReserves_tokens (r : list BalancerStableReserve) : list address := (asset_token ∘ bsr_asset) <$> r.
Definition BalancerWeightedReserves_tokens (r : list BalancerWeightedReserve) : list address := (asset_token ∘ bwr_asset) <$> r.

Definition contains_both (tokens : list address) (a b : address) : bool :=
  bool_decide (a ∈ tokens) && bool_decide (b ∈ tokens).

Record DriverAmplification := mkDriverAmplification { amp_factor : Z; amp_precision : Z }.

Inductive InvalidAmplificationParameter := ZeroDenominator | AmplificationOverflow.

Definition DriverAmplification_new (factor precision : Z) : result InvalidAmplificationParameter DriverAmplification :=
  if precision =? 0 then Err ZeroDenominator
  else if negb (fits 256 (factor * precision)) then Err AmplificationOverflow
  else Ok (mkDriverAmplification factor precision).

Record BalancerStablePool := mkBalancerStablePool {
  bs_vault : address;
  bs_id : Z;
  bs_reserves : list BalancerStableReserve;
  bs_amplification_parameter : DriverAmplification;
  bs_fee : Z;
}.

Record BalancerWeightedPool := mkBalancerWeightedPool {
  bw_vault : address;
  bw_id : Z;
  bw_reserves : list BalancerWeightedReserve;
  bw_fee : Z;
  bw_version : WeightedPoolVersion;
}.

(** ** 0x limit orders *)

(** The fields of an order that the driver reads itself; the amounts still fillable. *)
Record ZeroExLimitOrder := mkZeroExLimitOrder {
  zx_contract : address;
  zx_maker_token : address;
  zx_taker_token : address;
  zx_taker_token_fee_amount : Z;
  zx_fillable_maker : Z;
  zx_fillable_taker : Z;
}.

(** ** Liquidity *)
Inductive DriverLiquidityKind :=
| KUniswapV2 (pool : V2Pool)
| KUniswapV3 (pool : V3Pool)
| KBalancerV2Stable (pool : BalancerStablePool)
| KBalancerV2Weighted (pool : BalancerWeightedPool)
| KSwapr (pool : SwaprPool)
| KZeroEx (order : ZeroExLimitOrder).

Record DriverLiquidity := mkDriverLiquidity { dl_id : Z; dl_gas : Z; dl_kind : DriverLiquidityKind }.

Definition DriverLiquidityKind_label (k : DriverLiquidityKind) : string :=
  match k with
  | KUniswapV2 _ => "UniswapV2"
  | KUniswapV3 _ => "UniswapV3"
  | KBalancerV2Stable _ => "BalancerV2Stable"
  | KBalancerV2Weighted _ => "BalancerV2Weighted"
  | KSwapr _ => "Swapr"
  | KZeroEx _ => "ZeroExLimitOrder"
  end.

(** What the allowances of a solution read of it. *)
Definition allowance_kind (k : DriverLiquidityKind) : LiquidityKind :=
  match k with
  | KUniswapV2 pool => UniswapV2 (v2_router pool)
  | KUniswapV3 pool => UniswapV3 (v3_router pool)
  | KBalancerV2Stable pool => BalancerV2Stable (bs_vault pool)
  | KBalancerV2Weighted pool => BalancerV2Weighted (bw_vault pool)
  | KSwapr pool => Swapr (v2_router (sw_base pool))
  | KZeroEx order => ZeroEx (zx_contract order)
  end.

(** ** Swaps *)
Section swaps.
Context (v2_to_interaction : V2Pool -> Asset -> Asset -> address -> EthInteraction).
Context (v3_to_interaction : V3Pool -> Asset -> Asset -> address -> EthInteraction).
Context (stable_to_interaction : BalancerStablePool -> Asset -> Asset -> address -> EthInteraction).
Context (weighted_to_interaction : BalancerWeightedPool -> Asset -> Asset -> address -> EthInteraction).
Context (fill_or_kill_calldata : ZeroExLimitOrder -> Z -> list Z).

Definition V2Pool_swap (p : V2Pool) (input output : Asset) (receiver : address) : option EthInteraction :=
  if V2Reserves_has_tokens (v2_reserves p) (asset_token input) (asset_token output)
  then Some (v2_to_interaction p input output receiver) else None.

Definition SwaprPool_swap (p : SwaprPool) (input output : Asset) (receiver : address) : option EthInteraction :=
  V2Pool_swap (sw_base p) input output receiver.

Definition V3Pool_swap (p : V3Pool) (input output : Asset) (receiver : address) : option EthInteraction :=
  if V3Pool_has_tokens p (asset_token input) (asset_token output)
  then Some (v3_to_interaction p input output receiver) else None.

Definition BalancerStablePool_swap (p : BalancerStablePool) (input output : Asset) (receiver : address) : option EthInteraction :=
  if contains_both (BalancerStableReserves_tokens (bs_reserves p)) (asset_token input) (asset_token output)
  then Some (stable_to_interaction p input output receiver) else None.

Definition BalancerWeightedPool_swap (p : BalancerWeightedPool) (input output : Asset) (receiver : address) : option EthInteraction :=
  if contains_both (BalancerWeightedReserves_tokens (bw_reserves p)) (asset_token input) (asset_token output)
  then Some (weighted_to_interaction p input output receiver) else None.

(** The executed amount is a [u128]. *)
Definition ZeroExLimitOrder_to_interaction (o : ZeroExLimitOrder) (input : Asset) : option EthInteraction :=
  if fits 128 (asset_amount input)
  then Some (mkEthInteraction (zx_contract o) 0 (fill_or_kill_calldata o (asset_amount input))) else None.

Definition liquidity_swap (k : DriverLiquidityKind) (input output : Asset) (receiver : address) : option EthInteraction :=
  match k with
  | KUniswapV2 pool => V2Pool_swap pool input output receiver
  | KUniswapV3 pool => V3Pool_swap pool input output receiver
  | KBalancerV2Stable pool => BalancerStablePool_swap pool input output receiver
  | KBalancerV2Weighted pool => BalancerWeightedPool_swap pool input output receiver
  | KSwapr pool => SwaprPool_swap pool input output receiver
  | KZeroEx order => ZeroExLimitOrder_to_interaction order input
  end.
End swaps.

(** The tokens of a liquidity. *)
Definition liquidity_tokens (k : DriverLiquidityKind) : list address :=
  match k with
  | KUniswapV2 pool => asset_token <$> V2Reserves_iter (v2_reserves pool)
  | KUniswapV3 pool => [(v3_tokens pool).1; (v3_tokens pool).2]
  | KBalancerV2Stable pool => BalancerStableReserves_tokens (bs_reserves pool)
  | KBalancerV2Weighted pool => BalancerWeightedReserves_tokens (bw_reserves pool)
  | KSwapr pool => asset_token <$> V2Reserves_iter (v2_reserves (sw_base pool))
  | KZeroEx order => [zx_maker_token order; zx_taker_token order]
  end.

(** A pool that is swapped through trades both tokens. *)
Lemma liquidity_swap_tokens v2 v3 st we fk k input output receiver i :
  liquidity_swap v2 v3 st we fk k input output receiver = Some i ->
  match k with KZeroEx _ => True | _ => asset_token input ∈ liquidity_tokens k /\ asset_token output ∈ liquidity_tokens k end.
Proof.
  destruct k as [p|p|p|p|p|o]; cbn; [..|done];
    unfold SwaprPool_swap, V2Pool_swap, V3Pool_swap, BalancerStablePool_swap, BalancerWeightedPool_swap;
    (destruct (_ : bool) eqn:E; [|done]); intros _;
    unfold V2Reserves_has_tokens, V3Pool_has_tokens, contains_both in E;
    rewrite ?orb_true_iff, ?andb_true_iff, ?Z.eqb_eq, ?bool_decide_eq_true in E; set_solver.
Qed.
