(* ===== verification/DriverSolverApi.v ===== *)
(** * DriverSolverApi: what a driver and its solver tell each other

    [driver/src/infra/solver/dto/auction.rs] (the auction a driver sends) and
    [driver/src/infra/solver/dto/solution.rs] (how it reads the solutions that come back).
    The JSON between them is one format: the auction extends the wire type of [AuctionApi]
    by the fields the repository's own solver ignores, and a solution of [AuctionApi] is
    read as the general one.

    The conversions of the decimal crate ([BigDecimal] division) and of floats, Keccak and
    ECDSA recovery and the clock are parameters. *)

From stdpp Require Import base gmap sets list strings.
From Stdlib Require Import ZArith Lia Ascii SpecFloat.
From S2P Require Import Prelude Collections F64 Eth BalancerSwap Liquidity Dto Config Solution Engine AuctionApi Score.
From S2P Require Import DriverOrder OrderModel DriverTrade DriverScore DriverSolution DriverCompetition AutopilotAccounting.
From S2P Require Import DriverLiquidity Baseline.

Open Scope Z_scope.
Open Scope rust_scope.

(** ** Numbers in text *)

(** [usize::to_string]: decimal digits; 20 of them are enough for 64 bits. *)
Fixpoint print_digits (fuel : nat) (n : Z) (acc : list ascii) : list ascii :=
  let acc := ascii_of_N (Z.to_N (n mod 10 + 48)) :: acc in
  match fuel with
  | O => acc
  | S fuel => if n / 10 =? 0 then acc else print_digits fuel (n / 10) acc
  end.
Definition usize_to_string (n : Z) : string := String.string_of_list_ascii (print_digits 19 n []).

(** ** The auction *)

(** The fields of an order beyond those the solver of this repository reads. *)
Record SentOrder := mkSentOrder {
  sent_order : WireOrder;
  sent_full_sell_amount : Z;
  sent_full_buy_amount : Z;
  sent_receiver : option address;
  sent_owner : address;
  sent_pre_interactions : list EthInteraction;
  sent_post_interactions : list EthInteraction;
  sent_sell_token_source : SellTokenBalance;
  sent_buy_token_destination : BuyTokenBalance;
  sent_fee_policies : option (list DriverOrder.FeePolicy);
  sent_app_data : Z;
  sent_signature : list Z;
  sent_signing_scheme : DriverOrder.Scheme;
  sent_valid_to : Z;
}.

Record SentAuction := mkSentAuction {
  sent_auction : WireAuction;
  sent_orders : list SentOrder;
  sent_surplus_capturing_jit_order_owners : list address;
}.

Record ManageNativeToken := mkManageNativeToken { wrap_address : bool; insert_unwraps : bool }.

Section send.
Context (u256_from_f64 : f64 -> Z) (biguint_from_f64 : f64 -> option Z).
(** [BigDecimal::new(n, 0) / BigDecimal::new(d, 0)]. *)
Context (big_decimal_div : Z -> Z -> BigDecimal).

Definition rational_to_big_decimal (r : Z * Z) : BigDecimal := big_decimal_div r.1 r.2.

(** Fees, weights and scaling factors of Balancer are fixed point numbers. *)
Definition fee_to_decimal (fee : Z) : BigDecimal := mkBigDecimal fee 18.
Definition weight_to_decimal (weight : Z) : BigDecimal := mkBigDecimal weight 18.
Definition scaling_factor_to_decimal (scale : Z) : BigDecimal := mkBigDecimal scale 18.

Definition v2_pool_dto (id : string) (gas : Z) (pool : V2Pool) (fee : BigDecimal) : DtoLiquidity :=
  DtoConstantProduct (mkDtoConstantProductPool id (v2_address pool) (v2_router pool) gas
    ((fun a => (asset_token a, asset_amount a)) <$> V2Reserves_iter (v2_reserves pool)) fee).

(** A token map is the list of its entries, as the tokens of a pool are distinct. *)
Definition liquidity_dto (l : DriverLiquidity) : DtoLiquidity :=
  let id := usize_to_string (dl_id l) in
  match dl_kind l with
  | KUniswapV2 pool => v2_pool_dto id (dl_gas l) pool (mkBigDecimal 3 3)
  | KUniswapV3 pool =>
      DtoConcentrated (mkDtoConcentratedPool id (v3_address pool) (v3_router pool) (dl_gas l)
        [(v3_tokens pool).1; (v3_tokens pool).2] (rational_to_big_decimal (v3_fee pool)))
  | KBalancerV2Stable pool =>
      DtoStable (mkDtoStablePool id (BalancerId_address (bs_id pool)) (dl_gas l)
        ((fun r => (asset_token (bsr_asset r),
                    mkDtoStableReserve (asset_amount (bsr_asset r)) (scaling_factor_to_decimal (bsr_scale r)))) <$> bs_reserves pool)
        (rational_to_big_decimal (amp_factor (bs_amplification_parameter pool), amp_precision (bs_amplification_parameter pool)))
        (fee_to_decimal (bs_fee pool)))
  | KBalancerV2Weighted pool =>
      DtoWeightedProduct (mkDtoWeightedProductPool id (BalancerId_address (bw_id pool)) (dl_gas l)
        ((fun r => (asset_token (bwr_asset r),
                    mkDtoWeightedReserve (asset_amount (bwr_asset r)) (scaling_factor_to_decimal (bwr_scale r))
                      (weight_to_decimal (bwr_weight r)))) <$> bw_reserves pool)
        (fee_to_decimal (bw_fee pool)) (bw_version pool))
  | KSwapr pool => v2_pool_dto id (dl_gas l) (sw_base pool) (mkBigDecimal (sw_fee pool) 4)
  | KZeroEx order =>
      DtoLimitOrder (mkDtoForeignLimitOrder id (zx_contract order) (dl_gas l) (zx_maker_token order) (zx_taker_token order)
        (zx_fillable_maker order) (zx_fillable_taker order) (zx_taker_token_fee_amount order))
  end.

(** Tokens that only occur in liquidity get an empty entry. *)
Definition token_dto (t : DriverToken) : WireToken :=
  mkWireToken (dt_decimals t) (dt_symbol t) (dt_price t) (dt_available_balance t) (dt_trusted t).
Definition default_token : WireToken := mkWireToken None None None 0 false.

Definition tokens_dto (tokens : gmap address DriverToken) (liquidity : list DriverLiquidity) : gmap address WireToken :=
  foldl (fun m t => match m !! t with Some _ => m | None => <[t := default_token]> m end)
    (token_dto <$> tokens) (liquidity ≫= fun l => liquidity_tokens (dl_kind l)).

(** Volume fees the driver will take make the limit worse. *)
Definition adjust_volume (side : Side) (a : Available) (policy : DriverOrder.FeePolicy) : Available :=
  match policy with
  | DriverOrder.Volume factor =>
      match side with
      | Buy => mkAvailable (mkAsset (asset_token (av_sell a))
                 (default 0 (apply_factor u256_from_f64 biguint_from_f64 (asset_amount (av_sell a))
                               (f64_div (f64_lit 1) (f64_add (f64_lit 1) factor))))) (av_buy a)
      | Sell => mkAvailable (av_sell a) (mkAsset (asset_token (av_buy a))
                 (default 0 (apply_factor u256_from_f64 biguint_from_f64 (asset_amount (av_buy a))
                               (f64_div (f64_lit 1) (f64_sub (f64_lit 1) factor)))))
      end
  | _ => a
  end.

Definition sent_available (weth : address) (fee_handler : FeeHandler) (native : ManageNativeToken) (order : DriverOrder.Order)
  : Available :=
  let a := available order in
  let a := if wrap_address native
           then mkAvailable (av_sell a) (mkAsset (as_erc20 (asset_token (av_buy a)) weth) (asset_amount (av_buy a))) else a in
  match fee_handler with
  | DriverFees => foldl (adjust_volume (order_side order)) a (order_protocol_fees order)
  | SolverFees => a
  end.

Definition hint_from_flashloan (f : Flashloan) : FlashloanHint :=
  mkFlashloanHint (fl_liquidity_provider f) (fl_protocol_adapter f) (fl_receiver f) (fl_token f) (fl_amount f).

Definition order_dto (weth : address) (fee_handler : FeeHandler) (native : ManageNativeToken)
  (flashloan_hints : gmap Z Flashloan) (wrappers : gmap Z (list WrapperCall)) (order : DriverOrder.Order) : SentOrder :=
  let a := sent_available weth fee_handler native order in
  mkSentOrder
    (mkWireOrder (order_uid order) (asset_token (av_sell a)) (asset_token (av_buy a))
       (asset_amount (av_sell a)) (asset_amount (av_buy a))
       (match order_side order with Buy => KindBuy | Sell => KindSell end)
       (match order_kind order with DriverOrder.Market => Liquidity.Market | DriverOrder.Limit => Liquidity.Limit end)
       (match order_partial order with PartialYes _ => true | PartialNo => false end)
       (hint_from_flashloan <$> flashloan_hints !! order_uid order)
       (default [] (wrappers !! order_uid order)))
    (asset_amount (order_sell order)) (asset_amount (order_buy order)) (order_receiver order)
    (sig_signer (order_signature order)) (order_pre_interactions order) (order_post_interactions order)
    (order_sell_token_balance order) (order_buy_token_balance order)
    (match fee_handler with SolverFees => Some (order_protocol_fees order) | DriverFees => None end)
    (AppData_hash (order_app_data order)) (sig_data (order_signature order)) (sig_scheme (order_signature order))
    (order_valid_to order).

Definition auction_dto (auction : DriverAuction) (liquidity : list DriverLiquidity) (weth : address) (fee_handler : FeeHandler)
  (native : ManageNativeToken) (flashloan_hints : gmap Z Flashloan) (wrappers : gmap Z (list WrapperCall))
  (effective_gas_price deadline : Z) : SentAuction :=
  let orders := order_dto weth fee_handler native flashloan_hints wrappers <$> da_orders auction in
  mkSentAuction
    (mkWireAuction (da_id auction) (tokens_dto (da_tokens auction) liquidity) (sent_order <$> orders)
       (liquidity_dto <$> liquidity) effective_gas_price deadline)
    orders (elements (da_surplus_capturing_jit_order_owners auction)).
End send.

(** ** Solutions on the wire *)
Record SolJitOrder := mkSolJitOrder {
  sj_sell_token : address;
  sj_buy_token : address;
  sj_receiver : address;
  sj_sell_amount : Z;
  sj_buy_amount : Z;
  sj_valid_to : Z;
  sj_app_data : Z;
  sj_kind : Side;
  sj_partially_fillable : bool;
  sj_sell_token_balance : SellTokenBalance;
  sj_buy_token_balance : BuyTokenBalance;
  sj_signing_scheme : DriverOrder.Scheme;
  sj_signature : list Z;
}.

Inductive SolTrade :=
| SolFulfillment (order executed_amount : Z) (fee : option Z)
| SolJit (order : SolJitOrder) (executed_amount : Z) (fee : option Z).

Record SolSolution := mkSolSolution {
  ss_id : Z;
  ss_prices : gmap address Z;
  ss_trades : list SolTrade;
  ss_pre_interactions : list EthInteraction;
  ss_interactions : list WireInteraction;
  ss_post_interactions : list EthInteraction;
  ss_gas : option Z;
  ss_flashloans : option (gmap Z FlashloanHint);
  ss_wrappers : list WrapperCall;
}.

(** A solution of the repository's own solver, which sends no flash loans. *)
Definition sol_jit_order (o : WireJitOrder) : SolJitOrder :=
  mkSolJitOrder (wj_sell_token o) (wj_buy_token o) (wj_receiver o) (wj_sell_amount o) (wj_buy_amount o) (wj_valid_to o)
    (wj_app_data o) (match wj_kind o with KindSell => Sell | KindBuy => Buy end) (wj_partially_fillable o) SellErc20 BuyErc20
    (match wj_signing_scheme o with
     | SchemeEip712 => DriverOrder.Eip712 | SchemeEthSign => DriverOrder.EthSign
     | SchemeEip1271 => DriverOrder.Eip1271 | SchemePreSign => DriverOrder.PreSign
     end) (wj_signature o).

Definition sol_solution (s : WireSolution) : SolSolution :=
  mkSolSolution (wsol_id s) (wsol_prices s)
    ((fun t => match t with
               | WireFulfillment order executed fee => SolFulfillment order executed fee
               | WireJitTrade order executed fee => SolJit (sol_jit_order order) executed fee
               end) <$> wsol_trades s)
    (wsol_pre_interactions s) (wsol_interactions s) (wsol_post_interactions s) (wsol_gas s) None (wsol_wrappers s).

(** ** Reading solutions *)
Section read.
Context (u256_from_f64 : f64 -> Z) (biguint_from_f64 : f64 -> option Z).
Context (keccak256 : list Z -> Z) (ecrecover : list Z -> Z -> option address).

Definition MAX_BASE_POINT : Z := 10000.

(** [JitOrder::raw_order_data]. *)
Definition raw_order_data (o : SolJitOrder) : OrderData :=
  mkOrderData (sj_sell_token o) (sj_buy_token o) (Some (sj_receiver o)) (sj_sell_amount o) (sj_buy_amount o)
    (sj_valid_to o) (sj_app_data o) 0 (sj_kind o) (sj_partially_fillable o) (sj_sell_token_balance o) (sj_buy_token_balance o).

(** [Signature::to_boundary_signature]. *)
Definition to_boundary_signature (s : DriverOrder.Signature) : option OrderSignature :=
  match sig_scheme s with
  | DriverOrder.Eip712 | DriverOrder.EthSign => OrderSignature_from_bytes (sig_scheme s) (sig_data s)
  | DriverOrder.Eip1271 => Some (SigEip1271 (sig_data s))
  | DriverOrder.PreSign => Some SigPreSign
  end.

Definition jit_signature (o : SolJitOrder) (domain_separator : Z) : comp (result string DriverOrder.Signature) :=
  match to_boundary_signature (DriverOrder.mkSignature (sj_signing_scheme o) (sj_signature o) 0) with
  | None => Ret (Err "invalid signature"%string)
  | Some sig =>
      let! signer := recover_owner keccak256 ecrecover sig (sj_signature o) domain_separator
                       (hash_struct keccak256 (raw_order_data o)) in
      Ret match signer with
          | None => Err "invalid signature"%string
          | Some signer =>
              Ok (DriverOrder.mkSignature (sj_signing_scheme o)
                    (match sj_signing_scheme o with DriverOrder.Eip1271 => drop 20 (sj_signature o) | _ => sj_signature o end)
                    signer)
          end
  end.

Definition jit_uid (o : SolJitOrder) (domain_separator : Z) : comp (result string Z) :=
  let!r signature := jit_signature o domain_separator in
  Ret (Ok (uid keccak256 (raw_order_data o) domain_separator (sig_signer signature))).

Definition haircut_fee (haircut_bps executed_amount : Z) : Z :=
  if 0 <? haircut_bps then
    default 0 (let? v := checked_mul executed_amount haircut_bps in checked_div v MAX_BASE_POINT)
  else 0.

Definition read_trade (orders : list DriverOrder.Order) (haircut_bps domain_separator : Z) (t : SolTrade)
  : comp (result string Trade) :=
  match t with
  | SolFulfillment order executed_amount fee =>
      Ret (letr found := ok_or (list_find (fun o => order_uid o = order) orders)
                           "invalid order UID specified in fulfillment"%string in
           match Fulfillment_new found.2 executed_amount
                   (match fee with Some fee => Dynamic fee | None => Static end) (haircut_fee haircut_bps executed_amount) with
           | Ok f => Ok (TradeFulfillment f)
           | Err _ => Err "invalid fulfillment"%string
           end)
  | SolJit o executed_amount fee =>
      let!r uid := jit_uid o domain_separator in
      let!r signature := jit_signature o domain_separator in
      Ret match Jit_new (DriverOrder.mkJitOrder (mkAsset (sj_sell_token o) (sj_sell_amount o))
                           (mkAsset (sj_buy_token o) (sj_buy_amount o)) (sj_receiver o) (sj_valid_to o)
                           (sj_partially_fillable o) (sj_app_data o) (sj_kind o) (sj_sell_token_balance o)
                           (sj_buy_token_balance o) signature uid) executed_amount (default 0 fee) with
          | Ok j => Ok (TradeJit j)
          | Err _ => Err "invalid JIT trade"%string
          end
  end.

Definition read_interaction (liquidity : list DriverLiquidity) (i : WireInteraction)
  : result string DriverSolution.Interaction :=
  match i with
  | WireCustom target value calldata internalize allowances inputs outputs =>
      Ok (Custom target value calldata
            ((fun a => DriverSolution.mkAllowance (wal_token a) (wal_spender a) (wal_amount a)) <$> allowances)
            inputs outputs internalize)
  | WireLiquidity id input_token input_amount output_token output_amount internalize =>
      letr liquidity_id := ok_or (parse_u64 id) "invalid liquidity ID format"%string in
      letr found := ok_or (list_find (fun l => dl_id l = liquidity_id) liquidity)
                      "invalid liquidity ID specified in interaction"%string in
      Ok (LiquidityInteraction (allowance_kind (dl_kind found.2)) (mkAsset input_token input_amount)
            (mkAsset output_token output_amount) internalize)
  end.

Definition flashloan_from_hint (f : FlashloanHint) : Flashloan :=
  mkFlashloan (fh_liquidity_provider f) (fh_protocol_adapter f) (fh_receiver f) (fh_token f) (fh_amount f).

(** The loans of the solution, or the hints for the orders it fulfils. *)
Definition read_flashloans (s : SolSolution) (flashloan_hints : gmap Z Flashloan) : gmap Z Flashloan :=
  match ss_flashloans s with
  | Some loans => flashloan_from_hint <$> loans
  | None =>
      list_to_map (omap (fun t => match t with
                                  | SolFulfillment order _ _ => (fun loan => (order, loan)) <$> flashloan_hints !! order
                                  | SolJit _ _ _ => None
                                  end) (ss_trades s))
  end.

Record SolverConfig := mkSolverConfig {
  sc_address : address;
  sc_haircut_bps : Z;
  sc_fee_handler : FeeHandler;
  sc_domain_separator : Z;
}.

Definition solution_error (e : SolutionError) : string :=
  match e with
  | InvalidClearingPrices => "invalid clearing prices"
  | SolutionProtocolFee _ => "could not incorporate protocol fee"
  | InvalidJitTrade _ => "invalid jit trade"
  end.

(** [counter] is the source of ids. *)
Definition read_solution (now : Z) (auction : DriverAuction) (liquidity : list DriverLiquidity) (weth : address)
  (solver : SolverConfig) (flashloan_hints : gmap Z Flashloan) (counter : Z) (s : SolSolution)
  : comp (result string DriverSolution.Solution * Z) :=
  let '(id, counter) := Id_new counter (ss_id s) in
  let! r :=
    (let!r trades := comp_rmap (read_trade (da_orders auction) (sc_haircut_bps solver) (sc_domain_separator solver)) (ss_trades s) in
     let!r interactions := Ret (result_map (read_interaction liquidity) (ss_interactions s)) in
     let! solution :=
       Solution_new u256_from_f64 biguint_from_f64 now
         (DriverSolution.mkSolution id trades (ss_prices s) (ss_pre_interactions s) interactions (ss_post_interactions s)
            (sc_address solver) weth (ss_gas s) (read_flashloans s flashloan_hints) (ss_wrappers s))
         (sc_fee_handler solver) (da_surplus_capturing_jit_order_owners auction) in
     Ret (map_err solution_error solution)) in
  Ret (r, counter).

(** [Solutions::into_domain]: one invalid solution discards all of them. *)
Fixpoint solutions_into_domain (now : Z) (auction : DriverAuction) (liquidity : list DriverLiquidity) (weth : address)
  (solver : SolverConfig) (flashloan_hints : gmap Z Flashloan) (counter : Z) (l : list SolSolution)
  : comp (result string (list DriverSolution.Solution) * Z) :=
  match l with
  | [] => Ret (Ok [], counter)
  | s :: l =>
      let! first := read_solution now auction liquidity weth solver flashloan_hints counter s in
      match first.1 with
      | Err e => Ret (Err e, first.2)
      | Ok solution =>
          let! rest := solutions_into_domain now auction liquidity weth solver flashloan_hints first.2 l in
          Ret (letr solutions := rest.1 in Ok (solution :: solutions), rest.2)
      end
  end.
End read.

(** ** Ids survive the wire *)
Lemma digit_code n : N_of_ascii (ascii_of_N (Z.to_N (n mod 10 + 48))) = Z.to_N (n mod 10 + 48).
Proof. apply N_ascii_embedding. pose proof (Z.mod_pos_bound n 10). lia. Qed.

Lemma parse_print_digits fuel n l :
  0 <= n < 10 ^ (Z.of_nat fuel + 1) -> n < 2 ^ 64 -> parse_digits (print_digits fuel n l) 0 = parse_digits l n.
Proof.
  revert n l. induction fuel as [|fuel IH]; intros n l Hn Hmax; cbn [print_digits].
  - cbn [parse_digits]. rewrite digit_code. rewrite Z2N.id by (pose proof (Z.mod_pos_bound n 10); lia).
    rewrite (Z.mod_small n 10) by lia. rewrite Z.add_simpl_r.
    rewrite !(proj2 (Z.leb_le _ _)) by lia. done.
  - pose proof (Z.mod_pos_bound n 10). pose proof (Z.div_mod n 10).
    assert (parse_digits (ascii_of_N (Z.to_N (n mod 10 + 48)) :: l) (n / 10) = parse_digits l n) as Hd.
    { cbn [parse_digits]. rewrite digit_code, Z2N.id, Z.add_simpl_r by lia.
      rewrite !(proj2 (Z.leb_le _ _)) by lia. cbn [andb]. f_equal. lia. }
    destruct (Z.eqb_spec (n / 10) 0) as [E|E]; [by rewrite E in Hd|]. rewrite IH; [done| |].
    + split; [apply Z.div_pos; lia|]. apply Z.div_lt_upper_bound; [lia|].
      rewrite <- Z.pow_succ_r by lia. replace (Z.succ (Z.of_nat fuel + 1)) with (Z.of_nat (S fuel) + 1) by lia. lia.
    + apply Z.div_lt_upper_bound; lia.
Qed.

Lemma print_digits_head fuel n l :
  0 <= n -> exists c rest, print_digits fuel n l = c :: rest /\ (48 <= N_of_ascii c)%N.
Proof.
  revert n l. induction fuel as [|fuel IH]; intros n l Hn; cbn [print_digits].
  - do 2 eexists. split; [done|]. rewrite digit_code. pose proof (Z.mod_pos_bound n 10). lia.
  - destruct (n / 10 =? 0); [|apply IH, Z.div_pos; lia].
    do 2 eexists. split; [done|]. rewrite digit_code. pose proof (Z.mod_pos_bound n 10). lia.
Qed.

Lemma usize_round_trip n : 0 <= n < 2 ^ 64 -> parse_u64 (usize_to_string n) = Some n.
Proof.
  intros Hn. unfold parse_u64, usize_to_string. rewrite String.list_ascii_of_string_of_list_ascii.
  destruct (print_digits_head 19 n [] ltac:(lia)) as (c & rest & E & Hc). rewrite E.
  destruct (Ascii.eqb_spec c "+") as [->|_]; [by vm_compute in Hc|]. rewrite <- E, parse_print_digits; [done| |lia].
  split; [lia|]. apply (Z.lt_trans _ (2 ^ 64)); [lia|]. reflexivity.
Qed.

(** ** The amounts that are sent *)
Definition target_amount (side : Side) (a : Available) : Z :=
  match side with Buy => asset_amount (av_buy a) | Sell => asset_amount (av_sell a) end.

Section sent.
Context (u256_from_f64 : f64 -> Z) (biguint_from_f64 : f64 -> option Z).

Lemma adjust_volumes_keep side a policies :
  target_amount side (foldl (adjust_volume u256_from_f64 biguint_from_f64 side) a policies) = target_amount side a /\
  asset_token (av_sell (foldl (adjust_volume u256_from_f64 biguint_from_f64 side) a policies)) = asset_token (av_sell a) /\
  asset_token (av_buy (foldl (adjust_volume u256_from_f64 biguint_from_f64 side) a policies)) = asset_token (av_buy a).
Proof.
  revert a. induction policies as [|p policies IH]; intros a; cbn [foldl]; [done|].
  destruct (IH (adjust_volume u256_from_f64 biguint_from_f64 side a p)) as (-> & -> & ->).
  destruct p, side; done.
Qed.

(** The driver's adjustment of the limit changes neither the amount to be filled nor the
    tokens. *)
Lemma sent_available_keeps weth fee_handler native order :
  target_amount (order_side order) (sent_available u256_from_f64 biguint_from_f64 weth fee_handler native order) =
    target_amount (order_side order) (available order) /\
  asset_token (av_sell (sent_available u256_from_f64 biguint_from_f64 weth fee_handler native order)) = asset_token (order_sell order) /\
  asset_token (av_buy (sent_available u256_from_f64 biguint_from_f64 weth fee_handler native order)) =
    (if wrap_address native then as_erc20 (asset_token (order_buy order)) weth else asset_token (order_buy order)).
Proof.
  unfold sent_available.
  assert (asset_token (av_sell (available order)) = asset_token (order_sell order) /\
          asset_token (av_buy (available order)) = asset_token (order_buy order)) as [Hs Hb]
    by (unfold available; by destruct (order_partial order)).
  destruct fee_handler; [destruct (adjust_volumes_keep (order_side order)
    (if wrap_address native
     then mkAvailable (av_sell (available order)) (mkAsset (as_erc20 (asset_token (av_buy (available order))) weth)
            (asset_amount (av_buy (available order)))) else available order) (order_protocol_fees order)) as (-> & -> & ->)|];
    destruct (wrap_address native), (order_side order); cbn; rewrite ?Hs, ?Hb; done.
Qed.

(** What can be filled of an order. *)
Definition fillable (order : DriverOrder.Order) : Z :=
  match order_partial order with PartialYes v => v | PartialNo => target order end.

Record sendable (order : DriverOrder.Order) : Prop := {
  sd_sell : u256 (asset_amount (order_sell order));
  sd_buy : u256 (asset_amount (order_buy order));
  sd_target : 0 < target order;
  sd_fillable : u256 (fillable order);
  sd_not_native : asset_token (order_sell order) <> NATIVE_TOKEN;
}.

Lemma available_target order : sendable order -> target_amount (order_side order) (available order) = fillable order.
Proof.
  intros [Hs Hb Ht Hf _]. unfold available, fillable, target, target_amount, u256 in *.
  destruct (order_partial order) as [v|], (order_side order); cbn; try done.
  - assert (mul_ratio_ceil (asset_amount (order_buy order)) v (asset_amount (order_buy order)) = Some v) as ->; [|done].
    apply mul_ratio_ceil_Some; [lia..|]. split_and!; [lia| |unfold U256_MAX; lia].
    unfold div_ceil. rewrite (Z.mul_comm _ v).
    replace (v * asset_amount (order_buy order) + asset_amount (order_buy order) - 1)
      with (asset_amount (order_buy order) - 1 + v * asset_amount (order_buy order)) by lia.
    rewrite Z.div_add by lia. rewrite Z.div_small by lia. lia.
  - assert (mul_ratio (asset_amount (order_sell order)) v (asset_amount (order_sell order)) = Some v) as ->; [|done].
    apply mul_ratio_Some; [lia..|]. split_and!; [lia| |unfold U256_MAX; lia].
    rewrite Z.mul_comm, Z.div_mul by lia. done.
Qed.

(** An execution that fits the order that was sent is a fulfilment of the driver's. *)
Lemma read_fulfillment weth fee_handler native hints wrappers order executed fee haircut :
  sendable order ->
  wire_fills (sent_order (order_dto u256_from_f64 biguint_from_f64 weth fee_handler native hints wrappers order)) executed fee ->
  Fulfillment_new order executed (match fee with Some fee => Dynamic fee | None => Static end) haircut =
  Ok (mkFulfillment order executed (match fee with Some fee => Dynamic fee | None => Static end) haircut).
Proof.
  intros Hs. destruct (sent_available_keeps weth fee_handler native order) as (Ht & _ & _).
  rewrite (available_target order Hs) in Ht. destruct Hs as [_ _ Hpos Hf _].
  unfold wire_fills, order_dto, target_amount, fillable in *.
  cbn [sent_order wo_kind wo_buy_amount wo_sell_amount wo_partially_fillable wo_class] in *.
  intros Hfill. apply Fulfillment_new_Ok. split; [done|]. unfold fulfillment_valid, valid_execution, fee_in_target, valid_fee.
  cbn [f_executed f_fee f_order]. unfold solver_determines_fee, u256, U256_MAX in *.
  destruct (order_side order); rewrite Ht in Hfill; destruct Hfill as [Hfill Hclass].
  all: destruct (order_partial order), fee; cbn [default id from_option] in *.
  all: split; [lia|]; split; [first [apply Z.leb_le|apply Z.eqb_eq]; lia|].
  all: destruct (order_kind order); try done; destruct Hclass as [Hc Hc']; first [by specialize (Hc eq_refl)|by specialize (Hc' eq_refl)].
Qed.
End sent.

(** ** Reading what the repository's solver answers *)
Lemma find_order (orders : list DriverOrder.Order) order :
  NoDup (order_uid <$> orders) -> order ∈ orders ->
  exists k, list_find (fun o => order_uid o = order_uid order) orders = Some (k, order).
Proof.
  intros Hnd Hin. destruct (list_find_elem_of (fun o => order_uid o = order_uid order) orders order Hin eq_refl) as [[k o] Hf].
  exists k. rewrite Hf. apply list_find_Some in Hf as (Hk & Hu & _). do 2 f_equal.
  apply list_elem_of_lookup in Hin as [j Hj].
  assert (k = j) as ->; [|congruence].
  apply (NoDup_lookup _ _ _ (order_uid order) Hnd); rewrite list_lookup_fmap, ?Hk, ?Hj; cbn; by rewrite ?Hu.
Qed.

Lemma liquidity_dto_id big_decimal_div l : dto_id (liquidity_dto big_decimal_div l) = usize_to_string (dl_id l).
Proof. unfold liquidity_dto. by destruct (dl_kind l). Qed.

(** The driver finds the liquidity every swap of a solution names. *)
Lemma read_swaps big_decimal_div self liquidity ls order x y interactions :
  Forall (fun l => 0 <= dl_id l < 2 ^ 64) liquidity ->
  Forall2 decoded (liquidity_dto big_decimal_div <$> liquidity) ls -> swaps self ls order x y interactions ->
  exists read, result_map (read_interaction liquidity) (map interaction_from_domain interactions) = Ok read.
Proof.
  intros Hids Hdec Hsw. destruct Hsw as [(_ & -> & _)|(r & out & _ & _ & _ & HF)]; [by exists []|].
  assert (Forall (fun i => exists j, read_interaction liquidity (interaction_from_domain i) = Ok j) interactions) as H.
  { apply Forall_forall. intros i (n & Hn)%list_elem_of_lookup.
    destruct (Forall2_lookup_r _ _ _ _ _ HF Hn) as (sg & _ & Hin & fl & ->).
    apply list_elem_of_lookup in Hin as [m Hm].
    destruct (Forall2_lookup_r _ _ _ _ _ Hdec Hm) as (d & Hd & Hid & _).
    apply list_lookup_fmap_Some in Hd as (l & -> & Hl). apply list_elem_of_lookup_2 in Hl.
    rewrite liquidity_dto_id in Hid. unfold read_interaction, interaction_from_domain. cbn [lint_liquidity].
    rewrite Hid, usize_round_trip by (by rewrite Forall_forall in Hids; apply Hids). cbn [ok_or result_bind].
    destruct (list_find_elem_of (fun l' => dl_id l' = dl_id l) liquidity l Hl eq_refl) as [found ->]. eauto. }
  clear -H. induction H as [|i is_ [j Hj] _ [read IH]]; [by exists []|].
  exists (j :: read). cbn [map result_map]. rewrite Hj. cbn [result_bind]. by rewrite IH.
Qed.

(** Tokens of liquidity are added without a price; the auction's own are unchanged. *)
Lemma tokens_dto_lookup tokens liquidity t :
  (exists token, tokens !! t = Some token /\ tokens_dto tokens liquidity !! t = Some (token_dto token)) \/
  (tokens !! t = None /\ forall wt, tokens_dto tokens liquidity !! t = Some wt -> wt = default_token).
Proof.
  unfold tokens_dto. set (f := fun (m : gmap address WireToken) t => _).
  assert (forall l m, (forall wt, m !! t = Some wt -> foldl f m l !! t = Some wt) /\
    (m !! t = None -> forall wt, foldl f m l !! t = Some wt -> wt = default_token)) as H.
  { induction l as [|t' l IH]; intros m; cbn [foldl]; [split; [done|by intros -> wt]|].
    destruct (IH (f m t')) as [IH1 IH2].
    assert (f m t' = match m !! t' with Some _ => m | None => <[t' := default_token]> m end) as Hf by done. rewrite Hf in *.
    destruct (m !! t') as [wt'|] eqn:E; [done|]. split.
    - intros wt Hwt. apply IH1. by rewrite lookup_insert_ne by congruence.
    - intros Hm wt. destruct (decide (t' = t)) as [->|Hne]; [|apply IH2; by rewrite lookup_insert_ne].
      rewrite (IH1 default_token); [by intros [=]|]. by rewrite lookup_insert_eq. }
  destruct (H (liquidity ≫= fun l => liquidity_tokens (dl_kind l)) (token_dto <$> tokens)) as [H1 H2].
  rewrite lookup_fmap in H1, H2. destruct (tokens !! t) as [token|] eqn:E; [left|right; split; [done|by apply H2]].
  exists token. split; [done|]. by apply H1.
Qed.

Section answer.
Context (u256_from_f64 : f64 -> Z) (biguint_from_f64 : f64 -> option Z) (big_decimal_div : Z -> Z -> BigDecimal).
Context (keccak256 : list Z -> Z) (ecrecover : list Z -> Z -> option address).
Context (auction : DriverAuction) (liquidity : list DriverLiquidity) (weth : address) (solver : SolverConfig).
Context (native : ManageNativeToken) (hints : gmap Z Flashloan) (wrappers : gmap Z (list WrapperCall)).

Local Abbreviation sent_as order :=
  (sent_order (order_dto u256_from_f64 biguint_from_f64 weth (sc_fee_handler solver) native hints wrappers order)).

(** The driver's fulfilment of an order, once the protocol fees it takes itself are
    charged. *)
Definition taken_on (order : DriverOrder.Order) (ws : WireSolution) (solution : DriverSolution.Solution) : Prop :=
  exists executed fee f, wsol_trades ws = [WireFulfillment (order_uid order) executed fee] /\
    sol_trades solution = [TradeFulfillment f] /\ f_order f = order /\ sol_prices solution = wsol_prices ws /\
    length (sol_interactions solution) = length (wsol_interactions ws) /\
    (sc_fee_handler solver = SolverFees ->
     f = mkFulfillment order executed (match fee with Some fee => Dynamic fee | None => Static end)
           (haircut_fee (sc_haircut_bps solver) executed)).

(** The only reason for which the driver rejects a solution. *)
Definition read_outcome (order : DriverOrder.Order) (ws : WireSolution) (r : result string DriverSolution.Solution) : Prop :=
  match r with
  | Ok solution => taken_on order ws solution
  | Err e => sc_fee_handler solver = DriverFees /\ e = "could not incorporate protocol fee"%string
  end.

Lemma with_protocol_fees_order f p f' :
  with_protocol_fees u256_from_f64 biguint_from_f64 f p = Ok f' -> f_order f' = f_order f.
Proof.
  unfold with_protocol_fees. generalize (order_protocol_fees (f_order f)). intros policies.
  revert f. induction policies as [|policy policies IH]; intros f H; cbn [apply_policies] in H; [by injection H as <-|].
  apply result_bind_Ok in H as (f1 & (_ & Ho & _)%with_protocol_fee_Ok & H). rewrite <- Ho. by apply IH.
Qed.

Lemma priced_solution order x y fee s :
  sendable order -> wrap_address native = true ->
  settles (order_to_domain (sent_as order)) x y fee s ->
  is_Some (s_prices s !! as_erc20 (asset_token (order_sell order)) weth) /\
  is_Some (s_prices s !! as_erc20 (asset_token (order_buy order)) weth).
Proof.
  intros Hs Hw (taken & given & f & _ & _ & _ & _ & _ & _ & _ & Hb & Hsell).
  destruct (sent_available_keeps u256_from_f64 biguint_from_f64 weth (sc_fee_handler solver) native order) as (_ & Es & Eb).
  rewrite Hw in Eb. cbn [order_to_domain Liquidity.order_buy Liquidity.order_sell sent_order order_dto wo_buy_token wo_sell_token
    wo_buy_amount wo_sell_amount asset_token] in Hb, Hsell. rewrite Es, Eb in *.
  unfold as_erc20 at 1. rewrite (proj2 (Z.eqb_neq _ _) (sd_not_native _ Hs)).
  split; [|eauto]. destruct (decide (asset_token (order_sell order) = as_erc20 (asset_token (order_buy order)) weth)) as [->|Hne]; eauto.
Qed.

(** A solution of one priced fulfilment is only rejected for its protocol fees. *)
Lemma single_solution now sol f owners :
  sol_trades sol = [TradeFulfillment f] ->
  is_Some (clearing_price sol (asset_token (order_sell (f_order f)))) ->
  is_Some (clearing_price sol (asset_token (order_buy (f_order f)))) ->
  exists r, Solution_new u256_from_f64 biguint_from_f64 now sol (sc_fee_handler solver) owners = Ret r /\
    match r with
    | Ok s => exists f', s = with_trades [TradeFulfillment f'] sol /\ f_order f' = f_order f /\
                (sc_fee_handler solver = SolverFees -> f' = f)
    | Err e => sc_fee_handler solver = DriverFees /\ exists fee_error, e = SolutionProtocolFee fee_error
    end.
Proof.
  intros Ht [ps Hs] [pb Hb]. unfold Solution_new. rewrite Ht. cbn [convert_jit result_bind].
  unfold user_trades. cbn [with_trades sol_trades user_trades_of omap list_omap existsb].
  change (clearing_price (with_trades [TradeFulfillment f] sol)) with (clearing_price sol).
  rewrite Hs, Hb, !bool_decide_eq_false_2 by done. cbn [orb].
  destruct (sc_fee_handler solver).
  - cbn [charge_trades]. unfold index_price.
    change (clearing_price (with_trades [TradeFulfillment f] sol)) with (clearing_price sol). rewrite Hs, Hb.
    cbn [expect comp_bind]. destruct (with_protocol_fees _ _ f _) as [f'|e] eqn:E; cbn [map_err result_bind comp_rbind].
    + eexists. split; [done|]. exists f'. split; [done|]. split; [by eapply with_protocol_fees_order|done].
    + eexists. split; [done|]. cbn. split; [done|by eexists].
  - eexists. split; [done|]. by exists f.
Qed.

Context (Hsendable : Forall sendable (da_orders auction)) (Huids : NoDup (order_uid <$> da_orders auction)).
Context (Hids : Forall (fun l => 0 <= dl_id l < 2 ^ 64) liquidity) (Hwrap : wrap_address native = true).

Lemma read_solution_reads now self ls k order s counter :
  order ∈ da_orders auction ->
  Forall2 decoded (liquidity_dto big_decimal_div <$> liquidity) ls ->
  solves self ls k (order_to_domain (sent_as order)) s ->
  exists r counter',
    read_solution u256_from_f64 biguint_from_f64 keccak256 ecrecover now auction liquidity weth solver hints counter
      (sol_solution (solution_from_domain s)) = Ret (r, counter') /\
    read_outcome order (solution_from_domain s) r.
Proof.
  intros Hin Hdec (_ & x & y & fee & Hset & Hsw).
  assert (sendable order) as Hs by (rewrite Forall_forall in Hsendable; by apply Hsendable).
  destruct (settles_wire _ _ _ _ _ Hset) as (executed & fee' & Ht & Hfill).
  change (wo_uid (sent_as order)) with (order_uid order) in Ht.
  destruct (priced_solution _ _ _ _ _ Hs Hwrap Hset) as [Hps Hpb].
  destruct (read_swaps _ _ _ _ _ _ _ _ Hids Hdec Hsw) as [read Hread].
  pose proof (proj1 (result_map_Ok _ _ _) Hread) as HF. apply Forall2_length in HF.
  destruct (find_order _ _ Huids Hin) as [j Hj].
  unfold read_solution, sol_solution, solution_from_domain. destruct (Id_new _ _) as [id counter'].
  cbn [ss_trades ss_interactions wsol_trades wsol_interactions ss_prices wsol_prices]. rewrite Ht, Hread.
  cbn [fmap list_fmap comp_rmap read_trade]. rewrite Hj. cbn [ok_or result_bind snd].
  rewrite (read_fulfillment _ _ _ _ _ _ _ _ _ _ (haircut_fee (sc_haircut_bps solver) executed) Hs Hfill). cbn [comp_rbind].
  edestruct single_solution as (r & Hr & Hres); [| | |rewrite Hr]; [reflexivity|exact Hps|exact Hpb|].
  cbn [comp_bind]. do 2 eexists. split; [done|]. destruct r as [sol|e]; cbn [map_err read_outcome solution_error].
  - destruct Hres as (f & -> & Ho & Hf). exists executed, fee', f.
    split; [done|]. split; [done|]. split; [exact Ho|]. split; [done|]. split; [|exact Hf]. by cbn.
  - destruct Hres as (Hh & fe & ->). done.
Qed.

Lemma solutions_into_domain_reads now self ls sent counter :
  Forall2 decoded (liquidity_dto big_decimal_div <$> liquidity) ls ->
  Forall (fun s => exists k order, order ∈ da_orders auction /\ solves self ls k (order_to_domain (sent_as order)) s) sent ->
  exists r counter',
    solutions_into_domain u256_from_f64 biguint_from_f64 keccak256 ecrecover now auction liquidity weth solver hints counter
      (sol_solution <$> from_domain sent) = Ret (r, counter') /\
    match r with
    | Ok solutions => Forall2 (fun ws solution => exists order, order ∈ da_orders auction /\ taken_on order ws solution)
                        (from_domain sent) solutions
    | Err e => sc_fee_handler solver = DriverFees /\ e = "could not incorporate protocol fee"%string
    end.
Proof.
  intros Hdec Hall. revert counter. induction Hall as [|s sent (k & order & Hin & Hsol) _ IH]; intros counter.
  { do 2 eexists. split; [done|]. constructor. }
  destruct (read_solution_reads now self ls k order s counter Hin Hdec Hsol) as (r & counter' & Hr & Hout).
  unfold from_domain in *. rewrite map_cons, fmap_cons. cbn [solutions_into_domain]. rewrite Hr. cbn [comp_bind fst snd].
  destruct r as [solution|e]; [|by do 2 eexists].
  destruct (IH counter') as (rest & counter'' & Hrest & Hres). rewrite Hrest.
  cbn [comp_bind fst snd]. do 2 eexists. split; [done|]. destruct rest as [solutions|e]; cbn [result_bind]; [|done].
  constructor; [eauto|done].
Qed.
End answer.

(** C24 (refinement): a driver and the repository's solver work together.  When the driver
    sends an auction, the solver answers without panicking, and the driver reads a
    successful answer without panicking: every solution becomes a fulfilment of one order
    of the auction at the solver's prices, through liquidity the driver knows, with the
    solver's fee and the configured haircut.  The driver rejects the answer only when
    it takes protocol fees itself and cannot charge them. *)
Theorem driver_accepts_solver u256_from_f64 biguint_from_f64 f64_from_u256 big_decimal_div keccak256 ecrecover iter to_u32
  self aborted_after now auction liquidity weth solver native hints wrappers gas_price deadline counter :
  (forall l, iter l ≡ₚ l) -> (forall d v, to_u32 d = Some v -> 0 <= v < 2 ^ 32) ->
  (forall x, 0 <= u256_from_f64 x) -> quoter_opt_ok (in_uni_v3_quoter_v2 self) ->
  u256 (in_native_token_price_estimation_amount self) -> (in_max_partial_attempts self <= 256)%nat ->
  Forall sendable (da_orders auction) -> NoDup (order_uid <$> da_orders auction) ->
  Forall (fun l => 0 <= dl_id l < 2 ^ 64) liquidity -> wrap_address native = true ->
  let sent := sent_auction (auction_dto u256_from_f64 biguint_from_f64 big_decimal_div auction liquidity weth
                              (sc_fee_handler solver) native hints wrappers gas_price deadline) in
  wire_auction_ok to_u32 self sent ->
  exists status body, handle_auction iter to_u32 f64_from_u256 u256_from_f64 self aborted_after sent = Ret (status, body) /\
  match body with
  | Err _ => status = 400
  | Ok answer => status = 200 /\
      exists r counter',
        solutions_into_domain u256_from_f64 biguint_from_f64 keccak256 ecrecover now auction liquidity weth solver hints counter
          (sol_solution <$> answer) = Ret (r, counter') /\
        match r with
        | Ok solutions =>
            Forall2 (fun ws solution => exists order, order ∈ da_orders auction /\ taken_on solver order ws solution) answer solutions
        | Err e => sc_fee_handler solver = DriverFees /\ e = "could not incorporate protocol fee"%string
        end
  end.
Proof.
  intros Hiter Hu32 Hf64 Hq Hn Ha Hs Hu Hl Hw sent Hok.
  destruct (handle_auction_solves iter to_u32 f64_from_u256 u256_from_f64 self aborted_after sent Hiter Hu32 Hf64 Hq Hn Ha Hok)
    as (status & body & Hrun & Hbody). exists status, body. split; [done|].
  destruct body as [answer|]; [|done]. destruct Hbody as (-> & ls & solutions & -> & Hdec & Hsol). split; [done|].
  eapply (solutions_into_domain_reads _ _ _ _ _ _ _ _ _ native hints wrappers); [done..|exact Hdec|].
  eapply Forall_impl; [exact Hsol|]. intros s (k & o & Hk & Hsv). exists k.
  cbn [sent auction_dto sent_auction wa_orders] in Hk. rewrite !list_lookup_fmap in Hk.
  destruct (da_orders auction !! k) as [order|] eqn:E; [|done]. injection Hk as <-.
  exists order. split; [by eapply list_elem_of_lookup_2|exact Hsv].
Qed.

(** Reading a pre-signed JIT order panics unless its signature is the 20 bytes of the
    owner, and a smart contract signature must have as many; the solver of this repository
    sends pre-signed JIT orders with no signature at all. *)
Lemma short_jit_signature_panics keccak256 ecrecover orders haircut_bps domain_separator o executed fee :
  (sj_signing_scheme o = DriverOrder.PreSign /\ length (sj_signature o) <> 20%nat) \/
  (sj_signing_scheme o = DriverOrder.Eip1271 /\ (length (sj_signature o) < 20)%nat) ->
  read_trade keccak256 ecrecover orders haircut_bps domain_separator (SolJit o executed fee) = Panic.
Proof.
  intros H. cbn [read_trade]. unfold jit_uid.
  assert (jit_signature keccak256 ecrecover o domain_separator = Panic) as ->; [|done].
  unfold jit_signature, to_boundary_signature. cbn [DriverOrder.sig_scheme sig_data].
  destruct H as [[-> Hl]|[-> Hl]]; cbn [recover_owner].
  - by rewrite bool_decide_eq_false_2.
  - by rewrite (proj2 (Nat.ltb_lt _ _)).
Qed.

Lemma presigned_jit_panics keccak256 ecrecover orders haircut_bps domain_separator trade :
  Solution.jit_signature (jt_order trade) = Solution.PreSign ->
  match trade_from_domain (JitT trade) with
  | WireJitTrade o executed fee =>
      read_trade keccak256 ecrecover orders haircut_bps domain_separator (SolJit (sol_jit_order o) executed fee) = Panic
  | WireFulfillment _ _ _ => False
  end.
Proof.
  intros H. cbn [trade_from_domain]. rewrite H. cbn [signature_from_domain].
  apply short_jit_signature_panics. left. done.
Qed.

(** ** Examples *)
Definition no_biguint (_ : f64) : option Z := None.
Definition sample_div (n d : Z) : BigDecimal := mkBigDecimal (n * 10 ^ 6 / d) 6.
Definition no_keccak (_ : list Z) : Z := 0.
Definition no_ecrecover (_ : list Z) (_ : Z) : option address := None.

Definition sample_order : DriverOrder.Order :=
  DriverOrder.mkOrder 77 None 0 100 (mkAsset NATIVE_TOKEN 400) (mkAsset 3 1000) Sell DriverOrder.Limit (AppDataHash 0)
    (PartialYes 800) [] [] SellErc20 BuyErc20 (DriverOrder.mkSignature DriverOrder.Eip712 [] 9) [] None.
Definition sample_auction : DriverAuction :=
  mkDriverAuction (Some 7) [sample_order] {[ 3 := mkDriverToken None None (Some (10 ^ 18)) 0 false ]} 0 ∅.
Definition sample_pool : DriverLiquidity :=
  mkDriverLiquidity 12 90000 (KUniswapV2 (mkV2Pool 101 201 (mkV2Reserves (mkAsset 3 2000000) (mkAsset 7 1000000)))).
Definition sample_solver : SolverConfig := mkSolverConfig 500 100 SolverFees 0.
Definition sample_native : ManageNativeToken := mkManageNativeToken true true.
Definition sample_sent : WireAuction :=
  sent_auction (auction_dto no_u256 no_biguint sample_div sample_auction [sample_pool] 7 SolverFees sample_native ∅ ∅ 0 0).

Definition sample_answer : comp (Z * result string (list WireSolution)) :=
  handle_auction id truncating_u32 no_f64 no_u256 (example_inner 5) None sample_sent.

(** The solver routes the part of the order that is left; the driver reads its solution. *)
Example sample_answer_value :
  (let! answer := sample_answer in
   Ret (answer.1, letr l := answer.2 in Ok (map (fun s => (wsol_trades s, wsol_interactions s)) l)))
  = Ret (200, Ok [([WireFulfillment 77 800 (Some 0)], [WireLiquidity "12" 3 800 7 398 false])]).
Proof. vm_compute. reflexivity. Qed.

Lemma sample_sendable : Forall sendable (da_orders sample_auction).
Proof. repeat constructor; unfold u256; cbn; try lia; vm_compute; congruence. Qed.

Lemma sample_sent_ok : wire_auction_ok truncating_u32 (example_inner 5) sample_sent.
Proof.
  split; [apply Forall_singleton; split; [repeat apply Forall_cons_2; try apply Forall_nil_2; unfold u256; simpl; lia|done]|].
  split; [apply Forall_singleton; split; unfold u256; vm_compute; split; congruence|]. split; [|vm_compute; congruence].
  intros t wt Hwt p Hp. change (wa_tokens sample_sent) with (tokens_dto (da_tokens sample_auction) [sample_pool]) in Hwt.
  destruct (tokens_dto_lookup (da_tokens sample_auction) [sample_pool] t) as [(token & Ht & Hd)|[_ Hd]].
  - cbn [sample_auction da_tokens] in Ht. apply lookup_singleton_Some in Ht as [_ <-]. rewrite Hd in Hwt. injection Hwt as <-. injection Hp as <-. lia.
  - by rewrite (Hd _ Hwt) in Hp.
Qed.

Lemma driver_accepts_solver_witness :
  exists status body, sample_answer = Ret (status, body) /\
    match body with
    | Err _ => status = 400
    | Ok answer => status = 200 /\ exists r counter',
        solutions_into_domain no_u256 no_biguint no_keccak no_ecrecover 0 sample_auction [sample_pool] 7 sample_solver ∅ 0
          (sol_solution <$> answer) = Ret (Ok r, counter') /\
        Forall2 (fun ws solution => exists order, order ∈ da_orders sample_auction /\ taken_on sample_solver order ws solution) answer r
    end.
Proof.
  destruct (driver_accepts_solver no_u256 no_biguint no_f64 sample_div no_keccak no_ecrecover id truncating_u32
    (example_inner 5) None 0 sample_auction [sample_pool] 7 sample_solver sample_native ∅ ∅ 0 0 0) as (status & body & Hrun & H);
    [reflexivity|exact truncating_u32_fits|done|exact no_quoter_ok|unfold u256; simpl; lia|simpl; lia
    |exact sample_sendable|apply NoDup_singleton|repeat constructor; simpl; lia|reflexivity|exact sample_sent_ok|].
  exists status, body. split; [exact Hrun|]. destruct body as [answer|]; [|exact H].
  destruct H as (Hs & r & counter' & Hr & Hall). split; [exact Hs|].
  destruct r as [r|]; [exists r, counter'; split; [exact Hr|exact Hall]|destruct Hall as [Hh _]; discriminate Hh].
Defined.
