(* ===== verification/SettlementEncoder.v ===== *)
(** * SettlementEncoder: building the settlement transaction step by step

    [solver/src/settlement/settlement_encoder.rs] and [mod.rs], the encoded form of
    [shared/src/encoded_settlement.rs], the unwraps of [solver/src/interactions/weth.rs] and
    the allowances of [solver/src/interactions/allowances.rs].

    A boxed interaction has one method, [encode]; it is represented by what it encodes to.
    The call data of contract calls is a parameter.  An operation that fails leaves the
    encoder as it was, as the code changes it after the last check. *)

From stdpp Require Import base gmap sets list strings.
From Stdlib Require Import ZArith Lia Sorted.
From S2P Require Import Prelude Collections Eth Solution Score DriverOrder OrderModel OrderCreation RemainingAmounts.

Open Scope Z_scope.
Open Scope rust_scope.

(** ** Binary search *)

(** [slice::binary_search]: halve the range until one element is left. *)
Fixpoint binary_search_from (fuel : nat) (l : list Z) (x : Z) (base size : nat) : nat :=
  match fuel with
  | O => base
  | S fuel =>
      if (size <=? 1)%nat then base else
      let half := (size / 2)%nat in
      let mid := (base + half)%nat in
      binary_search_from fuel l x (if x <? nth mid l 0 then base else mid) (size - half)
  end.

Definition binary_search (l : list Z) (x : Z) : option nat :=
  match l with
  | [] => None
  | _ => let i := binary_search_from (length l) l x 0 (length l) in
         if nth i l 0 =? x then Some i else None
  end.

(** ** Trades *)
Record SettlementTrade := mkSettlementTrade { str_order : ModelOrder; str_executed_amount : Z; str_fee : Z }.

Record TradeExecution := mkTradeExecution {
  te_sell_token : address;
  te_buy_token : address;
  te_sell_amount : Z;
  te_buy_amount : Z;
  te_fee_amount : Z;
}.

Definition scale_amount (t : SettlementTrade) (amount : Z) : option Z :=
  let d := mo_data (str_order t) in
  match od_kind d with
  | Buy => let? m := checked_mul amount (str_executed_amount t) in checked_div m (od_buy_amount d)
  | Sell => let? m := checked_mul amount (str_executed_amount t) in checked_div m (od_sell_amount d)
  end.

Definition executed_fee (t : SettlementTrade) : option Z := scale_amount t (od_fee_amount (mo_data (str_order t))).

Definition executed_amounts (t : SettlementTrade) (sell_price buy_price : Z) : option TradeExecution :=
  let order := mo_data (str_order t) in
  let? amounts :=
    match od_kind order with
    | Sell => let? m := checked_mul (str_executed_amount t) sell_price in
              let? buy_amount := checked_ceil_div m buy_price in
              Some (str_executed_amount t, buy_amount)
    | Buy => let? m := checked_mul (str_executed_amount t) buy_price in
             let? sell_amount := checked_div m sell_price in
             Some (sell_amount, str_executed_amount t)
    end in
  let? fee := executed_fee t in
  Some (mkTradeExecution (od_sell_token order) (od_buy_token order) amounts.1 amounts.2 fee).

(** ** What the contract expects *)
Record EncodedTrade := mkEncodedTrade {
  et_sell_token_index : Z;
  et_buy_token_index : Z;
  et_receiver : address;
  et_sell_amount : Z;
  et_buy_amount : Z;
  et_valid_to : Z;
  et_app_data : Z;
  et_fee_amount : Z;
  et_flags : Z;
  et_executed_amount : Z;
  et_signature : list Z;
}.

Definition order_flags (order : OrderData) (signature : OrderSignature) : Z :=
  let result := match od_kind order with Sell => 0 | Buy => 1 end in
  let result := Z.lor result (Z.shiftl (Z.b2z (od_partially_fillable order)) 1) in
  let result := Z.lor result (Z.shiftl match od_sell_token_balance order with
                                       | SellErc20 => 0 | SellExternal => 2 | SellInternal => 3
                                       end 2) in
  let result := Z.lor result (Z.shiftl match od_buy_token_balance order with
                                       | BuyErc20 => 0 | BuyInternal => 1
                                       end 4) in
  Z.lor result (Z.shiftl match OrderSignature_scheme signature with
                         | DriverOrder.Eip712 => 0 | DriverOrder.EthSign => 1
                         | DriverOrder.Eip1271 => 2 | DriverOrder.PreSign => 3
                         end 5).

Definition encode_trade (order : OrderData) (signature : OrderSignature) (owner : address)
  (sell_token_index buy_token_index : nat) (executed_amount : Z) : EncodedTrade :=
  mkEncodedTrade (Z.of_nat sell_token_index) (Z.of_nat buy_token_index) (default 0 (od_receiver order))
    (od_sell_amount order) (od_buy_amount order) (od_valid_to order) (od_app_data order) (od_fee_amount order)
    (order_flags order signature) executed_amount (encode_for_settlement signature owner).

Definition Trade_encode (t : SettlementTrade) (sell_token_index buy_token_index : nat) : EncodedTrade :=
  encode_trade (mo_data (str_order t)) (mo_signature (str_order t)) (md_owner (mo_metadata (str_order t)))
    sell_token_index buy_token_index (str_executed_amount t).

Record EncodedSettlement := mkEncodedSettlement {
  es_tokens : list address;
  es_clearing_prices : list Z;
  es_trades : list EncodedTrade;
  es_interactions : list EthInteraction * list EthInteraction * list EthInteraction;
}.

(** ** The encoder *)
Inductive TokenReference :=
| Indexed (sell_token_index buy_token_index : nat)
| CustomPrice (sell_token_price buy_token_price : Z).

Record EncoderTrade := mkEncoderTrade { ent_data : SettlementTrade; ent_tokens : TokenReference }.
Record PricedTrade := mkPricedTrade { pt_data : SettlementTrade; pt_sell_token_price : Z; pt_buy_token_price : Z }.

Record UnwrapWeth := mkUnwrapWeth { uw_weth : address; uw_amount : Z }.

Record SettlementEncoder := mkSettlementEncoder {
  se_tokens : list address;
  se_clearing_prices : gmap address Z;
  se_trades : list EncoderTrade;
  se_execution_plan : list (EthInteraction * bool);
  se_pre_interactions : list EthInteraction;
  se_post_interactions : list EthInteraction;
  se_unwraps : list UnwrapWeth;
}.

(** Sorting makes the order in which the map is iterated irrelevant. *)
Definition SettlementEncoder_new (clearing_prices : gmap address Z) : SettlementEncoder :=
  mkSettlementEncoder (sort_by Z.compare (map_to_list clearing_prices).*1) clearing_prices [] [] [] [] [].

Definition push_trade (t : EncoderTrade) (e : SettlementEncoder) : SettlementEncoder :=
  mkSettlementEncoder (se_tokens e) (se_clearing_prices e) (se_trades e ++ [t]) (se_execution_plan e)
    (se_pre_interactions e) (se_post_interactions e) (se_unwraps e).
Definition extend_interactions (i : Interactions) (e : SettlementEncoder) : SettlementEncoder :=
  mkSettlementEncoder (se_tokens e) (se_clearing_prices e) (se_trades e) (se_execution_plan e)
    (se_pre_interactions e ++ in_pre i) (se_post_interactions e ++ in_post i) (se_unwraps e).
Definition append_to_execution_plan_internalizable (interaction : EthInteraction) (internalizable : bool)
  (e : SettlementEncoder) : SettlementEncoder :=
  mkSettlementEncoder (se_tokens e) (se_clearing_prices e) (se_trades e)
    (se_execution_plan e ++ [(interaction, internalizable)]) (se_pre_interactions e) (se_post_interactions e) (se_unwraps e).
Definition append_to_execution_plan (interaction : EthInteraction) : SettlementEncoder -> SettlementEncoder :=
  append_to_execution_plan_internalizable interaction false.

Definition token_index (e : SettlementEncoder) (token : address) : option nat := binary_search (se_tokens e) token.

(** Indexing out of bounds or by a missing key panics. *)
Definition compute_trade_token_prices (e : SettlementEncoder) (t : EncoderTrade) : comp PricedTrade :=
  match ent_tokens t with
  | Indexed sell buy =>
      let! sell_token := expect (se_tokens e !! sell) in
      let! sell_price := expect (se_clearing_prices e !! sell_token) in
      let! buy_token := expect (se_tokens e !! buy) in
      let! buy_price := expect (se_clearing_prices e !! buy_token) in
      Ret (mkPricedTrade (ent_data t) sell_price buy_price)
  | CustomPrice sell buy => Ret (mkPricedTrade (ent_data t) sell buy)
  end.

Definition all_trades (e : SettlementEncoder) : comp (list PricedTrade) := comp_map (compute_trade_token_prices e) (se_trades e).

Definition verify_executed_amount (order : ModelOrder) (executed : Z) : result string unit :=
  let d := mo_data order in
  letr r := from_order (RemainingOrder_from order) in
  letr amount := remaining r (match od_kind d with Sell => od_sell_amount d | Buy => od_buy_amount d end) in
  if if od_partially_fillable d then executed <=? amount else executed =? amount
  then Ok tt else Err "invalid executed amount"%string.

Definition add_market_trade (order : ModelOrder) (executed_amount fee : Z) (e : SettlementEncoder)
  : comp (result string (SettlementEncoder * TradeExecution)) :=
  let d := mo_data order in
  let!r _ := Ret (verify_executed_amount order executed_amount) in
  let!r sell_price := Ret (ok_or (se_clearing_prices e !! od_sell_token d) "settlement missing sell token"%string) in
  let! sell_token_index := expect (token_index e (od_sell_token d)) in
  let!r buy_price := Ret (ok_or (se_clearing_prices e !! od_buy_token d) "settlement missing buy token"%string) in
  let! buy_token_index := expect (token_index e (od_buy_token d)) in
  let data := mkSettlementTrade order executed_amount fee in
  let!r execution := Ret (ok_or (executed_amounts data sell_price buy_price) "impossible trade execution"%string) in
  Ret (Ok (push_trade (mkEncoderTrade data (Indexed sell_token_index buy_token_index)) e, execution)).

Definition add_custom_price_trade (order : ModelOrder) (executed_amount fee sell_price buy_price : Z) (e : SettlementEncoder)
  : result string (SettlementEncoder * TradeExecution) :=
  letr _ := verify_executed_amount order executed_amount in
  let data := mkSettlementTrade order executed_amount fee in
  letr execution := ok_or (executed_amounts data sell_price buy_price) "impossible trade execution"%string in
  Ok (push_trade (mkEncoderTrade data (CustomPrice sell_price buy_price)) e, execution).

Definition custom_price_for_limit_order (e : SettlementEncoder) (order : ModelOrder) (executed_amount fee : Z)
  : result string (Z * Z) :=
  let d := mo_data order in
  if negb (OrderClass_is_limit (md_class (mo_metadata order)))
  then Err "this function should only be called for limit orders"%string else
  let target_amount := match od_kind d with Buy => od_buy_amount d | Sell => od_sell_amount d end in
  if negb (if od_partially_fillable d then executed_amount <=? target_amount else executed_amount =? target_amount)
  then Err "this function should only be called with valid executed amounts"%string else
  letr uniform_buy_price := ok_or (se_clearing_prices e !! od_buy_token d) "buy token price is missing"%string in
  letr uniform_sell_price := ok_or (se_clearing_prices e !! od_sell_token d) "sell token price is missing"%string in
  match od_kind d with
  | Buy =>
      letr sell_amount_adjusted_for_fees :=
        ok_or (let? m := checked_mul executed_amount uniform_buy_price in
               let? sell_amount := checked_div m uniform_sell_price in
               checked_add sell_amount fee) "sell_amount computation failed"%string in
      Ok (executed_amount, sell_amount_adjusted_for_fees)
  | Sell =>
      letr buy_amount :=
        ok_or (let? sell_amount := checked_sub executed_amount fee in
               let? m := checked_mul sell_amount uniform_sell_price in
               checked_ceil_div m uniform_buy_price) "buy_amount computation failed"%string in
      Ok (buy_amount, executed_amount)
  end.

Definition add_by_class (order : ModelOrder) (executed_amount fee : Z) (e : SettlementEncoder)
  : comp (result string (SettlementEncoder * TradeExecution)) :=
  let d := mo_data order in
  match md_class (mo_metadata order) with
  | ClassMarket => add_market_trade order executed_amount fee e
  | ClassLiquidity => Ret (add_custom_price_trade order executed_amount fee (od_buy_amount d) (od_sell_amount d) e)
  | ClassLimit =>
      Ret (letr executed_amount :=
             match od_kind d with
             | Sell => ok_or (checked_add executed_amount fee) "overflow computing limit order trade execution"%string
             | Buy => Ok executed_amount
             end in
           letr prices := custom_price_for_limit_order e order executed_amount fee in
           add_custom_price_trade order executed_amount fee prices.1 prices.2 e)
  end.

Definition add_trade (order : ModelOrder) (executed_amount fee : Z) (e : SettlementEncoder)
  : comp (result string (SettlementEncoder * TradeExecution)) :=
  let!r added := add_by_class order executed_amount fee e in
  Ret (Ok (extend_interactions (mo_interactions order) added.1, added.2)).

(** ** Finishing *)
Definition update_indices (e : SettlementEncoder) (t : EncoderTrade) : comp EncoderTrade :=
  match ent_tokens t with
  | Indexed _ _ =>
      let! sell := expect (token_index e (od_sell_token (mo_data (str_order (ent_data t))))) in
      let! buy := expect (token_index e (od_buy_token (mo_data (str_order (ent_data t))))) in
      Ret (mkEncoderTrade (ent_data t) (Indexed sell buy))
  | CustomPrice _ _ => Ret t
  end.

Definition sort_tokens_and_update_indices (e : SettlementEncoder) : comp SettlementEncoder :=
  let e := mkSettlementEncoder (sort_by Z.compare (se_tokens e)) (se_clearing_prices e) (se_trades e) (se_execution_plan e)
             (se_pre_interactions e) (se_post_interactions e) (se_unwraps e) in
  let! trades := comp_map (update_indices e) (se_trades e) in
  Ret (mkSettlementEncoder (se_tokens e) (se_clearing_prices e) trades (se_execution_plan e)
         (se_pre_interactions e) (se_post_interactions e) (se_unwraps e)).

Definition traded_tokens (trades : list EncoderTrade) : gset address :=
  list_to_set (trades ≫= fun t =>
    let order := str_order (ent_data t) in
    if is_user_order order then [od_sell_token (mo_data order); od_buy_token (mo_data order)]
    else [od_sell_token (mo_data order)]).

Definition drop_unnecessary_tokens_and_prices (e : SettlementEncoder) : comp SettlementEncoder :=
  let traded := traded_tokens (se_trades e) in
  sort_tokens_and_update_indices
    (mkSettlementEncoder (filter (fun t => t ∈ traded) (se_tokens e)) (filter (fun p => p.1 ∈ traded) (se_clearing_prices e))
       (se_trades e) (se_execution_plan e) (se_pre_interactions e) (se_post_interactions e) (se_unwraps e)).

Inductive InternalizationStrategy := EncodeAllInteractions | SkipInternalizableInteraction.

Definition kept_interaction (strategy : InternalizationStrategy) (i : EthInteraction * bool) : bool :=
  negb (i.2 && match strategy with SkipInternalizableInteraction => true | EncodeAllInteractions => false end).

Definition custom_prices (t : EncoderTrade) : list (address * Z) :=
  let d := mo_data (str_order (ent_data t)) in
  match ent_tokens t with
  | CustomPrice sell buy => [(od_sell_token d, sell); (od_buy_token d, buy)]
  | Indexed _ _ => []
  end.

(** Trades at custom prices use the entries behind the uniform clearing prices. *)
Definition encode_step (acc : nat * list EncodedTrade) (t : EncoderTrade) : nat * list EncodedTrade :=
  match ent_tokens t with
  | Indexed sell buy => (acc.1, acc.2 ++ [Trade_encode (ent_data t) sell buy])
  | CustomPrice _ _ => (acc.1 + 2, acc.2 ++ [Trade_encode (ent_data t) acc.1 (acc.1 + 1)])%nat
  end.

Section finish.
Context (withdraw_calldata : Z -> list Z).

Definition UnwrapWeth_encode (u : UnwrapWeth) : EthInteraction := mkEthInteraction (uw_weth u) 0 (withdraw_calldata (uw_amount u)).

Definition finish (strategy : InternalizationStrategy) (e : SettlementEncoder) : comp EncodedSettlement :=
  let! e := drop_unnecessary_tokens_and_prices e in
  let! clearing_prices := comp_map (fun token => expect (se_clearing_prices e !! token)) (se_tokens e) in
  let custom := se_trades e ≫= custom_prices in
  let trades := foldl encode_step (length (se_tokens e), []) (se_trades e) in
  Ret (mkEncodedSettlement (se_tokens e ++ custom.*1) (clearing_prices ++ custom.*2) trades.2
         (se_pre_interactions e,
          (filter (fun i => kept_interaction strategy i = true) (se_execution_plan e)).*1 ++ (UnwrapWeth_encode <$> se_unwraps e),
          se_post_interactions e)).
End finish.

(** ** Binary search finds what is there *)
Lemma nth_Some (l : list Z) i x : l !! i = Some x -> nth i l 0 = x.
Proof. intros H. by rewrite nth_lookup, H. Qed.

(** The element, if any, stays in the range that is searched. *)
Lemma binary_search_from_range fuel l x base size :
  StronglySorted Z.lt l -> (1 <= size)%nat -> (base + size <= length l)%nat -> (size <= fuel)%nat ->
  (forall i, l !! i = Some x -> (base <= i < base + size)%nat) ->
  (binary_search_from fuel l x base size < length l)%nat /\
  forall i, l !! i = Some x -> i = binary_search_from fuel l x base size.
Proof.
  intros Hs. revert base size. induction fuel as [|fuel IH]; intros base size H1 Hlen Hfuel Hin; [lia|].
  cbn [binary_search_from]. destruct (Nat.leb_spec size 1).
  { split; [lia|]. intros i Hi%Hin. lia. }
  assert (1 <= size / 2 < size)%nat as Hhalf.
  { split; [apply Nat.div_le_lower_bound; lia|apply Nat.div_lt; lia]. }
  pose proof (Nat.Div0.mul_div_le size 2) as Htwo. set (mid := (base + size / 2)%nat).
  assert (is_Some (l !! mid)) as [y Hy] by (apply lookup_lt_is_Some; subst mid; lia).
  rewrite (nth_Some _ _ _ Hy). destruct (Z.ltb_spec x y) as [Hlt|Hge].
  - apply IH; [lia..|]. intros i Hi. pose proof (Hin i Hi).
    assert (i < mid)%nat; [|subst mid; lia].
    destruct (Nat.lt_total i mid) as [?|[->|Hmi]]; [done| |].
    + rewrite Hy in Hi. injection Hi as ->. lia.
    + pose proof (StronglySorted_lookup_lt Z.lt l mid i y x Hs Hy Hi Hmi). lia.
  - apply IH; [lia|subst mid; lia|lia|]. intros i Hi. pose proof (Hin i Hi).
    assert (mid <= i)%nat; [|subst mid; lia].
    destruct (Nat.le_gt_cases mid i) as [?|Him]; [done|].
    pose proof (StronglySorted_lookup_lt Z.lt l i mid x y Hs Hi Hy Him). lia.
Qed.

Lemma binary_search_Some l x i : StronglySorted Z.lt l -> binary_search l x = Some i <-> l !! i = Some x.
Proof.
  intros Hs. destruct l as [|y l]; [done|]. unfold binary_search. set (k := y :: l) in *.
  destruct (binary_search_from_range (length k) k x 0 (length k) Hs) as [Hlt Hu];
    [subst k; cbn; lia|lia|lia|intros j Hj%lookup_lt_Some; lia|].
  set (j := binary_search_from _ _ _ _ _) in *.
  destruct (lookup_lt_is_Some_2 _ _ Hlt) as [z Hz]. rewrite (nth_Some _ _ _ Hz).
  split.
  - destruct (Z.eqb_spec z x) as [->|]; [by intros [= <-]|done].
  - intros Hi. pose proof (Hu i Hi) as ->. rewrite Hi in Hz. injection Hz as ->. by rewrite Z.eqb_refl.
Qed.

Lemma binary_search_elem l x : StronglySorted Z.lt l -> x ∈ l -> is_Some (binary_search l x).
Proof. intros Hs [i Hi]%list_elem_of_lookup. exists i. by apply binary_search_Some. Qed.

Lemma sort_by_compare_lt (l : list Z) : NoDup l -> StronglySorted Z.lt (sort_by Z.compare l).
Proof.
  intros Hnd. assert (NoDup (sort_by Z.compare l)) as H by (by rewrite sort_by_perm).
  pose proof (sort_by_sorted Z.compare l) as Hs. induction Hs as [|x k Hs IH Hx]; [constructor|].
  apply NoDup_cons in H as [Hn H]. constructor; [by apply IH|]. apply Forall_forall. intros y Hy.
  rewrite Forall_forall in Hx. specialize (Hx y Hy). assert (x <> y) by (by intros ->).
  cbn in Hx. destruct (Z.compare_spec x y); done.
Qed.

(** ** The invariant of the encoder *)

(** The prices a trade was added at. *)
Definition trade_prices (prices : gmap address Z) (t : EncoderTrade) : option (Z * Z) :=
  let d := mo_data (str_order (ent_data t)) in
  match ent_tokens t with
  | CustomPrice sell buy => Some (sell, buy)
  | Indexed _ _ => let? sell := prices !! od_sell_token d in let? buy := prices !! od_buy_token d in Some (sell, buy)
  end.

(** The execution reported for a trade is the one at its prices, and only trades of user
    orders refer to the uniform clearing prices. *)
Definition trade_ok (prices : gmap address Z) (t : EncoderTrade) (x : ModelOrder * TradeExecution) : Prop :=
  str_order (ent_data t) = x.1 /\
  (exists sell buy, trade_prices prices t = Some (sell, buy) /\ executed_amounts (ent_data t) sell buy = Some x.2) /\
  match ent_tokens t with Indexed _ _ => is_user_order (str_order (ent_data t)) = true | CustomPrice _ _ => True end.

Record encoder_ok (e : SettlementEncoder) (executions : list (ModelOrder * TradeExecution)) : Prop := {
  eo_sorted : StronglySorted Z.lt (se_tokens e);
  eo_tokens : forall t, t ∈ se_tokens e <-> is_Some (se_clearing_prices e !! t);
  eo_trades : Forall2 (trade_ok (se_clearing_prices e)) (se_trades e) executions;
}.

Lemma SettlementEncoder_new_ok prices : encoder_ok (SettlementEncoder_new prices) [].
Proof.
  split; cbn [SettlementEncoder_new se_tokens se_clearing_prices se_trades]; [|intros t|constructor].
  - apply sort_by_compare_lt, NoDup_fst_map_to_list.
  - rewrite sort_by_elem, list_elem_of_fmap. split.
    + intros ([k v] & -> & Hv%elem_of_map_to_list). by exists v.
    + intros [v Hv]. exists (t, v). split; [done|]. by apply elem_of_map_to_list.
Qed.

Lemma token_index_priced e executions t : encoder_ok e executions -> is_Some (se_clearing_prices e !! t) -> is_Some (token_index e t).
Proof. intros [Hs Ht _] H. apply binary_search_elem; [done|by apply Ht]. Qed.

Lemma push_trade_ok e executions t execution :
  encoder_ok e executions -> trade_ok (se_clearing_prices e) t execution -> encoder_ok (push_trade t e) (executions ++ [execution]).
Proof.
  intros [Hs Ht Htr] H. split; [done|done|]. cbn [push_trade se_trades se_clearing_prices].
  apply Forall2_app; [done|]. by constructor; [|constructor].
Qed.

Lemma extend_interactions_ok e executions i : encoder_ok e executions -> encoder_ok (extend_interactions i e) executions.
Proof. by intros [? ? ?]; split. Qed.

Lemma append_ok e executions i fl : encoder_ok e executions -> encoder_ok (append_to_execution_plan_internalizable i fl e) executions.
Proof. by intros [? ? ?]; split. Qed.

Lemma add_custom_price_trade_ok e executions order executed fee sell buy e' execution :
  encoder_ok e executions -> add_custom_price_trade order executed fee sell buy e = Ok (e', execution) ->
  encoder_ok e' (executions ++ [(order, execution)]).
Proof.
  intros He H. unfold add_custom_price_trade in H. apply result_bind_Ok in H as ([] & _ & H).
  apply result_bind_Ok in H as (ex & Hex%ok_or_Ok & H). injection H as <- <-.
  apply push_trade_ok; [done|]. split; [done|]. split; [|done]. by exists sell, buy.
Qed.

Lemma add_market_trade_returns e executions order executed fee :
  encoder_ok e executions -> is_user_order order = true ->
  returns (add_market_trade order executed fee e) (fun r => forall e' execution, r = Ok (e', execution) ->
    encoder_ok e' (executions ++ [(order, execution)])).
Proof.
  intros He Huser. unfold add_market_trade. destruct (verify_executed_amount order executed); cbn [comp_rbind returns]; [|done].
  destruct (se_clearing_prices e !! od_sell_token (mo_data order)) as [ps|] eqn:Hps; cbn [ok_or comp_rbind returns]; [|done].
  destruct (token_index_priced e executions (od_sell_token (mo_data order)) He (mk_is_Some _ _ Hps)) as [i ->]. cbn [expect comp_bind].
  destruct (se_clearing_prices e !! od_buy_token (mo_data order)) as [pb|] eqn:Hpb; cbn [ok_or comp_rbind returns]; [|done].
  destruct (token_index_priced e executions (od_buy_token (mo_data order)) He (mk_is_Some _ _ Hpb)) as [j ->]. cbn [expect comp_bind].
  destruct (executed_amounts _ ps pb) as [ex|] eqn:Hex; cbn [ok_or comp_rbind returns]; [|done].
  intros e' execution [= <- <-]. apply push_trade_ok; [done|]. split; [done|]. split; [|done].
  exists ps, pb. split; [|done]. unfold trade_prices. cbn. by rewrite Hps, Hpb.
Qed.

(** Adding a trade never panics; it keeps the invariant and reports an execution at the
    prices of the trade, or fails and changes nothing. *)
Lemma add_trade_returns e executions order executed fee :
  encoder_ok e executions ->
  returns (add_trade order executed fee e) (fun r => forall e' execution, r = Ok (e', execution) ->
    encoder_ok e' (executions ++ [(order, execution)])).
Proof.
  intros He. unfold add_trade.
  assert (returns (add_by_class order executed fee e) (fun r => forall e' execution, r = Ok (e', execution) ->
    encoder_ok e' (executions ++ [(order, execution)]))) as H.
  { unfold add_by_class. destruct (md_class (mo_metadata order)) eqn:Hclass; cbn [returns].
    - apply add_market_trade_returns; [done|]. unfold is_user_order. by rewrite Hclass.
    - intros e' execution Hadd. by eapply add_custom_price_trade_ok.
    - intros e' execution Hadd. apply result_bind_Ok in Hadd as (ex & _ & Hadd).
      apply result_bind_Ok in Hadd as (prices & _ & Hadd). by eapply add_custom_price_trade_ok. }
  destruct (add_by_class _ _ _ _) as [[[e1 ex1]|err]|]; cbn [comp_rbind returns] in *; [|done|done].
  intros e' execution [= <- <-]. apply extend_interactions_ok. by apply H.
Qed.

(** ** Finishing keeps every trade's prices *)

(** An encoded trade refers to the tokens of its order, at the given prices. *)
Definition encoded_at (entries : list (address * Z)) (t : SettlementTrade) (sell_price buy_price : Z) (et : EncodedTrade) : Prop :=
  exists sell buy, et = Trade_encode t sell buy /\
    entries !! sell = Some (od_sell_token (mo_data (str_order t)), sell_price) /\
    entries !! buy = Some (od_buy_token (mo_data (str_order t)), buy_price).

(** Indices below the uniform prices and at the end of the list of custom prices. *)
Lemma encode_steps prices uniform trades before acc :
  Forall (fun t => match ent_tokens t with
                   | Indexed sell buy => exists ps pb, trade_prices prices t = Some (ps, pb) /\
                       uniform !! sell = Some (od_sell_token (mo_data (str_order (ent_data t))), ps) /\
                       uniform !! buy = Some (od_buy_token (mo_data (str_order (ent_data t))), pb)
                   | CustomPrice _ _ => True
                   end) trades ->
  exists ets, (foldl encode_step (length uniform + length before, acc) trades)%nat.2 = acc ++ ets /\
    Forall2 (fun t et => exists ps pb, trade_prices prices t = Some (ps, pb) /\
               encoded_at (uniform ++ before ++ (trades ≫= custom_prices)) (ent_data t) ps pb et) trades ets.
Proof.
  revert before acc. induction trades as [|t trades IH]; intros before acc Hall; cbn [foldl].
  { exists []. by rewrite app_nil_r. }
  apply Forall_cons in Hall as [Ht Hall]. unfold encode_step at 2. cbn [fst snd].
  rewrite bind_cons. unfold custom_prices at 1. destruct (ent_tokens t) as [sell buy|ps pb] eqn:E.
  - destruct Ht as (ps & pb & Hp & Hs & Hb).
    destruct (IH before (acc ++ [Trade_encode (ent_data t) sell buy]) Hall) as (ets & Hf & HF).
    exists (Trade_encode (ent_data t) sell buy :: ets). rewrite Hf. split; [by rewrite <- app_assoc|].
    constructor; [|done]. exists ps, pb. split; [done|]. exists sell, buy. split; [done|].
    split; by apply lookup_app_l_Some.
  - set (new := [(od_sell_token (mo_data (str_order (ent_data t))), ps); (od_buy_token (mo_data (str_order (ent_data t))), pb)]).
    set (n := (length uniform + length before)%nat).
    destruct (IH (before ++ new) (acc ++ [Trade_encode (ent_data t) n (n + 1)]) Hall) as (ets & Hf & HF).
    replace (length uniform + length (before ++ new))%nat with (n + 2)%nat in Hf by (rewrite length_app; subst n; cbn; lia).
    exists (Trade_encode (ent_data t) n (n + 1) :: ets). rewrite Hf. split; [by rewrite <- app_assoc|].
    rewrite <- app_assoc in HF. constructor; [|done].
    exists ps, pb. split; [unfold trade_prices; by rewrite E|]. exists n, (n + 1)%nat. split; [done|].
    rewrite app_assoc. assert (length (uniform ++ before) = n) as Hn by (by rewrite length_app).
    split; (rewrite lookup_app_r; [|rewrite Hn; lia]); rewrite Hn.
    + by rewrite Nat.sub_diag.
    + by replace (n + 1 - n)%nat with 1%nat by lia.
Qed.

(** The encoder once the tokens that are not traded are dropped. *)
Lemma drop_unnecessary_returns e executions :
  encoder_ok e executions ->
  exists e', drop_unnecessary_tokens_and_prices e = Ret e' /\
    se_tokens e' = filter (fun t => t ∈ traded_tokens (se_trades e)) (se_tokens e) /\
    se_clearing_prices e' = filter (fun p => p.1 ∈ traded_tokens (se_trades e)) (se_clearing_prices e) /\
    se_execution_plan e' = se_execution_plan e /\ se_pre_interactions e' = se_pre_interactions e /\
    se_post_interactions e' = se_post_interactions e /\ se_unwraps e' = se_unwraps e /\
    Forall2 (fun t t' => update_indices e' t = Ret t') (se_trades e) (se_trades e').
Proof.
  intros [Hs Ht Htr]. unfold drop_unnecessary_tokens_and_prices, sort_tokens_and_update_indices.
  cbn [se_tokens se_clearing_prices se_trades se_execution_plan se_pre_interactions se_post_interactions se_unwraps].
  set (traded := traded_tokens (se_trades e)).
  assert (StronglySorted Z.lt (filter (fun t => t ∈ traded) (se_tokens e))) as Hsf by (by apply StronglySorted_filter).
  rewrite (sort_by_id Z.compare).
  2:{ eapply StronglySorted_impl; [|exact Hsf]. intros x y H. cbn. unfold Z.lt in H. by rewrite H. }
  set (e1 := mkSettlementEncoder _ _ _ _ _ _ _).
  destruct (comp_map (update_indices e1) (se_trades e)) as [trades|] eqn:E.
  - eexists. split; [done|]. do 6 (split; [done|]). cbn [se_trades]. by apply comp_map_Ret in E.
  - exfalso. assert (returns (comp_map (update_indices e1) (se_trades e)) (fun _ => True)) as H; [|by rewrite E in H].
    eapply returns_mono; [apply (comp_map_returns _ (fun _ _ => True))|done].
    intros t Hin. unfold update_indices.
    destruct (ent_tokens t) as [i j|] eqn:Et; [|done]. apply list_elem_of_lookup in Hin as [n Hn].
    destruct (Forall2_lookup_l _ _ _ _ _ Htr Hn) as (ex & _ & _ & (ps & pb & Hp & _) & Hu). rewrite Et in Hu.
    unfold trade_prices in Hp. rewrite Et in Hp. set (d := mo_data (str_order (ent_data t))) in *.
    destruct (se_clearing_prices e !! od_sell_token d) eqn:Hps; [|done].
    destruct (se_clearing_prices e !! od_buy_token d) eqn:Hpb; [|done].
    assert (forall tok, tok = od_sell_token d \/ tok = od_buy_token d -> is_Some (token_index e1 tok)) as Hidx.
    { intros tok Htok. apply binary_search_elem; [done|]. cbn [se_tokens e1]. apply list_elem_of_filter. split.
      - apply elem_of_list_to_set, list_elem_of_bind. exists t. split; [|by eapply list_elem_of_lookup_2].
        cbv beta zeta. rewrite Hu. destruct Htok as [-> | ->]; set_solver.
      - apply Ht. destruct Htok as [-> | ->]; eauto. }
    destruct (Hidx (od_sell_token d) (or_introl eq_refl)) as [? ->], (Hidx (od_buy_token d) (or_intror eq_refl)) as [? ->]. done.
Qed.

(** A finished settlement: a trade for each added one, at the prices its execution was
    reported for, and the interactions in their order. *)
Record encodes (withdraw_calldata : Z -> list Z) (strategy : InternalizationStrategy) (e : SettlementEncoder)
  (executions : list (ModelOrder * TradeExecution)) (es : EncodedSettlement) : Prop := {
  enc_prices : length (es_tokens es) = length (es_clearing_prices es);
  enc_trades : length (es_trades es) = length executions;
  enc_at : forall i order execution et, executions !! i = Some (order, execution) -> es_trades es !! i = Some et ->
    exists t sell_price buy_price, str_order t = order /\
      encoded_at (zip (es_tokens es) (es_clearing_prices es)) t sell_price buy_price et /\
      executed_amounts t sell_price buy_price = Some execution;
  enc_interactions : es_interactions es =
    (se_pre_interactions e,
     (filter (fun i => kept_interaction strategy i = true) (se_execution_plan e)).*1 ++
       (UnwrapWeth_encode withdraw_calldata <$> se_unwraps e),
     se_post_interactions e);
}.

Lemma update_indices_data e t t' : update_indices e t = Ret t' -> ent_data t' = ent_data t /\
  (forall prices, trade_prices prices t' = trade_prices prices t) /\
  (forall sell buy, ent_tokens t' = Indexed sell buy ->
   token_index e (od_sell_token (mo_data (str_order (ent_data t)))) = Some sell /\
   token_index e (od_buy_token (mo_data (str_order (ent_data t)))) = Some buy).
Proof.
  unfold update_indices, trade_prices. destruct (ent_tokens t) eqn:E; [|intros [= <-]; by rewrite E].
  intros H. apply comp_bind_Ret in H as (i & Hi%expect_Ret & H). apply comp_bind_Ret in H as (j & Hj%expect_Ret & H).
  injection H as <-. cbn. split; [done|]. split; [done|]. by intros ? ? [= <- <-].
Qed.

(** A token found by its index has its price at that position. *)
Lemma finish_lookup (tokens : list address) (clearing_prices dropped : gmap address Z) prices token i price :
  StronglySorted Z.lt tokens -> dropped ⊆ clearing_prices ->
  Forall2 (fun token price => dropped !! token = Some price) tokens prices ->
  binary_search tokens token = Some i -> clearing_prices !! token = Some price ->
  zip tokens prices !! i = Some (token, price).
Proof.
  intros Hs Hsub HF Hi%binary_search_Some Hp; [|done].
  destruct (Forall2_lookup_l _ _ _ _ _ HF Hi) as (price' & Hi' & Hp').
  pose proof (lookup_weaken _ _ _ _ Hp' Hsub) as Hp''. rewrite Hp in Hp''. injection Hp'' as <-.
  by rewrite lookup_zip_with, Hi, Hi'.
Qed.

Lemma indexed_uniform clearing_prices e' prices t t' ps pb :
  StronglySorted Z.lt (se_tokens e') -> se_clearing_prices e' ⊆ clearing_prices ->
  Forall2 (fun token price => se_clearing_prices e' !! token = Some price) (se_tokens e') prices ->
  update_indices e' t = Ret t' -> trade_prices clearing_prices t = Some (ps, pb) ->
  match ent_tokens t' with
  | Indexed sell buy => exists ps pb, trade_prices clearing_prices t' = Some (ps, pb) /\
      zip (se_tokens e') prices !! sell = Some (od_sell_token (mo_data (str_order (ent_data t'))), ps) /\
      zip (se_tokens e') prices !! buy = Some (od_buy_token (mo_data (str_order (ent_data t'))), pb)
  | CustomPrice _ _ => True
  end.
Proof.
  intros Hs Hsub HF Hu Hpr. destruct (update_indices_data _ _ _ Hu) as (Hd & Hpr' & Hidx). rewrite <- Hpr' in Hpr.
  destruct (ent_tokens t') as [sell buy|] eqn:E; [|done]. destruct (Hidx sell buy eq_refl) as [Hi Hj]. rewrite <- Hd in Hi, Hj.
  exists ps, pb. split; [done|]. unfold trade_prices in Hpr. rewrite E in Hpr.
  destruct (clearing_prices !! od_sell_token _) as [ps'|] eqn:Hps; [|done].
  destruct (clearing_prices !! od_buy_token _) as [pb'|] eqn:Hpb; [|done]. injection Hpr as -> ->.
  split; by eapply finish_lookup.
Qed.

Lemma dropped_prices (clearing_prices : gmap address Z) (traded : gset address) tokens :
  (forall t, t ∈ tokens <-> is_Some (clearing_prices !! t)) ->
  returns (comp_map (fun token => expect ((filter (fun p => p.1 ∈ traded) clearing_prices : gmap address Z) !! token))
             (filter (fun t => t ∈ traded) tokens))
    (Forall2 (fun token price => (filter (fun p => p.1 ∈ traded) clearing_prices : gmap address Z) !! token = Some price)
       (filter (fun t => t ∈ traded) tokens)).
Proof.
  intros Ht. apply comp_map_returns. intros token [Htr Hin]%list_elem_of_filter. apply Ht in Hin as [p Hp].
  assert ((filter (fun p => p.1 ∈ traded) clearing_prices : gmap address Z) !! token = Some p) as ->; [|done].
  by apply map_lookup_filter_Some.
Qed.

Lemma finish_encodes withdraw_calldata strategy e executions :
  encoder_ok e executions ->
  exists es, finish withdraw_calldata strategy e = Ret es /\ encodes withdraw_calldata strategy e executions es.
Proof.
  intros He. destruct (drop_unnecessary_returns e executions He) as (e' & Hdrop & Htok & Hprices & Hplan & Hpre & Hpost & Hunw & Hupd).
  destruct He as [Hs Ht Htr]. unfold finish. rewrite Hdrop. cbn [comp_bind].
  pose proof (dropped_prices _ (traded_tokens (se_trades e)) _ Ht) as Hp. rewrite <- Hprices, <- Htok in Hp.
  apply returns_inv in Hp as (prices & -> & Hp). cbn [comp_bind].
  assert (StronglySorted Z.lt (se_tokens e')) as Hs' by (rewrite Htok; by apply StronglySorted_filter).
  assert (se_clearing_prices e' ⊆ se_clearing_prices e) as Hsub by (rewrite Hprices; apply map_filter_subseteq).
  pose proof (Forall2_length _ _ _ Hp) as Hlen. set (uniform := zip (se_tokens e') prices).
  assert (length uniform = length (se_tokens e')) as Hul by (unfold uniform; rewrite length_zip_with; lia).
  destruct (encode_steps (se_clearing_prices e) uniform (se_trades e') [] []) as (ets & Hf & HF).
  { apply Forall_forall. intros t' (i & Hi)%list_elem_of_lookup.
    destruct (Forall2_lookup_r _ _ _ _ _ Hupd Hi) as (t & Hti & Hu).
    destruct (Forall2_lookup_l _ _ _ _ _ Htr Hti) as (ex & _ & _ & (ps & pb & Hpr & _) & _). by eapply indexed_uniform. }
  rewrite Hul, Nat.add_0_r in Hf. cbn [app] in Hf. rewrite Hf. eexists. split; [done|].
  pose proof (Forall2_length _ _ _ HF) as Hl1. pose proof (Forall2_length _ _ _ Hupd) as Hl2. pose proof (Forall2_length _ _ _ Htr) as Hl3.
  split; cbn [es_tokens es_clearing_prices es_trades es_interactions].
  - rewrite !length_app, !length_fmap. lia.
  - lia.
  - intros i order ex et Hex Het. destruct (Forall2_lookup_r _ _ _ _ _ Htr Hex) as (t & Hi & Ho & (ps' & pb' & Hps & Hexe) & _).
    destruct (Forall2_lookup_r _ _ _ _ _ HF Het) as (t' & Hi' & ps & pb & Hpr & Hat).
    pose proof (Forall2_lookup_lr _ _ _ _ _ _ Hupd Hi Hi') as Hu. destruct (update_indices_data _ _ _ Hu) as (Hd & Hpr' & _).
    rewrite Hpr', Hps in Hpr. injection Hpr as -> ->. exists (ent_data t), ps, pb. split; [done|]. split; [|done]. rewrite Hd in Hat.
    rewrite zip_with_app by done. fold uniform. rewrite zip_fst_snd. exact Hat.
  - by rewrite Hplan, Hpre, Hpost, Hunw.
Qed.

(** ** Executions *)
Lemma div_ceil_mul_l a b : 0 < b -> div_ceil (b * a) b = a.
Proof.
  intros Hb. unfold div_ceil. replace (b * a + b - 1) with (b - 1 + a * b) by lia.
  rewrite Z.div_add, Z.div_small by lia. lia.
Qed.

(** A limit order trades at the uniform clearing prices, the fee taken from what it sells: a
    sell order sells its executed amount and the fee, and buys what the executed amount is
    worth; a buy order pays the fee on top of what its executed amount costs. *)
Lemma limit_trade_execution e order executed fee e' execution ps pb :
  md_class (mo_metadata order) = ClassLimit ->
  se_clearing_prices e !! od_sell_token (mo_data order) = Some ps ->
  se_clearing_prices e !! od_buy_token (mo_data order) = Some pb ->
  0 <= executed -> 0 <= fee ->
  add_trade order executed fee e = Ret (Ok (e', execution)) ->
  match od_kind (mo_data order) with
  | Sell => te_sell_amount execution = executed + fee /\ te_buy_amount execution = div_ceil (executed * ps) pb
  | Buy => te_buy_amount execution = executed /\ te_sell_amount execution = executed * pb / ps + fee
  end.
Proof.
  intros Hclass Hps Hpb Hex Hfee H. unfold add_trade, add_by_class in H. rewrite Hclass in H.
  apply comp_rbind_Ok in H as ([e1 ex1] & Hadd & H). injection H as _ ->. injection Hadd as Hadd.
  apply result_bind_Ok in Hadd as (amount & Hamount & Hadd). apply result_bind_Ok in Hadd as ([cs cb] & Hc & Hadd).
  unfold custom_price_for_limit_order in Hc. rewrite Hps, Hpb in Hc. cbn [ok_or result_bind] in Hc.
  do 2 (destruct (negb _) in Hc; [done|]).
  unfold add_custom_price_trade in Hadd. apply result_bind_Ok in Hadd as ([] & _ & Hadd).
  apply result_bind_Ok in Hadd as (ex & Hexec%ok_or_Ok & [= _ ->]).
  unfold executed_amounts in Hexec. cbn [str_order str_executed_amount fst snd] in Hexec.
  destruct (od_kind (mo_data order)); apply result_bind_Ok in Hc as (v & Hv%ok_or_Ok & [= <- <-]).
  - injection Hamount as <-. destruct (checked_mul executed pb) as [m|] eqn:Em; [|done].
    destruct (checked_div m ps) as [sa|] eqn:Es; [|done]. apply checked_mul_Some in Em as [-> _].
    apply checked_div_Some in Es as [-> _]. apply checked_add_Some in Hv as [-> _].
    destruct (checked_mul executed _) as [m|] eqn:Em; [|done]. apply checked_mul_Some in Em as [-> _].
    destruct (checked_div _ executed) as [sa|] eqn:Es; [|done]. apply checked_div_Some in Es as [-> Hne].
    rewrite Z.mul_comm, Z.div_mul in Hexec by done. destruct (executed_fee _); [|done]. by injection Hexec as <-.
  - apply ok_or_Ok, checked_add_Some in Hamount as [-> _]. destruct (checked_sub _ fee) as [sa|] eqn:Es; [|done].
    apply checked_sub_Some in Es as [-> _]. replace (executed + fee - fee) with executed in Hv by lia.
    destruct (checked_mul executed ps) as [m|] eqn:Em; [|done]. apply checked_mul_Some in Em as [-> _].
    unfold checked_ceil_div in Hv. destruct (Z.eqb_spec pb 0); [done|]. injection Hv as <-.
    destruct (checked_mul _ (div_ceil _ _)) as [m|] eqn:Em; [|done]. apply checked_mul_Some in Em as [-> _].
    unfold checked_ceil_div in Hexec. destruct (Z.eqb_spec (executed + fee) 0); [done|]. rewrite div_ceil_mul_l in Hexec by lia.
    destruct (executed_fee _); [|done]. by injection Hexec as <-.
Qed.

(** ** Building a settlement *)
Inductive EncoderOp :=
| OpTrade (order : ModelOrder) (executed_amount fee : Z)
| OpInteraction (interaction : EthInteraction) (internalizable : bool).

(** A trade that cannot be added is reported and leaves the encoder as it was. *)
Fixpoint build (ops : list EncoderOp) (e : SettlementEncoder) (executions : list (ModelOrder * TradeExecution))
  : comp (SettlementEncoder * list (ModelOrder * TradeExecution)) :=
  match ops with
  | [] => Ret (e, executions)
  | OpInteraction i internalizable :: ops => build ops (append_to_execution_plan_internalizable i internalizable e) executions
  | OpTrade order executed_amount fee :: ops =>
      let! r := add_trade order executed_amount fee e in
      match r with
      | Ok (e, execution) => build ops e (executions ++ [(order, execution)])
      | Err _ => build ops e executions
      end
  end.

Lemma build_ok ops e executions :
  encoder_ok e executions -> returns (build ops e executions) (fun r => encoder_ok r.1 r.2).
Proof.
  revert e executions. induction ops as [|[order executed fee|i fl] ops IH]; intros e executions He; cbn [build]; [done| |].
  - pose proof (add_trade_returns e executions order executed fee He) as H.
    destruct (add_trade _ _ _ _) as [[[e' ex]|err]|]; cbn [comp_bind returns] in *; [|by apply IH|done].
    apply IH. by apply H.
  - by apply IH, append_ok.
Qed.

(** C29 (refinement): whatever trades and interactions are added to an encoder for whatever
    clearing prices, nothing panics, and the finished settlement holds one trade for each
    trade that was accepted, in order.  Its indices refer to the tokens of its order, and the
    prices there are the ones for which the execution reported to the caller is the one the
    contract will compute, although tokens that are not traded are dropped and trades at
    their own price are given new entries.  Interactions keep their order, without the
    internalized ones if these are to be skipped. *)
Theorem settlement_encoder_faithful withdraw_calldata strategy prices ops :
  exists e executions es,
    build ops (SettlementEncoder_new prices) [] = Ret (e, executions) /\
    finish withdraw_calldata strategy e = Ret es /\ encodes withdraw_calldata strategy e executions es.
Proof.
  destruct (returns_inv _ _ (build_ok ops _ [] (SettlementEncoder_new_ok prices))) as ([e executions] & Hb & He).
  destruct (finish_encodes withdraw_calldata strategy e executions He) as (es & Hf & Henc). by exists e, executions, es.
Qed.
