(* ===== verification/SolverLiquidity.v ===== *)
(** * SolverLiquidity: liquidity of the solver crate and how it is encoded

    [solver/src/interactions/] (allowances and the swaps), the settlement handlers of
    [solver/src/liquidity/{uniswap_v2,uniswap_v3,balancer_v2,zeroex}.rs], the collector of
    [solver/src/liquidity_collector.rs] and the order records of [shared/src/zeroex_api.rs].

    The call data of contract calls is a parameter, as are the allowances read on chain and
    the answers of the 0x API. *)

From stdpp Require Import base gmap sets list strings.
From Stdlib Require Import ZArith Lia Sorted.
From S2P Require Import Prelude Collections F64 Eth Solution DriverCompetition SettlementEncoder.

Open Scope Z_scope.
Open Scope rust_scope.

(** ** Allowances *)
Record ApprovalRequest := mkApprovalRequest { ar_token : address; ar_spender : address; ar_amount : Z }.
Record Approval := mkApproval { ap_token : address; ap_spender : address }.
Record Allowances := mkAllowances { alw_spender : address; alw_allowances : gmap address Z }.

Definition Allowances_empty (spender : address) : Allowances := mkAllowances spender ∅.

Definition approve_token (a : Allowances) (token amount : Z) : result string (option Approval) :=
  match alw_allowances a !! token with
  | None => Err "missing allowance for token"%string
  | Some allowance => Ok (if allowance <? amount then Some (mkApproval token (alw_spender a)) else None)
  end.

Definition approve_token_or_default (a : Allowances) (token amount : Z) : option Approval :=
  match approve_token a token amount with Ok r => r | Err _ => Some (mkApproval token (alw_spender a)) end.

Definition Allowances_extend (a other : Allowances) : result string Allowances :=
  if alw_spender a =? alw_spender other
  then Ok (mkAllowances (alw_spender a) (alw_allowances other ∪ alw_allowances a))
  else Err "failed to extend allowance cache for different spender"%string.

Section on_chain.
(** The allowance of a token for a spender, or an error of the node. *)
Context (allowance : address -> address -> option Z).

Definition fetch_allowances (requests : list (address * address)) : gmap address Allowances :=
  foldl (fun m '(spender, token) =>
           match allowance spender token with
           | None => m
           | Some amount =>
               let a := default (Allowances_empty spender) (m !! spender) in
               <[spender := mkAllowances (alw_spender a) (<[token := amount]> (alw_allowances a))]> m
           end) ∅ requests.

Definition get_allowances (tokens : gset address) (spender : address) : Allowances :=
  default (Allowances_empty spender) (fetch_allowances ((fun t => (spender, t)) <$> elements tokens) !! spender).

(** Each pair of spender and token is asked for once. *)
Definition get_approvals (requests : list ApprovalRequest) : result string (list Approval) :=
  let allowances := fetch_allowances (elements (list_to_set ((fun r => (ar_spender r, ar_token r)) <$> requests) : gset (address * address))) in
  foldl (fun acc r =>
           letr result := acc in
           letr a := ok_or (allowances !! ar_spender r) "no allowances found for spender"%string in
           letr approval := approve_token a (ar_token r) (ar_amount r) in
           Ok (result ++ option_list approval)) (Ok []) requests.

(** A list with one request has at most one approval. *)
Definition get_approval (request : ApprovalRequest) : result string (option Approval) :=
  letr approvals := get_approvals [request] in Ok (last approvals).
End on_chain.

(** ** Swaps *)
Record AmmOrderExecution := mkAmmOrderExecution { ex_input_max : Asset; ex_output : Asset; ex_internalizable : bool }.

Record UniswapInteraction := mkUniswapInteraction {
  ui_router : address;
  ui_settlement : address;
  ui_amount_out : Z;
  ui_amount_in_max : Z;
  ui_token_in : address;
  ui_token_out : address;
}.

Record UniswapV3Interaction := mkUniswapV3Interaction {
  u3_router : address;
  u3_token_in : address;
  u3_token_out : address;
  u3_fee : Z;
  u3_recipient : address;
  u3_amount_out : Z;
  u3_amount_in_maximum : Z;
  u3_sqrt_price_limit : Z;
}.

Record BalancerSwapGivenOut := mkBalancerSwapGivenOut {
  bsg_settlement : address;
  bsg_vault : address;
  bsg_pool_id : Z;
  bsg_asset_in_max : Asset;
  bsg_asset_out : Asset;
  bsg_user_data : list Z;
}.

(** ** 0x orders *)
Record ZeroExSignature := mkZeroExSignature { zs_r : Z; zs_s : Z; zs_v : Z; zs_signature_type : Z }.

Record ZeroExOrder := mkZeroExOrder {
  zo_chain_id : Z;
  zo_expiry : Z;
  zo_fee_recipient : address;
  zo_maker : address;
  zo_maker_amount : Z;
  zo_maker_token : address;
  zo_pool : Z;
  zo_salt : Z;
  zo_sender : address;
  zo_signature : ZeroExSignature;
  zo_taker : address;
  zo_taker_amount : Z;
  zo_taker_token : address;
  zo_taker_token_fee_amount : Z;
  zo_verifying_contract : address;
}.

Record OrderRecord := mkOrderRecord {
  rec_order : ZeroExOrder;
  rec_created_at : Z;
  rec_order_hash : list Z;
  rec_remaining_fillable_taker_amount : Z;
}.

(** Division by zero panics. *)
Definition remaining_maker_amount (r : OrderRecord) : comp (result string Z) :=
  if zo_taker_amount (rec_order r) <? rec_remaining_fillable_taker_amount r
  then Ret (Err "remaining taker amount bigger than total taker amount"%string) else
  let! scaled := div_u256 (zo_maker_amount (rec_order r) * rec_remaining_fillable_taker_amount r) (zo_taker_amount (rec_order r)) in
  Ret (if fits 128 scaled then Ok scaled else Err "out of range"%string).

Record ZeroExLiquidityOrder := mkZeroExLiquidityOrder {
  zl_id : list Z;
  zl_sell_token : address;
  zl_buy_token : address;
  zl_sell_amount : Z;
  zl_buy_amount : Z;
  zl_record : OrderRecord;
}.

Definition record_into_liquidity (r : OrderRecord) : comp (option ZeroExLiquidityOrder) :=
  let! amount := remaining_maker_amount r in
  Ret match amount with
      | Err _ => None
      | Ok sell_amount =>
          if (sell_amount =? 0) || (rec_remaining_fillable_taker_amount r =? 0) then None
          else Some (mkZeroExLiquidityOrder (rec_order_hash r) (zo_maker_token (rec_order r)) (zo_taker_token (rec_order r))
                       sell_amount (rec_remaining_fillable_taker_amount r) r)
      end.

(** [into_group_map]: the orders of a pair in their order. *)
Definition order_pair (r : OrderRecord) : address * address := (zo_taker_token (rec_order r), zo_maker_token (rec_order r)).
Definition group_by_token_pair (orders : list OrderRecord) : gmap (address * address) (list OrderRecord) :=
  foldl (fun m r =>
           match TokenPair_new (zo_taker_token (rec_order r)) (zo_maker_token (rec_order r)) with
           | None => m
           | Some _ => <[order_pair r := default [] (m !! order_pair r) ++ [r]]> m
           end) ∅ orders.

Definition record_price (r : OrderRecord) : f64 :=
  f64_div (f64_lit (zo_maker_amount (rec_order r))) (f64_lit (zo_taker_amount (rec_order r))).

Definition useful_of_bucket (orders_per_type : nat) (orders : list OrderRecord) : list OrderRecord :=
  if (length orders <=? 2 * orders_per_type)%nat then orders else
  let sorted := sort_by (cmp_on record_price f64_total_cmp) orders in
  let best := drop (length orders - orders_per_type) sorted in
  let rest := sort_by (cmp_on rec_remaining_fillable_taker_amount Z.compare) (take (length orders - orders_per_type) sorted) in
  best ++ take orders_per_type (rev rest).

(** [iter] is the order in which the map is walked. *)
Definition get_useful_orders (iter : list (address * address * list OrderRecord) -> list (address * address * list OrderRecord))
  (order_buckets : gmap (address * address) (list OrderRecord)) (relevant_pairs : gset (Z * Z)) (orders_per_type : nat)
  : list OrderRecord :=
  iter (map_to_list order_buckets) ≫= fun '((token_a, token_b), orders) =>
    match TokenPair_new token_a token_b with
    | Some tp => if bool_decide (tp ∈ relevant_pairs) then useful_of_bucket orders_per_type orders else []
    | None => []
    end.

(** ** Pages of the 0x API *)
Record OrdersResponse := mkOrdersResponse { or_per_page : Z; or_records : list OrderRecord }.

Definition expect_more_results_after_handling_response (results : list OrderRecord) (response : OrdersResponse)
  : bool * list OrderRecord :=
  (Z.of_nat (length (or_records response)) =? or_per_page response, results ++ or_records response).

(** [latest] is the last second a timestamp of the time library can represent;
    unwrapping a later one panics. *)
Definition record_expiry (latest expiry : Z) : comp Z :=
  let expiry := if fits 63 expiry then expiry else 2 ^ 63 - 1 in
  if expiry <=? latest then Ret expiry else Panic.

Fixpoint retain_valid_orders (latest now : Z) (included : list (list Z)) (orders : list OrderRecord) : comp (list OrderRecord) :=
  match orders with
  | [] => Ret []
  | r :: orders =>
      let! expiry := record_expiry latest (zo_expiry (rec_order r)) in
      if (now <? expiry) && negb (bool_decide (rec_order_hash r ∈ included)) then
        let! rest := retain_valid_orders latest now (rec_order_hash r :: included) orders in
        Ret (r :: rest)
      else retain_valid_orders latest now included orders
  end.

Fixpoint fetch_pages (fuel : nat) (page : nat) (api : nat -> result string OrdersResponse) (results : list OrderRecord)
  : option (result string (list OrderRecord)) :=
  match fuel with
  | O => None
  | S fuel =>
      match api page with
      | Err e => Some (Err e)
      | Ok response =>
          let '(more, results) := expect_more_results_after_handling_response results response in
          if more then fetch_pages fuel (S page) api results else Some (Ok results)
      end
  end.

Definition get_orders (fuel : nat) (latest now : Z) (api : nat -> result string OrdersResponse)
  : comp (option (result string (list OrderRecord))) :=
  match fetch_pages fuel 1 api [] with
  | None => Ret None
  | Some (Err e) => Ret (Some (Err e))
  | Some (Ok results) => let! valid := retain_valid_orders latest now [] results in Ret (Some (Ok valid))
  end.

(** ** Settlement handlers *)

(** Call data of the contracts' functions. *)
Record CallData := mkCallData {
  cd_approve : address -> Z -> list Z;
  cd_swap_tokens_for_exact_tokens : UniswapInteraction -> list Z;
  cd_exact_output_single : UniswapV3Interaction -> list Z;
  cd_balancer_swap : BalancerSwapGivenOut -> Z -> list Z;
  cd_fill_or_kill : ZeroExOrder -> Z -> list Z;
}.

(** [SettlementHandling]: how an execution of some liquidity becomes interactions. *)
Class SettlementHandling (Handler Execution : Type) := handle_encode :
  Handler -> Execution -> SettlementEncoder -> comp (result string SettlementEncoder).

Section handlers.
Context (cd : CallData).

Definition Approval_encode (a : Approval) : EthInteraction :=
  mkEthInteraction (ap_token a) 0 (cd_approve cd (ap_spender a) U256_MAX).
Definition Uniswap_encode_swap (i : UniswapInteraction) : EthInteraction :=
  mkEthInteraction (ui_router i) 0 (cd_swap_tokens_for_exact_tokens cd i).
Definition UniswapV3_encode (i : UniswapV3Interaction) : EthInteraction :=
  mkEthInteraction (u3_router i) 0 (cd_exact_output_single cd i).
Definition NEVER : Z := Z.shiftl 1 255.
Definition Balancer_encode_swap (i : BalancerSwapGivenOut) : EthInteraction :=
  mkEthInteraction (bsg_vault i) 0 (cd_balancer_swap cd i NEVER).
Definition ZeroEx_encode (zeroex : address) (order : ZeroExOrder) (taker_token_fill_amount : Z) : EthInteraction :=
  mkEthInteraction zeroex 0 (cd_fill_or_kill cd order taker_token_fill_amount).

(** The approval, if one is needed, comes before the swap. *)
Definition append_swap (approval : option Approval) (swap : EthInteraction) (internalizable : bool) (e : SettlementEncoder)
  : SettlementEncoder :=
  let e := match approval with
           | Some a => append_to_execution_plan_internalizable (Approval_encode a) internalizable e
           | None => e
           end in
  append_to_execution_plan_internalizable swap internalizable e.

Record UniswapHandler := mkUniswapHandler { uh_router : address; uh_gpv2_settlement : address; uh_allowances : Allowances }.

Definition Uniswap_cache_allowances (h : UniswapHandler) (fetched : Allowances) : result string UniswapHandler :=
  letr allowances := Allowances_extend (uh_allowances h) fetched in
  Ok (mkUniswapHandler (uh_router h) (uh_gpv2_settlement h) allowances).

Definition Uniswap_settle (h : UniswapHandler) (input_max output : Asset) : option Approval * UniswapInteraction :=
  (approve_token_or_default (uh_allowances h) (asset_token input_max) (asset_amount input_max),
   mkUniswapInteraction (uh_router h) (uh_gpv2_settlement h) (asset_amount output) (asset_amount input_max)
     (asset_token input_max) (asset_token output)).

Definition Uniswap_encode (h : UniswapHandler) (x : AmmOrderExecution) (e : SettlementEncoder)
  : comp (result string SettlementEncoder) :=
  let '(approval, swap) := Uniswap_settle h (ex_input_max x) (ex_output x) in
  Ret (Ok (append_swap approval (Uniswap_encode_swap swap) (ex_internalizable x) e)).

Record UniswapV3Handler := mkUniswapV3Handler { u3h_inner : UniswapHandler; u3h_fee : Z }.

(** [Ratio::checked_mul] of 32 bit integers divides by the common factors first; the fee of a
    pool as millionths. *)
Definition ratio_to_u32 (fee : Z * Z) : result string Z :=
  let g := Z.gcd 1000000 fee.2 in
  let numerator := fee.1 * (1000000 / g) in
  if fits 32 numerator then Ok (numerator / (fee.2 / g)) else Err "failed multiplication"%string.

(** A fee of more than 24 bits panics. *)
Definition UniswapV3_settle (h : UniswapV3Handler) (input_max output : Asset) : comp (option Approval * UniswapV3Interaction) :=
  if fits 24 (u3h_fee h) then
    Ret (approve_token_or_default (uh_allowances (u3h_inner h)) (asset_token input_max) (asset_amount input_max),
         mkUniswapV3Interaction (uh_router (u3h_inner h)) (asset_token input_max) (asset_token output) (u3h_fee h)
           (uh_gpv2_settlement (u3h_inner h)) (asset_amount output) (asset_amount input_max) 0)
  else Panic.

Definition UniswapV3_encode_execution (h : UniswapV3Handler) (x : AmmOrderExecution) (e : SettlementEncoder)
  : comp (result string SettlementEncoder) :=
  let! r := UniswapV3_settle h (ex_input_max x) (ex_output x) in
  Ret (Ok (append_swap r.1 (UniswapV3_encode r.2) (ex_internalizable x) e)).

Record BalancerHandler := mkBalancerHandler {
  bh_pool_id : Z;
  bh_settlement : address;
  bh_vault : address;
  bh_allowances : Allowances;
}.

Definition Balancer_swap (h : BalancerHandler) (input_max output : Asset) : BalancerSwapGivenOut :=
  mkBalancerSwapGivenOut (bh_settlement h) (bh_vault h) (bh_pool_id h) input_max output [].

Definition Balancer_inner_encode (h : BalancerHandler) (x : AmmOrderExecution) (e : SettlementEncoder)
  : comp (result string SettlementEncoder) :=
  Ret (letr approval := approve_token (bh_allowances h) (asset_token (ex_input_max x)) (asset_amount (ex_input_max x)) in
       Ok (append_swap approval (Balancer_encode_swap (Balancer_swap h (ex_input_max x) (ex_output x))) (ex_internalizable x) e)).

Record ZeroExHandler := mkZeroExHandler { zh_order_record : OrderRecord; zh_zeroex : address; zh_allowances : Allowances }.
Record LimitOrderExecution := mkLimitOrderExecution { le_filled : Z; le_fee : Z }.

Definition ZeroEx_encode_execution (h : ZeroExHandler) (x : LimitOrderExecution) (e : SettlementEncoder)
  : comp (result string SettlementEncoder) :=
  Ret (if fits 128 (le_filled x) then
         letr approval := approve_token (zh_allowances h) (zo_taker_token (rec_order (zh_order_record h))) (le_filled x) in
         Ok (append_swap approval (ZeroEx_encode (zh_zeroex h) (rec_order (zh_order_record h)) (le_filled x)) false e)
       else Err "0x only supports executed amounts of size u128"%string).

#[export] Instance Uniswap_handling : SettlementHandling UniswapHandler AmmOrderExecution := Uniswap_encode.
#[export] Instance UniswapV3_handling : SettlementHandling UniswapV3Handler AmmOrderExecution := UniswapV3_encode_execution.
#[export] Instance Balancer_handling : SettlementHandling BalancerHandler AmmOrderExecution := Balancer_inner_encode.
#[export] Instance ZeroEx_handling : SettlementHandling ZeroExHandler LimitOrderExecution := ZeroEx_encode_execution.
End handlers.

(** [Settlement::with_liquidity]. *)
Definition with_liquidity {H X} {handling : SettlementHandling H X} (liquidity : H) (execution : X) (e : SettlementEncoder)
  : comp (result string SettlementEncoder) := handle_encode liquidity execution e.

(** ** Handlers only append to the execution plan *)
Definition appends (e e' : SettlementEncoder) : Prop :=
  exists l, e' = mkSettlementEncoder (se_tokens e) (se_clearing_prices e) (se_trades e) (se_execution_plan e ++ l)
                   (se_pre_interactions e) (se_post_interactions e) (se_unwraps e).

(** What a settlement may rely on, whatever the liquidity. *)
Class HandlingAppends H X {handling : SettlementHandling H X} :=
  handling_appends (h : H) (x : X) e e' : handle_encode h x e = Ret (Ok e') -> appends e e'.

Lemma append_swap_appends cd approval swap fl e : appends e (append_swap cd approval swap fl e).
Proof.
  destruct approval as [a|]; unfold append_swap, append_to_execution_plan_internalizable, appends; cbn; eexists; [|done].
  by rewrite <- app_assoc.
Qed.

Section instances.
Context (cd : CallData).

#[export] Instance Uniswap_appends : HandlingAppends UniswapHandler AmmOrderExecution (handling := Uniswap_handling cd).
Proof. intros h x e e' [= <-]. apply append_swap_appends. Qed.

#[export] Instance UniswapV3_appends : HandlingAppends UniswapV3Handler AmmOrderExecution (handling := UniswapV3_handling cd).
Proof.
  intros h x e e' H. unfold handle_encode, UniswapV3_handling, UniswapV3_encode_execution in H.
  apply comp_bind_Ret in H as (r & _ & [= <-]). apply append_swap_appends.
Qed.

#[export] Instance Balancer_appends : HandlingAppends BalancerHandler AmmOrderExecution (handling := Balancer_handling cd).
Proof.
  intros h x e e' [= H]. apply result_bind_Ok in H as (r & _ & [= <-]). apply append_swap_appends.
Qed.

#[export] Instance ZeroEx_appends : HandlingAppends ZeroExHandler LimitOrderExecution (handling := ZeroEx_handling cd).
Proof.
  intros h x e e' [= H]. destruct (fits 128 (le_filled x)); [|done].
  apply result_bind_Ok in H as (r & _ & [= <-]). apply append_swap_appends.
Qed.
End instances.

Lemma with_liquidity_ok {H X} `{HandlingAppends H X} (liquidity : H) (execution : X) e e' executions :
  encoder_ok e executions -> with_liquidity liquidity execution e = Ret (Ok e') -> encoder_ok e' executions.
Proof. intros [Hs Ht Htr] Hr. destruct (handling_appends _ _ _ _ Hr) as [l ->]. by split. Qed.

(** ** Approvals *)
Lemma approve_token_Ok a token amount r :
  approve_token a token amount = Ok r <->
  exists allowance, alw_allowances a !! token = Some allowance /\
    r = if allowance <? amount then Some (mkApproval token (alw_spender a)) else None.
Proof. unfold approve_token. destruct (alw_allowances a !! token); naive_solver. Qed.

(** ** Useful 0x orders *)
Lemma take_drop_sorted {A} (R : A -> A -> Prop) n l x y :
  StronglySorted R l -> x ∈ take n l -> y ∈ drop n l -> R x y.
Proof.
  intros Hs (i & Hi)%list_elem_of_lookup (j & Hj)%list_elem_of_lookup.
  apply lookup_take_Some in Hi as [Hi Hlt]. rewrite lookup_drop in Hj.
  eapply StronglySorted_lookup_lt; [done..|lia].
Qed.

(** Of a bucket with more orders than needed, the best priced ones are kept, and of the
    others those of which most can be filled. *)
Lemma useful_of_bucket_spec n orders :
  (2 * n < length orders)%nat ->
  exists best big others, useful_of_bucket n orders = best ++ big /\ best ++ big ++ others ≡ₚ orders /\
    length best = n /\ length big = n /\
    (forall x y, x ∈ best -> y ∈ big ++ others -> f64_total_cmp (record_price y) (record_price x) <> Gt) /\
    (forall x y, x ∈ big -> y ∈ others -> rec_remaining_fillable_taker_amount y <= rec_remaining_fillable_taker_amount x).
Proof.
  intros Hlen. unfold useful_of_bucket. rewrite (proj2 (Nat.leb_gt _ _)) by lia.
  set (sorted := sort_by (cmp_on record_price f64_total_cmp) orders).
  assert (length sorted = length orders) as Hsl by apply Permutation_length, sort_by_perm.
  set (k := (length orders - n)%nat). set (low := take k sorted).
  set (rest := sort_by (cmp_on rec_remaining_fillable_taker_amount Z.compare) low).
  assert (length low = k) as Hll by (unfold low; rewrite length_take; lia).
  assert (rest ≡ₚ low) as Hperm by apply sort_by_perm.
  exists (drop k sorted), (take n (rev rest)), (drop n (rev rest)).
  split; [done|]. split.
  { rewrite take_drop, <- Permutation_rev, Hperm. unfold low. rewrite Permutation_app_comm, take_drop. apply sort_by_perm. }
  split; [rewrite length_drop; lia|].
  split; [rewrite length_take, length_rev, (Permutation_length Hperm); lia|]. split.
  - intros x y Hx Hy. rewrite take_drop, <- Permutation_rev, Hperm in Hy.
    eapply (take_drop_sorted (fun a b => cmp_on record_price f64_total_cmp a b <> Gt)); [apply sort_by_sorted, _|exact Hy|exact Hx].
  - intros x y Hx Hy. pose proof (sort_by_sorted (cmp_on rec_remaining_fillable_taker_amount Z.compare) low) as Hs.
    apply StronglySorted_rev in Hs. pose proof (take_drop_sorted _ _ _ _ _ Hs Hx Hy) as H. cbn in H.
    unfold cmp_on in H. by apply Z.compare_le_iff in H.
Qed.

(** ** What makes the 0x client panic *)

(** An order that buys nothing divides by zero when it is turned into liquidity. *)
Lemma zero_taker_amount_panics r :
  zo_taker_amount (rec_order r) = 0 -> rec_remaining_fillable_taker_amount r = 0 -> record_into_liquidity r = Panic.
Proof. intros Ht Hr. unfold record_into_liquidity, remaining_maker_amount. by rewrite Ht, Hr. Qed.

(** The fallback for an expiry that does not fit is later than every representable time. *)
Lemma late_expiry_panics latest now included r orders :
  latest < 2 ^ 63 - 1 -> 2 ^ 63 <= zo_expiry (rec_order r) ->
  retain_valid_orders latest now included (r :: orders) = Panic.
Proof.
  intros Hl He. cbn [retain_valid_orders]. unfold record_expiry, fits.
  rewrite (proj2 (Z.ltb_ge _ _)), andb_false_r by lia. by rewrite (proj2 (Z.leb_gt _ _)).
Qed.

(** ** Valid orders *)
Lemma retain_valid_orders_returns latest now included orders :
  Forall (fun r => 0 <= zo_expiry (rec_order r) <= latest) orders -> latest < 2 ^ 63 ->
  returns (retain_valid_orders latest now included orders) (fun kept =>
    sublist kept orders /\ NoDup (rec_order_hash <$> kept) /\
    Forall (fun r => now < zo_expiry (rec_order r) /\ rec_order_hash r ∉ included) kept /\
    forall r, r ∈ orders -> now < zo_expiry (rec_order r) -> rec_order_hash r ∈ included \/ rec_order_hash r ∈ rec_order_hash <$> kept).
Proof.
  intros Hall Hl. revert included. induction Hall as [|r orders Hr Hall IH]; intros included; cbn [retain_valid_orders].
  { cbn. split; [constructor|]. split; [constructor|]. split; [constructor|]. by intros r Hr%elem_of_nil. }
  unfold record_expiry. rewrite (proj2 (fits_spec 63 _)) by lia. rewrite (proj2 (Z.leb_le _ _)) by lia. cbn [comp_bind].
  destruct (Z.ltb_spec now (zo_expiry (rec_order r))) as [Hnow|Hnow]; cbn [andb].
  - destruct (decide (rec_order_hash r ∈ included)) as [Hin|Hin].
    + rewrite bool_decide_eq_true_2 by done. eapply returns_mono; [apply IH|]. intros kept (H1 & H2 & H3 & H4).
      split; [by constructor|]. split; [done|]. split; [done|]. intros r' [->|Hr']%elem_of_cons Hn; [by left|by apply H4].
    + rewrite bool_decide_eq_false_2 by done. eapply returns_bind; [apply (IH (rec_order_hash r :: included))|].
      intros kept (H1 & H2 & H3 & H4). cbn. split; [by constructor|]. split; [|split].
      * constructor; [|done]. intros (r' & He & Hr')%list_elem_of_fmap. rewrite Forall_forall in H3.
        destruct (H3 r' Hr') as [_ Hn]. apply Hn. rewrite He. left.
      * constructor; [done|]. eapply Forall_impl; [exact H3|]. intros r' [? Hn]. split; [done|]. by intros ?; apply Hn; right.
      * intros r' [->|Hr']%elem_of_cons Hn; [right; left|]. destruct (H4 r' Hr' Hn) as [[->|Hi]%elem_of_cons|Hk]; [right; left|by left|].
        right. by right.
  - eapply returns_mono; [apply IH|]. intros kept (H1 & H2 & H3 & H4). split; [by constructor|]. split; [done|]. split; [done|].
    intros r' [->|Hr']%elem_of_cons Hn; [lia|by apply H4].
Qed.

(** ** Pages *)
Definition full_page (response : OrdersResponse) : Prop := Z.of_nat (length (or_records response)) = or_per_page response.

(** The pages are read up to the first one that is not full. *)
Lemma fetch_pages_complete api page fuel results pages final :
  (forall i response, pages !! i = Some response -> api (page + i)%nat = Ok response /\ full_page response) ->
  api (page + length pages)%nat = Ok final -> ~ full_page final -> (length pages < fuel)%nat ->
  fetch_pages fuel page api results = Some (Ok (results ++ (pages ≫= or_records) ++ or_records final)).
Proof.
  revert page fuel results. induction pages as [|p pages IH]; intros page [|fuel] results Hfull Hfin Hnot Hfuel;
    cbn [length] in *; try lia; cbn [fetch_pages].
  - rewrite Nat.add_0_r in Hfin. rewrite Hfin. unfold expect_more_results_after_handling_response.
    by rewrite (proj2 (Z.eqb_neq _ _) Hnot).
  - destruct (Hfull 0%nat p eq_refl) as [Hp Hpf]. rewrite Nat.add_0_r in Hp. rewrite Hp.
    unfold expect_more_results_after_handling_response. rewrite (proj2 (Z.eqb_eq _ _) Hpf).
    rewrite (IH (S page) fuel (results ++ or_records p)); [| |by rewrite Nat.add_succ_comm|done|lia].
    + by rewrite bind_cons, <- !app_assoc.
    + intros i response Hi. destruct (Hfull (S i) response Hi) as [Ha Hf]. by rewrite Nat.add_succ_comm.
Qed.

(** ** Collecting *)

(** [LiquidityCollector::get_liquidity]: a source that fails contributes nothing. *)
Definition collect_liquidity {L : Type} (relevant_pairs : gset (Z * Z) -> gset (Z * Z))
  (sources : list (gset (Z * Z) -> result string (list L))) (pairs : gset (Z * Z)) : list L :=
  let pairs := relevant_pairs pairs in
  sources ≫= fun source => match source pairs with Ok l => l | Err _ => [] end.

(** An update of the orderbook at a block: the orders of the queries that succeed. *)
Definition run_orderbook_fetching (results : list (result string (list OrderRecord))) : gmap (address * address) (list OrderRecord) :=
  group_by_token_pair (results ≫= fun r => match r with Ok orders => orders | Err _ => [] end).

(** [ZeroExLiquidity::get_liquidity] on the cached buckets.  The handler an order carries,
    with the allowances that are fetched for it, is [ZeroExHandler]. *)
Definition zeroex_get_liquidity
  (iter : list (address * address * list OrderRecord) -> list (address * address * list OrderRecord)) (order_buckets : gmap (address * address) (list OrderRecord)) (pairs : gset (Z * Z))
  : comp (list ZeroExLiquidityOrder) :=
  let! orders := comp_map record_into_liquidity (get_useful_orders iter order_buckets pairs 5) in
  Ret (orders ≫= option_list).

(** The orders of a bucket trade its pair. *)
Lemma group_by_token_pair_lookup orders k l :
  group_by_token_pair orders !! k = Some l -> Forall (fun r => r ∈ orders /\ order_pair r = k) l /\ k.1 <> k.2.
Proof.
  unfold group_by_token_pair. revert l. induction orders as [|r orders IH] using rev_ind; intros l; [cbn; by rewrite lookup_empty|].
  rewrite foldl_snoc. set (m := foldl _ ∅ orders) in *.
  assert (forall l, Forall (fun x => x ∈ orders /\ order_pair x = k) l -> Forall (fun x => x ∈ orders ++ [r] /\ order_pair x = k) l) as Hmono.
  { intros l' Hl'. eapply Forall_impl; [exact Hl'|]. intros x [? ?]. split; [set_solver|done]. }
  destruct (TokenPair_new _ _) as [tp|] eqn:E; [|intros [Hl Hne]%IH; split; [by apply Hmono|done]].
  destruct (decide (order_pair r = k)) as [<-|Hne'].
  - rewrite lookup_insert_eq. intros [= <-]. split.
    + apply Forall_app. split; [|constructor; [split; [set_solver|done]|constructor]].
      destruct (m !! order_pair r) as [l0|] eqn:El; cbn; [|constructor]. apply Hmono. by destruct (IH l0 eq_refl).
    + cbn. intros Heq. unfold TokenPair_new in E. by rewrite Heq, Z.compare_refl in E.
  - rewrite lookup_insert_ne by done. intros [Hl Hne]%IH. split; [by apply Hmono|done].
Qed.

(** Every 0x order that becomes liquidity has something left to trade, at a price of at
    least the signed one for the maker. *)
Lemma record_into_liquidity_Some r l :
  0 <= zo_maker_amount (rec_order r) -> 0 <= rec_remaining_fillable_taker_amount r -> 0 <= zo_taker_amount (rec_order r) ->
  record_into_liquidity r = Ret (Some l) ->
  0 < zl_sell_amount l <= zo_maker_amount (rec_order r) /\ 0 < zl_buy_amount l <= zo_taker_amount (rec_order r) /\
  zl_sell_amount l * zo_taker_amount (rec_order r) <= zo_maker_amount (rec_order r) * zl_buy_amount l.
Proof.
  intros Hm Hrem Ht H. unfold record_into_liquidity, remaining_maker_amount in H.
  destruct (Z.ltb_spec (zo_taker_amount (rec_order r)) (rec_remaining_fillable_taker_amount r)); [done|].
  unfold div_u256 in H. destruct (Z.eqb_spec (zo_taker_amount (rec_order r)) 0); [done|]. cbn [comp_bind] in H.
  destruct (fits 128 _) eqn:Ef; [|done]. set (q := _ / _) in H. apply fits_spec in Ef. fold q in Ef.
  destruct (Z.eqb_spec q 0); [done|]. destruct (Z.eqb_spec (rec_remaining_fillable_taker_amount r) 0); [done|].
  injection H as <-. cbn [zl_sell_amount zl_buy_amount].
  assert (zo_taker_amount (rec_order r) * q <= zo_maker_amount (rec_order r) * rec_remaining_fillable_taker_amount r) as Hq
    by (apply Z.mul_div_le; lia).
  split; [|split; lia]. split; [lia|]. apply Z.div_le_upper_bound; nia.
Qed.
