(* ===== verification/RecentBlockCache.v ===== *)
(** * RecentBlockCache: on-chain data cached by block

    [shared/src/recent_block_cache.rs]: values fetched for keys at a block, an automatic
    update of the recently used keys on every new block, and the collection of old entries.

    The list of recently used keys is a cache of a library with a fixed size: the type of
    such lists, [cache_set] and [key_order] are parameters.  What the node answers and the
    order in which a set is walked are parameters too.  Every critical section of the mutex
    is one operation; a fetch is a first one and one for each chunk of missing keys, and
    operations of concurrent fetches may happen in between. *)

From stdpp Require Import base gmap sets list strings sorting.
From Stdlib Require Import ZArith Lia Sorted.
From S2P Require Import Prelude Collections EventHandling.

Open Scope Z_scope.
Open Scope rust_scope.

Definition REQUEST_BATCH_SIZE : nat := 200.

Inductive Block := Recent | Number (n : Z) | Finalized.

Section cache.
Context {K V L : Type} `{!EqDecision K} `{!Countable K}.
(** [CacheKey::for_value]. *)
Context (for_value : V -> K).
Context (cache_set : K -> L -> L) (key_order : L -> list K).
Context (iter : list K -> list K).

Record CacheConfig := mkCacheConfig {
  cc_number_of_blocks_to_cache : Z;
  cc_maximum_recent_block_age : Z;
  cc_max_retries : nat;
}.

Record Mutexed := mkMutexed {
  mx_recently_used : L;
  mx_cached_most_recently_at_block : gmap K Z;
  mx_entries : gmap (Z * K) (list V);
  mx_last_update_block : Z;
  mx_maximum_recent_block_age : Z;
}.

Definition Mutexed_new (empty : L) (current_block maximum_recent_block_age : Z) : Mutexed :=
  mkMutexed empty ∅ ∅ current_block maximum_recent_block_age.

Definition mark_used (key : K) (m : Mutexed) : Mutexed :=
  mkMutexed (cache_set key (mx_recently_used m)) (mx_cached_most_recently_at_block m) (mx_entries m)
    (mx_last_update_block m) (mx_maximum_recent_block_age m).

(** The block to look a key up at. *)
Definition lookup_block (m : Mutexed) (key : K) (block : option Z) : option Z :=
  match block with
  | Some block => Some block
  | None =>
      let? block := mx_cached_most_recently_at_block m !! key in
      if Z.max 0 (mx_last_update_block m - block) <=? mx_maximum_recent_block_age m then Some block else None
  end.

Definition Mutexed_get (key : K) (block : option Z) (m : Mutexed) : option (list V) * Mutexed :=
  match lookup_block m key block with
  | None => (None, m)
  | Some at_block =>
      let result := mx_entries m !! (at_block, key) in
      (result, match block, result with Some _, Some (_ :: _) => mark_used key m | _, _ => m end)
  end.

Definition insert_key (block : Z) (m : Mutexed) (key : K) : Mutexed :=
  mkMutexed (mx_recently_used m)
    (<[key := match mx_cached_most_recently_at_block m !! key with Some b => Z.max b block | None => block end]>
       (mx_cached_most_recently_at_block m))
    (<[(block, key) := []]> (mx_entries m)) (mx_last_update_block m) (mx_maximum_recent_block_age m).

(** Unwrapping panics on a value of a key that was not inserted. *)
Fixpoint push_values (block : Z) (values : list V) (entries : gmap (Z * K) (list V)) : comp (gmap (Z * K) (list V)) :=
  match values with
  | [] => Ret entries
  | v :: values =>
      let! vs := expect (entries !! (block, for_value v)) in
      push_values block values (<[(block, for_value v) := vs ++ [v]]> entries)
  end.

Definition Mutexed_insert (block : Z) (keys : list K) (values : list V) (m : Mutexed) : comp Mutexed :=
  let m := foldl (insert_key block) m keys in
  let! entries := push_values block values (mx_entries m) in
  Ret (mkMutexed (mx_recently_used m) (mx_cached_most_recently_at_block m) entries (mx_last_update_block m)
         (mx_maximum_recent_block_age m)).

(** The walk from the newest block: only the first entry of a key keeps its values.  Keys
    of one block are distinct, so that their order does not matter. *)
Definition keep_newest (acc : list K * list (Z * K * list V)) (entry : Z * K * list V) : list K * list (Z * K * list V) :=
  let '((block, key), values) := entry in
  if bool_decide (key ∈ acc.1) then (acc.1, ((block, key), []) :: acc.2)
  else (key :: acc.1, ((block, key), values) :: acc.2).

Definition remove_cached_blocks_older_than (oldest_to_keep : Z) (m : Mutexed) : Mutexed :=
  let entries := filter (fun e => oldest_to_keep <= e.1.1) (mx_entries m) in
  let walked := foldl keep_newest ([], [])
                  (sort_by (cmp_rev (cmp_on (fun e : Z * K * list V => e.1.1) Z.compare)) (map_to_list entries)) in
  mkMutexed (mx_recently_used m) (filter (fun e => oldest_to_keep <= e.2) (mx_cached_most_recently_at_block m))
    (filter (fun e => e.2 <> []) (list_to_map walked.2)) (mx_last_update_block m) (mx_maximum_recent_block_age m).

Definition keys_of_recently_used_entries (m : Mutexed) : list K := key_order (mx_recently_used m).

(** ** Fetching *)

(** The first answer of up to [retries + 1] attempts. *)
Fixpoint fetch_inner (retries : nat) (answers : nat -> option (list V)) : option (list V) :=
  match answers 0%nat with
  | Some values => Some values
  | None => match retries with O => None | S retries => fetch_inner retries (fun i => answers (S i)) end
  end.

(** A key that could not be fetched contributes nothing. *)
Definition fetch_inner_many (outcome : K -> option (list V)) (keys : list K) : list V :=
  keys ≫= fun key => default [] (outcome key).

(** The first critical section: cached values, the missing keys and the block to fetch
    them at. *)
Record FetchState := mkFetchState { fs_hits : list V; fs_misses : list K; fs_block : option Z; fs_miss_block : Z }.

Definition fetch_key (block : option Z) (acc : list V * list K * Mutexed) (key : K) : list V * list K * Mutexed :=
  let '(hits, misses, m) := acc in
  match Mutexed_get key block m with
  | (Some values, m) => (hits ++ values, misses, m)
  | (None, m) => (hits, if bool_decide (key ∈ misses) then misses else misses ++ [key], m)
  end.

Definition fetch_begin (keys : list K) (block : Block) (m : Mutexed) : FetchState * Mutexed :=
  let block := match block with Recent | Finalized => None | Number n => Some n end in
  let '(hits, misses, m) := foldl (fetch_key block) ([], [], m) keys in
  (mkFetchState hits misses block (default (mx_last_update_block m) block), m).

(** The critical section after the chunk is fetched. *)
Definition fetch_chunk (f : FetchState) (chunk : list K) (fetched : list V) (m : Mutexed) : comp Mutexed :=
  let! m := Mutexed_insert (fs_miss_block f) chunk fetched m in
  Ret match fs_block f with
      | Some _ => foldl (fun m key => mark_used key m) m (remove_dups (for_value <$> fetched))
      | None => m
      end.

Fixpoint fetch_chunks (outcome : K -> option (list V)) (f : FetchState) (l : list (list K)) (m : Mutexed)
  : comp (list V * Mutexed) :=
  match l with
  | [] => Ret ([], m)
  | chunk :: l =>
      let fetched := fetch_inner_many outcome chunk in
      let! m := fetch_chunk f chunk fetched m in
      let! rest := fetch_chunks outcome f l m in
      Ret (fetched ++ rest.1, rest.2)
  end.

(** A fetch that is not interrupted; [outcome] is what the node answers for each key. *)
Definition fetch (outcome : K -> option (list V)) (keys : list K) (block : Block) (m : Mutexed) : comp (list V * Mutexed) :=
  let '(f, m) := fetch_begin keys block m in
  let! rest := fetch_chunks outcome f (chunks REQUEST_BATCH_SIZE (iter (fs_misses f))) m in
  Ret (fs_hits f ++ rest.1, rest.2).

(** The second critical section of the update at a new block. *)
Definition update_cache_at_block (config : CacheConfig) (new_block : Z) (keys : list K) (found_values : list V) (m : Mutexed)
  : comp Mutexed :=
  let! m := Mutexed_insert new_block keys found_values m in
  let oldest_to_keep := Z.max 0 (new_block - (cc_number_of_blocks_to_cache config - 1)) in
  let m := remove_cached_blocks_older_than oldest_to_keep m in
  Ret (mkMutexed (mx_recently_used m) (mx_cached_most_recently_at_block m) (mx_entries m) new_block
         (mx_maximum_recent_block_age m)).
End cache.

(** ** What insertion and collection do to the entries *)
Section entries.
Context {K V L : Type} `{!EqDecision K} `{!Countable K}.
Local Abbreviation Mutexed := (Mutexed (K := K) (V := V) (L := L)).

Lemma insert_keys_entries block keys (m : Mutexed) b k :
  mx_entries (foldl (insert_key block) m keys) !! (b, k) =
  if decide (b = block /\ k ∈ keys) then Some [] else mx_entries m !! (b, k).
Proof.
  revert m. induction keys as [|k0 keys IH]; intros m; cbn [foldl].
  { by rewrite decide_False by (by intros [_ ?%elem_of_nil]). }
  rewrite IH. cbn [insert_key mx_entries]. destruct (decide (b = block /\ k ∈ keys)) as [[-> Hk]|Hn].
  - rewrite decide_True by (split; [done|by right]). done.
  - destruct (decide ((block, k0) = (b, k))) as [[= <- <-]|Hne].
    + rewrite lookup_insert_eq, decide_True by (split; [done|left]). done.
    + rewrite lookup_insert_ne by done. rewrite decide_False; [done|].
      intros [-> [->|?]%elem_of_cons]; [by apply Hne|by apply Hn].
Qed.

Lemma keep_newest_walk (l : list (Z * K * list V)) :
  (forall k, k ∈ (foldl keep_newest ([], []) l).1 <-> k ∈ (fun e => e.1.2) <$> l) /\
  (foldl keep_newest ([], []) l).2.*1 ≡ₚ l.*1 /\
  forall b k vs, vs <> [] ->
    ((b, k), vs) ∈ (foldl keep_newest ([], []) l).2 <->
    exists l1 l2, l = l1 ++ ((b, k), vs) :: l2 /\ k ∉ (fun e => e.1.2) <$> l1.
Proof.
  induction l as [|[[b0 k0] vs0] l (IHk & IHp & IHe)] using rev_ind.
  { cbn. split; [done|]. split; [done|]. intros b k vs _. split; [by intros ?%elem_of_nil|].
    by intros ([|] & l2 & [=] & _). }
  rewrite foldl_snoc. destruct (foldl keep_newest ([], []) l) as [seen out]. cbn [fst snd] in *.
  assert (forall b k vs, vs <> [] -> (exists l1 l2, l ++ [((b0, k0), vs0)] = l1 ++ ((b, k), vs) :: l2 /\ k ∉ (fun e => e.1.2) <$> l1) <->
    ((b, k), vs) ∈ out \/ ((b, k), vs) = ((b0, k0), vs0) /\ k ∉ seen) as Hsnoc.
  { intros b k vs Hvs. rewrite (IHe b k vs Hvs). split.
    - intros (l1 & l2 & Heq & Hn). destruct l2 as [|x l2 _] using rev_ind.
      + apply app_inj_tail in Heq as [<- Heq]. right. split; [done|]. by rewrite IHk.
      + rewrite app_comm_cons, app_assoc in Heq. apply app_inj_tail in Heq as [-> _]. left. eauto.
    - intros [(l1 & l2 & -> & Hn)|[[= <- <- <-] Hn]].
      + exists l1, (l2 ++ [((b0, k0), vs0)]). split; [by rewrite <- app_assoc|done].
      + exists l, []. split; [done|]. by rewrite <- IHk. }
  unfold keep_newest. cbn [fst snd]. case_bool_decide as Hin; cbn [fst snd].
  - split; [|split].
    + intros k. rewrite IHk, fmap_app, elem_of_app. cbn. rewrite list_elem_of_singleton. split; [by left|].
      intros [?| ->]; [done|]. by apply IHk.
    + rewrite fmap_cons, IHp, fmap_app. cbn. by rewrite Permutation_app_comm.
    + intros b k vs Hvs. rewrite Hsnoc, elem_of_cons by done. naive_solver.
  - split; [|split].
    + intros k. rewrite elem_of_cons, IHk, fmap_app, elem_of_app. cbn. rewrite list_elem_of_singleton. naive_solver.
    + rewrite fmap_cons, IHp, fmap_app. cbn. by rewrite Permutation_app_comm.
    + intros b k vs Hvs. rewrite Hsnoc, elem_of_cons by done. naive_solver.
Qed.

(** After the collection exactly the newest entry of every key is left, if it is recent
    enough and not empty. *)
Lemma remove_cached_blocks_lookup oldest (m : Mutexed) b k vs :
  mx_entries (remove_cached_blocks_older_than oldest m) !! (b, k) = Some vs <->
  mx_entries m !! (b, k) = Some vs /\ oldest <= b /\ vs <> [] /\
  forall b' vs', mx_entries m !! (b', k) = Some vs' -> b' <= b.
Proof.
  unfold remove_cached_blocks_older_than. cbn [mx_entries].
  set (entries := filter _ (mx_entries m)).
  set (l := sort_by _ (map_to_list entries)).
  assert (l ≡ₚ map_to_list entries) as Hperm by apply sort_by_perm.
  assert (forall b k vs, ((b, k), vs) ∈ l <-> mx_entries m !! (b, k) = Some vs /\ oldest <= b) as Hl.
  { intros b' k' vs'. rewrite Hperm, elem_of_map_to_list. unfold entries. by rewrite map_lookup_filter_Some. }
  assert (NoDup l.*1) as Hnd by (rewrite Hperm; apply NoDup_fst_map_to_list).
  pose proof (sort_by_sorted (cmp_rev (cmp_on (fun e : Z * K * list V => e.1.1) Z.compare)) (map_to_list entries)) as Hs. fold l in Hs.
  destruct (keep_newest_walk l) as (_ & Hfst & Hwalk). set (out := (foldl keep_newest ([], []) l).2) in *.
  rewrite map_lookup_filter_Some, <- elem_of_list_to_map by (by rewrite Hfst). cbn [snd].
  split.
  - intros [Hin Hne]. apply (Hwalk b k vs Hne) in Hin as (l1 & l2 & Heq & Hn).
    assert (((b, k), vs) ∈ l) as Hinl by (rewrite Heq; set_solver). apply Hl in Hinl as [Hm Ho].
    split; [done|]. split; [done|]. split; [done|]. intros b' vs' Hm'.
    destruct (Z.le_gt_cases oldest b') as [Ho'|]; [|lia].
    assert (((b', k), vs') ∈ l) as Hin' by (by apply Hl). rewrite Heq in Hin'.
    apply elem_of_app in Hin' as [Hin'|[[= -> _]|Hin']%elem_of_cons].
    + exfalso. apply Hn. apply list_elem_of_fmap. by exists ((b', k), vs').
    + lia.
    + rewrite Heq in Hs. apply StronglySorted_app in Hs as (_ & _ & Hs). apply StronglySorted_inv in Hs as [_ Hs].
      rewrite Forall_forall in Hs. specialize (Hs _ Hin'). unfold cmp_rev, cmp_on in Hs. cbn in Hs. by apply Z.compare_le_iff in Hs.
  - intros (Hm & Ho & Hne & Hmax). split; [|done]. apply (Hwalk b k vs Hne).
    assert (((b, k), vs) ∈ l) as Hinl by (by apply Hl).
    apply list_elem_of_split in Hinl as (l1 & l2 & Heq). exists l1, l2. split; [done|].
    intros ([[b1 k1] vs1] & Hk & Hin1)%list_elem_of_fmap. cbn in Hk. subst k1.
    assert (((b1, k), vs1) ∈ l) as Hin1' by (rewrite Heq; set_solver). apply Hl in Hin1' as [Hm1 _].
    pose proof (Hmax _ _ Hm1) as Hle.
    assert (b <= b1) as Hge.
    { rewrite Heq in Hs. apply StronglySorted_app in Hs as (Hs & _ & _).
      specialize (Hs ((b1, k), vs1) ((b, k), vs) Hin1 ltac:(left)). unfold cmp_rev, cmp_on in Hs. cbn in Hs.
      by apply Z.compare_le_iff in Hs. }
    assert (b1 = b) as -> by lia. rewrite Heq, fmap_app, fmap_cons in Hnd. cbn in Hnd.
    apply NoDup_app in Hnd as (_ & Hd & _). apply (Hd (b, k)); [|left].
    apply list_elem_of_fmap. by exists ((b, k), vs1).
Qed.
End entries.

(** ** Entries hold what the node answered *)
Section spec.
Context {K V L : Type} `{!EqDecision K} `{!Countable K}.
Context (for_value : V -> K) (cache_set : K -> L -> L) (iter : list K -> list K).
(** The values of a key at a block. *)
Context (chain : Z -> K -> list V).
Context (Hchain : forall b k v, v ∈ chain b k -> for_value v = k) (Hiter : forall l, iter l ≡ₚ l).

Local Abbreviation Mutexed := (Mutexed (K := K) (V := V) (L := L)).
Local Abbreviation of_key k := (filter (fun v => for_value v = k)).

(** What the node answers when it answers: for each key and attempt. *)
Definition node_ok (b : Z) (answers : K -> nat -> option (list V)) : Prop :=
  forall k i vs, answers k i = Some vs -> vs = chain b k.

(** The keys for which every attempt of a fetch at a block failed. *)
Definition failures (retries : nat) (b : Z) (answers : K -> nat -> option (list V)) (keys : list K) : list (Z * K) :=
  (fun k => (b, k)) <$> filter (fun k => Forall (fun i => answers k i = None) (seq 0 (S retries))) keys.

(** Right are the values of the chain; nothing is only right for a key whose own fetch at
    this very block failed. *)
Definition answer_ok (failed : list (Z * K)) (b : Z) (k : K) (vs : list V) : Prop :=
  vs = chain b k \/ (b, k) ∈ failed /\ vs = [].
Definition cache_ok (failed : list (Z * K)) (m : Mutexed) : Prop :=
  forall b k vs, mx_entries m !! (b, k) = Some vs -> answer_ok failed b k vs.

Lemma answer_ok_mono failed failed' b k vs : failed ⊆ failed' -> answer_ok failed b k vs -> answer_ok failed' b k vs.
Proof. intros Hs [?|[? ->]]; [by left|right]. split; [by apply Hs|done]. Qed.

Lemma answer_key failed b k vs v : answer_ok failed b k vs -> v ∈ vs -> for_value v = k.
Proof. intros [->|[_ ->]]; [apply Hchain|by intros ?%elem_of_nil]. Qed.

(** Every value belongs to the key it was found for. *)
Definition keyed (outcome : K -> option (list V)) : Prop := forall k v, v ∈ default [] (outcome k) -> for_value v = k.

Definition outcome_ok (failed : list (Z * K)) (b : Z) (keys : list K) (outcome : K -> option (list V)) : Prop :=
  keyed outcome /\ forall k, k ∈ keys -> answer_ok failed b k (default [] (outcome k)).

Lemma outcome_keyed failed b keys outcome : outcome_ok failed b keys outcome -> keyed outcome.
Proof. by intros [? _]. Qed.

Lemma fetch_inner_answer retries (answers : nat -> option (list V)) :
  match fetch_inner retries answers with
  | Some vs => exists i, answers i = Some vs
  | None => Forall (fun i => answers i = None) (seq 0 (S retries))
  end.
Proof.
  revert answers. induction retries as [|retries IH]; intros answers; cbn [fetch_inner].
  all: destruct (answers 0%nat) as [vs|] eqn:E; [by exists 0%nat|].
  - by constructor.
  - specialize (IH (fun i => answers (S i))). cbn beta in IH. destruct (fetch_inner _ _) as [vs|]; [destruct IH as [i Hi]; by exists (S i)|].
    change (seq 0 (S (S retries))) with (0%nat :: seq 1 (S retries)). constructor; [done|].
    rewrite <- (seq_shift (S retries) 0), Forall_map. exact IH.
Qed.

(** The outcome of the attempts is right, apart from the failures. *)
Lemma attempts_ok retries b answers keys :
  node_ok b answers -> outcome_ok (failures retries b answers keys) b keys (fun k => fetch_inner retries (answers k)).
Proof.
  intros Hn. split.
  - intros k v. pose proof (fetch_inner_answer retries (answers k)) as H. destruct (fetch_inner _ _) as [vs|]; [|by intros ?%elem_of_nil].
    destruct H as [i Hi]. rewrite (Hn k i vs Hi). apply Hchain.
  - intros k Hk. pose proof (fetch_inner_answer retries (answers k)) as H. destruct (fetch_inner _ _) as [vs|].
    + destruct H as [i Hi]. left. by eapply Hn.
    + right. split; [|done]. apply list_elem_of_fmap. exists k. split; [done|]. by apply list_elem_of_filter.
Qed.

Lemma outcome_ok_mono failed failed' b keys keys' outcome :
  failed ⊆ failed' -> keys' ⊆ keys -> outcome_ok failed b keys outcome -> outcome_ok failed' b keys' outcome.
Proof. intros Hf Hk [? Ho]. split; [done|]. intros k Hin. eapply answer_ok_mono; [done|]. by apply Ho, Hk. Qed.

Lemma of_key_fetched outcome keys k :
  keyed outcome -> NoDup keys ->
  of_key k (fetch_inner_many outcome keys) = if decide (k ∈ keys) then default [] (outcome k) else [].
Proof.
  intros Ho. unfold fetch_inner_many. induction 1 as [|k0 keys Hn Hnd IH]; [by rewrite decide_False by (by intros ?%elem_of_nil)|].
  rewrite bind_cons, filter_app, IH. destruct (decide (k0 = k)) as [->|Hne].
  - rewrite (filter_all _ (default [] (outcome k))) by apply Ho. rewrite decide_False by done.
    rewrite app_nil_r, decide_True by left. done.
  - rewrite filter_none by (intros v Hv <-; by apply Hne; symmetry; apply Ho). cbn [app].
    destruct (decide (k ∈ keys)) as [Hk|Hk]; [by rewrite decide_True by (by right)|].
    by rewrite decide_False by (by intros [->|?]%elem_of_cons).
Qed.

Lemma fetched_keys outcome keys v : keyed outcome -> v ∈ fetch_inner_many outcome keys -> for_value v ∈ keys.
Proof. intros Ho (k & Hv & Hk)%list_elem_of_bind. by rewrite (Ho k v Hv). Qed.

(** ** Inserting *)
Lemma push_values_spec block values entries :
  Forall (fun v => is_Some (entries !! (block, for_value v))) values ->
  exists entries', push_values for_value block values entries = Ret entries' /\
    forall b k, entries' !! (b, k) =
      (fun vs => vs ++ if decide (b = block) then of_key k values else []) <$> entries !! (b, k).
Proof.
  revert entries. induction values as [|v values IH]; intros entries Hall; cbn [push_values].
  { exists entries. split; [done|]. intros b k. destruct (entries !! (b, k)); [|done]. cbn.
    by destruct (decide (b = block)); rewrite app_nil_r. }
  apply Forall_cons in Hall as [[vs Hvs] Hall]. rewrite Hvs. cbn [expect comp_bind].
  destruct (IH (<[(block, for_value v) := vs ++ [v]]> entries)) as (entries' & Hpush & Hl).
  { eapply Forall_impl; [exact Hall|]. intros v' Hv'. destruct (decide (for_value v = for_value v')) as [->|Hne].
    - rewrite lookup_insert_eq. eauto.
    - rewrite lookup_insert_ne by congruence. done. }
  exists entries'. split; [done|]. intros b k. rewrite Hl. rewrite filter_cons.
  destruct (decide ((block, for_value v) = (b, k))) as [[= <- <-]|Hne].
  - rewrite lookup_insert_eq, Hvs. cbn. rewrite !decide_True by done. by rewrite <- app_assoc.
  - rewrite lookup_insert_ne by done. destruct (entries !! (b, k)); [|done]. cbn.
    destruct (decide (b = block)) as [->|]; [|done]. rewrite decide_False by congruence. done.
Qed.

Lemma insert_keys_rest block keys (m : Mutexed) :
  mx_last_update_block (foldl (insert_key block) m keys) = mx_last_update_block m /\
  mx_maximum_recent_block_age (foldl (insert_key block) m keys) = mx_maximum_recent_block_age m.
Proof. revert m. induction keys as [|k keys IH]; intros m; [done|]. cbn [foldl]. by rewrite !(proj1 (IH _)), !(proj2 (IH _)). Qed.

Lemma Mutexed_insert_ok failed block keys outcome (m : Mutexed) :
  cache_ok failed m -> NoDup keys -> outcome_ok failed block keys outcome ->
  exists m', Mutexed_insert for_value block keys (fetch_inner_many outcome keys) m = Ret m' /\ cache_ok failed m' /\
    mx_last_update_block m' = mx_last_update_block m /\ mx_maximum_recent_block_age m' = mx_maximum_recent_block_age m.
Proof.
  intros Hm Hnd Ho. unfold Mutexed_insert.
  destruct (push_values_spec block (fetch_inner_many outcome keys) (mx_entries (foldl (insert_key block) m keys)))
    as (entries' & -> & Hl).
  { apply Forall_forall. intros v Hv. rewrite insert_keys_entries, decide_True; [eauto|].
    split; [done|]. by eapply fetched_keys; [eapply outcome_keyed|]. }
  cbn [comp_bind]. eexists. split; [done|]. split; [|cbn; apply insert_keys_rest].
  intros b k vs. cbn [mx_entries]. rewrite Hl, insert_keys_entries.
  destruct (decide (b = block /\ k ∈ keys)) as [[-> Hk]|Hn].
  - cbn. intros [= <-]. rewrite decide_True by done. rewrite of_key_fetched, decide_True by (done || by eapply outcome_keyed). by apply Ho.
  - intros H. destruct (mx_entries m !! (b, k)) as [vs0|] eqn:E; [|done]. cbn in H. injection H as <-.
    destruct (decide (b = block)) as [->|]; [|by rewrite app_nil_r; apply Hm].
    rewrite of_key_fetched by (done || by eapply outcome_keyed). rewrite decide_False, app_nil_r by naive_solver. by apply Hm.
Qed.

Lemma update_ok failed config new_block keys outcome (m : Mutexed) :
  cache_ok failed m -> NoDup keys -> outcome_ok failed new_block keys outcome ->
  exists m', update_cache_at_block for_value config new_block keys (fetch_inner_many outcome keys) m = Ret m' /\ cache_ok failed m' /\
    mx_last_update_block m' = new_block /\ mx_maximum_recent_block_age m' = mx_maximum_recent_block_age m.
Proof.
  intros Hm Hnd Ho. unfold update_cache_at_block.
  destruct (Mutexed_insert_ok failed new_block keys outcome m Hm Hnd Ho) as (m1 & -> & Hm1 & _ & Hage). cbn [comp_bind].
  eexists. split; [done|]. split; [|done]. intros b k vs (H & _)%remove_cached_blocks_lookup. by apply Hm1.
Qed.

(** ** A fetch in a reachable state *)
Definition same_cache (m m' : Mutexed) : Prop :=
  mx_entries m' = mx_entries m /\ mx_cached_most_recently_at_block m' = mx_cached_most_recently_at_block m /\
  mx_last_update_block m' = mx_last_update_block m /\ mx_maximum_recent_block_age m' = mx_maximum_recent_block_age m.

(** The cached values a lookup finds. *)
Definition cached (m : Mutexed) (block : option Z) (k : K) : option (list V) :=
  let? b := lookup_block m k block in mx_entries m !! (b, k).

Lemma same_cache_cached m m' block k : same_cache m m' -> cached m' block k = cached m block k.
Proof. intros (He & Hc & Hu & Ha). unfold cached, lookup_block. by rewrite He, Hc, Hu, Ha. Qed.

Lemma Mutexed_get_cached k block (m : Mutexed) :
  (Mutexed_get cache_set k block m).1 = cached m block k /\ same_cache m (Mutexed_get cache_set k block m).2.
Proof.
  unfold Mutexed_get, cached. destruct (lookup_block m k block) as [b|]; [|done]. cbn [fst snd]. split; [done|].
  destruct block, (mx_entries m !! (b, k)) as [[|]|]; done.
Qed.

Lemma fetch_keys_cached block keys hits misses (m : Mutexed) :
  NoDup (misses ++ keys) ->
  exists m', foldl (fetch_key cache_set block) (hits, misses, m) keys =
    (hits ++ fetch_inner_many (cached m block) keys, misses ++ filter (fun k => cached m block k = None) keys, m') /\ same_cache m m'.
Proof.
  revert hits misses m. induction keys as [|k keys IH]; intros hits misses m Hnd; cbn [foldl].
  { exists m. by rewrite !app_nil_r. }
  destruct (Mutexed_get_cached k block m) as [Hget Hsame]. unfold fetch_key at 2.
  destruct (Mutexed_get cache_set k block m) as [r m1]. cbn [fst snd] in *. subst r.
  assert (forall keys, fetch_inner_many (cached m1 block) keys = fetch_inner_many (cached m block) keys) as Hf.
  { intros l. unfold fetch_inner_many. apply list_bind_ext; [|done]. intros x. by rewrite (same_cache_cached m m1). }
  assert (forall keys : list K, filter (fun k => cached m1 block k = None) keys = filter (fun k => cached m block k = None) keys) as Hg.
  { intros l. apply list_filter_iff. intros x. by rewrite (same_cache_cached m m1). }
  assert (forall m', same_cache m1 m' -> same_cache m m') as Htrans by (unfold same_cache in *; naive_solver congruence).
  rewrite filter_cons. unfold fetch_inner_many at 1. rewrite bind_cons. fold (fetch_inner_many (cached m block) keys).
  destruct (cached m block k) as [vs|] eqn:E; cbn [default].
  - destruct (IH (hits ++ vs) misses m1) as (m' & -> & Hs); [by rewrite <- Permutation_middle in Hnd; apply NoDup_cons in Hnd as [_ ?]|].
    exists m'. split; [|by apply Htrans]. rewrite Hf, Hg, decide_False by done. cbn. by rewrite <- app_assoc.
  - apply NoDup_app in Hnd as Hnd'. destruct Hnd' as (_ & Hd & _). rewrite bool_decide_eq_false_2 by (intros Hk; apply (Hd k Hk); left).
    destruct (IH hits (misses ++ [k]) m1) as (m' & -> & Hs); [by rewrite <- app_assoc|].
    exists m'. split; [|by apply Htrans]. rewrite Hf, Hg, decide_True by done. cbn. by rewrite <- app_assoc.
Qed.

Lemma mark_used_same keys (m : Mutexed) : same_cache m (foldl (fun m key => mark_used cache_set key m) m keys).
Proof. revert m. induction keys as [|k keys IH]; intros m; [done|]. cbn [foldl]. exact (IH (mark_used cache_set k m)). Qed.

Lemma same_cache_ok failed m m' : same_cache m m' -> cache_ok failed m -> cache_ok failed m'.
Proof. intros (He & _) Hm b k vs. rewrite He. apply Hm. Qed.

Lemma fetch_chunk_ok failed (f : FetchState) chunk outcome (m : Mutexed) :
  cache_ok failed m -> NoDup chunk -> outcome_ok failed (fs_miss_block f) chunk outcome ->
  exists m', fetch_chunk for_value cache_set f chunk (fetch_inner_many outcome chunk) m = Ret m' /\ cache_ok failed m' /\
    mx_last_update_block m' = mx_last_update_block m /\ mx_maximum_recent_block_age m' = mx_maximum_recent_block_age m.
Proof.
  intros Hm Hnd Ho. unfold fetch_chunk.
  destruct (Mutexed_insert_ok failed (fs_miss_block f) chunk outcome m Hm Hnd Ho) as (m1 & -> & Hm1 & Hu & Ha). cbn [comp_bind].
  eexists. split; [done|]. destruct (fs_block f); [|done].
  pose proof (mark_used_same (remove_dups (for_value <$> fetch_inner_many outcome chunk)) m1) as Hs.
  split; [by eapply same_cache_ok|]. destruct Hs as (_ & _ & -> & ->). done.
Qed.

Lemma fetch_chunks_ok failed (f : FetchState) l outcome (m : Mutexed) :
  cache_ok failed m -> NoDup (concat l) -> outcome_ok failed (fs_miss_block f) (concat l) outcome ->
  exists m', fetch_chunks for_value cache_set outcome f l m = Ret (fetch_inner_many outcome (concat l), m') /\ cache_ok failed m'.
Proof.
  intros Hm Hnd Ho. revert m Hm. induction l as [|chunk l IH]; intros m Hm; cbn [fetch_chunks concat] in *; [by exists m|].
  apply NoDup_app in Hnd as (Hc & _ & Hnd).
  destruct (fetch_chunk_ok failed f chunk outcome m Hm Hc) as (m1 & -> & Hm1 & _).
  { eapply outcome_ok_mono; [| |exact Ho]; set_solver. }
  assert (outcome_ok failed (fs_miss_block f) (concat l) outcome) as Ho' by (eapply outcome_ok_mono; [| |exact Ho]; set_solver).
  cbn [comp_bind]. destruct (IH Hnd Ho' m1 Hm1) as (m' & -> & Hm'). cbn [comp_bind fst snd]. exists m'. split; [|done].
  unfold fetch_inner_many. by rewrite bind_app.
Qed.

(** The state changes of concurrent fetches and updates, with the log of the fetches all
    whose attempts failed. *)
Inductive cache_step (config : CacheConfig) : list (Z * K) * Mutexed -> list (Z * K) * Mutexed -> Prop :=
| step_fetch_begin keys block failed m :
    cache_step config (failed, m) (failed, (fetch_begin cache_set keys block m).2)
| step_fetch_chunk f chunk answers failed m m' :
    NoDup chunk -> node_ok (fs_miss_block f) answers ->
    fetch_chunk for_value cache_set f chunk
      (fetch_inner_many (fun k => fetch_inner (cc_max_retries config) (answers k)) chunk) m = Ret m' ->
    cache_step config (failed, m) (failures (cc_max_retries config) (fs_miss_block f) answers chunk ++ failed, m')
| step_update new_block answers keys failed m m' :
    NoDup keys -> node_ok new_block answers ->
    update_cache_at_block for_value config new_block keys
      (fetch_inner_many (fun k => fetch_inner (cc_max_retries config) (answers k)) keys) m = Ret m' ->
    cache_step config (failed, m) (failures (cc_max_retries config) new_block answers keys ++ failed, m').

Lemma fetch_begin_same keys block (m : Mutexed) : same_cache m (fetch_begin cache_set keys block m).2.
Proof.
  unfold fetch_begin. set (b := match block with Number n => Some n | _ => None end).
  assert (forall hits misses m0, same_cache m m0 -> same_cache m (foldl (fetch_key cache_set b) (hits, misses, m0) keys).2) as H.
  { induction keys as [|k keys IH]; intros hits misses m0 Hs; cbn [foldl]; [done|]. unfold fetch_key at 2.
    destruct (Mutexed_get_cached k b m0) as [_ Hs']. destruct (Mutexed_get cache_set k b m0) as [[vs|] m1]; cbn [snd] in Hs';
      apply IH; unfold same_cache in *; naive_solver congruence. }
  specialize (H [] [] m). destruct (foldl _ _ keys) as [[hits misses] m']. by apply H.
Qed.

Lemma cache_ok_mono failed failed' m : failed ⊆ failed' -> cache_ok failed m -> cache_ok failed' m.
Proof. intros Hs Hm b k vs Hvs. eapply answer_ok_mono; [done|]. by apply Hm. Qed.

Lemma block_cache_step_ok config s s' : cache_step config s s' -> cache_ok s.1 s.2 -> cache_ok s'.1 s'.2.
Proof.
  intros [keys block failed m0|f chunk answers failed m0 m1 Hnd Ho H|new_block answers keys failed m0 m1 Hnd Ho H] Hm; cbn [fst snd] in *.
  - by eapply same_cache_ok; [apply fetch_begin_same|].
  - set (failed' := failures _ _ _ _ ++ failed).
    destruct (fetch_chunk_ok failed' f chunk (fun k => fetch_inner (cc_max_retries config) (answers k)) m0) as (m2 & H2 & Hm2 & _);
      [eapply cache_ok_mono; [|done]; set_solver|done|
       eapply outcome_ok_mono; [| |by apply attempts_ok]; set_solver|]. rewrite H in H2. by injection H2 as <-.
  - set (failed' := failures _ _ _ _ ++ failed).
    destruct (update_ok failed' config new_block keys (fun k => fetch_inner (cc_max_retries config) (answers k)) m0) as (m2 & H2 & Hm2 & _);
      [eapply cache_ok_mono; [|done]; set_solver|done|
       eapply outcome_ok_mono; [| |by apply attempts_ok]; set_solver|]. rewrite H in H2. by injection H2 as <-.
Qed.

Lemma reachable_ok config empty current age failed m :
  rtc (cache_step config) ([], Mutexed_new empty current age) (failed, m) -> cache_ok failed m.
Proof.
  intros Hr. assert (cache_ok [] (Mutexed_new empty current age : Mutexed)) as H0 by (by intros b k vs).
  change (cache_ok (failed, m).1 (failed, m).2).
  change (cache_ok ([] : list (Z * K), Mutexed_new empty current age : Mutexed).1
    ([] : list (Z * K), Mutexed_new empty current age : Mutexed).2) in H0.
  revert H0. generalize dependent (failed, m). intros s Hr. induction Hr as [|x y z Hs Hr IH]; [done|].
  intros H0. apply IH. by eapply block_cache_step_ok.
Qed.

Lemma cached_keyed failed m block : cache_ok failed m -> keyed (cached m block).
Proof.
  intros Hm k v. unfold cached. destruct (lookup_block m k block) as [b|]; [|by intros ?%elem_of_nil].
  destruct (mx_entries m !! (b, k)) as [vs|] eqn:E; [|by intros ?%elem_of_nil]. by apply (answer_key failed b), Hm.
Qed.

(** The block a key is looked up at is the requested one, or recent enough. *)
Definition acceptable (m : Mutexed) (block : Block) (b : Z) : Prop :=
  match block with
  | Number n => b = n
  | Recent | Finalized => b = mx_last_update_block m \/ mx_last_update_block m - b <= mx_maximum_recent_block_age m
  end.

Lemma cached_acceptable failed m block k vs :
  cache_ok failed m -> cached m (match block with Number n => Some n | _ => None end) k = Some vs ->
  exists b, answer_ok failed b k vs /\ acceptable m block b.
Proof.
  intros Hm. unfold cached. destruct (lookup_block _ _ _) as [b|] eqn:El; [|done]. intros Hvs.
  exists b. split; [by apply Hm|]. unfold lookup_block, acceptable in *.
  destruct block; [|by injection El as <-|]; right;
    (destruct (mx_cached_most_recently_at_block m !! k) as [b'|]; [|done]);
    (destruct (Z.leb_spec (Z.max 0 (mx_last_update_block m - b')) (mx_maximum_recent_block_age m)); [|done]);
    injection El as <-; lia.
Qed.

(** C28 (invariant): the cache never mixes up keys or blocks.  In whatever state concurrent
    fetches and automatic updates lead to, a fetch of different keys does not panic and
    returns for every requested key the values this key has at the requested block, or at a
    block that is at most the configured number of blocks behind the last update when any
    recent state will do, and nothing else.  The only exception is a key for which every
    attempt of a fetch at that block failed, in this fetch or in an earlier one: it may be
    left out, also after the node has recovered. *)
Theorem block_cache_answers config empty current age failed m answers keys block :
  rtc (cache_step config) ([], Mutexed_new empty current age) (failed, m) -> NoDup keys ->
  let miss_block := match block with Number n => n | _ => mx_last_update_block m end in
  node_ok miss_block answers ->
  exists result m',
    fetch for_value cache_set iter (fun k => fetch_inner (cc_max_retries config) (answers k)) keys block m = Ret (result, m') /\
    (forall v, v ∈ result -> for_value v ∈ keys) /\
    forall k, k ∈ keys -> exists b, acceptable m block b /\
      (of_key k result = chain b k \/
       of_key k result = [] /\
       ((b, k) ∈ failed \/ b = miss_block /\ forall i, (i <= cc_max_retries config)%nat -> answers k i = None)).
Proof.
  intros Hr Hnd miss_block Hnode. pose proof (reachable_ok _ _ _ _ _ _ Hr) as Hm.
  set (outcome := fun k => fetch_inner (cc_max_retries config) (answers k)). unfold fetch, fetch_begin.
  set (n := match block with Number n => Some n | _ => None end).
  destruct (fetch_keys_cached n keys [] [] m Hnd) as (m1 & -> & Hs). cbn [app].
  set (misses := filter (fun k => cached m n k = None) keys). set (f := mkFetchState _ misses n _).
  set (new := failures (cc_max_retries config) miss_block answers keys).
  assert (outcome_ok (new ++ failed) miss_block keys outcome) as Ho.
  { eapply outcome_ok_mono; [| |by apply (attempts_ok (cc_max_retries config))]; set_solver. }
  assert (fs_miss_block f = miss_block) as Hb.
  { cbn [f fs_miss_block]. destruct Hs as (_ & _ & -> & _). subst n miss_block. by destruct block. }
  assert (NoDup (iter misses)) as Hndm by (rewrite Hiter; by apply NoDup_filter).
  destruct (fetch_chunks_ok (new ++ failed) f (chunks REQUEST_BATCH_SIZE (iter misses)) outcome m1) as (m' & Hrun & _);
    [eapply same_cache_ok; [done|]; eapply cache_ok_mono; [|exact Hm]; set_solver
    |by rewrite chunks_concat by (unfold REQUEST_BATCH_SIZE; lia)
    |rewrite Hb, chunks_concat by (unfold REQUEST_BATCH_SIZE; lia); eapply outcome_ok_mono; [done| |exact Ho];
     intros k; rewrite Hiter; by intros [_ ?]%list_elem_of_filter|].
  rewrite chunks_concat in Hrun by (unfold REQUEST_BATCH_SIZE; lia). cbn [f fs_misses fs_hits] in *.
  rewrite Hrun. cbn [comp_bind fst snd]. do 2 eexists. split; [done|].
  pose proof (cached_keyed _ m n Hm) as Hck. pose proof (outcome_keyed _ _ _ _ Ho) as Hok. split.
  - intros v [Hv|Hv]%elem_of_app; [by eapply fetched_keys; [exact Hck|]|]. apply fetched_keys in Hv; [|done].
    rewrite Hiter in Hv. by apply list_elem_of_filter in Hv as [_ ?].
  - intros k Hk. rewrite filter_app, !of_key_fetched by done. rewrite decide_True by done.
    destruct (cached m n k) as [vs|] eqn:E; cbn [default].
    + rewrite decide_False, app_nil_r by (rewrite Hiter; intros [? _]%list_elem_of_filter; congruence).
      destruct (cached_acceptable failed m block k vs Hm E) as (b & [->|[Hf ->]] & Hb'); exists b; (split; [exact Hb'|]); [by left|].
      right. split; [done|]. by left.
    + rewrite decide_True by (rewrite Hiter; by apply list_elem_of_filter). cbn [app].
      exists miss_block. split; [subst miss_block; destruct block; cbn; [by left|done|by left]|].
      assert (answer_ok new miss_block k (default [] (outcome k))) as [->|[Hf ->]]
        by exact (proj2 (attempts_ok (cc_max_retries config) miss_block answers keys Hnode) k Hk); [by left|right].
      split; [done|]. right. split; [done|]. apply list_elem_of_fmap in Hf as (k' & [= <-] & Hf).
      apply list_elem_of_filter in Hf as [Hf _]. rewrite Forall_forall in Hf. intros i Hi. apply Hf, elem_of_seq. lia.
Qed.
End spec.

(** ** What the cache forgets *)
Section forgets.
Context {K V L : Type} `{!EqDecision K} `{!Countable K}.
Context (for_value : V -> K) (cache_set : K -> L -> L) (iter : list K -> list K).
Context (Hiter : forall l, iter l ≡ₚ l).
Local Abbreviation Mutexed := (Mutexed (K := K) (V := V) (L := L)).

(** A key the node fails to answer for is cached as a key without values: the next request for
    it at the same block is answered from the cache. *)
Lemma failed_fetch_cached k n (m : Mutexed) outcome :
  mx_entries m !! (n, k) = None -> outcome k = None ->
  exists m', fetch for_value cache_set iter outcome [k] (Number n) m = Ret ([], m') /\
    forall outcome', fetch for_value cache_set iter outcome' [k] (Number n) m' = Ret ([], m').
Proof.
  intros Hm Ho. unfold fetch, fetch_begin. cbn [foldl fetch_key Mutexed_get lookup_block]. rewrite Hm.
  rewrite bool_decide_eq_false_2 by (by intros ?%elem_of_nil). cbn [app fs_misses fs_hits].
  rewrite (proj1 (Permutation_singleton_r _ _) (Hiter [k])).
  rewrite chunks_single by (done || by apply Nat.leb_le).
  assert (fetch_inner_many outcome [k] = []) as Hf by (unfold fetch_inner_many; cbn; by rewrite Ho).
  cbn [fetch_chunks]. rewrite Hf. unfold fetch_chunk, Mutexed_insert. cbn [push_values comp_bind fs_miss_block fs_block default fmap list_fmap remove_dups foldl].
  eexists. split; [done|]. intros outcome'. cbn [insert_key mx_entries fst snd fetch_key Mutexed_get lookup_block].
  rewrite lookup_insert_eq. cbn [app fs_misses].
  by rewrite (proj1 (Permutation_nil_r _) (Hiter [])).
Qed.

(** An update keeps no older block of a key it refreshed, however many blocks are to be
    cached. *)
Lemma update_drops_previous_blocks config new_block keys values (m m' : Mutexed) k b :
  update_cache_at_block for_value config new_block keys values m = Ret m' ->
  k ∈ keys -> b < new_block -> mx_entries m' !! (b, k) = None.
Proof.
  intros H Hk Hb. unfold update_cache_at_block in H. apply comp_bind_Ret in H as (m1 & Hins & [= <-]). cbn [mx_entries].
  apply eq_None_not_Some. intros [vs Hvs]. apply (remove_cached_blocks_lookup (L := L)) in Hvs as (_ & _ & _ & Hmax).
  unfold Mutexed_insert in Hins. apply comp_bind_Ret in Hins as (entries & Hpush & [= <-]). cbn [mx_entries] in Hmax.
  assert (forall values entries entries' x, push_values for_value new_block values entries = Ret entries' ->
    is_Some (entries !! x) -> is_Some (entries' !! x)) as Hmono.
  { clear. induction values as [|v values IH]; intros entries entries' x H Hx; cbn [push_values] in H; [by injection H as <-|].
    apply comp_bind_Ret in H as (vs & Hvs & H). eapply IH; [exact H|].
    destruct (decide ((new_block, for_value v) = x)) as [<-|Hne]; [rewrite lookup_insert_eq; eauto|by rewrite lookup_insert_ne]. }
  destruct (Hmono _ _ _ (new_block, k) Hpush) as [vs' Hvs'].
  { rewrite insert_keys_entries, decide_True by done. eauto. }
  specialize (Hmax _ _ Hvs'). lia.
Qed.
End forgets.

(** ** Example *)
Definition sample_chain (b k : Z) : list (Z * Z) := [(k, b)].
(** The node answers for every key but 3, from the second attempt on. *)
Definition sample_answers (b k : Z) (i : nat) : option (list (Z * Z)) :=
  if (k =? 3) || (i =? 0)%nat then None else Some (sample_chain b k).
Definition sample_set (k : Z) (l : list Z) : list Z := k :: l.
Definition sample_config : CacheConfig := mkCacheConfig 10 3 1.
Definition sample_new : Mutexed (K := Z) (V := Z * Z) (L := list Z) := Mutexed_new [] 4 3.
Definition sample_cache : Mutexed (K := Z) (V := Z * Z) (L := list Z) :=
  match update_cache_at_block fst sample_config 5 [1]
          (fetch_inner_many (fun k => fetch_inner 1 (sample_answers 5 k)) [1]) sample_new with
  | Ret m => m
  | Panic => sample_new
  end.

Lemma sample_node_ok b : node_ok sample_chain b (sample_answers b).
Proof. intros k i vs. unfold sample_answers. by destruct (_ || _); intros [= <-]. Qed.

Lemma sample_cache_reachable :
  rtc (cache_step fst sample_set sample_chain sample_config) ([], sample_new) ([], sample_cache).
Proof.
  apply rtc_once. apply (step_update fst sample_set sample_chain sample_config 5 (sample_answers 5) [1] []);
    [apply NoDup_singleton|apply sample_node_ok|vm_compute; reflexivity].
Qed.

Lemma block_cache_answers_witness :
  exists result m',
    fetch fst sample_set id (fun k => fetch_inner 1 (sample_answers 5 k)) [1; 2; 3] (Number 5) sample_cache = Ret (result, m') /\
    (forall v, v ∈ result -> v.1 ∈ [1; 2; 3]) /\
    forall k, k ∈ [1; 2; 3] -> exists b, b = 5 /\
      (filter (fun v => v.1 = k) result = sample_chain b k \/
       filter (fun v => v.1 = k) result = [] /\
       ((b, k) ∈ [] \/ b = 5 /\ forall i, (i <= 1)%nat -> sample_answers 5 k i = None)).
Proof.
  apply (block_cache_answers fst sample_set id sample_chain) with (config := sample_config) (block := Number 5)
    (empty := []) (current := 4) (age := 3); [|reflexivity|exact sample_cache_reachable| |apply sample_node_ok].
  - intros b k v Hv. unfold sample_chain in Hv. apply list_elem_of_singleton in Hv as ->. reflexivity.
  - apply (bool_decide_unpack _). vm_compute. exact I.
Defined.

(** The fetch of the example: the values of the keys 1, cached, and 2, and none of key 3. *)
Example fetch_leaves_out_failed :
  exists m', fetch fst sample_set id (fun k => fetch_inner 1 (sample_answers 5 k)) [1; 2; 3] (Number 5) sample_cache
    = Ret ([(1, 5); (2, 5)], m').
Proof. eexists. vm_compute. reflexivity. Qed.
