(* ===== verification/GasPrices.v ===== *)
(** * GasPrices: what the driver and the services pay for gas

    [shared/src/gas_price_estimation] ([mod.rs], [priority.rs], [driver.rs], [eth_node.rs],
    [configurable_alloy.rs]), [driver/src/infra/blockchain/gas.rs] and the configuration of a
    mempool, [driver/src/infra/mempool/mod.rs].

    The answers of a node are arguments; [calc_effective_gas_price] and
    [eip1559_default_estimator] of the Ethereum library and the conversion of a float to a
    [U256], which panics on floats that are not in range, are parameters. *)

From stdpp Require Import base gmap sets list strings.
From Stdlib Require Import ZArith Lia.
From S2P Require Import Prelude Collections F64 Eth.

Open Scope Z_scope.
Open Scope rust_scope.

(** ** Estimates *)

(** The estimate of the Ethereum library; both fees are [u128]. *)
Record Eip1559Estimation := mkEip1559Estimation { max_fee_per_gas : Z; max_priority_fee_per_gas : Z }.

Definition estimate_ok (g : Eip1559Estimation) : Prop :=
  0 <= max_fee_per_gas g < 2 ^ 128 /\ 0 <= max_priority_fee_per_gas g < 2 ^ 128.

(** What an estimator answers. *)
Record GasPriceEstimating := mkGasPriceEstimating {
  ge_estimate : result string Eip1559Estimation;
  ge_base_fee : result string (option Z);
}.

Section effective.
Context (calc_effective_gas_price : Z -> Z -> option Z -> Z).

Definition effective_gas_price (e : GasPriceEstimating) : result string Z :=
  letr estimate := ge_estimate e in
  letr base_fee := ge_base_fee e in
  Ok (calc_effective_gas_price (max_fee_per_gas estimate) (max_priority_fee_per_gas estimate) base_fee).

Definition effective (g : Eip1559Estimation) (base_fee : Z) : Z :=
  calc_effective_gas_price (max_fee_per_gas g) (max_priority_fee_per_gas g) (Some base_fee).
End effective.

(** ** Trying estimators in order *)

(** The first answer wins; an estimator that fails is charged an error, the one that
    answers has its errors forgotten.  The second component are the counters. *)
Fixpoint prioritize {A} (estimators : list (result string A * Z)) : result string A * list Z :=
  match estimators with
  | [] => (Err "all gas estimators failed"%string, [])
  | (Ok result, _) :: rest => (Ok result, 0 :: rest.*2)
  | (Err _, errors) :: rest =>
      let '(r, counters) := prioritize rest in (r, (errors + 1) mod 2 ^ 64 :: counters)
  end.

Definition priority_estimate (estimators : list (GasPriceEstimating * Z)) : result string Eip1559Estimation * list Z :=
  prioritize ((fun e => (ge_estimate e.1, e.2)) <$> estimators).
Definition priority_base_fee (estimators : list (GasPriceEstimating * Z)) : result string (option Z) * list Z :=
  prioritize ((fun e => (ge_base_fee e.1, e.2)) <$> estimators).

(** ** The estimators *)
Definition node_estimate (get_gas_price : result string Z) : result string Eip1559Estimation :=
  letr legacy := get_gas_price in Ok (mkEip1559Estimation legacy legacy).

(** A block of the node, as far as its base fee is concerned; [None] when there is none. *)
Definition node_base_fee (block : result string (option (option Z))) : result string (option Z) :=
  letr block := block in ok_or block "fecthed block does not have header"%string.

Section configurable.
Context (eip1559_default_estimator : Z -> list (list Z) -> Eip1559Estimation).

Definition configurable_base_fee (block : result string (option (option Z))) : result string (option Z) :=
  letr block := block in Ok (let? header := block in header).

Definition latest_block_base_fee (block : result string (option (option Z))) : result string Z :=
  letr block := block in
  letr header := ok_or block "latest block not found"%string in
  ok_or header "base_fee_per_gas not available (eip1559 not supported)"%string.

(** [latest_base_fee] and [reward] are what the fee history answers. *)
Definition configurable_estimate (fee_history : result string (option Z * option (list (list Z))))
  (block : result string (option (option Z))) : result string Eip1559Estimation :=
  letr (latest_base_fee, reward) := fee_history in
  letr base_fee_per_gas :=
    match latest_base_fee with
    | Some base_fee => if negb (base_fee =? 0) then Ok base_fee else latest_block_base_fee block
    | None => latest_block_base_fee block
    end in
  Ok (eip1559_default_estimator base_fee_per_gas (default [] reward)).
End configurable.

(** *** The estimate of a driver, cached *)
Record CachedGasPrice := mkCachedGasPrice { cgp_price : Eip1559Estimation; cgp_timestamp : Z }.

(** In milliseconds. *)
Definition CACHE_DURATION : Z := 5000.

(** [started] and [finished] are the clock before and after the request; the cache is
    locked in between. *)
Definition driver_estimate (cache : option CachedGasPrice) (started finished : Z) (fetch : result string Eip1559Estimation)
  : result string Eip1559Estimation * option CachedGasPrice :=
  match cache with
  | Some cached =>
      if started - cgp_timestamp cached <? CACHE_DURATION then (Ok (cgp_price cached), cache)
      else match fetch with
           | Ok price => (Ok price, Some (mkCachedGasPrice price finished))
           | Err e => (Err e, cache)
           end
  | None =>
      match fetch with
      | Ok price => (Ok price, Some (mkCachedGasPrice price finished))
      | Err e => (Err e, cache)
      end
  end.

(** ** The driver's price *)
Inductive RevertProtection := Enabled | Disabled.

Record MempoolConfig := mkMempoolConfig {
  mc_min_priority_fee : Z;
  mc_gas_price_cap : Z;
  mc_name : string;
  mc_revert_protection : RevertProtection;
  mc_max_additional_tip : Z;
  mc_additional_tip_percentage : f64;
}.

Record GasPriceEstimator := mkGasPriceEstimator {
  gpe_additional_tip : Z * f64;
  gpe_max_fee_per_gas : Z;
  gpe_min_priority_fee : Z;
}.

Definition min_of (l : list Z) : option Z :=
  match l with [] => None | x :: l => Some (foldl Z.min x l) end.
Definition max_of (l : list Z) : option Z :=
  match l with [] => None | x :: l => Some (foldl Z.max x l) end.

Definition GasPriceEstimator_new (mempools : list MempoolConfig) : comp GasPriceEstimator :=
  let additional_tip :=
    match mempools with
    | mempool :: _ => (mc_max_additional_tip mempool, mc_additional_tip_percentage mempool)
    | [] => (0, f64_lit 0)
    end in
  let! max_fee_per_gas := expect (min_of (mc_gas_price_cap <$> mempools)) in
  let! min_priority_fee := expect (max_of (mc_min_priority_fee <$> mempools)) in
  Ret (mkGasPriceEstimator additional_tip max_fee_per_gas min_priority_fee).

Section price.
Context (u256_from_f64 : f64 -> comp Z).

Definition estimated_priority_fee (self : GasPriceEstimator) (estimate : Eip1559Estimation) : comp (result string Z) :=
  let '(max_additional_tip, tip_percentage_increase) := gpe_additional_tip self in
  let! bps := u256_from_f64 (f64_mul tip_percentage_increase (f64_lit 10000)) in
  Ret (letr product := ok_or (checked_mul (max_priority_fee_per_gas estimate) bps)
                         "overflow on multiplication (max_priority_fee_per_gas * tip_percentage_as_bps)"%string in
       let calculated_tip := product / 10000 in
       let additional_tip := Z.min max_additional_tip calculated_tip in
       Ok (Z.max (gpe_min_priority_fee self) (wrapping_add (max_priority_fee_per_gas estimate) additional_tip))).

Definition u128_try_from (x : Z) : result string Z :=
  if fits 128 x then Ok x else Err "out of range"%string.

Definition gas_price_estimate (self : GasPriceEstimator) (estimate : result string Eip1559Estimation)
  : comp (result string Eip1559Estimation) :=
  let!r estimate := Ret estimate in
  let!r max_priority_fee := estimated_priority_fee self estimate in
  Ret (let suggested := Z.max (max_fee_per_gas estimate) max_priority_fee in
       if gpe_max_fee_per_gas self <? suggested
       then Err "suggested gas price is higher than maximum allowed gas price (network is too congested)"%string
       else
         letr fee := u128_try_from suggested in
         letr tip := u128_try_from max_priority_fee in
         Ok (mkEip1559Estimation fee tip)).
End price.

(** ** Properties *)

(** The answer is that of the first estimator that has one, and every estimator is asked
    at most once: those after it keep their counters. *)
Lemma prioritize_spec {A} (estimators : list (result string A * Z)) :
  match prioritize estimators with
  | (Ok a, counters) => exists failed errors rest,
      estimators = failed ++ (Ok a, errors) :: rest /\ Forall (fun e => exists m, e.1 = Err m) failed /\
      counters = ((fun e => (e.2 + 1) mod 2 ^ 64) <$> failed) ++ 0 :: rest.*2
  | (Err _, counters) => Forall (fun e => exists m, e.1 = Err m) estimators /\
      counters = (fun e => (e.2 + 1) mod 2 ^ 64) <$> estimators
  end.
Proof.
  induction estimators as [|[[a|m] errors] rest IH]; cbn [prioritize]; [done| |].
  - by exists [], errors, rest.
  - destruct (prioritize rest) as [[a|m'] counters].
    + destruct IH as (failed & errors' & rest' & -> & Hf & ->). exists ((Err m, errors) :: failed), errors', rest'.
      split; [done|]. split; [constructor; eauto|done].
    + destruct IH as [Hf ->]. split; [constructor; eauto|done].
Qed.

(** A price from the cache is the one a request was answered with less than
    [CACHE_DURATION] ago, and requests are made at most once in that time. *)
Lemma driver_estimate_fresh cache started finished fetch r cache' :
  driver_estimate cache started finished fetch = (r, cache') ->
  match r with
  | Ok price =>
      (exists t, cache = Some (mkCachedGasPrice price t) /\ cache' = cache /\ started - t < CACHE_DURATION) \/
      (fetch = Ok price /\ cache' = Some (mkCachedGasPrice price finished) /\
       forall c, cache = Some c -> CACHE_DURATION <= started - cgp_timestamp c)
  | Err e => fetch = Err e /\ cache' = cache
  end.
Proof.
  unfold driver_estimate. destruct cache as [[price t]|].
  - cbn [cgp_timestamp cgp_price]. destruct (Z.ltb_spec (started - t) CACHE_DURATION).
    + intros [= <- <-]. left. eauto.
    + destruct fetch; intros [= <- <-]; [right|done]. split; [done|]. split; [done|]. by intros c [= <-].
  - destruct fetch; intros [= <- <-]; [right|done]. by repeat split.
Qed.

Lemma foldl_min_le (l : list Z) x : foldl Z.min x l <= x /\ Forall (fun y => foldl Z.min x l <= y) l.
Proof.
  revert x. induction l as [|y l IH]; intros x; cbn [foldl]; [split; [lia|constructor]|].
  destruct (IH (Z.min x y)) as [H1 H2]. split; [lia|]. constructor; [lia|done].
Qed.
Lemma foldl_max_le (l : list Z) x : x <= foldl Z.max x l /\ Forall (fun y => y <= foldl Z.max x l) l.
Proof.
  revert x. induction l as [|y l IH]; intros x; cbn [foldl]; [split; [lia|constructor]|].
  destruct (IH (Z.max x y)) as [H1 H2]. split; [lia|]. constructor; [lia|done].
Qed.

Lemma min_of_le l m : min_of l = Some m -> Forall (fun x => m <= x) l.
Proof. destruct l as [|x l]; [done|]. intros [= <-]. destruct (foldl_min_le l x). by constructor. Qed.
Lemma max_of_ge l m : max_of l = Some m -> Forall (fun x => x <= m) l.
Proof. destruct l as [|x l]; [done|]. intros [= <-]. destruct (foldl_max_le l x). by constructor. Qed.

(** The driver's price is at least the estimate and the tip every mempool asks for, covers
    its own tip, and stays below the caps of all mempools; the tip exceeds the estimated
    one by at most the configured surcharge. *)
Lemma gas_price_estimate_bounds u256_from_f64 mempools self estimate g :
  Forall (fun m => u256 (mc_max_additional_tip m)) mempools ->
  (forall x n, u256_from_f64 x = Ret n -> u256 n) ->
  GasPriceEstimator_new mempools = Ret self -> estimate_ok estimate ->
  gas_price_estimate u256_from_f64 self (Ok estimate) = Ret (Ok g) ->
  estimate_ok g /\ max_priority_fee_per_gas g <= max_fee_per_gas g /\
  max_fee_per_gas estimate <= max_fee_per_gas g /\
  max_priority_fee_per_gas estimate <= max_priority_fee_per_gas g /\
  Forall (fun m => max_fee_per_gas g <= mc_gas_price_cap m /\ mc_min_priority_fee m <= max_priority_fee_per_gas g) mempools /\
  max_priority_fee_per_gas g <=
    Z.max (gpe_min_priority_fee self) (max_priority_fee_per_gas estimate + (gpe_additional_tip self).1).
Proof.
  intros Htips Hf64 Hnew [Hfee Htip] Hg. unfold GasPriceEstimator_new in Hnew. rust_inv.
  match goal with H : min_of _ = Some _ |- _ => apply min_of_le in H as Hcap; rewrite Forall_fmap in Hcap end.
  match goal with H : max_of _ = Some _ |- _ => apply max_of_ge in H as Hmin; rewrite Forall_fmap in Hmin end.
  assert (0 <= (match mempools with mempool :: _ => (mc_max_additional_tip mempool, mc_additional_tip_percentage mempool)
                | [] => (0, f64_lit 0) end).1) as Hadd.
  { destruct mempools as [|m l]; [done|]. cbn. apply Forall_cons in Htips as [Hm _]. destruct Hm. lia. }
  destruct (match mempools with [] => _ | _ => _ end) as [tip pct]. cbn [fst] in Hadd |- *.
  unfold gas_price_estimate, estimated_priority_fee in Hg. cbn [gpe_additional_tip gpe_max_fee_per_gas gpe_min_priority_fee] in *.
  unfold u128_try_from in Hg. rust_inv. unfold fits in *. rust_inv. zify_bool.
  match goal with H : u256_from_f64 _ = Ret ?n |- _ => apply Hf64 in H as Hn; unfold u256 in Hn end.
  match goal with |- context [_ / 10000] => set (calc := _ / 10000) in * end.
  assert (0 <= calc <= U256_MAX / 10000) as Hcalc by (subst calc; split; [apply Z.div_pos; nia|apply Z.div_le_mono; lia]).
  assert (U256_MAX / 10000 < 2 ^ 254) as Hmax by (vm_compute; reflexivity).
  unfold wrapping_add in *. rewrite !Z.mod_small in * by lia. unfold estimate_ok. cbn [max_fee_per_gas max_priority_fee_per_gas].
  split_and!; try lia. apply Forall_forall. intros m Hm.
  rewrite Forall_forall in Hcap, Hmin. specialize (Hcap m Hm). specialize (Hmin m Hm). cbn in Hcap, Hmin. lia.
Qed.

(** The configured percentage is one of the estimated tip, not of the fee: without a tip
    there is no surcharge, whatever the fee. *)
Lemma surcharge_of_tip u256_from_f64 self fee g :
  gpe_min_priority_fee self = 0 -> 0 <= (gpe_additional_tip self).1 ->
  gas_price_estimate u256_from_f64 self (Ok (mkEip1559Estimation fee 0)) = Ret (Ok g) ->
  max_priority_fee_per_gas g = 0.
Proof.
  intros Hmin Hadd Hg. unfold gas_price_estimate, estimated_priority_fee in Hg. destruct (gpe_additional_tip self) as [tip pct].
  cbn [fst max_priority_fee_per_gas max_fee_per_gas] in *. unfold u128_try_from in Hg. rust_inv.
  rewrite Hmin, Z.min_r; done.
Qed.

Example surcharge_of_tip_example :
  gas_price_estimate (fun _ => Ret 500) (mkGasPriceEstimator (3000000000, f64_lit 1) 1000000000000 0)
    (Ok (mkEip1559Estimation 40000000000 0)) = Ret (Ok (mkEip1559Estimation 40000000000 0)) /\
  gas_price_estimate (fun _ => Ret 500) (mkGasPriceEstimator (3000000000, f64_lit 1) 1000000000000 0)
    (Ok (mkEip1559Estimation 40000000000 2000000000)) = Ret (Ok (mkEip1559Estimation 40000000000 2100000000)).
Proof. by vm_compute. Qed.
