(* ===== verification/Refunder.v ===== *)
(** * Refunder: refunding expired orders that sold ether

    [refunder/src/refund_service.rs], [submitter.rs], [traits.rs] and [infra/database.rs], the
    query [refundable_orders] of [database/src/ethflow_orders.rs] and the scaling of gas prices
    of [shared/src/gas_price_estimation/mod.rs].

    The state of the contracts, the answers of the node, the estimate of the gas price and
    the outcome of sending a transaction are parameters, as are the value of a quotient of
    the database as a float, the order in which a map is walked and the order in which
    concurrent queries complete. *)

From stdpp Require Import base gmap sets list strings.
From Stdlib Require Import ZArith Lia.
From S2P Require Import Prelude Collections F64 Eth Score DriverOrder OrderModel OrderCreation OrderQuoting OrdersDb GasPrices.

Open Scope Z_scope.
Open Scope rust_scope.

(** ** Orders the database offers for a refund *)
Record EthOrderPlacement := mkEthOrderPlacement { eop_uid : Z; eop_valid_to : Z }.

Section query.
(** [1.0 - o.buy_amount / GREATEST(oq.buy_amount, 1)] as a float. *)
Context (price_deviation : Z -> Z -> f64).

Definition refundable_row (d : Db) (since_valid_to min_validity_duration : Z) (min_price_deviation : f64)
  (created_after : option Z) (uid valid_to : Z) : bool :=
  match t_orders d !! uid, t_order_quotes d !! uid with
  | Some o, Some q =>
      let o := or_order o in
      negb (db_partially_fillable o)
      && (match created_after with Some t => t <=? db_creation_timestamp o | None => true end)
      && (db_sell_amount o =? dbq_sell_amount q)
      && (match pg_float_cmp (price_deviation (db_buy_amount o) (Z.max (dbq_buy_amount q) 1)) min_price_deviation with
          | Lt => false | _ => true end)
      && (valid_to <? since_valid_to)
      && (min_validity_duration <? valid_to - db_creation_timestamp o)
      && bool_decide (map_Forall (fun _ t => tr_order_uid t <> uid) (t_trades d))
      && bool_decide (t_ethflow_refunds d !! uid = None)
      && bool_decide (t_onchain_invalidations d !! uid = None)
  | _, _ => false
  end.

Definition refundable_orders (d : Db) (since_valid_to min_validity_duration : Z) (min_price_deviation : f64)
  (created_after : option Z) : list EthOrderPlacement :=
  (fun row => mkEthOrderPlacement row.1 row.2) <$>
    filter (fun row => refundable_row d since_valid_to min_validity_duration min_price_deviation created_after row.1 row.2 = true)
      (map_to_list (t_ethflow_orders d)).
End query.

(** ** The data of an order for its contract *)
Record EthFlowOrderData := mkEthFlowOrderData {
  efd_buy_token : address;
  efd_receiver : address;
  efd_sell_amount : Z;
  efd_buy_amount : Z;
  efd_app_data : Z;
  efd_fee_amount : Z;
  efd_valid_to : Z;
  efd_partially_fillable : bool;
  efd_quote_id : Z;
}.

Definition get_ethflow_order_data (d : Db) (uid : Z) : result string EthFlowOrderData :=
  letr order := ok_or (db_read_order uid d) "missing order"%string in
  letr ethflow_order := ok_or (read_ethflow_order uid d) "missing ethflow order"%string in
  letr receiver := ok_or (db_receiver order) "missing receiver"%string in
  letr sell_amount := ok_or (to_u256 (db_sell_amount order)) "invalid sell_amount"%string in
  letr buy_amount := ok_or (to_u256 (db_buy_amount order)) "invalid buy_amount"%string in
  letr fee_amount := ok_or (to_u256 (db_fee_amount order)) "invalid fee_amount"%string in
  Ok (mkEthFlowOrderData (db_buy_token order) receiver sell_amount buy_amount (db_app_data order) fee_amount
        (ethflow_order.1 mod 2 ^ 32) (db_partially_fillable order) 0).

(** ** Which orders are still to be refunded *)
Inductive RefundStatus := Refunded | NotYetRefunded (owner : address) | Invalid.

Definition NO_OWNER : address := 0.
Definition INVALIDATED_OWNER : address := 2 ^ 160 - 1.

(** The owner the contract has recorded for an order. *)
Definition RefundStatus_from (owner : address) : RefundStatus :=
  if owner =? NO_OWNER then Invalid else if owner =? INVALIDATED_OWNER then Refunded else NotYetRefunded owner.

(** What the service asks a node for. *)
Class ChainRead := {
  current_block_timestamp : result string Z;
  can_receive_eth : address -> bool;
  ethflow_addresses : list address;
  (** The owner of an order in a contract. *)
  contract_orders : address -> Z -> result string address;
}.

Section service.
Context `{ChainRead}.
Context (price_deviation : Z -> Z -> f64).
Context (walk : list (address * list Z) -> list (address * list Z)) (completed : list (result string EthFlowOrderData) -> list (result string EthFlowOrderData)).

Definition get_order_status (ethflow_address : address) (order_hash : Z) : result string RefundStatus :=
  if bool_decide (ethflow_address ∈ ethflow_addresses) then
    letr owner := contract_orders ethflow_address order_hash in Ok (RefundStatus_from owner)
  else Err "Unknown EthFlow contract"%string.

Definition extract_known_ethflow_address (placement : EthOrderPlacement) (known : list address) : option address :=
  let contract := Uid_owner (eop_uid placement) in
  if bool_decide (contract ∈ known) then Some contract else None.

Definition query_order_refund_status (placement : EthOrderPlacement) (contract : address) : option (Z * RefundStatus * address) :=
  let order_hash := (Uid_parts (eop_uid placement)).1.1 in
  match get_order_status contract order_hash with
  | Err _ => None
  | Ok (NotYetRefunded owner) =>
      Some (eop_uid placement, if can_receive_eth owner then NotYetRefunded owner else Invalid, contract)
  | Ok other => Some (eop_uid placement, other, contract)
  end.

Definition group_uid (m : gmap address (list Z)) (r : Z * RefundStatus * address) : gmap address (list Z) :=
  let '((uid, status), contract) := r in
  match status with
  | Refunded | Invalid => m
  | NotYetRefunded _ => <[contract := default [] (m !! contract) ++ [uid]]> m
  end.

Definition identify_uids_refunding_status (placements : list EthOrderPlacement) : gmap address (list Z) :=
  let known := ethflow_addresses in
  let placed := omap (fun p => (fun c => (p, c)) <$> extract_known_ethflow_address p known) placements in
  foldl group_uid ∅ (omap (fun '(p, c) => query_order_refund_status p c) placed).

(** ** Gas prices *)
Definition GAS_PRICE_BUFFER_PCT : Z := 30.
Definition GAS_PRICE_BUMP_PERMIL : Z := 125.

(** Arithmetic on [u128]; an overflow is a panic where overflows are checked. *)
Definition u128_mul (a b : Z) : comp Z := if a * b <? 2 ^ 128 then Ret (a * b) else Panic.

Definition scaled_by_pml (g : Eip1559Estimation) (pml : Z) : comp Eip1559Estimation :=
  let! fee := u128_mul (max_fee_per_gas g) (1000 + pml) in
  let! tip := u128_mul (max_priority_fee_per_gas g) (1000 + pml) in
  Ret (mkEip1559Estimation (fee / 1000) (tip / 1000)).

(** Scaling by a percentage is done by the library of the estimate. *)
Context (scaled_by_pct : Eip1559Estimation -> Z -> Eip1559Estimation).

Definition calculate_submission_gas_price (gas_price_of_last_submission : option Eip1559Estimation)
  (web3_gas_estimation : Eip1559Estimation) (newest_nonce : Z) (nonce_of_last_submission : option Z)
  (max_gas_price start_priority_fee_tip : Z) : comp Eip1559Estimation :=
  let scaled := scaled_by_pct web3_gas_estimation GAS_PRICE_BUFFER_PCT in
  let new_gas_price := mkEip1559Estimation (max_fee_per_gas scaled) (Z.min start_priority_fee_tip (max_fee_per_gas scaled)) in
  let! new_gas_price :=
    match gas_price_of_last_submission with
    | Some last =>
        if bool_decide (nonce_of_last_submission = Some newest_nonce) then
          let! last := scaled_by_pml last GAS_PRICE_BUMP_PERMIL in
          Ret (mkEip1559Estimation (Z.max (max_fee_per_gas new_gas_price) (max_fee_per_gas last))
                 (Z.max (max_priority_fee_per_gas new_gas_price) (max_priority_fee_per_gas last)))
        else Ret new_gas_price
    | None => Ret new_gas_price
    end in
  let fee := if max_gas_price <? max_fee_per_gas new_gas_price then Z.min max_gas_price (max_fee_per_gas new_gas_price)
             else max_fee_per_gas new_gas_price in
  Ret (mkEip1559Estimation fee (Z.min (max_priority_fee_per_gas new_gas_price) fee)).

(** ** Submitting *)
Record Submitter := mkSubmitter {
  gas_parameters_of_last_tx : option Eip1559Estimation;
  nonce_of_last_submission : option Z;
  max_gas_price : Z;
  start_priority_fee_tip : Z;
}.

(** What the node says while one batch is submitted; that the transaction was sent is all
    that matters, whether it is mined is only logged. *)
Record SubmitEnv := mkSubmitEnv {
  env_estimate : result string Eip1559Estimation;
  env_nonce : result string Z;
  env_sent : result string unit;
}.

Record RefundTx := mkRefundTx {
  tx_contract : address;
  tx_uids : list Z;
  tx_orders : list EthFlowOrderData;
  tx_gas_price : Eip1559Estimation;
  tx_nonce : Z;
}.

Definition submit_batch (env : SubmitEnv) (uids : list Z) (orders : list EthFlowOrderData) (contract : address) (s : Submitter)
  : comp (result string unit * Submitter * list RefundTx) :=
  match env_estimate env with
  | Err e => Ret (Err e, s, [])
  | Ok estimate =>
      match env_nonce env with
      | Err e => Ret (Err e, s, [])
      | Ok nonce =>
          let! gas_price := calculate_submission_gas_price (gas_parameters_of_last_tx s) estimate nonce
                              (nonce_of_last_submission s) (max_gas_price s) (start_priority_fee_tip s) in
          let s := mkSubmitter (Some gas_price) (Some nonce) (max_gas_price s) (start_priority_fee_tip s) in
          Ret (env_sent env, s, [mkRefundTx contract uids orders gas_price nonce])
      end
  end.

Definition MAX_NUMBER_OF_UIDS_PER_REFUND_TX : nat := 30.

(** An order whose data cannot be loaded is left out; a batch that cannot be sent ends the
    run. *)
Fixpoint send_batches (d : Db) (envs : nat -> SubmitEnv) (batches : list (address * list Z)) (s : Submitter)
  : comp (result string unit * Submitter * list RefundTx) :=
  match batches with
  | [] => Ret (Ok tt, s, [])
  | (contract, uids) :: batches =>
      let uids := take MAX_NUMBER_OF_UIDS_PER_REFUND_TX uids in
      let orders := omap ok (completed (get_ethflow_order_data d <$> uids)) in
      let! sent := submit_batch (envs 0%nat) uids orders contract s in
      let '(r, s, txs) := sent in
      match r with
      | Err e => Ret (Err e, s, txs)
      | Ok _ =>
          let! rest := send_batches d (fun i => envs (S i)) batches s in
          let '(r, s, more) := rest in Ret (r, s, txs ++ more)
      end
  end.

Definition send_out_refunding_tx (d : Db) (envs : nat -> SubmitEnv) (uids_by_contract : gmap address (list Z)) (s : Submitter)
  : comp (result string unit * Submitter * list RefundTx) :=
  send_batches d envs (walk (map_to_list uids_by_contract)) s.

Record RefundService := mkRefundService {
  rs_min_validity_duration : Z;
  rs_min_price_deviation_bps : Z;
  rs_created_after : option Z;
}.

Definition BASIS_POINT_DENOMINATOR : f64 := f64_lit 10000.

Definition get_refundable_ethflow_orders_from_db (service : RefundService) (d : Db) : result string (list EthOrderPlacement) :=
  letr block_time := current_block_timestamp in
  Ok (refundable_orders price_deviation d block_time (rs_min_validity_duration service)
        (f64_div (f64_lit (rs_min_price_deviation_bps service)) BASIS_POINT_DENOMINATOR) (rs_created_after service)).

Definition try_to_refund_all_eligible_orders (service : RefundService) (d : Db) (envs : nat -> SubmitEnv) (s : Submitter)
  : comp (result string unit * Submitter * list RefundTx) :=
  match get_refundable_ethflow_orders_from_db service d with
  | Err e => Ret (Err e, s, [])
  | Ok placements => send_out_refunding_tx d envs (identify_uids_refunding_status placements) s
  end.
End service.

(** ** Gas prices stay within the limit *)
Definition submitter_ok (s : Submitter) : Prop :=
  0 <= max_gas_price s < 2 ^ 64 /\ 0 <= start_priority_fee_tip s /\
  forall g, gas_parameters_of_last_tx s = Some g -> 0 <= max_priority_fee_per_gas g <= max_fee_per_gas g /\ max_fee_per_gas g <= max_gas_price s.

(** A transaction can only replace one of the same nonce when it pays an eighth more. *)
Definition bumps (limit : Z) (last g : Eip1559Estimation) : Prop :=
  (max_fee_per_gas last * 1125 / 1000 <= max_fee_per_gas g \/ max_fee_per_gas g = limit) /\
  (max_priority_fee_per_gas last * 1125 / 1000 <= max_priority_fee_per_gas g \/ max_priority_fee_per_gas g = max_fee_per_gas g).

Definition gas_ok (s : Submitter) (nonce : Z) (g : Eip1559Estimation) : Prop :=
  0 <= max_priority_fee_per_gas g <= max_fee_per_gas g /\ max_fee_per_gas g <= max_gas_price s /\
  (nonce_of_last_submission s = Some nonce -> forall last, gas_parameters_of_last_tx s = Some last -> bumps (max_gas_price s) last g).

Section gas.
Context (scaled_by_pct : Eip1559Estimation -> Z -> Eip1559Estimation).
Context (Hpct : forall g pct, 0 <= max_fee_per_gas (scaled_by_pct g pct)).

Lemma scaled_by_pml_Ret g : 0 <= max_priority_fee_per_gas g <= max_fee_per_gas g -> max_fee_per_gas g < 2 ^ 64 ->
  scaled_by_pml g GAS_PRICE_BUMP_PERMIL =
  Ret (mkEip1559Estimation (max_fee_per_gas g * 1125 / 1000) (max_priority_fee_per_gas g * 1125 / 1000)).
Proof.
  intros Hp Hf. unfold scaled_by_pml, u128_mul, GAS_PRICE_BUMP_PERMIL. change (1000 + 125) with 1125.
  rewrite !(proj2 (Z.ltb_lt _ _)) by lia. done.
Qed.

Lemma calculate_submission_gas_price_ok s estimate nonce :
  submitter_ok s ->
  returns (calculate_submission_gas_price scaled_by_pct (gas_parameters_of_last_tx s) estimate nonce (nonce_of_last_submission s)
             (max_gas_price s) (start_priority_fee_tip s)) (gas_ok s nonce).
Proof.
  intros (Hmax & Htip & Hlast). unfold calculate_submission_gas_price.
  set (fee := max_fee_per_gas (scaled_by_pct estimate GAS_PRICE_BUFFER_PCT)). assert (0 <= fee) as Hfee by apply Hpct.
  cbn [max_fee_per_gas max_priority_fee_per_gas].
  assert (forall f p, 0 <= f -> 0 <= p ->
    let fee := if max_gas_price s <? f then Z.min (max_gas_price s) f else f in
    fee = Z.min (max_gas_price s) f /\ 0 <= Z.min p fee <= fee /\ fee <= max_gas_price s) as Hcap.
  { intros f p Hf Hp. cbv zeta. destruct (Z.ltb_spec (max_gas_price s) f); lia. }
  destruct (gas_parameters_of_last_tx s) as [last|] eqn:El.
  - destruct (Hlast last eq_refl) as [Hp Hf]. case_bool_decide as Hn; cbn [comp_bind returns].
    + rewrite scaled_by_pml_Ret by (done || lia). cbn [comp_bind returns max_fee_per_gas max_priority_fee_per_gas].
      pose proof (Z.div_pos (max_priority_fee_per_gas last * 1125) 1000 ltac:(lia) ltac:(lia)).
      set (p1 := Z.max _ (max_priority_fee_per_gas last * 1125 / 1000)). set (f1 := Z.max fee _).
      destruct (Hcap f1 p1 ltac:(subst f1; lia) ltac:(subst p1; lia)) as (Heq & Hb & Hle).
      split; [done|]. split; [done|]. intros _ l Hl. rewrite El in Hl. injection Hl as <-. unfold bumps. cbn [max_fee_per_gas max_priority_fee_per_gas] in *.
      set (f2 := if _ <? _ then _ else _) in *. split; [|subst p1; lia]. rewrite Heq. subst f1. lia.
    + destruct (Hcap fee (Z.min (start_priority_fee_tip s) fee) Hfee ltac:(lia)) as (_ & Hb & Hle).
      split; [done|]. split; [done|]. by intros Hn'.
  - cbn [comp_bind returns]. destruct (Hcap fee (Z.min (start_priority_fee_tip s) fee) Hfee ltac:(lia)) as (_ & Hb & Hle).
    split; [done|]. split; [done|]. rewrite El. by intros _ l.
Qed.
End gas.

(** ** Only eligible orders are refunded *)
Section refunds.
Context `{ChainRead}.
Context (price_deviation : Z -> Z -> f64) (scaled_by_pct : Eip1559Estimation -> Z -> Eip1559Estimation).
Context (walk : list (address * list Z) -> list (address * list Z)) (completed : list (result string EthFlowOrderData) -> list (result string EthFlowOrderData)).
Context (Hpct : forall g pct, 0 <= max_fee_per_gas (scaled_by_pct g pct)).
Context (Hwalk : forall l, walk l ≡ₚ l) (Hcompleted : forall l, completed l ≡ₚ l).

(** The contract still owes the order's owner, who can be paid. *)
Definition owed (contract : address) (uid : Z) : Prop :=
  contract ∈ ethflow_addresses /\ Uid_owner uid = contract /\
  exists owner, contract_orders contract (Uid_parts uid).1.1 = Ok owner /\
    owner <> NO_OWNER /\ owner <> INVALIDATED_OWNER /\ can_receive_eth owner = true.

Lemma query_owed p contract uid owner c :
  extract_known_ethflow_address p ethflow_addresses = Some contract ->
  query_order_refund_status p contract = Some (uid, NotYetRefunded owner, c) -> uid = eop_uid p /\ owed c uid.
Proof.
  unfold extract_known_ethflow_address, query_order_refund_status, get_order_status.
  case_bool_decide as Hk; [|done]. intros [= <-]. rewrite bool_decide_eq_true_2 by done.
  destruct (contract_orders _ _) as [o|] eqn:Ho; [|done]. cbn [result_bind]. unfold RefundStatus_from.
  destruct (Z.eqb_spec o NO_OWNER); [done|]. destruct (Z.eqb_spec o INVALIDATED_OWNER); [done|].
  destruct (can_receive_eth o) eqn:Hc; [|done]. intros [= <- <- <-]. split; [done|]. split; [done|]. split; [done|]. by exists o.
Qed.

Lemma group_uids_spec (P : address -> Z -> Prop) l m :
  (forall uid owner c, (uid, NotYetRefunded owner, c) ∈ l -> P c uid) -> map_Forall (fun c uids => Forall (P c) uids) m ->
  map_Forall (fun c uids => Forall (P c) uids) (foldl group_uid m l).
Proof.
  revert m. induction l as [|[[uid status] c] l IH]; intros m Hl Hm; cbn [foldl]; [done|]. apply IH; [set_solver|].
  unfold group_uid. destruct status as [|owner|]; [done| |done]. apply map_Forall_insert_2; [|done].
  apply Forall_app. split; [|constructor; [|constructor]; apply (Hl uid owner c); left].
  destruct (m !! c) as [uids|] eqn:E; [by apply (Hm c)|constructor].
Qed.

Lemma identify_owed placements c uids :
  identify_uids_refunding_status placements !! c = Some uids ->
  Forall (fun uid => owed c uid /\ uid ∈ eop_uid <$> placements) uids.
Proof.
  unfold identify_uids_refunding_status. apply (group_uids_spec (fun c uid => owed c uid /\ uid ∈ eop_uid <$> placements)); [|apply map_Forall_empty].
  intros uid owner c' ([p c0] & Hp & Hq)%list_elem_of_omap. apply list_elem_of_omap in Hp as (p' & Hin & He).
  destruct (extract_known_ethflow_address p' _) as [c1|] eqn:E; [|done]. injection He as -> ->.
  destruct (query_owed _ _ _ _ _ E Hq) as [-> Ho]. split; [done|]. apply list_elem_of_fmap. eauto.
Qed.

(** A transaction that refunds eligible orders of one contract. *)
Record tx_ok (eligible : Z -> Prop) (d : Db) (tx : RefundTx) : Prop := {
  tx_size : (length (tx_uids tx) <= 30)%nat;
  tx_owed : Forall (fun uid => owed (tx_contract tx) uid /\ eligible uid) (tx_uids tx);
  tx_data : forall o, o ∈ tx_orders tx -> exists uid, uid ∈ tx_uids tx /\ get_ethflow_order_data d uid = Ok o;
  tx_complete : forall uid o, uid ∈ tx_uids tx -> get_ethflow_order_data d uid = Ok o -> o ∈ tx_orders tx;
}.

(** Each transaction respects the limit, and pays enough to replace the one before when
    that was not mined. *)
Fixpoint gas_chain (s : Submitter) (txs : list RefundTx) : Prop :=
  match txs with
  | [] => True
  | tx :: txs => gas_ok s (tx_nonce tx) (tx_gas_price tx) /\
      gas_chain (mkSubmitter (Some (tx_gas_price tx)) (Some (tx_nonce tx)) (max_gas_price s) (start_priority_fee_tip s)) txs
  end.

Lemma gas_ok_submitter s nonce g : submitter_ok s -> gas_ok s nonce g ->
  submitter_ok (mkSubmitter (Some g) (Some nonce) (max_gas_price s) (start_priority_fee_tip s)).
Proof. intros (Hm & Ht & _) (Hp & Hf & _). split; [done|]. split; [done|]. by intros ? [= <-]. Qed.

Lemma send_batches_ok (eligible : Z -> Prop) d envs batches s :
  submitter_ok s -> Forall (fun b => Forall (fun uid => owed b.1 uid /\ eligible uid) b.2) batches ->
  returns (send_batches completed scaled_by_pct d envs batches s) (fun r =>
    Forall (tx_ok eligible d) r.2 /\ gas_chain s r.2 /\ sublist (tx_contract <$> r.2) batches.*1).
Proof.
  intros Hs Hb. revert envs s Hs. induction Hb as [|[c uids] batches Hu Hb IH]; intros envs s Hs; cbn [send_batches].
  { cbn. split; [constructor|]. split; [done|constructor]. }
  unfold submit_batch. destruct (env_estimate (envs 0%nat)) as [estimate|]; cbn [comp_bind returns snd]; [|by split; [constructor|split; [done|apply sublist_nil_l]]].
  destruct (env_nonce (envs 0%nat)) as [nonce|]; cbn [comp_bind returns snd]; [|by split; [constructor|split; [done|apply sublist_nil_l]]].
  destruct (returns_inv _ _ (calculate_submission_gas_price_ok scaled_by_pct Hpct s estimate nonce Hs)) as (g & -> & Hg).
  cbn [comp_bind]. set (s' := mkSubmitter _ _ _ _). set (tx := mkRefundTx _ _ _ _ _).
  assert (tx_ok eligible d tx) as Htx.
  { split; cbn [tx tx_uids tx_orders tx_contract].
    - rewrite length_take. unfold MAX_NUMBER_OF_UIDS_PER_REFUND_TX. lia.
    - by apply Forall_take.
    - intros o (r & Hr & Hok)%list_elem_of_omap. rewrite Hcompleted in Hr. apply list_elem_of_fmap in Hr as (uid & -> & Hin).
      exists uid. split; [done|]. by apply ok_Some in Hok.
    - intros uid o Hin Ho. apply list_elem_of_omap. exists (Ok o). split; [|done]. rewrite Hcompleted. apply list_elem_of_fmap. eauto. }
  destruct (env_sent (envs 0%nat)) as [[]|e]; cbn [comp_bind returns snd].
  - pose proof (IH (fun i => envs (S i)) s' (gas_ok_submitter s nonce g Hs Hg)) as Hrest.
    destruct (send_batches _ _ _ _ batches s') as [[[r s''] more]|]; [|done]. cbn [comp_bind returns snd] in *.
    destruct Hrest as (H1 & H2 & H3). split; [by constructor|]. split; [done|]. by constructor.
  - split; [by constructor; [|constructor]|]. split; [done|]. cbn. constructor. apply sublist_nil_l.
Qed.

(** What the database knows of an order that is refunded: it is expired and had time to be
    filled, is fill or kill, was quoted for what it sells, and was neither traded, refunded
    nor invalidated. *)
Definition eligible (d : Db) (block_time min_validity_duration : Z) (uid : Z) : Prop :=
  exists valid_to o q, t_ethflow_orders d !! uid = Some valid_to /\ t_orders d !! uid = Some o /\ t_order_quotes d !! uid = Some q /\
    valid_to < block_time /\ min_validity_duration < valid_to - db_creation_timestamp (or_order o) /\
    db_partially_fillable (or_order o) = false /\ db_sell_amount (or_order o) = dbq_sell_amount q /\
    (forall k t, t_trades d !! k = Some t -> tr_order_uid t <> uid) /\
    t_ethflow_refunds d !! uid = None /\ t_onchain_invalidations d !! uid = None.

Lemma refundable_orders_eligible d block_time min_validity min_deviation created_after uid :
  uid ∈ eop_uid <$> refundable_orders price_deviation d block_time min_validity min_deviation created_after ->
  eligible d block_time min_validity uid.
Proof.
  unfold refundable_orders. intros (p & -> & Hp)%list_elem_of_fmap. apply list_elem_of_fmap in Hp as ([u vt] & -> & Hp).
  apply list_elem_of_filter in Hp as [Hrow Hin%elem_of_map_to_list]. cbn [eop_uid fst snd] in *. unfold refundable_row in Hrow.
  destruct (t_orders d !! u) as [o|] eqn:Ho; [|done]. destruct (t_order_quotes d !! u) as [q|] eqn:Hq; [|done].
  repeat (apply andb_true_iff in Hrow as [Hrow ?]). exists vt, o, q.
  repeat match goal with
         | H : bool_decide _ = true |- _ => apply bool_decide_eq_true in H
         | H : (_ <? _) = true |- _ => apply Z.ltb_lt in H
         | H : (_ =? _) = true |- _ => apply Z.eqb_eq in H
         | H : negb _ = true |- _ => apply negb_true_iff in H
         end.
  split_and!; try done.
Qed.

(** C27 (safety): the refunder never panics, and every transaction it sends refunds at most 30
    orders of one contract, at most one transaction for each contract.  Each order is expired, was
    placed long enough before, and was neither traded, refunded nor invalidated as far as the
    database knows; the contract still owes its owner, who can receive ether.  The gas price
    never exceeds the configured limit, and replaces a transaction that was not mined with
    the increase nodes ask for, up to that limit. *)
Theorem refunds_only_eligible service d envs s :
  submitter_ok s ->
  exists r s' txs,
    try_to_refund_all_eligible_orders price_deviation walk completed scaled_by_pct service d envs s = Ret (r, s', txs) /\
    gas_chain s txs /\ NoDup (tx_contract <$> txs) /\
    forall tx, tx ∈ txs -> exists block_time, current_block_timestamp = Ok block_time /\
      tx_ok (eligible d block_time (rs_min_validity_duration service)) d tx.
Proof.
  intros Hs. unfold try_to_refund_all_eligible_orders, get_refundable_ethflow_orders_from_db.
  destruct current_block_timestamp as [block_time|e]; cbn [result_bind].
  2:{ do 3 eexists. split; [done|]. split; [done|]. split; [constructor|]. by intros tx ?%elem_of_nil. }
  set (placements := refundable_orders _ _ _ _ _ _). unfold send_out_refunding_tx.
  set (m := identify_uids_refunding_status placements). set (min := rs_min_validity_duration service).
  assert (Forall (fun b => Forall (fun uid => owed b.1 uid /\ eligible d block_time min uid) b.2) (walk (map_to_list m))) as Hall.
  { apply Forall_forall. intros [c uids] Hin. rewrite Hwalk, elem_of_map_to_list in Hin. cbn [fst snd].
    eapply Forall_impl; [exact (identify_owed placements c uids Hin)|]. intros uid [Ho Hu]. split; [done|].
    by eapply refundable_orders_eligible. }
  destruct (returns_inv _ _ (send_batches_ok (eligible d block_time min) d envs _ s Hs Hall)) as ([[r s'] txs] & Hrun & Htx & Hg & Hsub).
  exists r, s', txs. split; [done|]. split; [done|]. cbn [snd] in *. split.
  - eapply sublist_NoDup; [|exact Hsub]. rewrite Hwalk. apply NoDup_fst_map_to_list.
  - intros tx Hin. exists block_time. split; [done|]. rewrite Forall_forall in Htx. by apply Htx.
Qed.
End refunds.

(** ** Example *)
Definition sample_uid : Z := Uid_from_parts 5 11 (2 ^ 32 - 1).
Definition sample_db_order : DbOrder :=
  mkDbOrder sample_uid 11 0 3 7 (Some 9) 1000 400 (2 ^ 32 - 1) 0 0 Sell false [] Eip1271 1 SellErc20 BuyErc20 None ClassMarket.
Definition sample_refund_db : Db :=
  mkDb {[ sample_uid := mkOrderRow sample_db_order 100 ]} ∅
    {[ sample_uid := mkDbOrderQuote sample_uid (f64_lit 1) (f64_lit 1) (f64_lit 1) 1000 500 2 false EmptyString ]}
    ∅ ∅ ∅ ∅ {[ sample_uid := 100 ]} ∅ ∅ ∅ ∅ [] [].

#[local] Instance sample_chain : ChainRead := {
  current_block_timestamp := Ok 200;
  can_receive_eth _ := true;
  ethflow_addresses := [11];
  contract_orders _ hash := if hash =? 5 then Ok 42 else Err "reverted"%string;
}.

Definition sample_deviation (buy quoted : Z) : f64 := f64_sub (f64_lit 1) (f64_div (f64_lit buy) (f64_lit quoted)).
Definition sample_pct (g : Eip1559Estimation) (pct : Z) : Eip1559Estimation :=
  mkEip1559Estimation (Z.max 0 (max_fee_per_gas g * (100 + pct) / 100)) (max_priority_fee_per_gas g * (100 + pct) / 100).
Definition sample_service : RefundService := mkRefundService 60 100 None.
Definition sample_submitter : Submitter := mkSubmitter (Some (mkEip1559Estimation 100 10)) (Some 3) 1000 20.
Definition sample_envs (_ : nat) : SubmitEnv := mkSubmitEnv (Ok (mkEip1559Estimation 50 5)) (Ok 3) (Ok tt).

(** The transaction that was not mined is replaced at 112.5 percent of its price. *)
Example refund_example :
  (let! r := try_to_refund_all_eligible_orders sample_deviation id id sample_pct sample_service sample_refund_db sample_envs sample_submitter in
   Ret ((fun tx => (tx_contract tx, tx_uids tx, length (tx_orders tx), max_fee_per_gas (tx_gas_price tx), max_priority_fee_per_gas (tx_gas_price tx))) <$> r.2))
  = Ret [(11, [sample_uid], 1%nat, 112, 20)].
Proof. vm_compute. reflexivity. Qed.

Lemma refunds_only_eligible_witness :
  exists r s' txs,
    try_to_refund_all_eligible_orders sample_deviation id id sample_pct sample_service sample_refund_db sample_envs sample_submitter = Ret (r, s', txs) /\
    gas_chain sample_submitter txs /\ NoDup (tx_contract <$> txs) /\
    forall tx, tx ∈ txs -> exists block_time, current_block_timestamp = Ok block_time /\
      tx_ok (eligible sample_refund_db block_time 60) sample_refund_db tx.
Proof.
  apply (refunds_only_eligible sample_deviation sample_pct id id); [|reflexivity|reflexivity|].
  - intros g pct. simpl. lia.
  - split; [simpl; lia|]. split; [simpl; lia|]. intros g [= <-]. simpl. lia.
Defined.
