(* ===== verification/RunLoop.v ===== *)
(** * RunLoop: the autopilot's main loop

    [crates/autopilot/src/run_loop.rs] and [leader_lock_tracker.rs], with the writes of
    [crates/autopilot/src/infra/persistence/mod.rs] and [database/competition.rs] they call and
    the queries of [crates/database/src/{auction,settlements,settlement_executions,
    solver_competition_v2,leader_pg_lock}.rs].

    An iteration cuts an auction out of the cached orders, collects the bids of the drivers,
    ranks them, stores the outcome and starts the settlement of every winner as a background
    task, which is [settle].  What comes from outside an iteration, the blocks, the answers of
    the drivers and of the node, and whether a query or a write succeeds, is in [RunEnv].
    The random order of the bids is the parameter [shuffle].  Order events are written by
    background tasks; they are recorded in the order they are sent off.  Metrics that are only
    written are left out, but for the gauge of the leader. *)

From stdpp Require Import base gmap sets list strings.
From Stdlib Require Import ZArith Lia SpecFloat.
From S2P Require Import Prelude Collections F64 Eth Solution Dto Score Arbitrator DriverOrder AutopilotBids CompetitionStore.
From S2P Require Import OrderModel OrderCreation OrdersDb SolvableOrders AutopilotFee AuctionBuilding.

Open Scope Z_scope.
Open Scope rust_scope.

(** ** The tables the loop writes *)
Record AuctionRow := mkAuctionRow {
  ar_block : Z;
  ar_deadline : Z;
  ar_order_uids : list Z;
  ar_price_tokens : list address;
  ar_price_values : list BigDecimal;
  ar_surplus_capturing_jit_order_owners : list address;
}.

Record SettlementRow := mkSettlementRow {
  sr_block_number : Z;
  sr_log_index : Z;
  sr_solver : address;
  sr_tx_hash : Z;
  sr_auction_id : option Z;
  sr_solution_uid : option Z;
}.

Record ExecutionRow := mkExecutionRow {
  er_start_timestamp : Z;
  er_start_block : Z;
  er_deadline_block : Z;
  er_end : option (Z * Z * string);
}.

(** [model::solver_competition]. *)
Record CompetitionOrder := mkCompetitionOrder { co_id : Z; co_sell_amount : Z; co_buy_amount : Z }.
Record SolverSettlement := mkSolverSettlement {
  ss_solver : string;
  ss_solver_address : address;
  ss_score : option Z;
  ss_ranking : Z;
  ss_clearing_prices : gmap address Z;
  ss_orders : list CompetitionOrder;
  ss_is_winner : bool;
  ss_filtered_out : bool;
}.
Record CompetitionAuction := mkCompetitionAuction { cau_orders : list Z; cau_prices : gmap address Z }.
Record SolverCompetitionDB := mkSolverCompetitionDB {
  scd_auction_start_block : Z;
  scd_competition_simulation_block : Z;
  scd_auction : CompetitionAuction;
  scd_solutions : list SolverSettlement;
}.

Record RunDb := mkRunDb {
  rd_auction_sequence : Z;
  rd_current_auction : option (Z * RawAuctionData);
  rd_auctions : gmap Z AuctionRow;
  rd_competition : CompetitionDb;
  rd_reference_scores : gmap (Z * address) BigDecimal;
  rd_auction_prices : gmap (Z * address) BigDecimal;
  rd_solver_competitions : gmap Z SolverCompetitionDB;
  rd_jit_order_owners : gmap Z (list address);
  rd_fee_policies : list FeePolicyRow;
  rd_settlements : list SettlementRow;
  rd_executions : gmap (Z * address * Z) ExecutionRow;
}.

(** [INSERT]: a key that is there is an error. *)
Definition insert_unique {K V} `{Countable K} (rows : list (K * V)) (m : gmap K V) : option (gmap K V) :=
  foldl (fun acc e => let? m := acc in match m !! e.1 with Some _ => None | None => Some (<[e.1 := e.2]> m) end)
    (Some m) rows.

Definition i64_try_from (x : Z) : option Z := if x <? 2 ^ 63 then Some x else None.
Definition cast_signed (x : Z) : Z := if x <? 2 ^ 63 then x else x - 2 ^ 64.

(** ** Auctions *)
Record Auction := mkAuction {
  au_id : Z;
  au_block : Z;
  au_orders : list DomainOrder;
  au_prices : gmap address Z;
  au_surplus_capturing_jit_order_owners : list address;
}.

Definition policy_eqb (p q : Score.FeePolicy) : bool :=
  let quote_key q := (Score.quote_sell_amount q, Score.quote_buy_amount q, Score.quote_fee q, Score.quote_solver q) in
  match p, q with
  | Score.Surplus f m, Score.Surplus f' m' => SFeqb f f' && SFeqb m m'
  | Score.PriceImprovement f m q, Score.PriceImprovement f' m' q' =>
      SFeqb f f' && SFeqb m m' && bool_decide (quote_key q = quote_key q')
  | Score.Volume f, Score.Volume f' => SFeqb f f'
  | _, _ => false
  end.

Fixpoint list_eqb {A} (eqb : A -> A -> bool) (l k : list A) : bool :=
  match l, k with
  | [], [] => true
  | x :: l, y :: k => eqb x y && list_eqb eqb l k
  | _, _ => false
  end.

#[export] Instance Ecdsa_eq_dec : EqDecision Ecdsa.
Proof. solve_decision. Defined.
#[export] Instance OrderSignature_eq_dec : EqDecision OrderSignature.
Proof. solve_decision. Defined.
#[export] Instance DomainQuote_eq_dec : EqDecision DomainQuote.
Proof. solve_decision. Defined.
#[export] Instance ScoreSide_eq_dec : EqDecision Score.Side.
Proof. solve_decision. Defined.

(** The derived equality of [Order]. *)
Definition order_eqb (o p : DomainOrder) : bool :=
  (do_uid o =? do_uid p) && bool_decide (do_sell o = do_sell p) && bool_decide (do_buy o = do_buy p)
  && list_eqb policy_eqb (do_protocol_fees o) (do_protocol_fees p) && bool_decide (do_side o = do_side p)
  && (do_created o =? do_created p) && (do_valid_to o =? do_valid_to p)
  && bool_decide (do_receiver o = do_receiver p) && (do_owner o =? do_owner p)
  && Bool.eqb (do_partially_fillable o) (do_partially_fillable p) && (do_executed o =? do_executed p)
  && bool_decide (do_pre_interactions o = do_pre_interactions p)
  && bool_decide (do_post_interactions o = do_post_interactions p)
  && bool_decide (do_sell_token_balance o = do_sell_token_balance p)
  && bool_decide (do_buy_token_balance o = do_buy_token_balance p) && (do_app_data o =? do_app_data p)
  && bool_decide (do_signature o = do_signature p) && bool_decide (do_quote o = do_quote p).

(** [Auction::eq] does not look at the id. *)
Definition auction_eqb (a b : Auction) : bool :=
  (au_block a =? au_block b) && list_eqb order_eqb (au_orders a) (au_orders b)
  && bool_decide (au_prices a = au_prices b)
  && bool_decide (au_surplus_capturing_jit_order_owners a = au_surplus_capturing_jit_order_owners b).

(** ** Queries *)

(** [settlements::find_settlement_transaction]. *)
Definition find_settlement_transaction (auction_id : Z) (solver : address) (solution_uid : Z) (db : RunDb) : option Z :=
  sr_tx_hash <$> List.find (fun s => bool_decide (sr_auction_id s = Some auction_id) && (sr_solver s =? solver)
                               && bool_decide (sr_solution_uid s = Some solution_uid)) (rd_settlements db).

Definition set_settlements (x : list SettlementRow) (db : RunDb) : RunDb :=
  mkRunDb (rd_auction_sequence db) (rd_current_auction db) (rd_auctions db) (rd_competition db) (rd_reference_scores db)
    (rd_auction_prices db) (rd_solver_competitions db) (rd_jit_order_owners db) (rd_fee_policies db) x (rd_executions db).

Definition get_settlements_without_auction (db : RunDb) : list (Z * Z * Z) :=
  (fun s => (sr_block_number s, sr_log_index s, sr_tx_hash s)) <$>
    sort_by (cmp_on sr_block_number Z.compare) (filter (fun s => sr_auction_id s = None) (rd_settlements db)).

Definition at_event (block_number log_index : Z) (s : SettlementRow) : bool :=
  (sr_block_number s =? block_number) && (sr_log_index s =? log_index).

Definition update_settlement_auction (block_number log_index auction_id : Z) (db : RunDb) : RunDb :=
  set_settlements ((fun s => if at_event block_number log_index s
                             then mkSettlementRow (sr_block_number s) (sr_log_index s) (sr_solver s) (sr_tx_hash s)
                                    (Some auction_id) (sr_solution_uid s)
                             else s) <$> rd_settlements db) db.

Definition update_settlement_solver (block_number log_index : Z) (solver : address) (solution_uid : Z) (db : RunDb) : RunDb :=
  set_settlements ((fun s => if at_event block_number log_index s
                             then mkSettlementRow (sr_block_number s) (sr_log_index s) solver (sr_tx_hash s)
                                    (sr_auction_id s) (Some solution_uid)
                             else s) <$> rd_settlements db) db.

(** [NOT EXISTS (SELECT 1 FROM settlements ...)]. *)
Definition is_settled (db : RunDb) (auction_id solution_uid : Z) : bool :=
  existsb (fun s => bool_decide (sr_auction_id s = Some auction_id) && bool_decide (sr_solution_uid s = Some solution_uid))
    (rd_settlements db).

(** [solver_competition_v2::fetch_in_flight_orders]. *)
Definition fetch_in_flight_orders (current_block : Z) (db : RunDb) : gset Z :=
  list_to_set (omap (fun e : Z * Z * Z * (BigDecimal * BigDecimal) =>
    let '(auction_id, solution_uid, order_uid) := e.1 in
    let? ca := rd_auctions db !! auction_id in
    let? ps := proposed_solutions (rd_competition db) !! (auction_id, solution_uid) in
    if (current_block <? ar_deadline ca) && se_is_winner ps && negb (is_settled db auction_id solution_uid)
    then Some order_uid else None) (map_to_list (proposed_trade_executions (rd_competition db)))).

(** [settlement_executions::insert] and [update]. *)
Definition set_executions (x : gmap (Z * address * Z) ExecutionRow) (db : RunDb) : RunDb :=
  mkRunDb (rd_auction_sequence db) (rd_current_auction db) (rd_auctions db) (rd_competition db) (rd_reference_scores db)
    (rd_auction_prices db) (rd_solver_competitions db) (rd_jit_order_owners db) (rd_fee_policies db) (rd_settlements db) x.

Definition store_settlement_execution_started (auction_id : Z) (solver : address) (solution_uid start_timestamp start_block deadline_block : Z)
  (db : RunDb) : option RunDb :=
  let? uid := i64_try_from solution_uid in
  let? start_block := i64_try_from start_block in
  let? deadline_block := i64_try_from deadline_block in
  let? x := insert_unique [((auction_id, solver, uid), mkExecutionRow start_timestamp start_block deadline_block None)]
              (rd_executions db) in
  Some (set_executions x db).

Definition store_settlement_execution_ended (auction_id : Z) (solver : address) (solution_uid end_timestamp end_block : Z)
  (outcome : string) (db : RunDb) : option RunDb :=
  let? uid := i64_try_from solution_uid in
  let? end_block := i64_try_from end_block in
  Some (set_executions
          (alter (fun r => mkExecutionRow (er_start_timestamp r) (er_start_block r) (er_deadline_block r)
                             (Some (end_timestamp, end_block, outcome)))
             (auction_id, solver, uid) (rd_executions db)) db).

(** ** Cutting an auction *)
Definition remove_in_flight_orders (query_ok : bool) (db : RunDb) (auction : RawAuctionData) : RawAuctionData :=
  let in_flight := if query_ok then fetch_in_flight_orders (cast_signed (rad_block auction)) db else ∅ in
  if bool_decide (in_flight = ∅) then auction
  else mkRawAuctionData (rad_block auction)
         (filter (fun o => do_uid o ∉ in_flight) (rad_orders auction)) (rad_prices auction)
         (filter (fun owner => existsb (fun i => OrderUid_owner i =? owner) (elements in_flight) = false)
            (rad_surplus_capturing_jit_order_owners auction)).

Definition get_next_auction_id (db : RunDb) : Z * RunDb :=
  let id := rd_auction_sequence db + 1 in
  (id, mkRunDb id (rd_current_auction db) (rd_auctions db) (rd_competition db) (rd_reference_scores db) (rd_auction_prices db)
         (rd_solver_competitions db) (rd_jit_order_owners db) (rd_fee_policies db) (rd_settlements db) (rd_executions db)).

(** [auction::insert_auction_with_id]: the table only has the last auction. *)
Definition replace_current_auction (id : Z) (auction : RawAuctionData) (db : RunDb) : RunDb :=
  mkRunDb (rd_auction_sequence db) (Some (id, auction)) (rd_auctions db) (rd_competition db) (rd_reference_scores db)
    (rd_auction_prices db) (rd_solver_competitions db) (rd_jit_order_owners db) (rd_fee_policies db) (rd_settlements db)
    (rd_executions db).

(** Whether the queries of an iteration answer. *)
Record CutEnv := mkCutEnv { ce_in_flight : bool; ce_next_id : bool; ce_upload : bool }.

Definition cut_auction (env : CutEnv) (cache : CacheState) (db : RunDb) : option Auction * RunDb :=
  match current_auction cache with
  | None => (None, db)
  | Some auction =>
      let auction := remove_in_flight_orders (ce_in_flight env) db auction in
      if ce_next_id env then
        let '(id, db) := get_next_auction_id db in
        let db := if ce_upload env then replace_current_auction id auction db else db in
        match rad_orders auction with
        | [] => (None, db)
        | orders => (Some (mkAuction id (rad_block auction) orders (rad_prices auction)
                             (rad_surplus_capturing_jit_order_owners auction)), db)
        end
      else (None, db)
  end.

(** The previous auction is replaced in any case, the previous block only when the
    auctions are equal. *)
Definition next_auction (env : CutEnv) (cache : CacheState) (start_hash : Z) (prev_auction : option Auction)
  (prev_block : option Z) (db : RunDb) : option Auction * option Auction * option Z * RunDb :=
  match cut_auction env cache db with
  | (None, db) => (None, prev_auction, prev_block, db)
  | (Some auction, db) =>
      if match prev_auction with Some p => auction_eqb p auction | None => false end
      then (if bool_decide (prev_block = Some start_hash) then None else Some auction, Some auction, Some start_hash, db)
      else (Some auction, Some auction, prev_block, db)
  end.

(** ** The drivers' solutions *)
Record Driver := mkDriver { drv_name : string; drv_submission_address : address }.

Inductive SolveError := SolveTimeout | NoSolutions | SolveFailure (e : string) | SolveDenyListed.

(** What a driver and the authenticator answered: whether in time, whether the task
    finished, whether the driver is an allowed solver, and its response. *)
Record SolveAnswer := mkSolveAnswer {
  sa_in_time : bool;
  sa_joined : result string unit;
  sa_can_participate : result string bool;
  sa_response : result string (list SolutionDto);
}.

Definition try_solve (answer : SolveAnswer) : result SolveError (list (result BidError BidSolution)) :=
  if negb (sa_in_time answer) then Err SolveTimeout
  else match sa_joined answer with
  | Err e => Err (SolveFailure e)
  | Ok _ =>
      match sa_can_participate answer, sa_response answer with
      | Ok true, Ok [] => Err NoSolutions
      | Ok true, Ok solutions => Ok (Response_into_domain solutions)
      | Ok false, _ => Err SolveDenyListed
      | Err _, _ => Err SolveDenyListed
      | Ok true, Err e => Err (SolveFailure e)
      end
  end.

Definition solve (driver : Driver) (answer : SolveAnswer) : list (Bid Unscored) :=
  let solutions := match try_solve answer with Ok solutions => solutions | Err _ => [] end in
  omap (fun solution => match solution with
                        | Ok solution => Some (Bid_new solution (drv_name driver))
                        | Err _ => None
                        end) solutions.

(** The closure of [retain], with its counter. *)
Definition keep_bid (max_solutions_per_solver : nat) (acc : gmap string nat * list (Bid Unscored))
  (e : Driver * Bid Unscored) : gmap string nat * list (Bid Unscored) :=
  let '(counter, kept) := acc in
  let '(driver, bid) := e in
  if bs_solver (bid_solution bid) =? drv_submission_address driver then
    let count := S (default O (counter !! drv_name driver)) in
    (<[drv_name driver := count]> counter,
     if bool_decide (count <= max_solutions_per_solver)%nat then kept ++ [bid] else kept)
  else acc.

Definition retain_bids (max_solutions_per_solver : nat) (bids : list (Driver * Bid Unscored)) : list (Bid Unscored) :=
  (foldl (keep_bid max_solutions_per_solver) (∅, []) bids).2.

Definition fetch_solutions (shuffle : list (Bid Unscored) -> list (Bid Unscored)) (max_solutions_per_solver : nat)
  (drivers : list Driver) (answer : Driver -> SolveAnswer) : list (Bid Unscored) :=
  shuffle (retain_bids max_solutions_per_solver
             (drivers ≫= fun driver => pair driver <$> solve driver (answer driver))).

(** ** Post-processing *)
Definition order_ids {St} (b : Bid St) : list Z := (map_to_list (bs_orders (bid_solution b))).*1.

Definition unique (l : list Z) : list Z := foldl (fun acc x => if bool_decide (x ∈ acc) then acc else acc ++ [x]) [] l.

Definition auction_for_bids (a : Auction) : BidAuction :=
  mkBidAuction ((fun o => mkAuctionOrder (do_uid o) (do_protocol_fees o)) <$> au_orders a) (au_prices a)
    (au_surplus_capturing_jit_order_owners a).

Definition fee_policies_of (auction : Auction) (ranking : BidRanking) : list (Z * list Score.FeePolicy) :=
  let order_lookup : gmap Z DomainOrder := foldl (fun m o => <[do_uid o := o]> m) ∅ (au_orders auction) in
  omap (fun id => (fun o => (do_uid o, do_protocol_fees o)) <$> order_lookup !! id)
    (unique (br_ranked ranking ≫= order_ids)).

Definition is_filtered_out (b : Bid Ranked) : bool :=
  match ranked_rank_type (bid_state b) with FilteredOut => true | _ => false end.

Definition solver_settlement (e : nat * Bid Ranked) : SolverSettlement :=
  let '(index, bid) := e in
  mkSolverSettlement (bid_driver bid) (bs_solver (bid_solution bid)) (Some (ranked_score (bid_state bid)))
    (Z.of_nat index + 1) (bs_prices (bid_solution bid))
    ((fun o => mkCompetitionOrder o.1 (to_executed_sell o.2) (to_executed_buy o.2)) <$> map_to_list (bs_orders (bid_solution bid)))
    (bid_is_winner bid) (is_filtered_out bid).

(** The table goes from the worst solution to the best. *)
Definition competition_table (auction : Auction) (competition_simulation_block : Z) (ranking : BidRanking)
  : SolverCompetitionDB :=
  mkSolverCompetitionDB (au_block auction) competition_simulation_block
    (mkCompetitionAuction (do_uid <$> au_orders auction) (au_prices auction))
    (rev (solver_settlement <$> br_enumerated ranking)).

(** [Persistence::save_auction]. *)
Definition save_auction (auction : Auction) (deadline : Z) (db : RunDb) : option RunDb :=
  let? block := i64_try_from (au_block auction) in
  let? deadline := i64_try_from deadline in
  let row := mkAuctionRow block deadline (do_uid <$> au_orders auction) (map_to_list (au_prices auction)).*1
               (u256_to_big_decimal <$> (map_to_list (au_prices auction)).*2)
               (au_surplus_capturing_jit_order_owners auction) in
  let? rows := insert_unique [(au_id auction, row)] (rd_auctions db) in
  Some (mkRunDb (rd_auction_sequence db) (rd_current_auction db) rows (rd_competition db) (rd_reference_scores db)
          (rd_auction_prices db) (rd_solver_competitions db) (rd_jit_order_owners db) (rd_fee_policies db)
          (rd_settlements db) (rd_executions db)).

Definition save_ranked (auction : Auction) (ranking : BidRanking) (db : RunDb) : option RunDb :=
  let? competition := persistence_save_solutions (au_id auction) (br_all ranking) (rd_competition db) in
  Some (mkRunDb (rd_auction_sequence db) (rd_current_auction db) (rd_auctions db) competition (rd_reference_scores db)
          (rd_auction_prices db) (rd_solver_competitions db) (rd_jit_order_owners db) (rd_fee_policies db)
          (rd_settlements db) (rd_executions db)).

(** [Postgres::save_competition], in one transaction. *)
Definition save_competition (auction_id : Z) (reference_scores prices : gmap address Z) (table : SolverCompetitionDB)
  (db : RunDb) : option RunDb :=
  let? scores := insert_unique ((fun e => ((auction_id, e.1), u256_to_big_decimal e.2)) <$> map_to_list reference_scores)
                   (rd_reference_scores db) in
  let? price_rows := insert_unique ((fun e => ((auction_id, e.1), u256_to_big_decimal e.2)) <$> map_to_list prices)
                       (rd_auction_prices db) in
  let? competitions := insert_unique [(auction_id, table)] (rd_solver_competitions db) in
  Some (mkRunDb (rd_auction_sequence db) (rd_current_auction db) (rd_auctions db) (rd_competition db) scores price_rows
          competitions (rd_jit_order_owners db) (rd_fee_policies db) (rd_settlements db) (rd_executions db)).

Definition save_jit_order_owners (auction : Auction) (db : RunDb) : option RunDb :=
  let? owners := insert_unique [(au_id auction, au_surplus_capturing_jit_order_owners auction)] (rd_jit_order_owners db) in
  Some (mkRunDb (rd_auction_sequence db) (rd_current_auction db) (rd_auctions db) (rd_competition db) (rd_reference_scores db)
          (rd_auction_prices db) (rd_solver_competitions db) owners (rd_fee_policies db) (rd_settlements db) (rd_executions db)).

Definition save_fee_policies (batch_size : nat) (auction_id : Z) (policies : list (Z * list Score.FeePolicy)) (db : RunDb)
  : option RunDb :=
  Some (mkRunDb (rd_auction_sequence db) (rd_current_auction db) (rd_auctions db) (rd_competition db) (rd_reference_scores db)
          (rd_auction_prices db) (rd_solver_competitions db) (rd_jit_order_owners db)
          (store_fee_policies batch_size auction_id policies (rd_fee_policies db)) (rd_settlements db) (rd_executions db)).

(** Whether each of the five writes, which run concurrently, goes through; when one of them
    fails, others can have been done or not. *)
Record PostEnv := mkPostEnv {
  pe_auction : bool; pe_solutions : bool; pe_competition : bool; pe_owners : bool; pe_policies : bool;
}.

Definition attempt (allowed : bool) (write : RunDb -> option RunDb) (acc : RunDb * bool) : RunDb * bool :=
  match (if allowed then write acc.1 else None) with
  | Some db => (db, acc.2)
  | None => (acc.1, false)
  end.

(** The result tells whether all writes were done, [try_join!]. *)
Definition post_processing (env : PostEnv) (batch_size : nat) (auction : Auction) (competition_simulation_block : Z)
  (ranking : BidRanking) (block_deadline : Z) (db : RunDb) : RunDb * bool :=
  attempt (pe_policies env) (save_fee_policies batch_size (au_id auction) (fee_policies_of auction ranking))
    (attempt (pe_owners env) (save_jit_order_owners auction)
       (attempt (pe_competition env)
          (save_competition (au_id auction) (br_reference_scores ranking) (au_prices auction)
             (competition_table auction competition_simulation_block ranking))
          (attempt (pe_solutions env) (save_ranked auction ranking)
             (attempt (pe_auction env) (save_auction auction block_deadline) (db, true))))).

(** ** One run *)

(** A settlement that was started, [start_settlement_execution]. *)
Record Started := mkStarted {
  st_auction_id : Z;
  st_driver : string;
  st_solution : BidSolution;
  st_solution_uid : nat;
  st_deadline : Z;
}.

Record RunConfig := mkRunConfig {
  rc_submission_deadline : Z;
  rc_max_run_loop_delay : Z;
  rc_max_winners_per_auction : nat;
  rc_max_solutions_per_solver : nat;
  rc_enable_leader_lock : bool;
  rc_drivers : list Driver;
  rc_weth : address;
  rc_insert_batch_size : nat;
}.

Record SolveEnv := mkSolveEnv {
  se_answer : Driver -> SolveAnswer;
  se_simulation_block : Z;
  se_post : PostEnv;
}.

(** The order events that are sent off, and the settlements that are started. *)
Record RunOutput := mkRunOutput {
  ro_events : list (OrderEventLabel * list Z);
  ro_started : list Started;
}.

Section single_run.
Context (config : RunConfig) (shuffle : list (Bid Unscored) -> list (Bid Unscored)).
Context (u256_from_f64 : f64 -> Z) (biguint_from_f64 : f64 -> option Z).

Definition ranking_events (ranking : BidRanking) : list (OrderEventLabel * list Z) :=
  let winning_orders : gset Z := list_to_set (br_winners ranking ≫= order_ids) in
  [ (EvExecuting, elements winning_orders);
    (EvConsidered, filter (fun id => id ∉ winning_orders) (br_non_winners ranking ≫= order_ids)) ].

Definition started_settlements (auction : Auction) (ranking : BidRanking) (block_deadline : Z) : list Started :=
  (fun e : nat * Bid Ranked => mkStarted (au_id auction) (bid_driver e.2) (bid_solution e.2) e.1 block_deadline) <$>
    filter (fun e => bid_is_winner e.2 = true) (br_enumerated ranking).

Definition single_run (env : SolveEnv) (auction : Auction) (db : RunDb) : comp (RunDb * RunOutput) :=
  let ready := (EvReady, do_uid <$> au_orders auction) in
  match fetch_solutions shuffle (rc_max_solutions_per_solver config) (rc_drivers config) (se_answer env) with
  | [] => Ret (db, mkRunOutput [ready] [])
  | solutions =>
      let! ranking := arbitrate_bids (rc_max_winners_per_auction config) (rc_weth config) u256_from_f64 biguint_from_f64
                        solutions (auction_for_bids auction) in
      let block_deadline := (se_simulation_block env + rc_submission_deadline config) mod 2 ^ 64 in
      let '(db, done) := post_processing (se_post env) (rc_insert_batch_size config) auction (se_simulation_block env)
                           ranking block_deadline db in
      if done then
        Ret (db, mkRunOutput (ready :: ranking_events ranking) (started_settlements auction ranking block_deadline))
      else Ret (db, mkRunOutput [ready] [])
  end.
End single_run.

(** ** Settling *)
Inductive SettleError := SettleOther (e : string) | SettleTimeout.

(** [wait_for_settlement_transaction] over the blocks it sees, each with the answer of the
    database once the block is processed; [None] while no result is in. *)
Fixpoint wait_for_settlement_transaction (deadline : Z) (blocks : list (Z * result string (option Z)))
  : option (result SettleError Z) :=
  match blocks with
  | [] => None
  | (number, found) :: blocks =>
      match found with
      | Ok (Some transaction) => Some (Ok transaction)
      | _ => if deadline <=? number then Some (Err SettleTimeout) else wait_for_settlement_transaction deadline blocks
      end
  end.

(** [select]: the driver answers after [n] blocks were seen. *)
Definition settle_result (current_block deadline : Z) (blocks : list (Z * result string (option Z)))
  (driver : nat * result string unit) : option (result SettleError Z) :=
  let '(n, driver_result) := if current_block <? deadline then driver
                             else (O, Err "submission deadline was missed"%string) in
  match wait_for_settlement_transaction deadline (take n blocks) with
  | Some res => Some res
  | None => match driver_result with
            | Ok _ => wait_for_settlement_transaction deadline blocks
            | Err e => Some (Err (SettleOther e))
            end
  end.

Definition outcome_label (result : result SettleError Z) : string :=
  match result with
  | Ok _ => "success"
  | Err SettleTimeout => "timeout"
  | Err (SettleOther e) => String.append "driver failed: " e
  end.

(** The background writes of [settle]: a failed write is only logged. *)
Inductive SettleWrite :=
| WriteStarted (s : Started) (timestamp start_block : Z)
| WriteEnded (s : Started) (timestamp end_block : Z) (outcome : string).

Definition settle_write (w : SettleWrite) (db : RunDb) : RunDb :=
  match w with
  | WriteStarted s timestamp start_block =>
      default db (store_settlement_execution_started (st_auction_id s) (bs_solver (st_solution s))
                    (Z.of_nat (st_solution_uid s)) timestamp start_block (st_deadline s) db)
  | WriteEnded s timestamp end_block outcome =>
      default db (store_settlement_execution_ended (st_auction_id s) (bs_solver (st_solution s))
                    (Z.of_nat (st_solution_uid s)) timestamp end_block outcome db)
  end.

(** The result of a settlement and the writes it sends off, in order. *)
Definition settle (s : Started) (start_timestamp current_block : Z) (blocks : list (Z * result string (option Z)))
  (driver : nat * result string unit) (end_timestamp end_block : Z) : option (result SettleError Z * list SettleWrite) :=
  let? res := settle_result current_block (st_deadline s) blocks driver in
  Some (res, (if current_block <? st_deadline s then [WriteStarted s start_timestamp current_block] else [])
             ++ [WriteEnded s end_timestamp end_block (outcome_label res)]).

(** ** The leader lock *)
Record LeaderLock := mkLeaderLock { ll_guard : bool; ll_last_try : Z; ll_try_every : Z }.

Definition LeaderLock_new (now try_every : Z) : LeaderLock := mkLeaderLock false (now - try_every) try_every.

(** The answers of the database to an attempt, at the time [ac_now]. *)
Record AcquireEnv := mkAcquireEnv {
  ac_now : Z;
  ac_ping : bool;
  ac_connection : result string unit;
  ac_got_lock : result string bool;
}.

Definition lock_try_acquire (env : AcquireEnv) (lock : LeaderLock) : result string bool * LeaderLock :=
  let guard := ll_guard lock && ac_ping env in
  if negb guard && (ll_try_every lock <=? ac_now env - ll_last_try lock) then
    match ac_connection env, ac_got_lock env with
    | Err e, _ => (Err e, mkLeaderLock false (ac_now env) (ll_try_every lock))
    | Ok _, Err e => (Err e, mkLeaderLock false (ac_now env) (ll_try_every lock))
    | Ok _, Ok got_lock => (Ok got_lock, mkLeaderLock got_lock (ac_now env) (ll_try_every lock))
    end
  else (Ok guard, mkLeaderLock guard (ll_last_try lock) (ll_try_every lock)).

Definition lock_release (lock : LeaderLock) : LeaderLock := mkLeaderLock false (ll_last_try lock) (ll_try_every lock).

Inductive LeaderLockTracker :=
| Disabled
| Enabled (is_leader was_leader : bool) (leader_lock : LeaderLock).

Definition LeaderLockTracker_new (leader_lock : option LeaderLock) : LeaderLockTracker :=
  match leader_lock with Some l => Enabled false false l | None => Disabled end.

Definition just_stepped_up (t : LeaderLockTracker) : bool :=
  match t with Enabled true false _ => true | _ => false end.

Definition is_leader (t : LeaderLockTracker) : bool :=
  match t with Enabled is_leader _ _ => is_leader | Disabled => true end.

(** With the gauge [is_leader] of the metrics. *)
Definition tracker_try_acquire (env : AcquireEnv) (t : LeaderLockTracker) (gauge : Z) : LeaderLockTracker * Z :=
  match t with
  | Disabled => (Disabled, gauge)
  | Enabled leader _ lock =>
      let '(res, lock) := lock_try_acquire env lock in
      let t := Enabled (match res with Ok b => b | Err _ => false end) leader lock in
      (t, if just_stepped_up t then 1 else gauge)
  end.

Definition tracker_release (t : LeaderLockTracker) (gauge : Z) : LeaderLockTracker * Z :=
  match t with
  | Enabled true was lock => (Enabled true was (lock_release lock), 0)
  | t => (t, gauge)
  end.

(** ** The loop *)
Record BlockInfo := mkBlockInfo { bi_number : Z; bi_hash : Z }.

Record LoopState := mkLoopState {
  ls_tracker : LeaderLockTracker;
  ls_leader_gauge : Z;
  ls_last_auction : option Auction;
  ls_last_block : option Z;
  ls_cache : CacheState;
  ls_startup : bool;
  ls_db : RunDb;
  ls_events : list (OrderEventLabel * list Z);
  ls_started : list Started;
}.

(** What an iteration meets: the answers to the lock, the current block, how long ago it was
    seen and the block after it, and the answers to the queries and to the drivers. *)
Record RunEnv := mkRunEnv {
  re_acquire : AcquireEnv;
  re_current_block : BlockInfo;
  re_since_block : Z;
  re_next_block : BlockInfo;
  re_cut : CutEnv;
  re_solve : SolveEnv;
}.

Section run_loop.
Context (config : RunConfig) (shuffle : list (Bid Unscored) -> list (Bid Unscored)).
Context (u256_from_f64 : f64 -> Z) (biguint_from_f64 : f64 -> option Z).
(** [SolvableOrdersCache::update] at a block; [AuctionBuilding.update] is such a function. *)
Context (cache_update : RunEnv -> Z -> bool -> CacheState -> comp (result string unit * CacheState)).

(** A block that was seen too long ago is not used any more. *)
Definition auction_block (env : RunEnv) : BlockInfo :=
  if rc_max_run_loop_delay config <? re_since_block env then re_next_block env else re_current_block env.

Definition update_caches (env : RunEnv) (leader : bool) (cache : CacheState) : comp (BlockInfo * CacheState) :=
  let block := auction_block env in
  let! (_, cache) := cache_update env (bi_number block) leader cache in
  Ret (block, cache).

(** The body of the loop of [run_forever]. *)
Definition run_iteration (env : RunEnv) (st : LoopState) : comp LoopState :=
  let '(tracker, gauge) := tracker_try_acquire (re_acquire env) (ls_tracker st) (ls_leader_gauge st) in
  let! (start_block, cache) := update_caches env (is_leader tracker) (ls_cache st) in
  if negb (is_leader tracker) then
    Ret (mkLoopState tracker gauge (ls_last_auction st) (ls_last_block st) cache true (ls_db st) (ls_events st) (ls_started st))
  else
    let '(auction, last_auction, last_block, db) :=
      next_auction (re_cut env) cache (bi_hash start_block) (ls_last_auction st) (ls_last_block st) (ls_db st) in
    match auction with
    | None => Ret (mkLoopState tracker gauge last_auction last_block cache true db (ls_events st) (ls_started st))
    | Some auction =>
        let! (db, out) := single_run config shuffle u256_from_f64 biguint_from_f64 (re_solve env) auction db in
        Ret (mkLoopState tracker gauge last_auction last_block cache true db (ls_events st ++ ro_events out)
               (ls_started st ++ ro_started out))
    end.

(** [run_forever] until the shutdown, which comes after the iterations [envs]. *)
Fixpoint run_forever_from (envs : list RunEnv) (st : LoopState) : comp LoopState :=
  match envs with
  | [] => let '(tracker, gauge) := tracker_release (ls_tracker st) (ls_leader_gauge st) in
          Ret (mkLoopState tracker gauge (ls_last_auction st) (ls_last_block st) (ls_cache st) (ls_startup st) (ls_db st)
                 (ls_events st) (ls_started st))
  | env :: envs => let! st := run_iteration env st in run_forever_from envs st
  end.

Definition loop_init (now : Z) (cache : CacheState) (db : RunDb) : LoopState :=
  let leader := if rc_enable_leader_lock config then Some (LeaderLock_new now 200) else None in
  mkLoopState (LeaderLockTracker_new leader) 0 None None cache false db [] [].

Definition run_forever (now : Z) (cache : CacheState) (db : RunDb) (envs : list RunEnv) : comp LoopState :=
  run_forever_from envs (loop_init now cache db).

(** Between iterations settlements are observed and the tasks of settlements write. *)
Inductive db_change : RunDb -> RunDb -> Prop :=
| change_observed row db : db_change db (set_settlements (rd_settlements db ++ [row]) db)
| change_auction block index id db : db_change db (update_settlement_auction block index id db)
| change_solver block index solver uid db : db_change db (update_settlement_solver block index solver uid db)
| change_write w db : db_change db (settle_write w db).

Definition set_loop_db (db : RunDb) (st : LoopState) : LoopState :=
  mkLoopState (ls_tracker st) (ls_leader_gauge st) (ls_last_auction st) (ls_last_block st) (ls_cache st) (ls_startup st) db
    (ls_events st) (ls_started st).

Inductive loop_step : LoopState -> LoopState -> Prop :=
| step_iterate env st st' : run_iteration env st = Ret st' -> loop_step st st'
| step_change db st : db_change (ls_db st) db -> loop_step st (set_loop_db db st).
End run_loop.

(** ** Orders in flight *)

(** A started settlement is stored as a winner, with its orders and its deadline. *)
Record stored (db : RunDb) (s : Started) : Prop := {
  stored_auction : exists row, rd_auctions db !! st_auction_id s = Some row /\ ar_deadline row = st_deadline s;
  stored_winner : exists e, proposed_solutions (rd_competition db) !! (st_auction_id s, Z.of_nat (st_solution_uid s)) = Some e
                            /\ se_is_winner e = true;
  stored_orders : forall o, is_Some (bs_orders (st_solution s) !! o) ->
    is_Some (proposed_trade_executions (rd_competition db) !! (st_auction_id s, Z.of_nat (st_solution_uid s), o));
  stored_deadline : st_deadline s < 2 ^ 63;
}.

(** Solutions are only stored for ids the sequence gave out. *)
Definition ids_bounded (db : RunDb) : Prop :=
  forall id uid, is_Some (proposed_solutions (rd_competition db) !! (id, uid)) -> id <= rd_auction_sequence db.

Record db_grows (db db' : RunDb) : Prop := {
  grows_auctions : rd_auctions db ⊆ rd_auctions db';
  grows_solutions : proposed_solutions (rd_competition db) ⊆ proposed_solutions (rd_competition db');
  grows_executions : proposed_trade_executions (rd_competition db) ⊆ proposed_trade_executions (rd_competition db');
}.

#[export] Instance db_grows_preorder : PreOrder db_grows.
Proof.
  split.
  - by intros db.
  - intros d1 d2 d3 [A1 B1 C1] [A2 B2 C2]. split; by etransitivity.
Qed.

Lemma stored_grows db db' s : db_grows db db' -> stored db s -> stored db' s.
Proof.
  intros [HA HS HE] [(row & Hr & Hd) (e & He & Hw) Ho Hb]. split; [| | |done].
  - exists row. split; [by eapply lookup_weaken|done].
  - exists e. split; [by eapply lookup_weaken|done].
  - intros o Hin. destruct (Ho o Hin) as [v Hv]. exists v. by eapply lookup_weaken.
Qed.

(** The part of the database the orders in flight come from. *)
Definition flight_core (db : RunDb) : Z * gmap Z AuctionRow * CompetitionDb :=
  (rd_auction_sequence db, rd_auctions db, rd_competition db).

Lemma core_grows db db' : flight_core db' = flight_core db -> db_grows db db'.
Proof. intros [= E1 E2 E3]. split; by rewrite ?E2, ?E3. Qed.

Lemma core_bounded db db' : flight_core db' = flight_core db -> ids_bounded db -> ids_bounded db'.
Proof. intros [= E1 E2 E3] Hb id uid H. rewrite E3 in H. rewrite E1. by eapply Hb. Qed.

Lemma insert_unique_single {K V} `{Countable K} k (v : V) (m m' : gmap K V) :
  insert_unique [(k, v)] m = Some m' -> m !! k = None /\ m' = <[k := v]> m.
Proof. cbn. destruct (m !! k) eqn:E; [done|]. by intros [= <-]. Qed.

Lemma insert_rows_is_Some {K V} `{Countable K} (rows : list (K * V)) (m : gmap K V) k :
  k ∈ rows.*1 -> is_Some (insert_rows rows m !! k).
Proof.
  unfold insert_rows. revert m. induction rows as [|e rows IH]; intros m Hk; [by apply not_elem_of_nil in Hk|].
  rewrite fmap_cons in Hk. apply elem_of_cons in Hk as [->|Hk]; [|by apply IH]. cbn [foldl].
  assert (is_Some (insert_new m e !! e.1)) as [v Hv].
  { unfold insert_new. destruct (m !! e.1) eqn:E; [by rewrite E|]. rewrite lookup_insert_eq. by eexists. }
  exists v. by apply (insert_rows_old rows (insert_new m e)).
Qed.

Lemma insert_rows_inv {K V} `{Countable K} (rows : list (K * V)) (m : gmap K V) k :
  is_Some (insert_rows rows m !! k) -> k ∈ rows.*1 \/ is_Some (m !! k).
Proof.
  unfold insert_rows. revert m. induction rows as [|e rows IH]; intros m Hk; [by right|]. cbn [foldl] in Hk.
  rewrite fmap_cons. destruct (IH _ Hk) as [Hin|Hm]; [left; by right|]. unfold insert_new in Hm.
  destruct (m !! e.1) eqn:E; [by right|]. destruct (decide (k = e.1)) as [->|Hne]; [left; by left|].
  rewrite lookup_insert_ne in Hm by done. by right.
Qed.

Lemma bulk_insert_Some {K V} `{Countable K} (rows : list (K * V)) (m m' : gmap K V) :
  bulk_insert rows m = Some m' -> m' = insert_rows rows m.
Proof. destruct rows; [done|]. by intros [= <-]. Qed.

(** The solutions of a ranking in the tables, for an auction that was not stored. *)
Lemma save_solutions_stored id bids db db' :
  (forall uid, proposed_solutions db !! (id, uid) = None) ->
  persistence_save_solutions id bids db = Some db' ->
  proposed_solutions db ⊆ proposed_solutions db' /\
  proposed_trade_executions db ⊆ proposed_trade_executions db' /\
  (forall id' uid, is_Some (proposed_solutions db' !! (id', uid)) -> id' = id \/ is_Some (proposed_solutions db !! (id', uid))) /\
  (forall i b, bids !! i = Some b ->
     proposed_solutions db' !! (id, Z.of_nat i) = Some (bid_entry b) /\
     forall o, is_Some (bs_orders (bid_solution b) !! o) -> is_Some (proposed_trade_executions db' !! (id, Z.of_nat i, o))).
Proof.
  intros Hfresh Hsave. unfold persistence_save_solutions in Hsave. destruct (_ <=? _); [|done]. revert Hsave.
  unfold save. destruct (imap bid_row bids) as [|r0 rs] eqn:Erows.
  { intros [= <-]. split_and!; [done|done|by right|]. intros i b Hi.
    assert (imap bid_row bids !! i = Some (bid_row i b)) as H by (rewrite list_lookup_imap, Hi; done).
    by rewrite Erows in H. }
  rewrite <-Erows. clear Erows. unfold db_save_solutions, save_trade_executions.
  set (srows := _ <$> imap bid_row bids). set (erows := execution_rows id (imap bid_row bids)).
  destruct (bulk_insert srows _) as [m|] eqn:Es; [|done]. apply bulk_insert_Some in Es as ->. cbn.
  destruct (bulk_insert erows _) as [m|] eqn:Ee; [|done]. apply bulk_insert_Some in Ee as ->. cbn.
  intros [= <-]. cbn. split_and!.
  - apply map_subseteq_spec. intros k v Hk. by apply insert_rows_old.
  - apply map_subseteq_spec. intros k v Hk. by apply insert_rows_old.
  - intros id' uid Hin. apply insert_rows_inv in Hin as [Hin|Hin]; [left|by right].
    apply list_elem_of_fmap in Hin as ([k v] & Ek & Hin). subst srows.
    apply list_elem_of_fmap in Hin as (s & [= -> ->] & _). by injection Ek as -> _.
  - intros i b Hi. assert (bid_row i b ∈ imap bid_row bids) as Hrow.
    { apply list_elem_of_lookup. exists i. rewrite list_lookup_imap, Hi. done. }
    split.
    + apply insert_rows_lookup.
      * subst srows. rewrite <-list_fmap_compose, fmap_imap. apply NoDup_alt. intros j k x.
        rewrite !list_lookup_imap. destruct (bids !! j), (bids !! k); cbn; intros; simplify_eq/=; lia.
      * apply Forall_forall. intros [k v] Hin. subst srows. apply list_elem_of_fmap in Hin as (s & [= -> ->] & _). apply Hfresh.
      * left. subst srows. apply list_elem_of_fmap. by exists (bid_row i b).
    + intros o Ho. apply insert_rows_is_Some. destruct Ho as [t Ht].
      apply list_elem_of_fmap. eexists ((id, Z.of_nat i, o), _). split; [done|]. subst erows. unfold execution_rows.
      apply list_elem_of_bind. exists (bid_row i b). split; [|done]. cbn. apply list_elem_of_fmap.
      exists (bid_order o t). split; [done|]. apply list_elem_of_fmap. exists (o, t). split; [done|]. by apply elem_of_map_to_list.
Qed.

Lemma attempt_spec allowed write db flag db' flag' :
  attempt allowed write (db, flag) = (db', flag') ->
  (write db = Some db' /\ flag' = flag) \/ (db' = db /\ flag' = false).
Proof.
  unfold attempt. cbn. destruct allowed; [|intros [= <- <-]; by right].
  destruct (write db); intros [= <- <-]; [by left|by right].
Qed.

(** A write that does not touch the part of the orders in flight. *)
Definition leaves_core (write : RunDb -> option RunDb) : Prop :=
  forall db db', write db = Some db' -> flight_core db' = flight_core db.

Lemma attempt_core allowed write db flag db' flag' :
  leaves_core write -> attempt allowed write (db, flag) = (db', flag') ->
  flight_core db' = flight_core db /\ (flag' = true -> flag = true).
Proof. intros Hw [[H ->]|[-> ->]]%attempt_spec; [split; [by apply Hw|done]|done]. Qed.

Lemma save_competition_core id scores prices table : leaves_core (save_competition id scores prices table).
Proof.
  intros db db'. unfold save_competition. do 3 (destruct (insert_unique _ _); [cbn [option_bind]|done]). by intros [= <-].
Qed.

Lemma save_owners_core auction : leaves_core (save_jit_order_owners auction).
Proof. intros db db'. unfold save_jit_order_owners. destruct (insert_unique _ _); [|done]. by intros [= <-]. Qed.

Lemma save_policies_core n id policies : leaves_core (save_fee_policies n id policies).
Proof. by intros db db' [= <-]. Qed.

Lemma save_auction_spec auction deadline db db' :
  save_auction auction deadline db = Some db' ->
  db_grows db db' /\ rd_auction_sequence db' = rd_auction_sequence db /\ rd_competition db' = rd_competition db /\
  deadline < 2 ^ 63 /\ exists row, rd_auctions db' !! au_id auction = Some row /\ ar_deadline row = deadline.
Proof.
  unfold save_auction, i64_try_from. destruct (au_block auction <? _); [|done]. destruct (Z.ltb_spec deadline (2 ^ 63)); [|done].
  cbv beta iota zeta. destruct (insert_unique _ _) as [rows|] eqn:E; [|done]. apply insert_unique_single in E as [Hnew ->].
  intros [= <-]. split_and!; [|done|done|done|].
  - split; cbn; [by apply insert_subseteq|done|done].
  - eexists. cbn. by rewrite lookup_insert_eq.
Qed.

Lemma save_ranked_spec auction ranking db db' :
  ids_bounded db -> (forall uid, proposed_solutions (rd_competition db) !! (au_id auction, uid) = None) ->
  au_id auction <= rd_auction_sequence db ->
  save_ranked auction ranking db = Some db' ->
  db_grows db db' /\ ids_bounded db' /\ rd_auctions db' = rd_auctions db /\
  (forall i b, br_all ranking !! i = Some b ->
     proposed_solutions (rd_competition db') !! (au_id auction, Z.of_nat i) = Some (bid_entry b) /\
     forall o, is_Some (bs_orders (bid_solution b) !! o) ->
       is_Some (proposed_trade_executions (rd_competition db') !! (au_id auction, Z.of_nat i, o))).
Proof.
  intros Hb Hfresh Hid. unfold save_ranked. destruct (persistence_save_solutions _ _ _) as [c|] eqn:E; [|done].
  apply save_solutions_stored in E as (HS & HE & Hids & Hrows); [|done]. intros [= <-]. split_and!; [by split| |done|done].
  intros id uid H. cbn in *. destruct (Hids _ _ H) as [->|Hold]; [done|by eapply Hb].
Qed.

Lemma enumerated_lookup r i b : (i, b) ∈ br_enumerated r <-> br_all r !! i = Some b.
Proof.
  unfold br_enumerated. rewrite list_elem_of_lookup. setoid_rewrite list_lookup_imap. split.
  - intros (j & Hj). destruct (br_all r !! j) eqn:E; [|done]. by injection Hj as -> ->.
  - intros Hi. exists i. by rewrite Hi.
Qed.

Lemma post_processing_spec env n auction sim ranking deadline db db' flag :
  ids_bounded db -> (forall uid, proposed_solutions (rd_competition db) !! (au_id auction, uid) = None) ->
  au_id auction <= rd_auction_sequence db ->
  post_processing env n auction sim ranking deadline db = (db', flag) ->
  db_grows db db' /\ ids_bounded db' /\
  (flag = true -> Forall (stored db') (started_settlements auction ranking deadline)).
Proof.
  intros Hb Hfresh Hid. unfold post_processing.
  destruct (attempt (pe_auction env) _ _) as [d1 f1] eqn:E1. destruct (attempt (pe_solutions env) _ _) as [d2 f2] eqn:E2.
  destruct (attempt (pe_competition env) _ _) as [d3 f3] eqn:E3. destruct (attempt (pe_owners env) _ _) as [d4 f4] eqn:E4.
  intros E5. apply attempt_core in E5 as [C5 F5]; [|apply save_policies_core].
  apply attempt_core in E4 as [C4 F4]; [|apply save_owners_core].
  apply attempt_core in E3 as [C3 F3]; [|apply save_competition_core].
  assert (flight_core db' = flight_core d2) as C by congruence. clear C3 C4 C5.
  assert (db_grows db d1 /\ rd_auction_sequence d1 = rd_auction_sequence db /\ rd_competition d1 = rd_competition db /\
    (f1 = true -> deadline < 2 ^ 63 /\ exists row, rd_auctions d1 !! au_id auction = Some row /\ ar_deadline row = deadline))
    as (G1 & S1 & R1 & A1).
  { apply attempt_spec in E1 as [[E1 ->]|[-> ->]]; [|done]. apply save_auction_spec in E1 as (? & ? & ? & ? & ?). done. }
  assert (ids_bounded d1) as B1 by (intros id uid; rewrite R1, S1; apply Hb).
  assert (db_grows d1 d2 /\ ids_bounded d2 /\ (f2 = true -> f1 = true /\ save_ranked auction ranking d1 = Some d2))
    as (G2 & B2 & A2).
  { apply attempt_spec in E2 as [[E2 ->]|[-> ->]]; [|done]. pose proof E2 as E2'.
    apply save_ranked_spec in E2' as (? & ? & _); [done|done|by rewrite R1|by rewrite S1]. }
  split_and!; [etransitivity; [done|]; etransitivity; [done|by apply core_grows]|by eapply core_bounded|].
  intros ->. destruct (A2 (F3 (F4 (F5 eq_refl)))) as [-> Hsr]. destruct (A1 eq_refl) as (Hdl & row & Hrow & Hd).
  apply save_ranked_spec in Hsr as (_ & _ & HA & Hall); [|done|by rewrite R1|by rewrite S1].
  apply Forall_forall. intros s Hs. apply (stored_grows d2); [by apply core_grows|].
  unfold started_settlements in Hs. apply list_elem_of_fmap in Hs as ([i b] & -> & Hs).
  apply list_elem_of_filter in Hs as [Hw Hs]. apply enumerated_lookup in Hs. destruct (Hall _ _ Hs) as [He Ho].
  split; cbn; [exists row; by rewrite HA|by exists (bid_entry b)|done|done].
Qed.

(** Cutting an auction only takes a number off the sequence. *)
Lemma cut_auction_spec env cache db auction db' :
  cut_auction env cache db = (auction, db') ->
  rd_auctions db' = rd_auctions db /\ rd_competition db' = rd_competition db /\
  rd_auction_sequence db <= rd_auction_sequence db' /\
  (forall a, auction = Some a -> au_id a = rd_auction_sequence db + 1 /\ rd_auction_sequence db' = au_id a /\
     exists raw, current_auction cache = Some raw /\
       mkRawAuctionData (au_block a) (au_orders a) (au_prices a) (au_surplus_capturing_jit_order_owners a)
       = remove_in_flight_orders (ce_in_flight env) db raw).
Proof.
  unfold cut_auction. destruct (current_auction cache) as [raw|]; [|intros [= <- <-]; split_and!; try done; lia].
  destruct (ce_next_id env); [|intros [= <- <-]; split_and!; try done; lia]. cbn. intros H.
  set (cut := remove_in_flight_orders _ db raw) in *.
  set (d := if ce_upload env then _ else _) in H.
  assert (rd_auctions d = rd_auctions db /\ rd_competition d = rd_competition db /\
    rd_auction_sequence d = rd_auction_sequence db + 1) as (HA & HC & HS) by (subst d; by destruct (ce_upload env)).
  destruct (rad_orders cut) as [|o os] eqn:Eo; injection H as <- <-; split_and!; try done; try lia.
  intros a [= <-]. cbn. split_and!; [done|lia|]. exists raw. split; [done|]. rewrite <-Eo. by destruct (remove_in_flight_orders _ _ _).
Qed.

Lemma next_auction_spec env cache hash prev block db auction prev' block' db' :
  next_auction env cache hash prev block db = (auction, prev', block', db') ->
  exists a, cut_auction env cache db = (a, db') /\ (auction = a \/ auction = None) /\
    (forall b, auction = Some b -> prev' = Some b).
Proof.
  unfold next_auction. destruct (cut_auction env cache db) as [[a|] d] eqn:E; [|intros [= <- <- <- <-]; exists None; naive_solver].
  destruct (match prev with Some _ => _ | None => _ end).
  - case_bool_decide; intros [= <- <- <- <-]; eexists; (split; [done|]); naive_solver.
  - intros [= <- <- <- <-]. eexists. split; [done|]. naive_solver.
Qed.

Record loop_ok (st : LoopState) : Prop := {
  lo_bounded : ids_bounded (ls_db st);
  lo_stored : Forall (stored (ls_db st)) (ls_started st);
}.

Section loop.
Context (config : RunConfig) (shuffle : list (Bid Unscored) -> list (Bid Unscored)).
Context (u256_from_f64 : f64 -> Z) (biguint_from_f64 : f64 -> option Z).
Context (cache_update : RunEnv -> Z -> bool -> CacheState -> comp (result string unit * CacheState)).

Lemma single_run_spec env auction db db' out :
  ids_bounded db -> (forall uid, proposed_solutions (rd_competition db) !! (au_id auction, uid) = None) ->
  au_id auction <= rd_auction_sequence db ->
  single_run config shuffle u256_from_f64 biguint_from_f64 env auction db = Ret (db', out) ->
  db_grows db db' /\ ids_bounded db' /\ Forall (stored db') (ro_started out).
Proof.
  intros Hb Hfresh Hid. unfold single_run. destruct (fetch_solutions _ _ _ _) as [|b bs]; [by intros [= <- <-]|].
  destruct (arbitrate_bids _ _ _ _ _ _) as [ranking|]; [|done]. cbn [comp_bind].
  destruct (post_processing _ _ _ _ _ _ _) as [d flag] eqn:E.
  apply post_processing_spec in E as (Hg & Hb' & Hs); [|done..]. destruct flag; intros [= <- <-]; [|done]. by auto.
Qed.

Lemma run_iteration_ok env st st' :
  loop_ok st -> run_iteration config shuffle u256_from_f64 biguint_from_f64 cache_update env st = Ret st' -> loop_ok st'.
Proof.
  intros [Hb Hs]. unfold run_iteration. destruct (tracker_try_acquire _ _ _) as [tracker gauge].
  destruct (update_caches _ _ _ _ _) as [[start cache]|]; [|done]. cbn [comp_bind].
  destruct (negb _); [by intros [= <-]|].
  destruct (next_auction _ _ _ _ _ _) as [[[auction last] block] db] eqn:En.
  apply next_auction_spec in En as (a & Hcut & Ha & _). apply cut_auction_spec in Hcut as (HA & HC & HS & Hid).
  assert (db_grows (ls_db st) db) as Hg by (split; by rewrite ?HA, ?HC).
  assert (ids_bounded db) as Hb' by (intros id uid H; rewrite HC in H; apply Hb in H; lia).
  destruct auction as [auction|].
  - destruct (single_run _ _ _ _ _ _ _) as [[d out]|] eqn:Er; [|done]. intros [= <-].
    destruct Ha as [<-|]; [|done]. destruct (Hid auction eq_refl) as (Hn & Hseq & _).
    apply single_run_spec in Er as (Hg' & Hb'' & Hst); [|done| |lia].
    + split; cbn; [done|]. apply Forall_app. split; [|done]. eapply Forall_impl; [done|]. intros s. apply stored_grows.
      by etransitivity.
    + intros uid. apply eq_None_not_Some. intros H. rewrite HC in H. apply Hb in H. lia.
  - intros [= <-]. split; cbn; [done|]. eapply Forall_impl; [done|]. intros s. by apply stored_grows.
Qed.

Lemma db_change_core db db' : db_change db db' -> flight_core db' = flight_core db.
Proof.
  intros []; [done..|]. destruct w; cbn.
  - unfold store_settlement_execution_started.
    repeat (match goal with |- context [let? _ := ?o in _] => destruct o; cbn [option_bind mbind]; [|done] end). done.
  - unfold store_settlement_execution_ended.
    repeat (match goal with |- context [let? _ := ?o in _] => destruct o; cbn [option_bind mbind]; [|done] end). done.
Qed.
End loop.

Lemma fetch_in_flight_elem block db s order :
  stored db s -> block < st_deadline s -> is_settled db (st_auction_id s) (Z.of_nat (st_solution_uid s)) = false ->
  is_Some (bs_orders (st_solution s) !! order) -> order ∈ fetch_in_flight_orders block db.
Proof.
  intros [(row & Hr & Hd) (e & He & Hw) Ho _] Hblock Hset Hin. destruct (Ho _ Hin) as [v Hv].
  unfold fetch_in_flight_orders. apply elem_of_list_to_set, list_elem_of_omap.
  exists ((st_auction_id s, Z.of_nat (st_solution_uid s), order), v). split; [by apply elem_of_map_to_list|].
  cbn. rewrite Hr, He, Hw, Hset, Hd. by destruct (Z.ltb_spec block (st_deadline s)); [|lia].
Qed.

Lemma remove_in_flight_spec db raw order :
  order ∈ fetch_in_flight_orders (cast_signed (rad_block raw)) db ->
  (order ∉ (do_uid <$> rad_orders (remove_in_flight_orders true db raw))) /\
  OrderUid_owner order ∉ rad_surplus_capturing_jit_order_owners (remove_in_flight_orders true db raw).
Proof.
  intros Hin. unfold remove_in_flight_orders. case_bool_decide as He; [rewrite He in Hin; by apply elem_of_empty in Hin|].
  split; cbn.
  - intros (o & -> & [Hn _]%list_elem_of_filter)%list_elem_of_fmap. done.
  - intros [Hn _]%list_elem_of_filter. apply not_existsb with (x := order) in Hn; [lia|by apply elem_of_elements].
Qed.

Lemma remove_in_flight_block ok db raw : rad_block (remove_in_flight_orders ok db raw) = rad_block raw.
Proof. unfold remove_in_flight_orders. by case_bool_decide. Qed.

Section in_flight.
Context (config : RunConfig) (shuffle : list (Bid Unscored) -> list (Bid Unscored)).
Context (u256_from_f64 : f64 -> Z) (biguint_from_f64 : f64 -> option Z).
Context (cache_update : RunEnv -> Z -> bool -> CacheState -> comp (result string unit * CacheState)).

Abbreviation step := (loop_step config shuffle u256_from_f64 biguint_from_f64 cache_update).

Lemma loop_reachable_ok st st' : rtc step st st' -> loop_ok st -> loop_ok st'.
Proof.
  induction 1 as [|st1 st2 st3 Hstep _ IH]; [done|]. intros Hok. apply IH. destruct Hstep as [env st1 st2 Hr|db st1 Hc].
  - by eapply run_iteration_ok.
  - destruct Hok as [Hb Hs]. apply db_change_core in Hc. split; cbn.
    + by eapply core_bounded.
    + eapply Forall_impl; [done|]. intros s. by apply stored_grows, core_grows.
Qed.

(** C7 (safety): an order that is being settled is not auctioned again.  However the loop got
    to a state, through iterations with any answers and any failure of the writes of
    post-processing, between which settlements are observed, the auction it cuts next has
    none of the orders of a settlement that was started, as long as the block of the
    auction is before the deadline of that settlement, the settlement has not been observed
    and the query of the orders in flight succeeds; nor is the owner of such an order one of
    the owners of surplus capturing orders. *)
Theorem in_flight_orders_left_out now cache db st s order env cache' auction db' :
  ids_bounded db ->
  rtc step (loop_init config now cache db) st ->
  s ∈ ls_started st -> is_Some (bs_orders (st_solution s) !! order) ->
  ce_in_flight env = true -> cut_auction env cache' (ls_db st) = (Some auction, db') ->
  au_block auction < st_deadline s ->
  is_settled (ls_db st) (st_auction_id s) (Z.of_nat (st_solution_uid s)) = false ->
  (order ∉ (do_uid <$> au_orders auction)) /\ OrderUid_owner order ∉ au_surplus_capturing_jit_order_owners auction.
Proof.
  intros Hb Hreach Hs Horder Henv Hcut Hblock Hset. apply loop_reachable_ok in Hreach as [_ Hst]; [|by split].
  rewrite Forall_forall in Hst. specialize (Hst s Hs).
  apply cut_auction_spec in Hcut as (_ & _ & _ & Ha). destruct (Ha auction eq_refl) as (_ & _ & raw & _ & Hraw).
  rewrite Henv in Hraw. pose proof (f_equal rad_block Hraw) as Eb. cbn in Eb. rewrite remove_in_flight_block in Eb.
  pose proof (stored_deadline _ _ Hst) as Hd.
  destruct (remove_in_flight_spec (ls_db st) raw order) as [H1 H2].
  - eapply fetch_in_flight_elem; [done| |done|done]. unfold cast_signed. rewrite <-Eb.
    destruct (Z.ltb_spec (au_block auction) (2 ^ 63)); lia.
  - rewrite <-Hraw in H1, H2. done.
Qed.
End in_flight.

(** ** The drivers' bids *)
Definition from_driver (e : Driver * Bid Unscored) : bool :=
  bs_solver (bid_solution e.2) =? drv_submission_address e.1.

(** The bids [bids] with the first [max] of each name kept. *)
Lemma retain_bids_fold max bids (Hname : Forall (fun e => bid_driver e.2 = drv_name e.1) bids) :
  let '(counter, kept) := foldl (keep_bid max) (∅, []) bids in
  Forall (fun b => exists d, (d, b) ∈ bids /\ from_driver (d, b) = true) kept /\
  forall name,
    let received := filter (fun e => drv_name e.1 = name) (filter (fun e => from_driver e = true) bids) in
    default O (counter !! name) = length received /\
    filter (fun b => bid_driver b = name) kept = take max received.*2.
Proof.
  induction bids as [|[d b] bids IH] using rev_ind.
  { split; [constructor|]. intros name. cbn. by rewrite lookup_empty, take_nil. }
  apply Forall_app in Hname as [Hname [Hn _]%Forall_cons]. cbn in Hn. specialize (IH Hname). rewrite foldl_app. cbn [foldl].
  destruct (foldl _ _ bids) as [counter kept]. destruct IH as [Hin Hcount]. unfold keep_bid.
  change (bs_solver (bid_solution b) =? drv_submission_address d) with (from_driver (d, b)).
  assert (Forall (fun b0 => exists d0, (d0, b0) ∈ bids ++ [(d, b)] /\ from_driver (d0, b0) = true) kept) as Hin'.
  { eapply Forall_impl; [exact Hin|]. intros x (d0 & Hx & Hd). exists d0. split; [|done]. apply elem_of_app. by left. }
  destruct (from_driver (d, b)) eqn:Ef.
  - split.
    + case_bool_decide; [|done]. apply Forall_app. split; [done|]. apply Forall_singleton. exists d.
      split; [|done]. apply elem_of_app. right. by left.
    + intros name. cbv zeta. specialize (Hcount name) as [Hc Hk]. cbv zeta in *.
      rewrite !filter_app, filter_cons_True, filter_nil by done.
      destruct (decide (name = drv_name d)) as [->|Hne].
      * rewrite lookup_insert_eq, filter_cons_True, filter_nil by done. cbn. rewrite Hc, length_app. split; [cbn; lia|].
        rewrite fmap_app. case_bool_decide.
        -- rewrite filter_app, filter_cons_True, filter_nil, Hk by done.
           rewrite !take_ge by (rewrite ?length_app, ?length_fmap; cbn; lia). done.
        -- rewrite Hk. rewrite take_app_le by (rewrite length_fmap; lia). done.
      * rewrite lookup_insert_ne, filter_cons_False, filter_nil, app_nil_r by done. split; [done|].
        rewrite <-Hk. case_bool_decide; [|done]. rewrite filter_app, filter_cons_False, filter_nil, app_nil_r; [done|congruence].
  - split; [done|]. intros name. cbv zeta. rewrite !filter_app, (filter_cons_False _ (d, b)) by congruence.
    rewrite filter_nil, filter_nil, app_nil_r. apply Hcount.
Qed.

(** The bids of an auction: each comes from the driver it names, at the address the driver
    submits from, and no driver has more than its share. *)
Lemma fetch_solutions_spec shuffle max drivers answer :
  (forall l, shuffle l ≡ₚ l) ->
  Forall (fun b => exists d, d ∈ drivers /\ b ∈ solve d (answer d) /\ bid_driver b = drv_name d /\
                     bs_solver (bid_solution b) = drv_submission_address d)
    (fetch_solutions shuffle max drivers answer) /\
  forall name, (length (filter (fun b => bid_driver b = name) (fetch_solutions shuffle max drivers answer)) <= max)%nat.
Proof.
  intros Hshuffle. set (bids := drivers ≫= fun driver => pair driver <$> solve driver (answer driver)).
  assert (forall d b, (d, b) ∈ bids -> d ∈ drivers /\ b ∈ solve d (answer d) /\ bid_driver b = drv_name d) as Hbids.
  { intros d b (d' & Hb & Hd)%list_elem_of_bind. apply list_elem_of_fmap in Hb as (b' & [= -> ->] & Hb).
    split_and!; [done|done|]. unfold solve in Hb. apply list_elem_of_omap in Hb as ([s|] & _ & [= <-]). done. }
  pose proof (retain_bids_fold max bids) as H. unfold fetch_solutions, retain_bids. fold bids.
  destruct (foldl _ _ bids) as [counter kept]. destruct H as [Hin Hcount].
  { apply Forall_forall. intros [d b] Hb. by apply Hbids. }
  cbn. split.
  - rewrite Hshuffle. eapply Forall_impl; [exact Hin|]. intros b (d & Hb & Hf). exists d.
    destruct (Hbids _ _ Hb) as (? & ? & ?). split_and!; [done..|]. unfold from_driver in Hf. cbn in Hf. lia.
  - intros name. rewrite (filter_Permutation _ _ _ (Hshuffle kept)). destruct (Hcount name) as [_ ->]. rewrite length_take. lia.
Qed.

(** ** Settlements *)

(** A settlement ends when a block at its deadline is seen, whatever the driver does. *)
Lemma wait_ends deadline blocks :
  Exists (fun b => deadline <= b.1) blocks -> is_Some (wait_for_settlement_transaction deadline blocks).
Proof.
  induction 1 as [[n r] blocks Hb|[n r] blocks _ IH]; cbn in *.
  - destruct (Z.leb_spec deadline n); [|lia]. repeat case_match; by eexists.
  - repeat case_match; eauto.
Qed.

Lemma settle_ends s start current blocks driver stop last :
  Exists (fun b => st_deadline s <= b.1) blocks -> is_Some (settle s start current blocks driver stop last).
Proof.
  intros Hb. apply wait_ends in Hb as [r Hr]. unfold settle, settle_result. rewrite Hr.
  repeat case_match; simplify_eq; by eexists.
Qed.

(** A settlement is only reported as done when its transaction was found. *)
Lemma wait_found deadline blocks tx :
  wait_for_settlement_transaction deadline blocks = Some (Ok tx) -> exists n, (n, Ok (Some tx)) ∈ blocks.
Proof.
  induction blocks as [|[n r] blocks IH]; cbn; [done|].
  destruct r as [[t|]|]; [intros [= ->]; exists n; by left| |];
    (destruct (deadline <=? n); [done|]; intros (m & Hm)%IH; exists m; by right).
Qed.

Lemma settle_found s start current blocks driver stop last tx writes :
  settle s start current blocks driver stop last = Some (Ok tx, writes) -> exists n, (n, Ok (Some tx)) ∈ blocks.
Proof.
  unfold settle, settle_result. destruct (if current <? st_deadline s then _ else _) as [n r].
  destruct (wait_for_settlement_transaction _ (take n blocks)) eqn:E.
  - intros [= -> <-]. apply wait_found in E as (m & Hm). exists m. by apply (subseteq_take n).
  - destruct r; [|done]. destruct (wait_for_settlement_transaction _ blocks) eqn:E'; [|done]. intros [= -> <-].
    by apply wait_found in E'.
Qed.

(** The writes of a settlement, in the order they are sent off, record how it ended. *)
Lemma settle_recorded s start current blocks driver stop last res writes db :
  Z.of_nat (st_solution_uid s) < 2 ^ 63 -> current < st_deadline s -> st_deadline s < 2 ^ 63 -> last < 2 ^ 63 ->
  rd_executions db !! (st_auction_id s, bs_solver (st_solution s), Z.of_nat (st_solution_uid s)) = None ->
  settle s start current blocks driver stop last = Some (res, writes) ->
  rd_executions (foldl (fun db w => settle_write w db) db writes)
    !! (st_auction_id s, bs_solver (st_solution s), Z.of_nat (st_solution_uid s))
  = Some (mkExecutionRow start current (st_deadline s) (Some (stop, last, outcome_label res))).
Proof.
  intros Hu Hc Hd Hl Hnew. unfold settle. destruct (settle_result _ _ _ _); [|done].
  destruct (Z.ltb_spec current (st_deadline s)); [|lia]. intros [= -> <-]. cbn.
  unfold store_settlement_execution_started, store_settlement_execution_ended, i64_try_from. cbn.
  rewrite !(proj2 (Z.ltb_lt _ _)) by lia. rewrite Hnew. cbn. by rewrite lookup_alter_eq, lookup_insert_eq.
Qed.

(** ** Examples *)
Definition sample_order (uid : Z) : DomainOrder :=
  mkDomainOrder uid (mkAsset 1 1000) (mkAsset 2 900) [] Sell 0 100 None 5 false 0 [] [] SellErc20 BuyErc20 0 SigPreSign None.
Definition sample_cache (block : Z) (uids : list Z) : CacheState :=
  mkCacheState BannedUsers.Users_none
    (Some (mkRawAuctionData block (sample_order <$> uids) {[ 2 := 10 ^ 18 ]} [], mkSolvableOrders ∅ ∅ 0 0)).
Definition sample_db : RunDb :=
  mkRunDb 6 None ∅ (mkCompetitionDb ∅ ∅ ∅ ∅) ∅ ∅ ∅ ∅ [] [] ∅.
Definition sample_driver : Driver := mkDriver "driver" 7.
Definition sample_response : SolutionDto :=
  mkSolutionDto 0 50 7 {[ 1 := mkTradedOrderDto Sell 1 2 1000 900 1000 950 ]} (<[1 := 100]> (<[2 := 100]> ∅)).
Definition sample_config : RunConfig := mkRunConfig 5 1 2 3 false [sample_driver] 9 100.
Definition sample_env (hash : Z) : RunEnv :=
  mkRunEnv (mkAcquireEnv 0 true (Ok tt) (Ok true)) (mkBlockInfo 100 hash) 0 (mkBlockInfo 101 (hash + 1))
    (mkCutEnv true true true)
    (mkSolveEnv (fun _ => mkSolveAnswer true (Ok tt) (Ok true) (Ok [sample_response])) 100
       (mkPostEnv true true true true true)).
Definition keep_cache (_ : RunEnv) (_ : Z) (_ : bool) (cache : CacheState) : comp (result string unit * CacheState) :=
  Ret (Ok tt, cache).
Definition sample_iteration (hash : Z) : LoopState -> comp LoopState :=
  run_iteration sample_config id f64_trunc (fun _ => None) keep_cache (sample_env hash).
Definition sample_state : LoopState :=
  match sample_iteration 1 (loop_init sample_config 0 (sample_cache 100 [1; 3]) sample_db) with
  | Ret st => st
  | Panic => loop_init sample_config 0 (sample_cache 100 [1; 3]) sample_db
  end.

Definition sample_started : Started :=
  mkStarted 7 "driver" (mkBidSolution 0 7 {[ 1 := mkTradedOrder Sell (mkAsset 1 1000) (mkAsset 2 900) 1000 950 ]}
                          (<[1 := 100]> (<[2 := 100]> ∅))) 0 105.

Lemma sample_reached : sample_iteration 1 (loop_init sample_config 0 (sample_cache 100 [1; 3]) sample_db) = Ret sample_state.
Proof. vm_compute. reflexivity. Qed.

(** The order 1 is being settled, so that the next auction has the order 3 only. *)
Lemma in_flight_orders_left_out_witness :
  exists auction db,
    cut_auction (mkCutEnv true true true) (sample_cache 101 [1; 3]) (ls_db sample_state) = (Some auction, db) /\
    (1 ∉ (do_uid <$> au_orders auction)) /\ OrderUid_owner 1 ∉ au_surplus_capturing_jit_order_owners auction.
Proof.
  do 2 eexists. split; [vm_compute; reflexivity|].
  eapply (in_flight_orders_left_out sample_config id f64_trunc (fun _ => None) keep_cache 0 (sample_cache 100 [1; 3]) sample_db
    sample_state sample_started 1 (mkCutEnv true true true) (sample_cache 101 [1; 3]) _ _).
  - intros id uid [e He]. vm_compute in He. discriminate He.
  - eapply rtc_once, step_iterate, sample_reached.
  - vm_compute. left.
  - vm_compute. by eexists.
  - reflexivity.
  - vm_compute. reflexivity.
  - vm_compute. reflexivity.
  - vm_compute. reflexivity.
Defined.

(** The comment of [next_auction] says that solvers only run when the auction or the block has
    changed, but the block of a run whose auction is new is not remembered: the same
    auction is run a second time in the same block. *)
Lemma same_auction_runs_twice :
  let next := next_auction (mkCutEnv true true true) (sample_cache 100 [1; 3]) 1 in
  match next None None sample_db with
  | (Some a, prev, block, db) =>
      match next prev block db with
      | (Some b, _, block', _) => auction_eqb a b = true /\ block' = Some 1
      | _ => False
      end
  | _ => False
  end.
Proof. vm_compute. done. Qed.

(** Both writes of a settlement are sent off as tasks of their own: the outcome is lost when
    it is written before the row is there. *)
Lemma early_outcome_lost :
  exists res writes, settle sample_started 10 100 [] (O, Err "refused"%string) 11 100 = Some (res, writes) /\
    er_end <$> rd_executions (foldl (fun db w => settle_write w db) sample_db (rev writes)) !! (7, 7, 0) = Some None.
Proof.
  exists (Err (SettleOther "refused")), [WriteStarted sample_started 10 100; WriteEnded sample_started 11 100 "driver failed: refused"].
  split; [reflexivity|vm_compute; reflexivity].
Qed.

(** The gauge stays at 1 when the session of the leader dies and another one has the lock. *)
Lemma lost_leader_gauge :
  let '(t, gauge) := tracker_try_acquire (mkAcquireEnv 1000 true (Ok tt) (Ok true)) (LeaderLockTracker_new (Some (LeaderLock_new 0 200))) 0 in
  let '(t', gauge') := tracker_try_acquire (mkAcquireEnv 2000 false (Ok tt) (Ok false)) t gauge in
  is_leader t = true /\ gauge = 1 /\ is_leader t' = false /\ gauge' = 1.
Proof. vm_compute. done. Qed.
