(* ===== verification/CowAmm.v ===== *)
(** * CowAmm: the AMMs that trade through the settlement contract

    [cow-amm/src] ([amm.rs], [cache.rs], [registry.rs], [maintainers.rs]), the table of
    [database/src/cow_amms.rs] and the driver's cache [driver/src/domain/cow_amm.rs].

    What a helper contract answers is a parameter.  The cache of a factory maps the block an
    AMM was created at to the AMMs created there; the table is keyed by the AMM. *)

From stdpp Require Import base gmap sets list strings.
From Stdlib Require Import ZArith Lia.
From S2P Require Import Prelude Collections Eth Solution Score DriverOrder OrderModel.

Open Scope Z_scope.
Open Scope rust_scope.

(** ** An AMM *)
Record Amm := mkAmm { amm_address : address; amm_tradeable_tokens : list address }.

Inductive ContractError := TransportFailure | OtherContractError.

(** [helper.tokens]. *)
Definition Amm_new (tokens : address -> result ContractError (list address)) (a : address) : result ContractError Amm :=
  letr tradeable_tokens := tokens a in Ok (mkAmm a tradeable_tokens).

(** *** Template orders *)

(** What a helper contract returns for an order; the kinds are hashes of their names. *)
Record OrderReturn := mkOrderReturn {
  hr_sell_token : address;
  hr_buy_token : address;
  hr_receiver : address;
  hr_sell_amount : Z;
  hr_buy_amount : Z;
  hr_valid_to : Z;
  hr_app_data : Z;
  hr_fee_amount : Z;
  hr_kind : Z;
  hr_partially_fillable : bool;
  hr_sell_token_balance : Z;
  hr_buy_token_balance : Z;
  hr_pre_interactions : list EthInteraction;
  hr_post_interactions : list EthInteraction;
  hr_sig : list Z;
}.

Record TemplateOrder := mkTemplateOrder {
  to_order : OrderData;
  to_signature : OrderSignature;
  to_pre_interactions : list EthInteraction;
  to_post_interactions : list EthInteraction;
}.

Definition convert_kind (bytes : Z) : result string Side :=
  if bytes =? KIND_SELL then Ok Sell else if bytes =? KIND_BUY then Ok Buy else Err "unknown order type"%string.

Definition convert_sell_token_source (bytes : Z) : result string SellTokenBalance :=
  if bytes =? BALANCE_ERC20 then Ok SellErc20
  else if bytes =? BALANCE_INTERNAL then Ok SellInternal
  else if bytes =? BALANCE_EXTERNAL then Ok SellExternal
  else Err "unknown sell token source"%string.

Definition convert_buy_token_destination (bytes : Z) : result string BuyTokenBalance :=
  if bytes =? BALANCE_ERC20 then Ok BuyErc20
  else if bytes =? BALANCE_INTERNAL then Ok BuyInternal
  else Err "unknown buy token destination"%string.

(** The signature of the helper starts with the signer, which is dropped. *)
Definition convert_orders_response (r : OrderReturn) : result string TemplateOrder :=
  letr kind := convert_kind (hr_kind r) in
  letr sell_token_balance := convert_sell_token_source (hr_sell_token_balance r) in
  letr buy_token_balance := convert_buy_token_destination (hr_buy_token_balance r) in
  Ok (mkTemplateOrder
        (mkOrderData (hr_sell_token r) (hr_buy_token r) (Some (hr_receiver r)) (hr_sell_amount r) (hr_buy_amount r)
           (hr_valid_to r) (hr_app_data r) (hr_fee_amount r) kind (hr_partially_fillable r) sell_token_balance buy_token_balance)
        (SigEip1271 (drop 20 (hr_sig r))) (hr_pre_interactions r) (hr_post_interactions r)).

Section template.
Context (keccak256 : list Z -> Z).
(** [helper.order] and the signature validator: signer, hash, signature, interactions. *)
Context (helper_order : address -> list Z -> result string OrderReturn).
Context (validate_signature : address -> Z -> list Z -> list EthInteraction -> result string Z).

Definition template_order (amm : Amm) (prices : list Z) : result string TemplateOrder :=
  letr order_return := helper_order (amm_address amm) prices in convert_orders_response order_return.

Definition validated_template_order (amm : Amm) (prices : list Z) (domain_separator : Z) : result string TemplateOrder :=
  letr template := template_order amm prices in
  let hash := hashed_eip712_message keccak256 domain_separator (hash_struct keccak256 (to_order template)) in
  letr _ := validate_signature (amm_address amm) hash (OrderSignature_to_bytes (to_signature template)) (to_pre_interactions template) in
  Ok template.
End template.

(** ** The table *)
Record CowAmmRow := mkCowAmmRow {
  ca_factory_address : address;
  ca_tradeable_tokens : list address;
  ca_block_number : Z;
  ca_tx_hash : Z;
}.

Definition try_to_db_type (amm : Amm) (block_number : Z) (factory : address) (tx_hash : Z) : option (address * CowAmmRow) :=
  if block_number <? 2 ^ 63 then Some (amm_address amm, mkCowAmmRow factory (amm_tradeable_tokens amm) block_number tx_hash)
  else None.

Definition cow_amms_upsert (table : gmap address CowAmmRow) (rows : list (address * CowAmmRow)) : gmap address CowAmmRow :=
  foldl (fun t r => <[r.1 := r.2]> t) table rows.

Definition fetch_by_factory_address (table : gmap address CowAmmRow) (factory : address) : list (address * CowAmmRow) :=
  filter (fun r => ca_factory_address r.2 = factory) (map_to_list table).

Definition delete_by_block_range (table : gmap address CowAmmRow) (factory : address) (start_block end_block : Z) : gmap address CowAmmRow :=
  filter (fun r => ~ (ca_factory_address r.2 = factory /\ start_block <= ca_block_number r.2 <= end_block)) table.

(** ** The storage of a factory *)
Record Storage := mkStorage {
  stg_cache : gmap Z (list Amm);
  stg_table : gmap address CowAmmRow;
}.

Definition cache_push (cache : gmap Z (list Amm)) (block : Z) (amm : Amm) : gmap Z (list Amm) :=
  <[block := default [] (cache !! block) ++ [amm]]> cache.

(** A created pool, with the block and transaction its log may carry. *)
Record PoolCreated := mkPoolCreated { pc_amm : address; pc_block_number : option Z; pc_transaction_hash : option Z }.

Section storage.
Context (tokens : address -> result ContractError (list address)) (factory : address).

(** The first loop of [append_events]: an error of the transport aborts. *)
Fixpoint process_events (events : list PoolCreated) : result string (list (Z * Z * Amm)) :=
  match events with
  | [] => Ok []
  | e :: events =>
      match pc_block_number e, pc_transaction_hash e with
      | Some block_number, Some tx_hash =>
          match Amm_new tokens (pc_amm e) with
          | Ok amm => letr rest := process_events events in Ok ((block_number, tx_hash, amm) :: rest)
          | Err TransportFailure => Err "transport error"%string
          | Err OtherContractError => process_events events
          end
      | _, _ => process_events events
      end
  end.

(** [stored] is whether the transaction of the database commits. *)
Definition append_events (stored : bool) (s : Storage) (events : list PoolCreated) : result string unit * Storage :=
  match process_events events with
  | Err e => (Err e, s)
  | Ok processed =>
      let rows := omap (fun '(block_number, tx_hash, amm) => try_to_db_type amm block_number factory tx_hash) processed in
      if negb (bool_decide (processed = [])) && negb stored then (Err "database error"%string, s)
      else
        (Ok tt, mkStorage (foldl (fun cache '(block, _, amm) => cache_push cache block amm) (stg_cache s) processed)
                  (cow_amms_upsert (stg_table s) rows))
  end.

(** [deleted] is whether the deletion succeeds. *)
Definition replace_events (deleted stored : bool) (s : Storage) (events : list PoolCreated) (start_block end_block : Z)
  : result string unit * Storage :=
  if negb (fits 63 start_block && fits 63 end_block) then (Err "block is not i64"%string, s)
  else if negb deleted then (Err "database error"%string, s)
  else
    let table := delete_by_block_range (stg_table s) factory start_block end_block in
    let cache := filter (fun e : Z * list Amm => ~ (start_block <= e.1 <= end_block)) (stg_cache s) in
    append_events stored (mkStorage cache table) events.

(** Rows are turned into AMMs again when the storage is created; one failure leaves the
    cache empty. *)
Fixpoint load_rows (rows : list (address * CowAmmRow)) : result string (list (Z * Amm)) :=
  match rows with
  | [] => Ok []
  | (a, row) :: rows =>
      match Amm_new tokens a with
      | Err _ => Err "contract error"%string
      | Ok amm =>
          if ca_block_number row <? 0 then Err "db stored cow amm block number is not u64"%string
          else letr rest := load_rows rows in Ok ((ca_block_number row, amm) :: rest)
      end
  end.

Definition initialize_from_database (table : gmap address CowAmmRow) : Storage :=
  match load_rows (fetch_by_factory_address table factory) with
  | Ok amms => mkStorage (foldl (fun cache '(block, amm) => cache_push cache block amm) ∅ amms) table
  | Err _ => mkStorage ∅ table
  end.
End storage.

Definition cow_amms (s : Storage) : list Amm := mjoin (map_to_list (stg_cache s)).*2.

Definition remove_amms (s : Storage) (addresses : list address) : Storage :=
  mkStorage ((fun amms => filter (fun amm => (amm_address amm ∉ addresses)) amms) <$> stg_cache s) (stg_table s).

(** [Registry::amms]. *)
Definition registry_amms (storages : list Storage) : list Amm := mjoin (cow_amms <$> storages).

(** ** Removing empty pools *)

(** [select_ok] over the tokens panics when there are none. *)
Definition has_zero_balance (balance_of : address -> address -> result string Z) (amm : Amm) : comp bool :=
  match amm_tradeable_tokens amm with
  | [] => Panic
  | tokens => Ret (existsb (fun token => match balance_of token (amm_address amm) with Ok b => b =? 0 | Err _ => false end) tokens)
  end.

Fixpoint empty_amms (balance_of : address -> address -> result string Z) (amms : list Amm) : comp (list address) :=
  match amms with
  | [] => Ret []
  | amm :: amms =>
      let! empty := has_zero_balance balance_of amm in
      let! rest := empty_amms balance_of amms in
      Ret (if empty then amm_address amm :: rest else rest)
  end.

Definition run_maintenance (balance_of : address -> address -> result string Z) (storages : list Storage) : comp (list Storage) :=
  let! empty := empty_amms balance_of (registry_amms storages) in
  Ret (if bool_decide (empty = []) then storages else (fun s => remove_amms s empty) <$> storages).

(** ** The driver's cache *)
Section cache.
(** The factory of an AMM, and the tokens a helper reports for it. *)
Context (fetch_amm_factory_address : address -> result string address).
Context (helper_by_factory : gmap address (address -> result ContractError (list address))).

Definition create_amm (a : address) : option Amm :=
  let? factory := ok (fetch_amm_factory_address a) in
  let? helper := helper_by_factory !! factory in
  ok (Amm_new helper a).

(** [owners] are the owners in the order of the set. *)
Definition get_or_create_amms (cache : gmap address Amm) (owners : list address) : list Amm * gmap address Amm :=
  let cached := omap (fun a => cache !! a) owners in
  let missing := filter (fun a => cache !! a = None) owners in
  let created := omap create_amm missing in
  (cached ++ created, foldl (fun cache amm => <[amm_address amm := amm]> cache) cache created).
End cache.

(** ** Template orders reach the settlement unchanged *)

(** The answer of a helper that proposes [d], with the signer in front of the signature. *)
Definition helper_answer (d : OrderData) (receiver : address) (owner : address) (signature : list Z)
  (pre post : list EthInteraction) : OrderReturn :=
  mkOrderReturn (od_sell_token d) (od_buy_token d) receiver (od_sell_amount d) (od_buy_amount d) (od_valid_to d) (od_app_data d)
    (od_fee_amount d) (kind_bytes (od_kind d)) (od_partially_fillable d) (sell_source_bytes (od_sell_token_balance d))
    (buy_destination_bytes (od_buy_token_balance d)) pre post (be_bytes 20 owner ++ signature).

Lemma template_round_trip d receiver owner signature pre post :
  od_receiver d = Some receiver ->
  exists t, convert_orders_response (helper_answer d receiver owner signature pre post) = Ok t /\ to_order t = d /\
    encode_for_settlement (to_signature t) owner = be_bytes 20 owner ++ signature /\
    to_pre_interactions t = pre /\ to_post_interactions t = post.
Proof.
  intros Hr. unfold convert_orders_response, helper_answer. cbn [hr_kind hr_sell_token_balance hr_buy_token_balance].
  assert (convert_kind (kind_bytes (od_kind d)) = Ok (od_kind d)) as -> by (by destruct (od_kind d)).
  assert (convert_sell_token_source (sell_source_bytes (od_sell_token_balance d)) = Ok (od_sell_token_balance d)) as ->
    by (by destruct (od_sell_token_balance d)).
  assert (convert_buy_token_destination (buy_destination_bytes (od_buy_token_balance d)) = Ok (od_buy_token_balance d)) as ->
    by (by destruct (od_buy_token_balance d)).
  eexists. split; [reflexivity|]. split; [destruct d; cbn in *; by rewrite Hr|]. split; [|done].
  cbn [to_signature hr_sig encode_for_settlement]. by rewrite drop_app_length' by (symmetry; apply length_be_bytes).
Qed.

(** ** The cache holds what the table holds *)
Section synced.
Context (tokens : address -> result ContractError (list address)) (factory : address).

(** Every cached AMM is in the table, at the block it is cached for. *)
Definition cached_at (cache : gmap Z (list Amm)) (block : Z) (a : address) : Prop :=
  exists amms amm, cache !! block = Some amms /\ amm ∈ amms /\ amm_address amm = a.
Definition synced (s : Storage) : Prop := forall block a,
  cached_at (stg_cache s) block a ->
  exists row, stg_table s !! a = Some row /\ ca_factory_address row = factory /\ ca_block_number row = block.

Lemma cached_at_push cache b amm block a :
  cached_at (cache_push cache b amm) block a <-> cached_at cache block a \/ (block = b /\ a = amm_address amm).
Proof.
  unfold cached_at, cache_push. destruct (decide (block = b)) as [->|Hb].
  - rewrite lookup_insert_eq. split.
    + intros (amms & x & [= <-] & Hx & <-). apply elem_of_app in Hx as [Hx|Hx%list_elem_of_singleton]; [|subst; by right].
      destruct (cache !! b) as [l|] eqn:E; cbn in Hx; [left; eauto|by apply not_elem_of_nil in Hx].
    + intros [(amms & x & Hl & Hx & <-)|[_ ->]].
      * rewrite Hl. cbn. exists (amms ++ [amm]), x. rewrite elem_of_app. eauto.
      * exists (default [] (cache !! b) ++ [amm]), amm. rewrite elem_of_app, list_elem_of_singleton. eauto.
  - rewrite lookup_insert_ne by done. naive_solver.
Qed.

Lemma cached_at_append (processed : list (Z * Z * Amm)) : forall cache block a,
  cached_at (foldl (fun cache '(block, _, amm) => cache_push cache block amm) cache processed) block a <->
  cached_at cache block a \/ exists tx_hash amm, (block, tx_hash, amm) ∈ processed /\ amm_address amm = a.
Proof.
  induction processed as [|[[b tx] amm] l IH]; intros cache block a; cbn [foldl].
  - split; [by left|]. intros [H|(? & ? & []%not_elem_of_nil & _)]. done.
  - rewrite IH, cached_at_push. setoid_rewrite elem_of_cons. naive_solver.
Qed.

Lemma upsert_lookup rows : forall table a,
  NoDup rows.*1 ->
  cow_amms_upsert table rows !! a = match (list_to_map rows : gmap address CowAmmRow) !! a with Some r => Some r | None => table !! a end.
Proof.
  induction rows as [|[b r] rows IH]; intros table a Hnd; [done|].
  apply NoDup_cons in Hnd as [Hb Hnd]. cbn [cow_amms_upsert foldl]. unfold cow_amms_upsert in IH. rewrite IH by done.
  rewrite list_to_map_cons. cbn [fst snd]. destruct (decide (a = b)) as [->|Hab].
  - by rewrite !lookup_insert_eq, (not_elem_of_list_to_map_1 rows b).
  - by rewrite !lookup_insert_ne.
Qed.

Lemma process_events_sub events : forall processed, process_events tokens events = Ok processed ->
  ((fun p => (amm_address p.2, Some p.1.1)) <$> processed) `sublist_of` ((fun e => (pc_amm e, pc_block_number e)) <$> events).
Proof.
  induction events as [|e events IH]; intros processed; cbn [process_events]; [by intros [= <-]|].
  destruct (pc_block_number e) as [b|] eqn:Eb; [|intros H; apply sublist_cons; by apply IH].
  destruct (pc_transaction_hash e) as [tx|]; [|intros H; apply sublist_cons; by apply IH].
  destruct (Amm_new tokens (pc_amm e)) as [amm|[]] eqn:Ea; [|done|intros H; apply sublist_cons; by apply IH].
  intros H. apply result_bind_Ok in H as (rest & Hrest & [= <-]). cbn. rewrite Eb.
  assert (amm_address amm = pc_amm e) as ->; [|apply sublist_skip; by apply IH].
  unfold Amm_new in Ea. apply result_bind_Ok in Ea as (l & _ & [= <-]). done.
Qed.

(** New pools: each is created once, at a block the table can hold. *)
Definition new_pools (cache : gmap Z (list Amm)) (events : list PoolCreated) : Prop :=
  NoDup (pc_amm <$> events) /\
  Forall (fun e => forall b, pc_block_number e = Some b -> b < 2 ^ 63 /\ forall b', ~ cached_at cache b' (pc_amm e)) events.

Lemma append_synced stored s events r s' :
  synced s -> new_pools (stg_cache s) events -> append_events tokens factory stored s events = (r, s') -> synced s'.
Proof.
  intros Hs [Hnd Hnew] Happ. unfold append_events in Happ.
  destruct (process_events tokens events) as [processed|] eqn:Ep; [|by injection Happ as <- <-].
  destruct (negb _ && negb stored); [by injection Happ as <- <-|]. injection Happ as <- <-.
  apply process_events_sub in Ep as Hsub.
  assert (forall b tx amm, (b, tx, amm) ∈ processed -> b < 2 ^ 63 /\ forall b', ~ cached_at (stg_cache s) b' (amm_address amm)) as Hp.
  { intros b tx amm Hin. assert ((amm_address amm, Some b) ∈ (fun e => (pc_amm e, pc_block_number e)) <$> events) as He.
    { eapply sublist_subseteq; [exact Hsub|]. apply list_elem_of_fmap. by exists (b, tx, amm). }
    apply list_elem_of_fmap in He as (e & [= -> Eb] & He). rewrite Forall_forall in Hnew. by apply Hnew. }
  set (row := fun p : Z * Z * Amm => (amm_address p.2, mkCowAmmRow factory (amm_tradeable_tokens p.2) p.1.1 p.1.2)).
  set (rows := omap _ processed). assert (rows = row <$> processed) as Hrows.
  { subst rows. clear Hsub Ep. induction processed as [|[[b tx] amm] l IH]; [done|]. cbn [omap list_omap fmap list_fmap].
    unfold try_to_db_type at 1. destruct (Z.ltb_spec b (2 ^ 63)) as [_|Hb]; [|destruct (Hp b tx amm); [left|lia]].
    f_equal. apply IH. intros b' tx' amm' Hin. apply (Hp b' tx'). by right. }
  assert (NoDup rows.*1) as Hrnd.
  { rewrite Hrows, <- list_fmap_compose. eapply sublist_NoDup; [exact Hnd|].
    apply (fmap_sublist fst) in Hsub. rewrite <- !list_fmap_compose in Hsub. exact Hsub. }
  intros block a Hc. cbn [stg_cache stg_table] in *. rewrite upsert_lookup by done. apply cached_at_append in Hc as [Hc|(tx & amm & Hin & <-)].
  - destruct (list_to_map rows !! a) as [r|] eqn:El; [|by apply Hs].
    apply elem_of_list_to_map_2 in El. rewrite Hrows in El. apply list_elem_of_fmap in El as ([[b tx] amm] & [= -> ->] & Hin).
    exfalso. by apply (proj2 (Hp b tx amm Hin) block).
  - rewrite (elem_of_list_to_map_1 rows (amm_address amm) (row (block, tx, amm)).2); [|done|].
    + eexists. split; [reflexivity|done].
    + rewrite Hrows. apply list_elem_of_fmap. by exists (block, tx, amm).
Qed.

(** Re-indexing a range of blocks after a reorganisation. *)
Lemma replace_synced deleted stored s events start_block end_block r s' :
  synced s ->
  new_pools (filter (fun e : Z * list Amm => ~ (start_block <= e.1 <= end_block)) (stg_cache s)) events ->
  replace_events tokens factory deleted stored s events start_block end_block = (r, s') -> synced s'.
Proof.
  intros Hs Hnew. unfold replace_events. destruct (fits 63 start_block && fits 63 end_block); cbn [negb]; [|by intros [= <- <-]].
  destruct deleted; cbn [negb]; [|by intros [= <- <-]]. apply append_synced; [|done].
  intros block a (amms & amm & Hl & Hin & Ha). cbn [stg_cache stg_table] in *.
  apply map_lookup_filter_Some in Hl as [Hl Hb]. cbn [fst] in Hb.
  destruct (Hs block a) as (row & Hrow & Hf & Hbl); [by exists amms, amm|]. exists row. split; [|done].
  apply map_lookup_filter_Some. split; [done|]. cbn [snd]. rewrite Hbl. tauto.
Qed.

(** Removing empty pools only forgets cached ones. *)
Lemma remove_synced s addresses : synced s -> synced (remove_amms s addresses).
Proof.
  intros Hs block a (amms & amm & Hl & Hin & Ha). apply Hs. cbn [stg_cache remove_amms] in Hl. rewrite lookup_fmap in Hl.
  destruct (stg_cache s !! block) as [l|] eqn:El; [|done]. injection Hl as <-. apply list_elem_of_filter in Hin as [_ Hin].
  by exists l, amm.
Qed.
End synced.

(** A helper that reports no tokens for an AMM brings the maintenance down. *)
Example no_tokens_panics balance_of : run_maintenance balance_of [mkStorage {[ 7 := [mkAmm 1 []] ]} ∅] = Panic.
Proof. done. Qed.

(** The driver creates an AMM once: asked again it answers from the cache, and what it
    could not create before is tried again. *)
Lemma get_or_create_cached fetch helpers cache owners a amm :
  cache !! a = Some amm -> a ∈ owners -> amm ∈ (get_or_create_amms fetch helpers cache owners).1.
Proof.
  intros Ha Ho. unfold get_or_create_amms. cbn [fst]. apply elem_of_app. left. apply list_elem_of_omap. by exists a.
Qed.
