(* ===== verification/DriverSimulation.v ===== *)
(** * DriverSimulation: settlements that are known to execute

    [driver/src/domain/competition/solution/settlement.rs] (creating a settlement),
    [driver/src/infra/simulator/mod.rs], the queries of
    [driver/src/infra/blockchain/mod.rs] and the access lists of
    [driver/src/domain/eth/mod.rs].

    A solution becomes a settlement when its transactions are encoded
    ([DriverEncoding]), simulated with and without internalizations, fit in half a block
    and can be paid for by the solver.  The node and the two services that simulate
    transactions are the class [Node]. *)

From stdpp Require Import base gmap sets list strings.
From Stdlib Require Import ZArith Lia.
From S2P Require Import Prelude Collections F64 Eth Liquidity Solution Score DriverOrder DriverTrade.
From S2P Require Import OrderModel DriverScore DriverSolution DriverCompetition DriverEncoding AutopilotSettlement GasPrices.

Open Scope Z_scope.
Open Scope rust_scope.

(** ** Access lists *)
Abbreviation AccessList := (gmap address (gset Z)).

(** The loop over the entries of the other list. *)
Definition extend_keys (acc : AccessList) (entry : address * gset Z) : AccessList :=
  <[entry.1 := default ∅ (acc !! entry.1) ∪ entry.2]> acc.
Definition AccessList_merge (self other : AccessList) : AccessList :=
  foldl extend_keys self (map_to_list other).

(** ** Transactions *)
Record EthTx := mkEthTx {
  etx_from : address;
  etx_to : address;
  etx_value : Z;
  etx_input : list Z;
  etx_access_list : AccessList;
}.

Definition set_access_list (tx : EthTx) (access_list : AccessList) : EthTx :=
  mkEthTx (etx_from tx) (etx_to tx) (etx_value tx) (etx_input tx) access_list.

(** The transaction [encoding::tx] returns. *)
Definition of_encoded (tx : Tx) : EthTx := mkEthTx (tx_from tx) (tx_to tx) 0 (tx_input tx) ∅.

(** The request sent to a node. *)
Record TransactionRequest := mkTransactionRequest {
  req_tx : EthTx;
  req_gas_price : option Z;
  req_gas_limit : option Z;
}.
Definition to_request (tx : EthTx) : TransactionRequest := mkTransactionRequest tx None None.
Definition with_gas_price (req : TransactionRequest) (price : option Z) : TransactionRequest :=
  mkTransactionRequest (req_tx req) (match price with Some p => Some p | None => req_gas_price req end) (req_gas_limit req).
Definition with_gas_limit (req : TransactionRequest) (limit : Z) : TransactionRequest :=
  mkTransactionRequest (req_tx req) (req_gas_price req) (Some limit).

(** ** The node and the simulators *)

(** An error of the transport, or a response of the node that reports one. *)
Inductive RpcError := ErrorResp | TransportError.

Inductive BlockchainError :=
| ContractRpc
| Rpc (e : RpcError)
| GasPriceError (msg : string)
| AccessListError (msg : string).

Definition is_revert (e : BlockchainError) : bool :=
  match e with
  | GasPriceError _ => false
  | AccessListError _ | ContractRpc => true
  | Rpc ErrorResp => true
  | Rpc TransportError => false
  end.

Inductive SimulatorError :=
| TenderlyHttp | TenderlyRevert
| Blockchain (e : BlockchainError)
| EnsoHttp | EnsoRevert
| GasExceeded (needed limit : Z).

Inductive SimulationError :=
| SimRevert (err : SimulatorError) (tx : EthTx) (block : Z)
| SimOther (err : SimulatorError).

Inductive Inner := Tenderly | Ethereum | Enso.

Record Simulator := mkSimulator {
  sim_inner : Inner;
  sim_disable_access_lists : bool;
  sim_disable_gas : option Z;
}.

Class Node := {
  block_number : Z;
  block_base_fee : Z;
  block_gas_limit : Z;
  tx_gas_limit : Z;
  rpc_estimate_gas : TransactionRequest -> result RpcError Z;
  (** The access list, or the error the node found while it computed one. *)
  rpc_create_access_list : TransactionRequest -> result RpcError (result string AccessList);
  rpc_is_contract : address -> result RpcError bool;
  rpc_balance : address -> result RpcError Z;
  rpc_allowance : address -> address -> result RpcError Z;
  (** The price of [GasPriceEstimator::estimate]. *)
  estimated_gas_price : result string Eip1559Estimation;
  tenderly_simulate : EthTx -> bool -> result SimulatorError (AccessList * Z);
  enso_simulate : EthTx -> result SimulatorError Z;
}.

Section node.
Context `{Node}.
Context (calc_effective_gas_price : Z -> Z -> option Z -> Z).

Definition simulation_gas_price : option Z :=
  let? g := ok estimated_gas_price in Some (effective calc_effective_gas_price g block_base_fee).

Definition estimate_gas (tx : EthTx) : result BlockchainError Z :=
  map_err Rpc (rpc_estimate_gas (with_gas_price (to_request tx) simulation_gas_price)).

Definition create_access_list (tx : EthTx) : result BlockchainError AccessList :=
  letr limit := if fits 64 tx_gas_limit then Ok tx_gas_limit else Err (GasPriceError "failed to convert gas_limit to u64") in
  let req := with_gas_price (with_gas_limit (to_request tx) limit) simulation_gas_price in
  letr answer := map_err Rpc (rpc_create_access_list req) in
  map_err AccessListError answer.

Definition node_gas_price : result BlockchainError Eip1559Estimation := map_err GasPriceError estimated_gas_price.

(** [with]: which errors mean that the transaction itself fails. *)
Definition sim_error_with (tx : EthTx) (block : Z) (err : SimulatorError) : SimulationError :=
  match err with
  | TenderlyHttp | EnsoHttp => SimOther err
  | TenderlyRevert | EnsoRevert | Blockchain _ | GasExceeded _ _ => SimRevert err tx block
  end.

Definition sim_access_list (self : Simulator) (tx : EthTx) : result SimulationError AccessList :=
  if sim_disable_access_lists self then Ok (etx_access_list tx)
  else
    letr access_list :=
      match sim_inner self with
      | Tenderly => letr s := map_err (sim_error_with tx block_number) (tenderly_simulate tx true) in Ok s.1
      | Ethereum | Enso => map_err (fun e => sim_error_with tx block_number (Blockchain e)) (create_access_list tx)
      end in
    Ok (AccessList_merge (etx_access_list tx) access_list).

Definition sim_gas (self : Simulator) (tx : EthTx) : result SimulationError Z :=
  match sim_disable_gas self with
  | Some gas => Ok gas
  | None =>
      match sim_inner self with
      | Tenderly => letr s := map_err (sim_error_with tx block_number) (tenderly_simulate tx false) in Ok s.2
      | Ethereum => map_err (fun e => sim_error_with tx block_number (Blockchain e)) (estimate_gas tx)
      | Enso => map_err (sim_error_with tx block_number) (enso_simulate tx)
      end
  end.

(** ** Creating a settlement *)
Inductive SettlementError :=
| SeBlockchain (e : BlockchainError)
| SeSimulation (e : SimulationError)
| SeNonBufferableTokensUsed (tokens : gset address)
| SeGasLimitExceeded (estimate limit : Z)
| SeSolverAccountInsufficientBalance (required : Z)
| SeEncoding (e : EncodingError).

Record SettlementTx := mkSettlementTx {
  stx_internalized : EthTx;
  stx_uninternalized : EthTx;
  stx_may_revert : bool;
}.
Definition with_access_list (t : SettlementTx) (access_list : AccessList) : SettlementTx :=
  mkSettlementTx (set_access_list (stx_internalized t) access_list) (set_access_list (stx_uninternalized t) access_list)
    (stx_may_revert t).

Record DriverSettlement := mkDriverSettlement {
  ds_auction_id : Z;
  ds_transaction : SettlementTx;
  ds_gas : SettlementGas;
  ds_solution : DriverSolution.Solution;
}.

Definition settlement_transaction (s : DriverSettlement) (i : Internalization) : EthTx :=
  match i with Enable => stx_internalized (ds_transaction s) | Disable => stx_uninternalized (ds_transaction s) end.
Definition settlement_may_revert (s : DriverSettlement) : bool := stx_may_revert (ds_transaction s).

Definition simulate (simulator : Simulator) (tx : EthTx) (partial_access_list : AccessList)
  : result SettlementError (AccessList * Z) :=
  let tx := set_access_list tx partial_access_list in
  letr access_list := map_err SeSimulation (sim_access_list simulator tx) in
  let tx := set_access_list tx access_list in
  letr gas := map_err SeSimulation (sim_gas simulator tx) in
  Ok (access_list, gas).

(** [try_join_all]: one of the errors, the first to occur, when there are any. *)
Context (first_failure : list SettlementError -> SettlementError).
Definition try_join_all {A} (results : list (result SettlementError A)) : result SettlementError (list A) :=
  match omap (fun r => match r with Err e => Some e | Ok _ => None end) results with
  | [] => Ok (omap ok results)
  | errors => Err (first_failure errors)
  end.

(** [Order::receiver]. *)
Definition receiver (o : DriverOrder.Order) : address := default (sig_signer (order_signature o)) (order_receiver o).

Definition pays_to_contract (o : DriverOrder.Order) : result BlockchainError bool :=
  map_err Rpc (rpc_is_contract (receiver o)).

(** The access list of sending one wei to the receiver of a trade. *)
Definition trade_access_list (simulator : Simulator) (solver : address) (f : Fulfillment) : result SettlementError AccessList :=
  let o := f_order f in
  if negb (buys_eth o) then Ok ∅
  else
    letr contract := map_err SeBlockchain (pays_to_contract o) in
    if negb contract then Ok ∅
    else map_err SeSimulation (sim_access_list simulator (mkEthTx solver (receiver o) 1 [] ∅)).

Context (f64_from_u256 : Z -> f64) (u256_from_f64 : f64 -> Z).

Definition Settlement_new (simulator : Simulator) (auction_id : Z) (solution : DriverSolution.Solution)
  (transaction : SettlementTx) : result SettlementError DriverSettlement :=
  letr lists := try_join_all (trade_access_list simulator (sol_solver solution) <$> user_trades solution) in
  let partial_access_list := foldl AccessList_merge ∅ lists in
  letr (access_list, gas) := simulate simulator (stx_internalized transaction) partial_access_list in
  letr price := map_err SeBlockchain node_gas_price in
  letr gas := map_err (fun e => SeGasLimitExceeded e.1 e.2) (SettlementGas_new f64_from_u256 u256_from_f64 gas block_gas_limit) in
  let required := required_balance gas (saturating_mul (max_fee_per_gas price) 2) in
  letr balance := map_err (fun e => SeBlockchain (Rpc e)) (rpc_balance (sol_solver solution)) in
  if balance <? required then Err (SeSolverAccountInsufficientBalance required)
  else
    letr _ := if existsb internalize (sol_interactions solution)
              then letr _ := simulate simulator (stx_uninternalized transaction) partial_access_list in Ok tt
              else Ok tt in
    Ok (mkDriverSettlement auction_id (with_access_list transaction access_list) gas solution).

(** The tokens internalized interactions take from the settlement contract that it does not
    trust. *)
Definition untrusted_tokens (tokens : gmap address DriverToken) (solution : DriverSolution.Solution) : gset address :=
  let inputs := flat_map interaction_inputs (filter (fun i => internalize i = true) (sol_interactions solution)) in
  list_to_set (filter (fun t => negb (default false (dt_trusted <$> tokens !! t)) = true) (asset_token <$> inputs)).

(** [Solution::approvals]. *)
Definition node_approvals (s : DriverSolution.Solution) (i : Internalization) : result SettlementError (list DriverSolution.Allowance) :=
  letr existing := try_join_all ((fun r : DriverSolution.Allowance =>
                     letr a := map_err (fun e => SeBlockchain (Rpc e)) (rpc_allowance (al_token r) (al_spender r)) in
                     Ok (r, mkAllowance (al_token r) (al_spender r) a)) <$> allowances s i) in
  Ok (omap (fun e => Required_approval e.1 e.2) existing).

Context `{SettlementAbi}.
Context (swap : LiquidityKind -> Asset -> Asset -> address -> option EthInteraction).

Definition Settlement_encode (simulator : Simulator) (solution : DriverSolution.Solution) (auction : DriverAuction)
  (contracts : Contracts) (slippage : SlippageParameters) (insert_unwraps : bool)
  : comp (result SettlementError DriverSettlement) :=
  let untrusted := untrusted_tokens (da_tokens auction) solution in
  if negb (bool_decide (untrusted = ∅)) then Ret (Err (SeNonBufferableTokensUsed untrusted))
  else
    let encode i :=
      let!r approvals := Ret (node_approvals solution i) in
      let! tx := encoding_tx swap (da_id auction) solution contracts approvals i slippage insert_unwraps in
      Ret (map_err SeEncoding tx) in
    let!r internalized := encode Enable in
    let!r uninternalized := encode Disable in
    let! id := expect (da_id auction) in
    Ret (Settlement_new simulator id solution
           (mkSettlementTx (of_encoded internalized) (of_encoded uninternalized) (revertable solution))).

(** [Competition::simulate_settlement]. *)
Definition simulate_settlement (simulator : Simulator) (s : DriverSettlement) : result SimulationError unit :=
  let tx := settlement_transaction s Enable in
  letr gas_needed := sim_gas simulator tx in
  if gas_limit (ds_gas s) <? gas_needed
  then Err (SimRevert (GasExceeded gas_needed (gas_limit (ds_gas s))) tx block_number)
  else Ok tt.
End node.

(** ** Access lists only grow *)
Definition join_keys (x y : gset Z) : option (gset Z) := Some (x ∪ y).

Lemma foldl_extend_keys l acc a :
  NoDup (l.*1) -> foldl extend_keys acc l !! a = union_with join_keys (acc !! a) (list_to_map (M := AccessList) l !! a).
Proof.
  revert acc. induction l as [|[b keys] l IH]; intros acc Hnd.
  - cbn [foldl]. rewrite list_to_map_nil, lookup_empty. by destruct (acc !! a).
  - apply NoDup_cons in Hnd as [Hb Hnd]. cbn [foldl]. rewrite IH by done. rewrite list_to_map_cons. unfold extend_keys. cbn [fst snd].
    destruct (decide (a = b)) as [->|Hne].
    + rewrite !lookup_insert_eq. rewrite (not_elem_of_list_to_map_1 l b) by done.
      destruct (acc !! b) as [x|]; cbn; [done|]. by rewrite (left_id_L ∅ (∪)).
    + by rewrite !lookup_insert_ne by done.
Qed.

(** Merging is the union of the lists, address by address. *)
Lemma AccessList_merge_union self other : AccessList_merge self other = union_with join_keys self other.
Proof.
  apply map_eq. intros a. unfold AccessList_merge. rewrite foldl_extend_keys by apply NoDup_fst_map_to_list.
  by rewrite list_to_map_to_list, lookup_union_with.
Qed.

(** Every key of the first list is one of the second. *)
Definition covers (big small : AccessList) : Prop :=
  forall a keys, small !! a = Some keys -> exists keys', big !! a = Some keys' /\ keys ⊆ keys'.

Lemma covers_refl l : covers l l.
Proof. intros a keys Ha. by exists keys. Qed.

Lemma merge_covers self other : covers (AccessList_merge self other) self /\ covers (AccessList_merge self other) other.
Proof.
  rewrite AccessList_merge_union. split; intros a keys Ha; rewrite lookup_union_with, Ha.
  - destruct (other !! a) as [k|]; cbn; eexists; (split; [done|set_solver]).
  - destruct (self !! a) as [k|]; cbn; eexists; (split; [done|set_solver]).
Qed.

(** ** Transactions without internalizations *)
Definition no_internalized (s : DriverSolution.Solution) : Prop := existsb internalize (sol_interactions s) = false.

Section encoded_alike.
Context `{SettlementAbi}.
Context (swap : LiquidityKind -> Asset -> Asset -> address -> option EthInteraction).

Lemma encode_interactions_alike slippage settlement l :
  existsb internalize l = false ->
  encode_interactions swap slippage settlement Enable l = encode_interactions swap slippage settlement Disable l.
Proof.
  induction l as [|i l IH]; intros Hl; [done|]. cbn [existsb] in Hl. apply orb_false_iff in Hl as [Hi Hl].
  cbn [encode_interactions]. by rewrite Hi, (IH Hl).
Qed.

Lemma allowances_alike s : no_internalized s -> allowances s Enable = allowances s Disable.
Proof.
  intros Hs. unfold allowances, normalized_allowances. do 4 f_equal. unfold no_internalized in Hs.
  induction (sol_interactions s) as [|i l IH]; [done|]. cbn [existsb flat_map] in *. apply orb_false_iff in Hs as [Hi Hl].
  rewrite Hi. cbn [andb]. f_equal. by apply IH.
Qed.

Lemma encoding_tx_alike id s contracts approvals slippage unwraps :
  no_internalized s ->
  encoding_tx swap id s contracts approvals Enable slippage unwraps =
  encoding_tx swap id s contracts approvals Disable slippage unwraps.
Proof.
  intros Hs. unfold encoding_tx, settle_call. destruct (clearing_prices s) as [prices|]; [|done]. cbn [comp_bind].
  destruct (encode_trades _ _ _) as [e|]; cbn [comp_rbind]; [|done]. by rewrite (encode_interactions_alike _ _ _ Hs).
Qed.
End encoded_alike.

(** ** What a settlement promises *)
Section settlements.
Context `{Node} `{SettlementAbi}.
Context (calc_effective_gas_price : Z -> Z -> option Z -> Z) (first_failure : list SettlementError -> SettlementError).
Context (f64_from_u256 : Z -> f64) (u256_from_f64 : f64 -> Z).
Context (swap : LiquidityKind -> Asset -> Asset -> address -> option EthInteraction).
Local Abbreviation gas := (sim_gas calc_effective_gas_price).
Local Abbreviation simulated := (simulate calc_effective_gas_price).
Local Abbreviation create := (Settlement_new calc_effective_gas_price first_failure f64_from_u256 u256_from_f64).

Lemma simulate_Ok simulator tx partial access_list g :
  simulated simulator tx partial = Ok (access_list, g) -> gas simulator (set_access_list tx access_list) = Ok g.
Proof.
  intros Hs. unfold simulate in Hs. apply result_bind_Ok in Hs as (l & Hl & Hs).
  apply result_bind_Ok in Hs as (g' & Hg%map_err_Ok & Hs). by injection Hs as -> ->.
Qed.

Lemma simulate_covers simulator tx partial access_list g :
  simulated simulator tx partial = Ok (access_list, g) -> covers access_list partial.
Proof.
  intros Hs. unfold simulate in Hs. apply result_bind_Ok in Hs as (l & Hl%map_err_Ok & Hs).
  apply result_bind_Ok in Hs as (g' & Hg & Hs). injection Hs as -> ->.
  unfold sim_access_list in Hl. destruct (sim_disable_access_lists simulator).
  - injection Hl as <-. apply covers_refl.
  - apply result_bind_Ok in Hl as (other & _ & [= <-]). apply merge_covers.
Qed.

(** The gas limit is at most half a block, and the fee it is checked against is exact. *)
Lemma required_balance_exact estimate g fee :
  0 <= block_gas_limit < 2 ^ 64 -> (forall x, 0 <= u256_from_f64 x) -> 0 <= fee < 2 ^ 128 ->
  SettlementGas_new f64_from_u256 u256_from_f64 estimate block_gas_limit = Ok g ->
  gas_estimate g = estimate /\ gas_estimate g <= block_gas_limit / 2 /\ gas_limit g <= block_gas_limit / 2 /\
  required_balance g (saturating_mul fee 2) = gas_limit g * (2 * fee).
Proof.
  intros Hblock Hf64 Hfee. unfold SettlementGas_new. destruct (Z.ltb_spec (block_gas_limit / 2) estimate) as [|Hest]; [done|].
  pose proof (Hf64 (f64_mul (f64_from_u256 estimate) (f64_lit 2))) as Hbuf. revert Hbuf.
  generalize (u256_from_f64 (f64_mul (f64_from_u256 estimate) (f64_lit 2))) as buf. intros buf Hbuf [= <-]. cbn [gas_estimate gas_limit].
  assert (0 <= block_gas_limit / 2 < 2 ^ 63) as Hhalf by (split; [apply Z.div_pos; lia|apply Z.div_lt_upper_bound; lia]).
  set (limit := Z.min _ _). assert (0 <= limit < 2 ^ 63 /\ limit <= block_gas_limit / 2) by (subst limit; lia). clearbody limit.
  split; [done|]. split; [done|]. split; [lia|].
  unfold required_balance, saturating_mul, wrapping_mul, U256_MAX. cbn [gas_limit]. rewrite Z.min_l by lia.
  rewrite Z.mod_small by nia. lia.
Qed.

Lemma Settlement_new_Ok simulator id solution tx s :
  create simulator id solution tx = Ok s ->
  exists access_list g price balance,
    s = mkDriverSettlement id (with_access_list tx access_list) g solution /\
    gas simulator (set_access_list (stx_internalized tx) access_list) = Ok (gas_estimate g) /\
    estimated_gas_price = Ok price /\
    SettlementGas_new f64_from_u256 u256_from_f64 (gas_estimate g) block_gas_limit = Ok g /\
    rpc_balance (sol_solver solution) = Ok balance /\
    required_balance g (saturating_mul (max_fee_per_gas price) 2) <= balance /\
    (no_internalized solution \/
     exists access_list' used, gas simulator (set_access_list (stx_uninternalized tx) access_list') = Ok used).
Proof.
  unfold Settlement_new. intros Hs. apply result_bind_Ok in Hs as (lists & _ & Hs).
  apply result_bind_Ok in Hs as ([access_list used] & Hsim%simulate_Ok & Hs).
  apply result_bind_Ok in Hs as (price & Hprice%map_err_Ok & Hs). apply map_err_Ok in Hprice.
  apply result_bind_Ok in Hs as (g & Hg%map_err_Ok & Hs).
  apply result_bind_Ok in Hs as (balance & Hbal%map_err_Ok & Hs).
  destruct (Z.ltb_spec balance (required_balance g (saturating_mul (max_fee_per_gas price) 2))) as [|Hle]; [done|].
  apply result_bind_Ok in Hs as ([] & Hun & [= <-]).
  assert (gas_estimate g = used) as <-.
  { unfold SettlementGas_new in Hg. destruct (_ <? _); [done|]. injection Hg. by intros <-. }
  exists access_list, g, price, balance. split_and!; try done.
  unfold no_internalized. destruct (existsb internalize (sol_interactions solution)); [right|by left].
  apply result_bind_Ok in Hun as ([access_list' used'] & Hun%simulate_Ok & _). eauto.
Qed.

Lemma untrusted_tokens_none tokens solution i a :
  untrusted_tokens tokens solution = ∅ -> i ∈ sol_interactions solution -> internalize i = true ->
  a ∈ interaction_inputs i -> exists t, tokens !! asset_token a = Some t /\ dt_trusted t = true.
Proof.
  intros Hnone Hi Hint Ha. unfold untrusted_tokens in Hnone.
  destruct (tokens !! asset_token a) as [t|] eqn:Et; [destruct (dt_trusted t) eqn:Ht; [eauto|]|].
  all: exfalso; apply (not_elem_of_empty (C := gset address) (asset_token a)).
  all: rewrite <- Hnone; apply elem_of_list_to_set, list_elem_of_filter.
  all: split; [rewrite Et; cbn; by rewrite ?Ht|]; apply list_elem_of_fmap; exists a; split; [done|].
  all: apply list_elem_of_In, in_flat_map; exists i; split; apply list_elem_of_In; [|done].
  all: by apply list_elem_of_filter.
Qed.

(** C9 (safety): A settlement the driver bids with meets the rules that would get its
    solver slashed: internalized interactions only take trusted tokens, the transaction it
    will submit has been simulated as it is and so has the one in which nothing is
    internalized, the gas fits in half a block, and the solver can pay for the whole gas
    limit at twice the current price.  Whether it may revert is that of its solution. *)
Theorem settlement_executable simulator solution auction contracts slippage unwraps s :
  0 <= block_gas_limit < 2 ^ 64 -> (forall x, 0 <= u256_from_f64 x) ->
  (forall price, estimated_gas_price = Ok price -> estimate_ok price) ->
  Settlement_encode calc_effective_gas_price first_failure f64_from_u256 u256_from_f64 swap simulator solution auction
    contracts slippage unwraps = Ret (Ok s) ->
  (forall i a, i ∈ sol_interactions solution -> internalize i = true -> a ∈ interaction_inputs i ->
    exists t, da_tokens auction !! asset_token a = Some t /\ dt_trusted t = true) /\
  gas simulator (settlement_transaction s Enable) = Ok (gas_estimate (ds_gas s)) /\
  (exists access_list used, gas simulator (set_access_list (settlement_transaction s Disable) access_list) = Ok used) /\
  gas_estimate (ds_gas s) <= block_gas_limit / 2 /\ gas_limit (ds_gas s) <= block_gas_limit / 2 /\
  (exists price balance, estimated_gas_price = Ok price /\ rpc_balance (sol_solver solution) = Ok balance /\
    gas_limit (ds_gas s) * (2 * max_fee_per_gas price) <= balance) /\
  settlement_may_revert s = revertable solution /\ ds_solution s = solution /\ da_id auction = Some (ds_auction_id s).
Proof.
  intros Hblock Hf64 Hprice Hs. unfold Settlement_encode in Hs. case_bool_decide as Htrusted; cbn [negb] in Hs; [|done].
  apply comp_rbind_Ok in Hs as (int & Hint & Hs). apply comp_rbind_Ok in Hs as (unint & Hunint & Hs).
  apply comp_bind_Ret in Hs as (id & Hid%expect_Ret & Hs). injection Hs as Hs.
  apply Settlement_new_Ok in Hs as (l & g & price & balance & -> & Hsim & Hp & Hg & Hbal & Hle & Hun).
  destruct (Hprice price Hp) as [Hfee _]. destruct (required_balance_exact _ _ _ Hblock Hf64 Hfee Hg) as (_ & He & Hl & Hreq).
  cbn [settlement_transaction ds_transaction ds_gas with_access_list stx_internalized stx_uninternalized] in *.
  split_and!; try done.
  - intros i a. by apply untrusted_tokens_none.
  - destruct Hun as [Hno|(l' & used & Hun)]; [|by exists l', used].
    assert (int = unint) as <-; [|by exists l, (gas_estimate g)].
    apply comp_rbind_Ok in Hint as (a & Ha & Hint). apply comp_rbind_Ok in Hunint as (a' & Ha' & Hunint).
    unfold node_approvals in Ha, Ha'. rewrite (allowances_alike _ Hno) in Ha. replace a' with a in * by congruence.
    rewrite (encoding_tx_alike _ _ _ _ _ _ _ Hno) in Hint. congruence.
  - exists price, balance. rewrite <- Hreq. done.
Qed.
End settlements.

(** ** A node and a settlement *)
Definition sample_node (estimate_gas : TransactionRequest -> result RpcError Z) : Node := {|
  block_number := 100;
  block_base_fee := 7;
  block_gas_limit := 30000000;
  tx_gas_limit := 15000000;
  rpc_estimate_gas := estimate_gas;
  rpc_create_access_list req := Ok (Ok {[ etx_to (req_tx req) := {[ 3 ]} ]});
  rpc_is_contract _ := Ok true;
  rpc_balance _ := Ok (10 ^ 18);
  rpc_allowance _ _ := Ok 0;
  estimated_gas_price := Ok (mkEip1559Estimation 40 2);
  tenderly_simulate _ _ := Err TenderlyHttp;
  enso_simulate _ := Err EnsoHttp;
|}.

(** The pre-signed order settled through an interaction that is internalized. *)
Definition internalized_solution : DriverSolution.Solution :=
  mkSolution (sol_id presigned_solution) (sol_trades presigned_solution) (sol_prices presigned_solution) []
    [Custom 55 0 [1; 2] [] [mkAsset 1 1000] [mkAsset 2 900] true] [] (sol_solver presigned_solution) (sol_weth presigned_solution)
    None ∅ [].
Definition sample_auction : DriverAuction :=
  mkDriverAuction (Some 42) [] {[ 1 := mkDriverToken None None (Some 1) 1000 true ]} 0 ∅.
Definition sample_u256_from_f64 (x : f64) : Z := Z.max 0 (f64_trunc x).

Definition sample_settlement (auction : DriverAuction) : comp (result SettlementError DriverSettlement) :=
  Settlement_encode (H := sample_node (fun req => Ok (21000 + 100 * Z.of_nat (length (etx_input (req_tx req))))))
    (H0 := sample_abi) (fun _ tip base => default 0 base + tip) (fun _ => SeGasLimitExceeded 0 0) f64_lit
    sample_u256_from_f64 (fun _ _ _ _ => None) (mkSimulator Ethereum false None) internalized_solution auction
    (mkContracts 77 99 None) sample_slippage true.

Lemma settlement_executable_witness : exists s,
  sample_settlement sample_auction = Ret (Ok s) /\ ds_auction_id s = 42 /\ gas_limit (ds_gas s) <= 15000000.
Proof.
  assert (match sample_settlement sample_auction with Ret (Ok _) => true | _ => false end = true) as Hok by (vm_compute; reflexivity).
  destruct (sample_settlement sample_auction) as [[s|]|] eqn:Es; [|discriminate Hok..].
  exists s. split; [done|].
  destruct (settlement_executable (H := sample_node (fun req => Ok (21000 + 100 * Z.of_nat (length (etx_input (req_tx req))))))
    (H0 := sample_abi) (fun _ tip base => default 0 base + tip) (fun _ => SeGasLimitExceeded 0 0) f64_lit
    sample_u256_from_f64 (fun _ _ _ _ => None) (mkSimulator Ethereum false None) internalized_solution sample_auction
    (mkContracts 77 99 None) sample_slippage true s) as (_ & _ & _ & _ & Hl & _ & _ & _ & Hid).
  - cbn. lia.
  - intros x. apply Z.le_max_l.
  - intros price [= <-]. unfold estimate_ok. cbn. lia.
  - exact Es.
  - split; [by injection Hid|exact Hl].
Defined.

(** The same interaction with a token that is not trusted is refused. *)
Example untrusted_refused :
  sample_settlement (mkDriverAuction (Some 42) [] ∅ 0 ∅) = Ret (Err (SeNonBufferableTokensUsed {[ 1 ]})).
Proof. by vm_compute. Qed.

(** A node that cannot be reached counts as a transaction that reverts. *)
Lemma transport_error_is_revert `{Node} calc access_lists tx :
  rpc_estimate_gas (with_gas_price (to_request tx) (simulation_gas_price calc)) = Err TransportError ->
  sim_gas calc (mkSimulator Ethereum access_lists None) tx = Err (SimRevert (Blockchain (Rpc TransportError)) tx block_number) /\
  is_revert (Rpc TransportError) = false.
Proof. intros Hrpc. unfold sim_gas, estimate_gas. cbn [sim_disable_gas sim_inner]. by rewrite Hrpc. Qed.
