(* ===== verification/DriverMempools.v ===== *)
(** * DriverMempools: submitting a settlement

    [driver/src/domain/mempools.rs] and [driver/src/infra/mempool/mod.rs], with
    [transaction_status] of [driver/src/infra/blockchain/mod.rs] and the notification of
    [driver/src/infra/notify/mod.rs].

    A settlement is sent to every mempool at once; each submission watches the blocks until
    its transaction is mined, starts failing or runs out of time, and then frees the nonce
    again with a cancellation.  What the node answers during one submission is a
    [SubmitEnv]: the blocks of the stream with the answers it gave at each of them are a
    list, at whose end the stream is closed.  [scaled_by_pct] of the Ethereum library is a
    parameter; that it scales both fees and rounds down is the hypothesis [Hscaled]. *)

From stdpp Require Import base gmap sets list strings.
From Stdlib Require Import ZArith Lia.
From S2P Require Import Prelude Collections F64 Eth DriverTrade DriverSolution GasPrices DriverSimulation.

Open Scope Z_scope.
Open Scope rust_scope.

Definition GAS_PRICE_BUMP_PCT : Z := 13.
Definition CANCELLATION_GAS_AMOUNT : Z := 21000.

(** ** Answers *)
Inductive TxStatus := Executed (block : Z) | Reverted (block : Z) | Pending.

(** A receipt: its block, when it is mined, and whether it succeeded. *)
Record TransactionReceipt := mkTransactionReceipt { tr_block_number : option Z; tr_status : bool }.

Definition transaction_status (answer : result RpcError (option TransactionReceipt)) : result BlockchainError TxStatus :=
  letr receipt := map_err Rpc answer in
  Ok (match receipt with
      | Some (mkTransactionReceipt (Some block) status) => if status then Executed block else Reverted block
      | _ => Pending
      end).

Record SubmissionSuccess := mkSubmissionSuccess {
  ss_tx_hash : Z;
  ss_included_in_block : Z;
  ss_submitted_at_block : Z;
}.

Inductive MempoolError :=
| MpRevert (tx_id submitted_at_block reverted_at_block : Z)
| MpSimulationRevert (submitted_at_block reverted_at_block : Z)
| MpExpired (tx_id submitted_at_block submission_deadline : Z)
| MpDisabled
| MpOther (msg : string).

(** ** One mempool *)
Record Submission := mkSubmission { sub_nonce : Z; sub_gas_price : Eip1559Estimation }.

Record Mempool := mkMempool {
  mp_config : MempoolConfig;
  mp_last_submissions : gmap address Submission;
}.

Definition reverts_can_get_mined (m : Mempool) : bool :=
  match mc_revert_protection (mp_config m) with Disabled => true | Enabled => false end.

Definition last_submission (m : Mempool) (signer : address) : option Submission := mp_last_submissions m !! signer.

(** A transaction handed to the node, and the hash when the node accepted it. *)
Record Sent := mkSent {
  sent_tx : EthTx;
  sent_gas_price : Eip1559Estimation;
  sent_gas_limit : Z;
  sent_nonce : Z;
  sent_hash : option Z;
}.

(** A transaction of the node's own pool. *)
Record PoolTx := mkPoolTx { pt_nonce : Z; pt_max_fee_per_gas : Z; pt_max_priority_fee_per_gas : option Z }.

(** The pool has pending and queued transactions of a signer. *)
Definition find_pending_tx_in_mempool (content : result string (list PoolTx * list PoolTx)) (nonce : Z)
  : result string (option PoolTx) :=
  letr (pending, queued) := content in
  Ok (List.find (fun tx => pt_nonce tx =? nonce) (pending ++ queued)).

(** The answer of the node to sending a transaction. *)
Definition Send := EthTx -> Eip1559Estimation -> Z -> Z -> result string Z.

(** The transaction is logged, and remembered when the node accepts it. *)
Definition mempool_submit (send : Send) (m : Mempool) (tx : EthTx) (gas_price : Eip1559Estimation) (gas_limit : Z)
  (solver : address) (nonce : Z) : result MempoolError Z * Mempool * list Sent :=
  if negb (fits 64 gas_limit) then (Err (MpOther "gas limit"), m, [])
  else
    match send tx gas_price gas_limit nonce with
    | Ok hash =>
        (Ok hash, mkMempool (mp_config m) (<[solver := mkSubmission nonce gas_price]> (mp_last_submissions m)),
         [mkSent tx gas_price gas_limit nonce (Some hash)])
    | Err e => (Err (MpOther e), m, [mkSent tx gas_price gas_limit nonce None])
    end.

(** ** All mempools *)

Definition try_new (mempools : list Mempool) : option (list Mempool) :=
  match mempools with [] => None | _ => Some mempools end.

Definition revert_protection (mempools : list Mempool) : RevertProtection :=
  if forallb reverts_can_get_mined mempools then Disabled else Enabled.

(** What the node answers at a block while a submission waits. *)
Record Observation := mkObservation {
  ob_block : Z;
  ob_receipt : result RpcError (option TransactionReceipt);
  ob_simulation : result BlockchainError Z;
}.

Record SubmitEnv := mkSubmitEnv {
  (** The block after the stream has skipped the current one. *)
  se_current_block : Z;
  se_simulation : result BlockchainError Z;
  se_nonce : result string Z;
  se_gas_price : result BlockchainError Eip1559Estimation;
  se_submission_block : Z;
  se_pool : result string (list PoolTx * list PoolTx);
  se_send : Send;
  se_observations : list Observation;
  (** The pool when the transaction is cancelled. *)
  se_pool_at_cancel : result string (list PoolTx * list PoolTx);
  se_last_receipt : result RpcError (option TransactionReceipt);
}.

Section submission.
Context (scaled_by_pct : Eip1559Estimation -> Z -> Eip1559Estimation).

Definition minimum_replacement_gas_price (m : Mempool) (pool : result string (list PoolTx * list PoolTx)) (solver : address)
  (next_nonce : Z) : option Eip1559Estimation :=
  match last_submission m solver with
  | Some last =>
      if sub_nonce last =? next_nonce then Some (scaled_by_pct (sub_gas_price last) GAS_PRICE_BUMP_PCT) else None
  | None =>
      let? pending := ok (find_pending_tx_in_mempool pool next_nonce) in
      let? tx := pending in
      let? tip := pt_max_priority_fee_per_gas tx in
      Some (scaled_by_pct (mkEip1559Estimation (pt_max_fee_per_gas tx) tip) GAS_PRICE_BUMP_PCT)
  end.

Definition cancellation (solver : address) : EthTx := mkEthTx solver solver 0 [] ∅.

Definition cancel (send : Send) (m : Mempool) (pool : result string (list PoolTx * list PoolTx))
  (original_tx_gas_price : Eip1559Estimation) (solver : address) (nonce : Z) : result MempoolError Z * Mempool * list Sent :=
  let fallback_gas_price := scaled_by_pct original_tx_gas_price GAS_PRICE_BUMP_PCT in
  let final_gas_price := default fallback_gas_price (minimum_replacement_gas_price m pool solver nonce) in
  mempool_submit send m (cancellation solver) final_gas_price CANCELLATION_GAS_AMOUNT solver nonce.

Definition choose_gas_price (replacement : option Eip1559Estimation) (current : Eip1559Estimation) : Eip1559Estimation :=
  match replacement with
  | Some replacement => if max_fee_per_gas current <? max_fee_per_gas replacement then replacement else current
  | None => current
  end.

(** The loop over the blocks; [run_cancel] is the cancellation of this submission. *)
Fixpoint wait_for_tx (run_cancel : Mempool * list Sent) (m : Mempool) (hash submission_block deadline : Z)
  (observations : list Observation) : result MempoolError SubmissionSuccess * Mempool * list Sent :=
  match observations with
  | [] => (Err (MpOther "Block stream finished unexpectedly"), m, [])
  | o :: observations =>
      match default Pending (ok (transaction_status (ob_receipt o))) with
      | Executed block => (Ok (mkSubmissionSuccess hash block submission_block), m, [])
      | Reverted block => (Err (MpRevert hash submission_block block), m, [])
      | Pending =>
          if deadline <=? ob_block o then (Err (MpExpired hash submission_block deadline), run_cancel.1, run_cancel.2)
          else
            match ob_simulation o with
            | Err err =>
                if is_revert err then (Err (MpSimulationRevert submission_block (ob_block o)), run_cancel.1, run_cancel.2)
                else wait_for_tx run_cancel m hash submission_block deadline observations
            | Ok _ => wait_for_tx run_cancel m hash submission_block deadline observations
            end
      end
  end.

(** The last look at the status when waiting failed. *)
Definition recheck (last : result RpcError (option TransactionReceipt)) (hash submission_block : Z)
  (r : result MempoolError SubmissionSuccess) : result MempoolError SubmissionSuccess :=
  match r with
  | Ok _ => r
  | Err _ => match transaction_status last with
             | Ok (Executed block) => Ok (mkSubmissionSuccess hash block submission_block)
             | _ => r
             end
  end.

Definition submit (env : SubmitEnv) (mempools : list Mempool) (m : Mempool) (solver : address) (settlement : DriverSettlement)
  (deadline : Z) : result MempoolError SubmissionSuccess * Mempool * list Sent :=
  if settlement_may_revert settlement && (match revert_protection mempools with Enabled => true | Disabled => false end)
     && reverts_can_get_mined m
  then (Err MpDisabled, m, [])
  else
    let tx := settlement_transaction settlement Enable in
    if match se_simulation env with Err err => is_revert err | Ok _ => false end
    then (Err (MpSimulationRevert (se_current_block env) (se_current_block env)), m, [])
    else
      match se_nonce env, se_gas_price env with
      | Err e, _ => (Err (MpOther e), m, [])
      | Ok _, Err _ => (Err (MpOther "failed to compute current gas price"), m, [])
      | Ok nonce, Ok current_gas_price =>
          let replacement := minimum_replacement_gas_price m (se_pool env) solver nonce in
          let final_gas_price := choose_gas_price replacement current_gas_price in
          match mempool_submit (se_send env) m tx final_gas_price (gas_limit (ds_gas settlement)) solver nonce with
          | (Err e, m, sent) => (Err e, m, sent)
          | (Ok hash, m, sent) =>
              let '(_, m', sent') := cancel (se_send env) m (se_pool_at_cancel env) final_gas_price solver nonce in
              let '(r, m, more) :=
                wait_for_tx (m', sent') m hash (se_submission_block env) deadline (se_observations env) in
              (recheck (se_last_receipt env) hash (se_submission_block env) r, m, sent ++ more)
          end
      end.

(** [select_ok]: the first success, or the last error; it panics without futures. *)
Fixpoint select_ok (completed : list (result MempoolError SubmissionSuccess)) : comp (result MempoolError SubmissionSuccess) :=
  match completed with
  | [] => Panic
  | Ok s :: _ => Ret (Ok s)
  | [Err e] => Ret (Err e)
  | Err _ :: rest => select_ok rest
  end.

(** [completed] is the order in which the submissions complete; those that have not when
    one succeeds are dropped, after a prefix of what they would send. *)
Definition execute (completed : list (result MempoolError SubmissionSuccess) -> list (result MempoolError SubmissionSuccess))
  (env : nat -> SubmitEnv) (mempools : list Mempool) (solver : address) (settlement : DriverSettlement) (deadline : Z)
  : comp (result MempoolError Z) :=
  let!r submission :=
    select_ok (completed (imap (fun i m => (submit (env i) mempools m solver settlement deadline).1.1) mempools)) in
  Ret (Ok (ss_tx_hash submission)).
End submission.

(** ** What the solver is told *)
Inductive SettlementNotification := NtSuccess (hash : Z) | NtRevert (hash : Z) | NtSimulationRevert | NtExpired | NtFail.

Definition notify_executed (res : result MempoolError Z) : SettlementNotification :=
  match res with
  | Ok hash => NtSuccess hash
  | Err (MpRevert hash _ _) => NtRevert hash
  | Err (MpSimulationRevert _ _) => NtSimulationRevert
  | Err (MpExpired _ _ _) => NtExpired
  | Err (MpOther _ | MpDisabled) => NtFail
  end.

(** The label of the metric and the blocks that passed. *)
Definition mempool_executed (res : result MempoolError SubmissionSuccess) : string * option (string * Z) :=
  let passed start finish := Z.max 0 (finish - start) in
  match res with
  | Ok s => ("Success"%string, Some ("Success"%string, passed (ss_submitted_at_block s) (ss_included_in_block s)))
  | Err (MpRevert _ start finish) => ("Revert"%string, Some ("Revert"%string, passed start finish))
  | Err (MpSimulationRevert start finish) => ("Revert"%string, Some ("Revert"%string, passed start finish))
  | Err (MpExpired _ start finish) => ("Expired"%string, Some ("Expired"%string, passed start finish))
  | Err (MpOther _) => ("Other"%string, None)
  | Err MpDisabled => ("Disabled"%string, None)
  end.

(** ** What may come of a submission *)

(** The node said so, at some block or at the last look. *)
Definition reported (env : SubmitEnv) (st : TxStatus) : Prop :=
  (exists o, o ∈ se_observations env /\ transaction_status (ob_receipt o) = Ok st) \/
  transaction_status (se_last_receipt env) = Ok st.

Definition not_executed (env : SubmitEnv) : Prop :=
  forall block, transaction_status (se_last_receipt env) <> Ok (Executed block).

Record is_settlement (settlement : DriverSettlement) (hash : option Z) (t : Sent) : Prop := {
  is_settlement_tx : sent_tx t = settlement_transaction settlement Enable;
  is_settlement_gas : sent_gas_limit t = gas_limit (ds_gas settlement);
  is_settlement_hash : sent_hash t = hash;
}.

(** The second price is the first with 13 percent added, rounded down: higher from 8 wei
    on, the same below. *)
Definition bumped (fee fee' : Z) : Prop :=
  fee' = fee * 113 / 100 /\ (8 <= fee -> fee < fee') /\ (0 <= fee < 8 -> fee' = fee).

(** An empty transaction of the solver to itself that takes the nonce of the settlement and
    bumps both its fee and its tip. *)
Record is_cancellation (solver : address) (t c : Sent) : Prop := {
  is_cancellation_sender : etx_from (sent_tx c) = solver;
  is_cancellation_recipient : etx_to (sent_tx c) = solver;
  is_cancellation_empty : etx_value (sent_tx c) = 0 /\ etx_input (sent_tx c) = [];
  is_cancellation_nonce : sent_nonce c = sent_nonce t;
  is_cancellation_fee : bumped (max_fee_per_gas (sent_gas_price t)) (max_fee_per_gas (sent_gas_price c));
  is_cancellation_tip :
    bumped (max_priority_fee_per_gas (sent_gas_price t)) (max_priority_fee_per_gas (sent_gas_price c));
  is_cancellation_gas : sent_gas_limit c = CANCELLATION_GAS_AMOUNT;
}.

(** Errors before anything was sent. *)
Definition unsent_error (e : MempoolError) : Prop :=
  match e with MpDisabled | MpSimulationRevert _ _ | MpOther _ => True | MpRevert _ _ _ | MpExpired _ _ _ => False end.

Section outcomes.
Context (env : SubmitEnv) (solver : address) (settlement : DriverSettlement) (deadline : Z).

Inductive outcome : result MempoolError SubmissionSuccess -> list Sent -> Prop :=
| out_unsent e : unsent_error e -> outcome (Err e) []
| out_refused t msg : is_settlement settlement None t -> outcome (Err (MpOther msg)) [t]
| out_executed t h block cs : is_settlement settlement (Some h) t -> reported env (Executed block) ->
    (cs = [] \/ exists c, cs = [c] /\ is_cancellation solver t c) ->
    outcome (Ok (mkSubmissionSuccess h block (se_submission_block env))) (t :: cs)
| out_reverted t h block : is_settlement settlement (Some h) t -> reported env (Reverted block) -> not_executed env ->
    outcome (Err (MpRevert h (se_submission_block env) block)) [t]
| out_expired t h c o : is_settlement settlement (Some h) t -> is_cancellation solver t c -> not_executed env ->
    o ∈ se_observations env -> deadline <= ob_block o ->
    outcome (Err (MpExpired h (se_submission_block env) deadline)) [t; c]
| out_failing t h c o err : is_settlement settlement (Some h) t -> is_cancellation solver t c -> not_executed env ->
    o ∈ se_observations env -> ob_block o < deadline -> ob_simulation o = Err err -> is_revert err = true ->
    outcome (Err (MpSimulationRevert (se_submission_block env) (ob_block o))) [t; c]
| out_closed t h msg : is_settlement settlement (Some h) t -> not_executed env ->
    Forall (fun o => ob_block o < deadline) (se_observations env) ->
    outcome (Err (MpOther msg)) [t].
End outcomes.

(** The ways in which waiting ends, and whether the cancellation ran. *)
Inductive wait_outcome (hash submission_block deadline : Z) (observations : list Observation)
  : result MempoolError SubmissionSuccess -> bool -> Prop :=
| wait_executed o block : o ∈ observations -> transaction_status (ob_receipt o) = Ok (Executed block) ->
    wait_outcome hash submission_block deadline observations (Ok (mkSubmissionSuccess hash block submission_block)) false
| wait_reverted o block : o ∈ observations -> transaction_status (ob_receipt o) = Ok (Reverted block) ->
    wait_outcome hash submission_block deadline observations (Err (MpRevert hash submission_block block)) false
| wait_expired o : o ∈ observations -> deadline <= ob_block o ->
    wait_outcome hash submission_block deadline observations (Err (MpExpired hash submission_block deadline)) true
| wait_failing o err : o ∈ observations -> ob_block o < deadline -> ob_simulation o = Err err -> is_revert err = true ->
    wait_outcome hash submission_block deadline observations (Err (MpSimulationRevert submission_block (ob_block o))) true
| wait_closed msg : Forall (fun o => ob_block o < deadline) observations ->
    wait_outcome hash submission_block deadline observations (Err (MpOther msg)) false.

Lemma wait_outcome_cons hash sub deadline o l r b :
  ob_block o < deadline -> wait_outcome hash sub deadline l r b -> wait_outcome hash sub deadline (o :: l) r b.
Proof. intros Ho []; by econstructor; [(apply list_elem_of_further; eassumption) || (constructor; eassumption)|..]. Qed.

Lemma status_default receipt st : st <> Pending ->
  default Pending (ok (transaction_status receipt)) = st -> transaction_status receipt = Ok st.
Proof. destruct (transaction_status receipt) as [s|]; cbn; [by intros _ ->|done]. Qed.

Lemma wait_for_tx_spec rc m hash sub deadline l : exists r b,
  wait_for_tx rc m hash sub deadline l = (r, if (b : bool) then rc.1 else m, if b then rc.2 else []) /\
  wait_outcome hash sub deadline l r b.
Proof.
  induction l as [|o l IH]; cbn [wait_for_tx].
  { exists (Err (MpOther "Block stream finished unexpectedly")), false. split; [done|]. constructor. constructor. }
  destruct (default Pending (ok (transaction_status (ob_receipt o)))) as [block|block|] eqn:Est.
  - apply status_default in Est; [|done]. eexists _, false. split; [done|]. by econstructor; [left|].
  - apply status_default in Est; [|done]. eexists _, false. split; [done|]. by econstructor; [left|].
  - destruct (Z.leb_spec deadline (ob_block o)) as [Hd|Hd].
    + eexists _, true. split; [done|]. by econstructor; [left|].
    + assert (exists r b, wait_for_tx rc m hash sub deadline l = (r, if (b : bool) then rc.1 else m, if b then rc.2 else []) /\
        wait_outcome hash sub deadline (o :: l) r b) as Hrest.
      { destruct IH as (r & b & Hw & Ho). exists r, b. split; [done|]. by apply wait_outcome_cons. }
      destruct (ob_simulation o) as [|err] eqn:Eo; [done|]. destruct (is_revert err) eqn:Er; [|done].
      eexists _, true. split; [done|]. by econstructor; [left|..].
Qed.

(** Blocks after the deadline are never looked at. *)
Lemma wait_for_tx_bounded rc m hash sub deadline l later :
  (exists o, o ∈ l /\ deadline <= ob_block o) ->
  wait_for_tx rc m hash sub deadline (l ++ later) = wait_for_tx rc m hash sub deadline l.
Proof.
  induction l as [|o l IH]; intros (o' & Ho' & Hd); [by apply not_elem_of_nil in Ho'|]. cbn [app wait_for_tx].
  destruct (default Pending _); [done..|]. destruct (Z.leb_spec deadline (ob_block o)); [done|].
  apply elem_of_cons in Ho' as [->|Ho']; [lia|]. rewrite IH by eauto. done.
Qed.

Definition with_observations (env : SubmitEnv) (l : list Observation) : SubmitEnv :=
  mkSubmitEnv (se_current_block env) (se_simulation env) (se_nonce env) (se_gas_price env) (se_submission_block env)
    (se_pool env) (se_send env) l (se_pool_at_cancel env) (se_last_receipt env).

Lemma bumped_scaled fee : bumped fee (fee * (100 + GAS_PRICE_BUMP_PCT) / 100).
Proof.
  unfold bumped. change (100 + GAS_PRICE_BUMP_PCT) with 113. split; [done|].
  pose proof (Z.div_mod (fee * 113) 100 ltac:(lia)). pose proof (Z.mod_pos_bound (fee * 113) 100 ltac:(lia)). lia.
Qed.

Section spec.
Context (scaled_by_pct : Eip1559Estimation -> Z -> Eip1559Estimation).
Context (Hscaled : forall g pct, scaled_by_pct g pct =
  mkEip1559Estimation (max_fee_per_gas g * (100 + pct) / 100) (max_priority_fee_per_gas g * (100 + pct) / 100)).
Local Abbreviation run := (submit scaled_by_pct).

(** After a settlement was accepted its cancellation outbids it by the configured
    percentage, and is always sent. *)
Lemma cancel_sent send m pool price solver nonce :
  last_submission m solver = Some (mkSubmission nonce price) ->
  exists r m' h, cancel scaled_by_pct send m pool price solver nonce =
    (r, m', [mkSent (cancellation solver) (scaled_by_pct price GAS_PRICE_BUMP_PCT) CANCELLATION_GAS_AMOUNT nonce h]).
Proof.
  intros Hlast. unfold cancel, minimum_replacement_gas_price. rewrite Hlast. cbn [sub_nonce sub_gas_price].
  rewrite Z.eqb_refl. unfold mempool_submit. cbn [default fits CANCELLATION_GAS_AMOUNT]. change (fits 64 CANCELLATION_GAS_AMOUNT) with true.
  cbn [negb]. destruct (send _ _ _ _); eauto.
Qed.

Lemma recheck_spec env hash sub r :
  (exists block, recheck (se_last_receipt env) hash sub r = Ok (mkSubmissionSuccess hash block sub) /\
    transaction_status (se_last_receipt env) = Ok (Executed block)) \/
  (recheck (se_last_receipt env) hash sub r = r /\ (not_executed env \/ exists s, r = Ok s)).
Proof.
  destruct r as [s|e]; cbn [recheck]; [right; eauto|]. unfold not_executed.
  destruct (transaction_status (se_last_receipt env)) as [[block|block|]|]; [left; eauto|right..]; (split; [done|left; by intros ?]).
Qed.

Lemma wait_recheck_outcome env solver settlement deadline t c h r (b : bool) :
  is_settlement settlement (Some h) t -> is_cancellation solver t c ->
  wait_outcome h (se_submission_block env) deadline (se_observations env) r b ->
  outcome env solver settlement deadline (recheck (se_last_receipt env) h (se_submission_block env) r)
    (t :: if b then [c] else []).
Proof.
  intros Ht Hc Hw. destruct (recheck_spec env h (se_submission_block env) r) as [(block & -> & Hst)|[-> Hne]].
  - apply out_executed; [done|by right|]. destruct b; eauto.
  - destruct Hw; [apply out_executed; [done|left; eauto|by left]|destruct Hne as [Hne|(s & [=])]..].
    + by apply out_reverted; [|left; eauto|].
    + by eapply out_expired.
    + by eapply out_failing.
    + by eapply out_closed.
Qed.

Lemma submit_outcome env mempools m solver settlement deadline :
  outcome env solver settlement deadline (run env mempools m solver settlement deadline).1.1
    (run env mempools m solver settlement deadline).2.
Proof.
  unfold submit. destruct (_ && _ && _); [by apply out_unsent|].
  destruct (match se_simulation env with Err _ => _ | Ok _ => _ end); [by apply out_unsent|].
  destruct (se_nonce env) as [nonce|]; [|by apply out_unsent]. destruct (se_gas_price env) as [current|]; [|by apply out_unsent].
  set (price := choose_gas_price _ _). unfold mempool_submit at 1 2. destruct (fits 64 (gas_limit (ds_gas settlement))); cbn [negb]; [|by apply out_unsent].
  destruct (se_send env (settlement_transaction settlement Enable) price (gas_limit (ds_gas settlement)) nonce) as [h|]; [|by apply out_refused].
  set (m1 := mkMempool _ _).
  destruct (cancel_sent (se_send env) m1 (se_pool_at_cancel env) price solver nonce) as (rc & m' & hc & ->).
  { unfold last_submission, m1. cbn [mp_last_submissions]. apply lookup_insert_eq. }
  edestruct (wait_for_tx_spec (m', [mkSent (cancellation solver) (scaled_by_pct price GAS_PRICE_BUMP_PCT) CANCELLATION_GAS_AMOUNT nonce hc])
    m1 h (se_submission_block env) deadline (se_observations env)) as (r & b & -> & Hw).
  cbn [fst snd app]. apply wait_recheck_outcome; [done| |done].
  rewrite Hscaled. by split; [..|apply bumped_scaled|apply bumped_scaled|].
Qed.

Lemma submit_protected env mempools m solver settlement deadline :
  settlement_may_revert settlement = true -> (exists p, p ∈ mempools /\ reverts_can_get_mined p = false) ->
  reverts_can_get_mined m = true -> run env mempools m solver settlement deadline = (Err MpDisabled, m, []).
Proof.
  intros Hrev (p & Hp & Hpp) Hm. unfold submit, revert_protection. rewrite Hrev, Hm.
  destruct (forallb reverts_can_get_mined mempools) eqn:E; [|done].
  rewrite forallb_forall in E. apply list_elem_of_In, E in Hp. congruence.
Qed.

Lemma submit_bounded env mempools m solver settlement deadline later :
  (exists o, o ∈ se_observations env /\ deadline <= ob_block o) ->
  run (with_observations env (se_observations env ++ later)) mempools m solver settlement deadline =
  run env mempools m solver settlement deadline.
Proof.
  intros Hd. unfold submit, with_observations.
  cbn [se_current_block se_simulation se_nonce se_gas_price se_submission_block se_pool se_send se_observations se_pool_at_cancel se_last_receipt].
  destruct (_ && _ && _); [done|]. destruct (match se_simulation env with Err _ => _ | Ok _ => _ end); [done|].
  destruct (se_nonce env); [|done]. destruct (se_gas_price env); [|done].
  destruct (mempool_submit _ _ _ _ _ _ _) as [[[h|e] m1] sent]; [|done]. destruct (cancel _ _ _ _ _ _ _) as [[rc m'] sent'].
  by rewrite wait_for_tx_bounded.
Qed.

Lemma select_ok_spec l : l <> [] -> exists r, select_ok l = Ret r /\ r ∈ l /\
  match r with Ok _ => True | Err _ => Forall (fun r => exists e, r = Err e) l end.
Proof.
  induction l as [|[s|e] l IH]; intros Hne; [done| |].
  - exists (Ok s). split; [done|]. split; [left|done].
  - destruct l as [|r l].
    + exists (Err e). split; [done|]. split; [left|]. constructor; [eauto|done].
    + destruct IH as (r' & Hr & Hin & Hall); [done|]. exists r'. split; [done|]. split; [by right|].
      destruct r'; [done|]. constructor; [eauto|done].
Qed.

(** C8 (refinement): Submitting a settlement to at least one mempool always returns, and
    what it returns is what happened: a success names a transaction that a node reported as
    executed, and an error means that every mempool failed.  Each submission is an
    [outcome]: it sends the simulated transaction at most once; when it reports that the
    transaction expired, or that it was sent and then started to fail, a cancellation went
    out, an empty transaction of the solver with the nonce of the settlement, whose fee and
    tip are the old ones with 13 percent added and rounded down, which is more from 8 wei
    on; a transaction that was never sent, that was mined reverted, or whose block stream
    closed is not cancelled.  Blocks after the deadline are never looked at, and nothing is
    sent to a mempool that mines reverts when the settlement may revert and another mempool
    is protected.  Scaling a price by a percentage is the library's, which rounds down. *)
Theorem settlement_submission completed env mempools solver settlement deadline :
  (forall l, completed l ≡ₚ l) -> mempools <> [] ->
  exists r, execute scaled_by_pct completed env mempools solver settlement deadline = Ret r /\
  match r with
  | Ok h => exists i m s, mempools !! i = Some m /\
      (run (env i) mempools m solver settlement deadline).1.1 = Ok s /\ ss_tx_hash s = h
  | Err e => (forall i m, mempools !! i = Some m -> exists e',
        (run (env i) mempools m solver settlement deadline).1.1 = Err e') /\
      exists i m, mempools !! i = Some m /\ (run (env i) mempools m solver settlement deadline).1.1 = Err e
  end /\
  forall i m, mempools !! i = Some m ->
    outcome (env i) solver settlement deadline (run (env i) mempools m solver settlement deadline).1.1
      (run (env i) mempools m solver settlement deadline).2 /\
    (settlement_may_revert settlement = true -> (exists p, p ∈ mempools /\ reverts_can_get_mined p = false) ->
     reverts_can_get_mined m = true -> (run (env i) mempools m solver settlement deadline).2 = []) /\
    (forall later, (exists o, o ∈ se_observations (env i) /\ deadline <= ob_block o) ->
     run (with_observations (env i) (se_observations (env i) ++ later)) mempools m solver settlement deadline =
     run (env i) mempools m solver settlement deadline).
Proof using Hscaled.
  intros Hperm Hne. unfold execute.
  set (results := imap (fun i m => (run (env i) mempools m solver settlement deadline).1.1) mempools).
  assert (forall r, r ∈ completed results <-> exists i m, mempools !! i = Some m /\
    (run (env i) mempools m solver settlement deadline).1.1 = r) as Hin.
  { intros r. rewrite (Hperm results). unfold results. rewrite elem_of_lookup_imap. naive_solver. }
  destruct (select_ok_spec (completed results)) as (r & -> & Hr & Hall).
  { intros Hnil. pose proof (Hperm results) as Hp. rewrite Hnil in Hp. apply Permutation_nil_l in Hp.
    unfold results in Hp. destruct mempools; [done|]. by cbn in Hp. }
  destruct (proj1 (Hin r) Hr) as (i & m & Hm & Hsub).
  exists (match r with Ok s => Ok (ss_tx_hash s) | Err e => Err e end). split; [by destruct r|]. split.
  - destruct r as [s|e]; [by exists i, m, s|]. split; [|by exists i, m].
    intros j m' Hj. rewrite Forall_forall in Hall. apply Hall, Hin. eauto.
  - intros j m' Hj. split; [apply submit_outcome|]. split.
    + intros Hrev Hp Hmined. by rewrite submit_protected.
    + intros later Hd. by apply submit_bounded.
Qed.
End spec.

(** ** How much a bump is worth *)
Section bump.
Context (scaled_by_pct : Eip1559Estimation -> Z -> Eip1559Estimation).
Context (Hscaled : forall g pct, scaled_by_pct g pct =
  mkEip1559Estimation (max_fee_per_gas g * (100 + pct) / 100) (max_priority_fee_per_gas g * (100 + pct) / 100)).

(** From 200 wei on a bump is at least the eighth a node asks for. *)
Lemma bump_outbids g : 200 <= max_fee_per_gas g ->
  max_fee_per_gas g * 1125 <= max_fee_per_gas (scaled_by_pct g GAS_PRICE_BUMP_PCT) * 1000.
Proof.
  intros Hg. rewrite Hscaled. cbn [max_fee_per_gas]. change (100 + GAS_PRICE_BUMP_PCT) with 113.
  pose proof (Z.div_mod (max_fee_per_gas g * 113) 100 ltac:(lia)). pose proof (Z.mod_pos_bound (max_fee_per_gas g * 113) 100 ltac:(lia)). lia.
Qed.

(** Below 8 wei rounding eats the bump: a transaction with such a fee or tip is never
    outbid. *)
Lemma low_price_not_bumped fee tip : 0 <= fee < 8 -> 0 <= tip < 8 ->
  scaled_by_pct (mkEip1559Estimation fee tip) GAS_PRICE_BUMP_PCT = mkEip1559Estimation fee tip.
Proof.
  intros Hf Ht. rewrite Hscaled. cbn [max_fee_per_gas max_priority_fee_per_gas]. change (100 + GAS_PRICE_BUMP_PCT) with 113.
  f_equal; symmetry; [apply (Z.div_unique _ _ _ (13 * fee))|apply (Z.div_unique _ _ _ (13 * tip))]; lia.
Qed.
End bump.

(** Only the fee decides which price replaces a pending transaction: a current price with
    a higher fee is used even when its tip is below that of the pending one. *)
Lemma replacement_ignores_tip replacement current :
  max_fee_per_gas replacement <= max_fee_per_gas current ->
  choose_gas_price (Some replacement) current = current.
Proof. intros Hle. unfold choose_gas_price. by rewrite (proj2 (Z.ltb_ge _ _) Hle). Qed.

(** ** Examples *)
Definition sample_pct (g : Eip1559Estimation) (pct : Z) : Eip1559Estimation :=
  mkEip1559Estimation (max_fee_per_gas g * (100 + pct) / 100) (max_priority_fee_per_gas g * (100 + pct) / 100).

Definition sample_mempool (protection : RevertProtection) (last : gmap address Submission) : Mempool :=
  mkMempool (mkMempoolConfig 0 100 "rpc" protection 0 (f64_lit 0)) last.

Definition sample_driver_settlement (may_revert : bool) : DriverSettlement :=
  let tx := mkEthTx 5 77 0 [1; 2; 3] ∅ in
  mkDriverSettlement 42 (mkSettlementTx tx tx may_revert) (mkSettlementGas 21000 42000) internalized_solution.

Definition sample_observation (block : Z) (receipt : option TransactionReceipt) (simulation : result BlockchainError Z) : Observation :=
  mkObservation block (Ok receipt) simulation.

Definition sample_env (observations : list Observation) : SubmitEnv :=
  mkSubmitEnv 100 (Ok 21000) (Ok 9) (Ok (mkEip1559Estimation 100 10)) 100 (Ok ([], []))
    (fun tx price _ nonce => Ok (max_fee_per_gas price + nonce)) observations (Ok ([], [])) (Ok None).

Lemma settlement_submission_witness :
  exists t c, (submit sample_pct (sample_env [sample_observation 101 None (Ok 1); sample_observation 105 None (Ok 1)])
      [sample_mempool Enabled ∅; sample_mempool Disabled ∅] (sample_mempool Enabled ∅) 5 (sample_driver_settlement true) 105) =
    (Err (MpExpired 109 100 105), sample_mempool Enabled {[ 5 := mkSubmission 9 (mkEip1559Estimation 113 11) ]}, [t; c]) /\
    is_cancellation 5 t c /\ max_fee_per_gas (sent_gas_price t) = 100 /\ max_fee_per_gas (sent_gas_price c) = 113.
Proof.
  destruct (settlement_submission sample_pct (fun g pct => eq_refl) id
    (fun _ => sample_env [sample_observation 101 None (Ok 1); sample_observation 105 None (Ok 1)])
    [sample_mempool Enabled ∅; sample_mempool Disabled ∅]
    5 (sample_driver_settlement true) 105 (fun l => reflexivity l)) as (r & _ & _ & Hall); [done|].
  destruct (Hall 0%nat (sample_mempool Enabled ∅) eq_refl) as (Hout & _ & _).
  eexists _, _. split; [vm_compute; reflexivity|]. split; [|split; reflexivity].
  vm_compute in Hout. inversion Hout; subst. assumption.
Defined.

(** A transaction that is not mined by the deadline is cancelled at a higher price, and one
    that starts to fail as well. *)
Example submission_cancelled :
  let submitted := submit sample_pct (sample_env [sample_observation 101 None (Ok 1); sample_observation 105 None (Ok 1)])
    [sample_mempool Disabled ∅] (sample_mempool Disabled ∅) 5 (sample_driver_settlement true) 105 in
  let failing := submit sample_pct (sample_env [sample_observation 101 None (Err (Rpc ErrorResp))])
    [sample_mempool Disabled ∅] (sample_mempool Disabled ∅) 5 (sample_driver_settlement true) 105 in
  submitted.1.1 = Err (MpExpired 109 100 105) /\ ((fun t => (sent_gas_price t, sent_nonce t)) <$> submitted.2) =
    [(mkEip1559Estimation 100 10, 9); (mkEip1559Estimation 113 11, 9)] /\
  failing.1.1 = Err (MpSimulationRevert 100 101) /\ length failing.2 = 2%nat.
Proof. by vm_compute. Qed.

(** A settlement that replaces a pending one is sent at a price above the cap of every
    mempool. *)
Example replacement_exceeds_cap :
  let m := sample_mempool Disabled {[ 5 := mkSubmission 9 (mkEip1559Estimation 100 10) ]} in
  let sent := (submit sample_pct (sample_env []) [m] m 5 (sample_driver_settlement true) 105).2 in
  mc_gas_price_cap (mp_config m) = 100 /\ ((fun t => max_fee_per_gas (sent_gas_price t)) <$> sent) = [113].
Proof. by vm_compute. Qed.

(** A pending transaction with tip 10 is replaced by one with tip 1. *)
Example replacement_lowers_tip :
  let m := sample_mempool Disabled {[ 5 := mkSubmission 9 (mkEip1559Estimation 60 10) ]} in
  let env := mkSubmitEnv 100 (Ok 21000) (Ok 9) (Ok (mkEip1559Estimation 80 1)) 100 (Ok ([], [])) (fun _ _ _ _ => Ok 1) [] (Ok ([], [])) (Ok None) in
  ((fun t => (sent_nonce t, max_priority_fee_per_gas (sent_gas_price t))) <$> (submit sample_pct env [m] m 5 (sample_driver_settlement true) 105).2) = [(9, 1)].
Proof. by vm_compute. Qed.
