(* ===== verification/DriverPreProcessing.v ===== *)
(** * DriverPreProcessing: what the driver fetches before it solves

    [driver/src/domain/competition/pre_processing.rs] with the retrieval of app data
    ([order/app_data.rs]) and the first half of [Competition::solve]
    ([competition/mod.rs]).

    The tasks of an auction run concurrently and are shared by all solvers; as they do not
    interact, each is the function that computes its result.  The balances, the parsers of
    requests and documents and the order in which documents arrive are parameters. *)

From stdpp Require Import base gmap sets list strings.
From Stdlib Require Import ZArith Lia.
From S2P Require Import Prelude Collections F64 Eth Liquidity Solution Score DriverOrder DriverTrade OrderModel.
From S2P Require Import DriverSolution DriverCompetition AutopilotSettlement CowAmm.

Open Scope Z_scope.
Open Scope rust_scope.

(** ** Balances *)
Record BalanceOverride := mkBalanceOverride { bo_token : address; bo_amount : Z; bo_holder : address }.

Record BalanceQuery := mkBalanceQuery {
  bq_owner : address;
  bq_token : address;
  bq_source : SellTokenBalance;
  bq_interactions : list EthInteraction;
  bq_balance_override : option BalanceOverride;
}.

(** [Itertools::chunk_by]: runs of neighbours with the same key. *)
Fixpoint chunk_by {A K} `{EqDecision K} (key : A -> K) (l : list A) : list (K * list A) :=
  match l with
  | [] => []
  | x :: l =>
      match chunk_by key l with
      | (k, group) :: rest =>
          if decide (key x = k) then (k, x :: group) :: rest else (key x, [x]) :: (k, group) :: rest
      | [] => [(key x, [x])]
      end
  end.

#[export] Instance FlashloanHint_eq_dec : EqDecision FlashloanHint.
Proof. solve_decision. Defined.

(** What an order does before its balance is taken. *)
Definition order_setup (o : DriverOrder.Order) : list EthInteraction * option FlashloanHint :=
  (order_pre_interactions o, AppData_flashloan (order_app_data o)).

Definition group_query (k : BalanceKey) (group : list DriverOrder.Order) : comp BalanceQuery :=
  match group with
  | [] => Panic
  | first :: others =>
      let all_setups_equal := forallb (fun o => bool_decide (order_setup o = order_setup first)) others in
      let '((owner, token), source) := k in
      Ret (mkBalanceQuery owner token source
             (if all_setups_equal then order_pre_interactions first else [])
             (if all_setups_equal
              then (fun loan => mkBalanceOverride (fh_token loan) (fh_amount loan) (fh_receiver loan))
                     <$> AppData_flashloan (order_app_data first)
              else None))
  end.

Definition balance_queries (orders : list DriverOrder.Order) : comp (list BalanceQuery) :=
  comp_map (fun e => group_query e.1 e.2) (chunk_by balance_key orders).

Definition query_key (q : BalanceQuery) : BalanceKey := (bq_owner q, bq_token q, bq_source q).

(** Later entries of the map replace earlier ones. *)
Definition collect_balances (queries : list BalanceQuery) (balances : list (result string Z)) : Balances :=
  foldl (fun (m : Balances) (e : BalanceQuery * result string Z) =>
           match e.2 with Ok balance => <[query_key e.1 := balance]> m | Err _ => m end) ∅ (zip queries balances).

(** [balance_of] is the answer of the balance fetcher to a query. *)
Definition fetch_balances (balance_of : BalanceQuery -> result string Z) (orders : list DriverOrder.Order) : comp Balances :=
  let! queries := balance_queries orders in
  Ret (collect_balances queries (balance_of <$> queries)).

(** ** App data *)
Section app_data.
(** The document of a response, and the part of it the driver reads. *)
Context (parse_document : string -> result string string) (parse_protocol : string -> result string (option FlashloanHint)).

Inductive AppDataResponse := AdNotFound | AdText (text : result string string).

Abbreviation AppDataCache := (gmap Z (option ValidatedAppData)).

Definition get_cached (cache : AppDataCache) : gmap Z ValidatedAppData := omap id cache.

(** [response] is what the order book answers, or the error of sending the request. *)
Definition get_cached_or_fetch (cache : AppDataCache) (response : result string AppDataResponse) (hash : Z)
  : result string (option ValidatedAppData) * AppDataCache :=
  match cache !! hash with
  | Some app_data => (Ok app_data, cache)
  | None =>
      let fetched :=
        letr response := response in
        match response with
        | AdNotFound => Ok None
        | AdText text =>
            letr text := text in
            letr document := parse_document text in
            if bool_decide (document = "{}"%string) then Ok None
            else letr flashloan := parse_protocol document in Ok (Some (mkValidatedAppData hash flashloan))
        end in
      (fetched, match fetched with Ok app_data => <[hash := app_data]> cache | Err _ => cache end)
  end.

(** The hashes to fetch, each once. *)
Definition missing_app_data (orders : list DriverOrder.Order) : list Z :=
  remove_dups (omap (fun o => match order_app_data o with AppDataFull _ => None | AppDataHash h => Some h end) orders).

(** [respond] is the order book; [completed] are the requests answered in time, in the
    order of their answers.  The cache takes all answers. *)
Definition collect_orders_app_data (respond : Z -> result string AppDataResponse) (completed : list Z -> list Z)
  (cache : AppDataCache) (orders : list DriverOrder.Order) : gmap Z ValidatedAppData * AppDataCache :=
  let hashes := missing_app_data orders in
  let fetched h := (get_cached_or_fetch cache (respond h) h).1 in
  (list_to_map (omap (fun h => match fetched h with Ok (Some d) => Some (h, d) | _ => None end) (completed hashes)),
   foldl (fun c h => (get_cached_or_fetch c (respond h) h).2) cache hashes).
End app_data.

(** ** Orders of CoW AMMs *)
Section cow_amms.
Context (keccak256 : list Z -> Z) (domain_separator : Z) (now : Z).

(** The prices of all tokens of an AMM, when the auction has them. *)
Definition amm_prices (tokens : gmap address DriverToken) (amm : Amm) : option (list Z) :=
  mapM (fun t => let? token := tokens !! t in dt_price token) (amm_tradeable_tokens amm).

Definition amm_order (a : address) (t : TemplateOrder) : option DriverOrder.Order :=
  let d := to_order t in
  match to_signature t with
  | SigEip1271 bytes =>
      Some (DriverOrder.mkOrder (uid keccak256 d domain_separator a) (od_receiver d) (if fits 32 now then now else 0) (od_valid_to d)
              (mkAsset (od_buy_token d) (od_buy_amount d)) (mkAsset (od_sell_token d) (od_sell_amount d)) (od_kind d) Limit
              (AppDataHash (od_app_data d))
              (if od_partially_fillable d
               then PartialYes (match od_kind d with Sell => od_sell_amount d | Buy => od_buy_amount d end)
               else PartialNo)
              (to_pre_interactions t) (to_post_interactions t) (od_sell_token_balance d) (od_buy_token_balance d)
              (DriverOrder.mkSignature Eip1271 bytes a) [] None)
  | _ => None
  end.

(** [template] is [validated_template_order] of [CowAmm]. *)
Definition cow_amm_orders (template : Amm -> list Z -> result string TemplateOrder) (amms : list Amm)
  (tokens : gmap address DriverToken) : list DriverOrder.Order :=
  omap (fun amm => let? prices := amm_prices tokens amm in
                   let? t := ok (template amm prices) in
                   amm_order (amm_address amm) t) amms.
End cow_amms.

(** ** One task per auction *)

(** The tasks of an auction; before the first request they never complete. *)
Inductive Tasks (T : Type) := TasksPending | TasksOf (auction : T).
Arguments TasksPending {T}.
Arguments TasksOf {T} auction.

Record ControlBlock (T : Type) := mkControlBlock { cb_solve_request : list Z; cb_tasks : Tasks T }.
Arguments mkControlBlock {T} _ _.
Arguments cb_solve_request {T} _.
Arguments cb_tasks {T} _.

Definition initial_control {T} : ControlBlock T := mkControlBlock [] TasksPending.

(** Waiting forever is [None]: the lock is held meanwhile. *)
Definition start_or_get_tasks_for_auction {T} (assemble : list Z -> result string T) (control : ControlBlock T) (request : list Z)
  : option (result string T * ControlBlock T) :=
  if bool_decide (request = cb_solve_request control) then
    match cb_tasks control with
    | TasksPending => None
    | TasksOf tasks => Some (Ok tasks, control)
    end
  else
    match assemble request with
    | Err e => Some (Err e, control)
    | Ok tasks => Some (Ok tasks, mkControlBlock request (TasksOf tasks))
    end.

(** ** The orders a solver gets *)
Definition pre_process (f64_from_u256 : Z -> f64) (auction : DriverAuction) (cow_amm_orders : list DriverOrder.Order)
  (balances : Balances) (app_data : gmap Z ValidatedAppData) (settlement_contract solver : address)
  (strategies : list SortingStrategy) (now : Z) (flashloans_enabled : bool) : list DriverOrder.Order :=
  let orders := sort_orders f64_from_u256 (da_orders auction ++ cow_amm_orders) (da_tokens auction) solver strategies now in
  let cow_amms : gset Z := list_to_set (order_uid <$> cow_amm_orders) in
  without_flashloans flashloans_enabled (update_orders cow_amms app_data settlement_contract balances orders).1.

(** ** Properties *)
Lemma chunk_by_spec {A K} `{EqDecision K} (key : A -> K) (l : list A) :
  mjoin (chunk_by key l).*2 = l /\
  Forall (fun e => e.2 <> [] /\ Forall (fun x => key x = e.1) e.2) (chunk_by key l).
Proof.
  induction l as [|x l [IHj IHf]]; [done|]. cbn [chunk_by]. destruct (chunk_by key l) as [|[k group] rest].
  - cbn in IHj |- *. subst l. split; [done|]. constructor; [|done]. split; [done|]. by constructor.
  - apply Forall_cons in IHf as [[Hne Hk] Hrest]. cbn [fst snd] in *. destruct (decide (key x = k)) as [<-|Hneq].
    + split; [cbn; f_equal; exact IHj|]. constructor; [|done]. split; [done|]. by constructor.
    + split; [cbn; f_equal; exact IHj|]. constructor; [|by constructor]. split; [done|]. by constructor.
Qed.

(** The query of a run of orders asks for the balance of their key; their interactions and
    flash loan count only when all of them have the same. *)
Lemma group_query_spec k group : group <> [] -> exists q, group_query k group = Ret q /\ query_key q = k /\
  forall o, o ∈ group -> (forall o', o' ∈ group -> order_setup o' = order_setup o) \/
    (bq_interactions q = [] /\ bq_balance_override q = None).
Proof.
  destruct group as [|first others]; [done|]. intros _. destruct k as [[owner token] source]. cbn [group_query].
  destruct (forallb _ others) eqn:E; eexists; (split; [reflexivity|]); (split; [done|]); intros o Ho; [left|by right].
  rewrite forallb_forall in E.
  assert (forall o', o' ∈ first :: others -> order_setup o' = order_setup first) as Hall.
  { intros o' [->|Ho']%elem_of_cons; [done|]. apply list_elem_of_In, E, bool_decide_eq_true in Ho'. done. }
  intros o' Ho'. by rewrite (Hall o), (Hall o').
Qed.

Lemma balance_queries_spec orders : exists queries, balance_queries orders = Ret queries /\
  Forall2 (fun e q => group_query e.1 e.2 = Ret q /\ query_key q = e.1) (chunk_by balance_key orders) queries.
Proof.
  unfold balance_queries. destruct (chunk_by_spec balance_key orders) as [_ Hf].
  induction Hf as [|[k group] l [Hne _] Hf (queries & Hq & IH)]; [by exists []|].
  destruct (group_query_spec k group Hne) as (q & Hg & Hk & _). exists (q :: queries). split; [|by constructor].
  cbn [comp_map fst snd]. by rewrite Hg, Hq.
Qed.

Lemma collect_balances_elem balance_of queries : forall (m : Balances) k b,
  foldl (fun (m : Balances) (e : BalanceQuery * result string Z) =>
           match e.2 with Ok balance => <[query_key e.1 := balance]> m | Err _ => m end) m (zip queries (balance_of <$> queries)) !! k = Some b ->
  m !! k = Some b \/ exists q, q ∈ queries /\ query_key q = k /\ balance_of q = Ok b.
Proof.
  induction queries as [|q queries IH]; intros m k b; cbn [fmap list_fmap zip foldl]; [by left|].
  intros [Hm|(q' & Hq' & Hk & Hb)]%IH; [|right; exists q'; split; [by right|done]]. cbn [fst snd] in Hm.
  destruct (balance_of q) as [balance|] eqn:Eb; [|by left]. destruct (decide (query_key q = k)) as [<-|Hne].
  - rewrite lookup_insert_eq in Hm. injection Hm as <-. right. exists q. split; [left|done].
  - rewrite lookup_insert_ne in Hm by done. by left.
Qed.

(** Fetching never panics.  A balance is the answer to a query about orders of the auction
    that follow each other and share its key; when the setups of these differ it is asked
    for without any interaction or flash loan. *)
Lemma fetch_balances_spec balance_of orders : exists balances, fetch_balances balance_of orders = Ret balances /\
  forall k b, balances !! k = Some b -> exists group q, group `sublist_of` orders /\ group <> [] /\
    Forall (fun o => balance_key o = k) group /\ group_query k group = Ret q /\ balance_of q = Ok b.
Proof.
  destruct (balance_queries_spec orders) as (queries & Hq & Hall). unfold fetch_balances. rewrite Hq.
  eexists. split; [reflexivity|]. intros k b [Hm|(q & Hin & Hk & Hb)]%collect_balances_elem; [by rewrite lookup_empty in Hm|].
  apply list_elem_of_lookup in Hin as [i Hi]. apply Forall2_lookup_r with (i := i) (y := q) in Hall as ([k' group] & Hlk & Hg & Hqk); [|done].
  cbn [fst snd] in *. destruct (chunk_by_spec balance_key orders) as [Hj Hf]. rewrite Forall_forall in Hf.
  destruct (Hf (k', group)) as [Hne Hkeys]; [by eapply list_elem_of_lookup_2|]. cbn [fst snd] in *.
  assert (k' = k) as -> by congruence. exists group, q. split_and!; try done. rewrite <- Hj.
  apply list_elem_of_lookup_2, list_elem_of_split in Hlk as (l1 & l2 & ->).
  rewrite fmap_app, join_app. cbn. apply sublist_inserts_l, sublist_inserts_r. done.
Qed.

(** Orders of one owner that are not next to each other are asked for separately, and the
    last answer counts: the balance assumes the interactions of the last order. *)
Definition separated_order (uid_ owner : Z) (pre : list EthInteraction) : DriverOrder.Order :=
  DriverOrder.mkOrder uid_ None 0 100 (mkAsset 2 900) (mkAsset 1 1000) Sell Limit (AppDataHash 0) PartialNo
    pre [] SellErc20 BuyErc20 (DriverOrder.mkSignature PreSign [] owner) [] None.
Definition balance_with_pre (q : BalanceQuery) : result string Z := Ok (1000 * Z.of_nat (length (bq_interactions q))).

Example separated_orders_not_pessimistic :
  let permit := [mkEthInteraction 5 0 [1]] in
  let adjacent := [separated_order 1 9 []; separated_order 2 9 permit; separated_order 3 8 []] in
  let separated := [separated_order 1 9 []; separated_order 3 8 []; separated_order 2 9 permit] in
  let balance orders := match fetch_balances balance_with_pre orders with Ret m => m !! (9, 1, SellErc20) | Panic => None end in
  adjacent ≡ₚ separated /\ balance adjacent = Some 0 /\ balance separated = Some 1000.
Proof. cbv zeta. split; [by do 1 constructor; apply perm_swap|]. by vm_compute. Qed.

(** A document that was fetched once is not asked for again, whatever the order book would
    answer; a failed request leaves nothing behind. *)
Lemma get_cached_or_fetch_once parse_document parse_protocol cache response hash r cache' :
  get_cached_or_fetch parse_document parse_protocol cache response hash = (r, cache') ->
  match r with
  | Ok d => forall response', get_cached_or_fetch parse_document parse_protocol cache' response' hash = (Ok d, cache')
  | Err _ => cache' = cache
  end.
Proof.
  unfold get_cached_or_fetch at 1. destruct (cache !! hash) as [d|] eqn:Ec.
  - intros [= <- <-] response'. unfold get_cached_or_fetch. by rewrite Ec.
  - intros [= -> <-]. destruct r as [d|e]; [|done]. intros response'. unfold get_cached_or_fetch. by rewrite lookup_insert_eq.
Qed.

(** Solvers that send the same request share its tasks; a request that cannot be parsed
    leaves those of the last one in place. *)
Lemma tasks_shared {T} (assemble : list Z -> result string T) control request r control' :
  start_or_get_tasks_for_auction assemble control request = Some (r, control') ->
  match r with
  | Ok tasks => start_or_get_tasks_for_auction assemble control' request = Some (Ok tasks, control')
  | Err _ => control' = control
  end.
Proof.
  unfold start_or_get_tasks_for_auction at 1. case_bool_decide as Hr.
  - destruct (cb_tasks control) as [|tasks] eqn:Et; [done|]. intros [= <- <-].
    unfold start_or_get_tasks_for_auction. rewrite bool_decide_eq_true_2 by done. by rewrite Et.
  - destruct (assemble request) as [tasks|e]; intros [= <- <-]; [|done].
    unfold start_or_get_tasks_for_auction. cbn [cb_solve_request cb_tasks]. by rewrite bool_decide_eq_true_2.
Qed.

(** A request with an empty body that arrives before the first auction waits forever. *)
Lemma empty_request_hangs {T} (assemble : list Z -> result string T) :
  start_or_get_tasks_for_auction assemble initial_control [] = None.
Proof. done. Qed.

(** The orders of an AMM are those its helper proposed, named by the AMM, and an AMM is
    only asked when all of its tokens have a price. *)
Lemma cow_amm_orders_spec keccak256 domain_separator now template amms tokens o :
  o ∈ cow_amm_orders keccak256 domain_separator now template amms tokens ->
  exists amm prices t, amm ∈ amms /\ template amm prices = Ok t /\
    Forall2 (fun token price => exists dt, tokens !! token = Some dt /\ dt_price dt = Some price) (amm_tradeable_tokens amm) prices /\
    order_uid o = uid keccak256 (to_order t) domain_separator (amm_address amm) /\ trader o = amm_address amm /\
    asset_amount (order_sell o) = od_sell_amount (to_order t) /\ asset_amount (order_buy o) = od_buy_amount (to_order t).
Proof.
  unfold cow_amm_orders. intros (amm & Hin & Ho)%list_elem_of_omap. rust_inv.
  match goal with H : amm_prices _ _ = Some ?p |- _ => rename H into Hprices; rename p into prices end.
  match goal with H : template _ _ = Ok ?t0 |- _ => rename H into Ht; rename t0 into t end.
  exists amm, prices, t. split; [done|]. split; [done|]. split.
  { unfold amm_prices in Hprices. apply mapM_Some_1 in Hprices. eapply Forall2_impl; [exact Hprices|].
    intros token price Hp. cbn in Hp. destruct (tokens !! token) as [dt|]; [|done]. eauto. }
  unfold amm_order in Ho. destruct (to_signature t); try done. by injection Ho as <-.
Qed.
