(* ===== verification/TokenDetection.v ===== *)
(** * TokenDetection: which tokens are fit to be traded

    [shared/src/bad_token/]: the lists of tokens ([list_based.rs]), the cache of what was
    found ([cache.rs]), the search for an owner of a token
    ([token_owner_finder/mod.rs], [liquidity.rs], [token_owner_list.rs], with the addresses
    of pairs in [sources/uniswap_v2/pair_provider.rs] and
    [sources/uniswap_v3_pair_provider.rs]) and the simulation of transfers
    ([trace_call.rs]).

    The node's answers, [keccak256], the recipient derived from a private key and the order
    in which the proposed owners arrive are parameters.  The reasons given for a bad token
    are the cases of the messages, without their text.  [Token] is the contract of a token
    as the simulation sees it; the theorems say which contracts the test accepts. *)

From stdpp Require Import base gmap sets list strings relations.
From Stdlib Require Import ZArith Lia.
From S2P Require Import Prelude Collections Eth Solution OrderModel DriverTrade.

Open Scope Z_scope.
Open Scope rust_scope.

(** ** Qualities and lists *)
Inductive BadReason :=
| NoOwner
| TransferInFailed (reason : string)
| TransferOutFailed (reason : string)
| BalanceUndecodable
| BalanceOverflow
| FeeOnTransferIn (expected actual : Z)
| NotTransferredOut (expected actual : Z)
| RecipientOverflow
| RecipientBalance (expected actual : Z)
| ApprovalFailed (reason : string)
| DenyListed
| NotAllowListed.

Inductive TokenQuality := Good | Bad (reason : BadReason).

Definition is_good (q : TokenQuality) : bool := match q with Good => true | Bad _ => false end.

Inductive DetectError :=
| FindOwner
| TraceMany
| UnexpectedTraces
| NoTrace
| NoCallResult.

#[export] Instance BadReason_eq_dec : EqDecision BadReason.
Proof. solve_decision. Defined.
#[export] Instance TokenQuality_eq_dec : EqDecision TokenQuality.
Proof. solve_decision. Defined.
#[export] Instance DetectError_eq_dec : EqDecision DetectError.
Proof. solve_decision. Defined.

(** A detector with state [S], such as a cache. *)
Definition Detecting (S : Type) : Type := address -> S -> result DetectError TokenQuality * S.

Inductive UnknownTokenStrategy (S : Type) := Allow | Deny | Forward (inner : Detecting S).
Arguments Allow {S}.
Arguments Deny {S}.
Arguments Forward {S} inner.

Record ListBasedDetector (S : Type) := mkListBasedDetector {
  lb_allow_list : list address;
  lb_deny_list : list address;
  lb_strategy : UnknownTokenStrategy S;
}.
Arguments mkListBasedDetector {S}.
Arguments lb_allow_list {S}.
Arguments lb_deny_list {S}.
Arguments lb_strategy {S}.

Definition ListBasedDetector_new {S} (allow_list deny_list : list address) (strategy : UnknownTokenStrategy S)
  : comp (ListBasedDetector S) :=
  if forallb (fun token => negb (bool_decide (token ∈ deny_list))) allow_list
  then Ret (mkListBasedDetector allow_list deny_list strategy) else Panic.

Definition deny_list {S} (l : list address) : ListBasedDetector S := mkListBasedDetector [] l Allow.

Definition list_detect {S} (self : ListBasedDetector S) : Detecting S := fun token s =>
  if bool_decide (token ∈ lb_allow_list self) then (Ok Good, s)
  else if bool_decide (token ∈ lb_deny_list self) then (Ok (Bad DenyListed), s)
  else match lb_strategy self with
       | Allow => (Ok Good, s)
       | Deny => (Ok (Bad NotAllowListed), s)
       | Forward inner => inner token s
       end.

(** ** The cache

    Instants are integers.  A request is a look-up at [asked] and, after the answer of
    [inner], an insertion at [answered]. *)
Record CachingDetector := mkCachingDetector { cd_cache_expiry : Z; cd_prefetch_time : Z }.

Abbreviation QualityCache := (gmap address (Z * TokenQuality)).

Definition CachingDetector_new (cache_expiry prefetch_time : Z) : comp CachingDetector :=
  if prefetch_time <? cache_expiry then Ret (mkCachingDetector cache_expiry prefetch_time) else Panic.

(** [Instant::saturating_duration_since]. *)
Definition elapsed (now since : Z) : Z := Z.max 0 (now - since).

Definition get_from_cache (self : CachingDetector) (token now : Z) (cache : QualityCache) : option TokenQuality :=
  let? entry := cache !! token in
  if elapsed now entry.1 <? cd_cache_expiry self then Some entry.2 else None.

Definition insert_many_into_cache (now : Z) (tokens : list (address * TokenQuality)) (cache : QualityCache) : QualityCache :=
  foldl (fun cache t => <[t.1 := (now, t.2)]> cache) cache tokens.

Definition insert_answer (token answered : Z) (answer : result DetectError TokenQuality) (cache : QualityCache)
  : QualityCache :=
  match answer with Ok quality => <[token := (answered, quality)]> cache | Err _ => cache end.

Definition caching_detect (self : CachingDetector) (inner : address -> result DetectError TokenQuality)
  (asked answered : Z) : Detecting QualityCache := fun token cache =>
  match get_from_cache self token asked cache with
  | Some quality => (Ok quality, cache)
  | None => (inner token, insert_answer token answered (inner token) cache)
  end.

(** The maintenance task: the tokens that it asks for, and what it keeps of the answers. *)
Definition prefetch_time_to_expire (self : CachingDetector) : Z := cd_cache_expiry self - cd_prefetch_time self.
Definition maintenance_timeout (self : CachingDetector) : Z := cd_prefetch_time self / 2.

Definition tokens_to_refresh (self : CachingDetector) (start : Z) (cache : QualityCache) : list address :=
  omap (fun e => if elapsed start e.2.1 <? prefetch_time_to_expire self then None else Some e.1) (map_to_list cache).

Definition refreshed (inner : address -> result DetectError TokenQuality) (tokens : list address)
  : list (address * TokenQuality) :=
  omap (fun token => match inner token with Ok quality => Some (token, quality) | Err _ => None end) tokens.

Definition remaining_sleep (self : CachingDetector) (start now : Z) : Z :=
  Z.max 0 (maintenance_timeout self - elapsed now start).

(** ** Owners of a token *)
Section owners.
Context (keccak256 : list Z -> Z).

Record PairProvider := mkPairProvider { pp_factory : address; pp_init_code_digest : list Z }.

Definition create2_target_address (creator : address) (salt init_code_digest : list Z) : address :=
  keccak256 (0xff :: be_bytes 20 creator ++ salt ++ init_code_digest) mod 2 ^ 160.

Definition v2_pair_address (self : PairProvider) (pair : Z * Z) : address :=
  create2_target_address (pp_factory self)
    (be_bytes 32 (keccak256 (be_bytes 20 pair.1 ++ be_bytes 20 pair.2))) (pp_init_code_digest self).

Definition V3_INIT : list Z :=
  be_bytes 32 0xe34f199b19b2b4f47f68442619d555527d244f78a3297ea89325f843f87b8b54.

Definition v3_pair_address (factory : address) (pair : Z * Z) (fee : Z) : address :=
  let hash := keccak256 (repeat 0 12 ++ be_bytes 20 pair.1 ++ repeat 0 12 ++ be_bytes 20 pair.2 ++
                         repeat 0 28 ++ be_bytes 4 fee) in
  keccak256 (0xff :: be_bytes 20 factory ++ be_bytes 32 hash ++ V3_INIT) mod 2 ^ 160.

Inductive TokenOwnerProposer :=
| UniswapLikePairProviderFinder (inner : PairProvider) (base_tokens : list address)
| BalancerVaultFinder (vault : address)
| UniswapV3Finder (factory : address) (base_tokens : list address) (fee_values : list Z)
| TokenOwnerList (owners : gmap address (list address))
| RemoteProposer (propose : address -> result unit (list address)).

(** [UniswapV3Finder::new] with the static fee values. *)
Definition STATIC_FEE_VALUES : list Z := [500; 3000; 10000; 100].

Definition pairs_with (base_tokens : list address) (token : address) : list (Z * Z) :=
  omap (fun base_token => TokenPair_new base_token token) base_tokens.

Definition find_candidate_owners (proposer : TokenOwnerProposer) (token : address) : result unit (list address) :=
  match proposer with
  | UniswapLikePairProviderFinder inner base_tokens => Ok (v2_pair_address inner <$> pairs_with base_tokens token)
  | BalancerVaultFinder vault => Ok [vault]
  | UniswapV3Finder factory base_tokens fee_values =>
      Ok ((fun pf => v3_pair_address factory pf.1 pf.2) <$>
            mbind (fun pair => (fun fee => (pair, fee)) <$> fee_values) (pairs_with base_tokens token))
  | TokenOwnerList owners => Ok (default [] (owners !! token))
  | RemoteProposer propose => propose token
  end.

(** The candidates of the proposers that answered; [arrival] merges them into the batches
    that are ready together. *)
Definition candidate_owners (proposers : list TokenOwnerProposer) (token : address) : list (list address) :=
  omap (fun p => ok (find_candidate_owners p token)) proposers.

Inductive BalanceError := ContractError | OtherError.

Definition owner_balance (balance_of : address -> result BalanceError Z) (owner : address)
  : result DetectError (address * Z) :=
  match balance_of owner with
  | Ok balance => Ok (owner, balance)
  | Err ContractError => Ok (owner, 0)
  | Err OtherError => Err FindOwner
  end.

Fixpoint try_join_all {E A} (l : list (result E A)) : result E (list A) :=
  match l with
  | [] => Ok []
  | r :: l => letr x := r in letr xs := try_join_all l in Ok (x :: xs)
  end.

Fixpoint find_in_batches (balance_of : address -> result BalanceError Z) (settlement_contract min_balance : Z)
  (batches : list (list address)) : result DetectError (option (address * Z)) :=
  match batches with
  | [] => Ok None
  | chunk :: batches =>
      letr balances := try_join_all (owner_balance balance_of <$> filter (fun o => o <> settlement_contract) chunk) in
      match list_find (fun b => min_balance <= b.2) balances with
      | Some (_, owner) => Ok (Some owner)
      | None => find_in_batches balance_of settlement_contract min_balance batches
      end
  end.

Definition find_owner (proposers : list TokenOwnerProposer) (arrival : list (list address) -> list (list address))
  (balance_of : address -> result BalanceError Z) (settlement_contract token min_balance : Z)
  : result DetectError (option (address * Z)) :=
  find_in_batches balance_of settlement_contract min_balance (arrival (candidate_owners proposers token)).
End owners.

(** ** The simulated transfers *)
Record TraceRequest := mkTraceRequest {
  tr_from : option address;
  tr_to : address;
  tr_value : option Z;
  tr_input : list Z;
}.

Inductive TraceOutput := CallOutput (gas_used : Z) | CreateOutput.
Record TransactionTrace := mkTransactionTrace { tt_error : option string; tt_result : option TraceOutput }.
Record TraceResults := mkTraceResults { tr_output : list Z; tr_trace : list TransactionTrace }.

(** What the node answers to [trace_callMany]. *)
Inductive TraceAnswer :=
| Traces (l : list TraceResults)
| UnsupportedFeature
| ErrorResp (code : Z)
| HttpError (status : Z)
| OtherRpcError.

Definition METHOD_NOT_FOUND_CODE : Z := -32601.

Section simulation.
Context (settlement_contract arbitrary_recipient : address).

Definition balanceOf_calldata (account : address) : list Z :=
  [0x70; 0xa0; 0x82; 0x31] ++ repeat 0 12 ++ be_bytes 20 account.
Definition transfer_calldata (recipient amount : Z) : list Z :=
  [0xa9; 0x05; 0x9c; 0xbb] ++ repeat 0 12 ++ be_bytes 20 recipient ++ be_bytes 32 amount.
Definition approve_calldata (spender amount : Z) : list Z :=
  [0x09; 0x5e; 0xa7; 0xb3] ++ repeat 0 12 ++ be_bytes 20 spender ++ be_bytes 32 amount.

Definition create_trace_request (token amount take_from : Z) : list TraceRequest :=
  [ mkTraceRequest None token None (balanceOf_calldata settlement_contract);
    mkTraceRequest (Some take_from) token None (transfer_calldata settlement_contract amount);
    mkTraceRequest None token None (balanceOf_calldata settlement_contract);
    mkTraceRequest None token None (balanceOf_calldata arbitrary_recipient);
    mkTraceRequest (Some settlement_contract) token None (transfer_calldata arbitrary_recipient amount);
    mkTraceRequest None token None (balanceOf_calldata settlement_contract);
    mkTraceRequest None token None (balanceOf_calldata arbitrary_recipient);
    mkTraceRequest (Some settlement_contract) token None (approve_calldata arbitrary_recipient U256_MAX) ].

(** The outer result is a failure of the node, the inner one of the transaction. *)
Definition ensure_transaction_ok_and_get_gas (t : TraceResults) : result DetectError (result string Z) :=
  match tr_trace t with
  | [] => Err NoTrace
  | first :: _ =>
      match tt_error first with
      | Some error => Ok (Err (String.append "transaction failed: " error))
      | None => match tt_result first with Some (CallOutput gas) => Ok (Ok gas) | _ => Err NoCallResult end
      end
  end.

Definition u256_from_be_bytes_strict (b : list Z) : option Z :=
  if bool_decide (length b = 32%nat) then Some (from_be_bytes b) else None.

(** The balances: of the settlement contract before, between and after the transfers, and
    of the recipient before and after the second one. *)
Definition check_balances (amount before_in after_in after_out recipient_before recipient_after : Z)
  : option BadReason :=
  match checked_add before_in amount with
  | None => Some BalanceOverflow
  | Some computed_after_in =>
      if after_in <? saturating_sub computed_after_in 1 then Some (FeeOnTransferIn computed_after_in after_in)
      else if negb (after_out =? before_in) then Some (NotTransferredOut before_in after_out)
      else match checked_add recipient_before amount with
           | None => Some RecipientOverflow
           | Some computed_recipient_after =>
               if computed_recipient_after <? saturating_sub recipient_after 1
               then Some (RecipientBalance computed_recipient_after recipient_after) else None
           end
  end.

Definition handle_response (traces : list TraceResults) (amount : Z) : result DetectError TokenQuality :=
  match traces with
  | [t0; t1; t2; t3; t4; t5; t6; t7] =>
      letr gas_in := ensure_transaction_ok_and_get_gas t1 in
      match gas_in with
      | Err reason => Ok (Bad (TransferInFailed reason))
      | Ok _ =>
          letr gas_out := ensure_transaction_ok_and_get_gas t4 in
          match gas_out with
          | Err reason => Ok (Bad (TransferOutFailed reason))
          | Ok _ =>
              match u256_from_be_bytes_strict (tr_output t0), u256_from_be_bytes_strict (tr_output t2),
                    u256_from_be_bytes_strict (tr_output t5), u256_from_be_bytes_strict (tr_output t3),
                    u256_from_be_bytes_strict (tr_output t6) with
              | Some before_in, Some after_in, Some after_out, Some recipient_before, Some recipient_after =>
                  match check_balances amount before_in after_in after_out recipient_before recipient_after with
                  | Some reason => Ok (Bad reason)
                  | None =>
                      letr approval := ensure_transaction_ok_and_get_gas t7 in
                      match approval with
                      | Err err => Ok (Bad (ApprovalFailed err))
                      | Ok _ => Ok Good
                      end
                  end
              | _, _, _, _, _ => Ok (Bad BalanceUndecodable)
              end
          end
      end
  | _ => Err UnexpectedTraces
  end.

Definition pre_interaction_request (i : EthInteraction) : TraceRequest :=
  mkTraceRequest None (ei_target i) (Some (ei_value i)) (ei_calldata i).

(** Slicing panics when the node answers with fewer traces than interactions. *)
Definition test_transfer (trace_many : list TraceRequest -> TraceAnswer) (take_from token amount : Z)
  (pre_interactions : list EthInteraction) : comp (result DetectError TokenQuality) :=
  match trace_many ((pre_interaction_request <$> pre_interactions) ++ create_trace_request token amount take_from) with
  | Traces traces =>
      if (length traces <? length pre_interactions)%nat then Panic
      else Ret (handle_response (drop (length pre_interactions) traces) amount)
  | UnsupportedFeature => Ret (Ok Good)
  | ErrorResp code => Ret (if code =? METHOD_NOT_FOUND_CODE then Ok Good else Err TraceMany)
  | HttpError status => Ret (if status =? 400 then Ok Good else Err TraceMany)
  | OtherRpcError => Ret (Err TraceMany)
  end.

Definition MIN_AMOUNT : Z := 100000.

(** [TraceCallDetector::detect_impl]. *)
Definition trace_detect (find_owner : address -> Z -> result DetectError (option (address * Z)))
  (trace_many : list TraceRequest -> TraceAnswer) (token : address) : comp (result DetectError TokenQuality) :=
  match find_owner token MIN_AMOUNT with
  | Err e => Ret (Err e)
  | Ok None => Ret (Ok (Bad NoOwner))
  | Ok (Some (take_from, balance)) => test_transfer trace_many take_from token (Z.max (balance / 2) MIN_AMOUNT) []
  end.
End simulation.

(** ** The contract of a token

    A token as the simulation sees it: its calls are executed one after the other and a
    call that fails changes nothing.  [call] decodes the calldata. *)
Record Token (T : Type) := mkToken {
  tk_balance : T -> address -> Z;
  tk_transfer : T -> address -> address -> Z -> result string T;
  tk_approve : T -> address -> address -> Z -> result string T;
}.
Arguments mkToken {T}.
Arguments tk_balance {T}.
Arguments tk_transfer {T}.
Arguments tk_approve {T}.

Section token.
Context {T : Type} (tk : Token T) (gas : Z) (settlement recipient : address).

Definition call_trace (r : result string T) : TraceResults :=
  mkTraceResults []
    [match r with Ok _ => mkTransactionTrace None (Some (CallOutput gas)) | Err e => mkTransactionTrace (Some e) None end].
Definition view_trace (n : Z) : TraceResults :=
  mkTraceResults (be_bytes 32 n) [mkTransactionTrace None (Some (CallOutput gas))].
Definition after (t : T) (r : result string T) : T := match r with Ok t => t | Err _ => t end.

Definition calldata_word (i : nat) (input : list Z) : Z := from_be_bytes (take 32 (drop (4 + 32 * i) input)).

Definition call (t : T) (req : TraceRequest) : TraceResults * T :=
  let input := tr_input req in
  let sender := default 0 (tr_from req) in
  if bool_decide (take 4 input = [0x70; 0xa0; 0x82; 0x31]) then (view_trace (tk_balance tk t (calldata_word 0 input)), t)
  else
    let r := if bool_decide (take 4 input = [0xa9; 0x05; 0x9c; 0xbb])
             then tk_transfer tk t sender (calldata_word 0 input) (calldata_word 1 input)
             else if bool_decide (take 4 input = [0x09; 0x5e; 0xa7; 0xb3])
             then tk_approve tk t sender (calldata_word 0 input) (calldata_word 1 input)
             else Err "revert"%string in
    (call_trace r, after t r).

Fixpoint execute (t : T) (requests : list TraceRequest) : list TraceResults :=
  match requests with
  | [] => []
  | req :: requests => (call t req).1 :: execute (call t req).2 requests
  end.

(** A node that has executed [pre_traces] before. *)
Definition honest_node (t : T) (pre_traces : list TraceResults) (requests : list TraceRequest) : TraceAnswer :=
  Traces (pre_traces ++ execute t (drop (length pre_traces) requests)).

(** The checks of the test as they are, the one of the recipient's balance included, which
    rejects a recipient that receives too much. *)
Definition passes_test (t : T) (take_from amount : Z) : Prop :=
  exists t1 t2 t3,
    tk_transfer tk t take_from settlement amount = Ok t1 /\
    tk_transfer tk t1 settlement recipient amount = Ok t2 /\
    tk_approve tk t2 settlement recipient U256_MAX = Ok t3 /\
    tk_balance tk t settlement + amount <= U256_MAX /\
    tk_balance tk t settlement + amount - 1 <= tk_balance tk t1 settlement /\
    tk_balance tk t2 settlement = tk_balance tk t settlement /\
    tk_balance tk t1 recipient + amount <= U256_MAX /\
    tk_balance tk t2 recipient - 1 <= tk_balance tk t1 recipient + amount.

Lemma from_be_bytes_acc l n : foldl (fun acc b => acc * 256 + b) n l = n * 256 ^ Z.of_nat (length l) + from_be_bytes l.
Proof.
  unfold from_be_bytes. revert n; induction l as [|b l IH]; intros n; cbn [foldl length]; [lia|].
  rewrite IH, (IH (0 * 256 + b)), Nat2Z.inj_succ, Z.pow_succ_r by lia. ring.
Qed.

Lemma from_be_bytes_zeros n l : from_be_bytes (repeat 0 n ++ l) = from_be_bytes l.
Proof. induction n as [|n IH]; [done|]. unfold from_be_bytes in *. simpl. exact IH. Qed.

Lemma address_word a rest : 0 <= a < 2 ^ 160 ->
  from_be_bytes (take 32 (repeat 0 12 ++ be_bytes 20 a ++ rest)) = a.
Proof.
  intros Ha. rewrite (app_assoc (repeat 0 12)), take_app_length'.
  - rewrite from_be_bytes_zeros, from_be_bytes_be_bytes by exact Ha. done.
  - by rewrite length_app, length_be_bytes.
Qed.

Lemma u256_word x rest : u256 x -> from_be_bytes (take 32 (be_bytes 32 x ++ rest)) = x.
Proof.
  intros Hx. rewrite take_app_length' by (by rewrite length_be_bytes). by apply from_be_bytes_be_bytes.
Qed.

Lemma decode_word x : u256 x -> u256_from_be_bytes_strict (be_bytes 32 x) = Some x.
Proof.
  intros Hx. unfold u256_from_be_bytes_strict. rewrite bool_decide_true by apply length_be_bytes.
  by rewrite from_be_bytes_be_bytes.
Qed.

(** The calls of the test. *)
Lemma call_balanceOf t from to value a : 0 <= a < 2 ^ 160 ->
  call t (mkTraceRequest from to value (balanceOf_calldata a)) = (view_trace (tk_balance tk t a), t).
Proof.
  intros Ha. unfold call. cbn [tr_input tr_from]. rewrite bool_decide_true by done. do 3 f_equal.
  unfold calldata_word, balanceOf_calldata. rewrite drop_app_length' by done.
  rewrite <-(app_nil_r (be_bytes 20 a)). by apply address_word.
Qed.

Lemma calldata_words (selector : list Z) a x : length selector = 4%nat -> 0 <= a < 2 ^ 160 -> u256 x ->
  calldata_word 0 (selector ++ repeat 0 12 ++ be_bytes 20 a ++ be_bytes 32 x) = a /\
  calldata_word 1 (selector ++ repeat 0 12 ++ be_bytes 20 a ++ be_bytes 32 x) = x.
Proof.
  intros Hs Ha Hx. unfold calldata_word. split.
  - rewrite drop_app_length' by done. by apply address_word.
  - rewrite (app_assoc (repeat 0 12)), app_assoc, drop_app_length'.
    + rewrite <-(app_nil_r (be_bytes 32 x)). by apply u256_word.
    + by rewrite !length_app, Hs, length_be_bytes.
Qed.

Lemma call_transfer t from to value a x : 0 <= a < 2 ^ 160 -> u256 x ->
  call t (mkTraceRequest (Some from) to value (transfer_calldata a x)) =
  (call_trace (tk_transfer tk t from a x), after t (tk_transfer tk t from a x)).
Proof.
  intros Ha Hx. unfold call. cbn [tr_input tr_from default].
  rewrite bool_decide_false by discriminate. rewrite bool_decide_true by done.
  unfold transfer_calldata. by destruct (calldata_words [0xa9; 0x05; 0x9c; 0xbb] a x) as [-> ->].
Qed.

Lemma call_approve t from to value a x : 0 <= a < 2 ^ 160 -> u256 x ->
  call t (mkTraceRequest (Some from) to value (approve_calldata a x)) =
  (call_trace (tk_approve tk t from a x), after t (tk_approve tk t from a x)).
Proof.
  intros Ha Hx. unfold call. cbn [tr_input tr_from default].
  rewrite bool_decide_false by discriminate. rewrite bool_decide_false by discriminate.
  rewrite bool_decide_true by done.
  unfold approve_calldata. by destruct (calldata_words [0x09; 0x5e; 0xa7; 0xb3] a x) as [-> ->].
Qed.

Context (settlement_ok : 0 <= settlement < 2 ^ 160) (recipient_ok : 0 <= recipient < 2 ^ 160).

Lemma execute_test t token take_from amount : u256 amount ->
  execute t (create_trace_request settlement recipient token amount take_from) =
  let in_ := tk_transfer tk t take_from settlement amount in
  let t1 := after t in_ in
  let out := tk_transfer tk t1 settlement recipient amount in
  let t2 := after t1 out in
  [ view_trace (tk_balance tk t settlement); call_trace in_; view_trace (tk_balance tk t1 settlement);
    view_trace (tk_balance tk t1 recipient); call_trace out; view_trace (tk_balance tk t2 settlement);
    view_trace (tk_balance tk t2 recipient); call_trace (tk_approve tk t2 settlement recipient U256_MAX) ].
Proof.
  intros Hx. unfold create_trace_request. cbn [execute].
  rewrite !call_balanceOf, !call_transfer, !call_approve by done. reflexivity.
Qed.

Lemma ensure_call r : ensure_transaction_ok_and_get_gas (call_trace r) =
  Ok match r with Ok _ => Ok gas | Err e => Err (String.append "transaction failed: " e) end.
Proof. by destruct r. Qed.

Lemma check_balances_None amount before_in after_in after_out recipient_before recipient_after :
  0 <= after_in -> 0 <= before_in -> 0 <= amount -> 0 <= recipient_before ->
  check_balances amount before_in after_in after_out recipient_before recipient_after = None <->
  before_in + amount <= U256_MAX /\ before_in + amount - 1 <= after_in /\ after_out = before_in /\
  recipient_before + amount <= U256_MAX /\ recipient_after - 1 <= recipient_before + amount.
Proof.
  intros H1 H2 H3 H4. unfold check_balances, checked_add, saturating_sub.
  repeat case_match; naive_solver lia.
Qed.

(** A token is found good if and only if it behaves as [passes_test] says, after whatever
    interactions come first. *)
Lemma transfer_test_exact (balances_ok : forall t a, u256 (tk_balance tk t a)) t pre_traces pre_interactions take_from token amount :
  length pre_traces = length pre_interactions -> u256 amount ->
  exists quality,
    test_transfer settlement recipient (honest_node t pre_traces) take_from token amount pre_interactions = Ret (Ok quality) /\
    (is_good quality = true <-> passes_test t take_from amount).
Proof.
  intros Hlen Hx. unfold test_transfer, honest_node. rewrite length_app.
  destruct (Nat.ltb_spec (length pre_traces + length (execute t (drop (length pre_traces)
    ((pre_interaction_request <$> pre_interactions) ++ create_trace_request settlement recipient token amount take_from))))
    (length pre_interactions)) as [Hlt|_]; [lia|].
  rewrite !drop_app_length' by (rewrite ?length_fmap; congruence). rewrite execute_test by done.
  unfold handle_response, passes_test. cbv zeta. rewrite !ensure_call.
  destruct (tk_transfer tk t take_from settlement amount) as [t1|e] eqn:E1; cbn [result_bind after];
    [|eexists; split; [done|]; split; [done|intros (? & ? & ? & ? & ? & ? & _); congruence]].
  destruct (tk_transfer tk t1 settlement recipient amount) as [t2|e] eqn:E2; cbn [result_bind after];
    [|eexists; split; [done|]; split; [done|intros (? & ? & ? & ? & ? & ? & _); congruence]].
  unfold view_trace. cbn [tr_output]. rewrite !decode_word by done.
  pose proof (check_balances_None amount (tk_balance tk t settlement) (tk_balance tk t1 settlement)
    (tk_balance tk t2 settlement) (tk_balance tk t1 recipient) (tk_balance tk t2 recipient)) as C.
  pose proof (balances_ok t settlement) as B1. pose proof (balances_ok t1 settlement) as B2.
  pose proof (balances_ok t1 recipient) as B3. unfold u256 in *.
  specialize (C ltac:(lia) ltac:(lia) ltac:(lia) ltac:(lia)).
  destruct (check_balances amount _ _ _ _ _) as [reason|].
  - eexists; split; [done|]. split; [done|].
    intros (t1' & t2' & t3' & F1 & F2 & _ & F). assert (t1' = t1) as -> by congruence.
    assert (t2' = t2) as -> by congruence. by apply C in F.
  - destruct (tk_approve tk t2 settlement recipient U256_MAX) as [t3|e] eqn:E3; cbn [result_bind].
    + eexists; split; [done|]. split; [|done]. intros _. exists t1, t2, t3. pose proof (proj1 C eq_refl). tauto.
    + eexists; split; [done|]. split; [done|]. intros (? & ? & ? & ? & ? & ? & _). congruence.
Qed.
End token.

(** ** Fees on transfers

    A ledger whose transfers out of an account cost a fee that depends on the sender. *)
Definition ledger_balance (m : gmap address Z) (a : address) : Z := default 0 (m !! a).

Definition ledger_move (fee : address -> Z) (m : gmap address Z) (from to amount : Z) : result string (gmap address Z) :=
  if amount <=? ledger_balance m from then
    let m := <[from := ledger_balance m from - amount]> m in
    Ok (<[to := ledger_balance m to + Z.max 0 (amount - fee from)]> m)
  else Err "balance too low"%string.

Definition ledger_token (fee : address -> Z) : Token (gmap address Z) :=
  mkToken ledger_balance (ledger_move fee) (fun m _ _ _ => Ok m).

Lemma ledger_move_balance fee m from to amount m' a : from <> to -> ledger_move fee m from to amount = Ok m' ->
  ledger_balance m' a =
  if decide (a = to) then ledger_balance m to + Z.max 0 (amount - fee from)
  else if decide (a = from) then ledger_balance m from - amount else ledger_balance m a.
Proof.
  intros Hne. unfold ledger_move. destruct (Z.leb_spec amount (ledger_balance m from)); [|done]. intros [= <-].
  unfold ledger_balance. destruct (decide (a = to)) as [->|Ha].
  - rewrite lookup_insert_eq. simpl. by rewrite lookup_insert_ne.
  - rewrite lookup_insert_ne by done. destruct (decide (a = from)) as [->|Ha'].
    + by rewrite lookup_insert_eq.
    + by rewrite lookup_insert_ne.
Qed.

(** Only the fee of the first transfer decides: it has to be nothing, while the recipient
    of the second transfer may receive anything less than the amount. *)
Lemma fee_on_transfer_out_accepted fee m settlement recipient take_from amount :
  take_from <> settlement -> recipient <> settlement -> recipient <> take_from ->
  0 < amount <= ledger_balance m take_from -> 0 <= fee take_from <= amount -> 0 <= fee settlement ->
  0 <= ledger_balance m settlement -> ledger_balance m settlement + amount <= U256_MAX ->
  0 <= ledger_balance m recipient -> ledger_balance m recipient + amount <= U256_MAX ->
  passes_test (ledger_token fee) settlement recipient m take_from amount <-> fee take_from = 0.
Proof.
  intros Hts Hrs Hrt Ha Hf Hfs Hs Hs' Hr Hr'. unfold passes_test, ledger_token. cbn [tk_transfer tk_approve tk_balance].
  assert (exists m1, ledger_move fee m take_from settlement amount = Ok m1) as [m1 E1].
  { unfold ledger_move. destruct (Z.leb_spec amount (ledger_balance m take_from)); [eauto|lia]. }
  pose proof (fun a => ledger_move_balance fee m take_from settlement amount m1 a Hts E1) as B1.
  assert (B1s := B1 settlement). assert (B1r := B1 recipient). rewrite decide_True in B1s by done.
  rewrite !decide_False in B1r by done. split.
  - intros (m1' & m2 & _ & E1' & E2 & _ & _ & _ & Hout & _). assert (m1' = m1) as -> by congruence.
    rewrite (ledger_move_balance fee m1 settlement recipient amount m2 settlement) in Hout by done.
    rewrite decide_False, decide_True in Hout by done. lia.
  - intros H0. assert (exists m2, ledger_move fee m1 settlement recipient amount = Ok m2) as [m2 E2].
    { unfold ledger_move. destruct (Z.leb_spec amount (ledger_balance m1 settlement)); [eauto|lia]. }
    assert (B2 := ledger_move_balance fee m1 settlement recipient amount m2).
    exists m1, m2, m2. rewrite !B2 by done. rewrite (decide_True (P := recipient = recipient)) by done.
    rewrite decide_False, decide_True by done. repeat split; [done..|lia|lia|lia|lia|lia].
Qed.

(** ** The search for an owner *)
Lemma try_join_all_Ok {E A B} (f : A -> result E B) (g : A -> B) l :
  (forall x, x ∈ l -> f x = Ok (g x)) -> try_join_all (f <$> l) = Ok (g <$> l).
Proof.
  induction l as [|x l IH]; intros Hf; [done|]. rewrite !fmap_cons. cbn [try_join_all].
  rewrite Hf by set_solver. cbn [result_bind]. rewrite IH by set_solver. done.
Qed.

(** The first candidate that is not the settlement contract and owns enough. *)
Definition first_owner (balance : address -> Z) (settlement min_balance : Z) (candidates : list address) : option address :=
  let? found := list_find (fun o => o <> settlement /\ min_balance <= balance o) candidates in Some found.2.

Lemma list_find_filter {A} (P Q : A -> Prop) `{!forall x, Decision (P x), !forall x, Decision (Q x)} l :
  snd <$> list_find Q (filter P l) = snd <$> list_find (fun x => P x /\ Q x) l.
Proof.
  induction l as [|x l IH]; [done|]. rewrite filter_cons. cbn [list_find].
  destruct (decide (P x)) as [Hp|Hp]; cbn [list_find].
  - destruct (decide (Q x)) as [Hq|Hq]; [by rewrite decide_True|]. rewrite (decide_False (P := P x /\ Q x)) by tauto.
    destruct (list_find Q _) as [[]|], (list_find _ l) as [[]|]; simplify_eq/=; done.
  - rewrite (decide_False (P := P x /\ Q x)) by tauto. rewrite IH.
    by destruct (list_find _ l) as [[]|].
Qed.

Lemma list_find_fmap_snd {A B} (f : A -> B) (P : B -> Prop) `{!forall x, Decision (P x)} l :
  snd <$> list_find P (f <$> l) = f <$> (snd <$> list_find (fun x => P (f x)) l).
Proof.
  induction l as [|x l IH]; [done|]. rewrite fmap_cons. cbn [list_find].
  destruct (decide (P (f x))); [done|].
  destruct (list_find P _) as [[]|], (list_find _ l) as [[]|]; simplify_eq/=; congruence.
Qed.

Lemma first_owner_app balance settlement min_balance l k :
  first_owner balance settlement min_balance (l ++ k) =
  match first_owner balance settlement min_balance l with
  | Some o => Some o | None => first_owner balance settlement min_balance k end.
Proof.
  unfold first_owner. induction l as [|x l IH]; [done|]. cbn [app list_find].
  destruct (decide _); [done|]. destruct (list_find _ (l ++ k)) as [[]|], (list_find _ l) as [[]|]; done.
Qed.

Lemma find_in_batches_first balance settlement min_balance batches :
  find_in_batches (fun o => Ok (balance o)) settlement min_balance batches =
  Ok (let? o := first_owner balance settlement min_balance (concat batches) in Some (o, balance o)).
Proof.
  induction batches as [|chunk batches IH]; [done|]. cbn [find_in_batches concat].
  rewrite (try_join_all_Ok _ (fun o => (o, balance o))) by done. cbn [result_bind]. rewrite first_owner_app, IH.
  pose proof (list_find_fmap_snd (fun o => (o, balance o)) (fun b => min_balance <= b.2)
    (filter (fun o => o <> settlement) chunk)) as F. cbn [snd] in F.
  rewrite (list_find_filter (fun o => o <> settlement) (fun o => min_balance <= balance o)) in F.
  unfold first_owner. destruct (list_find _ (_ <$> _)) as [[]|], (list_find _ chunk) as [[]|]; by simplify_eq/=.
Qed.

Lemma first_owner_Some balance settlement min_balance l o : first_owner balance settlement min_balance l = Some o ->
  o ∈ l /\ o <> settlement /\ min_balance <= balance o.
Proof.
  unfold first_owner. destruct (list_find _ l) as [[i x]|] eqn:E; [|done]. intros [= ->].
  apply list_find_Some in E as (E & H & _). split; [by eapply list_elem_of_lookup_2|done].
Qed.

(** ** What a verdict means *)

(** What a token that is found good did: it moved the amount from the owner to the
    settlement contract and on to the recipient, and let the recipient be approved; the
    settlement contract was credited with all but at most one atom of the amount, and was
    left with the balance it had before.  Nothing is said of what the recipient got. *)
Record transfers_through {T} (tk : Token T) (settlement recipient : address) (t : T) (take_from amount : Z) : Prop := {
  through_owner : take_from <> settlement /\ MIN_AMOUNT <= amount <= tk_balance tk t take_from;
  through_transfers : exists t1 t2 t3,
    tk_transfer tk t take_from settlement amount = Ok t1 /\
    tk_transfer tk t1 settlement recipient amount = Ok t2 /\
    tk_approve tk t2 settlement recipient U256_MAX = Ok t3 /\
    tk_balance tk t settlement + amount - 1 <= tk_balance tk t1 settlement /\
    tk_balance tk t2 settlement = tk_balance tk t settlement;
}.

(** A token without surprises: a transfer of at most the sender's balance succeeds, moves
    exactly the amount and touches no other balance; an approval always succeeds. *)
Record standard {T} (tk : Token T) : Prop := {
  std_transfer : forall t from to amount, from <> to -> 0 <= amount <= tk_balance tk t from ->
    tk_balance tk t to + amount <= U256_MAX ->
    exists t', tk_transfer tk t from to amount = Ok t' /\
      tk_balance tk t' from = tk_balance tk t from - amount /\ tk_balance tk t' to = tk_balance tk t to + amount /\
      forall a, a <> from -> a <> to -> tk_balance tk t' a = tk_balance tk t a;
  std_approve : forall t owner spender amount, exists t', tk_approve tk t owner spender amount = Ok t';
}.

Lemma standard_passes {T} (tk : Token T) settlement recipient t take_from amount :
  standard tk -> take_from <> settlement -> recipient <> settlement -> 0 <= amount <= tk_balance tk t take_from ->
  0 <= tk_balance tk t settlement -> tk_balance tk t settlement + amount <= U256_MAX ->
  tk_balance tk t take_from <= U256_MAX -> tk_balance tk t recipient + amount <= U256_MAX ->
  passes_test tk settlement recipient t take_from amount.
Proof.
  intros Hstd Hts Hrs Ha Hs Hso Ht Hro.
  destruct (std_transfer tk Hstd t take_from settlement amount) as (t1 & E1 & B1 & B2 & B3); [done|done|done|].
  assert (Hr1 : tk_balance tk t1 recipient + amount <= U256_MAX).
  { destruct (decide (recipient = take_from)) as [->|Hne]; [rewrite B1; lia|by rewrite B3]. }
  destruct (std_transfer tk Hstd t1 settlement recipient amount) as (t2 & E2 & C1 & C2 & C3); [congruence|lia|done|].
  destruct (std_approve tk Hstd t2 settlement recipient U256_MAX) as (t3 & E3).
  exists t1, t2, t3. repeat split; try done; lia.
Qed.

(** C22 (functional): the detector that simulates transfers, on a node that executes the
    calls on the token's contract, answers, and looks for the first proposed owner, other
    than the settlement contract, that owns 100,000 atoms.  A token it finds good moved
    half of the owner's balance (at least 100,000 atoms) through the settlement contract,
    which was credited with all but at most one atom and kept nothing, and its approval
    works; so a token that takes more than an atom on the way into the settlement contract,
    whose transfers or approval fail, or without an owner, is found bad.  A token whose
    transfers move exactly the amount is found good as soon as there is an owner, unless the
    amount overflows a balance.  Fees on the way out of the settlement contract are not
    detected ([fee_on_transfer_out_accepted]). *)
Theorem token_detection {T} (tk : Token T) (gas : Z) (settlement recipient : address) (t : T)
  keccak256 proposers arrival token
  (settlement_ok : 0 <= settlement < 2 ^ 160) (recipient_ok : 0 <= recipient < 2 ^ 160)
  (balances_ok : forall t a, u256 (tk_balance tk t a)) :
  let owner := first_owner (tk_balance tk t) settlement MIN_AMOUNT
                 (concat (arrival (candidate_owners keccak256 proposers token))) in
  exists quality,
    trace_detect settlement recipient
      (find_owner keccak256 proposers arrival (fun o => Ok (tk_balance tk t o)) settlement)
      (honest_node tk gas t []) token = Ret (Ok quality) /\
    (is_good quality = true -> exists take_from, owner = Some take_from /\
       transfers_through tk settlement recipient t take_from (Z.max (tk_balance tk t take_from / 2) MIN_AMOUNT)) /\
    (forall take_from, owner = Some take_from -> standard tk -> recipient <> settlement ->
       let amount := Z.max (tk_balance tk t take_from / 2) MIN_AMOUNT in
       tk_balance tk t settlement + amount <= U256_MAX -> tk_balance tk t recipient + amount <= U256_MAX ->
       is_good quality = true).
Proof.
  intros owner. unfold trace_detect, find_owner. rewrite find_in_batches_first. fold owner.
  destruct owner as [o|] eqn:E; [|by eexists; split; [done|]].
  apply first_owner_Some in E as (_ & Hos & Hmin). pose proof (balances_ok t o) as Hb.
  set (amount := Z.max (tk_balance tk t o / 2) MIN_AMOUNT).
  assert (Hamount : MIN_AMOUNT <= amount <= tk_balance tk t o).
  { unfold amount. unfold MIN_AMOUNT in *. pose proof (Z.div_le_upper_bound (tk_balance tk t o) 2 (tk_balance tk t o)). lia. }
  destruct (transfer_test_exact tk gas settlement recipient settlement_ok recipient_ok balances_ok t [] [] o token amount)
    as (quality & Hq & Hgood); [done|unfold u256, MIN_AMOUNT in *; lia|].
  exists quality. split; [done|]. split.
  - intros (t1 & t2 & t3 & E1 & E2 & E3 & _ & Hin & Hout & _)%Hgood. exists o. split; [done|].
    split; [done|]. exists t1, t2, t3. done.
  - intros o' [= <-] Hstd Hrs Hso Hro. apply Hgood. pose proof (balances_ok t settlement).
    apply standard_passes; unfold u256, MIN_AMOUNT, U256_MAX in *; try done; lia.
Qed.

(** ** The cache answers what was found last *)
Inductive CacheEvent :=
| Answered (token at_ : Z) (answer : result DetectError TokenQuality)
| Refreshed (at_ : Z) (tokens : list (address * TokenQuality)).

Definition cache_event (cache : QualityCache) (e : CacheEvent) : QualityCache :=
  match e with
  | Answered token at_ answer => insert_answer token at_ answer cache
  | Refreshed at_ tokens => insert_many_into_cache at_ tokens cache
  end.

(** The qualities an event brings, in order. *)
Definition event_answers (e : CacheEvent) : list (address * (Z * TokenQuality)) :=
  match e with
  | Answered token at_ (Ok quality) => [(token, (at_, quality))]
  | Answered _ _ (Err _) => []
  | Refreshed at_ tokens => (fun t => (t.1, (at_, t.2))) <$> tokens
  end.

Definition last_answer (token : address) (answers : list (address * (Z * TokenQuality))) : option (Z * TokenQuality) :=
  snd <$> last (filter (fun a => a.1 = token) answers).

Lemma insert_all_lookup (answers : list (address * (Z * TokenQuality))) (cache : QualityCache) token :
  foldl (fun cache a => <[a.1 := a.2]> cache) cache answers !! token =
  match last_answer token answers with Some e => Some e | None => cache !! token end.
Proof.
  unfold last_answer. induction answers as [|a answers IH] using rev_ind; [done|].
  rewrite foldl_app, filter_app, last_app. cbn [foldl]. destruct (decide (a.1 = token)) as [<-|Hne].
  - by rewrite filter_cons, decide_True, filter_nil, lookup_insert_eq by done.
  - by rewrite filter_cons, decide_False, filter_nil, lookup_insert_ne, IH by done.
Qed.

Lemma cache_event_answers cache e :
  cache_event cache e = foldl (fun cache a => <[a.1 := a.2]> cache) cache (event_answers e).
Proof.
  destruct e as [token at_ [|]|at_ tokens]; cbn; [done|done|].
  unfold insert_many_into_cache. rewrite foldl_fmap. done.
Qed.

(** Whatever was asked and refreshed: the cache answers exactly what was found last for the
    token, and only until it expires. *)
Lemma cached_quality self token now events :
  get_from_cache self token now (foldl cache_event ∅ events) =
  let? found := last_answer token (mbind event_answers events) in
  if elapsed now found.1 <? cd_cache_expiry self then Some found.2 else None.
Proof.
  assert (forall cache, foldl cache_event cache events =
            foldl (fun cache a => <[a.1 := a.2]> cache) cache (mbind event_answers events)) as ->.
  { induction events as [|e events IH]; intros cache; [done|]. rewrite bind_cons, foldl_app. cbn [foldl].
    by rewrite IH, cache_event_answers. }
  unfold get_from_cache. rewrite insert_all_lookup, lookup_empty. by destruct (last_answer _ _).
Qed.

Lemma tokens_to_refresh_elem self start cache token :
  token ∈ tokens_to_refresh self start cache <->
  exists e, cache !! token = Some e /\ prefetch_time_to_expire self <= elapsed start e.1.
Proof.
  unfold tokens_to_refresh. rewrite list_elem_of_omap. split.
  - intros ((token' & e) & Hin & H). apply elem_of_map_to_list in Hin. cbn [fst snd] in H.
    destruct (Z.ltb_spec (elapsed start e.1) (prefetch_time_to_expire self)); simplify_eq. eauto.
  - intros (e & He & H). exists (token, e). split; [by apply elem_of_map_to_list|]. cbn [fst snd].
    by destruct (Z.ltb_spec (elapsed start e.1) (prefetch_time_to_expire self)); [lia|].
Qed.

(** An entry that one run of the maintenance leaves alone is still valid when the answers of
    the next run are stored, as long as fetching them takes half the prefetch time. *)
Lemma refreshed_before_expiry self cache token e start done_ answers_stored :
  0 <= cd_prefetch_time self -> cache !! token = Some e -> token ∉ tokens_to_refresh self start cache ->
  start <= done_ <= start + maintenance_timeout self ->
  let next_start := done_ + remaining_sleep self start done_ in
  next_start <= answers_stored <= next_start + maintenance_timeout self ->
  is_Some (get_from_cache self token answers_stored cache).
Proof.
  intros Hp He Hnot Hdone next_start Hstored. rewrite tokens_to_refresh_elem in Hnot.
  assert (elapsed start e.1 < prefetch_time_to_expire self) as Hlt.
  { apply Z.lt_nge. intros Hle. apply Hnot. eauto. }
  unfold get_from_cache. rewrite He. destruct (Z.ltb_spec (elapsed answers_stored e.1) (cd_cache_expiry self)); [done|].
  exfalso. unfold next_start, remaining_sleep, prefetch_time_to_expire, maintenance_timeout, elapsed in *.
  pose proof (Z.mul_div_le (cd_prefetch_time self) 2). lia.
Qed.

(** The lists come first, and do not contradict each other. *)
Lemma list_detect_lists {S} allow deny (strategy : UnknownTokenStrategy S) self token (s : S) :
  ListBasedDetector_new allow deny strategy = Ret self ->
  (token ∈ allow -> (token ∉ deny) /\ list_detect self token s = (Ok Good, s)) /\
  (token ∈ deny -> list_detect self token s = (Ok (Bad DenyListed), s)) /\
  (token ∉ allow -> token ∉ deny -> list_detect self token s =
     match strategy with
     | Allow => (Ok Good, s) | Deny => (Ok (Bad NotAllowListed), s) | Forward inner => inner token s
     end).
Proof.
  unfold ListBasedDetector_new. destruct (forallb _ allow) eqn:F; [|done]. intros [= <-].
  assert (forall t, t ∈ allow -> t ∉ deny) as Hd.
  { intros t Ht. rewrite forallb_forall in F. specialize (F t). rewrite <-list_elem_of_In in F.
    specialize (F Ht). by apply negb_true_iff, bool_decide_eq_false in F. }
  unfold list_detect. cbn [lb_allow_list lb_deny_list lb_strategy]. repeat split.
  - by apply Hd.
  - by rewrite bool_decide_true.
  - intros Hin. rewrite bool_decide_false by (intros Ha; by apply (Hd token)). by rewrite bool_decide_true.
  - intros Ha Hn. by rewrite !bool_decide_false.
Qed.

(** ** Examples *)
Definition sample_ledger : gmap address Z := {[ 5 := 300000; 8 := 1000 ]}.
Definition sample_fee (payer : address) : Token (gmap address Z) := ledger_token (fun a => if a =? payer then 500 else 0).
Definition sample_detect (tk : Token (gmap address Z)) : comp (result DetectError TokenQuality) :=
  trace_detect 8 7 (find_owner (fun _ => 0) [TokenOwnerList {[ 1 := [8; 4; 5] ]}] id (fun o => Ok (ledger_balance sample_ledger o)) 8)
    (honest_node tk 1 sample_ledger []) 1.

(** A fee of the one who pays into the settlement contract is found; a fee of the settlement
    contract, so that the recipient receives less, is not. *)
Example sample_fee_verdicts :
  sample_detect (sample_fee 5) = Ret (Ok (Bad (FeeOnTransferIn 151000 150500))) /\
  sample_detect (sample_fee 8) = Ret (Ok Good).
Proof. by vm_compute. Qed.

(** A token whose balances stay in range: a transfer that would leave it fails. *)
Definition bounded_move (m : gmap address Z) (from to amount : Z) : result string (gmap address Z) :=
  if U256_MAX <? ledger_balance m to mod 2 ^ 256 + amount then Err "overflow"%string
  else if amount <=? ledger_balance m from mod 2 ^ 256 then
    Ok (<[to := ledger_balance m to mod 2 ^ 256 + amount]> (<[from := ledger_balance m from mod 2 ^ 256 - amount]> m))
  else Err "balance too low"%string.
Definition sample_token : Token (gmap address Z) :=
  mkToken (fun m a => ledger_balance m a mod 2 ^ 256) bounded_move (fun m _ _ _ => Ok m).

Lemma sample_token_standard : standard sample_token.
Proof.
  split; [|by eexists]. intros m from to amount Hne. cbn [tk_balance tk_transfer sample_token]. intros Ha Ho.
  pose proof (Z.mod_pos_bound (ledger_balance m from) (2 ^ 256) ltac:(lia)).
  pose proof (Z.mod_pos_bound (ledger_balance m to) (2 ^ 256) ltac:(lia)).
  unfold bounded_move. destruct (Z.ltb_spec U256_MAX (ledger_balance m to mod 2 ^ 256 + amount)); [lia|].
  destruct (Z.leb_spec amount (ledger_balance m from mod 2 ^ 256)); [|lia]. eexists. split; [done|].
  unfold ledger_balance in *. unfold U256_MAX in *. rewrite lookup_insert_ne, !lookup_insert_eq by done. cbn [default].
  split_and!; [apply Z.mod_small; lia|apply Z.mod_small; lia|].
  intros a Hna Hnb. by rewrite !lookup_insert_ne by done.
Qed.

Lemma token_detection_witness :
  trace_detect 8 7 (find_owner (fun _ => 0) [TokenOwnerList {[ 1 := [8; 4; 5] ]}] id
                      (fun o => Ok (tk_balance sample_token sample_ledger o)) 8)
    (honest_node sample_token 1 sample_ledger []) 1 = Ret (Ok Good) /\
  transfers_through sample_token 8 7 sample_ledger 5 150000.
Proof.
  assert (Ho : first_owner (tk_balance sample_token sample_ledger) 8 MIN_AMOUNT
            (concat (id (candidate_owners (fun _ => 0) [TokenOwnerList {[ 1 := [8; 4; 5] ]}] 1))) = Some 5) by (by vm_compute).
  destruct (token_detection sample_token 1 8 7 sample_ledger (fun _ => 0) [TokenOwnerList {[ 1 := [8; 4; 5] ]}] id 1)
    as (quality & E & Hgood & Hstd).
  - done.
  - done.
  - intros t a. apply Z.mod_pos_bound. done.
  - assert (Hq : is_good quality = true).
    { apply (Hstd 5 Ho sample_token_standard); [done|vm_compute; discriminate..]. }
    destruct quality as [|reason]; [|discriminate Hq]. split; [exact E|].
    destruct (Hgood eq_refl) as (o & Ho' & H). rewrite Ho in Ho'. injection Ho' as <-. exact H.
Defined.
