(* ===== verification/RiskDetector.v ===== *)
(** * RiskDetector: orders a solver should not be given

    [driver/src/domain/competition/risk_detector/]: what a solver's driver leaves out of an
    auction, because of a token ([bad_tokens/cache.rs], [bad_tokens/simulation.rs]) or of
    how often settlements with the order failed ([bad_orders/metrics.rs]).

    Instants are integers.  The quality checks of an auction run concurrently with each
    other and with those of other solvers, which share the cache: [run_checks] takes the
    steps they make in the order in which they happen.  What a simulated transfer shows is
    [TokenDetection.test_transfer]. *)

From stdpp Require Import base gmap sets list strings.
From Stdlib Require Import ZArith Lia SpecFloat.
From S2P Require Import Prelude Collections F64 Eth Solution Score DriverOrder TokenDetection.

Open Scope Z_scope.
Open Scope rust_scope.

Inductive Quality := Supported | Unsupported | Unknown.

#[export] Instance Quality_eq_dec : EqDecision Quality.
Proof. solve_decision. Defined.

(** [Instant::duration_since], which saturates. *)
Definition duration_since (now earlier : Z) : Z := Z.max 0 (now - earlier).

(** ** The cache of tokens *)
Record CacheEntry := mkCacheEntry { ce_last_updated : Z; ce_is_supported : bool }.

Abbreviation TokenCache := (gmap address CacheEntry).

Definition update_quality (max_age token : Z) (is_supported : bool) (now : Z) (cache : TokenCache) : TokenCache :=
  <[token := match cache !! token with
             | Some entry =>
                 mkCacheEntry now
                   (if negb is_supported || (max_age <? duration_since now (ce_last_updated entry))
                    then is_supported else ce_is_supported entry)
             | None => mkCacheEntry now is_supported
             end]> cache.

Definition evict_outdated_entries (max_age now : Z) (cache : TokenCache) : TokenCache :=
  filter (fun e => duration_since now (ce_last_updated e.2) < max_age) cache.

(** The comparison is the one of the source: the flag says that the entry is too old. *)
Definition get_quality (max_age token now : Z) (cache : TokenCache) : Quality :=
  match cache !! token with
  | None => Unknown
  | Some entry =>
      let still_valid := max_age <? duration_since now (ce_last_updated entry) in
      match still_valid, ce_is_supported entry with
      | false, _ => Unknown
      | true, true => Supported
      | true, false => Unsupported
      end
  end.

(** ** The simulation of an order's sell token *)

(** The amount of the simulated transfer. *)
Definition tested_sell_amount (o : Order) : Z :=
  match order_partial o with
  | PartialYes available => available
  | PartialNo => asset_amount (order_sell o)
  end.

Definition simulate_order (settlement recipient : address) (trace_many : list TraceRequest -> TraceAnswer) (o : Order)
  : comp (result DetectError TokenQuality) :=
  test_transfer settlement recipient trace_many (trader o) (asset_token (order_sell o)) (tested_sell_amount o)
    (order_pre_interactions o).

(** What the answer of a simulation means, and does to the cache. *)
Definition simulated_quality (r : result DetectError TokenQuality) : Quality :=
  match r with Err _ => Unknown | Ok Good => Supported | Ok (Bad _) => Unsupported end.

Definition cache_simulated (max_age now token : Z) (r : result DetectError TokenQuality) (cache : TokenCache) : TokenCache :=
  match r with
  | Err _ => cache
  | Ok q => update_quality max_age token (is_good q) now cache
  end.

(** ** Statistics of orders *)
Record OrderStatistics := mkOrderStatistics {
  os_attempts : Z;
  os_fails : Z;
  os_flagged_unsupported_at : option Z;
  os_last_seen_at : Z;
}.

Record MetricsDetector := mkMetricsDetector {
  md_failure_ratio : f64;
  md_required_measurements : Z;
  md_log_only : bool;
  md_order_freeze_time : Z;
}.

Abbreviation Counter := (gmap Z OrderStatistics).

Section metrics.
Context (self : MetricsDetector).

Definition quality_based_on_stats (stats : OrderStatistics) : Quality :=
  if os_attempts stats <? md_required_measurements self then Unknown
  else
    let token_failure_ratio := f64_div (f64_lit (os_fails stats)) (f64_lit (os_attempts stats)) in
    if SFleb (md_failure_ratio self) token_failure_ratio then Unsupported else Supported.

Definition metrics_get_quality (uid now : Z) (counter : Counter) : Quality :=
  match counter !! uid with
  | None => Unknown
  | Some stats =>
      let unfrozen := match os_flagged_unsupported_at stats with
                      | Some t => md_order_freeze_time self <? duration_since now t
                      | None => false
                      end in
      if unfrozen then Unknown
      else if md_log_only self then Supported else quality_based_on_stats stats
  end.

Definition count_attempt (failure : bool) (now : Z) (stats : option OrderStatistics) : OrderStatistics :=
  match stats with
  | Some s => mkOrderStatistics ((os_attempts s + 1) mod 2 ^ 32) ((os_fails s + Z.b2z failure) mod 2 ^ 32)
                (os_flagged_unsupported_at s) now
  | None => mkOrderStatistics 1 (Z.b2z failure) None now
  end.

(** Freezes the order when it is unsupported and not frozen already. *)
Definition freeze (now : Z) (s : OrderStatistics) : OrderStatistics :=
  let not_frozen := match os_flagged_unsupported_at s with
                    | None => true
                    | Some t => md_order_freeze_time self <? duration_since now t
                    end in
  if bool_decide (quality_based_on_stats s = Unsupported) && not_frozen
  then mkOrderStatistics (os_attempts s) (os_fails s) (Some now) (os_last_seen_at s) else s.

Definition update_order (failure : bool) (now : Z) (counter : Counter) (uid : Z) : Counter :=
  <[uid := freeze now (count_attempt failure now (counter !! uid))]> counter.

Definition update_orders (orders : list Z) (failure : bool) (now : Z) (counter : Counter) : Counter :=
  foldl (update_order failure now) counter orders.

(** One run of the task that evicts statistics. *)
Definition gc (max_age now now_as_unix : Z) (counter : Counter) : Counter :=
  filter (fun e => now_as_unix < Uid_valid_to e.1 /\ duration_since now (os_last_seen_at e.2) < max_age) counter.
End metrics.

(** ** The detector of a solver

    [simulation] is the longest age of cached qualities, when the simulating detector is
    enabled. *)
Record Detector := mkDetector {
  de_hardcoded : gmap address Quality;
  de_simulation_detector : option Z;
  de_metrics : option MetricsDetector;
}.

Definition Detector_new (config : gmap address Quality) : Detector := mkDetector config None None.
Definition with_simulation_detector (max_age : Z) (self : Detector) : Detector :=
  mkDetector (de_hardcoded self) (Some max_age) (de_metrics self).
Definition with_metrics_detector (detector : MetricsDetector) (self : Detector) : Detector :=
  mkDetector (de_hardcoded self) (de_simulation_detector self) (Some detector).

Definition encoding_succeeded (self : Detector) (orders : list Z) (now : Z) (counter : Counter) : Counter :=
  match de_metrics self with Some m => update_orders m orders false now counter | None => counter end.
Definition encoding_failed (self : Detector) (orders : list Z) (now : Z) (counter : Counter) : Counter :=
  match de_metrics self with Some m => update_orders m orders true now counter | None => counter end.

Definition get_token_quality (self : Detector) (token now : Z) (cache : TokenCache) : Quality :=
  match de_hardcoded self !! token with
  | None | Some Unknown =>
      match de_simulation_detector self with
      | Some max_age => get_quality max_age token now cache
      | None => Unknown
      end
  | Some quality => quality
  end.

(** What the pass over the orders does with one. *)
Inductive Verdict := Keep | Remove | CheckSellToken.

#[export] Instance Verdict_eq_dec : EqDecision Verdict.
Proof. solve_decision. Defined.

Definition verdict (self : Detector) (now : Z) (cache : TokenCache) (o : Order) : Verdict :=
  match get_token_quality self (asset_token (order_sell o)) now cache,
        get_token_quality self (asset_token (order_buy o)) now cache with
  | Supported, Supported => Keep
  | Unsupported, _ | _, Unsupported => Remove
  | Unknown, _ => match de_simulation_detector self with None => Keep | Some _ => CheckSellToken end
  | _, Unknown => Keep
  end.

Definition passes_metrics (self : Detector) (now : Z) (counter : Counter) (o : Order) : bool :=
  match de_metrics self with
  | Some m => bool_decide (metrics_get_quality m (order_uid o) now counter <> Unsupported)
  | None => true
  end.

(** The checks in flight, the orders kept and those removed. *)
Record Checks := mkChecks {
  ck_cache : TokenCache;
  ck_pending : list Order;
  ck_supported : list Order;
  ck_removed : list Order;
}.

(** What happens to the check of an order: it is polled and looks into the cache, its own
    simulation ends, or one that it shares with another solver does; [ByOthers] is an
    update of the cache by another solver. *)
Inductive CheckEvent :=
| Polled (uid : Z)
| Simulated (uid : Z) (answer : result DetectError TokenQuality)
| Shared (uid : Z) (quality : Quality)
| ByOthers (token now : Z) (answer : result DetectError TokenQuality).

Definition finish (i : nat) (o : Order) (quality : Quality) (s : Checks) : Checks :=
  let pending := take i (ck_pending s) ++ drop (S i) (ck_pending s) in
  if bool_decide (quality = Supported)
  then mkChecks (ck_cache s) pending (ck_supported s ++ [o]) (ck_removed s)
  else mkChecks (ck_cache s) pending (ck_supported s) (ck_removed s ++ [o]).

Definition with_cache (cache : TokenCache) (s : Checks) : Checks :=
  mkChecks cache (ck_pending s) (ck_supported s) (ck_removed s).

Definition pending_check (uid : Z) (s : Checks) : option (nat * Order) :=
  list_find (fun o => order_uid o = uid) (ck_pending s).

(** The steps of [determine_sell_token_quality]. *)
Definition run_check (max_age now : Z) (s : Checks) (e : CheckEvent) : Checks :=
  match e with
  | Polled uid =>
      match pending_check uid s with
      | Some (i, o) =>
          match get_quality max_age (asset_token (order_sell o)) now (ck_cache s) with
          | Unknown => s
          | quality => finish i o quality s
          end
      | None => s
      end
  | Simulated uid answer =>
      match pending_check uid s with
      | Some (i, o) =>
          finish i o (simulated_quality answer)
            (with_cache (cache_simulated max_age now (asset_token (order_sell o)) answer (ck_cache s)) s)
      | None => s
      end
  | Shared uid quality =>
      match pending_check uid s with Some (i, o) => finish i o quality s | None => s end
  | ByOthers token now answer => with_cache (cache_simulated max_age now token answer (ck_cache s)) s
  end.

Definition start_checks (self : Detector) (now : Z) (counter : Counter) (cache : TokenCache) (orders : list Order) : Checks :=
  let orders := filter (fun o => passes_metrics self now counter o = true) orders in
  mkChecks cache (filter (fun o => verdict self now cache o = CheckSellToken) orders)
    (filter (fun o => verdict self now cache o = Keep) orders)
    (filter (fun o => verdict self now cache o = Remove) orders).

Definition run_checks (self : Detector) (now : Z) (events : list CheckEvent) (s : Checks) : Checks :=
  match de_simulation_detector self with
  | Some max_age => foldl (run_check max_age now) s events
  | None => s
  end.

(** [filter_unsupported_orders_in_auction]: the orders that are left, and the cache. *)
Definition filter_unsupported_orders (self : Detector) (now : Z) (events : list CheckEvent) (end_ : Z)
  (counter : Counter) (cache : TokenCache) (orders : list Order) : list Order * TokenCache :=
  let s := run_checks self now events (start_checks self now counter cache orders) in
  (ck_supported s,
   match de_simulation_detector self with
   | Some max_age => evict_outdated_entries max_age end_ (ck_cache s)
   | None => ck_cache s
   end).

(** The checks have come to an end. *)
Definition complete (self : Detector) (now : Z) (events : list CheckEvent) (counter : Counter) (cache : TokenCache)
  (orders : list Order) : Prop :=
  ck_pending (run_checks self now events (start_checks self now counter cache orders)) = [].

(** ** What is left out of an auction *)

Definition vouched (events : list CheckEvent) (o : Order) : Prop :=
  Simulated (order_uid o) (Ok Good) ∈ events \/ Shared (order_uid o) Supported ∈ events \/
  Polled (order_uid o) ∈ events.

Definition rejected (events : list CheckEvent) (o : Order) : Prop :=
  (exists answer, Simulated (order_uid o) answer ∈ events /\ answer <> Ok Good) \/
  (exists quality, Shared (order_uid o) quality ∈ events /\ quality <> Supported) \/
  Polled (order_uid o) ∈ events.

Lemma pending_check_Some uid s i o : pending_check uid s = Some (i, o) ->
  ck_pending s !! i = Some o /\ order_uid o = uid.
Proof. unfold pending_check. intros (H1 & H2 & _)%list_find_Some. done. Qed.

Lemma finish_orders i o q s : ck_pending s !! i = Some o ->
  ck_supported (finish i o q s) ++ ck_removed (finish i o q s) ++ ck_pending (finish i o q s) ≡ₚ
  ck_supported s ++ ck_removed s ++ ck_pending s.
Proof.
  intros Hi. pose proof (take_drop_middle (ck_pending s) i o Hi) as E. unfold finish.
  destruct (bool_decide _); cbn [ck_supported ck_removed ck_pending]; rewrite <-E at 3; solve_Permutation.
Qed.

Section checks.
Context (max_age now : Z) (s0 : Checks).

(** After some events: no order is lost, and those that a check decided on are where its
    answer says. *)
Record checks_ok (events : list CheckEvent) (s : Checks) : Prop := {
  co_orders : ck_supported s ++ ck_removed s ++ ck_pending s ≡ₚ ck_supported s0 ++ ck_removed s0 ++ ck_pending s0;
  co_pending : forall o, o ∈ ck_pending s -> o ∈ ck_pending s0;
  co_supported : forall o, o ∈ ck_supported s -> o ∈ ck_supported s0 \/ o ∈ ck_pending s0 /\ vouched events o;
  co_removed : forall o, o ∈ ck_removed s -> o ∈ ck_removed s0 \/ o ∈ ck_pending s0 /\ rejected events o;
}.

Lemma vouched_app events e o : vouched events o -> vouched (events ++ [e]) o.
Proof. unfold vouched. set_solver. Qed.
Lemma rejected_app events e o : rejected events o -> rejected (events ++ [e]) o.
Proof. unfold rejected. intros [(a & H & ?)|[(q & H & ?)|H]]; [left; exists a|right; left; exists q|right; right]; set_solver. Qed.

Lemma checks_ok_app events e s : checks_ok events s -> checks_ok (events ++ [e]) s.
Proof.
  intros [H1 H2 H3 H4]. split; [done..| |].
  - intros o [|[? ?]]%H3; auto using vouched_app.
  - intros o [|[? ?]]%H4; auto using rejected_app.
Qed.

Lemma checks_ok_with_cache events s cache : checks_ok events s -> checks_ok events (with_cache cache s).
Proof. by intros [H1 H2 H3 H4]. Qed.

Lemma checks_ok_finish events s i o q : checks_ok events s -> ck_pending s !! i = Some o ->
  (q = Supported -> vouched events o) -> (q <> Supported -> rejected events o) ->
  checks_ok events (finish i o q s).
Proof.
  intros [H1 H2 H3 H4] Hi Hv Hr. assert (o ∈ ck_pending s0) as Ho by (by eapply H2, list_elem_of_lookup_2).
  pose proof (finish_orders i o q s Hi) as Hp. split.
  - by rewrite Hp.
  - intros o'. assert (ck_pending (finish i o q s) = take i (ck_pending s) ++ drop (S i) (ck_pending s)) as ->.
    { unfold finish. by destruct (bool_decide _). }
    rewrite elem_of_app. intros [Hin|Hin]; apply H2; [by eapply (subseteq_take i)|by eapply (subseteq_drop (S i))].
  - unfold finish. case_bool_decide; cbn [ck_supported]; intros o'; [|apply H3].
    rewrite elem_of_app, list_elem_of_singleton. intros [| ->]; auto.
  - unfold finish. case_bool_decide; cbn [ck_removed]; intros o'; [apply H4|].
    rewrite elem_of_app, list_elem_of_singleton. intros [| ->]; auto.
Qed.

Lemma run_check_ok events s e : checks_ok events s -> checks_ok (events ++ [e]) (run_check max_age now s e).
Proof.
  intros H. apply (checks_ok_app events e) in H.
  assert (e ∈ events ++ [e]) as He by set_solver.
  destruct e as [uid|uid answer|uid quality|token now' answer]; cbn [run_check].
  - destruct (pending_check uid s) as [[i o]|] eqn:E; [|done]. apply pending_check_Some in E as [Hi <-].
    destruct (get_quality _ _ _ _); [| |done]; (apply checks_ok_finish; [done..| |]); unfold vouched, rejected; auto.
  - destruct (pending_check uid s) as [[i o]|] eqn:E; [|done]. apply pending_check_Some in E as [Hi <-].
    apply checks_ok_finish; [by apply checks_ok_with_cache|done|..]; unfold vouched, rejected, simulated_quality.
    + destruct answer as [[]|]; [auto|done..].
    + intros Hne. left. exists answer. split; [done|]. by intros ->.
  - destruct (pending_check uid s) as [[i o]|] eqn:E; [|done]. apply pending_check_Some in E as [Hi <-].
    apply checks_ok_finish; [done..| |]; unfold vouched, rejected; [intros ->; auto|eauto].
  - by apply checks_ok_with_cache.
Qed.

Lemma run_all_ok events : checks_ok events (foldl (run_check max_age now) s0 events).
Proof.
  induction events as [|e events IH] using rev_ind; [by split; auto|].
  rewrite foldl_app. by apply run_check_ok.
Qed.
End checks.

Lemma start_checks_orders self now counter cache orders :
  let s := start_checks self now counter cache orders in
  ck_supported s ++ ck_removed s ++ ck_pending s ≡ₚ filter (fun o => passes_metrics self now counter o = true) orders.
Proof.
  cbv zeta. unfold start_checks. cbn [ck_supported ck_removed ck_pending].
  induction (filter _ orders) as [|o l IH]; [done|]. rewrite !filter_cons.
  etransitivity; [|by apply Permutation_cons]. repeat case_decide; try congruence; [solve_Permutation..|].
  by destruct (verdict self now cache o).
Qed.

Lemma run_checks_ok self now events s : checks_ok s events (run_checks self now events s).
Proof.
  unfold run_checks. destruct (de_simulation_detector self) as [max_age|]; [apply run_all_ok|by split; auto].
Qed.

(** What is left of an auction, for any number of checks, answers and
    updates of the shared cache in between: the orders that the metrics do not speak
    against are either kept or removed, none twice and none lost.  An order is kept if both
    of its tokens are supported, or unknown where nothing can find out, or if the check of
    its sell token, which is unknown while its buy token is not unsupported, vouched for
    it; it is removed if one of its tokens is unsupported or if the check did not. *)
Theorem filter_leaves_out self now events end_ counter cache orders
  (Hdone : complete self now events counter cache orders) :
  exists removed,
    (filter_unsupported_orders self now events end_ counter cache orders).1 ++ removed ≡ₚ
      filter (fun o => passes_metrics self now counter o = true) orders /\
    (forall o, o ∈ (filter_unsupported_orders self now events end_ counter cache orders).1 ->
       verdict self now cache o = Keep \/ verdict self now cache o = CheckSellToken /\ vouched events o) /\
    (forall o, o ∈ removed ->
       verdict self now cache o = Remove \/ verdict self now cache o = CheckSellToken /\ rejected events o).
Proof.
  set (s0 := start_checks self now counter cache orders).
  destruct (run_checks_ok self now events s0) as [Horders _ Hs Hr].
  exists (ck_removed (run_checks self now events s0)). unfold filter_unsupported_orders. fold s0. cbn [fst].
  assert (forall o, o ∈ ck_pending s0 -> verdict self now cache o = CheckSellToken) as Hp.
  { unfold s0, start_checks. cbn [ck_pending]. intros o [? _]%list_elem_of_filter. done. }
  unfold complete in Hdone. fold s0 in Hdone. rewrite Hdone, app_nil_r in Horders. split; [|split].
  - rewrite Horders. apply start_checks_orders.
  - intros o [H|[H ?]]%Hs; [left|right; auto]. unfold s0, start_checks in H. cbn [ck_supported] in H.
    by apply list_elem_of_filter in H as [? _].
  - intros o [H|[H ?]]%Hr; [left|right; auto]. unfold s0, start_checks in H. cbn [ck_removed] in H.
    by apply list_elem_of_filter in H as [? _].
Qed.

(** Tokens listed by hand come before anything that was detected. *)
Lemma hardcoded_quality_wins self token now cache q :
  de_hardcoded self !! token = Some q -> q <> Unknown -> get_token_quality self token now cache = q.
Proof. unfold get_token_quality. intros ->. by destruct q. Qed.

(** Without a detector and without a list nothing is left out. *)
Lemma default_detector_keeps_all now events end_ counter cache orders :
  filter_unsupported_orders (Detector_new ∅) now events end_ counter cache orders = (orders, cache).
Proof.
  unfold filter_unsupported_orders, run_checks, start_checks. cbn [de_simulation_detector Detector_new ck_supported ck_cache].
  f_equal. rewrite !list_filter_filter. induction orders as [|o orders IH]; [done|].
  rewrite filter_cons, decide_True, IH; [done|]. split; [|done].
  unfold verdict, get_token_quality. cbn [de_hardcoded Detector_new de_simulation_detector]. by rewrite !lookup_empty.
Qed.

(** ** The cache of tokens

    An entry answers only once it is older than the longest age, and the eviction that
    follows every auction removes exactly those entries (and those of that age): what was
    just found out about a token is never used again within the longest age. *)
Lemma fresh_quality_unused max_age token now later is_supported cache :
  later <= now + max_age -> 0 <= max_age ->
  get_quality max_age token later (update_quality max_age token is_supported now cache) = Unknown.
Proof.
  intros Hl Hm. unfold get_quality, update_quality. rewrite lookup_insert_eq.
  destruct (cache !! token) as [e|]; cbn [ce_last_updated]; unfold duration_since;
    destruct (Z.ltb_spec max_age (Z.max 0 (later - now))); lia || done.
Qed.

Lemma evicted_quality_unknown max_age token now cache :
  get_quality max_age token now (evict_outdated_entries max_age now cache) = Unknown.
Proof.
  unfold get_quality, evict_outdated_entries.
  destruct (filter _ cache !! token) as [e|] eqn:E; [|done].
  apply map_lookup_filter_Some in E as [_ H]. cbn [snd] in H.
  destruct (Z.ltb_spec max_age (duration_since now (ce_last_updated e))); [lia|done].
Qed.

(** While a token is found unsupported at least once in a while, it stays so. *)
Lemma unsupported_stays max_age token now is_supported cache e :
  cache !! token = Some e -> ce_is_supported e = false -> duration_since now (ce_last_updated e) <= max_age ->
  update_quality max_age token is_supported now cache !! token = Some (mkCacheEntry now false).
Proof.
  intros He Hf Hage. unfold update_quality. rewrite He, lookup_insert_eq, Hf.
  destruct (Z.ltb_spec max_age (duration_since now (ce_last_updated e))); [lia|]. by destruct is_supported.
Qed.

(** The simulated amount of a sell order is what is available of it. *)
Lemma tested_amount_of_sell_orders o :
  order_side o = Score.Sell -> 0 < asset_amount (order_sell o) <= U256_MAX ->
  match order_partial o with PartialYes a => 0 <= a <= U256_MAX | PartialNo => True end ->
  tested_sell_amount o = asset_amount (av_sell (available o)).
Proof.
  intros Hs Hp. unfold tested_sell_amount, available, target. rewrite Hs.
  destruct (order_partial o) as [a|]; [|done]. intros Ha. cbn [av_sell asset_amount].
  assert (mul_ratio (asset_amount (order_sell o)) a (asset_amount (order_sell o)) = Some a) as ->; [|done].
  apply mul_ratio_Some; [lia..|]. split; [lia|]. rewrite Z.mul_comm, Z.div_mul by lia. lia.
Qed.

(** ** Statistics count what happened

    [attempt_log] are the attempts in the order in which they were counted. *)
Inductive MetricsEvent :=
| UpdateOrders (orders : list Z) (failure : bool) (now : Z)
| Collect (max_age now now_as_unix : Z).

Definition event_attempts (e : MetricsEvent) : list (Z * bool * Z) :=
  match e with UpdateOrders orders failure now => (fun uid => (uid, failure, now)) <$> orders | Collect _ _ _ => [] end.
Definition attempt_log (events : list MetricsEvent) : list (Z * bool * Z) := mbind event_attempts events.

Definition metrics_event (self : MetricsDetector) (counter : Counter) (e : MetricsEvent) : Counter :=
  match e with
  | UpdateOrders orders failure now => update_orders self orders failure now counter
  | Collect max_age now now_as_unix => gc max_age now now_as_unix counter
  end.

Definition attempts_of (uid : Z) (log : list (Z * bool * Z)) : Z :=
  Z.of_nat (length (filter (fun a => a.1.1 = uid) log)).
Definition fails_of (uid : Z) (log : list (Z * bool * Z)) : Z :=
  Z.of_nat (length (filter (fun a => a.1.1 = uid /\ a.1.2 = true) log)).

(** The statistics of an order are those of the attempts since it was last evicted. *)
Record stats_ok (self : MetricsDetector) (log : list (Z * bool * Z)) (uid : Z) (s : OrderStatistics) : Prop := {
  so_counts : exists older recent, log = older ++ recent /\
    os_attempts s = attempts_of uid recent mod 2 ^ 32 /\ os_fails s = fails_of uid recent mod 2 ^ 32;
  so_flag : forall t, os_flagged_unsupported_at s = Some t -> exists failure, (uid, failure, t) ∈ log;
  so_flagged : quality_based_on_stats self s = Unsupported -> os_flagged_unsupported_at s <> None;
}.

Definition counter_ok (self : MetricsDetector) (log : list (Z * bool * Z)) (counter : Counter) : Prop :=
  forall uid s, counter !! uid = Some s -> stats_ok self log uid s.

Section stats.
Context (self : MetricsDetector).

Lemma attempts_of_app uid log a :
  attempts_of uid (log ++ [a]) = attempts_of uid log + (if decide (a.1.1 = uid) then 1 else 0).
Proof.
  unfold attempts_of. rewrite filter_app, length_app, Nat2Z.inj_add, filter_cons, filter_nil.
  by destruct (decide _).
Qed.

Lemma fails_of_app uid log a :
  fails_of uid (log ++ [a]) = fails_of uid log + (if decide (a.1.1 = uid) then Z.b2z a.1.2 else 0).
Proof.
  unfold fails_of. rewrite filter_app, length_app, Nat2Z.inj_add, filter_cons, filter_nil.
  destruct a as [[u []] t]; cbn [fst snd]; destruct (decide (u = uid)) as [->|].
  - by rewrite decide_True.
  - by rewrite decide_False by tauto.
  - by rewrite decide_False by naive_solver.
  - by rewrite decide_False by tauto.
Qed.

(** What [freeze] keeps and what it makes sure of. *)
Lemma freeze_counts now s : os_attempts (freeze self now s) = os_attempts s /\ os_fails (freeze self now s) = os_fails s.
Proof. unfold freeze. by destruct (bool_decide _ && _). Qed.

Lemma freeze_flag now s t : os_flagged_unsupported_at (freeze self now s) = Some t ->
  t = now \/ os_flagged_unsupported_at s = Some t.
Proof. unfold freeze. destruct (bool_decide _ && _); cbn; [intros [= ->]|]; auto. Qed.

Lemma quality_counts s s' : os_attempts s = os_attempts s' -> os_fails s = os_fails s' ->
  quality_based_on_stats self s = quality_based_on_stats self s'.
Proof. unfold quality_based_on_stats. by intros -> ->. Qed.

Lemma freeze_flagged now s : quality_based_on_stats self (freeze self now s) = Unsupported ->
  os_flagged_unsupported_at (freeze self now s) <> None.
Proof.
  destruct (freeze_counts now s) as [E1 E2]. rewrite (quality_counts _ _ E1 E2). intros Hq.
  unfold freeze. rewrite bool_decide_true by done. simpl. by destruct (os_flagged_unsupported_at s) as [t|] eqn:E; [destruct (_ <? _); simpl; rewrite ?E|].
Qed.

Lemma stats_ok_log log log' uid s : stats_ok self log uid s -> filter (fun a => a.1.1 = uid) log' = [] ->
  stats_ok self (log ++ log') uid s.
Proof.
  intros [(older & recent & -> & Ha & Hf) H2 H3] Hlog. split; [|naive_solver set_solver|done].
  exists older, (recent ++ log'). rewrite <-app_assoc. split; [done|]. rewrite Ha, Hf. unfold attempts_of, fails_of.
  rewrite !filter_app, Hlog, app_nil_r. split; [done|]. do 3 f_equal.
  assert (filter (fun a => a.1.1 = uid /\ a.1.2 = true) log' = []) as ->; [|by rewrite app_nil_r].
  apply (f_equal (filter (fun a => a.1.2 = true))) in Hlog. rewrite filter_nil, list_filter_filter in Hlog. 
  rewrite <-Hlog. apply list_filter_iff. intros x. cbn. tauto.
Qed.

Lemma update_order_ok log failure now counter uid : counter_ok self log counter ->
  counter_ok self (log ++ [(uid, failure, now)]) (update_order self failure now counter uid).
Proof.
  intros Hc uid' s. unfold update_order. destruct (decide (uid = uid')) as [<-|Hne].
  - rewrite lookup_insert_eq. intros [= <-]. destruct (freeze_counts now (count_attempt failure now (counter !! uid))) as [Ea Ef].
    split; [| |apply freeze_flagged].
    + rewrite Ea, Ef. destruct (counter !! uid) as [s|] eqn:E; cbn [count_attempt os_attempts os_fails].
      * destruct (Hc uid s E) as [(older & recent & -> & -> & ->) _ _]. exists older, (recent ++ [(uid, failure, now)]).
        rewrite attempts_of_app, fails_of_app, <-app_assoc. cbn [fst snd]. rewrite !decide_True by done.
        by rewrite !Zplus_mod_idemp_l.
      * exists log, [(uid, failure, now)]. split; [done|].
        pose proof (attempts_of_app uid [] (uid, failure, now)) as H1. pose proof (fails_of_app uid [] (uid, failure, now)) as H2.
        cbn [app fst snd] in H1, H2. rewrite decide_True in H1, H2 by done. rewrite H1, H2. by destruct failure.
    + intros t [->|Ht]%freeze_flag; [exists failure; set_solver|]. destruct (counter !! uid) as [s|] eqn:E; [|done].
      destruct (so_flag _ _ _ _ (Hc uid s E) t Ht) as [f Hf]. exists f. set_solver.
  - rewrite lookup_insert_ne by done. intros Hs%Hc. apply stats_ok_log; [done|].
    rewrite filter_cons, decide_False by done. done.
Qed.

Lemma metrics_run_ok events : counter_ok self (attempt_log events) (foldl (metrics_event self) ∅ events).
Proof.
  unfold attempt_log. induction events as [|e events IH] using rev_ind; [intros uid s; cbn [foldl]; by rewrite lookup_empty|].
  rewrite foldl_app, bind_app, bind_cons, app_nil_r. cbn [foldl].
  destruct e as [orders failure now|max_age now unix]; cbn [metrics_event event_attempts].
  - revert IH. generalize (mbind event_attempts events) as log. generalize (foldl (metrics_event self) ∅ events) as counter.
    unfold update_orders. induction orders as [|uid orders IHo]; intros counter log Hc; [by rewrite app_nil_r|].
    rewrite fmap_cons, cons_middle, app_assoc. cbn [foldl]. apply IHo. by apply update_order_ok.
  - rewrite app_nil_r. intros uid s. unfold gc. intros [Hs _]%map_lookup_filter_Some. by apply IH.
Qed.
End stats.

(** C23 (safety): an order that the metrics speak against took part in at least the required
    number of attempts to settle since its statistics were last evicted, of which at least
    the share given by the failure ratio failed, and it took part in one within the freeze
    time: after that time without attempts it always gets another chance.  Nothing of this
    happens when the detector only logs. *)
Theorem frozen_orders_failed self events uid now
  (Hlog : Z.of_nat (length (attempt_log events)) < 2 ^ 32)
  (Hq : metrics_get_quality self uid now (foldl (metrics_event self) ∅ events) = Unsupported) :
  md_log_only self = false /\
  (exists older recent, attempt_log events = older ++ recent /\
     md_required_measurements self <= attempts_of uid recent /\
     SFleb (md_failure_ratio self) (f64_div (f64_lit (fails_of uid recent)) (f64_lit (attempts_of uid recent))) = true) /\
  exists failure t, (uid, failure, t) ∈ attempt_log events /\ now - t <= md_order_freeze_time self.
Proof.
  unfold metrics_get_quality in Hq. destruct (_ !! uid) as [s|] eqn:E; [|done].
  apply (metrics_run_ok self events) in E as [(older & recent & Hrecent & Ha & Hf) Hflag Hflagged].
  destruct (match os_flagged_unsupported_at s with Some t => _ | None => false end) eqn:Hu; [done|].
  destruct (md_log_only self); [done|]. split; [done|]. specialize (Hflagged Hq). split.
  - exists older, recent. split; [done|]. unfold quality_based_on_stats in Hq.
    assert (Hlen : Z.of_nat (length recent) < 2 ^ 32).
    { rewrite Hrecent, length_app in Hlog. lia. }
    assert (forall P `{!forall a : Z * bool * Z, Decision (P a)}, 0 <= Z.of_nat (length (filter P recent)) < 2 ^ 32) as Hb.
    { intros P HP. pose proof (length_filter P recent). lia. }
    rewrite (Z.mod_small (attempts_of uid recent)) in Ha by apply Hb.
    rewrite (Z.mod_small (fails_of uid recent)) in Hf by apply Hb. rewrite <-Ha, <-Hf.
    destruct (Z.ltb_spec (os_attempts s) (md_required_measurements self)); [done|]. split; [done|].
    by destruct (SFleb _ _).
  - destruct (os_flagged_unsupported_at s) as [t|]; [|done]. destruct (Hflag t eq_refl) as [f Hin].
    exists f, t. split; [done|]. unfold duration_since in Hu. lia.
Qed.

(** ** Examples *)
Definition sample_order (uid sell buy : Z) (side : Score.Side) (partial : Partial) : Order :=
  mkOrder uid None 0 100 (mkAsset buy 10000) (mkAsset sell 10) side Limit (AppDataHash 0) partial [] []
    SellErc20 BuyErc20 (mkSignature Eip712 [] 5) [] None.

Definition sample_metrics : MetricsDetector := mkMetricsDetector (f64_div (f64_lit 1) (f64_lit 2)) 2 false 50.

(** An order is frozen after two failures, gets another chance and is frozen again at once
    ([unfreeze_bad_orders] of the tests). *)
Example sample_freeze :
  let first := [UpdateOrders [7] true 0] in
  let frozen := first ++ [UpdateOrders [7] true 10] in
  let quality events now := metrics_get_quality sample_metrics 7 now (foldl (metrics_event sample_metrics) ∅ events) in
  (quality [] 0, quality first 0, quality frozen 20, quality frozen 61, quality (frozen ++ [UpdateOrders [7] true 70]) 71) =
  (Unknown, Unknown, Unsupported, Unknown, Unsupported).
Proof. by vm_compute. Qed.

(** The transfer of a partially fillable buy order is tested with an amount of the buy
    token: here 10000, while the order sells 10. *)
Example sample_buy_amount :
  let o := sample_order 1 1 2 Score.Buy (PartialYes 10000) in
  tested_sell_amount o = 10000 /\ asset_amount (av_sell (available o)) = 10.
Proof. by vm_compute. Qed.

Lemma frozen_orders_failed_witness :
  md_log_only sample_metrics = false /\
  (exists older recent, [(7, true, 0); (7, true, 10)] = older ++ recent /\
     2 <= attempts_of 7 recent /\
     SFleb (md_failure_ratio sample_metrics) (f64_div (f64_lit (fails_of 7 recent)) (f64_lit (attempts_of 7 recent))) = true) /\
  exists failure t, (7, failure, t) ∈ [(7, true, 0); (7, true, 10)] /\ 20 - t <= 50.
Proof.
  apply (frozen_orders_failed sample_metrics [UpdateOrders [7] true 0; UpdateOrders [7] true 10] 7 20); by vm_compute.
Defined.

Definition sample_detector : Detector := mkDetector {[ 3 := Unsupported ]} (Some 100) (Some sample_metrics).
Definition sample_orders : list Order :=
  [sample_order 1 1 2 Score.Sell PartialNo; sample_order 2 3 2 Score.Sell PartialNo; sample_order 4 5 2 Score.Sell PartialNo].
Definition sample_events : list CheckEvent :=
  [Polled 1; Polled 4; Simulated 4 (Ok Good); Simulated 1 (Ok (Bad NoOwner))].

Lemma filter_leaves_out_witness :
  exists removed,
    [sample_order 4 5 2 Score.Sell PartialNo] ++ removed ≡ₚ sample_orders /\
    (forall o, o ∈ [sample_order 4 5 2 Score.Sell PartialNo] ->
       verdict sample_detector 0 ∅ o = Keep \/ verdict sample_detector 0 ∅ o = CheckSellToken /\ vouched sample_events o) /\
    (forall o, o ∈ removed ->
       verdict sample_detector 0 ∅ o = Remove \/ verdict sample_detector 0 ∅ o = CheckSellToken /\ rejected sample_events o).
Proof.
  assert ((filter_unsupported_orders sample_detector 0 sample_events 10 ∅ ∅ sample_orders).1 =
    [sample_order 4 5 2 Score.Sell PartialNo]) as <- by (by vm_compute).
  assert (filter (fun o => passes_metrics sample_detector 0 ∅ o = true) sample_orders = sample_orders) as E by (by vm_compute).
  pose proof (filter_leaves_out sample_detector 0 sample_events 10 ∅ ∅ sample_orders) as H.
  rewrite E in H. apply H. by vm_compute.
Defined.
