(* ===== verification/UniswapV3Pools.v ===== *)
(** * UniswapV3Pools: the state of concentrated liquidity pools, block by block

    [shared/src/sources/uniswap_v3/]: pools are read from a subgraph at a block that is safe
    from reorganizations, the checkpoint, and brought to a later block by the events of
    their contracts ([pool_fetching.rs]); recent events are kept in memory
    ([event_fetching.rs]) by the handler of [EventHandling]; the queries of the subgraph are
    in [graph_api.rs].

    What the subgraph and the node answer are parameters, as is the order that the unstable
    sort gives to pools of the same liquidity.  Block numbers and log indexes are [nat], as
    in [EventHandling]; a log index always fits a [usize].  A log's error handling keeps
    what was inserted before it. *)

From stdpp Require Import base gmap sets list strings relations sorting.
From Stdlib Require Import ZArith Lia Sorted.
From S2P Require Import Prelude Collections Eth EventHandling.

Open Scope Z_scope.
Open Scope rust_scope.

(** ** Pools *)
Record Token := mkToken { token_id : address; token_decimals : Z }.

Record PoolState := mkPoolState {
  ps_sqrt_price : Z;
  ps_liquidity : Z;
  ps_tick : Z;
  ps_liquidity_net : gmap Z Z;
  ps_fee : Z * Z;
}.

Record PoolInfo := mkPoolInfo {
  pi_address : address;
  pi_tokens : list Token;
  pi_state : PoolState;
  pi_mean_gas : Z;
}.

Definition with_state (st : PoolState) (p : PoolInfo) : PoolInfo :=
  mkPoolInfo (pi_address p) (pi_tokens p) st (pi_mean_gas p).

Record TickData := mkTickData { td_tick_idx : Z; td_liquidity_net : Z; td_pool_address : address }.

Record PoolData := mkPoolData {
  pd_id : address;
  pd_token0 : Token;
  pd_token1 : Token;
  pd_fee_tier : Z;
  pd_liquidity : Z;
  pd_sqrt_price : Z;
  pd_tick : Z;
  pd_ticks : option (list TickData);
}.

Inductive PoolError := NoTicks | FeeTooLarge | CantCreatePair | GraphError | EmptyPoolRange | NoEvents | EventsNotUpdated | NoBlock.

(** [Ratio::new]: in lowest terms. *)
Definition Ratio_new (n d : Z) : Z * Z := (n / Z.gcd n d, d / Z.gcd n d).

Definition collect_ticks (ticks : list TickData) : gmap Z Z :=
  foldl (fun net t => if td_liquidity_net t =? 0 then net else <[td_tick_idx t := td_liquidity_net t]> net) ∅ ticks.

(** [PoolInfo::try_from]. *)
Definition PoolInfo_try_from (pool : PoolData) : result PoolError PoolInfo :=
  letr ticks := ok_or (pd_ticks pool) NoTicks in
  letr fee := if fits 32 (pd_fee_tier pool) then Ok (pd_fee_tier pool) else Err FeeTooLarge in
  Ok (mkPoolInfo (pd_id pool) [pd_token0 pool; pd_token1 pool]
        (mkPoolState (pd_sqrt_price pool) (pd_liquidity pool) (pd_tick pool) (collect_ticks ticks) (Ratio_new fee 1000000))
        108163).

(** ** Events *)
Inductive PoolEvent :=
| Burn (tickLower tickUpper amount : Z)
| Mint (tickLower tickUpper amount : Z)
| Swap (sqrtPriceX96 liquidity tick : Z)
| OtherEvent.

(** [WithAddress]: an event and the contract it came from. *)
Abbreviation PoolLog := (PoolEvent * address)%type.

(** [entry(tick).and_modify(..).or_insert_with(..)]. *)
Definition add_to_tick (tick delta : Z) (net : gmap Z Z) : gmap Z Z :=
  <[tick := match net !! tick with Some v => v + delta | None => delta end]> net.

(** Indexing panics on a tick that is not there. *)
Definition remove_zero (tick : Z) (net : gmap Z Z) : comp (gmap Z Z) :=
  let! v := expect (net !! tick) in
  Ret (if v =? 0 then delete tick net else net).

(** A change of a position by [delta]. *)
Definition change_position (tick_lower tick_upper delta : Z) (net : gmap Z Z) : comp (gmap Z Z) :=
  let net := add_to_tick tick_upper (- delta) (add_to_tick tick_lower delta net) in
  let! net := remove_zero tick_lower net in
  remove_zero tick_upper net.

Definition in_range (tick_lower tick_upper tick : Z) : bool := (tick_lower <=? tick) && (tick <? tick_upper).

Definition apply_event (pool : PoolState) (event : PoolEvent) : comp PoolState :=
  match event with
  | Burn lower upper amount =>
      let liquidity := if in_range lower upper (ps_tick pool) then wrapping_sub (ps_liquidity pool) amount
                       else ps_liquidity pool in
      let! net := change_position lower upper (- amount) (ps_liquidity_net pool) in
      Ret (mkPoolState (ps_sqrt_price pool) liquidity (ps_tick pool) net (ps_fee pool))
  | Mint lower upper amount =>
      let liquidity := if in_range lower upper (ps_tick pool) then wrapping_add (ps_liquidity pool) amount
                       else ps_liquidity pool in
      let! net := change_position lower upper amount (ps_liquidity_net pool) in
      Ret (mkPoolState (ps_sqrt_price pool) liquidity (ps_tick pool) net (ps_fee pool))
  | Swap sqrt_price liquidity tick => Ret (mkPoolState sqrt_price liquidity tick (ps_liquidity_net pool) (ps_fee pool))
  | OtherEvent => Ret pool
  end.

Fixpoint append_pool_events (pools : gmap address PoolInfo) (events : list PoolLog) : comp (gmap address PoolInfo) :=
  match events with
  | [] => Ret pools
  | (event, a) :: events =>
      match pools !! a with
      | Some pool =>
          let! st := apply_event (pi_state pool) event in
          append_pool_events (<[a := with_state st pool]> pools) events
      | None => append_pool_events pools events
      end
  end.

(** ** Recent events *)
Abbreviation EventKey := (nat * nat)%type.
Abbreviation RecentEventsCache := (list (EventKey * PoolLog)).

Definition key_compare (a b : EventKey) : comparison := then_with (Nat.compare a.1 b.1) (Nat.compare a.2 b.2).

Fixpoint events_insert (k : EventKey) (v : PoolLog) (l : RecentEventsCache) : RecentEventsCache :=
  match l with
  | [] => [(k, v)]
  | (k', v') :: l =>
      match key_compare k k' with
      | Lt => (k, v) :: (k', v') :: l
      | Eq => (k, v) :: l
      | Gt => (k', v') :: events_insert k v l
      end
  end.

Definition remove_events_older_than_block (n : nat) (l : RecentEventsCache) : RecentEventsCache :=
  filter (fun e => (n <= e.1.1)%nat) l.
Definition remove_events_newer_than_block (n : nat) (l : RecentEventsCache) : RecentEventsCache :=
  filter (fun e => (e.1.1 < n)%nat) l.
Definition get_events (range : nat * nat) (l : RecentEventsCache) : list PoolLog :=
  snd <$> filter (fun e => (range.1 <= e.1.1 <= range.2)%nat) l.

Record Log := mkLog { log_block_number : option nat; log_index : option nat; log_address : address }.

Fixpoint append_logs (events : list (PoolEvent * Log)) (l : RecentEventsCache) : RecentEventsCache * result EventError unit :=
  match events with
  | [] => (l, Ok tt)
  | (event, log) :: events =>
      match log_block_number log, log_index log with
      | Some block_number, Some log_index => append_logs events (events_insert (block_number, log_index) (event, log_address log) l)
      | _, _ => (l, Err StoreError)
      end
  end.

Definition replace_logs (events : list (PoolEvent * Log)) (range : nat * nat) (l : RecentEventsCache)
  : RecentEventsCache * result EventError unit :=
  append_logs events (remove_events_newer_than_block range.1 l).

Definition cache_last_event_block (l : RecentEventsCache) : result EventError nat :=
  match last l with Some e => Ok e.1.1 | None => Err StoreError end.

Definition stored_or_error (r : RecentEventsCache * result EventError unit) : result EventError RecentEventsCache :=
  match r with (l, Ok _) => Ok l | (_, Err e) => Err e end.

#[export] Instance RecentEventsCache_storing : EventStoring RecentEventsCache (PoolEvent * Log) := {|
  replace_events l events range := stored_or_error (replace_logs events range l);
  append_events l events := stored_or_error (append_logs events l);
  last_event_block l := cache_last_event_block l;
  persist_last_indexed_block l _ := Ok l;
|}.

(** ** The subgraph *)

(** [get_pools] and [get_pools_with_ticks_by_ids]: the pools with liquidity and ticks. *)
Definition with_liquidity (pools : list PoolData) : list PoolData := filter (fun p => 0 < pd_liquidity p) pools.

Definition ticks_of (ticks : list TickData) (a : address) : list TickData := filter (fun t => td_pool_address t = a) ticks.

Definition attach_ticks (ticks : list TickData) (p : PoolData) : option PoolData :=
  match ticks_of ticks (pd_id p) with
  | [] => None
  | ts => Some (mkPoolData (pd_id p) (pd_token0 p) (pd_token1 p) (pd_fee_tier p) (pd_liquidity p) (pd_sqrt_price p) (pd_tick p) (Some ts))
  end.

Record SubgraphAnswers := mkSubgraphAnswers {
  sg_meta_block : result PoolError nat;
  sg_all_pools : nat -> result PoolError (list PoolData);
  sg_pools_by_ids : list address -> nat -> result PoolError (list PoolData);
  sg_ticks_by_ids : list address -> nat -> result PoolError (list TickData);
}.

Definition get_safe_block (graph : SubgraphAnswers) : result PoolError nat :=
  letr n := sg_meta_block graph in Ok (n - MAX_REORG_BLOCK_COUNT)%nat.

Definition get_registered_pools (graph : SubgraphAnswers) : result PoolError (nat * list PoolData) :=
  letr block_number := get_safe_block graph in
  letr pools := sg_all_pools graph block_number in
  Ok (block_number, with_liquidity pools).

(** The ticks are asked for in chunks of pools, one after the other. *)
Fixpoint get_ticks_by_chunks (graph : SubgraphAnswers) (id_chunks : list (list address)) (block_number : nat)
  : result PoolError (list TickData) :=
  match id_chunks with
  | [] => Ok []
  | chunk :: id_chunks =>
      letr batch := sg_ticks_by_ids graph chunk block_number in
      letr rest := get_ticks_by_chunks graph id_chunks block_number in
      Ok (batch ++ rest)
  end.

Definition get_pools_with_ticks_by_ids (max_pools_per_tick_query : nat) (graph : SubgraphAnswers) (ids : list address)
  (block_number : nat) : result PoolError (list PoolData) :=
  letr pools := sg_pools_by_ids graph ids block_number in
  letr ticks := get_ticks_by_chunks graph (chunks max_pools_per_tick_query ids) block_number in
  Ok (omap (attach_ticks ticks) (with_liquidity pools)).

(** ** The checkpoint *)
Record PoolsCheckpoint := mkPoolsCheckpoint {
  cp_pools : gmap address PoolInfo;
  cp_block_number : nat;
  cp_missing_pools : gset address;
}.

Abbreviation PoolsByPair := (gmap (Z * Z) (gset address)).

Fixpoint register_pools (pools : list PoolData) (by_pair : PoolsByPair) : result PoolError PoolsByPair :=
  match pools with
  | [] => Ok by_pair
  | p :: pools =>
      letr token_pair := ok_or (TokenPair_new (token_id (pd_token0 p)) (token_id (pd_token1 p))) CantCreatePair in
      register_pools pools (<[token_pair := {[pd_id p]} ∪ default ∅ (by_pair !! token_pair)]> by_pair)
  end.

(** [sort] sorts by liquidity. *)
Definition PoolsCheckpointHandler_new (sort : list PoolData -> list PoolData) (max_pools_to_initialize_cache max_pools_per_tick_query : nat)
  (graph : SubgraphAnswers) : result PoolError (PoolsByPair * PoolsCheckpoint) :=
  letr registered := get_registered_pools graph in
  letr by_pair := register_pools registered.2 ∅ in
  let pool_ids := take max_pools_to_initialize_cache (reverse (pd_id <$> sort registered.2)) in
  letr pools := get_pools_with_ticks_by_ids max_pools_per_tick_query graph pool_ids registered.1 in
  Ok (by_pair,
      mkPoolsCheckpoint
        (foldl (fun m p => match PoolInfo_try_from p with Ok info => <[pd_id p := info]> m | Err _ => m end) ∅ pools)
        registered.1 ∅).

Definition pool_ids (by_pair : PoolsByPair) (token_pairs : gset (Z * Z)) : gset address :=
  ⋃ ((fun token_pair => default ∅ (by_pair !! token_pair)) <$> elements token_pairs).

(** [PoolsCheckpointHandler::get]: the known pools and their block; the others are flagged. *)
Definition checkpoint_get (by_pair : PoolsByPair) (token_pairs : gset (Z * Z)) (c : PoolsCheckpoint)
  : gmap address PoolInfo * nat * PoolsCheckpoint :=
  let ids := pool_ids by_pair token_pairs in
  if decide (ids = ∅) then (∅, O, c)
  else (filter (fun p => p.1 ∈ ids) (cp_pools c), cp_block_number c,
        mkPoolsCheckpoint (cp_pools c) (cp_block_number c) (cp_missing_pools c ∪ (ids ∖ dom (cp_pools c)))).

Fixpoint insert_missing (pools : list PoolData) (c : PoolsCheckpoint) : PoolsCheckpoint * result PoolError unit :=
  match pools with
  | [] => (c, Ok tt)
  | p :: pools =>
      let missing := cp_missing_pools c ∖ {[pd_id p]} in
      match PoolInfo_try_from p with
      | Err e => (mkPoolsCheckpoint (cp_pools c) (cp_block_number c) missing, Err e)
      | Ok info => insert_missing pools (mkPoolsCheckpoint (<[pd_id p := info]> (cp_pools c)) (cp_block_number c) missing)
      end
  end.

(** [c] is the checkpoint when the subgraph was asked, [c'] when it answered. *)
Definition update_missing_pools (fetch : list address -> nat -> result PoolError (list PoolData)) (c c' : PoolsCheckpoint)
  : PoolsCheckpoint * result PoolError unit :=
  if decide (cp_missing_pools c = ∅) then (c', Ok tt)
  else match fetch (elements (cp_missing_pools c)) (cp_block_number c) with
       | Err e => (c', Err e)
       | Ok pools => insert_missing pools c'
       end.

(** ** The fetcher *)
Record UniswapV3PoolFetcher := mkFetcher {
  uf_checkpoint : PoolsCheckpoint;
  uf_events : EventHandler RecentEventsCache;
}.

Definition fetcher_store (f : UniswapV3PoolFetcher) : RecentEventsCache := handler_store (uf_events f).

Definition UniswapV3PoolFetcher_new (checkpoint : PoolsCheckpoint) (block : nat -> result PoolError BlockNumberHash)
  : result PoolError UniswapV3PoolFetcher :=
  letr init_block := block (cp_block_number checkpoint) in
  Ok (mkFetcher checkpoint (EventHandler_new [] (Some init_block))).

(** [move_checkpoint_to_future]: the events that become part of the checkpoint, and then the
    deletion of the older ones. *)
Definition new_checkpoint_block (c : PoolsCheckpoint) (last_event_block : nat) : nat :=
  Nat.max (last_event_block - MAX_REORG_BLOCK_COUNT) (cp_block_number c).

Definition advance_checkpoint (store : RecentEventsCache) (new_block : nat) (c : PoolsCheckpoint)
  : comp (result PoolError PoolsCheckpoint) :=
  match RangeInclusive_try_new (S (cp_block_number c)) new_block with
  | Err _ => Ret (Err EmptyPoolRange)
  | Ok range =>
      let! pools := append_pool_events (cp_pools c) (get_events range store) in
      Ret (Ok (mkPoolsCheckpoint pools new_block (cp_missing_pools c)))
  end.

Definition move_checkpoint_to_future (f : UniswapV3PoolFetcher) : comp (UniswapV3PoolFetcher * result PoolError unit) :=
  match cache_last_event_block (fetcher_store f) with
  | Err _ => Ret (f, Err NoEvents)
  | Ok last_event_block =>
      let new_block := new_checkpoint_block (uf_checkpoint f) last_event_block in
      if (cp_block_number (uf_checkpoint f) <? new_block)%nat then
        let! c := advance_checkpoint (fetcher_store f) new_block (uf_checkpoint f) in
        match c with
        | Err e => Ret (f, Err e)
        | Ok c => Ret (mkFetcher c (with_store (remove_events_older_than_block new_block (fetcher_store f)) (uf_events f)), Ok tt)
        end
      else Ret (f, Ok tt)
  end.

(** [run_maintenance], given what the update of the events and the subgraph answer. *)
Definition fetcher_maintenance (node : Node (PoolEvent * Log)) (fetch : list address -> nat -> result PoolError (list PoolData))
  (f : UniswapV3PoolFetcher) : comp (UniswapV3PoolFetcher * result PoolError unit) :=
  let! updated := update_events node (uf_events f) in
  let f := mkFetcher (update_missing_pools fetch (uf_checkpoint f) (uf_checkpoint f)).1 updated.1 in
  match updated.2 with
  | Err _ => Ret (f, Err EventsNotUpdated)
  | Ok _ => move_checkpoint_to_future f
  end.

Inductive Block := Recent | Finalized | Number (n : nat).

Definition requested_block (at_block : Block) (store : RecentEventsCache) : nat :=
  match at_block with
  | Recent | Finalized => match cache_last_event_block store with Ok n => n | Err _ => O end
  | Number n => n
  end.

Definition last_handled_block (h : EventHandler RecentEventsCache) : nat :=
  match last (last_handled_blocks h) with Some b => b.1 | None => O end.

(** The second half of [fetch]: the events after the checkpoint that was read. *)
Definition fetch_end (store : RecentEventsCache) (block_number : nat) (checkpoint : gmap address PoolInfo) (checkpoint_block : nat)
  : comp (result PoolError (gmap address PoolInfo)) :=
  let! pools :=
    if (checkpoint_block <? block_number)%nat then
      match RangeInclusive_try_new (S checkpoint_block) block_number with
      | Err _ => Ret (Err EmptyPoolRange)
      | Ok range => let! pools := append_pool_events checkpoint (get_events range store) in Ret (Ok pools)
      end
    else Ret (Ok checkpoint) in
  Ret (letr pools := pools in Ok (filter (fun p => 0 < ps_liquidity (pi_state p.2)) pools)).

(** [fetch], when nothing happens in between: the pools by their address. *)
Definition fetch (node : Node (PoolEvent * Log)) (by_pair : PoolsByPair) (token_pairs : gset (Z * Z)) (at_block : Block)
  (f : UniswapV3PoolFetcher) : comp (result PoolError (gmap address PoolInfo) * UniswapV3PoolFetcher) :=
  let block_number := requested_block at_block (fetcher_store f) in
  let! updated := if (last_handled_block (uf_events f) <? block_number)%nat then update_events node (uf_events f)
                  else Ret (uf_events f, Ok tt) in
  match updated.2 with
  | Err _ => Ret (Ok ∅, mkFetcher (uf_checkpoint f) updated.1)
  | Ok _ =>
      let '(checkpoint, checkpoint_block, c) := checkpoint_get by_pair token_pairs (uf_checkpoint f) in
      let f := mkFetcher c updated.1 in
      let! pools := fetch_end (fetcher_store f) block_number checkpoint checkpoint_block in
      Ret (pools, f)
  end.

(** ** Positions

    The liquidity that is active at a tick is what was added at the ticks up to it. *)
Definition active_liquidity (tick : Z) (net : gmap Z Z) : Z :=
  map_fold (fun t v acc => acc + if t <=? tick then v else 0) 0 net.

Definition no_zero_ticks (net : gmap Z Z) : Prop := forall t, net !! t <> Some 0.

Definition set_tick (tick v : Z) (net : gmap Z Z) : gmap Z Z := if v =? 0 then delete tick net else <[tick := v]> net.

Definition net_at (net : gmap Z Z) (tick : Z) : Z := default 0 (net !! tick).

Lemma add_to_tick_insert tick delta net : add_to_tick tick delta net = <[tick := net_at net tick + delta]> net.
Proof. unfold add_to_tick, net_at. by destruct (net !! tick). Qed.

Lemma remove_zero_Ret tick v net : net !! tick = Some v -> remove_zero tick net = Ret (set_tick tick v net).
Proof. intros H. unfold remove_zero, set_tick. rewrite H. cbn [expect comp_bind]. destruct (v =? 0); [done|]. by rewrite insert_id. Qed.

Lemma lookup_set_tick tick v net t :
  set_tick tick v net !! t = if decide (t = tick) then (if v =? 0 then None else Some v) else net !! t.
Proof.
  unfold set_tick. destruct (decide (t = tick)) as [->|]; destruct (v =? 0);
    by rewrite ?lookup_delete_eq, ?lookup_insert_eq, ?lookup_delete_ne, ?lookup_insert_ne by done.
Qed.

Lemma net_at_set_tick tick v net t : net_at (set_tick tick v net) t = if decide (t = tick) then v else net_at net t.
Proof.
  unfold net_at. rewrite lookup_set_tick. destruct (decide (t = tick)); [|done]. by destruct (Z.eqb_spec v 0) as [->|].
Qed.

Lemma nonzero_net_at net t : no_zero_ticks net -> (if net_at net t =? 0 then None else Some (net_at net t)) = net !! t.
Proof.
  intros Hz. unfold net_at. specialize (Hz t). revert Hz; destruct (net !! t) as [v|]; intros Hz; cbn; [|done].
  by destruct (Z.eqb_spec v 0) as [->|].
Qed.

Lemma change_position_Ret lower upper delta net : lower <> upper ->
  change_position lower upper delta net =
  Ret (set_tick upper (net_at net upper - delta) (set_tick lower (net_at net lower + delta) net)).
Proof.
  intros Hne. unfold change_position. rewrite !add_to_tick_insert.
  assert (net_at (<[lower := net_at net lower + delta]> net) upper = net_at net upper) as ->.
  { unfold net_at. by rewrite lookup_insert_ne. }
  rewrite (remove_zero_Ret lower (net_at net lower + delta)) by (by rewrite lookup_insert_ne, lookup_insert_eq).
  cbn [comp_bind]. rewrite (remove_zero_Ret upper (net_at net upper - delta)).
  - f_equal. apply map_eq. intros t. rewrite !lookup_set_tick.
    repeat case_decide; subst; try done; rewrite ?lookup_insert_ne, ?lookup_insert_ne by done; done.
  - rewrite lookup_set_tick, decide_False, lookup_insert_eq by done. done.
Qed.

(** Only a position between equal ticks makes it panic. *)
Lemma apply_event_safe pool event :
  match event with Burn l u _ | Mint l u _ => l <> u | _ => True end -> exists pool', apply_event pool event = Ret pool'.
Proof. destruct event; cbn [apply_event]; intros H; [rewrite change_position_Ret by done| rewrite change_position_Ret by done| |]; eauto. Qed.

Example empty_position_panics :
  apply_event (mkPoolState 0 0 0 ∅ (1, 2)) (Mint 5 5 1) = Panic.
Proof. by vm_compute. Qed.

Lemma active_liquidity_insert tick t v net : net !! t = None ->
  active_liquidity tick (<[t := v]> net) = active_liquidity tick net + if t <=? tick then v else 0.
Proof.
  intros Hn. unfold active_liquidity. rewrite map_fold_insert_L; [done|intros; lia|done].
Qed.

Lemma active_liquidity_delete tick t net :
  active_liquidity tick net = active_liquidity tick (delete t net) + if t <=? tick then net_at net t else 0.
Proof.
  unfold net_at. destruct (net !! t) as [v|] eqn:E; cbn [default].
  - rewrite <-(insert_delete_id net t v E) at 1. rewrite active_liquidity_insert by apply lookup_delete_eq. done.
  - rewrite delete_id by done. destruct (t <=? tick); lia.
Qed.

Lemma active_liquidity_set tick t v net :
  active_liquidity tick (set_tick t v net) = active_liquidity tick net + if t <=? tick then v - net_at net t else 0.
Proof.
  rewrite (active_liquidity_delete tick t net). unfold set_tick. destruct (Z.eqb_spec v 0) as [->|].
  - destruct (t <=? tick); lia.
  - rewrite <-insert_delete_eq, active_liquidity_insert by apply lookup_delete_eq. destruct (t <=? tick); lia.
Qed.

Lemma change_position_active tick lower upper delta net net' : lower < upper ->
  change_position lower upper delta net = Ret net' ->
  active_liquidity tick net' = active_liquidity tick net + if in_range lower upper tick then delta else 0.
Proof.
  intros Hlt. rewrite change_position_Ret by lia. intros [= <-]. rewrite !active_liquidity_set.
  assert (net_at (set_tick lower (net_at net lower + delta) net) upper = net_at net upper) as ->.
  { unfold net_at. rewrite lookup_set_tick, decide_False by lia. done. }
  unfold in_range. destruct (Z.leb_spec upper tick), (Z.leb_spec lower tick), (Z.ltb_spec tick upper); cbn; lia.
Qed.

(** The liquidity of a pool is what is active at its tick. *)
Definition consistent (pool : PoolState) : Prop :=
  ps_liquidity pool = active_liquidity (ps_tick pool) (ps_liquidity_net pool) mod 2 ^ 256 /\
  no_zero_ticks (ps_liquidity_net pool).

Lemma set_tick_no_zero t v net : no_zero_ticks net -> no_zero_ticks (set_tick t v net).
Proof.
  intros H t'. rewrite lookup_set_tick. destruct (decide (t' = t)); [|apply H].
  destruct (Z.eqb_spec v 0); [done|]. congruence.
Qed.

(** Minting and burning keep the liquidity the active one; a swap moves the tick and says
    what is active there. *)
Lemma apply_event_consistent pool event pool' :
  match event with
  | Burn l u _ | Mint l u _ => l < u
  | Swap _ liquidity tick => liquidity = active_liquidity tick (ps_liquidity_net pool) mod 2 ^ 256
  | OtherEvent => True
  end ->
  consistent pool -> apply_event pool event = Ret pool' -> consistent pool'.
Proof.
  intros Hev [Hl Hz]. destruct event as [l u amount|l u amount|s liq t|]; cbn [apply_event].
  3,4: by intros [= <-].
  all: rewrite change_position_Ret by lia; cbn [comp_bind]; intros [= <-]; split; [|by repeat apply set_tick_no_zero].
  all: cbn [ps_liquidity ps_tick ps_liquidity_net].
  all: assert (l <> u) as Hne by lia; rewrite (change_position_active _ l u _ (ps_liquidity_net pool) _ Hev (change_position_Ret l u _ _ Hne)).
  all: destruct (in_range l u (ps_tick pool)); rewrite Hl, ?Z.add_0_r; [|done].
  - unfold wrapping_sub. by rewrite Zminus_mod_idemp_l.
  - unfold wrapping_add. by rewrite Zplus_mod_idemp_l.
Qed.

(** What an event says of its pool, as the contract defines it: opening a position adds its
    liquidity at the lower tick and takes it away at the upper one, closing it does the
    opposite, and the price stays; a swap sets price and tick, and reports what is active
    at the new tick.  In every state the liquidity is what is active at the tick. *)
Definition position_changed (lower upper delta : Z) (pool pool' : PoolState) : Prop :=
  lower < upper /\ ps_sqrt_price pool' = ps_sqrt_price pool /\ ps_tick pool' = ps_tick pool /\ ps_fee pool' = ps_fee pool /\
  forall t, net_at (ps_liquidity_net pool') t =
    net_at (ps_liquidity_net pool) t + (if t =? lower then delta else 0) - (if t =? upper then delta else 0).

Definition contract_event (pool : PoolState) (event : PoolEvent) (pool' : PoolState) : Prop :=
  consistent pool' /\
  match event with
  | Mint lower upper amount => position_changed lower upper amount pool pool'
  | Burn lower upper amount => position_changed lower upper (- amount) pool pool'
  | Swap sqrt_price liquidity tick =>
      ps_sqrt_price pool' = sqrt_price /\ ps_tick pool' = tick /\ ps_liquidity pool' = liquidity /\
      ps_fee pool' = ps_fee pool /\ forall t, net_at (ps_liquidity_net pool') t = net_at (ps_liquidity_net pool) t
  | OtherEvent => pool' = pool
  end.

Inductive contract_run (pool : PoolState) : list PoolEvent -> PoolState -> Prop :=
| run_nil : contract_run pool [] pool
| run_cons event pool' events pool'' :
    contract_event pool event pool' -> contract_run pool' events pool'' -> contract_run pool (event :: events) pool''.

Lemma net_ext net net' : no_zero_ticks net -> no_zero_ticks net' -> (forall t, net_at net t = net_at net' t) -> net = net'.
Proof. intros H H' Hn. apply map_eq. intros t. by rewrite <-(nonzero_net_at net t H), <-(nonzero_net_at net' t H'), Hn. Qed.

(** A state of a pool is its price, tick and positions. *)
Lemma consistent_ext pool pool' :
  consistent pool -> consistent pool' -> ps_sqrt_price pool = ps_sqrt_price pool' -> ps_tick pool = ps_tick pool' ->
  ps_fee pool = ps_fee pool' -> (forall t, net_at (ps_liquidity_net pool) t = net_at (ps_liquidity_net pool') t) -> pool = pool'.
Proof.
  intros [Hl Hz] [Hl' Hz'] Hs Ht Hf Hn. pose proof (net_ext _ _ Hz Hz' Hn) as E.
  destruct pool, pool'. cbn in *. congruence.
Qed.

Lemma position_changed_state lower upper delta pool pool' st :
  consistent pool' -> position_changed lower upper delta pool pool' -> consistent st ->
  ps_sqrt_price st = ps_sqrt_price pool -> ps_tick st = ps_tick pool -> ps_fee st = ps_fee pool ->
  ps_liquidity_net st = set_tick upper (net_at (ps_liquidity_net pool) upper - delta)
    (set_tick lower (net_at (ps_liquidity_net pool) lower + delta) (ps_liquidity_net pool)) -> st = pool'.
Proof.
  intros Hc (Hlt & Hs & Ht & Hf & Hn) Hst Es Et Ef En. apply consistent_ext; [done|done|congruence..|].
  intros t. rewrite En, Hn, !net_at_set_tick. destruct (Z.eqb_spec t lower), (Z.eqb_spec t upper); repeat case_decide; subst; lia.
Qed.

(** The code applies an event as the contract does. *)
Lemma contract_event_applied pool event pool' :
  consistent pool -> contract_event pool event pool' -> apply_event pool event = Ret pool'.
Proof.
  intros Hc [Hc' Hev]. assert (exists st, apply_event pool event = Ret st) as [st Hst].
  { apply apply_event_safe. destruct event; try done; destruct Hev; lia. }
  rewrite Hst. f_equal. destruct event as [l u amount|l u amount|s liq t|].
  1,2: eapply position_changed_state; [done|exact Hev|eapply apply_event_consistent; [|exact Hc|exact Hst]; apply Hev|..];
    cbn [apply_event] in Hst; rewrite change_position_Ret in Hst by (destruct Hev; lia); by injection Hst as <-.
  - injection Hst as <-. destruct Hev as (<- & <- & <- & Hf & Hn). destruct pool' as [sp lq tk net fee]. cbn in *.
    f_equal; [|done]. symmetry. apply net_ext; [apply Hc'|apply Hc|done].
  - injection Hst as <-. by rewrite Hev.
Qed.

Lemma contract_event_consistent pool event pool' : contract_event pool event pool' -> consistent pool'.
Proof. by intros [? _]. Qed.

(** Burning a position takes back its minting. *)
Lemma burn_undoes_mint pool l u amount pool' : l <> u -> 0 <= ps_liquidity pool < 2 ^ 256 -> no_zero_ticks (ps_liquidity_net pool) ->
  apply_event pool (Mint l u amount) = Ret pool' -> apply_event pool' (Burn l u amount) = Ret pool.
Proof.
  intros Hne Hliq Hz. cbn [apply_event]. rewrite change_position_Ret by done. cbn [comp_bind]. intros [= <-].
  cbn [ps_liquidity ps_tick ps_liquidity_net ps_sqrt_price ps_fee]. rewrite change_position_Ret by done. cbn [comp_bind].
  destruct pool as [sp liq tick net fee]. cbn [ps_liquidity ps_tick ps_liquidity_net ps_sqrt_price ps_fee] in *. do 2 f_equal.
  - destruct (in_range l u tick); [|done]. unfold wrapping_add, wrapping_sub.
    rewrite Zminus_mod_idemp_l, Z.add_simpl_r. by apply Z.mod_small.
  - apply map_eq. intros t. rewrite !net_at_set_tick, !lookup_set_tick.
    repeat (case_decide; try congruence); subst; rewrite <-(nonzero_net_at net _ Hz).
    + by replace (net_at net u - amount - - amount) with (net_at net u) by lia.
    + by replace (net_at net l + amount + - amount) with (net_at net l) by lia.
Qed.

(** ** Replaying events *)
Fixpoint replay (pool : PoolState) (events : list PoolEvent) : comp PoolState :=
  match events with
  | [] => Ret pool
  | e :: events => let! pool := apply_event pool e in replay pool events
  end.

(** The events of one contract. *)
Definition events_of (a : address) (events : list PoolLog) : list PoolEvent := (filter (fun e => e.2 = a) events).*1.

Lemma replay_app pool l k : replay pool (l ++ k) = let! pool := replay pool l in replay pool k.
Proof. revert pool; induction l as [|e l IH]; intros pool; [done|]. cbn. by destruct (apply_event pool e); cbn. Qed.

Lemma events_of_app a l k : events_of a (l ++ k) = events_of a l ++ events_of a k.
Proof. unfold events_of. by rewrite filter_app, fmap_app. Qed.

Lemma events_of_cons a e b l : events_of a ((e, b) :: l) = if decide (b = a) then e :: events_of a l else events_of a l.
Proof. unfold events_of. rewrite filter_cons. cbn [snd]. by destruct (decide (b = a)). Qed.

(** The pools do not interfere: each replays its own events. *)
Lemma append_pool_events_replay (events : list PoolLog) : forall pools : gmap address PoolInfo,
  (forall a p, pools !! a = Some p -> exists st, replay (pi_state p) (events_of a events) = Ret st) ->
  exists pools', append_pool_events pools events = Ret pools' /\
    forall a, match pools !! a with
              | None => pools' !! a = None
              | Some p => exists st, replay (pi_state p) (events_of a events) = Ret st /\ pools' !! a = Some (with_state st p)
              end.
Proof.
  induction events as [|[e b] events IH]; intros pools Hr.
  { exists pools. split; [done|]. intros a. destruct (pools !! a) as [p|] eqn:E; [|done].
    exists (pi_state p). split; [done|]. by destruct p. }
  cbn [append_pool_events]. destruct (pools !! b) as [p|] eqn:E.
  - destruct (Hr b p E) as [st Hst]. rewrite events_of_cons, decide_True in Hst by done. cbn [replay] in Hst.
    destruct (apply_event (pi_state p) e) as [st1|] eqn:E1; [|done]. cbn [comp_bind] in Hst |- *.
    destruct (IH (<[b := with_state st1 p]> pools)) as (pools' & Hp & Hl).
    { intros a q. destruct (decide (b = a)) as [<-|Hne].
      - rewrite lookup_insert_eq. intros [= <-]. eauto.
      - rewrite lookup_insert_ne by done. intros Hq. destruct (Hr a q Hq) as [st' H'].
        rewrite events_of_cons, decide_False in H' by done. eauto. }
    exists pools'. split; [done|]. intros a. specialize (Hl a). rewrite events_of_cons.
    destruct (decide (b = a)) as [<-|Hne].
    + rewrite lookup_insert_eq in Hl. rewrite E. destruct Hl as (st' & H1 & H2). exists st'. split; [|by destruct p].
      cbn [replay]. by rewrite E1.
    + by rewrite lookup_insert_ne in Hl by done.
  - destruct (IH pools) as (pools' & Hp & Hl).
    { intros a q Hq. destruct (Hr a q Hq) as [st' H']. rewrite events_of_cons, decide_False in H' by congruence. eauto. }
    exists pools'. split; [done|]. intros a. specialize (Hl a). rewrite events_of_cons.
    destruct (decide (b = a)) as [<-|]; [by rewrite E in *|done].
Qed.

(** ** The chain

    The events of every block, in the order of their log indexes, and the pools after it:
    the state of a pool after a block is what the contract makes of the block's events. *)
Record PoolChain := mkPoolChain {
  ch_events : nat -> list (nat * PoolLog);
  ch_pools : nat -> address -> option PoolInfo;
}.

Record chain_ok (c : PoolChain) : Prop := {
  chain_indexes : forall b, StronglySorted (fun x y => (x.1 < y.1)%nat) (ch_events c b);
  chain_pools : forall b a p, ch_pools c b a = Some p -> consistent (pi_state p) /\
    exists st, contract_run (pi_state p) (events_of a (ch_events c (S b)).*2) st /\ ch_pools c (S b) a = Some (with_state st p);
}.

Lemma contract_run_replay pool events pool' : consistent pool -> contract_run pool events pool' -> replay pool events = Ret pool'.
Proof.
  intros Hc Hr. induction Hr as [|pool event pool1 events pool2 He _ IH]; [done|]. cbn [replay].
  rewrite (contract_event_applied _ _ _ Hc He). cbn [comp_bind]. apply IH. by eapply contract_event_consistent.
Qed.

Lemma chain_replays c b a p : chain_ok c -> ch_pools c b a = Some p ->
  exists st, replay (pi_state p) (events_of a (ch_events c (S b)).*2) = Ret st /\ ch_pools c (S b) a = Some (with_state st p).
Proof.
  intros Hc Hp. destruct (chain_pools c Hc b a p Hp) as (Hcons & st & Hr & Hst). exists st. split; [|done].
  by apply contract_run_replay.
Qed.

(** The events of the blocks from [lo] on, up to but not including [hi]. *)
Definition chain_keyed (c : PoolChain) (lo hi : nat) : RecentEventsCache :=
  mbind (fun b => (fun e => ((b, e.1), e.2)) <$> ch_events c b) (seq lo (hi - lo)).
Definition chain_logs (c : PoolChain) (lo hi : nat) : list (PoolEvent * Log) :=
  (fun e => (e.2.1, mkLog (Some e.1.1) (Some e.1.2) e.2.2)) <$> chain_keyed c lo hi.

Lemma chain_keyed_app c a m e : (a <= m <= e)%nat -> chain_keyed c a e = chain_keyed c a m ++ chain_keyed c m e.
Proof. intros H. unfold chain_keyed. by rewrite (seq_split a m e H), bind_app. Qed.

Lemma chain_keyed_block c lo hi e : e ∈ chain_keyed c lo hi -> (lo <= e.1.1 < hi)%nat.
Proof.
  unfold chain_keyed. rewrite list_elem_of_bind. intros (b & (x & -> & _)%list_elem_of_fmap & Hb%elem_of_seq). cbn. lia.
Qed.

Lemma chain_keyed_filter c lo hi m n : (lo <= m)%nat -> (m <= n)%nat -> (n <= hi)%nat ->
  filter (fun e => (m <= e.1.1 < n)%nat) (chain_keyed c lo hi) = chain_keyed c m n.
Proof.
  intros H1 H2 H3. rewrite (chain_keyed_app c lo m hi), (chain_keyed_app c m n hi), !filter_app by lia.
  rewrite (filter_none _ (chain_keyed c lo m)), (filter_all _ (chain_keyed c m n)), (filter_none _ (chain_keyed c n hi)).
  - by rewrite app_nil_r.
  - intros e He%chain_keyed_block. lia.
  - intros e He%chain_keyed_block. lia.
  - intros e He%chain_keyed_block. lia.
Qed.

Section chain.
Context (c : PoolChain) (Hc : chain_ok c).

Lemma chain_replay a p b k : ch_pools c b a = Some p ->
  exists st, replay (pi_state p) (events_of a (chain_keyed c (S b) (S b + k)).*2) = Ret st /\
    ch_pools c (b + k) a = Some (with_state st p).
Proof.
  intros Hp. induction k as [|k IH].
  - exists (pi_state p). unfold chain_keyed. rewrite Nat.add_0_r, Nat.sub_diag, Nat.add_0_r. split; [done|].
    rewrite Hp. by destruct p.
  - destruct IH as (st & H1 & H2). destruct (chain_replays c _ _ _ Hc H2) as (st' & H3 & H4). exists st'.
    rewrite (chain_keyed_app c (S b) (S b + k)) by lia. rewrite fmap_app, events_of_app, replay_app, H1. cbn [comp_bind].
    replace (b + S k)%nat with (S (b + k)) by lia. split; [|rewrite H4; by destruct p].
    rewrite <-H3. f_equal. f_equal. unfold chain_keyed. replace (S b + S k - (S b + k))%nat with 1%nat by lia.
    cbn [seq mbind list_bind]. rewrite app_nil_r, <-list_fmap_compose. apply list_fmap_ext. done.
Qed.

(** Bringing pools from one block to a later one. *)
Lemma append_chain_events pools b n : (b <= n)%nat -> (forall a p, pools !! a = Some p -> ch_pools c b a = Some p) ->
  exists pools', append_pool_events pools (chain_keyed c (S b) (S n)).*2 = Ret pools' /\ dom pools' = dom pools /\
    forall a p, pools' !! a = Some p -> ch_pools c n a = Some p.
Proof.
  intros Hle Hp. destruct (append_pool_events_replay (chain_keyed c (S b) (S n)).*2 pools) as (pools' & H1 & H2).
  { intros a p Ha. destruct (chain_replay a p b (n - b) (Hp a p Ha)) as (st & Hst & _).
    replace (S b + (n - b))%nat with (S n) in Hst by lia. eauto. }
  exists pools'. split; [done|]. split.
  - apply set_eq. intros a. specialize (H2 a). rewrite !elem_of_dom. destruct (pools !! a) as [p|].
    + destruct H2 as (st & _ & ->). split; eauto.
    + rewrite H2. done.
  - intros a p' Ha. specialize (H2 a). destruct (pools !! a) as [p|] eqn:E; [|congruence].
    destruct H2 as (st & Hst & H2). destruct (chain_replay a p b (n - b) (Hp a p E)) as (st' & Hst' & Hn).
    replace (S b + (n - b))%nat with (S n) in Hst' by lia. replace (b + (n - b))%nat with n in Hn by lia. congruence.
Qed.
End chain.

(** ** The store holds the events of the chain *)
Definition key_lt (x y : EventKey * PoolLog) : Prop := key_compare x.1 y.1 = Lt.

Lemma key_lt_spec x y : key_lt x y <-> (x.1.1 < y.1.1 \/ x.1.1 = y.1.1 /\ x.1.2 < y.1.2)%nat.
Proof.
  unfold key_lt, key_compare, then_with.
  destruct (Nat.compare_spec x.1.1 y.1.1) as [H|H|H]; [rewrite Nat.compare_lt_iff|..]; naive_solver lia.
Qed.

Lemma events_insert_last k v l : Forall (fun e => key_compare e.1 k = Lt) l -> events_insert k v l = l ++ [(k, v)].
Proof.
  induction 1 as [|[k' v'] l Hk _ IH]; [done|]. cbn [events_insert app fst] in *.
  assert (key_compare k k' = Gt) as ->; [|by rewrite IH].
  change (key_lt (k', v') (k, v)) in Hk. rewrite key_lt_spec in Hk. cbn in Hk. unfold key_compare, then_with.
  destruct (Nat.compare_spec k.1 k'.1) as [|H|H]; [apply Nat.compare_gt_iff|..]; naive_solver lia.
Qed.

Definition to_logs (l : RecentEventsCache) : list (PoolEvent * Log) :=
  (fun e => (e.2.1, mkLog (Some e.1.1) (Some e.1.2) e.2.2)) <$> l.

Lemma append_logs_sorted ks : forall l, StronglySorted key_lt (l ++ ks) -> append_logs (to_logs ks) l = (l ++ ks, Ok tt).
Proof.
  induction ks as [|[[b i] [e a]] ks IH]; intros l Hs; [by rewrite app_nil_r|].
  cbn [to_logs fmap list_fmap append_logs log_block_number log_index log_address fst snd].
  rewrite events_insert_last.
  - fold (to_logs ks). rewrite (cons_middle _ l ks), app_assoc in Hs. rewrite (cons_middle _ l ks), app_assoc. by apply IH.
  - apply StronglySorted_app in Hs as (Hlt & _ & _). apply Forall_forall. intros x Hx.
    apply (Hlt x ((b, i), (e, a))); [done|set_solver].
Qed.

Lemma list_bind_ext_elem {A B} (f g : A -> list B) l : (forall x, x ∈ l -> f x = g x) -> mbind f l = mbind g l.
Proof. induction l as [|x l IH]; intros H; [done|]. rewrite !bind_cons, H, IH; set_solver. Qed.

Section store.
Context (c : PoolChain) (Hc : chain_ok c).

Lemma chain_keyed_sorted lo hi : StronglySorted key_lt (chain_keyed c lo hi).
Proof.
  unfold chain_keyed. generalize (hi - lo)%nat. intros n. revert lo. induction n as [|n IH]; intros lo; [constructor|].
  cbn [seq mbind list_bind]. apply StronglySorted_app. split; [|split; [|apply IH]].
  - intros x y (e & -> & _)%list_elem_of_fmap Hy. apply key_lt_spec. left. cbn [fst].
    apply list_elem_of_bind in Hy as (b & (e' & -> & _)%list_elem_of_fmap & Hb%elem_of_seq). cbn. lia.
  - induction (chain_indexes c Hc lo) as [|e l _ IHl He]; [constructor|]. rewrite fmap_cons. constructor; [done|].
    apply Forall_fmap. eapply Forall_impl; [exact He|]. intros y Hy. apply key_lt_spec. cbn. auto.
Qed.

Lemma append_new_blocks k last m : (k <= S last)%nat -> (last <= m)%nat ->
  append_logs (chain_logs c (S last) (S m)) (chain_keyed c k (S last)) = (chain_keyed c k (S m), Ok tt).
Proof.
  intros H1 H2. rewrite (chain_keyed_app c k (S last) (S m)) by lia. apply append_logs_sorted.
  rewrite <-chain_keyed_app by lia. apply chain_keyed_sorted.
Qed.

Lemma get_chain_events k last lo hi : (k <= lo)%nat -> (lo <= S hi)%nat -> (hi <= last)%nat ->
  get_events (lo, hi) (chain_keyed c k (S last)) = (chain_keyed c lo (S hi)).*2.
Proof.
  intros H1 H2 H3. unfold get_events. cbn [fst snd].
  rewrite <-(chain_keyed_filter c k (S last) lo (S hi)) by lia. f_equal. apply list_filter_iff. intros e. lia.
Qed.

Lemma remove_chain_events k last n : (k <= n)%nat -> (n <= S last)%nat ->
  remove_events_older_than_block n (chain_keyed c k (S last)) = chain_keyed c n (S last).
Proof.
  intros H1 H2. unfold remove_events_older_than_block. rewrite (chain_keyed_app c k n (S last)), filter_app by lia.
  rewrite filter_none, filter_all; [done|intros e He%chain_keyed_block; lia..].
Qed.

(** Replacing the events of the blocks from [a] on, after the chain changed from there. *)
Lemma replace_changed_blocks old k a m : (k <= a)%nat -> (a <= m)%nat ->
  (forall b, (b < a)%nat -> ch_events old b = ch_events c b) -> forall last, (a <= S last)%nat ->
  replace_logs (chain_logs c a (S m)) (a, m) (chain_keyed old k (S last)) = (chain_keyed c k (S m), Ok tt).
Proof.
  intros H1 H2 Hsame last H3. unfold replace_logs, remove_events_newer_than_block. cbn [fst].
  rewrite (chain_keyed_app old k a (S last)), filter_app by lia.
  rewrite filter_all, filter_none, app_nil_r; [|intros e He%chain_keyed_block; lia..].
  assert (chain_keyed old k a = chain_keyed c k a) as ->.
  { unfold chain_keyed. apply list_bind_ext_elem. intros b Hb%elem_of_seq. rewrite Hsame by lia. done. }
  rewrite (chain_keyed_app c k a (S m)) by lia. apply append_logs_sorted.
  rewrite <-chain_keyed_app by lia. apply chain_keyed_sorted.
Qed.
End store.

(** ** Anything that happens to a fetcher

    Pools are asked for and flagged as missing, missing pools are read from the subgraph,
    the checkpoint moves, new blocks arrive and blocks after the checkpoint are replaced. *)
Definition subgraph_ok (c : PoolChain) (b : nat) (answer : result PoolError (list PoolData)) : Prop :=
  match answer with
  | Ok pools => forall p info, p ∈ pools -> PoolInfo_try_from p = Ok info -> ch_pools c b (pd_id p) = Some info
  | Err _ => True
  end.

Definition with_checkpoint (cp : PoolsCheckpoint) (f : UniswapV3PoolFetcher) : UniswapV3PoolFetcher := mkFetcher cp (uf_events f).
Definition handled (f : UniswapV3PoolFetcher) : nat := last_handled_block (uf_events f).

Inductive fetcher_step : PoolChain * UniswapV3PoolFetcher -> PoolChain * UniswapV3PoolFetcher -> Prop :=
| step_get c f by_pair token_pairs :
    fetcher_step (c, f) (c, with_checkpoint (checkpoint_get by_pair token_pairs (uf_checkpoint f)).2 f)
| step_missing c f fetch :
    subgraph_ok c (cp_block_number (uf_checkpoint f))
      (fetch (elements (cp_missing_pools (uf_checkpoint f))) (cp_block_number (uf_checkpoint f))) ->
    fetcher_step (c, f) (c, with_checkpoint (update_missing_pools fetch (uf_checkpoint f) (uf_checkpoint f)).1 f)
| step_move c f f' r : move_checkpoint_to_future f = Ret (f', r) -> fetcher_step (c, f) (c, f')
| step_blocks c f m events : (handled f <= m)%nat -> last_handled_block events = m ->
    handler_store events = (append_logs (chain_logs c (S (handled f)) (S m)) (fetcher_store f)).1 ->
    fetcher_step (c, f) (c, mkFetcher (uf_checkpoint f) events)
| step_reorg c c' f a m events : chain_ok c' -> (cp_block_number (uf_checkpoint f) < a)%nat -> (a <= S (handled f))%nat -> (a <= m)%nat ->
    (forall b, (b < a)%nat -> ch_events c b = ch_events c' b /\ forall x, ch_pools c b x = ch_pools c' b x) ->
    last_handled_block events = m ->
    handler_store events = (replace_logs (chain_logs c' a (S m)) (a, m) (fetcher_store f)).1 ->
    fetcher_step (c, f) (c', mkFetcher (uf_checkpoint f) events).

(** The checkpoint is the chain's state at its block, and the store holds every event after
    it. *)
Record fetcher_ok (c : PoolChain) (f : UniswapV3PoolFetcher) : Prop := {
  fo_chain : chain_ok c;
  fo_pools : forall a p, cp_pools (uf_checkpoint f) !! a = Some p -> ch_pools c (cp_block_number (uf_checkpoint f)) a = Some p;
  fo_block : (cp_block_number (uf_checkpoint f) <= handled f)%nat;
  fo_store : exists k, (k <= S (cp_block_number (uf_checkpoint f)))%nat /\ fetcher_store f = chain_keyed c k (S (handled f));
}.

Lemma checkpoint_get_keeps by_pair token_pairs cp :
  let cp' := (checkpoint_get by_pair token_pairs cp).2 in
  cp_pools cp' = cp_pools cp /\ cp_block_number cp' = cp_block_number cp.
Proof. unfold checkpoint_get. cbv zeta. by case_decide. Qed.

Lemma insert_missing_ok c pools : forall cp,
  (forall p info, p ∈ pools -> PoolInfo_try_from p = Ok info -> ch_pools c (cp_block_number cp) (pd_id p) = Some info) ->
  (forall a p, cp_pools cp !! a = Some p -> ch_pools c (cp_block_number cp) a = Some p) ->
  let cp' := (insert_missing pools cp).1 in
  cp_block_number cp' = cp_block_number cp /\
  forall a p, cp_pools cp' !! a = Some p -> ch_pools c (cp_block_number cp) a = Some p.
Proof.
  induction pools as [|p pools IH]; intros cp Hg Hp; [done|]. cbn [insert_missing].
  destruct (PoolInfo_try_from p) as [info|e] eqn:E; [|done].
  destruct (IH (mkPoolsCheckpoint (<[pd_id p := info]> (cp_pools cp)) (cp_block_number cp) (cp_missing_pools cp ∖ {[pd_id p]})))
    as [H1 H2]; [set_solver| |done].
  cbn [cp_pools cp_block_number]. intros a q. destruct (decide (pd_id p = a)) as [<-|Hne].
  - rewrite lookup_insert_eq. intros [= <-]. apply Hg; [set_solver|done].
  - rewrite lookup_insert_ne by done. apply Hp.
Qed.

Lemma update_missing_ok c fetch cp :
  subgraph_ok c (cp_block_number cp) (fetch (elements (cp_missing_pools cp)) (cp_block_number cp)) ->
  (forall a p, cp_pools cp !! a = Some p -> ch_pools c (cp_block_number cp) a = Some p) ->
  let cp' := (update_missing_pools fetch cp cp).1 in
  cp_block_number cp' = cp_block_number cp /\
  forall a p, cp_pools cp' !! a = Some p -> ch_pools c (cp_block_number cp) a = Some p.
Proof.
  intros Hg Hp. unfold update_missing_pools. case_decide; [done|]. unfold subgraph_ok in Hg.
  destruct (fetch _ _) as [pools|e]; [|done]. by apply insert_missing_ok.
Qed.

Lemma last_event_handled c k last b : cache_last_event_block (chain_keyed c k (S last)) = Ok b -> (b <= last)%nat.
Proof.
  unfold cache_last_event_block. destruct (list.last (chain_keyed c k (S last))) as [e|] eqn:E; [|done]. intros [= <-].
  apply last_Some_elem_of, chain_keyed_block in E. lia.
Qed.

(** The checkpoint moves along the chain. *)
Lemma move_checkpoint_ok c f : fetcher_ok c f ->
  exists f' r, move_checkpoint_to_future f = Ret (f', r) /\ fetcher_ok c f'.
Proof.
  intros [Hc Hp Hb (k & Hk & Hs)]. unfold move_checkpoint_to_future. rewrite Hs.
  destruct (cache_last_event_block _) as [n|] eqn:E; [|by eexists f, _; split; [done|]; split; eauto].
  apply last_event_handled in E. set (new := new_checkpoint_block (uf_checkpoint f) n).
  assert (Hnew : (new <= handled f)%nat) by (unfold new, new_checkpoint_block; lia).
  destruct (Nat.ltb_spec (cp_block_number (uf_checkpoint f)) new) as [Hlt|]; [|by eexists f, _; split; [done|]; split; eauto].
  unfold advance_checkpoint, RangeInclusive_try_new. destruct (Nat.leb_spec (S (cp_block_number (uf_checkpoint f))) new); [|lia].
  rewrite (get_chain_events c k (handled f)) by lia.
  destruct (append_chain_events c Hc (cp_pools (uf_checkpoint f)) (cp_block_number (uf_checkpoint f)) new) as (pools & -> & _ & Hpools);
    [lia|done|]. cbn [comp_bind]. eexists _, _. split; [done|]. split; [done|done|done|].
  exists new. cbn [uf_checkpoint cp_block_number]. split; [lia|]. unfold fetcher_store. cbn [uf_events handler_store with_store].
  unfold handled. cbn [uf_events]. rewrite (remove_chain_events c k) by (unfold handled in Hnew; lia). done.
Qed.

Lemma fetcher_step_ok s s' : fetcher_step s s' -> fetcher_ok s.1 s.2 -> fetcher_ok s'.1 s'.2.
Proof.
  intros Hstep Hok. destruct Hstep as [c f by_pair pairs|c f fetch Hg|c f f' r Hm|c f m events Hm Hl Hs|c c' f a m events Hc' Ha Ha' Ham Hsame Hl Hs];
    cbn [fst snd] in *.
  - destruct (checkpoint_get_keeps by_pair pairs (uf_checkpoint f)) as [E1 E2]. destruct Hok as [H1 H2 H3 H4].
    split; unfold with_checkpoint, fetcher_store, handled; cbn [uf_checkpoint uf_events]; rewrite ?E1, ?E2; done.
  - destruct Hok as [H1 H2 H3 H4]. destruct (update_missing_ok c fetch (uf_checkpoint f) Hg H2) as [E1 E2].
    split; unfold with_checkpoint, fetcher_store, handled; cbn [uf_checkpoint uf_events]; rewrite ?E1; done.
  - destruct (move_checkpoint_ok c f Hok) as (f'' & r'' & Hm' & ?). congruence.
  - destruct Hok as [H1 H2 H3 (k & Hk & H4)]. unfold handled in *. split; unfold fetcher_store, handled; cbn [uf_checkpoint uf_events]; [done|done|lia|].
    exists k. split; [done|]. rewrite Hs, H4, (append_new_blocks c H1) by lia. by rewrite Hl.
  - destruct Hok as [H1 H2 H3 (k & Hk & H4)]. unfold handled in *. split; unfold fetcher_store, handled; cbn [uf_checkpoint uf_events]; [done| |lia|].
    + intros x p Hx. rewrite <-(proj2 (Hsame _ Ha)). by apply H2.
    + exists k. split; [done|]. rewrite Hs, H4, Hl.
      rewrite (replace_changed_blocks c' Hc' c k a m) by (first [lia|by intros b Hb; apply Hsame|done]). done.
Qed.

Lemma append_empty events : append_pool_events ∅ events = Ret ∅.
Proof. induction events as [|[e a] events IH]; [done|]. cbn [append_pool_events]. by rewrite lookup_empty. Qed.

(** What is fetched at a handled block. *)
Lemma fetched_at_handled_block c f by_pair token_pairs b : fetcher_ok c f -> (b <= handled f)%nat ->
  let got := checkpoint_get by_pair token_pairs (uf_checkpoint f) in
  exists pools, fetch_end (fetcher_store f) b got.1.1 got.1.2 = Ret (Ok pools) /\
    forall a p, pools !! a = Some p <->
      a ∈ pool_ids by_pair token_pairs /\ a ∈ dom (cp_pools (uf_checkpoint f)) /\
      ch_pools c (Nat.max (cp_block_number (uf_checkpoint f)) b) a = Some p /\ 0 < ps_liquidity (pi_state p).
Proof.
  intros [Hc Hp Hb (k & Hk & Hs)] Hle. cbv zeta. unfold checkpoint_get. case_decide as Hids; cbn [fst snd].
  { exists ∅. split; [|intros a p; rewrite Hids, lookup_empty; set_solver]. unfold fetch_end.
    destruct (Nat.ltb_spec 0 b); cbn [comp_bind result_bind]; [|done].
    unfold RangeInclusive_try_new. destruct (Nat.leb_spec 1 b); [|lia]. by rewrite append_empty. }
  set (n := cp_block_number (uf_checkpoint f)) in *. set (ids := pool_ids by_pair token_pairs) in *.
  set (known := filter (fun p : address * PoolInfo => p.1 ∈ ids) (cp_pools (uf_checkpoint f))).
  assert (Hknown : forall a p, known !! a = Some p -> ch_pools c n a = Some p).
  { intros a p [H _]%map_lookup_filter_Some. by apply Hp. }
  assert (Hdom : forall a, a ∈ dom known <-> a ∈ ids /\ a ∈ dom (cp_pools (uf_checkpoint f))).
  { intros a. unfold known. rewrite !elem_of_dom. unfold is_Some. setoid_rewrite map_lookup_filter_Some. naive_solver. }
  assert (exists pools, (if (n <? b)%nat then
            match RangeInclusive_try_new (S n) b with
            | Err _ => Ret (Err EmptyPoolRange)
            | Ok range => let! pools := append_pool_events known (get_events range (fetcher_store f)) in Ret (Ok pools)
            end else Ret (Ok known)) = Ret (Ok pools) /\ dom pools = dom known /\
            forall a p, pools !! a = Some p -> ch_pools c (Nat.max n b) a = Some p) as (pools & E & Hdp & Hpp).
  { destruct (Nat.ltb_spec n b) as [Hlt|Hge].
    - unfold RangeInclusive_try_new. destruct (Nat.leb_spec (S n) b); [|lia].
      rewrite Hs, (get_chain_events c k (handled f)) by lia.
      destruct (append_chain_events c Hc known n b) as (pools & -> & Hd & Hpools); [lia|done|].
      exists pools. replace (Nat.max n b) with b by lia. done.
    - exists known. replace (Nat.max n b) with n by lia. done. }
  unfold fetch_end. rewrite E. cbn [comp_bind result_bind]. eexists. split; [done|]. intros a p.
  rewrite map_lookup_filter_Some. cbn [snd]. split.
  - intros [Hin Hl]. assert (a ∈ dom known) as [? ?]%Hdom by (rewrite <-Hdp; by apply elem_of_dom_2 in Hin). auto.
  - intros (H1 & H2 & H3 & H4). split; [|done]. assert (a ∈ dom pools) as [q Hq]%elem_of_dom by (rewrite Hdp; by apply Hdom).
    rewrite Hq. f_equal. apply Hpp in Hq. congruence.
Qed.

(** A fetcher that was just created. *)
Record initial (c : PoolChain) (f : UniswapV3PoolFetcher) : Prop := {
  in_chain : chain_ok c;
  in_pools : forall a p, cp_pools (uf_checkpoint f) !! a = Some p -> ch_pools c (cp_block_number (uf_checkpoint f)) a = Some p;
  in_handled : handled f = cp_block_number (uf_checkpoint f);
  in_store : fetcher_store f = [];
}.

Lemma initial_ok c f : initial c f -> fetcher_ok c f.
Proof.
  intros [H1 H2 H3 H4]. split; [done|done|lia|]. exists (S (handled f)). split; [lia|].
  rewrite H4. unfold chain_keyed. by rewrite Nat.sub_diag.
Qed.

(** So are those made by the constructor. *)
Lemma new_fetcher_initial c checkpoint block f : chain_ok c ->
  (forall a p, cp_pools checkpoint !! a = Some p -> ch_pools c (cp_block_number checkpoint) a = Some p) ->
  (forall n b, block n = Ok b -> b.1 = n) ->
  UniswapV3PoolFetcher_new checkpoint block = Ok f -> initial c f.
Proof.
  intros Hc Hp Hb. unfold UniswapV3PoolFetcher_new. destruct (block (cp_block_number checkpoint)) as [b|] eqn:E; [|done].
  intros [= <-]. split; [done|done| |done]. by apply Hb in E.
Qed.

(** C19 (refinement): whatever happened since the pools were first read (new blocks,
    reorganizations after the checkpoint, pools flagged as missing and read later, moves of
    the checkpoint and deletions of events), a fetch at a handled block that is not
    interleaved with the maintenance answers from the chain: of the pools of the asked for
    pairs those the checkpoint knows, with the state the contract gives them (the net
    liquidity of every tick from the positions opened and closed, price and tick of the
    last swap, and the liquidity active there), if their liquidity is positive.  The state
    is that of the requested block, or of the checkpoint when that is later; a pool that
    the checkpoint does not know yet is left out. *)
Theorem fetched_pools_are_current c0 f0 c f node by_pair token_pairs at_block
  (Hinit : initial c0 f0) (Hsteps : rtc fetcher_step (c0, f0) (c, f))
  (Hhandled : (requested_block at_block (fetcher_store f) <= handled f)%nat) :
  exists pools f', fetch node by_pair token_pairs at_block f = Ret (Ok pools, f') /\
    forall a p, pools !! a = Some p <->
      a ∈ pool_ids by_pair token_pairs /\ a ∈ dom (cp_pools (uf_checkpoint f)) /\
      ch_pools c (Nat.max (cp_block_number (uf_checkpoint f)) (requested_block at_block (fetcher_store f))) a = Some p /\
      0 < ps_liquidity (pi_state p).
Proof.
  assert (fetcher_ok c f) as Hok.
  { assert (forall s s', rtc fetcher_step s s' -> fetcher_ok s.1 s.2 -> fetcher_ok s'.1 s'.2) as H.
    { induction 1; eauto using fetcher_step_ok. }
    apply (H _ _ Hsteps). by apply initial_ok. }
  destruct (fetched_at_handled_block c f by_pair token_pairs _ Hok Hhandled) as (pools & E & Hpools).
  unfold fetch. destruct (Nat.ltb_spec (last_handled_block (uf_events f)) (requested_block at_block (fetcher_store f)));
    [unfold handled in Hhandled; lia|]. cbn [comp_bind snd fst].
  destruct (checkpoint_get by_pair token_pairs (uf_checkpoint f)) as [[checkpoint n] cp]. cbn [fst snd] in E.
  unfold fetcher_store at 1. cbn [uf_events]. fold (fetcher_store f). rewrite E. cbn [comp_bind]. eauto.
Qed.

(** ** Examples *)
Definition sample_pool (liquidity : Z) (net : gmap Z Z) : PoolInfo :=
  mkPoolInfo 7 [mkToken 1 18; mkToken 2 18] (mkPoolState 1 liquidity 4 net (3, 1000)) 108163.
Definition sample_by_pair : PoolsByPair := {[ (1, 2) := {[7]} ]}.

Definition wide_position : gmap Z Z := {[ -10 := 20; 50 := -20 ]}.
Definition two_positions : gmap Z Z := <[ 0 := 5 ]> (<[ 10 := -5 ]> wide_position).

(** One position is opened in the first block. *)
Definition sample_chain : PoolChain :=
  mkPoolChain (fun b => match b with 1%nat => [(O, (Mint 0 10 5, 7))] | _ => [] end)
    (fun b a => if a =? 7 then Some (match b with O => sample_pool 20 wide_position | _ => sample_pool 25 two_positions end) else None).

Lemma sample_pool_consistent l net :
  l = active_liquidity 4 net mod 2 ^ 256 -> map_Forall (fun _ v => v <> 0) net -> consistent (pi_state (sample_pool l net)).
Proof. intros Hl Hn. split; [done|]. intros t Ht. by apply (Hn t 0). Qed.

Lemma sample_states_consistent :
  consistent (pi_state (sample_pool 20 wide_position)) /\ consistent (pi_state (sample_pool 25 two_positions)).
Proof.
  split; (apply sample_pool_consistent; [by vm_compute|]);
    unfold two_positions, wide_position; repeat (apply map_Forall_insert_2; [done|]); apply map_Forall_empty.
Qed.

Lemma sample_chain_ok : chain_ok sample_chain.
Proof.
  destruct sample_states_consistent as [H20 H25]. split.
  - intros [|[|b]]; cbn; repeat constructor.
  - intros b a p. cbn [ch_pools sample_chain]. destruct (Z.eqb_spec a 7) as [->|]; [|done]. intros [= <-].
    destruct b as [|[|b]]; (split; [done|]); (eexists; split; [|reflexivity]); [|apply run_nil..].
    eapply run_cons; [|apply run_nil]. split; [exact H25|]. split_and!; [done..|]. intros t.
    unfold net_at, two_positions. cbn [pi_state sample_pool ps_liquidity_net].
    destruct (Z.eqb_spec t 0) as [->|H0]; [by vm_compute|]. destruct (Z.eqb_spec t 10) as [->|H1]; [by vm_compute|].
    rewrite !lookup_insert_ne by congruence. lia.
Qed.

Definition sample_fetcher (store : RecentEventsCache) (handled_block : nat) : UniswapV3PoolFetcher :=
  mkFetcher (mkPoolsCheckpoint {[ 7 := sample_pool 20 wide_position ]} 0 ∅) (mkEventHandler store [(handled_block, 0)]).

Lemma fetched_pools_are_current_witness :
  exists pools f',
    fetch (mkNode (Err NodeError) (fun _ => Err NodeError) (fun _ => Err NodeError) (fun _ => Err NodeError)) sample_by_pair {[ (1, 2) ]} (Number 2)
      (sample_fetcher [((1, 0)%nat, (Mint 0 10 5, 7))] 2) = Ret (Ok pools, f') /\
    forall a p, pools !! a = Some p <->
      a ∈ pool_ids sample_by_pair {[ (1, 2) ]} /\ a ∈ dom ({[ 7 := sample_pool 20 wide_position ]} : gmap address PoolInfo) /\
      ch_pools sample_chain 2 a = Some p /\ 0 < ps_liquidity (pi_state p).
Proof.
  apply (fetched_pools_are_current sample_chain (sample_fetcher [] 0) sample_chain
           (sample_fetcher [((1, 0)%nat, (Mint 0 10 5, 7))] 2) _ _ _ (Number 2)).
  - split; [apply sample_chain_ok| |done|done]. intros a p. cbn [sample_fetcher uf_checkpoint cp_pools cp_block_number].
    intros [<- <-]%lookup_singleton_Some. done.
  - apply rtc_once. apply (step_blocks sample_chain (sample_fetcher [] 0) 2); [cbn; lia|done|]. by vm_compute.
  - cbn. lia.
Defined.

Definition liquidities (r : comp (result PoolError (gmap address PoolInfo))) : option (list Z) :=
  match r with Ret (Ok pools) => Some ((fun p => ps_liquidity (pi_state p.2)) <$> map_to_list pools) | _ => None end.

(** The maintenance may run between the two halves of a fetch.  The checkpoint that the
    fetch has read is the old one, the events up to the new one are gone: the pool is
    answered without its first event. *)
Example maintenance_within_fetch :
  let f := sample_fetcher [((1, 0)%nat, (Swap 1 99 4, 7)); ((70, 0)%nat, (OtherEvent, 8))] 70 in
  let got := checkpoint_get sample_by_pair {[ (1, 2) ]} (uf_checkpoint f) in
  liquidities (fetch_end (fetcher_store f) 70 got.1.1 got.1.2) = Some [99] /\
  match move_checkpoint_to_future f with
  | Ret (f', Ok _) => liquidities (fetch_end (fetcher_store f') 70 got.1.1 got.1.2) = Some [20]
  | _ => False
  end.
Proof. by vm_compute. Qed.
